(* ===== verification/_CoqProject ===== *)
-Q . S2P
Prelude.v
Machine.v
Page.v
Slab.v
Ring.v
Ipc.v
Mmu.v
Memguard.v
Elf.v
Pipe.v
Fd.v
Vfs.v
Ramfs.v
File.v
Signal.v
Process.v
Vm.v
Mmap.v
Lifetime.v
Lifecycle.v
Spawn.v
Supervisor.v
Population.v
Klesis.v
Sms.v
AuditLog.v
Firewall.v
Block.v
Cache.v
LfsMeta.v
LfsCheckpoint.v
LfsLog.v
LfsCompact.v
Lfs.v
LfsRecovery.v
LfsFile.v
LfsSpec.v
Encryption.v
LfsClean.v
LfsDir.v
Kelyphos.v
Wmt.v
Gpt.v
SecureBoot.v
