(* ===== verification/Prelude.v ===== *)
(** * Thumos: a verification development for the thumos phone kernel

    Thumos is a single-core ARMv7 kernel ([src/crates/thumos/src]) for a
    feature phone, with protocol crates around it that the kernel and the
    user-space daemons share. This development models the kernel's core (memory,
    processes, descriptors and files, storage, supervision) and, above it, text
    messages, the audit log, the packet filter and the transport to the radio
    chip. A file name below without a directory
    is under [src/crates/thumos/src].

    ** How the program is put together, and where it is modelled

    A trap ([exceptions.rs]) saves the interrupted registers in a frame,
    publishes it to [process.rs] and dispatches a system call or a timer tick.
    The call reads and writes the caller's memory only through [memguard.rs],
    which walks the caller's page tables ([mmu.rs]), whose tables come from
    static pools and whose frames come from [page.rs]. Descriptors ([fd.rs])
    name shared open-file descriptions, which lead to pipes ([pipe.rs]) or
    through the mount table ([vfs.rs]) to a file system: one in memory
    ([ramfs.rs]), or the log-structured one ([lfs.rs] and the files named after
    it) on an eMMC device ([block.rs]) behind a write-back cache ([cache.rs]).
    [process.rs] owns the process table; spawning reads an ELF image
    ([elf.rs]), and the death of a process returns its frames, closes its
    descriptors, drops its futex waiters and reports to [supervisor.rs].
    [sms.rs] speaks to the modem through a transport with the codecs of
    [klesis-core]; [firewall.rs] parses packets with [asphaleia-core] and hands
    its verdicts to [audit.rs]. The radio chip is powered by a sequencer and
    reached through a serial transport of its own crate, [kelyphos].

    Shared:
    - [Prelude]: outcomes (a value or a panic), results, indexing as Rust does
      it, counting and summing lemmas.
    - [Machine]: 32-bit words and their wrap-around, bit operations, byte
      memory with little-endian word accesses, the decoding of text.
    - [Ring]: the circular-buffer reasoning shared by inboxes and pipes.

    Memory:
    - [Page] (Module [page], [page.rs]): the bitmap, the free count, the managed
      range and memory; allocation, release and initialisation.
    - [Slab] (Module [slab], [slab.rs], [heap.rs]): the size classes behind
      [GlobalAlloc], their free lists threaded through the free objects.
    - [Mmu] (Module [mmu], [mmu.rs]): two-level tables in byte memory, the pools
      of tables, mapping, unmapping, protection, cloning and release.
    - [Memguard] (Module [memguard], [memguard.rs]): the permission walk and
      the copy loops. The class [UserMemory] is what a system call sees of its
      caller's memory, [UserMemoryLaws] its laws, and the model of the CPU over
      real page tables its instance; pipes, futexes and signal frames are proved
      against the class.
    - [Vm] (Module [vm]): frames and page tables together, over one memory: the
      page-level helpers of [syscall.rs].
    - [Mmap] (Module [mmap], [syscall.rs]): brk, mmap, munmap, mprotect.

    Processes:
    - [Signal] (Modules [capability], [signal]): capability sets, signal
      actions and pending sets, the signal frame on the user stack.
    - [Process] (Module [process], [process.rs], [futex.rs], the trap handlers
      of [exceptions.rs], sleep and nanosleep): one record holding the process
      table, the current process, the trap frame, the futex table and the
      descriptor layer, known through the class [DescriptorLayer].
    - [Ipc] (Module [ipc], [ipc.rs]): inboxes, send and receive.
    - [Elf] (Module [elf], [elf.rs]): validation and loading of an image.
    - [Lifetime], [Lifecycle], [Spawn] ([process.rs]): the deep copy of fork
      and the teardown of exit; spawn, fork and exit over the whole state; the
      entry of a program with its image, stack and trampoline.
    - [Population] (Module [population]; execve and exit of [syscall.rs],
      [exec_replace_context] and the fault path of [process.rs],
      [restart_supervised] of [kardia.rs]): the calls that replace, end and
      restart processes, and the transition system in which every entry point
      of the processes above is a step.
    - [Supervisor] (Modules [supervisor], [liveness]): the fault ring, the
      restart policy, and the gate in front of the watchdog.

    Files:
    - [Pipe] (Module [pipe], [pipe.rs]) and [Fd] (Module [fd], [fd.rs]): pipes
      and their pool; descriptor tables and reference-counted descriptions.
    - [Vfs] (Module [vfs], [vfs.rs]): the class [Filesystem], the mount table
      and path resolution. [Ramfs] (Module [ramfs], [ramfs.rs], [build.rs]) is
      an instance, with the cpio reader and the build script's writer.
    - [File] (Module [file], [fd.rs], [syscall.rs]): the descriptor calls that
      reach a file system, over any instance of [Filesystem].

    Storage:
    - [Block] (Module [block], [block.rs], the trait of [emmc.rs]): block
      devices. The class [BlockDevice] is the trait, [BlockDeviceLaws] what the
      layers above rely on: a sector is written or it is not, and a transfer may
      fail after any sector. The devices of [block.rs] over any controller
      ([MsdcOps], [MsdcLaws]) are instances.
    - [Cache] (Module [cache], [cache.rs]): the table of cached blocks, its
      eviction and write-back.
    - [Encryption] (Module [encryption], [encryption.rs]): the device that
      encrypts every block below the cache, an instance of [BlockDevice] over
      any other. AES-XTS is the class [XtsCipher].
    - [Gpt] (Module [gpt], [gpt.rs]): the partition table, searched by name.
    - [SecureBoot] (Module [secure_boot], [secure_boot.rs] and the step of
      [kinit.rs] that sets the trust flag): verification of the boot partition,
      over [Gpt] and the partition view of [Block]. Ed25519 and SHA-512 are the
      class [SignatureScheme].
    - [LfsMeta] (Modules [codec], [lfs_imap], [lfs_segment]), [LfsCheckpoint],
      [LfsLog] and [LfsCompact]: the inode map and the segment map with their
      layout on disk, the two checkpoint slots, the log writer and the cleaner,
      one Module per file [lfs_*.rs].
    - [Lfs] (Module [lfs], [lfs.rs]): the file system, its state and every
      operation: format, mount, sync, read, write, truncate, create, unlink,
      lookup, readdir, stat.
    - [LfsRecovery], [LfsFile], [LfsSpec], [LfsClean] and [LfsDir] define no
      code: they hold the theorems on crashes, on the log as a store of blocks,
      on files, on the cleaner and on directories. [LfsSpec.lfs_spec.fs_ok] is
      the invariant of a mounted file system and counts the blocks it may still
      append, [abs] the files it stands for.

    Services:
    - [Klesis] (one Module per file of [src/crates/klesis-core/src]) and [Sms]
      (Module [sms], [sms.rs]): SMS codecs, submission, delivery, inbox. The
      modem is any instance of the class [ModemTransport], the trait of
      [telephony.rs].
    - [AuditLog] (Module [audit], [audit.rs]): the chained ring of events.
    - [Firewall] (Modules [asphaleia], [firewall], [firewall.rs] and
      [src/crates/asphaleia-core/src/lib.rs]): parsing, rules, blocklist, and
      the flush into the log of [AuditLog].
    - [Kelyphos] (Modules [config], [stp], [transport]; [config.rs], [stp.rs],
      [transport.rs] of [src/crates/kelyphos/src]): frames and their check
      sequence, the receiver, the transmit window; Modules [kelyphos_crc],
      [framing] and [window] hold the theorems. [Wmt] (Module [wmt], [wmt.rs]
      there): the power-on sequence and the subsystems, over any hardware of the
      class [RegisterIo].

    ** What the theorems show

    - Memory. The bitmap scans refine an abstract frame allocator
      ([alloc_contiguous_refines]) whose clients never hold overlapping frames
      ([no_double_allocation]); heap blocks never overlap
      ([heap_blocks_never_overlap]). A mapping changes the translation of
      exactly one page ([map_page_installs_one_page]); the permission walk accepts
      what the architecture's walk grants PL0, up to the last page of the
      address space ([user_range_check_exact]); mmap is all or nothing for every
      length whose end does not wrap ([mmap_all_or_nothing]).
    - Processes. A relation over the kernel's entry points, with fork, execve,
      exit, faults and restarts among its steps, keeps one running process,
      blocked futex waiters and a runnable PID 0, and a process that faults is
      always ended ([population_stays_live], on [reachable_live] for the steps
      on the table alone); a failed execve changes no process
      ([execve_fails_cleanly]); registers are restored exactly ([resumes_with_saved_registers],
      [svc_resumes_one_process]); a ready process is bypassed a bounded number
      of times ([bounded_bypass]). Delivery followed by sigreturn restores the
      interrupted registers and no frame escalates privilege
      ([deliver_sigreturn_roundtrip], [sigreturn_never_escalates]). Memory calls
      in their ranges, fork and exit keep processes isolated
      ([lifecycle_keeps_isolation]), fork copies memory and touches nothing else
      ([fork_copies_memory]), exit returns every frame
      ([exit_returns_frames]), and a program found in the file system starts
      with the bytes of its file, given room for its stack away from the
      trampoline ([program_started_from_file]; [board_boot_room] for the board's
      layout), from
      [validated_image_is_safe], [load_confined_exact] and
      [packed_program_is_found]. Restarts are rate limited and the watchdog is
      fed only on progress ([restarts_rate_limited], [gate_pets_iff_progress]).
    - Queues and files. Inboxes and pipes refine bounded queues under any
      interleaving ([ipc_refines_bounded_queues], [pipes_refine_byte_queues]);
      reference counts are exact ([fd_refcounts_exact]); the RAM file system
      refines a tree and descriptors a cursor in it ([ramfs_refines_tree],
      [descriptors_refine_cursor]); archives round-trip and any bytes are read
      in bounded time without a panic ([archive_roundtrip], [from_cpio_total]).
    - Storage. Reads, writes and flushes through the cache behave as a plain
      array of blocks over a device that may fail at any sector
      ([cache_is_transparent]). The encrypting layer reads back what was written and
      stores ciphertext only ([encrypted_volume]); it is dependable when the
      disk is ([encrypted_dependable]), so the theorems on files hold above it.
      Whatever fails during a sync, the disk mounts with the whole state of the
      checkpoint before or the one after ([sync_is_atomic]), once it was synced
      before: the first sync of a disk is not atomic ([first_sync_not_atomic]).
      On a device that answers, files are arrays of bytes, zero past their end,
      with every error of the interface, as long as they are cut at block ends
      ([files_are_arrays]); the cleaner
      loses nothing, also when it gives up ([cleaner_keeps_files]); a created
      file is found, an unlinked one is gone, and nothing else changes, given room
      in the log and in the directory's block ([created_file_is_found],
      [unlinked_file_is_gone]). A partition is the one
      an intact table names, for any bytes on the disk ([find_partition_exact]),
      and a table with a changed byte is rejected ([changed_table_rejected]).
      Verifying the boot partition in pieces is verifying it whole
      ([streamed_equals_in_memory]), and the kernel is trusted only when the
      partition named boot carries a valid signature under a production key
      ([trust_needs_a_signature]).
    - Services. Delivered messages decode to what was sent and submitted ones
      round-trip, in the default alphabet ([delivered_message_decoded],
      [submit_pdu_roundtrip]), hostile
      ones never break the inbox ([handle_incoming_well_formed]), the dialogue
      is the one the modem expects ([send_follows_dialogue]) and time stamps are
      UTC ([scts_is_utc]). The audit log keeps the latest entries and a change
      to one needs a MAC, except to the length of a detail, which no tag covers
      ([audit_log_keeps_latest], [tampering_needs_a_mac]). A listed suffix is
      denied and an unlisted one left to the rules ([dns_blocklist_exact]), the
      latest matching rule decides ([latest_rule_decides]), and verdicts reach
      the log ([flush_reaches_audit_log]).
    - The radio chip. The receiver refines a framing of byte strings
      ([receive_refines]), so frames get through noise ([frames_get_through]);
      the check sequence is linear and tells apart payloads that differ in two
      adjacent bytes ([short_burst_detected]); the window returns what was
      queued ([window_keeps_frames]) a bounded number of times
      ([resend_exhausts]). Powering on ends within seventeen steps whatever the
      chip answers, and the regulators follow the recorded state
      ([rails_follow_state]), save for the one that GPS and the FM radio share
      ([disabling_fm_cuts_gps]).
    - Divergences proved as theorems: [first_sync_not_atomic],
      [disabling_fm_cuts_gps], and in their files [header_checksum_not_checked],
      [sequence_number_reused],
      [checkpointed_root_is_next_to_be_overwritten], [block_number_wraps],
      [detail_length_not_authenticated], [silent_message_of_other_coding_lost],
      [heap_ignores_large_alignment], [overlap_and_gap_accepted],
      [archive_clash_loses_file], [mmap_length_wraps], [brk_leaks_frames],
      [spawn_stack_takes_foreign_page], [self_kill_survived],
      [unhandled_signal_blocks_later_ones], [rewritten_program_is_stale],
      [dropped_report_ends_supervision] and [pipelined_query_not_seen].

    ** Hypotheses

    The addresses of the static page tables are chosen by the linker: [statics]
    holds them, [statics_ok] states the alignment and separation that
    [repr(align)] and distinct statics give. [system_ok] is the invariant of the
    machine, kept by every call; witnesses build a machine that satisfies it.
    [ModemTransportLaws] is what a modem owes [sms.rs]. HMAC-SHA256 belongs to a
    package outside the repository and the capacity of the log depends on the
    compiler's layout of an entry: both are parameters of [AuditLog]. A client's
    live heap blocks are ghost state of [Slab]. [RegulatorLaws] says that
    enabling and disabling a regulator switch it and nothing else does, which is
    the contract of the trait; the memory-mapped instance of [wmt.rs] leaves
    both methods empty. [XtsCipherLaws] says that decryption inverts encryption,
    keeps lengths and works on units of sixteen bytes, as XTS does. The theorems on the contents of
    the log-structured file system assume a device that answers ([dependable])
    and count the blocks an operation appends; the one on crashes does not.

    ** Machine integers, bounds and fuel

    [u32], [usize] (32 bits on the target) and [u64] are integers with the
    wrap-around of the release profile written out where the source can reach
    it. Loops over fixed arrays are structural recursions over the list of
    their indices. An index out of range is [Panic], and the theorems show where
    it does not happen. Fuel: the permission walk has one unit more than the
    pages the range spans; the search for a hole has one round more than the
    thirty-two mapping records, each round passing one; the archive loop has the
    length of the archive, each entry taking at least its header; the walk over
    the elements of a user-data header has one unit per octet; a query name has
    129 rounds, since the code stops at a 129th label; decimal digits have one
    unit per digit of the widest value; the records of a directory block have
    one unit per byte of the block, each taking at least twelve; a file has
    twelve direct blocks, so its read and write loops have thirteen rounds, and
    a write appends at most thirteen blocks; the power-on sequence has its
    seventeen steps; the verification of a partition has one unit per sector. The theorems about each loop show that
    its fuel is enough.

    ** What is not modelled

    The instruction-level entry code, cache and TLB maintenance and the device
    drivers are register-level code whose effects no Rust expression states; the
    console, audio and the user interface draw and play; sockets, key derivation
    and sessions wrap packages that are not part of the repository;
    the rest of the boot sequence drives devices. The remaining
    protocol crates are independent of the kernel's state. The page calls of the
    kernel's own threads work on raw frames and are outside the isolation
    theorem, and execve is in the transition system of [Population] but not in
    that theorem; indirect blocks, which the file system stores but never uses,
    are part of an inode only. *)

From stdpp Require Export prelude gmap.
Set Default Proof Using "Type".

(** ** Outcomes

    The kernel is built with [panic = "abort"] and without overflow checks, so
    a Rust expression either yields a value or aborts the machine (an index
    out of range).  [outcome] is that result; the total functions of the
    source are ordinary Rocq functions. *)

Inductive outcome (A : Type) : Type :=
  | Ret (a : A)
  | Panic.
Arguments Ret {_} _.
Arguments Panic {_}.

#[export] Instance outcome_ret : MRet outcome := fun A a => Ret a.
#[export] Instance outcome_bind : MBind outcome := fun A B f m =>
  match m with Ret a => f a | Panic => Panic end.
#[export] Instance outcome_fmap : FMap outcome := fun A B f m =>
  match m with Ret a => Ret (f a) | Panic => Panic end.

#[export] Instance outcome_eq_dec {A} `{EqDecision A} : EqDecision (outcome A).
Proof. solve_decision. Defined.

(** [v[i]] of a Rust slice: the element, or a panic when [i] is out of range. *)
Definition index {A} (v : list A) (i : nat) : outcome A :=
  match v !! i with Some a => Ret a | None => Panic end.

(** [v[i] = a]. *)
Definition store {A} (v : list A) (i : nat) (a : A) : outcome (list A) :=
  if decide (i < length v) then Ret (<[i:=a]> v) else Panic.

Lemma index_lt {A} (v : list A) i a : v !! i = Some a -> index v i = Ret a.
Proof. unfold index. by intros ->. Qed.

Lemma index_total {A} `{Inhabited A} (v : list A) i :
  i < length v -> index v i = Ret (v !!! i).
Proof. intros. apply index_lt. by apply list_lookup_lookup_total_lt. Qed.

Lemma store_lt {A} (v : list A) i a : i < length v -> store v i a = Ret (<[i:=a]> v).
Proof. intros. unfold store. by rewrite decide_True. Qed.

(** [dst[..n].copy_from_slice(&src[..n])]. *)
Definition copy_prefix {A} (dst src : list A) (n : nat) : outcome (list A) :=
  if (n <=? length dst) && (n <=? length src) then Ret (take n src ++ drop n dst) else Panic.

Lemma copy_prefix_ret {A} (dst src : list A) n :
  n <= length dst -> n <= length src -> copy_prefix dst src n = Ret (take n src ++ drop n dst).
Proof. intros. unfold copy_prefix. by rewrite !(proj2 (Nat.leb_le _ _)). Qed.

(** ** Results of fallible functions: Rust's [Result<A, E>]. *)

Inductive result (A E : Type) : Type :=
  | Ok (a : A)
  | Err (e : E).
Arguments Ok {_ _} _.
Arguments Err {_ _} _.

#[export] Instance result_ret {E} : MRet (fun A => result A E) := fun A a => Ok a.
#[export] Instance result_bind {E} : MBind (fun A => result A E) := fun A B f m =>
  match m with Ok a => f a | Err e => Err e end.

Definition ok_or {A E} (o : option A) (e : E) : result A E :=
  match o with Some a => Ok a | None => Err e end.

Definition is_ok {A E} (r : result A E) : bool :=
  match r with Ok _ => true | Err _ => false end.

(** ** Counting elements that satisfy a boolean test *)

Definition count_if {A} (f : A -> bool) (l : list A) : nat :=
  length (List.filter f l).

Section count_if.
Context {A : Type}.
Implicit Types (f g : A -> bool) (l : list A).

Lemma count_if_nil f : count_if f [] = 0.
Proof. done. Qed.

Lemma count_if_cons f x l :
  count_if f (x :: l) = (if f x then 1 else 0) + count_if f l.
Proof.
  unfold count_if. simpl. by destruct (f x).
Qed.

Lemma count_if_app f l k : count_if f (l ++ k) = count_if f l + count_if f k.
Proof. unfold count_if. by rewrite List.filter_app, length_app. Qed.

Lemma count_if_ext f g l :
  (forall x, x ∈ l -> f x = g x) -> count_if f l = count_if g l.
Proof.
  induction l as [|x l IH]; intros H; [done|].
  rewrite !count_if_cons, IH by set_solver.
  rewrite H by set_solver. done.
Qed.

Lemma count_if_le f l : count_if f l <= length l.
Proof.
  induction l as [|x l IH]; [done|].
  rewrite count_if_cons. simpl. destruct (f x); lia.
Qed.

Lemma count_if_pos f l : 0 < count_if f l <-> exists x, x ∈ l /\ f x = true.
Proof.
  induction l as [|x l IH].
  - rewrite count_if_nil. split; [lia|]. intros (x & Hx & _). by apply not_elem_of_nil in Hx.
  - rewrite count_if_cons. destruct (f x) eqn:E.
    + split; [|lia]. intros _. exists x. split; [left|done].
    + simpl. rewrite IH. split.
      * intros (y & ? & ?). exists y. split; [by right|done].
      * intros (y & Hy & ?). apply elem_of_cons in Hy as [->|Hy]; [congruence|]. eauto.
Qed.

(** Replacing one element moves the count by the difference of the two tests. *)
Lemma count_if_insert f l i x y :
  l !! i = Some x ->
  count_if f (<[i := y]> l) + (if f x then 1 else 0) = count_if f l + (if f y then 1 else 0).
Proof.
  intros Hx. rewrite <- (take_drop_middle _ _ _ Hx) at 2.
  rewrite (insert_take_drop _ i) by (by eapply lookup_lt_Some).
  rewrite !count_if_app, !count_if_cons. destruct (f x), (f y); lia.
Qed.

(** Changing the test from false to true at one element of a duplicate-free
    list adds one to the count. *)
Lemma count_if_flip `{EqDecision A} f g l x :
  NoDup l -> x ∈ l -> f x = false -> g x = true ->
  (forall y, y ∈ l -> y <> x -> f y = g y) ->
  count_if g l = S (count_if f l).
Proof.
  induction l as [|y l IH]; intros Hnd Hx Hf Hg Hag.
  { by apply not_elem_of_nil in Hx. }
  apply NoDup_cons in Hnd as [Hy Hnd]. rewrite !count_if_cons.
  apply elem_of_cons in Hx as [->|Hx].
  - rewrite Hf, Hg. f_equal. apply count_if_ext. intros z Hz.
    symmetry. apply Hag; [set_solver|]. by intros ->.
  - rewrite IH by (try done; intros; apply Hag; set_solver).
    rewrite (Hag y) by (try set_solver; by intros ->). lia.
Qed.
End count_if.

(** ** Sums over a list *)

Lemma NoDup_omap {A B} (f : A -> option B) (l : list A) :
  (forall x y z, x ∈ l -> y ∈ l -> f x = Some z -> f y = Some z -> x = y) -> NoDup l -> NoDup (omap f l).
Proof.
  intros Hinj Hl. induction Hl as [|x l Hx Hl IH]; cbn; [constructor|].
  assert (NoDup (omap f l)) as Hr by (apply IH; intros; eapply Hinj; try eassumption; by right).
  destruct (f x) as [z|] eqn:E; [|done]. constructor; [|done]. intros (y & Hy & Ey)%list_elem_of_omap.
  apply Hx. assert (x = y) as ->; [|done]. eapply Hinj; [left|by right|done|done].
Qed.

Lemma sum_list_insert {A} (f : A -> nat) (l : list A) i x y :
  l !! i = Some x -> sum_list (f <$> <[i := y]> l) + f x = sum_list (f <$> l) + f y.
Proof.
  intros Hx. rewrite <- (take_drop_middle _ _ _ Hx) at 2.
  rewrite (insert_take_drop _ i) by (by eapply lookup_lt_Some).
  rewrite !fmap_app, !fmap_cons, !sum_list_with_app. cbn. lia.
Qed.

Lemma sum_list_bound {A} (f : A -> nat) (l : list A) n :
  (forall x, x ∈ l -> f x <= n) -> sum_list (f <$> l) <= length l * n.
Proof.
  induction l as [|x l IH]; intros H; [done|]. cbn. specialize (IH ltac:(intros; apply H; by right)).
  pose proof (H x ltac:(left)). lia.
Qed.

Lemma sum_list_elem {A} (f : A -> nat) (l : list A) i x :
  l !! i = Some x -> f x <= sum_list (f <$> l).
Proof. intros Hx. rewrite <- (take_drop_middle _ _ _ Hx), fmap_app, fmap_cons, sum_list_with_app. cbn. lia. Qed.

(** ** Automation *)

Create HintDb thumos.
#[export] Hint Resolve index_lt store_lt : thumos.

(** Case analysis on the tests of a definition, keeping the equations. *)
Ltac split_match :=
  repeat (case_match || case_decide); simplify_eq/=.

(** [bool_hyps] turns boolean comparisons of the source into propositions. *)
Ltac bool_hyps :=
  repeat match goal with
  | H : (_ && _) = true |- _ => apply andb_true_iff in H; destruct H
  | H : (_ || _) = false |- _ => apply orb_false_iff in H; destruct H
  | H : negb _ = true |- _ => apply negb_true_iff in H
  | H : negb _ = false |- _ => apply negb_false_iff in H
  | H : (_ =? _)%Z = true |- _ => apply Z.eqb_eq in H
  | H : (_ =? _)%Z = false |- _ => apply Z.eqb_neq in H
  | H : (_ <? _)%Z = true |- _ => apply Z.ltb_lt in H
  | H : (_ <? _)%Z = false |- _ => apply Z.ltb_ge in H
  | H : (_ <=? _)%Z = true |- _ => apply Z.leb_le in H
  | H : (_ <=? _)%Z = false |- _ => apply Z.leb_gt in H
  | H : (_ =? _)%nat = true |- _ => apply Nat.eqb_eq in H
  | H : (_ =? _)%nat = false |- _ => apply Nat.eqb_neq in H
  | H : (_ <? _)%nat = true |- _ => apply Nat.ltb_lt in H
  | H : (_ <? _)%nat = false |- _ => apply Nat.ltb_ge in H
  | H : (_ <=? _)%nat = true |- _ => apply Nat.leb_le in H
  | H : (_ <=? _)%nat = false |- _ => apply Nat.leb_gt in H
  end.
