(* ===== verification/Machine.v ===== *)
(** * Machine words and physical memory

    The integers of the armv7a target ([u8], [u32], [usize] of 32 bits, [u64])
    with the wrap-around of a build without overflow checks, the negative
    errno values the syscalls return, and byte-addressed memory with the
    little-endian word accesses that raw pointers perform. *)

From S2P Require Import Prelude.
From Stdlib Require Import ZArith.
Open Scope Z_scope.

(** ** Wrap-around *)

Definition wrap8 (z : Z) : Z := z mod 2 ^ 8.
Definition wrap32 (z : Z) : Z := z mod 2 ^ 32.
Definition wrap64 (z : Z) : Z := z mod 2 ^ 64.

Definition is_u8 (z : Z) : Prop := 0 <= z < 2 ^ 8.
Definition is_u32 (z : Z) : Prop := 0 <= z < 2 ^ 32.
Definition is_u64 (z : Z) : Prop := 0 <= z < 2 ^ 64.

Lemma wrap32_small z : is_u32 z -> wrap32 z = z.
Proof. unfold is_u32, wrap32. intros. by apply Z.mod_small. Qed.

Lemma wrap32_range z : is_u32 (wrap32 z).
Proof. unfold is_u32, wrap32. apply Z.mod_pos_bound. lia. Qed.

(** [0u32.wrapping_sub(n)]: the errno encoding of the syscall layer. *)
Definition errno (n : Z) : Z := wrap32 (0 - n).

(** [!x] on a [u32]. *)
Definition not32 (x : Z) : Z := Z.lxor x (2 ^ 32 - 1).

Lemma not32_testbit x i : 0 <= i < 32 -> Z.testbit (not32 x) i = negb (Z.testbit x i).
Proof.
  intros. unfold not32. rewrite Z.lxor_spec.
  replace (2 ^ 32 - 1) with (Z.ones 32) by reflexivity.
  rewrite Z.ones_spec_low by lia. by destruct (Z.testbit x i).
Qed.

(** A bitwise operation on words stays a word when no bit at or above the
    width is set. *)
Lemma u32_of_testbit x :
  0 <= x -> (forall i, 32 <= i -> Z.testbit x i = false) -> is_u32 x.
Proof.
  intros Hx Hb. unfold is_u32. split; [done|].
  destruct (Z.lt_ge_cases x (2 ^ 32)) as [|Hge]; [done|].
  assert (32 <= Z.log2 x) by (apply Z.log2_le_pow2; lia).
  exfalso. pose proof (Z.bit_log2 x ltac:(lia)) as Hl. rewrite Hb in Hl by lia. done.
Qed.

Lemma u32_testbit_high x i : is_u32 x -> 32 <= i -> Z.testbit x i = false.
Proof.
  intros [H0 H1] Hi. destruct (Z.eq_dec x 0) as [->|Hne]; [by apply Z.testbit_0_l|].
  apply Z.bits_above_log2; [done|].
  assert (Z.log2 x < 32) by (apply Z.log2_lt_pow2; lia). lia.
Qed.

(** [1 << b] on a [u32] with [b < 32]. *)
Definition bit (b : nat) : Z := Z.shiftl 1 (Z.of_nat b).

Lemma bit_testbit b i : 0 <= i -> Z.testbit (bit b) i = bool_decide (i = Z.of_nat b).
Proof.
  intros. unfold bit. rewrite Z.shiftl_1_l, Z.pow2_bits_eqb by lia.
  case_bool_decide; [subst; apply Z.eqb_refl | apply Z.eqb_neq; lia].
Qed.

Lemma bit_nonneg b : 0 <= bit b.
Proof. unfold bit. rewrite Z.shiftl_1_l. lia. Qed.

(** [w |= 1 << b] and [w &= !(1 << b)]. *)
Definition set_bit (w : Z) (b : nat) : Z := Z.lor w (bit b).
Definition clear_bit (w : Z) (b : nat) : Z := Z.land w (not32 (bit b)).

Lemma set_bit_testbit w b i :
  0 <= i -> Z.testbit (set_bit w b) i = (bool_decide (i = Z.of_nat b) || Z.testbit w i)%bool.
Proof.
  intros. unfold set_bit. rewrite Z.lor_spec, bit_testbit by done. apply orb_comm.
Qed.

Lemma clear_bit_testbit w b i :
  0 <= i < 32 ->
  Z.testbit (clear_bit w b) i = (negb (bool_decide (i = Z.of_nat b)) && Z.testbit w i)%bool.
Proof.
  intros. unfold clear_bit. rewrite Z.land_spec, not32_testbit, bit_testbit by lia.
  apply andb_comm.
Qed.

Lemma set_bit_u32 w b : is_u32 w -> (b < 32)%nat -> is_u32 (set_bit w b).
Proof.
  intros Hw Hb. apply u32_of_testbit.
  - unfold set_bit. apply Z.lor_nonneg. split; [apply Hw | apply bit_nonneg].
  - intros i Hi. rewrite set_bit_testbit by lia.
    rewrite u32_testbit_high by done. rewrite bool_decide_eq_false_2 by lia. done.
Qed.

Lemma clear_bit_u32 w b : is_u32 w -> is_u32 (clear_bit w b).
Proof.
  intros Hw. apply u32_of_testbit.
  - unfold clear_bit. apply Z.land_nonneg. left. apply Hw.
  - intros i Hi. unfold clear_bit. rewrite Z.land_spec, u32_testbit_high by done. done.
Qed.

(** A word whose 32 low bits are all set is [0xFFFF_FFFF]. *)
Lemma u32_all_ones w :
  is_u32 w -> (forall i, 0 <= i < 32 -> Z.testbit w i = true) -> w = 0xFFFFFFFF.
Proof.
  intros Hw Hb. apply Z.bits_inj'. intros i Hi.
  destruct (Z.lt_ge_cases i 32).
  - rewrite Hb by lia. change 0xFFFFFFFF with (Z.ones 32). by rewrite Z.ones_spec_low by lia.
  - rewrite u32_testbit_high by done. change 0xFFFFFFFF with (Z.ones 32).
    by rewrite Z.ones_spec_high by lia.
Qed.

Lemma ones32_testbit i : 0 <= i < 32 -> Z.testbit 0xFFFFFFFF i = true.
Proof. intros. change 0xFFFFFFFF with (Z.ones 32). by apply Z.ones_spec_low. Qed.

(** [x & !(2^k - 1)]: rounding down to a multiple of [2^k]. *)
Lemma land_not_mask x k :
  is_u32 x -> 0 <= k < 32 -> Z.land x (not32 (2 ^ k - 1)) = x / 2 ^ k * 2 ^ k.
Proof.
  intros Hx Hk. rewrite <- Z.shiftr_div_pow2, <- Z.shiftl_mul_pow2 by lia.
  apply Z.bits_inj'. intros i Hi. rewrite Z.land_spec, Z.shiftl_spec by lia.
  destruct (Z.lt_ge_cases i 32).
  - rewrite not32_testbit by lia. replace (2 ^ k - 1) with (Z.ones k) by (by rewrite Z.ones_equiv, Z.sub_1_r).
    destruct (Z.lt_ge_cases i k).
    + rewrite Z.ones_spec_low by lia. rewrite (Z.testbit_neg_r _ (i - k)) by lia.
      apply andb_false_r.
    + rewrite Z.ones_spec_high, Z.shiftr_spec by lia. rewrite andb_true_r. f_equal. lia.
  - rewrite u32_testbit_high by done. symmetry. rewrite Z.shiftr_spec by lia.
    replace (i - k + k) with i by lia. by apply u32_testbit_high.
Qed.

(** ** Byte-addressed memory

    A finite map from addresses to bytes; an address the model has not written
    reads as zero. *)

Abbreviation memory := (gmap Z Z).

Definition load8 (m : memory) (a : Z) : Z := default 0 (m !! a).
Definition store8 (m : memory) (a v : Z) : memory := <[a:=v]> m.

Definition load32 (m : memory) (a : Z) : Z :=
  load8 m a + 2 ^ 8 * load8 m (a + 1) + 2 ^ 16 * load8 m (a + 2) + 2 ^ 24 * load8 m (a + 3).
Definition store32 (m : memory) (a v : Z) : memory :=
  store8 (store8 (store8 (store8 m a (v mod 2 ^ 8)) (a + 1) (v / 2 ^ 8 mod 2 ^ 8))
    (a + 2) (v / 2 ^ 16 mod 2 ^ 8)) (a + 3) (v / 2 ^ 24 mod 2 ^ 8).

Lemma load8_store8 m a v b : load8 (store8 m a v) b = if decide (a = b) then v else load8 m b.
Proof. unfold load8, store8. rewrite lookup_insert. by case_decide. Qed.

Lemma load8_store32_ne m a v b : (b < a \/ a + 4 <= b) -> load8 (store32 m a v) b = load8 m b.
Proof.
  intros. unfold store32. rewrite !load8_store8. repeat case_decide; lia || done.
Qed.

Lemma load32_store32 m a v : is_u32 v -> load32 (store32 m a v) a = v.
Proof.
  intros Hv. unfold load32, store32. rewrite !load8_store8.
  repeat case_decide; try lia.
  unfold is_u32 in Hv.
  pose proof (Z.div_mod v (2 ^ 8) ltac:(lia)).
  replace (v / 2 ^ 16) with (v / 2 ^ 8 / 2 ^ 8) by (rewrite Z.div_div by lia; f_equal; lia).
  replace (v / 2 ^ 24) with (v / 2 ^ 8 / 2 ^ 8 / 2 ^ 8)
    by (rewrite !Z.div_div by lia; f_equal; lia).
  pose proof (Z.div_mod (v / 2 ^ 8) (2 ^ 8) ltac:(lia)).
  pose proof (Z.div_mod (v / 2 ^ 8 / 2 ^ 8) (2 ^ 8) ltac:(lia)).
  rewrite (Z.mod_small (v / 2 ^ 8 / 2 ^ 8 / 2 ^ 8)); [lia|].
  split; [apply Z.div_pos; [|lia]; apply Z.div_pos; [|lia]; apply Z.div_pos; lia|].
  rewrite !Z.div_div by lia. apply Z.div_lt_upper_bound; lia.
Qed.

Lemma load32_ext m m' a :
  (forall b, a <= b < a + 4 -> load8 m' b = load8 m b) -> load32 m' a = load32 m a.
Proof. intros H. unfold load32. by rewrite !H by lia. Qed.

Lemma load32_store32_ne m a v b :
  (b + 4 <= a \/ a + 4 <= b) -> load32 (store32 m a v) b = load32 m b.
Proof. intros. apply load32_ext. intros. apply load8_store32_ne. lia. Qed.

(** Every cell of the memory holds a byte. *)
Definition bytes (m : memory) : Prop := forall a, is_u8 (load8 m a).

Lemma load32_range m a : bytes m -> is_u32 (load32 m a).
Proof.
  intros Hm. unfold load32, is_u32. pose proof (Hm a). pose proof (Hm (a + 1)).
  pose proof (Hm (a + 2)). pose proof (Hm (a + 3)). unfold is_u8 in *. lia.
Qed.

Lemma bytes_store8 m a v : bytes m -> is_u8 v -> bytes (store8 m a v).
Proof. intros Hm Hv b. rewrite load8_store8. case_decide; [done|apply Hm]. Qed.

Lemma bytes_store32 m a v : bytes m -> bytes (store32 m a v).
Proof.
  intros Hm. assert (forall x, is_u8 (x mod 2 ^ 8)) as H by (intros x; apply Z.mod_pos_bound; lia).
  unfold store32. repeat apply bytes_store8; auto.
Qed.

(** Zeroing [n] consecutive bytes, one store at a time. *)
Fixpoint zero_bytes (m : memory) (a : Z) (n : nat) : memory :=
  match n with
  | O => m
  | S n => zero_bytes (store8 m a 0) (a + 1) n
  end.

Lemma load8_zero_bytes n m a b :
  load8 (zero_bytes m a n) b =
    if decide (a <= b < a + Z.of_nat n) then 0 else load8 m b.
Proof.
  revert m a. induction n as [|n IH]; intros m a; simpl.
  { case_decide; [lia|done]. }
  rewrite IH, load8_store8. repeat case_decide; lia || done.
Qed.

(** [size] zero words from [a], as [write_volatile] on a [usize] pointer stores them. *)
Fixpoint zero_words (m : memory) (a : Z) (n : nat) : memory :=
  match n with
  | O => m
  | S n => zero_words (store32 m a 0) (a + 4) n
  end.

Lemma load8_store32_zero m a b :
  load8 (store32 m a 0) b = if decide (a <= b < a + 4) then 0 else load8 m b.
Proof.
  unfold store32. rewrite !load8_store8.
  rewrite !Z.div_0_l, !Z.mod_0_l by lia.
  repeat case_decide; lia || done.
Qed.

Lemma load8_zero_words n m a b :
  load8 (zero_words m a n) b =
    if decide (a <= b < a + 4 * Z.of_nat n) then 0 else load8 m b.
Proof.
  revert m a. induction n as [|n IH]; intros m a; cbn [zero_words].
  { case_decide; [lia|done]. }
  rewrite IH, load8_store32_zero. repeat case_decide; lia || done.
Qed.

Lemma bytes_zero_words n m a : bytes m -> bytes (zero_words m a n).
Proof. intros Hm b. rewrite load8_zero_words. case_decide; [done|apply Hm]. Qed.

(** ** Byte strings

    [u32::to_ne_bytes] and [u32::from_ne_bytes] on the little-endian target,
    and their extension to arrays of words. *)

Definition le_bytes (v : Z) : list Z :=
  [v mod 2 ^ 8; v / 2 ^ 8 mod 2 ^ 8; v / 2 ^ 16 mod 2 ^ 8; v / 2 ^ 24 mod 2 ^ 8].

Definition of_le_bytes (b0 b1 b2 b3 : Z) : Z := b0 + 2 ^ 8 * b1 + 2 ^ 16 * b2 + 2 ^ 24 * b3.

Definition bytes_of_words (ws : list Z) : list Z := ws ≫= le_bytes.

(** [chunks_exact(4)], each chunk read as a word. *)
Fixpoint words_of_bytes (bs : list Z) : list Z :=
  match bs with
  | b0 :: b1 :: b2 :: b3 :: bs => of_le_bytes b0 b1 b2 b3 :: words_of_bytes bs
  | _ => []
  end.

Lemma of_le_bytes_le_bytes v :
  is_u32 v -> of_le_bytes (v mod 2 ^ 8) (v / 2 ^ 8 mod 2 ^ 8) (v / 2 ^ 16 mod 2 ^ 8) (v / 2 ^ 24 mod 2 ^ 8) = v.
Proof.
  intros Hv. pose proof (load32_store32 ∅ 0 v Hv) as H. unfold load32, store32 in H.
  rewrite !load8_store8 in H. cbn [Z.add] in H. rewrite !decide_False in H by done.
  rewrite !decide_True in H by done. exact H.
Qed.

Lemma words_of_bytes_of_words ws : Forall is_u32 ws -> words_of_bytes (bytes_of_words ws) = ws.
Proof.
  induction 1 as [|w ws Hw _ IH]; [done|]. unfold bytes_of_words in *. rewrite bind_cons.
  cbn [le_bytes app words_of_bytes]. by rewrite of_le_bytes_le_bytes, IH.
Qed.

Lemma length_bytes_of_words ws : length (bytes_of_words ws) = (4 * length ws)%nat.
Proof.
  induction ws as [|w ws IH]; [done|]. unfold bytes_of_words in *. rewrite bind_cons, length_app, IH.
  cbn [le_bytes length]. lia.
Qed.

Lemma length_words_of_bytes n bs : length bs = (4 * n)%nat -> length (words_of_bytes bs) = n.
Proof.
  revert bs. induction n as [|n IH]; intros bs H.
  - by assert (bs = []) as -> by (apply nil_length_inv; lia).
  - destruct bs as [|b0 [|b1 [|b2 [|b3 bs]]]]; cbn [length] in H; try lia.
    cbn [words_of_bytes length]. f_equal. apply IH. lia.
Qed.

(** ** Text *)

Module utf8.

(** [core::str::from_utf8]: well-formed sequences, without surrogates, overlong
    forms or code points beyond U+10FFFF. *)
Definition in_range (lo hi b : Z) : bool := (lo <=? b) && (b <=? hi).
Definition continuation (b : Z) : bool := in_range 0x80 0xBF b.
Definition second_of_three (b0 b1 : Z) : bool :=
  if b0 =? 0xE0 then in_range 0xA0 0xBF b1 else if b0 =? 0xED then in_range 0x80 0x9F b1 else in_range 0xE0 0xEF b0 && continuation b1.
Definition second_of_four (b0 b1 : Z) : bool :=
  if b0 =? 0xF0 then in_range 0x90 0xBF b1 else if b0 =? 0xF4 then in_range 0x80 0x8F b1 else in_range 0xF1 0xF3 b0 && continuation b1.
Fixpoint from_utf8 (s : list Z) : bool :=
  match s with
  | [] => true
  | b0 :: s1 =>
      if b0 <? 0x80 then from_utf8 s1 else
      match s1 with
      | [] => false
      | b1 :: s2 =>
          if in_range 0xC2 0xDF b0 && continuation b1 then from_utf8 s2 else
          match s2 with
          | [] => false
          | b2 :: s3 =>
              if second_of_three b0 b1 && continuation b2 then from_utf8 s3 else
              match s3 with
              | [] => false
              | b3 :: s4 => if second_of_four b0 b1 && continuation b2 && continuation b3 then from_utf8 s4 else false
              end
          end
      end
  end.

(** The bytes a sequence that starts with [b0] and goes on with [s] takes: a
    well-formed character, or the bytes that one replacement stands for. *)
Definition sequence (b0 : Z) (s : list Z) : bool * nat :=
  if b0 <? 0x80 then (true, 1%nat) else
  match s with
  | [] => (false, 1%nat)
  | b1 :: s =>
      if in_range 0xC2 0xDF b0 then if continuation b1 then (true, 2%nat) else (false, 1%nat) else
      if second_of_three b0 b1 then
        match s with b2 :: _ => if continuation b2 then (true, 3%nat) else (false, 2%nat) | [] => (false, 2%nat) end
      else if second_of_four b0 b1 then
        match s with
        | b2 :: s =>
            if continuation b2 then
              match s with b3 :: _ => if continuation b3 then (true, 4%nat) else (false, 3%nat) | [] => (false, 3%nat) end
            else (false, 2%nat)
        | [] => (false, 2%nat)
        end
      else (false, 1%nat)
  end.

(** [String::from_utf8_lossy]: each ill-formed sequence becomes U+FFFD. *)
Fixpoint lossy (fuel : nat) (s : list Z) : list Z :=
  match fuel, s with
  | S fuel, b0 :: s' =>
      let '(good, n) := sequence b0 s' in
      (if good then take n s else [0xEF; 0xBF; 0xBD]) ++ lossy fuel (drop n s)
  | _, _ => []
  end.

Definition from_utf8_lossy (s : list Z) : list Z := lossy (length s) s.

Lemma lossy_valid fuel : forall s, (length s <= fuel)%nat -> from_utf8 s = true -> lossy fuel s = s.
Proof.
  induction fuel as [|fuel IH]; intros [|b0 s1] Hl H; cbn [length lossy] in *; [done|lia|done|].
  unfold sequence. cbn [from_utf8] in H. destruct (b0 <? 0x80) eqn:E0.
  { cbn [take drop app]. f_equal. apply IH; [lia|done]. }
  destruct s1 as [|b1 s2]; [done|]. cbn [length] in Hl.
  destruct (in_range 0xC2 0xDF b0) eqn:E2.
  - assert (second_of_three b0 b1 = false /\ second_of_four b0 b1 = false) as [H3 H4].
    { unfold second_of_three, second_of_four, in_range in *. apply andb_prop in E2 as [L%Z.leb_le U%Z.leb_le].
      rewrite !(proj2 (Z.eqb_neq b0 _)) by lia. rewrite !(proj2 (Z.leb_gt _ b0)) by lia. done. }
    rewrite H3, H4 in H. cbn [andb] in H. destruct (continuation b1).
    + cbn [take drop app]. do 2 f_equal. apply IH; [lia|done].
    + cbn [andb] in H. by destruct s2 as [|? []].
  - cbn [andb] in H. destruct s2 as [|b2 s3]; [done|]. cbn [length] in Hl.
    destruct (second_of_three b0 b1) eqn:E3.
    + destruct (continuation b2).
      * cbn [andb take drop app] in *. do 3 f_equal. apply IH; [lia|done].
      * cbn [andb] in H. destruct s3; [done|]. rewrite !andb_false_r in H. done.
    + cbn [andb] in H. destruct s3 as [|b3 s4]; [done|]. cbn [length] in Hl.
      destruct (second_of_four b0 b1), (continuation b2), (continuation b3); try done.
      cbn [andb take drop app] in *. do 4 f_equal. apply IH; [lia|done].
Qed.

Lemma from_utf8_lossy_valid s : from_utf8 s = true -> from_utf8_lossy s = s.
Proof. by apply lossy_valid. Qed.
End utf8.
