(* ===== verification/Page.v ===== *)
(** * The physical page allocator ([crates/thumos/src/page.rs])

    A bitmap of [MAX_PAGES] frames, one bit per 4 KB page, first-fit.  The
    statics of the module are the fields of [state]; physical memory is part
    of it because a freed page is scrubbed before it returns to the pool.
    Every accessor runs under [PAGE_LOCK] with interrupts masked, so each
    function below is one atomic step.

    The abstract allocator is a set of free frame numbers with the transition
    relation [frames_step]; the operations of the source refine it. *)

From S2P Require Import Prelude Machine.
From Stdlib Require Import ZArith.
Open Scope Z_scope.

Module page.

Definition PAGE_SIZE : Z := 4096.
Definition MAX_PAGES : Z := 1024 * 1024 * 1024 / PAGE_SIZE.

Record state := mk_state {
  PAGE_BITMAP : list Z;
  FREE_PAGES : Z;
  FIRST_PAGE : Z;
  USABLE_START_PAGE : Z;
  USABLE_END_PAGE : Z;
  MEM : memory;
}.

(** The statics before [init] runs. *)
Definition boot (m : memory) : state :=
  mk_state (replicate (Z.to_nat (MAX_PAGES / 32)) 0) 0 0 0 0 m.

Definition with_bitmap (s : state) (bm : list Z) (free : Z) : state :=
  mk_state bm free (FIRST_PAGE s) (USABLE_START_PAGE s) (USABLE_END_PAGE s) (MEM s).
Definition with_mem (s : state) (m : memory) : state :=
  mk_state (PAGE_BITMAP s) (FREE_PAGES s) (FIRST_PAGE s) (USABLE_START_PAGE s)
    (USABLE_END_PAGE s) m.

(** [bitmap[p / 32] |= 1 << (p % 32)] and [bitmap[p / 32] &= !(1 << (p % 32))]. *)
Definition word_of (p : Z) : nat := Z.to_nat (p / 32).
Definition bit_of (p : Z) : nat := Z.to_nat (p mod 32).

Definition set_page (bm : list Z) (p : Z) : outcome (list Z) :=
  w ← index bm (word_of p);
  store bm (word_of p) (set_bit w (bit_of p)).
Definition clear_page (bm : list Z) (p : Z) : outcome (list Z) :=
  w ← index bm (word_of p);
  store bm (word_of p) (clear_bit w (bit_of p)).

Fixpoint for_pages (f : list Z -> Z -> outcome (list Z)) (ps : list Z) (bm : list Z)
    : outcome (list Z) :=
  match ps with
  | [] => Ret bm
  | p :: ps => bm ← f bm p; for_pages f ps bm
  end.

Definition init (ram_start ram_end kernel_end : Z) (s : state) : outcome state :=
  let usable_start := Z.land (wrap32 (kernel_end + PAGE_SIZE - 1)) (not32 (PAGE_SIZE - 1)) in
  let usable_end := Z.land ram_end (not32 (PAGE_SIZE - 1)) in
  let total := wrap32 (usable_end - usable_start) / PAGE_SIZE in
  let bitmap := (fun _ => 0xFFFFFFFF) <$> PAGE_BITMAP s in
  let start_page := wrap32 (usable_start - ram_start) / PAGE_SIZE in
  let end_page := wrap32 (usable_end - ram_start) / PAGE_SIZE in
  bitmap ← for_pages clear_page (seqZ start_page (end_page - start_page)) bitmap;
  Ret (mk_state bitmap total ram_start start_page end_page (MEM s)).

(** [zero_page]: [PAGE_SIZE / size_of::<usize>()] volatile word writes. *)
Definition zero_page (m : memory) (addr : Z) : memory :=
  zero_words m addr (Z.to_nat (PAGE_SIZE / 4)).

Fixpoint zero_page_list (m : memory) (first_page : Z) (ps : list Z) : memory :=
  match ps with
  | [] => m
  | p :: ps => zero_page_list (zero_page m (first_page + p * PAGE_SIZE)) first_page ps
  end.

Definition zero_page_range (m : memory) (first_page start_page end_page : Z) : Z * memory :=
  let ps := seqZ start_page (end_page - start_page) in
  (Z.of_nat (length ps), zero_page_list m first_page ps).

Definition zero_usable_range (s : state) : Z * state :=
  let '(zeroed, m) :=
    zero_page_range (MEM s) (FIRST_PAGE s) (USABLE_START_PAGE s) (USABLE_END_PAGE s) in
  (zeroed, with_mem s m).

(** [u32::trailing_ones]. *)
Fixpoint trailing_ones_upto (fuel : nat) (w : Z) : nat :=
  match fuel with
  | O => O
  | S fuel => if Z.testbit w 0 then S (trailing_ones_upto fuel (Z.shiftr w 1)) else O
  end.
Definition trailing_ones (w : Z) : nat := trailing_ones_upto 32 w.

(** The search loop of [alloc_page]: the first word with a clear bit. *)
Fixpoint take_first_free (word_idx : Z) (bm : list Z) : option (Z * list Z) :=
  match bm with
  | [] => None
  | word :: rest =>
      if word =? 0xFFFFFFFF then
        match take_first_free (word_idx + 1) rest with
        | Some (p, rest) => Some (p, word :: rest)
        | None => None
        end
      else
        let b := trailing_ones word in
        Some (word_idx * 32 + Z.of_nat b, set_bit word b :: rest)
  end.

Definition alloc_page (s : state) : option Z * state :=
  if FREE_PAGES s =? 0 then (None, s) else
  match take_first_free 0 (PAGE_BITMAP s) with
  | Some (page_num, bitmap) =>
      (Some (wrap32 (FIRST_PAGE s + page_num * PAGE_SIZE)),
       with_bitmap s bitmap (FREE_PAGES s - 1))
  | None => (None, s)
  end.

Definition try_free_page (addr : Z) (s : state) : bool * state :=
  if addr <? FIRST_PAGE s then (false, s) else
  let offset := addr - FIRST_PAGE s in
  if negb (offset mod PAGE_SIZE =? 0) then (false, s) else
  let page_num := offset / PAGE_SIZE in
  match PAGE_BITMAP s !! word_of page_num with
  | None => (false, s)
  | Some w =>
      if Z.land w (bit (bit_of page_num)) =? 0 then (false, s) else
      let s := with_mem s (zero_page (MEM s) addr) in
      (true, with_bitmap s
        (<[word_of page_num := clear_bit w (bit_of page_num)]> (PAGE_BITMAP s))
        (wrap32 (FREE_PAGES s + 1)))
  end.

Definition free_page (addr : Z) (s : state) : state := (try_free_page addr s).2.

(** The two nested loops of [alloc_contiguous]: the inner one over the bits of
    one word, the outer one over the words; [inl start] is the early return
    with the run found, [inr (run, run_start)] the loop state at the end. *)
Fixpoint scan_bits (w word_idx n : Z) (bits : list Z) (run run_start : Z) : Z + Z * Z :=
  match bits with
  | [] => inr (run, run_start)
  | b :: bits =>
      if Z.land (Z.shiftr w b) 1 =? 1 then scan_bits w word_idx n bits 0 run_start else
      let run_start := if run =? 0 then word_idx * 32 + b else run_start in
      let run := run + 1 in
      if run =? n then inl run_start else scan_bits w word_idx n bits run run_start
  end.

Fixpoint scan_words (bm : list Z) (word_idx n run run_start : Z) : option Z :=
  match bm with
  | [] => None
  | w :: bm =>
      if w =? 0xFFFFFFFF then scan_words bm (word_idx + 1) n 0 run_start else
      match scan_bits w word_idx n (seqZ 0 32) run run_start with
      | inl start => Some start
      | inr (run, run_start) => scan_words bm (word_idx + 1) n run run_start
      end
  end.

Definition alloc_contiguous (n : Z) (s : state) : outcome (option Z * state) :=
  if n =? 0 then Ret (None, s) else
  if n =? 1 then Ret (alloc_page s) else
  if FREE_PAGES s <? n then Ret (None, s) else
  match scan_words (PAGE_BITMAP s) 0 n 0 0 with
  | None => Ret (None, s)
  | Some run_start =>
      bitmap ← for_pages set_page (seqZ run_start n) (PAGE_BITMAP s);
      Ret (Some (wrap32 (FIRST_PAGE s + run_start * PAGE_SIZE)),
           with_bitmap s bitmap (FREE_PAGES s - n))
  end.

(** [word >= bitmap.len() || bitmap[word] & (1 << (p % 32)) == 0]. *)
Definition not_allocated (bm : list Z) (p : Z) : bool :=
  match bm !! word_of p with
  | None => true
  | Some w => Z.land w (bit (bit_of p)) =? 0
  end.

Fixpoint free_pages (ps : list Z) (s : state) : outcome state :=
  match ps with
  | [] => Ret s
  | p :: ps =>
      let s := with_mem s (zero_page (MEM s) (FIRST_PAGE s + p * PAGE_SIZE)) in
      bm ← clear_page (PAGE_BITMAP s) p;
      free_pages ps (with_bitmap s bm (FREE_PAGES s))
  end.

Definition free_contiguous (addr n : Z) (s : state) : outcome (bool * state) :=
  if n =? 0 then Ret (false, s) else
  if n =? 1 then Ret (try_free_page addr s) else
  if addr <? FIRST_PAGE s then Ret (false, s) else
  let offset := addr - FIRST_PAGE s in
  if negb (offset mod PAGE_SIZE =? 0) then Ret (false, s) else
  let start := offset / PAGE_SIZE in
  let ps := seqZ start (wrap32 (start + n) - start) in
  if existsb (not_allocated (PAGE_BITMAP s)) ps then Ret (false, s) else
  s ← free_pages ps s;
  Ret (true, with_bitmap s (PAGE_BITMAP s) (wrap32 (FREE_PAGES s + n))).

Definition free_count (s : state) : Z := FREE_PAGES s.
Definition free_bytes (s : state) : Z := wrap32 (free_count s * PAGE_SIZE).

(** ** The abstract frame allocator *)

(** The bit of page [p] is clear. *)
Definition is_free (bm : list Z) (p : Z) : bool :=
  negb (Z.testbit (bm !!! word_of p) (p mod 32)).

Definition free_set (bm : list Z) : gset Z :=
  list_to_set (List.filter (is_free bm) (seqZ 0 MAX_PAGES)).

(** The frames [p, p + n). *)
Definition run (p n : Z) : gset Z := list_to_set (seqZ p n).

(** [frames_step F op F']: what an allocator that owns the free frames [F] may
    do.  An allocation of [n] frames hands out the lowest run of free frames,
    and fails only when there is none; a release takes back frames that are
    out, and a rejected release changes nothing. *)
Inductive frames_step (F : gset Z) : Z -> option Z -> gset Z -> Prop :=
  | step_alloc n p :
      0 < n -> 0 <= p -> run p n ⊆ F ->
      (forall q, 0 <= q < p -> ~ run q n ⊆ F) ->
      frames_step F n (Some p) (F ∖ run p n)
  | step_alloc_none n :
      (forall q, 0 < n -> 0 <= q -> ~ run q n ⊆ F) ->
      frames_step F n None F.

Definition valid_bitmap (bm : list Z) : Prop :=
  Z.of_nat (length bm) = MAX_PAGES / 32 /\ Forall is_u32 bm.

(** The allocator's invariant: the bitmap covers [MAX_PAGES] frames, the count
    is the number of clear bits, and every managed address fits 32 bits. *)
Record inv (s : state) : Prop := mk_inv {
  inv_bitmap : valid_bitmap (PAGE_BITMAP s);
  inv_count : FREE_PAGES s = Z.of_nat (size (free_set (PAGE_BITMAP s)));
  inv_base : 0 <= FIRST_PAGE s /\ FIRST_PAGE s + MAX_PAGES * PAGE_SIZE <= 2 ^ 32;
}.

(** ** The bitmap as a set of frames *)

(** [lia] with the equations of division and remainder by a constant. *)
#[local] Ltac Zify.zify_post_hook ::= Z.to_euclidean_division_equations.

Lemma MAX_PAGES_eq : MAX_PAGES = 262144.
Proof. reflexivity. Qed.

Lemma elem_of_free_set bm p : p ∈ free_set bm <-> 0 <= p < MAX_PAGES /\ is_free bm p = true.
Proof.
  unfold free_set. rewrite elem_of_list_to_set, list_elem_of_In, List.filter_In.
  rewrite <- list_elem_of_In, elem_of_seqZ. naive_solver lia.
Qed.

Lemma elem_of_run p n q : q ∈ run p n <-> p <= q < p + n.
Proof. unfold run. rewrite elem_of_list_to_set, elem_of_seqZ. done. Qed.

Lemma size_run p n : 0 <= n -> Z.of_nat (size (run p n)) = n.
Proof.
  intros. unfold run. rewrite size_list_to_set by apply NoDup_seqZ.
  rewrite length_seqZ. lia.
Qed.

Lemma run_succ p n : 0 < n -> run p n = {[p]} ∪ run (p + 1) (n - 1).
Proof.
  intros. apply set_eq. intros q.
  rewrite elem_of_union, elem_of_singleton, !elem_of_run. lia.
Qed.

Lemma run_one p : run p 1 = {[p]}.
Proof. apply set_eq. intros q. rewrite elem_of_singleton, elem_of_run. lia. Qed.

Lemma word_of_lt bm p : valid_bitmap bm -> 0 <= p < MAX_PAGES -> (word_of p < length bm)%nat.
Proof.
  intros [Hl _] Hp. unfold word_of. rewrite MAX_PAGES_eq in *.
  change (262144 / 32) with 8192 in Hl. lia.
Qed.

Lemma valid_bitmap_pages bm : valid_bitmap bm -> 32 * Z.of_nat (length bm) = MAX_PAGES.
Proof. intros [Hl _]. rewrite Hl. reflexivity. Qed.

Lemma bit_of_lt p : (bit_of p < 32)%nat.
Proof. unfold bit_of. lia. Qed.

Lemma bit_of_Z p : Z.of_nat (bit_of p) = p mod 32.
Proof. unfold bit_of. lia. Qed.

(** Two pages share their bitmap bit only when they are the same page. *)
Lemma same_bit p q :
  0 <= p -> 0 <= q -> word_of p = word_of q -> p mod 32 = q mod 32 -> p = q.
Proof. unfold word_of. lia. Qed.

Section update.
Context (bm : list Z) (p : Z) (Hbm : valid_bitmap bm) (Hp : 0 <= p < MAX_PAGES).

Lemma bitmap_word : exists w, bm !! word_of p = Some w /\ is_u32 w.
Proof using Hbm Hp.
  pose proof (word_of_lt bm p Hbm Hp) as Hlt.
  destruct (lookup_lt_is_Some_2 bm _ Hlt) as [w Hw].
  exists w. split; [done|]. destruct Hbm as [_ Hf]. by eapply Forall_lookup_1 in Hf.
Qed.

Lemma is_free_update w f q :
  bm !! word_of p = Some w -> 0 <= q ->
  (forall i, 0 <= i < 32 -> i <> p mod 32 -> Z.testbit (f w) i = Z.testbit w i) ->
  is_free (<[word_of p := f w]> bm) q =
    if decide (q = p) then negb (Z.testbit (f w) (p mod 32)) else is_free bm q.
Proof using Hbm Hp.
  intros Hw Hq Hag. pose proof (word_of_lt bm p Hbm Hp) as Hlt. unfold is_free.
  destruct (decide (word_of p = word_of q)) as [He|Hne].
  - rewrite <- He, list_lookup_total_insert_eq by done.
    case_decide as Hqp; [by subst|].
    rewrite Hag; [|lia|intros Hm; apply Hqp; symmetry; apply same_bit; lia || done].
    by rewrite (list_lookup_total_correct _ _ _ Hw).
  - rewrite list_lookup_total_insert_ne by done.
    case_decide as Hqp; [by subst|done].
Qed.

Lemma valid_bitmap_update w :
  is_u32 w -> valid_bitmap (<[word_of p := w]> bm).
Proof using Hbm.
  intros Hw. destruct Hbm as [Hl Hf]. split; [by rewrite length_insert|].
  by apply Forall_insert.
Qed.

Lemma set_page_spec :
  exists bm', set_page bm p = Ret bm' /\ valid_bitmap bm' /\
    free_set bm' = free_set bm ∖ {[p]}.
Proof using Hbm Hp.
  destruct bitmap_word as (w & Hw & Hu). unfold set_page.
  rewrite (index_lt _ _ _ Hw). cbn [mbind outcome_bind].
  rewrite store_lt by (by apply word_of_lt). eexists. split; [done|].
  split; [apply valid_bitmap_update, set_bit_u32; [done|apply bit_of_lt]|].
  apply set_eq. intros q. rewrite elem_of_difference, elem_of_singleton, !elem_of_free_set.
  assert (forall i, 0 <= i -> Z.testbit (set_bit w (bit_of p)) i =
      (bool_decide (i = p mod 32) || Z.testbit w i)%bool) as Hb.
  { intros. by rewrite set_bit_testbit, bit_of_Z. }
  destruct (decide (0 <= q)); [|naive_solver lia].
  rewrite (is_free_update w (fun w => set_bit w (bit_of p))); [|done|done|].
  - case_decide; [subst|naive_solver].
    rewrite Hb, bool_decide_eq_true_2 by lia. naive_solver.
  - intros i ? ?. rewrite Hb, bool_decide_eq_false_2 by lia. done.
Qed.

Lemma clear_word_free_set w :
  bm !! word_of p = Some w -> is_u32 w ->
  valid_bitmap (<[word_of p := clear_bit w (bit_of p)]> bm) /\
  free_set (<[word_of p := clear_bit w (bit_of p)]> bm) = free_set bm ∪ {[p]}.
Proof using Hbm Hp.
  intros Hw Hu. split; [by apply valid_bitmap_update, clear_bit_u32|].
  apply set_eq. intros q. rewrite elem_of_union, elem_of_singleton, !elem_of_free_set.
  assert (forall i, 0 <= i < 32 -> Z.testbit (clear_bit w (bit_of p)) i =
      (negb (bool_decide (i = p mod 32)) && Z.testbit w i)%bool) as Hb.
  { intros. by rewrite clear_bit_testbit, bit_of_Z. }
  destruct (decide (0 <= q)); [|naive_solver lia].
  rewrite (is_free_update w (fun w => clear_bit w (bit_of p))); [|done|done|].
  - case_decide; [subst|naive_solver].
    rewrite Hb, bool_decide_eq_true_2 by lia. naive_solver.
  - intros i ? ?. rewrite Hb, bool_decide_eq_false_2 by lia. done.
Qed.

Lemma clear_page_spec :
  exists bm', clear_page bm p = Ret bm' /\ valid_bitmap bm' /\
    free_set bm' = free_set bm ∪ {[p]}.
Proof using Hbm Hp.
  destruct bitmap_word as (w & Hw & Hu). unfold clear_page.
  rewrite (index_lt _ _ _ Hw). cbn [mbind outcome_bind].
  rewrite store_lt by (by apply word_of_lt). eexists. split; [done|].
  by apply clear_word_free_set.
Qed.

(** The test [bitmap[word] & (1 << bit) == 0] of the source. *)
Lemma not_allocated_spec : not_allocated bm p = bool_decide (p ∈ free_set bm).
Proof using Hbm Hp.
  destruct bitmap_word as (w & Hw & Hu). unfold not_allocated. rewrite Hw.
  assert (is_free bm p = negb (Z.testbit w (p mod 32))) as Hf.
  { unfold is_free. by rewrite (list_lookup_total_correct _ _ _ Hw). }
  apply eq_true_iff_eq. rewrite bool_decide_eq_true, elem_of_free_set, Hf, Z.eqb_eq.
  rewrite negb_true_iff. split.
  - intros H0. split; [done|].
    assert (Z.testbit (Z.land w (bit (bit_of p))) (p mod 32) = false) as Hl
      by (rewrite H0; apply Z.testbit_0_l).
    rewrite Z.land_spec, bit_testbit, bit_of_Z, bool_decide_eq_true_2 in Hl by lia.
    by rewrite andb_true_r in Hl.
  - intros [_ H0]. apply Z.bits_inj'. intros i Hi. rewrite Z.land_spec, Z.testbit_0_l.
    rewrite bit_testbit, bit_of_Z by lia. case_bool_decide; [subst; by rewrite H0|].
    apply andb_false_r.
Qed.
End update.

(** Both page loops: [f] acts on the free set as [op] with one page, [op]
    being the union or the difference. *)
Lemma for_pages_spec (f : list Z -> Z -> outcome (list Z)) (op : gset Z -> gset Z -> gset Z) bm p n :
  (forall bm p, valid_bitmap bm -> 0 <= p < MAX_PAGES ->
    exists bm', f bm p = Ret bm' /\ valid_bitmap bm' /\ free_set bm' = op (free_set bm) {[p]}) ->
  (forall F, op F ∅ = F) -> (forall F A B, op (op F A) B = op F (A ∪ B)) ->
  valid_bitmap bm -> 0 <= p -> p + n <= MAX_PAGES -> 0 <= n ->
  exists bm', for_pages f (seqZ p n) bm = Ret bm' /\ valid_bitmap bm' /\
    free_set bm' = op (free_set bm) (run p n).
Proof.
  intros Hf Hop0 Hop Hbm Hp Hn Hn0. revert bm p Hbm Hp Hn.
  pattern n. apply natlike_ind; [| |done]; clear n Hn0.
  - intros bm p Hbm ??. exists bm. split; [done|]. split; [done|].
    assert (run p 0 = ∅) as -> by done.
    by rewrite Hop0.
  - intros n Hn IH bm p Hbm Hp Hle. rewrite seqZ_cons by lia.
    destruct (Hf bm p Hbm) as (bm1 & H1 & Hv1 & Hf1); [lia|].
    destruct (IH bm1 (p + 1) Hv1) as (bm2 & H2 & Hv2 & Hf2); [lia|lia|].
    exists bm2. cbn [for_pages]. rewrite H1. cbn [mbind outcome_bind].
    rewrite Z.pred_succ. replace (Z.succ p) with (p + 1) by lia. rewrite H2.
    split; [done|]. split; [done|].
    rewrite Hf2, Hf1, Hop, (run_succ p (Z.succ n)) by lia.
    by replace (Z.succ n - 1) with n by lia.
Qed.

Lemma for_pages_set bm p n :
  valid_bitmap bm -> 0 <= p -> p + n <= MAX_PAGES -> 0 <= n ->
  exists bm', for_pages set_page (seqZ p n) bm = Ret bm' /\ valid_bitmap bm' /\
    free_set bm' = free_set bm ∖ run p n.
Proof.
  apply (for_pages_spec _ difference); [exact set_page_spec | set_solver..].
Qed.

Lemma for_pages_clear bm p n :
  valid_bitmap bm -> 0 <= p -> p + n <= MAX_PAGES -> 0 <= n ->
  exists bm', for_pages clear_page (seqZ p n) bm = Ret bm' /\ valid_bitmap bm' /\
    free_set bm' = free_set bm ∪ run p n.
Proof.
  apply (for_pages_spec _ union); [exact clear_page_spec | set_solver..].
Qed.

(** ** The first clear bit *)

Lemma trailing_ones_upto_spec fuel w :
  (forall i, (i < trailing_ones_upto fuel w)%nat -> Z.testbit w (Z.of_nat i) = true) /\
  ((trailing_ones_upto fuel w < fuel)%nat ->
   Z.testbit w (Z.of_nat (trailing_ones_upto fuel w)) = false) /\
  (trailing_ones_upto fuel w <= fuel)%nat.
Proof.
  revert w. induction fuel as [|fuel IH]; intros w; cbn [trailing_ones_upto]; [split_and!; lia|].
  destruct (Z.testbit w 0) eqn:E; [|split_and!; [lia|done|lia]].
  destruct (IH (Z.shiftr w 1)) as (IH1 & IH2 & IH3). split_and!; [| |lia].
  - intros [|i] Hi; [done|]. specialize (IH1 i ltac:(lia)).
    rewrite Z.shiftr_spec in IH1 by lia. by rewrite Nat2Z.inj_succ, <- Z.add_1_r.
  - intros Hi. specialize (IH2 ltac:(lia)).
    rewrite Z.shiftr_spec in IH2 by lia. by rewrite Nat2Z.inj_succ, <- Z.add_1_r.
Qed.

Lemma trailing_ones_spec w :
  is_u32 w -> w <> 0xFFFFFFFF ->
  (trailing_ones w < 32)%nat /\ Z.testbit w (Z.of_nat (trailing_ones w)) = false /\
  (forall i, (i < trailing_ones w)%nat -> Z.testbit w (Z.of_nat i) = true).
Proof.
  intros Hu Hne. unfold trailing_ones.
  destruct (trailing_ones_upto_spec 32 w) as (H1 & H2 & H3).
  destruct (decide (trailing_ones_upto 32 w = 32)%nat) as [He|]; [|split_and!; [lia|apply H2; lia|done]].
  exfalso. apply Hne. apply u32_all_ones; [done|]. intros i Hi.
  specialize (H1 (Z.to_nat i) ltac:(lia)). by rewrite Z2Nat.id in H1 by lia.
Qed.

(** [take_first_free] on a suffix of the bitmap that starts at word [k]. *)
Lemma take_first_free_spec bm k :
  0 <= k -> Forall is_u32 bm ->
  match take_first_free k bm with
  | None => forall p, 0 <= p < 32 * Z.of_nat (length bm) -> is_free bm p = false
  | Some (q, bm') =>
      let p := q - 32 * k in
      0 <= p < 32 * Z.of_nat (length bm) /\ is_free bm p = true /\
      (forall i, 0 <= i < p -> is_free bm i = false) /\
      (exists w, bm !! word_of p = Some w /\ bm' = <[word_of p := set_bit w (bit_of p)]> bm)
  end.
Proof.
  revert k. induction bm as [|w bm IH]; intros k Hk Hall; cbn [take_first_free]; [cbn; lia|].
  apply Forall_cons in Hall as [Hw Hall].
  assert (forall p, 32 <= p -> is_free (w :: bm) p = is_free bm (p - 32)) as Hshift.
  { intros p Hp. unfold is_free, word_of.
    replace (Z.to_nat (p / 32)) with (S (Z.to_nat ((p - 32) / 32))) by lia.
    replace ((p - 32) mod 32) with (p mod 32) by lia. done. }
  assert (forall p, 0 <= p < 32 -> is_free (w :: bm) p = negb (Z.testbit w p)) as Hhead.
  { intros p Hp. unfold is_free, word_of. by rewrite Z.div_small, Z.mod_small by lia. }
  destruct (Z.eqb_spec w 0xFFFFFFFF) as [->|Hne].
  - specialize (IH (k + 1) ltac:(lia) Hall).
    destruct (take_first_free (k + 1) bm) as [[q bm']|].
    + destruct IH as (Hr & Hf & Hlow & w' & Hw' & ->). cbn [length].
      replace (q - 32 * (k + 1)) with (q - 32 * k - 32) in * by lia.
      set (p := q - 32 * k) in *. cbv zeta. split_and!; [lia|lia|by rewrite Hshift by lia| |].
      * intros i Hi. destruct (decide (i < 32)).
        -- rewrite Hhead, ones32_testbit by lia. done.
        -- rewrite Hshift by lia. apply Hlow. lia.
      * exists w'. unfold word_of, bit_of in *.
        replace (Z.to_nat (p / 32)) with (S (Z.to_nat ((p - 32) / 32))) by lia.
        replace ((p - 32) mod 32) with (p mod 32) by lia. by split.
    + intros p Hp. cbn [length] in Hp. destruct (decide (p < 32)).
      * rewrite Hhead, ones32_testbit by lia. done.
      * rewrite Hshift by lia. apply IH. lia.
  - destruct (trailing_ones_spec w Hw Hne) as (Hlt & Hclr & Hset). cbn [length].
    set (b := trailing_ones w) in *. replace (k * 32 + Z.of_nat b - 32 * k) with (Z.of_nat b) by lia.
    cbv zeta. split_and!; [lia|lia|by rewrite Hhead, Hclr by lia| |].
    + intros i Hi. rewrite Hhead by lia. specialize (Hset (Z.to_nat i) ltac:(lia)).
      rewrite Z2Nat.id in Hset by lia. by rewrite Hset.
    + exists w. unfold word_of, bit_of. rewrite Z.div_small, Z.mod_small by lia.
      by rewrite Nat2Z.id.
Qed.

(** ** The first run of free frames *)

(** The two loops of [alloc_contiguous] flattened: [k] pages from [p] on. *)
Fixpoint scan (free : Z -> bool) (p : Z) (k : nat) (n r start : Z) : Z + Z * Z :=
  match k with
  | O => inr (r, start)
  | S k =>
      if free p then
        let start := if r =? 0 then p else start in
        if r + 1 =? n then inl start else scan free (p + 1) k n (r + 1) start
      else scan free (p + 1) k n 0 start
  end.

Lemma scan_app free p k1 k2 n r start :
  scan free p (k1 + k2) n r start =
    match scan free p k1 n r start with
    | inl q => inl q
    | inr (r, start) => scan free (p + Z.of_nat k1) k2 n r start
    end.
Proof.
  revert p r start. induction k1 as [|k1 IH]; intros p r start; cbn [scan Nat.add].
  { by replace (p + Z.of_nat 0) with p by lia. }
  replace (p + Z.of_nat (S k1)) with (p + 1 + Z.of_nat k1) by lia.
  destruct (free p); [|apply IH]. cbv zeta.
  destruct (r + 1 =? n); [done|apply IH].
Qed.

Lemma scan_full free p k n r start :
  (0 < k)%nat -> (forall i, p <= i < p + Z.of_nat k -> free i = false) ->
  scan free p k n r start = inr (0, start).
Proof.
  revert p r. induction k as [|k IH]; intros p r Hk Hf; [lia|]. cbn [scan].
  rewrite Hf by lia. destruct k as [|k]; [done|]. apply IH; [lia|]. intros. apply Hf. lia.
Qed.

Lemma scan_bits_scan free w word_idx n b k r start :
  0 <= b -> b + Z.of_nat k <= 32 ->
  (forall i, 0 <= i < 32 -> free (word_idx * 32 + i) = negb (Z.testbit w i)) ->
  scan_bits w word_idx n (seqZ b (Z.of_nat k)) r start =
    scan free (word_idx * 32 + b) k n r start.
Proof.
  intros Hb Hk Hf. revert b r start Hb Hk. induction k as [|k IH]; intros b r start Hb Hk; [done|].
  rewrite seqZ_cons by lia. replace (Z.pred (Z.of_nat (S k))) with (Z.of_nat k) by lia.
  cbn [scan_bits scan]. rewrite Hf by lia.
  assert ((Z.land (Z.shiftr w b) 1 =? 1) = Z.testbit w b) as ->.
  { change 1 with (Z.ones 1) at 1. rewrite Z.land_ones by lia. change (2 ^ 1) with 2.
    rewrite <- Z.bit0_mod, Z.shiftr_spec by lia.
    replace (0 + b) with b by lia. by destruct (Z.testbit w b). }
  replace (word_idx * 32 + b + 1) with (word_idx * 32 + Z.succ b) by lia.
  destruct (Z.testbit w b); cbn [negb]; cbv zeta.
  - apply IH; lia.
  - destruct (r + 1 =? n); [done|]. apply IH; lia.
Qed.

Lemma scan_words_scan free bm k n r start :
  (forall w i j, bm !! i = Some w -> 0 <= j < 32 ->
     free ((k + Z.of_nat i) * 32 + j) = negb (Z.testbit w j)) ->
  Forall is_u32 bm ->
  scan_words bm k n r start =
    match scan free (k * 32) (32 * length bm)%nat n r start with inl q => Some q | inr _ => None end.
Proof.
  revert k r start. induction bm as [|w bm IH]; intros k r start Hf Hall.
  { by rewrite Nat.mul_0_r. }
  apply Forall_cons in Hall as [Hw Hall]. cbn [scan_words length].
  replace (32 * S (length bm))%nat with (32 + 32 * length bm)%nat by lia. rewrite scan_app.
  assert (forall i, 0 <= i < 32 -> free (k * 32 + i) = negb (Z.testbit w i)) as Hf0.
  { intros i Hi. rewrite <- (Hf w 0%nat i) by done. f_equal. lia. }
  replace (k * 32 + Z.of_nat 32) with ((k + 1) * 32) by lia.
  assert (forall r start, scan_words bm (k + 1) n r start =
      match scan free ((k + 1) * 32) (32 * length bm) n r start with
      | inl q => Some q | inr _ => None end) as IH'.
  { intros. apply IH; [|done]. intros w' i j Hi Hj. rewrite <- (Hf w' (S i) j) by done. f_equal. lia. }
  destruct (Z.eqb_spec w 0xFFFFFFFF) as [->|Hne].
  - rewrite scan_full; [apply IH'|lia|]. intros i Hi.
    replace i with (k * 32 + (i - k * 32)) by lia. rewrite Hf0, ones32_testbit by lia. done.
  - rewrite (scan_bits_scan free w k n 0 32) by (lia || done).
    rewrite Z.add_0_r. destruct (scan free (k * 32) 32 n r start) as [q|[r' start']]; [done|].
    apply IH'.
Qed.

(** The loop invariant: [r] is the length of the maximal free run that ends
    before [p], and no run of [n] free pages ends at or before [p]. *)
Record scan_inv (free : Z -> bool) (p n r start : Z) : Prop := {
  scan_r : 0 <= r < n /\ r <= p;
  scan_run : forall i, p - r <= i < p -> free i = true;
  scan_max : p - r = 0 \/ free (p - r - 1) = false;
  scan_start : 0 < r -> start = p - r;
  scan_none : forall q, 0 <= q -> q + n <= p -> exists i, q <= i < q + n /\ free i = false;
}.

Lemma scan_inv_skip free p n r start :
  scan_inv free p n r start -> free p = false -> scan_inv free (p + 1) n 0 start.
Proof.
  intros [Hr Hrun Hmax Hst Hno] Hf. constructor; [lia|lia| |lia|].
  - right. by replace (p + 1 - 0 - 1) with p by lia.
  - intros q Hq Hle. destruct (decide (q + n <= p)); [by apply Hno|].
    exists p. split; [lia|done].
Qed.

Lemma scan_inv_take free p n r start :
  scan_inv free p n r start -> free p = true -> r + 1 <> n ->
  scan_inv free (p + 1) n (r + 1) (if r =? 0 then p else start).
Proof.
  intros [Hr Hrun Hmax Hst Hno] Hf Hne. constructor; [lia| | | |].
  - intros i Hi. destruct (decide (i = p)); [by subst|apply Hrun; lia].
  - by replace (p + 1 - (r + 1)) with (p - r) by lia.
  - destruct (Z.eqb_spec r 0); lia.
  - intros q Hq Hle. destruct (decide (q + n <= p)); [by apply Hno|].
    exists (p - r - 1). split; [lia|]. destruct Hmax; [lia|done].
Qed.

Lemma scan_spec free k p n r start :
  scan_inv free p n r start ->
  match scan free p k n r start with
  | inl q => 0 <= q /\ q + n <= p + Z.of_nat k /\
      (forall i, q <= i < q + n -> free i = true) /\
      (forall q', 0 <= q' < q -> exists i, q' <= i < q' + n /\ free i = false)
  | inr _ =>
      forall q, 0 <= q -> q + n <= p + Z.of_nat k -> exists i, q <= i < q + n /\ free i = false
  end.
Proof.
  revert p r start. induction k as [|k IH]; intros p r start Hinv; cbn [scan].
  { intros q ??. apply (scan_none _ _ _ _ _ Hinv); lia. }
  replace (p + Z.of_nat (S k)) with (p + 1 + Z.of_nat k) by lia.
  destruct (free p) eqn:Hf; [|by apply IH, (scan_inv_skip _ _ _ r)].
  cbv zeta. destruct (Z.eqb_spec (r + 1) n) as [Hn|Hne].
  2: { apply IH. by apply scan_inv_take. }
  destruct Hinv as [Hr Hrun Hmax Hst Hno].
  replace (if r =? 0 then p else start) with (p - r) by (destruct (Z.eqb_spec r 0); lia).
  split_and!; [lia|lia| |].
  - intros i Hi. destruct (decide (i = p)); [by subst|apply Hrun; lia].
  - intros q' Hq'. destruct (decide (q' + n <= p)); [apply Hno; lia|].
    exists (p - r - 1). split; [lia|]. destruct Hmax; [lia|done].
Qed.

Lemma scan_words_spec bm n :
  valid_bitmap bm -> 0 < n ->
  match scan_words bm 0 n 0 0 with
  | Some q => 0 <= q /\ q + n <= MAX_PAGES /\ run q n ⊆ free_set bm /\
      (forall q', 0 <= q' < q -> ~ run q' n ⊆ free_set bm)
  | None => forall q, 0 <= q -> ~ run q n ⊆ free_set bm
  end.
Proof.
  intros [Hl Hu] Hn. rewrite (scan_words_scan (is_free bm)); [|clear Hn; intros w i j Hi Hj|done].
  2: { unfold is_free, word_of. replace (0 + Z.of_nat i) with (Z.of_nat i) by lia.
       replace (Z.to_nat ((Z.of_nat i * 32 + j) / 32)) with i by lia.
       replace ((Z.of_nat i * 32 + j) mod 32) with j by lia.
       by rewrite (list_lookup_total_correct _ _ _ Hi). }
  assert (0 * 32 + Z.of_nat (32 * length bm) = MAX_PAGES) as HM by (rewrite MAX_PAGES_eq in *; lia).
  pose proof (scan_spec (is_free bm) (32 * length bm) (0 * 32) n 0 0) as Hs.
  rewrite HM in Hs. specialize (Hs ltac:(constructor; lia)).
  assert (forall q, 0 <= q -> (exists i, q <= i < q + n /\ is_free bm i = false) ->
      ~ run q n ⊆ free_set bm) as Hbad.
  { intros q Hq (i & Hi & Hf) Hsub. specialize (Hsub i).
    rewrite elem_of_run, elem_of_free_set in Hsub. rewrite Hf in Hsub. naive_solver. }
  assert (forall q, 0 <= q -> MAX_PAGES < q + n -> ~ run q n ⊆ free_set bm) as Hout.
  { intros q Hq Hgt Hsub. specialize (Hsub (q + n - 1)).
    rewrite elem_of_run, elem_of_free_set in Hsub. lia. }
  destruct (scan _ _ _ _ _ _) as [q|]; [|intros q Hq; destruct (decide (q + n <= MAX_PAGES))].
  - destruct Hs as (? & ? & Hfr & Hlow). split_and!; [done|done| |].
    + intros i. rewrite elem_of_run, elem_of_free_set. intros. split; [lia|by apply Hfr].
    + intros q' Hq'. apply Hbad; [lia|]. by apply Hlow.
  - apply Hbad; [done|]. by apply Hs.
  - apply Hout; lia.
Qed.

(** ** The operations refine the abstract allocator *)

Definition frame_addr (s : state) (p : Z) : Z := FIRST_PAGE s + p * PAGE_SIZE.

(** Only the bitmap and the count differ. *)
Definition same_frame (s s' : state) : Prop :=
  FIRST_PAGE s' = FIRST_PAGE s /\ USABLE_START_PAGE s' = USABLE_START_PAGE s /\
  USABLE_END_PAGE s' = USABLE_END_PAGE s.

Lemma free_set_below bm p : p ∈ free_set bm -> 0 <= p < MAX_PAGES.
Proof. rewrite elem_of_free_set. naive_solver. Qed.

Lemma run_below bm p n : 0 < n -> run p n ⊆ free_set bm -> 0 <= p /\ p + n <= MAX_PAGES.
Proof.
  intros Hn Hs. split.
  - apply (free_set_below bm p), Hs, elem_of_run. lia.
  - assert (p + n - 1 < MAX_PAGES); [|lia].
    apply (free_set_below bm), Hs, elem_of_run. lia.
Qed.

Lemma run_size_le bm p n : 0 <= n -> run p n ⊆ free_set bm -> n <= Z.of_nat (size (free_set bm)).
Proof. intros ? Hs%subseteq_size. pose proof (size_run p n). lia. Qed.

Lemma no_run_count s n q :
  inv s -> 0 <= n -> FREE_PAGES s < n -> ~ run q n ⊆ free_set (PAGE_BITMAP s).
Proof.
  intros Hi Hn Hlt Hs. apply run_size_le in Hs; [|done]. pose proof (inv_count _ Hi). lia.
Qed.

Lemma frame_addr_dec s a :
  (exists p, 0 <= p < MAX_PAGES /\ a = frame_addr s p) \/ (forall p, 0 <= p < MAX_PAGES -> a <> frame_addr s p).
Proof.
  destruct (decide (a = frame_addr s ((a - FIRST_PAGE s) / PAGE_SIZE) /\ 0 <= (a - FIRST_PAGE s) / PAGE_SIZE < MAX_PAGES)) as [[H1 H2]|Hn].
  - left. eexists. split; [exact H2|exact H1].
  - right. intros p Hp Ha. apply Hn.
    assert ((a - FIRST_PAGE s) / PAGE_SIZE = p) as ->; [|split; [exact Ha|exact Hp]].
    rewrite Ha. unfold frame_addr. replace (FIRST_PAGE s + p * PAGE_SIZE - FIRST_PAGE s) with (p * PAGE_SIZE) by ring.
    by apply Z.div_mul.
Qed.

Lemma frame_addr_wrap s p : inv s -> 0 <= p < MAX_PAGES -> wrap32 (frame_addr s p) = frame_addr s p.
Proof.
  intros Hi Hp. apply wrap32_small. destruct (inv_base _ Hi). unfold is_u32, frame_addr.
  rewrite MAX_PAGES_eq in *. unfold PAGE_SIZE in *. lia.
Qed.

Lemma size_difference_run bm p n :
  0 <= n -> run p n ⊆ free_set bm ->
  Z.of_nat (size (free_set bm ∖ run p n)) = Z.of_nat (size (free_set bm)) - n.
Proof.
  intros Hn Hs. rewrite size_difference by done. pose proof (size_run p n Hn).
  apply subseteq_size in Hs. lia.
Qed.

Lemma alloc_page_spec s :
  inv s ->
  exists op, (alloc_page s).1 = frame_addr s <$> op /\ inv (alloc_page s).2 /\
    frames_step (free_set (PAGE_BITMAP s)) 1 op (free_set (PAGE_BITMAP (alloc_page s).2)) /\
    MEM (alloc_page s).2 = MEM s /\ same_frame s (alloc_page s).2.
Proof.
  intros Hi. pose proof (inv_bitmap _ Hi) as [Hl Hu]. unfold alloc_page.
  destruct (Z.eqb_spec (FREE_PAGES s) 0) as [H0|H0].
  { exists None. split_and!; try done. constructor. intros q _ Hq.
    apply no_run_count; [done|lia|]. cbn. lia. }
  pose proof (take_first_free_spec (PAGE_BITMAP s) 0 ltac:(lia) Hu) as Ht.
  rewrite (valid_bitmap_pages _ (inv_bitmap _ Hi)) in Ht.
  destruct (take_first_free 0 (PAGE_BITMAP s)) as [[q bm']|] eqn:Et; cbn [fst snd].
  - destruct Ht as (Hq & Hf & Hlow & w & Hw & ->). replace (q - 32 * 0) with q in * by lia.
    assert (run q 1 ⊆ free_set (PAGE_BITMAP s)) as Hsub.
    { rewrite run_one. intros i ->%elem_of_singleton. by apply elem_of_free_set. }
    destruct (set_page_spec (PAGE_BITMAP s) q (inv_bitmap _ Hi) Hq) as (bm1 & H1 & Hv & Hfs).
    assert (bm1 = <[word_of q:=set_bit w (bit_of q)]> (PAGE_BITMAP s)) as ->.
    { unfold set_page in H1. rewrite (index_lt _ _ _ Hw) in H1. cbn in H1.
      rewrite store_lt in H1 by (by apply word_of_lt, Hq; apply Hi). by injection H1. }
    exists (Some q). cbn [fmap option_fmap option_map with_bitmap PAGE_BITMAP MEM].
    rewrite <- run_one in Hfs. split_and!; [by rewrite <- (frame_addr_wrap s q)| | |done|done].
    + constructor; cbn; [done| |apply Hi].
      rewrite Hfs, size_difference_run by (done || lia). by rewrite <- (inv_count _ Hi).
    + rewrite Hfs. constructor; [lia|lia|done|]. intros i Hi' Hs.
      specialize (Hlow i Hi'). specialize (Hs i). rewrite elem_of_run, elem_of_free_set in Hs.
      rewrite Hlow in Hs. naive_solver lia.
  - exists None. split_and!; try done. constructor. intros q _ Hq Hs.
    specialize (Hs q). rewrite elem_of_run, elem_of_free_set in Hs.
    destruct Hs as [? Hf]; [lia|]. rewrite Ht in Hf by lia. done.
Qed.

Lemma alloc_page_cases s :
  inv s ->
  match alloc_page s with
  | (None, s') => s' = s /\ free_set (PAGE_BITMAP s) = ∅
  | (Some a, s') => exists p, p ∈ free_set (PAGE_BITMAP s) /\ a = frame_addr s p /\
      free_set (PAGE_BITMAP s') = free_set (PAGE_BITMAP s) ∖ {[p]} /\ inv s' /\ MEM s' = MEM s /\ same_frame s s'
  end.
Proof.
  intros Hi. destruct (alloc_page_spec s Hi) as (op & Ho & Hi' & Hs & Hm & Hg).
  destruct (alloc_page s) as [o s'] eqn:E. cbn [fst snd] in *. subst o.
  inversion Hs as [n q Hn Hq Hr Hmin Hn1 Hop HF|n Hnone Hn1 Hop HF]; subst; cbn [fmap option_fmap option_map].
  - rewrite run_one in *. exists q. split_and!; [by apply Hr, elem_of_singleton|done|done|exact Hi'|exact Hm|exact Hg..].
  - assert (s' = s) as ->.
    { unfold alloc_page in E. cbn [fmap option_fmap option_map] in E. destruct (_ =? 0); [congruence|].
      destruct (take_first_free _ _) as [[]|]; congruence. }
    split; [done|]. apply set_eq. intros q. split; [|by intros ?%elem_of_empty]. intros Hq. exfalso.
    apply (Hnone q); [lia|apply elem_of_free_set in Hq; lia|]. rewrite run_one. by apply singleton_subseteq_l.
Qed.

Lemma alloc_contiguous_ok s n :
  inv s -> 0 <= n ->
  exists op s', alloc_contiguous n s = Ret (frame_addr s <$> op, s') /\ inv s' /\
    frames_step (free_set (PAGE_BITMAP s)) n op (free_set (PAGE_BITMAP s')) /\
    MEM s' = MEM s /\ same_frame s s'.
Proof.
  intros Hi Hn. unfold alloc_contiguous.
  destruct (Z.eqb_spec n 0) as [->|H0].
  { exists None, s. split_and!; try done. constructor. lia. }
  destruct (Z.eqb_spec n 1) as [->|H1].
  { destruct (alloc_page_spec s Hi) as (op & Hop & ?). exists op, (alloc_page s).2.
    rewrite <- Hop. split; [by destruct (alloc_page s)|done]. }
  destruct (Z.ltb_spec (FREE_PAGES s) n).
  { exists None, s. split_and!; try done. constructor. intros q _ Hq.
    apply no_run_count; (done || lia). }
  pose proof (scan_words_spec (PAGE_BITMAP s) n (inv_bitmap _ Hi) ltac:(lia)) as Hs.
  destruct (scan_words _ _ _ _ _) as [q|]; [|exists None, s; split_and!; try done; constructor; auto].
  destruct Hs as (Hq & Hle & Hsub & Hlow).
  destruct (for_pages_set (PAGE_BITMAP s) q n) as (bm' & -> & Hv & Hfs); [apply Hi|lia..|].
  exists (Some q). eexists. cbn [mbind outcome_bind fmap option_fmap option_map].
  change (FIRST_PAGE s + q * PAGE_SIZE) with (frame_addr s q).
  rewrite frame_addr_wrap by (done || lia). split; [done|].
  split_and!; [|cbn; rewrite Hfs; by constructor; [lia|..]|done|done].
  constructor; cbn; [done| |apply Hi].
  rewrite Hfs, size_difference_run by (done || lia). by rewrite <- (inv_count _ Hi).
Qed.

(** ** Releasing frames *)

(** [addr] is the base of [n] managed frames that are all out. *)
Definition releasable (s : state) (addr n p : Z) : Prop :=
  addr = frame_addr s p /\ 0 < n /\ 0 <= p /\ p + n <= MAX_PAGES /\
  run p n ## free_set (PAGE_BITMAP s).

(** The frames [p, p + n) went back to the pool and were scrubbed. *)
Definition released (s : state) (p n : Z) (s' : state) : Prop :=
  free_set (PAGE_BITMAP s') = free_set (PAGE_BITMAP s) ∪ run p n /\ same_frame s s' /\
  (forall a, load8 (MEM s') a =
     if decide (frame_addr s p <= a < frame_addr s (p + n)) then 0 else load8 (MEM s) a).

Lemma load8_zero_page m addr a :
  load8 (zero_page m addr) a =
    if decide (addr <= a < addr + PAGE_SIZE) then 0 else load8 m a.
Proof.
  unfold zero_page. rewrite load8_zero_words.
  change (4 * Z.of_nat (Z.to_nat (PAGE_SIZE / 4))) with PAGE_SIZE. done.
Qed.

Lemma free_pages_spec s p n :
  valid_bitmap (PAGE_BITMAP s) -> 0 <= p -> p + n <= MAX_PAGES -> 0 <= n ->
  exists s', free_pages (seqZ p n) s = Ret s' /\ valid_bitmap (PAGE_BITMAP s') /\
    FREE_PAGES s' = FREE_PAGES s /\ released s p n s'.
Proof.
  intros Hv Hp Hle Hn0. revert s p Hv Hp Hle.
  pattern n. apply natlike_ind; [| |done]; clear n Hn0.
  - intros s p Hv ??. exists s. split_and!; try done. split_and!; try done.
    + change (run p 0) with (∅ : gset Z). by rewrite (right_id_L ∅ (∪)).
    + intros a. rewrite Z.add_0_r. by rewrite decide_False by lia.
  - intros n Hn IH s p Hv Hp Hle. rewrite seqZ_cons by lia. cbn [free_pages].
    cbn [with_mem PAGE_BITMAP FREE_PAGES].
    destruct (clear_page_spec (PAGE_BITMAP s) p Hv) as (bm1 & -> & Hv1 & Hf1); [lia|].
    cbn [mbind outcome_bind]. set (s1 := with_bitmap _ _ _).
    destruct (IH s1 (p + 1)) as (s' & H2 & Hv2 & Hc2 & Hf2 & Hsame & Hm2); [done|lia|lia|].
    rewrite Z.pred_succ. replace (Z.succ p) with (p + 1) by lia.
    exists s'. split_and!; try done. split_and!; [|done|].
    + rewrite Hf2. cbn [s1 with_bitmap PAGE_BITMAP]. rewrite Hf1, (run_succ p (Z.succ n)) by lia.
      replace (Z.succ n - 1) with n by lia. by rewrite (assoc_L (∪)).
    + intros a. rewrite Hm2. cbn [s1 with_bitmap with_mem MEM].
      change (frame_addr s1) with (frame_addr s). rewrite load8_zero_page.
      unfold frame_addr, PAGE_SIZE. repeat case_decide; lia || done.
Qed.

Lemma size_union_run bm p n :
  0 <= n -> run p n ## free_set bm ->
  Z.of_nat (size (free_set bm ∪ run p n)) = Z.of_nat (size (free_set bm)) + n.
Proof. intros Hn Hd. rewrite size_union by done. pose proof (size_run p n Hn). lia. Qed.

Lemma inv_released s p n s' :
  inv s -> 0 <= n -> run p n ## free_set (PAGE_BITMAP s) ->
  valid_bitmap (PAGE_BITMAP s') -> released s p n s' -> FREE_PAGES s' = wrap32 (FREE_PAGES s + n) ->
  inv s'.
Proof.
  intros Hi Hn Hd Hv (Hfs & (HF & _ & _) & _) Hc.
  pose proof (size_union_run (PAGE_BITMAP s) p n Hn Hd) as Hsz. rewrite <- Hfs in Hsz.
  assert (Z.of_nat (size (free_set (PAGE_BITMAP s'))) <= MAX_PAGES).
  { assert (free_set (PAGE_BITMAP s') ⊆ run 0 MAX_PAGES) as Hs%subseteq_size.
    { intros i Hin%free_set_below. apply elem_of_run. lia. }
    pose proof (size_run 0 MAX_PAGES ltac:(done)). lia. }
  constructor; [done| |by rewrite HF; apply Hi].
  rewrite Hc, wrap32_small, (inv_count _ Hi); [lia|].
  pose proof (inv_count _ Hi). unfold is_u32. rewrite MAX_PAGES_eq in *. lia.
Qed.

(** The frame number a caller's address names, when the source's range and
    alignment guards accept it. *)
Lemma releasable_page s addr n p :
  inv s -> releasable s addr n p ->
  (addr <? FIRST_PAGE s) = false /\ ((addr - FIRST_PAGE s) mod PAGE_SIZE =? 0) = true /\
  (addr - FIRST_PAGE s) / PAGE_SIZE = p.
Proof.
  intros Hi (-> & Hn & Hp & Hle & _). unfold frame_addr.
  replace (FIRST_PAGE s + p * PAGE_SIZE - FIRST_PAGE s) with (p * PAGE_SIZE) by lia.
  rewrite Z.mod_mul, Z.div_mul by done. split_and!; [|done|done].
  apply Z.ltb_ge. unfold PAGE_SIZE. lia.
Qed.

Lemma not_releasable_existsb bm p n :
  valid_bitmap bm -> 0 <= p ->
  existsb (not_allocated bm) (seqZ p n) = true <->
  exists q, p <= q < p + n /\ (q ∈ free_set bm \/ MAX_PAGES <= q).
Proof.
  intros Hv Hp. rewrite existsb_exists. split.
  - intros (q & Hin & Hq). rewrite <- list_elem_of_In, elem_of_seqZ in Hin. exists q. split; [done|].
    destruct (decide (q < MAX_PAGES)); [left|right; lia].
    rewrite not_allocated_spec in Hq by (done || lia). by apply bool_decide_eq_true in Hq.
  - intros (q & Hq & Hor). exists q. rewrite <- list_elem_of_In, elem_of_seqZ. split; [done|].
    destruct (decide (q < MAX_PAGES)).
    + rewrite not_allocated_spec by (done || lia). apply bool_decide_eq_true. destruct Hor; [done|lia].
    + unfold not_allocated. rewrite lookup_ge_None_2; [done|].
      pose proof (valid_bitmap_pages _ Hv). unfold word_of. rewrite MAX_PAGES_eq in *. lia.
Qed.

Lemma try_free_page_spec s addr :
  inv s ->
  (exists p s', releasable s addr 1 p /\ try_free_page addr s = (true, s') /\
     inv s' /\ released s p 1 s') \/
  ((forall p, ~ releasable s addr 1 p) /\ try_free_page addr s = (false, s)).
Proof.
  intros Hi. unfold try_free_page.
  destruct (addr <? FIRST_PAGE s) eqn:E1.
  { right. split; [|done]. intros p (? & _)%releasable_page; congruence. }
  destruct ((addr - FIRST_PAGE s) mod PAGE_SIZE =? 0) eqn:E2; cbn [negb].
  2: { right. split; [|done]. intros p (_ & ? & _)%releasable_page; congruence. }
  set (p := (addr - FIRST_PAGE s) / PAGE_SIZE). bool_hyps.
  assert (addr = frame_addr s p) as Ha by (unfold frame_addr, p, PAGE_SIZE in *; lia).
  assert (0 <= p) as Hp by (unfold p, PAGE_SIZE; lia).
  pose proof (inv_bitmap _ Hi) as Hv.
  destruct (decide (p < MAX_PAGES)) as [Hlt|Hge].
  2: { right. split; [intros q Hq; pose proof Hq as (_&_&_&?&_);
         apply releasable_page in Hq as (_ & _ & Hpq); [fold p in Hpq; lia|done]|].
       rewrite lookup_ge_None_2; [done|]. pose proof (valid_bitmap_pages _ Hv).
       unfold word_of. rewrite MAX_PAGES_eq in *. lia. }
  pose proof (not_allocated_spec _ p Hv (conj Hp Hlt)) as Hna.
  destruct (bitmap_word _ p Hv (conj Hp Hlt)) as (w & Hw & Hwu).
  unfold not_allocated in Hna. rewrite Hw in Hna |- *. rewrite Hna. case_bool_decide as Hin.
  { right. split; [|done]. intros q Hq. pose proof Hq as (_&_&_&_&Hd).
    apply releasable_page in Hq as (_ & _ & Hpq); [|done]. fold p in Hpq. subst q.
    rewrite run_one in Hd. by apply disjoint_singleton_l in Hd. }
  left. exists p. eexists. assert (run p 1 ## free_set (PAGE_BITMAP s)) 
    by (rewrite run_one; by apply disjoint_singleton_l).
  split; [by split_and!; [|lia..|]|]. split; [done|].
  destruct (clear_word_free_set _ p Hv (conj Hp Hlt) w Hw Hwu) as [Hv' Hf'].
  match goal with |- inv ?s' /\ _ => assert (released s p 1 s') as Hrel end.
  { split_and!; [by cbn; rewrite Hf', run_one|done|]. intros a. cbn. rewrite load8_zero_page, Ha.
    unfold frame_addr, PAGE_SIZE. repeat case_decide; lia || done. }
  split; [|done]. by apply (inv_released s p 1); [done|lia|..].
Qed.

Lemma free_contiguous_ok s addr n :
  inv s -> is_u32 addr -> 0 <= n -> addr / PAGE_SIZE + n < 2 ^ 32 ->
  (exists p s', releasable s addr n p /\ free_contiguous addr n s = Ret (true, s') /\
     inv s' /\ released s p n s') \/
  ((forall p, ~ releasable s addr n p) /\ free_contiguous addr n s = Ret (false, s)).
Proof.
  intros Hi Ha Hn Hov. unfold free_contiguous.
  destruct (Z.eqb_spec n 0) as [->|H0].
  { right. split; [|done]. intros p (_ & ? & _). lia. }
  destruct (Z.eqb_spec n 1) as [->|H1].
  { destruct (try_free_page_spec s addr Hi) as [(p & s' & ? & -> & ?)|(? & ->)]; eauto 10. }
  destruct (addr <? FIRST_PAGE s) eqn:E1.
  { right. split; [|done]. intros p (? & _)%releasable_page; congruence. }
  destruct ((addr - FIRST_PAGE s) mod PAGE_SIZE =? 0) eqn:E2; cbn [negb].
  2: { right. split; [|done]. intros p (_ & ? & _)%releasable_page; congruence. }
  set (p := (addr - FIRST_PAGE s) / PAGE_SIZE). bool_hyps.
  assert (addr = frame_addr s p) as Hap by (unfold frame_addr, p, PAGE_SIZE in *; lia).
  assert (0 <= p <= addr / PAGE_SIZE) as Hp.
  { pose proof (inv_base _ Hi). unfold p. split; [unfold PAGE_SIZE; lia|].
    apply Z.div_le_mono; [done|lia]. }
  replace (wrap32 (p + n) - p) with n by (rewrite wrap32_small; unfold is_u32; lia).
  pose proof (inv_bitmap _ Hi) as Hv.
  pose proof (not_releasable_existsb _ p n Hv ltac:(lia)) as Hex.
  destruct (existsb _ _).
  { right. split; [|done]. intros q Hq. pose proof Hq as (_&_&_&Hle&Hd).
    apply releasable_page in Hq as (_ & _ & Hpq); [|done]. fold p in Hpq. subst q.
    destruct (proj1 Hex eq_refl) as (q & Hq & [Hin|?]); [|lia].
    apply (Hd q); [by apply elem_of_run|done]. }
  assert (forall q, p <= q < p + n -> (q ∉ free_set (PAGE_BITMAP s)) /\ q < MAX_PAGES) as Hall.
  { intros q Hq. destruct (decide ((q ∈ free_set (PAGE_BITMAP s)) \/ MAX_PAGES <= q));
      [|split; [tauto|lia]]. exfalso. assert (false = true); [|done]. apply Hex. eauto. }
  destruct (Hall (p + n - 1)) as [_ Hlast]; [lia|].
  assert (run p n ## free_set (PAGE_BITMAP s)) as Hd.
  { intros q Hq%elem_of_run Hin. by apply Hall in Hq as [? _]. }
  destruct (free_pages_spec s p n Hv) as (s' & -> & Hv' & Hc & Hrel); [lia..|].
  left. exists p. eexists. cbn [mbind outcome_bind].
  split; [by split_and!; [|lia..|]|]. split; [done|].
  assert (released s p n (with_bitmap s' (PAGE_BITMAP s') (wrap32 (FREE_PAGES s' + n)))) by done.
  split; [|done]. apply (inv_released s p n); [done|lia|done|done|done|]. cbn. by rewrite Hc.
Qed.

(** What an allocation hands out can be released. *)
Lemma allocated_releasable s n p s' :
  inv s -> 0 <= n ->
  alloc_contiguous n s = Ret (Some (frame_addr s p), s') ->
  inv s' /\ same_frame s s' /\ MEM s' = MEM s /\ releasable s' (frame_addr s p) n p /\
  run p n ⊆ free_set (PAGE_BITMAP s) /\
  free_set (PAGE_BITMAP s') = free_set (PAGE_BITMAP s) ∖ run p n.
Proof.
  intros Hi Hn Ha. destruct (alloc_contiguous_ok s n Hi Hn) as (op & s1 & H1 & Hi1 & Hst & Hm & Hsf).
  rewrite Ha in H1. destruct op as [q|]; [|done]. cbn in H1.
  injection H1 as Hq <-. assert (q = p) as -> by (unfold frame_addr, PAGE_SIZE in Hq; lia).
  inversion Hst as [? ? Hn0 Hp Hsub Hlow Hn' Hp' HF|]; subst.
  pose proof (run_below _ _ _ Hn0 Hsub). split_and!; try done.
  split_and!; [|done|done|lia|].
  - unfold frame_addr. by destruct Hsf as (-> & _).
  - rewrite <- HF. apply disjoint_difference_r1. done.
Qed.

(** Allocating [n] frames and releasing them restores the free frames and
    the count, and leaves the released pages zeroed. *)
Theorem alloc_free_roundtrip s n addr s1 :
  inv s -> 0 <= n -> n <= MAX_PAGES ->
  alloc_contiguous n s = Ret (Some addr, s1) ->
  exists s2, free_contiguous addr n s1 = Ret (true, s2) /\
    free_set (PAGE_BITMAP s2) = free_set (PAGE_BITMAP s) /\ free_count s2 = free_count s /\
    forall a, addr <= a < addr + n * PAGE_SIZE -> load8 (MEM s2) a = 0.
Proof.
  intros Hi Hn HnM Ha.
  destruct (alloc_contiguous_ok s n Hi Hn) as (op & s' & H1 & _). pose proof H1 as H1'.
  rewrite Ha in H1'. destruct op as [p|]; [|done]. injection H1' as -> <-. clear Ha.
  apply allocated_releasable in H1 as (Hi1 & Hsf & Hm & Hr & Hsub & HF); [|done..].
  pose proof Hr as (_ & Hn0 & Hp & Hle & Hd).
  destruct (free_contiguous_ok s1 (frame_addr s p) n Hi1) as
    [(q & s2 & Hq & Hfree & Hi2 & Hfs & _ & Hz)|[Hno _]];
    [ | done | | |by destruct (Hno p)].
  - pose proof (inv_base _ Hi). unfold is_u32, frame_addr.
    rewrite MAX_PAGES_eq in *. unfold PAGE_SIZE in *. lia.
  - pose proof (inv_base _ Hi). unfold frame_addr. rewrite MAX_PAGES_eq in *.
    assert ((FIRST_PAGE s + p * PAGE_SIZE) / PAGE_SIZE < 2 ^ 31); [|lia].
    apply Z.div_lt_upper_bound; unfold PAGE_SIZE in *; lia.
  - assert (q = p) as ->.
    { apply releasable_page in Hq as (_ & _ & Eq); [|done].
      apply releasable_page in Hr as (_ & _ & Er); [|done]. congruence. }
    exists s2. assert (free_set (PAGE_BITMAP s2) = free_set (PAGE_BITMAP s)) as HF2.
    { rewrite Hfs, HF, (comm_L (∪)). symmetry. by apply union_difference_L. }
    split_and!; [done|done|by unfold free_count; rewrite !inv_count, HF2|].
    intros a Hin. rewrite Hz. apply decide_True. unfold frame_addr in *.
    destruct Hsf as (-> & _). unfold PAGE_SIZE in *. lia.
Qed.

(** ** Clients

    [L] lists the runs (base address, number of frames) the clients hold: an
    allocation adds one, a release gives one of them back. *)

Inductive client_step : state * list (Z * Z) -> state * list (Z * Z) -> Prop :=
  | client_alloc s L n addr s' :
      0 <= n -> alloc_contiguous n s = Ret (Some addr, s') ->
      client_step (s, L) (s', (addr, n) :: L)
  | client_alloc_fail s L n s' :
      0 <= n -> alloc_contiguous n s = Ret (None, s') -> client_step (s, L) (s', L)
  | client_free s L L' addr n ok s' :
      L ≡ₚ (addr, n) :: L' -> free_contiguous addr n s = Ret (ok, s') ->
      client_step (s, L) (s', L').

(** Two runs do not share a byte. *)
Definition apart (x y : Z * Z) : Prop :=
  x.1 + x.2 * PAGE_SIZE <= y.1 \/ y.1 + y.2 * PAGE_SIZE <= x.1.

Fixpoint pairwise_apart (L : list (Z * Z)) : Prop :=
  match L with
  | [] => True
  | x :: L => Forall (apart x) L /\ pairwise_apart L
  end.

#[export] Instance pairwise_apart_perm : Proper ((≡ₚ) ==> iff) pairwise_apart.
Proof.
  intros L L' HL. induction HL as [|x L L' HL IH|x y L|L1 L2 L3 _ IH1 _ IH2]; [done| | |by rewrite IH1].
  - cbn. by rewrite IH, HL.
  - cbn. rewrite !Forall_cons. unfold apart. tauto.
Qed.

Record client_inv (s : state) (L : list (Z * Z)) : Prop := {
  client_pages : inv s;
  client_held : Forall (fun x => exists p, releasable s x.1 x.2 p) L;
  client_apart : pairwise_apart L;
}.

Lemma releasable_bounds s addr n p :
  inv s -> releasable s addr n p -> is_u32 addr /\ addr / PAGE_SIZE + n < 2 ^ 32.
Proof.
  intros Hi (-> & Hn & Hp & Hle & _). pose proof (inv_base _ Hi). unfold is_u32, frame_addr.
  rewrite MAX_PAGES_eq in *. split; [unfold PAGE_SIZE in *; lia|].
  assert ((FIRST_PAGE s + p * PAGE_SIZE) / PAGE_SIZE < 2 ^ 31); [|lia].
  apply Z.div_lt_upper_bound; unfold PAGE_SIZE in *; lia.
Qed.

(** A run that stays out while other frames change hands. *)
Lemma releasable_frame s s' addr n p :
  releasable s addr n p -> same_frame s s' ->
  (forall q, q ∈ run p n -> q ∉ free_set (PAGE_BITMAP s')) -> releasable s' addr n p.
Proof.
  intros (-> & Hn & Hp & Hle & _) (HF & _) Hd. split_and!; try done.
  unfold frame_addr. by rewrite HF.
Qed.

Lemma apart_runs s addr n p addr' n' p' :
  releasable s addr n p -> addr' = frame_addr s p' -> 0 < n' ->
  run p n ## run p' n' -> apart (addr', n') (addr, n).
Proof.
  intros (-> & Hn & _ & _ & _) -> Hn' Hd. unfold apart, frame_addr; cbn.
  destruct (decide (p' + n' <= p)); [left; unfold PAGE_SIZE; lia|].
  destruct (decide (p + n <= p')); [right; unfold PAGE_SIZE; lia|].
  exfalso. apply (Hd (Z.max p p')); apply elem_of_run; lia.
Qed.

Lemma client_step_alloc s L n addr s' :
  client_inv s L -> 0 <= n -> alloc_contiguous n s = Ret (Some addr, s') ->
  client_inv s' ((addr, n) :: L).
Proof.
  intros [Hi Hheld Hap] Hn Ha.
  destruct (alloc_contiguous_ok s n Hi Hn) as (op & s1 & H1 & _). pose proof H1 as H1'.
  rewrite Ha in H1'. destruct op as [p|]; [|done]. injection H1' as -> <-. clear Ha.
  apply allocated_releasable in H1 as (Hi1 & Hsf & _ & Hr & Hsub & HF); [|done..].
  constructor; [done| |split; [|done]].
  - apply Forall_cons. split; [by exists p|]. eapply Forall_impl; [exact Hheld|].
    intros [b m] (q & Hq). exists q. eapply releasable_frame; [done..|].
    intros i Hin. rewrite HF, elem_of_difference. destruct Hq as (_&_&_&_&Hd).
    intros [Hf _]. by apply (Hd i).
  - eapply Forall_impl; [exact Hheld|]. intros [b m] (q & Hq).
    eapply apart_runs; [exact Hq|done|apply Hr|].
    destruct Hq as (_&_&_&_&Hd). cbn in Hd. intros i Hi1' Hi2'. by apply (Hd i), Hsub.
Qed.

Lemma client_step_free s L L' addr n ok s' :
  client_inv s L -> L ≡ₚ (addr, n) :: L' -> free_contiguous addr n s = Ret (ok, s') ->
  client_inv s' L' /\ ok = true.
Proof.
  intros [Hi Hheld Hap] HL Hfree. rewrite HL in Hheld, Hap.
  apply Forall_cons in Hheld as [[p Hp] Hheld]. destruct Hap as [Hap1 Hap2]. cbn [fst snd] in Hp.
  destruct (releasable_bounds _ _ _ _ Hi Hp) as [? ?]. pose proof Hp as (Ea & Hn & _).
  destruct (free_contiguous_ok s addr n) as [(q & s1 & Hq & H1 & Hi1 & HF & Hsf & _)|[Hno _]];
    [done|done|lia|done| |by destruct (Hno p)].
  rewrite Hfree in H1. injection H1 as -> <-. split; [|done]. constructor; [done| |done].
  assert (q = p) as -> by (pose proof Hq as (Eq & _); unfold frame_addr, PAGE_SIZE in *; lia).
  rewrite Forall_forall in Hheld, Hap1 |- *. intros [b m] Hin.
  destruct (Hheld _ Hin) as [q' Hq']. specialize (Hap1 _ Hin). cbn [fst snd] in Hq' |- *.
  exists q'. eapply releasable_frame; [done..|]. intros i Hr. rewrite HF, elem_of_union.
  destruct Hq' as (Eb & _ & _ & _ & Hd). intros [Hf|Hf]; [by apply (Hd i)|].
  rewrite elem_of_run in Hr, Hf. unfold apart, frame_addr, PAGE_SIZE in *. cbn in Hap1. lia.
Qed.

(** C7: However clients interleave allocations and releases, no frame is ever
    handed out twice: the runs they hold never overlap, and the invariant
    holds throughout. *)
Theorem no_double_allocation s0 s L :
  inv s0 -> rtc client_step (s0, []) (s, L) -> inv s /\ pairwise_apart L.
Proof.
  intros Hi Hr. assert (client_inv s L) as []; [|done].
  change (client_inv (s, L).1 (s, L).2). revert Hr. generalize (s, L) as y.
  apply (rtc_ind_r (fun y => client_inv y.1 y.2)); [by constructor|].
  intros ? ? _ Hs IH. destruct Hs as [s1 L1 n addr s2 Hn Ha|s1 L1 n s2 Hn Ha|s1 L1 L2 addr n ok s2 HL Hf];
    cbn [fst snd] in *.
  - by eapply client_step_alloc.
  - destruct (alloc_contiguous_ok s1 n (client_pages _ _ IH) Hn)
      as (op & s3 & H3 & Hi3 & Hst & _ & Hsf). rewrite Ha in H3. destruct op; [done|].
    injection H3 as <-. inversion Hst as [|? Hnone Hn' Hop HF]. clear Hnone Hn' Hop.
    destruct IH as [? Hheld Hap]. constructor; [done| |done].
    eapply Forall_impl; [exact Hheld|]. intros z [p Hp]. exists p.
    eapply releasable_frame; [done..|]. destruct Hp as (_&_&_&_&Hd). rewrite <- HF.
    intros i Hin Hf. by apply (Hd i).
  - by eapply client_step_free in IH as [? _].
Qed.

(** ** Boot *)

Lemma valid_bitmap_ones bm :
  Z.of_nat (length bm) = MAX_PAGES / 32 ->
  valid_bitmap ((fun _ : Z => 0xFFFFFFFF) <$> bm) /\ free_set ((fun _ : Z => 0xFFFFFFFF) <$> bm) = ∅.
Proof.
  intros Hl. assert (valid_bitmap ((fun _ : Z => 0xFFFFFFFF) <$> bm)) as Hv.
  { split; [by rewrite length_fmap|]. apply Forall_fmap, Forall_true. intros. unfold is_u32, compose. lia. }
  split; [done|]. apply elem_of_equiv_empty_L. intros p [Hp Hf]%elem_of_free_set.
  destruct (bitmap_word _ p Hv Hp) as (w & Hw & _). unfold is_free in Hf.
  rewrite (list_lookup_total_correct _ _ _ Hw) in Hf.
  apply list_lookup_fmap_Some in Hw as (? & -> & _). rewrite ones32_testbit in Hf by lia. done.
Qed.

(** The RAM layout [init] is called with: a page-aligned base, the kernel image
    inside RAM, at most the gigabyte the bitmap covers. *)
Record layout (ram_start ram_end kernel_end : Z) : Prop := {
  layout_aligned : ram_start mod PAGE_SIZE = 0;
  layout_kernel : 0 <= ram_start <= kernel_end /\ kernel_end + PAGE_SIZE <= ram_end;
  layout_size : ram_end <= ram_start + MAX_PAGES * PAGE_SIZE /\ is_u32 ram_end;
  layout_fits : ram_start + MAX_PAGES * PAGE_SIZE <= 2 ^ 32;
}.

(** The first frame past the kernel image, and the number of whole frames of RAM. *)
Definition first_usable (ram_start kernel_end : Z) : Z :=
  (kernel_end + PAGE_SIZE - 1) / PAGE_SIZE - ram_start / PAGE_SIZE.
Definition ram_frames (ram_start ram_end : Z) : Z := ram_end / PAGE_SIZE - ram_start / PAGE_SIZE.

Lemma init_ok ram_start ram_end kernel_end s :
  layout ram_start ram_end kernel_end -> Z.of_nat (length (PAGE_BITMAP s)) = MAX_PAGES / 32 ->
  let lo := first_usable ram_start kernel_end in
  let hi := ram_frames ram_start ram_end in
  exists s', init ram_start ram_end kernel_end s = Ret s' /\ inv s' /\
    FIRST_PAGE s' = ram_start /\ USABLE_START_PAGE s' = lo /\ USABLE_END_PAGE s' = hi /\
    MEM s' = MEM s /\ 0 <= lo <= hi /\ hi <= MAX_PAGES /\
    free_set (PAGE_BITMAP s') = run lo (hi - lo).
Proof.
  intros [Hal Hk [Hsz Hre] Hfit] Hl lo hi. unfold init.
  assert (forall x, is_u32 x -> Z.land x (not32 (PAGE_SIZE - 1)) = x / PAGE_SIZE * PAGE_SIZE) as Hround.
  { intros x Hx. by apply (land_not_mask x 12). }
  assert (ram_start = ram_start / PAGE_SIZE * PAGE_SIZE) as Hc by (unfold PAGE_SIZE in *; lia).
  assert (0 <= lo <= hi /\ hi <= MAX_PAGES) as Hlohi.
  { unfold lo, hi, first_usable, ram_frames. rewrite MAX_PAGES_eq in *. unfold PAGE_SIZE in *. lia. }
  rewrite (wrap32_small (kernel_end + PAGE_SIZE - 1)) by (unfold is_u32, PAGE_SIZE in *; lia).
  rewrite !Hround by (unfold is_u32, PAGE_SIZE in *; lia).
  assert (forall x y, is_u32 (x * PAGE_SIZE - y * PAGE_SIZE) ->
      wrap32 (x * PAGE_SIZE - y * PAGE_SIZE) / PAGE_SIZE = x - y) as Hdiv.
  { intros x y Hxy. rewrite wrap32_small, <- Z.mul_sub_distr_r by done. by apply Z.div_mul. }
  set (a := (kernel_end + PAGE_SIZE - 1) / PAGE_SIZE). set (b := ram_end / PAGE_SIZE).
  rewrite Hc. rewrite !Hdiv by (unfold is_u32, a, b, PAGE_SIZE in *; lia). rewrite <- Hc.
  change (a - ram_start / PAGE_SIZE) with lo. change (b - ram_start / PAGE_SIZE) with hi.
  destruct (valid_bitmap_ones (PAGE_BITMAP s) Hl) as [Hv Hf].
  destruct (for_pages_clear _ lo (hi - lo) Hv) as (bm & -> & Hv' & Hf'); [lia..|].
  rewrite Hf, (left_id_L ∅ (∪)) in Hf'.
  eexists. split; [done|]. split_and!; try done; try lia.
  constructor; [done| |cbn; lia]. cbn. rewrite Hf', size_run by lia.
  unfold lo, hi, first_usable, ram_frames, a, b. lia.
Qed.

Lemma zero_page_list_spec m first p n a :
  0 <= n ->
  load8 (zero_page_list m first (seqZ p n)) a =
    if decide (first + p * PAGE_SIZE <= a < first + (p + n) * PAGE_SIZE) then 0 else load8 m a.
Proof.
  intros Hn. revert m p. pattern n. apply natlike_ind; [| |done]; clear n Hn.
  - intros m p. cbn. rewrite decide_False by (unfold PAGE_SIZE; lia). done.
  - intros n Hn IH m p. rewrite seqZ_cons by lia. cbn [zero_page_list]. rewrite Z.pred_succ, IH.
    rewrite load8_zero_page. unfold PAGE_SIZE. repeat case_decide; lia || done.
Qed.

(** C6: [alloc_contiguous] refines the abstract allocator: it never panics, it
    returns the base address of the lowest run of [n] free frames, marks
    exactly those frames, leaves memory alone, and returns [None] only when no
    run of [n] free frames exists. *)
Theorem alloc_contiguous_refines s n :
  inv s -> 0 <= n ->
  exists op s', alloc_contiguous n s = Ret (frame_addr s <$> op, s') /\ inv s' /\
    frames_step (free_set (PAGE_BITMAP s)) n op (free_set (PAGE_BITMAP s')) /\
    MEM s' = MEM s /\ same_frame s s'.
Proof. exact (alloc_contiguous_ok s n). Qed.

(** [free_contiguous] is all-or-nothing: it accepts exactly the base
    addresses of [n] managed frames that are all out, and then returns them to
    the pool, scrubs every byte of them and keeps every other byte; any other
    request (below the base, misaligned, past the bitmap, partly free) is
    rejected with the state unchanged. *)
Theorem free_contiguous_all_or_nothing s addr n :
  inv s -> is_u32 addr -> 0 <= n -> addr / PAGE_SIZE + n < 2 ^ 32 ->
  (exists p s', releasable s addr n p /\ free_contiguous addr n s = Ret (true, s') /\
     inv s' /\ released s p n s') \/
  ((forall p, ~ releasable s addr n p) /\ free_contiguous addr n s = Ret (false, s)).
Proof. exact (free_contiguous_ok s addr n). Qed.

(** [init] establishes the invariant on any valid RAM layout without a
    panic: exactly the frames between the kernel image and the end of RAM are
    free; and the panic scrub [zero_usable_range] then zeroes every byte of
    those frames and of nothing else, whatever was allocated meanwhile. *)
Theorem init_then_scrub ram_start ram_end kernel_end m :
  layout ram_start ram_end kernel_end ->
  let lo := first_usable ram_start kernel_end in
  let hi := ram_frames ram_start ram_end in
  exists s, init ram_start ram_end kernel_end (boot m) = Ret s /\ inv s /\
    free_set (PAGE_BITMAP s) = run lo (hi - lo) /\
    forall s' m', same_frame s s' ->
      let r := zero_usable_range (with_mem s' m') in
      r.1 = hi - lo /\ PAGE_BITMAP r.2 = PAGE_BITMAP s' /\ FREE_PAGES r.2 = FREE_PAGES s' /\
      forall a, load8 (MEM r.2) a =
        if decide (ram_start + lo * PAGE_SIZE <= a < ram_start + hi * PAGE_SIZE) then 0
        else load8 m' a.
Proof.
  intros Hlay lo hi. destruct (init_ok ram_start ram_end kernel_end (boot m) Hlay) as
    (s & Hs & Hi & HF & HS & HE & _ & Hlo & Hhi & Hfs).
  { cbn. by rewrite length_replicate. }
  exists s. split_and!; [done..|]. intros s' m' (HF' & HS' & HE'). cbv zeta.
  unfold zero_usable_range, zero_page_range. cbn [with_mem MEM FIRST_PAGE USABLE_START_PAGE USABLE_END_PAGE fst snd].
  rewrite HF', HS', HE', HF, HS, HE. fold lo hi. fold lo hi in Hlo. split_and!; [|done..|].
  - rewrite length_seqZ. lia.
  - intros a. cbn [PAGE_BITMAP FREE_PAGES MEM with_mem]. rewrite zero_page_list_spec by lia.
    by replace (lo + (hi - lo)) with hi by lia.
Qed.

(** ** Witnesses *)

(** The board's layout: RAM from 0x4000_0000, the kernel image up to
    0x4020_0000, the top megabyte reserved for user text. *)
Lemma board_layout : layout 0x40000000 0x7FF00000 0x40200000.
Proof. constructor; unfold is_u32, MAX_PAGES, PAGE_SIZE; lia || reflexivity. Qed.

(** A small machine: eight frames, three of them the kernel image. *)
Definition demo : state :=
  match init 0x40000000 0x40008000 0x40002800 (boot ∅) with Ret s => s | Panic => boot ∅ end.

Lemma demo_inv : inv demo.
Proof.
  destruct (init_ok 0x40000000 0x40008000 0x40002800 (boot ∅)) as (s & Hs & Hi & _).
  - constructor; unfold is_u32, MAX_PAGES, PAGE_SIZE; lia || reflexivity.
  - reflexivity.
  - unfold demo. by rewrite Hs.
Qed.

Lemma alloc_contiguous_refines_witness :
  exists op s', alloc_contiguous 2 demo = Ret (frame_addr demo <$> op, s') /\ inv s' /\
    frames_step (free_set (PAGE_BITMAP demo)) 2 op (free_set (PAGE_BITMAP s')) /\
    MEM s' = MEM demo /\ same_frame demo s'.
Proof. apply (alloc_contiguous_refines demo 2); [exact demo_inv | lia]. Defined.

Lemma free_contiguous_all_or_nothing_witness :
  (exists p s', releasable demo 0x40004000 2 p /\ free_contiguous 0x40004000 2 demo = Ret (true, s') /\
     inv s' /\ released demo p 2 s') \/
  ((forall p, ~ releasable demo 0x40004000 2 p) /\ free_contiguous 0x40004000 2 demo = Ret (false, demo)).
Proof.
  apply (free_contiguous_all_or_nothing demo 0x40004000 2);
    [exact demo_inv | unfold is_u32; lia | lia | reflexivity].
Defined.

Definition demo_alloc : state :=
  match alloc_contiguous 2 demo with Ret (_, s) => s | Panic => demo end.

Lemma alloc_free_roundtrip_witness :
  exists s2, free_contiguous 0x40003000 2 demo_alloc = Ret (true, s2) /\
    free_set (PAGE_BITMAP s2) = free_set (PAGE_BITMAP demo) /\ free_count s2 = free_count demo /\
    forall a, 0x40003000 <= a < 0x40003000 + 2 * PAGE_SIZE -> load8 (MEM s2) a = 0.
Proof.
  apply (alloc_free_roundtrip demo 2 0x40003000 demo_alloc);
    [exact demo_inv | lia | unfold MAX_PAGES, PAGE_SIZE; lia | vm_compute; reflexivity].
Defined.

Lemma no_double_allocation_witness : inv demo_alloc /\ pairwise_apart [(0x40003000, 2)].
Proof.
  apply (no_double_allocation demo); [exact demo_inv|].
  apply rtc_once. apply (client_alloc demo [] 2 0x40003000); [lia | vm_compute; reflexivity].
Defined.

Lemma init_then_scrub_witness :
  exists s, init 0x40000000 0x7FF00000 0x40200000 (boot ∅) = Ret s /\ inv s /\
    free_set (PAGE_BITMAP s) =
      run (first_usable 0x40000000 0x40200000)
        (ram_frames 0x40000000 0x7FF00000 - first_usable 0x40000000 0x40200000).
Proof.
  destruct (init_then_scrub 0x40000000 0x7FF00000 0x40200000 ∅ board_layout) as (s & H1 & H2 & H3 & _).
  exists s. split; [exact H1|]. split; [exact H2|]. exact H3.
Defined.
End page.
