(* ===== verification/Slab.v ===== *)
(** * The kernel heap ([crates/thumos/src/slab.rs], [heap.rs])

    The size-class allocator behind Rust's [GlobalAlloc], over the page
    allocator of [Page]. Free objects form a list threaded through their own
    first words, so the model keeps them in the machine's memory. The spinlock
    is the atomicity of each operation. A client's blocks are ghost state: a
    map from the address of each live block to the size it was asked for. *)

From S2P Require Import Prelude Machine Page.
From Stdlib Require Import ZArith.
Open Scope Z_scope.

Module slab.

Definition SLAB_SIZES : list Z := [32; 64; 128; 256; 512; 1024; 2048].
Definition MAX_SLABS : Z := 32.

Record SlabClass := mk_class {
  free_list : Z;
  slab_pages : list Z;
  slab_count : Z;
  obj_size : Z;
  alloc_count : Z;
  free_count : Z;
}.

Definition zeroed : SlabClass := mk_class 0 (replicate (Z.to_nat MAX_SLABS) 0) 0 0 0 0.

Record Layout := mk_layout { lsize : Z; lalign : Z }.

(** The loop [for i in (0..n).rev()] that threads a page onto the free list. *)
Fixpoint carve (page_ptr size : Z) (n : nat) (head : Z) (m : memory) : Z * memory :=
  match n with
  | O => (head, m)
  | S i => let node := page_ptr + Z.of_nat i * size in carve page_ptr size i node (store32 m node head)
  end.

Definition refill (c : SlabClass) (p : page.state) : outcome (bool * SlabClass * page.state) :=
  if MAX_SLABS <=? slab_count c then Ret (false, c, p) else
  match page.alloc_page p with
  | (None, p) => Ret (false, c, p)
  | (Some page_ptr, p) =>
      pages ← store (slab_pages c) (Z.to_nat (slab_count c)) page_ptr;
      let '(head, m) := carve page_ptr (obj_size c) (Z.to_nat (page.PAGE_SIZE / obj_size c)) (free_list c) (page.MEM p) in
      Ret (true, mk_class head pages (slab_count c + 1) (obj_size c) (alloc_count c) (free_count c), page.with_mem p m)
  end.

(** The head of the list; the null pointer is 0. *)
Definition pop (c : SlabClass) (p : page.state) : Z * SlabClass * page.state :=
  let node := free_list c in
  (node, mk_class (load32 (page.MEM p) node) (slab_pages c) (slab_count c) (obj_size c) (wrap64 (alloc_count c + 1)) (free_count c), p).

Definition alloc_obj (c : SlabClass) (p : page.state) : outcome (Z * SlabClass * page.state) :=
  if free_list c =? 0 then
    r ← refill c p;
    let '(ok, c, p) := r in
    if ok : bool then Ret (pop c p) else Ret (0, c, p)
  else Ret (pop c p).

Definition dealloc_obj (ptr : Z) (c : SlabClass) (m : memory) : SlabClass * memory :=
  let m := zero_bytes m ptr (Z.to_nat (obj_size c)) in
  let m := store32 m ptr (free_list c) in
  (mk_class ptr (slab_pages c) (slab_count c) (obj_size c) (alloc_count c) (wrap64 (free_count c + 1)), m).

Record SlabAllocator := mk_slab {
  classes : list SlabClass;
  large_alloc_count : Z;
  large_free_count : Z;
  initialized : bool;
}.

Definition new : SlabAllocator := mk_slab (replicate 7 zeroed) 0 0 false.

Definition with_size (c : SlabClass) (sz : Z) : SlabClass :=
  mk_class (free_list c) (slab_pages c) (slab_count c) sz (alloc_count c) (free_count c).

Definition init (s : SlabAllocator) : SlabAllocator :=
  mk_slab (zip_with with_size (classes s) SLAB_SIZES) (large_alloc_count s) (large_free_count s) true.

(** [iter().position(|&s| size <= s)]. *)
Fixpoint position_from (size : Z) (i : nat) (sizes : list Z) : option nat :=
  match sizes with
  | [] => None
  | s :: sizes => if size <=? s then Some i else position_from size (S i) sizes
  end.
Definition class_for (size : Z) : option nat := position_from size 0 SLAB_SIZES.

Definition layout_size (l : Layout) : Z := Z.max (lsize l) (lalign l).

(** [size.div_ceil(PAGE_SIZE)]. *)
Definition large_pages (size : Z) : Z := (size + page.PAGE_SIZE - 1) / page.PAGE_SIZE.

Definition set_class (s : SlabAllocator) (cs : list SlabClass) : SlabAllocator :=
  mk_slab cs (large_alloc_count s) (large_free_count s) (initialized s).

(** [alloc_inner] with [page::alloc_page] for both functions, as
    [KernelAllocator::alloc] calls it. *)
Definition alloc (l : Layout) (s : SlabAllocator) (p : page.state) : outcome (Z * SlabAllocator * page.state) :=
  if negb (initialized s) then Ret (0, s, p) else
  let size := layout_size l in
  match class_for size with
  | Some idx =>
      c ← index (classes s) idx;
      r ← alloc_obj c p;
      let '(a, c, p) := r in
      cs ← store (classes s) idx c;
      Ret (a, set_class s cs, p)
  | None =>
      let pages := large_pages size in
      r ← (if pages =? 1 then Ret (page.alloc_page p) else page.alloc_contiguous pages p);
      match r with
      | (Some a, p) => Ret (a, mk_slab (classes s) (wrap64 (large_alloc_count s + 1)) (large_free_count s) (initialized s), p)
      | (None, p) => Ret (0, s, p)
      end
  end.

Definition dealloc (ptr : Z) (l : Layout) (s : SlabAllocator) (p : page.state) : outcome (SlabAllocator * page.state) :=
  if negb (initialized s) || (ptr =? 0) then Ret (s, p) else
  let size := layout_size l in
  match class_for size with
  | Some idx =>
      c ← index (classes s) idx;
      let '(c, m) := dealloc_obj ptr c (page.MEM p) in
      cs ← store (classes s) idx c;
      Ret (set_class s cs, page.with_mem p m)
  | None =>
      let pages := large_pages size in
      p ← (if pages =? 1 then Ret (page.free_page ptr p) else snd <$> page.free_contiguous ptr pages p);
      Ret (mk_slab (classes s) (large_alloc_count s) (wrap64 (large_free_count s + 1)) (initialized s), p)
  end.

Definition stats (s : SlabAllocator) : Z * Z :=
  foldl (fun af c => (wrap64 (af.1 + alloc_count c), wrap64 (af.2 + free_count c)))
    (large_alloc_count s, large_free_count s) (classes s).

(** ** The free list *)

Section theory.
#[local] Ltac Zify.zify_post_hook ::= Z.to_euclidean_division_equations.
#[local] Opaque page.free_set page.MAX_PAGES.

Fixpoint chain (m : memory) (head : Z) (l : list Z) : Prop :=
  match l with
  | [] => head = 0
  | a :: l => head = a /\ a <> 0 /\ chain m (load32 m a) l
  end.

Lemma chain_ext m m' head l :
  (forall a b, a ∈ l -> a <= b < a + 4 -> load8 m' b = load8 m b) -> chain m head l -> chain m' head l.
Proof.
  revert head. induction l as [|a l IH]; intros head Hm; cbn [chain]; [done|]. intros (-> & Hz & Hc).
  split_and!; [done|done|]. rewrite (load32_ext m m') by (intros; apply (Hm a); [by left|done]).
  apply IH; [|done]. intros x b Hx. apply Hm. by right.
Qed.

Lemma chain_cons m head a l :
  is_u32 head -> a <> 0 -> chain m head l -> (forall x, x ∈ l -> x + 4 <= a \/ a + 4 <= x) -> chain (store32 m a head) a (a :: l).
Proof.
  intros Hu Ha Hc Hl. cbn [chain]. split_and!; [done|done|]. rewrite load32_store32 by done.
  eapply chain_ext; [|exact Hc]. intros x b Hx Hb. apply load8_store32_ne. destruct (Hl x Hx); lia.
Qed.

Definition objects (pg size : Z) (n : nat) : list Z := (fun k => pg + k * size) <$> seqZ 0 (Z.of_nat n).

Lemma elem_of_objects pg size n a : a ∈ objects pg size n <-> exists k, 0 <= k < Z.of_nat n /\ a = pg + k * size.
Proof.
  unfold objects. rewrite list_elem_of_fmap. setoid_rewrite elem_of_seqZ. split; intros (k & ? & ?); exists k; (split; [lia|lia]) || auto with lia.
Qed.

Lemma carve_ok pg size n : forall head m l,
  4 <= size -> 0 < pg -> pg + Z.of_nat n * size <= 2 ^ 32 -> is_u32 head -> chain m head l ->
  (forall x, x ∈ l -> x + 4 <= pg \/ pg + Z.of_nat n * size <= x) ->
  let '(head', m') := carve pg size n head m in
  chain m' head' (objects pg size n ++ l) /\ is_u32 head' /\
  forall b, b < pg \/ pg + Z.of_nat n * size <= b -> load8 m' b = load8 m b.
Proof.
  induction n as [|i IH]; intros head m l Hs Hpg Hle Hu Hc Hl; cbn [carve]; [by split_and!|].
  set (node := pg + Z.of_nat i * size).
  assert (node + size <= pg + Z.of_nat (S i) * size) as Hn by (unfold node; lia).
  specialize (IH node (store32 m node head) (node :: l)). destruct (carve pg size i node (store32 m node head)) as [head' m'].
  destruct IH as (Hc' & Hu' & Hb'); [done|done|lia|unfold is_u32; nia| | |].
  - apply chain_cons; [done|nia|done|]. intros x Hx. destruct (Hl x Hx); [left|right]; nia.
  - intros x [->|Hx]%elem_of_cons; [by right|]. destruct (Hl x Hx); [by left|right; lia].
  - split_and!; [|done|].
    + replace (objects pg size (S i) ++ l) with (objects pg size i ++ node :: l); [done|].
      unfold objects. rewrite Nat2Z.inj_succ, <- Z.add_1_r, seqZ_app, fmap_app by lia. cbn. by rewrite <- app_assoc.
    + intros b Hb. rewrite Hb' by lia. apply load8_store32_ne. unfold node in *. nia.
Qed.
(** ** The invariant *)

Definition pages (c : SlabClass) : list Z := take (Z.to_nat (slab_count c)) (slab_pages c).
Definition per_page (c : SlabClass) : nat := Z.to_nat (page.PAGE_SIZE / obj_size c).
Definition obj (c : SlabClass) (a : Z) : Prop := exists pg, pg ∈ pages c /\ a ∈ objects pg (obj_size c) (per_page c).

Implicit Types (live : gmap Z Z) (p : page.state) (s : SlabAllocator).

Definition in_class live (i : nat) (a : Z) : Prop := exists size, live !! a = Some size /\ class_for size = Some i.

(** Every object of the class is on the free list or a live block, not both. *)
Record class_ok p live (i : nat) (c : SlabClass) (fl : list Z) : Prop := {
  ck_size : SLAB_SIZES !! i = Some (obj_size c);
  ck_len : length (slab_pages c) = Z.to_nat MAX_SLABS;
  ck_count : 0 <= slab_count c <= MAX_SLABS;
  ck_head : is_u32 (free_list c);
  ck_chain : chain (page.MEM p) (free_list c) fl;
  ck_nodup : NoDup fl;
  ck_split : forall a, a ∈ fl \/ in_class live i a <-> obj c a;
  ck_apart : forall a, a ∈ fl -> ~ in_class live i a;
}.

(** Who a frame belongs to: the objects of a size class, or one large block. *)
Inductive owner := Class (i : nat) | Large (a : Z).

Definition owns (s : SlabAllocator) p live (o : owner) (q : Z) : Prop :=
  match o with
  | Class i => exists c, classes s !! i = Some c /\ page.frame_addr p q ∈ pages c
  | Large a => exists size q0, live !! a = Some size /\ class_for size = None /\ a = page.frame_addr p q0 /\
      q0 <= q < q0 + large_pages size
  end.

Definition total (f : SlabClass -> Z) (cs : list SlabClass) : Z := foldr (fun c z => f c + z) 0 cs.
Definition allocs (s : SlabAllocator) : Z := large_alloc_count s + total alloc_count (classes s).
Definition frees (s : SlabAllocator) : Z := large_free_count s + total free_count (classes s).

Record sinv (s : SlabAllocator) p live : Prop := {
  si_page : page.inv p;
  si_base : 0 < page.FIRST_PAGE p /\ page.FIRST_PAGE p mod 4096 = 0;
  si_init : initialized s = true;
  si_len : length (classes s) = 7%nat;
  si_class : forall i c, classes s !! i = Some c -> exists fl, class_ok p live i c fl;
  si_pages : forall i c pg, classes s !! i = Some c -> pg ∈ pages c -> exists q, pg = page.frame_addr p q /\ 0 <= q < page.MAX_PAGES;
  si_large : forall a size, live !! a = Some size -> class_for size = None ->
    exists q, a = page.frame_addr p q /\ 0 <= q /\ q + large_pages size <= page.MAX_PAGES;
  si_out : forall o q, owns s p live o q -> q ∉ page.free_set (page.PAGE_BITMAP p);
  si_excl : forall o o' q, owns s p live o q -> owns s p live o' q -> o = o';
  si_count : wrap64 (allocs s - frees s) = wrap64 (Z.of_nat (size live));
}.

(** The bytes of a block. *)
Definition block_len (size : Z) : Z :=
  match class_for size with Some i => SLAB_SIZES !!! i | None => large_pages size * page.PAGE_SIZE end.

Definition in_block live (b : Z) : Prop := exists a size, live !! a = Some size /\ a <= b < a + block_len size.

(** The bytes of the free objects. *)
Definition in_free s p live (b : Z) : Prop :=
  exists i c fl a, classes s !! i = Some c /\ class_ok p live i c fl /\ a ∈ fl /\ a <= b < a + obj_size c.

(** ** Geometry *)

Lemma class_size i sz : SLAB_SIZES !! i = Some sz -> 32 <= sz <= 2048 /\ 4096 mod sz = 0 /\ 4096 / sz * sz = 4096.
Proof. do 7 (destruct i as [|i]; [intros [= <-]; by vm_compute|]). done. Qed.

Lemma class_for_Some size i : class_for size = Some i -> exists sz, SLAB_SIZES !! i = Some sz /\ size <= sz.
Proof.
  unfold class_for, SLAB_SIZES. cbn [position_from].
  do 7 (case Z.leb_spec; [intros ? [= <-]; eexists; split; [reflexivity|lia]|intros _]). done.
Qed.

Lemma class_for_None size : class_for size = None -> 2048 < size.
Proof. unfold class_for, SLAB_SIZES. cbn [position_from]. do 7 (case Z.leb_spec; [done|intros ?]). done. Qed.

Lemma frame_addr_inj p q q' : page.frame_addr p q = page.frame_addr p q' -> q = q'.
Proof. unfold page.frame_addr, page.PAGE_SIZE. lia. Qed.

(** An object lies within one page, whose frame its class owns. *)
Lemma obj_frame s p live i c a :
  sinv s p live -> classes s !! i = Some c -> obj c a ->
  exists q k, 0 <= q < page.MAX_PAGES /\ owns s p live (Class i) q /\ 0 <= k < 4096 / obj_size c /\
    a = page.frame_addr p q + k * obj_size c /\ a + obj_size c <= page.frame_addr p q + 4096.
Proof.
  intros Hs Hc (pg & Hpg & (k & Hk & ->)%elem_of_objects). destruct (si_pages _ _ _ Hs i c pg Hc Hpg) as (q & -> & Hq).
  destruct (si_class _ _ _ Hs i c Hc) as [fl F]. destruct (class_size i _ (ck_size _ _ _ _ _ F)) as (Hsz & _ & Hd).
  unfold per_page in Hk. change page.PAGE_SIZE with 4096 in Hk. assert (0 <= 4096 / obj_size c) by (apply Z.div_pos; lia).
  exists q, k. split_and!; try done; try lia; [by exists c|nia].
Qed.

Lemma obj_range s p live i c a :
  sinv s p live -> classes s !! i = Some c -> obj c a -> 0 < a /\ a + obj_size c <= 2 ^ 32.
Proof.
  intros Hs Hc Ho. destruct (obj_frame s p live i c a Hs Hc Ho) as (q & k & Hq & _ & Hk & -> & Hle).
  destruct (si_class _ _ _ Hs i c Hc) as [fl F]. destruct (class_size i _ (ck_size _ _ _ _ _ F)) as (Hsz & _ & _).
  pose proof (page.inv_base _ (si_page _ _ _ Hs)). destruct (si_base _ _ _ Hs). unfold page.frame_addr, page.PAGE_SIZE in *. nia.
Qed.

Lemma objs_apart s p live i c a a' :
  sinv s p live -> classes s !! i = Some c -> obj c a -> obj c a' -> a <> a' -> a + obj_size c <= a' \/ a' + obj_size c <= a.
Proof.
  intros Hs Hc Ho Ho' Hne. destruct (obj_frame s p live i c a Hs Hc Ho) as (q & k & _ & _ & Hk & -> & Hle).
  destruct (obj_frame s p live i c a' Hs Hc Ho') as (q' & k' & _ & _ & Hk' & -> & Hle').
  destruct (si_class _ _ _ Hs i c Hc) as [fl F]. destruct (class_size i _ (ck_size _ _ _ _ _ F)) as (Hsz & _ & _).
  unfold page.frame_addr, page.PAGE_SIZE in *. destruct (Z.lt_trichotomy q q') as [?|[->|?]]; [nia| |nia].
  destruct (Z.lt_trichotomy k k') as [?|[->|?]]; [nia|done|nia].
Qed.

Lemma block_small size i sz : class_for size = Some i -> SLAB_SIZES !! i = Some sz -> block_len size = sz.
Proof. intros Hc Hs. unfold block_len. rewrite Hc. by rewrite list_lookup_total_alt, Hs. Qed.

(** The owner of a live block, which owns every frame the block touches. *)
Lemma block_owner s p live a size :
  sinv s p live -> live !! a = Some size ->
  exists o, (forall b, a <= b < a + block_len size -> exists q, owns s p live o q /\ page.frame_addr p q <= b < page.frame_addr p q + 4096) /\
    match o with
    | Class i => exists c, classes s !! i = Some c /\ class_for size = Some i /\ obj c a /\ block_len size = obj_size c
    | Large a' => a' = a
    end.
Proof.
  intros Hs Ha. destruct (class_for size) as [i|] eqn:Hcf.
  - destruct (class_for_Some size i Hcf) as (sz & Hsz & _).
    assert (i < length (classes s))%nat as Hi by (rewrite (si_len _ _ _ Hs); apply lookup_lt_Some in Hsz; done).
    apply lookup_lt_is_Some in Hi as [c Hc]. destruct (si_class _ _ _ Hs i c Hc) as [fl F].
    assert (obj c a) as Ho by (apply (ck_split _ _ _ _ _ F); right; by exists size).
    assert (block_len size = obj_size c) as Hb by (apply (block_small size i); [done|apply F]).
    exists (Class i). split; [|by exists c]. intros b Hbb. destruct (obj_frame s p live i c a Hs Hc Ho) as (q & k & _ & Hq & Hk & -> & Hle).
    exists q. split; [done|]. destruct (class_size i _ (ck_size _ _ _ _ _ F)). nia.
  - exists (Large a). split; [|done]. intros b Hb. destruct (si_large _ _ _ Hs a size Ha Hcf) as (q & -> & Hq & Hle).
    unfold block_len in Hb. rewrite Hcf in Hb. unfold page.frame_addr, page.PAGE_SIZE in *.
    exists (q + (b - (page.FIRST_PAGE p + q * 4096)) / 4096). split; [|lia]. exists size, q. split_and!; [done|done|done|lia|lia].
Qed.

(** Live blocks never overlap. *)
Lemma blocks_apart s p live a a' size size' b :
  sinv s p live -> live !! a = Some size -> live !! a' = Some size' -> a <> a' ->
  a <= b < a + block_len size -> a' <= b < a' + block_len size' -> False.
Proof.
  intros Hs Ha Ha' Hne Hb Hb'. destruct (block_owner s p live a size Hs Ha) as (o & Ho & Hk).
  destruct (block_owner s p live a' size' Hs Ha') as (o' & Ho' & Hk').
  destruct (Ho b Hb) as (q & Hq & Hin), (Ho' b Hb') as (q' & Hq' & Hin').
  assert (q = q') as -> by (unfold page.frame_addr, page.PAGE_SIZE in *; lia).
  pose proof (si_excl _ _ _ Hs o o' q' Hq Hq') as <-. destruct o as [i|a0]; [|congruence].
  destruct Hk as (c & Hc & _ & Hoa & Hl), Hk' as (c' & Hc' & _ & Hoa' & Hl'). rewrite Hc in Hc'. injection Hc' as <-.
  destruct (objs_apart s p live i c a a' Hs Hc Hoa Hoa' Hne); lia.
Qed.

(** Nor does a live block touch a free object. *)
Lemma free_apart s p live b : sinv s p live -> in_free s p live b -> ~ in_block live b.
Proof.
  intros Hs (i & c & fl & a & Hc & F & Hfl & Hb) (a' & size & Ha' & Hb').
  assert (obj c a) as Hoa by (apply (ck_split _ _ _ _ _ F); by left).
  destruct (obj_frame s p live i c a Hs Hc Hoa) as (q & k & _ & Hq & Hk & Hak & Hle).
  destruct (block_owner s p live a' size Hs Ha') as (o' & Ho' & Hk'). destruct (Ho' b Hb') as (q' & Hq' & Hin').
  destruct (class_size i _ (ck_size _ _ _ _ _ F)) as (Hsz & _ & _).
  assert (q = q') as -> by (unfold page.frame_addr, page.PAGE_SIZE in *; nia).
  pose proof (si_excl _ _ _ Hs (Class i) o' q' Hq Hq') as <-. destruct Hk' as (c' & Hc' & Hcf & Hoa' & Hl).
  rewrite Hc in Hc'. injection Hc' as <-. destruct (decide (a = a')) as [->|Hne].
  - apply (ck_apart _ _ _ _ _ F a' Hfl). by exists size.
  - destruct (objs_apart s p live i c a a' Hs Hc Hoa Hoa' Hne); lia.
Qed.
(** ** Changes that keep the invariant *)

#[local] Abbreviation free p := (page.free_set (page.PAGE_BITMAP p)).

Lemma frame_addr_same p p' q : page.same_frame p p' -> page.frame_addr p' q = page.frame_addr p q.
Proof. intros (H & _). unfold page.frame_addr. by rewrite H. Qed.

Lemma class_ok_ext p p' live live' i c fl :
  (forall a, in_class live' i a <-> in_class live i a) ->
  (forall a b, a ∈ fl -> a <= b < a + 4 -> load8 (page.MEM p') b = load8 (page.MEM p) b) ->
  class_ok p live i c fl -> class_ok p' live' i c fl.
Proof.
  intros Hl Hm F. constructor; try apply F.
  - eapply chain_ext; [exact Hm|apply F].
  - intros a. rewrite Hl. apply F.
  - intros a Ha. rewrite Hl. by apply F.
Qed.

Lemma free_word s p live i c fl a b :
  sinv s p live -> classes s !! i = Some c -> class_ok p live i c fl -> a ∈ fl -> a <= b < a + 4 -> in_free s p live b.
Proof.
  intros Hs Hc F Ha Hb. exists i, c, fl, a. split_and!; [done|done|done|lia|].
  destruct (class_size i _ (ck_size _ _ _ _ _ F)). lia.
Qed.

(** What the rest of the kernel may do: allocate and free frames of its own and
    write anywhere but into the free objects. *)
Definition env s p live p' : Prop :=
  page.inv p' /\ page.same_frame p p' /\ (forall o q, owns s p live o q -> q ∉ free p') /\
  forall b, in_free s p live b -> load8 (page.MEM p') b = load8 (page.MEM p) b.

Lemma owns_same s p p' live o q : page.same_frame p p' -> owns s p' live o q <-> owns s p live o q.
Proof.
  intros G. destruct o as [i|a]; cbn [owns].
  - by setoid_rewrite (frame_addr_same p p' q G).
  - split; intros (size & q0 & H); exists size, q0; by rewrite (frame_addr_same p p' q0 G) in *.
Qed.

Lemma sinv_env s p live p' : sinv s p live -> env s p live p' -> sinv s p' live.
Proof.
  intros Hs (Hp & G & Hf & Hm). constructor; try apply Hs; try done.
  - destruct G as (-> & _). apply Hs.
  - intros i c Hc. destruct (si_class _ _ _ Hs i c Hc) as [fl F]. exists fl. eapply class_ok_ext; [done| |exact F].
    intros a b Ha Hb. apply Hm. by eapply free_word.
  - intros i c pg Hc Hpg. destruct (si_pages _ _ _ Hs i c pg Hc Hpg) as (q & ? & ?). exists q. by rewrite (frame_addr_same p p').
  - intros a sz Ha Hcf. destruct (si_large _ _ _ Hs a sz Ha Hcf) as (q & ? & ?). exists q. by rewrite (frame_addr_same p p').
  - intros o q Ho. apply (Hf o). by apply (owns_same s p p').
  - intros o o' q Ho Ho'. apply (si_excl _ _ _ Hs o o' q); by apply (owns_same s p p').
Qed.

Lemma total_insert f cs i c c' : cs !! i = Some c -> total f (<[i := c']> cs) = total f cs - f c + f c'.
Proof.
  revert i. induction cs as [|d cs IH]; intros [|i] Hi; [done|done|injection Hi as ->; cbn; lia|].
  change (f d + total f (<[i := c']> cs) = f d + total f cs - f c + f c'). rewrite (IH i Hi). lia.
Qed.

(** One class changes, possibly taking a free frame. *)
Lemma sinv_class s p p' live live' i c c' fl' :
  sinv s p live -> classes s !! i = Some c -> page.inv p' -> page.same_frame p p' -> class_ok p' live' i c' fl' ->
  (forall j a, j <> i -> in_class live' j a <-> in_class live j a) ->
  (forall a size, class_for size = None -> live' !! a = Some size <-> live !! a = Some size) ->
  (forall j d fl a b, j <> i -> classes s !! j = Some d -> class_ok p live j d fl -> a ∈ fl -> a <= b < a + 4 ->
     load8 (page.MEM p') b = load8 (page.MEM p) b) ->
  (forall pg, pg ∈ pages c' -> pg ∈ pages c \/ exists q, pg = page.frame_addr p q /\ q ∈ free p) ->
  free p' ⊆ free p -> (forall q, page.frame_addr p q ∈ pages c' -> q ∉ free p') ->
  wrap64 (allocs s - alloc_count c + alloc_count c' - (frees s - free_count c + free_count c')) = wrap64 (Z.of_nat (size live')) ->
  sinv (set_class s (<[i := c']> (classes s))) p' live'.
Proof.
  intros Hs Hc Hp G F' Hcl Hlg Hm Hpg Hsub Hout Hcnt.
  assert (forall j d, <[i := c']> (classes s) !! j = Some d -> (j = i /\ d = c') \/ (j <> i /\ classes s !! j = Some d)) as Hget.
  { intros j d [(-> & -> & _)|[? ?]]%list_lookup_insert_Some; [by left|by right]. }
  assert (forall o q, owns (set_class s (<[i := c']> (classes s))) p' live' o q ->
    owns s p live o q \/ (o = Class i /\ q ∈ free p /\ page.frame_addr p q ∈ pages c')) as Hown.
  { intros [j|a] q; cbn [owns classes set_class].
    - intros (d & Hd & Hin). rewrite (frame_addr_same p p' q G) in Hin. destruct (Hget j d Hd) as [[-> ->]|[Hj Hd']]; [|left; by exists d].
      destruct (Hpg _ Hin) as [Hold|(q' & Hq' & Hfree)]; [left; by exists c|]. apply frame_addr_inj in Hq' as <-. by right.
    - intros (sz & q0 & Ha & Hcf & -> & Hq). left. exists sz, q0. rewrite (frame_addr_same p p' q0 G) in *. split_and!; try done; [by apply Hlg|lia|lia]. }
  constructor; cbn [classes set_class initialized].
  - done.
  - destruct G as (-> & _). apply Hs.
  - apply Hs.
  - rewrite length_insert. apply Hs.
  - intros j d Hd. destruct (Hget j d Hd) as [[-> ->]|[Hj Hd']]; [by exists fl'|].
    destruct (si_class _ _ _ Hs j d Hd') as [fl F]. exists fl. eapply class_ok_ext; [intros; by apply Hcl| |exact F].
    intros a b Ha Hb. by apply (Hm j d fl a b).
  - intros j d pg Hd Hin.
    assert (exists q, pg = page.frame_addr p q /\ 0 <= q < page.MAX_PAGES) as (q & -> & Hq).
    { destruct (Hget j d Hd) as [[-> ->]|[Hj Hd']]; [|by apply (si_pages _ _ _ Hs j d)].
      destruct (Hpg _ Hin) as [Hold|(q & -> & Hfree)]; [by apply (si_pages _ _ _ Hs i c)|]. exists q. split; [done|by eapply page.free_set_below]. }
    exists q. by rewrite (frame_addr_same p p').
  - intros a sz Ha Hcf. apply Hlg in Ha; [|done]. destruct (si_large _ _ _ Hs a sz Ha Hcf) as (q & ? & ?). exists q. by rewrite (frame_addr_same p p').
  - intros o q [Ho|(-> & Hq & Hin)]%Hown; [|by apply Hout]. intros Hq. by apply (si_out _ _ _ Hs o q Ho), Hsub.
  - intros o o' q [Ho|(-> & Hq & Hin)]%Hown [Ho'|(-> & Hq' & Hin')]%Hown; [by apply (si_excl _ _ _ Hs o o' q)| | |done].
    + by destruct (si_out _ _ _ Hs o q Ho).
    + by destruct (si_out _ _ _ Hs o' q Ho').
  - unfold allocs, frees in *. cbn [classes large_alloc_count large_free_count set_class]. rewrite !(total_insert _ _ i c) by done.
    rewrite <- Hcnt. f_equal. lia.
Qed.
(** ** Small blocks *)

Lemma store_page (l : list Z) n pg : 0 <= n < 32 -> length l = 32%nat -> take (Z.to_nat (n + 1)) (<[Z.to_nat n := pg]> l) = take (Z.to_nat n) l ++ [pg].
Proof.
  intros Hn Hl. rewrite Z2Nat.inj_add by lia. change (Z.to_nat 1) with 1%nat. rewrite Nat.add_1_r.
  assert (Z.to_nat n < length l)%nat as Hlt by lia.
  rewrite (take_S_r _ _ pg) by (by apply list_lookup_insert_eq). by rewrite take_insert_ge by lia.
Qed.

Lemma objects_page s p live i c fl q a :
  sinv s p live -> class_ok p live i c fl -> 0 <= q < page.MAX_PAGES -> a ∈ objects (page.frame_addr p q) (obj_size c) (per_page c) ->
  page.frame_addr p q <= a /\ a + obj_size c <= page.frame_addr p q + 4096.
Proof.
  intros Hs F Hq (k & Hk & ->)%elem_of_objects. destruct (class_size i _ (ck_size _ _ _ _ _ F)) as (Hsz & _ & Hd).
  unfold per_page in Hk. change page.PAGE_SIZE with 4096 in Hk. assert (0 <= 4096 / obj_size c) by (apply Z.div_pos; lia). nia.
Qed.

(** A word of an owned frame is not in a frame that was free. *)
Lemma owned_apart s p live o q q' b b' :
  sinv s p live -> owns s p live o q -> q' ∈ free p -> page.frame_addr p q <= b < page.frame_addr p q + 4096 ->
  page.frame_addr p q' <= b' < page.frame_addr p q' + 4096 -> b <> b'.
Proof.
  intros Hs Ho Hq' Hb Hb' <-. assert (q = q') as -> by (unfold page.frame_addr, page.PAGE_SIZE in *; lia).
  by apply (si_out _ _ _ Hs o q').
Qed.

Lemma free_owned s p live b :
  sinv s p live -> in_free s p live b -> exists o q, owns s p live o q /\ page.frame_addr p q <= b < page.frame_addr p q + 4096.
Proof.
  intros Hs (i & c & fl & a & Hc & F & Ha & Hb).
  destruct (obj_frame s p live i c a Hs Hc (proj1 (ck_split _ _ _ _ _ F a) (or_introl Ha))) as (q & k & _ & Ho & Hk & Hak & Hle).
  exists (Class i), q. split; [done|]. destruct (class_size i _ (ck_size _ _ _ _ _ F)). nia.
Qed.

Lemma block_owned s p live b :
  sinv s p live -> in_block live b -> exists o q, owns s p live o q /\ page.frame_addr p q <= b < page.frame_addr p q + 4096.
Proof. intros Hs (a & sz & Ha & Hb). destruct (block_owner s p live a sz Hs Ha) as (o & Ho & _). destruct (Ho b Hb) as (q & ?). by exists o, q. Qed.

(** The class after a refill: the objects of the new page are all free. *)
Lemma refilled_class s p p' live i c q head :
  sinv s p live -> classes s !! i = Some c -> class_ok p live i c [] -> q ∈ free p -> slab_count c < MAX_SLABS ->
  let objs := objects (page.frame_addr p q) (obj_size c) (per_page c) in
  let c' := mk_class head (<[Z.to_nat (slab_count c) := page.frame_addr p q]> (slab_pages c)) (slab_count c + 1)
    (obj_size c) (alloc_count c) (free_count c) in
  chain (page.MEM p') head objs -> is_u32 head -> pages c' = pages c ++ [page.frame_addr p q] -> class_ok p' live i c' objs.
Proof.
  intros Hs Hc F Hq Hlt objs c' Hch Hu Hpgs. pose proof (page.free_set_below _ _ Hq) as Hqr. pose proof (ck_count _ _ _ _ _ F).
  destruct (class_size i _ (ck_size _ _ _ _ _ F)) as (Hsz & _ & Hd).
  constructor; try apply F; try done.
  - change (slab_pages c') with (<[Z.to_nat (slab_count c) := page.frame_addr p q]> (slab_pages c)). rewrite length_insert. apply F.
  - change (slab_count c') with (slab_count c + 1). lia.
  - apply NoDup_fmap_2_strong; [|apply NoDup_seqZ]. intros x y _ _ ?. nia.
  - intros a. unfold obj. rewrite Hpgs. split.
    + intros [Hin|Hin]; [exists (page.frame_addr p q); split; [by apply elem_of_app; right; apply list_elem_of_singleton|done]|].
      destruct (proj1 (ck_split _ _ _ _ _ F a) (or_intror Hin)) as (pg & Hpg & Ha). exists pg. split; [by apply elem_of_app; left|done].
    + intros (pg & [Hpg| ->%list_elem_of_singleton]%elem_of_app & Ha); [right|by left].
      destruct (proj2 (ck_split _ _ _ _ _ F a)) as [Hn0|]; [by exists pg|by apply not_elem_of_nil in Hn0|done].
  - intros a Ha Hin. destruct (objects_page s p live i c [] q a Hs F Hqr Ha).
    destruct (obj_frame s p live i c a Hs Hc (proj1 (ck_split _ _ _ _ _ F a) (or_intror Hin))) as (q' & k & _ & Ho & Hk & Hak & Hle).
    apply (owned_apart s p live (Class i) q' q a a Hs Ho Hq); [nia|lia|done].
Qed.

Lemma refill_ok s p live i c :
  sinv s p live -> classes s !! i = Some c -> free_list c = 0 ->
  exists ok c' p', refill c p = Ret (ok, c', p') /\
    if (ok : bool) then free_list c' <> 0 /\ sinv (set_class s (<[i := c']> (classes s))) p' live /\ obj_size c' = obj_size c /\
      forall b, in_block live b -> load8 (page.MEM p') b = load8 (page.MEM p) b
    else c' = c /\ p' = p /\ (slab_count c = MAX_SLABS \/ free p = ∅).
Proof.
  intros Hs Hc H0. destruct (si_class _ _ _ Hs i c Hc) as [fl F]. pose proof (ck_count _ _ _ _ _ F) as Hn. unfold refill.
  destruct (Z.leb_spec MAX_SLABS (slab_count c)) as [Hge|Hlt]; [exists false, c, p; split_and!; [done|done|done|left; lia]|].
  assert (fl = []) as -> by (pose proof (ck_chain _ _ _ _ _ F) as Hch; destruct fl as [|a fl]; [done|]; destruct Hch as (? & ? & _); congruence).
  pose proof (page.alloc_page_cases p (si_page _ _ _ Hs)) as Hal. destruct (page.alloc_page p) as [[pg|] p1].
  2: { destruct Hal as [-> He]. exists false, c, p. split_and!; [done|done|done|by right]. }
  destruct Hal as (q & Hq & -> & HF & Hp1 & Hmem & G). pose proof (page.free_set_below _ _ Hq) as Hqr.
  rewrite store_lt by (rewrite (ck_len _ _ _ _ _ F); unfold MAX_SLABS in *; lia). cbn [mbind outcome_bind].
  destruct (class_size i _ (ck_size _ _ _ _ _ F)) as (Hsz & _ & Hd). destruct (si_base _ _ _ Hs) as [Hb0 _].
  pose proof (page.inv_base _ (si_page _ _ _ Hs)) as Hb1.
  assert (Z.of_nat (per_page c) * obj_size c = 4096) as Hpp.
  { unfold per_page. change page.PAGE_SIZE with 4096. rewrite Z2Nat.id by (apply Z.div_pos; lia). done. }
  pose proof (carve_ok (page.frame_addr p q) (obj_size c) (per_page c) (free_list c) (page.MEM p1) [] ltac:(lia)) as Hcv.
  change (Z.to_nat (page.PAGE_SIZE / obj_size c)) with (per_page c).
  destruct (carve (page.frame_addr p q) (obj_size c) (per_page c) (free_list c) (page.MEM p1)) as [head m'].
  rewrite Hmem, Hpp, app_nil_r in Hcv.
  destruct Hcv as (Hch & Hu & Hm); [unfold page.frame_addr, page.PAGE_SIZE; lia|unfold page.frame_addr, page.PAGE_SIZE in *; lia|apply F|apply F| |].
  { intros x Hx. by apply not_elem_of_nil in Hx. }
  set (c' := mk_class head _ _ _ _ _). exists true, c', (page.with_mem p1 m'). split; [done|].
  assert (pages c' = pages c ++ [page.frame_addr p q]) as Hpgs by (apply store_page; [unfold MAX_SLABS in *; lia|apply F]).
  assert (forall b o q', owns s p live o q' -> page.frame_addr p q' <= b < page.frame_addr p q' + 4096 -> load8 m' b = load8 (page.MEM p) b) as Hkeep.
  { intros b o q' Ho Hb. apply Hm. destruct (decide (page.frame_addr p q <= b < page.frame_addr p q + 4096)) as [Hin|]; [|lia].
    by destruct (owned_apart s p live o q' q b b Hs Ho Hq Hb Hin). }
  split_and!; [| |done|].
  - intros Hz. change (free_list c') with head in Hz. subst head.
    assert (page.frame_addr p q ∈ objects (page.frame_addr p q) (obj_size c) (per_page c)) as Hin.
    { apply elem_of_objects. exists 0. split; [|lia]. destruct (per_page c); lia. }
    destruct (objects _ _ _) as [|x l]; [by apply not_elem_of_nil in Hin|]. destruct Hch as (<- & ? & _). done.
  - apply (sinv_class s p _ live live i c c' (objects (page.frame_addr p q) (obj_size c) (per_page c))); try done.
    + destruct Hp1. by constructor.
    + apply (refilled_class s p _ live i c q head); done || (unfold MAX_SLABS in *; lia).
    + intros j d fl a b Hj Hd' Fj Ha Hb. destruct (free_owned s p live b Hs) as (o & q' & Ho & Hin); [by eapply free_word|]. by eapply Hkeep.
    + intros pg. rewrite Hpgs. intros [?| ->%list_elem_of_singleton]%elem_of_app; [by left|right; by exists q].
    + change (free (page.with_mem p1 m')) with (free p1). rewrite HF. intros z Hz. by apply elem_of_difference in Hz as [? _].
    + intros q'. rewrite Hpgs. change (free (page.with_mem p1 m')) with (free p1). rewrite HF. intros [Hin|Hin]%elem_of_app Hz; apply elem_of_difference in Hz as [Hz1 Hz2].
      * apply (si_out _ _ _ Hs (Class i) q'); [by exists c|done].
      * apply list_elem_of_singleton, frame_addr_inj in Hin. apply Hz2, elem_of_singleton. done.
    + pose proof (si_count _ _ _ Hs) as Hcnt. rewrite <- Hcnt. f_equal. change (alloc_count c') with (alloc_count c). change (free_count c') with (free_count c). lia.
  - intros b Hb. destruct (block_owned s p live b Hs Hb) as (o & q' & Ho & Hin). by eapply Hkeep.
Qed.
Lemma block_pos size : 0 < block_len size.
Proof.
  unfold block_len. destruct (class_for size) as [i|] eqn:H.
  - destruct (class_for_Some size i H) as (sz & Hsz & _). rewrite list_lookup_total_alt, Hsz. destruct (class_size i sz Hsz). cbn. lia.
  - apply class_for_None in H. unfold large_pages, page.PAGE_SIZE. lia.
Qed.

Lemma free_not_live s p live i c fl a :
  sinv s p live -> classes s !! i = Some c -> class_ok p live i c fl -> a ∈ fl -> live !! a = None.
Proof.
  intros Hs Hc F Ha. destruct (live !! a) as [sz|] eqn:El; [|done]. destruct (free_apart s p live a Hs).
  - exists i, c, fl, a. split_and!; [done|done|done|lia|]. destruct (class_size i _ (ck_size _ _ _ _ _ F)). lia.
  - exists a, sz. pose proof (block_pos sz). split; [done|lia].
Qed.

Lemma wrap64_add x y : wrap64 (wrap64 x + y) = wrap64 (x + y).
Proof. unfold wrap64. by rewrite Zplus_mod_idemp_l. Qed.

Lemma heap_pop_ok s p live i c sz :
  sinv s p live -> classes s !! i = Some c -> free_list c <> 0 -> class_for sz = Some i ->
  let '(a, c', p') := pop c p in
  p' = p /\ a <> 0 /\ live !! a = None /\ obj c a /\ sinv (set_class s (<[i := c']> (classes s))) p (<[a := sz]> live).
Proof.
  intros Hs Hc Hnz Hcf. destruct (si_class _ _ _ Hs i c Hc) as [fl F]. pose proof (ck_chain _ _ _ _ _ F) as Hch.
  destruct fl as [|a fl]; [done|]. destruct Hch as (Ha & _ & Hch). unfold pop. rewrite Ha in *.
  pose proof (free_not_live s p live i c (a :: fl) a Hs Hc F ltac:(left)) as Hl.
  assert (obj c a) as Hoa by (apply (ck_split _ _ _ _ _ F); left; left).
  split_and!; [done|done|done|done|]. set (c' := mk_class _ _ _ _ _ _).
  assert (forall j x, in_class (<[a := sz]> live) j x <-> (x = a /\ j = i) \/ in_class live j x) as Hin.
  { intros j x. unfold in_class. split.
    - intros (z & [[<- <-]|[Hne Hz]]%lookup_insert_Some & Hj); [left; split; [done|congruence]|right; by exists z].
    - intros [[-> ->]|(z & Hz & Hj)]; [exists sz; by rewrite lookup_insert_eq|]. exists z. split; [|done].
      rewrite lookup_insert_ne; [done|congruence]. }
  pose proof (NoDup_cons_1_1 _ _ (ck_nodup _ _ _ _ _ F)) as Hna. pose proof (NoDup_cons_1_2 _ _ (ck_nodup _ _ _ _ _ F)) as Hnd.
  apply (sinv_class s p p live _ i c c' fl); try done; try apply Hs.
  - constructor; try apply F; try done.
    + cbn. destruct fl as [|x fl]; [by rewrite Hch|]. destruct Hch as (-> & _).
      destruct (obj_range s p live i c x Hs Hc); [|destruct (class_size i _ (ck_size _ _ _ _ _ F)); unfold is_u32; lia].
      apply (ck_split _ _ _ _ _ F). left. right. left.
    + intros x. rewrite Hin. pose proof (ck_split _ _ _ _ _ F x) as Hsp. rewrite elem_of_cons in Hsp. change (obj c' x) with (obj c x). rewrite <- Hsp. naive_solver.
    + intros x Hx. rewrite Hin. intros [[-> _]|Hx']; [done|]. apply (ck_apart _ _ _ _ _ F x); [by right|done].
  - intros j x Hj. rewrite Hin. naive_solver.
  - intros x z Hz. split; [intros [[<- <-]|[? ?]]%lookup_insert_Some; congruence|]. intros Hx. rewrite lookup_insert_ne; [done|congruence].
  - intros pg Hpg. by left.
  - intros q Hq. apply (si_out _ _ _ Hs (Class i)). by exists c.
  - rewrite map_size_insert_None by done. cbn [alloc_count free_count c']. rewrite Nat2Z.inj_succ.
    replace (allocs s - alloc_count c + wrap64 (alloc_count c + 1) - (frees s - free_count c + free_count c))
      with (wrap64 (alloc_count c + 1) + (allocs s - alloc_count c - frees s)) by lia.
    rewrite wrap64_add, <- Z.add_1_r, <- (wrap64_add (Z.of_nat (size live))), <- (si_count _ _ _ Hs), wrap64_add. f_equal. lia.
Qed.

(** What a successful allocation gives: a fresh block, apart from every live
    one, at a multiple of its size class or of the page size; the bytes of the
    live blocks are untouched. *)
Record allocated s p live (sz a : Z) (s' : SlabAllocator) (p' : page.state) : Prop := {
  al_inv : sinv s' p' (<[a := sz]> live);
  al_new : live !! a = None;
  al_range : 0 < a /\ a + block_len sz <= 2 ^ 32;
  al_align : a mod Z.min (block_len sz) 4096 = 0;
  al_len : sz <= block_len sz;
  al_keep : forall b, in_block live b -> load8 (page.MEM p') b = load8 (page.MEM p) b;
}.

Lemma obj_align s p live i c a : sinv s p live -> classes s !! i = Some c -> obj c a -> a mod obj_size c = 0.
Proof.
  intros Hs Hc Ho. destruct (si_class _ _ _ Hs i c Hc) as [fl F]. destruct (class_size i _ (ck_size _ _ _ _ _ F)) as (Hsz & Hm & _).
  destruct (obj_frame s p live i c a Hs Hc Ho) as (q & k & _ & _ & _ & -> & _). destruct (si_base _ _ _ Hs) as [_ Hb].
  rewrite Z.mod_add by lia. apply Z.mod_divide; [lia|]. apply Z.mod_divide in Hm; [|lia]. apply Z.mod_divide in Hb; [|lia].
  unfold page.frame_addr, page.PAGE_SIZE. apply Z.divide_add_r; [by eapply Z.divide_trans|by apply Z.divide_mul_r].
Qed.

Lemma set_class_insert s i c c' : set_class (set_class s (<[i := c]> (classes s))) (<[i := c']> (classes (set_class s (<[i := c]> (classes s))))) = set_class s (<[i := c']> (classes s)).
Proof. unfold set_class. cbn. by rewrite list_insert_insert_eq. Qed.

Lemma alloc_obj_ok s p live i c sz :
  sinv s p live -> classes s !! i = Some c -> class_for sz = Some i ->
  exists a c' p', alloc_obj c p = Ret (a, c', p') /\
    let s' := set_class s (<[i := c']> (classes s)) in
    (a = 0 /\ c' = c /\ p' = p /\ (slab_count c = MAX_SLABS \/ free p = ∅)) \/ allocated s p live sz a s' p'.
Proof.
  intros Hs Hc Hcf. unfold alloc_obj.
  assert (forall s1 c1 p1, sinv s1 p1 live -> classes s1 !! i = Some c1 -> free_list c1 <> 0 ->
    set_class s (classes s1) = s1 ->
    (forall b, in_block live b -> load8 (page.MEM p1) b = load8 (page.MEM p) b) ->
    exists a c' p', Ret (pop c1 p1) = Ret (a, c', p') /\ allocated s p live sz a (set_class s1 (<[i := c']> (classes s1))) p') as Hpop.
  { intros s1 c1 p1 Hs1 Hc1 Hnz Hset Hkeep. pose proof (heap_pop_ok s1 p1 live i c1 sz Hs1 Hc1 Hnz Hcf) as Hp.
    destruct (pop c1 p1) as [[a c'] p'] eqn:E. destruct Hp as (-> & Hz & Hl & Hoa & Hs'). exists a, c', p1. split; [done|].
    destruct (si_class _ _ _ Hs1 i c1 Hc1) as [fl F]. pose proof (block_small sz i _ Hcf (ck_size _ _ _ _ _ F)) as Hb.
    destruct (class_for_Some sz i Hcf) as (z & Hz' & Hle). pose proof (ck_size _ _ _ _ _ F) as Hck. rewrite Hz' in Hck. injection Hck as ->.
    constructor; try done; rewrite ?Hb; [by apply (obj_range s1 p1 live i c1)| |done].
    destruct (class_size i _ Hz') as (Hsz & _). rewrite Z.min_l by lia. by apply (obj_align s1 p1 live i c1). }
  destruct (Z.eqb_spec (free_list c) 0) as [H0|Hnz].
  - destruct (refill_ok s p live i c Hs Hc H0) as (ok & c1 & p1 & -> & Hr). cbn [mbind outcome_bind]. destruct ok.
    + destruct Hr as (Hnz & Hs1 & _ & Hkeep). set (s1 := set_class s (<[i := c1]> (classes s))) in *.
      destruct (Hpop s1 c1 p1) as (a & c' & p' & E & A); try done.
      * apply list_lookup_insert_eq. by eapply lookup_lt_Some.
      * exists a, c', p'. split; [done|]. right. unfold s1 in A. by rewrite set_class_insert in A.
    + destruct Hr as (-> & -> & Hr). exists 0, c, p. split; [done|]. by left.
  - destruct (Hpop s c p) as (a & c' & p' & E & A); try done; [by destruct s|]. exists a, c', p'. split; [done|by right].
Qed.
(** What a release does: the block is no longer live, every byte of it past the
    link word is zero, and the bytes of the other blocks are untouched. *)
Record deallocated s p live (sz a : Z) (s' : SlabAllocator) (p' : page.state) : Prop := {
  de_inv : sinv s' p' (delete a live);
  de_scrub : forall b, a + 4 <= b < a + block_len sz -> load8 (page.MEM p') b = 0;
  de_keep : forall b, in_block (delete a live) b -> load8 (page.MEM p') b = load8 (page.MEM p) b;
}.

Lemma in_block_delete s p live a sz b :
  sinv s p live -> live !! a = Some sz -> in_block (delete a live) b -> ~ (a <= b < a + block_len sz).
Proof.
  intros Hs Ha (a' & sz' & [Hne Ha']%lookup_delete_Some & Hb') Hb. by apply (blocks_apart s p live a a' sz sz' b).
Qed.

Lemma dealloc_count live a sz al fr d :
  live !! a = Some sz -> wrap64 (al - fr) = wrap64 (Z.of_nat (size live)) -> wrap64 d = wrap64 (fr + 1) ->
  wrap64 (al - d) = wrap64 (Z.of_nat (size (delete a live))).
Proof.
  intros Ha Hcnt Hd. rewrite map_size_delete_Some by done. assert (size live <> 0)%nat as Hn.
  { intros H0%map_size_empty_inv. subst live. by rewrite lookup_empty in Ha. }
  replace (Z.of_nat (Nat.pred (size live))) with (Z.of_nat (size live) + -1) by lia.
  rewrite <- (wrap64_add (Z.of_nat (size live))), <- Hcnt, wrap64_add. unfold wrap64 in *.
  rewrite <- Zminus_mod_idemp_r, Hd, Zminus_mod_idemp_r. f_equal. lia.
Qed.

Lemma dealloc_obj_ok s p live i c a sz :
  sinv s p live -> classes s !! i = Some c -> live !! a = Some sz -> class_for sz = Some i ->
  let '(c', m') := dealloc_obj a c (page.MEM p) in
  deallocated s p live sz a (set_class s (<[i := c']> (classes s))) (page.with_mem p m').
Proof.
  intros Hs Hc Ha Hcf. destruct (si_class _ _ _ Hs i c Hc) as [fl F]. unfold dealloc_obj.
  assert (in_class live i a) as Hia by (by exists sz). assert (obj c a) as Hoa by (apply (ck_split _ _ _ _ _ F); by right).
  pose proof (block_small sz i _ Hcf (ck_size _ _ _ _ _ F)) as Hb. destruct (class_size i _ (ck_size _ _ _ _ _ F)) as (Hsz & _).
  set (m0 := zero_bytes _ _ _). set (m' := store32 m0 a (free_list c)). set (c' := mk_class _ _ _ _ _ _).
  assert (forall b, ~ (a <= b < a + obj_size c) -> load8 m' b = load8 (page.MEM p) b) as Hm.
  { intros b Hn. unfold m', m0. rewrite load8_store32_ne by lia. rewrite load8_zero_bytes, decide_False by lia. done. }
  assert (forall x, x ∈ fl -> x + obj_size c <= a \/ a + obj_size c <= x) as Hap.
  { intros x Hx. apply (objs_apart s p live i c x a Hs Hc); [apply (ck_split _ _ _ _ _ F); by left|done|].
    intros ->. by apply (ck_apart _ _ _ _ _ F a). }
  assert (forall j x, in_class (delete a live) j x <-> x <> a /\ in_class live j x) as Hin.
  { intros j x. unfold in_class. setoid_rewrite lookup_delete_Some. naive_solver. }
  constructor.
  - apply (sinv_class s p _ live _ i c c' (a :: fl)); try done.
    + destruct (si_page _ _ _ Hs). by constructor.
    + constructor; try apply F.
      * cbn. destruct (obj_range s p live i c a Hs Hc Hoa). unfold is_u32. lia.
      * apply chain_cons; [apply F|destruct (obj_range s p live i c a Hs Hc Hoa); lia| |].
        -- eapply chain_ext; [|apply F]. intros x b Hx Hbx. unfold m0. rewrite load8_zero_bytes, decide_False; [done|].
           destruct (Hap x Hx); lia.
        -- intros x Hx. destruct (Hap x Hx); lia.
      * apply NoDup_cons. split; [|apply F]. intros Hx. by apply (ck_apart _ _ _ _ _ F a).
      * intros x. rewrite Hin, elem_of_cons. change (obj c' x) with (obj c x). rewrite <- (ck_split _ _ _ _ _ F x).
        destruct (decide (x = a)) as [->|]; naive_solver.
      * intros x [->|Hx]%elem_of_cons; rewrite Hin; [naive_solver|]. intros [_ ?]. by apply (ck_apart _ _ _ _ _ F x).
    + intros j x Hj. rewrite Hin. split; [naive_solver|]. intros Hx. split; [|done]. intros ->.
      destruct Hx as (z & Hz & Hz'). congruence.
    + intros x z Hz. rewrite lookup_delete_Some. split; [naive_solver|]. intros Hx. split; [|done]. intros ->. congruence.
    + intros j d l x b Hj Hd Fj Hx Hbx. apply Hm. intros Hn.
      destruct (free_apart s p live b Hs); [by eapply free_word|]. exists a, sz. by rewrite Hb.
    + intros pg Hpg. by left.
    + intros q Hq. apply (si_out _ _ _ Hs (Class i)). by exists c.
    + cbn [alloc_count free_count c']. replace (allocs s - alloc_count c + alloc_count c) with (allocs s) by lia.
      apply (dealloc_count live a sz _ (frees s)); [done|apply Hs|].
      rewrite (Z.add_comm (frees s - free_count c)), wrap64_add. f_equal. lia.
  - intros b Hbb. rewrite Hb in Hbb. cbn [page.MEM page.with_mem]. unfold m', m0. rewrite load8_store32_ne by lia.
    by rewrite load8_zero_bytes, decide_True by lia.
  - intros b Hbb. cbn [page.MEM page.with_mem]. apply Hm. rewrite <- Hb. by apply (in_block_delete s p live a sz b).
Qed.
(** ** Large blocks *)

Lemma take_run p n :
  page.inv p -> 1 <= n ->
  exists op p', (if n =? 1 then Ret (page.alloc_page p) else page.alloc_contiguous n p) = Ret (page.frame_addr p <$> op, p') /\
    page.inv p' /\ page.frames_step (free p) n op (free p') /\ page.MEM p' = page.MEM p /\ page.same_frame p p'.
Proof.
  intros Hp Hn. destruct (Z.eqb_spec n 1) as [->|Hne].
  - destruct (page.alloc_page_spec p Hp) as (op & Ho & H). exists op, (page.alloc_page p).2. rewrite <- Ho.
    split; [by destruct (page.alloc_page p)|done].
  - apply page.alloc_contiguous_ok; [done|lia].
Qed.

Lemma release_run p a n q :
  page.inv p -> page.releasable p a n q -> is_u32 a ->
  exists p', (if n =? 1 then Ret (page.free_page a p) else snd <$> page.free_contiguous a n p) = Ret p' /\
    page.inv p' /\ page.released p q n p'.
Proof.
  intros Hp Hr Hu. assert (forall q', page.releasable p a n q' -> q' = q) as Huniq.
  { intros q' (E' & _). destruct Hr as (E & _). rewrite E in E'. by apply frame_addr_inj in E'. }
  destruct (Z.eqb_spec n 1) as [->|Hne].
  - destruct (page.try_free_page_spec p a Hp) as [(q' & p' & Hr' & E & H)|[Hno _]]; [|by destruct (Hno q)].
    exists p'. rewrite (Huniq q' Hr') in H. split; [|done]. unfold page.free_page. by rewrite E.
  - pose proof Hr as (Ea & Hn0 & Hq0 & Hqn & _). pose proof (page.inv_base _ Hp).
    destruct (page.free_contiguous_ok p a n Hp Hu ltac:(lia)) as [(q' & p' & Hr' & E & H')|[Hno _]]; [| |by destruct (Hno q)].
    + rewrite page.MAX_PAGES_eq in *. unfold page.PAGE_SIZE, is_u32 in *. lia.
    + exists p'. rewrite (Huniq q' Hr') in H'. split; [|done]. by rewrite E.
Qed.

Lemma large_pos sz : class_for sz = None -> 1 <= large_pages sz.
Proof. intros H%class_for_None. unfold large_pages, page.PAGE_SIZE. lia. Qed.

(** A frame of a live block is not free. *)
Lemma live_not_free s p live a sz q : sinv s p live -> live !! a = Some sz -> q ∈ free p -> a <> page.frame_addr p q.
Proof.
  intros Hs Ha Hq ->. destruct (block_owner s p live _ sz Hs Ha) as (o & Ho & _). pose proof (block_pos sz).
  destruct (Ho (page.frame_addr p q)) as (q' & Hq' & Hin); [lia|].
  assert (q' = q) as -> by (unfold page.frame_addr, page.PAGE_SIZE in *; lia). by apply (si_out _ _ _ Hs o q).
Qed.

Definition bump_alloc s : SlabAllocator := mk_slab (classes s) (wrap64 (large_alloc_count s + 1)) (large_free_count s) (initialized s).
Definition bump_free s : SlabAllocator := mk_slab (classes s) (large_alloc_count s) (wrap64 (large_free_count s + 1)) (initialized s).

Lemma large_taken s p p' live sz q :
  sinv s p live -> class_for sz = None -> page.inv p' -> page.same_frame p p' -> page.MEM p' = page.MEM p ->
  0 <= q -> page.run q (large_pages sz) ⊆ free p -> free p' = free p ∖ page.run q (large_pages sz) ->
  allocated s p live sz (page.frame_addr p q) (bump_alloc s) p'.
Proof.
  intros Hs Hcf Hp' G Hmem Hq Hrun HF. pose proof (large_pos sz Hcf) as Hn. set (n := large_pages sz) in *. set (a := page.frame_addr p q).
  assert (forall x, q <= x < q + n -> x ∈ free p) as Hin by (intros x Hx; apply Hrun, page.elem_of_run; lia).
  assert (live !! a = None) as Hnew.
  { destruct (live !! a) as [z|] eqn:E; [|done]. by destruct (live_not_free s p live a z q Hs E (Hin q ltac:(lia))). }
  pose proof (page.free_set_below _ _ (Hin (q + n - 1) ltac:(lia))) as Hqn.
  assert (forall j x, in_class (<[a := sz]> live) j x <-> in_class live j x) as Hcl.
  { intros j x. unfold in_class. split; intros (z & Hz & Hj).
    - apply lookup_insert_Some in Hz as [[_ <-]|[_ Hz]]; [congruence|by exists z].
    - exists z. rewrite lookup_insert_ne; [done|congruence]. }
  assert (forall o x, owns (bump_alloc s) p' (<[a := sz]> live) o x -> owns s p live o x \/ (o = Large a /\ q <= x < q + n)) as Hown.
  { intros [i|a'] x; cbn [owns classes bump_alloc].
    - rewrite (frame_addr_same p p' x G). by left.
    - intros (z & q0 & Hz & Hzc & Hq0 & Hx). rewrite (frame_addr_same p p' q0 G) in Hq0. subst a'.
      apply lookup_insert_Some in Hz as [[Heq <-]|[Hne Hz]]; [|left; by exists z, q0].
      apply frame_addr_inj in Heq as <-. by right. }
  pose proof (page.inv_base _ (si_page _ _ _ Hs)). destruct (si_base _ _ _ Hs) as [Hb0 Hb1].
  assert (block_len sz = n * 4096) as Hlen by (unfold block_len; by rewrite Hcf).
  constructor; rewrite ?Hlen; [|done| | | |].
  - constructor; try apply Hs; try done.
    + destruct G as (-> & _). apply Hs.
    + intros i c Hc. destruct (si_class _ _ _ Hs i c Hc) as [fl F]. exists fl. eapply class_ok_ext; [apply Hcl| |exact F]. by rewrite Hmem.
    + intros i c pg Hc Hpg. destruct (si_pages _ _ _ Hs i c pg Hc Hpg) as (x & ? & ?). exists x. by rewrite (frame_addr_same p p').
    + intros x z [[<- <-]|[Hne Hz]]%lookup_insert_Some Hzc.
      * exists q. rewrite (frame_addr_same p p') by done. split_and!; [done|done|fold n; lia].
      * destruct (si_large _ _ _ Hs x z Hz Hzc) as (y & ? & ?). exists y. by rewrite (frame_addr_same p p').
    + intros o x [Ho|[-> Hx]]%Hown; rewrite HF; intros [Hx1 Hx2]%elem_of_difference; [by apply (si_out _ _ _ Hs o x)|].
      apply Hx2, page.elem_of_run. lia.
    + intros o o' x [Ho|[-> Hx]]%Hown [Ho'|[-> Hx']]%Hown; [by apply (si_excl _ _ _ Hs o o' x)| | |done].
      * by destruct (si_out _ _ _ Hs o x Ho (Hin x Hx')).
      * by destruct (si_out _ _ _ Hs o' x Ho' (Hin x Hx)).
    + rewrite map_size_insert_None, Nat2Z.inj_succ, <- Z.add_1_r by done. unfold allocs, frees. cbn [bump_alloc large_alloc_count large_free_count classes].
      rewrite <- (wrap64_add (Z.of_nat (size live))), <- (si_count _ _ _ Hs), wrap64_add. unfold allocs, frees.
      rewrite <- (Z.add_sub_assoc (wrap64 _)), wrap64_add. f_equal. lia.
  - unfold a, page.frame_addr, page.PAGE_SIZE in *. lia.
  - unfold a, page.frame_addr, page.PAGE_SIZE. rewrite Z.min_r by lia. lia.
  - unfold n, large_pages, page.PAGE_SIZE. lia.
  - intros b _. by rewrite Hmem.
Qed.
Lemma large_released s p p' live a sz q :
  sinv s p live -> live !! a = Some sz -> class_for sz = None -> a = page.frame_addr p q -> page.inv p' ->
  page.released p q (large_pages sz) p' -> deallocated s p live sz a (bump_free s) p'.
Proof.
  intros Hs Ha Hcf -> Hp' (HF & G & Hm). pose proof (large_pos sz Hcf) as Hn. set (n := large_pages sz) in *. set (a := page.frame_addr p q) in *.
  assert (page.frame_addr p (q + n) = a + n * 4096) as Hend by (unfold a, page.frame_addr, page.PAGE_SIZE; lia). rewrite Hend in Hm.
  assert (block_len sz = n * 4096) as Hlen by (unfold block_len; by rewrite Hcf).
  assert (forall j x, in_class (delete a live) j x <-> in_class live j x) as Hcl.
  { intros j x. unfold in_class. split; intros (z & Hz & Hj).
    - apply lookup_delete_Some in Hz as [_ Hz]. by exists z.
    - exists z. rewrite lookup_delete_ne; [done|congruence]. }
  assert (forall o x, owns (bump_free s) p' (delete a live) o x -> owns s p live o x /\ o <> Large a) as Hown.
  { intros [i|a'] x; cbn [owns classes bump_free].
    - by rewrite (frame_addr_same p p' x G).
    - intros (z & q0 & [Hne Hz]%lookup_delete_Some & Hzc & Hq0 & Hx). rewrite (frame_addr_same p p' q0 G) in Hq0.
      split; [by exists z, q0|congruence]. }
  assert (forall x, q <= x < q + n -> owns s p live (Large a) x) as Hmine by (intros x Hx; by exists sz, q).
  constructor; [|intros b Hb; rewrite Hm, decide_True; [done|lia]|].
  - constructor; try apply Hs; try done.
    + destruct G as (-> & _). apply Hs.
    + intros i c Hc. destruct (si_class _ _ _ Hs i c Hc) as [fl F]. exists fl. eapply class_ok_ext; [apply Hcl| |exact F].
      intros x b Hx Hb. rewrite Hm, decide_False; [done|]. intros Hin.
      apply (free_apart s p live b Hs); [by eapply free_word|]. exists a, sz. by rewrite Hlen.
    + intros i c pg Hc Hpg. destruct (si_pages _ _ _ Hs i c pg Hc Hpg) as (x & ? & ?). exists x. by rewrite (frame_addr_same p p').
    + intros x z [Hne Hz]%lookup_delete_Some Hzc. destruct (si_large _ _ _ Hs x z Hz Hzc) as (y & ? & ?). exists y. by rewrite (frame_addr_same p p').
    + intros o x [Ho Hne]%Hown. rewrite HF. intros [Hx|Hx]%elem_of_union; [by apply (si_out _ _ _ Hs o x)|].
      apply page.elem_of_run in Hx. apply Hne, (si_excl _ _ _ Hs o (Large a) x); [done|]. apply Hmine. lia.
    + intros o o' x [Ho _]%Hown [Ho' _]%Hown. by apply (si_excl _ _ _ Hs o o' x).
    + unfold allocs, frees. cbn [bump_free large_alloc_count large_free_count classes].
      apply (dealloc_count live a sz _ (frees s)); [done|apply Hs|]. rewrite wrap64_add. unfold frees. f_equal. lia.
  - intros b Hb. rewrite Hm, decide_False; [done|]. rewrite <- Hlen. by apply (in_block_delete s p live a sz b).
Qed.

(** ** The allocator *)

(** Why an allocation fails: the class has all its slabs and no free object, no
    frame is free, or no run of free frames is long enough. *)
Definition exhausted s p (sz : Z) : Prop :=
  match class_for sz with
  | Some i => exists c, classes s !! i = Some c /\ free_list c = 0 /\ (slab_count c = MAX_SLABS \/ free p = ∅)
  | None => forall q, 0 <= q -> ~ page.run q (large_pages sz) ⊆ free p
  end.

Lemma class_lookup s p live sz i : sinv s p live -> class_for sz = Some i -> exists c, classes s !! i = Some c.
Proof.
  intros Hs Hcf. destruct (class_for_Some sz i Hcf) as (z & Hz & _). apply lookup_lt_is_Some. rewrite (si_len _ _ _ Hs).
  by apply lookup_lt_Some in Hz.
Qed.

Lemma heap_alloc_ok s p live l :
  sinv s p live ->
  exists a s' p', alloc l s p = Ret (a, s', p') /\
    ((a = 0 /\ sinv s' p' live /\ page.MEM p' = page.MEM p /\ exhausted s p (layout_size l)) \/ allocated s p live (layout_size l) a s' p').
Proof.
  intros Hs. unfold alloc. replace (negb (initialized s)) with false by (by rewrite (si_init _ _ _ Hs)). set (sz := layout_size l). unfold exhausted.
  destruct (class_for sz) as [i|] eqn:Hcf.
  - destruct (class_lookup s p live sz i Hs Hcf) as [c Hc]. rewrite (index_lt _ _ _ Hc). cbn [mbind outcome_bind].
    destruct (alloc_obj_ok s p live i c sz Hs Hc Hcf) as (a & c' & p' & E & H).
    pose proof (lookup_lt_Some _ _ _ Hc) as Hlt. rewrite E. cbn [mbind outcome_bind]. rewrite store_lt by done. cbn [mbind outcome_bind].
    exists a. do 2 eexists. split; [reflexivity|]. destruct H as [(-> & -> & -> & Hr)|A]; [|by right]. left.
    rewrite list_insert_id by done. split_and!; [done|by destruct s|done|]. exists c. split_and!; [done| |done].
    unfold alloc_obj in E. destruct (Z.eqb_spec (free_list c) 0) as [|Hnz]; [done|]. injection E as E _. done.
  - destruct (take_run p (large_pages sz) (si_page _ _ _ Hs) (large_pos sz Hcf)) as (op & p' & -> & Hp' & Hst & Hmem & G). cbn [mbind outcome_bind].
    inversion Hst as [n q Hn Hq Hr Hmin Hn1 Hop HF|n Hnone Hn1 Hop HF]; subst; cbn [fmap option_fmap option_map].
    + do 3 eexists. split; [reflexivity|]. right. by apply large_taken.
    + exists 0. do 2 eexists. split; [reflexivity|]. left. split_and!; [done| |done|intros q Hq; by apply Hnone; [pose proof (large_pos sz Hcf); lia|]].
      apply (sinv_env s p); [done|]. split_and!; [done|done|rewrite <- HF; apply Hs|by rewrite Hmem].
Qed.

Lemma live_pos s p live a sz : sinv s p live -> live !! a = Some sz -> 0 < a.
Proof.
  intros Hs Ha. destruct (class_for sz) as [i|] eqn:Hcf.
  - destruct (class_lookup s p live sz i Hs Hcf) as [c Hc]. destruct (si_class _ _ _ Hs i c Hc) as [fl F].
    apply (obj_range s p live i c a Hs Hc), (ck_split _ _ _ _ _ F). right. by exists sz.
  - destruct (si_large _ _ _ Hs a sz Ha Hcf) as (q & -> & Hq & _). destruct (si_base _ _ _ Hs).
    unfold page.frame_addr, page.PAGE_SIZE. lia.
Qed.

Lemma dealloc_ok s p live l a :
  sinv s p live -> live !! a = Some (layout_size l) ->
  exists s' p', dealloc a l s p = Ret (s', p') /\ deallocated s p live (layout_size l) a s' p'.
Proof.
  intros Hs Ha. set (sz := layout_size l) in *. unfold dealloc. fold sz. pose proof (live_pos s p live a sz Hs Ha) as Hpos.
  replace (negb (initialized s)) with false by (by rewrite (si_init _ _ _ Hs)). cbn [orb].
  destruct (Z.eqb_spec a 0); [lia|]. destruct (class_for sz) as [i|] eqn:Hcf.
  - destruct (class_lookup s p live sz i Hs Hcf) as [c Hc]. rewrite (index_lt _ _ _ Hc). cbn [mbind outcome_bind].
    pose proof (dealloc_obj_ok s p live i c a sz Hs Hc Ha Hcf) as H. destruct (dealloc_obj a c (page.MEM p)) as [c' m'].
    rewrite store_lt by (by eapply lookup_lt_Some). cbn [mbind outcome_bind]. by do 2 eexists.
  - destruct (si_large _ _ _ Hs a sz Ha Hcf) as (q & Ea & Hq & Hle). pose proof (page.inv_base _ (si_page _ _ _ Hs)).
    pose proof (large_pos sz Hcf).
    destruct (release_run p a (large_pages sz) q (si_page _ _ _ Hs)) as (p' & -> & Hp' & Hr).
    + split_and!; [done|lia|done|done|]. intros x Hx1 Hx2. apply page.elem_of_run in Hx1.
      apply (si_out _ _ _ Hs (Large a) x); [by exists sz, q|done].
    + unfold is_u32. split; [lia|]. rewrite Ea. unfold page.frame_addr, page.PAGE_SIZE in *. lia.
    + cbn [mbind outcome_bind]. do 2 eexists. split; [reflexivity|]. by apply (large_released s p p' live a sz q).
Qed.
(** The empty heap. *)
Lemma heap_init_ok p : page.inv p -> 0 < page.FIRST_PAGE p -> page.FIRST_PAGE p mod 4096 = 0 -> sinv (init new) p ∅.
Proof.
  intros Hp Hb Hal. assert (forall i c, classes (init new) !! i = Some c ->
    exists sz, SLAB_SIZES !! i = Some sz /\ c = mk_class 0 (replicate 32 0) 0 sz 0 0) as Hget.
  { intros i c. change (classes (init new)) with ((fun sz => mk_class 0 (replicate 32 0) 0 sz 0 0) <$> SLAB_SIZES).
    rewrite list_lookup_fmap. intros (sz & ? & ->)%fmap_Some. by exists sz. }
  assert (forall i a, ~ in_class ∅ i a) as Hno by (intros i a (z & Hz & _); by rewrite lookup_empty in Hz).
  assert (forall o q, ~ owns (init new) p ∅ o q) as Hown.
  { intros [i|a] q; [intros (c & (sz & _ & ->)%Hget & Hin); by apply not_elem_of_nil in Hin|].
    intros (z & q0 & Hz & _). by rewrite lookup_empty in Hz. }
  constructor; try done.
  - intros i c (sz & Hsz & ->)%Hget. exists []. constructor; try done; [by apply NoDup_nil|].
    intros a. split; [intros [H|H]; [by apply not_elem_of_nil in H|by apply Hno in H]|]. intros (pg & Hpg & _). by apply not_elem_of_nil in Hpg.
  - intros i c pg (sz & _ & ->)%Hget Hpg. by apply not_elem_of_nil in Hpg.
  - intros o q Ho. by apply Hown in Ho.
  - intros o o' q Ho. by apply Hown in Ho.
Qed.

Lemma stats_fold cs al fr :
  let r := foldl (fun af c => (wrap64 (af.1 + alloc_count c), wrap64 (af.2 + free_count c))) (al, fr) cs in
  wrap64 r.1 = wrap64 (al + total alloc_count cs) /\ wrap64 r.2 = wrap64 (fr + total free_count cs).
Proof.
  revert al fr. induction cs as [|c cs IH]; intros al fr; cbn [foldl total foldr fst snd]; [by rewrite !Z.add_0_r|].
  destruct (IH (wrap64 (al + alloc_count c)) (wrap64 (fr + free_count c))) as [-> ->]. rewrite !wrap64_add.
  fold (total alloc_count cs) (total free_count cs). by rewrite !Z.add_assoc.
Qed.

Lemma stats_live s p live : sinv s p live -> wrap64 ((stats s).1 - (stats s).2) = wrap64 (Z.of_nat (size live)).
Proof.
  intros Hs. rewrite <- (si_count _ _ _ Hs). destruct (stats_fold (classes s) (large_alloc_count s) (large_free_count s)) as [H1 H2].
  unfold stats, allocs, frees. unfold wrap64 in *. by rewrite Zminus_mod, H1, H2, <- Zminus_mod.
Qed.

(** What the kernel does with the heap: allocate, release one of its blocks with
    the layout it has, or anything the allocator allows the rest of the kernel. *)
Inductive heap_step : SlabAllocator * page.state * gmap Z Z -> SlabAllocator * page.state * gmap Z Z -> Prop :=
  | heap_alloc l s p live a s' p' :
      alloc l s p = Ret (a, s', p') -> heap_step (s, p, live) (s', p', if decide (a = 0) then live else <[a := layout_size l]> live)
  | heap_dealloc l a s p live s' p' :
      live !! a = Some (layout_size l) -> dealloc a l s p = Ret (s', p') -> heap_step (s, p, live) (s', p', delete a live)
  | heap_env s p live p' : env s p live p' -> heap_step (s, p, live) (s, p', live).

Lemma heap_step_ok s p live s' p' live' : sinv s p live -> heap_step (s, p, live) (s', p', live') -> sinv s' p' live'.
Proof.
  intros Hs Hstep. inversion Hstep; subst.
  - match goal with H : alloc ?l _ _ = _ |- _ => destruct (heap_alloc_ok s p live l Hs) as (a' & s1 & p1 & E & Hr); rewrite H in E; injection E as <- <- <- end.
    destruct Hr as [(-> & Hs' & _)|A]; [by rewrite decide_True|]. destruct (al_range _ _ _ _ _ _ _ A). rewrite decide_False by lia. apply A.
  - match goal with H : dealloc ?a ?l _ _ = _ |- _ => destruct (dealloc_ok s p live l a Hs) as (s1 & p1 & E & D); [done|]; rewrite H in E; injection E as <- <- end.
    apply D.
  - by eapply sinv_env.
Qed.

Lemma heap_steps_ok x y :
  rtc heap_step x y -> sinv x.1.1 x.1.2 x.2 -> sinv y.1.1 y.1.2 y.2.
Proof.
  induction 1 as [|[[s p] live] [[s1 p1] live1] z Hstep Hr IH]; [done|]. intros Hs. apply IH. by apply (heap_step_ok s p live).
Qed.

(** ** Alignment *)

Lemma pow2_divide j k : 0 <= j <= k -> (2 ^ j | 2 ^ k).
Proof. intros H. exists (2 ^ (k - j)). rewrite <- Z.pow_add_r by lia. f_equal. lia. Qed.

Lemma class_pow2 i sz : SLAB_SIZES !! i = Some sz -> sz = 2 ^ Z.of_nat (5 + i) /\ (i < 7)%nat.
Proof. do 7 (destruct i as [|i]; [intros [= <-]; split; [reflexivity|lia]|]). done. Qed.

Lemma align_divides k sz : 0 <= k <= 12 -> 2 ^ k <= sz -> (2 ^ k | Z.min (block_len sz) 4096).
Proof.
  intros Hk Hle. unfold block_len. destruct (class_for sz) as [i|] eqn:Hcf.
  - destruct (class_for_Some sz i Hcf) as (z & Hz & Hlez). rewrite list_lookup_total_alt, Hz. cbn [from_option].
    destruct (class_pow2 i z Hz) as [-> Hi]. rewrite Z.min_l.
    + apply pow2_divide. split; [lia|]. apply (Z.pow_le_mono_r_iff 2); lia.
    + change 4096 with (2 ^ 12). apply Z.pow_le_mono_r; lia.
  - pose proof (large_pos sz Hcf). change page.PAGE_SIZE with 4096. rewrite Z.min_r by lia. change 4096 with (2 ^ 12). apply pow2_divide. lia.
Qed.
End theory.

(** ** Theorems *)

(** C37: whatever the kernel allocates and releases, and whatever it writes into
    its own blocks and the rest of memory in between, no two live blocks of the
    heap share a byte, every block lies in frames that are allocated, and the
    difference of the two counters of [stats] is the number of live blocks. *)
Theorem heap_blocks_never_overlap p s' p' live' :
  page.inv p -> 0 < page.FIRST_PAGE p -> page.FIRST_PAGE p mod 4096 = 0 ->
  rtc heap_step (init new, p, ∅) (s', p', live') ->
  sinv s' p' live' /\
  (forall a sz a' sz' b, live' !! a = Some sz -> live' !! a' = Some sz' -> a <> a' ->
     ~ (a <= b < a + block_len sz /\ a' <= b < a' + block_len sz')) /\
  (forall b, in_block live' b -> exists q, (q ∉ page.free_set (page.PAGE_BITMAP p')) /\
     page.frame_addr p' q <= b < page.frame_addr p' q + 4096) /\
  wrap64 ((stats s').1 - (stats s').2) = wrap64 (Z.of_nat (size live')).
Proof.
  intros Hp H0 Hal Hr. pose proof (heap_steps_ok _ _ Hr (heap_init_ok p Hp H0 Hal)) as Hs. cbn [fst snd] in Hs. split_and!.
  - done.
  - intros a sz a' sz' b Ha Ha' Hne [Hb Hb']. by apply (blocks_apart s' p' live' a a' sz sz' b).
  - intros b Hb. destruct (block_owned s' p' live' b Hs Hb) as (o & q & Ho & Hin). exists q. split; [|done]. by apply (si_out _ _ _ Hs o).
  - by eapply stats_live.
Qed.

(** An allocation never panics. It answers null, changing no block and no
    byte, exactly when the size class has no free object and cannot get a page,
    or no run of free frames is long enough; otherwise the block is new, holds
    the layout, is aligned to it up to the page size, and no live block changed. *)
Theorem heap_alloc_serves s p live l k :
  sinv s p live -> 0 <= k <= 12 -> lalign l = 2 ^ k ->
  exists a s' p', alloc l s p = Ret (a, s', p') /\
    ((a = 0 /\ sinv s' p' live /\ page.MEM p' = page.MEM p /\ exhausted s p (layout_size l)) \/
     (a <> 0 /\ sinv s' p' (<[a := layout_size l]> live) /\ live !! a = None /\ a mod lalign l = 0 /\
      lsize l <= block_len (layout_size l) /\ a + block_len (layout_size l) <= 2 ^ 32 /\
      forall b, in_block live b -> load8 (page.MEM p') b = load8 (page.MEM p) b)).
Proof.
  intros Hs Hk Hal. destruct (heap_alloc_ok s p live l Hs) as (a & s' & p' & E & [Hf|A]); exists a, s', p'; (split; [exact E|]); [by left|right].
  destruct (al_range _ _ _ _ _ _ _ A). pose proof (al_len _ _ _ _ _ _ _ A). unfold layout_size in *. split_and!; [lia|apply A|apply A| |lia|done|apply A].
  apply Z.mod_divide; [lia|]. rewrite Hal in *. eapply Z.divide_trans; [apply (align_divides k (Z.max (lsize l) (2 ^ k))); lia|].
  pose proof (al_align _ _ _ _ _ _ _ A) as Hm. apply Z.mod_divide in Hm; [|pose proof (block_pos (Z.max (lsize l) (2 ^ k))); lia]. exact Hm.
Qed.

(** Releasing a small block scrubs it, keeps every other block, and the next
    request of the class gets the same object back, with no byte of its
    former owner past the link word. *)
Theorem heap_free_then_alloc s p live l l' a i :
  sinv s p live -> live !! a = Some (layout_size l) -> class_for (layout_size l) = Some i -> class_for (layout_size l') = Some i ->
  exists s1 p1 s2, dealloc a l s p = Ret (s1, p1) /\ alloc l' s1 p1 = Ret (a, s2, p1) /\
    sinv s2 p1 (<[a := layout_size l']> (delete a live)) /\
    (forall b, a + 4 <= b < a + block_len (layout_size l) -> load8 (page.MEM p1) b = 0) /\
    forall b, in_block (delete a live) b -> load8 (page.MEM p1) b = load8 (page.MEM p) b.
Proof.
  intros Hs Ha Hi Hi'. destruct (dealloc_ok s p live l a Hs Ha) as (s1 & p1 & E & D).
  destruct (class_lookup s p live _ i Hs Hi) as [c Hc].
  assert (exists c1, classes s1 !! i = Some c1 /\ free_list c1 = a) as (c1 & Hc1 & Hfl).
  { pose proof (live_pos s p live a _ Hs Ha). unfold dealloc in E. rewrite (si_init _ _ _ Hs), Hi in E. destruct (Z.eqb_spec a 0); [lia|].
    cbn [negb orb] in E. rewrite (index_lt _ _ _ Hc) in E. cbn [mbind outcome_bind dealloc_obj] in E.
    rewrite store_lt in E by (by eapply lookup_lt_Some). injection E as <- _. eexists. split; [apply list_lookup_insert_eq; by eapply lookup_lt_Some|reflexivity]. }
  pose proof (live_pos s p live a _ Hs Ha) as Hpos.
  pose proof (heap_pop_ok s1 p1 (delete a live) i c1 (layout_size l') (de_inv _ _ _ _ _ _ _ D) Hc1 ltac:(lia) Hi') as Hpop.
  unfold pop in Hpop. rewrite Hfl in Hpop. destruct Hpop as (_ & _ & _ & _ & Hs2).
  do 3 eexists. split_and!; [exact E| |exact Hs2|apply D|apply D].
  unfold alloc. rewrite (si_init _ _ _ (de_inv _ _ _ _ _ _ _ D)), Hi'. cbn [negb]. rewrite (index_lt _ _ _ Hc1). cbn [mbind outcome_bind].
  unfold alloc_obj, pop. rewrite Hfl. destruct (Z.eqb_spec a 0); [lia|]. cbn [mbind outcome_bind].
  rewrite store_lt by (by eapply lookup_lt_Some). reflexivity.
Qed.

(** An alignment above the page size is not honoured: on an empty heap a
    request for 8192 bytes aligned to 8192 is answered at an odd page. *)
Theorem heap_ignores_large_alignment :
  match alloc (mk_layout 8192 8192) (init new) page.demo with
  | Ret (a, _, _) => a = 0x40003000 /\ a mod 8192 <> 0
  | Panic => False
  end.
Proof. vm_compute. done. Qed.

(** ** A small heap *)

Lemma demo_heap_inv : sinv (init new) page.demo ∅.
Proof. apply heap_init_ok; [exact page.demo_inv|by vm_compute..]. Qed.

Definition demo_heap : outcome (Z * SlabAllocator * page.state) := alloc (mk_layout 100 4) (init new) page.demo.

Lemma heap_blocks_never_overlap_witness :
  exists s' p', rtc heap_step (init new, page.demo, ∅) (s', p', {[0x40003000 := 100]}) /\
    wrap64 ((stats s').1 - (stats s').2) = 1.
Proof.
  destruct (heap_alloc_ok (init new) page.demo ∅ (mk_layout 100 4) demo_heap_inv) as (a & s' & p' & E & _).
  assert (match demo_heap with Ret (a, _, _) => a = 0x40003000 | Panic => False end) as Ha by (vm_compute; reflexivity).
  unfold demo_heap in Ha. rewrite E in Ha. subst a. exists s', p'.
  assert (rtc heap_step (init new, page.demo, ∅) (s', p', {[0x40003000 := 100]})) as Hr.
  { apply rtc_once. exact (heap_alloc (mk_layout 100 4) (init new) page.demo ∅ 0x40003000 s' p' E). }
  split; [exact Hr|].
  destruct (heap_blocks_never_overlap page.demo s' p' {[0x40003000 := 100]} page.demo_inv ltac:(by vm_compute) ltac:(by vm_compute) Hr) as (_ & _ & _ & H).
  exact H.
Defined.

Lemma heap_alloc_serves_witness :
  exists s' p', alloc (mk_layout 100 4) (init new) page.demo = Ret (0x40003000, s', p') /\ sinv s' p' {[0x40003000 := 100]}.
Proof.
  destruct (heap_alloc_serves (init new) page.demo ∅ (mk_layout 100 4) 2 demo_heap_inv ltac:(lia) eq_refl) as (a & s' & p' & E & H).
  assert (match demo_heap with Ret (a, _, _) => a = 0x40003000 | Panic => False end) as Ha by (vm_compute; reflexivity).
  unfold demo_heap in Ha. rewrite E in Ha. subst a. exists s', p'. split; [exact E|].
  destruct H as [[H _]|(_ & H & _)]; [discriminate H|exact H].
Defined.

Lemma heap_free_then_alloc_witness :
  exists s p s1 p1 s2, sinv s p {[0x40003000 := 100]} /\
    dealloc 0x40003000 (mk_layout 100 4) s p = Ret (s1, p1) /\ alloc (mk_layout 120 8) s1 p1 = Ret (0x40003000, s2, p1).
Proof.
  destruct (heap_alloc_ok (init new) page.demo ∅ (mk_layout 100 4) demo_heap_inv) as (a & s & p & E & H).
  assert (match demo_heap with Ret (a, _, _) => a = 0x40003000 | Panic => False end) as Ha by (vm_compute; reflexivity).
  unfold demo_heap in Ha. rewrite E in Ha. subst a. destruct H as [[H _]|H]; [discriminate H|].
  destruct (heap_free_then_alloc s p {[0x40003000 := 100]} (mk_layout 100 4) (mk_layout 120 8) 0x40003000 2 (al_inv _ _ _ _ _ _ _ H)
    ltac:(apply lookup_singleton_eq) eq_refl eq_refl) as (s1 & p1 & s2 & E1 & E2 & _).
  exists s, p, s1, p1, s2. split; [apply H|]. by split.
Defined.
End slab.
