(* ===== verification/Ring.v ===== *)
(** * Ring buffers

    The lemmas the bounded queues of the kernel share (the IPC inbox and the
    pipe buffer): a circular array read from [pos] for [cnt] elements is a
    list; writing at the tail appends and advancing the head drops. *)

From S2P Require Import Prelude.

Section ring.
Context {A : Type} `{!Inhabited A}.
Implicit Types (buf : list A) (pos cnt : nat).

Definition ring_view buf pos cnt : list A :=
  (fun i => buf !!! ((pos + i) mod length buf)) <$> seq 0 cnt.

Lemma length_ring_view buf pos cnt : length (ring_view buf pos cnt) = cnt.
Proof. unfold ring_view. by rewrite length_fmap, length_seq. Qed.

Lemma ring_index_inj n pos i j :
  i < n -> j < n -> (pos + i) mod n = (pos + j) mod n -> i = j.
Proof.
  intros Hi Hj He.
  pose proof (Nat.div_mod (pos + i) n ltac:(lia)). pose proof (Nat.div_mod (pos + j) n ltac:(lia)).
  assert ((pos + i) / n = (pos + j) / n \/ (pos + i) / n <> (pos + j) / n) as [|Hne] by lia; [nia|].
  assert (i < j \/ j < i \/ i = j) as [|[|]] by lia; [..|done]; nia.
Qed.

Lemma ring_view_push buf pos cnt (x : A) :
  cnt < length buf ->
  ring_view (<[(pos + cnt) mod length buf := x]> buf) pos (S cnt) = ring_view buf pos cnt ++ [x].
Proof.
  intros Hc. unfold ring_view. rewrite length_insert, seq_S, fmap_app. f_equal; cbn.
  - apply list_fmap_ext. intros i j Hj. apply lookup_seq in Hj as [-> Hi].
    apply list_lookup_total_insert_ne. intros He. apply ring_index_inj in He; lia.
  - rewrite list_lookup_total_insert_eq; [done|]. apply Nat.mod_upper_bound. lia.
Qed.

Lemma ring_view_succ buf pos cnt :
  ring_view buf pos (S cnt) = buf !!! (pos mod length buf) :: ring_view buf (S pos mod length buf) cnt.
Proof.
  unfold ring_view. cbn. rewrite Nat.add_0_r. f_equal.
  rewrite <- fmap_S_seq, <- list_fmap_compose. apply list_fmap_ext. intros i j _. unfold compose.
  f_equal. rewrite Nat.Div0.add_mod_idemp_l. f_equal. lia.
Qed.

(** A write outside the window is not seen. *)
Lemma ring_view_insert_outside buf pos cnt k (x : A) :
  (forall i, i < cnt -> (pos + i) mod length buf <> k) ->
  ring_view (<[k := x]> buf) pos cnt = ring_view buf pos cnt.
Proof.
  intros Hk. unfold ring_view. rewrite length_insert. apply list_fmap_ext.
  intros i j Hj. apply lookup_seq in Hj as [-> Hi]. apply list_lookup_total_insert_ne.
  intros He. by apply (Hk i).
Qed.

Lemma ring_view_drop buf pos cnt k :
  k <= cnt -> ring_view buf ((pos + k) mod length buf) (cnt - k) = drop k (ring_view buf pos cnt).
Proof.
  revert pos cnt. induction k as [|k IH]; intros pos cnt Hk.
  - rewrite Nat.add_0_r, Nat.sub_0_r, drop_0. unfold ring_view. apply list_fmap_ext.
    intros i j _. by rewrite Nat.Div0.add_mod_idemp_l.
  - destruct cnt as [|cnt]; [lia|]. rewrite ring_view_succ. cbn [drop].
    rewrite <- IH by lia. replace (S cnt - S k) with (cnt - k) by lia. f_equal.
    rewrite Nat.Div0.add_mod_idemp_l. f_equal. lia.
Qed.
End ring.
