(* ===== verification/Ipc.v ===== *)
(** * Message passing ([crates/thumos/src/ipc.rs])

    Fixed-size messages through per-process inboxes.  An inbox is a ring of
    [INBOX_SIZE] optional messages; the array of inboxes is the module's
    static.  [process::current_pid] is an argument of the functions that call
    it.  The specification is a bounded FIFO queue per process. *)

From S2P Require Import Prelude Machine Ring.
From Stdlib Require Import ZArith.
Open Scope nat_scope.

Module ipc.

Definition MSG_MAX_SIZE : nat := 256.
Definition INBOX_SIZE : nat := 16.
Definition MAX_INBOX_PROCS : nat := 16.
Definition ESRCH : Z := -3.

Record Message := mk_message {
  from : Z;
  tag : Z;
  len : nat;
  data : list Z;
}.

#[export] Instance Message_eq_dec : EqDecision Message.
Proof. solve_decision. Defined.

(** [msg.data[..msg.len].copy_from_slice(&payload[..msg.len])]. *)
Definition Message_new (tag : Z) (payload : list Z) : Message :=
  let len := Nat.min (length payload) MSG_MAX_SIZE in
  mk_message 0 tag len (take len payload ++ drop len (replicate MSG_MAX_SIZE 0%Z)).

(** [&self.data[..self.len]]. *)
Definition payload (m : Message) : outcome (list Z) :=
  if decide (len m <= length (data m)) then Ret (take (len m) (data m)) else Panic.

Definition set_from (m : Message) (pid : Z) : Message := mk_message pid (tag m) (len m) (data m).

Record Inbox := mk_inbox {
  messages : list (option Message);
  head : nat;
  tail : nat;
  count : nat;
}.

Definition Inbox_new : Inbox := mk_inbox (replicate INBOX_SIZE None) 0 0 0.

Definition push (ib : Inbox) (msg : Message) : outcome (bool * Inbox) :=
  if decide (INBOX_SIZE <= count ib) then Ret (false, ib) else
  ms ← store (messages ib) (tail ib) (Some msg);
  Ret (true, mk_inbox ms (head ib) ((tail ib + 1) mod INBOX_SIZE) (count ib + 1)).

Definition pop (ib : Inbox) : outcome (option Message * Inbox) :=
  if decide (count ib = 0) then Ret (None, ib) else
  msg ← index (messages ib) (head ib);
  ms ← store (messages ib) (head ib) None;
  Ret (msg, mk_inbox ms ((head ib + 1) mod INBOX_SIZE) (tail ib) (count ib - 1)).

Definition is_empty (ib : Inbox) : bool := bool_decide (count ib = 0).
Definition is_full (ib : Inbox) : bool := bool_decide (INBOX_SIZE <= count ib).
Definition clear (ib : Inbox) : Inbox := Inbox_new.

(** [static mut INBOXES]. *)
Definition INBOXES_init : list Inbox := replicate MAX_INBOX_PROCS Inbox_new.

Definition validate_pid (pid : Z) : result nat Z :=
  let idx := Z.to_nat pid in
  if decide (MAX_INBOX_PROCS <= idx) then Err ESRCH else Ok idx.

Inductive IpcSendError := InvalidTarget | InboxFull.

Definition send (current_pid to : Z) (msg : Message) (ibs : list Inbox)
    : outcome (result unit IpcSendError * list Inbox) :=
  match validate_pid to with
  | Err _ => Ret (Err InvalidTarget, ibs)
  | Ok idx =>
      let msg := set_from msg current_pid in
      ib ← index ibs idx;
      '(delivered, ib) ← push ib msg;
      ibs ← store ibs idx ib;
      Ret (if delivered : bool then Ok tt else Err InboxFull, ibs)
  end.

Definition recv (current_pid : Z) (ibs : list Inbox) : outcome (option Message * list Inbox) :=
  match validate_pid current_pid with
  | Err _ => Ret (None, ibs)
  | Ok idx =>
      ib ← index ibs idx;
      '(msg, ib) ← pop ib;
      ibs ← store ibs idx ib;
      Ret (msg, ibs)
  end.

Definition has_messages (current_pid : Z) (ibs : list Inbox) : outcome bool :=
  match validate_pid current_pid with
  | Err _ => Ret false
  | Ok idx => ib ← index ibs idx; Ret (negb (is_empty ib))
  end.

Definition clear_inbox (pid : Z) (ibs : list Inbox) : outcome (list Inbox) :=
  match validate_pid pid with
  | Err _ => Ret ibs
  | Ok idx => ib ← index ibs idx; store ibs idx (clear ib)
  end.

(** ** The inbox implements a bounded queue *)

(** [queue ib q]: the ring is well formed and holds the messages [q], oldest first. *)
Record queue (ib : Inbox) (q : list Message) : Prop := {
  queue_len : length (messages ib) = INBOX_SIZE;
  queue_head : head ib < INBOX_SIZE;
  queue_tail : tail ib = (head ib + count ib) mod INBOX_SIZE;
  queue_count : count ib <= INBOX_SIZE;
  queue_view : ring_view (messages ib) (head ib) (count ib) = Some <$> q;
}.

Lemma queue_length ib q : queue ib q -> length q = count ib.
Proof.
  intros H. pose proof (f_equal length (queue_view _ _ H)) as Hl.
  by rewrite length_ring_view, length_fmap in Hl.
Qed.

Lemma queue_new : queue Inbox_new [].
Proof. constructor; cbn; unfold INBOX_SIZE; lia || done. Qed.

Lemma push_ok ib q msg :
  queue ib q ->
  exists ib', push ib msg = Ret (bool_decide (length q < INBOX_SIZE), ib') /\
    queue ib' (if decide (length q < INBOX_SIZE) then q ++ [msg] else q).
Proof.
  intros H. pose proof (queue_length _ _ H) as Hl. destruct H as [H1 H2 H3 H4 H5]. unfold push.
  destruct (decide (INBOX_SIZE <= count ib)).
  { exists ib. rewrite bool_decide_eq_false_2, decide_False by lia. by split. }
  rewrite bool_decide_eq_true_2, decide_True by lia.
  assert (tail ib < INBOX_SIZE) by (rewrite H3; apply Nat.mod_upper_bound; unfold INBOX_SIZE; lia).
  rewrite store_lt by lia. cbn [mbind outcome_bind]. eexists. split; [done|].
  constructor; cbn [messages head tail count]; [by rewrite length_insert|done| |lia|].
  - rewrite H3, Nat.Div0.add_mod_idemp_l. f_equal. lia.
  - rewrite H3. rewrite <- H1 at 1. replace (count ib + 1) with (S (count ib)) by lia.
    rewrite ring_view_push by lia. by rewrite H5, fmap_app.
Qed.

Lemma pop_ok ib q :
  queue ib q ->
  exists ib', pop ib = Ret (list.head q, ib') /\ queue ib' (list.tail q).
Proof.
  intros H. pose proof (queue_length _ _ H) as Hl. destruct H as [H1 H2 H3 H4 H5]. unfold pop.
  destruct (decide (count ib = 0)) as [H0|H0].
  { exists ib. assert (q = []) as -> by (apply nil_length_inv; lia). by split. }
  destruct (count ib) as [|c] eqn:Ec; [done|]. rewrite ring_view_succ, H1 in H5.
  rewrite (Nat.mod_small (head ib)) in H5 by done.
  destruct q as [|m q]; [done|]. rewrite fmap_cons in H5. cbn in Hl.
  injection H5 as Hm Hq.
  rewrite index_total by lia. cbn [mbind outcome_bind]. rewrite Hm.
  rewrite store_lt by lia. cbn [mbind outcome_bind]. eexists. split; [done|].
  constructor; cbn [messages head tail count]; [by rewrite length_insert| | |lia|].
  - apply Nat.mod_upper_bound. unfold INBOX_SIZE. lia.
  - rewrite H3, Nat.Div0.add_mod_idemp_l. f_equal. lia.
  - replace (S c - 1) with c by lia. rewrite ring_view_insert_outside.
    + by rewrite Nat.add_1_r.
    + rewrite H1. intros i Hi. rewrite Nat.Div0.add_mod_idemp_l.
      rewrite <- (Nat.mod_small (head ib) INBOX_SIZE) at 2 by done.
      replace (head ib + 1 + i) with (head ib + (i + 1)) by lia.
      rewrite <- (Nat.add_0_r (head ib)) at 2. intros He. apply ring_index_inj in He; lia.
Qed.

Lemma payload_new tag p pid :
  payload (set_from (Message_new tag p) pid) = Ret (take MSG_MAX_SIZE p).
Proof.
  unfold payload, Message_new, set_from; cbn [len data].
  rewrite decide_True.
  - rewrite take_app_le by (rewrite length_take; lia). rewrite take_take.
    f_equal. destruct (decide (length p <= MSG_MAX_SIZE)).
    + rewrite !take_ge by lia. done.
    + f_equal. lia.
  - rewrite length_app, length_take, length_drop, length_replicate. lia.
Qed.

(** ** The specification: one bounded FIFO queue per process *)

(** The message a receiver finds: the sender, the tag, at most 256 bytes of the
    payload, padded with zeros. *)
Definition letter (sender tag : Z) (bytes : list Z) : Message := {|
  from := sender; ipc.tag := tag; len := if decide (length bytes <= 256) then length bytes else 256; data := resize 256 0%Z bytes |}.

Lemma letter_new sender tag bytes : set_from (Message_new tag bytes) sender = letter sender tag bytes.
Proof.
  unfold set_from, Message_new, letter, MSG_MAX_SIZE. cbn [from ipc.tag len data]. rewrite resize_spec.
  case_decide; f_equal; [lia| |lia|].
  - rewrite drop_replicate, !take_ge by lia. do 2 f_equal. lia.
  - rewrite drop_replicate. f_equal; [f_equal; lia|f_equal; lia].
Qed.

Inductive op :=
  | OpSend (current_pid to tag : Z) (bytes : list Z)
  | OpRecv (current_pid : Z)
  | OpHas (current_pid : Z)
  | OpClear (pid : Z).

Inductive reply :=
  | RSend (r : result unit IpcSendError)
  | RRecv (m : option Message)
  | RHas (b : bool)
  | RClear.

(** What the operation does to the queue [q] of the process it names. *)
Definition spec_op (o : op) (q : list Message) : reply * list Message :=
  match o with
  | OpSend cur _ tag bytes =>
      if decide (length q < INBOX_SIZE)
      then (RSend (Ok tt), q ++ [letter cur tag bytes])
      else (RSend (Err InboxFull), q)
  | OpRecv _ => (RRecv (list.head q), list.tail q)
  | OpHas _ => (RHas (bool_decide (q <> [])), q)
  | OpClear _ => (RClear, [])
  end.

Definition op_target (o : op) : Z :=
  match o with OpSend _ to _ _ => to | OpRecv p | OpHas p | OpClear p => p end.
Definition op_invalid (o : op) : reply :=
  match o with
  | OpSend _ _ _ _ => RSend (Err InvalidTarget) | OpRecv _ => RRecv None
  | OpHas _ => RHas false | OpClear _ => RClear
  end.

Definition spec_step (o : op) (qs : list (list Message)) : reply * list (list Message) :=
  match qs !! Z.to_nat (op_target o) with
  | None => (op_invalid o, qs)
  | Some q => let '(r, q) := spec_op o q in (r, <[Z.to_nat (op_target o) := q]> qs)
  end.

Definition impl_step (o : op) (ibs : list Inbox) : outcome (reply * list Inbox) :=
  match o with
  | OpSend cur to tag bytes =>
      '(r, ibs) ← send cur to (Message_new tag bytes) ibs; Ret (RSend r, ibs)
  | OpRecv cur => '(m, ibs) ← recv cur ibs; Ret (RRecv m, ibs)
  | OpHas cur => b ← has_messages cur ibs; Ret (RHas b, ibs)
  | OpClear pid => ibs ← clear_inbox pid ibs; Ret (RClear, ibs)
  end.

Fixpoint spec_run (os : list op) (qs : list (list Message)) : list reply :=
  match os with
  | [] => []
  | o :: os => let '(r, qs) := spec_step o qs in r :: spec_run os qs
  end.

Fixpoint impl_run (os : list op) (ibs : list Inbox) : outcome (list reply) :=
  match os with
  | [] => Ret []
  | o :: os => '(r, ibs) ← impl_step o ibs; rs ← impl_run os ibs; Ret (r :: rs)
  end.

Definition inboxes (ibs : list Inbox) (qs : list (list Message)) : Prop :=
  length ibs = MAX_INBOX_PROCS /\ Forall2 queue ibs qs.

Lemma inboxes_lookup ibs qs i :
  inboxes ibs qs -> i < MAX_INBOX_PROCS ->
  exists ib q, index ibs i = Ret ib /\ qs !! i = Some q /\ queue ib q.
Proof.
  intros [Hl HF] Hi. destruct (lookup_lt_is_Some_2 ibs i) as [ib Hib]; [lia|].
  destruct (Forall2_lookup_l _ _ _ _ _ HF Hib) as (q & Hq & Hqq).
  exists ib, q. split; [by apply index_lt|done].
Qed.

Lemma inboxes_update ibs qs i ib q :
  inboxes ibs qs -> i < MAX_INBOX_PROCS -> queue ib q ->
  exists ibs', store ibs i ib = Ret ibs' /\ inboxes ibs' (<[i := q]> qs).
Proof.
  intros [Hl HF] Hi Hq. rewrite store_lt by lia. eexists. split; [done|].
  split; [by rewrite length_insert|]. by apply Forall2_insert.
Qed.

(** One step of the implementation is one step of the specification. *)
Lemma impl_step_ok ibs qs o :
  inboxes ibs qs ->
  exists ibs', impl_step o ibs = Ret ((spec_step o qs).1, ibs') /\ inboxes ibs' (spec_step o qs).2.
Proof.
  intros Hinv. unfold spec_step.
  destruct (decide (Z.to_nat (op_target o) < MAX_INBOX_PROCS)) as [Hlt|Hge].
  2: { pose proof Hinv as [Hl HF]. apply Forall2_length in HF.
       rewrite lookup_ge_None_2 by lia. exists ibs. split; [|done].
       destruct o; cbn [op_target] in Hge; cbn [impl_step op_invalid fst];
         unfold send, recv, has_messages, clear_inbox, validate_pid;
         rewrite decide_True by lia; done. }
  destruct (inboxes_lookup _ _ _ Hinv Hlt) as (ib & q & Hib & Hlk & Hq). rewrite Hlk.
  destruct o as [cur to tag bytes|cur|cur|pid]; cbn [op_target] in *; cbn [impl_step spec_op];
    unfold send, recv, has_messages, clear_inbox, validate_pid; rewrite decide_False by lia;
    cbv zeta; rewrite Hib; cbn [mbind outcome_bind].
  - destruct (push_ok ib q (set_from (Message_new tag bytes) cur) Hq) as (ib' & -> & Hq').
    cbn [mbind outcome_bind]. rewrite letter_new in Hq'.
    destruct (inboxes_update _ _ _ _ _ Hinv Hlt Hq') as (ibs' & -> & Hinv'). cbn [mbind outcome_bind].
    exists ibs'. case_bool_decide; case_decide; (done || lia).
  - destruct (pop_ok ib q Hq) as (ib' & -> & Hq'). cbn [mbind outcome_bind].
    destruct (inboxes_update _ _ _ _ _ Hinv Hlt Hq') as (ibs' & -> & Hinv'). by exists ibs'.
  - exists ibs. unfold is_empty. pose proof (queue_length _ _ Hq) as Hc. split.
    + do 3 f_equal. destruct q as [|m q]; cbn [length] in Hc; rewrite <- Hc; done.
    + cbn [snd]. by rewrite list_insert_id.
  - destruct (inboxes_update _ _ _ _ _ Hinv Hlt queue_new) as (ibs' & H1 & Hinv').
    exists ibs'. unfold clear. rewrite H1. done.
Qed.

(** C21: The inboxes are bounded FIFO queues: whatever sequence of sends,
    receives, polls and exit-time clears runs from boot, no call panics and
    every reply is the one of sixteen independent queues of capacity 16, so
    messages arrive in order, stamped with the sender's PID and with the first
    256 bytes of what was sent, to the addressed process only. A send succeeds for
    any target below 16 with room in its queue, whether or not a process lives
    there; a cleared inbox is empty. *)
Theorem ipc_refines_bounded_queues os :
  impl_run os INBOXES_init = Ret (spec_run os (replicate MAX_INBOX_PROCS [])).
Proof.
  assert (inboxes INBOXES_init (replicate MAX_INBOX_PROCS [])) as Hinv.
  { split; [done|]. apply Forall2_replicate, queue_new. }
  revert Hinv. generalize INBOXES_init as ibs, (replicate MAX_INBOX_PROCS ([] : list Message)) as qs.
  induction os as [|o os IH]; intros ibs qs Hinv; [done|]. cbn [impl_run spec_run].
  destruct (impl_step_ok ibs qs o Hinv) as (ibs' & -> & Hinv'). cbn [mbind outcome_bind].
  destruct (spec_step o qs) as [r qs']. cbn [fst snd] in *. by rewrite (IH _ _ Hinv').
Qed.

(** Sixteen messages fill an inbox and the seventeenth is refused. *)
Example inbox_full_example :
  (fun rs => last rs) <$>
    impl_run (replicate 16 (OpSend 3 5 7 [1%Z; 2%Z]) ++ [OpSend 3 5 7 []]) INBOXES_init =
  Ret (Some (RSend (Err InboxFull))).
Proof. vm_compute. reflexivity. Qed.
End ipc.
