(* ===== verification/Mmu.v ===== *)
(** * The MMU: ARMv7 short-descriptor page tables ([crates/thumos/src/mmu.rs])

    Address spaces are 4096-entry L1 tables in memory; a megabyte is mapped by
    a section descriptor or by a 256-entry L2 table drawn from a pool of 64.
    The tables are read and written with volatile word accesses, so they are
    modelled in [memory]; the two allocation masks are fields of [state].

    The addresses of the statics ([L1], [KERNEL_L2], [L2_TABLES],
    [USER_TABLES]) are chosen by the linker: they are the fields of [statics],
    with the alignment and disjointness that [repr(align)] and distinct
    statics give them in [statics_ok]. *)

From S2P Require Import Prelude Machine.
From Stdlib Require Import ZArith.
Open Scope Z_scope.

Module mmu.

(** ** Descriptor bits *)

Definition SECTION : Z := 2.

Module page_flags.
Definition L1_PAGE_TABLE : Z := 1.
Definition SMALL_PAGE : Z := 2.
Definition AP_FULL : Z := Z.shiftl 3 4.
Definition AP_READ_ONLY : Z := Z.shiftl 2 4.
Definition AP_KERNEL_ONLY : Z := Z.shiftl 1 4.
Definition AP_KERNEL_RO : Z := Z.lor (Z.shiftl 1 4) (Z.shiftl 1 9).
Definition XN : Z := 1.
Definition SHAREABLE : Z := Z.shiftl 1 10.
Definition NORMAL_WB_WA : Z := Z.lor (Z.lor (Z.shiftl 1 6) (Z.shiftl 1 3)) (Z.shiftl 1 2).
Definition NG : Z := Z.shiftl 1 11.
End page_flags.
Import page_flags.

Definition PROT_READ : Z := 1.
Definition PROT_WRITE : Z := 2.
Definition PROT_EXEC : Z := 4.

Definition prot_to_l2_flags (prot_flags : Z) : Z :=
  let attrs := Z.lor (Z.lor (Z.lor SMALL_PAGE SHAREABLE) NORMAL_WB_WA) NG in
  let attrs :=
    if negb (Z.land prot_flags PROT_WRITE =? 0) then Z.lor attrs AP_FULL
    else if negb (Z.land prot_flags PROT_READ =? 0) then Z.lor attrs AP_READ_ONLY
    else Z.lor attrs AP_KERNEL_ONLY in
  if negb (Z.land prot_flags PROT_WRITE =? 0) || (Z.land prot_flags PROT_EXEC =? 0)
  then Z.lor attrs XN else attrs.

Definition KERNEL_DEFAULT_PAGE : Z :=
  Z.lor (Z.lor (Z.lor (Z.lor SMALL_PAGE SHAREABLE) NORMAL_WB_WA) AP_KERNEL_ONLY) XN.

Definition l2_entry_is_user (entry : Z) : bool :=
  negb (Z.land entry SMALL_PAGE =? 0) && negb (Z.land entry NG =? 0).

Definition wx_page_attrs (va text_start etext erodata : Z) : Z :=
  if (text_start <=? va) && (va <? etext) then AP_KERNEL_RO
  else if (etext <=? va) && (va <? erodata) then Z.lor AP_KERNEL_RO XN
  else Z.lor AP_KERNEL_ONLY XN.

(** ** State *)

Definition L2_POOL_SIZE : Z := 64.

Record statics := mk_statics {
  KERNEL_L2 : Z;
  L2_TABLES : Z;
  USER_TABLES : Z;
}.

Record state := mk_state {
  mem : memory;
  L2_ALLOC : Z;
  ADDR_SPACE_ALLOC : Z;
}.

Definition set_mem (s : state) (m : memory) : state := mk_state m (L2_ALLOC s) (ADDR_SPACE_ALLOC s).
Definition set_l2_alloc (s : state) (mask : Z) : state := mk_state (mem s) mask (ADDR_SPACE_ALLOC s).
Definition set_as_alloc (s : state) (mask : Z) : state := mk_state (mem s) (L2_ALLOC s) mask.

(** [(l1 as *const u32).add(va >> 20)] and [(l2 as *const u32).add((va >> 12) & 0xFF)]. *)
Definition l1_entry_ptr (l1 va : Z) : Z := l1 + 4 * Z.shiftr va 20.
Definition l2_entry_ptr (l2 va : Z) : Z := l2 + 4 * Z.land (Z.shiftr va 12) 0xFF.

(** [val.trailing_zeros() >= 2]: bits 1:0 are clear. *)
Definition is_fault (d : Z) : bool := Z.land d 3 =? 0.
Definition is_table (d : Z) : bool := Z.land d 3 =? L1_PAGE_TABLE.
Definition l2_base (d : Z) : Z := Z.land d 0xFFFFFC00.

(** [(0..n).find(|i| mask & (1 << i) == 0)]. *)
Fixpoint find_clear (mask : Z) (ks : list Z) : option Z :=
  match ks with
  | [] => None
  | i :: ks => if Z.testbit mask i then find_clear mask ks else Some i
  end.

Section ops.
Context (st : statics).

Definition l2_table_addr (i : Z) : Z := L2_TABLES st + 1024 * i.
Definition user_table_addr (i : Z) : Z := USER_TABLES st + 16384 * i.

Definition alloc_l2_table (s : state) : option Z * state :=
  match find_clear (L2_ALLOC s) (seqZ 0 L2_POOL_SIZE) with
  | None => (None, s)
  | Some slot =>
      let s := set_l2_alloc s (Z.lor (L2_ALLOC s) (Z.shiftl 1 slot)) in
      (Some (l2_table_addr slot), set_mem s (zero_words (mem s) (l2_table_addr slot) 256))
  end.

(** The [position] of the table in the static pool, when the address is one of them. *)
Definition free_l2_table (phys_addr : Z) (s : state) : bool * state :=
  match list_find (fun i => l2_table_addr i = phys_addr) (seqZ 0 L2_POOL_SIZE) with
  | None => (false, s)
  | Some (_, i) => (true, set_l2_alloc s (Z.ldiff (L2_ALLOC s) (Z.shiftl 1 i)))
  end.

Definition map_page (l1_phys virt_addr phys_addr l2_attrs : Z) (s : state) : bool * state :=
  let p1 := l1_entry_ptr l1_phys virt_addr in
  let l1_val := load32 (mem s) p1 in
  let write_l2 l2_phys s :=
    let l2_desc := Z.lor (Z.land phys_addr 0xFFFFF000) l2_attrs in
    (true, set_mem s (store32 (mem s) (l2_entry_ptr l2_phys virt_addr) l2_desc)) in
  if is_table l1_val then write_l2 (l2_base l1_val) s
  else if is_fault l1_val then
    match alloc_l2_table s with
    | (None, s) => (false, s)
    | (Some new_l2, s) =>
        write_l2 new_l2 (set_mem s (store32 (mem s) p1 (Z.lor new_l2 L1_PAGE_TABLE)))
    end
  else (false, s).

(** The loop that fills an L2 table with the kernel identity mapping of a megabyte. *)
Fixpoint fill_identity (m : memory) (l2 base : Z) (ks : list Z) : memory :=
  match ks with
  | [] => m
  | i :: ks =>
      fill_identity
        (store32 m (l2 + 4 * i) (Z.lor (wrap32 (base + Z.shiftl i 12)) KERNEL_DEFAULT_PAGE))
        l2 base ks
  end.

Definition shatter_section (l1_phys virt_addr : Z) (s : state) : bool * state :=
  let p1 := l1_entry_ptr l1_phys virt_addr in
  let l1_val := load32 (mem s) p1 in
  if is_table l1_val then (true, s)
  else if negb (Z.land l1_val 3 =? SECTION) then (false, s)
  else match alloc_l2_table s with
  | (None, s) => (false, s)
  | (Some l2_phys, s) =>
      let base := Z.land l1_val 0xFFF00000 in
      let m := fill_identity (mem s) l2_phys base (seqZ 0 256) in
      (true, set_mem s (store32 m p1 (Z.lor l2_phys L1_PAGE_TABLE)))
  end.

Definition ensure_page_mappable (l1_phys virt_addr : Z) (s : state) : bool * state :=
  let l1_val := load32 (mem s) (l1_entry_ptr l1_phys virt_addr) in
  if negb (Z.land l1_val 3 =? SECTION) then (true, s) else shatter_section l1_phys virt_addr s.

Definition reset_shattered_section (l1_phys virt_addr : Z) (s : state) : bool * state :=
  let l1_val := load32 (mem s) (l1_entry_ptr l1_phys virt_addr) in
  if negb (is_table l1_val) then (false, s) else
  let base := Z.land virt_addr 0xFFF00000 in
  (true, set_mem s (fill_identity (mem s) (l2_base l1_val) base (seqZ 0 256))).

Definition read_l2_entry (m : memory) (l1_phys virt_addr : Z) : option Z :=
  let l1_val := load32 m (l1_entry_ptr l1_phys virt_addr) in
  if negb (is_table l1_val) then None else
  Some (load32 m (l2_entry_ptr (l2_base l1_val) virt_addr)).

Definition read_l2_phys (m : memory) (l1_phys virt_addr : Z) : option Z :=
  match read_l2_entry m l1_phys virt_addr with
  | None => None
  | Some l2_val => if is_fault l2_val then None else Some (Z.land l2_val 0xFFFFF000)
  end.

Definition unmap_page (l1_phys virt_addr : Z) (s : state) : state :=
  let p1 := l1_entry_ptr l1_phys virt_addr in
  let l1_val := load32 (mem s) p1 in
  if is_table l1_val then
    let l2_phys := l2_base l1_val in
    let m := store32 (mem s) (l2_entry_ptr l2_phys virt_addr) 0 in
    if forallb (fun i => load32 m (l2_phys + 4 * i) =? 0) (seqZ 0 256) then
      (free_l2_table l2_phys (set_mem s (store32 m p1 0))).2
    else set_mem s m
  else s.

Definition update_page_prot (l1_phys virt_addr l2_attrs : Z) (s : state) : bool * state :=
  let l1_val := load32 (mem s) (l1_entry_ptr l1_phys virt_addr) in
  if negb (is_table l1_val) then (false, s) else
  let p2 := l2_entry_ptr (l2_base l1_val) virt_addr in
  let old := load32 (mem s) p2 in
  if is_fault old then (false, s) else
  (true, set_mem s (store32 (mem s) p2 (Z.lor (Z.land old 0xFFFFF000) l2_attrs))).

(** The pages [for_each_user_page] visits, in its order. *)
Definition user_pages_of (m : memory) (l1_phys l1_idx : Z) : list (Z * Z * Z) :=
  let l1_val := load32 m (l1_phys + 4 * l1_idx) in
  if negb (is_table l1_val) then [] else
  omap (fun l2_idx =>
    let entry := load32 m (l2_base l1_val + 4 * l2_idx) in
    if l2_entry_is_user entry then
      Some (Z.lor (Z.shiftl l1_idx 20) (Z.shiftl l2_idx 12),
            Z.land entry 0xFFFFF000, Z.land entry 0xFFF)
    else None) (seqZ 0 256).

Definition user_pages (m : memory) (l1_phys : Z) : list (Z * Z * Z) :=
  l1_idx ← seqZ 0 4096; user_pages_of m l1_phys l1_idx.

Fixpoint visit {S} (f : Z -> Z -> Z -> S -> bool * S) (ps : list (Z * Z * Z)) (a : S) : bool * S :=
  match ps with
  | [] => (true, a)
  | (va, phys, attrs) :: ps =>
      match f va phys attrs a with
      | (true, a) => visit f ps a
      | (false, a) => (false, a)
      end
  end.

(** The walk reads the tables as it goes; the callback of every caller leaves
    the walked tables alone, so the pages are those of the memory at the start. *)
Definition for_each_user_page {S} (m : memory) (l1_phys : Z) (f : Z -> Z -> Z -> S -> bool * S)
    (a : S) : bool * S :=
  visit f (user_pages m l1_phys) a.

Definition alloc_addr_space (s : state) : option Z * state :=
  match find_clear (ADDR_SPACE_ALLOC s) (seqZ 0 16) with
  | None => (None, s)
  | Some slot =>
      let s := set_as_alloc s (Z.lor (ADDR_SPACE_ALLOC s) (Z.shiftl 1 slot)) in
      (Some (user_table_addr slot), set_mem s (zero_words (mem s) (user_table_addr slot) 4096))
  end.

(** The loop of [free_addr_space] that returns every L2 table of the address space. *)
Fixpoint free_l2_tables (l1_phys : Z) (ks : list Z) (s : state) : state :=
  match ks with
  | [] => s
  | i :: ks =>
      let entry := load32 (mem s) (l1_phys + 4 * i) in
      let s := if is_table entry then (free_l2_table (l2_base entry) s).2 else s in
      free_l2_tables l1_phys ks s
  end.

Definition free_addr_space (phys_addr : Z) (s : state) : bool * state :=
  match list_find (fun i => user_table_addr i = phys_addr) (seqZ 0 16) with
  | None => (false, s)
  | Some (_, i) =>
      let s := free_l2_tables phys_addr (seqZ 0 4096) s in
      (true, set_as_alloc s (Z.ldiff (ADDR_SPACE_ALLOC s) (Z.shiftl 1 i)))
  end.

Fixpoint clone_addr_space_from (src dst : Z) (ks : list Z) (m : memory) : memory :=
  match ks with
  | [] => m
  | i :: ks => clone_addr_space_from src dst ks (store32 m (dst + 4 * i) (load32 m (src + 4 * i)))
  end.

Definition clone_addr_space (src_phys dst_phys : Z) (s : state) : state :=
  set_mem s (clone_addr_space_from src_phys dst_phys (seqZ 0 4096) (mem s)).
End ops.

(** ** What the hardware walk sees *)

Inductive mapping :=
  | Fault
  | SectionMap (desc : Z)
  | PageMap (desc : Z).

(** The translation-table walk of the architecture for one virtual address. *)
Definition walk (m : memory) (l1 va : Z) : mapping :=
  let d := load32 m (l1_entry_ptr l1 va) in
  if is_table d then
    let e := load32 m (l2_entry_ptr (l2_base d) va) in
    if is_fault e then Fault else PageMap e
  else if is_fault d then Fault else SectionMap d.

(** The 4 KB page and the megabyte of an address. *)
Definition vpage (va : Z) : Z := va / 2 ^ 12.
Definition vmb (va : Z) : Z := va / 2 ^ 20.
Definition vslot (va : Z) : Z := va / 2 ^ 12 mod 256.

(** The megabytes of the kernel image, mapped by the shared [KERNEL_L2]. *)
Definition kernel_mb (k : Z) : Prop := 1024 <= k < 1026.

Record statics_ok (st : statics) : Prop := {
  st_kernel : 0 <= KERNEL_L2 st /\ KERNEL_L2 st + 2048 <= 2 ^ 32 /\ KERNEL_L2 st mod 1024 = 0;
  st_l2 : 0 <= L2_TABLES st /\ L2_TABLES st + 65536 <= 2 ^ 32 /\ L2_TABLES st mod 1024 = 0;
  st_user : 0 <= USER_TABLES st /\ USER_TABLES st + 262144 <= 2 ^ 32 /\ USER_TABLES st mod 16384 = 0;
  st_disj1 : L2_TABLES st + 65536 <= USER_TABLES st \/ USER_TABLES st + 262144 <= L2_TABLES st;
  st_disj2 : L2_TABLES st + 65536 <= KERNEL_L2 st \/ KERNEL_L2 st + 2048 <= L2_TABLES st;
  st_disj3 : KERNEL_L2 st + 2048 <= USER_TABLES st \/ USER_TABLES st + 262144 <= KERNEL_L2 st;
}.

(** Address space [i] is allocated; L2 slot [j] is allocated. *)
Definition live (s : state) (i : Z) : Prop := 0 <= i < 16 /\ Z.testbit (ADDR_SPACE_ALLOC s) i = true.
Definition used (s : state) (j : Z) : Prop := 0 <= j < 64 /\ Z.testbit (L2_ALLOC s) j = true.

#[local] Ltac Zify.zify_post_hook ::= Z.to_euclidean_division_equations.

Lemma vpage_split va : 0 <= va -> vpage va = vmb va * 256 + vslot va.
Proof. intros. unfold vpage, vmb, vslot. lia. Qed.

Lemma vmb_range va : is_u32 va -> 0 <= vmb va < 4096.
Proof. unfold is_u32, vmb. lia. Qed.

Lemma vslot_range va : 0 <= vslot va < 256.
Proof. unfold vslot. lia. Qed.

Lemma l1_entry_ptr_eq l1 va : l1_entry_ptr l1 va = l1 + 4 * vmb va.
Proof. unfold l1_entry_ptr, vmb. by rewrite Z.shiftr_div_pow2. Qed.

Lemma l2_entry_ptr_eq l2 va : l2_entry_ptr l2 va = l2 + 4 * vslot va.
Proof.
  unfold l2_entry_ptr, vslot. change 0xFF with (Z.ones 8).
  by rewrite Z.land_ones, Z.shiftr_div_pow2 by lia.
Qed.

(** A table descriptor built by the source reads back as the table's address. *)
Lemma table_desc a :
  is_u32 a -> a mod 1024 = 0 ->
  is_u32 (Z.lor a 1) /\ is_table (Z.lor a 1) = true /\ l2_base (Z.lor a 1) = a.
Proof.
  intros Ha Hm. assert (Z.lor a 1 = a + 1) as ->.
  { symmetry. apply Z.add_nocarry_lor. apply Z.bits_inj'. intros n Hn.
    rewrite Z.land_spec, Z.testbit_0_l. destruct (decide (n = 0)) as [->|].
    - replace a with (2 * (a / 2)) by lia. by rewrite Z.testbit_even_0.
    - change 1 with (2 ^ 0). rewrite Z.pow2_bits_false by lia. apply andb_false_r. }
  unfold is_u32 in *. split; [lia|]. unfold is_table, l2_base. split.
  - change 3 with (Z.ones 2). rewrite Z.land_ones by lia. apply Z.eqb_eq. unfold L1_PAGE_TABLE. lia.
  - change 0xFFFFFC00 with (not32 (2 ^ 10 - 1)). rewrite land_not_mask by (unfold is_u32; lia). lia.
Qed.

Lemma find_clear_spec mask n :
  0 <= n ->
  match find_clear mask (seqZ 0 n) with
  | Some i => 0 <= i < n /\ Z.testbit mask i = false
  | None => forall i, 0 <= i < n -> Z.testbit mask i = true
  end.
Proof.
  intros Hn. assert (forall ks, match find_clear mask ks with
    | Some i => i ∈ ks /\ Z.testbit mask i = false
    | None => forall i, i ∈ ks -> Z.testbit mask i = true end) as H.
  { intros ks. induction ks as [|k ks IH]; cbn; [intros i Hi; by apply not_elem_of_nil in Hi|].
    destruct (Z.testbit mask k) eqn:E; [|split; [left|done]].
    destruct (find_clear mask ks).
    - destruct IH. split; [by right|done].
    - intros i [->|]%elem_of_cons; auto. }
  specialize (H (seqZ 0 n)). destruct (find_clear _ _).
  - rewrite elem_of_seqZ in H. split; [lia|apply H].
  - intros i Hi. apply H, elem_of_seqZ. lia.
Qed.

Lemma mask_set mask k i :
  0 <= i -> 0 <= k -> Z.testbit (Z.lor mask (Z.shiftl 1 k)) i = (bool_decide (i = k) || Z.testbit mask i)%bool.
Proof.
  intros. rewrite Z.lor_spec, Z.shiftl_1_l, Z.pow2_bits_eqb by lia.
  rewrite orb_comm. f_equal. case_bool_decide; [subst; apply Z.eqb_refl|apply Z.eqb_neq; lia].
Qed.

Lemma mask_clear mask k i :
  0 <= i -> 0 <= k ->
  Z.testbit (Z.ldiff mask (Z.shiftl 1 k)) i = (negb (bool_decide (i = k)) && Z.testbit mask i)%bool.
Proof.
  intros. rewrite Z.ldiff_spec, Z.shiftl_1_l, Z.pow2_bits_eqb by lia.
  rewrite andb_comm. f_equal. case_bool_decide; [subst; by rewrite Z.eqb_refl|].
  by rewrite (proj2 (Z.eqb_neq k i)) by lia.
Qed.

(** Word accesses at word addresses. *)
Lemma load_store_word m a v b :
  a mod 4 = 0 -> b mod 4 = 0 -> is_u32 v ->
  load32 (store32 m a v) b = if decide (a = b) then v else load32 m b.
Proof.
  intros. case_decide; [subst; by apply load32_store32|]. apply load32_store32_ne. lia.
Qed.

Lemma load_zero_words m a n b :
  a mod 4 = 0 -> b mod 4 = 0 ->
  load32 (zero_words m a n) b = if decide (a <= b < a + 4 * Z.of_nat n) then 0 else load32 m b.
Proof.
  intros. unfold load32. rewrite !load8_zero_words. repeat case_decide; lia || done.
Qed.

(** ** Ownership of the L2 tables *)

Section spaces.
Context (st : statics) (Hst : statics_ok st).

(** The L1 descriptor of megabyte [k] in address space [i]. *)
Definition entry (m : memory) (i k : Z) : Z := load32 m (user_table_addr st i + 4 * k).

Definition walk_entry (m : memory) (d q : Z) : mapping :=
  if is_table d then
    let e := load32 m (l2_base d + 4 * q) in if is_fault e then Fault else PageMap e
  else if is_fault d then Fault else SectionMap d.

(** Every L2 table an address space uses is an allocated pool slot, or the
    shared kernel table in the kernel's megabytes, and a pool slot belongs to
    one megabyte of one address space. *)
Record wf (s : state) : Prop := {
  wf_table : forall i k, live s i -> 0 <= k < 4096 -> is_table (entry (mem s) i k) = true ->
    (exists j, used s j /\ l2_base (entry (mem s) i k) = l2_table_addr st j) \/
    (kernel_mb k /\ l2_base (entry (mem s) i k) = KERNEL_L2 st + 1024 * (k - 1024));
  wf_inj : forall i k i' k' j, live s i -> live s i' -> 0 <= k < 4096 -> 0 <= k' < 4096 -> 0 <= j < 64 ->
    is_table (entry (mem s) i k) = true -> l2_base (entry (mem s) i k) = l2_table_addr st j ->
    is_table (entry (mem s) i' k') = true -> l2_base (entry (mem s) i' k') = l2_table_addr st j ->
    i = i' /\ k = k';
}.

Lemma walk_eq m i va : walk m (user_table_addr st i) va = walk_entry m (entry m i (vmb va)) (vslot va).
Proof. unfold walk, walk_entry, entry. by rewrite l1_entry_ptr_eq, l2_entry_ptr_eq. Qed.

Lemma walk_entry_ext m m' d q :
  (is_table d = true -> load32 m' (l2_base d + 4 * q) = load32 m (l2_base d + 4 * q)) ->
  walk_entry m' d q = walk_entry m d q.
Proof. intros H. unfold walk_entry. destruct (is_table d); [by rewrite H|done]. Qed.

Lemma l2_addr_bounds j : 0 <= j < 64 ->
  l2_table_addr st j mod 1024 = 0 /\ L2_TABLES st <= l2_table_addr st j /\
  l2_table_addr st j + 1024 <= L2_TABLES st + 65536.
Proof. intros. destruct Hst as [_ Hl _ _ _ _]. unfold l2_table_addr. lia. Qed.

Lemma user_addr_bounds i k : 0 <= i < 16 -> 0 <= k < 4096 ->
  let a := user_table_addr st i + 4 * k in
  a mod 4 = 0 /\ USER_TABLES st <= a /\ a + 4 <= USER_TABLES st + 262144.
Proof. intros. destruct Hst as [_ _ Hu _ _ _]. unfold a, user_table_addr. lia. Qed.

(** Where the L2 descriptor of a live page is, relative to a pool slot [j]. *)
Lemma l2_word_in_slot s i k q j :
  wf s -> live s i -> 0 <= k < 4096 -> 0 <= q < 256 -> 0 <= j < 64 ->
  is_table (entry (mem s) i k) = true ->
  let a := l2_base (entry (mem s) i k) + 4 * q in
  a mod 4 = 0 /\
  (l2_table_addr st j <= a < l2_table_addr st j + 1024 ->
   l2_base (entry (mem s) i k) = l2_table_addr st j /\ used s j).
Proof.
  intros Hwf Hi Hk Hq Hj Ht a. pose proof (l2_addr_bounds j Hj).
  destruct (wf_table _ Hwf i k Hi Hk Ht) as [(j' & Hu & Hb)|[[Hk1 Hk2] Hb]]; unfold a; rewrite Hb.
  - destruct (l2_addr_bounds j' (proj1 Hu)) as (? & ?). split; [lia|]. intros Hin.
    assert (j' = j) as -> by (unfold l2_table_addr in *; lia). done.
  - destruct Hst as [Hkl _ _ _ Hd _]. split; [lia|]. intros. lia.
Qed.

(** A store outside the L1 tables keeps every L1 descriptor. *)
Lemma entry_store m a v i k :
  0 <= i < 16 -> 0 <= k < 4096 -> a mod 4 = 0 -> is_u32 v ->
  ~ (USER_TABLES st <= a < USER_TABLES st + 262144) ->
  entry (store32 m a v) i k = entry m i k.
Proof.
  intros Hi Hk Ha Hv Hout. unfold entry. pose proof (user_addr_bounds i k Hi Hk) as (? & ? & ?).
  rewrite load_store_word by done. rewrite decide_False; [done|]. intros ->. apply Hout. lia.
Qed.

Lemma wf_same_entries s s' :
  wf s -> (forall i, live s' i -> live s i) -> (forall j, used s j -> used s' j) ->
  (forall i k, live s' i -> 0 <= k < 4096 -> entry (mem s') i k = entry (mem s) i k) -> wf s'.
Proof.
  intros [Ht Hinj] Hl Hu He. constructor.
  - intros i k Hi Hk. rewrite He by done. intros Htb.
    destruct (Ht i k (Hl _ Hi) Hk Htb) as [(j & ? & ?)|]; [left; exists j; auto|by right].
  - intros i k i' k' j Hi Hi' Hk Hk' Hj. rewrite !He by done. apply Hinj; auto.
Qed.

(** Writing the L2 descriptor of one page of one address space. *)
Section store_l2.
Context (s : state) (i va v : Z) (Hwf : wf s) (Hi : live s i) (Hva : is_u32 va) (Hv : is_u32 v).
Context (Hnk : ~ kernel_mb (vmb va)) (Ht : is_table (entry (mem s) i (vmb va)) = true).

Let d := entry (mem s) i (vmb va).
Let m' := store32 (mem s) (l2_base d + 4 * vslot va) v.

Lemma store_l2_owner : exists j, used s j /\ l2_base d = l2_table_addr st j.
Proof using Hwf Hi Hva Hnk Ht.
  destruct (wf_table _ Hwf i (vmb va) Hi (vmb_range _ Hva) Ht) as [?|[? _]]; [done|by destruct Hnk].
Qed.

Lemma store_l2_entry i' k : 0 <= i' < 16 -> 0 <= k < 4096 -> entry m' i' k = entry (mem s) i' k.
Proof using Hst Hwf Hi Hva Hv Hnk Ht.
  intros. destruct store_l2_owner as (j & Hu & Hb). pose proof (l2_addr_bounds j (proj1 Hu)).
  pose proof (vslot_range va). destruct Hst as [_ _ _ Hd _ _].
  unfold m'. rewrite Hb. apply entry_store; try done; lia.
Qed.

Lemma store_l2_wf : wf (set_mem s m').
Proof using Hst Hwf Hi Hva Hv Hnk Ht.
  apply (wf_same_entries s); try done. intros i' k [Hi' _] Hk. by apply store_l2_entry.
Qed.

Lemma store_l2_walk i' va' :
  live s i' -> is_u32 va' ->
  walk m' (user_table_addr st i') va' =
    if decide (i' = i /\ vpage va' = vpage va)
    then (if is_fault v then Fault else PageMap v)
    else walk (mem s) (user_table_addr st i') va'.
Proof using Hst Hwf Hi Hva Hv Hnk Ht.
  intros Hi' Hva'. pose proof (vmb_range _ Hva'). pose proof (vslot_range va').
  pose proof (vslot_range va). destruct store_l2_owner as (j & Hu & Hb).
  pose proof (l2_addr_bounds j (proj1 Hu)) as (? & ? & ?).
  rewrite !walk_eq, store_l2_entry by (done || apply Hi').
  assert ((l2_base d + 4 * vslot va) mod 4 = 0) as Hal by lia.
  case_decide as Hcase.
  - destruct Hcase as [-> Hp]. assert (vmb va' = vmb va /\ vslot va' = vslot va) as [-> ->].
    { unfold is_u32 in *. rewrite !vpage_split in Hp by lia. lia. }
    unfold walk_entry. rewrite Ht. unfold m', d. by rewrite load32_store32.
  - apply walk_entry_ext. intros Ht'. unfold m'.
    destruct (l2_word_in_slot s i' (vmb va') (vslot va') j) as [Hal' Hslot]; try done; [apply Hu|].
    rewrite load_store_word by done. rewrite decide_False; [done|]. intros He.
    destruct Hslot as [Hb' _]; [rewrite <- He; lia|].
    destruct (wf_inj _ Hwf i (vmb va) i' (vmb va') j) as [-> Hk]; try done; [by apply vmb_range|apply Hu|].
    apply Hcase. split; [done|]. unfold is_u32 in *. rewrite !vpage_split by lia. rewrite Hb', <- Hb in He. lia.
Qed.
End store_l2.

(** Giving the fresh slot [j] to megabyte [k] of address space [i]. *)
Section install.
Context (s : state) (i k j : Z) (m1 : memory) (Hwf : wf s) (Hi : live s i) (Hk : 0 <= k < 4096).
Context (Hold : is_table (entry (mem s) i k) = false) (Hj : 0 <= j < 64) (Hfree : ~ used s j).
Context (Hm1 : forall a, a mod 4 = 0 ->
  ~ (l2_table_addr st j <= a < l2_table_addr st j + 1024) -> load32 m1 a = load32 (mem s) a).

Let m' := store32 m1 (user_table_addr st i + 4 * k) (Z.lor (l2_table_addr st j) L1_PAGE_TABLE).
Let s' := mk_state m' (Z.lor (L2_ALLOC s) (Z.shiftl 1 j)) (ADDR_SPACE_ALLOC s).

Lemma install_desc :
  is_u32 (Z.lor (l2_table_addr st j) L1_PAGE_TABLE) /\
  is_table (Z.lor (l2_table_addr st j) L1_PAGE_TABLE) = true /\
  l2_base (Z.lor (l2_table_addr st j) L1_PAGE_TABLE) = l2_table_addr st j.
Proof using All.
  pose proof (l2_addr_bounds j Hj) as (? & ? & ?). destruct Hst as [_ Hl _ _ _ _].
  apply table_desc; [unfold is_u32; lia|done].
Qed.

Lemma install_entry i' k' :
  0 <= i' < 16 -> 0 <= k' < 4096 ->
  entry m' i' k' =
    if decide (i' = i /\ k' = k) then Z.lor (l2_table_addr st j) L1_PAGE_TABLE
    else entry (mem s) i' k'.
Proof using All.
  intros Hi' Hk'. unfold entry, m'. pose proof (user_addr_bounds i k (proj1 Hi) Hk) as (? & ? & ?).
  pose proof (user_addr_bounds i' k' Hi' Hk') as (? & ? & ?). pose proof (l2_addr_bounds j Hj).
  rewrite load_store_word by (done || apply install_desc).
  destruct Hst as [_ _ _ Hd _ _]. case_decide as He; case_decide as Hc; [done| | |apply Hm1; lia].
  - exfalso. apply Hc. unfold user_table_addr in He. lia.
  - destruct Hc as [-> ->]. done.
Qed.

Lemma install_used j' : 0 <= j' < 64 -> used s' j' <-> j' = j \/ used s j'.
Proof using All.
  intros Hj'. unfold used, s'. cbn [L2_ALLOC]. rewrite mask_set by lia. case_bool_decide; naive_solver.
Qed.

Lemma install_wf : wf s'.
Proof using All.
  destruct install_desc as (_ & Ht & Hb). constructor.
  - intros i' k' Hi' Hk'. cbn [s' mem]. rewrite install_entry by (done || apply Hi').
    case_decide as Hc; intros Ht'.
    + left. exists j. split; [|by rewrite Hb]. apply install_used; [done|by left].
    + destruct (wf_table _ Hwf i' k' Hi' Hk' Ht') as [(j' & Hu & ?)|?]; [left|by right].
      exists j'. split; [|done]. apply install_used; [apply Hu|by right].
  - assert (forall i' k', live s i' -> 0 <= k' < 4096 ->
      is_table (entry (mem s) i' k') = true -> l2_base (entry (mem s) i' k') <> l2_table_addr st j) as Hno.
    { intros i' k' Hi' Hk' Ht' Hb'.
      destruct (l2_word_in_slot s i' k' 0 j) as [_ Hs]; try done.
      apply Hfree. apply Hs. rewrite Hb'. lia. }
    intros i1 k1 i2 k2 j' Hi1 Hi2 Hk1 Hk2 Hj'. cbn [s' mem].
    rewrite !install_entry by (done || apply Hi1 || apply Hi2).
    case_decide as H1; case_decide as H2.
    + naive_solver.
    + intros _ Hj1 Ht2 Hb2. exfalso. apply (Hno i2 k2 Hi2 Hk2 Ht2). congruence.
    + intros Ht1 Hb1 _ Hj2. exfalso. apply (Hno i1 k1 Hi1 Hk1 Ht1). congruence.
    + by apply (wf_inj _ Hwf).
Qed.

Lemma install_walk i' va :
  live s i' -> is_u32 va ->
  walk m' (user_table_addr st i') va =
    if decide (i' = i /\ vmb va = k)
    then (let e := load32 m1 (l2_table_addr st j + 4 * vslot va) in if is_fault e then Fault else PageMap e)
    else walk (mem s) (user_table_addr st i') va.
Proof using All.
  intros Hi' Hva. pose proof (vmb_range _ Hva). pose proof (vslot_range va).
  pose proof (user_addr_bounds i k (proj1 Hi) Hk) as (? & ? & ?).
  destruct install_desc as (Hd & Ht & Hb). pose proof (l2_addr_bounds j Hj) as (? & ? & ?).
  destruct Hst as [_ _ _ Hdj _ Hdk].
  rewrite !walk_eq, install_entry by (done || apply Hi'). case_decide as Hc.
  - unfold walk_entry. rewrite Ht, Hb. unfold m'. rewrite load_store_word by (done || lia).
    by rewrite decide_False by lia.
  - apply walk_entry_ext. intros Ht'.
    destruct (l2_word_in_slot s i' (vmb va) (vslot va) j) as [Hal Hs]; try done.
    unfold m'. rewrite load_store_word by done. rewrite decide_False.
    + apply Hm1; [done|]. intros Hin. apply Hfree. by apply Hs.
    + destruct (wf_table _ Hwf i' (vmb va) Hi' ltac:(done) Ht') as [(j' & Hu & ->)|[Hkm ->]].
      * pose proof (l2_addr_bounds j' (proj1 Hu)). lia.
      * unfold kernel_mb in Hkm. lia.
Qed.
End install.

(** ** The operations *)

(** No address space sees another translation, except page [p] of space [i]. *)
Definition unchanged_except (s s' : state) (i p : Z) : Prop :=
  forall i' va, live s i' -> is_u32 va -> (i' <> i \/ vpage va <> p) ->
  walk (mem s') (user_table_addr st i') va = walk (mem s) (user_table_addr st i') va.

Lemma alloc_l2_table_ok s :
  match alloc_l2_table st s with
  | (None, s') => s' = s /\ forall j, 0 <= j < 64 -> used s j
  | (Some a, s') => exists j, 0 <= j < 64 /\ ~ used s j /\ a = l2_table_addr st j /\
      s' = mk_state (zero_words (mem s) a 256) (Z.lor (L2_ALLOC s) (Z.shiftl 1 j)) (ADDR_SPACE_ALLOC s)
  end.
Proof using Type.
  unfold alloc_l2_table. pose proof (find_clear_spec (L2_ALLOC s) L2_POOL_SIZE ltac:(done)) as H.
  destruct (find_clear _ _) as [j|].
  - destruct H as [Hj Hb]. exists j. split; [done|]. split; [intros [_ Hu]; congruence|done].
  - split; [done|]. intros j Hj. split; [done|by apply H].
Qed.

Lemma zeroed_slot s j a :
  0 <= j < 64 -> a mod 4 = 0 ->
  load32 (zero_words (mem s) (l2_table_addr st j) 256) a =
    if decide (l2_table_addr st j <= a < l2_table_addr st j + 1024) then 0 else load32 (mem s) a.
Proof using Hst.
  intros Hj Ha. pose proof (l2_addr_bounds j Hj) as (? & ? & ?).
  rewrite load_zero_words by (done || lia). done.
Qed.

Lemma page_desc_valid phys attrs :
  is_u32 phys -> is_u32 attrs -> is_fault attrs = false ->
  is_u32 (Z.lor (Z.land phys 0xFFFFF000) attrs) /\
  is_fault (Z.lor (Z.land phys 0xFFFFF000) attrs) = false.
Proof using Type.
  intros Hp Ha Hf. assert (is_u32 (Z.lor (Z.land phys 0xFFFFF000) attrs)) as Hu.
  { apply u32_of_testbit.
    - apply Z.lor_nonneg. split; [apply Z.land_nonneg; left; apply Hp|apply Ha].
    - intros b Hb. by rewrite Z.lor_spec, Z.land_spec, !u32_testbit_high by done. }
  split; [done|]. unfold is_fault in *. apply Z.eqb_neq in Hf. apply Z.eqb_neq. intros H0. apply Hf.
  rewrite Z.land_lor_distr_l, <- Z.land_assoc in H0. change (Z.land 0xFFFFF000 3) with 0 in H0.
  by rewrite Z.land_0_r in H0.
Qed.

Lemma walk_fault_entry m i va :
  is_table (entry m i (vmb va)) = false ->
  walk m (user_table_addr st i) va =
    if is_fault (entry m i (vmb va)) then Fault else SectionMap (entry m i (vmb va)).
Proof using Type. intros H. rewrite walk_eq. unfold walk_entry. by rewrite H. Qed.

Lemma l1_val_eq m i va : load32 m (l1_entry_ptr (user_table_addr st i) va) = entry m i (vmb va).
Proof using Type. unfold entry. by rewrite l1_entry_ptr_eq. Qed.

(** Allocating a table for an empty megabyte and writing one descriptor of it. *)
Lemma map_fresh s i va j v :
  wf s -> live s i -> is_u32 va -> ~ kernel_mb (vmb va) -> is_u32 v -> is_fault v = false ->
  0 <= j < 64 -> ~ used s j -> is_fault (entry (mem s) i (vmb va)) = true ->
  let m1 := zero_words (mem s) (l2_table_addr st j) 256 in
  let m2 := store32 m1 (l1_entry_ptr (user_table_addr st i) va) (Z.lor (l2_table_addr st j) L1_PAGE_TABLE) in
  let m3 := store32 m2 (l2_entry_ptr (l2_table_addr st j) va) v in
  let s' := mk_state m3 (Z.lor (L2_ALLOC s) (Z.shiftl 1 j)) (ADDR_SPACE_ALLOC s) in
  wf s' /\ unchanged_except s s' i (vpage va) /\
  walk (mem s') (user_table_addr st i) va = PageMap v.
Proof using Hst.
  intros Hwf Hi Hva Hnk Hv Hfv Hj Hfree Hf m1 m2 m3 s'.
  assert (is_table (entry (mem s) i (vmb va)) = false) as Hnt.
  { unfold is_fault, is_table in *. apply Z.eqb_eq in Hf. by rewrite Hf. }
  assert (forall a, a mod 4 = 0 -> ~ (l2_table_addr st j <= a < l2_table_addr st j + 1024) ->
      load32 m1 a = load32 (mem s) a) as Hm1.
  { intros a Ha Hin. unfold m1. rewrite zeroed_slot by done. by rewrite decide_False. }
  pose proof (vmb_range _ Hva) as Hk.
  pose proof (install_wf s i (vmb va) j m1 Hwf Hi Hk Hnt Hj Hfree Hm1) as Hwf2.
  pose proof (install_walk s i (vmb va) j m1 Hwf Hi Hk Hnt Hj Hfree Hm1) as Hw2.
  pose proof (install_entry s i (vmb va) j m1 Hwf Hi Hk Hnt Hj Hfree Hm1 i (vmb va) (proj1 Hi) Hk) as He2.
  rewrite decide_True in He2 by done. rewrite <- l1_entry_ptr_eq in Hwf2, Hw2, He2. fold m2 in Hwf2, Hw2, He2.
  destruct (install_desc s i (vmb va) j m1 Hwf Hi Hk Hnt Hj Hfree Hm1) as (_ & Ht & Hb).
  rewrite <- He2 in Ht, Hb.
  set (s2 := mk_state m2 (Z.lor (L2_ALLOC s) (Z.shiftl 1 j)) (ADDR_SPACE_ALLOC s)) in *.
  pose proof (store_l2_wf s2 i va v Hwf2 Hi Hva Hv Hnk Ht) as Hwf3.
  pose proof (store_l2_walk s2 i va v Hwf2 Hi Hva Hv Hnk Ht) as Hw3.
  cbn [s2 mem] in Hwf3, Hw3. rewrite Hb, <- l2_entry_ptr_eq in Hwf3, Hw3. fold m3 in Hwf3, Hw3.
  split_and!; [exact Hwf3| |cbn [s' mem]; rewrite Hw3, decide_True, Hfv by done; done].
  intros i' va' Hi' Hva' Hne. cbn [s' mem]. rewrite Hw3 by done.
  rewrite decide_False by (intros [-> Hp]; destruct Hne; done). rewrite Hw2 by done.
  case_decide as Hc; [|done]. destruct Hc as [-> Hmb].
  pose proof (vslot_range va'). pose proof (l2_addr_bounds j Hj) as (? & ? & ?).
  unfold m1. rewrite zeroed_slot, decide_True by lia. cbn.
  rewrite walk_fault_entry by (by rewrite Hmb). by rewrite Hmb, Hf.
Qed.
(** Clearing the L1 descriptor of megabyte [k] and returning its slot [j]. *)
Section release.
Context (s : state) (i k j : Z) (Hwf : wf s) (Hi : live s i) (Hk : 0 <= k < 4096) (Hj : 0 <= j < 64).
Context (Ht : is_table (entry (mem s) i k) = true) (Hb : l2_base (entry (mem s) i k) = l2_table_addr st j).

Let m' := store32 (mem s) (user_table_addr st i + 4 * k) 0.
Let s' := mk_state m' (Z.ldiff (L2_ALLOC s) (Z.shiftl 1 j)) (ADDR_SPACE_ALLOC s).

Lemma release_entry i' k' :
  0 <= i' < 16 -> 0 <= k' < 4096 ->
  entry m' i' k' = if decide (i' = i /\ k' = k) then 0 else entry (mem s) i' k'.
Proof using All.
  intros Hi' Hk'. unfold entry, m'. pose proof (user_addr_bounds i k (proj1 Hi) Hk) as (? & ? & ?).
  pose proof (user_addr_bounds i' k' Hi' Hk') as (? & ? & ?).
  rewrite load_store_word by done. case_decide as He; case_decide as Hc; try done.
  - exfalso. apply Hc. unfold user_table_addr in He. lia.
  - destruct Hc as [-> ->]. done.
Qed.

Lemma release_used j' : 0 <= j' < 64 -> used s' j' <-> j' <> j /\ used s j'.
Proof using All.
  intros Hj'. unfold used, s'. cbn [L2_ALLOC]. rewrite mask_clear by lia. case_bool_decide; naive_solver.
Qed.

Lemma release_wf : wf s'.
Proof using All.
  constructor.
  - intros i' k' Hi' Hk'. cbn [s' mem]. rewrite release_entry by (done || apply Hi').
    case_decide as Hc; intros Ht'; [done|].
    destruct (wf_table _ Hwf i' k' Hi' Hk' Ht') as [(j' & Hu & Hb')|?]; [left|by right].
    exists j'. split; [|done]. apply release_used; [apply Hu|]. split; [|done]. intros ->. apply Hc.
    destruct (wf_inj _ Hwf i k i' k' j) as [-> ->]; done.
  - intros i1 k1 i2 k2 j' Hi1 Hi2 Hk1 Hk2 Hj'. cbn [s' mem].
    rewrite !release_entry by (done || apply Hi1 || apply Hi2).
    case_decide; case_decide; try done. by apply (wf_inj _ Hwf).
Qed.

Lemma release_walk i' va :
  live s i' -> is_u32 va ->
  walk m' (user_table_addr st i') va =
    if decide (i' = i /\ vmb va = k) then Fault else walk (mem s) (user_table_addr st i') va.
Proof using All.
  intros Hi' Hva. pose proof (vmb_range _ Hva). pose proof (vslot_range va).
  pose proof (user_addr_bounds i k (proj1 Hi) Hk) as (? & ? & ?). destruct Hst as [_ _ _ Hd _ Hdk].
  rewrite !walk_eq, release_entry by (done || apply Hi'). case_decide as Hc; [done|].
  apply walk_entry_ext. intros Ht'. unfold m'.
  destruct (wf_table _ Hwf i' (vmb va) Hi' ltac:(done) Ht') as [(j' & Hu & ->)|[Hkm ->]].
  - pose proof (l2_addr_bounds j' (proj1 Hu)). rewrite load_store_word, decide_False by (done || lia). done.
  - unfold kernel_mb in Hkm. destruct Hst as [? _ _ _ _ _].
    rewrite load_store_word, decide_False by (done || lia). done.
Qed.
End release.

Lemma free_l2_table_pool s j :
  0 <= j < 64 ->
  free_l2_table st (l2_table_addr st j) s = (true, set_l2_alloc s (Z.ldiff (L2_ALLOC s) (Z.shiftl 1 j))).
Proof using Type.
  intros Hj. unfold free_l2_table.
  destruct (list_find _ _) as [[n i]|] eqn:E.
  - apply list_find_Some in E as (_ & E & _). unfold l2_table_addr in E. by assert (i = j) as -> by lia.
  - exfalso. eapply list_find_None, Forall_forall in E; [apply E; reflexivity|]. apply elem_of_seqZ.
    unfold L2_POOL_SIZE. lia.
Qed.

Lemma map_page_ok s i va phys attrs :
  wf s -> live s i -> is_u32 va -> ~ kernel_mb (vmb va) ->
  is_u32 phys -> is_u32 attrs -> is_fault attrs = false ->
  match map_page st (user_table_addr st i) va phys attrs s with
  | (true, s') =>
      wf s' /\ unchanged_except s s' i (vpage va) /\
      walk (mem s') (user_table_addr st i) va = PageMap (Z.lor (Z.land phys 0xFFFFF000) attrs)
  | (false, s') =>
      s' = s /\ (walk (mem s) (user_table_addr st i) va = SectionMap (entry (mem s) i (vmb va)) \/
                 walk (mem s) (user_table_addr st i) va = Fault /\ forall j, 0 <= j < 64 -> used s j)
  end.
Proof using Hst.
  intros Hwf Hi Hva Hnk Hp Ha Hf. destruct (page_desc_valid phys attrs Hp Ha Hf) as [Hu Hv].
  unfold map_page. rewrite l1_val_eq.
  destruct (is_table (entry (mem s) i (vmb va))) eqn:Ht.
  - rewrite l2_entry_ptr_eq. split; [by apply store_l2_wf|]. cbn [set_mem mem]. split.
    + intros i' va' Hi' Hva' Hne. cbn [set_mem mem]. rewrite store_l2_walk by done.
      by rewrite decide_False by (intros [-> ?]; destruct Hne; done).
    + rewrite store_l2_walk, decide_True, Hv by done. done.
  - destruct (is_fault (entry (mem s) i (vmb va))) eqn:Hfe.
    + pose proof (alloc_l2_table_ok s) as Hal. destruct (alloc_l2_table st s) as [[a|] s1].
      * destruct Hal as (j & Hj & Hfree & -> & ->).
        exact (map_fresh s i va j _ Hwf Hi Hva Hnk Hu Hv Hj Hfree Hfe).
      * destruct Hal as [-> Hall]. split; [done|]. right. by rewrite walk_fault_entry, Hfe.
    + split; [done|]. left. by rewrite walk_fault_entry, Hfe.
Qed.

Lemma store_l2_unchanged s i va v :
  wf s -> live s i -> is_u32 va -> is_u32 v -> ~ kernel_mb (vmb va) ->
  is_table (entry (mem s) i (vmb va)) = true ->
  unchanged_except s
    (set_mem s (store32 (mem s) (l2_base (entry (mem s) i (vmb va)) + 4 * vslot va) v)) i (vpage va).
Proof using Hst.
  intros Hwf Hi Hva Hv Hnk Ht i' va' Hi' Hva' Hne. cbn [set_mem mem]. rewrite store_l2_walk by done.
  by rewrite decide_False by (intros [-> ?]; destruct Hne; done).
Qed.

(** The megabyte holds no mapping once the loop of [unmap_page] has found 256 zero words. *)
Lemma table_empty m i va :
  is_table (entry m i (vmb va)) = true ->
  forallb (fun q => load32 m (l2_base (entry m i (vmb va)) + 4 * q) =? 0) (seqZ 0 256) = true ->
  walk m (user_table_addr st i) va = Fault.
Proof using Type.
  intros Ht Hall. rewrite walk_eq. unfold walk_entry. rewrite Ht.
  rewrite forallb_forall in Hall. specialize (Hall (vslot va)). rewrite <- list_elem_of_In, elem_of_seqZ in Hall.
  pose proof (vslot_range va). apply Z.eqb_eq in Hall; [|lia]. by rewrite Hall.
Qed.

Lemma unmap_page_ok s i va :
  wf s -> live s i -> is_u32 va -> ~ kernel_mb (vmb va) ->
  let s' := unmap_page st (user_table_addr st i) va s in
  wf s' /\ unchanged_except s s' i (vpage va) /\
  (walk (mem s') (user_table_addr st i) va = Fault \/
   is_table (entry (mem s) i (vmb va)) = false /\ s' = s).
Proof using Hst.
  intros Hwf Hi Hva Hnk. unfold unmap_page. rewrite l1_val_eq.
  destruct (is_table (entry (mem s) i (vmb va))) eqn:Ht; [|by split_and!; [| |right]].
  pose proof (store_l2_wf s i va 0 Hwf Hi Hva ltac:(done) Hnk Ht) as Hwf1.
  pose proof (store_l2_unchanged s i va 0 Hwf Hi Hva ltac:(done) Hnk Ht) as Hun1.
  pose proof (store_l2_walk s i va 0 Hwf Hi Hva ltac:(done) Hnk Ht i va Hi Hva) as Hw1.
  pose proof (store_l2_entry s i va 0 Hwf Hi Hva ltac:(done) Hnk Ht i (vmb va) (proj1 Hi) (vmb_range _ Hva)) as He1.
  rewrite decide_True in Hw1 by done.
  destruct (store_l2_owner s i va Hwf Hi Hva Hnk Ht) as (j & [Hj Hu] & Hb).
  rewrite l2_entry_ptr_eq, l1_entry_ptr_eq.
  set (m1 := store32 (mem s) _ 0) in *. set (s1 := set_mem s m1) in *.
  destruct (forallb _ _) eqn:Hall; [|split_and!; [done|done|by left]].
  rewrite Hb, free_l2_table_pool by done. cbn [snd set_mem set_l2_alloc mem L2_ALLOC ADDR_SPACE_ALLOC].
  assert (is_table (entry (mem s1) i (vmb va)) = true) as Ht1 by (cbn [s1 set_mem mem]; by rewrite He1).
  assert (l2_base (entry (mem s1) i (vmb va)) = l2_table_addr st j) as Hb1 by (cbn [s1 set_mem mem]; by rewrite He1).
  pose proof (release_wf s1 i (vmb va) j Hwf1 Hi (vmb_range _ Hva) Hj Ht1 Hb1) as Hwf2.
  pose proof (release_walk s1 i (vmb va) j Hwf1 Hi (vmb_range _ Hva) Hj Ht1 Hb1) as Hw2.
  cbn [s1 set_mem mem L2_ALLOC ADDR_SPACE_ALLOC] in Hwf2, Hw2, Ht1. split; [done|]. cbn [mem]. split.
  - intros i' va' Hi' Hva' Hne. cbn [mem]. rewrite Hw2 by done. case_decide as Hc; [|by apply Hun1].
    destruct Hc as [-> Hmb]. rewrite <- (Hun1 i va') by done. cbn [s1 set_mem mem]. symmetry.
    apply table_empty; rewrite Hmb; [done|]. by rewrite He1.
  - left. rewrite Hw2 by done. by rewrite decide_True.
Qed.

Lemma update_page_prot_ok s i va attrs :
  wf s -> bytes (mem s) -> live s i -> is_u32 va -> ~ kernel_mb (vmb va) ->
  is_u32 attrs -> is_fault attrs = false ->
  match update_page_prot (user_table_addr st i) va attrs s with
  | (true, s') =>
      exists old, walk (mem s) (user_table_addr st i) va = PageMap old /\
      wf s' /\ unchanged_except s s' i (vpage va) /\
      walk (mem s') (user_table_addr st i) va = PageMap (Z.lor (Z.land old 0xFFFFF000) attrs)
  | (false, s') => s' = s /\ forall d, walk (mem s) (user_table_addr st i) va <> PageMap d
  end.
Proof using Hst.
  intros Hwf Hby Hi Hva Hnk Ha Hf. unfold update_page_prot. rewrite l1_val_eq, l2_entry_ptr_eq.
  rewrite walk_eq. unfold walk_entry.
  destruct (is_table (entry (mem s) i (vmb va))) eqn:Ht; cbn [negb].
  - set (old := load32 (mem s) _). destruct (is_fault old) eqn:Hfo; [done|]. exists old. split; [done|].
    destruct (page_desc_valid old attrs) as [Hu Hv]; try done; [by apply load32_range|].
    split; [by apply store_l2_wf|]. split; [by apply store_l2_unchanged|].
    cbn [set_mem mem]. rewrite store_l2_walk, decide_True, Hv by done. done.
  - split; [done|]. intros d. case_match; discriminate.
Qed.

(** ** Shattering a section *)

(** The small page of slot [q] that [shatter_section] writes for a section at [base]. *)
Definition identity_page (base q : Z) : Z := Z.lor (wrap32 (base + Z.shiftl q 12)) KERNEL_DEFAULT_PAGE.

Lemma identity_page_valid base q : is_u32 (identity_page base q) /\ is_fault (identity_page base q) = false.
Proof using Type.
  unfold identity_page. pose proof (wrap32_range (base + Z.shiftl q 12)) as Hr.
  set (w := wrap32 _) in *. split.
  - apply u32_of_testbit; [apply Z.lor_nonneg; split; [apply Hr|done]|].
    intros b Hb. by rewrite Z.lor_spec, !u32_testbit_high by done.
  - unfold is_fault. apply Z.eqb_neq. rewrite Z.land_lor_distr_l. intros H.
    apply Z.lor_eq_0_iff in H as [_ H]. done.
Qed.

Lemma fill_identity_other ks m l2 base a :
  l2 mod 4 = 0 -> a mod 4 = 0 -> (forall q, q ∈ ks -> a <> l2 + 4 * q) ->
  load32 (fill_identity m l2 base ks) a = load32 m a.
Proof using Type.
  intros Hl Ha. revert m. induction ks as [|q ks IH]; intros m Hne; [done|]. cbn [fill_identity].
  rewrite IH by (intros; apply Hne; by right). pose proof (Hne q ltac:(left)).
  rewrite load_store_word, decide_False by (done || lia || apply identity_page_valid). done.
Qed.

Lemma fill_identity_at ks m l2 base q :
  l2 mod 4 = 0 -> NoDup ks -> q ∈ ks ->
  load32 (fill_identity m l2 base ks) (l2 + 4 * q) = identity_page base q.
Proof using Type.
  intros Hl. revert m. induction ks as [|q' ks IH]; intros m Hnd Hq; [by apply not_elem_of_nil in Hq|].
  apply NoDup_cons in Hnd as [Hni Hnd]. cbn [fill_identity].
  apply elem_of_cons in Hq as [<-|Hq]; [|by apply IH].
  rewrite fill_identity_other; [|done|lia|intros q' Hq' ?; apply Hni; by assert (q = q') as -> by lia].
  rewrite load_store_word, decide_True by (done || lia || apply identity_page_valid). done.
Qed.

(** The megabyte [k] of space [i] now maps page by page what [d] mapped as a section. *)
Definition shattered (s s' : state) (i k d : Z) : Prop :=
  forall i' va, live s i' -> is_u32 va ->
  walk (mem s') (user_table_addr st i') va =
    if decide (i' = i /\ vmb va = k) then PageMap (identity_page (Z.land d 0xFFF00000) (vslot va))
    else walk (mem s) (user_table_addr st i') va.

Lemma shatter_section_ok s i va :
  wf s -> live s i -> is_u32 va ->
  let d := entry (mem s) i (vmb va) in
  match shatter_section st (user_table_addr st i) va s with
  | (true, s') => wf s' /\ (is_table d = true /\ s' = s \/
                            Z.land d 3 = SECTION /\ shattered s s' i (vmb va) d)
  | (false, s') => s' = s /\ is_table d = false /\
      (Z.land d 3 = SECTION -> forall j, 0 <= j < 64 -> used s j)
  end.
Proof using Hst.
  intros Hwf Hi Hva d. unfold shatter_section. rewrite l1_val_eq. fold d.
  destruct (is_table d) eqn:Ht; [by split; [|left]|].
  destruct (Z.eqb_spec (Z.land d 3) SECTION) as [Hs|Hs]; cbn [negb]; [|by split_and!].
  pose proof (alloc_l2_table_ok s) as Hal. destruct (alloc_l2_table st s) as [[a|] s1];
    [destruct Hal as (j & Hj & Hfree & -> & ->)|destruct Hal as [-> Hall]; by split_and!].
  rewrite l1_entry_ptr_eq. cbn [set_mem mem L2_ALLOC ADDR_SPACE_ALLOC].
  set (m1 := fill_identity _ _ _ _). pose proof (l2_addr_bounds j Hj) as (Hal & ? & ?).
  pose proof (vmb_range _ Hva) as Hk.
  assert (forall a, a mod 4 = 0 -> ~ (l2_table_addr st j <= a < l2_table_addr st j + 1024) ->
      load32 m1 a = load32 (mem s) a) as Hm1.
  { intros a Ha Hout. unfold m1. rewrite fill_identity_other, zeroed_slot, decide_False; try done; [lia|].
    intros q Hq%elem_of_seqZ. lia. }
  split; [by apply (install_wf s i (vmb va) j m1)|]. right. split; [done|].
  intros i' va' Hi' Hva'. cbn [mem]. rewrite (install_walk s i (vmb va) j m1) by done.
  case_decide; [|done]. pose proof (vslot_range va'). unfold m1.
  rewrite fill_identity_at; [|lia|apply NoDup_seqZ|apply elem_of_seqZ; lia].
  cbn [mem]. by rewrite (proj2 (identity_page_valid _ _)).
Qed.

(** ** Creating and destroying an address space *)

Lemma zeroed_space_entry m i i' k :
  0 <= i < 16 -> 0 <= i' < 16 -> 0 <= k < 4096 ->
  entry (zero_words m (user_table_addr st i) 4096) i' k = if decide (i' = i) then 0 else entry m i' k.
Proof using Hst.
  intros Hi Hi' Hk. unfold entry. pose proof (user_addr_bounds i 0 Hi ltac:(lia)) as (? & _).
  pose proof (user_addr_bounds i' k Hi' Hk) as (? & _).
  rewrite load_zero_words by (done || lia). unfold user_table_addr.
  repeat case_decide; done || lia.
Qed.

Lemma alloc_addr_space_ok s :
  wf s ->
  match alloc_addr_space st s with
  | (None, s') => s' = s /\ forall i, 0 <= i < 16 -> live s i
  | (Some a, s') => exists i, a = user_table_addr st i /\ 0 <= i < 16 /\ ~ live s i /\
      (forall i', live s' i' <-> i' = i \/ live s i') /\ wf s' /\
      forall i' va, live s' i' -> is_u32 va -> walk (mem s') (user_table_addr st i') va =
        if decide (i' = i) then Fault else walk (mem s) (user_table_addr st i') va
  end.
Proof using Hst.
  intros Hwf. unfold alloc_addr_space. pose proof (find_clear_spec (ADDR_SPACE_ALLOC s) 16 ltac:(done)) as H.
  destruct (find_clear _ _) as [i|]; [|by split; [|intros i Hi; split; auto]].
  destruct H as [Hi Hb]. exists i. split; [done|]. split; [done|]. split; [intros [_ ?]; congruence|].
  unfold set_mem, set_as_alloc. cbn [mem L2_ALLOC ADDR_SPACE_ALLOC].
  set (s' := mk_state (zero_words _ _ _) _ _).
  assert (forall i', live s' i' <-> i' = i \/ live s i') as Hlive.
  { intros i'. unfold live, s'. cbn [ADDR_SPACE_ALLOC]. split.
    - intros [Hi' Hx]. rewrite mask_set in Hx by lia. case_bool_decide; [by left|right; by split].
    - intros Hx. assert (0 <= i' < 16) by (destruct Hx as [->|[? _]]; done). split; [done|].
      rewrite mask_set by lia. destruct Hx as [->|[_ ->]]; [by rewrite bool_decide_true|apply orb_true_r]. }
  split; [done|]. split.
  - constructor.
    + intros i' k Hi' Hk. cbn [s' mem]. rewrite zeroed_space_entry by (done || apply Hi').
      case_decide; [done|]. apply Hlive in Hi' as [?|Hi']; [done|]. by apply (wf_table _ Hwf).
    + intros i1 k1 i2 k2 j H1 H2 Hk1 Hk2 Hj. cbn [s' mem].
      rewrite !zeroed_space_entry by (done || apply H1 || apply H2).
      case_decide; case_decide; try done.
      apply Hlive in H1 as [?|H1]; [done|]. apply Hlive in H2 as [?|H2]; [done|]. by apply (wf_inj _ Hwf).
  - intros i' va Hi' Hva. pose proof (vmb_range _ Hva). pose proof (vslot_range va). cbn [s' mem].
    rewrite !walk_eq, zeroed_space_entry by (done || apply Hi'). case_decide; [done|].
    apply Hlive in Hi' as [?|Hi']; [contradiction|]. apply walk_entry_ext. intros Ht.
    pose proof (user_addr_bounds i 0 Hi ltac:(lia)) as (? & _ & _). destruct Hst as [? ? ? Hd _ Hdk].
    destruct (wf_table _ Hwf i' (vmb va) Hi' ltac:(done) Ht) as [(j & Hu & ->)|[Hkm ->]].
    + pose proof (l2_addr_bounds j (proj1 Hu)) as (? & ? & ?).
      rewrite load_zero_words, decide_False by (done || unfold user_table_addr in *; lia). done.
    + unfold kernel_mb in Hkm.
      rewrite load_zero_words, decide_False by (done || unfold user_table_addr in *; lia). done.
Qed.

(** [a] is the base of an L2 table of space [i] found through one of the megabytes [ks]. *)
Definition refers (m : memory) (l1 : Z) (ks : list Z) (a : Z) : Prop :=
  exists k, k ∈ ks /\ is_table (load32 m (l1 + 4 * k)) = true /\ l2_base (load32 m (l1 + 4 * k)) = a.

Lemma free_l2_table_used a s :
  mem (free_l2_table st a s).2 = mem s /\
  ADDR_SPACE_ALLOC (free_l2_table st a s).2 = ADDR_SPACE_ALLOC s /\
  forall j, used (free_l2_table st a s).2 j <-> used s j /\ l2_table_addr st j <> a.
Proof using Type.
  unfold free_l2_table. destruct (list_find _ _) as [[n i]|] eqn:E; cbn [snd].
  - apply list_find_Some in E as (Hn & <- & _). apply lookup_seqZ in Hn as [-> Hn].
    split_and!; [done|done|]. intros j. unfold used, set_l2_alloc, L2_POOL_SIZE in *. cbn [L2_ALLOC].
    split.
    + intros [Hj Hx]. rewrite mask_clear in Hx by lia. case_bool_decide; [done|].
      split; [done|]. unfold l2_table_addr. lia.
    + intros [[Hj Hx] Hne]. split; [done|]. rewrite mask_clear by lia. case_bool_decide; [subst; done|done].
  - split_and!; [done|done|]. intros j. split; [|by intros [? _]]. intros Hu. split; [done|]. intros <-.
    eapply list_find_None, Forall_forall in E; [by apply E|]. apply elem_of_seqZ.
    destruct Hu as [? _]. unfold L2_POOL_SIZE. lia.
Qed.

Lemma free_l2_tables_used l1 ks s :
  mem (free_l2_tables st l1 ks s) = mem s /\
  ADDR_SPACE_ALLOC (free_l2_tables st l1 ks s) = ADDR_SPACE_ALLOC s /\
  forall j, used (free_l2_tables st l1 ks s) j <-> used s j /\ ~ refers (mem s) l1 ks (l2_table_addr st j).
Proof using Type.
  revert s. induction ks as [|k ks IH]; intros s; cbn [free_l2_tables].
  { split_and!; [done|done|]. intros j. split; [|by intros [? _]]. intros. split; [done|].
    intros (k & Hk & _). by apply not_elem_of_nil in Hk. }
  destruct (is_table (load32 (mem s) (l1 + 4 * k))) eqn:Ht.
  - destruct (free_l2_table_used (l2_base (load32 (mem s) (l1 + 4 * k))) s) as (Hm & Ha & Hu).
    set (s1 := (free_l2_table st _ s).2) in *. destruct (IH s1) as (Hm' & Ha' & Hu').
    rewrite Hm', Ha', Hm, Ha. split_and!; [done|done|]. intros j. rewrite Hu', Hu, Hm. split.
    + intros [[? Hne] Hnr]. split; [done|]. intros (k' & [->|Hk']%elem_of_cons & ? & ?); [by destruct Hne|].
      apply Hnr. by exists k'.
    + intros [? Hnr]. split; [split; [done|]|]; [intros Heq; apply Hnr; exists k; split_and!; [left|done|done]|].
      intros (k' & Hk' & ? & ?). apply Hnr. exists k'. split_and!; [by right|done|done].
  - destruct (IH s) as (Hm' & Ha' & Hu'). split_and!; [done|done|]. intros j. rewrite Hu'. split.
    + intros [? Hnr]. split; [done|]. intros (k' & [->|Hk']%elem_of_cons & ? & ?); [congruence|].
      apply Hnr. by exists k'.
    + intros [? Hnr]. split; [done|]. intros (k' & Hk' & ? & ?). apply Hnr.
      exists k'. split_and!; [by right|done|done].
Qed.

(** Retiring space [i] once its tables are back in the pool. *)
Lemma retire_space s s1 i (K : list Z) :
  wf s -> live s i -> (forall k, k ∈ K <-> 0 <= k < 4096) ->
  mem s1 = mem s -> ADDR_SPACE_ALLOC s1 = ADDR_SPACE_ALLOC s ->
  (forall j, used s1 j <-> used s j /\ ~ refers (mem s) (user_table_addr st i) K (l2_table_addr st j)) ->
  let s' := set_as_alloc s1 (Z.ldiff (ADDR_SPACE_ALLOC s1) (Z.shiftl 1 i)) in
  wf s' /\ (forall i', live s' i' <-> i' <> i /\ live s i').
Proof using Type.
  intros Hwf Hi HK Hm Ha Hu s'.
  assert (forall i', live s' i' <-> i' <> i /\ live s i') as Hlive.
  { intros i'. unfold live, s', set_as_alloc. cbn [ADDR_SPACE_ALLOC]. rewrite Ha. destruct Hi as [Hi _].
    split.
    - intros [Hi' Hx]. rewrite mask_clear in Hx by lia. by case_bool_decide.
    - intros [Hne [Hi' Hx]]. split; [done|]. rewrite mask_clear by lia. by rewrite bool_decide_false. }
  split; [|done]. assert (mem s' = mem s) as Hm' by done. constructor.
  - intros i' k [Hne Hi']%Hlive Hk. rewrite Hm'. intros Ht.
    destruct (wf_table _ Hwf i' k Hi' Hk Ht) as [(j & Hj & Hb)|?]; [left|by right].
    exists j. split; [|done]. apply Hu. split; [done|]. intros (k' & Hk' & Ht' & Hb').
    destruct (wf_inj _ Hwf i' k i k' j Hi' Hi Hk (proj1 (HK _) Hk') (proj1 Hj) Ht Hb Ht' Hb') as [? _]. done.
  - intros i1 k1 i2 k2 j [_ H1]%Hlive [_ H2]%Hlive. rewrite Hm'. by apply (wf_inj _ Hwf).
Qed.

Lemma free_addr_space_eq s i :
  0 <= i < 16 ->
  free_addr_space st (user_table_addr st i) s =
    (true, let s1 := free_l2_tables st (user_table_addr st i) (seqZ 0 4096) s in
           set_as_alloc s1 (Z.ldiff (ADDR_SPACE_ALLOC s1) (Z.shiftl 1 i))).
Proof using Type.
  intros Hi. unfold free_addr_space. destruct (list_find _ _) as [[n i0]|] eqn:E.
  - apply list_find_Some in E as (_ & E & _).
    assert (i0 = i) as -> by (unfold user_table_addr in E; lia). reflexivity.
  - exfalso. eapply list_find_None, Forall_forall in E; [apply E; reflexivity|]. apply elem_of_seqZ. lia.
Qed.

Lemma free_addr_space_ok s i :
  wf s -> live s i ->
  exists s', free_addr_space st (user_table_addr st i) s = (true, s') /\ wf s' /\ mem s' = mem s /\
    (forall i', live s' i' <-> i' <> i /\ live s i') /\
    (forall j, used s' j <-> used s j /\ ~ refers (mem s) (user_table_addr st i) (seqZ 0 4096) (l2_table_addr st j)).
Proof using Hst.
  intros Hwf Hi. rewrite free_addr_space_eq by apply Hi.
  destruct (free_l2_tables_used (user_table_addr st i) (seqZ 0 4096) s) as (Hm & Ha & Hu).
  revert Hm Ha Hu. generalize (free_l2_tables st (user_table_addr st i) (seqZ 0 4096) s).
  assert (forall k, k ∈ seqZ 0 4096 <-> 0 <= k < 4096) as HK by (intros k; rewrite elem_of_seqZ; lia).
  revert HK. generalize (seqZ 0 4096). intros K HK s1 Hm Ha Hu.
  eexists. split; [reflexivity|].
  destruct (retire_space s s1 i K Hwf Hi HK Hm Ha Hu) as [Hwf' Hlive]. by split_and!.
Qed.



End spaces.

(** ** The claims *)

(** [map_page] on a page outside the kernel's megabytes either installs
    exactly the requested small page, leaving every other translation of every
    address space and the ownership of the L2 tables intact, or fails without
    any effect, and only because a section covers the address or because the
    megabyte has no table and all 64 pool slots are taken. *)
Theorem map_page_installs_one_page st s i va phys attrs :
  statics_ok st -> wf st s -> live s i -> is_u32 va -> ~ kernel_mb (vmb va) ->
  is_u32 phys -> is_u32 attrs -> is_fault attrs = false ->
  match map_page st (user_table_addr st i) va phys attrs s with
  | (true, s') =>
      wf st s' /\ unchanged_except st s s' i (vpage va) /\
      walk (mem s') (user_table_addr st i) va = PageMap (Z.lor (Z.land phys 0xFFFFF000) attrs)
  | (false, s') =>
      s' = s /\ (walk (mem s) (user_table_addr st i) va = SectionMap (entry st (mem s) i (vmb va)) \/
                 walk (mem s) (user_table_addr st i) va = Fault /\ forall j, 0 <= j < 64 -> used s j)
  end.
Proof. intros Hst. by apply map_page_ok. Qed.

(** [unmap_page] removes the translation of its page, keeps every other
    translation of every address space, and keeps the pool consistent also
    when it returns an emptied table to it. *)
Theorem unmap_page_removes_one_page st s i va :
  statics_ok st -> wf st s -> live s i -> is_u32 va -> ~ kernel_mb (vmb va) ->
  let s' := unmap_page st (user_table_addr st i) va s in
  wf st s' /\ unchanged_except st s s' i (vpage va) /\
  (walk (mem s') (user_table_addr st i) va = Fault \/
   is_table (entry st (mem s) i (vmb va)) = false /\ s' = s).
Proof. intros Hst. by apply unmap_page_ok. Qed.

(** [update_page_prot] succeeds exactly on a mapped small page; it keeps
    the frame, replaces the attributes and touches no other translation. *)
Theorem update_page_prot_keeps_frame st s i va attrs :
  statics_ok st -> wf st s -> bytes (mem s) -> live s i -> is_u32 va -> ~ kernel_mb (vmb va) ->
  is_u32 attrs -> is_fault attrs = false ->
  match update_page_prot (user_table_addr st i) va attrs s with
  | (true, s') =>
      exists old, walk (mem s) (user_table_addr st i) va = PageMap old /\
      wf st s' /\ unchanged_except st s s' i (vpage va) /\
      walk (mem s') (user_table_addr st i) va = PageMap (Z.lor (Z.land old 0xFFFFF000) attrs)
  | (false, s') => s' = s /\ forall d, walk (mem s) (user_table_addr st i) va <> PageMap d
  end.
Proof. intros Hst. by apply update_page_prot_ok. Qed.

(** [shatter_section] replaces a section by 256 kernel-only pages that
    translate every address of the megabyte as the section did; it never
    changes another megabyte or space, and fails only when there is nothing
    to shatter or the pool is exhausted. *)
Theorem shatter_section_keeps_identity st s i va :
  statics_ok st -> wf st s -> live s i -> is_u32 va ->
  let d := entry st (mem s) i (vmb va) in
  match shatter_section st (user_table_addr st i) va s with
  | (true, s') => wf st s' /\ (is_table d = true /\ s' = s \/
                               Z.land d 3 = SECTION /\ shattered st s s' i (vmb va) d)
  | (false, s') => s' = s /\ is_table d = false /\
      (Z.land d 3 = SECTION -> forall j, 0 <= j < 64 -> used s j)
  end.
Proof. intros Hst. by apply shatter_section_ok. Qed.

(** [alloc_addr_space] hands out a space that was not in use, in which
    nothing is mapped, and leaves every live space as it was. *)
Theorem alloc_addr_space_fresh st s :
  statics_ok st -> wf st s ->
  match alloc_addr_space st s with
  | (None, s') => s' = s /\ forall i, 0 <= i < 16 -> live s i
  | (Some a, s') => exists i, a = user_table_addr st i /\ 0 <= i < 16 /\ ~ live s i /\
      (forall i', live s' i' <-> i' = i \/ live s i') /\ wf st s' /\
      forall i' va, live s' i' -> is_u32 va -> walk (mem s') (user_table_addr st i') va =
        if decide (i' = i) then Fault else walk (mem s) (user_table_addr st i') va
  end.
Proof. intros Hst. exact (alloc_addr_space_ok st Hst s). Qed.

(** [free_addr_space] of a live space returns to the pool exactly the L2
    tables that space refers to, never one of another space or the kernel's,
    and retires the space. *)
Theorem free_addr_space_reclaims_tables st s i :
  statics_ok st -> wf st s -> live s i ->
  exists s', free_addr_space st (user_table_addr st i) s = (true, s') /\ wf st s' /\ mem s' = mem s /\
    (forall i', live s' i' <-> i' <> i /\ live s i') /\
    (forall j, used s' j <->
       used s j /\ ~ refers (mem s) (user_table_addr st i) (seqZ 0 4096) (l2_table_addr st j)).
Proof. intros Hst. exact (free_addr_space_ok st Hst s i). Qed.

(** ** Witnesses *)

(** A link layout, and one address space with a section in megabyte 0x500. *)
Definition layout : statics := mk_statics 0x100000 0x200000 0x300000.

Lemma layout_ok : statics_ok layout.
Proof. constructor; cbn; lia. Qed.

Definition demo : state := mk_state (store32 ∅ (user_table_addr layout 0 + 4 * 0x500) 0x50010402) 0 1.

Lemma demo_live : live demo 0.
Proof. by split. Qed.

Lemma demo_entry i k : 0 <= i < 16 -> 0 <= k < 4096 -> is_table (entry layout (mem demo) i k) = false.
Proof.
  intros Hi Hk. unfold entry, demo. cbn [mem].
  rewrite load_store_word; [|done| |done].
  - case_decide; done.
  - unfold user_table_addr. cbn. lia.
Qed.

Lemma demo_wf : wf layout demo.
Proof.
  constructor; [intros i k [Hi _] Hk|intros i k i' k' j [Hi _] _ Hk _ _];
    rewrite demo_entry by done; discriminate.
Qed.

Lemma demo_bytes : bytes (mem demo).
Proof. apply bytes_store32. by intros a. Qed.

Lemma map_page_installs_one_page_witness :
  match map_page layout (user_table_addr layout 0) 0x10003000 0x40205000 (prot_to_l2_flags 3) demo with
  | (true, s') => wf layout s' /\ walk (mem s') (user_table_addr layout 0) 0x10003000 = PageMap 0x40205C7F
  | (false, _) => False
  end.
Proof.
  pose proof (map_page_installs_one_page layout demo 0 0x10003000 0x40205000 (prot_to_l2_flags 3)
    layout_ok demo_wf demo_live ltac:(done) ltac:(by intros [? ?]) ltac:(done) ltac:(done) eq_refl) as H.
  assert ((map_page layout (user_table_addr layout 0) 0x10003000 0x40205000 (prot_to_l2_flags 3) demo).1 = true)
    as E by (vm_compute; reflexivity).
  destruct (map_page _ _ _ _ _ _) as [[] s']; [|discriminate E].
  destruct H as (? & _ & ?). by split.
Defined.

(** The demo space once a writable page is mapped at 0x10003000. *)
Definition demo2 : state :=
  (map_page layout (user_table_addr layout 0) 0x10003000 0x40205000 (prot_to_l2_flags 3) demo).2.

Lemma demo2_wf : wf layout demo2 /\ live demo2 0.
Proof.
  pose proof (map_page_ok layout layout_ok demo 0 0x10003000 0x40205000 (prot_to_l2_flags 3)
    demo_wf demo_live ltac:(done) ltac:(by intros [? ?]) ltac:(done) ltac:(done) eq_refl) as H.
  unfold demo2. split.
  - destruct (map_page _ _ _ _ _ _) as [[] s']; [apply H|]. destruct H as [-> _]. exact demo_wf.
  - split; [done|]. by vm_compute.
Qed.

Lemma unmap_page_removes_one_page_witness :
  wf layout (unmap_page layout (user_table_addr layout 0) 0x10003000 demo2) /\
  walk (mem (unmap_page layout (user_table_addr layout 0) 0x10003000 demo2)) (user_table_addr layout 0) 0x10003000
    = Fault.
Proof.
  destruct (unmap_page_removes_one_page layout demo2 0 0x10003000
    layout_ok (proj1 demo2_wf) (proj2 demo2_wf) ltac:(done) ltac:(by intros [? ?])) as (? & _ & [H|[H _]]).
  - by split.
  - exfalso. by vm_compute in H.
Defined.

Lemma demo2_bytes : bytes (mem demo2).
Proof.
  assert (exists s1, (map_page layout (user_table_addr layout 0) 0x10003000 0x40205000 (prot_to_l2_flags 3) demo)
    = (true, s1) /\ bytes (mem s1)) as (s1 & E & H).
  { eexists. split; [reflexivity|]. cbn [set_mem mem].
    do 2 apply bytes_store32. apply bytes_zero_words. exact demo_bytes. }
  unfold demo2. by rewrite E.
Qed.

Lemma update_page_prot_keeps_frame_witness :
  match update_page_prot (user_table_addr layout 0) 0x10003000 (prot_to_l2_flags 1) demo2 with
  | (true, s') => wf layout s' /\ exists d, walk (mem s') (user_table_addr layout 0) 0x10003000 = PageMap d
  | (false, _) => False
  end.
Proof.
  pose proof (update_page_prot_keeps_frame layout demo2 0 0x10003000 (prot_to_l2_flags 1)
    layout_ok (proj1 demo2_wf) demo2_bytes (proj2 demo2_wf) ltac:(done) ltac:(by intros [? ?])
    ltac:(done) eq_refl) as H.
  assert ((update_page_prot (user_table_addr layout 0) 0x10003000 (prot_to_l2_flags 1) demo2).1 = true) as E
    by (vm_compute; reflexivity).
  destruct (update_page_prot _ _ _ _) as [[] s']; [|discriminate E].
  destruct H as (old & _ & ? & _ & ?). split; [done|]. by eexists.
Defined.

Lemma shatter_section_keeps_identity_witness :
  match shatter_section layout (user_table_addr layout 0) 0x50000000 demo with
  | (true, s') => wf layout s' /\ shattered layout demo s' 0 0x500 0x50010402
  | (false, _) => False
  end.
Proof.
  pose proof (shatter_section_keeps_identity layout demo 0 0x50000000
    layout_ok demo_wf demo_live ltac:(done)) as H.
  assert (entry layout (mem demo) 0 (vmb 0x50000000) = 0x50010402) as He by by vm_compute.
  assert ((shatter_section layout (user_table_addr layout 0) 0x50000000 demo).1 = true) as E
    by (vm_compute; reflexivity).
  rewrite He in H. destruct (shatter_section _ _ _ _) as [[] s']; [|discriminate E].
  destruct H as [? [[H _]|[_ H]]]; [discriminate H|].
  by split.
Defined.

Lemma alloc_addr_space_fresh_witness :
  exists s', alloc_addr_space layout demo = (Some 0x304000, s') /\ wf layout s' /\ live s' 1.
Proof.
  pose proof (alloc_addr_space_fresh layout demo layout_ok demo_wf) as H.
  assert ((alloc_addr_space layout demo).1 = Some 0x304000) as E by reflexivity.
  destruct (alloc_addr_space layout demo) as [o s']. cbn [fst] in E. subst o. exists s'.
  destruct H as (i & Ha & Hi & _ & Hlive & Hwf & _). split; [reflexivity|]. split; [exact Hwf|].
  apply Hlive. left. unfold user_table_addr in Ha. cbn in Ha. lia.
Defined.

Lemma free_addr_space_reclaims_tables_witness :
  used demo2 0 /\
  exists s', free_addr_space layout (user_table_addr layout 0) demo2 = (true, s') /\ ~ used s' 0 /\ ~ live s' 0.
Proof.
  split; [by split; [|vm_compute]|].
  destruct (free_addr_space_reclaims_tables layout demo2 0 layout_ok (proj1 demo2_wf) (proj2 demo2_wf))
    as (s' & E & _ & _ & Hl & Hu).
  exists s'. split; [exact E|]. split.
  - intros [_ Hn]%Hu. apply Hn. exists 0x100. split; [apply elem_of_seqZ; lia|].
    split; by vm_compute.
  - intros [Hn _]%Hl. by apply Hn.
Defined.
End mmu.
