(* ===== verification/Memguard.v ===== *)
(** * User-memory access ([crates/thumos/src/memguard.rs])

    The permission walk a syscall performs over the caller's page tables, and
    the fault-contained copies with the unprivileged [LDRBT]/[STRBT]
    instructions. The walk reads the descriptors of [Mmu]; the transfer is
    checked byte by byte by the architecture's PL0 permissions ([pl0_byte]),
    so the theorems relate the software check to what the hardware does.

    [UserMemory] is what the rest of the kernel relies on: the client
    components (pipes, futexes, signal frames) are proved against it, and
    [memguard_user_memory] is the instance of this file. *)

From S2P Require Import Prelude Machine Page Mmu.
From Stdlib Require Import ZArith.
Open Scope Z_scope.

(** ** The interface to the clients *)

(** What a syscall sees of its caller's memory. A copy out of user memory
    returns as many bytes as were asked for; a failed copy into it that was
    refused by the permission walk has no effect. *)
Class UserMemory (U : Type) := {
  um_range : U -> Z -> Z -> bool -> bool;
  um_copy_from : U -> Z -> nat -> option (list Z);
  um_copy_to : U -> Z -> list Z -> U * bool;
}.

(** The laws of the interface. [um_range u p n w] is the permission walk for
    [n] bytes at [p], for writing when [w]. *)
Class UserMemoryLaws (U : Type) `{!UserMemory U} := {
  um_from_length : forall u p n bs, um_copy_from u p n = Some bs -> length bs = n;
  um_from_range : forall u p n bs, um_copy_from u p n = Some bs -> um_range u p (Z.of_nat n) false = true;
  um_to_range : forall u p bs u', um_copy_to u p bs = (u', true) ->
    um_range u p (Z.of_nat (length bs)) true = true;
  um_to_refused : forall u p bs, um_range u p (Z.of_nat (length bs)) true = false ->
    um_copy_to u p bs = (u, false);
}.

Module memguard.
Import mmu mmu.page_flags.

Definition PAGE_SIZE : Z := page.PAGE_SIZE.
Definition KERNEL_END : Z := 0x40200000.
Definition RAM_END : Z := 0x80000000.

(** ** The checks *)

(** [ptr.checked_add(len)] on a 32-bit [usize]. *)
Definition checked_add (a b : Z) : option Z := if a + b <? 2 ^ 32 then Some (a + b) else None.

Definition validate_user_buffer (ptr len : Z) : bool :=
  if ptr =? 0 then false
  else if len =? 0 then true
  else match checked_add ptr len with
       | None => false
       | Some fin => (KERNEL_END <=? ptr) && (fin <=? RAM_END)
       end.

Definition is_freeable_user_page (addr : Z) : bool :=
  (addr mod PAGE_SIZE =? 0) && ((KERNEL_END <=? addr) && (addr <? RAM_END)).

Inductive Access := Read | Write.

#[export] Instance Access_eq_dec : EqDecision Access.
Proof. solve_decision. Defined.

Definition AP_MASK : Z := Z.shiftl 3 4.
Definition APX_BIT : Z := Z.shiftl 1 9.

Definition pl0_grants (entry : Z) (access : Access) : bool :=
  if negb (l2_entry_is_user entry) then false else
  let ap := Z.land entry AP_MASK in
  match access with
  | Read => (ap =? AP_READ_ONLY) || (ap =? AP_FULL)
  | Write => (ap =? AP_FULL) && (Z.land entry APX_BIT =? 0)
  end.

(** The [while page < end] loop; every turn advances by a page, so
    [pages_spanned] turns are enough. *)
Fixpoint range_grants_loop (fuel : nat) (page fin : Z) (access : Access) (read_desc : Z -> option Z) : bool :=
  match fuel with
  | O => false
  | S fuel =>
      if page <? fin then
        match read_desc page with
        | None => false
        | Some entry =>
            if negb (pl0_grants entry access) then false else
            match checked_add page PAGE_SIZE with
            | None => false
            | Some next => range_grants_loop fuel next fin access read_desc
            end
        end
      else true
  end.

Definition pages_spanned (page fin : Z) : nat := Z.to_nat ((fin - page) / PAGE_SIZE + 2).

Definition range_grants (ptr len : Z) (access : Access) (read_desc : Z -> option Z) : bool :=
  if len =? 0 then true else
  match checked_add ptr len with
  | None => false
  | Some fin =>
      let page := ptr - ptr mod PAGE_SIZE in
      range_grants_loop (pages_spanned page fin) page fin access read_desc
  end.

Definition range_is_well_formed (ptr len : Z) : bool :=
  negb (ptr =? 0) && match checked_add ptr len with Some _ => true | None => false end.

Definition validate_user_range_with (ptr len : Z) (access : Access) (read_desc : option (Z -> option Z)) : bool :=
  if negb (range_is_well_formed ptr len) then false else
  match read_desc with
  | Some read_desc => range_grants ptr len access read_desc
  | None => validate_user_buffer ptr len
  end.

(** ** The machine a syscall runs on *)

(** Physical memory, the translation table in TTBR0, and the answer of
    [process::current_user_page_table]. *)
Record cpu := mk_cpu {
  ram : memory;
  ttbr0 : Z;
  user_vas : option Z;
}.

Definition set_ram (c : cpu) (m : memory) : cpu := mk_cpu m (ttbr0 c) (user_vas c).

Definition validate_user_range (c : cpu) (ptr len : Z) (access : Access) : bool :=
  match user_vas c with
  | None => validate_user_range_with ptr len access None
  | Some l1 => validate_user_range_with ptr len access (Some (fun va => read_l2_entry (ram c) l1 va))
  end.

(** The PL0 permission check of the architecture on a section (AP in bits
    11:10, APX in bit 15) and on a small page (AP in bits 5:4, APX in bit 9). *)
Definition ap_permits (ap apx : Z) (access : Access) : bool :=
  match access with
  | Read => 2 <=? ap
  | Write => (ap =? 3) && (apx =? 0)
  end.

(** An unprivileged byte access at [va]: the physical address, or a data abort. *)
Definition pl0_byte (m : memory) (l1 va : Z) (access : Access) : option Z :=
  match walk m l1 va with
  | Fault => None
  | SectionMap d =>
      if ap_permits (Z.land (Z.shiftr d 10) 3) (Z.land (Z.shiftr d 15) 1) access
      then Some (Z.lor (Z.land d 0xFFF00000) (Z.land va 0xFFFFF)) else None
  | PageMap d =>
      if ap_permits (Z.land (Z.shiftr d 4) 3) (Z.land (Z.shiftr d 9) 1) access
      then Some (Z.lor (Z.land d 0xFFFFF000) (Z.land va 0xFFF)) else None
  end.

(** [__thumos_copy_from_user]: [n] times LDRBT with post-increment; an abort
    resumes at the fixup, which returns 1. The bytes read so far are in the
    destination. *)
Fixpoint copy_from_user_asm (c : cpu) (src : Z) (n : nat) : list Z * bool :=
  match n with
  | O => ([], true)
  | S n =>
      match pl0_byte (ram c) (ttbr0 c) src Read with
      | None => ([], false)
      | Some pa =>
          let '(bs, ok) := copy_from_user_asm c (wrap32 (src + 1)) n in (load8 (ram c) pa :: bs, ok)
      end
  end.

(** [__thumos_copy_to_user]: the counterpart with STRBT. *)
Fixpoint copy_to_user_asm (c : cpu) (dst : Z) (src : list Z) : cpu * bool :=
  match src with
  | [] => (c, true)
  | b :: src =>
      match pl0_byte (ram c) (ttbr0 c) dst Write with
      | None => (c, false)
      | Some pa => copy_to_user_asm (set_ram c (store8 (ram c) pa b)) (wrap32 (dst + 1)) src
      end
  end.

(** [copy_from_user(src, dst)]: the new contents of [dst], and the result. *)
Definition copy_from_user (c : cpu) (src : Z) (dst : list Z) : list Z * result unit unit :=
  if negb (validate_user_range c src (Z.of_nat (length dst)) Read) then (dst, Err tt) else
  let '(bs, ok) := copy_from_user_asm c src (length dst) in
  (bs ++ drop (length bs) dst, if ok then Ok tt else Err tt).

Definition copy_to_user (c : cpu) (dst : Z) (src : list Z) : cpu * result unit unit :=
  if negb (validate_user_range c dst (Z.of_nat (length src)) Write) then (c, Err tt) else
  let '(c, ok) := copy_to_user_asm c dst src in (c, if ok then Ok tt else Err tt).

(** The four instruction addresses the linker gives the copy routines. *)
Record fixups := mk_fixups { from_fault : Z; from_fixup : Z; to_fault : Z; to_fixup : Z }.

Definition fault_fixup_pc (f : fixups) (fault_pc : Z) : option Z :=
  if fault_pc =? from_fault f then Some (from_fixup f)
  else if fault_pc =? to_fault f then Some (to_fixup f)
  else None.
(** ** The walk decides exactly the page permissions *)

#[local] Ltac Zify.zify_post_hook ::= Z.to_euclidean_division_equations.

Definition page_of (va : Z) : Z := va - va mod PAGE_SIZE.

(** The descriptor of a page grants the access. *)
Definition granted (read_desc : Z -> option Z) (access : Access) (page : Z) : Prop :=
  exists entry, read_desc page = Some entry /\ pl0_grants entry access = true.

Lemma page_of_aligned va : page_of va mod 4096 = 0 /\ page_of va <= va < page_of va + 4096.
Proof. unfold page_of, PAGE_SIZE, page.PAGE_SIZE. lia. Qed.

Lemma range_grants_loop_iff fuel page fin access rd :
  page mod 4096 = 0 -> 0 <= page -> fin < 2 ^ 32 ->
  1 <= Z.of_nat fuel -> fin <= page + 4096 * (Z.of_nat fuel - 1) ->
  range_grants_loop fuel page fin access rd = true <->
  (page < fin -> fin <= 0xFFFFF000) /\
  (forall p, p mod 4096 = 0 -> page <= p < fin -> granted rd access p).
Proof.
  revert page. induction fuel as [|fuel IH]; intros page Hal H0 Hf Hf1 Hfuel; [lia|].
  cbn [range_grants_loop]. destruct (Z.ltb_spec page fin) as [Hlt|Hge]; [|split; [|done]; intros _; split; lia].
  destruct (rd page) as [e|] eqn:Hrd.
  2:{ split; [done|]. intros [_ Hg]. destruct (Hg page Hal ltac:(lia)) as (e & He & _). congruence. }
  destruct (pl0_grants e access) eqn:Hg; cbn [negb].
  2:{ split; [done|]. intros [_ Hg']. destruct (Hg' page Hal ltac:(lia)) as (e' & He & ?). congruence. }
  unfold checked_add, PAGE_SIZE, page.PAGE_SIZE. destruct (Z.ltb_spec (page + 4096) (2 ^ 32)).
  - rewrite IH by lia. split; intros [Ht Hp]; split.
    + intros _. destruct (decide (page + 4096 < fin)); [by apply Ht|]. lia.
    + intros p Hpal Hpr. destruct (decide (p = page)) as [->|]; [by exists e|]. apply Hp; [done|]. lia.
    + intros _. by apply Ht.
    + intros p Hpal Hpr. apply Hp; [done|]. lia.
  - split; [done|]. intros [Ht _]. specialize (Ht Hlt). lia.
Qed.

Lemma range_grants_iff ptr len access rd :
  is_u32 ptr -> is_u32 len ->
  range_grants ptr len access rd = true <->
  len = 0 \/ (ptr + len <= 0xFFFFF000 /\ forall va, ptr <= va < ptr + len -> granted rd access (page_of va)).
Proof.
  unfold is_u32. intros Hp Hl. unfold range_grants. destruct (Z.eqb_spec len 0); [naive_solver|].
  unfold checked_add. destruct (Z.ltb_spec (ptr + len) (2 ^ 32)); [|split; [done|lia]].
  pose proof (page_of_aligned ptr) as [Hal Hpg]. fold (page_of ptr).
  rewrite range_grants_loop_iff; [|done|lia|done| |];
    [|unfold pages_spanned, PAGE_SIZE, page.PAGE_SIZE; lia..].
  split.
  - intros [Ht Hg]. right. split; [apply Ht; lia|]. intros va Hva.
    pose proof (page_of_aligned va) as [??]. apply Hg; [done|]. lia.
  - intros [?|[Ht Hg]]; [done|]. split; [lia|]. intros p Hpal Hpr.
    destruct (decide (p < ptr)).
    + assert (p = page_of ptr) as -> by lia. apply Hg. lia.
    + assert (page_of p = p) as <- by (unfold page_of, PAGE_SIZE, page.PAGE_SIZE; lia). apply Hg. lia.
Qed.

Lemma validate_user_range_iff c l1 ptr len access :
  user_vas c = Some l1 -> is_u32 ptr -> is_u32 len ->
  validate_user_range c ptr len access = true <->
  ptr <> 0 /\ ptr + len < 2 ^ 32 /\
  (len = 0 \/ (ptr + len <= 0xFFFFF000 /\
    forall va, ptr <= va < ptr + len -> granted (read_l2_entry (ram c) l1) access (page_of va))).
Proof.
  intros Hv Hp Hl. unfold validate_user_range, validate_user_range_with, range_is_well_formed, checked_add.
  rewrite Hv. destruct (Z.eqb_spec ptr 0); cbn [negb andb]; [naive_solver|].
  destruct (Z.ltb_spec (ptr + len) (2 ^ 32)); cbn [negb]; [|split; [done|lia]].
  rewrite range_grants_iff by done. naive_solver.
Qed.

(** ** What the walk grants, the hardware permits *)

Lemma land_shift e k mask : 0 <= k -> Z.land (Z.shiftr e k) mask = Z.shiftr (Z.land e (Z.shiftl mask k)) k.
Proof.
  intros. rewrite Z.shiftr_land, Z.shiftr_shiftl_l by lia. replace (k - k) with 0 by lia.
  by rewrite Z.shiftl_0_r.
Qed.

Lemma grants_permits e access :
  pl0_grants e access = true ->
  is_fault e = false /\ ap_permits (Z.land (Z.shiftr e 4) 3) (Z.land (Z.shiftr e 9) 1) access = true.
Proof.
  unfold pl0_grants. destruct (l2_entry_is_user e) eqn:Hu; [|done]. cbn [negb]. intros H. split.
  - unfold l2_entry_is_user in Hu. bool_hyps. unfold is_fault, SMALL_PAGE in *. apply Z.eqb_neq. intros H3.
    match goal with Hx : Z.land e 2 <> 0 |- _ => apply Hx end.
    change 2 with (Z.land 3 2). by rewrite Z.land_assoc, H3.
  - rewrite !land_shift by lia. change (Z.shiftl 3 4) with AP_MASK. change (Z.shiftl 1 9) with APX_BIT.
    unfold ap_permits. destruct access.
    + apply orb_true_iff in H as [H|H]; apply Z.eqb_eq in H; by rewrite H.
    + apply andb_true_iff in H as [H1 H2]. apply Z.eqb_eq in H1, H2. by rewrite H1, H2.
Qed.

Lemma same_page_entry m l1 va : 0 <= va -> read_l2_entry m l1 (page_of va) = read_l2_entry m l1 va.
Proof.
  intros. unfold read_l2_entry. rewrite !l1_entry_ptr_eq, !l2_entry_ptr_eq.
  assert (vmb (page_of va) = vmb va /\ vslot (page_of va) = vslot va) as [-> ->]; [|done].
  unfold vmb, vslot, page_of, PAGE_SIZE, page.PAGE_SIZE. split; lia.
Qed.

Lemma read_l2_entry_walk m l1 va e :
  read_l2_entry m l1 va = Some e -> is_fault e = false -> walk m l1 va = PageMap e.
Proof.
  unfold read_l2_entry, walk. destruct (is_table _); cbn [negb]; [|done]. intros [= ->] Hf. by rewrite Hf.
Qed.

(** The architecture's view of a small-page descriptor: bit 1 marks the small
    page, bit 11 (nG) the page of a user, AP[1] (bit 5) lets PL0 read, and AP = 11
    with APX (bit 9) clear lets it write. *)
Definition page_permits (e : Z) (access : Access) : Prop :=
  Z.testbit e 1 = true /\ Z.testbit e 11 = true /\
  match access with
  | Read => Z.testbit e 5 = true
  | Write => Z.testbit e 4 = true /\ Z.testbit e 5 = true /\ Z.testbit e 9 = false
  end.

Lemma land_bit e k : 0 <= k -> Z.land e (2 ^ k) = if Z.testbit e k then 2 ^ k else 0.
Proof.
  intros Hk. apply Z.bits_inj'. intros i Hi. rewrite Z.land_spec, Z.pow2_bits_eqb by done.
  destruct (Z.eqb_spec k i) as [->|Hne].
  - destruct (Z.testbit e i); [by rewrite Z.pow2_bits_true by done|by rewrite Z.bits_0].
  - rewrite andb_false_r. destruct (Z.testbit e k); [by rewrite Z.pow2_bits_false by lia|by rewrite Z.bits_0].
Qed.

Lemma pl0_grants_bits e access : pl0_grants e access = true <-> page_permits e access.
Proof.
  unfold pl0_grants, page_permits, l2_entry_is_user, AP_MASK, APX_BIT.
  change SMALL_PAGE with (2 ^ 1). change NG with (2 ^ 11). change (Z.shiftl 1 9) with (2 ^ 9).
  change (Z.shiftl 3 4) with (Z.lor (2 ^ 4) (2 ^ 5)). rewrite Z.land_lor_distr_r, !land_bit by lia.
  destruct (Z.testbit e 1), (Z.testbit e 11), (Z.testbit e 4), (Z.testbit e 5), (Z.testbit e 9), access; cbn; naive_solver.
Qed.

(** A page is granted exactly when the architecture's walk finds a descriptor that permits the access. *)
Lemma granted_walk m l1 va access :
  0 <= va -> granted (read_l2_entry m l1) access (page_of va) <-> exists e, walk m l1 va = PageMap e /\ page_permits e access.
Proof.
  intros Hva. unfold granted. rewrite same_page_entry by done. split.
  - intros (e & He & Hg). exists e. split; [|by apply pl0_grants_bits]. apply read_l2_entry_walk; [done|]. by apply (grants_permits e access).
  - intros (e & He & Hp). exists e. split; [|by apply pl0_grants_bits]. unfold walk, read_l2_entry in *.
    destruct (is_table _); cbn [negb] in *; [|by destruct (is_fault _)]. destruct (is_fault _); congruence.
Qed.

(** The physical byte a page descriptor selects. *)
Definition page_byte (e va : Z) : Z := Z.lor (Z.land e 0xFFFFF000) (Z.land va 0xFFF).

Lemma granted_byte m l1 va access :
  0 <= va -> granted (read_l2_entry m l1) access (page_of va) ->
  exists pa, pl0_byte m l1 va access = Some pa.
Proof.
  intros H0 (e & He & Hg). rewrite same_page_entry in He by done.
  destruct (grants_permits e access Hg) as [Hf Hap]. unfold pl0_byte.
  rewrite (read_l2_entry_walk m l1 va e He Hf), Hap. by eexists.
Qed.

Lemma write_implies_read m l1 va pa : pl0_byte m l1 va Write = Some pa -> pl0_byte m l1 va Read = Some pa.
Proof.
  unfold pl0_byte, ap_permits.
  destruct (walk m l1 va) as [|d|d]; [done| |]; intros H;
    destruct (_ && _)%bool eqn:E in H; try done; apply andb_true_iff in E as [E _];
    apply Z.eqb_eq in E; by rewrite E.
Qed.

(** ** The copies *)

(** [n] bytes from [ptr], none of which wraps. *)
Definition in_range (ptr : Z) (n : nat) (va : Z) : Prop := ptr <= va < ptr + Z.of_nat n.

(** The physical address of every byte of a range. *)
Definition translates (c : cpu) (access : Access) (ptr : Z) (n : nat) (phys : Z -> Z) : Prop :=
  forall va, in_range ptr n va -> pl0_byte (ram c) (ttbr0 c) va access = Some (phys va).

Definition phys_of (c : cpu) (access : Access) (va : Z) : Z :=
  default 0 (pl0_byte (ram c) (ttbr0 c) va access).

Lemma validated_translates c ptr n access :
  user_vas c = Some (ttbr0 c) -> is_u32 ptr -> is_u32 (Z.of_nat n) ->
  validate_user_range c ptr (Z.of_nat n) access = true ->
  ptr + Z.of_nat n < 2 ^ 32 /\ translates c access ptr n (phys_of c access).
Proof.
  intros Hv Hp Hn H. rewrite (validate_user_range_iff c (ttbr0 c)) in H by done.
  destruct H as (_ & Hw & H). split; [done|]. intros va Hva. unfold in_range in Hva.
  destruct H as [?|[_ Hg]]; [lia|]. unfold phys_of, is_u32 in *.
  destruct (granted_byte (ram c) (ttbr0 c) va access ltac:(lia) (Hg va Hva)) as [pa ->]. done.
Qed.

Lemma copy_from_asm_ok c ptr n phys :
  0 <= ptr -> ptr + Z.of_nat n < 2 ^ 32 -> translates c Read ptr n phys ->
  copy_from_user_asm c ptr n = ((fun i => load8 (ram c) (phys i)) <$> seqZ ptr (Z.of_nat n), true).
Proof.
  revert ptr. induction n as [|n IH]; intros ptr H0 Hw Ht; [done|].
  cbn [copy_from_user_asm]. rewrite Ht by (unfold in_range; lia).
  rewrite wrap32_small by (unfold is_u32; lia).
  rewrite IH; [|lia|lia|intros va Hva; apply Ht; unfold in_range in *; lia].
  rewrite (seqZ_cons ptr) by lia. rewrite fmap_cons. unfold Z.succ, Z.pred.
  by replace (Z.of_nat (S n) + -1) with (Z.of_nat n) by lia.
Qed.

Lemma copy_from_user_ok c src dst :
  user_vas c = Some (ttbr0 c) -> is_u32 src -> is_u32 (Z.of_nat (length dst)) ->
  validate_user_range c src (Z.of_nat (length dst)) Read = true ->
  copy_from_user c src dst =
    ((fun va => load8 (ram c) (phys_of c Read va)) <$> seqZ src (Z.of_nat (length dst)), Ok tt).
Proof.
  intros Hv Hp Hn H. unfold copy_from_user. rewrite H. cbn [negb].
  destruct (validated_translates c src (length dst) Read Hv Hp Hn H) as [Hw Ht].
  unfold is_u32 in Hp. rewrite (copy_from_asm_ok c src (length dst) _ ltac:(lia) Hw Ht).
  rewrite length_fmap, length_seqZ, Nat2Z.id, drop_all, app_nil_r. done.
Qed.

(** Writing a list at the physical addresses of consecutive virtual bytes. *)
Fixpoint write_phys (m : memory) (phys : Z -> Z) (va : Z) (bs : list Z) : memory :=
  match bs with
  | [] => m
  | b :: bs => write_phys (store8 m (phys va) b) phys (va + 1) bs
  end.

(** The words the hardware reads to translate [va]. *)
Definition desc_byte (m : memory) (l1 va a : Z) : Prop :=
  l1_entry_ptr l1 va <= a < l1_entry_ptr l1 va + 4 \/
  (let l2 := l2_base (load32 m (l1_entry_ptr l1 va)) in l2_entry_ptr l2 va <= a < l2_entry_ptr l2 va + 4).

Lemma pl0_byte_ext m m' l1 va access :
  (forall a, desc_byte m l1 va a -> load8 m' a = load8 m a) ->
  pl0_byte m' l1 va access = pl0_byte m l1 va access.
Proof.
  intros H. assert (walk m' l1 va = walk m l1 va) as E; [|unfold pl0_byte; by rewrite E].
  unfold walk. rewrite (load32_ext m m' (l1_entry_ptr l1 va)) by (intros; apply H; by left).
  by rewrite (load32_ext m m' (l2_entry_ptr _ va)) by (intros; apply H; by right).
Qed.

(** The bytes of the range hold none of the descriptors that translate it. *)
Definition apart_from_tables (c : cpu) (ptr : Z) (n : nat) (phys : Z -> Z) : Prop :=
  forall va va', in_range ptr n va -> in_range ptr n va' -> ~ desc_byte (ram c) (ttbr0 c) va' (phys va).

Lemma copy_to_asm_ok c0 ptr0 n0 phys m dst bs :
  translates c0 Write ptr0 n0 phys -> apart_from_tables c0 ptr0 n0 phys ->
  (forall va a, in_range ptr0 n0 va -> desc_byte (ram c0) (ttbr0 c0) va a -> load8 m a = load8 (ram c0) a) ->
  0 <= ptr0 -> ptr0 + Z.of_nat n0 < 2 ^ 32 -> ptr0 <= dst ->
  dst + Z.of_nat (length bs) <= ptr0 + Z.of_nat n0 ->
  copy_to_user_asm (set_ram c0 m) dst bs = (set_ram c0 (write_phys m phys dst bs), true).
Proof.
  intros Ht Hap. revert m dst. induction bs as [|b bs IH]; intros m dst Hm H0 Hw Hd Hl; [done|].
  cbn [copy_to_user_asm write_phys length] in *. cbn [set_ram ram ttbr0 user_vas].
  rewrite (pl0_byte_ext (ram c0) m) by (intros a; apply Hm; unfold in_range; lia).
  rewrite Ht by (unfold in_range; lia). rewrite wrap32_small by (unfold is_u32; lia).
  change (set_ram (set_ram c0 m) ?x) with (set_ram c0 x).
  rewrite (IH (store8 m (phys dst) b)); [done| |done|done|lia|lia].
  intros va a Hva Ha. rewrite load8_store8. case_decide as He; [|by apply (Hm va)].
  subst a. exfalso. apply (Hap dst va); [unfold in_range; lia|done|done].
Qed.

Lemma write_phys_other m phys va bs a :
  (forall v, in_range va (length bs) v -> phys v <> a) -> load8 (write_phys m phys va bs) a = load8 m a.
Proof.
  revert m va. induction bs as [|b bs IH]; intros m va Hne; [done|]. cbn [write_phys length] in *.
  rewrite IH by (intros v Hv; apply Hne; unfold in_range in *; lia).
  rewrite load8_store8, decide_False; [done|]. apply Hne. unfold in_range. lia.
Qed.

Lemma write_phys_at m phys va bs :
  (forall v v', in_range va (length bs) v -> in_range va (length bs) v' -> phys v = phys v' -> v = v') ->
  (fun v => load8 (write_phys m phys va bs) (phys v)) <$> seqZ va (Z.of_nat (length bs)) = bs.
Proof.
  revert m va. induction bs as [|b bs IH]; intros m va Hinj; [done|]. cbn [write_phys length] in *.
  rewrite (seqZ_cons va) by lia. rewrite fmap_cons. f_equal.
  - rewrite write_phys_other; [by rewrite load8_store8, decide_True|].
    intros v Hv He. apply Hinj in He; unfold in_range in *; lia.
  - unfold Z.succ, Z.pred. replace (Z.of_nat (S (length bs)) + -1) with (Z.of_nat (length bs)) by lia.
    apply IH. intros v v' Hv Hv'. apply Hinj; unfold in_range in *; lia.
Qed.

Lemma write_phys_tables c ptr bs phys va a :
  apart_from_tables c ptr (length bs) phys -> in_range ptr (length bs) va ->
  desc_byte (ram c) (ttbr0 c) va a -> load8 (write_phys (ram c) phys ptr bs) a = load8 (ram c) a.
Proof.
  intros Hap Hva Ha. apply write_phys_other. intros v Hv <-. by apply (Hap v va).
Qed.

Lemma copy_to_user_ok c dst src :
  user_vas c = Some (ttbr0 c) -> is_u32 dst -> is_u32 (Z.of_nat (length src)) ->
  validate_user_range c dst (Z.of_nat (length src)) Write = true ->
  apart_from_tables c dst (length src) (phys_of c Write) ->
  copy_to_user c dst src = (set_ram c (write_phys (ram c) (phys_of c Write) dst src), Ok tt).
Proof.
  intros Hv Hp Hn H Hap. unfold copy_to_user. rewrite H. cbn [negb].
  destruct (validated_translates c dst (length src) Write Hv Hp Hn H) as [Hw Ht].
  replace c with (set_ram c (ram c)) at 1 by by destruct c. unfold is_u32 in Hp.
  by rewrite (copy_to_asm_ok c dst (length src) (phys_of c Write) (ram c) dst src) by (done || lia).
Qed.

Lemma granted_write_read rd p : granted rd Write p -> granted rd Read p.
Proof.
  intros (e & He & Hg). exists e. split; [done|]. unfold pl0_grants in *.
  destruct (negb _); [done|]. apply andb_true_iff in Hg as [-> _]. apply orb_true_r.
Qed.

Lemma read_l2_entry_ext m m' l1 va :
  (forall a, desc_byte m l1 va a -> load8 m' a = load8 m a) ->
  read_l2_entry m' l1 va = read_l2_entry m l1 va.
Proof.
  intros H. unfold read_l2_entry. rewrite (load32_ext m m' (l1_entry_ptr l1 va)) by (intros; apply H; by left).
  by rewrite (load32_ext m m' (l2_entry_ptr _ va)) by (intros; apply H; by right).
Qed.

(** A range that could be written can be read after the write. *)
Lemma validate_after_write c dst src :
  user_vas c = Some (ttbr0 c) -> is_u32 dst -> is_u32 (Z.of_nat (length src)) ->
  validate_user_range c dst (Z.of_nat (length src)) Write = true ->
  apart_from_tables c dst (length src) (phys_of c Write) ->
  validate_user_range (set_ram c (write_phys (ram c) (phys_of c Write) dst src)) dst
    (Z.of_nat (length src)) Read = true.
Proof.
  intros Hv Hp Hn H Hap. rewrite (validate_user_range_iff _ (ttbr0 c)) in H by done.
  rewrite (validate_user_range_iff _ (ttbr0 c)) by done.
  destruct H as (? & ? & [?|[? Hg]]); split_and!; try done; [by left|right]. split; [done|].
  intros va Hva. destruct (granted_write_read _ _ (Hg va Hva)) as (e & He & Hge). exists e. split; [|done].
  unfold is_u32 in Hp. rewrite same_page_entry by lia. rewrite same_page_entry in He by lia. rewrite <- He. apply read_l2_entry_ext.
  intros a Ha. cbn [set_ram ram]. by apply (write_phys_tables c dst src _ va).
Qed.

(** A completed copy is read back unchanged. *)
Lemma copy_back_ok c dst src :
  user_vas c = Some (ttbr0 c) -> is_u32 dst -> is_u32 (Z.of_nat (length src)) ->
  validate_user_range c dst (Z.of_nat (length src)) Write = true ->
  apart_from_tables c dst (length src) (phys_of c Write) ->
  (forall v v', in_range dst (length src) v -> in_range dst (length src) v' ->
    phys_of c Write v = phys_of c Write v' -> v = v') ->
  exists c', copy_to_user c dst src = (c', Ok tt) /\
    copy_from_user c' dst (replicate (length src) 0) = (src, Ok tt) /\
    forall a, (forall v, in_range dst (length src) v -> phys_of c Write v <> a) ->
      load8 (ram c') a = load8 (ram c) a.
Proof.
  intros Hv Hp Hn H Hap Hinj. rewrite copy_to_user_ok by done. eexists. split; [done|].
  split; [|intros a Ha; by apply write_phys_other].
  rewrite copy_from_user_ok; rewrite ?length_replicate; try done; [|by apply validate_after_write].
  f_equal. etransitivity; [|by apply (write_phys_at (ram c) (phys_of c Write) dst src)].
  destruct (validated_translates c dst (length src) Write Hv Hp Hn H) as [_ Ht].
  apply list_fmap_ext. intros i va Hi. apply lookup_seqZ in Hi as [-> Hi]. cbn [set_ram ram].
  f_equal. unfold phys_of at 1. cbn [set_ram ram ttbr0].
  rewrite (pl0_byte_ext (ram c)).
  - by rewrite (write_implies_read _ _ _ _ (Ht (dst + Z.of_nat i) ltac:(unfold in_range; lia))).
  - intros a Ha. apply (write_phys_tables c dst src _ (dst + Z.of_nat i)); [done|unfold in_range; lia|done].
Qed.

(** ** Permissions of a mapped page *)

Lemma land_page_attrs phys a mask :
  Z.land 0xFFFFF000 mask = 0 -> Z.land (Z.lor (Z.land phys 0xFFFFF000) a) mask = Z.land a mask.
Proof.
  intros H. rewrite Z.land_lor_distr_l, <- Z.land_assoc, H. by rewrite Z.land_0_r, Z.lor_0_l.
Qed.

(** Execute-never: bit 0 of a small-page descriptor. *)
Definition xn (e : Z) : bool := negb (Z.land e XN =? 0).

(** C22: the permission walk accepts a range exactly when it is non-null, ends
    below 4 GB and, unless it is empty, ends at or below 0xFFFFF000 (the walk
    refuses ranges that reach into the last page of the address space) and every
    byte of it translates, in the caller's own tables, through a user-owned small
    page whose AP and APX bits let PL0 make the access. *)
Theorem user_range_check_exact c l1 ptr len access :
  user_vas c = Some l1 -> is_u32 ptr -> is_u32 len ->
  validate_user_range c ptr len access = true <->
  ptr <> 0 /\ ptr + len < 2 ^ 32 /\
  (len = 0 \/ (ptr + len <= 0xFFFFF000 /\
    forall va, ptr <= va < ptr + len -> exists e, walk (ram c) l1 va = PageMap e /\ page_permits e access)).
Proof.
  intros Hv Hp Hl. rewrite (validate_user_range_iff c l1) by done.
  assert (forall va, ptr <= va < ptr + len ->
    granted (read_l2_entry (ram c) l1) access (page_of va) <-> exists e, walk (ram c) l1 va = PageMap e /\ page_permits e access) as Hg
    by (intros va Hva; apply granted_walk; unfold is_u32 in Hp; lia).
  split; intros (H1 & H2 & [H3|[H3 H4]]); (split; [done|]; split; [done|]);
    first [by left | right; split; [done|]; intros va Hva; by apply Hg, H4].
Qed.

(** A copy from a range the walk accepts never faults: it fills the whole
    destination with the bytes the caller's translation selects; a range the
    walk refuses leaves the destination untouched. *)
Theorem copy_from_user_total c src dst :
  user_vas c = Some (ttbr0 c) -> is_u32 src -> is_u32 (Z.of_nat (length dst)) ->
  copy_from_user c src dst =
    if validate_user_range c src (Z.of_nat (length dst)) Read
    then ((fun va => load8 (ram c) (phys_of c Read va)) <$> seqZ src (Z.of_nat (length dst)), Ok tt)
    else (dst, Err tt).
Proof.
  intros Hv Hp Hn. destruct (validate_user_range c src _ Read) eqn:H; [by apply copy_from_user_ok|].
  unfold copy_from_user. by rewrite H.
Qed.

(** A copy into a range the walk accepts, whose frames are distinct and
    hold none of the tables that translate it, succeeds; the caller reads the
    same bytes back and no other byte of memory has changed. *)
Theorem copy_to_user_roundtrip c dst src :
  user_vas c = Some (ttbr0 c) -> is_u32 dst -> is_u32 (Z.of_nat (length src)) ->
  validate_user_range c dst (Z.of_nat (length src)) Write = true ->
  apart_from_tables c dst (length src) (phys_of c Write) ->
  (forall v v', in_range dst (length src) v -> in_range dst (length src) v' ->
    phys_of c Write v = phys_of c Write v' -> v = v') ->
  exists c', copy_to_user c dst src = (c', Ok tt) /\
    copy_from_user c' dst (replicate (length src) 0) = (src, Ok tt) /\
    forall a, (forall v, in_range dst (length src) v -> phys_of c Write v <> a) ->
      load8 (ram c') a = load8 (ram c) a.
Proof. apply copy_back_ok. Qed.

(** A page mapped with [prot_to_l2_flags prot] is user-owned, readable by
    PL0 iff PROT_READ or PROT_WRITE, writable iff PROT_WRITE, executable iff
    PROT_EXEC without PROT_WRITE; hence never both writable and executable. *)
Theorem mapped_page_permissions phys prot :
  let e := Z.lor (Z.land phys 0xFFFFF000) (prot_to_l2_flags prot) in
  let has f := negb (Z.land prot f =? 0) in
  l2_entry_is_user e = true /\
  pl0_grants e Read = (has PROT_READ || has PROT_WRITE)%bool /\
  pl0_grants e Write = has PROT_WRITE /\
  negb (xn e) = (has PROT_EXEC && negb (has PROT_WRITE))%bool /\
  (pl0_grants e Write && negb (xn e))%bool = false.
Proof.
  cbv zeta. unfold pl0_grants, l2_entry_is_user, xn, AP_MASK, APX_BIT.
  rewrite !land_page_attrs by reflexivity. unfold prot_to_l2_flags.
  destruct (Z.land prot PROT_WRITE =? 0), (Z.land prot PROT_READ =? 0), (Z.land prot PROT_EXEC =? 0);
    by vm_compute.
Qed.

(** ** The instance of the interface *)

Lemma copy_from_asm_length c src n bs : copy_from_user_asm c src n = (bs, true) -> length bs = n.
Proof.
  revert src bs. induction n as [|n IH]; intros src bs; cbn [copy_from_user_asm].
  - by intros [= <-].
  - destruct (pl0_byte _ _ _ _); [|done]. destruct (copy_from_user_asm c _ n) as [bs' ok] eqn:E.
    intros [= <- ->]. cbn [length]. f_equal. by eapply IH.
Qed.

#[export] Instance memguard_user_memory : UserMemory cpu := {|
  um_range c p n w := validate_user_range c p n (if w then Write else Read);
  um_copy_from c p n :=
    match copy_from_user c p (replicate n 0) with (bs, Ok _) => Some bs | (_, Err _) => None end;
  um_copy_to c p bs := let '(c, r) := copy_to_user c p bs in (c, is_ok r);
|}.

#[export] Instance memguard_user_memory_laws : UserMemoryLaws cpu.
Proof.
  constructor; cbn.
  - intros c p n bs. unfold copy_from_user. destruct (negb _); [done|]. rewrite length_replicate.
    destruct (copy_from_user_asm c p n) as [bs' []] eqn:E; [|done]. intros [= <-].
    apply copy_from_asm_length in E as Hl. by rewrite length_app, length_drop, length_replicate, Hl, Nat.sub_diag, Nat.add_0_r.
  - intros c p n bs. unfold copy_from_user. rewrite length_replicate. by destruct (validate_user_range _ _ _ _).
  - intros c p bs c'. unfold copy_to_user. by destruct (validate_user_range _ _ _ _).
  - intros c p bs. unfold copy_to_user. by intros ->.
Qed.

(** ** Witnesses *)

(** The space of [mmu.demo2]: a writable page at 0x10003000 on frame 0x40205000. *)
Definition caller : cpu := mk_cpu (mem demo2) (user_table_addr layout 0) (Some (user_table_addr layout 0)).

Lemma caller_page va : 0x10003000 <= va < 0x10004000 ->
  walk (ram caller) (ttbr0 caller) va = PageMap 0x40205C7F.
Proof.
  intros Hva. unfold walk. rewrite l1_entry_ptr_eq, l2_entry_ptr_eq.
  assert (vmb va = 0x100 /\ vslot va = 3) as [-> ->] by (unfold vmb, vslot; lia).
  by vm_compute.
Qed.

Lemma caller_phys va : 0x10003000 <= va < 0x10004000 ->
  phys_of caller Write va = Z.lor 0x40205000 (Z.land va 0xFFF).
Proof. intros Hva. unfold phys_of, pl0_byte. by rewrite caller_page. Qed.

Lemma caller_byte va : 0x10003000 <= va < 0x10004000 ->
  phys_of caller Write va = 0x40205000 + (va - 0x10003000).
Proof.
  intros Hva. rewrite caller_phys by done. rewrite <- Z.add_nocarry_lor.
  - change 0xFFF with (Z.ones 12). rewrite Z.land_ones by lia. lia.
  - rewrite (Z.land_comm va), Z.land_assoc. apply Z.land_0_l.
Qed.

(** The page holds no table, and its bytes are distinct. *)
Lemma caller_apart a n :
  0x10003000 <= a -> a + Z.of_nat n <= 0x10004000 -> apart_from_tables caller a n (phys_of caller Write).
Proof.
  intros Ha Hn va va' Hva Hva'. unfold in_range in *. rewrite caller_byte by lia.
  unfold desc_byte. rewrite l1_entry_ptr_eq, l2_entry_ptr_eq.
  assert (vmb va' = 0x100 /\ vslot va' = 3) as [-> ->] by (unfold vmb, vslot; lia).
  replace (l2_base (load32 (ram caller) (ttbr0 caller + 4 * 0x100))) with 0x200000 by by vm_compute.
  cbv zeta. change (ttbr0 caller) with 0x300000. lia.
Qed.

Lemma caller_inj a n :
  0x10003000 <= a -> a + Z.of_nat n <= 0x10004000 ->
  forall v v', in_range a n v -> in_range a n v' -> phys_of caller Write v = phys_of caller Write v' -> v = v'.
Proof. intros Ha Hn v v' Hv Hv'. unfold in_range in *. rewrite !caller_byte by lia. lia. Qed.

Lemma user_range_check_exact_witness :
  validate_user_range caller 0x10003FFD 3 Write = true /\ validate_user_range caller 0x10003FFE 3 Read = false.
Proof.
  split; [|by vm_compute].
  apply (proj2 (user_range_check_exact caller 0x300000 0x10003FFD 3 Write eq_refl ltac:(split; lia) ltac:(split; lia))).
  split; [lia|]. split; [lia|]. right. split; [lia|]. intros va Hva. exists 0x40205C7F. split; [apply caller_page; lia|]. by vm_compute.
Defined.

Lemma copy_from_user_total_witness :
  copy_from_user caller 0x10003010 [7; 7; 7] = ([0; 0; 0], Ok tt).
Proof.
  rewrite (copy_from_user_total caller 0x10003010 [7; 7; 7] eq_refl ltac:(done) ltac:(done)).
  by vm_compute.
Defined.

Lemma copy_to_user_roundtrip_witness :
  exists c', copy_to_user caller 0x10003010 [1; 2; 3] = (c', Ok tt) /\
    copy_from_user c' 0x10003010 [0; 0; 0] = ([1; 2; 3], Ok tt).
Proof.
  destruct (copy_to_user_roundtrip caller 0x10003010 [1; 2; 3]) as (c' & Hto & Hfrom & _).
  - reflexivity.
  - done.
  - done.
  - by vm_compute.
  - apply caller_apart; vm_compute; congruence.
  - apply caller_inj; vm_compute; congruence.
  - exists c'. split; [exact Hto|exact Hfrom].
Defined.

End memguard.

#[export] Existing Instance memguard.memguard_user_memory.
#[export] Existing Instance memguard.memguard_user_memory_laws.
