(* ===== verification/Elf.v ===== *)
(** * The ELF loader ([crates/thumos/src/elf.rs])

    Validation of an untrusted image, the placement of its segments in a fresh
    run of frames, and the copy of its bytes. A file is a list of bytes; the
    array of sixteen segment descriptors with its count is the list of the
    descriptors in use. The target build's branches are modelled. *)

From S2P Require Import Prelude Machine Page Mmu Memguard.
From Stdlib Require Import ZArith.
Open Scope Z_scope.

Module elf.

Definition ELF_MAGIC : list Z := [0x7F; 0x45; 0x4C; 0x46].
Definition ELFCLASS32 : Z := 1.
Definition ELFDATA2LSB : Z := 1.
Definition EM_ARM : Z := 40.
Definition PT_LOAD : Z := 1.
Definition PF_X : Z := 1.
Definition PF_W : Z := 2.
Definition PF_R : Z := 4.

Definition flags_to_prot (p_flags : Z) : Z :=
  let prot := 0 in
  let prot := if negb (Z.land p_flags PF_R =? 0) then Z.lor prot mmu.PROT_READ else prot in
  let prot := if negb (Z.land p_flags PF_W =? 0) then Z.lor prot mmu.PROT_WRITE else prot in
  if negb (Z.land p_flags PF_X =? 0) then Z.lor prot mmu.PROT_EXEC else prot.

(** ** Headers *)

Definition byte_at (data : list Z) (i : Z) : Z := nth (Z.to_nat i) data 0.
Definition read16 (data : list Z) (i : Z) : Z := byte_at data i + 2 ^ 8 * byte_at data (i + 1).
Definition read32 (data : list Z) (i : Z) : Z :=
  byte_at data i + 2 ^ 8 * byte_at data (i + 1) + 2 ^ 16 * byte_at data (i + 2) + 2 ^ 24 * byte_at data (i + 3).

Record Elf32Ehdr := mk_ehdr {
  e_ident : list Z; e_type : Z; e_machine : Z; e_version : Z; e_entry : Z; e_phoff : Z; e_shoff : Z; e_flags : Z;
  e_ehsize : Z; e_phentsize : Z; e_phnum : Z; e_shentsize : Z; e_shnum : Z; e_shstrndx : Z;
}.
Definition EHDR_SIZE : Z := 52.

Definition read_ehdr (d : list Z) : Elf32Ehdr :=
  mk_ehdr (take 16 d) (read16 d 16) (read16 d 18) (read32 d 20) (read32 d 24) (read32 d 28) (read32 d 32) (read32 d 36)
    (read16 d 40) (read16 d 42) (read16 d 44) (read16 d 46) (read16 d 48) (read16 d 50).

Record Elf32Phdr := mk_phdr {
  p_type : Z; p_offset : Z; p_vaddr : Z; p_paddr : Z; p_filesz : Z; p_memsz : Z; p_flags : Z; p_align : Z;
}.
Definition PHDR_SIZE : Z := 32.

Definition read_phdr (d : list Z) (o : Z) : Elf32Phdr :=
  mk_phdr (read32 d o) (read32 d (o + 4)) (read32 d (o + 8)) (read32 d (o + 12)) (read32 d (o + 16)) (read32 d (o + 20))
    (read32 d (o + 24)) (read32 d (o + 28)).

Definition MAX_ELF_PAGES : Z := 2048.

Inductive ElfError := BadMagic | Not32Bit | NotLittleEndian | NotArm | OutOfMemory | InvalidSegment.

#[export] Instance ElfError_eq_dec : EqDecision ElfError.
Proof. solve_decision. Defined.

(** [(vaddr, memsz, filesz, file_offset, p_flags)]. *)
Record Segment := mk_seg { vaddr : Z; memsz : Z; filesz : Z; file_offset : Z; seg_flags : Z }.

Record ValidatedElf := mk_validated { segments : list Segment; total_pages : Z }.

(** [i.checked_mul(phentsize).and_then(|stride| stride.checked_add(phoff))]. *)
Definition phdr_offset (i phentsize phoff : Z) : option Z :=
  if i * phentsize <? 2 ^ 32 then memguard.checked_add (i * phentsize) phoff else None.

(** The body of the loop over the program headers. *)
Definition one_phdr (data : list Z) (phoff phentsize i : Z) (v : ValidatedElf) : result ValidatedElf ElfError :=
  match phdr_offset i phentsize phoff with
  | None => Err InvalidSegment
  | Some offset =>
      match memguard.checked_add offset PHDR_SIZE with
      | None => Err InvalidSegment
      | Some offset_end =>
          if Z.of_nat (length data) <? offset_end then Err InvalidSegment else
          let ph := read_phdr data offset in
          if negb (p_type ph =? PT_LOAD) then Ok v else
          match memguard.checked_add (p_offset ph) (p_filesz ph) with
          | None => Err InvalidSegment
          | Some file_end =>
              if Z.of_nat (length data) <? file_end then Err InvalidSegment else
              if negb (memguard.validate_user_buffer (p_vaddr ph) (p_memsz ph)) then Err InvalidSegment else
              match memguard.checked_add (p_memsz ph) (page.PAGE_SIZE - 1) with
              | None => Err InvalidSegment
              | Some rounded =>
                  match memguard.checked_add (total_pages v) (rounded / page.PAGE_SIZE) with
                  | None => Err InvalidSegment
                  | Some t =>
                      if negb (t <=? MAX_ELF_PAGES) then Err InvalidSegment else
                      if 16 <=? Z.of_nat (length (segments v)) then Err InvalidSegment else
                      Ok (mk_validated (segments v ++ [mk_seg (p_vaddr ph) (p_memsz ph) (p_filesz ph) (p_offset ph) (p_flags ph)]) t)
                  end
              end
          end
      end
  end.

Fixpoint phdr_loop (data : list Z) (phoff phentsize : Z) (ks : list Z) (v : ValidatedElf) : result ValidatedElf ElfError :=
  match ks with
  | [] => Ok v
  | i :: ks =>
      match one_phdr data phoff phentsize i v with
      | Ok v => phdr_loop data phoff phentsize ks v
      | Err e => Err e
      end
  end.

Definition saturating_add (a b : Z) : Z := Z.min (a + b) (2 ^ 32 - 1).

Definition validate (data : list Z) : result (Z * ValidatedElf) ElfError :=
  if Z.of_nat (length data) <? EHDR_SIZE then Err BadMagic else
  let ehdr := read_ehdr data in
  if negb (bool_decide (take 4 (e_ident ehdr) = ELF_MAGIC)) then Err BadMagic else
  if negb (default 0 (e_ident ehdr !! 4%nat) =? ELFCLASS32) then Err Not32Bit else
  if negb (default 0 (e_ident ehdr !! 5%nat) =? ELFDATA2LSB) then Err NotLittleEndian else
  if negb (e_machine ehdr =? EM_ARM) then Err NotArm else
  let entry := e_entry ehdr in
  if (0 <? e_phnum ehdr) && (e_phentsize ehdr <? PHDR_SIZE) then Err InvalidSegment else
  match phdr_loop data (e_phoff ehdr) (e_phentsize ehdr) (seqZ 0 (e_phnum ehdr)) (mk_validated [] 0) with
  | Err e => Err e
  | Ok v =>
      if existsb (fun s => (vaddr s <=? entry) && (entry <? saturating_add (vaddr s) (memsz s))) (segments v)
      then Ok (entry, v) else Err InvalidSegment
  end.

(** ** Placement and copy *)

Record LoadedElf := mk_loaded {
  l_entry : Z; pages_used : Z; l_segments : list (Z * Z * Z); image_phys : Z; image_lo : Z; image_pages : Z;
}.

(** [n.div_ceil(PAGE_SIZE)]. *)
Definition div_ceil (n : Z) : Z := (n + page.PAGE_SIZE - 1) / page.PAGE_SIZE.

(** The loop of [plan_confined_image]: the extent of the segments. *)
Fixpoint extent (lo hi : Z) (segs : list Segment) (lo_img max_end : Z) : option (Z * Z) :=
  match segs with
  | [] => Some (lo_img, max_end)
  | s :: segs =>
      if (vaddr s <? lo) || (hi <? vaddr s + memsz s) then None
      else extent lo hi segs (Z.min lo_img (vaddr s)) (Z.max max_end (vaddr s + memsz s))
  end.

Definition plan_confined_image (v : ValidatedElf) (lo hi : Z) (p : page.state) : outcome (result (Z * Z) ElfError * page.state) :=
  match extent lo hi (segments v) (2 ^ 32 - 1) 0 with
  | None => Ret (Err InvalidSegment, p)
  | Some (lo_img, max_end) =>
      if negb (div_ceil (max_end - lo_img) =? total_pages v) then Ret (Err InvalidSegment, p) else
      r ← page.alloc_contiguous (total_pages v) p;
      match r with
      | (None, p) => Ret (Err OutOfMemory, p)
      | (Some phys, p) => Ret (Ok (phys, lo_img), p)
      end
  end.

(** The byte of a segment at an offset: from the file, then zeros. *)
Definition seg_byte (data : list Z) (s : Segment) (off : Z) : Z :=
  if off <? filesz s then
    match memguard.checked_add (file_offset s) off with
    | Some i => default 0 (data !! Z.to_nat i)
    | None => 0
    end
  else 0.

(** The loop [for byte_offset in page_start..page_end]. *)
Definition write_page (data : list Z) (s : Segment) (seg_dest : Z) (m : memory) (pg : Z) : memory :=
  let page_start := pg * page.PAGE_SIZE in
  let page_end := Z.min (page_start + page.PAGE_SIZE) (memsz s) in
  foldl (fun m off => store8 m (seg_dest + page_start + (off - page_start)) (seg_byte data s off)) m
    (seqZ page_start (page_end - page_start)).

Definition write_segment (data : list Z) (image_phys image_lo : Z) (m : memory) (s : Segment) : memory :=
  foldl (write_page data s (image_phys + (vaddr s - image_lo))) m (seqZ 0 (div_ceil (memsz s))).

(** [load_impl] with a placement window, as [load_confined] calls it. *)
Definition load_confined (data : list Z) (lo hi : Z) (p : page.state) : outcome (result LoadedElf ElfError * page.state) :=
  match validate data with
  | Err e => Ret (Err e, p)
  | Ok (entry, v) =>
      if page.free_count p <? total_pages v then Ret (Err OutOfMemory, p) else
      r ← plan_confined_image v lo hi p;
      match r with
      | (Err e, p) => Ret (Err e, p)
      | (Ok (phys, lo_img), p) =>
          let m := foldl (write_segment data phys lo_img) (page.MEM p) (segments v) in
          Ret (Ok (mk_loaded entry (foldr (fun s n => div_ceil (memsz s) + n) 0 (segments v))
            ((fun s => (vaddr s, memsz s, seg_flags s)) <$> segments v) phys lo_img (total_pages v)), page.with_mem p m)
      end
  end.

(** ** What validation guarantees *)

Section theory.
#[local] Ltac Zify.zify_post_hook ::= Z.to_euclidean_division_equations.
Context (data : list Z) (Hdata : Forall is_u8 data).
#[local] Abbreviation len := (Z.of_nat (length data)).

Lemma byte_at_range i : is_u8 (byte_at data i).
Proof using Hdata.
  unfold byte_at. destruct (decide (Z.to_nat i < length data)%nat) as [Hlt|Hge].
  - rewrite List.Forall_forall in Hdata. apply Hdata, nth_In, Hlt.
  - rewrite nth_overflow by lia. by unfold is_u8.
Qed.

Lemma read32_range i : is_u32 (read32 data i).
Proof using Hdata.
  unfold read32, is_u32. pose proof (byte_at_range i). pose proof (byte_at_range (i + 1)).
  pose proof (byte_at_range (i + 2)). pose proof (byte_at_range (i + 3)). unfold is_u8 in *. lia.
Qed.

(** A segment that may be loaded: its bytes are in the file, its memory in the
    part of DRAM that user processes may use. *)
Record seg_ok (s : Segment) : Prop := {
  so_u32 : is_u32 (vaddr s) /\ is_u32 (memsz s) /\ is_u32 (filesz s) /\ is_u32 (file_offset s) /\ is_u32 (file_offset s + filesz s);
  so_file : file_offset s + filesz s <= len;
  so_nonzero : vaddr s <> 0;
  so_dram : memsz s = 0 \/ (memguard.KERNEL_END <= vaddr s /\ vaddr s + memsz s <= memguard.RAM_END);
}.

(** Its bytes: the file's, then zeros. *)
Lemma seg_byte_spec s off :
  seg_ok s -> 0 <= off -> Some (seg_byte data s off) = if off <? filesz s then data !! Z.to_nat (file_offset s + off) else Some 0.
Proof using Type.
  intros [(_ & _ & Hf & Ho & He) Hle _ _] Hoff. unfold seg_byte, memguard.checked_add. unfold is_u32 in *. case Z.ltb_spec; [intros Hlt|done].
  assert (Z.to_nat (file_offset s + off) < length data)%nat as [b Hb]%lookup_lt_is_Some by lia. rewrite Hb.
  case Z.ltb_spec; [by rewrite Hb|]. intros Hw. lia.
Qed.

Definition pages_of (segs : list Segment) : Z := foldr (fun s n => div_ceil (memsz s) + n) 0 segs.

Lemma pages_of_app l1 l2 : pages_of (l1 ++ l2) = pages_of l1 + pages_of l2.
Proof using Type. unfold pages_of. induction l1 as [|s l1 IH]; cbn; [lia|]. rewrite IH. lia. Qed.

Lemma div_ceil_nonneg n : 0 <= n -> 0 <= div_ceil n.
Proof using Type. unfold div_ceil, page.PAGE_SIZE. lia. Qed.

Lemma pages_of_nonneg segs : Forall seg_ok segs -> 0 <= pages_of segs.
Proof using Type.
  induction 1 as [|s segs Hs _ IH]; cbn; [lia|]. destruct Hs as [(_ & Hm & _) _ _ _]. fold (pages_of segs).
  pose proof (div_ceil_nonneg (memsz s)). unfold is_u32 in *. lia.
Qed.

Record vinv (v : ValidatedElf) : Prop := {
  v_segs : Forall seg_ok (segments v);
  v_total : total_pages v = pages_of (segments v);
  v_pages : total_pages v <= MAX_ELF_PAGES;
  v_count : (length (segments v) <= 16)%nat;
}.

Lemma checked_add_Some a b c : memguard.checked_add a b = Some c -> c = a + b /\ c < 2 ^ 32.
Proof using Type. unfold memguard.checked_add. destruct (Z.ltb_spec (a + b) (2 ^ 32)); [|done]. by intros [= <-]. Qed.

Lemma one_phdr_ok phoff phentsize i v v' : vinv v -> one_phdr data phoff phentsize i v = Ok v' -> vinv v'.
Proof using Hdata.
  intros V. unfold one_phdr. destruct (phdr_offset _ _ _) as [o|]; [|done]. destruct (memguard.checked_add o _) as [oe|]; [|done].
  destruct (Z.ltb_spec len oe); [done|]. set (ph := read_phdr data o). destruct (negb (p_type ph =? PT_LOAD)); [by intros [= <-]|].
  destruct (memguard.checked_add (p_offset ph) (p_filesz ph)) as [fe|] eqn:Efe; [|done]. apply checked_add_Some in Efe as [-> Hend].
  destruct (Z.ltb_spec len (p_offset ph + p_filesz ph)) as [|Hfile]; [done|].
  destruct (memguard.validate_user_buffer (p_vaddr ph) (p_memsz ph)) eqn:Evub; [|done]. cbn [negb].
  destruct (memguard.checked_add (p_memsz ph) _) as [rd|] eqn:Erd; [|done]. apply checked_add_Some in Erd as [-> _].
  destruct (memguard.checked_add (total_pages v) _) as [t|] eqn:Et; [|done]. apply checked_add_Some in Et as [-> _].
  destruct (Z.leb_spec (total_pages v + (p_memsz ph + (page.PAGE_SIZE - 1)) / page.PAGE_SIZE) MAX_ELF_PAGES) as [Hmax|]; [|done]. cbn [negb].
  destruct (Z.leb_spec 16 (Z.of_nat (length (segments v)))) as [|Hcnt]; [done|]. intros [= <-].
  assert (forall k, is_u32 (read32 data k)) as Hu by apply read32_range.
  constructor; cbn [segments total_pages].
  - apply Forall_app. split; [apply V|]. apply Forall_singleton. constructor; cbn [vaddr memsz filesz file_offset].
    + split_and!; try apply Hu. pose proof (Hu (o + 4)). pose proof (Hu (o + 16)). unfold is_u32 in *. cbn [p_offset p_filesz ph read_phdr] in *. lia.
    + done.
    + unfold memguard.validate_user_buffer in Evub. by destruct (Z.eqb_spec (p_vaddr ph) 0).
    + unfold memguard.validate_user_buffer in Evub. destruct (Z.eqb_spec (p_vaddr ph) 0); [done|].
      destruct (Z.eqb_spec (p_memsz ph) 0); [by left|right]. destruct (memguard.checked_add _ _) as [fin|] eqn:Ef; [|done].
      apply checked_add_Some in Ef as [-> _]. apply andb_true_iff in Evub as [H1%Z.leb_le H2%Z.leb_le]. done.
  - rewrite pages_of_app, <- (v_total _ V). cbn. unfold div_ceil. rewrite Z.add_0_r, Z.add_sub_assoc. done.
  - done.
  - rewrite length_app. cbn. lia.
Qed.

Lemma phdr_loop_ok phoff phentsize ks v v' : vinv v -> phdr_loop data phoff phentsize ks v = Ok v' -> vinv v'.
Proof using Hdata.
  revert v. induction ks as [|k ks IH]; intros v V; cbn [phdr_loop]; [by intros [= <-]|].
  destruct (one_phdr data phoff phentsize k v) as [v1|] eqn:E; [|done]. apply IH. by eapply one_phdr_ok.
Qed.

Lemma validate_ok entry v :
  validate data = Ok (entry, v) ->
  vinv v /\ take 4 data = ELF_MAGIC /\ e_machine (read_ehdr data) = EM_ARM /\
  exists s, s ∈ segments v /\ vaddr s <= entry < vaddr s + memsz s.
Proof using Hdata.
  unfold validate. destruct (Z.ltb_spec len EHDR_SIZE) as [|Hlen]; [done|]. destruct (bool_decide_reflect (take 4 (e_ident (read_ehdr data)) = ELF_MAGIC)) as [Hmag|]; [|done].
  cbn [negb]. destruct (negb _); [done|]. destruct (negb _); [done|]. destruct (Z.eqb_spec (e_machine (read_ehdr data)) EM_ARM) as [Harm|]; [|done]. cbn [negb].
  destruct (_ && _); [done|]. destruct (phdr_loop _ _ _ _ _) as [v1|] eqn:E; [|done]. destruct (existsb _ _) eqn:Ex; [|done]. intros [= <- <-].
  split_and!; [eapply phdr_loop_ok; [|exact E]; constructor; cbn; [by apply Forall_nil|done|done|lia]|by cbn [e_ident read_ehdr] in Hmag; rewrite take_take in Hmag|done|].
  apply existsb_exists in Ex as (s & Hs & [H1%Z.leb_le H2%Z.ltb_lt]%andb_true_iff). exists s. split; [by apply list_elem_of_In|]. unfold saturating_add in H2. change (e_entry (read_ehdr data)) with (read32 data 24) in *. lia.
Qed.

(** ** Placement *)

Lemma extent_ok lo hi segs lo0 hi0 a b :
  extent lo hi segs lo0 hi0 = Some (a, b) ->
  a <= lo0 /\ hi0 <= b /\ Forall (fun s => lo <= vaddr s /\ vaddr s + memsz s <= hi /\ a <= vaddr s /\ vaddr s + memsz s <= b) segs.
Proof using Type.
  revert lo0 hi0. induction segs as [|s segs IH]; intros lo0 hi0; cbn [extent]; [intros [= <- <-]; split_and!; [lia|lia|by apply Forall_nil]|].
  destruct (Z.ltb_spec (vaddr s) lo); [done|]. destruct (Z.ltb_spec hi (vaddr s + memsz s)); [done|]. cbn [orb].
  intros (H1 & H2 & H3)%IH. split_and!; [lia|lia|]. constructor; [lia|done].
Qed.

Lemma extent_lo lo hi segs lo0 hi0 a b :
  extent lo hi segs lo0 hi0 = Some (a, b) -> a = lo0 \/ exists s, s ∈ segs /\ a = vaddr s.
Proof using Type.
  revert lo0 hi0. induction segs as [|s segs IH]; intros lo0 hi0; cbn [extent]; [intros [= <- _]; by left|].
  destruct (_ || _); [done|]. intros [->|(s' & Hs & ->)]%IH; [|right; exists s'; split; [by right|done]].
  destruct (Z.min_spec lo0 (vaddr s)) as [[_ ->]|[_ ->]]; [by left|right; exists s; split; [left|done]].
Qed.

(** ** The copy *)

Lemma load8_store_run (f : Z -> Z) (g : Z -> Z) (d lo : Z) n m a :
  (forall off, g off = d + off) -> 0 <= n ->
  load8 (foldl (fun m off => store8 m (g off) (f off)) m (seqZ lo n)) a =
    if decide (d + lo <= a < d + lo + n) then f (a - d) else load8 m a.
Proof using Type.
  intros Hg Hn. revert lo m. pattern n. apply natlike_ind; [| |done]; clear n Hn.
  - intros lo m. cbn. by rewrite decide_False by lia.
  - intros n Hn IH lo m. rewrite seqZ_cons by lia. cbn [foldl]. rewrite Z.pred_succ, IH, load8_store8, Hg.
    repeat case_decide; try lia; try done. f_equal. lia.
Qed.

Lemma load8_write_page s dest m pg a :
  0 <= pg < div_ceil (memsz s) -> 0 <= memsz s ->
  load8 (write_page data s dest m pg) a =
    if decide (dest + pg * 4096 <= a < dest + Z.min ((pg + 1) * 4096) (memsz s)) then seg_byte data s (a - dest) else load8 m a.
Proof using Type.
  intros Hpg Hm. unfold div_ceil, write_page, page.PAGE_SIZE in *. cbv zeta.
  rewrite (load8_store_run (seg_byte data s) _ dest) by (lia || intros; lia). repeat case_decide; try lia; done.
Qed.

Lemma write_pages_upto s dest m n a :
  0 <= n <= div_ceil (memsz s) -> 0 <= memsz s ->
  load8 (foldl (write_page data s dest) m (seqZ 0 n)) a =
    if decide (dest <= a < dest + Z.min (n * 4096) (memsz s)) then seg_byte data s (a - dest) else load8 m a.
Proof using Type.
  intros [Hn Hle] Hm. revert Hle. pattern n. apply natlike_ind; [| |done]; clear n Hn.
  - intros _. cbn. by rewrite decide_False by lia.
  - intros n Hn IH Hle. unfold Z.succ. rewrite seqZ_app, foldl_app by lia. cbn [foldl seqZ]. rewrite Z.add_0_l.
    change (seqZ n 1) with [0 + n]. cbn [foldl]. rewrite load8_write_page, IH by lia. unfold div_ceil, page.PAGE_SIZE in *. repeat case_decide; try lia; done.
Qed.

Lemma load8_write_segment phys lo m s a :
  0 <= memsz s ->
  load8 (write_segment data phys lo m s) a =
    let dest := phys + (vaddr s - lo) in
    if decide (dest <= a < dest + memsz s) then seg_byte data s (a - dest) else load8 m a.
Proof using Type.
  intros Hm. unfold write_segment. rewrite write_pages_upto by (pose proof (div_ceil_nonneg (memsz s)); lia).
  assert (memsz s <= div_ceil (memsz s) * 4096) by (unfold div_ceil, page.PAGE_SIZE; lia). cbv zeta. by rewrite Z.min_r by lia.
Qed.

(** The byte at an address is the last segment's that covers it. *)
Fixpoint image_byte (phys lo : Z) (segs : list Segment) (old a : Z) : Z :=
  match segs with
  | [] => old
  | s :: segs =>
      let dest := phys + (vaddr s - lo) in
      image_byte phys lo segs (if decide (dest <= a < dest + memsz s) then seg_byte data s (a - dest) else old) a
  end.

Lemma load8_image phys lo segs m a :
  Forall (fun s => 0 <= memsz s) segs -> load8 (foldl (write_segment data phys lo) m segs) a = image_byte phys lo segs (load8 m a) a.
Proof using Type.
  intros Hs. revert m. induction Hs as [|s segs H _ IH]; intros m; cbn [foldl image_byte]; [done|]. by rewrite IH, load8_write_segment.
Qed.

Lemma image_byte_out phys lo segs old a :
  Forall (fun s => ~ (phys + (vaddr s - lo) <= a < phys + (vaddr s - lo) + memsz s)) segs -> image_byte phys lo segs old a = old.
Proof using Type. induction 1 as [|s segs H _ IH]; cbn [image_byte]; [done|]. by rewrite decide_False. Qed.

Lemma image_byte_last phys lo l1 s l2 old a :
  let covers s := phys + (vaddr s - lo) <= a < phys + (vaddr s - lo) + memsz s in
  covers s -> Forall (fun s => ~ covers s) l2 ->
  image_byte phys lo (l1 ++ s :: l2) old a = seg_byte data s (a - (phys + (vaddr s - lo))).
Proof using Type.
  intros covers Hc H2. revert old. induction l1 as [|s1 l1 IH]; intros old; cbn [app image_byte]; [|apply IH].
  rewrite decide_True by done. by apply image_byte_out.
Qed.

#[local] Opaque page.free_set page.MAX_PAGES.
#[local] Abbreviation free p := (page.free_set (page.PAGE_BITMAP p)).

Lemma entry_pages v entry : vinv v -> (exists s, s ∈ segments v /\ vaddr s <= entry < vaddr s + memsz s) -> 0 < total_pages v.
Proof using Type.
  intros V (s & Hs & He). rewrite (v_total _ V). apply list_elem_of_split in Hs as (l1 & l2 & E). pose proof (v_segs _ V) as F. rewrite E in *.
  apply Forall_app in F as [F1 F2]. apply Forall_cons in F2 as [_ F2]. rewrite pages_of_app. cbn. fold (pages_of l2).
  pose proof (pages_of_nonneg l1 F1). pose proof (pages_of_nonneg l2 F2). unfold div_ceil, page.PAGE_SIZE. lia.
Qed.

(** A successful load: the segments lie in the window, the frames are fresh, and
    nothing outside them was written. *)
Record loaded (lo hi : Z) (p : page.state) (l : LoadedElf) (v : ValidatedElf) (q : Z) (p' : page.state) : Prop := {
  ld_valid : validate data = Ok (l_entry l, v);
  ld_inv : page.inv p';
  ld_same : page.same_frame p p';
  ld_phys : image_phys l = page.frame_addr p q /\ image_pages l = total_pages v /\ 0 <= q;
  ld_fresh : page.run q (image_pages l) ⊆ free p /\ free p' = free p ∖ page.run q (image_pages l);
  ld_segs : l_segments l = (fun s => (vaddr s, memsz s, seg_flags s)) <$> segments v;
  ld_place : Forall (fun s => lo <= vaddr s /\ vaddr s + memsz s <= hi /\ image_lo l <= vaddr s /\
    vaddr s - image_lo l + memsz s <= image_pages l * 4096) (segments v);
  ld_bytes : forall a, load8 (page.MEM p') a = image_byte (image_phys l) (image_lo l) (segments v) (load8 (page.MEM p) a) a;
  ld_span : exists max_end, extent lo hi (segments v) (2 ^ 32 - 1) 0 = Some (image_lo l, max_end) /\ div_ceil (max_end - image_lo l) = image_pages l;
}.

Lemma load_confined_ok lo hi p :
  page.inv p ->
  exists r p', load_confined data lo hi p = Ret (r, p') /\
    match r with
    | Err _ => page.inv p' /\ page.MEM p' = page.MEM p /\ free p' = free p /\ page.same_frame p p'
    | Ok l => exists v q, vinv v /\ loaded lo hi p l v q p'
    end.
Proof using Hdata.
  intros Hp. unfold load_confined. destruct (validate data) as [[entry v]|e] eqn:Ev; [|by exists (Err e), p].
  destruct (validate_ok entry v Ev) as (V & _ & _ & He). pose proof (entry_pages v entry V He) as Hpos.
  destruct (page.free_count p <? total_pages v); [by exists (Err OutOfMemory), p|]. unfold plan_confined_image.
  destruct (extent _ _ _ _ _) as [[lo_img max_end]|] eqn:Ee; [|by exists (Err InvalidSegment), p].
  destruct (Z.eqb_spec (div_ceil (max_end - lo_img)) (total_pages v)) as [Hspan|]; cbn [negb]; [|by exists (Err InvalidSegment), p].
  destruct (page.alloc_contiguous_ok p (total_pages v) Hp ltac:(lia)) as (op & p1 & -> & Hp1 & Hst & Hm & G). cbn [mbind outcome_bind].
  inversion Hst as [n q Hn Hq Hr Hmin Hn1 Hop HF|n Hnone Hn1 Hop HF]; subst; cbn [fmap option_fmap option_map].
  2: { exists (Err OutOfMemory), p1. cbn [mbind outcome_bind]. by split_and!. }
  cbn [mbind outcome_bind]. do 2 eexists. split; [reflexivity|]. exists v, q. split; [done|].
  apply extent_ok in Ee as Hplace. destruct Hplace as (_ & _ & Hplace).
  assert (Forall (fun s => 0 <= memsz s) (segments v)) as Hms.
  { eapply Forall_impl; [apply V|]. intros s [(_ & H & _) _ _ _]. unfold is_u32 in H. lia. }
  constructor; cbn [l_entry image_phys image_pages image_lo l_segments].
  - done.
  - destruct Hp1. by constructor.
  - exact G.
  - done.
  - split; [exact Hr|symmetry; exact HF].
  - done.
  - rewrite Forall_forall in Hplace, Hms |- *. intros s Hs. specialize (Hplace s Hs). specialize (Hms s Hs).
    unfold div_ceil, page.PAGE_SIZE in *. lia.
  - intros a. cbn [page.MEM page.with_mem]. by rewrite load8_image, Hm.
  - by exists max_end.
Qed.

Lemma seg_byte_u8 s off : is_u8 (seg_byte data s off).
Proof using Hdata.
  unfold seg_byte. destruct (off <? filesz s); [|done]. destruct (memguard.checked_add _ _) as [i|]; [|done].
  destruct (data !! Z.to_nat i) as [b|] eqn:E; [|done]. rewrite Forall_lookup in Hdata. by eapply Hdata.
Qed.

Lemma image_byte_u8 phys lo segs old a : is_u8 old -> is_u8 (image_byte phys lo segs old a).
Proof using Hdata.
  revert old. induction segs as [|s segs IH]; intros old Ho; cbn [image_byte]; [done|]. apply IH. destruct (decide _); [apply seg_byte_u8|done].
Qed.

Section loaded.
Context (lo hi : Z) (p : page.state) (l : LoadedElf) (v : ValidatedElf) (q : Z) (p' : page.state) (L : loaded lo hi p l v q p').

Lemma loaded_bytes : bytes (page.MEM p) -> bytes (page.MEM p').
Proof using Hdata L. intros Hb a. rewrite (ld_bytes _ _ _ _ _ _ _ L). apply image_byte_u8, Hb. Qed.

Lemma loaded_outside a : ~ (image_phys l <= a < image_phys l + image_pages l * 4096) -> load8 (page.MEM p') a = load8 (page.MEM p) a.
Proof using L.
  intros Ha. rewrite (ld_bytes _ _ _ _ _ _ _ L). apply image_byte_out. pose proof (ld_place _ _ _ _ _ _ _ L) as Hpl.
  rewrite Forall_forall in Hpl |- *. intros s Hs Hc. specialize (Hpl s Hs). apply Ha. lia.
Qed.

Lemma loaded_byte l1 s l2 off :
  vinv v -> segments v = l1 ++ s :: l2 -> 0 <= off < memsz s -> (forall s', s' ∈ l2 -> ~ (vaddr s' <= vaddr s + off < vaddr s' + memsz s')) ->
  Some (load8 (page.MEM p') (image_phys l + (vaddr s + off - image_lo l))) =
    if off <? filesz s then data !! Z.to_nat (file_offset s + off) else Some 0.
Proof using L.
  intros V Hs Hoff Hlast. rewrite (ld_bytes _ _ _ _ _ _ _ L), Hs, image_byte_last.
  - rewrite <- (seg_byte_spec s off); [do 2 f_equal; lia| |lia]. pose proof (v_segs _ V) as F. rewrite Forall_forall in F. apply F. rewrite Hs.
    apply elem_of_app. right. left.
  - lia.
  - apply Forall_forall. intros s' Hs' Hc. apply (Hlast s' Hs'). lia.
Qed.

Lemma loaded_lo : hi <= 2 ^ 31 -> exists s, s ∈ segments v /\ image_lo l = vaddr s.
Proof using L Hdata.
  intros Hhi. destruct (ld_span _ _ _ _ _ _ _ L) as (me & E & _). destruct (validate_ok _ _ (ld_valid _ _ _ _ _ _ _ L)) as (V & _ & _ & s & Hs & He).
  apply extent_lo in E as [Elo|(s' & Hs' & ->)]; [|by exists s']. pose proof (ld_place _ _ _ _ _ _ _ L) as Hpl. rewrite Forall_forall in Hpl. specialize (Hpl s Hs). lia.
Qed.
End loaded.

(** ** The tiling of the image *)

(** The pages of a segment, as page numbers. *)
Definition seg_pages (s : Segment) : list Z := seqZ (vaddr s / 4096) (div_ceil (memsz s)).

Lemma extent_attained lo hi segs lo0 hi0 a b :
  extent lo hi segs lo0 hi0 = Some (a, b) -> a = lo0 \/ exists s, s ∈ segs /\ a = vaddr s.
Proof using Type.
  revert lo0 hi0. induction segs as [|s segs IH]; intros lo0 hi0; cbn [extent]; [intros [= <- <-]; by left|].
  destruct (_ || _); [done|]. intros [H|(s' & Hs' & ->)]%IH; [|right; exists s'; split; [by right|done]].
  destruct (Z.min_spec lo0 (vaddr s)) as [[_ E]|[_ E]]; rewrite E in H; [by left|right; exists s; split; [left|done]].
Qed.

Lemma length_pages segs : Forall seg_ok segs -> Z.of_nat (length (segs ≫= seg_pages)) = pages_of segs.
Proof using Type.
  induction 1 as [|s segs Hs _ IH]; [done|]. cbn. fold (pages_of segs). rewrite length_app, Nat2Z.inj_add, IH. unfold seg_pages.
  rewrite length_seqZ. destruct Hs as [(_ & Hm & _) _ _ _]. pose proof (div_ceil_nonneg (memsz s)). unfold is_u32 in Hm. lia.
Qed.

Lemma plan_tiles lo hi v lo_img max_end :
  vinv v -> extent lo hi (segments v) (2 ^ 32 - 1) 0 = Some (lo_img, max_end) ->
  div_ceil (max_end - lo_img) = total_pages v -> 0 < total_pages v ->
  Forall (fun s => vaddr s mod 4096 = 0) (segments v) -> NoDup (segments v ≫= seg_pages) ->
  segments v ≫= seg_pages ≡ₚ seqZ (lo_img / 4096) (total_pages v).
Proof using Type.
  intros V Ee Hspan Hpos Hal Hnd. destruct (extent_ok _ _ _ _ _ _ _ Ee) as (_ & _ & Hin).
  assert (lo_img mod 4096 = 0) as Hlo.
  { destruct (extent_attained _ _ _ _ _ _ _ Ee) as [->|(s & Hs & ->)]; [|by rewrite Forall_forall in Hal; apply Hal].
    destruct (segments v) as [|s l] eqn:El; [rewrite (v_total _ V), El in Hpos; cbn in Hpos; lia|].
    apply Forall_cons in Hin as [(_ & _ & H & _) _]. pose proof (v_segs _ V) as F. rewrite El in F.
    apply Forall_cons in F as [[((_ & Hu) & _) _ _ _] _]. apply Forall_cons in Hal as [Ha _]. lia. }
  apply submseteq_length_Permutation.
  - apply NoDup_submseteq; [done|]. intros x (s & Hx & Hs)%list_elem_of_bind. apply elem_of_seqZ in Hx. rewrite Forall_forall in Hin, Hal.
    specialize (Hin s Hs). specialize (Hal s Hs). apply elem_of_seqZ. unfold div_ceil, page.PAGE_SIZE in *. lia.
  - pose proof (length_pages (segments v) (v_segs _ V)) as Hl. rewrite <- (v_total _ V) in Hl. rewrite length_seqZ. lia.
Qed.
End theory.

(** ** Theorems *)

(** Whatever bytes are offered as an image, validation answers; what it
    accepts has the ELF magic, at most sixteen segments of at most 2048 pages in
    all, counted exactly, each segment's bytes inside the file and its memory
    inside the DRAM user processes may use, and an entry point inside one of
    them. *)
Theorem validated_image_is_safe data entry v :
  Forall is_u8 data -> validate data = Ok (entry, v) ->
  take 4 data = ELF_MAGIC /\ (length (segments v) <= 16)%nat /\ total_pages v = pages_of (segments v) /\ total_pages v <= MAX_ELF_PAGES /\
  (forall s, s ∈ segments v -> file_offset s + filesz s <= Z.of_nat (length data) /\
     (memsz s = 0 \/ (memguard.KERNEL_END <= vaddr s /\ vaddr s + memsz s <= memguard.RAM_END))) /\
  exists s, s ∈ segments v /\ vaddr s <= entry < vaddr s + memsz s.
Proof.
  intros Hd Hv. destruct (validate_ok data Hd entry v Hv) as (V & Hm & _ & He). split_and!; try done; try apply V.
  intros s Hs. pose proof (v_segs _ _ V) as F. rewrite Forall_forall in F. destruct (F s Hs) as [_ H1 _ H2]. done.
Qed.

(** Loading an image into its window never panics. On an error the memory
    and the free frames are as before. On success the image got fresh contiguous
    frames; every byte of a segment that no later segment covers is the file's
    byte, or zero past the file's part; and no byte outside the new frames
    changed. *)
Theorem load_confined_exact data lo hi p :
  Forall is_u8 data -> page.inv p ->
  exists r p', load_confined data lo hi p = Ret (r, p') /\
    match r with
    | Err _ => page.MEM p' = page.MEM p /\ page.free_set (page.PAGE_BITMAP p') = page.free_set (page.PAGE_BITMAP p)
    | Ok l => exists v q, validate data = Ok (l_entry l, v) /\ image_phys l = page.frame_addr p q /\
        page.run q (image_pages l) ⊆ page.free_set (page.PAGE_BITMAP p) /\
        page.free_set (page.PAGE_BITMAP p') = page.free_set (page.PAGE_BITMAP p) ∖ page.run q (image_pages l) /\
        (forall l1 s l2 off, segments v = l1 ++ s :: l2 -> 0 <= off < memsz s ->
           (forall s', s' ∈ l2 -> ~ (vaddr s' <= vaddr s + off < vaddr s' + memsz s')) ->
           Some (load8 (page.MEM p') (image_phys l + (vaddr s + off - image_lo l))) =
             if off <? filesz s then data !! Z.to_nat (file_offset s + off) else Some 0) /\
        (forall a, ~ (image_phys l <= a < image_phys l + image_pages l * 4096) -> load8 (page.MEM p') a = load8 (page.MEM p) a)
    end.
Proof.
  intros Hd Hp. destruct (load_confined_ok data Hd lo hi p Hp) as (r & p' & E & H). exists r, p'. split; [exact E|].
  destruct r as [l|e]; [|by destruct H as (_ & ? & ? & _)]. destruct H as (v & q & V & L). exists v, q.
  split_and!; [apply L|apply L|apply L|apply L| |].
  - intros l1 s l2 off. by apply (loaded_byte data lo hi p l v q p').
  - apply (loaded_outside data lo hi p l v q p' L).
Qed.

(** When the segments of an accepted image are page-aligned and no two share
    a page, they tile the image's frames: every page belongs to exactly one. *)
Theorem disjoint_segments_tile_image data lo hi p l p' v :
  Forall is_u8 data -> page.inv p -> load_confined data lo hi p = Ret (Ok l, p') -> validate data = Ok (l_entry l, v) ->
  Forall (fun s => vaddr s mod 4096 = 0) (segments v) -> NoDup (segments v ≫= seg_pages) ->
  segments v ≫= seg_pages ≡ₚ seqZ (image_lo l / 4096) (image_pages l).
Proof.
  intros Hd Hp E Ev Hal Hnd. destruct (load_confined_ok data Hd lo hi p Hp) as (r & p1 & E' & H). rewrite E in E'. injection E' as <- <-.
  destruct H as (v' & q & V & L). pose proof (ld_valid _ _ _ _ _ _ _ _ L) as Ev'. rewrite Ev in Ev'. injection Ev' as <-.
  destruct (validate_ok data Hd _ _ Ev) as (_ & _ & _ & He). destruct (ld_phys _ _ _ _ _ _ _ _ L) as (_ & Hn & _).
  destruct (ld_span _ _ _ _ _ _ _ _ L) as (me & Ee & Hspan). rewrite Hn in *. eapply plan_tiles; try done. by eapply entry_pages.
Qed.

(** ** Two images *)

Definition le16 (x : Z) : list Z := [x mod 256; x / 256 mod 256].
Definition le32 (x : Z) : list Z := [x mod 256; x / 256 mod 256; x / 65536 mod 256; x / 16777216 mod 256].

Definition header (entry phnum : Z) : list Z :=
  ELF_MAGIC ++ [1; 1; 1; 0; 0; 0; 0; 0; 0; 0; 0; 0] ++ le16 2 ++ le16 40 ++ le32 1 ++ le32 entry ++ le32 52 ++ le32 0 ++ le32 0 ++
  le16 52 ++ le16 32 ++ le16 phnum ++ le16 0 ++ le16 0 ++ le16 0.
Definition phdr (off va fsz msz fl : Z) : list Z :=
  le32 1 ++ le32 off ++ le32 va ++ le32 va ++ le32 fsz ++ le32 msz ++ le32 fl ++ le32 4096.

(** One page of text with four bytes of code, then a page of data. *)
Definition good_elf : list Z :=
  header 0x7FF00000 2 ++ phdr 116 0x7FF00000 4 4096 5 ++ phdr 0 0x7FF01000 0 100 6 ++ [1; 2; 3; 4].

(** A page of text, a page of data over it, and a page of data two pages on. *)
Definition gappy_elf : list Z :=
  header 0x7FF00000 3 ++ phdr 0 0x7FF00000 0 4096 5 ++ phdr 0 0x7FF00000 0 4096 6 ++ phdr 0 0x7FF02000 0 4096 6.

(** The check that the span of the image equals the sum of its segments'
    pages does not rule gaps and overlaps out: an image with one page mapped by
    two segments and one page by none is accepted and loaded. *)
Theorem overlap_and_gap_accepted :
  match load_confined gappy_elf 0x7FF00000 0x80000000 page.demo, validate gappy_elf with
  | Ret (Ok l, _), Ok (_, v) =>
      segments v ≫= seg_pages = [0x7FF00; 0x7FF00; 0x7FF02] /\ seqZ (image_lo l / 4096) (image_pages l) = [0x7FF00; 0x7FF01; 0x7FF02]
  | _, _ => False
  end.
Proof. vm_compute. done. Qed.

Lemma good_bytes : Forall is_u8 good_elf.
Proof. apply (bool_decide_unpack _). vm_compute. exact I. Qed.

Definition good_v : ValidatedElf :=
  mk_validated [mk_seg 0x7FF00000 4096 4 116 5; mk_seg 0x7FF01000 100 0 0 6] 2.

Lemma good_valid : validate good_elf = Ok (0x7FF00000, good_v).
Proof. vm_compute. reflexivity. Qed.

Lemma validated_image_is_safe_witness : exists s, s ∈ segments good_v /\ vaddr s <= 0x7FF00000 < vaddr s + memsz s.
Proof. destruct (validated_image_is_safe good_elf 0x7FF00000 good_v good_bytes good_valid) as (_ & _ & _ & _ & _ & H). exact H. Defined.

Lemma load_confined_exact_witness :
  exists l p', load_confined good_elf 0x7FF00000 0x80000000 page.demo = Ret (Ok l, p') /\
    load8 (page.MEM p') (image_phys l + 2) = 3.
Proof.
  destruct (load_confined_exact good_elf 0x7FF00000 0x80000000 page.demo good_bytes page.demo_inv) as (r & p' & E & H).
  assert (match load_confined good_elf 0x7FF00000 0x80000000 page.demo with Ret (Ok l, _) => image_lo l = 0x7FF00000 | _ => False end) as Hok
    by (vm_compute; reflexivity).
  rewrite E in Hok. destruct r as [l|e]; [|destruct Hok]. exists l, p'. split; [exact E|].
  destruct H as (v & q & Hv & _ & _ & _ & Hb & _). assert (v = good_v) as -> by (rewrite good_valid in Hv; congruence).
  specialize (Hb [] (mk_seg 0x7FF00000 4096 4 116 5) [mk_seg 0x7FF01000 100 0 0 6] 2 eq_refl ltac:(cbn; lia)).
  rewrite Hok in Hb. cbn [vaddr] in Hb. replace (image_phys l + 2) with (image_phys l + (0x7FF00000 + 2 - 0x7FF00000)) by lia.
  enough (Some (load8 (page.MEM p') (image_phys l + (0x7FF00000 + 2 - 0x7FF00000))) = Some 3) as [=] by done.
  rewrite Hb; [vm_compute; reflexivity|]. intros s' ->%list_elem_of_singleton. cbn. lia.
Defined.

Lemma disjoint_segments_tile_image_witness :
  exists l p', load_confined good_elf 0x7FF00000 0x80000000 page.demo = Ret (Ok l, p') /\
    [0x7FF00; 0x7FF01] ≡ₚ seqZ (image_lo l / 4096) (image_pages l).
Proof.
  destruct (load_confined_ok good_elf good_bytes 0x7FF00000 0x80000000 page.demo page.demo_inv) as (r & p' & E & H).
  assert (match load_confined good_elf 0x7FF00000 0x80000000 page.demo with Ret (Ok l, _) => l_entry l = 0x7FF00000 | _ => False end) as Hok
    by (vm_compute; reflexivity).
  rewrite E in Hok. destruct r as [l|e]; [|destruct Hok]. exists l, p'. split; [exact E|]. destruct H as (v & q & _ & L).
  pose proof (ld_valid _ _ _ _ _ _ _ _ L) as Hv. assert (v = good_v) as -> by (rewrite good_valid in Hv; congruence).
  apply (disjoint_segments_tile_image good_elf 0x7FF00000 0x80000000 page.demo l p' good_v good_bytes page.demo_inv E Hv).
  - apply (bool_decide_unpack _). vm_compute. exact I.
  - apply (bool_decide_unpack _). vm_compute. exact I.
Defined.
End elf.
