(* ===== verification/Pipe.v ===== *)
(** * Pipes ([crates/thumos/src/pipe.rs])

    A pipe is a 4096-byte ring buffer with two ends that can be closed; the
    pool holds eight of them, at most four per process. The syscalls move at
    most [PIPE_COPY_CHUNK] bytes per call through the caller's memory, which
    is accessed through the [UserMemory] interface. [sys_pipe], which also
    installs descriptors, is in [Fd]. *)

From S2P Require Import Prelude Machine Ring Memguard.
Open Scope nat_scope.

Module pipe.

Definition MAX_PIPES : nat := 8.
Definition PIPE_BUF_SIZE : nat := 4096.
Definition PIPE_COPY_CHUNK : nat := 1024.
Definition MAX_PIPES_PER_PROCESS : nat := 4.
Definition EAGAIN : Z := errno 11.
Definition EPIPE : Z := errno 32.
Definition EBADF : Z := errno 9.
Definition EFAULT : Z := errno 14.

Record PipeBuffer := mk_pipe {
  data : list Z;
  read_pos : nat;
  write_pos : nat;
  count : nat;
  write_closed : bool;
  read_closed : bool;
  owner_pid : Z;
}.

Definition new (owner : Z) : PipeBuffer :=
  mk_pipe (replicate PIPE_BUF_SIZE 0%Z) 0 0 0 false false owner.

(** The loop of [write]: one array store and one modular increment per byte. *)
Fixpoint write_loop (d : list Z) (pos : nat) (src : list Z) : outcome (list Z * nat) :=
  match src with
  | [] => Ret (d, pos)
  | b :: src => d ← store d pos b; write_loop d ((pos + 1) mod PIPE_BUF_SIZE) src
  end.

Definition write (b : PipeBuffer) (src : list Z) : outcome (nat * PipeBuffer) :=
  let space := PIPE_BUF_SIZE - count b in
  if decide (space = 0) then Ret (0, b) else
  let to_write := length src `min` space in
  '(d, wp) ← write_loop (data b) (write_pos b) (take to_write src);
  Ret (to_write, mk_pipe d (read_pos b) wp (count b + to_write) (write_closed b) (read_closed b) (owner_pid b)).

(** The loop of [read] and of [peek]: the bytes and the final position. *)
Fixpoint read_loop (d : list Z) (pos n : nat) : outcome (list Z * nat) :=
  match n with
  | 0 => Ret ([], pos)
  | S n =>
      x ← index d pos;
      '(bs, pos) ← read_loop d ((pos + 1) mod PIPE_BUF_SIZE) n;
      Ret (x :: bs, pos)
  end.

(** [read]: the count, the new contents of [dst] and the buffer. *)
Definition read (b : PipeBuffer) (dst : list Z) : outcome (nat * list Z * PipeBuffer) :=
  if decide (count b = 0) then Ret (0, dst, b) else
  let to_read := length dst `min` count b in
  '(bs, rp) ← read_loop (data b) (read_pos b) to_read;
  Ret (to_read, bs ++ drop to_read dst,
       mk_pipe (data b) rp (write_pos b) (count b - to_read) (write_closed b) (read_closed b) (owner_pid b)).

Definition peek (b : PipeBuffer) (dst : list Z) : outcome (nat * list Z) :=
  let to_read := length dst `min` count b in
  '(bs, _) ← read_loop (data b) (read_pos b) to_read;
  Ret (to_read, bs ++ drop to_read dst).

Definition consume (b : PipeBuffer) (len : nat) : PipeBuffer :=
  let consumed := len `min` count b in
  mk_pipe (data b) ((read_pos b + consumed) mod PIPE_BUF_SIZE) (write_pos b) (count b - consumed)
    (write_closed b) (read_closed b) (owner_pid b).

Definition available (b : PipeBuffer) : nat := count b.
Definition is_full (b : PipeBuffer) : bool := bool_decide (count b = PIPE_BUF_SIZE).

(** ** The pool *)

Abbreviation pool := (list (option PipeBuffer)).

Definition PIPE_POOL_init : pool := replicate MAX_PIPES None.

Definition owned (owner : Z) (slot : option PipeBuffer) : bool :=
  match slot with Some buf => (owner_pid buf =? owner)%Z | None => false end.

Definition is_none {A} (o : option A) : bool := match o with None => true | Some _ => false end.

Definition alloc_pipe_slot (owner : Z) (p : pool) : option nat * pool :=
  if decide (MAX_PIPES_PER_PROCESS <= count_if (owned owner) p) then (None, p) else
  match list_find (fun slot => is_none slot = true) p with
  | Some (i, _) => (Some i, <[i := Some (new owner)]> p)
  | None => (None, p)
  end.

Definition maybe_free_pipe (idx : nat) (p : pool) : outcome pool :=
  slot ← index p idx;
  match slot with
  | Some buf => if write_closed buf && read_closed buf then store p idx None else Ret p
  | None => Ret p
  end.

Definition close_end (buf : PipeBuffer) (end_is_write : bool) : PipeBuffer :=
  mk_pipe (data buf) (read_pos buf) (write_pos buf) (count buf)
    (end_is_write || write_closed buf) (negb end_is_write || read_closed buf) (owner_pid buf).

Definition on_pipe_fd_closed (idx : nat) (end_is_write : bool) (p : pool) : outcome pool :=
  slot ← index p idx;
  p ← match slot with Some buf => store p idx (Some (close_end buf end_is_write)) | None => Ret p end;
  maybe_free_pipe idx p.

(** ** The flags word of a pipe descriptor *)

Definition FD_KIND_MASK : Z := 0xFF.
Definition FD_KIND_PIPE : Z := 1.
Definition FD_END_MASK : Z := 0x100.
Definition FD_END_READ : Z := 0.
Definition FD_END_WRITE : Z := 0x100.
Definition FD_PIPE_IDX_SHIFT : Z := 9.

Definition pipe_flags (pipe_idx : nat) (fd_end : Z) : Z :=
  Z.lor (Z.lor FD_KIND_PIPE fd_end) (wrap32 (Z.shiftl (wrap32 (Z.of_nat pipe_idx)) FD_PIPE_IDX_SHIFT)).

Definition pipe_idx_from_flags (flags : Z) : nat := Z.to_nat (Z.land (Z.shiftr flags FD_PIPE_IDX_SHIFT) 7).
Definition is_pipe_fd (flags : Z) : bool := (Z.land flags FD_KIND_MASK =? FD_KIND_PIPE)%Z.
Definition is_write_end (flags : Z) : bool := (Z.land flags FD_END_MASK =? FD_END_WRITE)%Z.

(** ** The syscalls *)

Section syscalls.
Context {U : Type} `{!UserMemory U}.

(** The caller's memory and the pool. *)
Record kstate := mk_kstate { um : U; PIPE_POOL : pool }.

Definition sys_pipe_read (idx : nat) (buf_ptr n : Z) (s : kstate) : outcome (Z * kstate) :=
  if (buf_ptr =? 0)%Z then Ret (EFAULT, s) else
  slot ← index (PIPE_POOL s) idx;
  match slot with
  | None => Ret (EBADF, s)
  | Some buf =>
      if decide (available buf = 0) then Ret (if write_closed buf then 0%Z else EAGAIN, s) else
      let transfer_len := (Z.to_nat n `min` available buf) `min` PIPE_COPY_CHUNK in
      if negb (um_range (um s) buf_ptr (Z.of_nat transfer_len) true) then Ret (EFAULT, s) else
      '(rd, dst) ← peek buf (replicate transfer_len 0%Z);
      let '(u, ok) := um_copy_to (um s) buf_ptr (take rd dst) in
      if ok : bool then
        p ← store (PIPE_POOL s) idx (Some (consume buf rd));
        Ret (Z.of_nat rd, mk_kstate u p)
      else Ret (EFAULT, mk_kstate u (PIPE_POOL s))
  end.

(** The third component is the process SIGPIPE is delivered to, if any. *)
Definition sys_pipe_write (idx : nat) (buf_ptr n writer_pid : Z) (s : kstate)
    : outcome (Z * option Z * kstate) :=
  if (buf_ptr =? 0)%Z then Ret (EFAULT, None, s) else
  slot ← index (PIPE_POOL s) idx;
  match slot with
  | None => Ret (EBADF, None, s)
  | Some buf =>
      if read_closed buf then Ret (EPIPE, Some writer_pid, s) else
      if is_full buf then Ret (EAGAIN, None, s) else
      let transfer_len := (Z.to_nat n `min` (PIPE_BUF_SIZE - available buf)) `min` PIPE_COPY_CHUNK in
      if negb (um_range (um s) buf_ptr (Z.of_nat transfer_len) false) then Ret (EFAULT, None, s) else
      match um_copy_from (um s) buf_ptr transfer_len with
      | None => Ret (EFAULT, None, s)
      | Some src =>
          '(written, buf) ← write buf src;
          p ← store (PIPE_POOL s) idx (Some buf);
          Ret (Z.of_nat written, None, mk_kstate (um s) p)
      end
  end.
End syscalls.
Arguments kstate : clear implicits.
(** ** The buffer implements a byte queue *)

(** [holds b q]: the ring is well formed and holds the bytes [q], oldest first. *)
Record holds (b : PipeBuffer) (q : list Z) : Prop := {
  holds_len : length (data b) = PIPE_BUF_SIZE;
  holds_read : read_pos b < PIPE_BUF_SIZE;
  holds_write : write_pos b = (read_pos b + count b) mod PIPE_BUF_SIZE;
  holds_count : count b <= PIPE_BUF_SIZE;
  holds_view : ring_view (data b) (read_pos b) (count b) = q;
}.

Lemma holds_length b q : holds b q -> length q = count b.
Proof. intros [_ _ _ _ <-]. apply length_ring_view. Qed.

Lemma buf_size_pos : PIPE_BUF_SIZE <> 0.
Proof. done. Qed.

#[local] Opaque PIPE_BUF_SIZE.

Lemma holds_new owner : holds (new owner) [].
Proof.
  constructor; cbn; [apply length_replicate|pose proof buf_size_pos; lia| |lia|done].
  rewrite Nat.Div0.mod_0_l. done.
Qed.

Lemma write_loop_ok d pos cnt src :
  length d = PIPE_BUF_SIZE -> cnt + length src <= PIPE_BUF_SIZE ->
  exists d', write_loop d ((pos + cnt) mod PIPE_BUF_SIZE) src =
      Ret (d', (pos + (cnt + length src)) mod PIPE_BUF_SIZE) /\
    length d' = PIPE_BUF_SIZE /\ ring_view d' pos (cnt + length src) = ring_view d pos cnt ++ src.
Proof.
  revert d cnt. induction src as [|b src IH]; intros d cnt Hd Hc; cbn [write_loop length] in *.
  { exists d. by rewrite Nat.add_0_r, app_nil_r. }
  rewrite store_lt by (rewrite Hd; apply Nat.mod_upper_bound, buf_size_pos). cbn [mbind outcome_bind].
  rewrite Nat.Div0.add_mod_idemp_l. replace (pos + cnt + 1) with (pos + S cnt) by lia.
  destruct (IH (<[(pos + cnt) mod PIPE_BUF_SIZE := b]> d) (S cnt)) as (d' & -> & Hl & Hv);
    [by rewrite length_insert|lia|].
  exists d'. rewrite <- Nat.add_succ_comm. split_and!; [done|done|]. rewrite Hv.
  rewrite <- Hd at 1. rewrite ring_view_push by lia. by rewrite <- app_assoc.
Qed.

Lemma read_loop_ok d pos n :
  length d = PIPE_BUF_SIZE -> pos < PIPE_BUF_SIZE ->
  read_loop d pos n = Ret (ring_view d pos n, (pos + n) mod PIPE_BUF_SIZE).
Proof.
  intros Hd. revert pos. induction n as [|n IH]; intros pos Hp; cbn [read_loop].
  { by rewrite Nat.add_0_r, Nat.mod_small. }
  rewrite index_total by lia. cbn [mbind outcome_bind].
  rewrite IH by apply Nat.mod_upper_bound, buf_size_pos. rewrite ring_view_succ, Hd, (Nat.mod_small pos) by done.
  rewrite Nat.Div0.add_mod_idemp_l. replace (pos + S n) with (pos + 1 + n) by lia. by rewrite Nat.add_1_r.
Qed.

Lemma ring_view_take (d : list Z) pos cnt n : n <= cnt -> ring_view d pos n = take n (ring_view d pos cnt).
Proof.
  intros Hn. unfold ring_view. rewrite <- fmap_take, take_seq. do 2 f_equal. lia.
Qed.

Lemma write_ok b q src :
  holds b q ->
  let n := length src `min` (PIPE_BUF_SIZE - length q) in
  exists b', write b src = Ret (n, b') /\ holds b' (q ++ take n src) /\
    write_closed b' = write_closed b /\ read_closed b' = read_closed b /\ owner_pid b' = owner_pid b.
Proof.
  intros H n. pose proof (holds_length _ _ H) as Hl. destruct H as [H1 H2 H3 H4 H5]. unfold write, n.
  rewrite Hl. case_decide as Hs.
  { exists b. rewrite Hs, Nat.min_0_r, take_0, app_nil_r. by split_and!. }
  destruct (write_loop_ok (data b) (read_pos b) (count b) (take n src)) as (d' & Hw & Hd & Hv);
    [done|rewrite length_take; lia|].
  assert (length (take n src) = n) as Hn by (rewrite length_take; lia).
  unfold n in *. rewrite Hl in *. rewrite H3, Hw. cbn [mbind outcome_bind]. eexists. split; [done|].
  split; [|done]. rewrite Hn in *.
  constructor; cbn [data read_pos write_pos count]; [done|done|done|lia|].
  by rewrite Hv, H5.
Qed.

Lemma peek_ok b q dst :
  holds b q -> peek b dst =
    Ret (length dst `min` length q, take (length dst) q ++ drop (length dst `min` length q) dst).
Proof.
  intros H. pose proof (holds_length _ _ H) as Hl. destruct H as [H1 H2 H3 H4 H5]. unfold peek.
  rewrite read_loop_ok by done. cbn [mbind outcome_bind]. rewrite Hl. f_equal. f_equal. f_equal.
  rewrite (ring_view_take _ _ (count b)) by lia. rewrite H5.
  destruct (decide (length dst <= count b)); [by rewrite Nat.min_l|].
  rewrite Nat.min_r by lia. by rewrite !take_ge by lia.
Qed.

Lemma consume_ok b q n :
  holds b q -> n <= length q -> holds (consume b n) (drop n q).
Proof.
  intros H Hn. pose proof (holds_length _ _ H) as Hl. destruct H as [H1 H2 H3 H4 H5]. unfold consume.
  rewrite Nat.min_l by lia. constructor; cbn [data read_pos write_pos count]; [done| | |lia|].
  - apply Nat.mod_upper_bound, buf_size_pos.
  - rewrite H3, Nat.Div0.add_mod_idemp_l. f_equal. lia.
  - rewrite <- H1 at 1. rewrite ring_view_drop by lia. by rewrite H5.
Qed.

Lemma read_ok b q dst :
  holds b q ->
  exists b', read b dst = Ret (length dst `min` length q,
      take (length dst) q ++ drop (length dst `min` length q) dst, b') /\
    holds b' (drop (length dst) q).
Proof.
  intros H. pose proof (holds_length _ _ H) as Hl. pose proof (peek_ok b q dst H) as Hp.
  pose proof (consume_ok b q (length dst `min` length q) H ltac:(lia)) as Hc.
  unfold read, peek, consume in *. rewrite Hl in *. destruct H as [H1 H2 H3 H4 H5]. case_decide as H0.
  { exists b. assert (q = []) as -> by (apply nil_length_inv; lia).
    rewrite H0, Nat.min_0_r, take_nil, drop_nil, drop_0. split; [done|by constructor]. }
  rewrite read_loop_ok in * by done. cbn [mbind outcome_bind] in *. injection Hp as Hp.
  eexists. rewrite Hp. split; [done|].
  rewrite (Nat.min_l (length dst `min` count b)) in Hc by lia.
  destruct (decide (length dst <= count b)); [by rewrite Nat.min_l in *|].
  rewrite Nat.min_r in * by lia. rewrite !drop_ge in * by lia. done.
Qed.

(** ** The specification: eight bounded byte queues *)

Record apipe := mk_apipe {
  bytes : list Z;
  wclosed : bool;
  rclosed : bool;
  owner : Z;
}.

Inductive op :=
  | Open (pid : Z)
  | Read (flags buf_ptr n : Z)
  | Write (flags buf_ptr n pid : Z)
  | Close (flags : Z).

Definition aowned (pid : Z) (a : option apipe) : bool :=
  match a with Some a => (owner a =? pid)%Z | None => false end.

Section spec.
Context {U : Type} `{!UserMemory U, !UserMemoryLaws U}.

Abbreviation astate := (U * list (option apipe))%type.

(** The return value of a call and the process SIGPIPE is delivered to. *)
Abbreviation reply := (Z * option Z)%type.

Definition spec_open (pid : Z) (s : astate) : reply * astate :=
  let '(u, ap) := s in
  if decide (4 <= count_if (aowned pid) ap) then ((-1)%Z, None, s) else
  match list_find (fun a => is_none a = true) ap with
  | Some (i, _) => (Z.of_nat i, None, (u, <[i := Some (mk_apipe [] false false pid)]> ap))
  | None => ((-1)%Z, None, s)
  end.

(** A read delivers a prefix of the queue, at most a chunk; the bytes leave
    the queue only when they have reached the caller. *)
Definition spec_read (idx : nat) (buf_ptr n : Z) (s : astate) : reply * astate :=
  let '(u, ap) := s in
  if (buf_ptr =? 0)%Z then (EFAULT, None, s) else
  match ap !! idx with
  | Some (Some (mk_apipe q wc rc o)) =>
      if decide (q = []) then ((if wc then 0%Z else EAGAIN), None, s) else
      let bs := take (Z.to_nat n `min` PIPE_COPY_CHUNK) q in
      let '(u', ok) := um_copy_to u buf_ptr bs in
      if ok : bool
      then (Z.of_nat (length bs), None, (u', <[idx := Some (mk_apipe (drop (length bs) q) wc rc o)]> ap))
      else (EFAULT, None, (u', ap))
  | _ => (EBADF, None, s)
  end.

(** A write appends what fits, at most a chunk, of the caller's bytes. *)
Definition spec_write (idx : nat) (buf_ptr n pid : Z) (s : astate) : reply * astate :=
  let '(u, ap) := s in
  if (buf_ptr =? 0)%Z then (EFAULT, None, s) else
  match ap !! idx with
  | Some (Some (mk_apipe q wc rc o)) =>
      if rc then (EPIPE, Some pid, s) else
      if decide (length q = PIPE_BUF_SIZE) then (EAGAIN, None, s) else
      match um_copy_from u buf_ptr ((Z.to_nat n `min` (PIPE_BUF_SIZE - length q)) `min` PIPE_COPY_CHUNK) with
      | None => (EFAULT, None, s)
      | Some bs => (Z.of_nat (length bs), None, (u, <[idx := Some (mk_apipe (q ++ bs) wc rc o)]> ap))
      end
  | _ => (EBADF, None, s)
  end.

(** Closing the second end forgets the pipe. *)
Definition spec_close (idx : nat) (end_is_write : bool) (s : astate) : reply * astate :=
  let '(u, ap) := s in
  match ap !! idx with
  | Some (Some (mk_apipe q wc rc o)) =>
      let wc' := (end_is_write || wc)%bool in
      let rc' := (negb end_is_write || rc)%bool in
      (0%Z, None, (u, <[idx := if wc' && rc' then None else Some (mk_apipe q wc' rc' o)]> ap))
  | _ => (0%Z, None, s)
  end.

Definition spec_step (o : op) (s : astate) : reply * astate :=
  match o with
  | Open pid => spec_open pid s
  | Read flags buf_ptr n => spec_read (pipe_idx_from_flags flags) buf_ptr n s
  | Write flags buf_ptr n pid => spec_write (pipe_idx_from_flags flags) buf_ptr n pid s
  | Close flags => spec_close (pipe_idx_from_flags flags) (is_write_end flags) s
  end.

Definition impl_step (o : op) (s : kstate U) : outcome (reply * kstate U) :=
  match o with
  | Open pid =>
      let '(i, p) := alloc_pipe_slot pid (PIPE_POOL s) in
      Ret (match i with Some i => Z.of_nat i | None => (-1)%Z end, None, mk_kstate (um s) p)
  | Read flags buf_ptr n =>
      '(r, s) ← sys_pipe_read (pipe_idx_from_flags flags) buf_ptr n s; Ret (r, None, s)
  | Write flags buf_ptr n pid => sys_pipe_write (pipe_idx_from_flags flags) buf_ptr n pid s
  | Close flags =>
      p ← on_pipe_fd_closed (pipe_idx_from_flags flags) (is_write_end flags) (PIPE_POOL s);
      Ret (0%Z, None, mk_kstate (um s) p)
  end.

Fixpoint spec_run (os : list op) (s : astate) : list reply * astate :=
  match os with
  | [] => ([], s)
  | o :: os => let '(r, s) := spec_step o s in let '(rs, s) := spec_run os s in (r :: rs, s)
  end.

Fixpoint impl_run (os : list op) (s : kstate U) : outcome (list reply * kstate U) :=
  match os with
  | [] => Ret ([], s)
  | o :: os =>
      '(r, s) ← impl_step o s;
      '(rs, s) ← impl_run os s;
      Ret (r :: rs, s)
  end.

(** ** Refinement *)

Definition slot_abs (slot : option PipeBuffer) (a : option apipe) : Prop :=
  match slot, a with
  | None, None => True
  | Some b, Some (mk_apipe q wc rc o) =>
      holds b q /\ write_closed b = wc /\ read_closed b = rc /\ owner_pid b = o
  | _, _ => False
  end.

Definition abs (s : kstate U) (a : astate) : Prop :=
  um s = a.1 /\ Forall2 slot_abs (PIPE_POOL s) a.2 /\ length (PIPE_POOL s) = MAX_PIPES.

Lemma pipe_idx_bound flags : pipe_idx_from_flags flags < MAX_PIPES.
Proof using Type.
  unfold pipe_idx_from_flags, MAX_PIPES. change 7%Z with (Z.ones 3). rewrite Z.land_ones by lia.
  pose proof (Z.mod_pos_bound (Z.shiftr flags FD_PIPE_IDX_SHIFT) (2 ^ 3) ltac:(lia)). lia.
Qed.

Lemma abs_slot s a idx :
  abs s a -> idx < MAX_PIPES ->
  exists slot x, index (PIPE_POOL s) idx = Ret slot /\ a.2 !! idx = Some x /\ slot_abs slot x.
Proof using Type.
  intros (_ & Hf & Hl) Hi. destruct (lookup_lt_is_Some_2 (PIPE_POOL s) idx) as [slot Hs]; [lia|].
  destruct (Forall2_lookup_l _ _ _ _ _ Hf Hs) as (x & Hx & Ha).
  exists slot, x. split_and!; [by apply index_lt|done|done].
Qed.

Lemma abs_insert u p ap idx slot x :
  abs (mk_kstate u p) (u, ap) -> slot_abs slot x ->
  abs (mk_kstate u (<[idx := slot]> p)) (u, <[idx := x]> ap).
Proof using Type.
  intros (_ & Hf & Hl) Hs. split_and!; [done| |by cbn; rewrite length_insert].
  by apply Forall2_insert.
Qed.

Lemma abs_um u u' p ap : abs (mk_kstate u p) (u, ap) -> abs (mk_kstate u' p) (u', ap).
Proof using Type. by intros (_ & Hf & Hl). Qed.

Lemma owned_abs pid p ap :
  Forall2 slot_abs p ap -> count_if (owned pid) p = count_if (aowned pid) ap.
Proof using Type.
  induction 1 as [|slot x p ap Hs _ IH]; [done|]. rewrite !count_if_cons, IH. f_equal.
  destruct slot as [b|], x as [[]|]; try done. destruct Hs as (_ & _ & _ & Ho). cbn. by rewrite Ho.
Qed.

Lemma find_abs p ap :
  Forall2 slot_abs p ap ->
  fst <$> list_find (fun slot => is_none slot = true) p = fst <$> list_find (fun a => is_none a = true) ap.
Proof using Type.
  induction 1 as [|slot x p ap Hs _ IH]; [done|]. cbn.
  destruct slot as [b|], x as [a|]; try done; cbn.
  destruct (list_find _ p) as [[]|], (list_find _ ap) as [[]|]; naive_solver.
Qed.

Lemma open_refines pid s a :
  abs s a ->
  exists s', impl_step (Open pid) s = Ret ((spec_step (Open pid) a).1, s') /\ abs s' (spec_step (Open pid) a).2.
Proof using Type.
  destruct s as [u p], a as [u' ap]. intros Ha. destruct Ha as (E & Hf & Hl). cbn in E, Hf, Hl. subst u'.
  cbn [impl_step spec_step spec_open PIPE_POOL um]. unfold alloc_pipe_slot, MAX_PIPES_PER_PROCESS.
  rewrite (owned_abs pid p ap Hf). case_decide; [by eexists|].
  pose proof (find_abs p ap Hf) as Hfind.
  destruct (list_find _ p) as [[i ?]|], (list_find _ ap) as [[j ?]|]; cbn in Hfind; simplify_eq;
    [|by eexists].
  eexists. split; [done|]. apply abs_insert; [done|]. cbn. by split; [apply holds_new|].
Qed.

Lemma read_refines flags buf_ptr n s a :
  abs s a ->
  exists s', impl_step (Read flags buf_ptr n) s = Ret ((spec_step (Read flags buf_ptr n) a).1, s') /\
    abs s' (spec_step (Read flags buf_ptr n) a).2.
Proof using All.
  destruct s as [u p], a as [u' ap]. intros Ha. assert (u = u') as <- by apply Ha.
  pose proof (pipe_idx_bound flags) as Hi. cbn [impl_step spec_step].
  destruct (abs_slot _ _ _ Ha Hi) as (slot & x & Hs & Hx & Hsx). cbn [PIPE_POOL snd] in Hs, Hx.
  set (idx := pipe_idx_from_flags flags) in *. unfold sys_pipe_read, spec_read. cbn [um PIPE_POOL].
  destruct (buf_ptr =? 0)%Z; [by eexists|]. rewrite Hs, Hx. cbn [mbind outcome_bind].
  destruct slot as [b|], x as [[q wc rc o]|]; try done; [|by eexists].
  destruct Hsx as (Hh & Hwc & Hrc & Ho). pose proof (holds_length _ _ Hh) as Hl. unfold available.
  rewrite <- Hl, Hwc. destruct q as [|x q0]; [by eexists|].
  rewrite decide_False by done. rewrite decide_False by done. set (q := x :: q0) in *.
  set (t := (Z.to_nat n `min` length q) `min` PIPE_COPY_CHUNK).
  assert (take (Z.to_nat n `min` PIPE_COPY_CHUNK) q = take t q) as Ht.
  { unfold t. destruct (decide (Z.to_nat n `min` PIPE_COPY_CHUNK <= length q)).
    - f_equal. lia.
    - rewrite !take_ge by lia. done. }
  assert (length (take t q) = t) as Hlt by (rewrite length_take; lia).
  rewrite peek_ok with (q := q) by done. rewrite length_replicate, Ht.
  destruct (um_range u buf_ptr (Z.of_nat t) true) eqn:Hr; cbn [negb].
  2:{ rewrite um_to_refused by (by rewrite Hlt). by eexists. }
  cbn [mbind outcome_bind]. rewrite Nat.min_l by lia. rewrite take_app_le by lia.
  rewrite take_take, Nat.min_id. destruct (um_copy_to u buf_ptr (take t q)) as [u2 ok].
  destruct ok; [|eexists; split; [done|by eapply abs_um]].
  rewrite store_lt by (destruct Ha as (_ & _ & Hlen); cbn in Hlen; lia). cbn [mbind outcome_bind]. rewrite Hlt.
  eexists. split; [done|]. apply abs_insert; [by eapply abs_um|].
  split; [apply consume_ok; [done|lia]|done].
Qed.

Lemma write_refines flags buf_ptr n pid s a :
  abs s a ->
  exists s', impl_step (Write flags buf_ptr n pid) s = Ret ((spec_step (Write flags buf_ptr n pid) a).1, s') /\
    abs s' (spec_step (Write flags buf_ptr n pid) a).2.
Proof using All.
  destruct s as [u p], a as [u' ap]. intros Ha. assert (u = u') as <- by apply Ha.
  pose proof (pipe_idx_bound flags) as Hi. cbn [impl_step spec_step].
  destruct (abs_slot _ _ _ Ha Hi) as (slot & x & Hs & Hx & Hsx). cbn [PIPE_POOL snd] in Hs, Hx.
  set (idx := pipe_idx_from_flags flags) in *. unfold sys_pipe_write, spec_write. cbn [um PIPE_POOL].
  destruct (buf_ptr =? 0)%Z; [by eexists|]. rewrite Hs, Hx. cbn [mbind outcome_bind].
  destruct slot as [b|], x as [[q wc rc o]|]; try done; [|by eexists].
  destruct Hsx as (Hh & Hwc & Hrc & Ho). pose proof (holds_length _ _ Hh) as Hl. unfold available, is_full.
  rewrite Hrc, <- Hl. destruct rc; [by eexists|].
  case_decide as Hfull; [rewrite bool_decide_true by done; by eexists|]. rewrite bool_decide_false by done.
  set (t := (Z.to_nat n `min` (PIPE_BUF_SIZE - length q)) `min` PIPE_COPY_CHUNK).
  destruct (um_copy_from u buf_ptr t) as [bs|] eqn:Hc.
  2:{ destruct (um_range _ _ _ _); cbn [negb]; by eexists. }
  rewrite (um_from_range _ _ _ _ Hc). cbn [negb]. pose proof (um_from_length _ _ _ _ Hc) as Hbl.
  destruct (write_ok b q bs Hh) as (b' & Hw & Hh' & Hwc' & Hrc' & Ho').
  rewrite Hw. cbn [mbind outcome_bind]. rewrite Nat.min_l in * by lia. rewrite take_ge in Hh' by lia.
  rewrite store_lt by (destruct Ha as (_ & _ & Hlen); cbn in Hlen; lia). cbn [mbind outcome_bind].
  eexists. split; [done|]. apply abs_insert; [done|]. split; [done|]. split_and!; congruence.
Qed.

Lemma close_refines flags s a :
  abs s a ->
  exists s', impl_step (Close flags) s = Ret ((spec_step (Close flags) a).1, s') /\
    abs s' (spec_step (Close flags) a).2.
Proof using Type.
  destruct s as [u p], a as [u' ap]. intros Ha. assert (u = u') as <- by apply Ha.
  pose proof (pipe_idx_bound flags) as Hi. cbn [impl_step spec_step].
  destruct (abs_slot _ _ _ Ha Hi) as (slot & x & Hs & Hx & Hsx). cbn [PIPE_POOL snd] in Hs, Hx.
  set (idx := pipe_idx_from_flags flags) in *. unfold on_pipe_fd_closed, spec_close, maybe_free_pipe.
  cbn [um PIPE_POOL]. rewrite Hs, Hx. cbn [mbind outcome_bind].
  assert (idx < length p) as Hlt by (destruct Ha as (_ & _ & Hlen); cbn in Hlen; lia).
  destruct slot as [b|], x as [[q wc rc o]|]; try done.
  - destruct Hsx as (Hh & Hwc & Hrc & Ho). rewrite store_lt by done. cbn [mbind outcome_bind].
    rewrite (index_lt _ idx (Some (close_end b (is_write_end flags)))) by (by apply list_lookup_insert_eq).
    cbn [mbind outcome_bind close_end write_closed read_closed]. rewrite Hwc, Hrc.
    destruct (_ && _)%bool.
    + rewrite store_lt by (by rewrite length_insert). cbn [mbind outcome_bind].
      rewrite list_insert_insert_eq. eexists. split; [done|]. by apply abs_insert.
    + cbn [mbind outcome_bind]. eexists. split; [done|]. apply abs_insert; [done|].
      subst. destruct Hh. by split; [constructor|].
  - cbn [mbind outcome_bind]. rewrite Hs. cbn [mbind outcome_bind]. by eexists.
Qed.

Lemma step_refines o s a :
  abs s a -> exists s', impl_step o s = Ret ((spec_step o a).1, s') /\ abs s' (spec_step o a).2.
Proof using All.
  destruct o; [apply open_refines|by apply read_refines|by apply write_refines|apply close_refines].
Qed.

Lemma run_refines os s a :
  abs s a -> exists s', impl_run os s = Ret ((spec_run os a).1, s') /\ abs s' (spec_run os a).2.
Proof using All.
  revert s a. induction os as [|o os IH]; intros s a Ha; [by eexists|].
  destruct (step_refines o s a Ha) as (s1 & E1 & Ha1). cbn [impl_run spec_run]. rewrite E1.
  cbn [mbind outcome_bind]. destruct (spec_step o a) as [r a1]. cbn [fst snd] in *.
  destruct (IH s1 a1 Ha1) as (s2 & E2 & Ha2). rewrite E2. cbn [mbind outcome_bind].
  destruct (spec_run os a1) as [rs a2]. by eexists.
Qed.

Definition init (u : U) : kstate U := mk_kstate u PIPE_POOL_init.
Definition spec_init (u : U) : astate := (u, replicate MAX_PIPES None).

Lemma abs_init u : abs (init u) (spec_init u).
Proof using Type.
  split_and!; [done| |done]. apply Forall2_replicate. done.
Qed.

Definition quota (a : astate) : Prop := forall pid, count_if (aowned pid) a.2 <= MAX_PIPES_PER_PROCESS.

(** A step that keeps the owner of a slot, or empties it, keeps the quota. *)
Lemma quota_insert u ap i x y :
  quota (u, ap) -> ap !! i = Some x -> (forall pid, aowned pid y = true -> aowned pid x = true) ->
  quota (u, <[i := y]> ap).
Proof using Type.
  intros Hq Hx Hown pid. specialize (Hq pid). cbn [snd] in *.
  pose proof (count_if_insert (aowned pid) ap i x y Hx) as Hc. specialize (Hown pid).
  destruct (aowned pid x), (aowned pid y); lia || by specialize (Hown eq_refl).
Qed.

Lemma quota_step o a : quota a -> quota (spec_step o a).2.
Proof using Type.
  intros Hq. destruct a as [u ap], o as [pid|flags ptr n|flags ptr n pid|flags]; cbn [spec_step].
  - unfold spec_open. case_decide as Hc; [done|].
    destruct (list_find _ ap) as [[i x]|] eqn:E; [|done]. apply list_find_Some in E as (Hx & Hn & _).
    intros pid'. specialize (Hq pid'). cbn [snd] in *. destruct x; [done|].
    pose proof (count_if_insert (aowned pid') ap i None (Some (mk_apipe [] false false pid)) Hx) as Hi.
    cbn [aowned owner] in Hi. unfold MAX_PIPES_PER_PROCESS in *.
    destruct (Z.eqb_spec pid pid') as [->|]; lia.
  - unfold spec_read. destruct (ptr =? 0)%Z; [done|].
    destruct (ap !! _) as [[[q wc rc o]|]|] eqn:Hx; [|done..]. case_decide; [done|].
    destruct (um_copy_to _ _ _) as [u' []]; [|done]. by eapply (quota_insert u').
  - unfold spec_write. destruct (ptr =? 0)%Z; [done|].
    destruct (ap !! _) as [[[q wc rc o]|]|] eqn:Hx; [|done..]. destruct rc; [done|].
    case_decide; [done|]. destruct (um_copy_from _ _ _); [|done]. by eapply quota_insert.
  - unfold spec_close. destruct (ap !! _) as [[[q wc rc o]|]|] eqn:Hx; [|done..].
    eapply quota_insert; [done|done|]. intros pid. by destruct (_ && _)%bool.
Qed.

Lemma quota_run os a : quota a -> quota (spec_run os a).2.
Proof using Type.
  revert a. induction os as [|o os IH]; intros a Hq; [done|]. cbn [spec_run].
  pose proof (quota_step o a Hq) as Hq1. destruct (spec_step o a) as [r a1].
  specialize (IH a1 Hq1). by destruct (spec_run os a1).
Qed.

(** C23: whatever pipes a workload opens, reads, writes and closes, the ring
    buffers, the pool and the user copies behave as eight bounded byte
    queues: the same results, the same SIGPIPEs and the same caller memory,
    and no operation panics. *)
Theorem pipes_refine_byte_queues os u :
  exists s', impl_run os (init u) = Ret ((spec_run os (spec_init u)).1, s') /\
    abs s' (spec_run os (spec_init u)).2.
Proof using All. apply run_refines, abs_init. Qed.

(** No workload gives a process more than [MAX_PIPES_PER_PROCESS] pipes. *)
Theorem pipe_quota os u :
  exists rs s', impl_run os (init u) = Ret (rs, s') /\
    forall pid, count_if (owned pid) (PIPE_POOL s') <= MAX_PIPES_PER_PROCESS.
Proof using All.
  destruct (run_refines os _ _ (abs_init u)) as (s' & E & (_ & Hf & _)).
  exists (spec_run os (spec_init u)).1, s'. split; [done|]. intros pid. rewrite (owned_abs pid _ _ Hf).
  apply quota_run. intros pid'. cbn. lia.
Qed.

(** The flags word of a pipe descriptor identifies it as a pipe and gives
    back its index and its end. *)
Theorem pipe_flags_roundtrip idx (w : bool) :
  idx < MAX_PIPES ->
  let flags := pipe_flags idx (if w then FD_END_WRITE else FD_END_READ) in
  is_u32 flags /\ is_pipe_fd flags = true /\ pipe_idx_from_flags flags = idx /\ is_write_end flags = w.
Proof using Type.
  unfold MAX_PIPES. intros Hi.
  do 8 (destruct idx as [|idx]; [destruct w; vm_compute; split_and!; done|]). lia.
Qed.

End spec.

(** ** Witnesses: a workload on the memory of [memguard.caller] *)

Definition workload : list op :=
  [Open 5; Read 0x001 0x10003010 8; Write 0x101 0x10003010 3 5; Write 0x101 0x20000000 3 5;
   Read 0x001 0x10003020 2; Read 0x001 0x10003020 8; Close 0x001; Write 0x101 0x10003010 3 5; Close 0x101;
   Read 0x001 0x10003020 1].

Lemma pipes_refine_byte_queues_witness :
  exists s', impl_run workload (init memguard.caller) =
    Ret ([(0, None); (EAGAIN, None); (3, None); (EFAULT, None); (2, None); (1, None); (0, None);
          (EPIPE, Some 5); (0, None); (EBADF, None)]%Z, s').
Proof.
  destruct (pipes_refine_byte_queues workload memguard.caller) as (s' & -> & _).
  exists s'. vm_compute. reflexivity.
Defined.

Lemma pipe_quota_witness :
  exists rs s', impl_run (replicate 6 (Open 5)) (init memguard.caller) = Ret (rs, s') /\
    count_if (owned 5) (PIPE_POOL s') <= 4.
Proof.
  destruct (pipe_quota (replicate 6 (Open 5)) memguard.caller) as (rs & s' & E & H).
  exists rs, s'. split; [exact E|exact (H 5%Z)].
Defined.

Lemma pipe_flags_roundtrip_witness :
  pipe_idx_from_flags (pipe_flags 7 FD_END_WRITE) = 7 /\ is_write_end (pipe_flags 7 FD_END_WRITE) = true.
Proof.
  destruct (pipe_flags_roundtrip 7 true) as (_ & _ & H1 & H2); [unfold MAX_PIPES; lia|]. by split.
Defined.
End pipe.
