(* ===== verification/Fd.v ===== *)
(** * File descriptors ([crates/thumos/src/fd.rs], [sys_pipe] of [pipe.rs])

    The two-level model: per-process tables map descriptor numbers to
    entries, and entries name reference-counted open-file descriptions (OFDs)
    in one system-wide table. The state of this file is that part of the
    process table the descriptor syscalls see (the tables and the current
    process), the OFD table, the pipe pool and the caller's memory; the calls
    into the socket layer ([socket::on_socket_fd_closed]) are recorded in
    [released]. Path resolution ([vfs::resolve_path]) is an argument of
    [sys_open]. *)

From S2P Require Import Prelude Machine Memguard Pipe.
Open Scope nat_scope.

Module fd.

Definition MAX_FDS : nat := 256.
Definition MAX_OFDS : nat := 256.
Definition MAX_PATH : nat := 256.
Definition EBADF : Z := errno 9.
Definition ENOENT : Z := errno 2.
Definition EMFILE : Z := errno 24.
Definition ENFILE : Z := errno 23.
Definition EINVAL : Z := errno 22.
Definition EFAULT : Z := errno 14.
Definition ENOTTY : Z := errno 25.
Definition F_DUPFD : Z := 0.
Definition F_GETFD : Z := 1.
Definition F_SETFD : Z := 2.
Definition F_GETFL : Z := 3.
Definition F_SETFL : Z := 4.
Definition FD_CLOEXEC : Z := 1.
Definition O_APPEND : Z := 0x400.
Definition O_CLOEXEC : Z := 0x80000.
Definition SEEK_SET : Z := 0.
Definition SEEK_CUR : Z := 1.
Definition SEEK_END : Z := 2.
Definition FD_KIND_SOCKET : Z := 2.

Record FileDescriptor := mk_desc { mount_idx : Z; inode_id : Z; offset : Z; flags : Z }.
Record FdEntry := mk_entry { ofd : nat; cloexec : bool }.
Record OpenFile := mk_ofd { desc : FileDescriptor; refs : Z }.

Abbreviation FdTable := (list (option FdEntry)).

Definition from_vfs (mount_idx inode_id flags : Z) : FileDescriptor := mk_desc mount_idx inode_id 0 flags.
(** [FileDescriptor::new(&[], flags)], for pipes. *)
Definition new_desc (flags : Z) : FileDescriptor := mk_desc 0 0 0 flags.

(** [Option::flatten]. *)
Definition flatten {A} (o : option (option A)) : option A := match o with Some x => x | None => None end.

(** ** The per-process table: an array of [MAX_FDS] entries *)

Definition empty_table : FdTable := replicate MAX_FDS None.

(** The first free slot of a table. *)
Definition first_free {A} (l : list (option A)) : option nat :=
  fst <$> list_find (fun o => pipe.is_none o = true) l.

Definition alloc (t : FdTable) (e : FdEntry) : option nat * FdTable :=
  match first_free t with
  | Some i => (Some i, <[i := Some e]> t)
  | None => (None, t)
  end.

Definition alloc_at (t : FdTable) (i : nat) (e : FdEntry) : bool * FdTable :=
  if decide (MAX_FDS <= i) then (false, t) else (true, <[i := Some e]> t).

Definition alloc_from (t : FdTable) (min_fd : nat) (e : FdEntry) : option nat * FdTable :=
  if decide (MAX_FDS <= min_fd) then (None, t) else
  match first_free (drop min_fd t) with
  | Some i => (Some (min_fd + i), <[min_fd + i := Some e]> t)
  | None => (None, t)
  end.

Definition get (t : FdTable) (i : nat) : option FdEntry :=
  if decide (MAX_FDS <= i) then None else flatten (t !! i).

Definition take_fd (t : FdTable) (i : nat) : option FdEntry * FdTable :=
  if decide (MAX_FDS <= i) then (None, t) else (flatten (t !! i), <[i := None]> t).

(** ** The open-file descriptions *)

Abbreviation OfdTable := (list (option OpenFile)).

Definition ofd_alloc (d : FileDescriptor) (ofds : OfdTable) : option nat * OfdTable :=
  match first_free ofds with
  | Some i => (Some i, <[i := Some (mk_ofd d 1)]> ofds)
  | None => (None, ofds)
  end.

(** [refs.saturating_add(1)] and [refs.saturating_sub(1)] on a [u32]. *)
Definition sat_inc (r : Z) : Z := Z.min (r + 1) (2 ^ 32 - 1).
Definition sat_dec (r : Z) : Z := Z.max (r - 1) 0.

Definition ofd_ref (idx : nat) (ofds : OfdTable) : OfdTable :=
  match ofds !! idx with
  | Some (Some o) => <[idx := Some (mk_ofd (desc o) (sat_inc (refs o)))]> ofds
  | _ => ofds
  end.

Definition is_socket_fd (flags : Z) : bool := (Z.land flags pipe.FD_KIND_MASK =? FD_KIND_SOCKET)%Z.

(** [core::str::from_utf8]: the byte sequences of the Unicode standard's
    table of well-formed UTF-8. *)
Definition cont (b : Z) : bool := ((0x80 <=? b) && (b <=? 0xBF))%Z.
Definition within (lo hi b : Z) : bool := ((lo <=? b) && (b <=? hi))%Z.

Fixpoint utf8_valid (bs : list Z) : bool :=
  match bs with
  | [] => true
  | b :: bs =>
      if within 0 0x7F b then utf8_valid bs
      else if within 0xC2 0xDF b then
        match bs with c :: bs => cont c && utf8_valid bs | _ => false end
      else if within 0xE0 0xEF b then
        match bs with
        | c :: d :: bs =>
            (if b =? 0xE0 then within 0xA0 0xBF c else if b =? 0xED then within 0x80 0x9F c else cont c)%Z
            && cont d && utf8_valid bs
        | _ => false
        end
      else if within 0xF0 0xF4 b then
        match bs with
        | c :: d :: e :: bs =>
            (if b =? 0xF0 then within 0x90 0xBF c else if b =? 0xF4 then within 0x80 0x8F c else cont c)%Z
            && cont d && cont e && utf8_valid bs
        | _ => false
        end
      else false
  end.

Inductive VfsError :=
  | NotFound | NotADirectory | IsADirectory | AlreadyExists | NotEmpty | InvalidPath | NoSpace
  | IoError | PermissionDenied | TooManyLinks | RequiresMut.

(** The errno [sys_open] returns for a failed path resolution. *)
Definition open_errno (e : VfsError) : Z :=
  match e with
  | NotFound => ENOENT
  | NotADirectory => errno 20
  | IsADirectory => errno 21
  | AlreadyExists => errno 17
  | NotEmpty => errno 39
  | InvalidPath => EINVAL
  | NoSpace => errno 28
  | IoError | RequiresMut => errno 5
  | PermissionDenied => errno 13
  | TooManyLinks => errno 31
  end.

Section kernel.
Context {U : Type} `{!UserMemory U}.

Record kernel := mk_kernel {
  tables : list (option FdTable);
  CURRENT : nat;
  OFD_TABLE : OfdTable;
  PIPE_POOL : pipe.pool;
  released : list nat;
  um : U;
}.

Definition set_tables (k : kernel) ts :=
  mk_kernel ts (CURRENT k) (OFD_TABLE k) (PIPE_POOL k) (released k) (um k).
Definition set_ofds (k : kernel) o := mk_kernel (tables k) (CURRENT k) o (PIPE_POOL k) (released k) (um k).
Definition set_pool (k : kernel) p := mk_kernel (tables k) (CURRENT k) (OFD_TABLE k) p (released k) (um k).
Definition set_um (k : kernel) u :=
  mk_kernel (tables k) (CURRENT k) (OFD_TABLE k) (PIPE_POOL k) (released k) u.
Definition release_socket (k : kernel) (idx : nat) :=
  mk_kernel (tables k) (CURRENT k) (OFD_TABLE k) (PIPE_POOL k) (released k ++ [idx]) (um k).

(** [process::with_current_fds(f)]: [None] when the current PCB is absent. *)
Definition with_current_fds {R} (f : FdTable -> R * FdTable) (k : kernel) : outcome (option R * kernel) :=
  slot ← index (tables k) (CURRENT k);
  match slot with
  | None => Ret (None, k)
  | Some t =>
      let '(r, t) := f t in
      ts ← store (tables k) (CURRENT k) (Some t);
      Ret (Some r, set_tables k ts)
  end.

Definition ofd_unref (idx : nat) (k : kernel) : outcome kernel :=
  match OFD_TABLE k !! idx with
  | Some (Some o) =>
      let r := sat_dec (refs o) in
      if (r =? 0)%Z then
        let d := desc o in
        let k := set_ofds k (<[idx := None]> (OFD_TABLE k)) in
        k ← (if pipe.is_pipe_fd (flags d) then
               p ← pipe.on_pipe_fd_closed (pipe.pipe_idx_from_flags (flags d)) (pipe.is_write_end (flags d))
                     (PIPE_POOL k);
               Ret (set_pool k p)
             else Ret k);
        Ret (if is_socket_fd (flags d) then release_socket k idx else k)
      else Ret (set_ofds k (<[idx := Some (mk_ofd (desc o) r)]> (OFD_TABLE k)))
  | _ => Ret k
  end.

Definition resolve_fd (f : nat) (k : kernel) : outcome (option nat) :=
  '(r, _) ← with_current_fds (fun t => (option_map ofd (get t f), t)) k;
  Ret (flatten r).

Definition current_fd_flags (f : nat) (k : kernel) : outcome (option Z) :=
  r ← resolve_fd f k;
  Ret (match r with
       | Some i => match flatten (OFD_TABLE k !! i) with Some o => Some (flags (desc o)) | None => None end
       | None => None
       end).

Definition install_current_fd (i : nat) (k : kernel) : outcome (option nat * kernel) :=
  '(r, k) ← with_current_fds (fun t => alloc t (mk_entry i false)) k;
  Ret (flatten r, k).

(** The loop of [fork_table]: one reference per entry. *)
Fixpoint ref_entries (t : FdTable) (ofds : OfdTable) : OfdTable :=
  match t with
  | [] => ofds
  | slot :: t => ref_entries t (match slot with Some e => ofd_ref (ofd e) ofds | None => ofds end)
  end.

Definition fork_table (parent : FdTable) (ofds : OfdTable) : FdTable * OfdTable :=
  (parent, ref_entries parent ofds).

(** The loop shared by [close_all] and [close_cloexec] over the table of
    process [proc]: the slots [ns] whose entry [sel] selects are taken and
    their descriptions unreferenced, in order. *)
Fixpoint close_slots (sel : FdEntry -> bool) (proc : nat) (ns : list nat) (k : kernel) : outcome kernel :=
  match ns with
  | [] => Ret k
  | n :: ns =>
      slot ← index (tables k) proc;
      match slot with
      | None => Ret k
      | Some t =>
          match flatten (t !! n) with
          | Some e =>
              if sel e then
                ts ← store (tables k) proc (Some (<[n := None]> t));
                k ← ofd_unref (ofd e) (set_tables k ts);
                close_slots sel proc ns k
              else close_slots sel proc ns k
          | None => close_slots sel proc ns k
          end
      end
  end.

Definition close_all (proc : nat) (k : kernel) : outcome kernel :=
  close_slots (fun _ => true) proc (seq 0 MAX_FDS) k.
Definition close_cloexec (proc : nat) (k : kernel) : outcome kernel :=
  close_slots cloexec proc (seq 0 MAX_FDS) k.

(** ** The syscalls *)

Definition sys_close (f : Z) (k : kernel) : outcome (Z * kernel) :=
  '(taken, k) ← with_current_fds (fun t => take_fd t (Z.to_nat f)) k;
  match flatten taken with
  | Some e => k ← ofd_unref (ofd e) k; Ret (0%Z, k)
  | None => Ret (EBADF, k)
  end.

(** The closure of [sys_dup] and of [F_DUPFD], which share their shape. *)
Definition dup_with (place : FdTable -> FdEntry -> option nat * FdTable) (f : nat) (k : kernel)
    : outcome (Z * kernel) :=
  '(r, k) ← with_current_fds (fun t =>
     match get t f with
     | None => (Err EBADF, t)
     | Some e =>
         match place t (mk_entry (ofd e) false) with
         | (Some n, t) => (Ok (n, ofd e), t)
         | (None, t) => (Err EMFILE, t)
         end
     end) k;
  match r with
  | Some (Ok (n, i)) => Ret (Z.of_nat n, set_ofds k (ofd_ref i (OFD_TABLE k)))
  | Some (Err e) => Ret (e, k)
  | None => Ret (EBADF, k)
  end.

Definition sys_dup (f : Z) (k : kernel) : outcome (Z * kernel) := dup_with alloc (Z.to_nat f) k.

Definition sys_dup2 (oldfd newfd : Z) (k : kernel) : outcome (Z * kernel) :=
  let old_idx := Z.to_nat oldfd in
  let new_idx := Z.to_nat newfd in
  if decide (MAX_FDS <= new_idx) then Ret (EBADF, k) else
  '(r, k) ← with_current_fds (fun t =>
     match get t old_idx with
     | None => (Err EBADF, t)
     | Some e =>
         if decide (old_idx = new_idx) then (Ok (None, None), t) else
         let '(displaced, t) := take_fd t new_idx in
         let '(ok, t) := alloc_at t new_idx (mk_entry (ofd e) false) in
         if ok : bool then (Ok (Some (ofd e), displaced), t) else (Err EBADF, t)
     end) k;
  match r with
  | Some (Ok (installed, displaced)) =>
      let k := match installed with Some i => set_ofds k (ofd_ref i (OFD_TABLE k)) | None => k end in
      k ← match displaced with Some d => ofd_unref (ofd d) k | None => Ret k end;
      Ret (newfd, k)
  | Some (Err e) => Ret (e, k)
  | None => Ret (EBADF, k)
  end.

Definition sys_fcntl (f cmd arg : Z) (k : kernel) : outcome (Z * kernel) :=
  let i := Z.to_nat f in
  if (cmd =? F_GETFD)%Z then
    '(r, k) ← with_current_fds (fun t => (option_map (fun e => if cloexec e then FD_CLOEXEC else 0%Z) (get t i), t)) k;
    Ret (default EBADF (flatten r), k)
  else if (cmd =? F_SETFD)%Z then
    '(r, k) ← with_current_fds (fun t =>
       match get t i with
       | Some e => (Some 0%Z, <[i := Some (mk_entry (ofd e) (negb (Z.land arg FD_CLOEXEC =? 0)%Z))]> t)
       | None => (None, t)
       end) k;
    Ret (default EBADF (flatten r), k)
  else if (cmd =? F_GETFL)%Z then
    r ← current_fd_flags i k; Ret (default EBADF r, k)
  else if (cmd =? F_SETFL)%Z then
    r ← resolve_fd i k;
    match r with
    | None => Ret (EBADF, k)
    | Some j =>
        slot ← index (OFD_TABLE k) j;
        match slot with
        | Some o =>
            let d := desc o in
            let fl := Z.lor (Z.land (flags d) (not32 O_APPEND)) (Z.land arg O_APPEND) in
            let d := mk_desc (mount_idx d) (inode_id d) (offset d) fl in
            Ret (0%Z, set_ofds k (<[j := Some (mk_ofd d (refs o))]> (OFD_TABLE k)))
        | None => Ret (EBADF, k)
        end
    end
  else if (cmd =? F_DUPFD)%Z then dup_with (fun t e => alloc_from t (Z.to_nat arg) e) i k
  else Ret (EINVAL, k).

Definition sys_ioctl (f : Z) (k : kernel) : outcome Z :=
  r ← resolve_fd (Z.to_nat f) k;
  Ret (match r with Some _ => ENOTTY | None => EBADF end).

(** [u32::cast_signed]. *)
Definition cast_signed (v : Z) : Z := if (v <? 2 ^ 31)%Z then v else (v - 2 ^ 32)%Z.

(** [sys_lseek]; [size] is [FileDescriptor::size] of the description, the size
    the file system reports. The sums stay far inside [i64]. *)
Definition sys_lseek (size : FileDescriptor -> Z) (f off whence : Z) (k : kernel) : outcome (Z * kernel) :=
  r ← resolve_fd (Z.to_nat f) k;
  match r with
  | None => Ret (EBADF, k)
  | Some j =>
      slot ← index (OFD_TABLE k) j;
      match slot with
      | None => Ret (EBADF, k)
      | Some o =>
          let d := desc o in
          let s := cast_signed off in
          let new_pos :=
            if (whence =? SEEK_SET)%Z then Some s
            else if (whence =? SEEK_CUR)%Z then Some (offset d + s)%Z
            else if (whence =? SEEK_END)%Z then Some (size d + s)%Z
            else None in
          match new_pos with
          | None => Ret (EINVAL, k)
          | Some p =>
              if negb ((0 <=? p) && (p <=? 0x7FFFFFFF))%Z then Ret (EINVAL, k) else
              let d := mk_desc (mount_idx d) (inode_id d) p (flags d) in
              Ret (p, set_ofds k (<[j := Some (mk_ofd d (refs o))]> (OFD_TABLE k)))
          end
      end
  end.

Definition copy_user_path (path_ptr : Z) (len : nat) (k : kernel) : result (list Z) Z :=
  if decide (MAX_PATH < len) then Err EINVAL else
  match um_copy_from (um k) path_ptr len with
  | None => Err EFAULT
  | Some bs => if utf8_valid bs then Ok bs else Err EINVAL
  end.

(** [sys_open]; [resolve_path] is the mount-table lookup. *)
Definition sys_open (resolve_path : list Z -> result (Z * Z) VfsError) (path_ptr path_len oflags : Z)
    (k : kernel) : outcome (Z * kernel) :=
  let len := Z.to_nat path_len in
  if ((path_ptr =? 0)%Z || (len =? 0)%nat) then Ret (ENOENT, k) else
  if decide (MAX_PATH < len) then Ret (ENOENT, k) else
  match copy_user_path path_ptr len k with
  | Err e => Ret (e, k)
  | Ok path =>
      match resolve_path path with
      | Err e => Ret (open_errno e, k)
      | Ok (mnt, ino) =>
          let cx := negb (Z.land oflags O_CLOEXEC =? 0)%Z in
          let d := from_vfs (wrap8 mnt) ino (Z.land oflags (not32 O_CLOEXEC)) in
          match ofd_alloc d (OFD_TABLE k) with
          | (None, _) => Ret (ENFILE, k)
          | (Some i, ofds) =>
              '(r, k) ← with_current_fds (fun t => alloc t (mk_entry i cx)) (set_ofds k ofds);
              match flatten r with
              | Some n => Ret (Z.of_nat n, k)
              | None => k ← ofd_unref i k; Ret (EMFILE, k)
              end
          end
      end
  end.

(** The closure of [sys_pipe] that installs both ends, or neither. *)
Definition install_pair (ri wi : nat) (t : FdTable) : option (nat * nat) * FdTable :=
  match alloc t (mk_entry ri false) with
  | (None, t) => (None, t)
  | (Some r, t) =>
      match alloc t (mk_entry wi false) with
      | (None, t) => (None, (take_fd t r).2)
      | (Some w, t) => (Some (r, w), t)
      end
  end.

(** [pool[pipe_idx] = None]. *)
Definition free_pipe_slot (pipe_idx : nat) (k : kernel) : outcome kernel :=
  p ← store (PIPE_POOL k) pipe_idx None; Ret (set_pool k p).

Definition sys_pipe (fds_ptr : Z) (k : kernel) : outcome (Z * kernel) :=
  if negb (um_range (um k) fds_ptr 8 true) then Ret (EFAULT, k) else
  match pipe.alloc_pipe_slot (Z.of_nat (CURRENT k)) (PIPE_POOL k) with
  | (None, _) => Ret (EMFILE, k)
  | (Some pipe_idx, p) =>
      let k := set_pool k p in
      match ofd_alloc (new_desc (pipe.pipe_flags pipe_idx pipe.FD_END_READ)) (OFD_TABLE k) with
      | (None, _) => k ← free_pipe_slot pipe_idx k; Ret (EMFILE, k)
      | (Some read_ofd, ofds) =>
          let k := set_ofds k ofds in
          match ofd_alloc (new_desc (pipe.pipe_flags pipe_idx pipe.FD_END_WRITE)) (OFD_TABLE k) with
          | (None, _) =>
              k ← ofd_unref read_ofd k;
              k ← free_pipe_slot pipe_idx k;
              Ret (EMFILE, k)
          | (Some write_ofd, ofds) =>
              '(installed, k) ← with_current_fds (install_pair read_ofd write_ofd) (set_ofds k ofds);
              match flatten installed with
              | None =>
                  k ← ofd_unref read_ofd k;
                  k ← ofd_unref write_ofd k;
                  k ← free_pipe_slot pipe_idx k;
                  Ret (EMFILE, k)
              | Some (read_fd, write_fd) =>
                  let encoded := le_bytes (Z.of_nat read_fd) ++ le_bytes (Z.of_nat write_fd) in
                  let '(u, ok) := um_copy_to (um k) fds_ptr encoded in
                  let k := set_um k u in
                  if ok : bool then Ret (0%Z, k) else
                  '(_, k) ← with_current_fds (fun t =>
                     let '(r, t) := take_fd t read_fd in
                     let '(w, t) := take_fd t write_fd in ((r, w), t)) k;
                  k ← ofd_unref read_ofd k;
                  k ← ofd_unref write_ofd k;
                  Ret (EFAULT, k)
              end
          end
      end
  end.
End kernel.
Arguments kernel : clear implicits.
(** ** Reference counts *)

(** The entry names description [i]; the number of entries that do. *)
Definition names (i : nat) (o : option FdEntry) : bool :=
  match o with Some e => bool_decide (ofd e = i) | None => false end.
Definition table_refs (i : nat) (t : FdTable) : nat := count_if (names i) t.
Definition slot_refs (i : nat) (slot : option FdTable) : nat :=
  match slot with Some t => table_refs i t | None => 0 end.
Definition total (i : nat) (ts : list (option FdTable)) : nat := sum_list (slot_refs i <$> ts).

Definition refcount (ofds : OfdTable) (i : nat) : Z :=
  match ofds !! i with Some (Some o) => refs o | _ => 0%Z end.

(** One reference to [j]. *)
Definition at_ (j i : nat) : Z := if decide (i = j) then 1%Z else 0%Z.

Definition MAX_PROCS : nat := 16.

Lemma names_self i (e : FdEntry) : (if names i (Some e) then 1 else 0) = Z.to_nat (at_ (ofd e) i).
Proof. unfold names, at_. case_bool_decide; case_decide; done || congruence. Qed.

Lemma table_refs_insert i t n x y :
  t !! n = Some x ->
  table_refs i (<[n := y]> t) + (if names i x then 1 else 0) = table_refs i t + (if names i y then 1 else 0).
Proof. apply count_if_insert. Qed.

Lemma first_free_Some {A} (l : list (option A)) i : first_free l = Some i -> l !! i = Some None.
Proof.
  unfold first_free. destruct (list_find _ l) as [[j x]|] eqn:E; [|done]. intros [= <-].
  apply list_find_Some in E as (Hx & Hn & _). by destruct x.
Qed.

(** Installing an entry in a free slot adds one reference. *)
Lemma install_refs t n e t' i :
  t !! n = Some None -> t' = <[n := Some e]> t ->
  Z.of_nat (table_refs i t') = (Z.of_nat (table_refs i t) + at_ (ofd e) i)%Z.
Proof.
  intros Hn ->. pose proof (table_refs_insert i t n None (Some e) Hn) as H.
  rewrite names_self in H. cbn [names] in H. unfold at_ in *. case_decide; lia.
Qed.

Lemma alloc_refs t e n t' :
  alloc t e = (Some n, t') -> t !! n = Some None /\ t' = <[n := Some e]> t.
Proof.
  unfold alloc. destruct (first_free t) as [j|] eqn:E; [|done]. intros [= <- <-].
  by apply first_free_Some in E.
Qed.

Lemma alloc_none t e t' : alloc t e = (None, t') -> t' = t.
Proof. unfold alloc. by destruct (first_free t); intros [= <-]. Qed.

Lemma alloc_from_refs t m e n t' :
  alloc_from t m e = (Some n, t') -> t !! n = Some None /\ t' = <[n := Some e]> t.
Proof.
  unfold alloc_from. case_decide; [done|]. destruct (first_free (drop m t)) as [j|] eqn:E; [|done].
  intros [= <- <-]. apply first_free_Some in E. by rewrite lookup_drop in E.
Qed.

Lemma alloc_from_none t m e t' : alloc_from t m e = (None, t') -> t' = t.
Proof. unfold alloc_from. case_decide; [by intros [= <-]|]. by destruct (first_free _); intros [= <-]. Qed.

Lemma get_Some t n e : get t n = Some e -> t !! n = Some (Some e).
Proof. unfold get. case_decide; [done|]. by destruct (t !! n) as [[]|]; intros [= ->]. Qed.

(** Taking an entry out drops its reference. *)
Lemma take_refs t n o t' i :
  take_fd t n = (o, t') ->
  length t' = length t /\
  Z.of_nat (table_refs i t) =
    (Z.of_nat (table_refs i t') + match o with Some e => at_ (ofd e) i | None => 0 end)%Z.
Proof.
  unfold take_fd. case_decide as Hm; intros [= <- <-]; [split; lia|]. rewrite length_insert. split; [done|].
  destruct (t !! n) as [x|] eqn:Hx.
  - pose proof (table_refs_insert i t n x None Hx) as H. cbn [flatten]. cbn [names] in H.
    destruct x as [e|]; [rewrite names_self in H; unfold at_ in *; case_decide; lia|cbn [names] in H; lia].
  - rewrite list_insert_ge by (by apply lookup_ge_None). cbn. lia.
Qed.

Section refs.
Context {U : Type} `{!UserMemory U}.
Implicit Types (k : kernel U) (x : nat -> Z).

(** The counts of all descriptions equal the entries that name them, up to
    the references [x] an operation holds on the side. *)
Record bal x k : Prop := {
  bal_tables : length (tables k) = MAX_PROCS;
  bal_cur : CURRENT k < MAX_PROCS;
  bal_len : forall n t, tables k !! n = Some (Some t) -> length t = MAX_FDS;
  bal_ofds : length (OFD_TABLE k) = MAX_OFDS;
  bal_pool : length (PIPE_POOL k) = pipe.MAX_PIPES;
  bal_refs : forall i, refcount (OFD_TABLE k) i = (Z.of_nat (total i (tables k)) + x i)%Z;
  bal_pos : forall i o, OFD_TABLE k !! i = Some (Some o) -> (0 < refs o)%Z;
}.

(** Between syscalls nothing is held on the side. *)
Definition balanced k : Prop := bal (fun _ => 0%Z) k.

Lemma bal_ext x y k : bal x k -> (forall i, x i = y i) -> bal y k.
Proof using Type. intros [] H. constructor; try done. intros i. by rewrite <- H. Qed.

Lemma total_bound x k i : bal x k -> total i (tables k) <= 4096.
Proof using Type.
  intros [Ht _ Hl _ _ _ _]. unfold total.
  etrans; [apply (sum_list_bound _ _ MAX_FDS)|rewrite Ht; done].
  intros [t|] Hin; [|cbn; lia]. apply list_elem_of_lookup in Hin as [n Hn]. cbn. unfold table_refs.
  etrans; [apply count_if_le|]. by rewrite (Hl n t Hn).
Qed.

(** Changing the current table moves its references to the side. *)
Lemma bal_set_table x y k c slot t' :
  bal x k -> tables k !! c = Some slot -> length t' = MAX_FDS ->
  (forall i, Z.of_nat (table_refs i t') + y i = Z.of_nat (slot_refs i slot) + x i)%Z ->
  bal y (set_tables k (<[c := Some t']> (tables k))).
Proof using Type.
  intros [Ht Hc Hl Ho Hp Hr Hpos] Hcur Hlt Hd. pose proof (lookup_lt_Some _ _ _ Hcur). constructor; cbn [set_tables tables CURRENT OFD_TABLE PIPE_POOL]; try done.
  - by rewrite length_insert.
  - intros n u Hn. destruct (decide (n = c)) as [->|].
    + rewrite list_lookup_insert_eq in Hn by done. by injection Hn as <-.
    + rewrite list_lookup_insert_ne in Hn by done. by eapply Hl.
  - intros i. rewrite Hr. pose proof (sum_list_insert (slot_refs i) (tables k) c _ (Some t') Hcur) as Hs.
    fold (total i (<[c := Some t']> (tables k))) (total i (tables k)) in Hs. cbn [slot_refs] in Hs.
    specialize (Hd i). lia.
Qed.

Lemma with_current_fds_ok {R} (f : FdTable -> R * FdTable) x k :
  bal x k ->
  (tables k !! CURRENT k = Some None /\ with_current_fds f k = Ret (None, k)) \/
  (exists t, tables k !! CURRENT k = Some (Some t) /\ length t = MAX_FDS /\
    with_current_fds f k =
      Ret (Some (f t).1, set_tables k (<[CURRENT k := Some (f t).2]> (tables k)))).
Proof using Type.
  intros H. destruct H as [Ht Hc Hl _ _ _ _].
  destruct (lookup_lt_is_Some_2 (tables k) (CURRENT k)) as [slot Hs]; [lia|].
  unfold with_current_fds. rewrite (index_lt _ _ _ Hs). cbn [mbind outcome_bind].
  destruct slot as [t|]; [right|by left]. exists t. split_and!; [done|by eapply Hl|].
  destruct (f t) as [r t']. by rewrite store_lt by lia.
Qed.

(** ** The description table *)

Lemma refcount_insert ofds j o i :
  j < length ofds ->
  refcount (<[j := o]> ofds) i =
    if decide (i = j) then match o with Some d => refs d | None => 0%Z end else refcount ofds i.
Proof using Type.
  intros Hj. unfold refcount. case_decide as He.
  - subst i. by rewrite list_lookup_insert_eq.
  - by rewrite list_lookup_insert_ne.
Qed.

Lemma refcount_live ofds j : (0 < refcount ofds j)%Z -> exists o, ofds !! j = Some (Some o) /\ refs o = refcount ofds j.
Proof using Type. unfold refcount. destruct (ofds !! j) as [[o|]|]; try lia. by exists o. Qed.

Lemma bal_ofd x y k ofds :
  bal x k -> length ofds = MAX_OFDS ->
  (forall i, refcount ofds i - y i = refcount (OFD_TABLE k) i - x i)%Z ->
  (forall i o, ofds !! i = Some (Some o) -> (0 < refs o)%Z) ->
  bal y (set_ofds k ofds).
Proof using Type.
  intros [Ht Hc Hl Ho Hp Hr Hpos] Hlen Hd Hpos'. constructor; cbn [set_ofds tables CURRENT OFD_TABLE PIPE_POOL]; try done.
  intros i. specialize (Hd i). specialize (Hr i). lia.
Qed.

Lemma bal_insert_pos x k j o :
  bal x k -> (match o with Some d => (0 < refs d)%Z | None => True end) ->
  forall i d, <[j := o]> (OFD_TABLE k) !! i = Some (Some d) -> (0 < refs d)%Z.
Proof using Type.
  intros Hb Ho i d. destruct (decide (i = j)) as [->|].
  - destruct (decide (j < length (OFD_TABLE k))).
    + rewrite list_lookup_insert_eq by done. by intros [= ->].
    + rewrite list_insert_ge by lia. apply (bal_pos _ _ Hb).
  - rewrite list_lookup_insert_ne by done. apply (bal_pos _ _ Hb).
Qed.

(** Taking a description for a fresh one leaves its reference on the side. *)
Lemma ofd_alloc_ok x k d :
  bal x k ->
  match ofd_alloc d (OFD_TABLE k) with
  | (Some j, ofds) => bal (fun i => x i + at_ j i)%Z (set_ofds k ofds)
  | (None, _) => True
  end.
Proof using Type.
  intros Hb. unfold ofd_alloc. destruct (first_free (OFD_TABLE k)) as [j|] eqn:E; [|done].
  apply first_free_Some in E. pose proof (lookup_lt_Some _ _ _ E).
  apply (bal_ofd x); [done|by rewrite length_insert; apply (bal_ofds _ _ Hb)| |by apply (bal_insert_pos x)].
  intros i. rewrite refcount_insert by done. unfold at_. case_decide as He; [|lia].
  subst i. unfold refcount. rewrite E. cbn. lia.
Qed.

(** [ofd_ref] of a live description whose count is not at its maximum. *)
Lemma ofd_ref_ok x k j :
  bal x k -> (0 < refcount (OFD_TABLE k) j)%Z -> (refcount (OFD_TABLE k) j < 2 ^ 32 - 1)%Z ->
  bal (fun i => x i + at_ j i)%Z (set_ofds k (ofd_ref j (OFD_TABLE k))).
Proof using Type.
  intros Hb Hlive Hmax. destruct (refcount_live _ _ Hlive) as (o & Ho & Hr).
  pose proof (lookup_lt_Some _ _ _ Ho). unfold ofd_ref. rewrite Ho.
  apply (bal_ofd x); [done|by rewrite length_insert; apply (bal_ofds _ _ Hb)| |].
  - intros i. rewrite refcount_insert by done. unfold at_, sat_inc. cbn [refs].
    case_decide as He; [subst i|]; lia.
  - apply (bal_insert_pos x); [done|]. cbn. unfold sat_inc. lia.
Qed.

Lemma on_close_ok p idx w :
  length p = pipe.MAX_PIPES -> idx < pipe.MAX_PIPES ->
  exists p', pipe.on_pipe_fd_closed idx w p = Ret p' /\ length p' = pipe.MAX_PIPES.
Proof using Type.
  intros Hl Hi. destruct (lookup_lt_is_Some_2 p idx) as [slot Hs]; [lia|].
  unfold pipe.on_pipe_fd_closed, pipe.maybe_free_pipe. rewrite (index_lt _ _ _ Hs). cbn [mbind outcome_bind].
  destruct slot as [b|].
  - rewrite store_lt by lia. cbn [mbind outcome_bind].
    rewrite (index_lt _ idx (Some (pipe.close_end b w))) by (apply list_lookup_insert_eq; lia).
    cbn [mbind outcome_bind]. destruct (_ && _)%bool.
    + rewrite store_lt by (rewrite length_insert; lia). eexists. split; [done|]. by rewrite !length_insert.
    + eexists. split; [done|]. by rewrite length_insert.
  - cbn [mbind outcome_bind]. rewrite (index_lt _ _ _ Hs). cbn [mbind outcome_bind]. by eexists.
Qed.

Lemma bal_pool_sockets x k p r :
  bal x k -> length p = pipe.MAX_PIPES ->
  bal x (mk_kernel (tables k) (CURRENT k) (OFD_TABLE k) p r (um k)).
Proof using Type. intros [] Hp. by constructor. Qed.

(** Dropping a reference held on the side. *)
Lemma ofd_unref_ok x k j :
  bal x k -> (0 < x j)%Z ->
  exists k', ofd_unref j k = Ret k' /\ tables k' = tables k /\ CURRENT k' = CURRENT k /\
    bal (fun i => x i - at_ j i)%Z k'.
Proof using Type.
  intros Hb Hx. assert (0 < refcount (OFD_TABLE k) j)%Z as Hlive by (rewrite (bal_refs _ _ Hb); lia).
  destruct (refcount_live _ _ Hlive) as (o & Ho & Hr). pose proof (lookup_lt_Some _ _ _ Ho) as Hlt.
  unfold ofd_unref. rewrite Ho. unfold sat_dec. destruct (Z.eqb_spec (Z.max (refs o - 1) 0) 0) as [Hz|Hz].
  - assert (bal (fun i => x i - at_ j i)%Z (set_ofds k (<[j := None]> (OFD_TABLE k)))) as Hb'.
    { apply (bal_ofd x); [done|by rewrite length_insert; apply (bal_ofds _ _ Hb)| |by apply (bal_insert_pos x)].
      intros i. rewrite refcount_insert by done. unfold at_. case_decide; [subst i|]; lia. }
    set (k1 := set_ofds k _) in *.
    destruct (pipe.is_pipe_fd _).
    + destruct (on_close_ok (PIPE_POOL k1) (pipe.pipe_idx_from_flags (flags (desc o))) (pipe.is_write_end (flags (desc o))))
        as (p' & -> & Hp'); [apply (bal_pool _ _ Hb')|apply pipe.pipe_idx_bound|].
      cbn [mbind outcome_bind]. eexists. split; [done|].
      destruct (is_socket_fd _); (split; [done|split; [done|]]); by apply (bal_pool_sockets _ k1).
    + cbn [mbind outcome_bind]. eexists. split; [done|]. destruct (is_socket_fd _); [|done].
      split; [done|split; [done|]]. apply (bal_pool_sockets _ k1); [done|apply (bal_pool _ _ Hb')].
  - eexists. split; [done|]. split; [done|split; [done|]].
    apply (bal_ofd x); [done|by rewrite length_insert; apply (bal_ofds _ _ Hb)| |].
    + intros i. rewrite refcount_insert by done. unfold at_. cbn [refs]. case_decide; [subst i|]; lia.
    + apply (bal_insert_pos x); [done|]. cbn. lia.
Qed.

(** An entry of a table names a live description. *)
Lemma entry_live x k c t n e :
  bal x k -> (forall i, 0 <= x i)%Z -> tables k !! c = Some (Some t) -> t !! n = Some (Some e) ->
  (0 < refcount (OFD_TABLE k) (ofd e))%Z.
Proof using Type.
  intros Hb Hx Ht He. rewrite (bal_refs _ _ Hb). specialize (Hx (ofd e)).
  pose proof (sum_list_elem (slot_refs (ofd e)) _ _ _ Ht) as Hs. fold (total (ofd e) (tables k)) in Hs.
  cbn [slot_refs] in Hs. assert (0 < table_refs (ofd e) t); [|lia].
  apply count_if_pos. exists (Some e). split; [by eapply list_elem_of_lookup_2|].
  cbn. by apply bool_decide_eq_true_2.
Qed.

(** ** Every operation keeps the counts *)

(** The operation returns, with the counts balanced. *)
Definition keeps {R} (o : outcome (R * kernel U)) : Prop := exists r k, o = Ret (r, k) /\ balanced k.

Lemma keeps_ret {R} (r : R) k : balanced k -> keeps (Ret (r, k)).
Proof using Type. by exists r, k. Qed.

Lemma bal_swap_table k t t' x :
  balanced k -> tables k !! CURRENT k = Some (Some t) -> length t' = MAX_FDS ->
  (forall i, Z.of_nat (table_refs i t') + x i = Z.of_nat (table_refs i t))%Z ->
  bal x (set_tables k (<[CURRENT k := Some t']> (tables k))).
Proof using Type.
  intros Hb Ht Hl Hd. apply (bal_set_table (fun _ => 0%Z) x k _ (Some t)); try done.
  intros i. cbn [slot_refs]. specialize (Hd i). lia.
Qed.

Lemma sys_close_keeps f k : balanced k -> keeps (sys_close f k).
Proof using Type.
  intros Hb. unfold sys_close.
  destruct (with_current_fds_ok (fun t => take_fd t (Z.to_nat f)) _ k Hb) as [[_ ->]|(t & Ht & Hl & ->)];
    cbn [mbind outcome_bind flatten]; [by apply keeps_ret|].
  destruct (take_fd t (Z.to_nat f)) as [o t'] eqn:E. cbn [fst snd].
  pose proof (fun i => take_refs t _ o t' i E) as Hr.
  assert (bal (fun i => match o with Some e => at_ (ofd e) i | None => 0%Z end)
    (set_tables k (<[CURRENT k := Some t']> (tables k)))) as Hb1.
  { apply (bal_swap_table k t); [done|done|by rewrite (proj1 (Hr 0))|intros i; rewrite (proj2 (Hr i)); lia]. }
  destruct o as [e|]; [|by apply keeps_ret].
  destruct (ofd_unref_ok _ _ (ofd e) Hb1) as (k' & -> & _ & _ & Hb2);
    [unfold at_; rewrite decide_True by done; lia|].
  apply keeps_ret. apply (bal_ext _ _ _ Hb2). intros i. lia.
Qed.

(** A placement that fills a free slot, or fails without effect. *)
Definition placement (place : FdTable -> FdEntry -> option nat * FdTable) : Prop :=
  forall t e, match place t e with
  | (Some n, t') => t !! n = Some None /\ t' = <[n := Some e]> t
  | (None, t') => t' = t
  end.

Lemma alloc_placement : placement alloc.
Proof using Type.
  intros t e. destruct (alloc t e) as [[n|] t'] eqn:E; [by apply alloc_refs in E|by apply alloc_none in E].
Qed.

Lemma alloc_from_placement m : placement (fun t e => alloc_from t m e).
Proof using Type.
  intros t e. destruct (alloc_from t m e) as [[n|] t'] eqn:E;
    [by apply alloc_from_refs in E|by apply alloc_from_none in E].
Qed.

Lemma set_same_table k t :
  balanced k -> tables k !! CURRENT k = Some (Some t) ->
  balanced (set_tables k (<[CURRENT k := Some t]> (tables k))).
Proof using Type.
  intros Hb Ht. apply (bal_swap_table k t); [done|done|by apply (bal_len _ _ Hb (CURRENT k))|intros; lia].
Qed.

(** Adding a counted reference after an entry was installed. *)
Lemma ref_after_install k t n e t' :
  balanced k -> tables k !! CURRENT k = Some (Some t) -> t !! n = Some None -> t' = <[n := Some e]> t ->
  (0 < refcount (OFD_TABLE k) (ofd e))%Z ->
  let k1 := set_tables k (<[CURRENT k := Some t']> (tables k)) in
  balanced (set_ofds k1 (ofd_ref (ofd e) (OFD_TABLE k1))).
Proof using Type.
  intros Hb Ht Hn -> Hlive k1.
  assert (bal (fun i => - at_ (ofd e) i)%Z k1) as Hb1.
  { apply (bal_swap_table k t); [done|done| |].
    - rewrite length_insert. by apply (bal_len _ _ Hb (CURRENT k)).
    - intros i. rewrite (install_refs t n e _ i Hn eq_refl). lia. }
  pose proof (total_bound _ _ (ofd e) Hb1) as Hmax. pose proof (bal_refs _ _ Hb1 (ofd e)) as Hr.
  unfold at_ in Hr. rewrite decide_True in Hr by done.
  eapply bal_ext; [apply (ofd_ref_ok _ _ (ofd e) Hb1); [done|lia]|]. intros i. cbn beta. lia.
Qed.

Lemma dup_with_keeps place f k : placement place -> balanced k -> keeps (dup_with place f k).
Proof using Type.
  intros Hpl Hb. unfold dup_with.
  match goal with |- context [with_current_fds ?g k] =>
    destruct (with_current_fds_ok g _ k Hb) as [[_ ->]|(t & Ht & Hl & ->)] end;
    cbn [mbind outcome_bind]; [by apply keeps_ret|].
  destruct (get t f) as [e|] eqn:Eg; [|by apply keeps_ret, set_same_table].
  specialize (Hpl t (mk_entry (ofd e) false)).
  destruct (place t (mk_entry (ofd e) false)) as [[n|] t'].
  - destruct Hpl as [Hn Ht']. cbn [fst snd]. apply keeps_ret.
    apply (ref_after_install k t n (mk_entry (ofd e) false) t'); try done.
    cbn [ofd]. apply get_Some in Eg. by eapply (entry_live _ k (CURRENT k) t f e).
  - subst t'. by apply keeps_ret, set_same_table.
Qed.

Lemma sys_dup2_keeps a b k : balanced k -> keeps (sys_dup2 a b k).
Proof using Type.
  intros Hb. unfold sys_dup2. case_decide as Hmax; [by apply keeps_ret|].
  match goal with |- context [with_current_fds ?g k] =>
    destruct (with_current_fds_ok g _ k Hb) as [[_ ->]|(t & Ht & Hl & ->)] end;
    cbn [mbind outcome_bind]; [by apply keeps_ret|].
  destruct (get t (Z.to_nat a)) as [e|] eqn:Eg; [|by apply keeps_ret, set_same_table].
  case_decide as Heq; [by apply keeps_ret, set_same_table|].
  destruct (take_fd t (Z.to_nat b)) as [o t1] eqn:Etk. pose proof (fun i => take_refs t _ o t1 i Etk) as Hr.
  assert (t1 !! Z.to_nat b = Some None) as Hfree.
  { unfold take_fd in Etk. rewrite decide_False in Etk by done. injection Etk as _ <-.
    apply list_lookup_insert_eq. lia. }
  unfold alloc_at. rewrite decide_False by done. cbn [fst snd].
  set (t2 := <[Z.to_nat b := Some (mk_entry (ofd e) false)]> t1).
  set (x := fun i => match o with Some d => at_ (ofd d) i | None => 0%Z end).
  assert (bal (fun i => x i - at_ (ofd e) i)%Z (set_tables k (<[CURRENT k := Some t2]> (tables k)))) as Hb1.
  { apply (bal_swap_table k t); [done|done|unfold t2; rewrite length_insert, (proj1 (Hr 0)); done|].
    intros i. unfold t2. rewrite (install_refs t1 _ _ _ i Hfree eq_refl), (proj2 (Hr i)). cbn [ofd]. unfold x. lia. }
  set (k1 := set_tables k _) in *.
  assert (0 < refcount (OFD_TABLE k1) (ofd e))%Z as Hlive.
  { apply get_Some in Eg. by eapply (entry_live _ k (CURRENT k) t _ e). }
  pose proof (total_bound _ _ (ofd e) Hb) as Hmx. pose proof (bal_refs _ _ Hb (ofd e)) as Hrc. cbn in Hrc.
  assert (bal x (set_ofds k1 (ofd_ref (ofd e) (OFD_TABLE k1)))) as Hb2.
  { eapply bal_ext; [apply (ofd_ref_ok _ _ (ofd e) Hb1); [done|change (OFD_TABLE k1) with (OFD_TABLE k); lia]|].
    intros i. cbn beta. lia. }
  destruct o as [d|]; [|by apply keeps_ret].
  destruct (ofd_unref_ok _ _ (ofd d) Hb2) as (k' & -> & _ & _ & Hb3);
    [unfold x, at_; rewrite decide_True by done; lia|].
  apply keeps_ret. apply (bal_ext _ _ _ Hb3). intros i. unfold x. lia.
Qed.

(** Rewriting a description in place keeps its count. *)
Lemma set_desc_keeps k j o d :
  balanced k -> OFD_TABLE k !! j = Some (Some o) ->
  balanced (set_ofds k (<[j := Some (mk_ofd d (refs o))]> (OFD_TABLE k))).
Proof using Type.
  intros Hb Ho. pose proof (lookup_lt_Some _ _ _ Ho).
  apply (bal_ofd (fun _ => 0%Z)); [done|by rewrite length_insert; apply (bal_ofds _ _ Hb)| |].
  - intros i. rewrite refcount_insert by done. case_decide; [subst i|lia]. unfold refcount. by rewrite Ho.
  - apply (bal_insert_pos (fun _ => 0%Z)); [done|]. cbn. by apply (bal_pos _ _ Hb j).
Qed.

Lemma resolve_fd_ok f k :
  balanced k ->
  resolve_fd f k = Ret None \/
  exists t e o, tables k !! CURRENT k = Some (Some t) /\ get t f = Some e /\
    resolve_fd f k = Ret (Some (ofd e)) /\ OFD_TABLE k !! ofd e = Some (Some o).
Proof using Type.
  intros Hb. unfold resolve_fd.
  match goal with |- context [with_current_fds ?g k] =>
    destruct (with_current_fds_ok g _ k Hb) as [[_ ->]|(t & Ht & Hl & ->)] end;
    cbn [mbind outcome_bind fst snd flatten]; [by left|].
  destruct (get t f) as [e|] eqn:Eg; [right|by left].
  pose proof (get_Some _ _ _ Eg) as He.
  pose proof (entry_live _ k (CURRENT k) t f e Hb ltac:(done) Ht He) as Hlive.
  destruct (refcount_live _ _ Hlive) as (o & Ho & _). by exists t, e, o.
Qed.

Lemma current_fd_flags_ok f k : balanced k -> exists r, current_fd_flags f k = Ret r.
Proof using Type.
  intros Hb. unfold current_fd_flags.
  destruct (resolve_fd_ok f k Hb) as [->|(t & e & o & _ & _ & -> & _)]; cbn [mbind outcome_bind]; by eexists.
Qed.

Lemma sys_fcntl_keeps f c a k : balanced k -> keeps (sys_fcntl f c a k).
Proof using Type.
  intros Hb. unfold sys_fcntl.
  destruct (c =? F_GETFD)%Z.
  { match goal with |- context [with_current_fds ?g k] =>
      destruct (with_current_fds_ok g _ k Hb) as [[_ ->]|(t & Ht & Hl & ->)] end;
      cbn [mbind outcome_bind fst snd]; [by apply keeps_ret|by apply keeps_ret, set_same_table]. }
  destruct (c =? F_SETFD)%Z.
  { match goal with |- context [with_current_fds ?g k] =>
      destruct (with_current_fds_ok g _ k Hb) as [[_ ->]|(t & Ht & Hl & ->)] end;
      cbn [mbind outcome_bind]; [by apply keeps_ret|].
    destruct (get t (Z.to_nat f)) as [e|] eqn:Eg; cbn [fst snd]; [|by apply keeps_ret, set_same_table].
    apply keeps_ret. apply get_Some in Eg.
    apply (bal_swap_table k t); [done|done|by rewrite length_insert|].
    intros i. pose proof (table_refs_insert i t _ _ (Some (mk_entry (ofd e) (negb (Z.land a FD_CLOEXEC =? 0)%Z))) Eg) as Hr.
    cbn [names ofd] in Hr. case_bool_decide; lia. }
  destruct (c =? F_GETFL)%Z.
  { destruct (current_fd_flags_ok (Z.to_nat f) k Hb) as [r ->]. by apply keeps_ret. }
  destruct (c =? F_SETFL)%Z.
  { destruct (resolve_fd_ok (Z.to_nat f) k Hb) as [->|(t & e & o & _ & _ & -> & Ho)]; cbn [mbind outcome_bind];
      [by apply keeps_ret|]. rewrite (index_lt _ _ _ Ho). cbn [mbind outcome_bind].
    by apply keeps_ret, set_desc_keeps. }
  destruct (c =? F_DUPFD)%Z; [|by apply keeps_ret].
  apply dup_with_keeps; [apply alloc_from_placement|done].
Qed.

Lemma sys_lseek_keeps size f off w k : balanced k -> keeps (sys_lseek size f off w k).
Proof using Type.
  intros Hb. unfold sys_lseek.
  destruct (resolve_fd_ok (Z.to_nat f) k Hb) as [->|(t & e & o & _ & _ & -> & Ho)]; cbn [mbind outcome_bind];
    [by apply keeps_ret|]. rewrite (index_lt _ _ _ Ho). cbn [mbind outcome_bind].
  repeat case_match; first [by apply keeps_ret|by apply keeps_ret, set_desc_keeps].
Qed.

Lemma sys_open_keeps rp p n fl k : balanced k -> keeps (sys_open rp p n fl k).
Proof using Type.
  intros Hb. unfold sys_open. destruct (_ || _); [by apply keeps_ret|]. case_decide; [by apply keeps_ret|].
  destruct (copy_user_path _ _ _) as [path|e]; [|by apply keeps_ret].
  destruct (rp path) as [[mnt ino]|e]; [|by apply keeps_ret].
  match goal with |- context [ofd_alloc ?d _] => pose proof (ofd_alloc_ok _ k d Hb) as Hal end.
  destruct (ofd_alloc _ _) as [[j|] ofds]; [|by apply keeps_ret]. cbn beta in Hal.
  set (e := mk_entry j _). set (k1 := set_ofds k ofds) in *.
  destruct (with_current_fds_ok (fun t => alloc t e) _ k1 Hal) as [[_ ->]|(t & Ht & Hl & ->)];
    cbn [mbind outcome_bind flatten].
  - destruct (ofd_unref_ok _ _ j Hal) as (k' & -> & _ & _ & Hb2); [unfold at_; rewrite decide_True by done; lia|].
    apply keeps_ret. apply (bal_ext _ _ _ Hb2). intros i. cbn. lia.
  - destruct (alloc t e) as [[m|] t'] eqn:E; cbn [fst snd].
    + apply alloc_refs in E as [Hm Ht']. apply keeps_ret.
      apply (bal_set_table _ _ k1 _ (Some t) t' Hal Ht); [by subst t'; rewrite length_insert|].
      intros i. rewrite (install_refs t m e t' i Hm Ht'). cbn [slot_refs e ofd]. lia.
    + apply alloc_none in E as ->.
      assert (bal (fun i => 0 + at_ j i)%Z (set_tables k1 (<[CURRENT k1 := Some t]> (tables k1)))) as Hb1.
      { apply (bal_set_table _ _ k1 _ (Some t) t Hal Ht); [done|]. intros i. cbn [slot_refs]. lia. }
      destruct (ofd_unref_ok _ _ j Hb1) as (k' & -> & _ & _ & Hb2); [unfold at_; rewrite decide_True by done; lia|].
      apply keeps_ret. apply (bal_ext _ _ _ Hb2). intros i. cbn. lia.
Qed.

Lemma install_pair_ok ri wi t :
  length t = MAX_FDS ->
  match install_pair ri wi t with
  | (Some (r, w), t') =>
      length t' = length t /\ t' !! r = Some (Some (mk_entry ri false)) /\
      t' !! w = Some (Some (mk_entry wi false)) /\ r <> w /\
      forall i, Z.of_nat (table_refs i t') = (Z.of_nat (table_refs i t) + at_ ri i + at_ wi i)%Z
  | (None, t') => length t' = length t /\ forall i, table_refs i t' = table_refs i t
  end.
Proof using Type.
  intros Hlen. unfold install_pair. destruct (alloc t (mk_entry ri false)) as [[r|] t1] eqn:E1.
  2:{ apply alloc_none in E1 as ->. done. }
  apply alloc_refs in E1 as [Hr Ht1]. pose proof (lookup_lt_Some _ _ _ Hr).
  destruct (alloc t1 (mk_entry wi false)) as [[w|] t2] eqn:E2.
  - apply alloc_refs in E2 as [Hw Ht2]. pose proof (lookup_lt_Some _ _ _ Hw).
    assert (t1 !! r = Some (Some (mk_entry ri false))) as Hr1 by (subst t1; by apply list_lookup_insert_eq).
    assert (r <> w) as Hne by congruence.
    split_and!; [subst; by rewrite !length_insert| | |done|].
    + subst t2. by rewrite list_lookup_insert_ne.
    + subst t2. by apply list_lookup_insert_eq.
    + intros i. rewrite (install_refs t1 w _ t2 i Hw Ht2), (install_refs t r _ t1 i Hr Ht1). done.
  - apply alloc_none in E2 as ->. destruct (take_fd t1 r) as [o t3] eqn:E3. cbn [snd].
    pose proof (fun i => take_refs t1 r o t3 i E3) as Htk. split; [rewrite (proj1 (Htk 0)); subst; by rewrite length_insert|].
    intros i. pose proof (proj2 (Htk i)) as H3. rewrite (install_refs t r _ t1 i Hr Ht1) in H3.
    unfold take_fd in E3. rewrite decide_False in E3 by lia. injection E3 as <- _.
    subst t1. rewrite list_lookup_insert_eq in H3 by done. cbn [flatten ofd] in H3. lia.
Qed.

Lemma at_self j : at_ j j = 1%Z.
Proof using Type. unfold at_. by rewrite decide_True. Qed.

Lemma at_nonneg j i : (0 <= at_ j i)%Z.
Proof using Type. unfold at_. case_decide; lia. Qed.

Lemma free_pipe_slot_ok x k i :
  bal x k -> i < pipe.MAX_PIPES -> exists k', free_pipe_slot i k = Ret k' /\ bal x k'.
Proof using Type.
  intros Hb Hi. unfold free_pipe_slot. rewrite store_lt by (rewrite (bal_pool _ _ Hb); done).
  cbn [mbind outcome_bind]. eexists. split; [done|]. apply (bal_pool_sockets x k); [done|].
  rewrite length_insert. apply (bal_pool _ _ Hb).
Qed.

(** Both ends of a new pipe are dropped again, whatever follows. *)
Lemma unref_pair {R} k ri wi (f : kernel U -> outcome (R * kernel U)) :
  bal (fun i => at_ ri i + at_ wi i)%Z k -> (forall k', balanced k' -> keeps (f k')) ->
  keeps (k ← ofd_unref ri k; k ← ofd_unref wi k; f k).
Proof using Type.
  intros Hb Hf. pose proof (at_nonneg wi ri).
  destruct (ofd_unref_ok _ _ ri Hb) as (k1 & -> & _ & _ & Hb1); [rewrite at_self; lia|].
  cbn [mbind outcome_bind]. pose proof (at_nonneg ri wi).
  destruct (ofd_unref_ok _ _ wi Hb1) as (k2 & -> & _ & _ & Hb2); [cbn beta; rewrite at_self; lia|].
  cbn [mbind outcome_bind]. apply Hf. apply (bal_ext _ _ _ Hb2). intros i. cbn beta. lia.
Qed.

Lemma abandon_slot i k :
  balanced k -> i < pipe.MAX_PIPES -> keeps (k ← free_pipe_slot i k; Ret (EMFILE, k)).
Proof using Type.
  intros Hb Hi. destruct (free_pipe_slot_ok _ k i Hb Hi) as (k' & -> & ?). by apply keeps_ret.
Qed.

Lemma alloc_pipe_slot_ok owner p i p' :
  pipe.alloc_pipe_slot owner p = (Some i, p') -> length p' = length p /\ i < length p.
Proof using Type.
  unfold pipe.alloc_pipe_slot. case_decide; [done|]. destruct (list_find _ p) as [[j y]|] eqn:E; [|done].
  intros [= <- <-]. apply list_find_Some in E as (Hj & _). rewrite length_insert. split; [done|].
  by eapply lookup_lt_Some.
Qed.

(** The user copy failed: both entries are taken back. *)
Lemma take_pair_ok t r w ri wi t1 t2 o1 o2 :
  length t = MAX_FDS -> t !! r = Some (Some (mk_entry ri false)) -> t !! w = Some (Some (mk_entry wi false)) ->
  r <> w -> take_fd t r = (o1, t1) -> take_fd t1 w = (o2, t2) ->
  length t2 = MAX_FDS /\
  forall i, (Z.of_nat (table_refs i t2) + at_ ri i + at_ wi i = Z.of_nat (table_refs i t))%Z.
Proof using Type.
  intros Hl Hr Hw Hne E1 E2. pose proof (lookup_lt_Some _ _ _ Hr). pose proof (lookup_lt_Some _ _ _ Hw).
  pose proof (fun i => take_refs t r o1 t1 i E1) as H1. pose proof (fun i => take_refs t1 w o2 t2 i E2) as H2.
  split; [rewrite (proj1 (H2 0)), (proj1 (H1 0)); done|]. intros i.
  unfold take_fd in E1, E2. rewrite decide_False in E1 by lia. rewrite decide_False in E2 by lia.
  injection E1 as <- <-. injection E2 as <- _. rewrite list_lookup_insert_ne in H2 by done.
  pose proof (proj2 (H1 i)) as H3. pose proof (proj2 (H2 i)) as H4. rewrite Hr in H3. rewrite Hw in H4.
  cbn [flatten ofd] in H3, H4. lia.
Qed.

(** The part of [sys_pipe] after both descriptions exist. *)
Lemma sys_pipe_install_keeps ptr pi ri wi k :
  bal (fun i => at_ ri i + at_ wi i)%Z k -> pi < pipe.MAX_PIPES ->
  keeps ('(installed, k) ← with_current_fds (install_pair ri wi) k;
    match flatten installed with
    | None =>
        k ← ofd_unref ri k; k ← ofd_unref wi k; k ← free_pipe_slot pi k; Ret (EMFILE, k)
    | Some (read_fd, write_fd) =>
        let encoded := le_bytes (Z.of_nat read_fd) ++ le_bytes (Z.of_nat write_fd) in
        let '(u, ok) := um_copy_to (um k) ptr encoded in
        let k := set_um k u in
        if ok : bool then Ret (0%Z, k) else
        '(_, k) ← with_current_fds (fun t =>
           let '(r, t) := take_fd t read_fd in
           let '(w, t) := take_fd t write_fd in ((r, w), t)) k;
        k ← ofd_unref ri k; k ← ofd_unref wi k; Ret (EFAULT, k)
    end).
Proof using Type.
  intros Hb Hpi.
  destruct (with_current_fds_ok (install_pair ri wi) _ k Hb) as [[_ ->]|(t & Ht & Hl & ->)];
    cbn [mbind outcome_bind flatten].
  { apply unref_pair; [done|]. intros. by apply abandon_slot. }
  pose proof (install_pair_ok ri wi t Hl) as Hpair.
  destruct (install_pair ri wi t) as [[[r w]|] t']; cbn [fst snd].
  2:{ destruct Hpair as [Hl' Hr]. apply unref_pair; [|intros; by apply abandon_slot].
      apply (bal_set_table _ _ k _ (Some t) t' Hb Ht); [congruence|]. intros i. cbn [slot_refs]. by rewrite Hr. }
  destruct Hpair as (Hl' & Hr & Hw & Hne & Hrefs). rewrite Hl in Hl'.
  set (k1 := set_tables k _). destruct (um_copy_to (um k1) ptr _) as [u ok].
  assert (balanced (set_um k1 u)) as Hb1.
  { assert (balanced k1) as Hbk; [|by destruct Hbk; constructor].
    apply (bal_set_table _ _ k _ (Some t) t' Hb Ht Hl'). intros i. cbn [slot_refs]. rewrite Hrefs. lia. }
  destruct ok; [by apply keeps_ret|]. set (k2 := set_um k1 u) in *.
  assert (tables k2 !! CURRENT k2 = Some (Some t')) as Ht2.
  { apply list_lookup_insert_eq. rewrite (bal_tables _ _ Hb). apply (bal_cur _ _ Hb). }
  match goal with |- context [with_current_fds ?g k2] =>
    destruct (with_current_fds_ok g _ k2 Hb1) as [[Hn _]|(t2 & Ht2' & _ & ->)] end; [congruence|].
  assert (t2 = t') as -> by congruence. cbn [mbind outcome_bind].
  destruct (take_fd t' r) as [o1 t3] eqn:E1. destruct (take_fd t3 w) as [o2 t4] eqn:E2. cbn [fst snd].
  destruct (take_pair_ok t' r w ri wi t3 t4 o1 o2 Hl' Hr Hw Hne E1 E2) as [Hl4 Hr4].
  apply unref_pair; [|intros; by apply keeps_ret].
  apply (bal_set_table _ _ k2 _ (Some t') t4 Hb1 Ht2 Hl4). intros i. cbn [slot_refs]. specialize (Hr4 i). lia.
Qed.

Lemma sys_pipe_keeps ptr k : balanced k -> keeps (sys_pipe ptr k).
Proof using Type.
  intros Hb. unfold sys_pipe. destruct (negb _); [by apply keeps_ret|].
  destruct (pipe.alloc_pipe_slot _ _) as [[pi|] p'] eqn:Ep; [|by apply keeps_ret].
  apply alloc_pipe_slot_ok in Ep as [Hlp Hpi]. rewrite (bal_pool _ _ Hb) in Hlp, Hpi.
  assert (balanced (set_pool k p')) as Hb0 by (by apply (bal_pool_sockets _ k)).
  set (k0 := set_pool k p') in *. cbv zeta.
  pose proof (ofd_alloc_ok _ k0 (new_desc (pipe.pipe_flags pi pipe.FD_END_READ)) Hb0) as Ha1.
  destruct (ofd_alloc _ (OFD_TABLE k0)) as [[ri|] ofds1]; [|by apply abandon_slot].
  set (k1 := set_ofds k0 ofds1) in *.
  pose proof (ofd_alloc_ok _ k1 (new_desc (pipe.pipe_flags pi pipe.FD_END_WRITE)) Ha1) as Ha2.
  destruct (ofd_alloc _ (OFD_TABLE k1)) as [[wi|] ofds2].
  2:{ destruct (ofd_unref_ok _ _ ri Ha1) as (k2 & -> & _ & _ & Hb2); [cbn beta; rewrite at_self; lia|].
      cbn [mbind outcome_bind]. apply abandon_slot; [|done].
      apply (bal_ext _ _ _ Hb2). intros i. cbn beta. lia. }
  by apply sys_pipe_install_keeps.
Qed.

Lemma close_slots_ok sel proc ns k t :
  balanced k -> tables k !! proc = Some (Some t) ->
  exists k' t', close_slots sel proc ns k = Ret k' /\ balanced k' /\ CURRENT k' = CURRENT k /\
    tables k' = <[proc := Some t']> (tables k) /\
    forall n e, t' !! n = Some (Some e) -> t !! n = Some (Some e) /\ (n ∈ ns -> sel e = false).
Proof using Type.
  revert k t. induction ns as [|n ns IH]; intros k t Hb Ht; cbn [close_slots].
  { exists k, t. rewrite list_insert_id by done. split_and!; try done. intros n e He. split; [done|].
    intros Hn. by apply not_elem_of_nil in Hn. }
  pose proof (lookup_lt_Some _ _ _ Ht) as Hlt. pose proof (bal_len _ _ Hb _ _ Ht) as Hl.
  rewrite (index_lt _ _ _ Ht). cbn [mbind outcome_bind].
  assert (forall e, t !! n = Some (Some e) -> sel e = false -> exists k' t',
    close_slots sel proc ns k = Ret k' /\ balanced k' /\ CURRENT k' = CURRENT k /\
    tables k' = <[proc := Some t']> (tables k) /\
    forall m d, t' !! m = Some (Some d) -> t !! m = Some (Some d) /\ (m ∈ n :: ns -> sel d = false)) as Hkeep.
  { intros e He Hs. destruct (IH k t Hb Ht) as (k' & t' & ? & ? & ? & ? & Hd). exists k', t'.
    split_and!; try done. intros m d Hm. destruct (Hd m d Hm) as [Hm' Hsel]. split; [done|].
    intros [->|Hin]%elem_of_cons; [|by apply Hsel]. congruence. }
  destruct (flatten (t !! n)) as [e|] eqn:Ee.
  - assert (t !! n = Some (Some e)) as He by (destruct (t !! n) as [[]|]; cbn in Ee; congruence).
    destruct (sel e) eqn:Hsel; [|by apply (Hkeep e)]. clear Hkeep.
    rewrite store_lt by done. cbn [mbind outcome_bind]. set (t1 := <[n := None]> t).
    assert (bal (at_ (ofd e)) (set_tables k (<[proc := Some t1]> (tables k)))) as Hb1.
    { apply (bal_set_table (fun _ => 0%Z) _ k proc (Some t)); [done|done|by unfold t1; rewrite length_insert|].
      intros i. pose proof (table_refs_insert i t n _ None He) as Hr. rewrite names_self in Hr.
      fold t1 in Hr. cbn [names slot_refs] in *. pose proof (at_nonneg (ofd e) i). lia. }
    destruct (ofd_unref_ok _ _ (ofd e) Hb1) as (k2 & -> & Ht2 & Hc2 & Hb2); [rewrite at_self; lia|].
    cbn [mbind outcome_bind]. cbn [set_tables tables] in Ht2.
    destruct (IH k2 t1) as (k' & t' & E & Hb' & Hc' & Htt & Hd).
    { apply (bal_ext _ _ _ Hb2). intros i. lia. }
    { rewrite Ht2. by apply list_lookup_insert_eq. }
    exists k', t'. rewrite Htt, Ht2, list_insert_insert_eq. split_and!; [done|done|by rewrite Hc', Hc2|done|].
    intros m d Hm. destruct (Hd m d Hm) as [Hm1 Hsel']. unfold t1 in Hm1.
    destruct (decide (m = n)) as [->|Hne]; [rewrite list_lookup_insert_eq in Hm1; [done|by eapply lookup_lt_Some]|].
    rewrite list_lookup_insert_ne in Hm1 by done. split; [done|].
    intros [->|Hin]%elem_of_cons; [done|by apply Hsel'].
  - destruct (IH k t Hb Ht) as (k' & t' & ? & ? & ? & ? & Hd). exists k', t'. split_and!; try done.
    intros m d Hm. destruct (Hd m d Hm) as [Hm' Hsel]. split; [done|].
    intros [->|Hin]%elem_of_cons; [|by apply Hsel]. rewrite Hm' in Ee. done.
Qed.

(** The references a fork adds. *)
Lemma ref_entries_ok t x k :
  bal x k -> (forall i, 0 <= x i)%Z -> (forall i, x i + Z.of_nat (table_refs i t) <= 256)%Z ->
  (forall n e, t !! n = Some (Some e) -> (0 < refcount (OFD_TABLE k) (ofd e))%Z) ->
  bal (fun i => x i + Z.of_nat (table_refs i t))%Z (set_ofds k (ref_entries t (OFD_TABLE k))).
Proof using Type.
  revert x k. induction t as [|slot t IH]; intros x k Hb Hx Hmax Hlive; cbn [ref_entries].
  { destruct k. apply (bal_ext _ _ _ Hb). intros i. cbn. lia. }
  assert (forall i, table_refs i (slot :: t) = (if names i slot then 1 else 0) + table_refs i t) as Hcons.
  { intros i. apply count_if_cons. }
  destruct slot as [e|].
  - pose proof (Hlive 0 e eq_refl) as Hl. pose proof (bal_refs _ _ Hb (ofd e)) as Hr.
    pose proof (total_bound _ _ (ofd e) Hb). pose proof (Hmax (ofd e)) as Hm.
    pose proof (ofd_ref_ok x k (ofd e) Hb Hl ltac:(lia)) as Hb1. set (k1 := set_ofds k _) in Hb1.
    change (set_ofds k ?o) with (set_ofds k1 o). change (ofd_ref (ofd e) (OFD_TABLE k)) with (OFD_TABLE k1).
    eapply bal_ext; [apply (IH _ k1 Hb1)|].
    + intros i. cbn beta. pose proof (at_nonneg (ofd e) i). specialize (Hx i). lia.
    + intros i. cbn beta. specialize (Hmax i). rewrite Hcons, names_self in Hmax.
      pose proof (at_nonneg (ofd e) i). lia.
    + intros n d Hn. rewrite (bal_refs _ _ Hb1). cbn beta. pose proof (Hlive (S n) d Hn) as Hd.
      rewrite (bal_refs _ _ Hb) in Hd. pose proof (at_nonneg (ofd e) (ofd d)).
      change (tables k1) with (tables k). lia.
    + intros i. cbn beta. rewrite Hcons, names_self. pose proof (at_nonneg (ofd e) i). lia.
  - eapply bal_ext; [apply (IH x k Hb Hx)|].
    + intros i. specialize (Hmax i). rewrite Hcons in Hmax. cbn [names] in Hmax. lia.
    + intros n e Hn. by apply (Hlive (S n)).
    + intros i. cbn beta. rewrite Hcons. cbn [names]. lia.
Qed.

(** ** The system: several processes and their descriptor operations *)

Inductive sysop :=
  | OpOpen (path_ptr path_len oflags : Z)
  | OpClose (f : Z)
  | OpDup (f : Z)
  | OpDup2 (a b : Z)
  | OpFcntl (f cmd arg : Z)
  | OpLseek (f off whence : Z)
  | OpPipe (fds_ptr : Z)
  | OpFork (child : nat)
  | OpSpawn (child : nat)
  | OpExec
  | OpExit (proc : nat)
  | OpSwitch (proc : nat).

Context (rp : list Z -> result (Z * Z) VfsError) (size : FileDescriptor -> Z).

(** The descriptor side of [fork]: the child slot must be free. *)
Definition fork_step (child : nat) (k : kernel U) : kernel U :=
  match tables k !! CURRENT k, tables k !! child with
  | Some (Some t), Some None =>
      let '(c, ofds) := fork_table t (OFD_TABLE k) in
      set_tables (set_ofds k ofds) (<[child := Some c]> (tables k))
  | _, _ => k
  end.

Definition spawn_step (child : nat) (k : kernel U) : kernel U :=
  match tables k !! child with
  | Some None => set_tables k (<[child := Some empty_table]> (tables k))
  | _ => k
  end.

Definition on_process (f : nat -> kernel U -> outcome (kernel U)) (proc : nat) (k : kernel U) : outcome (kernel U) :=
  match tables k !! proc with Some (Some _) => f proc k | _ => Ret k end.

Definition switch_step (proc : nat) (k : kernel U) : kernel U :=
  if decide (proc < MAX_PROCS)
  then mk_kernel (tables k) proc (OFD_TABLE k) (PIPE_POOL k) (released k) (um k) else k.

Definition sys_step (o : sysop) (k : kernel U) : outcome (Z * kernel U) :=
  match o with
  | OpOpen p n fl => sys_open rp p n fl k
  | OpClose f => sys_close f k
  | OpDup f => sys_dup f k
  | OpDup2 a b => sys_dup2 a b k
  | OpFcntl f c a => sys_fcntl f c a k
  | OpLseek f off w => sys_lseek size f off w k
  | OpPipe p => sys_pipe p k
  | OpFork c => Ret (0%Z, fork_step c k)
  | OpSpawn c => Ret (0%Z, spawn_step c k)
  | OpExec => k ← on_process close_cloexec (CURRENT k) k; Ret (0%Z, k)
  | OpExit p => k ← on_process close_all p k; Ret (0%Z, k)
  | OpSwitch p => Ret (0%Z, switch_step p k)
  end.

Fixpoint sys_run (os : list sysop) (k : kernel U) : outcome (list Z * kernel U) :=
  match os with
  | [] => Ret ([], k)
  | o :: os =>
      '(r, k) ← sys_step o k;
      '(rs, k) ← sys_run os k;
      Ret (r :: rs, k)
  end.

(** The kernel after boot: process 0 with an empty table. *)
Definition boot (u : U) : kernel U :=
  mk_kernel (Some empty_table :: replicate 15 None) 0 (replicate MAX_OFDS None) pipe.PIPE_POOL_init [] u.

Lemma empty_refs i : table_refs i empty_table = 0.
Proof using Type.
  assert (forall n, count_if (names i) (replicate n None) = 0) as H; [|apply H].
  intros n. induction n as [|n IH]; [done|]. rewrite replicate_S, count_if_cons, IH. done.
Qed.

Lemma boot_balanced u : balanced (boot u).
Proof using Type.
  constructor; try done.
  - unfold MAX_PROCS. cbn. lia.
  - intros [|n] t Hn; [by injection Hn as <-|]. change (replicate 15 None !! n = Some (Some t)) in Hn.
    by apply lookup_replicate in Hn as [? _].
  - intros i. unfold refcount. cbn [boot OFD_TABLE tables].
    destruct (replicate MAX_OFDS None !! i) as [[o|]|] eqn:E;
      [by apply lookup_replicate in E as [? _]| |]; cbn [total]; unfold total; cbn [fmap list_fmap sum_list slot_refs sum_list_with];
      rewrite empty_refs; cbn; lia.
  - intros i o Hi. by apply lookup_replicate in Hi as [? _].
Qed.

Lemma on_process_keeps sel p k :
  balanced k -> keeps (k ← on_process (fun p => close_slots sel p (seq 0 MAX_FDS)) p k; Ret (0%Z, k)).
Proof using Type.
  intros Hb. unfold on_process. destruct (tables k !! p) as [[t|]|] eqn:Ht; [|by apply keeps_ret..].
  destruct (close_slots_ok sel p (seq 0 MAX_FDS) k t Hb Ht) as (k' & t' & -> & Hb' & _). by apply keeps_ret.
Qed.

Lemma fork_step_ok c k : balanced k -> balanced (fork_step c k).
Proof using Type.
  intros Hb. unfold fork_step. destruct (tables k !! CURRENT k) as [[t|]|] eqn:Ht; [|done..].
  destruct (tables k !! c) as [[|]|] eqn:Hc; [done| |done]. cbn [fork_table].
  pose proof (bal_len _ _ Hb _ _ Ht) as Hl.
  assert (bal (fun i => 0 + Z.of_nat (table_refs i t))%Z (set_ofds k (ref_entries t (OFD_TABLE k)))) as Hb1.
  { apply (ref_entries_ok t (fun _ => 0%Z)); [done|done| |].
    - intros i. pose proof (count_if_le (names i) t). unfold table_refs, MAX_FDS in *. lia.
    - intros n e He. by eapply (entry_live _ k (CURRENT k) t n e). }
  apply (bal_set_table _ _ _ c None t Hb1 Hc Hl). intros i. cbn [slot_refs]. lia.
Qed.

Lemma spawn_step_ok c k : balanced k -> balanced (spawn_step c k).
Proof using Type.
  intros Hb. unfold spawn_step. destruct (tables k !! c) as [[|]|] eqn:Hc; [done| |done].
  apply (bal_set_table (fun _ => 0%Z) _ k c None); [done|done|apply length_replicate|].
  intros i. by rewrite empty_refs.
Qed.

Lemma switch_step_ok c k : balanced k -> balanced (switch_step c k).
Proof using Type. intros Hb. unfold switch_step. case_decide; [|done]. destruct Hb. by constructor. Qed.

Lemma sys_step_keeps o k : balanced k -> keeps (sys_step o k).
Proof using Type.
  intros Hb. destruct o; cbn [sys_step].
  - by apply sys_open_keeps.
  - by apply sys_close_keeps.
  - apply dup_with_keeps; [apply alloc_placement|done].
  - by apply sys_dup2_keeps.
  - by apply sys_fcntl_keeps.
  - by apply sys_lseek_keeps.
  - by apply sys_pipe_keeps.
  - by apply keeps_ret, fork_step_ok.
  - by apply keeps_ret, spawn_step_ok.
  - by apply (on_process_keeps cloexec).
  - by apply (on_process_keeps (fun _ => true)).
  - by apply keeps_ret, switch_step_ok.
Qed.

Lemma sys_run_keeps os k : balanced k -> keeps (sys_run os k).
Proof using Type.
  revert k. induction os as [|o os IH]; intros k Hb; [by apply keeps_ret|]. cbn [sys_run].
  destruct (sys_step_keeps o k Hb) as (r & k1 & -> & Hb1). cbn [mbind outcome_bind].
  destruct (IH k1 Hb1) as (rs & k2 & -> & Hb2). by apply keeps_ret.
Qed.

(** ** The claims *)

(** C24: however processes open, duplicate, close, create pipes, fork, exec,
    exit and are switched, no call panics, the count of every open-file
    description is the number of descriptors that name it in all processes,
    and no descriptor names a free description. *)
Theorem fd_refcounts_exact os u :
  exists rs k', sys_run os (boot u) = Ret (rs, k') /\
    (forall i, refcount (OFD_TABLE k') i = Z.of_nat (total i (tables k'))) /\
    (forall p t n e, tables k' !! p = Some (Some t) -> t !! n = Some (Some e) ->
      exists o, OFD_TABLE k' !! ofd e = Some (Some o)).
Proof using Type.
  destruct (sys_run_keeps os _ (boot_balanced u)) as (rs & k' & E & Hb). exists rs, k'. split; [done|]. split.
  - intros i. rewrite (bal_refs _ _ Hb). lia.
  - intros p t n e Ht He. destruct (refcount_live (OFD_TABLE k') (ofd e)) as (o & Ho & _); [|by exists o].
    by eapply (entry_live _ k' p t n e Hb).
Qed.

(** The exit path ([close_all]) drops every descriptor of the process,
    keeps all counts exact and touches no other process's table. *)
Theorem exit_drains_table p k t :
  balanced k -> tables k !! p = Some (Some t) ->
  exists k' t', close_all p k = Ret k' /\ balanced k' /\ tables k' = <[p := Some t']> (tables k) /\
    forall n e, t' !! n <> Some (Some e).
Proof using Type.
  intros Hb Ht. destruct (close_slots_ok (fun _ => true) p (seq 0 MAX_FDS) k t Hb Ht)
    as (k' & t' & E & Hb' & _ & Htt & Hd).
  exists k', t'. split_and!; [done|done|done|]. intros n e Hn. destruct (Hd n e Hn) as [Hn' Hsel].
  assert (n < MAX_FDS) by (rewrite <- (bal_len _ _ Hb _ _ Ht); by eapply lookup_lt_Some).
  discriminate Hsel. apply elem_of_seq. lia.
Qed.

(** The description a step leaves behind is the same file at the same offset. *)
Definition same_desc (o o' : option (option OpenFile)) : Prop :=
  match o, o' with
  | Some (Some a), Some (Some b) => desc a = desc b
  | _, _ => False
  end.

Lemma ofd_ref_same j ofds i : (0 < refcount ofds i)%Z -> same_desc (ofds !! i) (ofd_ref j ofds !! i).
Proof using Type.
  intros Hl. destruct (refcount_live _ _ Hl) as (o & Ho & _). unfold ofd_ref.
  destruct (ofds !! j) as [[q|]|] eqn:Hj; [|by rewrite Ho..].
  destruct (decide (i = j)) as [->|Hne].
  - rewrite list_lookup_insert_eq by (by eapply lookup_lt_Some). rewrite Hj. done.
  - rewrite list_lookup_insert_ne by done. by rewrite Ho.
Qed.

(** What [ofd_unref] may change: the description it names, which keeps its
    contents while it lives, the pipe pool and the released sockets. *)
Lemma ofd_unref_frame j k k' :
  ofd_unref j k = Ret k' ->
  tables k' = tables k /\ CURRENT k' = CURRENT k /\
  (OFD_TABLE k' = OFD_TABLE k \/
   exists q o, OFD_TABLE k !! j = Some (Some q) /\ OFD_TABLE k' = <[j := o]> (OFD_TABLE k) /\
     match o with Some q' => desc q' = desc q | None => True end).
Proof using Type.
  unfold ofd_unref. destruct (OFD_TABLE k !! j) as [[q|]|] eqn:Hq; [|by intros [= <-]; auto..].
  destruct (_ =? 0)%Z; intros E.
  - assert (tables k' = tables k /\ CURRENT k' = CURRENT k /\ OFD_TABLE k' = <[j := None]> (OFD_TABLE k))
      as (-> & -> & ->); [|split_and!; [done|done|right; by exists q, None]].
    destruct (pipe.is_pipe_fd _); [destruct (pipe.on_pipe_fd_closed _ _ _); [|done]|];
      cbn [mbind outcome_bind] in E; injection E as <-; by destruct (is_socket_fd _).
  - injection E as <-. split_and!; [done|done|right]. by eexists q, _.
Qed.

Lemma ofd_unref_same j k k' i :
  ofd_unref j k = Ret k' -> (0 < refcount (OFD_TABLE k') i)%Z ->
  same_desc (OFD_TABLE k !! i) (OFD_TABLE k' !! i).
Proof using Type.
  intros E Hl. destruct (refcount_live _ _ Hl) as (o' & Ho' & _).
  destruct (ofd_unref_frame _ _ _ E) as (_ & _ & [Hk|(q & o & Hq & Hk & Hd)]); rewrite Hk in Ho' |- *.
  - by rewrite Ho'.
  - destruct (decide (i = j)) as [->|Hne].
    + rewrite list_lookup_insert_eq in * by (by eapply lookup_lt_Some). injection Ho' as ->. by rewrite Hq.
    + rewrite list_lookup_insert_ne in * by done. by rewrite Ho'.
Qed.

Lemma same_desc_trans a b c : same_desc a b -> same_desc b c -> same_desc a c.
Proof using Type. destruct a as [[]|], b as [[]|], c as [[]|]; cbn; congruence || done. Qed.

(** [dup2] makes the target descriptor a second name of the same
    description, with close-on-exec clear, changes no other descriptor, and
    leaves the description's file, offset and flags as they were. *)
Theorem dup2_shares_description a b k t e :
  balanced k -> tables k !! CURRENT k = Some (Some t) -> get t (Z.to_nat a) = Some e ->
  Z.to_nat b < MAX_FDS -> Z.to_nat a <> Z.to_nat b ->
  exists k', sys_dup2 a b k = Ret (b, k') /\
    tables k' = <[CURRENT k := Some (<[Z.to_nat b := Some (mk_entry (ofd e) false)]> t)]> (tables k) /\
    same_desc (OFD_TABLE k !! ofd e) (OFD_TABLE k' !! ofd e).
Proof using Type.
  intros Hb Ht Hg Hlt Hne. destruct (sys_dup2_keeps a b k Hb) as (r & k' & E & Hb').
  pose proof (get_Some _ _ _ Hg) as He. pose proof (bal_len _ _ Hb _ _ Ht) as Hl.
  pose proof (entry_live _ k _ t _ e Hb ltac:(done) Ht He) as Hlive.
  pose proof E as E0. unfold sys_dup2 in E. rewrite decide_False in E by lia.
  match type of E with context [with_current_fds ?g k] =>
    destruct (with_current_fds_ok g _ k Hb) as [[Hn _]|(t0 & Ht0 & _ & Hw)] end; [congruence|].
  assert (t0 = t) as -> by congruence. rewrite Hw in E. cbn [mbind outcome_bind] in E. clear Hw Ht0.
  rewrite Hg in E. rewrite decide_False in E by done. unfold take_fd, alloc_at in E.
  rewrite !decide_False in E by lia. cbn [fst snd] in E. rewrite list_insert_insert_eq in E.
  set (t' := <[Z.to_nat b := Some (mk_entry (ofd e) false)]> t) in *.
  set (k1 := set_tables k (<[CURRENT k := Some t']> (tables k))) in *.
  set (k2 := set_ofds k1 (ofd_ref (ofd e) (OFD_TABLE k1))) in *.
  assert (same_desc (OFD_TABLE k !! ofd e) (OFD_TABLE k2 !! ofd e)) as Hs2 by (by apply ofd_ref_same).
  exists k'. destruct (flatten (t !! Z.to_nat b)) as [d|]; [|injection E as <- <-; by split].
  destruct (ofd_unref (ofd d) k2) as [k3|] eqn:Eu; [|done]. cbn [mbind outcome_bind] in E.
  injection E as <- <-. destruct (ofd_unref_frame _ _ _ Eu) as (Hts & Hcu & _).
  split; [done|]. split; [done|]. apply (same_desc_trans _ _ _ Hs2). apply (ofd_unref_same _ _ _ _ Eu).
  apply (entry_live _ k3 (CURRENT k) t' (Z.to_nat b) (mk_entry (ofd e) false) Hb'); [done| |].
  - rewrite Hts. apply list_lookup_insert_eq. rewrite (bal_tables _ _ Hb). apply (bal_cur _ _ Hb).
  - apply list_lookup_insert_eq. lia.
Qed.

Lemma resolve_at f k t e :
  balanced k -> tables k !! CURRENT k = Some (Some t) -> get t f = Some e ->
  exists o, resolve_fd f k = Ret (Some (ofd e)) /\ OFD_TABLE k !! ofd e = Some (Some o).
Proof using Type.
  intros Hb Ht Hg. destruct (resolve_fd_ok f k Hb) as [Hr|(t' & e' & o & Ht' & Hg' & Hr & Ho)].
  - exfalso. unfold resolve_fd, with_current_fds in Hr. rewrite (index_lt _ _ _ Ht) in Hr.
    cbn [mbind outcome_bind] in Hr. rewrite store_lt in Hr by (rewrite (bal_tables _ _ Hb); apply (bal_cur _ _ Hb)).
    cbn [mbind outcome_bind flatten fst] in Hr. by rewrite Hg in Hr.
  - assert (t' = t) as -> by congruence. assert (e' = e) as -> by congruence. by exists o.
Qed.

(** A successful [sys_lseek] moves the offset of the description to its result. *)
Lemma sys_lseek_moves f off w k t e p k' :
  balanced k -> tables k !! CURRENT k = Some (Some t) -> get t (Z.to_nat f) = Some e ->
  sys_lseek size f off w k = Ret (p, k') -> (0 <= p <= 0x7FFFFFFF)%Z ->
  exists o d, k' = set_ofds k (<[ofd e := Some (mk_ofd d (refs o))]> (OFD_TABLE k)) /\
    OFD_TABLE k !! ofd e = Some (Some o) /\ offset d = p.
Proof using Type.
  intros Hb Ht Hg E Hp. destruct (resolve_at _ k t e Hb Ht Hg) as (o & Hr & Ho).
  unfold sys_lseek in E. rewrite Hr in E. cbn [mbind outcome_bind] in E. rewrite (index_lt _ _ _ Ho) in E.
  cbn [mbind outcome_bind] in E.
  match type of E with match ?x with _ => _ end = _ => destruct x as [q|] end.
  - destruct (negb _); injection E as <- <-; [exfalso; by vm_compute in Hp; destruct Hp|]. by eexists o, _.
  - injection E as <- <-. exfalso. vm_compute in Hp. by destruct Hp.
Qed.

(** A duplicate shares the file offset: after [dup] and a seek through the
    new descriptor, the old one reports the new position. *)
Theorem dup_shares_offset f off w k t e n k1 p k2 :
  balanced k -> tables k !! CURRENT k = Some (Some t) -> get t (Z.to_nat f) = Some e ->
  sys_dup f k = Ret (n, k1) -> (0 <= n < 256)%Z ->
  sys_lseek size n off w k1 = Ret (p, k2) -> (0 <= p <= 0x7FFFFFFF)%Z ->
  exists k3, sys_lseek size f 0 SEEK_CUR k2 = Ret (p, k3).
Proof using Type.
  intros Hb Ht Hg Ed Hn El Hp. pose proof (get_Some _ _ _ Hg) as He.
  destruct (dup_with_keeps alloc (Z.to_nat f) k alloc_placement Hb) as (r1 & k1' & Ed' & Hb1).
  unfold sys_dup in Ed. rewrite Ed in Ed'. injection Ed' as <- <-.
  assert (exists m, n = Z.of_nat m /\ t !! m = Some None /\
    tables k1 = <[CURRENT k := Some (<[m := Some (mk_entry (ofd e) false)]> t)]> (tables k) /\
    CURRENT k1 = CURRENT k) as (m & -> & Hm & Ht1 & Hc1).
  { unfold dup_with in Ed. match type of Ed with context [with_current_fds ?g k] =>
      destruct (with_current_fds_ok g _ k Hb) as [[Hx _]|(t0 & Ht0 & _ & Hw)] end; [congruence|].
    assert (t0 = t) as -> by congruence. rewrite Hw in Ed. cbn [mbind outcome_bind] in Ed. rewrite Hg in Ed.
    destruct (alloc t (mk_entry (ofd e) false)) as [[m|] t'] eqn:Ea; cbn [fst snd] in Ed;
      injection Ed as <- <-; [|exfalso; by vm_compute in Hn; destruct Hn].
    apply alloc_refs in Ea as [Hm ->]. by exists m. }
  set (t1 := <[m := Some (mk_entry (ofd e) false)]> t) in *.
  pose proof (lookup_lt_Some _ _ _ Hm) as Hml. pose proof (bal_len _ _ Hb _ _ Ht) as Hl.
  assert (tables k1 !! CURRENT k1 = Some (Some t1)) as Hcur1.
  { rewrite Ht1, Hc1. apply list_lookup_insert_eq. by eapply lookup_lt_Some. }
  assert (get t1 (Z.to_nat (Z.of_nat m)) = Some (mk_entry (ofd e) false)) as Hg1.
  { unfold get. rewrite Nat2Z.id, decide_False by lia. unfold t1. by rewrite list_lookup_insert_eq. }
  destruct (sys_lseek_moves _ off w k1 t1 _ p k2 Hb1 Hcur1 Hg1 El Hp) as (o & d & -> & Ho & Hd).
  cbn [ofd] in *. set (k2 := set_ofds k1 _).
  assert (balanced k2) as Hb2 by (by apply set_desc_keeps).
  assert (get t1 (Z.to_nat f) = Some e) as Hg2.
  { unfold get in *. destruct (decide (MAX_FDS <= Z.to_nat f)); [done|]. unfold t1.
    rewrite list_lookup_insert_ne; [done|]. intros ->. rewrite Hm in He. done. }
  destruct (resolve_at (Z.to_nat f) k2 t1 e Hb2 Hcur1 Hg2) as (o2 & Hr2 & Ho2).
  assert (o2 = mk_ofd d (refs o)) as ->.
  { cbn [k2 set_ofds OFD_TABLE] in Ho2. rewrite list_lookup_insert_eq in Ho2 by (by eapply lookup_lt_Some). congruence. }
  unfold sys_lseek. rewrite Hr2. cbn [mbind outcome_bind]. rewrite (index_lt _ _ _ Ho2).
  cbn [mbind outcome_bind desc]. rewrite Hd.
  replace (p + cast_signed 0)%Z with p by (change (cast_signed 0) with 0%Z; lia).
  change (SEEK_CUR =? SEEK_SET)%Z with false. change (SEEK_CUR =? SEEK_CUR)%Z with true. cbv beta iota zeta.
  assert (((0 <=? p) && (p <=? 0x7FFFFFFF))%Z = true) as -> by lia. cbn [negb]. by eexists.
Qed.

(** The status flags of a description opened by [sys_open] are exactly
    the flags the caller passed, less O_CLOEXEC: nothing reserves the bits
    that mark a description as a pipe or socket. *)
Theorem open_keeps_caller_flags p n fl k t path mnt ino j ofds m t' :
  balanced k -> tables k !! CURRENT k = Some (Some t) ->
  (p <> 0)%Z -> 0 < Z.to_nat n <= MAX_PATH -> copy_user_path p (Z.to_nat n) k = Ok path ->
  rp path = Ok (mnt, ino) ->
  ofd_alloc (from_vfs (wrap8 mnt) ino (Z.land fl (not32 O_CLOEXEC))) (OFD_TABLE k) = (Some j, ofds) ->
  alloc t (mk_entry j (negb (Z.land fl O_CLOEXEC =? 0)%Z)) = (Some m, t') ->
  exists k', sys_open rp p n fl k = Ret (Z.of_nat m, k') /\
    current_fd_flags m k' = Ret (Some (Z.land fl (not32 O_CLOEXEC))).
Proof using Type.
  intros Hb Ht Hp0 Hn Hc Hrp Hal Ha. destruct (sys_open_keeps rp p n fl k Hb) as (r & k' & E & Hb').
  assert (sys_open rp p n fl k =
    Ret (Z.of_nat m, set_tables (set_ofds k ofds) (<[CURRENT k := Some t']> (tables k)))) as E1.
  { unfold sys_open. rewrite (proj2 (Z.eqb_neq p 0) Hp0), (proj2 (Nat.eqb_neq _ 0)) by lia. cbn [orb].
    rewrite decide_False by lia. rewrite Hc, Hrp, Hal. unfold with_current_fds. cbn [set_ofds tables CURRENT].
    rewrite (index_lt _ _ _ Ht). cbn [mbind outcome_bind]. rewrite Ha.
    by rewrite store_lt by (by eapply lookup_lt_Some). }
  rewrite E1 in E. injection E as <- <-. eexists. split; [done|].
  apply alloc_refs in Ha as [Hm ->]. pose proof (lookup_lt_Some _ _ _ Hm). pose proof (bal_len _ _ Hb _ _ Ht).
  unfold current_fd_flags. match goal with |- context [resolve_fd m ?q] => set (kk := q) in * end.
  destruct (resolve_at m kk (<[m := Some (mk_entry j (negb (Z.land fl O_CLOEXEC =? 0)%Z))]> t)
    (mk_entry j (negb (Z.land fl O_CLOEXEC =? 0)%Z))) as (o & -> & Ho); [done| | |].
  - apply list_lookup_insert_eq. by eapply lookup_lt_Some.
  - unfold get. rewrite decide_False by lia. by rewrite list_lookup_insert_eq.
  - cbn [mbind outcome_bind ofd] in *. rewrite Ho. cbn [flatten].
    unfold ofd_alloc in Hal. destruct (first_free (OFD_TABLE k)) as [i|] eqn:Ef; [|done].
    injection Hal as <- <-. cbn [kk set_tables set_ofds OFD_TABLE] in Ho. apply first_free_Some in Ef.
    rewrite list_lookup_insert_eq in Ho by (by eapply lookup_lt_Some). by injection Ho as <-.
Qed.

End refs.

(** ** Witnesses: process 0 opens the path at 0x10003000 of [memguard.caller] *)

Definition any_path (path : list Z) : result (Z * Z) VfsError := Ok (0, 1)%Z.
Definition any_size (d : FileDescriptor) : Z := 100.

Definition opened : kernel memguard.cpu :=
  match sys_open any_path 0x10003000 1 0 (boot memguard.caller) with Ret (_, k) => k | Panic => boot memguard.caller end.

Lemma opened_balanced : balanced opened.
Proof.
  unfold opened. destruct (sys_open_keeps any_path 0x10003000 1 0 _ (boot_balanced memguard.caller)) as (r & k & -> & H).
  exact H.
Qed.

Definition opened_table : FdTable := <[0 := Some (mk_entry 0 false)]> empty_table.

Lemma opened_tables : tables opened !! CURRENT opened = Some (Some opened_table).
Proof. vm_compute. reflexivity. Qed.

Lemma exit_drains_table_witness :
  exists k' t', close_all 0 opened = Ret k' /\ tables k' = <[0 := Some t']> (tables opened) /\
    t' !! 0 <> Some (Some (mk_entry 0 false)).
Proof.
  destruct (exit_drains_table 0 opened opened_table opened_balanced opened_tables) as (k' & t' & E & _ & Ht & Hd).
  exists k', t'. split; [exact E|]. split; [exact Ht|exact (Hd 0 (mk_entry 0 false))].
Defined.

Lemma dup2_shares_description_witness :
  exists k', sys_dup2 0 7 opened = Ret (7%Z, k') /\ same_desc (OFD_TABLE opened !! 0) (OFD_TABLE k' !! 0).
Proof.
  destruct (dup2_shares_description 0 7 opened opened_table (mk_entry 0 false) opened_balanced opened_tables)
    as (k' & E & _ & Hs).
  - reflexivity.
  - apply Nat.ltb_lt. vm_compute. reflexivity.
  - discriminate.
  - exists k'. split; [exact E|exact Hs].
Defined.

Lemma dup_shares_offset_witness :
  exists k1 k2 k3, sys_dup 0 opened = Ret (1%Z, k1) /\ sys_lseek any_size 1 42 SEEK_SET k1 = Ret (42%Z, k2) /\
    sys_lseek any_size 0 0 SEEK_CUR k2 = Ret (42%Z, k3).
Proof.
  assert (match sys_dup 0 opened with
          | Ret (n, k1) => n = 1%Z /\ match sys_lseek any_size 1 42 SEEK_SET k1 with Ret (p, _) => p = 42%Z | Panic => False end
          | Panic => False end) as H by (vm_compute; split; reflexivity).
  destruct (sys_dup 0 opened) as [[n k1]|] eqn:Ed; [|destruct H]. destruct H as [-> H].
  destruct (sys_lseek any_size 1 42 SEEK_SET k1) as [[q k2]|] eqn:El; [|destruct H]. subst q.
  destruct (dup_shares_offset any_size 0 42 SEEK_SET opened opened_table (mk_entry 0 false) 1 k1 42 k2
    opened_balanced opened_tables eq_refl Ed ltac:(lia) El ltac:(lia)) as [k3 E3].
  exists k1, k2, k3. split; [reflexivity|]. split; [exact El|exact E3].
Defined.

(** A process that opens any path with the flags word of pipe 3 holds a
    descriptor that the read, write and close paths route to pipe 3, whoever
    created that pipe. *)
Lemma open_keeps_caller_flags_witness :
  exists k', sys_open any_path 0x10003000 1 (pipe.pipe_flags 3 pipe.FD_END_READ) (boot memguard.caller) = Ret (0%Z, k') /\
    current_fd_flags 0 k' = Ret (Some (pipe.pipe_flags 3 pipe.FD_END_READ)) /\
    pipe.is_pipe_fd (pipe.pipe_flags 3 pipe.FD_END_READ) = true.
Proof.
  destruct (open_keeps_caller_flags any_path 0x10003000 1 (pipe.pipe_flags 3 pipe.FD_END_READ)
    (boot memguard.caller) empty_table [0%Z] 0 1 0
    (<[0 := Some (mk_ofd (from_vfs 0 1 (pipe.pipe_flags 3 pipe.FD_END_READ)) 1)]> (replicate MAX_OFDS None))
    0 opened_table (boot_balanced _)) as (k' & E & Hf).
  - reflexivity.
  - discriminate.
  - change (Z.to_nat 1) with 1. unfold MAX_PATH. lia.
  - vm_compute. reflexivity.
  - reflexivity.
  - vm_compute. reflexivity.
  - vm_compute. reflexivity.
  - exists k'. split; [exact E|]. split; [exact Hf|reflexivity].
Defined.
End fd.
