(* ===== verification/Vfs.v ===== *)
(** * The file system switch ([crates/thumos/src/vfs.rs])

    What a file system offers (the class [Filesystem], the trait of the same
    name), the table of mount points and the resolution of absolute paths. A
    string is its list of bytes. [dyn Filesystem] is any type with an instance;
    a table of two kinds of file systems is a table over their sum. *)

From S2P Require Import Prelude Machine Fd.
From Stdlib Require Import ZArith.
Open Scope Z_scope.

Module vfs.
Import fd.

#[export] Instance VfsError_eq_dec : EqDecision VfsError.
Proof. solve_decision. Defined.

Abbreviation str := (list Z) (only parsing).
Definition SLASH : Z := 47.
Definition DOT : Z := 46.

(** [s.split('/')]. *)
Fixpoint split_slash (s : str) : list str :=
  match s with
  | [] => [[]]
  | c :: s =>
      if c =? SLASH then [] :: split_slash s else
      match split_slash s with
      | w :: ws => (c :: w) :: ws
      | [] => [[c]]
      end
  end.

(** [s.split('/').filter(|c| !c.is_empty())]. *)
Definition components (s : str) : list str := filter (fun c => c <> []) (split_slash s).

Definition starts_with (s p : str) : bool := bool_decide (take (length p) s = p).

Inductive InodeType := RegularFile | Directory | CharDevice | BlockDevice | Symlink.

#[export] Instance InodeType_eq_dec : EqDecision InodeType.
Proof. solve_decision. Defined.

Record InodeStat := mk_stat { st_inode_id : Z; st_inode_type : InodeType; st_size : Z; st_link_count : Z; st_block_count : Z }.
Record DirEntry := mk_dirent { de_name : str; de_inode_id : Z; de_inode_type : InodeType }.

Definition to_errno (e : VfsError) : Z :=
  errno match e with
  | NotFound => 2 | NotADirectory => 20 | IsADirectory => 21 | AlreadyExists => 17 | NotEmpty => 39 | InvalidPath => 22
  | NoSpace => 28 | IoError => 5 | PermissionDenied => 13 | TooManyLinks => 31 | RequiresMut => 5
  end.

(** The trait. A read returns the bytes it put in the buffer of [len] bytes;
    [read_mut], which is [read] by default, may also change the file system. *)
Class Filesystem (F : Type) := {
  root_inode : F -> Z;
  stat : F -> Z -> result InodeStat VfsError;
  lookup : F -> Z -> str -> result Z VfsError;
  read : F -> Z -> Z -> Z -> result (list Z) VfsError;
  read_mut : F -> Z -> Z -> Z -> result (list Z) VfsError * F;
  write : F -> Z -> Z -> list Z -> result Z VfsError * F;
  create : F -> Z -> str -> InodeType -> result Z VfsError * F;
  unlink : F -> Z -> str -> result () VfsError * F;
  readdir : F -> Z -> result (list DirEntry) VfsError;
  truncate : F -> Z -> Z -> result () VfsError * F;
  sync : F -> result () VfsError * F;
}.

#[export] Instance dyn_filesystem {A B : Type} `{!Filesystem A, !Filesystem B} : Filesystem (A + B) := {|
  root_inode f := match f with inl a => root_inode a | inr b => root_inode b end;
  stat f i := match f with inl a => stat a i | inr b => stat b i end;
  lookup f i n := match f with inl a => lookup a i n | inr b => lookup b i n end;
  read f i o l := match f with inl a => read a i o l | inr b => read b i o l end;
  read_mut f i o l := match f with inl a => prod_map id inl (read_mut a i o l) | inr b => prod_map id inr (read_mut b i o l) end;
  write f i o l := match f with inl a => prod_map id inl (write a i o l) | inr b => prod_map id inr (write b i o l) end;
  create f i n t := match f with inl a => prod_map id inl (create a i n t) | inr b => prod_map id inr (create b i n t) end;
  unlink f i n := match f with inl a => prod_map id inl (unlink a i n) | inr b => prod_map id inr (unlink b i n) end;
  readdir f i := match f with inl a => readdir a i | inr b => readdir b i end;
  truncate f i s := match f with inl a => prod_map id inl (truncate a i s) | inr b => prod_map id inr (truncate b i s) end;
  sync f := match f with inl a => prod_map id inl (sync a) | inr b => prod_map id inr (sync b) end;
|}.

(** ** Mount points *)

Definition MAX_MOUNTS : nat := 8.

Section mounts.
Context {F : Type} `{!Filesystem F}.

Record MountEntry := mk_mount { m_path : str; m_fs : F }.
#[local] Abbreviation MountTable := (list (option MountEntry)).

Definition new : MountTable := replicate MAX_MOUNTS None.

Definition mount (mt : MountTable) (path : str) (f : F) : result () VfsError * MountTable :=
  if negb (starts_with path [SLASH]) then (Err InvalidPath, mt) else
  if (1 <? length path)%nat && bool_decide (last path = Some SLASH) then (Err InvalidPath, mt) else
  if existsb (fun e : option MountEntry => from_option (fun e => bool_decide (m_path e = path)) false e) mt then (Err AlreadyExists, mt) else
  match first_free mt with
  | Some i => (Ok (), <[i := Some (mk_mount path f)]> mt)
  | None => (Err NoSpace, mt)
  end.

(** The test of the loop of [MountTable::lookup] on a non-root entry. *)
Definition covers (mount_path path : str) : bool :=
  bool_decide (path = mount_path) || (starts_with path mount_path && bool_decide (path !! length mount_path = Some SLASH)).

(** The loop: the best index and length so far. *)
Fixpoint best (mt : MountTable) (i : nat) (path : str) (b : option nat * nat) : option nat * nat :=
  match mt with
  | [] => b
  | None :: mt => best mt (S i) path b
  | Some e :: mt =>
      let mp := m_path e in
      best mt (S i) path
        (if bool_decide (mp = [SLASH]) then (if (b.2 =? 0)%nat then (Some i, 1%nat) else b) else
         if covers mp path && (b.2 <? length mp)%nat then (Some i, length mp) else b)
  end.

Definition mt_lookup (mt : MountTable) (path : str) : option (nat * str) :=
  match best mt 0 path (None, 0%nat) with
  | (Some idx, best_len) =>
      Some (idx, if (best_len =? 1)%nat then path else if (length path =? best_len)%nat then [SLASH] else drop best_len path)
  | (None, _) => None
  end.

Definition mt_get (mt : MountTable) (idx : nat) : option F :=
  if (MAX_MOUNTS <=? idx)%nat then None else e ← mt !! idx; m_fs <$> e.

(** ** Paths *)

(** The loop of [resolve_path] over the components. *)
Fixpoint walk_components (f : F) (root : Z) (cs : list str) (parent_stack : list Z) (current : Z) : result Z VfsError :=
  match cs with
  | [] => Ok current
  | c :: cs =>
      if bool_decide (c = [DOT]) then walk_components f root cs parent_stack current else
      if bool_decide (c = [DOT; DOT]) then
        match parent_stack with
        | p :: ps => walk_components f root cs ps p
        | [] => walk_components f root cs [] root
        end
      else
        match lookup f current c with
        | Ok i => walk_components f root cs (current :: parent_stack) i
        | Err e => Err e
        end
  end.

Definition resolve_path (mt : MountTable) (path : str) : result (nat * Z) VfsError :=
  if negb (starts_with path [SLASH]) then Err InvalidPath else
  match mt_lookup mt path with
  | None => Err NotFound
  | Some (idx, remaining) =>
      match mt_get mt idx with
      | None => Err NotFound
      | Some f =>
          let root := root_inode f in
          match walk_components f root (components remaining) [] root with
          | Ok i => Ok (idx, i)
          | Err e => Err e
          end
      end
  end.
End mounts.
Arguments MountEntry : clear implicits.
Abbreviation MountTable F := (list (option (MountEntry F))).

(** ** Strings *)

Lemma split_slash_nonempty s : split_slash s <> [].
Proof. destruct s as [|c s]; cbn; [done|]. destruct (c =? SLASH); [done|]. by destruct (split_slash s). Qed.

Lemma split_slash_app s t : split_slash (s ++ SLASH :: t) = split_slash s ++ split_slash t.
Proof.
  induction s as [|c s IH]; cbn [app split_slash]; [done|]. rewrite IH. destruct (c =? SLASH); [done|].
  pose proof (split_slash_nonempty s). by destruct (split_slash s).
Qed.

Lemma components_app s t : components (s ++ SLASH :: t) = components s ++ components t.
Proof. unfold components. by rewrite split_slash_app, filter_app. Qed.

Lemma components_slash t : components (SLASH :: t) = components t.
Proof. exact (components_app [] t). Qed.

Lemma split_no_slash s : SLASH ∉ s -> split_slash s = [s].
Proof.
  induction s as [|c s IH]; intros Hs; cbn [split_slash]; [done|]. apply not_elem_of_cons in Hs as [Hc Hs].
  destruct (Z.eqb_spec c SLASH); [congruence|]. by rewrite IH.
Qed.

(** A name of a directory entry. *)
Definition is_name (n : str) : Prop := n <> [] /\ SLASH ∉ n.

Lemma components_name n : is_name n -> components n = [n].
Proof. intros [Hn Hs]. unfold components. rewrite split_no_slash by done. by rewrite filter_cons_True. Qed.

Lemma split_slash_names s : Forall (fun c => SLASH ∉ c) (split_slash s).
Proof.
  induction s as [|c s IH]; cbn [split_slash]; [apply Forall_singleton, not_elem_of_nil|].
  destruct (Z.eqb_spec c SLASH); [constructor; [apply not_elem_of_nil|done]|].
  destruct (split_slash s) as [|w ws]; [apply Forall_singleton; intros E%list_elem_of_singleton; by subst|].
  apply Forall_cons in IH as [Hw IH]. constructor; [|done]. by apply not_elem_of_cons.
Qed.

Lemma components_names s : Forall is_name (components s).
Proof.
  apply Forall_forall. intros c [Hc Hin]%list_elem_of_filter. split; [done|].
  pose proof (split_slash_names s) as H. rewrite Forall_forall in H. by apply H.
Qed.

Lemma starts_with_spec s p : starts_with s p = true <-> exists r, s = p ++ r.
Proof.
  unfold starts_with. rewrite bool_decide_eq_true. split.
  - intros H. exists (drop (length p) s). rewrite <- H at 1. by rewrite take_drop.
  - intros (r & ->). by rewrite take_app_length.
Qed.

Lemma covers_spec mp path : covers mp path = true <-> path = mp \/ exists r, path = mp ++ SLASH :: r.
Proof.
  unfold covers. rewrite orb_true_iff, andb_true_iff, starts_with_spec, !bool_decide_eq_true. split.
  - intros [?|[(r & ->) H]]; [by left|right]. rewrite lookup_app_r, Nat.sub_diag in H by done. destruct r as [|c r]; [done|].
    injection H as ->. by exists r.
  - intros [?|(r & ->)]; [by left|right]. split; [by exists (SLASH :: r)|]. by rewrite lookup_app_r, Nat.sub_diag.
Qed.

(** ** The longest mount point *)

Section theory.
Context {F : Type} `{!Filesystem F}.
Implicit Types (mt : MountTable F).

(** A path the table holds: absolute, and without a final slash unless it is the root. *)
Definition mount_path_ok (p : str) : Prop := exists r, p = SLASH :: r /\ (r = [] \/ last r <> Some SLASH).

Record mounts_ok mt : Prop := {
  mo_len : length mt = MAX_MOUNTS;
  mo_path : forall i e, mt !! i = Some (Some e) -> mount_path_ok (m_path e);
  mo_distinct : forall i j e e', mt !! i = Some (Some e) -> mt !! j = Some (Some e') -> m_path e = m_path e' -> i = j;
}.

(** An entry whose tree contains the path. *)
Definition at_or_above (e : MountEntry F) (path : str) : Prop :=
  m_path e = [SLASH] \/ path = m_path e \/ exists r, path = m_path e ++ SLASH :: r.

#[local] Instance at_or_above_dec e path : Decision (at_or_above e path).
Proof.
  refine (cast_if (decide (m_path e = [SLASH] \/ covers (m_path e) path = true))); unfold at_or_above; by rewrite <- covers_spec.
Defined.

Lemma best_cons path i e b mt :
  mount_path_ok (m_path e) ->
  best (Some e :: mt) i path b =
  best mt (S i) path (if decide (at_or_above e path /\ b.2 < length (m_path e))%nat then (Some i, length (m_path e)) else b).
Proof.
  intros (r & E & _). cbn [best]. f_equal. destruct (bool_decide_reflect (m_path e = [SLASH])) as [H|Hne].
  - assert (length (m_path e) = 1)%nat as Hl by (by rewrite H). rewrite Hl.
    destruct (Nat.eqb_spec b.2 0); [rewrite decide_True by (split; [by left|lia])|rewrite decide_False by lia]; done.
  - pose proof (covers_spec (m_path e) path) as Hs. destruct (covers (m_path e) path); cbn [andb].
    + destruct (Nat.ltb_spec b.2 (length (m_path e))) as [H|H]; [rewrite decide_True by (split; [right; by apply Hs|lia])|rewrite decide_False by lia]; done.
    + rewrite decide_False; [done|]. intros [[?|H%Hs] _]; done.
Qed.

Lemma best_spec path mt : forall i b,
  (forall j e, mt !! j = Some (Some e) -> mount_path_ok (m_path e)) ->
  let b' := best mt i path b in
  (b.2 <= b'.2)%nat /\
  (b' = b \/ exists j e, mt !! j = Some (Some e) /\ at_or_above e path /\ b' = (Some (i + j)%nat, length (m_path e))) /\
  (forall j e, mt !! j = Some (Some e) -> at_or_above e path -> (length (m_path e) <= b'.2)%nat).
Proof.
  induction mt as [|[e|] mt IH]; intros i b Hok.
  - cbn [best]. split_and!; [done|by left|done].
  - rewrite best_cons by (by apply (Hok 0%nat)). set (b1 := if decide _ then _ else _).
    destruct (IH (S i) b1 (fun j => Hok (S j))) as (H1 & H2 & H3). cbv zeta in *.
    assert (b.2 <= b1.2)%nat as Hb by (unfold b1; destruct (decide _) as [[_ ?]|]; cbn [snd]; lia). split_and!.
    + lia.
    + destruct H2 as [->|(j & e' & Hj & He' & ->)]; [|right; exists (S j), e'; split_and!; [done|done|f_equal; f_equal; lia]].
      unfold b1. destruct (decide _) as [[Ha _]|]; [right; exists 0%nat, e; split_and!; [done|done|by rewrite Nat.add_0_r]|by left].
    + intros [|j] e' Hj He'; [|by apply (H3 j)]. injection Hj as ->. assert (length (m_path e') <= b1.2)%nat; [|lia].
      unfold b1. destruct (decide _) as [|Hn]; [done|]. destruct (Nat.le_gt_cases (length (m_path e')) b.2); [done|]. by destruct Hn.
  - cbn [best]. destruct (IH (S i) b (fun j => Hok (S j))) as (H1 & H2 & H3). cbv zeta in *. split_and!; [done| |].
    + destruct H2 as [->|(j & e' & Hj & He' & ->)]; [by left|right; exists (S j), e'; split_and!; [done|done|f_equal; f_equal; lia]].
    + intros [|j] e' Hj He'; [done|by apply (H3 j)].
Qed.

Lemma same_length_prefix (p q path : str) : (exists r, path = p ++ r) -> (exists r, path = q ++ r) -> length p = length q -> p = q.
Proof. intros (r & ->) (r' & E) Hl. by apply app_inj_1 in E as [? _]. Qed.

(** What the table answers for an absolute path. *)
Definition routed mt (path : str) (o : option (nat * str)) : Prop :=
  match o with
  | None => forall i e, mt !! i = Some (Some e) -> ~ at_or_above e path
  | Some (i, remaining) => exists e, mt !! i = Some (Some e) /\ at_or_above e path /\
      (forall i' e', mt !! i' = Some (Some e') -> at_or_above e' path -> i' <> i -> (length (m_path e') < length (m_path e))%nat) /\
      components path = components (m_path e) ++ components remaining
  end.

Lemma above_prefix e path : starts_with path [SLASH] = true -> at_or_above e path -> exists r, path = m_path e ++ r.
Proof.
  intros Hp [->|[->|(r & ->)]]; [by apply starts_with_spec|exists []; by rewrite app_nil_r|by exists (SLASH :: r)].
Qed.

Lemma lookup_routed mt path : mounts_ok mt -> starts_with path [SLASH] = true -> routed mt path (mt_lookup mt path).
Proof.
  intros M Hp. unfold mt_lookup. destruct (best_spec path mt 0 (None, 0%nat) (mo_path _ M)) as (_ & H2 & H3). cbv zeta in *.
  destruct (best mt 0 path (None, 0%nat)) as [oi len]. cbn [snd] in *. destruct H2 as [[= -> ->]|(j & e & Hj & He & [= -> ->])].
  - cbn [routed]. intros i e Hi He. specialize (H3 i e Hi He). destruct (mo_path _ M i e Hi) as (r & E & _). rewrite E in H3. cbn in H3. lia.
  - cbn [routed]. exists e. split_and!; [done|done| |].
    + intros i' e' Hi' He' Hne. specialize (H3 i' e' Hi' He'). destruct (decide (length (m_path e') = length (m_path e))) as [Heq|]; [|lia].
      destruct Hne. apply (mo_distinct _ M i' j e' e); [done|done|]. by apply (same_length_prefix _ _ path); [apply above_prefix|apply above_prefix|].
    + destruct (mo_path _ M j e Hj) as (r & E & Hr). destruct (Nat.eqb_spec (length (m_path e)) 1) as [H1|H1].
      { rewrite E in H1. destruct r; [|done]. rewrite E. by rewrite components_slash. }
      destruct He as [He|[->|(t & ->)]]; [by rewrite He in H1| |].
      * rewrite Nat.eqb_refl. change (components [SLASH]) with (@nil str). by rewrite app_nil_r.
      * destruct (Nat.eqb_spec (length (m_path e ++ SLASH :: t)) (length (m_path e))) as [Hl|_]; [rewrite length_app in Hl; cbn in Hl; lia|].
        rewrite drop_app_length, components_app, components_slash. done.
Qed.

Lemma new_mounts_ok : mounts_ok (@new F).
Proof.
  unfold new. constructor; [by rewrite length_replicate|..].
  - by intros i e [? _]%lookup_replicate.
  - by intros i j e e' [? _]%lookup_replicate.
Qed.

Lemma mount_ok mt path f : mounts_ok mt -> mounts_ok (mount mt path f).2.
Proof.
  intros M. unfold mount. destruct (starts_with path [SLASH]) eqn:Hp; cbn [negb]; [|done]. apply starts_with_spec in Hp as (r & ->).
  destruct (_ && _) eqn:Hl; [done|]. destruct (existsb _ _) eqn:Hex; [done|]. destruct (first_free mt) as [i|] eqn:Hf; [|done].
  apply first_free_Some in Hf as Hi. pose proof (lookup_lt_Some _ _ _ Hi) as Hlt. cbn [snd].
  assert (forall j e, mt !! j = Some (Some e) -> m_path e <> [SLASH] ++ r) as Hfresh.
  { intros j e Hj E. apply not_true_iff_false in Hex. apply Hex, existsb_exists. exists (Some e). split; [by eapply list_elem_of_In, list_elem_of_lookup_2|].
    cbn. by apply bool_decide_eq_true. }
  constructor.
  - rewrite length_insert. apply M.
  - intros j e [[-> Hj]|[_ Hj]]%list_lookup_insert_Some; [|by apply (mo_path _ M j)]. destruct Hj as [[= <-] _]. cbn [m_path]. exists r. split; [done|].
    destruct r as [|c r]; [by left|right]. cbn in Hl. by apply bool_decide_eq_false in Hl.
  - intros j j' e e' Hj Hj' E. destruct (decide (j = i)) as [->|Hne], (decide (j' = i)) as [->|Hne']; [done| | |].
    + rewrite list_lookup_insert_eq in Hj by done. rewrite list_lookup_insert_ne in Hj' by done. injection Hj as <-. by destruct (Hfresh j' e' Hj').
    + rewrite list_lookup_insert_eq in Hj' by done. rewrite list_lookup_insert_ne in Hj by done. injection Hj' as <-. by destruct (Hfresh j e Hj).
    + rewrite list_lookup_insert_ne in Hj, Hj' by done. by apply (mo_distinct _ M j j' e e').
Qed.

(** ** Resolution *)

(** The path without dots: [..] removes the name before it, and nothing at the root. *)
Fixpoint normalise_onto (rev_path cs : list str) : list str :=
  match cs with
  | [] => reverse rev_path
  | c :: cs =>
      if bool_decide (c = [DOT]) then normalise_onto rev_path cs else
      if bool_decide (c = [DOT; DOT]) then normalise_onto (tail rev_path) cs else normalise_onto (c :: rev_path) cs
  end.
Definition normalise (cs : list str) : list str := normalise_onto [] cs.

(** Descending from an inode by names. *)
Fixpoint descend (f : F) (i : Z) (p : list str) : option Z :=
  match p with
  | [] => Some i
  | n :: p => match lookup f i n with Ok j => descend f j p | Err _ => None end
  end.

Lemma descend_app f i p q : descend f i (p ++ q) = descend f i p ≫= fun j => descend f j q.
Proof. revert i. induction p as [|n p IH]; intros i; cbn; [done|]. by destruct (lookup f i n). Qed.

(** The stack of parents of a path, last name first. *)
Fixpoint trail (f : F) (root : Z) (rev_path : list str) (stack : list Z) (cur : Z) : Prop :=
  match rev_path, stack with
  | [], [] => cur = root
  | n :: rev_path, p :: stack => trail f root rev_path stack p /\ lookup f p n = Ok cur
  | _, _ => False
  end.

Lemma trail_descend f root rp stack cur : trail f root rp stack cur -> descend f root (reverse rp) = Some cur.
Proof.
  revert stack cur. induction rp as [|n rp IH]; intros [|p stack] cur; cbn [trail]; [by intros ->|done|done|].
  intros [H E]. rewrite reverse_cons, descend_app, (IH _ _ H). cbn. by rewrite E.
Qed.

Lemma walk_normalises f root cs : forall rp stack cur i,
  trail f root rp stack cur -> walk_components f root cs stack cur = Ok i -> descend f root (normalise_onto rp cs) = Some i.
Proof.
  induction cs as [|c cs IH]; intros rp stack cur i Ht; cbn [walk_components normalise_onto]; [intros [= <-]; by eapply trail_descend|].
  destruct (bool_decide (c = [DOT])); [by eapply IH|]. destruct (bool_decide (c = [DOT; DOT])).
  - destruct rp as [|n rp], stack as [|p stack]; cbn [trail] in Ht; [by eapply (IH [] [] root)|done|done|]. destruct Ht as [Ht _]. by eapply IH.
  - destruct (lookup f cur c) as [j|] eqn:E; [|done]. by eapply (IH (c :: rp) (cur :: stack)).
Qed.

(** Without dots the loop is the descent, and its error is that of the first
    name that cannot be looked up. *)
Lemma walk_plain f root cs stack cur :
  Forall (fun c => c <> [DOT] /\ c <> [DOT; DOT]) cs ->
  match walk_components f root cs stack cur with
  | Ok i => descend f cur cs = Some i
  | Err e => exists p n q j, cs = p ++ n :: q /\ descend f cur p = Some j /\ lookup f j n = Err e
  end.
Proof.
  revert stack cur. induction cs as [|c cs IH]; intros stack cur H; cbn [walk_components descend]; [done|].
  apply Forall_cons in H as [[H1 H2] H]. rewrite !bool_decide_false by done. destruct (lookup f cur c) as [j|e] eqn:E.
  - specialize (IH (cur :: stack) j H). destruct (walk_components _ _ _ _ _) as [i|e]; [done|].
    destruct IH as (p & n & q & k & -> & Hd & He). exists (c :: p), n, q, k. split_and!; [done| |done]. cbn. by rewrite E.
  - by exists [], c, cs, cur.
Qed.
End theory.

(** ** Theorems *)

(** A read-only file system of entries (directory, name, inode), for examples. *)
Definition names_fs : Type := list (Z * str * Z).
Fixpoint names_lookup (es : names_fs) (i : Z) (n : str) : result Z VfsError :=
  match es with
  | [] => Err NotFound
  | (d, m, c) :: es => if bool_decide (d = i /\ m = n) then Ok c else names_lookup es i n
  end.
#[local] Instance names_filesystem : Filesystem names_fs := {|
  root_inode _ := 0; stat _ _ := Err IoError; lookup := names_lookup; read _ _ _ _ := Err IoError; read_mut f _ _ _ := (Err IoError, f);
  write f _ _ _ := (Err PermissionDenied, f); create f _ _ _ := (Err PermissionDenied, f); unlink f _ _ := (Err PermissionDenied, f);
  readdir _ _ := Err IoError; truncate f _ _ := (Err PermissionDenied, f); sync f := (Ok (), f);
|}.
Definition demo_names : names_fs := [(0, [97], 1); (1, [98], 2)].

(** A table built by mounting file systems routes an absolute path to the
    entry with the longest mount path at or above it, and the rest of the path
    is what remains below that entry; it answers nothing exactly when no entry
    is at or above the path. *)
Theorem mounts_route_longest_prefix {F : Type} `{!Filesystem F} (ops : list (str * F)) (path : str) :
  starts_with path [SLASH] = true ->
  let mt := foldl (fun mt o => (mount mt o.1 o.2).2) new ops in
  mounts_ok mt /\ routed mt path (mt_lookup mt path).
Proof.
  intros Hp mt. assert (mounts_ok mt) as M; [|split; [done|by apply lookup_routed]].
  unfold mt. clear mt. generalize (@new F), (@new_mounts_ok F). induction ops as [|[p f] ops IH]; intros mt M; cbn [foldl]; [done|].
  by apply IH, mount_ok.
Qed.

Definition demo_mounts : list (str * names_fs) := [([SLASH], demo_names); ([47; 109], demo_names); ([47; 109; 47; 110], demo_names)].

Lemma mounts_route_longest_prefix_witness :
  let mt := foldl (fun mt o => (mount mt o.1 o.2).2) new demo_mounts in
  let path : str := [47; 109; 47; 110; 47; 97] in let beside : str := [47; 109; 110] in
  mt_lookup mt path = Some (2%nat, [47; 97]) /\ mt_lookup mt beside = Some (0%nat, beside) /\ routed mt path (mt_lookup mt path).
Proof.
  intros mt path beside. destruct (mounts_route_longest_prefix demo_mounts path eq_refl) as [_ H]. split_and!; [reflexivity|reflexivity|exact H].
Defined.

(** A path that resolves leads to the inode that the path without its dots
    descends to, in the file system with the longest mount path above it: [.]
    stays, [..] goes back to the directory the walk came from and never above
    the root of that file system. *)
Theorem resolve_path_normalises {F : Type} `{!Filesystem F} (mt : MountTable F) (path : str) idx i :
  mounts_ok mt -> resolve_path mt path = Ok (idx, i) ->
  exists remaining e, routed mt path (Some (idx, remaining)) /\ mt !! idx = Some (Some e) /\
    descend (m_fs e) (root_inode (m_fs e)) (normalise (components remaining)) = Some i.
Proof.
  intros M. unfold resolve_path. destruct (starts_with path [SLASH]) eqn:Hp; cbn [negb]; [|done].
  pose proof (lookup_routed mt path M Hp) as Hr. destruct (mt_lookup mt path) as [[idx' rm]|]; [|done].
  destruct (mt_get mt idx') as [f|] eqn:Hg; [|done]. destruct (walk_components _ _ _ _ _) as [j|] eqn:Hw; [|done]. intros [= <- <-].
  pose proof Hr as (e & He & _). exists rm, e. split_and!; [done|done|].
  assert (m_fs e = f) as <-. { unfold mt_get in Hg. destruct (_ <=? _)%nat; [done|]. rewrite He in Hg. by injection Hg. }
  by eapply walk_normalises; [|exact Hw].
Qed.

Lemma resolve_path_normalises_witness :
  let mt := foldl (fun mt o => (mount mt o.1 o.2).2) new demo_mounts in
  let path := [47; 109; 47; 97; 47; 98; 47; 46; 46; 47; 46; 47; 98] in
  resolve_path mt path = Ok (1%nat, 2) /\ exists e, mt !! 1%nat = Some (Some e) /\ descend (m_fs e) 0 [[97]; [98]] = Some 2.
Proof.
  intros mt path. assert (resolve_path mt path = Ok (1%nat, 2)) as E by reflexivity. split; [exact E|].
  assert (mounts_ok mt) as M. { unfold mt, demo_mounts. cbn [foldl]. do 3 apply mount_ok. apply new_mounts_ok. }
  destruct (resolve_path_normalises mt path 1%nat 2 M E) as (rm & e & _ & He & _). exists e. split; [exact He|]. injection He as <-. reflexivity.
Defined.
End vfs.
