(* ===== verification/Ramfs.v ===== *)
(** * The RAM file system ([crates/thumos/src/ramfs.rs]) and its boot archive
    ([crates/thumos/build.rs], [cpio_newc_entry])

    A vector of inodes; a directory's children are pairs of a name and an inode
    number. Inodes are never reused, so an open file keeps its inode after its
    name is gone. The archive reader works on untrusted bytes. *)

From S2P Require Import Prelude Machine Memguard Fd Vfs.
From Stdlib Require Import ZArith.
Open Scope Z_scope.

Module ramfs.
Import fd vfs.

Definition RAMFS_MAX_FILE_SIZE : Z := 64 * 1024 * 1024.

Record RamInode := mk_inode { inode_type : InodeType; data : list Z; children : list (str * Z); parent : Z }.
Record RamFs := mk_fs { inodes : list RamInode; next_inode : Z }.

Definition empty_inode (t : InodeType) (p : Z) : RamInode := mk_inode t [] [] p.
Definition new : RamFs := mk_fs [empty_inode Directory 0] 1.

Definition with_data (nd : RamInode) (d : list Z) : RamInode := mk_inode (inode_type nd) d (children nd) (parent nd).
Definition with_children (nd : RamInode) (c : list (str * Z)) : RamInode := mk_inode (inode_type nd) (data nd) c (parent nd).

(** [self.inodes.get(id)]. *)
Definition get (fs : RamFs) (id : Z) : option RamInode := inodes fs !! Z.to_nat id.
Definition alter_inode (fs : RamFs) (id : Z) (f : RamInode -> RamInode) : RamFs := mk_fs (alter f (Z.to_nat id) (inodes fs)) (next_inode fs).

(** [children.iter().find(|(n, _)| n == name).map(|(_, id)| *id)]. *)
Fixpoint find_child (cs : list (str * Z)) (name : str) : option Z :=
  match cs with
  | [] => None
  | (n, id) :: cs => if bool_decide (n = name) then Some id else find_child cs name
  end.

(** [children.remove(position of name)]. *)
Fixpoint remove_child (cs : list (str * Z)) (name : str) : list (str * Z) :=
  match cs with
  | [] => []
  | (n, id) :: cs => if bool_decide (n = name) then cs else (n, id) :: remove_child cs name
  end.

(** A new inode under [dir], named [name]: push, then the parent's entry. *)
Definition push_inode (fs : RamFs) (dir : Z) (name : str) (t : InodeType) (d : list Z) : RamFs :=
  let fs' := mk_fs (inodes fs ++ [mk_inode t d [] dir]) (wrap32 (next_inode fs + 1)) in
  alter_inode fs' dir (fun nd => with_children nd (children nd ++ [(name, next_inode fs)])).

(** [data.resize(n, 0)]. *)
Definition resize (d : list Z) (n : Z) : list Z := take (Z.to_nat n) d ++ replicate (Z.to_nat n - length d) 0.

(** ** The trait's operations *)

Definition ram_stat (fs : RamFs) (id : Z) : result InodeStat VfsError :=
  match get fs id with
  | None => Err NotFound
  | Some nd =>
      Ok (mk_stat id (inode_type nd)
        match inode_type nd with RegularFile => Z.of_nat (length (data nd)) | Directory => Z.of_nat (length (children nd)) | _ => 0 end
        (if decide (inode_type nd = Directory) then 2 else 1) 0)
  end.

Definition ram_lookup (fs : RamFs) (dir : Z) (name : str) : result Z VfsError :=
  match get fs dir with
  | None => Err NotFound
  | Some nd => if decide (inode_type nd = Directory) then ok_or (find_child (children nd) name) NotFound else Err NotADirectory
  end.

(** The offset is a [u64], the index a 32-bit [usize]. *)
Definition ram_read (fs : RamFs) (id offset len : Z) : result (list Z) VfsError :=
  match get fs id with
  | None => Err NotFound
  | Some nd =>
      if decide (inode_type nd = Directory) then Err IsADirectory else
      let off := wrap32 offset in
      if Z.of_nat (length (data nd)) <=? off then Ok [] else
      let remaining := Z.of_nat (length (data nd)) - off in
      Ok (take (Z.to_nat (Z.min len remaining)) (drop (Z.to_nat off) (data nd)))
  end.

Definition ram_write (fs : RamFs) (id offset : Z) (buf : list Z) : result Z VfsError * RamFs :=
  match get fs id with
  | None => (Err NotFound, fs)
  | Some nd =>
      if decide (inode_type nd = Directory) then (Err IsADirectory, fs) else
      let fin := offset + Z.of_nat (length buf) in
      if negb ((fin <? 2 ^ 64) && (fin <=? RAMFS_MAX_FILE_SIZE)) then (Err NoSpace, fs) else
      let d := if Z.of_nat (length (data nd)) <? fin then resize (data nd) fin else data nd in
      let d := take (Z.to_nat offset) d ++ buf ++ drop (Z.to_nat fin) d in
      (Ok (Z.of_nat (length buf)), alter_inode fs id (fun nd => with_data nd d))
  end.

Definition ram_create (fs : RamFs) (dir : Z) (name : str) (t : InodeType) : result Z VfsError * RamFs :=
  match get fs dir with
  | None => (Err NotFound, fs)
  | Some nd =>
      if decide (inode_type nd = Directory) then
        if existsb (fun c => bool_decide (c.1 = name)) (children nd) then (Err AlreadyExists, fs)
        else (Ok (next_inode fs), push_inode fs dir name t [])
      else (Err NotADirectory, fs)
  end.

Definition ram_unlink (fs : RamFs) (dir : Z) (name : str) : result () VfsError * RamFs :=
  match get fs dir with
  | None => (Err NotFound, fs)
  | Some nd =>
      if decide (inode_type nd = Directory) then
        match find_child (children nd) name with
        | None => (Err NotFound, fs)
        | Some child_id =>
            if from_option (fun c => bool_decide (inode_type c = Directory) && negb (bool_decide (children c = []))) false (get fs child_id)
            then (Err NotEmpty, fs)
            else (Ok (), alter_inode fs dir (fun nd => with_children nd (remove_child (children nd) name)))
        end
      else (Err NotADirectory, fs)
  end.

Definition ram_readdir (fs : RamFs) (dir : Z) : result (list DirEntry) VfsError :=
  match get fs dir with
  | None => Err NotFound
  | Some nd =>
      if decide (inode_type nd = Directory) then
        Ok (omap (fun c => (fun child => mk_dirent c.1 c.2 (inode_type child)) <$> get fs c.2) (children nd))
      else Err NotADirectory
  end.

Definition ram_truncate (fs : RamFs) (id size : Z) : result () VfsError * RamFs :=
  match get fs id with
  | None => (Err NotFound, fs)
  | Some nd =>
      if decide (inode_type nd = Directory) then (Err IsADirectory, fs) else
      if RAMFS_MAX_FILE_SIZE <? size then (Err NoSpace, fs) else
      (Ok (), alter_inode fs id (fun nd => with_data nd (resize (data nd) size)))
  end.

#[export] Instance ram_filesystem : Filesystem RamFs := {|
  root_inode _ := 0; stat := ram_stat; lookup := ram_lookup; read := ram_read; read_mut fs i o l := (ram_read fs i o l, fs); write := ram_write;
  create := ram_create; unlink := ram_unlink; readdir := ram_readdir; truncate := ram_truncate;
  sync fs := (Ok (), fs);
|}.

(** ** Files by path, and the boot archive *)

(** [fs.find(name)]: the walk checks that every inode on the way is a directory. *)
Fixpoint find_from (fs : RamFs) (cur : Z) (cs : list str) : option (list Z) :=
  match cs with
  | [] => nd ← get fs cur; if decide (inode_type nd = RegularFile) then Some (data nd) else None
  | c :: cs => nd ← get fs cur; if decide (inode_type nd = Directory) then id ← find_child (children nd) c; find_from fs id cs else None
  end.
Definition find (fs : RamFs) (name : str) : option (list Z) :=
  match components name with [] => None | cs => find_from fs 0 cs end.

Fixpoint ensure_components (fs : RamFs) (cur : Z) (cs : list str) : outcome (Z * RamFs) :=
  match cs with
  | [] => Ret (cur, fs)
  | c :: cs =>
      nd ← index (inodes fs) (Z.to_nat cur);
      match find_child (children nd) c with
      | Some id => ensure_components fs id cs
      | None => ensure_components (push_inode fs cur c Directory []) (next_inode fs) cs
      end
  end.
Definition ensure_directory_path (fs : RamFs) (path : str) : outcome (Z * RamFs) := ensure_components fs 0 (components path).

(** [components.join("/")]. *)
Fixpoint join (cs : list str) : str :=
  match cs with [] => [] | [c] => c | c :: cs => c ++ SLASH :: join cs end.

Definition insert_file_at_path (fs : RamFs) (path : str) (d : list Z) : outcome RamFs :=
  let cs := components path in
  match last cs with
  | None => Ret fs
  | Some file_name =>
      r ← (if (1 <? length cs)%nat then ensure_directory_path fs (join (take (length cs - 1) cs)) else Ret (0, fs));
      let '(parent_id, fs) := r in
      nd ← index (inodes fs) (Z.to_nat parent_id);
      match find_child (children nd) file_name with
      | Some id => Ret (alter_inode fs id (fun nd => with_data nd d))
      | None => Ret (push_inode fs parent_id file_name RegularFile d)
      end
  end.

(** The operations of the root directory alone. *)
Definition add (fs : RamFs) (name : str) (d : list Z) : outcome RamFs :=
  nd ← index (inodes fs) 0;
  match find_child (children nd) name with
  | Some id => Ret (alter_inode fs id (fun nd => with_data nd d))
  | None => Ret (push_inode fs 0 name RegularFile d)
  end.
Definition list_root (fs : RamFs) : outcome (list str) := nd ← index (inodes fs) 0; Ret (children nd).*1.
Definition count (fs : RamFs) : outcome Z :=
  nd ← index (inodes fs) 0;
  Ret (Z.of_nat (length (List.filter (fun c => from_option (fun i => bool_decide (inode_type i = RegularFile)) false (get fs c.2)) (children nd)))).
Definition total_size (fs : RamFs) : Z :=
  foldr Z.add 0 ((fun i => Z.of_nat (length (data i))) <$> filter (fun i => inode_type i = RegularFile) (inodes fs)).

Definition hex_digit (b : Z) : Z :=
  if (48 <=? b) && (b <=? 57) then b - 48 else
  if (97 <=? b) && (b <=? 102) then b - 97 + 10 else
  if (65 <=? b) && (b <=? 70) then b - 65 + 10 else 0.
Definition parse_hex (hex : list Z) : Z := foldl (fun v b => Z.lor (wrap32 (Z.shiftl v 4)) (hex_digit b)) 0 (take 8 hex).

Definition align4 (n : Z) : Z := Z.land (wrap32 (n + 3)) (not32 3).
Definition checked_align4 (n : Z) : option Z := (fun n => Z.land n (not32 3)) <$> memguard.checked_add n 3.

(** The bytes from [a] up to [b]. *)
Definition window (d : list Z) (a b : Z) : list Z := take (Z.to_nat (b - a)) (drop (Z.to_nat a) d).

(** [&data[a..b]], which panics when it is out of range. *)
Definition slice (d : list Z) (a b : Z) : outcome (list Z) :=
  if (a <=? b) && (b <=? Z.of_nat (length d)) then Ret (window d a b) else Panic.

Definition strip_prefix (s p : str) : str := if starts_with s p then drop (length p) s else s.

Definition MAGIC : list Z := [48; 55; 48; 55; 48; 49].
Definition TRAILER : list Z := [84; 82; 65; 73; 76; 69; 82; 33; 33; 33].

(** The tree change of one archive entry; [body] is the slice of its data, which
    is only taken for a file. *)
Definition add_entry (fs : RamFs) (name : str) (mode filesize : Z) (body : outcome (list Z)) : outcome RamFs :=
  let file_type := Z.land mode 0xF000 in
  let is_dir := file_type =? 0x4000 in
  if bool_decide (name = []) || bool_decide (name = [DOT]) then Ret fs else
  let clean_name := strip_prefix (strip_prefix name [DOT; SLASH]) [SLASH] in
  if bool_decide (clean_name = []) then Ret fs else
  if is_dir then snd <$> ensure_directory_path fs clean_name else
  if (0 <? filesize) || (file_type =? 0x8000) then d ← body; insert_file_at_path fs clean_name d else Ret fs.

(** The loop of [from_cpio]; every round advances the offset by the header at least. *)
Fixpoint cpio_loop (fuel : nat) (d : list Z) (offset : Z) (fs : RamFs) : outcome RamFs :=
  match fuel with
  | O => Ret fs
  | S fuel =>
      let len := Z.of_nat (length d) in
      if len <? offset + 110 then Ret fs else
      magic ← slice d offset (offset + 6);
      if negb (bool_decide (magic = MAGIC)) then Ret fs else
      mode ← parse_hex <$> slice d (offset + 14) (offset + 22);
      namesize ← parse_hex <$> slice d (offset + 94) (offset + 102);
      filesize ← parse_hex <$> slice d (offset + 54) (offset + 62);
      let name_start := offset + 110 in
      match memguard.checked_add name_start namesize with
      | None => Ret fs
      | Some name_data_end =>
          if namesize =? 0 then Ret fs else
          let name_end := name_data_end - 1 in
          if len <? name_data_end then Ret fs else
          name ← slice d name_start name_end;
          if negb (utf8_valid name) then Ret fs else
          if bool_decide (name = TRAILER) then Ret fs else
          match checked_align4 name_data_end with
          | None => Ret fs
          | Some data_start =>
              match memguard.checked_add data_start filesize with
              | None => Ret fs
              | Some data_end =>
                  if len <? data_end then Ret fs else
                  fs ← add_entry fs name mode filesize (slice d data_start data_end);
                  cpio_loop fuel d (align4 data_end) fs
              end
          end
      end
  end.
Definition from_cpio (d : list Z) : outcome RamFs := cpio_loop (length d) d 0 new.

(** ** Writing the archive ([build.rs]) *)

Definition hex_char (n : Z) : Z := if n <? 10 then 48 + n else 55 + n.
(** [format!("{n:08X}")] of a [u32]. *)
Definition hex8 (n : Z) : list Z := (fun k => hex_char (Z.land (Z.shiftr n (4 * (7 - k))) 15)) <$> seqZ 0 8.

Definition pad4 (e : list Z) : list Z := e ++ replicate (Z.to_nat ((- Z.of_nat (length e)) mod 4)) 0.

Definition cpio_newc_entry (name : str) (d : list Z) (mode : Z) : list Z :=
  let zeros := hex8 0 in
  let header := MAGIC ++ hex8 1 ++ hex8 mode ++ zeros ++ zeros ++ hex8 1 ++ zeros ++ hex8 (Z.of_nat (length d)) ++
    zeros ++ zeros ++ zeros ++ zeros ++ hex8 (Z.of_nat (length name + 1)) ++ zeros in
  pad4 (pad4 (header ++ name ++ [0]) ++ d).

(** ** The tree of inodes *)

Section theory.
Implicit Types (fs : RamFs).

#[local] Abbreviation size fs := (Z.of_nat (length (inodes fs))).

(** Entries lead to younger inodes, names of a directory are distinct, and an
    inode has at most one entry. *)
Record inv fs : Prop := {
  i_next : next_inode fs = size fs;
  i_root : exists nd, get fs 0 = Some nd /\ inode_type nd = Directory;
  i_child : forall i nd n c, 0 <= i -> get fs i = Some nd -> (n, c) ∈ children nd -> i < c < size fs;
  i_names : forall i nd, 0 <= i -> get fs i = Some nd -> NoDup (children nd).*1;
  i_one : forall i i' nd nd' n n' c, 0 <= i -> 0 <= i' -> get fs i = Some nd -> get fs i' = Some nd' ->
    (n, c) ∈ children nd -> (n', c) ∈ children nd' -> i = i' /\ n = n';
}.

Lemma get_lt fs i nd : 0 <= i -> get fs i = Some nd -> i < size fs.
Proof. intros Hi H%lookup_lt_Some. lia. Qed.

Lemma get_is fs i : 0 <= i < size fs -> exists nd, get fs i = Some nd.
Proof. intros Hi. apply lookup_lt_is_Some. lia. Qed.

Lemma get_alter fs i j f : 0 <= i -> 0 <= j -> get (alter_inode fs i f) j = if decide (j = i) then f <$> get fs j else get fs j.
Proof.
  intros Hi Hj. unfold get, alter_inode. cbn [inodes]. destruct (decide (j = i)) as [->|Hne]; [apply list_lookup_alter_eq|].
  apply list_lookup_alter_ne. lia.
Qed.

Lemma size_alter fs i f : size (alter_inode fs i f) = size fs.
Proof. unfold alter_inode. cbn [inodes]. by rewrite length_alter. Qed.

Lemma find_child_elem cs n c : NoDup cs.*1 -> find_child cs n = Some c <-> (n, c) ∈ cs.
Proof.
  induction cs as [|[m d] cs IH]; cbn [find_child fmap list_fmap]; intros Hnd; [split; [done|by intros ?%not_elem_of_nil]|].
  apply NoDup_cons in Hnd as [Hm Hnd]. cbn [fst] in Hm. rewrite elem_of_cons. destruct (bool_decide_reflect (m = n)) as [->|Hne].
  - split; [intros [= ->]; by left|]. intros [[= ->]|Hin]; [done|]. destruct Hm. apply list_elem_of_fmap. by exists (n, c).
  - rewrite IH by done. split; [by right|]. intros [[= -> ->]|?]; done.
Qed.

Lemma find_child_None cs n : find_child cs n = None <-> n ∉ cs.*1.
Proof.
  induction cs as [|[m d] cs IH]; cbn [find_child fmap list_fmap]; [split; [intros _; apply not_elem_of_nil|done]|].
  rewrite not_elem_of_cons. cbn [fst]. destruct (bool_decide_reflect (m = n)) as [->|Hne]; [split; [done|by intros [? _]]|].
  rewrite IH. split; [intros ?; split; [congruence|done]|by intros [_ ?]].
Qed.

Lemma find_child_app cs n c m : n ∉ cs.*1 -> find_child (cs ++ [(n, c)]) m = if decide (m = n) then Some c else find_child cs m.
Proof.
  intros Hn. induction cs as [|[k d] cs IH]; cbn [app find_child].
  - case_bool_decide; case_decide; congruence.
  - cbn [fmap list_fmap fst] in Hn. apply not_elem_of_cons in Hn as [Hk Hn]. case_bool_decide as Hkm; [subst; by rewrite decide_False|by apply IH].
Qed.

Lemma remove_child_sub cs n x : x ∈ remove_child cs n -> x ∈ cs.
Proof.
  induction cs as [|[m d] cs IH]; cbn [remove_child]; [done|]. case_bool_decide; [by right|].
  intros [->|?]%elem_of_cons; [left|right; by apply IH].
Qed.

Lemma remove_child_names cs n : NoDup cs.*1 -> NoDup (remove_child cs n).*1.
Proof.
  induction cs as [|[m d] cs IH]; cbn [remove_child fmap list_fmap]; [done|]. intros [Hm Hnd]%NoDup_cons. case_bool_decide; [done|].
  cbn [fmap list_fmap fst] in *. apply NoDup_cons. split; [|by apply IH]. intros ([k e] & -> & Hin%remove_child_sub)%list_elem_of_fmap.
  apply Hm, list_elem_of_fmap. by exists (k, e).
Qed.

Lemma find_remove cs n m : NoDup cs.*1 -> find_child (remove_child cs n) m = if decide (m = n) then None else find_child cs m.
Proof.
  induction cs as [|[k d] cs IH]; cbn [remove_child find_child fmap list_fmap]; [by destruct (decide _)|].
  intros [Hk Hnd]%NoDup_cons. cbn [fst] in Hk. case_bool_decide as Hkn.
  - subst k. destruct (decide (m = n)) as [->|Hne]; [by apply find_child_None|]. by rewrite bool_decide_false by done.
  - cbn [find_child]. case_bool_decide as Hkm; [subst; by rewrite decide_False|by apply IH].
Qed.

(** ** Descent *)

Definition child fs (i : Z) (n : str) : option Z :=
  nd ← get fs i; if decide (inode_type nd = Directory) then find_child (children nd) n else None.

Lemma lookup_child fs i n : child fs i n = match ram_lookup fs i n with Ok j => Some j | Err _ => None end.
Proof.
  unfold child, ram_lookup. destruct (get fs i) as [nd|]; cbn; [|done]. destruct (decide _); [|done]. by destruct (find_child _ _).
Qed.

Lemma descend_cons fs i n p : descend fs i (n :: p) = child fs i n ≫= fun j => descend fs j p.
Proof. cbn. rewrite lookup_child. by destruct (ram_lookup fs i n). Qed.

Lemma descend_snoc fs i p n : descend fs i (p ++ [n]) = descend fs i p ≫= fun j => child fs j n.
Proof. rewrite descend_app. destruct (descend fs i p) as [j|]; [|done]. cbn [mbind option_bind]. rewrite descend_cons. by destruct (child fs j n). Qed.

Lemma child_range fs i n c : inv fs -> 0 <= i -> child fs i n = Some c -> i < c < size fs.
Proof.
  intros I Hi. unfold child. destruct (get fs i) as [nd|] eqn:E; cbn; [|done]. destruct (decide _); [|done].
  intros H. rewrite find_child_elem in H by (exact (i_names fs I i nd Hi E)). by eapply i_child.
Qed.

Lemma child_one fs i i' n n' c : inv fs -> 0 <= i -> 0 <= i' -> child fs i n = Some c -> child fs i' n' = Some c -> i = i' /\ n = n'.
Proof.
  intros I Hi Hi'. unfold child. destruct (get fs i) as [nd|] eqn:E; cbn; [|done]. destruct (decide _); [|done].
  destruct (get fs i') as [nd'|] eqn:E'; cbn; [|done]. destruct (decide (inode_type nd' = _)); [|done].
  intros H H'. rewrite find_child_elem in H by (exact (i_names fs I i nd Hi E)). rewrite find_child_elem in H' by (exact (i_names fs I i' nd' Hi' E')). by eapply i_one.
Qed.

Lemma descend_range fs p i : inv fs -> descend fs 0 p = Some i -> 0 <= i < size fs.
Proof.
  intros I. revert i. induction p as [|n p IH] using rev_ind; intros i.
  - cbn. intros [= <-]. destruct (i_root _ I) as (nd & Hnd & _). apply get_lt in Hnd; [|done]. lia.
  - rewrite descend_snoc. destruct (descend fs 0 p) as [j|]; [|done]. cbn. intros H. specialize (IH j eq_refl).
    pose proof (child_range fs j n i I ltac:(lia) H). lia.
Qed.

(** Different paths lead to different inodes. *)
Lemma descend_inj fs p q i : inv fs -> descend fs 0 p = Some i -> descend fs 0 q = Some i -> p = q.
Proof.
  intros I. revert q i. induction p as [|n p IH] using rev_ind; intros q i Hp Hq; destruct q as [|m q _] using rev_ind; [done| | |].
  - cbn in Hp. injection Hp as <-. rewrite descend_snoc in Hq. destruct (descend fs 0 q) as [j|] eqn:E; [|done]. cbn in Hq.
    pose proof (descend_range fs q j I E). pose proof (child_range fs j m 0 I ltac:(lia) Hq). lia.
  - cbn in Hq. injection Hq as <-. rewrite descend_snoc in Hp. destruct (descend fs 0 p) as [j|] eqn:E; [|done]. cbn in Hp.
    pose proof (descend_range fs p j I E). pose proof (child_range fs j n 0 I ltac:(lia) Hp). lia.
  - rewrite descend_snoc in Hp, Hq. destruct (descend fs 0 p) as [j|] eqn:E; [|done]. destruct (descend fs 0 q) as [j'|] eqn:E'; [|done]. cbn in Hp, Hq.
    pose proof (descend_range fs p j I E). pose proof (descend_range fs q j' I E').
    destruct (child_one fs j j' n m i I ltac:(lia) ltac:(lia) Hp Hq) as [-> ->]. by rewrite (IH q j').
Qed.

(** One entry of one directory changed, where the old and the new child have no
    children: one path changed. *)
Lemma descend_graft fs fs' p d n (o : option Z) :
  inv fs -> descend fs 0 p = Some d ->
  (forall i m, 0 <= i < size fs -> child fs' i m = if decide (i = d /\ m = n) then o else child fs i m) ->
  (forall c m, child fs d n = Some c -> child fs c m = None) -> (forall c m, o = Some c -> child fs' c m = None) ->
  forall q, descend fs' 0 q = if decide (q = p ++ [n]) then o else descend fs 0 q.
Proof.
  intros I Hd Hch Hold Hnew q. induction q as [|m q IH] using rev_ind.
  - rewrite decide_False; [done|]. intros H. by destruct p.
  - rewrite !descend_snoc, IH. destruct (decide (q = p ++ [n])) as [->|Hne].
    + rewrite decide_False by (intros H%(f_equal length); rewrite !length_app in H; cbn in H; lia).
      rewrite descend_snoc, Hd. cbn [mbind option_bind]. transitivity (@None Z).
      * destruct o as [c|]; [|done]. cbn. by apply Hnew.
      * destruct (child fs d n) as [c|] eqn:E; [|done]. cbn. symmetry. by apply Hold.
    + destruct (descend fs 0 q) as [i|] eqn:E; cbn [mbind option_bind].
      * rewrite (Hch i m) by (by eapply descend_range). destruct (decide (i = d /\ m = n)) as [[-> ->]|Hn].
        -- rewrite (descend_inj fs q p d I E Hd). by rewrite decide_True.
        -- rewrite decide_False; [done|]. intros [-> [= ->]]%app_inj_2; [|done]. apply Hn. split; [congruence|done].
      * rewrite decide_False; [done|]. intros [-> _]%app_inj_2; [|done]. congruence.
Qed.
(** ** What the three changes of the tree do *)

(** The kind and the bytes at a path. *)
Definition view fs (q : list str) : option (InodeType * list Z) :=
  i ← descend fs 0 q; nd ← get fs i; Some (inode_type nd, data nd).

Lemma get_push fs d n t dat nd i : inv fs -> 0 <= d -> 0 <= i -> get fs d = Some nd ->
  get (push_inode fs d n t dat) i =
  if decide (i = d) then Some (with_children nd (children nd ++ [(n, size fs)])) else
  if decide (i = size fs) then Some (mk_inode t dat [] d) else get fs i.
Proof.
  intros I Hd Hi Hnd. unfold push_inode. rewrite get_alter by done. pose proof (get_lt fs d nd Hd Hnd) as Hlt. rewrite (i_next _ I).
  unfold get in *. cbn [inodes]. destruct (decide (i = d)) as [->|Hne]; [by rewrite lookup_app_l, Hnd by lia|].
  destruct (decide (i = size fs)) as [->|Hs]; [by rewrite Nat2Z.id, lookup_app_r, Nat.sub_diag by lia|].
  destruct (decide (i < size fs)) as [Hl|Hl]; [by rewrite lookup_app_l by lia|]. rewrite !lookup_ge_None_2; [done| |]; rewrite ?length_app; cbn; lia.
Qed.

Lemma size_push fs d n t dat : size (push_inode fs d n t dat) = size fs + 1.
Proof. unfold push_inode. rewrite size_alter. cbn [inodes]. rewrite length_app. cbn. lia. Qed.

Lemma inv_push fs d n t dat nd : inv fs -> size fs < 2 ^ 32 - 1 -> 0 <= d -> get fs d = Some nd -> n ∉ (children nd).*1 ->
  inv (push_inode fs d n t dat).
Proof.
  intros I Hsz Hd Hnd Hn. pose proof (get_lt fs d nd Hd Hnd) as Hlt.
  assert (forall i nd' m c, 0 <= i -> get (push_inode fs d n t dat) i = Some nd' -> (m, c) ∈ children nd' ->
    (i = d /\ m = n /\ c = size fs) \/ exists nd0, get fs i = Some nd0 /\ (m, c) ∈ children nd0) as Hkids.
  { intros i nd' m c Hi. rewrite (get_push fs d n t dat nd i) by done. destruct (decide (i = d)) as [->|Hne].
    - intros [= <-]. cbn [with_children children]. intros [?|[= -> ->]%list_elem_of_singleton]%elem_of_app; [right; by exists nd|by left].
    - destruct (decide _); [intros [= <-]; by intros ?%not_elem_of_nil|]. intros ? ?. right. by exists nd'. }
  constructor.
  - rewrite size_push. unfold push_inode. cbn [next_inode alter_inode]. rewrite (i_next _ I). unfold wrap32. rewrite Z.mod_small by lia. done.
  - destruct (i_root _ I) as (r & Hr & Ht). rewrite (get_push fs d n t dat nd 0) by done. destruct (decide (0 = d)) as [<-|].
    + rewrite Hnd in Hr. injection Hr as ->. eexists. by split.
    + rewrite decide_False by lia. by exists r.
  - intros i nd' m c Hi Hg Hin. rewrite size_push. destruct (Hkids i nd' m c Hi Hg Hin) as [(-> & -> & ->)|(nd0 & H0 & H1)]; [lia|].
    pose proof (i_child _ I i nd0 m c Hi H0 H1). lia.
  - intros i nd' Hi. rewrite (get_push fs d n t dat nd i) by done. destruct (decide (i = d)) as [->|Hne].
    + intros [= <-]. cbn [with_children children]. rewrite fmap_app. apply NoDup_app. split_and!; [exact (i_names _ I d nd Hd Hnd)| |apply NoDup_singleton].
      intros x Hx [= ->]%list_elem_of_singleton. done.
    + destruct (decide _); [intros [= <-]; apply NoDup_nil_2|]. by apply (i_names _ I).
  - intros i i' nd1 nd2 m m' c Hi Hi' Hg Hg' Hin Hin'.
    destruct (Hkids i nd1 m c Hi Hg Hin) as [(-> & -> & ->)|(nd0 & H0 & H1)], (Hkids i' nd2 m' _ Hi' Hg' Hin') as [(-> & -> & E)|(nd0' & H0' & H1')].
    + done.
    + pose proof (i_child _ I i' nd0' _ _ Hi' H0' H1'). lia.
    + subst c. pose proof (i_child _ I i nd0 _ _ Hi H0 H1). lia.
    + by apply (i_one _ I i i' nd0 nd0' m m' c).
Qed.

(** A change of one inode that keeps its kind and drops entries at most. *)
Lemma inv_alter fs d f nd : inv fs -> 0 <= d -> get fs d = Some nd ->
  inode_type (f nd) = inode_type nd -> (forall x, x ∈ children (f nd) -> x ∈ children nd) -> NoDup (children (f nd)).*1 ->
  inv (alter_inode fs d f).
Proof.
  intros I Hd Hnd Ht Hsub Hnames.
  assert (forall i nd', 0 <= i -> get (alter_inode fs d f) i = Some nd' -> exists nd0, get fs i = Some nd0 /\ inode_type nd' = inode_type nd0 /\
    (forall x, x ∈ children nd' -> x ∈ children nd0) /\ NoDup (children nd').*1) as Hback.
  { intros i nd' Hi. rewrite get_alter by done. destruct (decide (i = d)) as [->|Hne].
    - rewrite Hnd. intros [= <-]. by exists nd.
    - intros Hg. exists nd'. split_and!; [done..|]. exact (i_names _ I i nd' Hi Hg). }
  constructor.
  - rewrite size_alter. apply I.
  - destruct (i_root _ I) as (r & Hr & Hrt). rewrite get_alter, Hr by done. case_decide as E; [|by exists r].
    subst d. rewrite Hr in Hnd. injection Hnd as <-. exists (f r). split; [done|congruence].
  - intros i nd' m c Hi Hg Hin. rewrite size_alter. destruct (Hback i nd' Hi Hg) as (nd0 & H0 & _ & Hs & _). by apply (i_child _ I i nd0 m c Hi H0), Hs.
  - intros i nd' Hi Hg. by destruct (Hback i nd' Hi Hg) as (nd0 & H0 & _ & _ & ?).
  - intros i i' nd1 nd2 m m' c Hi Hi' Hg Hg' Hin Hin'. destruct (Hback i nd1 Hi Hg) as (n1 & H1 & _ & Hs1 & _).
    destruct (Hback i' nd2 Hi' Hg') as (n2 & H2 & _ & Hs2 & _). apply (i_one _ I i i' n1 n2 m m' c); auto.
Qed.
Lemma view_data fs p d nd f :
  inv fs -> descend fs 0 p = Some d -> get fs d = Some nd ->
  (forall nd, children (f nd) = children nd) -> (forall nd, inode_type (f nd) = inode_type nd) ->
  forall q, view (alter_inode fs d f) q = if decide (q = p) then Some (inode_type nd, data (f nd)) else view fs q.
Proof.
  intros I Hd Hnd Hch Hty q. pose proof (descend_range fs p d I Hd) as Hr.
  assert (forall i q, 0 <= i -> descend (alter_inode fs d f) i q = descend fs i q) as Hdesc.
  { intros i q'. revert i. induction q' as [|n q' IH]; intros i Hi; [done|]. rewrite !descend_cons.
    assert (child (alter_inode fs d f) i n = child fs i n) as ->.
    { unfold child. rewrite get_alter by lia. destruct (decide (i = d)) as [->|]; [|done]. rewrite Hnd. cbn. by rewrite Hch, Hty. }
    destruct (child fs i n) as [c|] eqn:E; [|done]. cbn. apply IH. pose proof (child_range fs i n c I Hi E). lia. }
  unfold view. rewrite Hdesc by lia. destruct (descend fs 0 q) as [i|] eqn:Hq; cbn.
  - rewrite get_alter by (pose proof (descend_range fs q i I Hq); lia). destruct (decide (i = d)) as [->|Hne].
    + rewrite (descend_inj fs q p d I Hq Hd), decide_True by done. rewrite Hnd. cbn. by rewrite Hty.
    + rewrite decide_False by congruence. done.
  - rewrite decide_False by congruence. done.
Qed.

Lemma descend_push fs p d nd n t dat :
  inv fs -> descend fs 0 p = Some d -> get fs d = Some nd -> inode_type nd = Directory -> n ∉ (children nd).*1 ->
  forall q, descend (push_inode fs d n t dat) 0 q = if decide (q = p ++ [n]) then Some (size fs) else descend fs 0 q.
Proof.
  intros I Hd Hnd Hdir Hn. pose proof (descend_range fs p d I Hd) as Hr. set (fs' := push_inode fs d n t dat).
  assert (forall i m, 0 <= i -> child fs' i m = if decide (i = d /\ m = n) then Some (size fs) else if decide (i = size fs) then None else child fs i m) as Hch.
  { intros i m Hi. unfold child, fs'. rewrite (get_push fs d n t dat nd i) by (done || lia). destruct (decide (i = d)) as [->|Hne].
    - rewrite Hnd. cbn. rewrite Hdir, (decide_True (P := Directory = Directory)), find_child_app by done. rewrite (decide_False (P := d = size fs)) by lia.
      destruct (decide (m = n)) as [->|]; [by rewrite decide_True|by rewrite decide_False by naive_solver].
    - rewrite (decide_False (P := i = d /\ m = n)) by (by intros [? _]). destruct (decide (i = size fs)); [|done]. cbn. by destruct (decide _). }
  apply (descend_graft fs fs' p d n); [done|done| | |].
  - intros i m Hi. rewrite Hch by lia. by rewrite (decide_False (P := i = size fs)) by lia.
  - intros c m. unfold child. rewrite Hnd. cbn. rewrite decide_True by done. by rewrite (proj2 (find_child_None _ n)).
  - intros c m [= <-]. rewrite Hch by lia. rewrite decide_False by lia. by rewrite decide_True.
Qed.

Lemma view_push fs p d nd n t dat :
  inv fs -> descend fs 0 p = Some d -> get fs d = Some nd -> inode_type nd = Directory -> n ∉ (children nd).*1 ->
  forall q, view (push_inode fs d n t dat) q = if decide (q = p ++ [n]) then Some (t, dat) else view fs q.
Proof.
  intros I Hd Hnd Hdir Hn q. pose proof (descend_range fs p d I Hd) as Hr.
  unfold view. rewrite (descend_push fs p d nd) by done. destruct (decide (q = p ++ [n])) as [->|Hne].
  - cbn. rewrite (get_push fs d n t dat nd) by (done || lia). rewrite decide_False by lia. by rewrite decide_True.
  - destruct (descend fs 0 q) as [i|] eqn:Hq; [|done]. cbn. pose proof (descend_range fs q i I Hq).
    rewrite (get_push fs d n t dat nd) by (done || lia). destruct (decide (i = d)) as [->|]; [by rewrite Hnd|].
    by rewrite decide_False by lia.
Qed.

Lemma view_remove fs p d nd n c cnd :
  inv fs -> descend fs 0 p = Some d -> get fs d = Some nd -> inode_type nd = Directory ->
  find_child (children nd) n = Some c -> get fs c = Some cnd -> (inode_type cnd = Directory -> children cnd = []) ->
  forall q, view (alter_inode fs d (fun nd => with_children nd (remove_child (children nd) n))) q = if decide (q = p ++ [n]) then None else view fs q.
Proof.
  intros I Hd Hnd Hdir Hc Hcnd Hleaf q. pose proof (descend_range fs p d I Hd) as Hr. set (fs' := alter_inode _ _ _).
  assert (child fs d n = Some c) as Hdn by (unfold child; rewrite Hnd; cbn; by rewrite decide_True).
  assert (forall i m, 0 <= i -> child fs' i m = if decide (i = d /\ m = n) then None else child fs i m) as Hch.
  { intros i m Hi. unfold child, fs'. rewrite get_alter by lia. destruct (decide (i = d)) as [->|Hne].
    - rewrite Hnd. cbn. rewrite Hdir, (decide_True (P := Directory = Directory)) by done. rewrite find_remove by (by apply (i_names _ I d); [lia|]).
      destruct (decide (m = n)) as [->|]; [by rewrite decide_True|by rewrite decide_False by naive_solver].
    - by rewrite decide_False by naive_solver. }
  assert (descend fs' 0 q = if decide (q = p ++ [n]) then None else descend fs 0 q) as Hdesc.
  { apply (descend_graft fs fs' p d n); [done|done| | |done].
    - intros i m Hi. apply Hch. lia.
    - intros c' m. rewrite Hdn. intros [= <-]. unfold child. rewrite Hcnd. cbn. destruct (decide _) as [Ht|]; [|done]. by rewrite Hleaf. }
  unfold view. rewrite Hdesc. destruct (decide (q = p ++ [n])); [done|]. destruct (descend fs 0 q) as [i|] eqn:Hq; [|done]. cbn.
  pose proof (descend_range fs q i I Hq). unfold fs'. rewrite get_alter by lia. destruct (decide (i = d)) as [->|]; [by rewrite Hnd|done].
Qed.
End theory.
(** ** The tree a RAM file system stands for

    Paths to a kind and its bytes. The operations take paths, the way the
    system calls reach them: the path is walked, then the inode is asked. *)

#[export] Instance InodeType_countable : Countable InodeType.
Proof.
  refine (inj_countable' (fun t => match t with RegularFile => 0 | Directory => 1 | CharDevice => 2 | BlockDevice => 3 | Symlink => 4 end%nat)
    (fun n => match n with 0 => RegularFile | 1 => Directory | 2 => CharDevice | 3 => BlockDevice | _ => Symlink end%nat) _).
  by intros [].
Defined.

Inductive op :=
| Create (dir : list str) (name : str) (t : InodeType)
| Unlink (dir : list str) (name : str)
| Write (file : list str) (offset : Z) (buf : list Z)
| Truncate (file : list str) (size : Z)
| Read (file : list str) (offset len : Z)
| Readdir (dir : list str).

Inductive reply := Done | Count (n : Z) | Bytes (bs : list Z) | Listing (es : gset (str * InodeType)).

Definition rmap {A B E : Type} (f : A -> B) (r : result A E) : result B E := match r with Ok a => Ok (f a) | Err e => Err e end.

Section exec.
Context {F : Type} `{!Filesystem F}.

Definition at_path {A : Type} (f : F) (p : list str) (k : Z -> result A VfsError * F) : result A VfsError * F :=
  match walk_components f (root_inode f) p [] (root_inode f) with Ok i => k i | Err e => (Err e, f) end.

Definition exec (f : F) (o : op) : result reply VfsError * F :=
  match o with
  | Create p n t => at_path f p (fun i => prod_map (rmap (fun _ => Done)) id (create f i n t))
  | Unlink p n => at_path f p (fun i => prod_map (rmap (fun _ => Done)) id (unlink f i n))
  | Write p off buf => at_path f p (fun i => prod_map (rmap Count) id (write f i off buf))
  | Truncate p size => at_path f p (fun i => prod_map (rmap (fun _ => Done)) id (truncate f i size))
  | Read p off len => at_path f p (fun i => (rmap Bytes (read f i off len), f))
  | Readdir p => at_path f p (fun i => (rmap (fun es => Listing (list_to_set ((fun e => (de_name e, de_inode_type e)) <$> es))) (readdir f i), f))
  end.
End exec.

Fixpoint runs {S : Type} (step : S -> op -> result reply VfsError * S) (s : S) (os : list op) : list (result reply VfsError) * S :=
  match os with
  | [] => ([], s)
  | o :: os => let '(r, s) := step s o in let '(rs, s) := runs step s os in (r :: rs, s)
  end.

#[local] Abbreviation tree := (gmap (list str) (InodeType * list Z)).

Definition empty_tree : tree := {[ [] := (Directory, []) ]}.

(** The first name that is missing, or is looked for in something that is not a directory. *)
Fixpoint t_walk (T : tree) (cur p : list str) : result () VfsError :=
  match p with
  | [] => Ok ()
  | n :: p =>
      match T !! cur with
      | Some (Directory, _) => match T !! (cur ++ [n]) with Some _ => t_walk T (cur ++ [n]) p | None => Err NotFound end
      | Some _ => Err NotADirectory
      | None => Err NotFound
      end
  end.

(** The name and the kind of a path that is one name below [p]. *)
Definition entry_of (p : list str) (x : list str * (InodeType * list Z)) : option (str * InodeType) :=
  match reverse x.1 with n :: r => if decide (reverse r = p) then Some (n, x.2.1) else None | [] => None end.

Definition t_names (T : tree) (p : list str) : gset (str * InodeType) :=
  list_to_set (omap (entry_of p) (map_to_list T)).

(** The bytes [buf] at [off], with zeros between the old end and [off]. *)
Definition t_write (d : list Z) (off : nat) (buf : list Z) : list Z := take off (d ++ replicate (off - length d) 0) ++ buf ++ drop (off + length buf) d.

Definition t_exec (T : tree) (o : op) : result reply VfsError * tree :=
  let with_path p k := match t_walk T [] p, T !! p with Err e, _ => (Err e, T) | Ok _, None => (Err NotFound, T) | Ok _, Some nd => k nd end in
  match o with
  | Create p n t => with_path p (fun nd =>
      if decide (nd.1 = Directory) then match T !! (p ++ [n]) with Some _ => (Err AlreadyExists, T) | None => (Ok Done, <[p ++ [n] := (t, [])]> T) end
      else (Err NotADirectory, T))
  | Unlink p n => with_path p (fun nd =>
      if decide (nd.1 = Directory) then
        match T !! (p ++ [n]) with
        | None => (Err NotFound, T)
        | Some c => if decide (c.1 = Directory /\ t_names T (p ++ [n]) <> ∅) then (Err NotEmpty, T) else (Ok Done, delete (p ++ [n]) T)
        end
      else (Err NotADirectory, T))
  | Write p off buf => with_path p (fun nd =>
      if decide (nd.1 = Directory) then (Err IsADirectory, T) else
      if RAMFS_MAX_FILE_SIZE <? off + Z.of_nat (length buf) then (Err NoSpace, T) else
      (Ok (Count (Z.of_nat (length buf))), <[p := (nd.1, t_write nd.2 (Z.to_nat off) buf)]> T))
  | Truncate p size => with_path p (fun nd =>
      if decide (nd.1 = Directory) then (Err IsADirectory, T) else
      if RAMFS_MAX_FILE_SIZE <? size then (Err NoSpace, T) else
      (Ok Done, <[p := (nd.1, take (Z.to_nat size) (nd.2 ++ replicate (Z.to_nat size) 0))]> T))
  | Read p off len => with_path p (fun nd =>
      if decide (nd.1 = Directory) then (Err IsADirectory, T) else (Ok (Bytes (take (Z.to_nat len) (drop (Z.to_nat off) nd.2))), T))
  | Readdir p => with_path p (fun nd =>
      if decide (nd.1 = Directory) then (Ok (Listing (t_names T p)), T) else (Err NotADirectory, T))
  end.
Section refinement.
Implicit Types (fs : RamFs) (T : tree).
#[local] Abbreviation size fs := (Z.of_nat (length (inodes fs))).

Definition stands_for fs T : Prop := inv fs /\ forall q, view fs q = T !! q.

Definition plain (c : str) : Prop := c <> [DOT] /\ c <> [DOT; DOT].

(** Names without dots, and numbers as wide as the system calls pass them; a
    read offset is below 4 GB. *)
Definition op_ok (o : op) : Prop :=
  match o with
  | Create p n _ | Unlink p n => Forall plain p /\ plain n
  | Write p off buf => Forall plain p /\ 0 <= off < 2 ^ 64
  | Truncate p size => Forall plain p /\ 0 <= size < 2 ^ 64
  | Read p off len => Forall plain p /\ 0 <= off < 2 ^ 32 /\ 0 <= len
  | Readdir p => Forall plain p
  end.

Lemma stands_new : stands_for new empty_tree.
Proof.
  split.
  - constructor; [done|by eexists| | |].
    + intros i nd n c Hi. unfold get. cbn [new inodes]. destruct (Z.to_nat i) as [|[]]; cbn; [intros [= <-]|done|done]. by intros ?%not_elem_of_nil.
    + intros i nd Hi. unfold get. cbn [new inodes]. destruct (Z.to_nat i) as [|[]]; cbn; [intros [= <-]|done|done]. apply NoDup_nil_2.
    + intros i i' nd nd' n n' c Hi Hi'. unfold get. cbn [new inodes]. destruct (Z.to_nat i) as [|[]]; cbn; [intros [= <-]|done|done]. by intros _ ?%not_elem_of_nil.
  - intros [|n q]; unfold empty_tree; [by rewrite lookup_singleton_eq|rewrite lookup_singleton_ne by done]. unfold view. by rewrite descend_cons.
Qed.

(** The inode of a path, and what the tree says of it. *)
Lemma stands_at fs T p i : stands_for fs T -> descend fs 0 p = Some i ->
  exists nd, get fs i = Some nd /\ T !! p = Some (inode_type nd, data nd) /\ 0 <= i.
Proof.
  intros [I V] Hd. pose proof (descend_range fs p i I Hd) as Hr. destruct (get_is fs i Hr) as (nd & Hnd). exists nd. split_and!; [done| |lia].
  rewrite <- V. unfold view. rewrite Hd. cbn. by rewrite Hnd.
Qed.

Lemma stands_child fs T p i nd n : stands_for fs T -> descend fs 0 p = Some i -> get fs i = Some nd -> inode_type nd = Directory ->
  match find_child (children nd) n with
  | Some c => descend fs 0 (p ++ [n]) = Some c
  | None => T !! (p ++ [n]) = None
  end.
Proof.
  intros [I V] Hd Hnd Hdir. assert (descend fs 0 (p ++ [n]) = find_child (children nd) n) as E.
  { rewrite descend_snoc, Hd. cbn. unfold child. rewrite Hnd. cbn. by rewrite decide_True. }
  destruct (find_child _ _); [done|]. rewrite <- V. unfold view. by rewrite E.
Qed.

Lemma walk_stands fs T p : stands_for fs T -> Forall plain p -> forall c cur stack, descend fs 0 c = Some cur ->
  match walk_components fs 0 p stack cur with
  | Ok i => t_walk T c p = Ok () /\ descend fs 0 (c ++ p) = Some i
  | Err e => t_walk T c p = Err e
  end.
Proof.
  intros HR Hp. induction Hp as [|n p [H1 H2] Hp IH]; intros c cur stack Hc; cbn [walk_components t_walk]; [by rewrite app_nil_r|].
  rewrite !bool_decide_false by done. destruct (stands_at fs T c cur HR Hc) as (nd & Hnd & HT & _). rewrite HT.
  cbn [lookup ram_filesystem]. unfold ram_lookup. rewrite Hnd. destruct (decide (inode_type nd = Directory)) as [Hdir|Hdir].
  - rewrite Hdir. pose proof (stands_child fs T c cur nd n HR Hc Hnd Hdir) as Hch. destruct (find_child (children nd) n) as [j|]; cbn [ok_or].
    + destruct (stands_at fs T _ j HR Hch) as (cnd & _ & -> & _). specialize (IH (c ++ [n]) j (cur :: stack) Hch).
      rewrite <- app_assoc in IH. exact IH.
    + by rewrite Hch.
  - by destruct (inode_type nd).
Qed.

Lemma at_path_stands {A B : Type} fs T (p : list str) (k : Z -> result A VfsError * RamFs) (k' : InodeType * list Z -> result B VfsError * tree) (Q : result A VfsError * RamFs -> result B VfsError * tree -> Prop) :
  stands_for fs T -> Forall plain p ->
  (forall e, Q (Err e, fs) (Err e, T)) ->
  (forall i nd, descend fs 0 p = Some i -> get fs i = Some nd -> 0 <= i -> T !! p = Some (inode_type nd, data nd) -> Q (k i) (k' (inode_type nd, data nd))) ->
  Q (at_path fs p k) match t_walk T [] p, T !! p with Err e, _ => (Err e, T) | Ok _, None => (Err NotFound, T) | Ok _, Some nd => k' nd end.
Proof.
  intros HR Hp Herr Hok. unfold at_path. cbn [root_inode ram_filesystem]. pose proof (walk_stands fs T p HR Hp [] 0 [] eq_refl) as Hw.
  destruct (walk_components fs 0 p [] 0) as [i|e]; [|by rewrite Hw]. destruct Hw as [-> Hd]. cbn [app] in Hd.
  destruct (stands_at fs T p i HR Hd) as (nd & Hnd & HT & Hi). rewrite HT. by apply Hok.
Qed.

Lemma resize_take d n : resize d (Z.of_nat n) = take n (d ++ replicate n 0).
Proof. unfold resize. rewrite Nat2Z.id, take_app, take_replicate. do 2 f_equal. lia. Qed.

Lemma write_bytes d (off : nat) buf :
  let fin := Z.of_nat off + Z.of_nat (length buf) in
  let d' := if Z.of_nat (length d) <? fin then resize d fin else d in
  take off d' ++ buf ++ drop (Z.to_nat fin) d' = t_write d off buf.
Proof.
  intros fin d'. unfold t_write. subst fin d'. rewrite <- Nat2Z.inj_add, Nat2Z.id. destruct (Z.ltb_spec (Z.of_nat (length d)) (Z.of_nat (off + length buf))) as [H|H].
  - unfold resize. rewrite Nat2Z.id. rewrite (take_ge d) by lia. rewrite !take_app, !take_replicate. rewrite !(drop_ge _ (off + length buf)).
    + do 3 f_equal. lia.
    + lia.
    + rewrite length_app, length_replicate. lia.
  - rewrite take_app_le by lia. done.
Qed.

Lemma t_names_spec T p n t : (n, t) ∈ t_names T p <-> exists d, T !! (p ++ [n]) = Some (t, d).
Proof.
  unfold t_names. rewrite elem_of_list_to_set, list_elem_of_omap. split.
  - intros ([q [t' d]] & Hin%elem_of_map_to_list & H). unfold entry_of in H. cbn [fst snd] in H. destruct (reverse q) as [|m r] eqn:E; [done|].
    destruct (decide _) as [<-|]; [|done]. injection H as -> ->. exists d. rewrite <- reverse_cons, <- E, reverse_involutive. done.
  - intros (d & H). exists (p ++ [n], (t, d)). split; [by apply elem_of_map_to_list|]. unfold entry_of. cbn [fst snd].
    rewrite reverse_snoc. by rewrite reverse_involutive, decide_True.
Qed.

Lemma readdir_names fs T p i nd : stands_for fs T -> descend fs 0 p = Some i -> get fs i = Some nd -> inode_type nd = Directory ->
  exists es, ram_readdir fs i = Ok es /\ (list_to_set ((fun e => (de_name e, de_inode_type e)) <$> es) : gset _) = t_names T p /\ (children nd = [] <-> t_names T p = ∅).
Proof.
  intros HR Hd Hnd Hdir. destruct (stands_at fs T p i HR Hd) as (nd' & Hnd' & _ & Hi). rewrite Hnd in Hnd'. injection Hnd' as <-.
  assert (forall n c, (n, c) ∈ children nd -> exists cnd, get fs c = Some cnd /\ T !! (p ++ [n]) = Some (inode_type cnd, data cnd)) as Hfw.
  { intros n c Hin%find_child_elem; [|by apply (i_names _ (proj1 HR) i)]. pose proof (stands_child fs T p i nd n HR Hd Hnd Hdir) as H. rewrite Hin in H.
    destruct (stands_at fs T _ c HR H) as (cnd & ? & ? & _). by exists cnd. }
  assert (forall n x, T !! (p ++ [n]) = Some x -> exists c, (n, c) ∈ children nd) as Hbw.
  { intros n x HT. pose proof (stands_child fs T p i nd n HR Hd Hnd Hdir) as H. destruct (find_child (children nd) n) as [c|] eqn:E; [|congruence].
    exists c. by apply find_child_elem; [apply (i_names _ (proj1 HR) i)|]. }
  unfold ram_readdir. rewrite Hnd, decide_True by done. eexists. split; [done|]. split.
  - apply set_eq. intros [n t]. rewrite t_names_spec, elem_of_list_to_set, list_elem_of_fmap. split.
    + intros (e & [= -> ->] & Hin). apply list_elem_of_omap in Hin as ([m c] & Hin & He). cbn [fst snd] in He.
      destruct (Hfw m c Hin) as (cnd & Hc & HT). rewrite Hc in He. injection He as <-. cbn. by exists (data cnd).
    + intros (d & HT). destruct (Hbw n _ HT) as (c & Hin). destruct (Hfw n c Hin) as (cnd & Hc & HT'). rewrite HT in HT'. injection HT' as -> ->.
      exists (mk_dirent n c (inode_type cnd)). split; [done|]. apply list_elem_of_omap. exists (n, c). split; [done|]. cbn. by rewrite Hc.
  - split.
    + intros E. apply set_eq. intros [n t]. rewrite t_names_spec. split; [|by intros ?%not_elem_of_empty]. intros (d & HT).
      destruct (Hbw n _ HT) as (c & Hin). rewrite E in Hin. by apply not_elem_of_nil in Hin.
    + intros E. destruct (children nd) as [|[n c] cs]; [done|]. destruct (Hfw n c ltac:(by left)) as (cnd & _ & HT).
      assert ((n, inode_type cnd) ∈ t_names T p) as H by (apply t_names_spec; by exists (data cnd)). rewrite E in H. by apply not_elem_of_empty in H.
Qed.
(** The answers agree, the trees agree, and at most one inode is new. *)
Definition step_agrees fs (a : result reply VfsError * RamFs) (b : result reply VfsError * tree) : Prop :=
  a.1 = b.1 /\ stands_for a.2 b.2 /\ size a.2 <= size fs + 1.

Lemma step_same fs T r : stands_for fs T -> step_agrees fs (r, fs) (r, T).
Proof. intros HR. split_and!; [done|done|cbn; lia]. Qed.

Lemma create_agrees fs T p i nd n t : stands_for fs T -> size fs < 2 ^ 32 - 1 -> descend fs 0 p = Some i -> get fs i = Some nd -> 0 <= i ->
  step_agrees fs (prod_map (rmap (fun _ => Done)) id (ram_create fs i n t))
    (if decide (inode_type nd = Directory) then match T !! (p ++ [n]) with Some _ => (Err AlreadyExists, T) | None => (Ok Done, <[p ++ [n] := (t, [])]> T) end
     else (Err NotADirectory, T)).
Proof.
  intros HR Hsz Hd Hnd Hi. unfold ram_create. rewrite Hnd. destruct (decide _) as [Hdir|]; [|by apply step_same].
  pose proof (stands_child fs T p i nd n HR Hd Hnd Hdir) as Hch. destruct (existsb _ _) eqn:Hex.
  - apply existsb_exists in Hex as ([m c] & Hin%list_elem_of_In & E%bool_decide_eq_true). cbn in E. subst m.
    rewrite (proj2 (find_child_elem _ n c (i_names _ (proj1 HR) i nd Hi Hnd)) Hin) in Hch.
    destruct (stands_at fs T _ c HR Hch) as (cnd & _ & -> & _). by apply step_same.
  - assert (n ∉ (children nd).*1) as Hn.
    { intros ([m c] & -> & Hin)%list_elem_of_fmap. apply not_true_iff_false in Hex. apply Hex, existsb_exists. exists (m, c).
      split; [by apply list_elem_of_In|]. by apply bool_decide_eq_true. }
    rewrite (proj2 (find_child_None _ n) Hn) in Hch. rewrite Hch. split_and!; [done| |cbn [snd prod_map id]; rewrite size_push; lia]. cbn [snd prod_map id]. split.
    + by apply inv_push with nd; [apply HR|..].
    + intros q. rewrite (view_push fs p i nd) by (done || apply HR). destruct (decide (q = p ++ [n])) as [->|Hne]; [by rewrite lookup_insert_eq|].
      rewrite lookup_insert_ne by done. apply HR.
Qed.

Lemma unlink_agrees fs T p i nd n : stands_for fs T -> descend fs 0 p = Some i -> get fs i = Some nd -> 0 <= i ->
  step_agrees fs (prod_map (rmap (fun _ => Done)) id (ram_unlink fs i n))
    (if decide (inode_type nd = Directory) then
       match T !! (p ++ [n]) with
       | None => (Err NotFound, T)
       | Some c => if decide (c.1 = Directory /\ t_names T (p ++ [n]) <> ∅) then (Err NotEmpty, T) else (Ok Done, delete (p ++ [n]) T)
       end
     else (Err NotADirectory, T)).
Proof.
  intros HR Hd Hnd Hi. unfold ram_unlink. rewrite Hnd. destruct (decide _) as [Hdir|]; [|by apply step_same].
  pose proof (stands_child fs T p i nd n HR Hd Hnd Hdir) as Hch. destruct (find_child (children nd) n) as [c|] eqn:Hc; [|rewrite Hch; by apply step_same].
  destruct (stands_at fs T _ c HR Hch) as (cnd & Hcnd & HT & Hc0). rewrite HT, Hcnd. cbn [from_option fst].
  assert (inode_type cnd = Directory -> children cnd = [] <-> t_names T (p ++ [n]) = ∅) as Hkids.
  { intros Hcd. destruct (readdir_names fs T (p ++ [n]) c cnd HR Hch Hcnd Hcd) as (_ & _ & _ & ?). done. }
  destruct (_ && _) eqn:Hfull.
  - apply andb_true_iff in Hfull as [E1%bool_decide_eq_true E2%negb_true_iff%bool_decide_eq_false]. rewrite decide_True; [by apply step_same|].
    split; [done|]. by rewrite <- Hkids.
  - rewrite decide_False; cycle 1.
    { intros [E1 E2]. rewrite <- Hkids in E2 by done. rewrite bool_decide_true, bool_decide_false in Hfull by done. done. }
    assert (inode_type cnd = Directory -> children cnd = []) as Hleaf.
    { intros E. rewrite bool_decide_true in Hfull by done. cbn in Hfull. by apply negb_false_iff, bool_decide_eq_true in Hfull. }
    split_and!; [done| |cbn [snd prod_map id]; rewrite size_alter; lia]. cbn [snd prod_map id]. split.
    + apply inv_alter with nd; [apply HR|done|done|done|cbn; by intros x ?%remove_child_sub|cbn; by apply remove_child_names, (i_names _ (proj1 HR) i)].
    + intros q. rewrite (view_remove fs p i nd n c cnd) by (done || apply HR). destruct (decide (q = p ++ [n])) as [->|Hne]; [by rewrite lookup_delete_eq|].
      rewrite lookup_delete_ne by done. apply HR.
Qed.

(** An inode with new bytes. *)
Lemma data_agrees fs T p i nd d r : stands_for fs T -> descend fs 0 p = Some i -> get fs i = Some nd -> 0 <= i ->
  step_agrees fs (r, alter_inode fs i (fun nd => with_data nd d)) (r, <[p := (inode_type nd, d)]> T).
Proof.
  intros HR Hd Hnd Hi. split_and!; [done| |cbn [snd]; rewrite size_alter; lia]. cbn [snd]. split.
  - apply inv_alter with nd; [apply HR|done|done|done|done|]. cbn. by apply (i_names _ (proj1 HR) i).
  - intros q. rewrite (view_data fs p i nd) by (done || apply HR). destruct (decide (q = p)) as [->|Hne]; [by rewrite lookup_insert_eq|].
    rewrite lookup_insert_ne by done. apply HR.
Qed.

Lemma take_min (d : list Z) len off : 0 <= len -> 0 <= off <= Z.of_nat (length d) ->
  take (Z.to_nat (Z.min len (Z.of_nat (length d) - off))) (drop (Z.to_nat off) d) = take (Z.to_nat len) (drop (Z.to_nat off) d).
Proof.
  intros Hlen Hoff. destruct (Z.min_spec len (Z.of_nat (length d) - off)) as [[_ ->]|[H ->]]; [done|].
  by rewrite !take_ge by (rewrite length_drop; lia).
Qed.

(** What a function of the old inode does to one inode. *)
Lemma alter_same fs i nd f g : get fs i = Some nd -> f nd = g nd -> alter_inode fs i f = alter_inode fs i g.
Proof.
  unfold get. intros Hnd E. unfold alter_inode. f_equal. apply list_eq. intros k. destruct (decide (k = Z.to_nat i)) as [->|Hne].
  - rewrite !list_lookup_alter_eq, Hnd. cbn. by rewrite E.
  - by rewrite !list_lookup_alter_ne by done.
Qed.

Lemma exec_agrees fs T o : stands_for fs T -> size fs < 2 ^ 32 - 1 -> op_ok o -> step_agrees fs (exec fs o) (t_exec T o).
Proof.
  intros HR Hsz Hok. destruct o as [p n t|p n|p off buf|p sz|p off len|p]; unfold exec, t_exec; cbv zeta;
    cbn [op_ok] in Hok; (apply at_path_stands; [done|naive_solver|intros; by apply step_same|]); intros i nd Hd Hnd Hi HT; cbn [fst snd];
    cbn [create unlink write truncate read readdir ram_filesystem].
  - by apply create_agrees.
  - by apply unlink_agrees.
  - unfold ram_write. rewrite Hnd. destruct (decide _) as [Hdir|Hdir]; [by apply step_same|]. destruct Hok as [_ Hoff].
    destruct (Z.ltb_spec RAMFS_MAX_FILE_SIZE (off + Z.of_nat (length buf))) as [H|H].
    + rewrite (proj2 (Z.leb_gt _ _)) by done. rewrite andb_false_r. by apply step_same.
    + rewrite (proj2 (Z.leb_le _ _)), (proj2 (Z.ltb_lt _ _)) by (done || unfold RAMFS_MAX_FILE_SIZE in H; lia). cbn [negb andb prod_map rmap id fst snd].
      pose proof (write_bytes (data nd) (Z.to_nat off) buf) as E. cbv zeta in E. rewrite Z2Nat.id in E by lia. rewrite <- E. by apply data_agrees.
  - unfold ram_truncate. rewrite Hnd. destruct (decide _) as [Hdir|Hdir]; [by apply step_same|].
    destruct (_ <? _); [by apply step_same|]. cbn [prod_map rmap id fst snd]. rewrite <- resize_take, Z2Nat.id by lia.
    rewrite (alter_same fs i nd _ (fun nd' => with_data nd' (resize (data nd) sz))) by done. by apply data_agrees.
  - unfold ram_read. rewrite Hnd. destruct (decide _) as [Hdir|Hdir]; [by apply step_same|]. destruct Hok as (_ & Hoff & Hlen).
    unfold wrap32. rewrite Z.mod_small by done. destruct (Z.leb_spec (Z.of_nat (length (data nd))) off) as [H|H].
    + rewrite drop_ge by lia. rewrite take_nil. by apply step_same.
    + rewrite take_min by lia. by apply step_same.
  - destruct (decide (inode_type nd = Directory)) as [Hdir|Hdir].
    + destruct (readdir_names fs T p i nd HR Hd Hnd Hdir) as (es & -> & Hes & _). cbn [rmap]. rewrite Hes. by apply step_same.
    + unfold ram_readdir. rewrite Hnd, decide_False by done. by apply step_same.
Qed.

Lemma runs_agree os : forall fs T, stands_for fs T -> size fs + Z.of_nat (length os) < 2 ^ 32 -> Forall op_ok os ->
  (runs exec fs os).1 = (runs t_exec T os).1 /\ stands_for (runs exec fs os).2 (runs t_exec T os).2.
Proof.
  induction os as [|o os IH]; intros fs T HR Hsz Hok; cbn [runs]; [done|]. apply Forall_cons in Hok as [Ho Hok]. cbn [length] in Hsz.
  destruct (exec_agrees fs T o HR ltac:(lia) Ho) as (E & HR' & Hs). destruct (exec fs o) as [r fs'], (t_exec T o) as [r' T']. cbn [fst snd] in *. subst r'.
  destruct (IH fs' T' HR' ltac:(lia) Hok) as [E HR'']. destruct (runs exec fs' os), (runs t_exec T' os). cbn [fst snd] in *. by subst.
Qed.
End refinement.
(** ** The boot archive *)

Section archive.
Implicit Types (fs : RamFs).
#[local] Abbreviation size fs := (Z.of_nat (length (inodes fs))).

Lemma view_dir fs p i : inv fs -> descend fs 0 p = Some i -> exists nd, get fs i = Some nd /\ view fs p = Some (inode_type nd, data nd) /\ 0 <= i.
Proof.
  intros I Hd. pose proof (descend_range fs p i I Hd) as Hr. destruct (get_is fs i Hr) as (nd & Hnd). exists nd. split_and!; [done| |lia].
  unfold view. rewrite Hd. cbn. by rewrite Hnd.
Qed.

Lemma view_descend fs p x : view fs p = Some x -> exists i, descend fs 0 p = Some i.
Proof. unfold view. destruct (descend fs 0 p) as [i|]; [by exists i|done]. Qed.

(** The paths strictly below [c] down to [c ++ cs]. *)
Definition between (c cs q : list str) : Prop := c `prefix_of` q /\ q <> c /\ q `prefix_of` (c ++ cs).

#[local] Instance between_dec c cs q : Decision (between c cs q).
Proof. unfold between. apply _. Defined.

Lemma between_cons c n cs q : between c (n :: cs) q <-> q = c ++ [n] \/ between (c ++ [n]) cs q.
Proof.
  unfold between. split.
  - intros ((r & ->) & Hne & Hp). destruct r as [|m r]; [by rewrite app_nil_r in Hne|]. apply prefix_app_inv in Hp as Hp'.
    apply prefix_cons_inv_1 in Hp' as Em. subst m. apply prefix_cons_inv_2 in Hp' as Hp''.
    destruct r as [|m r]; [by left|right]. split_and!.
    + exists (m :: r). by rewrite <- app_assoc.
    + intros E%(f_equal length). rewrite !length_app in E. cbn in E. lia.
    + rewrite <- app_assoc. apply prefix_app. cbn. by apply prefix_cons.
  - intros [->|((r & ->) & Hne & Hp)].
    + split_and!; [by apply prefix_app_r|intros E%(f_equal length); rewrite length_app in E; cbn in E; lia|apply prefix_app, prefix_cons, prefix_nil].
    + split_and!; [rewrite <- app_assoc; by apply prefix_app_r|intros E%(f_equal length); rewrite !length_app in E; cbn in E; lia|].
      by rewrite <- (app_assoc c [n] cs) in Hp.
Qed.

Lemma ensure_views cs : forall fs c cur,
  inv fs -> size fs + Z.of_nat (length cs) < 2 ^ 32 -> descend fs 0 c = Some cur ->
  (forall q, q = c \/ between c cs q -> forall t d, view fs q = Some (t, d) -> t = Directory) ->
  exists j fs', ensure_components fs cur cs = Ret (j, fs') /\ inv fs' /\ size fs' <= size fs + Z.of_nat (length cs) /\
    descend fs' 0 (c ++ cs) = Some j /\
    forall q, view fs' q = if decide (between c cs q /\ view fs q = None) then Some (Directory, []) else view fs q.
Proof.
  induction cs as [|n cs IH]; intros fs c cur I Hsz Hc Hdirs; cbn [ensure_components].
  - exists cur, fs. rewrite app_nil_r. split_and!; [done|done|cbn; lia|done|]. intros q. rewrite decide_False; [done|].
    intros [((r & ->) & Hne & Hp) _]. rewrite app_nil_r in Hp. apply prefix_length in Hp. rewrite length_app in Hp. destruct r; [by rewrite app_nil_r in Hne|cbn in Hp; lia].
  - destruct (view_dir fs c cur I Hc) as (nd & Hnd & Hv & Hcur). pose proof (Hdirs c ltac:(by left) _ _ Hv) as Hdir.
    unfold index. unfold get in Hnd. rewrite Hnd. cbn [mbind outcome_bind]. cbn [length] in Hsz.
    assert (descend fs 0 (c ++ [n]) = find_child (children nd) n) as E.
    { rewrite descend_snoc, Hc. cbn. unfold child, get. rewrite Hnd. cbn. by rewrite decide_True. }
    destruct (find_child (children nd) n) as [id|] eqn:Hf.
    + destruct (IH fs (c ++ [n]) id I ltac:(lia) E) as (j & fs' & H1 & H2 & H3 & H4 & H5).
      { intros q Hq. apply Hdirs. right. by apply between_cons. }
      exists j, fs'. rewrite <- app_assoc in H4. split_and!; [done|done|cbn [length]; lia|done|]. intros q. rewrite H5.
      destruct (decide (q = c ++ [n])) as [->|Hne].
      * destruct (view_dir fs (c ++ [n]) id I E) as (nd' & _ & -> & _). rewrite !decide_False by naive_solver. done.
      * by apply decide_ext; rewrite between_cons; naive_solver.
    + assert (n ∉ (children nd).*1) as Hn by (by apply find_child_None). set (fs1 := push_inode fs cur n Directory []).
      pose proof (view_push fs c cur nd n Directory [] I Hc Hnd Hdir Hn) as Hv1. fold fs1 in Hv1.
      assert (inv fs1) as I1 by (apply inv_push with nd; [done|lia|done|done|done]).
      assert (descend fs1 0 (c ++ [n]) = Some (next_inode fs)) as E1.
      { unfold fs1. rewrite (descend_push fs c cur nd) by done. rewrite decide_True by done. by rewrite (i_next _ I). }
      destruct (IH fs1 (c ++ [n]) (next_inode fs) I1 ltac:(unfold fs1; rewrite size_push; lia) E1) as (j & fs' & H1 & H2 & H3 & H4 & H5).
      { intros q Hq t d. rewrite Hv1. destruct (decide (q = c ++ [n])) as [->|]; [by intros [= <- <-]|]. apply Hdirs. right. by apply between_cons. }
      exists j, fs'. rewrite <- app_assoc in H4. unfold fs1 in H3. rewrite size_push in H3. split_and!; [done|done|cbn [length]; lia|done|].
      intros q. rewrite H5, Hv1. destruct (decide (q = c ++ [n])) as [->|Hne].
      * rewrite decide_False by (by intros [_ ?]). rewrite decide_True; [done|]. split; [apply between_cons; by left|]. unfold view. by rewrite E.
      * apply decide_ext. rewrite between_cons. naive_solver.
Qed.
Lemma components_join cs : Forall is_name cs -> components (join cs) = cs.
Proof.
  induction 1 as [|c cs Hc Hcs IH]; [done|]. destruct cs as [|c' cs]; [by apply components_name|].
  change (join (c :: c' :: cs)) with (c ++ SLASH :: join (c' :: cs)). by rewrite components_app, IH, components_name.
Qed.

Lemma components_last s cs n : components s = cs ++ [n] ->
  last (components s) = Some n /\ take (length (components s) - 1) (components s) = cs /\ components (join cs) = cs.
Proof.
  intros E. pose proof (components_names s) as Hn. rewrite E in *. apply Forall_app in Hn as [Hn _]. rewrite last_snoc, length_app. cbn [length].
  replace (length cs + 1 - 1)%nat with (length cs) by lia. by rewrite take_app_length, components_join.
Qed.

(** A file at a new path: it and the directories above it appear, nothing else changes. *)
Lemma insert_views fs name ps n d :
  inv fs -> components name = ps ++ [n] -> size fs + Z.of_nat (length (ps ++ [n])) < 2 ^ 32 ->
  (forall q, q = [] \/ between [] ps q -> forall t d, view fs q = Some (t, d) -> t = Directory) -> view fs (ps ++ [n]) = None ->
  exists fs', insert_file_at_path fs name d = Ret fs' /\ inv fs' /\ size fs' <= size fs + Z.of_nat (length (ps ++ [n])) /\
    forall q, view fs' q = if decide (q = ps ++ [n]) then Some (RegularFile, d) else
      if decide (between [] ps q /\ view fs q = None) then Some (Directory, []) else view fs q.
Proof.
  intros I E Hsz Hdirs Hfree. destruct (components_last name ps n E) as (E1 & E2 & E3). unfold insert_file_at_path, ensure_directory_path. rewrite E1, E2, E3.
  rewrite length_app in Hsz |- *. cbn [length] in Hsz |- *.
  destruct (ensure_views ps fs [] 0 I ltac:(lia) eq_refl Hdirs) as (j & fs1 & H1 & I1 & Hs1 & Hj & Hv1). cbn [app] in Hj.
  assert ((if (1 <? length (components name))%nat then ensure_components fs 0 ps else Ret (0, fs)) = Ret (j, fs1)) as ->.
  { destruct (Nat.ltb_spec 1 (length (components name))) as [|H]; [done|]. rewrite E, length_app in H. cbn in H. by destruct ps; [|cbn in H; lia]. }
  cbn [mbind outcome_bind]. destruct (view_dir fs1 ps j I1 Hj) as (nd & Hnd & Hv & Hj0).
  assert (inode_type nd = Directory) as Hdir.
  { rewrite Hv1 in Hv. destruct (decide _); [congruence|]. eapply (Hdirs ps); [|done].
    destruct ps as [|p ps]; [by left|right]. split_and!; [apply prefix_nil|done|done]. }
  assert (view fs1 (ps ++ [n]) = None) as Hfree1.
  { rewrite Hv1. rewrite decide_False; [done|]. intros [(_ & _ & Hp%prefix_length) _]. rewrite length_app in Hp. cbn in Hp. lia. }
  unfold index. pose proof Hnd as Hnd'. unfold get in Hnd'. rewrite Hnd'. cbn [mbind outcome_bind].
  assert (find_child (children nd) n = None) as Hf.
  { destruct (find_child (children nd) n) as [c|] eqn:Ec; [|done].
    destruct (view_dir fs1 (ps ++ [n]) c I1) as (x & _ & Hx & _); [|congruence].
    rewrite descend_snoc, Hj. cbn. unfold child. rewrite Hnd. cbn. by rewrite decide_True. }
  rewrite Hf. apply find_child_None in Hf. eexists. split; [done|]. split_and!.
  - apply inv_push with nd; [done|lia|done|done|done].
  - rewrite size_push. lia.
  - intros q. rewrite (view_push fs1 ps j nd) by done. destruct (decide (q = ps ++ [n])); [done|]. apply Hv1.
Qed.

(** At the root [add] is the insertion by path. *)
Lemma add_insert fs name d : is_name name -> add fs name d = insert_file_at_path fs name d.
Proof. intros Hn. unfold add, insert_file_at_path. by rewrite components_name. Qed.

(** ** Any bytes *)

Lemma ensure_total cs : forall fs cur, inv fs -> size fs + Z.of_nat (length cs) < 2 ^ 32 -> 0 <= cur < size fs ->
  exists j fs', ensure_components fs cur cs = Ret (j, fs') /\ inv fs' /\ size fs <= size fs' <= size fs + Z.of_nat (length cs) /\ 0 <= j < size fs'.
Proof.
  induction cs as [|n cs IH]; intros fs cur I Hsz Hcur; cbn [ensure_components].
  - exists cur, fs. cbn [length]. split_and!; [done|done|lia..].
  - destruct (get_is fs cur Hcur) as (nd & Hnd). unfold index. pose proof Hnd as Hnd'. unfold get in Hnd'. rewrite Hnd'. cbn [mbind outcome_bind length] in *.
    destruct (find_child (children nd) n) as [id|] eqn:Hf.
    + apply find_child_elem in Hf; [|by apply (i_names _ I cur); [lia|]]. pose proof (i_child _ I cur nd n id ltac:(lia) Hnd Hf).
      destruct (IH fs id I ltac:(lia) ltac:(lia)) as (j & fs' & ? & ? & ? & ?). exists j, fs'. split_and!; [done|done|lia..].
    + apply find_child_None in Hf. pose proof (size_push fs cur n Directory []) as Hs.
      destruct (IH (push_inode fs cur n Directory []) (next_inode fs)) as (j & fs' & H1 & H2 & H3 & H4); [|lia| |exists j, fs'; split_and!; [done|done|lia..]].
      * apply inv_push with nd; [done|lia|lia|done|done].
      * rewrite Hs, (i_next _ I). lia.
Qed.

Lemma insert_total fs name d : inv fs -> size fs + Z.of_nat (length (components name)) < 2 ^ 32 ->
  exists fs', insert_file_at_path fs name d = Ret fs' /\ inv fs' /\ size fs' <= size fs + Z.of_nat (length (components name)).
Proof.
  intros I Hsz. destruct (components name) as [|n ps _] eqn:E using rev_ind.
  - exists fs. unfold insert_file_at_path. rewrite E. split_and!; [done|done|cbn; lia].
  - destruct (components_last name ps n E) as (E1 & E2 & E3). unfold insert_file_at_path, ensure_directory_path. rewrite E1, E2, E3, E.
    rewrite length_app in Hsz |- *. cbn [length] in Hsz |- *.
    assert (0 < size fs) as H0. { destruct (i_root _ I) as (r & Hr & _). apply get_lt in Hr; lia. }
    assert (exists j fs1, (if (1 <? length ps + 1)%nat then ensure_components fs 0 ps else Ret (0, fs)) = Ret (j, fs1) /\ inv fs1 /\
      size fs1 <= size fs + Z.of_nat (length ps) /\ 0 <= j < size fs1) as (j & fs1 & -> & I1 & Hs1 & Hj).
    { destruct (1 <? _)%nat; [|exists 0, fs; split_and!; [done|done|lia..]].
      destruct (ensure_total ps fs 0 I ltac:(lia) ltac:(lia)) as (j & fs' & ? & ? & ? & ?). exists j, fs'. split_and!; [done|done|lia..]. }
    cbn [mbind outcome_bind]. destruct (get_is fs1 j Hj) as (nd & Hnd). unfold index. pose proof Hnd as Hnd'. unfold get in Hnd'. rewrite Hnd'. cbn [mbind outcome_bind].
    destruct (find_child (children nd) n) as [id|] eqn:Hf.
    + apply find_child_elem in Hf; [|by apply (i_names _ I1 j); [lia|]]. pose proof (i_child _ I1 j nd n id ltac:(lia) Hnd Hf) as Hr.
      destruct (get_is fs1 id ltac:(lia)) as (cnd & Hcnd). eexists. split; [done|]. rewrite size_alter. split; [|lia].
      apply inv_alter with cnd; [done|lia|done|done|done|]. cbn. apply (i_names _ I1 id); [lia|done].
    + apply find_child_None in Hf. eexists. split; [done|]. rewrite size_push. split; [|lia]. apply inv_push with nd; [done|lia|lia|done|done].
Qed.
Lemma components_length s : (length (components s) <= length s)%nat.
Proof.
  induction s as [|c s IH]; [done|]. unfold components in *. cbn [split_slash]. destruct (c =? SLASH).
  - rewrite filter_cons_False by (intros H; by apply H). cbn [length]. lia.
  - pose proof (split_slash_nonempty s). destruct (split_slash s) as [|w ws]; [done|]. rewrite filter_cons in IH |- *. rewrite decide_True by done.
    cbn [length]. destruct (decide _); cbn [length] in IH; lia.
Qed.

Lemma add_entry_total fs name mode fsz d : inv fs -> size fs + Z.of_nat (length name) < 2 ^ 32 ->
  exists fs', add_entry fs name mode fsz (Ret d) = Ret fs' /\ inv fs' /\ size fs' <= size fs + Z.of_nat (length name).
Proof.
  intros I Hsz. assert (forall fs', fs' = fs -> exists fs'', Ret fs' = Ret fs'' /\ inv fs'' /\ size fs'' <= size fs + Z.of_nat (length name)) as Hsame.
  { intros ? ->. exists fs. split_and!; [done|done|lia]. }
  unfold add_entry. destruct (_ || _); [by apply Hsame|]. set (cl := strip_prefix _ _).
  assert (length cl <= length name)%nat as Hcl.
  { assert (forall s p, (length (strip_prefix s p) <= length s)%nat) as H by (intros s p; unfold strip_prefix; destruct (starts_with _ _); rewrite ?length_drop; lia).
    unfold cl. etrans; [apply H|apply H]. }
  pose proof (components_length cl) as Hcomp. destruct (bool_decide _); [by apply Hsame|]. destruct (_ =? _).
  - destruct (ensure_total (components cl) fs 0 I ltac:(lia)) as (j & fs' & H1 & H2 & H3 & H4).
    { destruct (i_root _ I) as (r & Hr & _). apply get_lt in Hr; lia. }
    unfold ensure_directory_path. rewrite H1. exists fs'. split_and!; [done|done|lia].
  - destruct (_ || _); [|by apply Hsame]. destruct (insert_total fs cl d I ltac:(lia)) as (fs' & H1 & H2 & H3). exists fs'. split_and!; [done|done|lia].
Qed.

Lemma hex_digit_bounds b : 0 <= hex_digit b < 16.
Proof.
  unfold hex_digit. destruct (Z.leb_spec 48 b), (Z.leb_spec b 57), (Z.leb_spec 97 b), (Z.leb_spec b 102), (Z.leb_spec 65 b), (Z.leb_spec b 70); cbn [andb]; lia.
Qed.

Lemma parse_hex_nonneg h : 0 <= parse_hex h.
Proof.
  unfold parse_hex. generalize (take 8 h) as l. assert (0 <= 0) as H0 by done. revert H0. generalize 0 at 2 4 as v.
  intros v Hv l. revert v Hv. induction l as [|b l IH]; intros v Hv; cbn [foldl]; [done|]. apply IH. apply Z.lor_nonneg. split.
  - unfold wrap32. apply Z.mod_pos_bound. done.
  - apply hex_digit_bounds.
Qed.

Lemma length_window d a b : a <= b -> Z.of_nat (length (window d a b)) <= b - a.
Proof. intros H. unfold window. rewrite length_take. lia. Qed.

Lemma slice_window d a b : a <= b <= Z.of_nat (length d) -> slice d a b = Ret (window d a b).
Proof. intros [H1 H2]. unfold slice. by rewrite (proj2 (Z.leb_le _ _) H1), (proj2 (Z.leb_le _ _) H2). Qed.

Lemma align4_bounds n : 0 <= n < 2 ^ 31 -> n <= align4 n <= n + 3 /\ align4 n mod 4 = 0 /\ checked_align4 n = Some (align4 n).
Proof.
  intros Hn. unfold checked_align4, memguard.checked_add. rewrite (proj2 (Z.ltb_lt _ _)) by lia. cbn [fmap option_fmap option_map].
  unfold align4, wrap32. rewrite Z.mod_small by lia. pose proof (land_not_mask (n + 3) 2 ltac:(unfold is_u32; lia) ltac:(lia)) as E.
  change (2 ^ 2 - 1) with 3 in E. change (2 ^ 2) with 4 in E. rewrite E.
  split_and!; [| | |done]; pose proof (Z.div_mod (n + 3) 4 ltac:(lia)); pose proof (Z.mod_pos_bound (n + 3) 4 ltac:(lia)); [lia|lia|].
  by rewrite Z.mod_mul.
Qed.

Lemma checked_add_eq a b c : memguard.checked_add a b = Some c -> c = a + b.
Proof. unfold memguard.checked_add. destruct (_ <? _); [by intros [= <-]|done]. Qed.

(** The loop from any offset: it returns, the tree is well formed with no more
    inodes, the root aside, than bytes were read, and more rounds change nothing. *)
Lemma cpio_loop_total d : Z.of_nat (length d) < 2 ^ 31 -> forall fuel offset fs,
  0 <= offset -> Z.of_nat (length d) <= offset + Z.of_nat fuel -> inv fs -> size fs <= 1 + offset -> size fs <= 1 + Z.of_nat (length d) ->
  exists fs', inv fs' /\ size fs' <= 1 + Z.of_nat (length d) /\ forall extra, cpio_loop (fuel + extra) d offset fs = Ret fs'.
Proof.
  intros Hlen. induction fuel as [|fuel IH]; intros offset fs Ho Hf I Hs Hb.
  { exists fs. split_and!; [done|lia|]. intros [|extra]; [done|]. cbn [cpio_loop Nat.add]. by rewrite (proj2 (Z.ltb_lt _ _)) by lia. }
  assert (exists fs', inv fs' /\ size fs' <= 1 + Z.of_nat (length d) /\ (forall extra : nat, Ret fs = Ret fs')) as Hstop by (exists fs; split_and!; [done|lia|done]).
  cbn [cpio_loop Nat.add]. destruct (Z.ltb_spec (Z.of_nat (length d)) (offset + 110)) as [|Hhead]; [done|].
  rewrite !slice_window by lia. cbn [mbind outcome_bind]. destruct (negb _); [done|]. cbn [fmap outcome_fmap mbind outcome_bind].
  set (mode := parse_hex (window d (offset + 14) (offset + 22))). set (namesize := parse_hex (window d (offset + 94) (offset + 102))).
  set (filesize := parse_hex (window d (offset + 54) (offset + 62))).
  assert (0 <= namesize /\ 0 <= filesize) as [Hn Hfs] by (split; apply parse_hex_nonneg).
  destruct (memguard.checked_add (offset + 110) namesize) as [nde|] eqn:E1; [|done]. apply checked_add_eq in E1.
  destruct (Z.eqb_spec namesize 0) as [|Hn0]; [done|]. destruct (Z.ltb_spec (Z.of_nat (length d)) nde) as [|Hnde]; [done|].
  rewrite slice_window by lia. cbn [mbind outcome_bind]. destruct (negb _); [done|]. destruct (bool_decide _); [done|].
  destruct (align4_bounds nde ltac:(lia)) as (Ha1 & _ & ->). destruct (memguard.checked_add (align4 nde) filesize) as [de|] eqn:E2; [|done]. apply checked_add_eq in E2.
  destruct (Z.ltb_spec (Z.of_nat (length d)) de) as [|Hde]; [done|]. destruct (align4_bounds de ltac:(lia)) as (Ha2 & _ & _).
  pose proof (length_window d (offset + 110) (nde - 1) ltac:(lia)) as Hname. rewrite slice_window by lia.
  destruct (add_entry_total fs (window d (offset + 110) (nde - 1)) mode filesize (window d (align4 nde) de) I ltac:(lia)) as (fs1 & -> & I1 & Hs1).
  cbn [mbind outcome_bind]. apply IH; [lia|lia|done|lia|lia].
Qed.
(** ** What the build writes, the kernel reads *)

Lemma hex_digit_char k : 0 <= k < 16 -> hex_digit (hex_char k) = k.
Proof.
  intros Hk. unfold hex_char, hex_digit. destruct (Z.ltb_spec k 10).
  - rewrite (proj2 (Z.leb_le 48 _)), (proj2 (Z.leb_le _ 57)) by lia. cbn [andb]. lia.
  - rewrite (proj2 (Z.leb_gt _ 57)), (proj2 (Z.leb_gt 97 _)), (proj2 (Z.leb_le 65 _)), (proj2 (Z.leb_le _ 70)) by lia. rewrite andb_false_r. cbn [andb]. lia.
Qed.

Lemma nibble n k : 0 <= n -> 0 <= k ->
  Z.lor (Z.shiftl (n / 2 ^ (k + 4)) 4) (Z.land (Z.shiftr n k) 15) = n / 2 ^ k.
Proof.
  intros Hn Hk. rewrite <- !Z.shiftr_div_pow2 by lia. change 15 with (Z.ones 4). apply Z.bits_inj'. intros i Hi.
  rewrite Z.lor_spec, Z.land_spec, Z.shiftl_spec by lia. rewrite (Z.shiftr_spec n k) by lia. destruct (Z.ltb_spec i 4) as [H|H].
  - rewrite Z.testbit_neg_r, Z.ones_spec_low by lia. by rewrite andb_true_r.
  - rewrite Z.shiftr_spec by lia. rewrite Z.ones_spec_high, andb_false_r, orb_false_r by lia. f_equal. lia.
Qed.

Lemma length_hex8 n : length (hex8 n) = 8%nat.
Proof. done. Qed.

Lemma parse_hex8 n : 0 <= n < 2 ^ 32 -> parse_hex (hex8 n) = n.
Proof.
  intros Hn. unfold parse_hex. rewrite take_ge by (by rewrite length_hex8).
  assert (forall (m : nat) k, Z.of_nat m = 8 - k -> 0 <= k <= 8 ->
    foldl (fun v b => Z.lor (wrap32 (Z.shiftl v 4)) (hex_digit b)) (n / 2 ^ (4 * (8 - k))) ((fun k => hex_char (Z.land (Z.shiftr n (4 * (7 - k))) 15)) <$> seqZ k (8 - k)) = n) as H.
  { induction m as [|m IH]; intros k Hm Hk.
    - replace k with 8 by lia. cbn. apply Z.div_1_r.
    - rewrite (seqZ_cons k) by lia. cbn [fmap list_fmap foldl]. rewrite hex_digit_char by (change 15 with (Z.ones 4); rewrite Z.land_ones by lia; apply Z.mod_pos_bound; lia).
      assert (wrap32 (Z.shiftl (n / 2 ^ (4 * (8 - k))) 4) = Z.shiftl (n / 2 ^ (4 * (7 - k) + 4)) 4) as ->.
      { unfold wrap32. replace (4 * (8 - k)) with (4 * (7 - k) + 4) by lia. apply Z.mod_small. rewrite Z.shiftl_mul_pow2 by lia.
        rewrite Z.pow_add_r, <- Z.div_div by lia. change (2 ^ 4) with 16. set (x := n / 2 ^ (4 * (7 - k))).
        assert (0 <= x <= n) as Hx. { split; [apply Z.div_pos; lia|]. apply Z.div_le_upper_bound; [lia|]. pose proof (Z.pow_pos_nonneg 2 (4 * (7 - k))). nia. }
        pose proof (Z.div_mod x 16 ltac:(lia)). pose proof (Z.mod_pos_bound x 16 ltac:(lia)). lia. }
      rewrite nibble by lia. specialize (IH (k + 1) ltac:(lia) ltac:(lia)). replace (8 - (k + 1)) with (7 - k) in IH by lia.
      replace (Z.pred (8 - k)) with (7 - k) by lia. replace (Z.succ k) with (k + 1) by lia. exact IH. }
  specialize (H 8%nat 0 ltac:(lia) ltac:(lia)). rewrite Z.div_small in H by (cbn; lia). exact H.
Qed.

Lemma window_skip u x a b : Z.of_nat (length u) <= a -> window (u ++ x) a b = window x (a - Z.of_nat (length u)) (b - Z.of_nat (length u)).
Proof. intros H. unfold window. rewrite drop_app_ge by lia. f_equal; [lia|]. f_equal. lia. Qed.

Lemma window_head u x b : b = Z.of_nat (length u) -> window (u ++ x) 0 b = u.
Proof. intros ->. unfold window. rewrite Z.sub_0_r, Nat2Z.id. cbn [drop Z.to_nat]. by rewrite drop_0, take_app_length. Qed.

Definition cpio_header (name : str) (d : list Z) (mode : Z) : list Z :=
  let zeros := hex8 0 in
  MAGIC ++ hex8 1 ++ hex8 mode ++ zeros ++ zeros ++ hex8 1 ++ zeros ++ hex8 (Z.of_nat (length d)) ++
  zeros ++ zeros ++ zeros ++ zeros ++ hex8 (Z.of_nat (length name + 1)) ++ zeros.

Lemma header_fields name d mode rest pre :
  let a := pre ++ cpio_header name d mode ++ rest in let o := Z.of_nat (length pre) in
  window a o (o + 6) = MAGIC /\ window a (o + 14) (o + 22) = hex8 mode /\
  window a (o + 54) (o + 62) = hex8 (Z.of_nat (length d)) /\ window a (o + 94) (o + 102) = hex8 (Z.of_nat (length name + 1)).
Proof.
  intros a o. assert (forall x y, o <= x -> window a x y = window (cpio_header name d mode ++ rest) (x - o) (y - o)) as E by (intros; by apply window_skip).
  rewrite !E by lia. replace (o - o) with 0 by lia. replace (o + 6 - o) with 6 by lia.
  repeat match goal with |- context [o + ?k - o] => replace (o + k - o) with k by lia end. unfold cpio_header. rewrite <- !app_assoc. clear. split_and!.
  - by apply window_head.
  - do 2 (rewrite window_skip by (by rewrite ?length_hex8)). by apply window_head.
  - do 7 (rewrite window_skip by (by rewrite ?length_hex8)). by apply window_head.
  - do 12 (rewrite window_skip by (by rewrite ?length_hex8)). by apply window_head.
Qed.
#[local] Ltac Zify.zify_post_hook ::= Z.to_euclidean_division_equations.

Lemma align4_eq n : 0 <= n < 2 ^ 31 -> align4 n = (n + 3) / 4 * 4.
Proof. intros Hn. destruct (align4_bounds n Hn) as (H1 & H2 & _). revert H1 H2. generalize (align4 n). intros m H1 H2. lia. Qed.

Lemma length_pad4 e : Z.of_nat (length (pad4 e)) = (Z.of_nat (length e) + 3) / 4 * 4.
Proof. unfold pad4. rewrite length_app, length_replicate. generalize (length e). intros n. lia. Qed.

Lemma length_header name d mode : length (cpio_header name d mode) = 110%nat.
Proof. unfold cpio_header. rewrite !length_app, !length_hex8. done. Qed.

Lemma entry_parts name d mode : exists z z',
  cpio_newc_entry name d mode = cpio_header name d mode ++ name ++ [0] ++ z ++ d ++ z' /\
  (let nde := 110 + Z.of_nat (length name) + 1 in let start := (nde + 3) / 4 * 4 in
   Z.of_nat (length z) = start - nde /\
   Z.of_nat (length (cpio_newc_entry name d mode)) = (start + Z.of_nat (length d) + 3) / 4 * 4).
Proof.
  set (e1 := cpio_header name d mode ++ name ++ [0]).
  assert (Z.of_nat (length e1) = 110 + Z.of_nat (length name) + 1) as Hl by (unfold e1; rewrite !length_app, length_header; cbn [length]; lia).
  assert (cpio_newc_entry name d mode = pad4 (pad4 e1 ++ d)) as -> by done.
  assert (forall e, exists z, pad4 e = e ++ z) as Hpad by (intros e; by eexists).
  destruct (Hpad (pad4 e1 ++ d)) as (z' & E'), (Hpad e1) as (z & E). exists z, z'. split.
  - rewrite E', E. unfold e1. by rewrite <- !app_assoc.
  - cbv zeta. pose proof (f_equal length E) as El. rewrite length_app in El. pose proof (length_pad4 e1).
    rewrite length_pad4, length_app, Nat2Z.inj_add, length_pad4, Hl. split; [lia|done].
Qed.

(** One round of the loop at an entry of the archive. *)
Lemma loop_entry fuel pre name d mode rest fs :
  let e := cpio_newc_entry name d mode in let a := pre ++ e ++ rest in
  Z.of_nat (length pre) mod 4 = 0 -> Z.of_nat (length a) < 2 ^ 31 -> 0 <= mode < 2 ^ 32 -> utf8_valid name = true ->
  cpio_loop (S fuel) a (Z.of_nat (length pre)) fs =
  if bool_decide (name = TRAILER) then Ret fs else
  fs ← add_entry fs name mode (Z.of_nat (length d)) (Ret d); cpio_loop fuel a (Z.of_nat (length (pre ++ e))) fs.
Proof.
  intros e a Hpre Hlen Hmode Hutf. destruct (entry_parts name d mode) as (z & z' & E & Hz & He). fold e in E, He. cbv zeta in Hz, He.
  assert (a = pre ++ cpio_header name d mode ++ name ++ [0] ++ z ++ d ++ (z' ++ rest)) as Ha by (unfold a; rewrite E, <- !app_assoc; done).
  destruct (header_fields name d mode (name ++ [0] ++ z ++ d ++ (z' ++ rest)) pre) as (F1 & F2 & F3 & F4). rewrite <- Ha in F1, F2, F3, F4.
  set (o := Z.of_nat (length pre)) in *. set (nl := Z.of_nat (length name)) in *. set (dl := Z.of_nat (length d)) in *.
  assert (Z.of_nat (length a) = o + Z.of_nat (length e) + Z.of_nat (length rest)) as Hla by (unfold a; rewrite !length_app; lia).
  assert (0 <= nl /\ 0 <= dl /\ 0 <= o) as (? & ? & ?) by lia.
  cbn [cpio_loop]. rewrite (proj2 (Z.ltb_ge _ _)) by lia. rewrite !slice_window by lia. rewrite F1, F2, F3, F4. cbn [mbind outcome_bind fmap outcome_fmap].
  rewrite bool_decide_true by done. cbn [negb mbind outcome_bind].
  rewrite !parse_hex8 by lia. unfold memguard.checked_add. rewrite (proj2 (Z.ltb_lt _ _)) by lia.
  rewrite (proj2 (Z.eqb_neq _ _)), (proj2 (Z.ltb_ge _ _)) by lia.
  assert (window a (o + 110) (o + 110 + Z.of_nat (length name + 1) - 1) = name) as Fn.
  { rewrite Ha. do 2 (rewrite window_skip by (rewrite ?length_header; lia)). rewrite length_header. fold o.
    replace (o + 110 - o - Z.of_nat 110) with 0 by lia. apply window_head. lia. }
  rewrite slice_window by lia. rewrite Fn. cbn [mbind outcome_bind]. rewrite Hutf. cbn [negb]. destruct (bool_decide (name = TRAILER)); [done|].
  set (nde := o + 110 + Z.of_nat (length name + 1)) in *. destruct (align4_bounds nde ltac:(lia)) as (_ & _ & ->).
  assert (align4 nde = o + (110 + nl + 1 + 3) / 4 * 4) as Hst by (rewrite align4_eq by lia; lia). rewrite Hst.
  rewrite (proj2 (Z.ltb_lt _ _)), (proj2 (Z.ltb_ge _ _)) by lia.
  assert (window a (o + (110 + nl + 1 + 3) / 4 * 4) (o + (110 + nl + 1 + 3) / 4 * 4 + dl) = d) as Fd.
  { set (u := pre ++ cpio_header name d mode ++ name ++ [0] ++ z).
    assert (a = u ++ d ++ (z' ++ rest)) as -> by (rewrite Ha; unfold u; by rewrite <- !app_assoc).
    assert (Z.of_nat (length u) = o + (110 + nl + 1 + 3) / 4 * 4) as Hu by (unfold u; rewrite !length_app, length_header; cbn [length]; lia).
    rewrite window_skip, Hu, Z.sub_diag by lia. apply window_head. lia. }
  rewrite slice_window by lia. rewrite Fd. rewrite (align4_eq (_ + dl)) by lia.
  assert (Z.of_nat (length (pre ++ e)) = (o + (110 + nl + 1 + 3) / 4 * 4 + dl + 3) / 4 * 4) as -> by (rewrite length_app, Nat2Z.inj_add, He; fold o; lia).
  done.
Qed.
(** The archive of [build.rs]: the files, then the trailer. *)
Definition archive (fl : list (str * list Z)) : list Z :=
  concat ((fun x => cpio_newc_entry x.1 x.2 0x81ED) <$> fl) ++ cpio_newc_entry TRAILER [] 0.

Definition clean (name : str) : str := strip_prefix (strip_prefix name [DOT; SLASH]) [SLASH].
Definition path_of (name : str) : list str := components (clean name).

Definition name_ok (name : str) : Prop := utf8_valid name = true /\ name <> TRAILER /\ name <> [DOT] /\ path_of name <> [].

(** No file is where another file, or a directory above it, has to be. *)
Definition no_clash (fl : list (str * list Z)) : Prop :=
  forall i j x y, fl !! i = Some x -> fl !! j = Some y -> i <> j -> ~ path_of x.1 `prefix_of` path_of y.1.

Fixpoint assoc (fl : list (str * list Z)) (q : list str) : option (list Z) :=
  match fl with [] => None | (n, d) :: fl => if decide (path_of n = q) then Some d else assoc fl q end.

(** The tree with these files and the directories above them. *)
Definition packed (fl : list (str * list Z)) (q : list str) : option (InodeType * list Z) :=
  match assoc fl q with
  | Some d => Some (RegularFile, d)
  | None => if decide (q = [] \/ Exists (fun x => q `prefix_of` path_of x.1) fl) then Some (Directory, []) else None
  end.

Lemma assoc_app fl fl' q : assoc (fl ++ fl') q = match assoc fl q with Some d => Some d | None => assoc fl' q end.
Proof. induction fl as [|[n d] fl IH]; [done|]. cbn [app assoc]. by destruct (decide _). Qed.

Lemma assoc_Some fl q d : assoc fl q = Some d -> exists i x, fl !! i = Some x /\ path_of x.1 = q.
Proof.
  induction fl as [|[n d'] fl IH]; [done|]. cbn [assoc]. destruct (decide _) as [E|_]; [intros _; by exists 0%nat, (n, d')|].
  intros (i & x & ? & ?)%IH. by exists (S i), x.
Qed.

Lemma add_file fs fl name d : inv fs -> (forall q, view fs q = packed fl q) -> name_ok name -> no_clash (fl ++ [(name, d)]) ->
  size fs + Z.of_nat (length name) < 2 ^ 32 ->
  exists fs', add_entry fs name 0x81ED (Z.of_nat (length d)) (Ret d) = Ret fs' /\ inv fs' /\ size fs' <= size fs + Z.of_nat (length name) /\
    forall q, view fs' q = packed (fl ++ [(name, d)]) q.
Proof.
  intros I Hv (_ & _ & Hdot & Hpath) Hnc Hsz.
  assert (name <> []) as Hnil by (by intros ->).
  assert (forall i x, fl !! i = Some x -> ~ path_of x.1 `prefix_of` path_of name /\ ~ path_of name `prefix_of` path_of x.1) as Hdis.
  { intros i x Hi. pose proof (lookup_lt_Some _ _ _ Hi). split; [apply (Hnc i (length fl) x (name, d))|apply (Hnc (length fl) i (name, d) x)];
      rewrite ?lookup_app_l, ?list_lookup_middle by done; (done || lia). }
  destruct (add_entry_total fs name 0x81ED (Z.of_nat (length d)) d I Hsz) as (fs' & Hadd & I' & Hs'). exists fs'. split_and!; [done..|].
  unfold add_entry in Hadd. rewrite !bool_decide_false in Hadd by done. cbn [orb] in Hadd. fold (clean name) in Hadd.
  assert (clean name <> []) as Hcl by (intros E; unfold path_of in Hpath; by rewrite E in Hpath). rewrite bool_decide_false in Hadd by done.
  change (Z.land 0x81ED 0xF000 =? 0x4000) with false in Hadd. change (Z.land 0x81ED 0xF000 =? 0x8000) with true in Hadd. rewrite orb_true_r in Hadd. cbn [mbind outcome_bind] in Hadd.
  destruct (path_of name) as [|n ps _] eqn:E using rev_ind; [done|].
  assert (forall q, q `prefix_of` ps ++ [n] -> assoc fl q = None) as Hfree.
  { intros q Hq. destruct (assoc fl q) as [d'|] eqn:Eq; [|done]. destruct (assoc_Some _ _ _ Eq) as (i & x & Hi & <-). by destruct (Hdis i x Hi). }
  pose proof (components_length (clean name)) as Hcl1.
  assert (length (clean name) <= length name)%nat as Hcl2 by (unfold clean, strip_prefix; repeat destruct (starts_with _ _); rewrite ?length_drop; lia).
  pose proof E as E'. unfold path_of in E. destruct (insert_views fs (clean name) ps n d I E) as (fs1 & H1 & _ & _ & Hv').
  - rewrite <- E. lia.
  - intros q Hq t d' Hq'. rewrite Hv in Hq'. unfold packed in Hq'. rewrite Hfree in Hq'; [destruct (decide _); congruence|].
    destruct Hq as [->|(_ & _ & Hp)]; [apply prefix_nil|]. by apply prefix_app_r.
  - rewrite Hv. unfold packed. rewrite Hfree by done. rewrite decide_False; [done|].
    intros [Hn|(x & Hx & Hp)%Exists_exists]; [by destruct ps|]. apply list_elem_of_lookup in Hx as (i & Hi). by apply (Hdis i x Hi).
  - rewrite H1 in Hadd. injection Hadd as <-. intros q. rewrite Hv', !Hv. unfold packed. rewrite assoc_app. cbn [assoc]. rewrite E'.
    destruct (decide (q = ps ++ [n])) as [->|Hne]; [by rewrite Hfree, decide_True by done|].
    rewrite (decide_False (P := ps ++ [n] = q)) by congruence. destruct (assoc fl q) as [d'|]; [by rewrite decide_False by (by intros [_ ?])|].
    assert (between [] ps q <-> q <> [] /\ q `prefix_of` ps ++ [n]) as Hb.
    { unfold between. cbn [app]. split; [intros (_ & ? & ?); split; [done|by apply prefix_app_r]|]. intros [? Hp]. split_and!; [apply prefix_nil|done|].
      destruct Hp as (r & Hr). destruct r as [|m r _] using rev_ind; [by rewrite app_nil_r in Hr|]. rewrite app_assoc in Hr. apply app_inj_tail in Hr as [-> _]. by exists r. }
    assert (Exists (fun x => q `prefix_of` path_of x.1) (fl ++ [(name, d)]) <-> Exists (fun x => q `prefix_of` path_of x.1) fl \/ q `prefix_of` ps ++ [n]) as Hex.
    { rewrite Exists_app, Exists_cons, Exists_nil. cbn [fst]. rewrite E'. naive_solver. }
    destruct (decide (q = [] \/ Exists _ fl)) as [H|H].
    + rewrite decide_False by (by intros [_ ?]). rewrite decide_True; [done|]. rewrite Hex. naive_solver.
    + destruct (decide (q `prefix_of` ps ++ [n])) as [Hp|Hp].
      * rewrite decide_True by (split; [apply Hb; naive_solver|done]). rewrite decide_True; [done|]. rewrite Hex. naive_solver.
      * rewrite decide_False by naive_solver. rewrite decide_False; [done|]. rewrite Hex. naive_solver.
Qed.
Lemma length_entry_mod name d mode : Z.of_nat (length (cpio_newc_entry name d mode)) mod 4 = 0 /\ 111 + Z.of_nat (length name) <= Z.of_nat (length (cpio_newc_entry name d mode)).
Proof. destruct (entry_parts name d mode) as (z & z' & _ & _ & ->). lia. Qed.

Lemma archive_cons name d fl : archive ((name, d) :: fl) = cpio_newc_entry name d 0x81ED ++ archive fl.
Proof. unfold archive. cbn [fmap list_fmap concat fst snd]. by rewrite <- app_assoc. Qed.

Lemma length_archive fl : (length fl < length (archive fl))%nat.
Proof.
  induction fl as [|[name d] fl IH].
  - destruct (length_entry_mod TRAILER [] 0) as [_ H]. unfold archive. cbn [fmap list_fmap concat app length]. lia.
  - rewrite archive_cons, length_app. destruct (length_entry_mod name d 0x81ED) as [_ H]. cbn [length]. lia.
Qed.

Lemma loop_files fl2 : forall fl1 fs pre fuel,
  inv fs -> (forall q, view fs q = packed fl1 q) -> Forall (fun x => name_ok x.1) fl2 -> no_clash (fl1 ++ fl2) ->
  Z.of_nat (length pre) mod 4 = 0 -> size fs <= 1 + Z.of_nat (length pre) -> Z.of_nat (length (pre ++ archive fl2)) < 2 ^ 31 -> (length fl2 < fuel)%nat ->
  exists fs', cpio_loop fuel (pre ++ archive fl2) (Z.of_nat (length pre)) fs = Ret fs' /\ forall q, view fs' q = packed (fl1 ++ fl2) q.
Proof.
  induction fl2 as [|[name d] fl2 IH]; intros fl1 fs pre [|fuel] I Hv Hok Hnc Hpre Hs Hlen Hfuel; cbn [length] in Hfuel; [lia| |lia|].
  - exists fs. rewrite app_nil_r. split; [|done]. unfold archive in *. cbn [fmap list_fmap concat app] in *.
    rewrite <- (app_nil_r (cpio_newc_entry _ _ _)) in Hlen |- *. rewrite loop_entry by done. done.
  - apply Forall_cons in Hok as [Hname Hok]. cbn [fst] in Hname. pose proof Hname as (Hutf & Htr & _ & _).
    rewrite archive_cons in Hlen |- *.
    rewrite loop_entry by done. rewrite bool_decide_false by done. set (e := cpio_newc_entry name d 0x81ED) in *.
    destruct (length_entry_mod name d 0x81ED) as [He1 He2]. fold e in He1, He2. rewrite !length_app in Hlen.
    destruct (add_file fs fl1 name d I Hv Hname) as (fs1 & -> & I1 & Hs1 & Hv1).
    { intros i j x y Hi Hj. apply (Hnc i j); rewrite cons_middle, app_assoc; by apply lookup_app_l_Some. }
    { lia. }
    cbn [mbind outcome_bind]. destruct (IH (fl1 ++ [(name, d)]) fs1 (pre ++ e) fuel) as (fs' & H1 & H2); [done|done|done| | | | |lia|].
    + by rewrite <- app_assoc.
    + rewrite length_app. lia.
    + rewrite length_app. lia.
    + rewrite !length_app. lia.
    + exists fs'. rewrite <- !app_assoc in H1, H2. done.
Qed.

Lemma find_view fs name d : view fs (components name) = Some (RegularFile, d) -> components name <> [] -> find fs name = Some d.
Proof.
  unfold find, view. destruct (components name) as [|c cs]; [done|]. generalize (c :: cs) as p. clear c cs. intros p Hp _. revert Hp. generalize 0 as i.
  induction p as [|n p IH]; intros i Hp; cbn [find_from].
  - cbn [descend mbind option_bind] in Hp. destruct (get fs i) as [nd|]; [|done]. cbn in *. injection Hp as E <-. by rewrite decide_True.
  - rewrite descend_cons in Hp. unfold child in Hp. destruct (get fs i) as [nd|]; [|done]. cbn [mbind option_bind] in *.
    destruct (decide _); [|done]. destruct (find_child _ _) as [j|]; [|done]. cbn [mbind option_bind] in *. by apply IH.
Qed.

Lemma assoc_elem fl i name d : fl !! i = Some (name, d) -> no_clash fl -> assoc fl (path_of name) = Some d.
Proof.
  revert i. induction fl as [|[n d'] fl IH]; intros i Hi Hnc; [done|]. cbn [assoc]. destruct i as [|i].
  - injection Hi as -> ->. by rewrite decide_True.
  - rewrite decide_False; [apply (IH i); [done|]; intros a b x y Ha Hb Hab; apply (Hnc (S a) (S b)); [done|done|lia]|].
    intros E. destruct (Hnc 0%nat (S i) (n, d') (name, d) eq_refl Hi ltac:(done)). cbn [fst]. by rewrite E.
Qed.

Lemma packed_file fl i name d fs : fl !! i = Some (name, d) -> no_clash fl -> name_ok name -> (forall q, view fs q = packed fl q) -> find fs (clean name) = Some d.
Proof.
  intros Hi Hnc (_ & _ & _ & Hp) Hv. apply find_view; [|done]. fold (path_of name). rewrite Hv. unfold packed. by rewrite (assoc_elem fl i name d).
Qed.
Lemma archive_tree fl : Forall (fun x => name_ok x.1) fl -> no_clash fl -> Z.of_nat (length (archive fl)) < 2 ^ 31 ->
  exists fs, from_cpio (archive fl) = Ret fs /\ forall q, view fs q = packed fl q.
Proof.
  intros Hok Hnc Hlen. destruct (loop_files fl [] new [] (length (archive fl)) (proj1 stands_new)) as (fs & H1 & H2); try done.
  - intros q. rewrite (proj2 stands_new). unfold packed, empty_tree. cbn [assoc]. destruct (decide (q = [])) as [->|Hne].
    + rewrite lookup_singleton_eq, decide_True by (by left). done.
    + rewrite lookup_singleton_ne, decide_False; [done| |done]. by intros [?|?%Exists_nil].
  - apply length_archive.
  - by exists fs.
Qed.
End archive.
(** ** Theorems *)


Definition demo_ops : list op :=
  [ Create [] [97] Directory; Create [[97]] [98] RegularFile; Write [[97]; [98]] 2 [7; 8]; Unlink [] [97]; Read [[97]; [98]] 1 9; Truncate [[97]; [98]] 1;
    Readdir [[97]]; Unlink [[97]] [98]; Unlink [] [97]; Read [[97]; [98]] 0 1 ].


(** C20: reading an archive of less than 2 GB ends whatever its bytes are, and no
    slice of it is out of range: the result is a well-formed tree with, besides
    the root, at most one inode for each byte of the archive; the rounds counted
    by the length of the archive are enough. *)
Theorem from_cpio_total (d : list Z) :
  Z.of_nat (length d) < 2 ^ 31 ->
  exists fs, from_cpio d = Ret fs /\ inv fs /\ Z.of_nat (length (inodes fs)) <= 1 + Z.of_nat (length d) /\
    forall fuel, (length d <= fuel)%nat -> cpio_loop fuel d 0 new = from_cpio d.
Proof.
  intros Hlen. destruct (cpio_loop_total d Hlen (length d) 0 new ltac:(lia) ltac:(lia) (proj1 stands_new) ltac:(cbn; lia) ltac:(unfold size; cbn; lia)) as (fs & I & Hs & Hl).
  assert (from_cpio d = Ret fs) as E by (unfold from_cpio; specialize (Hl 0%nat); by rewrite Nat.add_0_r in Hl).
  exists fs. split_and!; [done|done|done|]. intros fuel Hf. rewrite E. replace fuel with (length d + (fuel - length d))%nat by lia. apply Hl.
Qed.

Lemma from_cpio_total_witness : exists fs, from_cpio (archive [([97], [1; 2; 3])] ++ [1; 2]) = Ret fs /\ inv fs.
Proof. destruct (from_cpio_total (archive [([97], [1; 2; 3])] ++ [1; 2])) as (fs & H1 & H2 & _); [vm_compute; reflexivity|]. by exists fs. Defined.

(** C19: the kernel reads back what the build packs: for files whose paths do
    not lie inside one another, the archive of [build.rs] read by [from_cpio] is
    exactly the tree of these files and of the directories above them, and each
    file is found by its name with its bytes. *)
Theorem archive_roundtrip (fl : list (str * list Z)) :
  Forall (fun x => name_ok x.1) fl -> no_clash fl -> Z.of_nat (length (archive fl)) < 2 ^ 31 ->
  exists fs, from_cpio (archive fl) = Ret fs /\ (forall q, view fs q = packed fl q) /\
    forall name d, (name, d) ∈ fl -> find fs (clean name) = Some d.
Proof.
  intros Hok Hnc Hlen. destruct (archive_tree fl Hok Hnc Hlen) as (fs & H1 & H2). exists fs. split_and!; [exact H1|exact H2|].
  intros name d Hin. apply list_elem_of_lookup in Hin as (i & Hi). apply (packed_file fl i name d); [done|done| |done].
  by eapply (proj1 (Forall_lookup _ _) Hok i (name, d)).
Qed.
Definition demo_files : list (str * list Z) := [([98; 47; 105], [1; 2; 3]); ([46; 47; 98; 47; 106], []); ([115], [255])].

Lemma demo_files_ok : Forall (fun x => name_ok x.1) demo_files.
Proof. repeat (apply Forall_cons; split); [..|by apply Forall_nil]; split_and!; vm_compute; done. Qed.

Lemma demo_files_apart : no_clash demo_files.
Proof. intros [|[|[|i]]] [|[|[|j]]] x y Hx Hy Hij; try done; injection Hx as <-; injection Hy as <-; try done; by apply (bool_decide_unpack (~ _)); vm_compute. Qed.

Lemma archive_roundtrip_witness :
  exists fs, from_cpio (archive demo_files) = Ret fs /\ view fs [[98]] = Some (Directory, []) /\ find fs [98; 47; 106] = Some [] /\ find fs [115] = Some [255].
Proof.
  destruct (archive_roundtrip demo_files demo_files_ok demo_files_apart) as (fs & E & Hv & Hf); [vm_compute; reflexivity|].
  exists fs. split_and!; [exact E|rewrite Hv; vm_compute; reflexivity|apply (Hf [46; 47; 98; 47; 106] []); by right; left|apply (Hf [115] [255]); by right; right; left].
Defined.

(** Where one file lies inside another the archive is not read back: a
    file named [a] and then a file named [a/b] leave [a/b] out of reach, since a
    parent that is not a directory is used as one. *)
Theorem archive_clash_loses_file :
  exists fs, from_cpio (archive [([97], [1]); ([97; 47; 98], [2])]) = Ret fs /\ find fs [97] = Some [1] /\ find fs [97; 47; 98] = None /\
    Exists (fun nd => data nd = [2]) (inodes fs).
Proof. eexists. split; [vm_compute; reflexivity|]. split_and!; [done|done|]. right. right. by left. Qed.

(** An offset of 4 GB and more is cut to 32 bits: a read past the end of a
    file returns bytes from its start. *)
Theorem read_offset_truncated :
  let fs := (ram_write (ram_create new 0 [97] RegularFile).2 1 0 [7; 8]).2 in
  ram_read fs 1 (2 ^ 32 + 1) 4 = Ok [8] /\ ram_read fs 1 2 4 = Ok [].
Proof. by vm_compute. Qed.
End ramfs.
