(* ===== verification/File.v ===== *)
(** * Files through descriptors ([crates/thumos/src/fd.rs])

    The system calls of [fd.rs] that reach a file system: read, write, stat,
    fstat, mkdir, unlink, chdir and getcwd, the routing of read and write
    between pipes, files and the serial line ([syscall.rs]), the mounts made at
    boot and the cache of program images. The state adds the mount table, the
    working directories, the serial output and the cache to the descriptor
    tables. The file systems are any type [F] with an instance of [Filesystem]. *)

From S2P Require Import Prelude Machine Memguard Pipe Fd Vfs Ramfs.
From Stdlib Require Import ZArith.
Open Scope Z_scope.

Module file.
Import fd vfs.
#[local] Existing Instance ramfs.ram_filesystem.

Definition S_IFREG : Z := 0x8000.
Definition S_IFDIR : Z := 0x4000.
Definition S_IFCHR : Z := 0x2000.
Definition USER_IO_CHUNK : Z := 1024.
Definition UART_COPY_CHUNK : Z := 256.
Definition CWD_MAX : nat := 256.
Definition ELF_CACHE_SLOTS : nat := 16.
Definition EIO : Z := errno 5.

Record StatBuf := mk_statbuf { sb_size : Z; sb_file_type : Z }.
Record ElfCacheEntry := mk_cached { c_mount : Z; c_inode : Z; c_size : Z; c_data : list Z }.

(** [path.rfind('/')]. *)
Fixpoint rfind_slash (s : str) : option nat :=
  match s with
  | [] => None
  | c :: s => match rfind_slash s with Some i => Some (S i) | None => if c =? SLASH then Some 0%nat else None end
  end.

(** [path.strip_suffix('/').unwrap_or(path)]. *)
Definition strip_slash (s : str) : str := if bool_decide (last s = Some SLASH) then take (length s - 1) s else s.

Definition split_parent_name (path : str) : option (str * str) :=
  if negb (starts_with path [SLASH]) then None else
  let path := strip_slash path in
  match rfind_slash path with
  | Some O => let name := drop 1 path in if bool_decide (name = []) then None else Some ([SLASH], name)
  | Some pos => let name := drop (S pos) path in if bool_decide (name = []) then None else Some (take pos path, name)
  | None => None
  end.

Definition file_type_of (t : InodeType) : Z :=
  match t with Directory => S_IFDIR | CharDevice | BlockDevice => S_IFCHR | _ => S_IFREG end.

Definition encode_stat (s : StatBuf) : list Z := le_bytes (sb_size s) ++ le_bytes (sb_file_type s).

Section kernel.
Context {U : Type} `{!UserMemory U} {F : Type} `{!Filesystem F}.

Record state := mk_state {
  fds : fd.kernel U;
  MOUNT_TABLE : option (MountTable F);
  cwds : list (option str);
  serial : list Z;
  ELF_CACHE : list (option ElfCacheEntry);
  ELF_CACHE_NEXT : nat;
}.

Definition set_fds (k : state) (f : fd.kernel U) : state := mk_state f (MOUNT_TABLE k) (cwds k) (serial k) (ELF_CACHE k) (ELF_CACHE_NEXT k).
Definition set_mounts (k : state) (mt : option (MountTable F)) : state := mk_state (fds k) mt (cwds k) (serial k) (ELF_CACHE k) (ELF_CACHE_NEXT k).
Definition set_cwds (k : state) (c : list (option str)) : state := mk_state (fds k) (MOUNT_TABLE k) c (serial k) (ELF_CACHE k) (ELF_CACHE_NEXT k).
Definition put_serial (k : state) (bs : list Z) : state := mk_state (fds k) (MOUNT_TABLE k) (cwds k) (serial k ++ bs) (ELF_CACHE k) (ELF_CACHE_NEXT k).
Definition set_cache (k : state) c n : state := mk_state (fds k) (MOUNT_TABLE k) (cwds k) (serial k) c n.
Definition set_user (k : state) (u : U) : state := set_fds k (set_um (fds k) u).

(** [MountTable::get_mut], and the file system it leaves. *)
Definition put_fs (mt : MountTable F) (idx : nat) (f : F) : MountTable F :=
  alter (fmap (fun e => mk_mount (m_path e) f)) idx mt.

(** [FileDescriptor::size]. *)
Definition size (k : state) (d : FileDescriptor) : Z :=
  match MOUNT_TABLE k with
  | None => 0
  | Some mt =>
      match mt_get mt (Z.to_nat (mount_idx d)) with
      | Some f => match stat f (inode_id d) with Ok s => wrap32 (st_size s) | Err _ => 0 end
      | None => 0
      end
  end.

(** The two-level lookup: the description a descriptor of the caller names. *)
Definition description (f : Z) (k : state) : outcome (option (nat * OpenFile)) :=
  r ← resolve_fd (Z.to_nat f) (fds k);
  match r with
  | None => Ret None
  | Some j => slot ← index (OFD_TABLE (fds k)) j; Ret (match slot with Some o => Some (j, o) | None => None end)
  end.

(** [o.desc.offset += n] on the shared description. *)
Definition advance (k : state) (j : nat) (n : Z) : outcome state :=
  slot ← index (OFD_TABLE (fds k)) j;
  match slot with
  | None => Ret k
  | Some o =>
      let d := desc o in
      let d := mk_desc (mount_idx d) (inode_id d) (wrap32 (offset d + n)) (flags d) in
      Ret (set_fds k (set_ofds (fds k) (<[j := Some (mk_ofd d (refs o))]> (OFD_TABLE (fds k)))))
  end.

Definition sys_read (f buf_ptr cnt : Z) (k : state) : outcome (Z * state) :=
  let transfer_len := Z.min cnt USER_IO_CHUNK in
  if buf_ptr =? 0 then Ret (EFAULT, k) else
  if negb (um_range (um (fds k)) buf_ptr transfer_len true) then Ret (EFAULT, k) else
  r ← description f k;
  match r with
  | None => Ret (EBADF, k)
  | Some (j, o) =>
      let d := desc o in
      match MOUNT_TABLE k with
      | None => Ret (EBADF, k)
      | Some mt =>
          let m := Z.to_nat (mount_idx d) in
          match mt_get mt m with
          | None => Ret (EBADF, k)
          | Some fs =>
              let '(r, fs) := read_mut fs (inode_id d) (offset d) transfer_len in
              let k := set_mounts k (Some (put_fs mt m fs)) in
              match r with
              | Err e => Ret (to_errno e, k)
              | Ok bs =>
                  let n := Z.of_nat (length bs) in
                  if transfer_len <? n then Ret (EIO, k) else
                  let '(u, ok) := um_copy_to (um (fds k)) buf_ptr bs in
                  let k := set_user k u in
                  if ok : bool then k ← advance k j n; Ret (n, k) else Ret (EFAULT, k)
              end
          end
      end
  end.

Definition sys_write (f buf_ptr cnt : Z) (k : state) : outcome (Z * state) :=
  let transfer_len := Z.min cnt USER_IO_CHUNK in
  if buf_ptr =? 0 then Ret (EFAULT, k) else
  if negb (um_range (um (fds k)) buf_ptr transfer_len false) then Ret (EFAULT, k) else
  r ← description f k;
  match r with
  | None => Ret (EBADF, k)
  | Some (j, o) =>
      let d := desc o in
      match MOUNT_TABLE k with
      | None => Ret (EBADF, k)
      | Some mt =>
          let m := Z.to_nat (mount_idx d) in
          match mt_get mt m with
          | None => Ret (EBADF, k)
          | Some fs =>
              match um_copy_from (um (fds k)) buf_ptr (Z.to_nat transfer_len) with
              | None => Ret (EFAULT, k)
              | Some src =>
                  let '(r, fs) := write fs (inode_id d) (offset d) src in
                  let k := set_mounts k (Some (put_fs mt m fs)) in
                  match r with
                  | Err e => Ret (to_errno e, k)
                  | Ok n => k ← advance k j n; Ret (wrap32 n, k)
                  end
              end
          end
      end
  end.

(** [copy_stat_to_user], with the answer of its callers. *)
Definition copy_stat_to_user (stat_buf_ptr : Z) (s : StatBuf) (k : state) : Z * state :=
  let '(u, ok) := um_copy_to (um (fds k)) stat_buf_ptr (encode_stat s) in
  (if ok : bool then 0 else EFAULT, set_user k u).

Definition stat_answer (stat_buf_ptr : Z) (r : result InodeStat VfsError) (k : state) : Z * state :=
  match r with
  | Err e => (to_errno e, k)
  | Ok s => copy_stat_to_user stat_buf_ptr (mk_statbuf (wrap32 (st_size s)) (file_type_of (st_inode_type s))) k
  end.

Definition sys_stat (path_ptr path_len stat_buf_ptr : Z) (k : state) : Z * state :=
  let len := Z.to_nat path_len in
  if (path_ptr =? 0) || (len =? 0)%nat then (ENOENT, k) else
  if (MAX_PATH <? len)%nat then (ENOENT, k) else
  if stat_buf_ptr =? 0 then (EFAULT, k) else
  if negb (um_range (um (fds k)) stat_buf_ptr 8 true) then (EFAULT, k) else
  match copy_user_path path_ptr len (fds k) with
  | Err e => (e, k)
  | Ok path =>
      match MOUNT_TABLE k with
      | None => (ENOENT, k)
      | Some mt =>
          match resolve_path mt path with
          | Err _ => (ENOENT, k)
          | Ok (m, i) => match mt_get mt m with None => (ENOENT, k) | Some fs => stat_answer stat_buf_ptr (stat fs i) k end
          end
      end
  end.

Definition sys_fstat (f stat_buf_ptr : Z) (k : state) : outcome (Z * state) :=
  if stat_buf_ptr =? 0 then Ret (EFAULT, k) else
  r ← description f k;
  match r with
  | None => Ret (EBADF, k)
  | Some (_, o) =>
      if negb (um_range (um (fds k)) stat_buf_ptr 8 true) then Ret (EFAULT, k) else
      Ret match MOUNT_TABLE k with
      | None => copy_stat_to_user stat_buf_ptr (mk_statbuf 0 S_IFREG) k
      | Some mt =>
          match mt_get mt (Z.to_nat (mount_idx (desc o))) with
          | None => copy_stat_to_user stat_buf_ptr (mk_statbuf 0 S_IFREG) k
          | Some fs => stat_answer stat_buf_ptr (stat fs (inode_id (desc o))) k
          end
      end
  end.

(** The guards shared by mkdir, unlink and chdir. *)
Definition with_user_path (path_ptr path_len : Z) (k : state) (body : str -> outcome (Z * state)) : outcome (Z * state) :=
  let len := Z.to_nat path_len in
  if (path_ptr =? 0) || (len =? 0)%nat then Ret (EINVAL, k) else
  if (MAX_PATH <? len)%nat then Ret (ENOENT, k) else
  match copy_user_path path_ptr len (fds k) with Err e => Ret (e, k) | Ok path => body path end.

(** The shared body of [vfs_mkdir] and [vfs_unlink]: [act] on the directory above the last name. *)
Definition on_parent {A : Type} (path : str) (act : F -> Z -> str -> result A VfsError * F) (k : state) : Z * state :=
  match split_parent_name path with
  | None => (EINVAL, k)
  | Some (parent_path, name) =>
      match MOUNT_TABLE k with
      | None => (to_errno NotFound, k)
      | Some mt =>
          match resolve_path mt parent_path with
          | Err e => (to_errno e, k)
          | Ok (m, parent_inode) =>
              match mt_get mt m with
              | None => (to_errno NotFound, k)
              | Some fs =>
                  let '(r, fs) := act fs parent_inode name in
                  (match r with Ok _ => 0 | Err e => to_errno e end, set_mounts k (Some (put_fs mt m fs)))
              end
          end
      end
  end.

Definition vfs_mkdir (path : str) (k : state) : Z * state := on_parent path (fun fs i n => create fs i n Directory) k.
Definition vfs_unlink (path : str) (k : state) : Z * state := on_parent path unlink k.
Definition sys_mkdir (path_ptr path_len : Z) (k : state) : outcome (Z * state) := with_user_path path_ptr path_len k (fun p => Ret (vfs_mkdir p k)).
Definition sys_unlink (path_ptr path_len : Z) (k : state) : outcome (Z * state) := with_user_path path_ptr path_len k (fun p => Ret (vfs_unlink p k)).

(** [process::set_current_cwd]. *)
Definition set_current_cwd (path : str) (k : state) : outcome state :=
  slot ← index (cwds k) (CURRENT (fds k));
  match slot with
  | None => Ret k
  | Some _ => Ret (set_cwds k (<[CURRENT (fds k) := Some (take CWD_MAX path)]> (cwds k)))
  end.

Definition vfs_chdir (path : str) (k : state) : outcome (Z * state) :=
  match MOUNT_TABLE k with
  | None => Ret (to_errno NotFound, k)
  | Some mt =>
      match resolve_path mt path with
      | Err e => Ret (to_errno e, k)
      | Ok (m, i) =>
          match mt_get mt m with
          | None => Ret (to_errno NotFound, k)
          | Some fs =>
              match stat fs i with
              | Ok s => if decide (st_inode_type s = Directory) then k ← set_current_cwd path k; Ret (0, k) else Ret (to_errno NotADirectory, k)
              | Err e => Ret (to_errno e, k)
              end
          end
      end
  end.
Definition sys_chdir (path_ptr path_len : Z) (k : state) : outcome (Z * state) := with_user_path path_ptr path_len k (fun p => vfs_chdir p k).

Definition sys_getcwd (buf_ptr sz : Z) (k : state) : outcome (Z * state) :=
  if buf_ptr =? 0 then Ret (EFAULT, k) else
  slot ← index (cwds k) (CURRENT (fds k));
  let cwd := default [SLASH] slot in
  let n := Z.of_nat (length cwd) + 1 in
  if sz <? n then Ret (EINVAL, k) else
  if negb (um_range (um (fds k)) buf_ptr n true) then Ret (EFAULT, k) else
  let '(u, ok) := um_copy_to (um (fds k)) buf_ptr (cwd ++ [0]) in
  Ret (if ok : bool then 0 else EFAULT, set_user k u).

(** ** Routing ([syscall.rs]) *)

Definition with_pipes (k : state) (s : pipe.kstate U) : state := set_fds k (set_pool (set_um (fds k) (pipe.um s)) (pipe.PIPE_POOL s)).

Definition sys_read_with_pipe (f buf_ptr cnt : Z) (k : state) : outcome (Z * state) :=
  fl ← current_fd_flags (Z.to_nat f) (fds k);
  match fl with
  | None => Ret (EBADF, k)
  | Some fl =>
      if pipe.is_pipe_fd fl then
        '(r, s) ← pipe.sys_pipe_read (pipe.pipe_idx_from_flags fl) buf_ptr cnt (pipe.mk_kstate (um (fds k)) (PIPE_POOL (fds k)));
        Ret (r, with_pipes k s)
      else sys_read f buf_ptr cnt k
  end.

(** The third component is the process SIGPIPE is delivered to, if any. *)
Definition sys_write_dispatch (f buf_ptr cnt : Z) (k : state) : outcome (Z * option Z * state) :=
  fl ← current_fd_flags (Z.to_nat f) (fds k);
  match fl with
  | Some fl =>
      if pipe.is_pipe_fd fl then
        '(r, s) ← pipe.sys_pipe_write (pipe.pipe_idx_from_flags fl) buf_ptr cnt (Z.of_nat (CURRENT (fds k))) (pipe.mk_kstate (um (fds k)) (PIPE_POOL (fds k)));
        Ret (r, with_pipes k s)
      else '(r, k) ← sys_write f buf_ptr cnt k; Ret (r, None, k)
  | None =>
      if f =? 1 then
        let len := Z.min cnt UART_COPY_CHUNK in
        if negb (um_range (um (fds k)) buf_ptr len false) then Ret (EFAULT, None, k) else
        match um_copy_from (um (fds k)) buf_ptr (Z.to_nat len) with
        | None => Ret (EFAULT, None, k)
        | Some bs => Ret (len, None, put_serial k bs)
        end
      else Ret (EBADF, None, k)
  end.

(** ** Program images *)

(** The entry of the cache for a file of that size. *)
Definition cached (k : state) (m i sz : Z) : option (list Z) :=
  c_data <$> (snd <$> list_find (fun e => c_mount e = m /\ c_inode e = i /\ c_size e = sz) (omap id (ELF_CACHE k))).

Definition cache_slot (k : state) : nat * nat :=
  match first_free (ELF_CACHE k) with
  | Some i => (i, ELF_CACHE_NEXT k)
  | None => ((ELF_CACHE_NEXT k mod ELF_CACHE_SLOTS)%nat, ((ELF_CACHE_NEXT k + 1) mod ELF_CACHE_SLOTS)%nat)
  end.

Definition ramfs_find (path : str) (k : state) : outcome (option (list Z) * state) :=
  match MOUNT_TABLE k with
  | None => Ret (None, k)
  | Some mt =>
      match resolve_path mt path with
      | Err _ => Ret (None, k)
      | Ok (m, i) =>
          match mt_get mt m with
          | None => Ret (None, k)
          | Some fs =>
              match stat fs i with
              | Err _ => Ret (None, k)
              | Ok s =>
                  if negb (bool_decide (st_inode_type s = RegularFile)) then Ret (None, k) else
                  let sz := wrap32 (st_size s) in
                  let mi := wrap8 (Z.of_nat m) in
                  match cached k mi i sz with
                  | Some d => Ret (Some d, k)
                  | None =>
                      if sz =? 0 then Ret (Some [], k) else
                      match read fs i 0 sz with
                      | Err _ => Ret (None, k)
                      | Ok bs =>
                          let '(slot, next) := cache_slot k in
                          c ← store (ELF_CACHE k) slot (Some (mk_cached mi i sz bs));
                          Ret (Some bs, set_cache k c next)
                      end
                  end
              end
          end
      end
  end.
End kernel.
Arguments state : clear implicits.

(** The mounts of [init_vfs]: the root, the devices and a RAM file system at [/tmp]. *)
Definition DEV : str := [47; 100; 101; 118].
Definition TMP : str := [47; 116; 109; 112].

Definition init_vfs {D : Type} `{!Filesystem D} (devfs : D) (cpio_data : option (list Z)) (root_override : option (ramfs.RamFs + D)) : outcome (MountTable (ramfs.RamFs + D)) :=
  root_fs ← match root_override with
            | Some fs => Ret fs
            | None => match cpio_data with Some d => inl <$> ramfs.from_cpio d | None => Ret (inl ramfs.new) end
            end;
  let mt := (mount vfs.new [SLASH] root_fs).2 in
  let mt := (mount mt DEV (inr devfs)).2 in
  Ret (mount mt TMP (inl ramfs.new)).2.
(** ** A descriptor of a RAM file is a cursor over its bytes *)

Section cursor.
Context {U : Type} `{!UserMemory U} {D : Type} `{!Filesystem D}.
#[local] Abbreviation kernel := (state U (ramfs.RamFs + D)).
Implicit Types (k : kernel) (u : U) (c : list Z * Z).

Inductive op := Read (f buf cnt : Z) | Write (f buf cnt : Z) | Seek (f off whence : Z).
Definition op_fd (o : op) : Z := match o with Read f _ _ | Write f _ _ | Seek f _ _ => f end.

Definition step (o : op) k : outcome (Z * kernel) :=
  match o with
  | Read f buf cnt => sys_read f buf cnt k
  | Write f buf cnt => sys_write f buf cnt k
  | Seek f off w => '(r, fk) ← sys_lseek (size k) f off w (fds k); Ret (r, set_fds k fk)
  end.

Fixpoint run (os : list op) k : outcome (list Z * kernel) :=
  match os with
  | [] => Ret ([], k)
  | o :: os => '(r, k) ← step o k; '(rs, k) ← run os k; Ret (r :: rs, k)
  end.

(** The specification: the bytes of the file and a position. *)
Definition cursor_step (o : op) u c : Z * (U * (list Z * Z)) :=
  let '(d, pos) := c in
  match o with
  | Read _ buf cnt =>
      let len := Z.min cnt USER_IO_CHUNK in
      if (buf =? 0) || negb (um_range u buf len true) then (EFAULT, (u, c)) else
      let bs := take (Z.to_nat len) (drop (Z.to_nat pos) d) in
      let '(u, ok) := um_copy_to u buf bs in
      if ok : bool then (Z.of_nat (length bs), (u, (d, pos + Z.of_nat (length bs)))) else (EFAULT, (u, c))
  | Write _ buf cnt =>
      let len := Z.min cnt USER_IO_CHUNK in
      if (buf =? 0) || negb (um_range u buf len false) then (EFAULT, (u, c)) else
      match um_copy_from u buf (Z.to_nat len) with
      | None => (EFAULT, (u, c))
      | Some bs =>
          if ramfs.RAMFS_MAX_FILE_SIZE <? pos + Z.of_nat (length bs) then (to_errno NoSpace, (u, c)) else
          (Z.of_nat (length bs), (u, (ramfs.t_write d (Z.to_nat pos) bs, pos + Z.of_nat (length bs))))
      end
  | Seek _ off whence =>
      let base := if whence =? SEEK_SET then Some 0 else if whence =? SEEK_CUR then Some pos else if whence =? SEEK_END then Some (Z.of_nat (length d)) else None in
      match base with
      | Some b => let p := b + cast_signed off in if (0 <=? p) && (p <=? 0x7FFFFFFF) then (p, (u, (d, p))) else (EINVAL, (u, c))
      | None => (EINVAL, (u, c))
      end
  end.

Fixpoint cursor_run (os : list op) u c : list Z * (U * (list Z * Z)) :=
  match os with
  | [] => ([], (u, c))
  | o :: os => let '(r, (u, c)) := cursor_step o u c in let '(rs, s) := cursor_run os u c in (r :: rs, s)
  end.

(** Description [j] of [k] is open on inode [i], a regular file, of the RAM
    file system [r] at mount [m]. *)
Record open_on k (j : nat) (o : OpenFile) (mt : MountTable (ramfs.RamFs + D)) (m : nat) (path : str) (r : ramfs.RamFs) (i : Z) (nd : ramfs.RamInode) : Prop := {
  o_desc : OFD_TABLE (fds k) !! j = Some (Some o);
  o_mount : mount_idx (desc o) = Z.of_nat m;
  o_inode : inode_id (desc o) = i;
  o_table : MOUNT_TABLE k = Some mt;
  o_max : (m < MAX_MOUNTS)%nat;
  o_fs : mt !! m = Some (Some (mk_mount path (inl r)));
  o_get : ramfs.get r i = Some nd;
  o_file : ramfs.inode_type nd = RegularFile;
  o_pos : 0 <= offset (desc o) < 2 ^ 31;
  o_size : Z.of_nat (length (ramfs.data nd)) <= ramfs.RAMFS_MAX_FILE_SIZE;
}.

(** A descriptor of the current process that names description [j]. *)
Definition names_ofd k (j : nat) (f : Z) : Prop :=
  exists t e, tables (fds k) !! CURRENT (fds k) = Some (Some t) /\ get t (Z.to_nat f) = Some e /\ ofd e = j.

Definition op_ok k (j : nat) (o : op) : Prop := names_ofd k j (op_fd o) /\ match o with Read _ _ cnt | Write _ _ cnt => 0 <= cnt < 2 ^ 32 | Seek _ off _ => is_u32 off end.

(** [k] with other bytes in the inode, another offset in the description and
    another memory of the caller; nothing else changes. *)
Definition with_cursor k (j : nat) (o : OpenFile) (mt : MountTable (ramfs.RamFs + D)) (m : nat) (r : ramfs.RamFs) (i : Z) u c : kernel :=
  let d := desc o in
  set_mounts
    (set_fds k (set_um (set_ofds (fds k) (<[j := Some (mk_ofd (mk_desc (mount_idx d) (inode_id d) c.2 (flags d)) (refs o))]> (OFD_TABLE (fds k)))) u))
    (Some (put_fs mt m (inl (ramfs.alter_inode r i (fun nd => ramfs.with_data nd c.1))))).
Lemma resolve_direct (fk : fd.kernel U) f t e : tables fk !! CURRENT fk = Some (Some t) -> get t f = Some e -> resolve_fd f fk = Ret (Some (ofd e)).
Proof.
  intros Ht Hg. unfold resolve_fd, with_current_fds. rewrite (index_lt _ _ _ Ht). cbn [mbind outcome_bind].
  rewrite store_lt by (by eapply lookup_lt_Some). cbn [mbind outcome_bind flatten fst]. by rewrite Hg.
Qed.

Lemma put_fs_get (mt : MountTable (ramfs.RamFs + D)) m e f : (m < MAX_MOUNTS)%nat -> mt !! m = Some (Some e) -> mt_get (put_fs mt m f) m = Some f.
Proof.
  intros Hm He. unfold mt_get, put_fs. rewrite (proj2 (Nat.leb_gt _ _)) by done. by rewrite list_lookup_alter_eq, He.
Qed.

Lemma put_fs_twice (mt : MountTable (ramfs.RamFs + D)) m f g : put_fs (put_fs mt m f) m g = put_fs mt m g.
Proof.
  apply list_eq. intros x. unfold put_fs. destruct (decide (x = m)) as [->|Hne].
  - rewrite !list_lookup_alter_eq. by destruct (mt !! m) as [[e|]|].
  - by rewrite !list_lookup_alter_ne.
Qed.

Lemma put_fs_same (mt : MountTable (ramfs.RamFs + D)) m path f : mt !! m = Some (Some (mk_mount path f)) -> put_fs mt m f = mt.
Proof.
  intros He. apply list_eq. intros x. unfold put_fs. destruct (decide (x = m)) as [->|Hne]; [by rewrite list_lookup_alter_eq, He|by rewrite list_lookup_alter_ne].
Qed.

Lemma alter_data_twice r i d d' : ramfs.alter_inode (ramfs.alter_inode r i (fun nd => ramfs.with_data nd d)) i (fun nd => ramfs.with_data nd d') = ramfs.alter_inode r i (fun nd => ramfs.with_data nd d').
Proof.
  unfold ramfs.alter_inode. cbn [ramfs.inodes ramfs.next_inode]. f_equal. apply list_eq. intros x. destruct (decide (x = Z.to_nat i)) as [->|Hne].
  - rewrite !list_lookup_alter_eq. by destruct (_ !! _).
  - by rewrite !list_lookup_alter_ne.
Qed.

Lemma alter_data_same r i nd : ramfs.get r i = Some nd -> ramfs.alter_inode r i (fun nd' => ramfs.with_data nd' (ramfs.data nd)) = r.
Proof.
  intros Hg. destruct r as [nodes nx]. unfold ramfs.alter_inode, ramfs.get in *. cbn [ramfs.inodes ramfs.next_inode] in *. f_equal. apply list_eq. intros x.
  destruct (decide (x = Z.to_nat i)) as [->|Hne]; [|by rewrite list_lookup_alter_ne]. rewrite list_lookup_alter_eq, Hg. by destruct nd.
Qed.

Section opened.
Context {k : kernel} {j : nat} {o : OpenFile} {mt : MountTable (ramfs.RamFs + D)} {m : nat} {path : str} {r : ramfs.RamFs} {i : Z} {nd : ramfs.RamInode}.
Hypothesis Hopen : open_on k j o mt m path r i nd.
#[local] Abbreviation at_cursor := (with_cursor k j o mt m r i).

Lemma cursor_start : at_cursor (um (fds k)) (ramfs.data nd, offset (desc o)) = k.
Proof using Hopen.
  destruct Hopen as [H1 H2 H3 H4 H5 H6 H7 H8 H9 H10]. unfold with_cursor. cbn [fst snd]. rewrite (alter_data_same r i nd) by done.
  rewrite (put_fs_same mt m path) by done. destruct k as [fk mts cw se ec en]. cbn in *. subst mts. unfold set_mounts, set_fds. cbn. f_equal.
  destruct fk as [ts cur ofds pp rel um0]. unfold set_um, set_ofds. cbn in *. f_equal. apply list_insert_id.
  rewrite H1. destruct o as [[? ? ? ?] ?]. done.
Qed.

Lemma cursor_ofd u c : OFD_TABLE (fds (at_cursor u c)) !! j = Some (Some (mk_ofd (mk_desc (mount_idx (desc o)) (inode_id (desc o)) c.2 (flags (desc o))) (refs o))).
Proof using Hopen. exact (list_lookup_insert_eq _ _ _ (lookup_lt_Some _ _ _ (o_desc _ _ _ _ _ _ _ _ _ Hopen))). Qed.

Lemma cursor_description f u c : names_ofd k j f -> description f (at_cursor u c) = Ret (Some (j, mk_ofd (mk_desc (mount_idx (desc o)) (inode_id (desc o)) c.2 (flags (desc o))) (refs o))).
Proof using Hopen.
  intros (t & e & Ht & Hg & Hj). unfold description. rewrite (resolve_direct _ _ t e), Hj by done. cbn [mbind outcome_bind].
  rewrite (index_lt _ _ _ (cursor_ofd u c)). done.
Qed.

Lemma cursor_get d : ramfs.get (ramfs.alter_inode r i (fun nd => ramfs.with_data nd d)) i = Some (ramfs.with_data nd d).
Proof using Hopen. unfold ramfs.get, ramfs.alter_inode. cbn [ramfs.inodes]. rewrite list_lookup_alter_eq. pose proof (o_get _ _ _ _ _ _ _ _ _ Hopen) as Hg. unfold ramfs.get in Hg. by rewrite Hg. Qed.

Lemma cursor_mount f : mt_get (put_fs mt m f) m = Some f.
Proof using Hopen. eapply put_fs_get; apply Hopen. Qed.

Lemma cursor_advance u c n : 0 <= c.2 -> 0 <= n -> c.2 + n < 2 ^ 32 -> advance (at_cursor u c) j n = Ret (at_cursor u (c.1, c.2 + n)).
Proof using Hopen.
  intros H0 H1 H2. unfold advance. rewrite (index_lt _ _ _ (cursor_ofd u c)). cbn [mbind outcome_bind desc mount_idx inode_id offset flags refs].
  unfold wrap32. rewrite Z.mod_small by lia. do 2 f_equal. unfold with_cursor, set_mounts, set_fds, set_um, set_ofds. cbn. do 2 f_equal. by rewrite list_insert_insert_eq.
Qed.
Definition cursor_ok c : Prop := 0 <= c.2 < 2 ^ 31 /\ Z.of_nat (length c.1) <= ramfs.RAMFS_MAX_FILE_SIZE.

Lemma cursor_table u c : MOUNT_TABLE (at_cursor u c) = Some (put_fs mt m (inl (ramfs.alter_inode r i (fun nd => ramfs.with_data nd c.1)))).
Proof. done. Qed.

Lemma read_step f buf cnt u c : names_ofd k j f -> 0 <= cnt -> cursor_ok c ->
  let '(a, (u', c')) := cursor_step (Read f buf cnt) u c in sys_read f buf cnt (at_cursor u c) = Ret (a, at_cursor u' c') /\ cursor_ok c'.
Proof using Hopen.
  intros Hf Hcnt [Hp Hd]. destruct c as [d pos]. cbn [fst snd] in *. unfold cursor_step, sys_read. set (len := Z.min cnt USER_IO_CHUNK).
  assert (0 <= len) as Hlen by (unfold len, USER_IO_CHUNK; lia).
  change (um (fds (at_cursor u (d, pos)))) with u.
  destruct (buf =? 0); [done|]. destruct (negb _); [done|]. cbn [orb]. rewrite cursor_description by done. cbn [mbind outcome_bind desc mount_idx inode_id offset].
  rewrite (o_mount _ _ _ _ _ _ _ _ _ Hopen), Nat2Z.id, (o_inode _ _ _ _ _ _ _ _ _ Hopen). rewrite cursor_table. cbn [fst snd]. rewrite cursor_mount.
  cbn [read_mut dyn_filesystem ramfs.ram_filesystem prod_map id fst snd]. unfold ramfs.ram_read. rewrite cursor_get.
  cbn [ramfs.with_data ramfs.inode_type ramfs.data]. rewrite (o_file _ _ _ _ _ _ _ _ _ Hopen), decide_False by done.
  unfold wrap32. rewrite Z.mod_small by lia. rewrite put_fs_twice.
  assert ((if Z.of_nat (length d) <=? pos then @Ok _ VfsError [] else Ok (take (Z.to_nat (Z.min len (Z.of_nat (length d) - pos))) (drop (Z.to_nat pos) d))) =
    Ok (take (Z.to_nat len) (drop (Z.to_nat pos) d))) as ->.
  { destruct (Z.leb_spec (Z.of_nat (length d)) pos) as [H|H]; [by rewrite drop_ge, take_nil by lia|]. by rewrite ramfs.take_min by lia. }
  set (bs := take (Z.to_nat len) (drop (Z.to_nat pos) d)).
  assert (Z.of_nat (length bs) <= len /\ (bs = [] \/ pos + Z.of_nat (length bs) <= Z.of_nat (length d))) as [Hb1 Hb2].
  { unfold bs. rewrite length_take, length_drop. split; [lia|]. destruct (decide (Z.of_nat (length d) <= pos)); [left; by rewrite drop_ge, take_nil by lia|right; lia]. }
  rewrite (proj2 (Z.ltb_ge _ _)) by lia. change (um (fds (set_mounts (at_cursor u (d, pos)) _))) with u.
  destruct (um_copy_to u buf bs) as [u' [|]].
  - change (set_user (set_mounts (at_cursor u (d, pos)) _) u') with (at_cursor u' (d, pos)).
    assert (0 <= pos + Z.of_nat (length bs) < 2 ^ 31) by (destruct Hb2 as [->|?]; [cbn; lia|unfold ramfs.RAMFS_MAX_FILE_SIZE in Hd; lia]).
    rewrite cursor_advance by (cbn [snd]; lia). cbn [mbind outcome_bind fst snd]. split; [done|]. split; [cbn [snd]; lia|done].
  - split; [done|by split].
Qed.

Lemma t_write_length d pos bs : length (ramfs.t_write d pos bs) = Nat.max (length d) (pos + length bs).
Proof. unfold ramfs.t_write. rewrite !length_app, length_take, length_app, length_replicate, length_drop. lia. Qed.

Lemma write_step f buf cnt u c : names_ofd k j f -> 0 <= cnt -> cursor_ok c ->
  let '(a, (u', c')) := cursor_step (Write f buf cnt) u c in sys_write f buf cnt (at_cursor u c) = Ret (a, at_cursor u' c') /\ cursor_ok c'.
Proof using Hopen.
  intros Hf Hcnt [Hp Hd]. destruct c as [d pos]. cbn [fst snd] in *. unfold cursor_step, sys_write. set (len := Z.min cnt USER_IO_CHUNK).
  change (um (fds (at_cursor u (d, pos)))) with u.
  destruct (buf =? 0); [done|]. destruct (negb _); [done|]. cbn [orb]. rewrite cursor_description by done. cbn [mbind outcome_bind desc mount_idx inode_id offset].
  rewrite (o_mount _ _ _ _ _ _ _ _ _ Hopen), Nat2Z.id, (o_inode _ _ _ _ _ _ _ _ _ Hopen). rewrite cursor_table. cbn [fst snd]. rewrite cursor_mount.
  destruct (um_copy_from u buf (Z.to_nat len)) as [bs|]; [|done].
  cbn [write dyn_filesystem ramfs.ram_filesystem]. unfold ramfs.ram_write. rewrite cursor_get.
  cbn [ramfs.with_data ramfs.inode_type ramfs.data]. rewrite (o_file _ _ _ _ _ _ _ _ _ Hopen), decide_False by done.
  destruct (Z.ltb_spec ramfs.RAMFS_MAX_FILE_SIZE (pos + Z.of_nat (length bs))) as [H|H].
  - rewrite (proj2 (Z.leb_gt _ _)) by done. rewrite andb_false_r. cbn [negb prod_map id fst snd]. rewrite put_fs_twice. split; [done|by split].
  - unfold ramfs.RAMFS_MAX_FILE_SIZE in *. rewrite (proj2 (Z.leb_le _ _)), (proj2 (Z.ltb_lt _ _)) by lia. cbn [negb andb prod_map id fst snd].
    pose proof (ramfs.write_bytes d (Z.to_nat pos) bs) as E. cbv zeta in E. rewrite Z2Nat.id in E by lia. rewrite E. rewrite put_fs_twice, alter_data_twice.
    change (set_mounts (at_cursor u (d, pos)) _) with (with_cursor k j o mt m r i u (ramfs.t_write d (Z.to_nat pos) bs, pos)).
    rewrite cursor_advance by (cbn [snd]; lia). cbn [mbind outcome_bind fst snd]. unfold wrap32. rewrite Z.mod_small by lia.
    split; [done|]. split; cbn [fst snd]; [lia|]. rewrite t_write_length. unfold ramfs.RAMFS_MAX_FILE_SIZE in *. lia.
Qed.

Lemma seek_step f off w u c : names_ofd k j f -> is_u32 off -> cursor_ok c ->
  let '(a, (u', c')) := cursor_step (Seek f off w) u c in step (Seek f off w) (at_cursor u c) = Ret (a, at_cursor u' c') /\ cursor_ok c'.
Proof using Hopen.
  intros (t & e & Ht & Hg & Hj) Hoff [Hp Hd]. destruct c as [d pos]. cbn [fst snd] in *. unfold cursor_step, step, sys_lseek.
  rewrite (resolve_direct _ _ t e), Hj by done. cbn [mbind outcome_bind]. rewrite (index_lt _ _ _ (cursor_ofd u (d, pos))).
  cbn [mbind outcome_bind desc mount_idx inode_id offset flags refs snd].
  assert (size (at_cursor u (d, pos)) (mk_desc (mount_idx (desc o)) (inode_id (desc o)) pos (flags (desc o))) = Z.of_nat (length d)) as ->.
  { unfold size. rewrite cursor_table. cbn [mount_idx inode_id fst]. rewrite (o_mount _ _ _ _ _ _ _ _ _ Hopen), Nat2Z.id, (o_inode _ _ _ _ _ _ _ _ _ Hopen), cursor_mount.
    cbn [stat dyn_filesystem ramfs.ram_filesystem]. unfold ramfs.ram_stat. rewrite cursor_get. cbn [ramfs.with_data ramfs.inode_type ramfs.data st_size].
    rewrite (o_file _ _ _ _ _ _ _ _ _ Hopen). unfold wrap32. rewrite Z.mod_small by (unfold ramfs.RAMFS_MAX_FILE_SIZE in Hd; lia). done. }
  destruct (w =? SEEK_SET), (w =? SEEK_CUR), (w =? SEEK_END); cbn [mbind outcome_bind]; cbv zeta; rewrite ?Z.add_0_l;
    try (split; [done|by split]);
    (destruct (_ && _) eqn:Hr; cbn [negb mbind outcome_bind]; [|split; [done|by split]]);
    apply andb_true_iff in Hr as [H1%Z.leb_le H2%Z.leb_le]; (split; [|split; [cbn [snd]; lia|done]]); do 3 f_equal;
    unfold with_cursor, set_mounts, set_fds, set_um, set_ofds; cbn; do 2 f_equal; by rewrite list_insert_insert_eq.
Qed.
Lemma run_agrees os : forall u c, Forall (op_ok k j) os -> cursor_ok c ->
  let '(rs, (u', c')) := cursor_run os u c in run os (at_cursor u c) = Ret (rs, at_cursor u' c').
Proof using Hopen.
  induction os as [|x os IH]; intros u c Hok Hc; cbn [cursor_run run]; [done|]. apply Forall_cons in Hok as [[Hf Hx] Hok].
  assert (let '(a, (u', c')) := cursor_step x u c in step x (at_cursor u c) = Ret (a, at_cursor u' c') /\ cursor_ok c') as Hs.
  { destruct x as [f buf cnt|f buf cnt|f off w]; [apply read_step|apply write_step|apply seek_step]; by (done || apply Hx). }
  destruct (cursor_step x u c) as [a [u1 c1]]. destruct Hs as [-> Hc1]. cbn [mbind outcome_bind]. specialize (IH u1 c1 Hok Hc1).
  destruct (cursor_run os u1 c1) as [rs [u2 c2]]. by rewrite IH.
Qed.
End opened.
(** ** Directories through paths *)

Lemma rfind_Some s p : rfind_slash s = Some p -> s = take p s ++ SLASH :: drop (S p) s /\ SLASH ∉ drop (S p) s.
Proof.
  revert p. induction s as [|c s IH]; intros p; cbn [rfind_slash]; [done|]. destruct (rfind_slash s) as [q|] eqn:E.
  - intros [= <-]. destruct (IH q eq_refl) as [H1 H2]. cbn [take drop]. split; [|done]. cbn [app]. by f_equal.
  - destruct (Z.eqb_spec c SLASH) as [->|]; [|done]. intros [= <-]. cbn [take drop app]. split; [done|]. clear IH. induction s as [|c s IH]; [apply not_elem_of_nil|].
    cbn [rfind_slash] in E. destruct (rfind_slash s); [done|]. destruct (Z.eqb_spec c SLASH); [done|]. apply not_elem_of_cons. split; [congruence|by apply IH].
Qed.

Lemma components_strip s : components (strip_slash s) = components s.
Proof.
  unfold strip_slash. case_bool_decide as H; [|done]. destruct s as [|x s _] using rev_ind; [done|]. rewrite last_snoc in H. injection H as ->.
  rewrite length_app. replace (length s + length [SLASH] - 1)%nat with (length s) by (cbn; lia). rewrite take_app_length, (components_app s []). by rewrite app_nil_r.
Qed.

Lemma split_parent_spec p parent name : split_parent_name p = Some (parent, name) ->
  starts_with parent [SLASH] = true /\ components p = components parent ++ [name] /\ is_name name.
Proof.
  unfold split_parent_name. destruct (starts_with p [SLASH]) eqn:Hs; cbn [negb]; [|done]. rewrite <- (components_strip p). intros H.
  destruct (rfind_slash (strip_slash p)) as [pos|] eqn:E; [|done]. destruct (rfind_Some _ _ E) as [H1 H2].
  assert (name = drop (S pos) (strip_slash p) /\ name <> [] /\ parent = match pos with O => [SLASH] | _ => take pos (strip_slash p) end) as (Hn & Hne & Hp).
  { destruct pos as [|pos]; cbv zeta in H; (case_bool_decide; [done|]); injection H as <- <-; done. }
  assert (is_name name) as Hname by (split; [done|by rewrite Hn]). rewrite H1, components_app, <- Hn, (components_name name) by done.
  destruct pos as [|pos]; rewrite Hp; [done|]. split_and!; [|done|done].
  assert (exists t, strip_slash p = SLASH :: t) as (t & ->).
  { apply starts_with_spec in Hs as (q & ->). clear H. unfold strip_slash. destruct (bool_decide _); [|by exists q]. destruct q as [|c q]; [by vm_compute in E|].
    exists (take (length q) (c :: q)). done. }
  done.
Qed.

Lemma walk_inl (r : ramfs.RamFs) root cs : forall stack cur,
  walk_components (inl r : ramfs.RamFs + D) root cs stack cur = walk_components r root cs stack cur.
Proof.
  induction cs as [|n cs IH]; intros stack cur; cbn [walk_components]; [done|]. repeat destruct (bool_decide _); [by rewrite IH| destruct stack; by rewrite IH|].
  cbn [lookup dyn_filesystem]. destruct (lookup r cur n); [by rewrite IH|done].
Qed.

Definition errno_of (a : result ramfs.reply VfsError) : Z := match a with Ok _ => 0 | Err e => to_errno e end.

Lemma on_parent_agrees {A} k p parent name mt m rem mp (r : ramfs.RamFs) T (act : ramfs.RamFs + D -> Z -> str -> result A VfsError * (ramfs.RamFs + D))
    (ract : ramfs.RamFs -> Z -> str -> result A VfsError * ramfs.RamFs) (o : ramfs.op) :
  MOUNT_TABLE k = Some mt -> split_parent_name p = Some (parent, name) -> mt_lookup mt parent = Some (m, rem) -> (m < MAX_MOUNTS)%nat ->
  mt !! m = Some (Some (mk_mount mp (inl r))) -> ramfs.stands_for r T -> Z.of_nat (length (ramfs.inodes r)) < 2 ^ 32 - 1 -> ramfs.op_ok o ->
  (forall i, act (inl r) i name = prod_map id inl (ract r i name)) ->
  ramfs.exec r o = ramfs.at_path r (components rem) (fun i => prod_map (ramfs.rmap (fun _ => ramfs.Done)) id (ract r i name)) ->
  exists r', on_parent p act k = (errno_of (ramfs.t_exec T o).1, set_mounts k (Some (put_fs mt m (inl r')))) /\ ramfs.stands_for r' (ramfs.t_exec T o).2.
Proof.
  intros Hmt Hsp Hlk Hm He HR Hsz Hok Hact Hex. destruct (split_parent_spec p parent name Hsp) as (Hs & _ & _).
  destruct (ramfs.exec_agrees r T o HR Hsz Hok) as (E1 & E2 & _). rewrite <- E1. clear E1.
  unfold on_parent. rewrite Hsp, Hmt. unfold resolve_path. rewrite Hs, Hlk. cbn [negb].
  assert (mt_get mt m = Some (inl r)) as Hg by (unfold mt_get; rewrite (proj2 (Nat.leb_gt _ _)), He by done; done). rewrite Hg.
  cbn [root_inode dyn_filesystem]. rewrite walk_inl. rewrite Hex in E2 |- *. unfold ramfs.at_path in E2 |- *.
  destruct (walk_components r (root_inode r) (components rem) [] (root_inode r)) as [i|e].
  - rewrite Hg, Hact. destruct (ract r i name) as [a r']. cbn [prod_map id fst snd] in E2 |- *. exists r'. split; [|done]. by destruct a.
  - exists r. cbn [snd fst] in E2 |- *. split; [|done]. rewrite (put_fs_same mt m mp) by done. cbn [errno_of]. f_equal. destruct k; cbn in *. by subst.
Qed.
End cursor.
(** ** Theorems *)

(** C17: descriptors of a RAM file behave as one cursor over its bytes: any
    sequence of reads, writes and seeks through any of the caller's descriptors
    that share a description answers, delivers and stores as the cursor does
    (short transfers of at most 1024 bytes, zero bytes filled between the end
    and the position, errors without effect), and changes nothing but the bytes
    of that inode, the offset of that description and the caller's memory. *)
Theorem descriptors_refine_cursor {U D : Type} `{!UserMemory U, !Filesystem D} (k : state U (ramfs.RamFs + D)) j o mt m path r i nd os :
  open_on k j o mt m path r i nd -> Forall (op_ok k j) os ->
  let '(rs, (u', c')) := cursor_run os (um (fds k)) (ramfs.data nd, offset (desc o)) in
  run os k = Ret (rs, with_cursor k j o mt m r i u' c').
Proof.
  intros Hopen Hok. pose proof (run_agrees Hopen os (um (fds k)) (ramfs.data nd, offset (desc o)) Hok) as H.
  rewrite (cursor_start Hopen) in H. apply H. split; [exact (o_pos _ _ _ _ _ _ _ _ _ Hopen)|exact (o_size _ _ _ _ _ _ _ _ _ Hopen)].
Qed.

(** Mkdir and unlink act on the tree of the RAM file system that the path
    above the last name is routed to: the directory appears or the name goes
    exactly as in the map from paths to files, the answer is the error number of
    the map's answer, and no other mount changes. *)
Theorem mkdir_unlink_follow_tree {U D : Type} `{!UserMemory U, !Filesystem D} (k : state U (ramfs.RamFs + D)) p parent name mt m rem mp r T :
  MOUNT_TABLE k = Some mt -> split_parent_name p = Some (parent, name) -> mt_lookup mt parent = Some (m, rem) -> (m < MAX_MOUNTS)%nat ->
  mt !! m = Some (Some (mk_mount mp (inl r))) -> ramfs.stands_for r T -> Z.of_nat (length (ramfs.inodes r)) < 2 ^ 32 - 1 ->
  Forall ramfs.plain (components rem) -> ramfs.plain name ->
  components p = components parent ++ [name] /\
  (exists r', vfs_mkdir p k = (errno_of (ramfs.t_exec T (ramfs.Create (components rem) name Directory)).1, set_mounts k (Some (put_fs mt m (inl r')))) /\
    ramfs.stands_for r' (ramfs.t_exec T (ramfs.Create (components rem) name Directory)).2) /\
  exists r', vfs_unlink p k = (errno_of (ramfs.t_exec T (ramfs.Unlink (components rem) name)).1, set_mounts k (Some (put_fs mt m (inl r')))) /\
    ramfs.stands_for r' (ramfs.t_exec T (ramfs.Unlink (components rem) name)).2.
Proof.
  intros Hmt Hsp Hlk Hm He HR Hsz Hpl Hpn. split_and!.
  - by apply split_parent_spec.
  - by apply (on_parent_agrees k p parent name mt m rem mp r T _ (fun fs i n => create fs i n Directory)).
  - by apply (on_parent_agrees k p parent name mt m rem mp r T _ unlink).
Qed.

Lemma Ret_inj {A : Type} (a b : A) : Ret a = Ret b -> a = b.
Proof. by intros [=]. Qed.

Lemma walk_descend {F : Type} `{!Filesystem F} (f : F) root cs cur i : Forall ramfs.plain cs -> descend f cur cs = Some i -> walk_components f root cs [] cur = Ok i.
Proof.
  intros Hp Hd. pose proof (walk_plain f root cs [] cur Hp) as H. destruct (walk_components f root cs [] cur) as [x|e]; [congruence|].
  destruct H as (p & n & q & x & -> & H1 & H2). rewrite descend_app, H1 in Hd. cbn in Hd. by rewrite H2 in Hd.
Qed.

(** The table of [init_vfs]. *)
Definition boot_table {F : Type} (a b c : F) : MountTable F := [Some (mk_mount [SLASH] a); Some (mk_mount DEV b); Some (mk_mount TMP c)] ++ replicate 5 None.

Lemma boot_mounts {D : Type} `{!Filesystem D} (dev : D) a fs : ramfs.from_cpio a = Ret fs ->
  init_vfs dev (Some a) None = Ret (boot_table (inl fs) (inr dev) (inl ramfs.new)).
Proof. intros E. unfold init_vfs, boot_table. rewrite E. cbn [fmap outcome_fmap mbind outcome_bind]. reflexivity. Qed.

Lemma boot_root {F : Type} (a b c : F) : mt_get (boot_table a b c) 0 = Some a.
Proof. reflexivity. Qed.

Lemma boot_lookup {D : Type} `{!Filesystem D} (a b c : ramfs.RamFs + D) path : covers DEV path = false -> covers TMP path = false ->
  mt_lookup (boot_table a b c) path = Some (0%nat, path).
Proof. intros H1 H2. unfold mt_lookup, boot_table. cbn [app best m_path replicate]. rewrite H1, H2. reflexivity. Qed.

Lemma cold_miss {U F : Type} (k : state U F) m i sz : ELF_CACHE k = replicate ELF_CACHE_SLOTS None -> cached k m i sz = None.
Proof. intros H. unfold cached. rewrite H. reflexivity. Qed.

Lemma cold_slot {U F : Type} (k : state U F) : ELF_CACHE k = replicate ELF_CACHE_SLOTS None -> cache_slot k = (0%nat, ELF_CACHE_NEXT k).
Proof. intros H. unfold cache_slot. rewrite H. reflexivity. Qed.

Lemma find_uncached {U D : Type} `{!UserMemory U, !Filesystem D} (k : state U (ramfs.RamFs + D)) mt m mp fs i nd path :
  MOUNT_TABLE k = Some mt -> ELF_CACHE k = replicate ELF_CACHE_SLOTS None -> (m < MAX_MOUNTS)%nat -> mt !! m = Some (Some (mk_mount mp (inl fs))) ->
  resolve_path mt path = Ok (m, i) -> ramfs.get fs i = Some nd -> ramfs.inode_type nd = RegularFile -> Z.of_nat (length (ramfs.data nd)) < 2 ^ 32 ->
  exists k', ramfs_find path k = Ret (Some (ramfs.data nd), k').
Proof.
  intros Hmt Hcache Hm He Hr Hg Hf Hlen. unfold ramfs_find. rewrite Hmt, Hr. unfold mt_get. rewrite (proj2 (Nat.leb_gt _ _)), He by done.
  cbn [mbind option_bind fmap option_fmap option_map m_fs stat dyn_filesystem ramfs.ram_filesystem]. unfold ramfs.ram_stat. rewrite Hg. cbn [st_inode_type st_size]. rewrite Hf.
  rewrite bool_decide_true by done. cbn [negb]. assert (wrap32 (Z.of_nat (length (ramfs.data nd))) = Z.of_nat (length (ramfs.data nd))) as -> by (unfold wrap32; rewrite Z.mod_small by lia; done).
  rewrite cold_miss by done.
  destruct (Z.eqb_spec (Z.of_nat (length (ramfs.data nd))) 0) as [H0|H0]; [exists k; do 3 f_equal; destruct (ramfs.data nd); [done|cbn in H0; lia]|].
  cbn [read dyn_filesystem ramfs.ram_filesystem]. unfold ramfs.ram_read. rewrite Hg, Hf, decide_False by done. unfold wrap32. rewrite Z.mod_0_l by done.
  rewrite (proj2 (Z.leb_gt _ _)) by lia. rewrite cold_slot, Hcache by done. rewrite store_lt by (rewrite length_replicate; unfold ELF_CACHE_SLOTS; lia). cbn [mbind outcome_bind].
  eexists. rewrite Z.sub_0_r, Z.min_id, Nat2Z.id. cbn [Z.to_nat]. by rewrite drop_0, firstn_all.
Qed.

(** A program the build packed is the program the kernel runs: after a boot
    from the archive, looking up a packed file outside [/dev] and [/tmp] by its
    absolute path returns its bytes. *)
Theorem packed_program_is_found {U D : Type} `{!UserMemory U, !Filesystem D} (dev : D) (fl : list (str * list Z)) name d mt (k : state U (ramfs.RamFs + D)) :
  Forall (fun x => ramfs.name_ok x.1) fl -> ramfs.no_clash fl -> Z.of_nat (length (ramfs.archive fl)) < 2 ^ 31 ->
  init_vfs dev (Some (ramfs.archive fl)) None = Ret mt -> MOUNT_TABLE k = Some mt -> ELF_CACHE k = replicate ELF_CACHE_SLOTS None ->
  (name, d) ∈ fl -> Forall ramfs.plain (ramfs.path_of name) -> Z.of_nat (length d) < 2 ^ 32 ->
  let path := SLASH :: ramfs.clean name in covers DEV path = false -> covers TMP path = false ->
  exists k', ramfs_find path k = Ret (Some d, k').
Proof.
  intros Hok Hnc Hlen Hinit Hmt Hcache Hin Hplain Hd path Hdev Htmp.
  destruct (ramfs.archive_tree fl Hok Hnc Hlen) as (fs & Hfs & Hv). rewrite (boot_mounts dev _ fs Hfs) in Hinit. apply Ret_inj in Hinit. subst mt.
  apply list_elem_of_lookup in Hin as (x & Hx). pose proof (ramfs.assoc_elem fl x name d Hx Hnc) as Ha.
  assert (ramfs.view fs (ramfs.path_of name) = Some (RegularFile, d)) as Hview by (rewrite Hv; unfold ramfs.packed; by rewrite Ha).
  unfold ramfs.view in Hview. destruct (descend fs 0 (ramfs.path_of name)) as [i|] eqn:Edesc; [|done]. cbn [mbind option_bind] in Hview.
  destruct (ramfs.get fs i) as [nd|] eqn:Eg; [|done]. cbn in Hview. injection Hview as Hty <-.
  eapply (find_uncached k _ 0 [SLASH] fs i nd); [exact Hmt|done|unfold MAX_MOUNTS; lia|done| |done|done|done].
  unfold resolve_path. change (starts_with path [SLASH]) with (bool_decide ([SLASH] = [SLASH])). rewrite bool_decide_true by done. cbn [negb].
  rewrite boot_lookup by done. rewrite boot_root. unfold path. rewrite components_slash. fold (ramfs.path_of name).
  cbn [root_inode dyn_filesystem ramfs.ram_filesystem]. rewrite walk_inl. by rewrite (walk_descend fs 0 _ 0 i Hplain Edesc).
Qed.
(** A caller's memory of 64 bytes from address 1, for examples. *)
#[local] Instance flat_memory : UserMemory (list Z) := {|
  um_range u p n w := (1 <=? p) && (p + n <=? 65);
  um_copy_from u p n := if (1 <=? p) && (p + Z.of_nat n <=? 65) then Some (take n (drop (Z.to_nat (p - 1)) u)) else None;
  um_copy_to u p bs := if (1 <=? p) && (p + Z.of_nat (length bs) <=? 65)
    then (take (Z.to_nat (p - 1)) u ++ bs ++ drop (Z.to_nat (p - 1) + length bs) u, true) else (u, false);
|}.

Definition demo_fs : ramfs.RamFs := (ramfs.ram_write (ramfs.ram_create ramfs.new 0 [97] RegularFile).2 1 0 [10; 20; 30]).2.
Definition demo_mt : MountTable (ramfs.RamFs + ramfs.RamFs) := (mount vfs.new [SLASH] (inl demo_fs)).2.
Definition demo_state : state (list Z) (ramfs.RamFs + ramfs.RamFs) :=
  mk_state (mk_kernel [Some [Some (mk_entry 0 false); Some (mk_entry 0 false)]] 0 [Some (mk_ofd (from_vfs 0 1 0) 2)] [] [] ([47; 98; 47; 97] ++ replicate 60 0))
    (Some demo_mt) [Some [SLASH]] [] (replicate ELF_CACHE_SLOTS None) 0.

Definition demo_io : list op := [Read 0 11 2; Write 1 1 4; Seek 0 0 0; Read 1 21 40; Read 0 60 9; Seek 0 3 2; Write 0 1 1; Read 0 0 4].

Lemma descriptors_refine_cursor_witness :
  (cursor_run demo_io (um (fds demo_state)) ([10; 20; 30], 0)).1 = [2; 4; 0; 6; EFAULT; 9; 1; EFAULT] /\
  (cursor_run demo_io (um (fds demo_state)) ([10; 20; 30], 0)).2.2 = ([10; 20; 47; 98; 47; 97; 0; 0; 0; 47], 10) /\
  exists k', run demo_io demo_state = Ret ([2; 4; 0; 6; EFAULT; 9; 1; EFAULT], k').
Proof.
  assert (open_on demo_state 0 (mk_ofd (from_vfs 0 1 0) 2) demo_mt 0 [SLASH] demo_fs 1 (ramfs.mk_inode RegularFile [10; 20; 30] [] 0)) as Hopen.
  { constructor; try reflexivity; [unfold MAX_MOUNTS; lia|split; vm_compute; congruence|vm_compute; congruence]. }
  assert (Forall (op_ok demo_state 0) demo_io) as Hok.
  { assert (names_ofd demo_state 0 0 /\ names_ofd demo_state 0 1) as [N0 N1] by (split; eexists _, _; split_and!; reflexivity).
    repeat (apply Forall_cons; split); [..|by apply Forall_nil]; (split; [exact N0 || exact N1|split; vm_compute; congruence]). }
  pose proof (descriptors_refine_cursor demo_state 0 _ demo_mt 0 [SLASH] demo_fs 1 _ demo_io Hopen Hok) as H.
  split; [vm_compute; reflexivity|]. split; [vm_compute; reflexivity|].
  revert H. destruct (cursor_run demo_io _ _) as [rs [u' c']] eqn:E. intros H. eexists. etrans; [exact H|]. vm_compute in E. by injection E as <- _ _.
Defined.
Lemma mkdir_unlink_follow_tree_witness :
  exists r', vfs_mkdir [47; 98; 47] demo_state = (0, set_mounts demo_state (Some (put_fs demo_mt 0 (inl r')))) /\ ramfs.view r' [[98]] = Some (Directory, []).
Proof.
  assert (exists T, ramfs.stands_for demo_fs T /\ T !! [] = Some (Directory, []) /\ T !! [[98]] = None) as (T & HT & Hr & Hb).
  { destruct (ramfs.runs_agree [ramfs.Create [] [97] RegularFile; ramfs.Write [[97]] 0 [10; 20; 30]] ramfs.new ramfs.empty_tree ramfs.stands_new) as [_ H].
    - vm_compute. reflexivity.
    - repeat (apply Forall_cons; split); [..|by apply Forall_nil]; vm_compute; repeat (split || apply Forall_cons || apply Forall_nil); done.
    - eexists. split; [exact H|]. split; vm_compute; reflexivity. }
  destruct (mkdir_unlink_follow_tree demo_state [47; 98; 47] [SLASH] [98] demo_mt 0 [SLASH] [SLASH] demo_fs T) as (_ & (r' & E & HR) & _).
  1,2,3,5: reflexivity. 1: (unfold MAX_MOUNTS; lia). 1: exact HT. 1: (vm_compute; reflexivity). 1: (vm_compute; by apply Forall_nil). 1: (split; discriminate).
  exists r'. change (components [SLASH]) with (@nil str) in E, HR. cbn [ramfs.t_exec ramfs.t_walk app] in E, HR. rewrite Hr in E, HR. cbn [fst] in E, HR. rewrite Hb in E, HR.
  split; [exact E|]. destruct HR as [_ HR]. rewrite HR. apply lookup_insert_eq.
Defined.

Definition booted_mounts : option (MountTable (ramfs.RamFs + ramfs.RamFs)) :=
  match init_vfs ramfs.new (Some (ramfs.archive ramfs.demo_files)) None with Ret mt => Some mt | Panic => None end.
Definition booted : state (list Z) (ramfs.RamFs + ramfs.RamFs) := set_mounts demo_state booted_mounts.

Lemma packed_program_is_found_witness : exists k', ramfs_find [47; 98; 47; 105] booted = Ret (Some [1; 2; 3], k').
Proof.
  destruct (ramfs.archive_tree ramfs.demo_files ramfs.demo_files_ok ramfs.demo_files_apart) as (fs & Hfs & _); [vm_compute; reflexivity|].
  pose proof (boot_mounts (ramfs.new : ramfs.RamFs) _ fs Hfs) as Hb.
  apply (packed_program_is_found (ramfs.new : ramfs.RamFs) ramfs.demo_files [98; 47; 105] [1; 2; 3] _ booted ramfs.demo_files_ok ramfs.demo_files_apart ltac:(vm_compute; reflexivity) Hb).
  - unfold booted, booted_mounts. rewrite Hb. reflexivity.
  - reflexivity.
  - by left.
  - vm_compute. repeat (apply Forall_cons; split); [split; discriminate..|by apply Forall_nil].
  - vm_compute. reflexivity.
  - vm_compute. reflexivity.
  - vm_compute. reflexivity.
Defined.
(** A program that is rewritten in place with the same length is executed
    from its old bytes: the image cache compares mount, inode and size only. *)
Theorem rewritten_program_is_stale :
  exists k1 k2 k3, ramfs_find [47; 97] demo_state = Ret (Some [10; 20; 30], k1) /\ sys_write 0 1 3 k1 = Ret (3, k2) /\
    size k2 (from_vfs 0 1 0) = 3 /\ ramfs_find [47; 97] k2 = Ret (Some [10; 20; 30], k3) /\
    (exists mt fs, MOUNT_TABLE k2 = Some mt /\ mt_get mt 0 = Some fs /\ read fs 1 0 3 = Ok [47; 98; 47]).
Proof. do 3 eexists. split; [vm_compute; reflexivity|]. split; [vm_compute; reflexivity|]. split; [vm_compute; reflexivity|]. split; [vm_compute; reflexivity|]. eexists _, _. split; [vm_compute; reflexivity|]. split; vm_compute; reflexivity. Qed.

(** Fstat on a pipe reports the root directory of the first mount: a pipe's
    description names mount 0 and inode 0, which exist. *)
Theorem fstat_of_pipe_is_root_directory :
  let k := set_fds demo_state (set_ofds (fds demo_state) [Some (mk_ofd (new_desc (pipe.pipe_flags 0 pipe.FD_END_READ)) 2)]) in
  exists k', sys_fstat 0 11 k = Ret (0, k') /\ take 8 (drop 10 (um (fds k'))) = encode_stat (mk_statbuf 1 S_IFDIR).
Proof. eexists. split; vm_compute; reflexivity. Qed.

(** Mkdir makes directories named [.] and [..]: the new entry is listed but
    no path reaches it, since resolution gives these names another meaning. *)
Theorem mkdir_makes_dotdot :
  exists k' mt fs, vfs_mkdir [47; 46; 46] demo_state = (0, k') /\ MOUNT_TABLE k' = Some mt /\ mt_get mt 0 = Some fs /\
    de_name <$> (match readdir fs 0 with Ok es => es | Err _ => [] end) = [[97]; [46; 46]] /\ resolve_path mt [47; 46; 46] = Ok (0%nat, 0).
Proof. do 3 eexists. split; [vm_compute; reflexivity|]. split; [vm_compute; reflexivity|]. split; [vm_compute; reflexivity|]. split; vm_compute; reflexivity. Qed.
End file.
