(* ===== verification/Signal.v ===== *)
(** * Signals and capabilities ([crates/thumos/src/signal.rs], [capability.rs])

    The signal numbers and actions, the per-process signal state, the signal
    frame written to and read back from the user stack, and the capability
    set. The process side of delivery ([deliver_signal_to]) is in [Process]. *)

From S2P Require Import Prelude Machine Memguard.
From Stdlib Require Import ZArith.
Open Scope Z_scope.

(** ** Capabilities *)
Module capability.
Definition MODEM : Z := 1.
Definition RAW_NET : Z := 2.
Definition KILL : Z := 4.
Definition CRYPTO : Z := 8.
Definition RADIO : Z := 16.
Definition AUDIT : Z := 32.
Definition IPC_INIT : Z := 64.
Definition ALL : Z := 0x7F.
Definition FORK_DEFAULT : Z := Z.land ALL (not32 (Z.lor (Z.lor MODEM AUDIT) IPC_INIT)).
Definition EPERM : Z := errno 1.

Definition contains (caps cap : Z) : bool := Z.land caps cap =? cap.

(** [check(required)], the current capabilities being an argument; the denial
    message on the console is not modelled. *)
Definition check (caps required : Z) : result unit Z :=
  if Z.land caps required =? required then Ok tt else Err EPERM.
End capability.

Module signal.

(** ** The interrupted context ([process::Context]) *)

Record Context := mk_context { r : list Z; sp : Z; lr : Z; pc : Z; cpsr : Z }.

Definition context_zero : Context := mk_context (replicate 13 0) 0 0 0 0.

(** [Context::initial(entry, sp, mode)]. *)
Definition context_initial (entry stack mode : Z) : Context :=
  mk_context (replicate 13 0) stack 0 (Z.land entry (not32 1)) (Z.lor mode (wrap32 (Z.shiftl (Z.land entry 1) 5))).

(** A register file: thirteen words, four special registers. *)
Record context_ok (c : Context) : Prop := {
  ctx_len : length (r c) = 13%nat;
  ctx_r : Forall is_u32 (r c);
  ctx_sp : is_u32 (sp c);
  ctx_lr : is_u32 (lr c);
  ctx_pc : is_u32 (pc c);
  ctx_cpsr : is_u32 (cpsr c);
}.

Definition CPSR_MODE_MASK : Z := 0x1F.
Definition CPSR_MODE_USER : Z := 0x10.
Definition CPSR_USER_SETTABLE : Z :=
  Z.lor (Z.lor (Z.lor (Z.lor (Z.lor 0xF8000000 0x06000000) 0x000F0000) 0x0000FC00) 0x00000200) 0x00000020.

Definition sanitize_user_cpsr (untrusted : Z) : Z := Z.lor (Z.land untrusted CPSR_USER_SETTABLE) CPSR_MODE_USER.

Inductive FaultDisposition := KillUser | KernelHalt.

Definition fault_disposition (saved_cpsr : Z) : FaultDisposition :=
  if Z.land saved_cpsr CPSR_MODE_MASK =? CPSR_MODE_USER then KillUser else KernelHalt.

Inductive FaultKind :=
  | DataAbort (fault_addr fault_status : Z)
  | PrefetchAbort (fault_addr fault_status : Z)
  | UndefinedInstruction.

Definition fault_exit_status (kind : FaultKind) : Z :=
  match kind with
  | DataAbort _ _ | PrefetchAbort _ _ => 139
  | UndefinedInstruction => 132
  end.

(** ** Signal numbers and actions *)

Inductive Signal := Sigkill | Sigusr1 | Sigusr2 | Sigpipe | Sigterm | Sigchld.

#[export] Instance Signal_eq_dec : EqDecision Signal.
Proof. solve_decision. Defined.

(** [sig as u32]. *)
Definition signum (s : Signal) : Z :=
  match s with
  | Sigkill => 9 | Sigusr1 => 10 | Sigusr2 => 12 | Sigpipe => 13 | Sigterm => 15 | Sigchld => 17
  end.

Definition from_u32 (n : Z) : option Signal :=
  if n =? 9 then Some Sigkill
  else if n =? 10 then Some Sigusr1
  else if n =? 12 then Some Sigusr2
  else if n =? 13 then Some Sigpipe
  else if n =? 15 then Some Sigterm
  else if n =? 17 then Some Sigchld
  else None.

Inductive DefaultAction := Terminate | IgnoreSig.

Definition default_action (s : Signal) : DefaultAction :=
  match s with
  | Sigkill | Sigterm | Sigusr1 | Sigusr2 | Sigpipe => Terminate
  | Sigchld => IgnoreSig
  end.

Definition can_catch (s : Signal) : bool := match s with Sigkill => false | _ => true end.

Inductive SignalAction := Default | Ignore | Handler (ptr : Z).

Definition SIG_DFL : Z := 0.
Definition SIG_IGN : Z := 1.

Record SignalState := mk_state { handlers : list SignalAction; pending : Z }.

Definition SignalState_new : SignalState := mk_state (replicate 18 Default) 0.

Definition set_pending (st : SignalState) (s : Signal) : SignalState :=
  mk_state (handlers st) (Z.lor (pending st) (Z.shiftl 1 (signum s))).

Definition clear_pending (st : SignalState) (s : Signal) : SignalState :=
  mk_state (handlers st) (Z.land (pending st) (not32 (Z.shiftl 1 (signum s)))).

(** The scan over the bits [0u32..18]; unknown bits are skipped. *)
Fixpoint next_pending_from (mask : Z) (ns : list Z) : option Signal :=
  match ns with
  | [] => None
  | n :: ns =>
      if negb (Z.land mask (Z.shiftl 1 n) =? 0) then
        match from_u32 n with
        | Some s => Some s
        | None => next_pending_from mask ns
        end
      else next_pending_from mask ns
  end.

Definition next_pending (st : SignalState) : option Signal := next_pending_from (pending st) (seqZ 0 18).

Definition action (st : SignalState) (s : Signal) : outcome SignalAction :=
  index (handlers st) (Z.to_nat (signum s)).

Definition set_action (st : SignalState) (s : Signal) (a : SignalAction) : outcome SignalState :=
  hs ← store (handlers st) (Z.to_nat (signum s)) a; Ret (mk_state hs (pending st)).

(** ** The signal frame *)

Definition SIGNAL_FRAME_REGS : nat := 17.
Definition SIGNAL_FRAME_SIZE : nat := 68.
Definition SIGNAL_TRAMPOLINE_VA : Z := 0x7FF00000 - 4096.

Definition signal_frame_address (stack : Z) : result Z unit :=
  if Z.of_nat SIGNAL_FRAME_SIZE <=? stack then Ok (stack - Z.of_nat SIGNAL_FRAME_SIZE) else Err tt.

Definition encode_signal_frame (c : Context) : list Z :=
  bytes_of_words (r c ++ [sp c; lr c; pc c; cpsr c]).

Definition decode_signal_frame (encoded : list Z) : result Context unit :=
  let words := words_of_bytes encoded in
  match drop 13 words with
  | [s; l; p; c] => Ok (mk_context (take 13 words) s l p (sanitize_user_cpsr c))
  | _ => Err tt
  end.

Section frames.
Context {U : Type} `{!UserMemory U}.

(** [deliver]: the caller's memory, the current process's signal state and the
    trap frame. *)
Definition deliver (u : U) (st : SignalState) (frame : Context) (s : Signal) (handler : Z)
    : U * SignalState * Context * result unit unit :=
  match signal_frame_address (sp frame) with
  | Err e => (u, st, frame, Err e)
  | Ok frame_addr =>
      match um_copy_to u frame_addr (encode_signal_frame frame) with
      | (u, false) => (u, st, frame, Err tt)
      | (u, true) =>
          (u, clear_pending st s,
           mk_context (<[0%nat := signum s]> (r frame)) frame_addr SIGNAL_TRAMPOLINE_VA handler (cpsr frame),
           Ok tt)
      end
  end.

Definition sigreturn_frame (u : U) (frame : Context) : Context * result unit unit :=
  match um_copy_from u (sp frame) SIGNAL_FRAME_SIZE with
  | None => (frame, Err tt)
  | Some encoded =>
      match decode_signal_frame encoded with
      | Err e => (frame, Err e)
      | Ok restored => (restored, Ok tt)
      end
  end.
End frames.

(** ** The frame codec *)

Lemma decode_encode c :
  context_ok c ->
  decode_signal_frame (encode_signal_frame c) =
    Ok (mk_context (r c) (sp c) (lr c) (pc c) (sanitize_user_cpsr (cpsr c))).
Proof.
  intros [Hl Hr Hsp Hlr Hpc Hc]. unfold decode_signal_frame, encode_signal_frame.
  rewrite words_of_bytes_of_words.
  - rewrite drop_app_length' by done. by rewrite take_app_length' by done.
  - apply Forall_app. split; [done|]. by rewrite !Forall_cons.
Qed.

Lemma length_encode c : context_ok c -> length (encode_signal_frame c) = SIGNAL_FRAME_SIZE.
Proof.
  intros [Hl _ _ _ _ _]. unfold encode_signal_frame. rewrite length_bytes_of_words, length_app, Hl. done.
Qed.

(** Sanitizing forces User mode and clears the interrupt masks, and keeps every
    bit a process may choose. *)
Lemma sanitize_mode v : Z.land (sanitize_user_cpsr v) CPSR_MODE_MASK = CPSR_MODE_USER.
Proof.
  unfold sanitize_user_cpsr. rewrite Z.land_lor_distr_l, <- Z.land_assoc.
  change (Z.land CPSR_USER_SETTABLE CPSR_MODE_MASK) with 0. by rewrite Z.land_0_r.
Qed.

Lemma sanitize_masks v : Z.land (sanitize_user_cpsr v) 0x1C0 = 0.
Proof.
  unfold sanitize_user_cpsr. rewrite Z.land_lor_distr_l, <- Z.land_assoc.
  change (Z.land CPSR_USER_SETTABLE 0x1C0) with 0. by rewrite Z.land_0_r.
Qed.

Lemma sanitize_idemp v : sanitize_user_cpsr (sanitize_user_cpsr v) = sanitize_user_cpsr v.
Proof.
  unfold sanitize_user_cpsr. rewrite Z.land_lor_distr_l, <- Z.land_assoc, Z.land_diag.
  change (Z.land CPSR_MODE_USER CPSR_USER_SETTABLE) with 0. by rewrite Z.lor_0_r.
Qed.

(** ** Pending signals *)

Lemma land_bit_testbit m n : 0 <= n -> negb (Z.land m (Z.shiftl 1 n) =? 0) = Z.testbit m n.
Proof.
  intros Hn. rewrite Z.shiftl_1_l. destruct (Z.testbit m n) eqn:E.
  - apply negb_true_iff, Z.eqb_neq. intros H. apply (f_equal (fun z => Z.testbit z n)) in H.
    rewrite Z.land_spec, Z.pow2_bits_true, E, Z.testbit_0_l in H by done. done.
  - apply negb_false_iff, Z.eqb_eq. apply Z.bits_inj'. intros i Hi.
    rewrite Z.land_spec, Z.testbit_0_l, Z.pow2_bits_eqb by done.
    destruct (Z.eqb_spec n i) as [->|]; [by rewrite E|apply andb_false_r].
Qed.

Lemma from_u32_signum s : from_u32 (signum s) = Some s.
Proof. by destruct s. Qed.

Lemma from_u32_Some n s : from_u32 n = Some s -> n = signum s.
Proof. unfold from_u32. repeat (case_match; [intros [= <-]; by bool_hyps|]). done. Qed.

Lemma signum_inj s s' : signum s = signum s' -> s = s'.
Proof. by destruct s, s'. Qed.

Lemma signum_range s : 0 <= signum s < 18.
Proof. destruct s; cbn; lia. Qed.

Lemma next_pending_from_spec mask a n :
  0 <= a ->
  match next_pending_from mask (seqZ a n) with
  | Some s => Z.testbit mask (signum s) = true /\ a <= signum s /\
      forall s', a <= signum s' -> Z.testbit mask (signum s') = true -> signum s <= signum s'
  | None => forall s', a <= signum s' < a + n -> Z.testbit mask (signum s') = false
  end.
Proof.
  intros Ha. destruct (Z.le_ge_cases n 0) as [Hn|Hn].
  { rewrite seqZ_nil by done. cbn. lia. }
  revert a Ha. pattern n. apply natlike_ind; [|clear n Hn; intros n Hn IH|done].
  { intros a Ha. rewrite seqZ_nil by lia. cbn. lia. }
  intros a Ha. rewrite seqZ_cons by lia. replace (Z.pred (Z.succ n)) with n by lia.
  cbn [next_pending_from]. rewrite land_bit_testbit by done. specialize (IH (Z.succ a) ltac:(lia)).
  assert (match next_pending_from mask (seqZ (Z.succ a) n) with
    | Some s => Z.testbit mask (signum s) = true /\ a <= signum s /\
        ((forall s', signum s' = a -> Z.testbit mask a = false) ->
         forall s', a <= signum s' -> Z.testbit mask (signum s') = true -> signum s <= signum s')
    | None => (forall s', signum s' = a -> Z.testbit mask a = false) ->
        forall s', a <= signum s' < a + Z.succ n -> Z.testbit mask (signum s') = false
    end) as Hskip.
  { destruct (next_pending_from _ _) as [s|].
    - destruct IH as (? & ? & Hmin). split_and!; [done|lia|]. intros Hno s' Hs' Ht.
      destruct (decide (signum s' = a)) as [He|]; [|apply Hmin; [lia|done]].
      pose proof (Hno s' He). congruence.
    - intros Hno s' Hs'. destruct (decide (signum s' = a)) as [He|]; [|apply IH; lia].
      rewrite He. by apply (Hno s'). }
  destruct (Z.testbit mask a) eqn:E; [destruct (from_u32 a) as [s|] eqn:Ef|].
  - apply from_u32_Some in Ef. subst a. done.
  - assert (forall s', signum s' <> a) as Hno by (intros s' <-; by rewrite from_u32_signum in Ef).
    destruct (next_pending_from _ _); [destruct Hskip as (? & ? & Hm); split_and!; try done|apply Hskip];
      [apply Hm|]; intros s' He; by destruct (Hno s').
  - destruct (next_pending_from _ _); [destruct Hskip as (? & ? & Hm); split_and!; try done; by apply Hm|by apply Hskip].
Qed.

Lemma clear_pending_bit st s s' :
  is_u32 (pending st) ->
  Z.testbit (pending (clear_pending st s)) (signum s') =
    (Z.testbit (pending st) (signum s') && negb (bool_decide (s = s')))%bool.
Proof.
  intros Hp. pose proof (signum_range s) as Hs. pose proof (signum_range s') as Hs'.
  cbn [clear_pending pending]. rewrite Z.land_spec, not32_testbit by lia. f_equal. f_equal.
  rewrite Z.shiftl_1_l, Z.pow2_bits_eqb by lia. case_bool_decide as He.
  - subst. apply Z.eqb_refl.
  - apply Z.eqb_neq. intros ?%signum_inj. done.
Qed.

(** ** The claims *)

(** C25: delivering a signal runs the handler on a frame below the interrupted
    stack, with the signal number in r0, and the matching sigreturn resumes
    the interrupted context register for register, its CPSR restricted to what
    a process may choose. *)
Theorem deliver_sigreturn_roundtrip c st ctx s h :
  memguard.user_vas c = Some (memguard.ttbr0 c) -> context_ok ctx -> 68 <= sp ctx ->
  let a := sp ctx - 68 in
  memguard.validate_user_range c a 68 memguard.Write = true ->
  memguard.apart_from_tables c a 68 (memguard.phys_of c memguard.Write) ->
  (forall v v', memguard.in_range a 68 v -> memguard.in_range a 68 v' ->
    memguard.phys_of c memguard.Write v = memguard.phys_of c memguard.Write v' -> v = v') ->
  exists c' f, deliver c st ctx s h = (c', clear_pending st s, f, Ok tt) /\
    pc f = h /\ r f !! 0%nat = Some (signum s) /\ sp f = a /\ lr f = SIGNAL_TRAMPOLINE_VA /\
    sigreturn_frame c' f =
      (mk_context (r ctx) (sp ctx) (lr ctx) (pc ctx) (sanitize_user_cpsr (cpsr ctx)), Ok tt).
Proof.
  intros Hv Hok Hsp a Hval Hap Hinj. pose proof (length_encode ctx Hok) as Hlen.
  assert (is_u32 a) as Ha by (destruct Hok as [_ _ [??] _ _ _]; unfold is_u32, a in *; lia).
  destruct (memguard.copy_back_ok c a (encode_signal_frame ctx)) as (c' & Hto & Hfrom & _);
    rewrite ?Hlen; try done.
  assert (signal_frame_address (sp ctx) = Ok a) as Haddr.
  { unfold signal_frame_address. change (Z.of_nat SIGNAL_FRAME_SIZE) with 68.
    by rewrite (proj2 (Z.leb_le 68 (sp ctx)) Hsp). }
  unfold deliver. rewrite Haddr. cbn [um_copy_to memguard.memguard_user_memory]. rewrite Hto. cbn [is_ok].
  eexists c', _. split; [done|]. cbn [pc r sp lr]. split_and!; try done.
  - apply list_lookup_insert_eq. rewrite (ctx_len _ Hok). lia.
  - unfold sigreturn_frame. cbn [um_copy_from memguard.memguard_user_memory sp]. rewrite Hlen in Hfrom.
    by rewrite Hfrom, decode_encode.
Qed.

(** C26: whatever bytes a process puts on its stack, sigreturn resumes it in
    User mode with interrupts unmasked, so that a later fault kills only it. *)
Theorem sigreturn_never_escalates {U} `{!UserMemory U} (u : U) frame f :
  sigreturn_frame u frame = (f, Ok tt) ->
  fault_disposition (cpsr f) = KillUser /\ Z.land (cpsr f) 0x1C0 = 0.
Proof.
  unfold sigreturn_frame, decode_signal_frame. destruct (um_copy_from _ _ _) as [bs|]; [|done].
  destruct (drop 13 _) as [|s [|l [|p [|w [|]]]]]; try done. intros [= <-]. cbn [cpsr].
  unfold fault_disposition. rewrite sanitize_mode, sanitize_masks. done.
Qed.

(** [next_pending] selects the lowest pending signal, and clearing that
    signal at dispatch removes it and nothing else: each raise is delivered
    once and no other signal is lost. *)
Theorem pending_delivered_in_order st :
  is_u32 (pending st) ->
  match next_pending st with
  | Some s =>
      Z.testbit (pending st) (signum s) = true /\
      (forall s', Z.testbit (pending st) (signum s') = true -> signum s <= signum s') /\
      (forall s', Z.testbit (pending (clear_pending st s)) (signum s') =
        (Z.testbit (pending st) (signum s') && negb (bool_decide (s = s')))%bool)
  | None => forall s', Z.testbit (pending st) (signum s') = false
  end.
Proof.
  intros Hp. unfold next_pending. pose proof (next_pending_from_spec (pending st) 0 18 ltac:(lia)) as H.
  destruct (next_pending_from _ _) as [s|].
  - destruct H as (Hs & _ & Hmin). split_and!; [done| |intros; by apply clear_pending_bit].
    intros s' Ht. apply Hmin; [apply signum_range|done].
  - intros s'. apply H. apply signum_range.
Qed.

(** ** Witnesses *)

(** An interrupted context whose stack is in the page of [memguard.caller]. *)
Definition interrupted : Context := mk_context (seqZ 100 13) 0x10003100 7 0x8000 0x60000010.

Lemma interrupted_ok : context_ok interrupted.
Proof. constructor; try done. by repeat constructor. Qed.

Lemma deliver_sigreturn_roundtrip_witness :
  exists c' f, deliver memguard.caller SignalState_new interrupted Sigusr1 0x9000 =
      (c', clear_pending SignalState_new Sigusr1, f, Ok tt) /\
    sigreturn_frame c' f = (interrupted, Ok tt).
Proof.
  destruct (deliver_sigreturn_roundtrip memguard.caller SignalState_new interrupted Sigusr1 0x9000)
    as (c' & f & E & _ & _ & _ & _ & Hr).
  - reflexivity.
  - exact interrupted_ok.
  - discriminate.
  - vm_compute. reflexivity.
  - apply memguard.caller_apart; vm_compute; congruence.
  - apply memguard.caller_inj; vm_compute; congruence.
  - exists c', f. split; [exact E|exact Hr].
Defined.

Lemma sigreturn_never_escalates_witness :
  fault_disposition (cpsr (sigreturn_frame memguard.caller interrupted).1) = KillUser.
Proof.
  assert ((sigreturn_frame memguard.caller interrupted).2 = Ok tt) as E by (vm_compute; reflexivity).
  destruct (sigreturn_frame memguard.caller interrupted) as [f x] eqn:Es. cbn [fst snd] in *. subst x.
  exact (proj1 (sigreturn_never_escalates memguard.caller interrupted f Es)).
Defined.

Lemma pending_delivered_in_order_witness :
  next_pending (set_pending (set_pending SignalState_new Sigterm) Sigusr1) = Some Sigusr1 /\
  Z.testbit (pending (clear_pending (set_pending (set_pending SignalState_new Sigterm) Sigusr1) Sigusr1)) 15 = true.
Proof.
  split; [vm_compute; reflexivity|].
  destruct (pending_delivered_in_order (set_pending (set_pending SignalState_new Sigterm) Sigusr1)) as (_ & _ & H).
  - split; vm_compute; congruence.
  - exact (H Sigterm).
Defined.

End signal.
