(* ===== verification/Process.v ===== *)
(** * Processes, scheduling, signals and futexes
    ([crates/thumos/src/process.rs], [futex.rs], the syscalls of [signal.rs])

    The process table, the round-robin scheduler, the trap-frame switch, the
    parent/child protocol, signal delivery, the per-process memory records and
    the futex wait queues. The descriptor table of a process lives in the
    descriptor layer, at the index of the process: [DescriptorLayer] is what
    the death paths need of it, and [Fd] provides it. The calls to
    [supervisor::clear_pid] are recorded in [cleared]. The current working
    directory and the teardown of a dying process's pages are not modelled. *)

From S2P Require Import Prelude Machine Memguard Pipe Fd Signal.
Import signal.
Open Scope nat_scope.

(** ** What the death paths need of the descriptor layer *)

Class DescriptorLayer (D : Type) := {
  dl_close_all : nat -> D -> outcome D;
  dl_ok : D -> Prop;
  dl_total : forall p d, dl_ok d -> exists d', dl_close_all p d = Ret d' /\ dl_ok d';
}.

(** The descriptor tables of [Fd] provide it. *)
#[export] Program Instance fd_descriptor_layer (U : Type) `{!UserMemory U} : DescriptorLayer (fd.kernel U) := {|
  dl_close_all := fd.on_process fd.close_all;
  dl_ok := fd.balanced;
|}.
Next Obligation.
  intros U ? p d Hd. unfold fd.on_process. destruct (fd.tables d !! p) as [[t|]|] eqn:Ht; [|by eauto..].
  destruct (fd.close_slots_ok (fun _ => true) p (seq 0 fd.MAX_FDS) d t Hd Ht) as (k & _ & E & Hk & _).
  by exists k.
Qed.

Module process.

Definition MAX_PROCS : nat := 16.
Definition MAX_MAPPINGS : nat := 32.
Definition MAX_FUTEX_WAITERS : nat := 32.
Definition DEFAULT_HEAP_BREAK : Z := 0x10000000.
Definition EPERM : Z := errno 1.
Definition ESRCH : Z := errno 3.
Definition EAGAIN : Z := errno 11.
Definition ENOMEM : Z := errno 12.
Definition EFAULT : Z := errno 14.
Definition EINVAL : Z := errno 22.
Definition FUTEX_WAIT : Z := 0.
Definition FUTEX_WAKE : Z := 1.

Inductive State := Free | Ready | Running | Blocked | Sleeping | Dead.

#[export] Instance State_eq_dec : EqDecision State.
Proof. solve_decision. Defined.

Record VmMapping := mk_mapping { start : Z; pages : Z; prot : Z }.

Record Process := mk_process {
  pid : nat;
  state : State;
  ctx : Context;
  parent : option nat;
  exit_status : Z;
  page_table_phys : Z;
  stack_base : Z;
  stack_pages : Z;
  heap_break : Z;
  mappings : list (option VmMapping);
  signal_state : SignalState;
  uid : Z;
  wake_tick : Z;
  capabilities : Z;
}.

Definition with_state (p : Process) (s : State) : Process :=
  mk_process (pid p) s (ctx p) (parent p) (exit_status p) (page_table_phys p) (stack_base p) (stack_pages p)
    (heap_break p) (mappings p) (signal_state p) (uid p) (wake_tick p) (capabilities p).
Definition with_ctx (p : Process) (c : Context) : Process :=
  mk_process (pid p) (state p) c (parent p) (exit_status p) (page_table_phys p) (stack_base p) (stack_pages p)
    (heap_break p) (mappings p) (signal_state p) (uid p) (wake_tick p) (capabilities p).
Definition with_signals (p : Process) (s : SignalState) : Process :=
  mk_process (pid p) (state p) (ctx p) (parent p) (exit_status p) (page_table_phys p) (stack_base p) (stack_pages p)
    (heap_break p) (mappings p) s (uid p) (wake_tick p) (capabilities p).
Definition with_wake (p : Process) (s : State) (w : Z) : Process :=
  mk_process (pid p) s (ctx p) (parent p) (exit_status p) (page_table_phys p) (stack_base p) (stack_pages p)
    (heap_break p) (mappings p) (signal_state p) (uid p) w (capabilities p).
Definition with_break (p : Process) (b : Z) : Process :=
  mk_process (pid p) (state p) (ctx p) (parent p) (exit_status p) (page_table_phys p) (stack_base p) (stack_pages p)
    b (mappings p) (signal_state p) (uid p) (wake_tick p) (capabilities p).
Definition with_mappings (p : Process) (m : list (option VmMapping)) : Process :=
  mk_process (pid p) (state p) (ctx p) (parent p) (exit_status p) (page_table_phys p) (stack_base p) (stack_pages p)
    (heap_break p) m (signal_state p) (uid p) (wake_tick p) (capabilities p).

Record FutexWaiter := mk_waiter { addr : Z; address_space : Z; wpid : nat }.

Section kernel.
Context {D : Type} `{!DescriptorLayer D}.

Record kernel := mk_kernel {
  PROCS : list (option Process);
  CURRENT : nat;
  ACTIVE_FRAME : option Context;
  FRAME_SWITCHED : bool;
  TTBR0 : Z;
  FUTEX_WAITERS : list (option FutexWaiter);
  fds : D;
  cleared : list nat;
}.

Definition set_procs (k : kernel) ps :=
  mk_kernel ps (CURRENT k) (ACTIVE_FRAME k) (FRAME_SWITCHED k) (TTBR0 k) (FUTEX_WAITERS k) (fds k) (cleared k).
Definition set_frame (k : kernel) f sw :=
  mk_kernel (PROCS k) (CURRENT k) f sw (TTBR0 k) (FUTEX_WAITERS k) (fds k) (cleared k).
Definition set_waiters (k : kernel) ws :=
  mk_kernel (PROCS k) (CURRENT k) (ACTIVE_FRAME k) (FRAME_SWITCHED k) (TTBR0 k) ws (fds k) (cleared k).
Definition set_fds (k : kernel) d :=
  mk_kernel (PROCS k) (CURRENT k) (ACTIVE_FRAME k) (FRAME_SWITCHED k) (TTBR0 k) (FUTEX_WAITERS k) d (cleared k).
Definition add_cleared (k : kernel) p :=
  mk_kernel (PROCS k) (CURRENT k) (ACTIVE_FRAME k) (FRAME_SWITCHED k) (TTBR0 k) (FUTEX_WAITERS k) (fds k)
    (cleared k ++ [p]).

(** The slot of a process; [procs[i]] in the source, with [i] in range. *)
Definition proc (k : kernel) (i : nat) : option Process := fd.flatten (PROCS k !! i).

Definition put (k : kernel) (i : nat) (p : option Process) : kernel := set_procs k (<[i := p]> (PROCS k)).

(** [if let Some(ref mut p) = procs[i] { *p = f(p) }]. *)
Definition modify (k : kernel) (i : nat) (f : Process -> Process) : kernel :=
  match proc k i with Some p => put k i (Some (f p)) | None => k end.

(** ** The scheduler *)

(** The first pass: sleepers whose tick has come are made ready. *)
Definition wake_sleeper (now : Z) (slot : option Process) : option Process :=
  match slot with
  | Some p =>
      if decide (state p = Sleeping) then
        (if (wake_tick p <=? now)%Z then Some (with_state p Ready) else Some p)
      else Some p
  | None => None
  end.

(** The second pass over the offsets [1..MAX_PROCS]. *)
Fixpoint pick (ps : list (option Process)) (cur : nat) (offsets : list nat) : option nat :=
  match offsets with
  | [] => None
  | o :: offsets =>
      match fd.flatten (ps !! ((cur + o) mod MAX_PROCS)) with
      | Some p => if decide (state p = Ready) then Some (pid p) else pick ps cur offsets
      | None => pick ps cur offsets
      end
  end.

Definition schedule (now : Z) (k : kernel) : nat * kernel :=
  let ps := wake_sleeper now <$> PROCS k in
  let k := set_procs k ps in
  (default (CURRENT k) (pick ps (CURRENT k) (seq 1 (MAX_PROCS - 1))), k).

(** ** Traps and the context switch *)

Definition trap_enter (frame : Context) (k : kernel) : kernel := set_frame k (Some frame) false.
Definition trap_leave (k : kernel) : kernel := set_frame k None (FRAME_SWITCHED k).
Definition trap_switched (k : kernel) : bool := FRAME_SWITCHED k.

Definition set_trap_return (val : Z) (k : kernel) : kernel :=
  match ACTIVE_FRAME k with
  | Some f => set_frame k (Some (mk_context (<[0 := val]> (r f)) (sp f) (lr f) (pc f) (cpsr f))) (FRAME_SWITCHED k)
  | None => k
  end.

(** Saving the interrupted register file into the PCB of the current process. *)
Definition save_current (k : kernel) : kernel :=
  modify k (CURRENT k) (fun p =>
    let p := match ACTIVE_FRAME k with Some f => with_ctx p f | None => p end in
    if decide (state p = Running) then with_state p Ready else p).

Definition switch_to (next_pid : nat) (k : kernel) : kernel :=
  if decide (CURRENT k = next_pid) then k else
  let k := save_current k in
  match proc k next_pid with
  | None => k
  | Some next_proc =>
      let k := put k next_pid (Some (with_state next_proc Running)) in
      let ttbr0 := if (page_table_phys next_proc =? 0)%Z then TTBR0 k else page_table_phys next_proc in
      match ACTIVE_FRAME k with
      | Some _ =>
          mk_kernel (PROCS k) next_pid (Some (ctx next_proc)) true ttbr0 (FUTEX_WAITERS k) (fds k) (cleared k)
      | None =>
          mk_kernel (PROCS k) next_pid None (FRAME_SWITCHED k) ttbr0 (FUTEX_WAITERS k) (fds k) (cleared k)
      end
  end.

(** ** Parents and children *)

Definition waitpid (child : nat) (k : kernel) : option Z * kernel :=
  if decide (MAX_PROCS <= child) then (None, k) else
  match proc k child with
  | None => (None, k)
  | Some c =>
      if decide (parent c = Some (CURRENT k)) then
        (if decide (state c = Dead) then (Some (exit_status c), put k child None) else (None, k))
      else (None, k)
  end.

Fixpoint reap_loop (pids : list nat) (k : kernel) : nat * kernel :=
  match pids with
  | [] => (0, k)
  | p :: pids =>
      let '(r, k) := waitpid p k in
      let '(n, k) := reap_loop pids k in
      (match r with Some _ => S n | None => n end, k)
  end.

Definition reap_dead_children (k : kernel) : nat * kernel := reap_loop (seq 0 MAX_PROCS) k.

(** ** Accessors of the current process *)

Definition current_page_table (k : kernel) : Z :=
  match proc k (CURRENT k) with Some p => page_table_phys p | None => 0%Z end.

(** [table_base] is [mmu::table_base()], the address of the kernel L1. *)
Definition current_user_page_table (table_base : Z) (k : kernel) : option Z :=
  let pt := current_page_table k in
  if ((CURRENT k =? 0)%nat || (pt =? 0)%Z || (pt =? table_base)%Z) then None else Some pt.

Definition current_heap_break (k : kernel) : Z :=
  match proc k (CURRENT k) with Some p => heap_break p | None => DEFAULT_HEAP_BREAK end.
Definition set_heap_break (b : Z) (k : kernel) : kernel := modify k (CURRENT k) (fun p => with_break p b).

Definition add_mapping (m : VmMapping) (k : kernel) : option nat * kernel :=
  match proc k (CURRENT k) with
  | None => (None, k)
  | Some p =>
      match fd.first_free (mappings p) with
      | None => (None, k)
      | Some slot => (Some slot, put k (CURRENT k) (Some (with_mappings p (<[slot := Some m]> (mappings p)))))
      end
  end.

Definition starts_at (a : Z) (o : option VmMapping) : bool :=
  match o with Some m => (start m =? a)%Z | None => false end.

Definition remove_mapping (a : Z) (k : kernel) : option VmMapping * kernel :=
  match proc k (CURRENT k) with
  | None => (None, k)
  | Some p =>
      match list_find (fun o => starts_at a o = true) (mappings p) with
      | Some (i, o) => (o, put k (CURRENT k) (Some (with_mappings p (<[i := None]> (mappings p)))))
      | None => (None, k)
      end
  end.

Definition find_mapping (a : Z) (k : kernel) : option VmMapping :=
  match proc k (CURRENT k) with
  | None => None
  | Some p => fd.flatten (snd <$> list_find (fun o => starts_at a o = true) (mappings p))
  end.

Definition update_mapping_prot (a new_prot : Z) (k : kernel) : bool * kernel :=
  match proc k (CURRENT k) with
  | None => (false, k)
  | Some p =>
      match list_find (fun o => starts_at a o = true) (mappings p) with
      | Some (i, Some m) =>
          (true, put k (CURRENT k)
             (Some (with_mappings p (<[i := Some (mk_mapping (start m) (pages m) new_prot)]> (mappings p)))))
      | _ => (false, k)
      end
  end.

Definition current_mappings (k : kernel) : list (option VmMapping) :=
  match proc k (CURRENT k) with Some p => mappings p | None => replicate MAX_MAPPINGS None end.

Definition current_uid (k : kernel) : option Z := uid <$> proc k (CURRENT k).

Definition current_capabilities (k : kernel) : Z :=
  match proc k (CURRENT k) with Some p => capabilities p | None => capability.FORK_DEFAULT end.

Definition set_wake_tick (w : Z) (k : kernel) : kernel := modify k (CURRENT k) (fun p => with_wake p Sleeping w).
Definition clear_wake_tick (k : kernel) : kernel := modify k (CURRENT k) (fun p => with_wake p Running 0).

Definition get_state (i : nat) (k : kernel) : option State :=
  if decide (MAX_PROCS <= i) then None else state <$> proc k i.
Definition set_state (i : nat) (s : State) (k : kernel) : kernel :=
  if decide (MAX_PROCS <= i) then k else modify k i (fun p => with_state p s).

(** ** Futex wait queues *)

Definition free_waiters_for_pid (p : nat) (k : kernel) : kernel :=
  set_waiters k ((fun slot => match slot with
    | Some w => if decide (wpid w = p) then None else slot
    | None => None
    end) <$> FUTEX_WAITERS k).

(** The loop of [wake_waiters_for_address_space] from slot [i] on. *)
Fixpoint wake_loop (a space : Z) (max_wake : Z) (slots : list nat) (woken : Z) (k : kernel) : Z * kernel :=
  match slots with
  | [] => (woken, k)
  | i :: slots =>
      if (max_wake <=? woken)%Z then (woken, k) else
      match fd.flatten (FUTEX_WAITERS k !! i) with
      | Some w =>
          if ((addr w =? a) && (address_space w =? space))%Z then
            let k := set_waiters k (<[i := None]> (FUTEX_WAITERS k)) in
            wake_loop a space max_wake slots (wrap32 (woken + 1)) (set_state (wpid w) Ready k)
          else wake_loop a space max_wake slots woken k
      | None => wake_loop a space max_wake slots woken k
      end
  end.

Definition wake_waiters_for_address_space (a max_wake space : Z) (k : kernel) : Z * kernel :=
  wake_loop a space max_wake (seq 0 MAX_FUTEX_WAITERS) 0 k.

Definition sys_futex_wake (a max_wake : Z) (k : kernel) : Z * kernel :=
  if (a =? 0)%Z then (0%Z, k) else wake_waiters_for_address_space a max_wake (current_page_table k) k.

(** [sys_futex_wait] of the target build; [u] is the caller's memory and [now]
    the tick count the scheduler reads. *)
Definition sys_futex_wait {U} `{!UserMemory U} (u : U) (now a val : Z) (k : kernel) : Z * kernel :=
  match um_copy_from u a 4 with
  | None => (EFAULT, k)
  | Some encoded =>
      match words_of_bytes encoded with
      | [current_val] =>
          if negb (current_val =? val)%Z then (EAGAIN, k) else
          match fd.first_free (FUTEX_WAITERS k) with
          | None => (ENOMEM, k)
          | Some slot =>
              let w := mk_waiter a (current_page_table k) (CURRENT k) in
              let k := set_waiters k (<[slot := Some w]> (FUTEX_WAITERS k)) in
              let k := set_state (CURRENT k) Blocked k in
              let '(next, k) := schedule now k in
              if decide (next = CURRENT k) then (0%Z, k)
              else (0%Z, switch_to next (set_trap_return 0 k))
          end
      | _ => (EFAULT, k)
      end
  end.

Definition sys_futex {U} `{!UserMemory U} (u : U) (now a op val : Z) (k : kernel) : Z * kernel :=
  if (op =? FUTEX_WAIT)%Z then sys_futex_wait u now a val k
  else if (op =? FUTEX_WAKE)%Z then sys_futex_wake a val k
  else (EINVAL, k).

(** ** Signals *)

Definition set_signal_action (s : Signal) (a : SignalAction) (k : kernel) : outcome kernel :=
  match proc k (CURRENT k) with
  | None => Ret k
  | Some p => st ← set_action (signal_state p) s a; Ret (put k (CURRENT k) (Some (with_signals p st)))
  end.

Definition get_signal_action (s : Signal) (k : kernel) : outcome SignalAction :=
  match proc k (CURRENT k) with
  | None => Ret Default
  | Some p => action (signal_state p) s
  end.

(** The death of process [i] by a signal: the table entry is marked, its
    descriptors closed, its waiters and its supervised claim dropped. *)
Definition die (i : nat) (p : Process) (k : kernel) : outcome kernel :=
  let k := put k i (Some (with_state p Dead)) in
  d ← dl_close_all i (fds k);
  Ret (add_cleared (free_waiters_for_pid i (set_fds k d)) i).

Definition deliver_signal_to (i : nat) (s : Signal) (k : kernel) : outcome (Z * kernel) :=
  if decide (i = 0) then Ret (EPERM, k) else
  if decide (MAX_PROCS <= i) then Ret (ESRCH, k) else
  match proc k i with
  | None => Ret (ESRCH, k)
  | Some p =>
      if decide (state p = Dead) then Ret (ESRCH, k) else
      if decide (s = Sigkill) then k ← die i p k; Ret (0%Z, k) else
      act ← action (signal_state p) s;
      match act with
      | Handler _ => Ret (0%Z, put k i (Some (with_signals p (set_pending (signal_state p) s))))
      | Ignore => Ret (0%Z, k)
      | Default =>
          match default_action s with
          | Terminate => k ← die i p k; Ret (0%Z, k)
          | IgnoreSig => Ret (0%Z, k)
          end
      end
  end.

Definition reset_signal_state (k : kernel) : kernel := modify k (CURRENT k) (fun p => with_signals p SignalState_new).

Definition clear_any_pending (k : kernel) : kernel :=
  modify k (CURRENT k) (fun p =>
    match next_pending (signal_state p) with
    | Some s => with_signals p (clear_pending (signal_state p) s)
    | None => p
    end).

Definition clear_pending_for_current (s : Signal) (k : kernel) : kernel :=
  modify k (CURRENT k) (fun p => with_signals p (clear_pending (signal_state p) s)).

Definition check_pending_signal (k : kernel) : outcome (option (Signal * Z)) :=
  match proc k (CURRENT k) with
  | None => Ret None
  | Some p =>
      match next_pending (signal_state p) with
      | None => Ret None
      | Some s =>
          act ← action (signal_state p) s;
          Ret (match act with Handler a => Some (s, a) | _ => None end)
      end
  end.

Definition get_pending_mask (i : nat) (k : kernel) : Z :=
  if decide (MAX_PROCS <= i) then 0%Z else match proc k i with Some p => pending (signal_state p) | None => 0%Z end.

Definition sys_sigaction (signo handler_ptr : Z) (k : kernel) : outcome (Z * kernel) :=
  match from_u32 signo with
  | None => Ret (EINVAL, k)
  | Some s =>
      if negb (can_catch s) && negb (handler_ptr =? SIG_DFL)%Z then Ret (EPERM, k) else
      let a := if (handler_ptr =? SIG_DFL)%Z then Default
               else if (handler_ptr =? SIG_IGN)%Z then Ignore else Handler handler_ptr in
      k ← set_signal_action s a k; Ret (0%Z, k)
  end.

Definition sys_kill (target signo : Z) (k : kernel) : outcome (Z * kernel) :=
  match from_u32 signo with
  | None => Ret (EINVAL, k)
  | Some s =>
      if (256 <=? target)%Z then Ret (ESRCH, k) else
      let pid8 := Z.to_nat target in
      if decide (pid8 = 0) then Ret (EPERM, k) else
      if decide (pid8 = CURRENT k) then deliver_signal_to pid8 s k else
      match capability.check (current_capabilities k) capability.KILL with
      | Err e => Ret (e, k)
      | Ok _ => deliver_signal_to pid8 s k
      end
  end.
(** ** Giving up the processor *)

Definition U64_MAX : Z := 2 ^ 64 - 1.
Definition saturating_add64 (a b : Z) : Z := Z.min U64_MAX (a + b).
Definition saturating_mul64 (a b : Z) : Z := Z.min U64_MAX (a * b).
Definition TICK_MS : Z := 10.

(** The scheduler round of the timer interrupt, scheduling being enabled. *)
Definition timer_tick (now : Z) (k : kernel) : kernel :=
  let '(next, k) := schedule now k in
  if decide (next = CURRENT k) then k else switch_to next k.

(** [Syscall::Yield]. *)
Definition sys_yield (now : Z) (k : kernel) : Z * kernel :=
  let '(next, k) := schedule now k in
  if decide (next = CURRENT k) then (0%Z, k) else (0%Z, switch_to next (set_trap_return 0 k)).

(** The common end of [Syscall::Sleep] and [sys_nanosleep]. *)
Definition sleep_until (now wake : Z) (k : kernel) : Z * kernel :=
  let k := set_wake_tick wake k in
  let '(next, k) := schedule now k in
  if decide (next = CURRENT k) then (0%Z, clear_wake_tick k)
  else (0%Z, switch_to next (set_trap_return 0 k)).

(** [Syscall::Sleep]. *)
Definition sys_sleep (now ms : Z) (k : kernel) : Z * kernel :=
  let ticks_needed := (saturating_add64 ms (TICK_MS - 1) / TICK_MS)%Z in
  sleep_until now (saturating_add64 now ticks_needed) k.

Definition nanosleep_ticks (req_secs req_nanos : Z) : Z :=
  let total_ms := saturating_add64 (saturating_mul64 req_secs 1000) (req_nanos / 1000000) in
  let sub_tick_ns := (req_nanos mod (TICK_MS * 1000000))%Z in
  (total_ms / TICK_MS + if ((0 <? sub_tick_ns) || negb (total_ms mod TICK_MS =? 0))%Z then 1 else 0)%Z.

Definition sys_nanosleep {U} `{!UserMemory U} (u : U) (now ts_ptr : Z) (k : kernel) : Z * kernel :=
  match um_copy_from u ts_ptr 8 with
  | None => (EFAULT, k)
  | Some encoded =>
      match words_of_bytes encoded with
      | [req_secs; req_nanos] =>
          if (1000000000 <=? req_nanos)%Z then (EINVAL, k)
          else sleep_until now (saturating_add64 now (nanosleep_ticks req_secs req_nanos)) k
      | _ => (EFAULT, k)
      end
  end.

(** [Syscall::Waitpid]; an exit status is an [i32]. *)
Definition sys_waitpid (arg0 : Z) (k : kernel) : Z * kernel :=
  if (256 <=? arg0)%Z then (EINVAL, k) else
  match waitpid (Z.to_nat arg0) k with
  | (Some status, k) => (if (status <? 0)%Z then EINVAL else status, k)
  | (None, k) => ((2 ^ 32 - 1)%Z, k)
  end.

(** The arms of [dispatch] that act on the process table; [None] for the calls
    of the other components. *)
Definition dispatch {U} `{!UserMemory U} (u : U) (now num arg0 arg1 arg2 : Z) (k : kernel)
    : option (outcome (Z * kernel)) :=
  if (num =? 2)%Z then Some (Ret (sys_yield now k))
  else if (num =? 3)%Z then Some (Ret (Z.of_nat (CURRENT k), k))
  else if (num =? 7)%Z then Some (Ret (sys_sleep now arg0 k))
  else if (num =? 12)%Z then Some (Ret (sys_waitpid arg0 k))
  else if (num =? 13)%Z then Some (sys_kill arg0 arg1 k)
  else if (num =? 14)%Z then Some (Ret (match current_uid k with Some i => i | None => ESRCH end, k))
  else if (num =? 51)%Z then Some (Ret (sys_futex u now arg0 arg1 arg2 k))
  else if (num =? 71)%Z then Some (Ret (sys_nanosleep u now arg0 k))
  else if (num =? 80)%Z then Some (sys_sigaction arg0 arg1 k)
  else None.

Definition SIGRETURN_NUM : Z := 81.

(** A register of the trap frame, and writing the return value into it. *)
Definition reg (f : Context) (i : nat) : Z := nth i (r f) 0%Z.
Definition with_r0 (f : Context) (v : Z) : Context := mk_context (<[0 := v]> (r f)) (sp f) (lr f) (pc f) (cpsr f).

(** The SVC handler; the frame it hands back is what the processor resumes. *)
Definition svc_handler {U} `{!UserMemory U} (u : U) (now : Z) (frame : Context) (k : kernel)
    : option (outcome (Context * kernel)) :=
  let k := trap_enter frame k in
  if (reg frame 7 =? SIGRETURN_NUM)%Z then
    let '(f, res) := sigreturn_frame u frame in
    Some (Ret (match res with Ok _ => f | Err _ => with_r0 f EFAULT end, trap_leave k))
  else
    match dispatch u now (reg frame 7) (reg frame 0) (reg frame 1) (reg frame 2) k with
    | None => None
    | Some call =>
        Some ('(ret, k) ← call;
              let f := default frame (ACTIVE_FRAME k) in
              Ret (if trap_switched k then f else with_r0 f ret, trap_leave k))
    end.

(** The timer interrupt: the scheduler round, then the delivery of a handled
    signal into the frame about to be resumed. A stack that cannot hold the
    signal frame is answered with the fault to kill the process with, which
    [fault_exit_current] takes over. *)
Definition irq_handler {U} `{!UserMemory U} (u : U) (now : Z) (frame : Context) (k : kernel)
    : outcome (U * Context * kernel * option FaultKind) :=
  let k := timer_tick now (trap_enter frame k) in
  let f := default frame (ACTIVE_FRAME k) in
  o ← check_pending_signal k;
  match o, proc k (CURRENT k) with
  | Some (s, handler), Some p =>
      match deliver u (signal_state p) f s handler with
      | (u, st, f', Ok _) => Ret (u, f', trap_leave (put k (CURRENT k) (Some (with_signals p st))), None)
      | (u, _, f', Err _) =>
          Ret (u, f', k, Some (DataAbort (match signal_frame_address (sp f) with Ok a => a | Err _ => sp f end) 0))
      end
  | _, _ => Ret (u, f, trap_leave k, None)
  end.
End kernel.
Arguments kernel : clear implicits.

(** ** The invariant of the process table *)

Section invariant.
Context {D : Type} `{!DescriptorLayer D}.
Implicit Types (k : kernel D) (p : Process).

(** A process is stored at its own number, only the current process is
    running, and the futex table holds at most one entry per process, each of
    a process that is blocked. *)
Record inv k : Prop := {
  inv_len : length (PROCS k) = MAX_PROCS;
  inv_cur : CURRENT k < MAX_PROCS;
  inv_proc : forall i p, proc k i = Some p ->
    pid p = i /\ length (handlers (signal_state p)) = 18 /\ (state p = Running -> i = CURRENT k);
  inv_wlen : length (FUTEX_WAITERS k) = MAX_FUTEX_WAITERS;
  inv_wait : forall s w, FUTEX_WAITERS k !! s = Some (Some w) ->
    exists p, proc k (wpid w) = Some p /\ state p = Blocked;
  inv_winj : forall s s' w w', FUTEX_WAITERS k !! s = Some (Some w) -> FUTEX_WAITERS k !! s' = Some (Some w') ->
    wpid w = wpid w' -> s = s';
  inv_fds : dl_ok (fds k);
}.

Lemma proc_lt k i p : proc k i = Some p -> i < length (PROCS k).
Proof using Type.
  unfold proc. destruct (PROCS k !! i) eqn:E; [|done]. intros _. by eapply lookup_lt_Some.
Qed.

Lemma proc_put k i o j :
  i < length (PROCS k) -> proc (put k i o) j = if decide (j = i) then o else proc k j.
Proof using Type.
  intros Hi. unfold proc, put. cbn [set_procs PROCS]. case_decide as He.
  - subst j. by rewrite list_lookup_insert_eq.
  - by rewrite list_lookup_insert_ne.
Qed.

Lemma proc_modify k i f j :
  proc (modify k i f) j = if decide (j = i) then f <$> proc k i else proc k j.
Proof using Type.
  unfold modify. destruct (proc k i) as [p|] eqn:E.
  - rewrite proc_put by (by eapply proc_lt). by case_decide; subst.
  - case_decide; [by subst|done].
Qed.

(** Everything but the process table. *)
Definition same_rest k k' : Prop :=
  length (PROCS k') = length (PROCS k) /\ CURRENT k' = CURRENT k /\ FUTEX_WAITERS k' = FUTEX_WAITERS k /\ fds k' = fds k.

Lemma modify_rest k i f : same_rest k (modify k i f).
Proof using Type.
  unfold modify. destruct (proc k i); [|done]. unfold same_rest, put. cbn. by rewrite length_insert.
Qed.

Lemma inv_update k k' :
  inv k -> length (PROCS k') = MAX_PROCS -> CURRENT k' < MAX_PROCS ->
  length (FUTEX_WAITERS k') = MAX_FUTEX_WAITERS -> dl_ok (fds k') ->
  (forall i p, proc k' i = Some p ->
    pid p = i /\ length (handlers (signal_state p)) = 18 /\ (state p = Running -> i = CURRENT k')) ->
  (forall s w, FUTEX_WAITERS k' !! s = Some (Some w) ->
    FUTEX_WAITERS k !! s = Some (Some w) /\ exists p, proc k' (wpid w) = Some p /\ state p = Blocked) ->
  inv k'.
Proof using Type.
  intros Hk Hl Hc Hwl Hd Hp Hw. constructor; try done.
  - intros s w Hs. by apply (Hw s w).
  - intros s s' w w' Hs Hs'. apply (inv_winj _ Hk); [by apply (Hw s)|by apply (Hw s')].
Qed.

(** Changing one PCB in a way the invariant allows. *)
Lemma inv_modify k i f :
  inv k ->
  (forall p, proc k i = Some p -> pid (f p) = pid p /\
    length (handlers (signal_state (f p))) = length (handlers (signal_state p)) /\
    (state (f p) = Running -> i = CURRENT k) /\ (state p = Blocked -> state (f p) = Blocked)) ->
  inv (modify k i f).
Proof using Type.
  intros Hk Hf. destruct (modify_rest k i f) as (Hl & Hc & Hw & Hd).
  apply (inv_update k); rewrite ?Hl, ?Hc, ?Hw, ?Hd; try apply Hk.
  - intros j p. rewrite proc_modify. case_decide as He; [|apply (inv_proc _ Hk)].
    subst j. destruct (proc k i) as [q|] eqn:E; [|done]. intros [= <-].
    destruct (Hf q eq_refl) as (-> & -> & Hr & _). destruct (inv_proc _ Hk i q E) as (? & ? & _). done.
  - intros s w Hs. split; [done|]. destruct (inv_wait _ Hk s w Hs) as (p & Hp & Hb).
    rewrite proc_modify. case_decide as He; [|by exists p]. rewrite He in Hp. rewrite Hp. cbn.
    exists (f p). split; [done|]. by apply (Hf p Hp).
Qed.

(** ** The scheduler *)

Lemma schedule_proc now k i :
  proc (schedule now k).2 i = wake_sleeper now (proc k i).
Proof using Type.
  unfold schedule, proc. cbn [snd set_procs PROCS]. rewrite list_lookup_fmap.
  by destruct (PROCS k !! i) as [[p|]|].
Qed.

Lemma wake_sleeper_spec now o :
  match o, wake_sleeper now o with
  | None, None => True
  | Some p, Some q => q = p \/ state p = Sleeping /\ q = with_state p Ready
  | _, _ => False
  end.
Proof using Type.
  destruct o as [p|]; [|done]. cbn. case_decide; [|by left].
  destruct (wake_tick p <=? now)%Z; [by right|by left].
Qed.

Lemma wake_sleeper_Some now p :
  exists q, wake_sleeper now (Some p) = Some q /\ (q = p \/ state p = Sleeping /\ q = with_state p Ready).
Proof using Type.
  cbn. case_decide; [|by eauto]. destruct (wake_tick p <=? now)%Z; by eauto.
Qed.

Lemma inv_schedule now k : inv k -> inv (schedule now k).2.
Proof using Type.
  intros Hk. apply (inv_update k); try apply Hk.
  - unfold schedule. cbn. rewrite length_fmap. apply Hk.
  - intros i p. rewrite schedule_proc. pose proof (wake_sleeper_spec now (proc k i)) as Hs. intros Hp.
    destruct (proc k i) as [q|] eqn:Eq; [|done]. rewrite Hp in Hs.
    destruct (inv_proc _ Hk i q Eq) as (H1 & H2 & H3). by destruct Hs as [->|[_ ->]].
  - intros s w Hs. split; [done|]. destruct (inv_wait _ Hk s w Hs) as (p & Hp & Hb).
    rewrite schedule_proc, Hp. cbn. rewrite decide_False by congruence. by exists p.
Qed.

Definition ready k (i : nat) : Prop := exists p, proc k i = Some p /\ state p = Ready.

(** [pick] finds the first ready process in the order of the offsets. *)
Lemma pick_spec k cur os :
  inv k ->
  match pick (PROCS k) cur os with
  | Some n => exists l1 o l2, os = l1 ++ o :: l2 /\ n = (cur + o) mod MAX_PROCS /\ ready k n /\
      forall o', o' ∈ l1 -> ~ ready k ((cur + o') mod MAX_PROCS)
  | None => forall o, o ∈ os -> ~ ready k ((cur + o) mod MAX_PROCS)
  end.
Proof using Type.
  intros Hk. induction os as [|o os IH]; cbn [pick].
  { intros o Ho. by apply not_elem_of_nil in Ho. }
  fold (proc k ((cur + o) mod MAX_PROCS)). set (i := (cur + o) mod MAX_PROCS) in *.
  assert (~ ready k i -> match pick (PROCS k) cur os with
    | Some n => exists l1 o' l2, o :: os = l1 ++ o' :: l2 /\ n = (cur + o') mod MAX_PROCS /\ ready k n /\
        forall o'', o'' ∈ l1 -> ~ ready k ((cur + o'') mod MAX_PROCS)
    | None => forall o', o' ∈ o :: os -> ~ ready k ((cur + o') mod MAX_PROCS)
    end) as Hskip.
  { intros Hn. destruct (pick (PROCS k) cur os) as [n|].
    - destruct IH as (l1 & o' & l2 & -> & -> & Hr & Hl1). exists (o :: l1), o', l2. split_and!; try done.
      intros o'' [->|Hin]%elem_of_cons; [done|by apply Hl1].
    - intros o' [->|Hin]%elem_of_cons; [done|by apply IH]. }
  destruct (proc k i) as [p|] eqn:Ep.
  - destruct (decide (state p = Ready)) as [Hs|Hs].
    + exists [], o, os. split; [done|]. rewrite (proj1 (inv_proc _ Hk i p Ep)). split_and!; [done|by exists p|].
      intros o' Ho'. by apply not_elem_of_nil in Ho'.
    + apply Hskip. intros (q & Hq & ?). congruence.
  - apply Hskip. intros (q & Hq & _). congruence.
Qed.

(** What [schedule] answers, in the state it leaves. *)
Lemma schedule_next now k :
  inv k ->
  let '(n, k') := schedule now k in
  (exists o, 1 <= o < MAX_PROCS /\ n = (CURRENT k + o) mod MAX_PROCS /\ ready k' n /\
     forall o', 1 <= o' < o -> ~ ready k' ((CURRENT k + o') mod MAX_PROCS)) \/
  (n = CURRENT k /\ forall o, 1 <= o < MAX_PROCS -> ~ ready k' ((CURRENT k + o) mod MAX_PROCS)).
Proof using Type.
  intros Hk. pose proof (inv_schedule now k Hk) as Hk'. unfold schedule in *. cbn [snd] in Hk'.
  set (k' := set_procs k _) in *. pose proof (pick_spec k' (CURRENT k) (seq 1 (MAX_PROCS - 1)) Hk') as Hp.
  change (PROCS k') with (wake_sleeper now <$> PROCS k) in Hp.
  change (CURRENT k') with (CURRENT k).
  destruct (pick _ _ _) as [n|]; cbn [default from_option].
  - left. destruct Hp as (l1 & o & l2 & Hseq & -> & Hr & Hl1).
    assert (forall j x, seq 1 (MAX_PROCS - 1) !! j = Some x -> x = 1 + j) as Hnth.
    { intros j x Hx. by apply lookup_seq in Hx as [-> _]. }
    assert (seq 1 (MAX_PROCS - 1) !! length l1 = Some o) as Ho by (rewrite Hseq; by apply list_lookup_middle).
    pose proof (Hnth _ _ Ho). apply lookup_seq in Ho as [_ Hlt]. exists o. split; [unfold MAX_PROCS in *; lia|].
    split_and!; [done|done|]. intros o' Ho'. apply Hl1.
    apply (list_elem_of_lookup_2 _ (o' - 1)).
    rewrite <- (lookup_app_l l1 (o :: l2)) by lia. rewrite <- Hseq. apply lookup_seq. lia.
  - right. split; [done|]. intros o Ho. apply Hp. apply elem_of_seq. lia.
Qed.

(** ** The context switch *)

Lemma save_current_proc k i :
  proc (save_current k) i = if decide (i = CURRENT k)
    then (fun p => let p := match ACTIVE_FRAME k with Some f => with_ctx p f | None => p end in
                   if decide (state p = Running) then with_state p Ready else p) <$> proc k i
    else proc k i.
Proof using Type. unfold save_current. rewrite proc_modify. case_decide; by subst. Qed.

Lemma save_current_state k p :
  let q := match ACTIVE_FRAME k with Some f => with_ctx p f | None => p end in
  state q = state p /\ pid q = pid p /\ signal_state q = signal_state p.
Proof using Type. by destruct (ACTIVE_FRAME k). Qed.

Lemma inv_save k : inv k -> inv (save_current k).
Proof using Type.
  intros Hk. apply inv_modify; [done|]. intros p Hp. cbv zeta.
  destruct (save_current_state k p) as (Hs & Hpid & Hsig). cbv zeta in *.
  rewrite Hs. destruct (decide (state p = Running)) as [He|He]; cbn; rewrite ?Hs, ?Hpid, ?Hsig; split_and!; try done.
  congruence.
Qed.

(** After a save nothing is running. *)
Lemma save_not_running k i p : inv k -> proc (save_current k) i = Some p -> state p <> Running.
Proof using Type.
  intros Hk. rewrite save_current_proc. case_decide as He.
  - subst i. destruct (proc k (CURRENT k)) as [q|]; [|done]. cbn. intros [= <-].
    destruct (save_current_state k q) as (Hs & _). cbv zeta in Hs. rewrite Hs.
    destruct (decide (state q = Running)); [done|by rewrite Hs].
  - intros Hp Hr. destruct (inv_proc _ Hk i p Hp) as (_ & _ & Hc). by apply He, Hc.
Qed.

Lemma inv_switch n k : inv k -> ready k n -> inv (switch_to n k).
Proof using Type.
  intros Hk (p & Hp & Hs). unfold switch_to. case_decide as Hne; [done|].
  pose proof (inv_save k Hk) as Hsv. set (k1 := save_current k) in *.
  assert (proc k1 n = Some p) as Hp1.
  { unfold k1. rewrite save_current_proc. by rewrite decide_False. }
  rewrite Hp1. pose proof (proc_lt _ _ _ Hp1) as Hlt.
  set (k2 := put k1 n (Some (with_state p Running))).
  assert (forall f sw t, inv (mk_kernel (PROCS k2) n f sw t (FUTEX_WAITERS k2) (fds k2) (cleared k2))) as Hfin;
    [|destruct (ACTIVE_FRAME k2); apply Hfin].
  intros f sw t. set (k3 := mk_kernel _ _ _ _ _ _ _ _).
  assert (forall i, proc k3 i = if decide (i = n) then Some (with_state p Running) else proc k1 i) as Hproc
    by (intros i; by apply (proc_put k1)).
  apply (inv_update k1); try apply Hsv.
  - cbn. rewrite length_insert. apply Hsv.
  - cbn. rewrite <- (inv_len _ Hsv). exact Hlt.
  - intros i q. rewrite Hproc. case_decide as He.
    + intros [= <-]. destruct (inv_proc _ Hsv n p Hp1) as (? & ? & _). by subst.
    + intros Hq. destruct (inv_proc _ Hsv i q Hq) as (? & ? & _). split_and!; [done|done|].
      intros Hr. by destruct (save_not_running k i q Hk Hq).
  - intros s w Hw. split; [done|]. destruct (inv_wait _ Hsv s w Hw) as (q & Hq & Hb).
    exists q. rewrite Hproc. case_decide as He; [|done]. rewrite He, Hp1 in Hq. congruence.
Qed.

(** ** Futex wake-ups *)

Definition waiter k (s : nat) : option FutexWaiter := fd.flatten (FUTEX_WAITERS k !! s).

Definition matches k (a space : Z) (s : nat) : bool :=
  match waiter k s with Some w => ((addr w =? a) && (address_space w =? space))%Z | None => false end.

(** Slot [s] holds process [i]. *)
Definition holds_pid k (i s : nat) : Prop := wpid <$> waiter k s = Some i.

#[export] Instance holds_pid_dec k i s : Decision (holds_pid k i s).
Proof using Type. unfold holds_pid. apply _. Defined.

Lemma waiter_Some k s w : waiter k s = Some w <-> FUTEX_WAITERS k !! s = Some (Some w).
Proof using Type. unfold waiter. destruct (FUTEX_WAITERS k !! s) as [[]|]; cbn; split; congruence. Qed.

(** Waking the process of one slot. *)
Definition wake_slot (s : nat) k : kernel D :=
  match waiter k s with
  | Some w => set_state (wpid w) Ready (set_waiters k (<[s := None]> (FUTEX_WAITERS k)))
  | None => k
  end.

Lemma wake_slot_waiter s k w s' :
  waiter k s = Some w -> waiter (wake_slot s k) s' = if decide (s' = s) then None else waiter k s'.
Proof using Type.
  intros Hw. unfold wake_slot. rewrite Hw.
  assert (forall (j : nat), FUTEX_WAITERS (set_state j Ready (set_waiters k (<[s := None]> (FUTEX_WAITERS k))))
    = <[s := None]> (FUTEX_WAITERS k)) as Hf.
  { intros j. unfold set_state. case_decide; [done|]. by destruct (modify_rest (set_waiters k (<[s := None]> (FUTEX_WAITERS k))) j
      (fun p => with_state p Ready)) as (_ & _ & -> & _). }
  unfold waiter at 1. rewrite Hf. apply waiter_Some in Hw. case_decide as He.
  - subst s'. by rewrite list_lookup_insert_eq by (by eapply lookup_lt_Some).
  - by rewrite list_lookup_insert_ne.
Qed.

Lemma wake_slot_proc s k w i :
  inv k -> waiter k s = Some w ->
  proc (wake_slot s k) i = if decide (i = wpid w) then (fun p => with_state p Ready) <$> proc k i else proc k i.
Proof using Type.
  intros Hk Hw. unfold wake_slot. rewrite Hw. apply waiter_Some in Hw.
  destruct (inv_wait _ Hk s w Hw) as (p & Hp & _). pose proof (proc_lt _ _ _ Hp) as Hlt.
  rewrite (inv_len _ Hk) in Hlt. unfold set_state. rewrite decide_False by lia. rewrite proc_modify.
  case_decide; by subst.
Qed.

Lemma inv_wake_slot s k w : inv k -> waiter k s = Some w -> inv (wake_slot s k).
Proof using Type.
  intros Hk Hw. pose proof (fun s' => wake_slot_waiter s k w s' Hw) as Hws.
  pose proof (fun i => wake_slot_proc s k w i Hk Hw) as Hps.
  assert (same_rest (set_waiters k (<[s := None]> (FUTEX_WAITERS k))) (wake_slot s k)) as (Hl & Hc & Hwt & Hd).
  { unfold wake_slot. rewrite Hw. unfold set_state. case_decide; [done|]. apply modify_rest. }
  apply (inv_update k); rewrite ?Hl, ?Hc, ?Hwt, ?Hd; cbn [set_waiters PROCS CURRENT FUTEX_WAITERS fds];
    rewrite ?length_insert; try apply Hk.
  - intros i p. rewrite Hps. case_decide as He; [|apply (inv_proc _ Hk)].
    destruct (proc k i) as [q|] eqn:Eq; [|done]. intros [= <-].
    destruct (inv_proc _ Hk i q Eq) as (? & ? & _). done.
  - intros s' w' Hs'. change (<[s := None]> (FUTEX_WAITERS k)) with (FUTEX_WAITERS (set_waiters k (<[s := None]> (FUTEX_WAITERS k)))) in Hs'.
    rewrite <- Hwt in Hs'. apply waiter_Some in Hs'. rewrite Hws in Hs'. case_decide as He; [done|].
    apply waiter_Some in Hs' as Hs2. split; [done|]. destruct (inv_wait _ Hk s' w' Hs2) as (p & Hp & Hb).
    exists p. rewrite Hps. rewrite decide_False; [done|]. intros Heq. apply He.
    apply (inv_winj _ Hk s' s w' w); [done|by apply waiter_Some|done].
Qed.

(** The loop wakes the matching slots in order until the quota is spent. *)
Lemma wake_loop_eq a space mx slots woken k :
  inv k -> NoDup slots -> (0 <= woken)%Z -> (woken + Z.of_nat (length slots) < 2 ^ 32)%Z ->
  let ws := take (Z.to_nat (mx - woken)) (List.filter (matches k a space) slots) in
  wake_loop a space mx slots woken k =
    ((woken + Z.of_nat (length ws))%Z, foldl (fun k s => wake_slot s k) k ws).
Proof using Type.
  revert woken k. induction slots as [|s slots IH]; intros woken k Hk Hnd H0 Hmax; cbn [wake_loop List.filter]; cbv zeta in *.
  { rewrite take_nil. cbn [length foldl]. f_equal. lia. }
  apply NoDup_cons in Hnd as [Hs Hnd]. cbn [length] in Hmax.
  destruct (Z.leb_spec mx woken) as [Hq|Hq].
  { replace (Z.to_nat (mx - woken)) with 0 by lia. rewrite take_0. cbn [length foldl]. f_equal. lia. }
  fold (waiter k s). destruct (matches k a space s) eqn:Em; unfold matches in Em; destruct (waiter k s) as [w|] eqn:Ew;
    [rewrite Em|discriminate Em|rewrite Em, IH by (try done; lia); done|rewrite IH by (try done; lia); done].
  replace (Z.to_nat (mx - woken)) with (S (Z.to_nat (mx - (woken + 1)))) by lia. rewrite firstn_cons. cbn [length foldl].
  assert (wrap32 (woken + 1) = woken + 1)%Z as -> by (apply wrap32_small; unfold is_u32; lia).
  assert (set_state (wpid w) Ready (set_waiters k (<[s := None]> (FUTEX_WAITERS k))) = wake_slot s k) as ->.
  { unfold wake_slot. by rewrite Ew. }
  rewrite IH; [|by eapply inv_wake_slot|done|lia|lia].
  assert (List.filter (matches (wake_slot s k) a space) slots = List.filter (matches k a space) slots) as ->.
  { apply List.filter_ext_in. intros s' Hin. apply list_elem_of_In in Hin. unfold matches.
    rewrite (wake_slot_waiter s k w s' Ew). by rewrite decide_False by (intros ->; done). }
  cbv zeta. f_equal. lia.
Qed.

Lemma foldl_wake_spec ws k :
  inv k -> NoDup ws -> (forall s, s ∈ ws -> is_Some (waiter k s)) ->
  let k' := foldl (fun k s => wake_slot s k) k ws in
  inv k' /\
  (forall s, waiter k' s = if decide (s ∈ ws) then None else waiter k s) /\
  (forall i, proc k' i = if decide (Exists (holds_pid k i) ws)
    then (fun p => with_state p Ready) <$> proc k i else proc k i).
Proof using Type.
  revert k. induction ws as [|s ws IH]; intros k Hk Hnd Hall; cbn [foldl].
  { split_and!; [done|intros s; rewrite decide_False; [done|by apply not_elem_of_nil]|].
    intros i. rewrite decide_False; [done|]. intros H. by apply Exists_nil in H. }
  apply NoDup_cons in Hnd as [Hs Hnd]. destruct (Hall s ltac:(left)) as [w Hw].
  pose proof (fun s' => wake_slot_waiter s k w s' Hw) as Hws.
  pose proof (fun i => wake_slot_proc s k w i Hk Hw) as Hps.
  destruct (IH (wake_slot s k)) as (Hk' & Hw' & Hp'); [by eapply inv_wake_slot|done| |].
  { intros s' Hin. rewrite Hws, decide_False by (intros ->; done). apply Hall. by right. }
  split_and!; [done| |].
  - intros s'. rewrite Hw', Hws. repeat case_decide; try done; set_solver.
  - intros i. rewrite Hp', Hps.
    assert (Exists (holds_pid (wake_slot s k) i) ws <-> Exists (holds_pid k i) ws) as Hiff.
    { rewrite !Exists_exists. split; intros (s' & Hin & Hh); exists s'; (split; [done|]); unfold holds_pid in *;
        rewrite Hws, decide_False in *; try done; intros ->; done. }
    assert (holds_pid k i s <-> i = wpid w) as Hh by (unfold holds_pid; rewrite Hw; cbn; split; [by intros [= ->]|by intros ->]).
    repeat case_decide; try done; rewrite Exists_cons in *; try tauto; by destruct (proc k i).
Qed.

(** ** The live system

    PID 0 is the kernel's service loop: it is running or ready, whatever the
    user processes do, so a process that gives up the processor always has a
    successor. *)

Record base k : Prop := {
  base_inv : inv k;
  base_idle : exists p, proc k 0 = Some p /\ state p = (if decide (CURRENT k = 0) then Running else Ready);
  base_parent : forall i p, proc k i = Some p -> parent p <> Some i;
}.

(** The process the processor executes: it runs, unless a signal has just
    killed it. *)
Definition cur_ok k : Prop :=
  exists p, proc k (CURRENT k) = Some p /\ (state p = Running \/ state p = Dead).

Definition live k : Prop := base k /\ cur_ok k.

Lemma live_inv k : live k -> inv k.
Proof using Type. intros [[]]. done. Qed.

(** What a change of one PCB may do to its state. *)
Definition state_change k (i : nat) (s s' : State) : Prop :=
  s' = s \/ (i <> 0 /\ s <> Blocked /\ (s' = Running -> i = CURRENT k)).

Lemma base_modify k i f :
  base k ->
  (forall p, proc k i = Some p -> pid (f p) = pid p /\ parent (f p) = parent p /\
    length (handlers (signal_state (f p))) = length (handlers (signal_state p)) /\
    state_change k i (state p) (state (f p))) ->
  base (modify k i f).
Proof using Type.
  intros [Hk (p0 & Hp0 & Hs0) Hpar] Hf. destruct (modify_rest k i f) as (_ & Hc & _).
  constructor.
  - apply inv_modify; [done|]. intros p Hp. destruct (Hf p Hp) as (? & _ & ? & Hst).
    destruct (inv_proc _ Hk i p Hp) as (_ & _ & Hr). split_and!; try done; destruct Hst as [->|(? & ? & ?)]; try done.
  - rewrite Hc, proc_modify. destruct (decide (0 = i)) as [He|He]; [|by exists p0].
    subst i. rewrite Hp0. exists (f p0). split; [done|]. destruct (Hf p0 Hp0) as (_ & _ & _ & [->|(? & _)]); done.
  - intros j p. rewrite proc_modify. destruct (decide (j = i)) as [He|He]; [|apply Hpar]. subst j.
    destruct (proc k i) as [q|] eqn:Eq; [|done]. intros [= <-].
    destruct (Hf q eq_refl) as (_ & -> & _). by apply Hpar.
Qed.

Lemma live_modify k i f :
  live k ->
  (forall p, proc k i = Some p -> pid (f p) = pid p /\ parent (f p) = parent p /\
    length (handlers (signal_state (f p))) = length (handlers (signal_state p)) /\
    state_change k i (state p) (state (f p)) /\
    (i = CURRENT k -> state (f p) = state p \/ state (f p) = Running \/ state (f p) = Dead)) ->
  live (modify k i f).
Proof using Type.
  intros [Hb (c & Hc & Hs)] Hf. split.
  - apply base_modify; [done|]. intros p Hp. by destruct (Hf p Hp) as (? & ? & ? & ? & _).
  - destruct (modify_rest k i f) as (_ & Hcur & _). unfold cur_ok. rewrite Hcur, proc_modify.
    destruct (decide (CURRENT k = i)) as [He|He]; [|by exists c]. subst i. rewrite Hc. exists (f c). split; [done|].
    destruct (Hf c Hc) as (_ & _ & _ & _ & Hst). destruct (Hst eq_refl) as [->|?]; done.
Qed.

(** Fields the invariant does not read may change freely. *)
Lemma base_frame k f sw t c :
  base k -> base (mk_kernel (PROCS k) (CURRENT k) f sw t (FUTEX_WAITERS k) (fds k) c).
Proof using Type. intros [[] ? ?]. constructor; [constructor|..]; done. Qed.

Lemma base_schedule now k : base k -> base (schedule now k).2.
Proof using Type.
  intros [Hk (p & Hp & Hs) Hpar]. constructor; [by apply inv_schedule| |].
  - exists p. change (CURRENT (schedule now k).2) with (CURRENT k). rewrite schedule_proc, Hp. cbn.
    rewrite decide_False; [done|]. rewrite Hs. by case_decide.
  - intros i q. rewrite schedule_proc. pose proof (wake_sleeper_spec now (proc k i)) as Hw. intros Hq.
    destruct (proc k i) as [q'|] eqn:E; [|done]. rewrite Hq in Hw. pose proof (Hpar i q' E).
    by destruct Hw as [->|[_ ->]].
Qed.

Lemma switch_proc n k p :
  proc k n = Some p -> n <> CURRENT k ->
  CURRENT (switch_to n k) = n /\
  ACTIVE_FRAME (switch_to n k) = (fun _ => ctx p) <$> ACTIVE_FRAME k /\
  forall i, proc (switch_to n k) i =
    if decide (i = n) then Some (with_state p Running) else proc (save_current k) i.
Proof using Type.
  intros Hp Hne.
  assert (proc (save_current k) n = Some p) as Hp1 by (rewrite save_current_proc, decide_False; done).
  pose proof (proc_lt _ _ _ Hp1) as Hlt. unfold switch_to. rewrite decide_False by done. rewrite Hp1.
  assert (ACTIVE_FRAME (put (save_current k) n (Some (with_state p Running))) = ACTIVE_FRAME k) as Hf.
  { cbn. unfold save_current, modify. by destruct (proc k (CURRENT k)). }
  rewrite Hf. destruct (ACTIVE_FRAME k); (split_and!; [done|done|]); intros i; by apply (proc_put (save_current k)).
Qed.

(** A switch to a ready process runs it. *)
Lemma base_switch n k :
  base k -> ready k n -> n <> CURRENT k ->
  live (switch_to n k) /\ CURRENT (switch_to n k) = n /\ state <$> proc (switch_to n k) n = Some Running.
Proof using Type.
  intros [Hk (p0 & Hp0 & Hs0) Hpar] Hr Hne. pose proof (inv_switch n k Hk Hr) as Hk'.
  destruct Hr as (p & Hp & Hs).
  destruct (switch_proc n k p Hp Hne) as (Hc & _ & Hproc).
  rewrite Hc, Hproc, decide_True by done. split; [|done]. split; [|exists (with_state p Running); rewrite Hc, Hproc, decide_True by done; split; [done|by left]].
  constructor; [done| |].
  - rewrite Hc, Hproc. destruct (decide (0 = n)) as [He|He]; [rewrite decide_True by done; by eexists|].
    rewrite decide_False by done. rewrite save_current_proc. destruct (decide (0 = CURRENT k)) as [Hcu|Hcu].
    + rewrite Hp0. cbn. eexists. split; [done|]. destruct (save_current_state k p0) as (Hsp & _). cbv zeta in *.
      rewrite decide_True; [done|]. rewrite Hsp, Hs0. by rewrite decide_True.
    + exists p0. rewrite decide_False in Hs0 by done. done.
  - intros i q. rewrite Hproc. destruct (decide (i = n)) as [He|He].
    { intros [= <-]. subst i. by apply (Hpar n p). }
    rewrite save_current_proc. destruct (decide (i = CURRENT k)) as [Hcu|Hcu]; [|apply Hpar]. subst i.
    destruct (proc k (CURRENT k)) as [q'|] eqn:Eq; [|done]. intros [= <-]. cbv zeta.
    pose proof (Hpar _ _ Eq) as Hq. clear Hs0.
    destruct (ACTIVE_FRAME k); case_match; exact Hq.
Qed.

(** A user process always finds a successor. *)
Lemma schedule_finds now k :
  base k -> CURRENT k <> 0 ->
  (schedule now k).1 <> CURRENT k /\ ready (schedule now k).2 (schedule now k).1.
Proof using Type.
  intros Hb Hc. pose proof (base_schedule now k Hb) as [_ (p0 & Hp0 & Hs0) _].
  pose proof (schedule_next now k (base_inv _ Hb)) as Hn. pose proof (inv_cur _ (base_inv _ Hb)) as Hlt.
  change (CURRENT (schedule now k).2) with (CURRENT k) in Hs0.
  destruct (schedule now k) as [n k']. cbn [fst snd] in *. destruct Hn as [(o & Ho & -> & Hr & _)|[_ Hno]].
  - split; [|done]. unfold MAX_PROCS in *. intros He.
    destruct (decide (CURRENT k + o < 16)); [rewrite Nat.mod_small in He by done; lia|].
    assert ((CURRENT k + o) mod 16 = CURRENT k + o - 16); [|lia].
    symmetry. apply (Nat.mod_unique _ _ 1); lia.
  - exfalso. apply (Hno (MAX_PROCS - CURRENT k)); [unfold MAX_PROCS in *; lia|].
    replace (CURRENT k + (MAX_PROCS - CURRENT k)) with MAX_PROCS by (unfold MAX_PROCS in *; lia).
    change (MAX_PROCS mod MAX_PROCS) with 0. exists p0. rewrite decide_False in Hs0 by done. done.
Qed.


Lemma live_frame k f sw : live k -> live (set_frame k f sw).
Proof using Type. intros [Hb Hc]. split; [by apply base_frame|done]. Qed.

Lemma set_trap_return_frame v k : exists f, set_trap_return v k = set_frame k f (FRAME_SWITCHED k).
Proof using Type.
  unfold set_trap_return. destruct (ACTIVE_FRAME k) as [f|] eqn:E; [by eexists|].
  exists None. destruct k; cbn in *. by subst.
Qed.

Lemma live_schedule now k : live k -> live (schedule now k).2.
Proof using Type.
  intros [Hb (p & Hp & Hs)]. split; [by apply base_schedule|]. exists p.
  change (CURRENT (schedule now k).2) with (CURRENT k). rewrite schedule_proc, Hp. cbn.
  split; [|done]. destruct (decide (state p = Sleeping)) as [He|]; [|done]. rewrite He in Hs. by destruct Hs.
Qed.

(** Whatever [schedule] answers, switching to it is safe. *)
Lemma schedule_ready now k :
  inv k -> (schedule now k).1 <> CURRENT k -> ready (schedule now k).2 (schedule now k).1.
Proof using Type.
  intros Hk Hne. pose proof (schedule_next now k Hk) as Hn. destruct (schedule now k) as [n k']. cbn [fst snd] in *.
  by destruct Hn as [(o & _ & _ & Hr & _)|[-> _]].
Qed.

Lemma live_timer_tick now k : live k -> live (timer_tick now k).
Proof using Type.
  intros Hl. pose proof (live_schedule now k Hl) as Hl'. pose proof (schedule_ready now k (live_inv _ Hl)) as Hr.
  unfold timer_tick. change (CURRENT k) with (CURRENT (schedule now k).2) in Hr.
  destruct (schedule now k) as [n k']. cbn [fst snd] in *. destruct (decide (n = CURRENT k')) as [He|He]; [done|].
  apply base_switch; [apply Hl'|by apply Hr|done].
Qed.

(** A process that gives up the processor with a return value deposited. *)
Lemma live_switch_return v n k :
  base k -> ready k n -> n <> CURRENT k -> live (switch_to n (set_trap_return v k)).
Proof using Type.
  intros Hb Hr Hn. destruct (set_trap_return_frame v k) as [f ->]. apply base_switch; [by apply base_frame|done|done].
Qed.

Lemma live_yield now k : live k -> live (sys_yield now k).2.
Proof using Type.
  intros Hl. pose proof (live_schedule now k Hl) as Hl'. pose proof (schedule_ready now k (live_inv _ Hl)) as Hr.
  unfold sys_yield. change (CURRENT k) with (CURRENT (schedule now k).2) in Hr.
  destruct (schedule now k) as [n k']. cbn [fst snd] in *. destruct (decide (n = CURRENT k')) as [He|He]; [done|].
  apply live_switch_return; [apply Hl'|by apply Hr|done].
Qed.

Lemma cur_not_blocked k p : live k -> proc k (CURRENT k) = Some p -> state p <> Blocked /\ state p <> Sleeping.
Proof using Type. intros [_ (q & Hq & Hs)] Hp. rewrite Hp in Hq. injection Hq as <-. destruct Hs as [->| ->]; done. Qed.

Lemma live_sleep now w k : live k -> CURRENT k <> 0 -> live (sleep_until now w k).2.
Proof using Type.
  intros Hl Hc. assert (base (set_wake_tick w k)) as Hb.
  { apply base_modify; [apply Hl|]. intros p Hp. split_and!; try done. right.
    split_and!; [done|by apply (cur_not_blocked k)|done]. }
  unfold sleep_until. set (k1 := set_wake_tick w k) in *.
  assert (CURRENT k1 = CURRENT k) as Hc1 by (by destruct (modify_rest k (CURRENT k) (fun p => with_wake p Sleeping w)) as (_ & ? & _)).
  destruct (schedule_finds now k1 Hb ltac:(congruence)) as [Hne Hr]. pose proof (base_schedule now k1 Hb) as Hb'.
  change (CURRENT k1) with (CURRENT (schedule now k1).2) in Hne.
  destruct (schedule now k1) as [n k']. cbn [fst snd] in *. rewrite decide_False by done.
  by apply live_switch_return.
Qed.

(** ** Futex *)

(** A process that is not blocked holds no slot. *)
Lemma no_slot k i p : inv k -> proc k i = Some p -> state p <> Blocked ->
  forall s w, FUTEX_WAITERS k !! s = Some (Some w) -> wpid w <> i.
Proof using Type.
  intros Hk Hp Hs s w Hw <-. destruct (inv_wait _ Hk s w Hw) as (q & Hq & Hb). congruence.
Qed.

(** Registering the current process and blocking it. *)
Definition block (a : Z) (slot : nat) k : kernel D :=
  set_state (CURRENT k) Blocked
    (set_waiters k (<[slot := Some (mk_waiter a (current_page_table k) (CURRENT k))]> (FUTEX_WAITERS k))).

Lemma block_proc a slot k i :
  inv k -> proc (block a slot k) i =
    if decide (i = CURRENT k) then (fun p => with_state p Blocked) <$> proc k i else proc k i.
Proof using Type.
  intros Hk. unfold block, set_state. pose proof (inv_cur _ Hk). rewrite decide_False by lia.
  rewrite proc_modify. destruct (decide (i = CURRENT k)) as [->|]; done.
Qed.

Lemma block_rest a slot k :
  inv k -> length (PROCS (block a slot k)) = length (PROCS k) /\ CURRENT (block a slot k) = CURRENT k /\
  FUTEX_WAITERS (block a slot k) =
    <[slot := Some (mk_waiter a (current_page_table k) (CURRENT k))]> (FUTEX_WAITERS k) /\
  fds (block a slot k) = fds k.
Proof using Type.
  intros Hk. unfold block, set_state. pose proof (inv_cur _ Hk). rewrite decide_False by lia.
  apply (modify_rest (set_waiters k _)).
Qed.

Lemma base_block a slot k :
  live k -> CURRENT k <> 0 -> FUTEX_WAITERS k !! slot = Some None -> base (block a slot k).
Proof using Type.
  intros Hl Hc Hslot. pose proof (live_inv _ Hl) as Hk. destruct Hl as [[_ (p0 & Hp0 & Hs0) Hpar] (c & Hcur & Hcs)].
  pose proof (fun i => block_proc a slot k i Hk) as Hpr. destruct (block_rest a slot k Hk) as (Hlen & Hcu & Hws & Hfd).
  assert (state c <> Blocked) as Hnb by (destruct Hcs as [->| ->]; done).
  pose proof (no_slot k _ c Hk Hcur Hnb) as Hno.
  assert (forall s w, FUTEX_WAITERS (block a slot k) !! s = Some (Some w) ->
    s = slot /\ wpid w = CURRENT k \/ s <> slot /\ FUTEX_WAITERS k !! s = Some (Some w)) as Hcases.
  { intros s w. rewrite Hws. intros [(<- & [= <-] & _)|[? ?]]%list_lookup_insert_Some; [by left|by right]. }
  constructor.
  - constructor; rewrite ?Hlen, ?Hcu, ?Hfd; try apply Hk.
    + intros i p. rewrite Hpr. destruct (decide (i = CURRENT k)) as [He|He]; [|apply (inv_proc _ Hk)].
      subst i. rewrite Hcur. intros [= <-]. by destruct (inv_proc _ Hk _ c Hcur) as (? & ? & _).
    + rewrite Hws, length_insert. apply Hk.
    + intros s w Hs. destruct (Hcases s w Hs) as [[_ ->]|[_ Hw]]; rewrite Hpr.
      { rewrite decide_True by done. rewrite Hcur. by eexists. }
      rewrite decide_False by (by eapply Hno). by eapply (inv_wait _ Hk).
    + intros s s' w w' H1 H2 Heq. destruct (Hcases _ _ H1) as [[? ?]|[? Hw]], (Hcases _ _ H2) as [[? ?]|[? Hw']].
      * congruence.
      * destruct (Hno _ _ Hw'). congruence.
      * destruct (Hno _ _ Hw). congruence.
      * by apply (inv_winj _ Hk s s' w w').
  - rewrite Hcu, Hpr. rewrite decide_False by done. by exists p0.
  - intros i p. rewrite Hpr. destruct (decide (i = CURRENT k)) as [He|He]; [|apply Hpar].
    subst i. rewrite Hcur. intros [= <-]. by apply (Hpar _ c Hcur).
Qed.


(** Each process holds at most one slot, so half of the table is always free. *)
Lemma free_slot k : inv k -> exists s, fd.first_free (FUTEX_WAITERS k) = Some s.
Proof using Type.
  intros Hk. destruct (fd.first_free (FUTEX_WAITERS k)) as [s|] eqn:E; [by exists s|exfalso].
  assert (forall s, s < MAX_FUTEX_WAITERS -> exists w, FUTEX_WAITERS k !! s = Some (Some w)) as Hfull.
  { intros s Hs. destruct (lookup_lt_is_Some_2 (FUTEX_WAITERS k) s) as [[w|] Hw]; [by rewrite (inv_wlen _ Hk)|by exists w|].
    unfold fd.first_free in E. destruct (list_find _ _) eqn:Ef; [done|]. apply list_find_None in Ef.
    rewrite Forall_lookup in Ef. by apply Ef in Hw. }
  set (own := fun s : nat => match waiter k s with Some w => wpid w | None => 0 end).
  assert (forall s, s < MAX_FUTEX_WAITERS -> exists w, FUTEX_WAITERS k !! s = Some (Some w) /\ own s = wpid w) as Hown.
  { intros s Hs. destruct (Hfull s Hs) as [w Hw]. exists w. split; [done|]. apply waiter_Some in Hw. unfold own. by rewrite Hw. }
  assert (length (own <$> seq 0 MAX_FUTEX_WAITERS) <= length (seq 0 MAX_PROCS)) as Hle; [|rewrite length_fmap, !length_seq in Hle; unfold MAX_FUTEX_WAITERS, MAX_PROCS in Hle; lia].
  apply List.NoDup_incl_length.
  - apply NoDup_ListNoDup, NoDup_fmap_2_strong; [|apply NoDup_seq].
    intros s s' Hs Hs'. apply elem_of_seq in Hs, Hs'.
    destruct (Hown s ltac:(lia)) as (w & Hw & ->), (Hown s' ltac:(lia)) as (w' & Hw' & ->).
    by apply (inv_winj _ Hk s s' w w').
  - intros i Hi. apply list_elem_of_In in Hi. apply list_elem_of_fmap in Hi as (s & -> & Hs).
    apply elem_of_seq in Hs. destruct (Hown s ltac:(lia)) as (w & Hw & ->).
    destruct (inv_wait _ Hk s w Hw) as (p & Hp & _). apply proc_lt in Hp. rewrite (inv_len _ Hk) in Hp.
    apply list_elem_of_In, elem_of_seq. lia.
Qed.

(** A wait on a word that still holds the expected value parks the caller and
    runs another process; the caller's own slot carries its address space. *)
Lemma futex_wait_blocks {U} `{!UserMemory U} (u : U) now a v bs k :
  live k -> CURRENT k <> 0 -> um_copy_from u a 4 = Some bs -> words_of_bytes bs = [v] ->
  exists slot, let '(n, k1) := schedule now (block a slot k) in
    FUTEX_WAITERS k !! slot = Some None /\ n <> CURRENT k /\ ready k1 n /\ base k1 /\ CURRENT k1 = CURRENT k /\
    sys_futex_wait u now a v k = (0%Z, switch_to n (set_trap_return 0 k1)).
Proof using Type.
  intros Hl Hc Hcp Hw. destruct (free_slot k (live_inv _ Hl)) as [slot Hslot].
  pose proof (fd.first_free_Some _ _ Hslot) as Hnone. pose proof (base_block a slot k Hl Hc Hnone) as Hb.
  destruct (block_rest a slot k (live_inv _ Hl)) as (_ & Hcu & _).
  destruct (schedule_finds now (block a slot k) Hb ltac:(congruence)) as [Hne Hr].
  pose proof (base_schedule now _ Hb) as Hb'. rewrite Hcu in Hne.
  exists slot. assert (CURRENT (schedule now (block a slot k)).2 = CURRENT k) as Hcs by done.
  rewrite (surjective_pairing (schedule now (block a slot k))). split_and!; try done.
  unfold sys_futex_wait. rewrite Hcp, Hw, Z.eqb_refl. cbn [negb]. rewrite Hslot.
  fold (block a slot k). rewrite <- Hcu in Hne.
  change (CURRENT (block a slot k)) with (CURRENT (schedule now (block a slot k)).2) in Hne.
  change (set_state (CURRENT (set_waiters k _)) Blocked _) with (block a slot k).
  destruct (schedule now (block a slot k)) as [n k']. cbn [fst snd] in *. by rewrite decide_False.
Qed.

Lemma live_futex_wait {U} `{!UserMemory U} (u : U) now a v k :
  live k -> CURRENT k <> 0 -> live (sys_futex_wait u now a v k).2.
Proof using Type.
  intros Hl Hc. destruct (um_copy_from u a 4) as [bs|] eqn:Ecp; [|unfold sys_futex_wait; by rewrite Ecp].
  destruct (words_of_bytes bs) as [|cv [|]] eqn:Ew; try (unfold sys_futex_wait; rewrite Ecp, Ew; done).
  destruct (Z.eqb_spec cv v) as [->|Hne].
  - destruct (futex_wait_blocks u now a v bs k Hl Hc Ecp Ew) as [slot H].
    destruct (schedule now (block a slot k)) as [n k1]. destruct H as (_ & Hn & Hr & Hb & Hc1 & ->).
    apply live_switch_return; [done|done|congruence].
  - unfold sys_futex_wait. rewrite Ecp, Ew. by rewrite (proj2 (Z.eqb_neq cv v)).
Qed.

(** The slots a wake-up empties: the first [mx] that match. *)
Definition woken_slots k (a space mx : Z) : list nat :=
  take (Z.to_nat mx) (List.filter (matches k a space) (seq 0 MAX_FUTEX_WAITERS)).

Lemma woken_slots_ok k a space mx :
  NoDup (woken_slots k a space mx) /\
  forall s, s ∈ woken_slots k a space mx -> exists w, waiter k s = Some w /\ addr w = a /\ address_space w = space.
Proof using Type.
  split.
  - unfold woken_slots. eapply sublist_NoDup; [|apply sublist_take].
    apply NoDup_ListNoDup, List.NoDup_filter, NoDup_ListNoDup, NoDup_seq.
  - intros s Hs. apply (subseteq_take (Z.to_nat mx)) in Hs. apply list_elem_of_In, List.filter_In in Hs as [_ Hm].
    unfold matches in Hm. destruct (waiter k s) as [w|]; [|done]. exists w. bool_hyps. done.
Qed.

Lemma wake_spec a mx space k :
  inv k ->
  let ws := woken_slots k a space mx in
  let '(n, k') := wake_waiters_for_address_space a mx space k in
  n = Z.of_nat (length ws) /\ inv k' /\ CURRENT k' = CURRENT k /\
  (forall s, waiter k' s = if decide (s ∈ ws) then None else waiter k s) /\
  (forall i, proc k' i = if decide (Exists (holds_pid k i) ws)
    then (fun p => with_state p Ready) <$> proc k i else proc k i).
Proof using Type.
  intros Hk. cbv zeta. unfold wake_waiters_for_address_space. rewrite wake_loop_eq; [|done|apply NoDup_seq|lia|by cbn].
  cbv zeta. rewrite Z.sub_0_r. fold (woken_slots k a space mx). destruct (woken_slots_ok k a space mx) as [Hnd Hs].
  destruct (foldl_wake_spec (woken_slots k a space mx) k Hk Hnd) as (H1 & H2 & H3).
  { intros s Hin. destruct (Hs s Hin) as (w & -> & _). by eexists. }
  split_and!; try done. clear. generalize (woken_slots k a space mx) as ws. intros ws. revert k.
  induction ws as [|s ws IH]; intros k; [done|]. cbn [foldl]. rewrite IH. unfold wake_slot. destruct (waiter k s); [|done].
  unfold set_state. case_decide; [done|]. by destruct (modify_rest (set_waiters k (<[s := None]> (FUTEX_WAITERS k))) (wpid f)
    (fun p => with_state p Ready)) as (_ & -> & _).
Qed.


(** A process that is not blocked is not affected by a wake-up. *)
Lemma wake_not_blocked a mx space k i p :
  inv k -> proc k i = Some p -> state p <> Blocked ->
  proc (wake_waiters_for_address_space a mx space k).2 i = Some p.
Proof using Type.
  intros Hk Hp Hs. pose proof (wake_spec a mx space k Hk) as H. cbv zeta in H.
  destruct (wake_waiters_for_address_space a mx space k) as [n k']. destruct H as (_ & _ & _ & _ & ->). cbn.
  rewrite decide_False; [done|]. intros (s & Hin & Hh)%Exists_exists. unfold holds_pid in Hh.
  destruct (waiter k s) as [w|] eqn:Ew; [|done]. injection Hh as Hw. apply waiter_Some in Ew.
  by apply (no_slot k i p Hk Hp Hs s w).
Qed.

Lemma live_wake a mx space k : live k -> live (wake_waiters_for_address_space a mx space k).2.
Proof using Type.
  intros Hl. pose proof (live_inv _ Hl) as Hk. pose proof (wake_spec a mx space k Hk) as H. cbv zeta in H.
  pose proof (fun i p => wake_not_blocked a mx space k i p Hk) as Hnb.
  destruct (wake_waiters_for_address_space a mx space k) as [n k']. destruct H as (_ & Hk' & Hc & _ & Hp). cbn in *.
  destruct Hl as [[_ (p0 & Hp0 & Hs0) Hpar] (c & Hcur & Hcs)]. split; [constructor; [done| |]|].
  - exists p0. rewrite Hc. split; [|done]. apply Hnb; [done|]. rewrite Hs0. by destruct (decide _).
  - intros i p. rewrite Hp. destruct (decide (Exists _ _)) as [He|He]; [|apply Hpar].
    destruct (proc k i) as [q|] eqn:Eq; [|done]. intros [= <-]. by apply (Hpar i q Eq).
  - exists c. rewrite Hc. split; [|done]. apply Hnb; [done|]. by destruct Hcs as [->| ->].
Qed.

(** ** Death and signals *)

Lemma free_waiters_waiter i k s :
  waiter (free_waiters_for_pid i k) s =
    match waiter k s with Some w => if decide (wpid w = i) then None else Some w | None => None end.
Proof using Type.
  unfold waiter, free_waiters_for_pid. cbn [set_waiters FUTEX_WAITERS]. rewrite list_lookup_fmap.
  by destruct (FUTEX_WAITERS k !! s) as [[w|]|].
Qed.

Lemma die_spec i p k :
  live k -> i <> 0 -> proc k i = Some p ->
  exists k', die i p k = Ret k' /\ live k' /\ CURRENT k' = CURRENT k /\
    (forall j, proc k' j = if decide (j = i) then Some (with_state p Dead) else proc k j) /\
    (forall s w, waiter k' s = Some w <-> waiter k s = Some w /\ wpid w <> i).
Proof using Type.
  intros Hl Hi Hp. pose proof (live_inv _ Hl) as Hk. destruct Hl as [[_ (p0 & Hp0 & Hs0) Hpar] (c & Hcur & Hcs)].
  unfold die. destruct (dl_total i (fds k) (inv_fds _ Hk)) as (d & Hd & Hdok).
  change (fds (put k i (Some (with_state p Dead)))) with (fds k). rewrite Hd. cbn [mbind outcome_bind]. eexists. split; [done|].
  set (k' := add_cleared _ _).
  assert (forall j, proc k' j = if decide (j = i) then Some (with_state p Dead) else proc k j) as Hproc
    by (intros j; apply (proc_put k); by eapply proc_lt).
  assert (forall s, waiter k' s = match waiter k s with
    | Some w => if decide (wpid w = i) then None else Some w | None => None end) as Hw.
  { intros s. apply (free_waiters_waiter i k). }
  assert (forall s w, waiter k' s = Some w <-> waiter k s = Some w /\ wpid w <> i) as Hiff.
  { intros s w. rewrite Hw. destruct (waiter k s) as [w'|]; [|naive_solver]. destruct (decide (wpid w' = i)); naive_solver. }
  assert (CURRENT k' = CURRENT k) as Hc by done.
  split_and!; try done. split; [constructor|].
  - apply (inv_update k); try done.
    + cbn. rewrite length_insert. apply Hk.
    + apply Hk.
    + cbn. rewrite length_fmap. apply Hk.
    + intros j q. rewrite Hproc. destruct (decide (j = i)) as [->|]; [|apply (inv_proc _ Hk)].
      intros [= <-]. by destruct (inv_proc _ Hk i p Hp) as (? & ? & _).
    + intros s w Hs. apply waiter_Some, Hiff in Hs as [Hs Hne]. apply waiter_Some in Hs. split; [done|].
      rewrite Hproc, decide_False by done. by eapply (inv_wait _ Hk).
  - rewrite Hc, Hproc, decide_False by done. by exists p0.
  - intros j q. rewrite Hproc. destruct (decide (j = i)) as [->|]; [|apply Hpar]. intros [= <-]. by apply (Hpar i p).
  - unfold cur_ok. rewrite Hc, Hproc. destruct (decide (CURRENT k = i)); [eexists; split; [done|by right]|by exists c].
Qed.

Lemma action_total k i p s : inv k -> proc k i = Some p -> exists a, action (signal_state p) s = Ret a.
Proof using Type.
  intros Hk Hp. destruct (inv_proc _ Hk i p Hp) as (_ & Hl & _). unfold action.
  destruct (lookup_lt_is_Some_2 (handlers (signal_state p)) (Z.to_nat (signum s))) as [a Ha].
  { rewrite Hl. pose proof (signum_range s). lia. }
  exists a. by apply index_lt.
Qed.

Lemma live_put_signals i p st k :
  live k -> proc k i = Some p -> length (handlers st) = length (handlers (signal_state p)) ->
  live (put k i (Some (with_signals p st))).
Proof using Type.
  intros Hl Hp Hlen. replace (put _ _ _) with (modify k i (fun p => with_signals p st)) by (unfold modify; by rewrite Hp).
  apply live_modify; [done|]. intros q Hq. assert (q = p) as -> by congruence. split_and!; try done; by left.
Qed.

(** [deliver_signal_to] never panics and keeps the system live. *)
Lemma live_deliver i s k : live k -> exists r k', deliver_signal_to i s k = Ret (r, k') /\ live k' /\ CURRENT k' = CURRENT k.
Proof using Type.
  intros Hl. unfold deliver_signal_to. case_decide as H0; [by eauto|]. case_decide; [by eauto|].
  destruct (proc k i) as [p|] eqn:Hp; [|by eauto]. case_decide; [by eauto|].
  destruct (die_spec i p k Hl H0 Hp) as (kd & Hd & Hld & Hcd & _). case_decide.
  { rewrite Hd. cbn. by eauto. }
  destruct (action_total k i p s (live_inv _ Hl) Hp) as [a Ha]. rewrite Ha. cbn [mbind outcome_bind].
  destruct a as [| |h].
  - destruct (default_action s); [rewrite Hd; cbn|]; by eauto.
  - by eauto.
  - eexists _, _. split; [done|]. split; [by apply live_put_signals|done].
Qed.


Lemma live_kill t n k : live k -> exists r k', sys_kill t n k = Ret (r, k') /\ live k' /\ CURRENT k' = CURRENT k.
Proof using Type.
  intros Hl. unfold sys_kill. destruct (from_u32 n) as [s|]; [|by eauto]. destruct (256 <=? t)%Z; [by eauto|].
  case_decide; [by eauto|]. case_decide; [by apply live_deliver|].
  destruct (capability.check _ _); [by apply live_deliver|by eauto].
Qed.

Lemma live_sigaction n h k :
  live k -> exists r k', sys_sigaction n h k = Ret (r, k') /\ live k' /\ CURRENT k' = CURRENT k.
Proof using Type.
  intros Hl. unfold sys_sigaction. destruct (from_u32 n) as [s|]; [|by eauto].
  destruct (_ && _); [by eexists _, _|]. pose proof (live_inv _ Hl) as Hk. destruct (proj2 Hl) as (c & Hc & Hs).
  unfold set_signal_action. rewrite Hc. unfold set_action.
  destruct (inv_proc _ Hk _ c Hc) as (_ & Hlen & _). pose proof (signum_range s).
  rewrite store_lt by lia. cbn [mbind outcome_bind]. eexists _, _. split; [done|]. split; [|done].
  apply live_put_signals; [done|done|]. cbn. by rewrite length_insert.
Qed.

(** [waitpid] removes a dead child of the caller, or does nothing. *)
Lemma waitpid_cases c k :
  waitpid c k = (None, k) \/
  exists p, c < MAX_PROCS /\ proc k c = Some p /\ parent p = Some (CURRENT k) /\ state p = Dead /\
    waitpid c k = (Some (exit_status p), put k c None).
Proof using Type.
  unfold waitpid. destruct (decide (MAX_PROCS <= c)); [by left|]. destruct (proc k c) as [p|] eqn:Hp; [|by left].
  destruct (decide (parent p = _)); [|by left]. destruct (decide (state p = Dead)); [|by left].
  right. exists p. split_and!; try done. lia.
Qed.

Lemma live_waitpid c k : live k -> live (waitpid c k).2.
Proof using Type.
  intros Hl. destruct (waitpid_cases c k) as [->|(p & Hlt & Hp & Hpar & Hs & ->)]; [done|]. cbn [snd].
  pose proof (live_inv _ Hl) as Hk. destruct Hl as [[_ (p0 & Hp0 & Hs0) Hpa] (q & Hq & Hqs)].
  assert (forall i, proc (put k c None) i = if decide (i = c) then None else proc k i) as Hproc.
  { intros i. apply proc_put. by eapply proc_lt. }
  assert (c <> CURRENT k) as Hne by (intros ->; by apply (Hpa _ p Hp)).
  assert (c <> 0) as Hn0 by (intros ->; rewrite Hp in Hp0; injection Hp0 as <-; rewrite Hs in Hs0; by destruct (decide _)).
  split; [constructor|].
  - apply (inv_update k); try apply Hk.
    + cbn. rewrite length_insert. apply Hk.
    + intros i x. rewrite Hproc. destruct (decide (i = c)); [done|apply (inv_proc _ Hk)].
    + intros s w Hw. split; [done|]. rewrite Hproc. rewrite decide_False; [by eapply (inv_wait _ Hk)|].
      intros He. apply (no_slot k c p Hk Hp) in Hw; [done|congruence].
  - rewrite Hproc, decide_False by done. by exists p0.
  - intros i x. rewrite Hproc. destruct (decide (i = c)); [done|apply Hpa].
  - exists q. change (CURRENT (put k c None)) with (CURRENT k). by rewrite Hproc, decide_False.
Qed.

Lemma live_reap ps k : live k -> live (reap_loop ps k).2.
Proof using Type.
  revert k. induction ps as [|c ps IH]; intros k Hl; [done|]. cbn [reap_loop].
  pose proof (live_waitpid c k Hl) as Hw. destruct (waitpid c k) as [o k1]. cbn [snd] in Hw. specialize (IH k1 Hw).
  by destruct (reap_loop ps k1).
Qed.


(** ** The step relation

    What the kernel does between two instructions of user code: a trap is
    entered or left, the timer ticks, the current process makes a system call,
    a pending signal is consumed, or the service loop of PID 0 reaps. Calls
    that block are made by user processes only. The memory of the caller and
    the tick count are arbitrary. These are the steps on the table alone:
    [Population] adds the calls that create, replace and end processes, the
    faults and the restarts, and builds its relation on this one. *)
Inductive step {U} `{!UserMemory U} : kernel D -> kernel D -> Prop :=
  | step_trap_enter f k : step k (trap_enter f k)
  | step_trap_leave k : step k (trap_leave k)
  | step_tick now k : step k (timer_tick now k)
  | step_yield now k : step k (sys_yield now k).2
  | step_sleep now ms k : CURRENT k <> 0 -> step k (sys_sleep now ms k).2
  | step_nanosleep (u : U) now ptr k : CURRENT k <> 0 -> step k (sys_nanosleep u now ptr k).2
  | step_futex (u : U) now a op v k : CURRENT k <> 0 -> step k (sys_futex u now a op v k).2
  | step_kill t n k r k' : sys_kill t n k = Ret (r, k') -> step k k'
  | step_sigaction n h k r k' : sys_sigaction n h k = Ret (r, k') -> step k k'
  | step_consume s k : step k (clear_pending_for_current s k)
  | step_reset_signals k : step k (reset_signal_state k)
  | step_waitpid c k : step k (sys_waitpid c k).2
  | step_reap k : step k (reap_dead_children k).2
  | step_brk b k : step k (set_heap_break b k)
  | step_add_mapping m k : step k (add_mapping m k).2
  | step_remove_mapping a k : step k (remove_mapping a k).2
  | step_mapping_prot a pr k : step k (update_mapping_prot a pr k).2.

Lemma live_put_mappings ms p k :
  live k -> proc k (CURRENT k) = Some p -> live (put k (CURRENT k) (Some (with_mappings p ms))).
Proof using Type.
  intros Hl Hp. replace (put _ _ _) with (modify k (CURRENT k) (fun p => with_mappings p ms)) by (unfold modify; by rewrite Hp).
  apply live_modify; [done|]. intros q Hq. split_and!; try done; by left.
Qed.

Lemma live_futex {U} `{!UserMemory U} (u : U) now a op v k :
  live k -> CURRENT k <> 0 -> live (sys_futex u now a op v k).2.
Proof using Type.
  intros Hl Hc. unfold sys_futex. destruct (_ =? _)%Z; [by apply live_futex_wait|].
  destruct (op =? FUTEX_WAKE)%Z; [|done]. unfold sys_futex_wake. destruct (a =? 0)%Z; [done|]. by apply live_wake.
Qed.

Lemma live_nanosleep {U} `{!UserMemory U} (u : U) now ptr k :
  live k -> CURRENT k <> 0 -> live (sys_nanosleep u now ptr k).2.
Proof using Type.
  intros Hl Hc. unfold sys_nanosleep. destruct (um_copy_from u ptr 8); [|done].
  destruct (words_of_bytes _) as [|? [|? []]]; try done. destruct (_ <=? _)%Z; [done|by apply live_sleep].
Qed.

Lemma live_sys_waitpid c k : live k -> live (sys_waitpid c k).2.
Proof using Type.
  intros Hl. unfold sys_waitpid. destruct (_ <=? _)%Z; [done|]. pose proof (live_waitpid (Z.to_nat c) k Hl) as H.
  by destruct (waitpid _ k) as [[]].
Qed.

Lemma live_step {U} `{!UserMemory U} k k' : live k -> step (U:=U) k k' -> live k'.
Proof using Type.
  intros Hl Hs. destruct Hs as [f k|k|now k|now k|now ms k Hc|u now ptr k Hc|u now a op v k Hc|t n k x k' E|n h k x k' E
    |s k|k|c k|k|b k|m k|a k|a pr k].
  - by apply live_frame.
  - by apply live_frame.
  - by apply live_timer_tick.
  - by apply live_yield.
  - by apply live_sleep.
  - by apply live_nanosleep.
  - by apply live_futex.
  - destruct (live_kill t n k Hl) as (? & ? & E' & ? & _). rewrite E in E'. by injection E' as <- <-.
  - destruct (live_sigaction n h k Hl) as (? & ? & E' & ? & _). rewrite E in E'. by injection E' as <- <-.
  - apply live_modify; [done|]. intros p _. split_and!; try done; by left.
  - apply live_modify; [done|]. intros p Hp. destruct (inv_proc _ (live_inv _ Hl) _ p Hp) as (_ & -> & _).
    split_and!; try done; by left.
  - by apply live_sys_waitpid.
  - by apply live_reap.
  - apply live_modify; [done|]. intros p _. split_and!; try done; by left.
  - unfold add_mapping. destruct (proc k (CURRENT k)) eqn:E; [|done]. case_match; [by apply live_put_mappings|done].
  - unfold remove_mapping. destruct (proc k (CURRENT k)) eqn:E; [|done]. destruct (list_find _ _) as [[]|]; [by apply live_put_mappings|done].
  - unfold update_mapping_prot. destruct (proc k (CURRENT k)) eqn:E; [|done].
    destruct (list_find _ _) as [[? []]|]; [by apply live_put_mappings|done|done].
Qed.


(** ** What a step does to the processes that do not run *)

(** Their register files are untouched; a slot is emptied only after death. *)
Definition others k k' : Prop := forall i p, i <> CURRENT k -> proc k i = Some p ->
  match proc k' i with Some q => ctx q = ctx p | None => state p = Dead end.

(** Either the same process keeps the processor, or the scheduler has chosen
    the successor among the processes as they were, and the frame about to be
    resumed is the one its PCB held. *)
Definition handover k k' : Prop :=
  CURRENT k' <> CURRENT k /\
  (exists now k1, CURRENT k' = (schedule now k1).1 /\ inv k1 /\ CURRENT k1 = CURRENT k /\
    forall i, i <> CURRENT k -> proc k1 i = proc k i) /\
  (ACTIVE_FRAME k <> None -> ACTIVE_FRAME k' = ctx <$> proc k (CURRENT k')).

Lemma others_eq k k' : (forall i, i <> CURRENT k -> proc k' i = proc k i) -> others k k'.
Proof using Type. intros H i p Hi Hp. by rewrite (H i Hi), Hp. Qed.

Lemma others_modify k f : others k (modify k (CURRENT k) f).
Proof using Type. apply others_eq. intros i Hi. by rewrite proc_modify, decide_False. Qed.

Lemma others_put k o p : proc k (CURRENT k) = Some p -> others k (put k (CURRENT k) o).
Proof using Type. intros Hp. apply others_eq. intros i Hi. by rewrite proc_put, decide_False by (try eapply proc_lt; done). Qed.

(** The scheduler round every switching path ends with. *)
Lemma handover_round now k k1 f :
  base k1 -> CURRENT k1 = CURRENT k -> (forall i, i <> CURRENT k -> proc k1 i = proc k i) ->
  (ACTIVE_FRAME k <> None -> f <> None) -> (schedule now k1).1 <> CURRENT k ->
  let k' := switch_to (schedule now k1).1 (set_frame (schedule now k1).2 f (FRAME_SWITCHED (schedule now k1).2)) in
  others k k' /\ handover k k'.
Proof using Type.
  intros Hb Hc Hsame Hf Hne k'. rewrite <- Hc in Hne.
  destruct (schedule_ready now k1 (base_inv _ Hb) Hne) as (p & Hp & Hs). unfold k'. clear k'.
  pose proof (schedule_proc now k1) as Hsp. pose proof (switch_proc (schedule now k1).1
    (set_frame (schedule now k1).2 f (FRAME_SWITCHED (schedule now k1).2)) p Hp Hne) as (Hcur & Hfr & Hproc).
  set (k' := switch_to _ _) in *. rewrite Hc in *.
  assert (ctx <$> proc k (schedule now k1).1 = Some (ctx p)) as Hctx.
  { rewrite Hsp, Hsame in Hp by done. pose proof (wake_sleeper_spec now (proc k (schedule now k1).1)) as Hw.
    destruct (proc k _) as [q|]; [|done]. rewrite Hp in Hw. by destruct Hw as [->|[_ ->]]. }
  split.
  - intros i q Hi Hq. rewrite Hproc. destruct (decide (i = _)) as [->|Hin].
    { rewrite Hq in Hctx. by injection Hctx as ->. }
    rewrite save_current_proc. rewrite decide_False by (cbn; congruence).
    change (proc (set_frame ?x _ _) i) with (proc x i). rewrite Hsp, Hsame, Hq by done.
    destruct (wake_sleeper_Some now q) as (q' & -> & Hw). by destruct Hw as [->|[_ ->]].
  - unfold handover. rewrite Hcur. split_and!; [done|exists now, k1; by split_and!; try apply Hb|].
    intros Hk. rewrite Hctx, Hfr. cbn. destruct f; [done|]. by destruct (Hf Hk).
Qed.


Definition moved k k' : Prop := others k k' /\ (CURRENT k' = CURRENT k \/ handover k k').

Lemma moved_stay k k' : others k k' -> CURRENT k' = CURRENT k -> moved k k'.
Proof using Type. intros. split; [done|by left]. Qed.

Lemma moved_same k k' : (forall i, i <> CURRENT k -> proc k' i = proc k i) -> CURRENT k' = CURRENT k -> moved k k'.
Proof using Type. intros. apply moved_stay; [by apply others_eq|done]. Qed.

Lemma moved_modify k f : moved k (modify k (CURRENT k) f).
Proof using Type.
  apply moved_stay; [apply others_modify|]. by destruct (modify_rest k (CURRENT k) f) as (_ & ? & _).
Qed.

Lemma moved_put k o p : proc k (CURRENT k) = Some p -> moved k (put k (CURRENT k) o).
Proof using Type. intros. by apply moved_stay; [eapply others_put|]. Qed.

Lemma others_schedule now k : others k (schedule now k).2.
Proof using Type.
  intros i p _ Hp. rewrite schedule_proc, Hp. destruct (wake_sleeper_Some now p) as (q & -> & [->|[_ ->]]); done.
Qed.

(** A scheduler round from a state that differs from [k] in the current
    process only. *)
Lemma moved_round now k k1 (g h : kernel D -> kernel D) :
  base k1 -> CURRENT k1 = CURRENT k -> (forall i, i <> CURRENT k -> proc k1 i = proc k i) ->
  ACTIVE_FRAME k1 = ACTIVE_FRAME k ->
  (forall k, exists f, g k = set_frame k f (FRAME_SWITCHED k) /\ (ACTIVE_FRAME k <> None -> f <> None)) ->
  (forall k, CURRENT (h k) = CURRENT k /\ forall i, i <> CURRENT k -> proc (h k) i = proc k i) ->
  let '(n, k2) := schedule now k1 in
  moved k (if decide (n = CURRENT k2) then h k2 else switch_to n (g k2)).
Proof using Type.
  intros Hb Hc Hsame Hfr Hg Hh. pose proof (handover_round now k k1) as Hround.
  pose proof (others_schedule now k1) as Hos. assert (CURRENT (schedule now k1).2 = CURRENT k) as Hc' by done.
  assert (ACTIVE_FRAME (schedule now k1).2 = ACTIVE_FRAME k) as Hfr2 by done.
  destruct (schedule now k1) as [n k2]. cbn [fst snd] in *.
  destruct (decide (n = CURRENT k2)) as [He|He].
  - destruct (Hh k2) as [Hc2 Hp2]. apply moved_stay; [|congruence].
    intros i p Hi Hp. rewrite Hp2 by congruence. rewrite <- Hsame in Hp by done. apply (Hos i p); [|done]. congruence.
  - destruct (Hg k2) as (f & -> & Hnone). destruct (Hround f) as [Ho Hh']; try done;
      [intros; apply Hnone; congruence|congruence|].
    split; [done|by right].
Qed.

Lemma set_trap_return_round v k :
  exists f, set_trap_return v k = set_frame k f (FRAME_SWITCHED k) /\ (ACTIVE_FRAME k <> None -> f <> None).
Proof using Type.
  unfold set_trap_return. destruct (ACTIVE_FRAME k) as [f|] eqn:E; [by eexists|].
  exists None. split; [|done]. destruct k; cbn in *. by subst.
Qed.

Lemma moved_sleep now w k : live k -> CURRENT k <> 0 -> moved k (sleep_until now w k).2.
Proof using Type.
  intros Hl Hc. destruct (modify_rest k (CURRENT k) (fun p => with_wake p Sleeping w)) as (_ & Hcu & _).
  pose proof (moved_round now k (set_wake_tick w k) (set_trap_return 0) clear_wake_tick) as H.
  unfold sleep_until. destruct (schedule now (set_wake_tick w k)) as [n k2].
  destruct (decide (n = CURRENT k2)); apply H; try done; try apply set_trap_return_round; clear H.
  all: try (intros i Hi; unfold set_wake_tick; by rewrite proc_modify, decide_False).
  all: try (unfold set_wake_tick, modify; by destruct (proc k (CURRENT k))).
  all: try (intros k'; split; [by destruct (modify_rest k' (CURRENT k') (fun p => with_wake p Running 0)) as (_ & ? & _)|];
    intros i Hi; unfold clear_wake_tick; by rewrite proc_modify, decide_False).
  all: apply base_modify; [apply Hl|]; intros p Hp; split_and!; try done; right;
    split_and!; [done|by apply (cur_not_blocked k)|done].
Qed.


Lemma moved_tick now k : live k -> moved k (timer_tick now k).
Proof using Type.
  intros Hl. pose proof (moved_round now k k (fun k => k) (fun k => k)) as H. unfold timer_tick.
  destruct (schedule now k) as [n k2]. apply H; try done; [apply Hl|].
  intros k'. exists (ACTIVE_FRAME k'). split; [by destruct k'|done].
Qed.

Lemma moved_yield now k : live k -> moved k (sys_yield now k).2.
Proof using Type.
  intros Hl. pose proof (moved_round now k k (set_trap_return 0) (fun k => k)) as H. unfold sys_yield.
  destruct (schedule now k) as [n k2].
  destruct (decide (n = CURRENT k2)); apply H; try done; try apply set_trap_return_round; apply Hl.
Qed.

Lemma moved_futex_wait {U} `{!UserMemory U} (u : U) now a v k :
  live k -> CURRENT k <> 0 -> moved k (sys_futex_wait u now a v k).2.
Proof using Type.
  intros Hl Hc. assert (moved k k) as Hid by (by apply moved_same).
  destruct (um_copy_from u a 4) as [bs|] eqn:Ecp; [|unfold sys_futex_wait; by rewrite Ecp].
  destruct (words_of_bytes bs) as [|cv [|]] eqn:Ew; try (unfold sys_futex_wait; rewrite Ecp, Ew; done).
  destruct (Z.eqb_spec cv v) as [->|Hne]; [|unfold sys_futex_wait; rewrite Ecp, Ew; by rewrite (proj2 (Z.eqb_neq cv v))].
  destruct (futex_wait_blocks u now a v bs k Hl Hc Ecp Ew) as [slot H].
  pose proof (live_inv _ Hl) as Hk. destruct (block_rest a slot k Hk) as (_ & Hcu & _).
  pose proof (moved_round now k (block a slot k) (set_trap_return 0) (fun k => k)) as Hm.
  destruct (schedule now (block a slot k)) as [n k1]. destruct H as (Hnone & Hn & _ & _ & Hc1 & ->).
  rewrite decide_False in Hm by congruence. apply Hm; try done; try apply set_trap_return_round.
  - by apply base_block.
  - intros i Hi. by rewrite block_proc, decide_False.
  - unfold block, set_state. case_decide; [done|]. unfold modify. by case_match.
Qed.

Lemma moved_wake a mx space k : inv k -> moved k (wake_waiters_for_address_space a mx space k).2.
Proof using Type.
  intros Hk. pose proof (wake_spec a mx space k Hk) as H. cbv zeta in H.
  destruct (wake_waiters_for_address_space a mx space k) as [n k']. destruct H as (_ & _ & Hc & _ & Hp). cbn.
  apply moved_stay; [|done]. intros i p Hi Hip. rewrite Hp, Hip. by destruct (decide _).
Qed.

Lemma moved_deliver i s k r k' : live k -> deliver_signal_to i s k = Ret (r, k') -> moved k k'.
Proof using Type.
  intros Hl. assert (moved k k) as Hid by (by apply moved_same). unfold deliver_signal_to.
  case_decide as H0; [congruence|]. case_decide; [congruence|].
  destruct (proc k i) as [p|] eqn:Hp; [|congruence]. case_decide; [congruence|].
  assert (forall q, ctx q = ctx p -> others k (put k i (Some q))) as Hput.
  { intros q He j x Hj Hx.
    rewrite proc_put by (by eapply proc_lt). destruct (decide (j = i)) as [->|]; [congruence|by rewrite Hx]. }
  destruct (die_spec i p k Hl H0 Hp) as (kd & Hd & _ & Hcd & Hpd & _).
  assert (moved k kd) as Hmd.
  { apply moved_stay; [|done]. intros j x Hj Hx. rewrite Hpd.
    destruct (decide (j = i)) as [->|]; [rewrite Hp in Hx; by injection Hx as <-|by rewrite Hx]. }
  case_decide; [rewrite Hd; cbn; congruence|]. destruct (action _ _) as [[| |h]|]; cbn; [|congruence| |done].
  - destruct (default_action s); [rewrite Hd; cbn|]; congruence.
  - intros [= _ <-]. apply moved_stay; [by apply Hput|done].
Qed.

Lemma moved_kill t n k r k' : live k -> sys_kill t n k = Ret (r, k') -> moved k k'.
Proof using Type.
  intros Hl. assert (moved k k) as Hid by (by apply moved_same). unfold sys_kill.
  destruct (from_u32 n) as [s|]; [|congruence]. destruct (256 <=? t)%Z; [congruence|].
  case_decide; [congruence|]. case_decide; [by apply moved_deliver|].
  destruct (capability.check _ _); [by apply moved_deliver|congruence].
Qed.

Lemma moved_sigaction n h k r k' : sys_sigaction n h k = Ret (r, k') -> moved k k'.
Proof using Type.
  assert (moved k k) as Hid by (by apply moved_same). unfold sys_sigaction.
  destruct (from_u32 n) as [s|]; [|congruence]. destruct (_ && _); [congruence|].
  unfold set_signal_action. destruct (proc k (CURRENT k)) as [p|] eqn:Hp; [|cbn; congruence].
  destruct (set_action _ _ _); cbn; [|done]. intros [= _ <-]. by eapply moved_put.
Qed.

Lemma waitpid_others c k : others k (waitpid c k).2 /\ CURRENT (waitpid c k).2 = CURRENT k.
Proof using Type.
  destruct (waitpid_cases c k) as [->|(p & _ & Hp & _ & Hs & ->)]; (split; [|done]); intros i q Hi Hq; cbn [snd].
  - by rewrite Hq.
  - rewrite proc_put by (by eapply proc_lt). destruct (decide (i = c)); [congruence|by rewrite Hq].
Qed.

Lemma moved_sys_waitpid c k : moved k (sys_waitpid c k).2.
Proof using Type.
  unfold sys_waitpid. destruct (_ <=? _)%Z; [by apply moved_same|].
  pose proof (waitpid_others (Z.to_nat c) k) as [Ho Hc]. destruct (waitpid _ k) as [[]]; by apply moved_stay.
Qed.

Lemma reap_none ps k i : proc k i = None -> proc (reap_loop ps k).2 i = None.
Proof using Type.
  revert k. induction ps as [|c ps IH]; intros k Hi; [done|]. cbn [reap_loop].
  destruct (waitpid_cases c k) as [->|(p & _ & Hp & _ & _ & ->)].
  - specialize (IH k Hi). by destruct (reap_loop ps k).
  - specialize (IH (put k c None)). destruct (reap_loop ps (put k c None)). apply IH.
    rewrite proc_put by (by eapply proc_lt). by destruct (decide (i = c)).
Qed.

Lemma moved_reap k : moved k (reap_dead_children k).2.
Proof using Type.
  unfold reap_dead_children. generalize (seq 0 MAX_PROCS). intros ps.
  assert (others k (reap_loop ps k).2 /\ CURRENT (reap_loop ps k).2 = CURRENT k) as []; [|by apply moved_stay].
  revert k. induction ps as [|c ps IH]; intros k; [split; [by apply others_eq|done]|]. cbn [reap_loop].
  destruct (waitpid_cases c k) as [->|(p & _ & Hp & _ & Hs & ->)].
  - specialize (IH k). by destruct (reap_loop ps k).
  - pose proof (IH (put k c None)) as [Ho Hc]. destruct (reap_loop ps (put k c None)) as [n k2] eqn:E2. split; [|done].
    cbn [snd] in *. intros i q Hi Hq. assert (forall j, proc (put k c None) j = if decide (j = c) then None else proc k j) as Hj
      by (intros j; apply proc_put; by eapply proc_lt).
    destruct (decide (i = c)) as [->|Hne].
    + pose proof (reap_none ps (put k c None) c) as Hn. rewrite E2 in Hn. cbn [snd] in Hn.
      rewrite Hn; [congruence|]. by rewrite Hj, decide_True.
    + apply (Ho i q); [done|]. by rewrite Hj, decide_False.
Qed.

(** A step never touches the register file of another process, and the
    processor changes hands only through the scheduler. *)
Lemma step_moved {U} `{!UserMemory U} k k' : live k -> step (U:=U) k k' -> moved k k'.
Proof using Type.
  intros Hl Hs. assert (forall k, moved k k) as Hid by (intros; by apply moved_same).
  destruct Hs as [f k|k|now k|now k|now ms k Hc|u now ptr k Hc|u now a op v k Hc|t n k x k' E|n h k x k' E
    |s k|k|c k|k|b k|m k|a k|a pr k].
  - by apply moved_same.
  - by apply moved_same.
  - by apply moved_tick.
  - by apply moved_yield.
  - by apply moved_sleep.
  - unfold sys_nanosleep. destruct (um_copy_from u ptr 8); [|done].
    destruct (words_of_bytes _) as [|? [|? []]]; try done. destruct (_ <=? _)%Z; [done|by apply moved_sleep].
  - unfold sys_futex. destruct (_ =? _)%Z; [by apply moved_futex_wait|].
    destruct (op =? FUTEX_WAKE)%Z; [|done]. unfold sys_futex_wake. destruct (a =? 0)%Z; [done|].
    by apply moved_wake, live_inv.
  - by eapply moved_kill.
  - by eapply moved_sigaction.
  - apply moved_modify.
  - apply moved_modify.
  - by apply moved_sys_waitpid.
  - by apply moved_reap.
  - apply moved_modify.
  - unfold add_mapping. destruct (proc k (CURRENT k)) eqn:E; [|done]. case_match; [by eapply moved_put|done].
  - unfold remove_mapping. destruct (proc k (CURRENT k)) eqn:E; [|done].
    destruct (list_find _ _) as [[]|]; [by eapply moved_put|done].
  - unfold update_mapping_prot. destruct (proc k (CURRENT k)) eqn:E; [|done].
    destruct (list_find _ _) as [[? []]|]; [by eapply moved_put|done|done].
Qed.


(** ** Runs *)

Section runs.
Context {U : Type} `{!UserMemory U}.

(** A run during which process [i] is in the table and off the processor (the
    last state apart). *)
Inductive away (i : nat) : kernel D -> kernel D -> Prop :=
  | away_refl k : away i k k
  | away_step k1 k2 k3 :
      away i k1 k2 -> CURRENT k2 <> i -> is_Some (proc k2 i) -> step (U:=U) k2 k3 -> away i k1 k3.

(** A run of [n] timer ticks, and any other steps, through which process [i]
    stays ready. *)
Inductive waiting (i : nat) : nat -> kernel D -> kernel D -> Prop :=
  | waiting_refl k : waiting i 0 k k
  | waiting_step n k1 k2 k3 : waiting i n k1 k2 -> step (U:=U) k2 k3 -> ready k3 i -> waiting i n k1 k3
  | waiting_tick n now k1 k2 :
      waiting i n k1 k2 -> ready (timer_tick now k2) i -> waiting i (S n) k1 (timer_tick now k2).

(** How far process [i] is behind the current one in the order of the scan. *)
Definition distance k (i : nat) : nat := (i + MAX_PROCS - CURRENT k) mod MAX_PROCS.

Lemma away_live i k k' : away i k k' -> live k -> live k'.
Proof using Type. induction 1 as [|k1 k2 k3 _ IH _ _ Hs]; [done|]. intros Hl. exact (live_step k2 k3 (IH Hl) Hs). Qed.

Lemma away_ctx i k k' :
  away i k k' -> live k -> forall p q, proc k i = Some p -> proc k' i = Some q -> ctx q = ctx p.
Proof using Type.
  induction 1 as [k|k1 k2 k3 Ha IH Hc [x Hx] Hs]; intros Hl p q Hp Hq; [congruence|].
  destruct (step_moved (U:=U) k2 k3) as [Ho _]; [by eapply away_live|done|].
  pose proof (Ho i x ltac:(done) Hx) as H. rewrite Hq in H. rewrite H. by apply IH.
Qed.

Lemma ready_not_current k i : live k -> ready k i -> i <> CURRENT k.
Proof using Type. intros [_ (c & Hc & Hs)] (p & Hp & Hr) ->. rewrite Hc in Hp. injection Hp as ->. by destruct Hs; congruence. Qed.

Lemma distance_lt k i : distance k i < MAX_PROCS.
Proof using Type. apply Nat.mod_upper_bound. done. Qed.

Lemma distance_pos k i : inv k -> i < MAX_PROCS -> i <> CURRENT k ->
  1 <= distance k i /\ (CURRENT k + distance k i) mod MAX_PROCS = i.
Proof using Type.
  intros Hk Hi Hne. pose proof (inv_cur _ Hk) as Hc. unfold distance. unfold MAX_PROCS in *.
  destruct (decide (CURRENT k < i)).
  - assert ((i + 16 - CURRENT k) mod 16 = i - CURRENT k) as -> by (symmetry; apply (Nat.mod_unique _ _ 1); lia).
    split; [lia|]. rewrite Nat.mod_small; lia.
  - rewrite (Nat.mod_small (i + 16 - CURRENT k)) by lia. split; [lia|].
    symmetry; apply (Nat.mod_unique _ _ 1); lia.
Qed.

(** The scheduler never goes past a ready process. *)
Lemma handover_distance k k' i :
  inv k -> handover k k' -> ready k i -> i <> CURRENT k -> i <> CURRENT k' -> distance k' i < distance k i.
Proof using Type.
  intros Hk (Hne & (now & k1 & Hn & Hk1 & Hc1 & Hsame) & _) (p & Hp & Hs) Hic Hic'.
  pose proof (proc_lt _ _ _ Hp) as Hi. rewrite (inv_len _ Hk) in Hi.
  destruct (distance_pos k i Hk Hi Hic) as [Hd1 Hd2]. pose proof (distance_lt k i) as Hd3.
  pose proof (schedule_next now k1 Hk1) as H. assert (ready (schedule now k1).2 i) as Hri.
  { exists p. rewrite schedule_proc, Hsame, Hp by done. cbn. by rewrite decide_False by congruence. }
  destruct (schedule now k1) as [n k2]. cbn [fst snd] in *. rewrite Hc1 in H.
  destruct H as [(o & Ho & -> & _ & Hmin)|[-> _]]; [|congruence].
  assert (o <= distance k i) as Hle.
  { destruct (decide (o <= distance k i)); [done|]. destruct (Hmin (distance k i)); [lia|]. by rewrite Hd2. }
  assert (o <> distance k i) as Hno by (intros ->; congruence).
  unfold distance at 1. rewrite Hn, <- Hd2 at 1. pose proof (inv_cur _ Hk) as Hc.
  remember (distance k i) as d. clear Heqd Hmin. unfold MAX_PROCS in *.
  assert (forall x, x < 32 -> x mod 16 = if decide (x < 16) then x else x - 16) as Hmod.
  { intros x Hx. destruct (decide (x < 16)); [by apply Nat.mod_small|]. symmetry. apply (Nat.mod_unique _ _ 1); lia. }
  rewrite (Hmod (CURRENT k + d)), (Hmod (CURRENT k + o)) by lia.
  rewrite Hmod by (destruct (decide (CURRENT k + d < 16)), (decide (CURRENT k + o < 16)); lia).
  destruct (decide (CURRENT k + d < 16)), (decide (CURRENT k + o < 16)); destruct (decide _); lia.
Qed.
End runs.


Lemma tick_moves now k i : live k -> ready k i -> CURRENT (timer_tick now k) <> CURRENT k.
Proof using Type.
  intros Hl Hr. pose proof (live_inv _ Hl) as Hk. pose proof (ready_not_current k i Hl Hr) as Hne.
  destruct Hr as (p & Hp & Hs). pose proof (proc_lt _ _ _ Hp) as Hi. rewrite (inv_len _ Hk) in Hi.
  destruct (distance_pos k i Hk Hi Hne) as [Hd1 Hd2]. pose proof (distance_lt k i) as Hd3.
  assert (ready (schedule now k).2 i) as Hri.
  { exists p. rewrite schedule_proc, Hp. cbn. by rewrite decide_False by congruence. }
  pose proof (schedule_next now k Hk) as Hn. assert (CURRENT (schedule now k).2 = CURRENT k) as Hc by done.
  unfold timer_tick. destruct (schedule now k) as [n k2]. cbn [snd] in *. rewrite Hc.
  assert (n <> CURRENT k) as Hnc.
  { destruct Hn as [(o & Ho & -> & _)|[_ Hno]]; [|exfalso; apply (Hno (distance k i)); [lia|by rewrite Hd2]].
    pose proof (inv_cur _ Hk). unfold MAX_PROCS in *. intros He.
    destruct (decide (CURRENT k + o < 16)); [rewrite Nat.mod_small in He by done; lia|].
    assert ((CURRENT k + o) mod 16 = CURRENT k + o - 16); [|lia]. symmetry. apply (Nat.mod_unique _ _ 1); lia. }
  rewrite decide_False by done. destruct Hn as [(o & _ & _ & (q & Hq & _) & _)|[? _]]; [|done].
  destruct (switch_proc n k2 q Hq ltac:(congruence)) as (-> & _). done.
Qed.

Lemma waiting_distance {U} `{!UserMemory U} i n k k' :
  waiting (U:=U) i n k k' -> live k -> ready k i -> live k' /\ ready k' i /\ distance k' i + n <= distance k i.
Proof using Type.
  intros Hw Hl Hr. assert (forall k1 k2, live k1 -> ready k1 i -> live k2 -> ready k2 i -> moved k1 k2 ->
    distance k2 i <= distance k1 i /\ (CURRENT k2 <> CURRENT k1 -> distance k2 i < distance k1 i)) as Hdist.
  { intros k1 k2 Hl1 Hr1 Hl2 Hr2 [_ [Hc|Hh]].
    - unfold distance. by rewrite Hc.
    - pose proof (handover_distance k1 k2 i (live_inv _ Hl1) Hh Hr1 (ready_not_current _ _ Hl1 Hr1)
        (ready_not_current _ _ Hl2 Hr2)). split; [lia|done]. }
  induction Hw as [k|n k1 k2 k3 _ IH Hs Hr3|n now k1 k2 _ IH Hr3]; [split_and!; [done|done|lia]|..];
    destruct (IH Hl Hr) as (Hl2 & Hr2 & Hd).
  - pose proof (live_step k2 k3 Hl2 Hs) as Hl3. destruct (Hdist k2 k3 Hl2 Hr2 Hl3 Hr3 (step_moved k2 k3 Hl2 Hs)).
    split_and!; [done|done|lia].
  - pose proof (live_timer_tick now k2 Hl2) as Hl3.
    destruct (Hdist k2 _ Hl2 Hr2 Hl3 Hr3 (moved_tick now k2 Hl2)) as [_ Hlt].
    pose proof (Hlt (tick_moves now k2 i Hl2 Hr2)). split_and!; [done|done|lia].
Qed.

(** ** The frame a trap resumes *)

(** A step that keeps the processor leaves the trap frame alone; one that hands
    it over inside a trap says so. *)
Definition frame_ok k k' : Prop :=
  (CURRENT k' = CURRENT k -> ACTIVE_FRAME k' = ACTIVE_FRAME k /\ FRAME_SWITCHED k' = FRAME_SWITCHED k) /\
  (CURRENT k' <> CURRENT k -> ACTIVE_FRAME k <> None -> FRAME_SWITCHED k' = true).

Definition same_trap k k' : Prop :=
  CURRENT k' = CURRENT k /\ ACTIVE_FRAME k' = ACTIVE_FRAME k /\ FRAME_SWITCHED k' = FRAME_SWITCHED k.

Lemma same_trap_ok k k' : same_trap k k' -> frame_ok k k'.
Proof using Type. intros (? & ? & ?). by split. Qed.

Lemma same_trap_modify k i f : same_trap k (modify k i f).
Proof using Type. unfold modify. by destruct (proc k i). Qed.

Lemma same_trap_set_state k i s : same_trap k (set_state i s k).
Proof using Type. unfold set_state. case_decide; [done|]. apply same_trap_modify. Qed.

Lemma switch_flag n k :
  ready k n -> n <> CURRENT k -> ACTIVE_FRAME k <> None ->
  CURRENT (switch_to n k) <> CURRENT k /\ FRAME_SWITCHED (switch_to n k) = true.
Proof using Type.
  intros (p & Hp & _) Hne Hf. unfold switch_to. rewrite decide_False by done.
  rewrite save_current_proc, decide_False, Hp by done.
  assert (ACTIVE_FRAME (put (save_current k) n (Some (with_state p Running))) = ACTIVE_FRAME k) as ->.
  { cbn. unfold save_current, modify. by destruct (proc k (CURRENT k)). }
  by destruct (ACTIVE_FRAME k).
Qed.

Lemma frame_round now k k1 (h : kernel D -> kernel D) :
  inv k1 -> same_trap k k1 -> (forall k, same_trap k (h k)) ->
  let '(n, k2) := schedule now k1 in
  frame_ok k (if decide (n = CURRENT k2) then h k2 else switch_to n (set_trap_return 0 k2)).
Proof using Type.
  intros Hk1 (Hc & Hf & Hs) Hh. pose proof (schedule_ready now k1 Hk1) as Hr.
  assert (same_trap k (schedule now k1).2) as (Hc2 & Hf2 & Hs2) by done. rewrite Hc in Hr.
  destruct (schedule now k1) as [n k2]. cbn [fst snd] in *.
  destruct (decide (n = CURRENT k2)) as [He|He].
  - apply same_trap_ok. destruct (Hh k2) as (? & ? & ?). split_and!; congruence.
  - destruct (set_trap_return_round 0 k2) as (f & -> & Hnf). destruct (decide (ACTIVE_FRAME k = None)) as [Hnone|Hsome].
    + split; [|done]. intros Heq. destruct (Hr ltac:(congruence)) as (p & Hp & _).
      destruct (switch_proc n (set_frame k2 f (FRAME_SWITCHED k2)) p Hp He) as (Hcn & _). congruence.
    + destruct (switch_flag n (set_frame k2 f (FRAME_SWITCHED k2))) as [H1 H2].
      * destruct (Hr ltac:(congruence)) as (p & Hp). by exists p.
      * done.
      * cbn. apply Hnf. congruence.
      * cbn in H1. split; [intros; congruence|done].
Qed.

Lemma frame_sleep now w k : live k -> CURRENT k <> 0 -> frame_ok k (sleep_until now w k).2.
Proof using Type.
  intros Hl Hc. assert (inv (set_wake_tick w k)) as Hk.
  { apply inv_modify; [by apply live_inv|]. intros p Hp. split_and!; try done. intros Hb.
    by destruct (cur_not_blocked k p Hl Hp). }
  pose proof (frame_round now k (set_wake_tick w k) clear_wake_tick Hk (same_trap_modify _ _ _)
    (fun k => same_trap_modify k _ _)) as H.
  unfold sleep_until. destruct (schedule now (set_wake_tick w k)) as [n k2]. by destruct (decide (n = CURRENT k2)).
Qed.

Lemma frame_yield now k : live k -> frame_ok k (sys_yield now k).2.
Proof using Type.
  intros Hl. pose proof (frame_round now k k (fun k => k) (live_inv _ Hl)) as H. unfold sys_yield.
  destruct (schedule now k) as [n k2]. destruct (decide (n = CURRENT k2)); by apply H.
Qed.

Lemma frame_futex {U} `{!UserMemory U} (u : U) now a op v k :
  live k -> CURRENT k <> 0 -> frame_ok k (sys_futex u now a op v k).2.
Proof using Type.
  intros Hl Hc. assert (frame_ok k k) as Hid by (by apply same_trap_ok). unfold sys_futex.
  destruct (op =? FUTEX_WAIT)%Z.
  - destruct (um_copy_from u a 4) as [bs|] eqn:Ecp; [|unfold sys_futex_wait; by rewrite Ecp].
    destruct (words_of_bytes bs) as [|cv [|]] eqn:Ew; try (unfold sys_futex_wait; rewrite Ecp, Ew; done).
    destruct (Z.eqb_spec cv v) as [->|Hne]; [|unfold sys_futex_wait; rewrite Ecp, Ew; by rewrite (proj2 (Z.eqb_neq cv v))].
    destruct (futex_wait_blocks u now a v bs k Hl Hc Ecp Ew) as [slot H].
    assert (same_trap k (block a slot k)) as Hst by apply (same_trap_set_state (set_waiters k _)).
    pose proof (frame_round now k (block a slot k) (fun k => k)) as Hr.
    assert (FUTEX_WAITERS k !! slot = Some None) as Hnone by (by destruct (schedule now (block a slot k)); destruct H).
    specialize (Hr (base_inv _ (base_block a slot k Hl Hc Hnone)) Hst ltac:(done)).
    destruct (schedule now (block a slot k)) as [n k1]. destruct H as (_ & Hn & _ & _ & Hc1 & ->).
    by rewrite decide_False in Hr by congruence.
  - destruct (op =? FUTEX_WAKE)%Z; [|done]. unfold sys_futex_wake. destruct (a =? 0)%Z; [done|]. apply same_trap_ok.
    unfold wake_waiters_for_address_space. generalize (seq 0 MAX_FUTEX_WAITERS) 0%Z. intros sl w.
    assert (forall k0, same_trap k k0 -> same_trap k (wake_loop a (current_page_table k) v sl w k0).2) as H; [|by apply H].
    revert w. induction sl as [|s sl IH]; intros w k0 H0; [done|]. cbn [wake_loop]. destruct (_ <=? _)%Z; [done|].
    destruct (fd.flatten _); [|by apply IH]. destruct (_ && _)%Z; [|by apply IH]. apply IH.
    match goal with |- same_trap _ (set_state ?i ?s ?x) => destruct (same_trap_set_state x i s) as (? & ? & ?) end.
    destruct H0 as (? & ? & ?). cbn in *. split_and!; congruence.
Qed.

Lemma same_trap_deliver i s k x k' : deliver_signal_to i s k = Ret (x, k') -> same_trap k k'.
Proof using Type.
  assert (same_trap k k) as Hid by done. unfold deliver_signal_to, die.
  case_decide; [congruence|]. case_decide; [congruence|]. destruct (proc k i) as [p|]; [|congruence].
  case_decide; [congruence|]. destruct (dl_close_all i _) as [d|].
  - case_decide; [by intros [= _ <-]|]. destruct (action _ _) as [[| |h]|]; cbn; [|congruence|by intros [= _ <-]|done].
    destruct (default_action s); [by intros [= _ <-]|congruence].
  - case_decide; [done|]. destruct (action _ _) as [[| |h]|]; cbn; [|congruence|by intros [= _ <-]|done].
    destruct (default_action s); [done|congruence].
Qed.

Lemma same_trap_kill t n k x k' : sys_kill t n k = Ret (x, k') -> same_trap k k'.
Proof using Type.
  assert (same_trap k k) as Hid by done. unfold sys_kill.
  destruct (from_u32 n) as [s|]; [|congruence]. destruct (256 <=? t)%Z; [congruence|].
  case_decide; [congruence|]. case_decide; [apply same_trap_deliver|].
  destruct (capability.check _ _); [apply same_trap_deliver|congruence].
Qed.

Lemma same_trap_sigaction n h k x k' : sys_sigaction n h k = Ret (x, k') -> same_trap k k'.
Proof using Type.
  assert (same_trap k k) as Hid by done. unfold sys_sigaction.
  destruct (from_u32 n) as [s|]; [|congruence]. destruct (_ && _); [congruence|].
  unfold set_signal_action. destruct (proc k (CURRENT k)) as [p|]; [|cbn; congruence].
  destruct (set_action _ _ _); cbn; [|done]. by intros [= _ <-].
Qed.

Lemma same_trap_waitpid c k : same_trap k (sys_waitpid c k).2.
Proof using Type.
  unfold sys_waitpid. destruct (_ <=? _)%Z; [done|].
  destruct (waitpid_cases (Z.to_nat c) k) as [->|(p & _ & _ & _ & _ & ->)]; done.
Qed.

(** Each dispatched call returns, is a step or leaves the kernel alone, and
    treats the trap frame as [frame_ok] says. *)
Lemma dispatch_ok {U} `{!UserMemory U} (u : U) now num a0 a1 a2 k o :
  live k -> CURRENT k <> 0 -> dispatch u now num a0 a1 a2 k = Some o ->
  exists x k', o = Ret (x, k') /\ (k' = k \/ step (U:=U) k k') /\ frame_ok k k'.
Proof using Type.
  intros Hl Hc. assert (frame_ok k k) as Hid by (by apply same_trap_ok). unfold dispatch.
  assert (forall r : Z * kernel D, step (U:=U) k r.2 -> frame_ok k r.2 ->
    exists x k', Ret r = Ret (x, k') /\ (k' = k \/ step (U:=U) k k') /\ frame_ok k k') as Hret.
  { intros [x k'] Hs Hf. exists x, k'. split_and!; [done|by right|done]. }
  destruct (num =? 2)%Z; [intros [= <-]; apply Hret; [constructor|by apply frame_yield]|].
  destruct (num =? 3)%Z; [intros [= <-]; eexists _, k; split_and!; [done|by left|done]|].
  destruct (num =? 7)%Z; [intros [= <-]; apply Hret; [by constructor|by apply frame_sleep]|].
  destruct (num =? 12)%Z; [intros [= <-]; apply Hret; [constructor|apply same_trap_ok, same_trap_waitpid]|].
  destruct (num =? 13)%Z.
  { intros [= <-]. destruct (live_kill a0 a1 k Hl) as (x & k' & E & _). exists x, k'. rewrite E.
    split_and!; [done|right; by econstructor|by eapply same_trap_ok, same_trap_kill]. }
  destruct (num =? 14)%Z; [intros [= <-]; eexists _, k; split_and!; [done|by left|done]|].
  destruct (num =? 51)%Z; [intros [= <-]; apply Hret; [by constructor|by apply frame_futex]|].
  destruct (num =? 71)%Z.
  { intros [= <-]. apply Hret; [by constructor|]. unfold sys_nanosleep. destruct (um_copy_from u a0 8); [|done].
    destruct (words_of_bytes _) as [|? [|? []]]; try done. destruct (_ <=? _)%Z; [done|by apply frame_sleep]. }
  destruct (num =? 80)%Z; [|done].
  intros [= <-]. destruct (live_sigaction a0 a1 k Hl) as (x & k' & E & _). exists x, k'. rewrite E.
  split_and!; [done|right; by econstructor|by eapply same_trap_ok, same_trap_sigaction].
Qed.

Lemma handover_Some k k' : handover k k' -> is_Some (proc k (CURRENT k')).
Proof using Type.
  intros (Hne & (now & k1 & Hn & Hk1 & Hc1 & Hsame) & _).
  destruct (schedule_ready now k1 Hk1) as (x & Hx & _); [congruence|].
  rewrite schedule_proc, <- Hn, Hsame in Hx by done. destruct (proc k (CURRENT k')); [by eexists|done].
Qed.

(** ** The claims *)

(** Starting from a live system, whatever steps on the process table follow,
    only the current process is running, PID 0 stays runnable, each
    process is stored at its own number, and the futex table holds distinct
    processes, each blocked. *)
Theorem reachable_live {U} `{!UserMemory U} k k' :
  live k -> rtc (step (U:=U)) k k' ->
  live k' /\
  (forall i p, proc k' i = Some p -> pid p = i /\ (state p = Running -> i = CURRENT k')) /\
  (exists p, proc k' 0 = Some p /\ (state p = Running \/ state p = Ready)) /\
  (forall s w, waiter k' s = Some w -> exists p, proc k' (wpid w) = Some p /\ state p = Blocked) /\
  (forall s s' w w', waiter k' s = Some w -> waiter k' s' = Some w' -> wpid w = wpid w' -> s = s').
Proof using Type.
  intros Hl Hr. assert (live k') as Hl'.
  { induction Hr as [|k1 k2 k3 Hs _ IH]; [done|]. apply IH. exact (live_step k1 k2 Hl Hs). }
  pose proof (live_inv _ Hl') as Hk. split_and!; [done| | | |].
  - intros i p Hp. by destruct (inv_proc _ Hk i p Hp) as (? & _ & ?).
  - destruct (base_idle _ (proj1 Hl')) as (p & Hp & Hs). exists p. split; [done|]. rewrite Hs.
    destruct (decide _); [by left|by right].
  - intros s w Hw. apply waiter_Some in Hw. by apply (inv_wait _ Hk s).
  - intros s s' w w' H1 H2. apply waiter_Some in H1, H2. by apply (inv_winj _ Hk).
Qed.

(** A process switched away from with the register file [f], whenever it
    is next given the processor inside a trap, resumes with exactly [f],
    whatever the other processes and the kernel did in between. *)
Theorem resumes_with_saved_registers {U} `{!UserMemory U} k n f k1 k2 :
  live k -> ACTIVE_FRAME k = Some f -> ready k n -> n <> CURRENT k ->
  away (U:=U) (CURRENT k) (switch_to n k) k1 -> CURRENT k1 <> CURRENT k ->
  ACTIVE_FRAME k1 <> None -> step (U:=U) k1 k2 -> CURRENT k2 = CURRENT k ->
  ACTIVE_FRAME k2 = Some f.
Proof using Type.
  intros Hl Hf Hr Hn Ha Hc1 Hf1 Hs Hc2. destruct (base_switch n k (proj1 Hl) Hr Hn) as (Hls & Hcs & _).
  destruct Hr as (p & Hp & _). destruct (switch_proc n k p Hp Hn) as (_ & _ & Hproc).
  destruct (proj2 Hl) as (c & Hc & _).
  assert (exists q, proc (switch_to n k) (CURRENT k) = Some q /\ ctx q = f) as (q & Hq & Hqf).
  { rewrite Hproc, decide_False by done. rewrite save_current_proc, decide_True by done. rewrite Hc, Hf. cbn.
    eexists. split; [done|]. by destruct (decide _). }
  pose proof (away_live _ _ _ Ha Hls) as Hl1. destruct (step_moved k1 k2 Hl1 Hs) as [_ [Heq|(_ & Hex & Hfr)]]; [congruence|].
  rewrite (Hfr Hf1), Hc2. destruct Hex as (now & kx & Hnx & Hkx & Hcx & Hsame).
  destruct (schedule_ready now kx Hkx) as (x & Hx & _); [congruence|].
  rewrite schedule_proc, <- Hnx, Hc2, Hsame in Hx by done.
  destruct (proc k1 (CURRENT k)) as [y|] eqn:Ey; [|done]. cbn. by rewrite (away_ctx _ _ _ Ha Hls q y Hq Ey), Hqf.
Qed.

(** C40: round-robin scheduling starves nobody: a process that stays ready is
    passed over by at most fourteen timer ticks, whatever else happens
    meanwhile. *)
Theorem bounded_bypass {U} `{!UserMemory U} i n k k' :
  live k -> ready k i -> waiting (U:=U) i n k k' -> n <= 14.
Proof using Type.
  intros Hl Hr Hw. destruct (waiting_distance i n k k' Hw Hl Hr) as (Hl' & Hr' & Hd).
  pose proof (distance_lt k i). destruct Hr' as (p & Hp & Hs). pose proof (proc_lt _ _ _ Hp) as Hi.
  rewrite (inv_len _ (live_inv _ Hl')) in Hi.
  destruct (distance_pos k' i (live_inv _ Hl') Hi) as [Hpos _]; [by apply ready_not_current; [|exists p]|].
  unfold MAX_PROCS in *. lia.
Qed.


(** A futex wake empties exactly the first [mx] slots that wait on the
    address in the caller's address space, readies exactly their processes,
    answers their number, and leaves a matching waiter behind only when the
    quota is spent. *)
Theorem futex_wake_exact a mx k :
  live k -> a <> 0%Z -> (0 <= mx)%Z ->
  let ws := woken_slots k a (current_page_table k) mx in
  let '(n, k') := sys_futex_wake a mx k in
  n = Z.of_nat (length ws) /\ (n <= mx)%Z /\
  (forall s, waiter k' s = if decide (s ∈ ws) then None else waiter k s) /\
  (forall i p, proc k i = Some p ->
    proc k' i = Some (if decide (Exists (holds_pid k i) ws) then with_state p Ready else p)) /\
  ((n < mx)%Z -> forall s w, waiter k' s = Some w -> ~ (addr w = a /\ address_space w = current_page_table k)).
Proof using Type.
  intros Hl Ha Hmx ws. pose proof (live_inv _ Hl) as Hk. unfold sys_futex_wake. rewrite (proj2 (Z.eqb_neq a 0) Ha).
  pose proof (wake_spec a mx (current_page_table k) k Hk) as H. cbv zeta in H. fold ws in H.
  destruct (wake_waiters_for_address_space a mx (current_page_table k) k) as [n k'].
  destruct H as (Hn & _ & _ & Hw & Hp). assert (length ws <= Z.to_nat mx) as Hle by (unfold ws, woken_slots; rewrite length_take; lia).
  split_and!; [done|lia|done| |].
  - intros i p Hip. rewrite Hp, Hip. by destruct (decide _).
  - intros Hlt s w Hs [<- Has]. rewrite Hw in Hs. destruct (decide (s ∈ ws)) as [|Hnin]; [done|]. apply Hnin.
    unfold ws, woken_slots. rewrite take_ge.
    + apply list_elem_of_In, List.filter_In. split.
      * apply list_elem_of_In, elem_of_seq. apply waiter_Some, lookup_lt_Some in Hs. rewrite (inv_wlen _ Hk) in Hs. lia.
      * unfold matches. rewrite Hs, Has, !Z.eqb_refl. done.
    + unfold ws, woken_slots in Hle, Hn. rewrite length_take in Hn. lia.
Qed.

(** A futex wait on a word that still holds the expected value always
    finds a slot, blocks the caller with its address space recorded and a zero
    return value saved for its wake-up, and hands the processor to another
    process; a later wake-up of that address space readies the caller. *)
Theorem futex_wait_then_wake {U} `{!UserMemory U} (u : U) now a v bs f k :
  live k -> CURRENT k <> 0 -> ACTIVE_FRAME k = Some f ->
  um_copy_from u a 4 = Some bs -> words_of_bytes bs = [v] ->
  exists k' p, sys_futex_wait u now a v k = (0%Z, k') /\ live k' /\ CURRENT k' <> CURRENT k /\
    proc k' (CURRENT k) = Some p /\ state p = Blocked /\
    ctx p = mk_context (<[0 := 0%Z]> (r f)) (sp f) (lr f) (pc f) (cpsr f) /\
    (exists s, waiter k' s = Some (mk_waiter a (current_page_table k) (CURRENT k))) /\
    forall mx, (32 <= mx)%Z ->
      proc (wake_waiters_for_address_space a mx (current_page_table k) k').2 (CURRENT k) = Some (with_state p Ready).
Proof using Type.
  intros Hl Hc Hf Hcp Hw. pose proof (live_inv _ Hl) as Hk. pose proof (live_futex_wait u now a v k Hl Hc) as Hl'.
  destruct (futex_wait_blocks u now a v bs k Hl Hc Hcp Hw) as [slot H].
  destruct (block_rest a slot k Hk) as (_ & _ & Hws & _).
  assert (FUTEX_WAITERS (schedule now (block a slot k)).2 = FUTEX_WAITERS (block a slot k)) as Hfw by done.
  assert (ACTIVE_FRAME (schedule now (block a slot k)).2 = Some f) as Haf.
  { change (ACTIVE_FRAME (block a slot k) = Some f). rewrite <- Hf. unfold block, set_state.
    case_decide; [done|]. unfold modify. by destruct (proc _ _). }
  pose proof (schedule_proc now (block a slot k) (CURRENT k)) as Hsp.
  pose proof (block_proc a slot k (CURRENT k) Hk) as Hbp.
  destruct (schedule now (block a slot k)) as [n k1]. destruct H as (Hnone & Hn & Hr & Hb & Hc1 & E).
  rewrite E in Hl' |- *. cbn [snd] in *. unfold set_trap_return in *. rewrite Haf in *.
  set (g := mk_context _ _ _ _ _) in *. set (k2 := set_frame k1 (Some g) (FRAME_SWITCHED k1)) in *.
  destruct (proj2 Hl) as (c & Hcur & _). rewrite decide_True, Hcur in Hbp by done. cbn in Hbp.
  destruct Hr as (q & Hq & _). destruct (switch_proc n k2 q Hq ltac:(cbn; congruence)) as (Hcur' & _ & Hproc).
  set (k' := switch_to n k2) in *. exists k', (with_ctx (with_state c Blocked) g).
  assert (proc k' (CURRENT k) = Some (with_ctx (with_state c Blocked) g)) as Hpk.
  { rewrite Hproc, decide_False by done. rewrite save_current_proc, decide_True by done.
    change (proc k2 (CURRENT k)) with (proc k1 (CURRENT k)). by rewrite Hsp, Hbp. }
  assert (waiter k' slot = Some (mk_waiter a (current_page_table k) (CURRENT k))) as Hslot.
  { apply waiter_Some. replace (FUTEX_WAITERS k') with (FUTEX_WAITERS k1).
    { rewrite Hfw, Hws. apply list_lookup_insert_eq. by eapply lookup_lt_Some. }
    unfold k', switch_to. case_decide; [done|]. unfold save_current, modify. repeat case_match; done. }
  split_and!; try done; [congruence|by exists slot|]. intros mx Hmx.
  pose proof (wake_spec a mx (current_page_table k) k' (live_inv _ Hl')) as H. cbv zeta in H.
  destruct (wake_waiters_for_address_space a mx (current_page_table k) k') as [m kw]. destruct H as (_ & _ & _ & _ & ->).
  rewrite Hpk, decide_True; [done|]. apply Exists_exists. exists slot. split; [|unfold holds_pid; by rewrite Hslot].
  unfold woken_slots. rewrite take_ge.
  - apply list_elem_of_In, List.filter_In. split.
    + apply list_elem_of_In, elem_of_seq. apply lookup_lt_Some in Hnone. rewrite (inv_wlen _ Hk) in Hnone. lia.
    + unfold matches. rewrite Hslot. cbn. by rewrite !Z.eqb_refl.
  - etransitivity; [apply List.filter_length_le|]. rewrite length_seq. unfold MAX_FUTEX_WAITERS. lia.
Qed.


(** Only the target of a delivery can change, never PID 0. *)
Lemma deliver_target i s k r k' j :
  live k -> deliver_signal_to i s k = Ret (r, k') -> proc k' j <> proc k j -> j = i /\ i <> 0 /\ r = 0%Z.
Proof using Type.
  intros Hl. unfold deliver_signal_to. case_decide as H0; [congruence|]. case_decide; [congruence|].
  destruct (proc k i) as [p|] eqn:Hp; [|congruence]. case_decide; [congruence|].
  destruct (die_spec i p k Hl H0 Hp) as (kd & Hd & _ & _ & Hpd & _).
  assert (proc kd j <> proc k j -> j = i) as Hdj by (rewrite Hpd; destruct (decide (j = i)); done).
  case_decide; [rewrite Hd; cbn; intros [= <- <-] ?%Hdj; done|]. destruct (action _ _) as [[| |h]|]; cbn; [|congruence| |done].
  - destruct (default_action s); [rewrite Hd; cbn|]; intros [= <- <-]; [intros ?%Hdj|]; done.
  - intros [= <- <-]. rewrite proc_put by (by eapply proc_lt). by destruct (decide (j = i)).
Qed.

(** [kill] never panics and is confined: a process that it changes is the
    target, is not PID 0, and is the caller itself unless the caller holds
    [CAP_KILL]. An authorised SIGKILL of a living process leaves it dead,
    whatever handlers it has installed, and off the futex table. *)
Theorem kill_authority t n k :
  live k -> (0 <= t)%Z ->
  exists x k', sys_kill t n k = Ret (x, k') /\
    (forall j, proc k' j <> proc k j ->
      t = Z.of_nat j /\ j <> 0 /\ x = 0%Z /\
      (j = CURRENT k \/ capability.contains (current_capabilities k) capability.KILL = true)) /\
    (forall p j, t = Z.of_nat j -> j <> 0 -> proc k j = Some p -> state p <> Dead -> n = signum Sigkill ->
      j = CURRENT k \/ capability.contains (current_capabilities k) capability.KILL = true ->
      x = 0%Z /\ proc k' j = Some (with_state p Dead) /\ forall s w, waiter k' s = Some w -> wpid w <> j).
Proof using Type.
  intros Hl Ht. destruct (live_kill t n k Hl) as (x & k' & E & _ & _). exists x, k'. split; [done|].
  assert (forall j : nat, t = Z.of_nat j -> Z.to_nat t = j) as Htn by lia.
  unfold sys_kill, capability.check in E. fold (capability.contains (current_capabilities k) capability.KILL) in E. split.
  - intros j Hj. destruct (from_u32 n) as [s|]; [|congruence]. destruct (Z.leb_spec 256 t); [congruence|].
    case_decide; [congruence|]. case_decide as Hc.
    + destruct (deliver_target _ s k x k' j Hl E Hj) as (-> & ? & ?). split_and!; [lia|done|done|by left].
    + destruct (capability.contains _ _); [|congruence].
      destruct (deliver_target _ s k x k' j Hl E Hj) as (-> & ? & ?). split_and!; [lia|done|done|by right].
  - intros p j -> Hj Hp Hs -> Ha. rewrite from_u32_signum in E. pose proof (proc_lt _ _ _ Hp) as Hlt.
    rewrite (inv_len _ (live_inv _ Hl)) in Hlt. unfold MAX_PROCS in Hlt. rewrite (Htn j eq_refl) in E.
    rewrite (proj2 (Z.leb_gt 256 (Z.of_nat j))) in E by lia. rewrite decide_False in E by done.
    assert (deliver_signal_to j Sigkill k = Ret (x, k')) as E'.
    { destruct (decide (j = CURRENT k)); [done|]. destruct Ha as [|Ha]; [done|]. by rewrite Ha in E. }
    unfold deliver_signal_to in E'. rewrite decide_False, decide_False, Hp, decide_False, decide_True in E'
      by (unfold MAX_PROCS; try done; lia).
    destruct (die_spec j p k Hl Hj Hp) as (kd & Hd & _ & _ & Hpd & Hwd). rewrite Hd in E'. cbn in E'.
    injection E' as <- <-. rewrite Hpd, decide_True by done. split_and!; try done. by intros s w []%Hwd.
Qed.

(** A dead child of the current process. *)
Definition reapable k (o : option Process) : bool :=
  match o with Some p => bool_decide (parent p = Some (CURRENT k)) && bool_decide (state p = Dead) | None => false end.

Lemma waitpid_reapable c k :
  c < MAX_PROCS -> waitpid c k = if reapable k (proc k c) then (exit_status <$> proc k c, put k c None) else (None, k).
Proof using Type.
  intros Hc. unfold waitpid, reapable. rewrite decide_False by lia. destruct (proc k c) as [p|]; [|done].
  repeat case_decide; repeat case_bool_decide; cbn; try done.
Qed.

Lemma reap_loop_spec ps k :
  inv k -> NoDup ps -> (forall c, c ∈ ps -> c < MAX_PROCS) ->
  (reap_loop ps k).1 = count_if (fun c => reapable k (proc k c)) ps /\
  forall i, proc (reap_loop ps k).2 i = if decide (i ∈ ps) then (if reapable k (proc k i) then None else proc k i) else proc k i.
Proof using Type.
  intros Hk Hnd Hlt. assert (length (PROCS k) = MAX_PROCS) as Hlen by apply Hk. clear Hk. revert k Hlen.
  induction ps as [|c ps IH]; intros k Hlen; cbn [reap_loop].
  { split; [done|]. intros i. by rewrite decide_False by (apply not_elem_of_nil). }
  apply NoDup_cons in Hnd as [Hc Hnd]. assert (c < MAX_PROCS) as Hcl by (apply Hlt; left).
  rewrite (waitpid_reapable c k Hcl), count_if_cons.
  set (k1 := if reapable k (proc k c) then put k c None else k).
  assert (forall i, proc k1 i = if decide (i = c) then (if reapable k (proc k i) then None else proc k i) else proc k i) as Hk1.
  { intros i. unfold k1. destruct (reapable k (proc k c)) eqn:Er.
    - rewrite proc_put by lia. destruct (decide (i = c)) as [->|]; [by rewrite Er|done].
    - destruct (decide (i = c)) as [->|]; [by rewrite Er|done]. }
  assert (forall o, reapable k1 o = reapable k o) as Hrk by (intros o; unfold k1; by destruct (reapable k (proc k c))).
  destruct (IH Hnd ltac:(intros; apply Hlt; by right) k1) as [H1 H2].
  { unfold k1. destruct (reapable k (proc k c)); [cbn; by rewrite length_insert|done]. }
  replace (if reapable k (proc k c) then (exit_status <$> proc k c, put k c None) else (None, k))
    with (if reapable k (proc k c) then exit_status <$> proc k c else None, k1)
    by (unfold k1; by destruct (reapable k (proc k c))).
  destruct (reap_loop ps k1) as [n k2]. cbn [fst snd] in *. split.
  - assert (n = count_if (fun c => reapable k (proc k c)) ps) as ->.
    { rewrite H1. apply count_if_ext. intros x Hx. rewrite Hrk, Hk1. rewrite decide_False; [done|]. intros ->. done. }
    destruct (reapable k (proc k c)) eqn:Er; [|done]. unfold reapable in Er. by destruct (proc k c).
  - intros i. rewrite H2, Hrk, Hk1. destruct (decide (i = c)) as [->|Hne].
    + rewrite (decide_False (P:=c ∈ ps)) by done. by rewrite decide_True by left.
    + destruct (decide (i ∈ ps)) as [Hi|Hi]; [by rewrite decide_True by (by right)|].
      rewrite decide_False; [done|]. intros [?|?]%elem_of_cons; done.
Qed.

(** One pass of the reaper empties exactly the slots of the dead children
    of the current process, answers their number, and a second pass finds
    nothing left to reap. *)
Theorem reap_exact k :
  live k ->
  let '(n, k') := reap_dead_children k in
  n = count_if (reapable k) (PROCS k) /\
  (forall i, proc k' i = if reapable k (proc k i) then None else proc k i) /\
  (reap_dead_children k').1 = 0.
Proof using Type.
  intros Hl. pose proof (live_inv _ Hl) as Hk. pose proof (live_reap (seq 0 MAX_PROCS) k Hl) as Hl'.
  assert (forall c, c ∈ seq 0 MAX_PROCS -> c < MAX_PROCS) as Hs by (intros c ?%elem_of_seq; lia).
  destruct (reap_loop_spec (seq 0 MAX_PROCS) k Hk (NoDup_seq _ _) Hs) as [H1 H2].
  destruct (reap_loop_spec (seq 0 MAX_PROCS) (reap_loop (seq 0 MAX_PROCS) k).2 (live_inv _ Hl') (NoDup_seq _ _) Hs) as [H3 _].
  unfold reap_dead_children.
  assert (CURRENT (reap_loop (seq 0 MAX_PROCS) k).2 = CURRENT k) as Hc.
  { clear. generalize (seq 0 MAX_PROCS). intros ps. revert k. induction ps as [|c ps IH]; intros k; [done|]. cbn [reap_loop].
    pose proof (waitpid_others c k) as [_ Hc]. destruct (waitpid c k) as [o k1]. specialize (IH k1).
    destruct (reap_loop ps k1). cbn in *. congruence. }
  assert (forall i, proc (reap_loop (seq 0 MAX_PROCS) k).2 i = if reapable k (proc k i) then None else proc k i) as H2'.
  { intros i. rewrite H2. destruct (decide (i ∈ _)) as [|Hn]; [done|]. destruct (proc k i) as [p|] eqn:Hp; [|done].
    destruct Hn. apply elem_of_seq. apply proc_lt in Hp. rewrite (inv_len _ Hk) in Hp. lia. }
  rewrite (surjective_pairing (reap_loop (seq 0 MAX_PROCS) k)), H3. split_and!; [|done|].
  - rewrite H1. unfold proc. rewrite <- (inv_len _ Hk). generalize (PROCS k) as l. intros l.
    transitivity (count_if (reapable k) ((fun c => fd.flatten (l !! c)) <$> seq 0 (length l))).
    + generalize (seq 0 (length l)) as sq. intros sq. induction sq as [|x sq IH]; [done|].
      rewrite fmap_cons, !count_if_cons, IH. done.
    + f_equal. apply list_eq. intros i. rewrite list_lookup_fmap.
      destruct (l !! i) as [o|] eqn:Ei.
      * rewrite lookup_seq_lt by (by eapply lookup_lt_Some). cbn. by rewrite Ei.
      * rewrite lookup_seq_ge by (by apply lookup_ge_None). done.
  - assert (forall ps f, (forall c : nat, f c = false) -> count_if f ps = 0) as Hz.
    { intros ps f Hf. induction ps as [|x ps IH]; [done|]. by rewrite count_if_cons, Hf. }
    apply Hz. intros c. rewrite H2'. destruct (reapable k (proc k c)) eqn:Er; [done|].
    unfold reapable in *. rewrite Hc. done.
Qed.


(** The number of ticks covers the request, rounded up to a whole tick. *)
Lemma nanosleep_ticks_ceil s ns :
  is_u32 s -> (0 <= ns < 1000000000)%Z ->
  nanosleep_ticks s ns = ((1000000000 * s + ns + 9999999) / 10000000)%Z.
Proof using Type.
  intros [Hs0 Hs] Hns. unfold nanosleep_ticks, saturating_add64, saturating_mul64, U64_MAX, TICK_MS.
  change (2 ^ 64 - 1)%Z with 18446744073709551615%Z. change (2 ^ 32)%Z with 4294967296%Z in Hs.
  change (10 * 1000000)%Z with 10000000%Z.
  assert (ns = 1000000 * (ns / 1000000) + ns mod 1000000)%Z as Hq by (apply Z.div_mod; lia).
  pose proof (Z.mod_pos_bound ns 1000000 ltac:(lia)) as Hr. set (q := (ns / 1000000)%Z) in *. set (r := (ns mod 1000000)%Z) in *.
  assert (q = 10 * (q / 10) + q mod 10)%Z as Hab by (apply Z.div_mod; lia).
  pose proof (Z.mod_pos_bound q 10 ltac:(lia)) as Hb. set (a := (q / 10)%Z) in *. set (b := (q mod 10)%Z) in *.
  rewrite (Z.min_r _ (s * 1000)) by lia. rewrite Z.min_r by lia.
  replace (s * 1000 + q)%Z with (b + (100 * s + a) * 10)%Z by lia.
  rewrite Z.div_add, Z.mod_add, (Z.div_small b), (Z.mod_small b) by lia.
  replace ns with (1000000 * b + r + a * 10000000)%Z at 1 by lia. rewrite Z.mod_add, Z.mod_small by lia.
  replace (1000000000 * s + ns + 9999999)%Z with (1000000 * b + r + 9999999 + (100 * s + a) * 10000000)%Z by lia.
  rewrite Z.div_add by lia.
  destruct (Z.ltb_spec 0 (1000000 * b + r)) as [H|H]; cbn [orb].
  - assert (((1000000 * b + r + 9999999) / 10000000) = 1)%Z; [|lia].
    symmetry. apply (Z.div_unique _ _ _ (1000000 * b + r - 1)); lia.
  - destruct (Z.eqb_spec b 0); [|lia]. cbn [negb]. rewrite (Z.div_small (1000000 * b + r + 9999999)) by lia. lia.
Qed.

(** A user process that sleeps leaves the processor with its wake-up tick
    recorded; a tick that has come already leaves it ready. *)
Lemma sleep_until_spec now wake k :
  live k -> CURRENT k <> 0 ->
  exists k' p, sleep_until now wake k = (0%Z, k') /\ live k' /\ CURRENT k' <> CURRENT k /\
    proc k' (CURRENT k) = Some p /\ wake_tick p = wake /\ state p = if (wake <=? now)%Z then Ready else Sleeping.
Proof using Type.
  intros Hl Hc. pose proof (live_sleep now wake k Hl Hc) as Hl'.
  destruct (modify_rest k (CURRENT k) (fun p => with_wake p Sleeping wake)) as (_ & Hcu & _).
  change (CURRENT (set_wake_tick wake k) = CURRENT k) in Hcu.
  assert (base (set_wake_tick wake k)) as Hb.
  { apply base_modify; [apply Hl|]. intros p Hp. split_and!; try done. right.
    split_and!; [done|by apply (cur_not_blocked k)|done]. }
  destruct (proj2 Hl) as (c & Hcur & _). unfold sleep_until in *.
  destruct (schedule_finds now (set_wake_tick wake k) Hb) as [Hne [q [Hq _]]]; [by rewrite Hcu|].
  pose proof (schedule_proc now (set_wake_tick wake k) (CURRENT k)) as Hsp.
  assert (CURRENT (schedule now (set_wake_tick wake k)).2 = CURRENT k) as Hc2 by exact Hcu.
  unfold set_wake_tick at 2 in Hsp. rewrite proc_modify, decide_True, Hcur in Hsp by done.
  destruct (schedule now (set_wake_tick wake k)) as [n k2]. cbn [fst snd] in *.
  rewrite Hcu in Hne. rewrite (decide_False (P := n = CURRENT k2)) in * by congruence.
  cbn [snd] in Hl'. destruct (set_trap_return_frame 0 k2) as [f Hf]. rewrite Hf in *.
  set (k3 := set_frame k2 f (FRAME_SWITCHED k2)) in *.
  destruct (switch_proc n k3 q Hq) as (Hcur' & _ & Hproc); [change (CURRENT k3) with (CURRENT k2); congruence|].
  exists (switch_to n k3). rewrite Hproc, decide_False by done. rewrite save_current_proc, decide_True by done.
  change (proc k3 (CURRENT k)) with (proc k2 (CURRENT k)). rewrite Hsp. cbn.
  destruct (wake <=? now)%Z; cbn; eexists; (split_and!; [done|done|congruence|done|..]); by destruct f.
Qed.

(** Nanosleep takes the caller off the processor until its tick, the
    request rounded up to whole ticks: no scheduler round before that tick
    makes it ready, the first one after it does. *)
Theorem nanosleep_never_early {U} `{!UserMemory U} (u : U) now ptr bs secs nanos k :
  live k -> CURRENT k <> 0 -> um_copy_from u ptr 8 = Some bs -> words_of_bytes bs = [secs; nanos] ->
  is_u32 secs -> (0 <= nanos < 1000000000)%Z -> (0 <= now < 2 ^ 63)%Z ->
  let wake := (now + (1000000000 * secs + nanos + 9999999) / 10000000)%Z in
  let '(x, k') := sys_nanosleep u now ptr k in
  x = 0%Z /\ live k' /\ CURRENT k' <> CURRENT k /\
  forall now', (now <= now')%Z ->
    ((now' < wake)%Z -> ~ ready (schedule now' k').2 (CURRENT k)) /\
    ((wake <= now')%Z -> ready (schedule now' k').2 (CURRENT k)).
Proof using Type.
  intros Hl Hc Hcp Hw Hsec Hns Hnow wake. unfold sys_nanosleep. rewrite Hcp, Hw.
  rewrite (proj2 (Z.leb_gt 1000000000 nanos)) by lia. rewrite nanosleep_ticks_ceil by done.
  assert (saturating_add64 now ((1000000000 * secs + nanos + 9999999) / 10000000) = wake) as ->.
  { unfold saturating_add64, U64_MAX, wake. apply Z.min_r.
    assert ((1000000000 * secs + nanos + 9999999) / 10000000 < 2 ^ 40)%Z; [|lia].
    apply Z.div_lt_upper_bound; [lia|]. destruct Hsec. lia. }
  clearbody wake. destruct (sleep_until_spec now wake k Hl Hc) as (k' & p & -> & Hl' & Hc' & Hp & Hwt & Hst).
  split_and!; try done. intros now' Hle. unfold ready. rewrite schedule_proc, Hp. cbn. rewrite Hst, Hwt.
  destruct (Z.leb_spec wake now).
  - split; [lia|]. intros _. exists p. split; [by rewrite decide_False|done].
  - rewrite decide_True by done. destruct (Z.leb_spec wake now'); (split; [|intros; try lia]).
    + lia.
    + by eexists.
    + intros _ (x & [= <-] & Hx). congruence.
Qed.

(** A system call of the process component always returns, and the frame
    it resumes is the caller's own with a return value in r0, or, when the
    processor was handed over, exactly the saved registers of the successor:
    no return value leaks into another process. *)
Theorem svc_resumes_one_process {U} `{!UserMemory U} (u : U) now f k o :
  live k -> CURRENT k <> 0 -> reg f 7 <> SIGRETURN_NUM -> svc_handler u now f k = Some o ->
  exists f' k', o = Ret (f', k') /\ live k' /\ ACTIVE_FRAME k' = None /\
    ((CURRENT k' = CURRENT k /\ exists ret, f' = with_r0 f ret) \/
     (CURRENT k' <> CURRENT k /\ ctx <$> proc k (CURRENT k') = Some f')).
Proof using Type.
  intros Hl Hc Hr. unfold svc_handler. rewrite (proj2 (Z.eqb_neq _ _) Hr).
  assert (live (trap_enter f k)) as Hl1 by (by apply live_frame).
  destruct (dispatch _ _ _ _ _ _ _) as [call|] eqn:Ed; [|done]. intros [= <-].
  destruct (dispatch_ok u now _ _ _ _ (trap_enter f k) call Hl1 Hc Ed) as (x & k1 & -> & Hs & Hst & Hsw).
  cbn [mbind outcome_bind]. eexists _, _. split; [done|]. cbn in Hst, Hsw.
  assert (live k1) as Hl' by (destruct Hs as [->|Hs]; [done|exact (live_step _ k1 Hl1 Hs)]).
  split; [by apply live_frame|]. split; [done|]. change (CURRENT (trap_leave k1)) with (CURRENT k1). unfold trap_switched.
  destruct (decide (CURRENT k1 = CURRENT k)) as [He|He].
  - left. split; [done|]. destruct (Hst He) as [-> ->]. by exists x.
  - right. split; [done|]. rewrite (Hsw He ltac:(done)).
    destruct Hs as [->|Hs]; [by destruct He|]. destruct (step_moved _ k1 Hl1 Hs) as [_ [Heq|Hh]]; [done|].
    destruct (handover_Some _ _ Hh) as [q Hq]. destruct Hh as (_ & _ & Hfr). rewrite Hfr by done.
    rewrite Hq. change (proc (trap_enter f k)) with (proc k) in Hq. by rewrite Hq.
Qed.

(** ** Divergences *)

(** A process may send itself SIGKILL. The call marks it dead, closes its
    descriptors and returns to it, and it runs on until the next tick; if it
    sleeps before that tick it is marked sleeping again, and lives. *)
Theorem self_kill_survived now wake k c :
  live k -> CURRENT k <> 0 -> proc k (CURRENT k) = Some c -> state c = Running ->
  exists k1 p1 k2 p2, sys_kill (Z.of_nat (CURRENT k)) (signum Sigkill) k = Ret (0%Z, k1) /\
    CURRENT k1 = CURRENT k /\ proc k1 (CURRENT k) = Some p1 /\ state p1 = Dead /\
    sleep_until now wake k1 = (0%Z, k2) /\
    proc k2 (CURRENT k) = Some p2 /\ state p2 = (if (wake <=? now)%Z then Ready else Sleeping) /\
    ready (schedule wake k2).2 (CURRENT k).
Proof using Type.
  intros Hl Hc Hcur Hcs. pose proof (live_inv _ Hl) as Hk.
  destruct (die_spec (CURRENT k) c k Hl Hc Hcur) as (k1 & Hdie & Hl1 & Hc1 & Hp1 & _).
  destruct (sleep_until_spec now wake k1 Hl1 ltac:(congruence)) as (k2 & p2 & E2 & _ & _ & Hp2 & Hw2 & Hs2).
  rewrite Hc1 in *. exists k1, (with_state c Dead), k2, p2.
  rewrite Hp1, decide_True by done. split_and!; try done.
  - unfold sys_kill. rewrite from_u32_signum, Nat2Z.id. pose proof (inv_cur _ Hk). unfold MAX_PROCS in *.
    rewrite (proj2 (Z.leb_gt 256 (Z.of_nat (CURRENT k)))) by lia. rewrite decide_False, decide_True by done.
    unfold deliver_signal_to. rewrite decide_False, decide_False, Hcur, decide_False, decide_True
      by (unfold MAX_PROCS; try done; try congruence; lia).
    by rewrite Hdie.
  - unfold ready. rewrite schedule_proc, Hp2. cbn. rewrite Hs2, Hw2, Z.leb_refl.
    destruct (wake <=? now)%Z; [rewrite decide_False by done; by exists p2|rewrite decide_True by done; by eexists].
Qed.

End invariant.

(** ** Witnesses

    Five processes over the boot descriptor tables: the service loop, the
    running process 1, its ready child 2, its dead child 3, and process 4 of
    the same address space, blocked on the futex at [0x9000]. *)

Definition demo_proc (i : nat) (s : State) (par : option nat) : option Process :=
  Some (mk_process i s (mk_context (replicate 13 (Z.of_nat i)) 0 0 (Z.of_nat i) 0x10) par 7 (if decide (i = 0) then 0 else 0x40200000) 0 0
    DEFAULT_HEAP_BREAK (replicate MAX_MAPPINGS None) SignalState_new 0 0 capability.FORK_DEFAULT).

Definition demo : kernel (fd.kernel memguard.cpu) :=
  mk_kernel (demo_proc 0 Ready None :: demo_proc 1 Running (Some 0) :: demo_proc 2 Ready (Some 1) ::
      demo_proc 3 Dead (Some 1) :: demo_proc 4 Blocked (Some 1) :: replicate 11 None)
    1 (Some (mk_context (replicate 13 77%Z) 1 2 3 0x10)) false 0x40200000
    (Some (mk_waiter 0x9000 0x40200000 4) :: replicate 31 None) (fd.boot memguard.caller) [].

Lemma demo_procs i p : proc demo i = Some p ->
  i < 5 /\ demo_proc i (state p) (parent p) = Some p /\ state p = nth i [Ready; Running; Ready; Dead; Blocked] Free /\
  parent p = nth i [None; Some 0; Some 1; Some 1; Some 1] None.
Proof.
  do 5 (destruct i as [|i]; [intros [= <-]; split_and!; [lia|reflexivity..]|]).
  do 11 (destruct i as [|i]; [discriminate|]). discriminate.
Qed.

Lemma demo_waiters s w : FUTEX_WAITERS demo !! s = Some (Some w) -> s = 0 /\ w = mk_waiter 0x9000 0x40200000 4.
Proof.
  destruct s as [|s]; [intros [= <-]; done|]. cbn [demo FUTEX_WAITERS lookup list_lookup].
  intros H. apply list_elem_of_lookup_2, elem_of_replicate in H as [H _]. done.
Qed.

Lemma demo_is_live : live demo.
Proof.
  split; [constructor; [constructor|..]|].
  - reflexivity.
  - cbn. unfold MAX_PROCS. lia.
  - intros i p Hp. destruct (demo_procs i p Hp) as (Hi & [= Hd] & Hs & _). rewrite <- Hd. cbn.
    split_and!; [done|reflexivity|]. rewrite Hs. intros Hr. do 5 (destruct i as [|i]; [done || discriminate|]). lia.
  - reflexivity.
  - intros s w Hw. destruct (demo_waiters s w Hw) as [_ ->]. eexists. split; reflexivity.
  - intros s s' w w' H1 H2 _. destruct (demo_waiters _ _ H1), (demo_waiters _ _ H2). congruence.
  - apply fd.boot_balanced.
  - eexists. split; reflexivity.
  - intros i p Hp. destruct (demo_procs i p Hp) as (Hi & _ & _ & ->).
    do 5 (destruct i as [|i]; [discriminate|]). lia.
  - eexists. split; [reflexivity|]. by left.
Qed.

Lemma reachable_live_witness :
  live demo /\ exists k', rtc (step (U:=memguard.cpu)) demo k' /\ live k' /\ CURRENT k' = 2.
Proof.
  split; [exact demo_is_live|]. exists (timer_tick 0 demo).
  assert (rtc (step (U:=memguard.cpu)) demo (timer_tick 0 demo)) as Hr by (apply rtc_once; constructor).
  split; [exact Hr|]. split; [exact (proj1 (reachable_live demo _ demo_is_live Hr))|reflexivity].
Defined.

Lemma resumes_with_saved_registers_witness :
  ACTIVE_FRAME (sys_yield 0 (sys_yield 0 (switch_to 2 demo)).2).2 = ACTIVE_FRAME demo.
Proof.
  apply (resumes_with_saved_registers (U:=memguard.cpu) demo 2 (mk_context (replicate 13 77%Z) 1 2 3 0x10)
    (sys_yield 0 (switch_to 2 demo)).2).
  - exact demo_is_live.
  - reflexivity.
  - eexists. split; reflexivity.
  - discriminate.
  - apply (away_step _ _ (switch_to 2 demo)); [apply away_refl|discriminate|eexists; reflexivity|constructor].
  - discriminate.
  - discriminate.
  - constructor.
  - reflexivity.
Defined.

Lemma bounded_bypass_witness : ready demo 0 /\ waiting (U:=memguard.cpu) 0 1 demo (timer_tick 0 demo) /\ 1 <= 14.
Proof.
  assert (ready demo 0) as Hr by (eexists; split; reflexivity).
  assert (waiting (U:=memguard.cpu) 0 1 demo (timer_tick 0 demo)) as Hw
    by (apply waiting_tick; [apply waiting_refl|eexists; split; reflexivity]).
  split; [exact Hr|]. split; [exact Hw|]. exact (bounded_bypass 0 1 demo _ demo_is_live Hr Hw).
Defined.

Lemma futex_wake_exact_witness :
  (sys_futex_wake 0x9000 1 demo).1 = 1%Z /\ ready (sys_futex_wake 0x9000 1 demo).2 4.
Proof.
  pose proof (futex_wake_exact 0x9000 1 demo demo_is_live ltac:(discriminate) ltac:(discriminate)) as H. cbv zeta in H.
  destruct (sys_futex_wake 0x9000 1 demo) as [n k']. destruct H as (Hn & _ & _ & Hp & _). cbn [fst snd].
  split; [rewrite Hn; reflexivity|]. eexists. split; [exact (Hp 4 _ eq_refl)|reflexivity].
Defined.


(** The caller's memory with a half-second request in it. *)
Definition half_second : memguard.cpu := (um_copy_to memguard.caller 0x10003000 (bytes_of_words [0; 500000000]%Z)).1.

Lemma half_second_bytes : um_copy_from half_second 0x10003000 8 = Some (bytes_of_words [0; 500000000]%Z).
Proof. vm_compute. reflexivity. Qed.

Lemma half_second_word : um_copy_from half_second 0x10003000 4 = Some (bytes_of_words [0%Z]).
Proof. vm_compute. reflexivity. Qed.

Lemma futex_wait_then_wake_witness :
  exists k' p, sys_futex_wait half_second 0 0x10003000 0 demo = (0%Z, k') /\ live k' /\
    proc k' 1 = Some p /\ state p = Blocked /\
    proc (wake_waiters_for_address_space 0x10003000 32 0x40200000 k').2 1 = Some (with_state p Ready).
Proof.
  destruct (futex_wait_then_wake half_second 0 0x10003000 0 (bytes_of_words [0%Z]) (mk_context (replicate 13 77%Z) 1 2 3 0x10) demo)
    as (k' & p & E & Hl & _ & Hp & Hs & _ & _ & Hw).
  - exact demo_is_live.
  - discriminate.
  - reflexivity.
  - exact half_second_word.
  - reflexivity.
  - exists k', p. split; [exact E|]. split; [exact Hl|]. split; [exact Hp|]. split; [exact Hs|]. apply (Hw 32%Z). lia.
Defined.

Lemma kill_authority_witness :
  exists k' p, sys_kill 2 9 demo = Ret (0%Z, k') /\ proc demo 2 = Some p /\ proc k' 2 = Some (with_state p Dead).
Proof.
  destruct (kill_authority 2 9 demo demo_is_live ltac:(lia)) as (x & k' & E & _ & H).
  assert (exists p, proc demo 2 = Some p /\ state p = Ready) as (p & Hp & Hs) by (eexists; split; reflexivity).
  destruct (H p 2 eq_refl ltac:(discriminate) Hp) as (Hx & Hd & _).
  - rewrite Hs. discriminate.
  - reflexivity.
  - right. reflexivity.
  - exists k', p. rewrite Hx in E. split; [exact E|]. split; [exact Hp|exact Hd].
Defined.

Lemma reap_exact_witness : (reap_dead_children demo).1 = 1 /\ proc (reap_dead_children demo).2 3 = None.
Proof.
  pose proof (reap_exact demo demo_is_live) as H. destruct (reap_dead_children demo) as [n k'].
  destruct H as (Hn & Hp & _). cbn [fst snd]. split; [rewrite Hn; reflexivity|rewrite (Hp 3); reflexivity].
Defined.

Lemma nanosleep_never_early_witness :
  ~ ready (schedule 49 (sys_nanosleep half_second 0 0x10003000 demo).2).2 1 /\
  ready (schedule 50 (sys_nanosleep half_second 0 0x10003000 demo).2).2 1.
Proof.
  pose proof (nanosleep_never_early half_second 0 0x10003000 (bytes_of_words [0; 500000000]%Z) 0 500000000 demo demo_is_live
    ltac:(discriminate) half_second_bytes eq_refl ltac:(unfold is_u32; lia) ltac:(lia) ltac:(lia)) as H. cbv zeta in H.
  destruct (sys_nanosleep half_second 0 0x10003000 demo) as [x k']. destruct H as (_ & _ & _ & H). cbn [snd].
  split; [apply (H 49%Z)|apply (H 50%Z)]; vm_compute; congruence.
Defined.

(** Process 1 calls getpid: it resumes with its own number in r0. *)
Definition getpid_frame : Context := mk_context (<[7 := 3%Z]> (replicate 13 77%Z)) 1 2 3 0x10.

Lemma svc_resumes_one_process_witness :
  exists f' k', svc_handler memguard.caller 0 getpid_frame demo = Some (Ret (f', k')) /\ live k' /\ reg f' 0 = 1%Z.
Proof.
  assert (exists o, svc_handler memguard.caller 0 getpid_frame demo = Some o /\
    match o with Ret (f', _) => reg f' 0 = 1%Z | Panic => False end) as (o & E & Hreg).
  { eexists. split; reflexivity. }
  destruct (svc_resumes_one_process memguard.caller 0 getpid_frame demo o demo_is_live ltac:(discriminate)
    ltac:(discriminate) E) as (f' & k' & Ho & Hl & _).
  exists f', k'. subst o. split; [exact E|]. split; [exact Hl|exact Hreg].
Defined.

Lemma self_kill_survived_witness :
  exists k1 k2 p, sys_kill 1 9 demo = Ret (0%Z, k1) /\ sleep_until 0 5 k1 = (0%Z, k2) /\
    proc k2 1 = Some p /\ state p = Sleeping /\ ready (schedule 5 k2).2 1.
Proof.
  assert (exists c, proc demo 1 = Some c /\ state c = Running) as (c & Hc & Hs) by (eexists; split; reflexivity).
  destruct (self_kill_survived 0 5 demo c demo_is_live ltac:(discriminate) Hc Hs)
    as (k1 & p1 & k2 & p2 & E1 & _ & _ & _ & E2 & Hp & Hst & Hr).
  exists k1, k2, p2. split; [exact E1|]. split; [exact E2|]. split; [exact Hp|]. split; [exact Hst|exact Hr].
Defined.

(** [check_pending_signal] is documented to answer the first pending signal
    that has a handler. It looks at the lowest pending signal only: when that
    one is no longer handled, every later one waits behind it forever. *)
Example unhandled_signal_blocks_later_ones :
  match
    ('(_, k) ← sys_sigaction 10 0x8000 demo; '(_, k) ← sys_sigaction 15 0x8100 k;
     '(_, k) ← sys_kill 1 10 k; '(_, k) ← sys_kill 1 15 k; '(_, k) ← sys_sigaction 10 SIG_IGN k;
     o ← check_pending_signal k; a ← get_signal_action Sigterm k;
     Ret (o, a, Z.testbit (get_pending_mask 1 k) 15))
  with
  | Ret x => x = (None, Handler 0x8100, true)
  | Panic => False
  end.
Proof. vm_compute. reflexivity. Qed.

End process.
