(* ===== verification/Vm.v ===== *)
(** * Frames under page tables ([crates/thumos/src/syscall.rs] over [page.rs] and [mmu.rs])

    The composition of the frame allocator and the page tables that the memory
    system calls, the ELF loader and process teardown are built from: allocating
    a frame and installing it, reading back a page's frame, unmapping and
    freeing it, and the loops over runs of pages with their rollback. There is
    one memory: the frames the allocator scrubs and the tables the MMU walks are
    regions of it. Frames are scrubbed under the kernel address space, where
    every physical address is its own virtual address, so the switches of TTBR0
    around the frees are not part of the state; TLB maintenance is not modelled. *)

From S2P Require Import Prelude Machine Page Mmu Memguard.
From Stdlib Require Import ZArith.
Open Scope Z_scope.

Module vm.
Import mmu.page_flags.

Definition PAGE_SIZE : Z := page.PAGE_SIZE.

(** The allocator with its memory, and the allocation masks of the MMU, whose
    tables are in the same memory. *)
Record machine := mk_machine { pg : page.state; l2_alloc : Z; space_alloc : Z }.

Definition ram (x : machine) : memory := page.MEM (pg x).
Definition mm (x : machine) : mmu.state := mmu.mk_state (ram x) (l2_alloc x) (space_alloc x).
Definition set_mm (x : machine) (s : mmu.state) : machine :=
  mk_machine (page.with_mem (pg x) (mmu.mem s)) (mmu.L2_ALLOC s) (mmu.ADDR_SPACE_ALLOC s).
Definition set_pg (x : machine) (p : page.state) : machine := mk_machine p (l2_alloc x) (space_alloc x).

Section ops.
Context (st : mmu.statics).

Definition alloc_page (x : machine) : option Z * machine :=
  let '(o, p) := page.alloc_page (pg x) in (o, set_pg x p).
Definition free_page (addr : Z) (x : machine) : machine := set_pg x (page.free_page addr (pg x)).

(** [ensure_page_mappable(pt, va) && map_page(pt, va, phys, attrs)]. *)
Definition install_page (pt va phys attrs : Z) (x : machine) : bool * machine :=
  match mmu.ensure_page_mappable st pt va (mm x) with
  | (false, s) => (false, set_mm x s)
  | (true, s) => let '(ok, s) := mmu.map_page st pt va phys attrs s in (ok, set_mm x s)
  end.

(** Reading the frame of a page, unmapping the page and freeing the frame. *)
Definition drop_page (pt va : Z) (x : machine) : machine :=
  let phys := mmu.read_l2_phys (ram x) pt va in
  let x := set_mm x (mmu.unmap_page st pt va (mm x)) in
  match phys with Some p => free_page p x | None => x end.

(** Page [i] of a region, in [usize] arithmetic. *)
Definition page_va (base : Z) (i : nat) : Z := wrap32 (base + Z.of_nat i * PAGE_SIZE).

(** The loop [for j in 0..n] that gives the pages of a region back. *)
Definition drop_pages (pt base : Z) (n : nat) (x : machine) : machine :=
  foldl (fun x j => drop_page pt (page_va base j) x) x (seq 0 n).

(** The allocation loop shared by brk and mmap, from page [i] on, with how it
    ended: all pages mapped, no frame for page [i], or page [i] not mappable
    and its frame still to be freed. *)
Inductive fill := Filled (x : machine) | NoFrame (i : nat) (x : machine) | NoTable (i : nat) (phys : Z) (x : machine).

Fixpoint map_pages (pt base attrs : Z) (i n : nat) (x : machine) : fill :=
  match n with
  | O => Filled x
  | S n =>
      match alloc_page x with
      | (None, x) => NoFrame i x
      | (Some phys, x) =>
          match install_page pt (page_va base i) phys attrs x with
          | (true, x) => map_pages pt base attrs (S i) n x
          | (false, x) => NoTable i phys x
          end
      end
  end.

End ops.

(** ** What the table operations leave alone *)

Section theory.
#[local] Ltac Zify.zify_post_hook ::= Z.to_euclidean_division_equations.
Context (st : mmu.statics) (Hst : mmu.statics_ok st).
Implicit Types (x : machine) (s : mmu.state).

(** The memory of the address spaces' tables, and of all tables. *)
Definition in_tables (a : Z) : Prop :=
  mmu.L2_TABLES st <= a < mmu.L2_TABLES st + 65536 \/ mmu.USER_TABLES st <= a < mmu.USER_TABLES st + 262144.
Definition any_table (a : Z) : Prop := in_tables a \/ mmu.KERNEL_L2 st <= a < mmu.KERNEL_L2 st + 2048.

(** Only table memory differs, and it still holds bytes. *)
Definition quiet (m m' : memory) : Prop :=
  (forall a, ~ in_tables a -> load8 m' a = load8 m a) /\ (bytes m -> bytes m').

Lemma quiet_refl m : quiet m m.
Proof using Type. done. Qed.

Lemma quiet_trans m1 m2 m3 : quiet m1 m2 -> quiet m2 m3 -> quiet m1 m3.
Proof using Type. intros [H1 B1] [H2 B2]. split; [|auto]. intros a Ha. by rewrite H2, H1. Qed.

Lemma quiet_store m a v : (forall b, a <= b < a + 4 -> in_tables b) -> quiet m (store32 m a v).
Proof using Type.
  intros Ha. split; [|apply bytes_store32]. intros b Hb. apply load8_store32_ne.
  destruct (decide (a <= b < a + 4)) as [Hin|]; [|lia]. by destruct Hb; apply Ha.
Qed.

Lemma quiet_zero m a n :
  (forall b, a <= b < a + 4 * Z.of_nat n -> in_tables b) -> quiet m (zero_words m a n).
Proof using Type.
  intros Ha. split; [|apply bytes_zero_words]. intros b Hb. rewrite load8_zero_words, decide_False; [done|].
  intros H. by apply Hb, Ha.
Qed.

Lemma l2_in_tables j b : 0 <= j < 64 -> mmu.l2_table_addr st j <= b < mmu.l2_table_addr st j + 1024 -> in_tables b.
Proof using Hst. intros Hj Hb. pose proof (mmu.l2_addr_bounds st Hst j Hj). left. lia. Qed.

Lemma l1_in_tables i k b :
  0 <= i < 16 -> 0 <= k < 4096 -> mmu.user_table_addr st i + 4 * k <= b < mmu.user_table_addr st i + 4 * k + 4 -> in_tables b.
Proof using Hst. intros Hi Hk Hb. pose proof (mmu.user_addr_bounds st Hst i k Hi Hk) as (_ & ? & ?). right. lia. Qed.

Lemma quiet_store_l2 m j q v : 0 <= j < 64 -> 0 <= q < 256 -> quiet m (store32 m (mmu.l2_table_addr st j + 4 * q) v).
Proof using Hst. intros Hj Hq. apply quiet_store. intros b Hb. apply (l2_in_tables j); lia. Qed.

Lemma quiet_store_l1 m i k v : 0 <= i < 16 -> 0 <= k < 4096 -> quiet m (store32 m (mmu.user_table_addr st i + 4 * k) v).
Proof using Hst. intros Hi Hk. apply quiet_store. intros b Hb. apply (l1_in_tables i k); lia. Qed.

Lemma quiet_zero_l2 m j : 0 <= j < 64 -> quiet m (zero_words m (mmu.l2_table_addr st j) 256).
Proof using Hst. intros Hj. apply quiet_zero. intros b Hb. by apply (l2_in_tables j). Qed.

Lemma quiet_fill m j base ks :
  0 <= j < 64 -> (forall q, q ∈ ks -> 0 <= q < 256) ->
  quiet m (mmu.fill_identity m (mmu.l2_table_addr st j) base ks).
Proof using Hst.
  intros Hj. revert m. induction ks as [|q ks IH]; intros m Hks; [apply quiet_refl|]. cbn [mmu.fill_identity].
  eapply quiet_trans; [apply (quiet_store_l2 m j q); [done|apply Hks; left]|]. apply IH. intros q' ?. apply Hks. by right.
Qed.

(** The spaces and the pool slot of a page outside the kernel image. *)
Lemma table_slot s i va :
  mmu.wf st s -> mmu.live s i -> is_u32 va -> ~ mmu.kernel_mb (mmu.vmb va) ->
  mmu.is_table (mmu.entry st (mmu.mem s) i (mmu.vmb va)) = true ->
  exists j, 0 <= j < 64 /\ mmu.l2_base (mmu.entry st (mmu.mem s) i (mmu.vmb va)) = mmu.l2_table_addr st j.
Proof using Type.
  intros Hwf Hi Hva Hnk Ht.
  destruct (mmu.wf_table st s Hwf i (mmu.vmb va) Hi (mmu.vmb_range _ Hva) Ht) as [(j & [Hj _] & Hb)|[? _]]; [by exists j|done].
Qed.

Lemma quiet_map_page s i va phys attrs :
  mmu.wf st s -> mmu.live s i -> is_u32 va -> ~ mmu.kernel_mb (mmu.vmb va) ->
  let s' := (mmu.map_page st (mmu.user_table_addr st i) va phys attrs s).2 in
  quiet (mmu.mem s) (mmu.mem s') /\ mmu.ADDR_SPACE_ALLOC s' = mmu.ADDR_SPACE_ALLOC s.
Proof using Hst.
  intros Hwf Hi Hva Hnk. pose proof (mmu.vslot_range va) as Hq. unfold mmu.map_page. rewrite mmu.l1_val_eq.
  destruct (mmu.is_table _) eqn:Ht.
  - destruct (table_slot s i va Hwf Hi Hva Hnk Ht) as (j & Hj & Hb). cbn [snd mmu.set_mem mmu.mem mmu.ADDR_SPACE_ALLOC].
    rewrite Hb, mmu.l2_entry_ptr_eq. split; [by apply quiet_store_l2|done].
  - destruct (mmu.is_fault _); [|split; [apply quiet_refl|done]].
    pose proof (mmu.alloc_l2_table_ok st s) as Hal. destruct (mmu.alloc_l2_table st s) as [[a|] s1].
    + destruct Hal as (j & Hj & _ & -> & ->). cbn [snd mmu.set_mem mmu.mem mmu.ADDR_SPACE_ALLOC]. split; [|done].
      rewrite mmu.l1_entry_ptr_eq, mmu.l2_entry_ptr_eq.
      eapply quiet_trans; [by apply (quiet_zero_l2 _ j)|].
      eapply quiet_trans; [apply (quiet_store_l1 _ i (mmu.vmb va)); [apply Hi|by apply mmu.vmb_range]|].
      by apply quiet_store_l2.
    + destruct Hal as [-> _]. split; [apply quiet_refl|done].
Qed.

Lemma quiet_unmap_page s i va :
  mmu.wf st s -> mmu.live s i -> is_u32 va -> ~ mmu.kernel_mb (mmu.vmb va) ->
  let s' := mmu.unmap_page st (mmu.user_table_addr st i) va s in
  quiet (mmu.mem s) (mmu.mem s') /\ mmu.ADDR_SPACE_ALLOC s' = mmu.ADDR_SPACE_ALLOC s.
Proof using Hst.
  intros Hwf Hi Hva Hnk. pose proof (mmu.vslot_range va) as Hq. unfold mmu.unmap_page. rewrite mmu.l1_val_eq.
  destruct (mmu.is_table _) eqn:Ht; [|split; [apply quiet_refl|done]].
  destruct (table_slot s i va Hwf Hi Hva Hnk Ht) as (j & Hj & Hb). rewrite Hb, mmu.l2_entry_ptr_eq, mmu.l1_entry_ptr_eq.
  assert (quiet (mmu.mem s) (store32 (mmu.mem s) (mmu.l2_table_addr st j + 4 * mmu.vslot va) 0)) as H1
    by (by apply quiet_store_l2).
  destruct (forallb _ _); [|split; [done|done]]. rewrite (mmu.free_l2_table_pool st) by done.
  cbn [snd mmu.set_mem mmu.set_l2_alloc mmu.mem mmu.ADDR_SPACE_ALLOC]. split; [|done].
  eapply quiet_trans; [done|]. apply quiet_store_l1; [apply Hi|by apply mmu.vmb_range].
Qed.

Lemma quiet_update_prot s i va attrs :
  mmu.wf st s -> mmu.live s i -> is_u32 va -> ~ mmu.kernel_mb (mmu.vmb va) ->
  let s' := (mmu.update_page_prot (mmu.user_table_addr st i) va attrs s).2 in
  quiet (mmu.mem s) (mmu.mem s') /\ mmu.ADDR_SPACE_ALLOC s' = mmu.ADDR_SPACE_ALLOC s /\ mmu.L2_ALLOC s' = mmu.L2_ALLOC s.
Proof using Hst.
  intros Hwf Hi Hva Hnk. pose proof (mmu.vslot_range va) as Hq. unfold mmu.update_page_prot. rewrite mmu.l1_val_eq.
  destruct (mmu.is_table _) eqn:Ht; cbn [negb]; [|split; [apply quiet_refl|done]].
  destruct (table_slot s i va Hwf Hi Hva Hnk Ht) as (j & Hj & Hb). rewrite Hb, mmu.l2_entry_ptr_eq.
  destruct (mmu.is_fault _); (split; [|done]); [apply quiet_refl|]. by apply quiet_store_l2.
Qed.

Lemma quiet_shatter s i va :
  mmu.live s i -> is_u32 va ->
  let s' := (mmu.shatter_section st (mmu.user_table_addr st i) va s).2 in
  quiet (mmu.mem s) (mmu.mem s') /\ mmu.ADDR_SPACE_ALLOC s' = mmu.ADDR_SPACE_ALLOC s.
Proof using Hst.
  intros Hi Hva. unfold mmu.shatter_section. destruct (mmu.is_table _); [split; [apply quiet_refl|done]|].
  destruct (negb _); [split; [apply quiet_refl|done]|].
  pose proof (mmu.alloc_l2_table_ok st s) as Hal. destruct (mmu.alloc_l2_table st s) as [[a|] s1].
  - destruct Hal as (j & Hj & _ & -> & ->). cbn [snd mmu.set_mem mmu.mem mmu.ADDR_SPACE_ALLOC]. split; [|done].
    rewrite mmu.l1_entry_ptr_eq.
    eapply quiet_trans; [|apply quiet_store_l1; [apply Hi|by apply mmu.vmb_range]].
    eapply quiet_trans; [by apply (quiet_zero_l2 _ j)|].
    apply quiet_fill; [done|intros q ?%elem_of_seqZ; lia].
  - destruct Hal as [-> _]. split; [apply quiet_refl|done].
Qed.

#[local] Opaque page.free_set page.MAX_PAGES.

(** ** Ownership of the frames *)

Definition frames (x : machine) : gset Z := page.free_set (page.PAGE_BITMAP (pg x)).
Definition frame (x : machine) (p : Z) : Z := page.frame_addr (pg x) p.
Definition managed (x : machine) (p : Z) : Prop := page.USABLE_START_PAGE (pg x) <= p < page.USABLE_END_PAGE (pg x).
Definition frame_of (e : Z) : Z := Z.land e 0xFFFFF000.
Definition space_live (x : machine) (i : Z) : Prop := mmu.live (mm x) i.

(** Descriptor [e] gives the process of space [i] the page of [va]. *)
Definition mapped (x : machine) (i va e : Z) : Prop :=
  space_live x i /\ is_u32 va /\
  mmu.walk (ram x) (mmu.user_table_addr st i) va = mmu.PageMap e /\ mmu.l2_entry_is_user e = true.

(** The machine is consistent: the allocator and the tables each satisfy their
    invariant and lie in disjoint memory, free frames are managed and zero, a
    frame of the allocator that a process maps is allocated, and no frame is
    mapped twice. *)
Record minv (x : machine) : Prop := {
  mi_page : page.inv (pg x);
  mi_align : page.FIRST_PAGE (pg x) mod 4096 = 0;
  mi_free : forall p, p ∈ frames x -> managed x p;
  mi_managed : forall p, managed x p -> 0 <= p < page.MAX_PAGES;
  mi_far : forall p a, managed x p -> frame x p <= a < frame x p + 4096 -> ~ any_table a;
  mi_wf : mmu.wf st (mm x);
  mi_bytes : bytes (ram x);
  mi_own : forall i va e p, mapped x i va e -> 0 <= p < page.MAX_PAGES -> frame_of e = frame x p ->
    managed x p /\ p ∉ frames x;
  mi_inj : forall i va e i' va' e', mapped x i va e -> mapped x i' va' e' -> frame_of e = frame_of e' ->
    i = i' /\ mmu.vpage va = mmu.vpage va';
  mi_clean : forall p a, p ∈ frames x -> frame x p <= a < frame x p + 4096 -> load8 (ram x) a = 0;
}.

Lemma mi_apart x p a : minv x -> managed x p -> frame x p <= a < frame x p + 4096 -> ~ in_tables a.
Proof using Type. intros Hx Hp Ha Ht. by destruct (mi_far x Hx p a Hp Ha); left. Qed.

(** The same allocator geometry. *)
Definition geo (x x' : machine) : Prop := page.same_frame (pg x) (pg x').

Lemma geo_frame x x' p : geo x x' -> frame x' p = frame x p.
Proof using Type. intros (H & _). unfold frame, page.frame_addr. by rewrite H. Qed.

Lemma geo_managed x x' p : geo x x' -> managed x' p <-> managed x p.
Proof using Type. intros (_ & H1 & H2). unfold managed. by rewrite H1, H2. Qed.

Lemma geo_trans x y z : geo x y -> geo y z -> geo x z.
Proof using Type. intros (? & ? & ?) (? & ? & ?). unfold geo, page.same_frame. split_and!; congruence. Qed.

Lemma frame_inj x p p' : frame x p = frame x p' -> p = p'.
Proof using Type. unfold frame, page.frame_addr, page.PAGE_SIZE. lia. Qed.

(** Table memory changes and nothing else: the allocator is untouched. *)
Lemma minv_tables x s' :
  minv x -> mmu.wf st s' -> quiet (ram x) (mmu.mem s') ->
  (forall i va e p, mapped (set_mm x s') i va e -> 0 <= p < page.MAX_PAGES -> frame_of e = frame x p ->
    managed x p /\ p ∉ frames x) ->
  (forall i va e i' va' e', mapped (set_mm x s') i va e -> mapped (set_mm x s') i' va' e' -> frame_of e = frame_of e' ->
    i = i' /\ mmu.vpage va = mmu.vpage va') ->
  minv (set_mm x s').
Proof using Type.
  intros Hx Hwf [Hq Hb] Hown Hinj. constructor.
  - destruct (mi_page x Hx) as [H1 H2 H3]. constructor; [exact H1|exact H2|exact H3].
  - exact (mi_align x Hx).
  - exact (mi_free x Hx).
  - exact (mi_managed x Hx).
  - exact (mi_far x Hx).
  - destruct s'. exact Hwf.
  - apply Hb, Hx.
  - exact Hown.
  - exact Hinj.
  - intros p a Hp Ha. change (ram (set_mm x s')) with (mmu.mem s'). rewrite Hq; [by apply (mi_clean x Hx p)|].
    apply (mi_apart x p); [done|by apply (mi_free x Hx)|done].
Qed.

(** Scrubbing a managed frame leaves every translation as it was. *)
Lemma load32_scrub x m a :
  minv x -> (forall b, any_table b -> load8 m b = load8 (ram x) b) ->
  (forall b, a <= b < a + 4 -> any_table b) -> load32 m a = load32 (ram x) a.
Proof using Type. intros Hx Hm Ha. apply load32_ext. intros b Hb. apply Hm, Ha. lia. Qed.

Lemma l2_word_in_tables s i k q b :
  mmu.wf st s -> mmu.live s i -> 0 <= k < 4096 -> 0 <= q < 256 ->
  mmu.is_table (mmu.entry st (mmu.mem s) i k) = true ->
  mmu.l2_base (mmu.entry st (mmu.mem s) i k) + 4 * q <= b < mmu.l2_base (mmu.entry st (mmu.mem s) i k) + 4 * q + 4 -> any_table b.
Proof using Hst.
  intros Hwf Hi Hk Hq Ht. destruct (mmu.wf_table st s Hwf i k Hi Hk Ht) as [(j & [Hj _] & ->)|[Hkm ->]].
  - intros Hb. left. apply (l2_in_tables j); [done|lia].
  - unfold mmu.kernel_mb in Hkm. intros Hb. right. lia.
Qed.

Lemma walk_scrub x m i va :
  minv x -> (forall b, any_table b -> load8 m b = load8 (ram x) b) -> space_live x i -> is_u32 va ->
  mmu.walk m (mmu.user_table_addr st i) va = mmu.walk (ram x) (mmu.user_table_addr st i) va.
Proof using Hst.
  intros Hx Hm Hi Hva. pose proof (mmu.vmb_range _ Hva). pose proof (mmu.vslot_range va).
  rewrite !mmu.walk_eq. assert (mmu.entry st m i (mmu.vmb va) = mmu.entry st (ram x) i (mmu.vmb va)) as ->.
  { unfold mmu.entry. apply (load32_scrub x); [done|done|]. intros b Hb. left. revert Hb. apply l1_in_tables; [apply Hi|done]. }
  apply mmu.walk_entry_ext. intros Ht. apply (load32_scrub x); [done|done|]. intros b.
  apply (l2_word_in_tables (mm x)); [apply Hx|done|done|done|done].
Qed.

Lemma wf_scrub x m :
  minv x -> (forall b, any_table b -> load8 m b = load8 (ram x) b) ->
  mmu.wf st (mmu.mk_state m (l2_alloc x) (space_alloc x)).
Proof using Hst.
  intros Hx Hm. apply (mmu.wf_same_entries st (mm x)); [apply Hx|done|done|]. intros i k Hi Hk. cbn [mmu.mem].
  unfold mmu.entry. apply (load32_scrub x); [done|done|]. intros b Hb. left. revert Hb. apply l1_in_tables; [apply Hi|done].
Qed.

(** The page and the space of the translations are all that matter. *)
Lemma walk_same_page m i va va' :
  is_u32 va -> is_u32 va' -> mmu.vpage va = mmu.vpage va' ->
  mmu.walk m (mmu.user_table_addr st i) va = mmu.walk m (mmu.user_table_addr st i) va'.
Proof using Type.
  intros H H' Hp. rewrite !mmu.walk_eq. unfold is_u32 in *. rewrite !mmu.vpage_split in Hp by lia.
  pose proof (mmu.vslot_range va). pose proof (mmu.vslot_range va').
  assert (mmu.vmb va = mmu.vmb va') as -> by lia. by assert (mmu.vslot va = mmu.vslot va') as -> by lia.
Qed.

(** Both machines give the processes the same pages. *)
Definition same_maps (x x' : machine) : Prop := forall i va e, mapped x' i va e <-> mapped x i va e.

Lemma same_maps_walk x x' :
  space_alloc x' = space_alloc x ->
  (forall i va, space_live x i -> is_u32 va ->
    mmu.walk (ram x') (mmu.user_table_addr st i) va = mmu.walk (ram x) (mmu.user_table_addr st i) va) ->
  same_maps x x'.
Proof using Type.
  intros Ha Hw i va e. unfold mapped. assert (space_live x' i <-> space_live x i) as Hl.
  { unfold space_live, mmu.live. cbn [mm mmu.ADDR_SPACE_ALLOC]. by rewrite Ha. }
  split; (intros (H1 & H2 & H3 & H4); split_and!; [by apply Hl|done| |done]).
  - rewrite <- Hw; [done|by apply Hl|done].
  - rewrite Hw; done.
Qed.

Lemma set_pg_id x : set_pg x (pg x) = x.
Proof using Type. by destruct x. Qed.

(** Frames were taken from the allocator. *)
Lemma minv_taken x p' :
  minv x -> page.inv p' -> page.same_frame (pg x) p' -> page.MEM p' = ram x -> page.free_set (page.PAGE_BITMAP p') ⊆ frames x ->
  minv (set_pg x p') /\ mm (set_pg x p') = mm x.
Proof using Hst.
  intros Hx Hi Hg Hm Hsub.
  assert (mm (set_pg x p') = mm x) as Hmm by (unfold mm, ram; cbn [pg set_pg l2_alloc space_alloc]; by rewrite Hm).
  assert (ram (set_pg x p') = ram x) as Hram by exact Hm. assert (frames (set_pg x p') ⊆ frames x) as Hfr by exact Hsub.
  assert (forall i va e, mapped (set_pg x p') i va e -> mapped x i va e) as Hmap.
  { intros i va e. unfold mapped, space_live. by rewrite Hmm, Hram. }
  split; [|done]. constructor.
  - exact Hi.
  - destruct Hg as (Hg & _). cbn [pg set_pg]. rewrite Hg. apply Hx.
  - intros p Hp. apply (geo_managed x); [done|]. by apply (mi_free x Hx), Hfr.
  - intros p Hp. apply (mi_managed x Hx). by apply (geo_managed x (set_pg x p')).
  - intros p a Hp. rewrite (geo_frame x) by done. apply (mi_far x Hx). by apply (geo_managed x (set_pg x p')).
  - rewrite Hmm. apply Hx.
  - rewrite Hram. apply Hx.
  - intros i va e p Hma Hp. rewrite (geo_frame x), (geo_managed x) by done. intros He.
    destruct (mi_own x Hx i va e p (Hmap _ _ _ Hma) Hp He) as [? Hn]. split; [done|]. intros Hq. by apply Hn, Hfr.
  - intros i va e i' va' e' H1 H2. apply (mi_inj x Hx); by apply Hmap.
  - intros p a Hp. rewrite (geo_frame x), Hram by done. by apply (mi_clean x Hx), Hfr.
Qed.

Lemma alloc_ok x :
  minv x ->
  match alloc_page x with
  | (None, x') => x' = x /\ frames x = ∅
  | (Some phys, x') => exists p, p ∈ frames x /\ phys = frame x p /\ frames x' = frames x ∖ {[p]} /\
      geo x x' /\ mm x' = mm x /\ minv x'
  end.
Proof using Hst.
  intros Hx. pose proof (page.alloc_page_cases (pg x) (mi_page x Hx)) as Hal. unfold alloc_page.
  destruct (page.alloc_page (pg x)) as [[a|] p'].
  - destruct Hal as (q & Hqf & -> & HF & Hi & Hm & Hg). exists q.
    destruct (minv_taken x p' Hx Hi Hg Hm) as [Hx' Hmm]; [rewrite HF; apply subseteq_difference_l; reflexivity|].
    split_and!; [done|done|exact HF|done|done|done].
  - destruct Hal as [-> HF]. split; [apply set_pg_id|exact HF].
Qed.

(** Frames that no process maps went back to the allocator. *)
Lemma minv_freed x p' q n :
  minv x -> page.inv p' -> page.released (pg x) q n p' ->
  (forall p, q <= p < q + n -> managed x p /\ forall i va e, mapped x i va e -> frame_of e <> frame x p) ->
  let x' := set_pg x p' in
  minv x' /\ frames x' = frames x ∪ page.run q n /\ geo x x' /\ same_maps x x' /\
  forall a, load8 (ram x') a = if decide (frame x q <= a < frame x q + n * 4096) then 0 else load8 (ram x) a.
Proof using Hst.
  intros Hx Hi (HF & Hg & Hload) Hun x'.
  replace (page.frame_addr (pg x) (q + n)) with (frame x q + n * 4096) in Hload
    by (unfold frame, page.frame_addr, page.PAGE_SIZE; lia).
  fold (frame x q) in Hload.
  assert (forall a, frame x q <= a < frame x q + n * 4096 -> exists p, q <= p < q + n /\ frame x p <= a < frame x p + 4096) as Hpage.
  { intros a Ha. exists (q + (a - frame x q) / 4096). unfold frame, page.frame_addr, page.PAGE_SIZE in *. lia. }
  assert (forall a, any_table a -> load8 (ram x') a = load8 (ram x) a) as Htab.
  { intros a Ha. change (ram x') with (page.MEM p'). rewrite Hload, decide_False; [done|].
    intros (p & Hp & Hin)%Hpage. by apply (mi_far x Hx p a (proj1 (Hun p Hp)) Hin). }
  assert (same_maps x x') as Hsm.
  { apply same_maps_walk; [done|]. intros i va Hl Hva. by apply walk_scrub. }
  assert (frames x' = frames x ∪ page.run q n) as Hfr by exact HF.
  assert (geo x x') as Hgeo by exact Hg.
  assert (forall p, p ∈ frames x' -> p ∈ frames x \/ q <= p < q + n) as Hin.
  { intros p. rewrite Hfr, elem_of_union, page.elem_of_run. intros [?|?]; [by left|right; lia]. }
  split_and!; [|done|done|done|exact Hload]. constructor.
  - exact Hi.
  - destruct Hg as (Hg & _). cbn [pg set_pg x']. rewrite Hg. apply Hx.
  - intros p Hp. apply (geo_managed x); [done|]. destruct (Hin p Hp) as [Hq|Hq]; [by apply (mi_free x Hx)|by apply Hun].
  - intros p Hp. apply (mi_managed x Hx). by apply (geo_managed x x').
  - intros p a Hp. rewrite (geo_frame x) by done. apply (mi_far x Hx). by apply (geo_managed x x').
  - by apply (wf_scrub x (page.MEM p') Hx).
  - intros a. change (ram x') with (page.MEM p'). rewrite Hload. case_decide; [done|apply Hx].
  - intros i va e p Hma Hp. rewrite (geo_frame x), (geo_managed x) by done. intros He. apply Hsm in Hma.
    destruct (mi_own x Hx i va e p Hma Hp He). split; [done|]. intros [?|Hq]%Hin; [done|]. by apply (proj2 (Hun p Hq) i va e Hma).
  - intros i va e i' va' e' H1 H2. apply (mi_inj x Hx); by apply Hsm.
  - intros p a Hp. rewrite (geo_frame x) by done. intros Ha. change (ram x') with (page.MEM p'). rewrite Hload.
    case_decide as Hd; [done|]. destruct (Hin p Hp) as [Hq|Hq]; [by apply (mi_clean x Hx p)|].
    exfalso. apply Hd. unfold frame, page.frame_addr, page.PAGE_SIZE in *. lia.
Qed.

(** Freeing an allocated frame no process maps. *)
Lemma free_ok x p :
  minv x -> managed x p -> p ∉ frames x -> (forall i va e, mapped x i va e -> frame_of e <> frame x p) ->
  let x' := free_page (frame x p) x in
  minv x' /\ frames x' = frames x ∪ {[p]} /\ geo x x' /\ space_alloc x' = space_alloc x /\ same_maps x x' /\
  forall a, load8 (ram x') a = if decide (frame x p <= a < frame x p + 4096) then 0 else load8 (ram x) a.
Proof using Hst.
  intros Hx Hm Hp Hun. pose proof (mi_managed x Hx p Hm) as Hr. unfold free_page, page.free_page.
  assert (page.releasable (pg x) (frame x p) 1 p) as Hrel.
  { unfold page.releasable. rewrite page.run_one. split_and!; [done|lia|lia|lia|]. unfold frames in Hp. set_solver. }
  destruct (page.try_free_page_spec (pg x) (frame x p) (mi_page x Hx)) as [(q & s' & Hrq & E & Hi & Hrls)|[Hno _]];
    [|by destruct (Hno p)].
  rewrite E. cbn [snd]. assert (q = p) as -> by (symmetry; apply (frame_inj x); apply Hrq).
  destruct (minv_freed x s' p 1 Hx Hi Hrls) as (Hx' & F & G & S & L).
  { intros q Hq. assert (q = p) as -> by lia. done. }
  rewrite page.run_one in F. rewrite Z.mul_1_l in L. by split_and!.
Qed.

(** ** Installing and dropping one page *)

(** Attribute bits that make a page a process's own. *)
Definition user_attrs (a : Z) : Prop :=
  is_u32 a /\ mmu.is_fault a = false /\ Z.land a 0xFFFFF000 = 0 /\ mmu.l2_entry_is_user a = true.

Lemma prot_flags_shape prot : user_attrs (mmu.prot_to_l2_flags prot).
Proof using Type.
  unfold mmu.prot_to_l2_flags. destruct (negb (Z.land prot mmu.PROT_WRITE =? 0)); cbn [orb]; [done|].
  destruct (negb (Z.land prot mmu.PROT_READ =? 0)); destruct (Z.land prot mmu.PROT_EXEC =? 0); done.
Qed.

Definition desc (phys attrs : Z) : Z := Z.lor (Z.land phys 0xFFFFF000) attrs.
Definition page_desc (phys prot : Z) : Z := desc phys (mmu.prot_to_l2_flags prot).

Lemma desc_user phys a : user_attrs a -> mmu.l2_entry_is_user (desc phys a) = true.
Proof using Type.
  intros (_ & _ & _ & H). unfold mmu.l2_entry_is_user, desc in *. by rewrite !memguard.land_page_attrs by done.
Qed.

Lemma frame_of_desc_attrs phys a : user_attrs a -> frame_of (desc phys a) = frame_of phys.
Proof using Type.
  intros (_ & _ & H & _). unfold frame_of, desc. rewrite Z.land_lor_distr_l, H, Z.lor_0_r, <- Z.land_assoc. done.
Qed.

Lemma page_desc_user phys prot : mmu.l2_entry_is_user (page_desc phys prot) = true.
Proof using Type. apply desc_user, prot_flags_shape. Qed.

Lemma frame_of_desc phys prot : frame_of (page_desc phys prot) = frame_of phys.
Proof using Type. apply frame_of_desc_attrs, prot_flags_shape. Qed.

Lemma frame_of_aligned phys : is_u32 phys -> phys mod 4096 = 0 -> frame_of phys = phys.
Proof using Type.
  intros Hp Hm. unfold frame_of. change 0xFFFFF000 with (not32 (2 ^ 12 - 1)).
  rewrite land_not_mask by (done || lia). lia.
Qed.

Lemma frame_of_frame x p : minv x -> 0 <= p < page.MAX_PAGES -> frame_of (frame x p) = frame x p /\ is_u32 (frame x p).
Proof using Type.
  intros Hx Hp. destruct (mi_page x Hx) as [_ _ [H0 H1]]. pose proof (mi_align x Hx) as Ha.
  assert (is_u32 (frame x p)) as Hu by (unfold is_u32, frame, page.frame_addr, page.PAGE_SIZE in *; lia).
  split; [|done]. apply frame_of_aligned; [done|]. unfold frame, page.frame_addr, page.PAGE_SIZE. lia.
Qed.

(** The pages of a shattered section belong to the kernel. *)
Lemma identity_page_kernel d q : mmu.l2_entry_is_user (mmu.identity_page (Z.land d 0xFFF00000) q) = false.
Proof using Type.
  unfold mmu.l2_entry_is_user, mmu.identity_page. apply andb_false_intro2.
  rewrite Z.land_lor_distr_l. change (Z.land mmu.KERNEL_DEFAULT_PAGE NG) with 0. rewrite Z.lor_0_r.
  set (w := wrap32 _). assert (Z.land w (Z.ones 12) = 0) as Hw.
  { rewrite Z.land_ones by lia. unfold w, wrap32. rewrite Z.shiftl_mul_pow2 by lia.
    assert (Z.land d 0xFFF00000 mod 2 ^ 12 = 0) as Hb.
    { rewrite <- Z.land_ones, <- Z.land_assoc by lia. change (Z.land 0xFFF00000 (Z.ones 12)) with 0. apply Z.land_0_r. }
    set (b := Z.land d 0xFFF00000) in *. clearbody b. lia. }
  replace (Z.land w NG) with (Z.land (Z.land w (Z.ones 12)) NG) by (by rewrite <- Z.land_assoc).
  by rewrite Hw.
Qed.

Lemma mm_set_mm x s : mm (set_mm x s) = s.
Proof using Type. by destruct s. Qed.

Lemma set_mm_id x : set_mm x (mm x) = x.
Proof using Type. by destruct x as [[] ? ?]. Qed.

Lemma minv_submaps x s' :
  minv x -> mmu.wf st s' -> quiet (ram x) (mmu.mem s') ->
  (forall i va e, mapped (set_mm x s') i va e -> mapped x i va e) -> minv (set_mm x s').
Proof using Type.
  intros Hx Hwf Hq Hm. apply minv_tables; try assumption.
  - intros i va e p H%Hm. exact (mi_own x Hx i va e p H).
  - intros i va e i' va' e' H%Hm H'%Hm. exact (mi_inj x Hx i va e i' va' e' H H').
Qed.

Lemma shatter_ok x i va :
  minv x -> space_live x i -> is_u32 va ->
  let x' := set_mm x (mmu.shatter_section st (mmu.user_table_addr st i) va (mm x)).2 in
  minv x' /\ quiet (ram x) (ram x') /\ space_alloc x' = space_alloc x /\ same_maps x x'.
Proof using Hst.
  intros Hx Hi Hva x'. destruct (quiet_shatter (mm x) i va Hi Hva) as [Hq Ha].
  assert (mmu.wf st (mmu.shatter_section st (mmu.user_table_addr st i) va (mm x)).2 /\ same_maps x x') as [Hwf Hs];
    [|split_and!; [|done..]; apply minv_submaps; [done|done|done|]; intros i' va' e; apply Hs].
  unfold x'. pose proof (mmu.shatter_section_ok st Hst (mm x) i va (mi_wf x Hx) Hi Hva) as H. cbv zeta in H.
  destruct (mmu.shatter_section _ _ _ _) as [[] s']; cbn [snd] in *;
    [destruct H as [Hw [[_ ->]|[Hsec Hsh]]]|destruct H as [-> _]]; try (rewrite set_mm_id; split; [apply Hx|done]).
  split; [done|]. intros i' va' e. unfold mapped.
  assert (space_live (set_mm x s') i' <-> space_live x i') as Hl.
  { unfold space_live. rewrite mm_set_mm. unfold mmu.live. by rewrite Ha. }
  change (ram (set_mm x s')) with (mmu.mem s'). change (ram x) with (mmu.mem (mm x)).
  split; intros (H1 & H2 & H3 & H4); (split; [by apply Hl|split; [done|split; [|done]]]).
  - rewrite Hsh in H3; [|by apply Hl|done]. destruct (decide _) as [|Hn]; [|done].
    injection H3 as <-. by rewrite identity_page_kernel in H4.
  - rewrite Hsh by done. destruct (decide _) as [[-> Hk]|]; [|done]. exfalso. revert H3.
    rewrite mmu.walk_eq, Hk. unfold mmu.walk_entry, mmu.is_table, mmu.is_fault. by rewrite Hsec.
Qed.

Lemma ensure_ok x i va :
  minv x -> space_live x i -> is_u32 va ->
  let x' := set_mm x (mmu.ensure_page_mappable st (mmu.user_table_addr st i) va (mm x)).2 in
  minv x' /\ quiet (ram x) (ram x') /\ space_alloc x' = space_alloc x /\ same_maps x x'.
Proof using Hst.
  intros Hx Hi Hva. unfold mmu.ensure_page_mappable. destruct (negb _); [|by apply shatter_ok].
  cbv zeta. cbn [snd]. rewrite set_mm_id. split_and!; [done|apply quiet_refl|done|done].
Qed.

(** Page [va] of space [i] now has descriptor [e], and nothing else changed. *)
Definition maps_one (x x' : machine) (i va e : Z) : Prop :=
  forall i' va' e', mapped x' i' va' e' <->
    if decide (i' = i /\ mmu.vpage va' = mmu.vpage va) then is_u32 va' /\ e' = e else mapped x i' va' e'.

(** Only table memory changed: neither the allocator nor the frames. *)
Definition only_tables (x x' : machine) : Prop :=
  quiet (ram x) (ram x') /\ frames x' = frames x /\ geo x x' /\ space_alloc x' = space_alloc x.

Lemma live_alloc x x' i : space_alloc x' = space_alloc x -> space_live x' i <-> space_live x i.
Proof using Type. intros H. unfold space_live, mmu.live. cbn [mm mmu.ADDR_SPACE_ALLOC]. by rewrite H. Qed.

Lemma only_tables_mm x s' : quiet (ram x) (mmu.mem s') -> mmu.ADDR_SPACE_ALLOC s' = space_alloc x -> only_tables x (set_mm x s').
Proof using Type. intros Hq Ha. split_and!; [exact Hq|reflexivity|by split_and!|exact Ha]. Qed.

Lemma only_tables_trans x y z : only_tables x y -> only_tables y z -> only_tables x z.
Proof using Type.
  intros (Q1 & F1 & G1 & A1) (Q2 & F2 & G2 & A2).
  split_and!; [by eapply quiet_trans|congruence|by eapply geo_trans|congruence].
Qed.

Lemma maps_one_walk x x' i va e :
  space_alloc x' = space_alloc x -> space_live x i -> is_u32 va -> mmu.l2_entry_is_user e = true ->
  (forall i' va', space_live x i' -> is_u32 va' -> (i' <> i \/ mmu.vpage va' <> mmu.vpage va) ->
    mmu.walk (ram x') (mmu.user_table_addr st i') va' = mmu.walk (ram x) (mmu.user_table_addr st i') va') ->
  mmu.walk (ram x') (mmu.user_table_addr st i) va = mmu.PageMap e -> maps_one x x' i va e.
Proof using Type.
  intros Ha Hi Hva Hu Hne Hat i' va' e'. unfold mapped. rewrite (live_alloc x x') by done.
  destruct (decide _) as [[-> Hp]|Hn].
  - split.
    + intros (_ & Hv & Hw & _). split; [done|]. rewrite (walk_same_page _ i va' va), Hat in Hw by done. congruence.
    + intros [Hv ->]. split_and!; [done|done| |done]. by rewrite (walk_same_page _ i va' va).
  - split; intros (H1 & H2 & H3 & H4); (split_and!; [done|done| |done]).
    + rewrite <- (Hne i' va'); [done|done|done|by apply not_and_l in Hn].
    + rewrite (Hne i' va'); [done|done|done|by apply not_and_l in Hn].
Qed.

Lemma minv_maps_one x s' i va e p :
  minv x -> mmu.wf st s' -> quiet (ram x) (mmu.mem s') -> mmu.ADDR_SPACE_ALLOC s' = space_alloc x ->
  maps_one x (set_mm x s') i va e -> managed x p -> frame_of e = frame x p -> p ∉ frames x ->
  (forall i' va' e', mapped x i' va' e' -> frame_of e' = frame x p -> i' = i /\ mmu.vpage va' = mmu.vpage va) ->
  minv (set_mm x s').
Proof using Type.
  intros Hx Hwf Hq Ha Hm Hp He Hfree Hone. apply minv_tables; try assumption.
  - intros i' va' e' q Hma%Hm Hqr Hfr. destruct (decide _); [|by apply (mi_own x Hx i' va' e')].
    destruct Hma as [_ ->]. assert (q = p) as -> by (apply (frame_inj x); congruence). done.
  - intros i1 va1 e1 i2 va2 e2 H1%Hm H2%Hm Hf.
    destruct (decide (i1 = i /\ _)) as [[-> P1]|N1], (decide (i2 = i /\ _)) as [[-> P2]|N2].
    + split; [done|congruence].
    + destruct H1 as [_ ->]. exfalso. apply N2. apply (Hone _ _ _ H2). congruence.
    + destruct H2 as [_ ->]. exfalso. apply N1. apply (Hone _ _ _ H1). congruence.
    + by apply (mi_inj x Hx i1 va1 e1 i2 va2 e2).
Qed.

(** An allocated frame that no process maps. *)
Definition loose (x : machine) (p : Z) : Prop :=
  managed x p /\ (p ∉ frames x) /\ forall i va e, mapped x i va e -> frame_of e <> frame x p.

(** An allocated frame that no process maps but at one place. *)
Definition spare (x : machine) (p i va : Z) : Prop :=
  managed x p /\ (p ∉ frames x) /\
  forall i' va' e', mapped x i' va' e' -> frame_of e' = frame x p -> i' = i /\ mmu.vpage va' = mmu.vpage va.

Lemma loose_spare x p i va : loose x p -> spare x p i va.
Proof using Type. intros (Hm & Hf & Hun). split_and!; [done|done|]. intros i' va' e' Hma He. by destruct (Hun i' va' e' Hma). Qed.

Lemma map_ok x i va p a :
  minv x -> space_live x i -> is_u32 va -> ~ mmu.kernel_mb (mmu.vmb va) -> spare x p i va -> user_attrs a ->
  let r := mmu.map_page st (mmu.user_table_addr st i) va (frame x p) a (mm x) in
  let x' := set_mm x r.2 in
  minv x' /\ only_tables x x' /\ (if r.1 then maps_one x x' i va (desc (frame x p) a) else x' = x).
Proof using Hst.
  intros Hx Hi Hva Hnk (Hm & Hfr & Hun) Hat r x'. pose proof (mi_managed x Hx p Hm) as Hpr.
  destruct (frame_of_frame x p Hx Hpr) as [Hfp Hu32]. pose proof Hat as (Hau & Haf & _ & _).
  pose proof (mmu.map_page_ok st Hst (mm x) i va (frame x p) a (mi_wf x Hx) Hi Hva Hnk Hu32 Hau Haf) as H. fold r in H.
  destruct (quiet_map_page (mm x) i va (frame x p) a (mi_wf x Hx) Hi Hva Hnk) as [Hq Ha]. fold r in Hq, Ha.
  unfold x' in *. destruct r as [[] s']; cbn [fst snd] in *.
  - destruct H as (Hwf & Hex & Hw). assert (maps_one x (set_mm x s') i va (desc (frame x p) a)) as Hone
      by (by apply maps_one_walk; [|..|apply desc_user|exact Hex|exact Hw]).
    split_and!; [|by apply only_tables_mm|done]. apply (minv_maps_one x s' i va (desc (frame x p) a) p); try assumption.
    by rewrite frame_of_desc_attrs.
  - destruct H as [-> _]. rewrite set_mm_id. split; [done|]. split; [|done]. split_and!; [apply quiet_refl|done|by split_and!|done].
Qed.

Lemma loose_same x y p : only_tables x y -> same_maps x y -> loose x p -> loose y p.
Proof using Type.
  intros (_ & F & G & _) S (Hm & Hf & Hun). split_and!; [by apply (geo_managed x)|by rewrite F|].
  intros i va e Hma%S. rewrite (geo_frame x) by done. by apply Hun in Hma.
Qed.

Lemma install_ok x i va p prot :
  minv x -> space_live x i -> is_u32 va -> ~ mmu.kernel_mb (mmu.vmb va) -> loose x p ->
  let '(ok, x') := install_page st (mmu.user_table_addr st i) va (frame x p) (mmu.prot_to_l2_flags prot) x in
  minv x' /\ only_tables x x' /\
  (if ok then maps_one x x' i va (page_desc (frame x p) prot) else same_maps x x').
Proof using Hst.
  intros Hx Hi Hva Hnk Hl. destruct (ensure_ok x i va Hx Hi Hva) as (Hx1 & Hq1 & Ha1 & Hs1). unfold install_page.
  destruct (mmu.ensure_page_mappable st (mmu.user_table_addr st i) va (mm x)) as [[] s1]; cbn [snd] in *;
    [|split_and!; [done|by apply only_tables_mm|done]].
  set (x1 := set_mm x s1) in *. assert (mm x1 = s1) as Hmm by apply mm_set_mm. rewrite <- Hmm.
  assert (only_tables x x1) as O1 by (by apply only_tables_mm).
  assert (space_live x1 i) as Hi1 by (by apply (live_alloc x)).
  pose proof (map_ok x1 i va p (mmu.prot_to_l2_flags prot) Hx1 Hi1 Hva Hnk (loose_spare x1 p i va (loose_same x x1 p O1 Hs1 Hl)) (prot_flags_shape prot)) as H.
  rewrite (geo_frame x x1) in H by apply O1.
  destruct (mmu.map_page st _ va (frame x p) _ (mm x1)) as [ok s2]. destruct H as (Hx2 & O2 & H). cbn [fst snd] in *.
  assert (set_mm x s2 = set_mm x1 s2) as -> by done. split_and!; [done|by eapply only_tables_trans|].
  destruct ok; [|by rewrite H]. intros i' va' e'. rewrite (H i' va' e'). destruct (decide _); [done|apply Hs1].
Qed.

Lemma read_l2_phys_walk m l1 va e : mmu.walk m l1 va = mmu.PageMap e -> mmu.read_l2_phys m l1 va = Some (frame_of e).
Proof using Type.
  unfold mmu.walk, mmu.read_l2_phys, mmu.read_l2_entry. destruct (mmu.is_table _); cbn [negb].
  - destruct (mmu.is_fault _); [done|]. by intros [= ->].
  - by destruct (mmu.is_fault _).
Qed.

(** Page [va] of space [i] is gone, and nothing else changed. *)
Definition unmaps_one (x x' : machine) (i va : Z) : Prop :=
  forall i' va' e', mapped x' i' va' e' <-> ~ (i' = i /\ mmu.vpage va' = mmu.vpage va) /\ mapped x i' va' e'.

Lemma unmap_ok x i va e :
  minv x -> mapped x i va e -> ~ mmu.kernel_mb (mmu.vmb va) ->
  let x' := set_mm x (mmu.unmap_page st (mmu.user_table_addr st i) va (mm x)) in
  minv x' /\ only_tables x x' /\ unmaps_one x x' i va.
Proof using Hst.
  intros Hx (Hi & Hva & Hw & Hu) Hnk x'.
  destruct (quiet_unmap_page (mm x) i va (mi_wf x Hx) Hi Hva Hnk) as [Hq Ha].
  destruct (mmu.unmap_page_ok st Hst (mm x) i va (mi_wf x Hx) Hi Hva Hnk) as (Hwf & Hex & Hgone).
  assert (mmu.walk (ram x') (mmu.user_table_addr st i) va = mmu.Fault) as Hf.
  { destruct Hgone as [?|[Ht _]]; [done|]. exfalso. revert Hw. rewrite mmu.walk_fault_entry by done.
    by destruct (mmu.is_fault _). }
  assert (unmaps_one x x' i va) as Hone.
  { intros i' va' e'. unfold mapped. rewrite (live_alloc x x') by done.
    destruct (decide (i' = i /\ mmu.vpage va' = mmu.vpage va)) as [[-> Hp]|Hn].
    - split; [|intros [Hn _]; by destruct Hn]. intros (_ & Hv & Hw' & _). exfalso.
      rewrite (walk_same_page _ i va' va), Hf in Hw' by done. done.
    - assert (i' <> i \/ mmu.vpage va' <> mmu.vpage va) as Hor by (by apply not_and_l in Hn).
      split; [intros (H1 & H2 & H3 & H4); split; [done|]|intros [_ (H1 & H2 & H3 & H4)]]; (split_and!; [done|done| |done]).
      + exact (eq_trans (eq_sym (Hex i' va' H1 H2 Hor)) H3).
      + exact (eq_trans (Hex i' va' H1 H2 Hor) H3). }
  split_and!; [|by apply only_tables_mm|done].
  apply minv_submaps; [done|done|done|]. intros i' va' e'. apply Hone.
Qed.

(** Frames were freed and scrubbed, and no other memory outside the tables changed. *)
Definition settled (x x' : machine) : Prop :=
  frames x ⊆ frames x' /\ geo x x' /\ space_alloc x' = space_alloc x /\
  forall a, ~ in_tables a -> load8 (ram x') a = load8 (ram x) a \/
    exists p, p ∈ frames x' /\ frame x p <= a < frame x p + 4096.

Lemma settled_refl x : settled x x.
Proof using Type. split_and!; [done|by split_and!|done|by left]. Qed.

Lemma settled_trans x y z : settled x y -> settled y z -> settled x z.
Proof using Type.
  intros (F1 & G1 & A1 & M1) (F2 & G2 & A2 & M2). split_and!; [by transitivity (frames y)|by eapply geo_trans|congruence|].
  intros a Ha. destruct (M2 a Ha) as [->|(p & Hp & Hin)].
  - destruct (M1 a Ha) as [->|(p & Hp & Hin)]; [by left|right]. exists p. split; [by apply F2|done].
  - right. exists p. split; [done|]. by rewrite (geo_frame x y) in Hin.
Qed.

Lemma drop_ok x i va e p :
  minv x -> mapped x i va e -> ~ mmu.kernel_mb (mmu.vmb va) -> managed x p -> frame_of e = frame x p ->
  let x' := drop_page st (mmu.user_table_addr st i) va x in
  minv x' /\ frames x' = frames x ∪ {[p]} /\ unmaps_one x x' i va /\ settled x x'.
Proof using Hst.
  intros Hx Hma Hnk Hp He x'. unfold x', drop_page.
  rewrite (read_l2_phys_walk _ _ _ e), He by apply Hma.
  destruct (unmap_ok x i va e Hx Hma Hnk) as (Hx1 & (Hq & F1 & G1 & A1) & Hone).
  set (x1 := set_mm x _) in *. destruct (mi_own x Hx i va e p Hma (mi_managed x Hx p Hp) He) as [_ Hnf].
  rewrite <- (geo_frame x x1) by done.
  destruct (free_ok x1 p Hx1) as (Hx2 & F2 & G2 & A2 & Hs & Hload).
  - by apply (geo_managed x).
  - by rewrite F1.
  - intros i' va' e' [Hn Hma']%Hone Hf. rewrite (geo_frame x) in Hf by done. apply Hn.
    apply (mi_inj x Hx i' va' e' i va e); [done|done|congruence].
  - split_and!; [done|by rewrite F2, F1| |].
    + intros i' va' e'. rewrite (Hs i' va' e'). apply Hone.
    + split_and!; [set_solver|by eapply geo_trans|congruence|]. intros a Ha. rewrite Hload, (geo_frame x x1) by done.
      case_decide as Hd; [|left; by apply Hq]. right. exists p. split; [set_solver|done].
Qed.

(** ** Runs of pages *)

(** [n] pages from [base], below the kernel image. *)
Definition region (base : Z) (n : nat) : Prop :=
  0 <= base /\ base mod 4096 = 0 /\ base + Z.of_nat n * 4096 <= 0x40000000.

Definition in_run (base : Z) (n : nat) (va : Z) : Prop := base / 4096 <= mmu.vpage va < base / 4096 + Z.of_nat n.

Lemma page_va_region base n j :
  region base n -> (j < n)%nat ->
  page_va base j = base + Z.of_nat j * 4096 /\ is_u32 (page_va base j) /\ ~ mmu.kernel_mb (mmu.vmb (page_va base j)) /\
  mmu.vpage (page_va base j) = base / 4096 + Z.of_nat j.
Proof using Type.
  intros (H0 & Ha & Hb) Hj. unfold page_va, PAGE_SIZE, page.PAGE_SIZE.
  assert (is_u32 (base + Z.of_nat j * 4096)) as Hu by (unfold is_u32; lia). rewrite wrap32_small by done.
  split_and!; [done|done| |].
  - unfold mmu.kernel_mb, mmu.vmb. lia.
  - unfold mmu.vpage. lia.
Qed.

Lemma in_run_S base n va : in_run base (S n) va <-> in_run base n va \/ mmu.vpage va = base / 4096 + Z.of_nat n.
Proof using Type. unfold in_run. lia. Qed.

#[local] Instance in_run_dec base n va : Decision (in_run base n va).
Proof using Type. unfold in_run. apply _. Defined.

Lemma mapped_fun x i va va' e e' :
  mapped x i va e -> mapped x i va' e' -> mmu.vpage va = mmu.vpage va' -> e = e'.
Proof using Type.
  intros (_ & H1 & H2 & _) (_ & H3 & H4 & _) Hp. rewrite (walk_same_page _ i va va'), H4 in H2 by done. by injection H2.
Qed.

Lemma mapped_page x i va va' e : mapped x i va e -> is_u32 va' -> mmu.vpage va = mmu.vpage va' -> mapped x i va' e.
Proof using Type.
  intros (H1 & H2 & H3 & H4) Hv Hp. split_and!; [done|done| |done]. by rewrite (walk_same_page _ i va' va).
Qed.

Section region.
Context (i base prot : Z).

(** [x'] is [x0] with [n] fresh pages mapped from [base]. *)
Record grown (x0 x : machine) (n : nat) : Prop := {
  g_inv : minv x;
  g_quiet : quiet (ram x0) (ram x);
  g_geo : geo x0 x;
  g_alloc : space_alloc x = space_alloc x0;
  g_count : size (frames x0) = (size (frames x) + n)%nat;
  g_sub : frames x ⊆ frames x0;
  g_maps : forall i' va e, ~ (i' = i /\ in_run base n va) -> mapped x i' va e <-> mapped x0 i' va e;
  g_new : forall va, is_u32 va -> in_run base n va ->
    exists p, p ∈ frames x0 /\ (p ∉ frames x) /\ mapped x i va (page_desc (frame x0 p) prot);
  g_taken : forall p, p ∈ frames x0 -> (p ∉ frames x) ->
    exists va, is_u32 va /\ in_run base n va /\ mapped x i va (page_desc (frame x0 p) prot);
}.

Lemma grown_0 x : minv x -> grown x x 0.
Proof using Type.
  intros Hx. constructor; try done. intros va _ [H1 H2]. exfalso. lia.
Qed.

Lemma grown_snoc x0 x x1 x2 n p :
  region base (S n) -> minv x0 -> grown x0 x n -> p ∈ frames x -> frames x1 = frames x ∖ {[p]} -> geo x x1 -> mm x1 = mm x ->
  minv x2 -> only_tables x1 x2 -> maps_one x1 x2 i (page_va base n) (page_desc (frame x1 p) prot) ->
  grown x0 x2 (S n).
Proof using Hst.
  intros Hreg Hx0 G Hp F1 G1 M1 Hx2 (Q2 & F2 & G2 & A2) Hone.
  destruct (page_va_region base (S n) n Hreg ltac:(lia)) as (_ & Hu & _ & Hvp).
  assert (ram x1 = ram x) as R1 by exact (f_equal mmu.mem M1).
  assert (space_alloc x1 = space_alloc x) as A1 by exact (f_equal mmu.ADDR_SPACE_ALLOC M1).
  assert (forall i' va e, mapped x1 i' va e <-> mapped x i' va e) as Hm1.
  { intros. unfold mapped, space_live. by rewrite M1, R1. }
  rewrite F1 in F2. rewrite (geo_frame x0 x1) in Hone by (eapply geo_trans; [apply G|done]).
  assert (p ∈ frames x0) as Hp0 by (by apply (g_sub _ _ _ G)).
  constructor.
  - done.
  - eapply quiet_trans; [apply G|]. by rewrite <- R1.
  - eapply geo_trans; [apply G|]. by eapply geo_trans.
  - rewrite A2, A1. apply G.
  - rewrite (g_count _ _ _ G), F2, size_difference, size_singleton by (clear -Hp; set_solver).
    assert (size (frames x) <> 0)%nat; [|lia]. intros Hz%size_empty_inv. clear -Hz Hp. set_solver.
  - rewrite F2. pose proof (g_sub _ _ _ G) as Hs. clear -Hs. set_solver.
  - intros i' va e Hn. rewrite (Hone i' va e), decide_False by (intros [-> Hv]; apply Hn; rewrite in_run_S; lia).
    rewrite Hm1. apply (g_maps _ _ _ G). intros [-> ?]. apply Hn. rewrite in_run_S. tauto.
  - intros va Hva [Hr|Hr]%in_run_S.
    + destruct (g_new _ _ _ G va Hva Hr) as (q & Hq0 & Hq & Hmq). exists q. split_and!; [done|set_solver|].
      apply Hone. rewrite decide_False by (unfold in_run in Hr; lia). by apply Hm1.
    + exists p. split_and!; [done|set_solver|]. apply Hone. rewrite decide_True by lia. done.
  - intros q Hq0 Hq. destruct (decide (q = p)) as [->|Hne].
    + exists (page_va base n). split_and!; [done|rewrite in_run_S; lia|]. apply Hone. by rewrite decide_True.
    + assert (q ∉ frames x) as Hqx by (rewrite F2 in Hq; clear -Hq Hne; set_solver).
      destruct (g_taken _ _ _ G q Hq0 Hqx) as (va & Hva & Hr & Hmq). exists va.
      split_and!; [done|rewrite in_run_S; tauto|]. apply Hone. rewrite decide_False by (unfold in_run in Hr; lia). by apply Hm1.
Qed.

(** [x] is [x0] with the first [n] pages of the region given back. *)
Record shrunk (x0 x : machine) (n : nat) : Prop := {
  s_inv : minv x;
  s_settled : settled x0 x;
  s_maps : forall i' va e, mapped x i' va e <-> ~ (i' = i /\ in_run base n va) /\ mapped x0 i' va e;
  s_frames : forall p, p ∈ frames x <-> p ∈ frames x0 \/
    exists va e, in_run base n va /\ mapped x0 i va e /\ managed x0 p /\ frame_of e = frame x0 p;
}.

(** Every page of the region is mapped to a frame of the allocator. *)
Definition backed (x : machine) (n : nat) : Prop :=
  forall va, is_u32 va -> in_run base n va -> exists e p, mapped x i va e /\ managed x p /\ frame_of e = frame x p.

Lemma shrunk_0 x : minv x -> shrunk x x 0.
Proof using Type.
  intros Hx. constructor; [done|apply settled_refl| |].
  - intros i' va e. split; [|tauto]. intros. split; [|done]. intros [_ [? ?]]. lia.
  - intros p. split; [by left|]. intros [?|(va & e & [? ?] & _)]; [done|lia].
Qed.

Lemma shrunk_snoc x0 x n :
  region base (S n) -> backed x0 (S n) -> shrunk x0 x n -> shrunk x0 (drop_page st (mmu.user_table_addr st i) (page_va base n) x) (S n).
Proof using Hst.
  intros Hreg Hb S. destruct (page_va_region base (Datatypes.S n) n Hreg ltac:(lia)) as (_ & Hu & Hnk & Hvp).
  destruct (Hb (page_va base n) Hu) as (e & p & Hma & Hp & He); [rewrite in_run_S; lia|].
  destruct (s_settled _ _ _ S) as (F1 & G1 & _ & _).
  assert (mapped x i (page_va base n) e) as Hma1.
  { apply (s_maps _ _ _ S). split; [|done]. intros [_ ?]. unfold in_run in *. lia. }
  destruct (drop_ok x i (page_va base n) e p (s_inv _ _ _ S) Hma1 Hnk) as (Hx' & F' & Hone & Hs').
  { by apply (geo_managed x0). } { by rewrite (geo_frame x0). }
  constructor.
  - done.
  - eapply settled_trans; [apply S|done].
  - intros i' va' e'. rewrite (Hone i' va' e'), (s_maps _ _ _ S), in_run_S, Hvp. tauto.
  - intros q. rewrite F', elem_of_union, (s_frames _ _ _ S), elem_of_singleton. split.
    + intros [[?|(va & e' & Hr & ? & ? & ?)]| ->]; [by left|right|right].
      * exists va, e'. rewrite in_run_S. tauto.
      * exists (page_va base n), e. rewrite in_run_S. tauto.
    + intros [?|(va & e' & [Hr|Hr]%in_run_S & Hv & Hq & He')]; [tauto| |].
      * left. right. by exists va, e'.
      * right. apply (frame_inj x0). rewrite <- He, <- He'. f_equal. apply (mapped_fun x0 i va (page_va base n)); [done|done|]. by rewrite Hvp.
Qed.

Lemma region_le n m : region base m -> (n <= m)%nat -> region base n.
Proof using Type. intros (H0 & Ha & Hb) Hn. split_and!; [done|done|lia]. Qed.

Lemma drop_pages_ok x n :
  minv x -> region base n -> backed x n -> shrunk x (drop_pages st (mmu.user_table_addr st i) base n x) n.
Proof using Hst.
  intros Hx. induction n as [|n IH]; intros Hreg Hb; [by apply shrunk_0|].
  unfold drop_pages in *. rewrite seq_S, foldl_app. cbn [foldl Nat.add]. apply shrunk_snoc; [done|done|].
  apply IH; [apply (region_le n (S n)); [done|lia]|]. intros va Hva Hr. apply Hb; [done|]. rewrite in_run_S. tauto.
Qed.
End region.

(** The same pages, the same free frames, and no byte outside the tables changed. *)
Record restored (x x' : machine) : Prop := {
  r_inv : minv x';
  r_tables : only_tables x x';
  r_maps : same_maps x x';
}.

Lemma restored_refl x : minv x -> restored x x.
Proof using Type. intros Hx. constructor; [done|split_and!; [apply quiet_refl|done|by split_and!|done]|done]. Qed.

Lemma restored_intro x x' :
  minv x -> minv x' -> frames x' = frames x -> geo x x' -> space_alloc x' = space_alloc x -> same_maps x x' ->
  (forall a, ~ in_tables a -> (forall p, p ∈ frames x -> ~ (frame x p <= a < frame x p + 4096)) ->
    load8 (ram x') a = load8 (ram x) a) -> restored x x'.
Proof using Type.
  intros Hx Hx' HF HG HA HM Hl. constructor; [done|split_and!; [|done|done|done]|done].
  split; [|intros _; apply Hx']. intros a Ha.
  destruct (decide (Exists (fun p => frame x p <= a < frame x p + 4096) (elements (frames x)))) as [Hex|Hno].
  - apply Exists_exists in Hex as (p & Hp%elem_of_elements & Hin).
    rewrite (mi_clean x Hx p a Hp Hin). apply (mi_clean x' Hx' p); [by rewrite HF|by rewrite (geo_frame x x')].
  - apply Hl; [done|]. intros p Hp Hin. apply Hno, Exists_exists. exists p. by rewrite elem_of_elements.
Qed.

Section loops.
Context (i base prot : Z) (x0 : machine) (Hx0 : minv x0) (Hi : space_live x0 i).

Lemma grown_same y z n :
  grown i base prot x0 y n -> restored y z -> grown i base prot x0 z n.
Proof using Type.
  intros G [Hz (Q & F & Ge & A) M]. constructor.
  - done.
  - eapply quiet_trans; [apply G|done].
  - eapply geo_trans; [apply G|done].
  - rewrite A. apply G.
  - rewrite F. apply G.
  - rewrite F. apply G.
  - intros i' va e Hn. rewrite (M i' va e). by apply (g_maps _ _ _ _ _ _ G).
  - intros va Hva Hr. destruct (g_new _ _ _ _ _ _ G va Hva Hr) as (p & ? & ? & ?). exists p.
    split_and!; [done|by rewrite F|by apply M].
  - intros p Hp Hq. rewrite F in Hq. destruct (g_taken _ _ _ _ _ _ G p Hp Hq) as (va & ? & ? & ?). exists va.
    split_and!; [done|done|by apply M].
Qed.

(** The frame just allocated. *)
Lemma fresh_loose x x1 p :
  minv x -> p ∈ frames x -> frames x1 = frames x ∖ {[p]} -> geo x x1 -> mm x1 = mm x -> loose x1 p.
Proof using Type.
  intros Hx Hp F1 G1 M1. pose proof (mi_free x Hx p Hp) as Hm. split_and!.
  - by apply (geo_managed x).
  - rewrite F1. apply not_elem_of_difference. right. by apply elem_of_singleton.
  - intros i' va e Hma He. rewrite (geo_frame x) in He by done.
    assert (mapped x i' va e) as Hma'.
    { unfold mapped, space_live in *. assert (ram x1 = ram x) as <- by exact (f_equal mmu.mem M1). by rewrite <- M1. }
    by destruct (mi_own x Hx i' va e p Hma' (mi_managed x Hx p Hm) He).
Qed.

(** A frame that is allocated, found not mappable and freed. *)
Lemma unplaced x x1 x2 p :
  minv x -> p ∈ frames x -> frames x1 = frames x ∖ {[p]} -> geo x x1 -> mm x1 = mm x ->
  minv x2 -> only_tables x1 x2 -> same_maps x1 x2 -> restored x (free_page (frame x p) x2).
Proof using Hst.
  intros Hx Hp F1 G1 M1 Hx2 (Q2 & F2 & G2 & A2) S2.
  destruct (fresh_loose x x1 p Hx Hp F1 G1 M1) as (Hm & Hnf & Hun).
  assert (geo x x2) as G by (by eapply geo_trans).
  assert (ram x1 = ram x) as R1 by exact (f_equal mmu.mem M1).
  rewrite <- (geo_frame x x2) by done.
  destruct (free_ok x2 p Hx2) as (Hx3 & F3 & G3 & A3 & S3 & Hload).
  - by apply (geo_managed x1).
  - by rewrite F2.
  - intros i' va e Hma%S2. rewrite (geo_frame x1) by done. by apply Hun in Hma.
  - apply restored_intro; [done|done| |by eapply geo_trans| | |].
    + rewrite F3, F2, F1, (union_comm_L (_ ∖ _)). symmetry. apply union_difference_L. clear -Hp. set_solver.
    + rewrite A3, A2. exact (f_equal mmu.ADDR_SPACE_ALLOC M1).
    + intros i' va e. rewrite (S3 i' va e), (S2 i' va e). unfold mapped, space_live. by rewrite M1, R1.
    + intros a Ha Hout. rewrite Hload, decide_False by (rewrite (geo_frame x x2) by done; by apply Hout).
      destruct Q2 as [Q2 _]. by rewrite Q2, R1.
Qed.

Lemma map_pages_ok n k x :
  region base (k + n) -> grown i base prot x0 x k ->
  match map_pages st (mmu.user_table_addr st i) base (mmu.prot_to_l2_flags prot) k n x with
  | Filled x' => grown i base prot x0 x' (k + n)
  | NoFrame j x' => (k <= j < k + n)%nat /\ grown i base prot x0 x' j /\ frames x' = ∅
  | NoTable j phys x' => (k <= j < k + n)%nat /\ grown i base prot x0 (free_page phys x') j
  end.
Proof using Hst Hx0 Hi.
  revert k x. induction n as [|n IH]; intros k x Hreg G; cbn [map_pages]; [by rewrite Nat.add_0_r|].
  pose proof (g_inv _ _ _ _ _ _ G) as Hx. pose proof (alloc_ok x Hx) as Hal.
  destruct (alloc_page x) as [[phys|] x1]; [|destruct Hal as [-> HF]; split_and!; [lia|lia|done|done]].
  destruct Hal as (p & Hp & -> & F1 & G1 & M1 & Hx1).
  destruct (page_va_region base (k + S n) k Hreg ltac:(lia)) as (_ & Hu & Hnk & _).
  assert (space_live x1 i) as Hi1.
  { unfold space_live. rewrite M1. apply (live_alloc x0); [apply G|done]. }
  pose proof (install_ok x1 i (page_va base k) p prot Hx1 Hi1 Hu Hnk (fresh_loose x x1 p Hx Hp F1 G1 M1)) as Hin.
  rewrite (geo_frame x x1) in Hin by done.
  destruct (install_page st _ _ _ _ x1) as [[] x2]; destruct Hin as (Hx2 & O2 & H2).
  - assert (grown i base prot x0 x2 (S k)) as G2.
    { eapply (grown_snoc i base prot x0 x x1 x2 k p); try eassumption; [apply (region_le base (S k) (k + S n)); [done|lia]|].
      by rewrite (geo_frame x x1). }
    specialize (IH (S k) x2). rewrite Nat.add_succ_comm in IH. specialize (IH Hreg G2).
    destruct (map_pages _ _ _ _ _ _ _); [done| |]; (destruct IH as [Hj IH]; split; [lia|done]).
  - split; [lia|]. apply (grown_same x); [done|]. by apply (unplaced x x1).
Qed.

(** Giving the new pages back undoes the whole call. *)
Lemma rollback_ok x n :
  region base n -> (forall va e, in_run base n va -> ~ mapped x0 i va e) -> grown i base prot x0 x n ->
  restored x0 (drop_pages st (mmu.user_table_addr st i) base n x).
Proof using Hst Hx0.
  intros Hreg Hun G. pose proof (g_geo _ _ _ _ _ _ G) as Hg.
  assert (forall p, 0 <= p < page.MAX_PAGES -> frame_of (page_desc (frame x0 p) prot) = frame x0 p) as Hdesc.
  { intros p Hp. rewrite frame_of_desc. by apply frame_of_frame. }
  assert (forall p, p ∈ frames x0 -> managed x0 p /\ 0 <= p < page.MAX_PAGES) as Hman.
  { intros p Hp. pose proof (mi_free x0 Hx0 p Hp) as Hm. split; [done|by apply (mi_managed x0 Hx0)]. }
  assert (backed i base x n) as Hb.
  { intros va Hva Hr. destruct (g_new _ _ _ _ _ _ G va Hva Hr) as (p & Hp & _ & Hma).
    destruct (Hman p Hp). exists (page_desc (frame x0 p) prot), p.
    split_and!; [done|by apply (geo_managed x0)|by rewrite (geo_frame x0 x), Hdesc]. }
  pose proof (drop_pages_ok i base x n (g_inv _ _ _ _ _ _ G) Hreg Hb) as S. set (x' := drop_pages _ _ _ _ _) in *.
  destruct (s_settled _ _ _ _ _ S) as (Hsub & Hg' & Ha & Hload).
  assert (frames x' = frames x0) as HF.
  { apply set_eq. intros p. rewrite (s_frames _ _ _ _ _ S). split.
    - intros [Hp|(va & e & Hr & Hma & Hp & He)]; [by apply (g_sub _ _ _ _ _ _ G)|].
      destruct (g_new _ _ _ _ _ _ G va (proj1 (proj2 Hma)) Hr) as (q & Hq & _ & Hmq). destruct (Hman q Hq) as [_ Hqr].
      rewrite (mapped_fun x i va va e _ Hma Hmq eq_refl), Hdesc, (geo_frame x0 x) in He by done. by apply frame_inj in He as ->.
    - intros Hp. destruct (decide (p ∈ frames x)) as [|Hn]; [by left|right]. destruct (Hman p Hp).
      destruct (g_taken _ _ _ _ _ _ G p Hp Hn) as (va & _ & Hr & Hma). exists va, (page_desc (frame x0 p) prot).
      split_and!; [done|done|by apply (geo_managed x0)|by rewrite (geo_frame x0 x), Hdesc]. }
  apply restored_intro; [done|apply S|done|by eapply geo_trans| | |].
  - rewrite Ha. apply G.
  - intros i' va e. rewrite (s_maps _ _ _ _ _ S). destruct (decide (i' = i /\ in_run base n va)) as [[-> Hr]|Hn].
    + split; [tauto|]. intros Hma. by destruct (Hun va e Hr).
    + rewrite (g_maps _ _ _ _ _ _ G i' va e Hn). tauto.
  - intros a Hnt Hout. destruct (Hload a Hnt) as [->|(p & Hp & Hin)]; [by apply G|].
    rewrite (geo_frame x0) in Hin by done. rewrite HF in Hp. by destruct (Hout p Hp).
Qed.
End loops.
End theory.
End vm.
