(* ===== verification/Mmap.v ===== *)
(** * Process memory: brk, mmap, munmap and mprotect ([crates/thumos/src/syscall.rs])

    The four calls over the machine of [Vm] and the mapping records of the
    current process in [Process]: the calls' guards, the first-fit search, the
    allocation loops with their rollback, and the bookkeeping in the process
    table. *)

From S2P Require Import Prelude Machine Page Mmu Memguard Pipe Fd Signal Process Vm.
From Stdlib Require Import ZArith.
Open Scope Z_scope.

Module mmap.
Import vm.

Definition MMAP_BASE : Z := 0x20000000.
Definition MMAP_LIMIT : Z := 0x30000000.
Definition MAP_FAILED : Z := 2 ^ 32 - 1.
Definition MAP_ANONYMOUS : Z := 0x20.
Definition EINVAL : Z := errno 22.
Definition EFAULT : Z := errno 14.

Section calls.
Context (st : mmu.statics) {D : Type}.
#[local] Abbreviation kernel := (process.kernel D).

(** ** brk *)

Definition sys_brk (new_break_raw : Z) (k : kernel) (x : machine) : Z * kernel * machine :=
  let current := process.current_heap_break k in
  if new_break_raw =? 0 then (current, k, x) else
  let new_break := Z.land (wrap32 (new_break_raw + PAGE_SIZE - 1)) (not32 (PAGE_SIZE - 1)) in
  let pt := process.current_page_table k in
  if pt =? 0 then (current, k, x) else
  let l2_attrs := mmu.prot_to_l2_flags (Z.lor mmu.PROT_READ mmu.PROT_WRITE) in
  if current <? new_break then
    let pages_needed := Z.to_nat ((new_break - current) / PAGE_SIZE) in
    match map_pages st pt current l2_attrs 0 pages_needed x with
    | NoFrame i x => (current, k, drop_pages st pt current i x)
    | NoTable _ phys x => (current, k, free_page phys x)
    | Filled x =>
        let k := process.set_heap_break new_break k in (process.current_heap_break k, k, x)
    end
  else if new_break <? current then
    let pages_to_free := Z.to_nat ((current - new_break) / PAGE_SIZE) in
    let x := drop_pages st pt new_break pages_to_free x in
    let k := process.set_heap_break new_break k in (process.current_heap_break k, k, x)
  else (current, k, x).

(** ** mmap *)

Definition mapping_end (m : process.VmMapping) : Z := wrap32 (process.start m + process.pages m * PAGE_SIZE).

(** [find_map] over the mapping slots: the end of the first that overlaps. *)
Fixpoint overlap (ms : list (option process.VmMapping)) (lo hi : Z) : option Z :=
  match ms with
  | [] => None
  | Some m :: ms =>
      if (lo <? mapping_end m) && (process.start m <? hi) then Some (mapping_end m) else overlap ms lo hi
  | None :: ms => overlap ms lo hi
  end.

(** The first-fit loop; [None] when the fuel is spent, [Some None] for the
    early return with [MAP_FAILED]. *)
Fixpoint search (fuel : nat) (ms : list (option process.VmMapping)) (page_count candidate : Z) : option (option Z) :=
  match fuel with
  | O => None
  | S fuel =>
      let candidate_end := wrap32 (candidate + page_count * PAGE_SIZE) in
      if MMAP_LIMIT <? candidate_end then Some None else
      match overlap ms candidate candidate_end with
      | Some past => search fuel ms page_count past
      | None => Some (Some candidate)
      end
  end.

Definition exec_only (prot : Z) : bool :=
  (Z.land prot (Z.lor mmu.PROT_READ mmu.PROT_WRITE) =? 0) && negb (Z.land prot mmu.PROT_EXEC =? 0).

(** [length.div_ceil(PAGE_SIZE)]. *)
Definition page_count (length : Z) : Z := (length + PAGE_SIZE - 1) / PAGE_SIZE.

Definition sys_mmap (arg0 arg1 arg2 arg3 : Z) (k : kernel) (x : machine) : Z * kernel * machine :=
  let length := arg1 in
  let prot_flags := arg2 in
  let flags := Z.land arg3 0xFFFF in
  let fd_raw := Z.shiftr arg3 16 in
  if length =? 0 then (MAP_FAILED, k, x) else
  if Z.land flags MAP_ANONYMOUS =? 0 then (MAP_FAILED, k, x) else
  if negb (fd_raw =? 0xFFFF) then (MAP_FAILED, k, x) else
  if exec_only prot_flags then (MAP_FAILED, k, x) else
  let n := page_count length in
  let pt := process.current_page_table k in
  if pt =? 0 then (MAP_FAILED, k, x) else
  match search (S process.MAX_MAPPINGS) (process.current_mappings k) n MMAP_BASE with
  | None | Some None => (MAP_FAILED, k, x)
  | Some (Some candidate) =>
      let l2_attrs := mmu.prot_to_l2_flags prot_flags in
      match map_pages st pt candidate l2_attrs 0 (Z.to_nat n) x with
      | NoFrame i x => (MAP_FAILED, k, drop_pages st pt candidate i x)
      | NoTable i phys x => (MAP_FAILED, k, drop_pages st pt candidate i (free_page phys x))
      | Filled x =>
          match process.add_mapping (process.mk_mapping candidate n prot_flags) k with
          | (None, k) => (MAP_FAILED, k, drop_pages st pt candidate (Z.to_nat n) x)
          | (Some _, k) => (candidate, k, x)
          end
      end
  end.

(** ** munmap and mprotect *)

Definition sys_munmap (arg0 arg1 : Z) (k : kernel) (x : machine) : Z * kernel * machine :=
  let pt := process.current_page_table k in
  if pt =? 0 then (EINVAL, k, x) else
  match process.remove_mapping arg0 k with
  | (None, k) => (EINVAL, k, x)
  | (Some m, k) => (0, k, drop_pages st pt (process.start m) (Z.to_nat (process.pages m)) x)
  end.

(** The loop over the pages of a mapping; it stops at the first failure. *)
Fixpoint protect_pages (pt base attrs : Z) (ks : list nat) (x : machine) : bool * machine :=
  match ks with
  | [] => (true, x)
  | i :: ks =>
      match mmu.update_page_prot pt (page_va base i) attrs (mm x) with
      | (false, s) => (false, set_mm x s)
      | (true, s) => protect_pages pt base attrs ks (set_mm x s)
      end
  end.

Definition sys_mprotect (arg0 arg1 arg2 : Z) (k : kernel) (x : machine) : Z * kernel * machine :=
  let pt := process.current_page_table k in
  if pt =? 0 then (EINVAL, k, x) else
  if exec_only arg2 then (EINVAL, k, x) else
  match process.find_mapping arg0 k with
  | None => (EINVAL, k, x)
  | Some m =>
      match protect_pages pt (process.start m) (mmu.prot_to_l2_flags arg2) (seq 0 (Z.to_nat (process.pages m))) x with
      | (false, x) => (EFAULT, k, x)
      | (true, x) => (0, (process.update_mapping_prot arg0 arg2 k).2, x)
      end
  end.
End calls.

(** ** The first-fit search *)

Section search.
#[local] Ltac Zify.zify_post_hook ::= Z.to_euclidean_division_equations.
Context (ms : list (option process.VmMapping)) (n : Z).

(** The mappings that end above [c]. *)
Definition ahead (c : Z) : nat :=
  count_if (fun o => match o with Some m => c <? mapping_end m | None => false end) ms.

Lemma overlap_Some l lo hi past :
  overlap l lo hi = Some past ->
  exists m, Some m ∈ l /\ past = mapping_end m /\ lo < mapping_end m /\ process.start m < hi.
Proof using Type.
  induction l as [|[m|] l IH]; cbn [overlap]; [done| |].
  - destruct (Z.ltb_spec lo (mapping_end m)), (Z.ltb_spec (process.start m) hi); cbn [andb];
      try (intros H'; destruct (IH H') as (m' & ? & ?); exists m'; split; [by right|done]).
    intros [= <-]. exists m. split; [left|done].
  - intros H'. destruct (IH H') as (m' & ? & ?). exists m'. split; [by right|done].
Qed.

Lemma overlap_None l lo hi m :
  overlap l lo hi = None -> Some m ∈ l -> mapping_end m <= lo \/ hi <= process.start m.
Proof using Type.
  induction l as [|[m'|] l IH]; cbn [overlap]; intros H Hm; [by apply not_elem_of_nil in Hm| |].
  - destruct (Z.ltb_spec lo (mapping_end m')), (Z.ltb_spec (process.start m') hi); cbn [andb] in H; try done;
      (apply elem_of_cons in Hm as [[= ->]|Hm]; [lia|by apply IH]).
  - apply elem_of_cons in Hm as [?|Hm]; [done|by apply IH].
Qed.

Lemma ahead_lt c m : Some m ∈ ms -> c < mapping_end m -> (ahead (mapping_end m) < ahead c)%nat.
Proof using Type.
  intros Hm Hc. unfold ahead. apply list_elem_of_lookup in Hm as [j Hj]. clear -Hj Hc. revert j Hj.
  assert (forall l, (count_if (fun o => match o with Some m' => (mapping_end m <? mapping_end m')%Z | None => false end) l <=
    count_if (fun o => match o with Some m' => (c <? mapping_end m')%Z | None => false end) l)%nat) as Hle.
  { induction l as [|[m'|] l IH]; rewrite ?count_if_cons; [done| |done].
    destruct (Z.ltb_spec (mapping_end m) (mapping_end m')), (Z.ltb_spec c (mapping_end m')); lia. }
  induction ms as [|o l IH]; intros j Hj; [done|]. rewrite !count_if_cons. specialize (Hle l).
  destruct j as [|j].
  - injection Hj as ->. destruct (Z.ltb_spec (mapping_end m) (mapping_end m)), (Z.ltb_spec c (mapping_end m)); lia.
  - specialize (IH j Hj). destruct o as [m'|]; [|lia].
    destruct (Z.ltb_spec (mapping_end m) (mapping_end m')), (Z.ltb_spec c (mapping_end m')); lia.
Qed.

(** Each round passes a mapping for good, so there are at most as many rounds
    as mappings, and one more. *)
Lemma search_total fuel c : (ahead c < fuel)%nat -> search fuel ms n c <> None.
Proof using Type.
  revert c. induction fuel as [|fuel IH]; intros c Hf; [lia|]. cbn [search].
  destruct (_ <? _); [done|]. destruct (overlap _ _ _) as [past|] eqn:E; [|done].
  apply overlap_Some in E as (m & Hm & -> & Hlt & _). apply IH.
  pose proof (ahead_lt c m Hm Hlt). lia.
Qed.

(** A hole: [n] pages at [c] inside the window that touch no mapping. *)
Definition fits (c : Z) : Prop :=
  c + n * PAGE_SIZE <= MMAP_LIMIT /\
  forall m, Some m ∈ ms -> mapping_end m <= c \/ c + n * PAGE_SIZE <= process.start m.

Context (Hwin : forall m, Some m ∈ ms -> mapping_end m <= MMAP_LIMIT).
Context (Hn : 0 < n) (Hsize : MMAP_BASE + n * PAGE_SIZE < 2 ^ 32).

Lemma search_spec fuel c :
  MMAP_BASE <= c <= MMAP_LIMIT -> c + n * PAGE_SIZE < 2 ^ 32 ->
  (c = MMAP_BASE \/ n * PAGE_SIZE <= MMAP_LIMIT - MMAP_BASE) ->
  match search fuel ms n c with
  | None => True
  | Some None => forall c', c <= c' -> ~ fits c'
  | Some (Some r) => c <= r /\ (r = c \/ exists m, Some m ∈ ms /\ r = mapping_end m) /\ fits r /\ forall c', c <= c' < r -> ~ fits c'
  end.
Proof using Hwin Hn Hsize.
  unfold MMAP_BASE, MMAP_LIMIT, PAGE_SIZE, page.PAGE_SIZE in *.
  revert c. induction fuel as [|fuel IH]; intros c Hc Hw Hor; cbn [search]; [done|].
  unfold PAGE_SIZE, page.PAGE_SIZE, MMAP_LIMIT. rewrite wrap32_small by (unfold is_u32; lia).
  destruct (Z.ltb_spec 0x30000000 (c + n * 4096)) as [Hout|Hin].
  { intros c' Hc' [Hf _]. unfold MMAP_LIMIT, PAGE_SIZE, page.PAGE_SIZE in Hf. lia. }
  destruct (overlap _ _ _) as [past|] eqn:E.
  - apply overlap_Some in E as (m & Hm & -> & Hlt & Hst). pose proof (Hwin m Hm).
    assert (forall c', c <= c' < mapping_end m -> ~ fits c') as Hskip.
    { intros c' Hc' [_ Hf]. specialize (Hf m Hm). unfold PAGE_SIZE, page.PAGE_SIZE in Hf. lia. }
    specialize (IH (mapping_end m) ltac:(lia) ltac:(lia) ltac:(lia)).
    destruct (search _ _ _ _) as [[r|]|]; [|intros c' Hc'; destruct (decide (mapping_end m <= c')); [by apply IH|apply Hskip; lia]|done].
    destruct IH as (Hr & Hor' & Hfit & Hmin). split_and!; [lia| |done|].
    + right. destruct Hor' as [->|?]; [by exists m|done].
    + intros c' Hc'. destruct (decide (mapping_end m <= c')); [apply Hmin; lia|apply Hskip; lia].
  - split_and!; [lia|by left| |intros; lia]. split; [done|]. intros m Hm. by apply (overlap_None ms c (c + n * 4096) m E Hm).
Qed.
End search.
(** ** The memory of a process *)

Section theory.
#[local] Ltac Zify.zify_post_hook ::= Z.to_euclidean_division_equations.
Context (st : mmu.statics) (Hst : mmu.statics_ok st).
Context {D : Type}.
Implicit Types (x : machine) (k : process.kernel D) (ms : list (option process.VmMapping)).

#[local] Abbreviation minv := (vm.minv st).
#[local] Abbreviation mapped := (vm.mapped st).
#[local] Abbreviation restored := (vm.restored st).
#[local] Abbreviation same_maps := (vm.same_maps st).
#[local] Abbreviation in_tables := (vm.in_tables st).

Definition npages (m : process.VmMapping) : nat := Z.to_nat (process.pages m).

(** A mapping lies in the window; no two mappings touch. *)
Definition placed (m : process.VmMapping) : Prop :=
  MMAP_BASE <= process.start m /\ process.start m mod 4096 = 0 /\ 0 < process.pages m /\
  process.start m + process.pages m * 4096 <= MMAP_LIMIT.
Definition disjoint (m m' : process.VmMapping) : Prop :=
  process.start m + process.pages m * 4096 <= process.start m' \/ process.start m' + process.pages m' * 4096 <= process.start m.

(** The mapping records of space [i] and its tables say the same: the pages a
    process has in the window are those of its records, each mapped to a frame
    of the allocator with the recorded protection. *)
Record window (i : Z) (ms : list (option process.VmMapping)) (x : machine) : Prop := {
  w_len : length ms = process.MAX_MAPPINGS;
  w_placed : forall m, Some m ∈ ms -> placed m;
  w_disjoint : forall a b m m', ms !! a = Some (Some m) -> ms !! b = Some (Some m') -> a <> b -> disjoint m m';
  w_backed : forall m va, Some m ∈ ms -> is_u32 va -> in_run (process.start m) (npages m) va ->
    exists p, managed x p /\ mapped x i va (page_desc (frame x p) (process.prot m));
  w_cover : forall va e, mapped x i va e -> MMAP_BASE <= va < MMAP_LIMIT ->
    exists m, Some m ∈ ms /\ in_run (process.start m) (npages m) va;
}.

(** The process making the call, with its own address space. *)
Definition caller k x (i : Z) (p : process.Process) : Prop :=
  process.proc k (process.CURRENT k) = Some p /\ process.page_table_phys p = mmu.user_table_addr st i /\
  mmu.user_table_addr st i <> 0 /\ space_live x i.

Lemma caller_pt k x i p : caller k x i p -> process.current_page_table k = mmu.user_table_addr st i.
Proof using Type. intros (Hp & Hpt & _). unfold process.current_page_table. by rewrite Hp. Qed.

Lemma caller_pt_eqb k x i p : caller k x i p -> (process.current_page_table k =? 0) = false.
Proof using Type. intros Hc. rewrite (caller_pt k x i p Hc). apply Z.eqb_neq, Hc. Qed.

Lemma caller_mappings k x i p : caller k x i p -> process.current_mappings k = process.mappings p.
Proof using Type. intros (Hp & _). unfold process.current_mappings. by rewrite Hp. Qed.

Lemma placed_end m : placed m -> mapping_end m = process.start m + process.pages m * 4096.
Proof using Type.
  intros (H1 & H2 & H3 & H4). unfold mapping_end, PAGE_SIZE, page.PAGE_SIZE, MMAP_BASE, MMAP_LIMIT in *. apply wrap32_small.
  unfold is_u32. lia.
Qed.

Lemma placed_region m : placed m -> region (process.start m) (npages m).
Proof using Type.
  intros (H1 & H2 & H3 & H4). unfold region, npages, MMAP_BASE, MMAP_LIMIT in *. split_and!; [lia|done|lia].
Qed.

Lemma in_run_bounds base n va :
  0 <= base -> base mod 4096 = 0 -> in_run base n va <-> base <= va < base + Z.of_nat n * 4096.
Proof using Type. intros H0 Ha. unfold in_run, mmu.vpage. change (2 ^ 12) with 4096. lia. Qed.

Lemma placed_in_run m va :
  placed m -> in_run (process.start m) (npages m) va <-> process.start m <= va < process.start m + process.pages m * 4096.
Proof using Type.
  intros (H1 & H2 & H3 & H4). unfold MMAP_BASE in *. rewrite in_run_bounds by (lia || done). unfold npages. lia.
Qed.

(** Where [mmap] puts a mapping, nothing is mapped. *)
Lemma hole_unmapped i ms x c n :
  window i ms x -> MMAP_BASE <= c -> c mod 4096 = 0 -> 0 < n -> fits ms n c ->
  region c (Z.to_nat n) /\ (forall va e, in_run c (Z.to_nat n) va -> ~ mapped x i va e) /\
  (forall m, Some m ∈ ms -> disjoint (process.mk_mapping c n 0) m).
Proof using Type.
  intros W Hc Ha Hn [Hfit Hdis]. unfold PAGE_SIZE, page.PAGE_SIZE, MMAP_BASE, MMAP_LIMIT in *. split_and!.
  - unfold region. split_and!; [lia|done|lia].
  - intros va e Hr Hma. rewrite in_run_bounds in Hr by (lia || done).
    destruct (w_cover i ms x W va e Hma) as (m & Hm & Hin); [unfold MMAP_BASE, MMAP_LIMIT; lia|].
    pose proof (w_placed i ms x W m Hm) as Hp. rewrite placed_in_run in Hin by done.
    specialize (Hdis m Hm). rewrite placed_end in Hdis by done. lia.
  - intros m Hm. specialize (Hdis m Hm). rewrite placed_end in Hdis by (by apply (w_placed i ms x W)).
    unfold disjoint. cbn [process.start process.pages]. lia.
Qed.

Lemma search_hole i ms x n :
  window i ms x -> 0 < n -> MMAP_BASE + n * PAGE_SIZE < 2 ^ 32 ->
  match search (S process.MAX_MAPPINGS) ms n MMAP_BASE with
  | None => False
  | Some None => forall c, MMAP_BASE <= c -> ~ fits ms n c
  | Some (Some c) => MMAP_BASE <= c /\ c mod 4096 = 0 /\ fits ms n c /\ forall c', MMAP_BASE <= c' < c -> ~ fits ms n c'
  end.
Proof using Type.
  intros W Hn Hs.
  pose proof (search_total ms n (S process.MAX_MAPPINGS) MMAP_BASE) as Ht.
  pose proof (search_spec ms n) as Hsp.
  assert (forall m, Some m ∈ ms -> mapping_end m <= MMAP_LIMIT) as Hwin.
  { intros m Hm. pose proof (w_placed i ms x W m Hm) as Hp. rewrite placed_end by done. apply Hp. }
  specialize (Hsp Hwin Hn Hs (S process.MAX_MAPPINGS) MMAP_BASE ltac:(unfold MMAP_BASE, MMAP_LIMIT; lia) Hs ltac:(by left)).
  destruct (search _ _ _ _) as [[c|]|]; [|done|apply Ht; [|done]].
  - destruct Hsp as (H1 & Hor & H2 & H3). split_and!; [done| |done|done].
    destruct Hor as [->|(m & Hm & ->)]; [done|]. pose proof (w_placed i ms x W m Hm) as Hp.
    rewrite placed_end by done. destruct Hp as (_ & Hal & _). lia.
  - unfold ahead. pose proof (count_if_le (fun o => match o with Some m => MMAP_BASE <? mapping_end m | None => false end) ms) as Hle.
    rewrite (w_len i ms x W) in Hle. lia.
Qed.
(** ** mmap *)

Lemma elem_of_insert (l : list (option process.VmMapping)) s o o' :
  o ∈ <[s := o']> l -> o = o' \/ exists s', s' <> s /\ l !! s' = Some o.
Proof using Type.
  intros [s' Hs]%list_elem_of_lookup. apply list_lookup_insert_Some in Hs as [(-> & -> & _)|[Hne Hs]]; [by left|right].
  exists s'. done.
Qed.

Lemma frame_page_desc i prot x0 x n base :
  grown st i base prot x0 x n -> forall va, is_u32 va -> in_run base n va ->
  minv x0 -> exists p, managed x p /\ mapped x i va (page_desc (frame x p) prot) /\
    forall a, frame x p <= a < frame x p + 4096 -> load8 (ram x) a = 0.
Proof using Type.
  intros G va Hva Hr Hx0. destruct (g_new _ _ _ _ _ _ _ G va Hva Hr) as (p & Hp & _ & Hma).
  pose proof (g_geo _ _ _ _ _ _ _ G) as Hg. pose proof (mi_free _ x0 Hx0 p Hp) as Hm. exists p.
  rewrite (geo_frame x0 x) by done. split_and!; [by apply (geo_managed x0)|done|].
  intros a Ha. destruct (g_quiet _ _ _ _ _ _ _ G) as [Hq _].
  rewrite Hq by (by apply (mi_apart st x0 p)). by apply (mi_clean _ x0 Hx0 p).
Qed.

Lemma window_grown i ms x x' c n prot slot :
  minv x -> window i ms x -> ms !! slot = Some None -> MMAP_BASE <= c -> c mod 4096 = 0 -> 0 < n -> fits ms n c ->
  grown st i c prot x x' (Z.to_nat n) -> window i (<[slot := Some (process.mk_mapping c n prot)]> ms) x'.
Proof using Type.
  intros Hx W Hslot Hc Ha Hn Hfit G.
  destruct (hole_unmapped i ms x c n W Hc Ha Hn Hfit) as (Hreg & _ & Hdis).
  assert (placed (process.mk_mapping c n prot)) as Hpl.
  { destruct Hfit as [Hf _]. unfold placed. cbn. unfold PAGE_SIZE, page.PAGE_SIZE in Hf. split_and!; done. }
  assert (forall m, Some m ∈ ms -> disjoint (process.mk_mapping c n prot) m) as Hdis' by exact Hdis.
  assert (forall a m, ms !! a = Some (Some m) -> Some m ∈ ms) as Hel by (intros; by eapply list_elem_of_lookup_2).
  pose proof (g_geo _ _ _ _ _ _ _ G) as Hg. constructor.
  - rewrite length_insert. apply W.
  - intros m [[= ->]|(a & _ & Hm)]%elem_of_insert; [done|by eapply (w_placed _ _ _ W), Hel].
  - intros a b m m' H1 H2 Hne.
    apply list_lookup_insert_Some in H1 as [(-> & [= <-] & _)|[N1 H1]];
      apply list_lookup_insert_Some in H2 as [(-> & [= <-] & _)|[N2 H2]]; [done| | |].
    + by eapply Hdis', Hel.
    + pose proof (Hdis' m (Hel _ _ H1)) as H. unfold disjoint in *. tauto.
    + by apply (w_disjoint _ _ _ W a b).
  - intros m va [[= ->]|(a & _ & Hm)]%elem_of_insert Hva Hr.
    + destruct (frame_page_desc i prot x x' (Z.to_nat n) c G va Hva Hr Hx) as (p & ? & ? & _). by exists p.
    + pose proof (w_placed _ _ _ W m (Hel _ _ Hm)) as Hp.
      destruct (w_backed _ _ _ W m va (Hel _ _ Hm) Hva Hr) as (p & Hmp & Hma). exists p.
      rewrite (geo_frame x x') by done. split; [by apply (geo_managed x)|]. apply (g_maps _ _ _ _ _ _ _ G); [|done].
      intros [_ Hr']. pose proof (Hdis' m (Hel _ _ Hm)) as Hd. rewrite placed_in_run in Hr by done.
      destruct Hreg as (H0 & _). rewrite in_run_bounds in Hr' by done. unfold disjoint in Hd. cbn in Hd. lia.
  - intros va e Hma Hw. destruct (decide (in_run c (Z.to_nat n) va)) as [Hr|Hr].
    + exists (process.mk_mapping c n prot). split; [|done].
      apply list_elem_of_lookup. exists slot. apply list_lookup_insert_eq. by eapply lookup_lt_Some.
    + apply (g_maps _ _ _ _ _ _ _ G) in Hma; [|tauto]. destruct (w_cover _ _ _ W va e Hma Hw) as (m & Hm & Hin).
      exists m. split; [|done]. apply list_elem_of_lookup in Hm as [a Hm]. apply list_elem_of_lookup. exists a.
      rewrite list_lookup_insert_ne; [done|congruence].
Qed.

Lemma window_restored i ms x x' : window i ms x -> restored x x' -> window i ms x'.
Proof using Type.
  intros W [Hx' (_ & _ & Hg & _) Hm]. constructor; try apply W.
  - intros m va H1 H2 H3. destruct (w_backed _ _ _ W m va H1 H2 H3) as (p & Hp & Hma). exists p.
    rewrite (geo_frame x x') by done. split; [by apply (geo_managed x)|by apply Hm].
  - intros va e Hma. apply Hm in Hma. by apply (w_cover _ _ _ W va e).
Qed.

(** The process table once the current process records a mapping in [slot]. *)
Definition recorded k (p : process.Process) (slot : nat) (o : option process.VmMapping) : process.kernel D :=
  process.put k (process.CURRENT k) (Some (process.with_mappings p (<[slot := o]> (process.mappings p)))).

Definition valid_request (length prot arg3 : Z) : bool :=
  negb (length =? 0) && negb (Z.land (Z.land arg3 0xFFFF) MAP_ANONYMOUS =? 0) && (Z.shiftr arg3 16 =? 0xFFFF) &&
  negb (exec_only prot).

Lemma sys_mmap_guard arg0 length prot arg3 k x i p :
  caller k x i p ->
  sys_mmap st arg0 length prot arg3 k x =
    if valid_request length prot arg3 then
      match search (S process.MAX_MAPPINGS) (process.mappings p) (page_count length) MMAP_BASE with
      | None | Some None => (MAP_FAILED, k, x)
      | Some (Some c) =>
          match map_pages st (mmu.user_table_addr st i) c (mmu.prot_to_l2_flags prot) 0 (Z.to_nat (page_count length)) x with
          | NoFrame j x => (MAP_FAILED, k, drop_pages st (mmu.user_table_addr st i) c j x)
          | NoTable j phys x => (MAP_FAILED, k, drop_pages st (mmu.user_table_addr st i) c j (free_page phys x))
          | Filled x =>
              match fd.first_free (process.mappings p) with
              | None => (MAP_FAILED, k, drop_pages st (mmu.user_table_addr st i) c (Z.to_nat (page_count length)) x)
              | Some slot => (c, recorded k p slot (Some (process.mk_mapping c (page_count length) prot)), x)
              end
          end
      end
    else (MAP_FAILED, k, x).
Proof using Type.
  intros Hc. unfold sys_mmap, valid_request. rewrite (caller_pt_eqb k x i p Hc), (caller_pt k x i p Hc), (caller_mappings k x i p Hc).
  destruct (length =? 0); [done|]. destruct (Z.land (Z.land arg3 0xFFFF) MAP_ANONYMOUS =? 0); [done|].
  destruct (Z.shiftr arg3 16 =? 0xFFFF); [|done]. destruct (exec_only prot); [done|]. cbn [negb andb].
  destruct (search _ _ _ _) as [[c|]|]; [|done|done]. destruct (map_pages _ _ _ _ _ _ _); [|done|done].
  unfold process.add_mapping. destruct Hc as [-> _]. by destruct (fd.first_free _).
Qed.

(** What a call to [mmap] that returns [r] did. *)
Definition mmap_done (i length prot : Z) (p : process.Process) k x (r : Z) k' x' : Prop :=
  let n := page_count length in
  exists slot, process.mappings p !! slot = Some None /\
    k' = recorded k p slot (Some (process.mk_mapping r n prot)) /\
    MMAP_BASE <= r /\ r mod 4096 = 0 /\ fits (process.mappings p) n r /\
    (forall c, MMAP_BASE <= c < r -> ~ fits (process.mappings p) n c) /\
    grown st i r prot x x' (Z.to_nat n) /\
    window i (<[slot := Some (process.mk_mapping r n prot)]> (process.mappings p)) x'.

Lemma sys_mmap_ok arg0 length prot arg3 k x i p :
  minv x -> caller k x i p -> window i (process.mappings p) x -> 0 <= length <= 0xDFFFF000 ->
  let '(r, k', x') := sys_mmap st arg0 length prot arg3 k x in
  (r = MAP_FAILED /\ k' = k /\ restored x x') \/
  (valid_request length prot arg3 = true /\ mmap_done i length prot p k x r k' x').
Proof using Hst.
  intros Hx Hc W Hlen. rewrite (sys_mmap_guard arg0 length prot arg3 k x i p Hc).
  assert (restored x x) as Hself by (by apply restored_refl).
  destruct (valid_request length prot arg3) eqn:Hv; [|by left].
  assert (length <> 0) as Hl0.
  { unfold valid_request in Hv. apply andb_prop in Hv as [[[Hv _]%andb_prop _]%andb_prop _].
    destruct (Z.eqb_spec length 0); done. }
  set (n := page_count length). assert (0 < n /\ MMAP_BASE + n * PAGE_SIZE < 2 ^ 32) as [Hn Hsz].
  { unfold n, page_count, PAGE_SIZE, page.PAGE_SIZE, MMAP_BASE. lia. }
  pose proof (search_hole i (process.mappings p) x n W Hn Hsz) as Hs.
  destruct (search _ _ _ _) as [[c|]|]; [|by left|done]. destruct Hs as (Hb & Ha & Hfit & Hmin).
  destruct (hole_unmapped i _ x c n W Hb Ha Hn Hfit) as (Hreg & Hun & _).
  assert (space_live x i) as Hi by apply Hc.
  pose proof (map_pages_ok st Hst i c prot x Hx Hi (Z.to_nat n) 0 x Hreg (grown_0 st i c prot x Hx)) as Hmp.
  assert (forall j y, (j <= Z.to_nat n)%nat -> grown st i c prot x y j ->
    restored x (drop_pages st (mmu.user_table_addr st i) c j y)) as Hback.
  { intros j y Hj G. apply (rollback_ok st Hst i c prot x Hx y j); [by eapply region_le| |done].
    intros va e Hr. apply Hun. unfold in_run in *. lia. }
  destruct (map_pages _ _ _ _ _ _ _) as [x'|j x'|j phys x'].
  - destruct (fd.first_free _) as [slot|] eqn:Hf.
    + right. split; [done|]. exists slot. apply fd.first_free_Some in Hf. fold n.
      split_and!; try done. by apply (window_grown i _ x).
    + left. split_and!; [done|done|]. by apply Hback.
  - destruct Hmp as (Hj & G & _). left. split_and!; [done|done|]. apply Hback; [lia|done].
  - destruct Hmp as (Hj & G). left. split_and!; [done|done|]. apply Hback; [lia|done].
Qed.
(** ** munmap *)

Lemma find_slot_spec a ms :
  match list_find (fun o => process.starts_at a o = true) ms with
  | Some (s, o) => exists m, o = Some m /\ process.start m = a /\ ms !! s = Some (Some m)
  | None => forall m, Some m ∈ ms -> process.start m <> a
  end.
Proof using Type.
  destruct (list_find _ ms) as [[s o]|] eqn:E.
  - apply list_find_Some in E as (Hs & Ha & _). destruct o as [m|]; [|done]. exists m.
    split_and!; [done|by apply Z.eqb_eq|done].
  - apply list_find_None in E. intros m Hm Ha. eapply Forall_forall in E; [|exact Hm]. apply E. by apply Z.eqb_eq.
Qed.

Lemma window_shrunk i ms x x' m slot :
  window i ms x -> ms !! slot = Some (Some m) -> shrunk st i (process.start m) x x' (npages m) ->
  window i (<[slot := None]> ms) x'.
Proof using Type.
  intros W Hslot S. assert (forall a m, ms !! a = Some (Some m) -> Some m ∈ ms) as Hel by (intros; by eapply list_elem_of_lookup_2).
  destruct (s_settled _ _ _ _ _ _ S) as (_ & Hg & _). pose proof (w_placed _ _ _ W m (Hel _ _ Hslot)) as Hpm. constructor.
  - rewrite length_insert. apply W.
  - intros m' [?|(a & _ & Hm)]%elem_of_insert; [done|by eapply (w_placed _ _ _ W), Hel].
  - intros a b m1 m2 H1 H2 Hne. apply list_lookup_insert_Some in H1 as [(_ & ? & _)|[_ H1]]; [done|].
    apply list_lookup_insert_Some in H2 as [(_ & ? & _)|[_ H2]]; [done|]. by apply (w_disjoint _ _ _ W a b).
  - intros m' va [?|(a & Ha & Hm)]%elem_of_insert Hva Hr; [done|].
    destruct (w_backed _ _ _ W m' va (Hel _ _ Hm) Hva Hr) as (p & Hp & Hma). exists p.
    rewrite (geo_frame x x') by done. split; [by apply (geo_managed x)|]. apply (s_maps _ _ _ _ _ _ S). split; [|done].
    intros [_ Hr']. pose proof (w_disjoint _ _ _ W a slot m' m Hm Hslot Ha) as Hd. unfold disjoint in Hd.
    rewrite placed_in_run in Hr, Hr' by (done || by eapply (w_placed _ _ _ W), Hel). lia.
  - intros va e [Hn Hma]%(s_maps _ _ _ _ _ _ S) Hw. destruct (w_cover _ _ _ W va e Hma Hw) as (m' & Hm' & Hin).
    exists m'. split; [|done]. apply list_elem_of_lookup in Hm' as [a Hm']. apply list_elem_of_lookup. exists a.
    rewrite list_lookup_insert_ne; [done|]. intros ->. assert (m' = m) as -> by congruence. tauto.
Qed.

Lemma mapping_backed i ms x m : window i ms x -> minv x -> Some m ∈ ms -> backed st i (process.start m) x (npages m).
Proof using Type.
  intros W Hx Hm va Hva Hr. destruct (w_backed _ _ _ W m va Hm Hva Hr) as (p & Hp & Hma).
  exists (page_desc (frame x p) (process.prot m)), p. split_and!; [done|done|].
  rewrite frame_of_desc. apply (frame_of_frame st x p Hx), (mi_managed _ x Hx), Hp.
Qed.

Lemma sys_munmap_eq a len k x i p :
  caller k x i p ->
  sys_munmap st a len k x =
    match list_find (fun o => process.starts_at a o = true) (process.mappings p) with
    | Some (slot, Some m) => (0, recorded k p slot None, drop_pages st (mmu.user_table_addr st i) (process.start m) (npages m) x)
    | Some (slot, None) => (EINVAL, recorded k p slot None, x)
    | None => (EINVAL, k, x)
    end.
Proof using Type.
  intros Hc. unfold sys_munmap. rewrite (caller_pt_eqb k x i p Hc), (caller_pt k x i p Hc).
  unfold process.remove_mapping. destruct Hc as [-> _]. by destruct (list_find _ _) as [[s [m|]]|].
Qed.

Lemma sys_munmap_ok a len k x i p :
  minv x -> caller k x i p -> window i (process.mappings p) x ->
  let '(r, k', x') := sys_munmap st a len k x in
  (r = EINVAL /\ k' = k /\ x' = x /\ forall m, Some m ∈ process.mappings p -> process.start m <> a) \/
  (r = 0 /\ exists slot m, process.mappings p !! slot = Some (Some m) /\ process.start m = a /\
     k' = recorded k p slot None /\ shrunk st i a x x' (npages m) /\ window i (<[slot := None]> (process.mappings p)) x').
Proof using Hst.
  intros Hx Hc W. rewrite (sys_munmap_eq a len k x i p Hc). pose proof (find_slot_spec a (process.mappings p)) as Hf.
  destruct (list_find _ _) as [[slot o]|]; [|by left]. destruct Hf as (m & -> & <- & Hm). right. split; [done|].
  assert (Some m ∈ process.mappings p) as Hel by (by eapply list_elem_of_lookup_2).
  assert (shrunk st i (process.start m) x (drop_pages st (mmu.user_table_addr st i) (process.start m) (npages m) x) (npages m)) as S.
  { apply drop_pages_ok; [done|done|by apply placed_region, (w_placed _ _ _ W)|by eapply mapping_backed]. }
  exists slot, m. split_and!; try done. by apply (window_shrunk i _ x _ m).
Qed.

(** The process table after a mapping is recorded and removed again. *)
Lemma recorded_back k p slot o o' :
  process.proc k (process.CURRENT k) = Some p -> process.mappings p !! slot = Some o' ->
  let p' := process.with_mappings p (<[slot := o]> (process.mappings p)) in
  recorded (recorded k p slot o) p' slot o' = k.
Proof using Type.
  intros Hp Hs. unfold recorded, process.put, process.set_procs. cbn [process.CURRENT process.PROCS].
  cbn [process.mappings process.with_mappings]. rewrite !list_insert_insert_eq, (list_insert_id _ slot o') by exact Hs.
  assert (process.PROCS k !! process.CURRENT k = Some (Some p)) as Hk.
  { unfold process.proc in Hp. destruct (process.PROCS k !! process.CURRENT k) as [[]|]; cbn in Hp; congruence. }
  assert (process.with_mappings (process.with_mappings p (<[slot := o]> (process.mappings p))) (process.mappings p) = p) as -> by (by destruct p).
  rewrite list_insert_id by done. by destruct k.
Qed.

Lemma caller_recorded k x x' i p slot o :
  caller k x i p -> space_alloc x' = space_alloc x ->
  caller (recorded k p slot o) x' i (process.with_mappings p (<[slot := o]> (process.mappings p))).
Proof using Type.
  intros (Hp & Hpt & Hne & Hl) Ha. split_and!; [|done|done|by apply (live_alloc x)].
  unfold recorded. change (process.CURRENT (process.put _ _ _)) with (process.CURRENT k).
  rewrite process.proc_put by (by eapply process.proc_lt). by rewrite decide_True.
Qed.

(** Unmapping what [mmap] returned undoes it. *)
Lemma mmap_munmap arg0 length prot arg3 len k x i p r k1 x1 :
  minv x -> caller k x i p -> window i (process.mappings p) x -> 0 <= length <= 0xDFFFF000 ->
  sys_mmap st arg0 length prot arg3 k x = (r, k1, x1) -> r <> MAP_FAILED ->
  exists x2, sys_munmap st r len k1 x1 = (0, k, x2) /\ restored x x2.
Proof using Hst.
  intros Hx Hc W Hlen Hcall Hr. pose proof (sys_mmap_ok arg0 length prot arg3 k x i p Hx Hc W Hlen) as Hm.
  rewrite Hcall in Hm. destruct Hm as [[? _]|[Hv (slot & Hslot & -> & Hb & Ha & Hfit & _ & G & W')]]; [done|].
  set (n := page_count length) in *. set (m := process.mk_mapping r n prot) in *.
  assert (0 < n) as Hn.
  { unfold n, page_count, PAGE_SIZE, page.PAGE_SIZE. unfold valid_request in Hv.
    apply andb_prop in Hv as [[[Hv _]%andb_prop _]%andb_prop _]. destruct (Z.eqb_spec length 0); [done|lia]. }
  destruct (hole_unmapped i _ x r n W Hb Ha Hn Hfit) as (Hreg & Hun & _).
  assert (caller (recorded k p slot (Some m)) x1 i (process.with_mappings p (<[slot := Some m]> (process.mappings p)))) as Hc1
    by (apply (caller_recorded k x); [done|apply G]).
  rewrite (sys_munmap_eq r len _ x1 i _ Hc1). cbn [process.mappings process.with_mappings].
  pose proof (find_slot_spec r (<[slot := Some m]> (process.mappings p))) as Hf.
  assert (<[slot := Some m]> (process.mappings p) !! slot = Some (Some m)) as Hat
    by (apply list_lookup_insert_eq; by eapply lookup_lt_Some).
  destruct (list_find _ _) as [[s o]|]; [|by destruct (Hf m); [eapply list_elem_of_lookup_2|]].
  destruct Hf as (m' & -> & Hs & Hm'). assert (s = slot /\ m' = m) as [-> ->].
  { destruct (decide (s = slot)) as [->|Hne]; [split; congruence|]. exfalso.
    pose proof (w_disjoint _ _ _ W' s slot m' m Hm' Hat Hne) as Hd.
    pose proof (w_placed _ _ _ W' m' ltac:(by eapply list_elem_of_lookup_2)) as (_ & _ & Hp' & _).
    unfold disjoint in Hd. rewrite Hs in Hd. cbn in Hd. lia. }
  eexists. split; [f_equal; f_equal; by apply recorded_back, Hslot; apply Hc|].
  apply (rollback_ok st Hst i r prot x Hx x1); [done|done|exact G].
Qed.
(** ** mprotect *)

Lemma protect_ok x i va e p new_prot :
  minv x -> mapped x i va e -> ~ mmu.kernel_mb (mmu.vmb va) -> managed x p -> frame_of e = frame x p ->
  exists s', mmu.update_page_prot (mmu.user_table_addr st i) va (mmu.prot_to_l2_flags new_prot) (mm x) = (true, s') /\
    minv (set_mm x s') /\ only_tables st x (set_mm x s') /\ maps_one st x (set_mm x s') i va (page_desc e new_prot).
Proof using Hst.
  intros Hx Hma Hnk Hp He. destruct Hma as (Hi & Hva & Hw & Hu) eqn:E. destruct (prot_flags_shape new_prot) as (Hau & Haf & _ & _).
  pose proof (mmu.update_page_prot_ok st Hst (mm x) i va _ (mi_wf _ x Hx) (mi_bytes _ x Hx) Hi Hva Hnk Hau Haf) as H.
  destruct (quiet_update_prot st Hst (mm x) i va (mmu.prot_to_l2_flags new_prot) (mi_wf _ x Hx) Hi Hva Hnk) as (Hq & Ha & _).
  destruct (mmu.update_page_prot _ _ _ _) as [[] s']; cbn [snd] in *; [|destruct H as [_ H]; by destruct (H e)].
  destruct H as (old & Hold & Hwf & Hex & Hnew). assert (old = e) as -> by (change (mmu.mem (mm x)) with (ram x) in Hold; congruence).
  exists s'. assert (maps_one st x (set_mm x s') i va (page_desc e new_prot)) as Hone.
  { apply maps_one_walk; [done|done|done|apply page_desc_user|exact Hex|exact Hnew]. }
  split_and!; [done| |by apply only_tables_mm|done].
  destruct (mi_own _ x Hx i va e p Hma (mi_managed _ x Hx p Hp) He) as [_ Hnf].
  apply (minv_maps_one st x s' i va (page_desc e new_prot) p); try done.
  - by rewrite frame_of_desc.
  - intros i' va' e' Hma' Hf. apply (mi_inj _ x Hx i' va' e' i va e); [done|done|congruence].
Qed.

(** [x] is [x0] with the protection of the first [n] pages of a region changed. *)
Definition reprotected (i base new_prot : Z) x0 x (n : nat) : Prop :=
  minv x /\ only_tables st x0 x /\
  forall i' va e, mapped x i' va e <->
    if decide (i' = i /\ in_run base n va) then exists old, mapped x0 i va old /\ e = page_desc old new_prot
    else mapped x0 i' va e.

Lemma protect_pages_ok i base new_prot x0 n m x :
  region base (m + n) -> backed st i base x0 (m + n) -> reprotected i base new_prot x0 x m ->
  exists x', protect_pages (mmu.user_table_addr st i) base (mmu.prot_to_l2_flags new_prot) (seq m n) x = (true, x') /\
    reprotected i base new_prot x0 x' (m + n).
Proof using Hst.
  revert m x. induction n as [|n IH]; intros m x Hreg Hb (Hx & O & Hm); cbn [seq protect_pages].
  { exists x. by rewrite Nat.add_0_r. }
  destruct (page_va_region base (m + S n) m Hreg ltac:(lia)) as (_ & Hu & Hnk & Hvp).
  destruct (Hb (page_va base m) Hu) as (e & p & Hma & Hp & He); [unfold in_run; lia|].
  destruct O as (Q & F & G & A) eqn:EO.
  assert (mapped x i (page_va base m) e) as Hma1.
  { apply Hm. rewrite decide_False; [done|]. intros [_ Hr]. unfold in_run in Hr. lia. }
  destruct (protect_ok x i (page_va base m) e p new_prot Hx Hma1 Hnk) as (s' & -> & Hx' & O' & Hone);
    [by apply (geo_managed x0)|by rewrite (geo_frame x0 x)|].
  specialize (IH (S m) (set_mm x s')). rewrite Nat.add_succ_comm in IH. apply IH; [done|done|].
  split_and!; [done|by eapply only_tables_trans|]. intros i' va e'. rewrite (Hone i' va e').
  destruct (decide (i' = i /\ mmu.vpage va = _)) as [[-> Hv]|Hn].
  - rewrite decide_True by (split; [done|]; rewrite in_run_S; lia). split.
    + intros [Hva ->]. exists e. split; [|done]. apply (mapped_page st x0 i (page_va base m)); [done|done|by rewrite Hv].
    + intros (old & Hold & ->). split; [apply Hold|]. f_equal. by apply (mapped_fun st x0 i va (page_va base m)).
  - rewrite (Hm i' va e'). destruct (decide (i' = i /\ in_run base m va)) as [[-> Hr]|Hr].
    + rewrite decide_True by (split; [done|]; rewrite in_run_S; by left). done.
    + rewrite decide_False; [done|]. rewrite in_run_S. intros [-> [?|?]]; [tauto|]. apply Hn. split; [done|lia].
Qed.

Lemma window_reprotected i ms x x' m slot new_prot :
  window i ms x -> minv x -> ms !! slot = Some (Some m) -> reprotected i (process.start m) new_prot x x' (npages m) ->
  window i (<[slot := Some (process.mk_mapping (process.start m) (process.pages m) new_prot)]> ms) x'.
Proof using Type.
  intros W Hx Hslot (Hx' & (_ & _ & Hg & _) & Hm).
  assert (forall a m, ms !! a = Some (Some m) -> Some m ∈ ms) as Hel by (intros; by eapply list_elem_of_lookup_2).
  pose proof (w_placed _ _ _ W m (Hel _ _ Hslot)) as Hpm. set (m1 := process.mk_mapping _ _ new_prot).
  assert (placed m1) as Hp1 by exact Hpm. constructor.
  - rewrite length_insert. apply W.
  - intros m' [[= ->]|(a & _ & H)]%elem_of_insert; [done|by eapply (w_placed _ _ _ W), Hel].
  - intros a b ma mb H1 H2 Hne.
    apply list_lookup_insert_Some in H1 as [(-> & [= <-] & _)|[N1 H1]];
      apply list_lookup_insert_Some in H2 as [(-> & [= <-] & _)|[N2 H2]]; [done| | |].
    + exact (w_disjoint _ _ _ W a b m mb Hslot H2 Hne).
    + exact (w_disjoint _ _ _ W a b ma m H1 Hslot Hne).
    + by apply (w_disjoint _ _ _ W a b).
  - intros m' va [[= ->]|(a & Ha & Hma)]%elem_of_insert Hva Hr.
    + destruct (w_backed _ _ _ W m va (Hel _ _ Hslot) Hva Hr) as (p & Hp & Hmap). exists p.
      rewrite (geo_frame x x') by done. split; [by apply (geo_managed x)|]. apply Hm. rewrite decide_True by done.
      exists (page_desc (frame x p) (process.prot m)). split; [done|].
      assert (Z.land (page_desc (frame x p) (process.prot m)) 0xFFFFF000 = Z.land (frame x p) 0xFFFFF000) as He by apply frame_of_desc.
      unfold page_desc at 2, desc. by rewrite He.
    + destruct (w_backed _ _ _ W m' va (Hel _ _ Hma) Hva Hr) as (p & Hp & Hmap). exists p.
      rewrite (geo_frame x x') by done. split; [by apply (geo_managed x)|]. apply Hm. rewrite decide_False; [done|].
      intros [_ Hr']. pose proof (w_disjoint _ _ _ W a slot m' m Hma Hslot Ha) as Hd. unfold disjoint in Hd.
      rewrite placed_in_run in Hr, Hr' by (done || by eapply (w_placed _ _ _ W), Hel). lia.
  - intros va e Hma Hw. apply Hm in Hma. destruct (decide _) as [[_ Hr]|Hn].
    + exists m1. split; [|done]. apply list_elem_of_lookup. exists slot. apply list_lookup_insert_eq. by eapply lookup_lt_Some.
    + destruct (w_cover _ _ _ W va e Hma Hw) as (m' & Hm' & Hin). exists m'. split; [|done].
      apply list_elem_of_lookup in Hm' as [a Hm']. apply list_elem_of_lookup. exists a.
      rewrite list_lookup_insert_ne; [done|]. intros ->. assert (m' = m) as -> by congruence. tauto.
Qed.

Lemma sys_mprotect_ok a len new_prot k x i p :
  minv x -> caller k x i p -> window i (process.mappings p) x ->
  let '(r, k', x') := sys_mprotect a len new_prot k x in
  (r = EINVAL /\ k' = k /\ x' = x /\
    (exec_only new_prot = true \/ forall m, Some m ∈ process.mappings p -> process.start m <> a)) \/
  (r = 0 /\ exec_only new_prot = false /\ exists slot m, process.mappings p !! slot = Some (Some m) /\ process.start m = a /\
     k' = recorded k p slot (Some (process.mk_mapping a (process.pages m) new_prot)) /\
     reprotected i a new_prot x x' (npages m) /\
     window i (<[slot := Some (process.mk_mapping a (process.pages m) new_prot)]> (process.mappings p)) x').
Proof using Hst.
  intros Hx Hc W. unfold sys_mprotect. rewrite (caller_pt_eqb k x i p Hc), (caller_pt k x i p Hc).
  destruct (exec_only new_prot); [left; by split_and!; [|..|left]|].
  unfold process.find_mapping, process.update_mapping_prot. destruct Hc as [Hp _]. rewrite Hp.
  pose proof (find_slot_spec a (process.mappings p)) as Hf.
  destruct (list_find _ _) as [[slot o]|]; [|left; by split_and!; [|..|right]].
  destruct Hf as (m & -> & <- & Hm). cbn [fmap option_fmap option_map fd.flatten snd].
  assert (Some m ∈ process.mappings p) as Hel by (by eapply list_elem_of_lookup_2).
  destruct (protect_pages_ok i (process.start m) new_prot x (npages m) 0 x) as (x' & E & Hrep).
  - by apply placed_region, (w_placed _ _ _ W).
  - by eapply mapping_backed.
  - split_and!; [done|split_and!; [apply quiet_refl|done|by split_and!|done]|]. intros i' va e.
    rewrite decide_False; [done|]. intros [_ [? ?]]. lia.
  - unfold npages in E at 1. rewrite E. right. split_and!; [done|done|]. exists slot, m.
    split_and!; try done. by apply (window_reprotected i _ x).
Qed.
(** ** brk *)

Definition PROT_RW : Z := Z.lor mmu.PROT_READ mmu.PROT_WRITE.

(** The heap of a process: every page below the break is its own. *)
Record heap (i b : Z) x : Prop := {
  h_range : process.DEFAULT_HEAP_BREAK <= b <= MMAP_BASE;
  h_aligned : b mod 4096 = 0;
  h_backed : forall va, process.DEFAULT_HEAP_BREAK <= va < b ->
    exists p, managed x p /\ mapped x i va (page_desc (frame x p) PROT_RW);
}.

(** Only pages of space [i] in [lo, hi) changed, new pages are on frames of the
    allocator, and no byte outside the tables and the frames changed. *)
Record touches (i lo hi : Z) x x' : Prop := {
  t_inv : minv x';
  t_geo : geo x x';
  t_alloc : space_alloc x' = space_alloc x;
  t_maps : forall i' va e, i' <> i \/ ~ (lo <= va < hi) -> mapped x' i' va e <-> mapped x i' va e;
  t_pages : forall i' va e, mapped x' i' va e -> (exists e0, mapped x i' va e0 /\ frame_of e = frame_of e0) \/
    (lo <= va < hi /\ exists q, managed x q /\ frame_of e = frame x q);
  t_load : forall a, ~ in_tables a -> (forall q, managed x q -> ~ (frame x q <= a < frame x q + 4096)) ->
    load8 (ram x') a = load8 (ram x) a;
}.

Lemma touches_restored i lo hi x x' : restored x x' -> touches i lo hi x x'.
Proof using Type.
  intros [Hx ([Q _] & _ & G & A) M]. constructor; [done|done|done| | |].
  - intros. apply M.
  - intros i' va e H%M. left. by exists e.
  - intros a Ha _. by apply Q.
Qed.

Lemma touches_trans i lo hi x y z : touches i lo hi x y -> touches i lo hi y z -> touches i lo hi x z.
Proof using Type.
  intros [_ G1 A1 M1 P1 L1] [I2 G2 A2 M2 P2 L2]. constructor; [done|by eapply geo_trans|congruence| | |].
  - intros i' va e H. rewrite (M2 i' va e H). by apply M1.
  - intros i' va e [(e1 & H1 & E1)|(Hr & q & Hq & Hf)]%P2.
    + destruct (P1 i' va e1 H1) as [(e0 & H0 & E0)|(Hr & q & Hq & Hf)]; [left; exists e0; split; [done|congruence]|right].
      split; [done|]. exists q. split; [done|congruence].
    + right. split; [done|]. exists q. rewrite (geo_managed x y), (geo_frame x y) in * by done. done.
  - intros a Ha Hout. rewrite L2; [by apply L1|done|]. intros q. rewrite (geo_managed x y), (geo_frame x y) by done. apply Hout.
Qed.

Lemma touches_widen i lo hi lo' hi' x x' : touches i lo hi x x' -> lo' <= lo -> hi <= hi' -> touches i lo' hi' x x'.
Proof using Type.
  intros [I G A M P L] Hlo Hhi. constructor; [done|done|done| | |done].
  - intros i' va e H. apply M. lia.
  - intros i' va e H. destruct (P i' va e H) as [?|[Hr ?]]; [by left|right]. split; [lia|done].
Qed.

Lemma touches_grown i base prot x x' n lo hi :
  minv x -> grown st i base prot x x' n -> 0 <= base -> base mod 4096 = 0 -> lo <= base -> base + Z.of_nat n * 4096 <= hi ->
  touches i lo hi x x'.
Proof using Type.
  intros Hx G H0 Ha Hlo Hhi. constructor; [apply G|apply G|apply G| | |].
  - intros i' va e H. apply (g_maps _ _ _ _ _ _ _ G). intros [-> Hr]. rewrite in_run_bounds in Hr by done. lia.
  - intros i' va e H. pose proof H as (_ & Hva & _). destruct (decide (i' = i /\ in_run base n va)) as [[-> Hr]|Hn].
    + right. destruct (frame_page_desc i prot x x' n base G va Hva Hr Hx) as (q & Hq & Hm & _).
      rewrite in_run_bounds in Hr by done. split; [lia|]. exists q. pose proof (g_geo _ _ _ _ _ _ _ G) as Hg.
      rewrite (geo_managed x x') in Hq by done. split; [done|]. rewrite (mapped_fun st x' i va va e _ H Hm eq_refl), frame_of_desc, (geo_frame x x') by done.
      apply (frame_of_frame st x q Hx), (mi_managed _ x Hx), Hq.
    + left. exists e. split; [|done]. by apply (g_maps _ _ _ _ _ _ _ G).
  - intros a Hn _. by apply (g_quiet _ _ _ _ _ _ _ G).
Qed.

Lemma touches_shrunk i base x x' n lo hi :
  shrunk st i base x x' n -> 0 <= base -> base mod 4096 = 0 -> lo <= base -> base + Z.of_nat n * 4096 <= hi ->
  touches i lo hi x x'.
Proof using Type.
  intros S H0 Ha Hlo Hhi. destruct (s_settled _ _ _ _ _ _ S) as (_ & G & A & L). constructor; [apply S|done|done| | |].
  - intros i' va e H. rewrite (s_maps _ _ _ _ _ _ S i' va e). split; [tauto|]. intros Hm. split; [|done].
    intros [-> Hr]. rewrite in_run_bounds in Hr by done. lia.
  - intros i' va e [_ H]%(s_maps _ _ _ _ _ _ S). left. by exists e.
  - intros a Hn Hout. destruct (L a Hn) as [?|(p & Hp & Hin)]; [done|]. destruct (Hout p); [|done].
    rewrite <- (geo_managed x x') by done. by apply (mi_free _ x' (s_inv _ _ _ _ _ _ S)).
Qed.

Lemma touches_reprotected i base prot x x' n lo hi :
  reprotected i base prot x x' n -> 0 <= base -> base mod 4096 = 0 -> lo <= base -> base + Z.of_nat n * 4096 <= hi ->
  touches i lo hi x x'.
Proof using Type.
  intros (Hx & ([Q _] & _ & G & A) & M) H0 Ha Hlo Hhi. constructor; [done|done|done| | |].
  - intros i' va e H. rewrite (M i' va e), decide_False; [done|].
    intros [-> Hr]. rewrite in_run_bounds in Hr by done. lia.
  - intros i' va e H%M. left. destruct (decide _) as [[-> _]|]; [|by exists e].
    destruct H as (old & Ho & ->). exists old. split; [done|apply frame_of_desc].
  - intros a Hn _. by apply Q.
Qed.

Lemma window_ext i ms x x' :
  geo x x' -> (forall va e, MMAP_BASE <= va < MMAP_LIMIT -> mapped x' i va e <-> mapped x i va e) -> window i ms x -> window i ms x'.
Proof using Type.
  intros G Heq W. constructor; try apply W.
  - intros m va Hm Hva Hr. destruct (w_backed _ _ _ W m va Hm Hva Hr) as (p & Hp & Hma). exists p.
    rewrite (geo_frame x x') by done. split; [by apply (geo_managed x)|]. apply Heq; [|done].
    pose proof (w_placed _ _ _ W m Hm) as Hpl. rewrite placed_in_run in Hr by done. destruct Hpl as (H1 & _ & _ & H2). lia.
  - intros va e Hma Hva. apply Heq in Hma; [|done]. by apply (w_cover _ _ _ W va e).
Qed.

Lemma heap_ext i b x x' :
  geo x x' -> (forall va e, process.DEFAULT_HEAP_BREAK <= va < b -> mapped x i va e -> mapped x' i va e) -> heap i b x -> heap i b x'.
Proof using Type.
  intros G Heq H. constructor; try apply H. intros va Hva. destruct (h_backed _ _ _ H va Hva) as (p & Hp & Hma). exists p.
  rewrite (geo_frame x x') by done. split; [by apply (geo_managed x)|by apply Heq].
Qed.

Lemma window_touches i lo hi i' ms x x' :
  touches i lo hi x x' -> i' <> i \/ hi <= MMAP_BASE \/ MMAP_LIMIT <= lo -> window i' ms x -> window i' ms x'.
Proof using Type.
  intros T Hout. apply window_ext; [apply T|]. intros va e Hva. apply T. destruct Hout as [?|Hout]; [by left|right]. lia.
Qed.

Lemma heap_touches i lo hi i' b x x' :
  touches i lo hi x x' -> i' <> i \/ hi <= process.DEFAULT_HEAP_BREAK \/ b <= lo -> heap i' b x -> heap i' b x'.
Proof using Type.
  intros T Hout. apply heap_ext; [apply T|]. intros va e Hva Hm. apply T; [|done]. destruct Hout as [?|Hout]; [by left|right]. lia.
Qed.

Lemma heap_region b n : process.DEFAULT_HEAP_BREAK <= b -> b mod 4096 = 0 -> b + Z.of_nat n * 4096 <= MMAP_BASE -> region b n.
Proof using Type. unfold process.DEFAULT_HEAP_BREAK, MMAP_BASE. intros. split_and!; [lia|done|lia]. Qed.

Lemma heap_grown i b x x' n :
  minv x -> heap i b x -> b + Z.of_nat n * 4096 <= MMAP_BASE -> grown st i b PROT_RW x x' n -> heap i (b + Z.of_nat n * 4096) x'.
Proof using Type.
  intros Hx H Hb G. pose proof (h_range _ _ _ H). pose proof (h_aligned _ _ _ H) as Ha. unfold process.DEFAULT_HEAP_BREAK, MMAP_BASE in *.
  constructor; [unfold process.DEFAULT_HEAP_BREAK, MMAP_BASE; lia|lia|]. unfold process.DEFAULT_HEAP_BREAK. intros va Hva.
  destruct (decide (va < b)) as [Hlt|Hge].
  - destruct (h_backed _ _ _ H va) as (p & Hp & Hma); [unfold process.DEFAULT_HEAP_BREAK; lia|]. exists p.
    pose proof (g_geo _ _ _ _ _ _ _ G) as Hg. rewrite (geo_frame x x') by done. split; [by apply (geo_managed x)|].
    apply (g_maps _ _ _ _ _ _ _ G); [|done]. intros [_ Hr]. rewrite in_run_bounds in Hr by (lia || done). lia.
  - destruct (frame_page_desc i PROT_RW x x' n b G va) as (p & ? & ? & _); [unfold is_u32; lia| |done|by exists p].
    rewrite in_run_bounds by (lia || done). lia.
Qed.

Lemma heap_backed i b b' x n :
  minv x -> heap i b x -> process.DEFAULT_HEAP_BREAK <= b' -> b' mod 4096 = 0 -> b' + Z.of_nat n * 4096 <= b -> backed st i b' x n.
Proof using Type.
  intros Hx H Hb' Ha Hn va Hva Hr. unfold process.DEFAULT_HEAP_BREAK in *. rewrite in_run_bounds in Hr by (lia || done).
  destruct (h_backed _ _ _ H va) as (p & Hp & Hma); [unfold process.DEFAULT_HEAP_BREAK; lia|].
  exists (page_desc (frame x p) PROT_RW), p. split_and!; [done|done|].
  rewrite frame_of_desc. apply (frame_of_frame st x p Hx), (mi_managed _ x Hx), Hp.
Qed.

Lemma heap_lower i b b' x : heap i b x -> process.DEFAULT_HEAP_BREAK <= b' <= b -> b' mod 4096 = 0 -> heap i b' x.
Proof using Type.
  intros H Hb Ha. pose proof (h_range _ _ _ H). constructor; [lia|done|]. intros va Hva. apply (h_backed _ _ _ H). lia.
Qed.

Lemma grown_backed i b prot x x' n : grown st i b prot x x' n -> minv x -> backed st i b x' n.
Proof using Type.
  intros G Hx va Hva Hr. destruct (frame_page_desc i prot x x' n b G va Hva Hr Hx) as (p & Hp & Hma & _).
  pose proof (g_inv _ _ _ _ _ _ _ G) as Hx'. exists (page_desc (frame x' p) prot), p. split_and!; [done|done|].
  rewrite frame_of_desc. apply (frame_of_frame st x' p Hx'), (mi_managed _ x' Hx'), Hp.
Qed.

(** The break a request is rounded up to. *)
Definition round_up (req : Z) : Z := (req + 4095) / 4096 * 4096.

Lemma brk_round req :
  0 <= req <= MMAP_BASE -> Z.land (wrap32 (req + PAGE_SIZE - 1)) (not32 (PAGE_SIZE - 1)) = round_up req.
Proof using Type.
  intros Hr. unfold MMAP_BASE, PAGE_SIZE, page.PAGE_SIZE in *. rewrite wrap32_small by (unfold is_u32; lia).
  change (4096 - 1) with (2 ^ 12 - 1). rewrite land_not_mask by (unfold is_u32; lia). unfold round_up. f_equal. f_equal. lia.
Qed.

Lemma set_break_put k p b :
  process.proc k (process.CURRENT k) = Some p ->
  process.set_heap_break b k = process.put k (process.CURRENT k) (Some (process.with_break p b)) /\
  process.current_heap_break (process.set_heap_break b k) = b.
Proof using Type.
  intros Hp. unfold process.set_heap_break, process.modify. rewrite Hp. split; [done|].
  unfold process.current_heap_break. change (process.CURRENT (process.put _ _ _)) with (process.CURRENT k).
  rewrite process.proc_put by (by eapply process.proc_lt). by rewrite decide_True.
Qed.

(** What [brk] did, by how it ended. *)
Definition brk_done (i : Z) (p : process.Process) k x (new : Z) (r : Z) (k' : process.kernel D) x' : Prop :=
  let b := process.heap_break p in
  let moved := process.put k (process.CURRENT k) (Some (process.with_break p new)) in
  (* the break is where it is asked to be *)
  (r = new /\ new = b /\ k' = k /\ x' = x) \/
  (* the heap grew *)
  (r = new /\ k' = moved /\ exists n, new = b + Z.of_nat n * 4096 /\ (0 < n)%nat /\ grown st i b PROT_RW x x' n) \/
  (* the heap shrank *)
  (r = new /\ k' = moved /\ exists n, b = new + Z.of_nat n * 4096 /\ (0 < n)%nat /\ shrunk st i new x x' n) \/
  (* no frame for the page after the first [n]: they are given back *)
  (r = b /\ k' = k /\ exists n y, b + Z.of_nat n * 4096 < new /\ grown st i b PROT_RW x y n /\ frames y = ∅ /\ shrunk st i b y x' n) \/
  (* no table for the page after the first [n]: they stay mapped *)
  (r = b /\ k' = k /\ exists n, b + Z.of_nat n * 4096 < new /\ grown st i b PROT_RW x x' n).

Lemma sys_brk_ok req k x i p :
  minv x -> caller k x i p -> heap i (process.heap_break p) x -> process.DEFAULT_HEAP_BREAK <= req <= MMAP_BASE ->
  let '(r, k', x') := sys_brk st req k x in brk_done i p k x (round_up req) r k' x'.
Proof using Hst.
  intros Hx Hc H Hreq. pose proof (h_range _ _ _ H) as Hb. pose proof (h_aligned _ _ _ H) as Ha.
  unfold sys_brk. rewrite (caller_pt_eqb k x i p Hc), (caller_pt k x i p Hc).
  destruct Hc as (Hp & _ & _ & Hi). assert (process.current_heap_break k = process.heap_break p) as Hcb
    by (unfold process.current_heap_break; by rewrite Hp). rewrite Hcb.
  unfold process.DEFAULT_HEAP_BREAK, MMAP_BASE in Hb, Hreq.
  destruct (Z.eqb_spec req 0) as [|_]; [lia|]. rewrite brk_round by (unfold MMAP_BASE; lia).
  set (b := process.heap_break p) in *. set (new := round_up req).
  assert (new mod 4096 = 0 /\ 0x10000000 <= new <= 0x20000000) as [Hna Hnr] by (unfold new, round_up; lia).
  destruct (set_break_put k p new Hp) as [-> ->]. unfold PAGE_SIZE, page.PAGE_SIZE.
  destruct (Z.ltb_spec b new) as [Hlt|Hge].
  - set (n := Z.to_nat ((new - b) / 4096)). assert (new = b + Z.of_nat n * 4096) as Hn by (unfold n; lia).
    assert (region b n) as Hreg by (apply heap_region; [unfold process.DEFAULT_HEAP_BREAK; lia|done|unfold MMAP_BASE; lia]).
    pose proof (map_pages_ok st Hst i b PROT_RW x Hx Hi n 0 x Hreg (grown_0 st i b PROT_RW x Hx)) as Hm. fold PROT_RW.
    destruct (map_pages _ _ _ _ _ _ _) as [x'|j x'|j phys x'].
    + right; left. split_and!; [done|done|]. exists n. split_and!; [done|lia|done].
    + destruct Hm as (Hj & G & Hf). right; right; right; left. split_and!; [done|done|]. exists j, x'. split_and!; [lia|done|done|].
      apply drop_pages_ok; [done|apply G|apply (region_le b j n); [done|lia]|by eapply grown_backed].
    + destruct Hm as (Hj & G). right; right; right; right. split_and!; [done|done|]. exists j. split; [lia|done].
  - destruct (Z.ltb_spec new b) as [Hlt|Hge'].
    + set (n := Z.to_nat ((b - new) / 4096)). assert (b = new + Z.of_nat n * 4096) as Hn by (unfold n; lia).
      right; right; left. split_and!; [done|done|]. exists n. split_and!; [done|lia|]. apply drop_pages_ok; [done|done| |].
      * apply heap_region; [unfold process.DEFAULT_HEAP_BREAK; lia|done|unfold MMAP_BASE; lia].
      * apply (heap_backed i b); [done|done|unfold process.DEFAULT_HEAP_BREAK; lia|done|lia].
    + assert (new = b) as E by lia. left. split_and!; done.
Qed.
(** ** Every process's memory, across calls *)

Record memory_ok k x : Prop := {
  mo_inv : minv x;
  mo_space : forall c p i, process.proc k c = Some p -> 0 <= i < 16 -> process.page_table_phys p = mmu.user_table_addr st i ->
    space_live x i /\ window i (process.mappings p) x /\ heap i (process.heap_break p) x;
  mo_own : forall c c' p p' i, process.proc k c = Some p -> process.proc k c' = Some p' -> 0 <= i < 16 ->
    process.page_table_phys p = mmu.user_table_addr st i -> process.page_table_phys p' = mmu.user_table_addr st i -> c = c';
}.

Lemma user_table_inj i j : mmu.user_table_addr st i = mmu.user_table_addr st j -> i = j.
Proof using Type. unfold mmu.user_table_addr. lia. Qed.

(** A call of the current process: its table entry becomes [p'], and pages of
    its heap or window change. *)
Definition effect k x k' x' : Prop :=
  exists i p p', caller k x i p /\ k' = process.put k (process.CURRENT k) (Some p') /\
    process.page_table_phys p' = process.page_table_phys p /\ process.stack_base p' = process.stack_base p /\
    touches i process.DEFAULT_HEAP_BREAK MMAP_LIMIT x x' /\
    window i (process.mappings p') x' /\ heap i (process.heap_break p') x'.

Lemma memory_ok_effect k x k' x' : memory_ok k x -> effect k x k' x' -> memory_ok k' x'.
Proof using Type.
  intros M (i & p & p' & (Hp & Hpt & _ & Hl) & -> & Hpt' & _ & T & W & H). pose proof (process.proc_lt k _ p Hp) as Hlt.
  assert (forall c q, process.proc (process.put k (process.CURRENT k) (Some p')) c = Some q ->
    (c = process.CURRENT k /\ q = p') \/ (c <> process.CURRENT k /\ process.proc k c = Some q)) as Hget.
  { intros c q. rewrite process.proc_put by done. destruct (decide (c = process.CURRENT k)); [|by right]. intros [= <-]. by left. }
  constructor.
  - apply T.
  - intros c q j Hq Hj Hqt. apply Hget in Hq as [[-> ->]|[Hc Hq]].
    + assert (j = i) as -> by (apply user_table_inj; congruence). split_and!; [|done|done].
      apply (live_alloc x); [apply T|done].
    + destruct (mo_space _ _ M c q j Hq Hj Hqt) as (Hlj & Wj & Hhj). assert (j <> i) as Hne.
      { intros ->. apply Hc. by apply (mo_own _ _ M c (process.CURRENT k) q p i). }
      split_and!; [apply (live_alloc x); [apply T|done]|by eapply window_touches; [done|left|]|by eapply heap_touches; [done|left|]].
  - intros c c' q q' j Hq Hq' Hj Hqt Hqt'.
    assert (forall c q, process.proc (process.put k (process.CURRENT k) (Some p')) c = Some q ->
      exists q0, process.proc k c = Some q0 /\ process.page_table_phys q0 = process.page_table_phys q) as Hold.
    { intros c0 q0 [[-> ->]|[_ ?]]%Hget; [by exists p|by exists q0]. }
    destruct (Hold c q Hq) as (q0 & ? & ?), (Hold c' q' Hq') as (q0' & ? & ?).
    apply (mo_own _ _ M c c' q0 q0' j); [done|done|done|congruence|congruence].
Qed.

Lemma put_same k p : process.proc k (process.CURRENT k) = Some p -> process.put k (process.CURRENT k) (Some p) = k.
Proof using Type.
  intros Hp. unfold process.put, process.set_procs. rewrite list_insert_id; [by destruct k|].
  unfold process.proc in Hp. destruct (process.PROCS k !! process.CURRENT k) as [[]|]; cbn in Hp; congruence.
Qed.

(** A memory call of a user process, with its arguments in the range the calls
    are written for. *)
Inductive mem_call : process.kernel D * machine -> process.kernel D * machine -> Prop :=
  | call_mmap i p arg0 length prot arg3 k x r k' x' :
      caller k x i p -> 0 <= length <= 0xDFFFF000 ->
      sys_mmap st arg0 length prot arg3 k x = (r, k', x') -> mem_call (k, x) (k', x')
  | call_munmap i p a len k x r k' x' :
      caller k x i p -> sys_munmap st a len k x = (r, k', x') -> mem_call (k, x) (k', x')
  | call_mprotect i p a len prot k x r k' x' :
      caller k x i p -> sys_mprotect a len prot k x = (r, k', x') -> mem_call (k, x) (k', x')
  | call_brk i p req k x r k' x' :
      caller k x i p -> req = 0 \/ process.DEFAULT_HEAP_BREAK <= req <= MMAP_BASE ->
      sys_brk st req k x = (r, k', x') -> mem_call (k, x) (k', x').

Lemma round_up_range req :
  process.DEFAULT_HEAP_BREAK <= req <= MMAP_BASE -> process.DEFAULT_HEAP_BREAK <= round_up req <= MMAP_BASE /\ round_up req mod 4096 = 0.
Proof using Type. unfold process.DEFAULT_HEAP_BREAK, MMAP_BASE, round_up. lia. Qed.

Lemma effect_none k x i p x' :
  caller k x i p -> window i (process.mappings p) x -> heap i (process.heap_break p) x ->
  touches i process.DEFAULT_HEAP_BREAK MMAP_LIMIT x x' -> window i (process.mappings p) x' -> heap i (process.heap_break p) x' ->
  effect k x k x'.
Proof using Type.
  intros Hc _ _ T W H. exists i, p, p. split_and!; try done. symmetry. apply put_same, Hc.
Qed.

Lemma brk_effect req k x i p r k' x' :
  minv x -> caller k x i p -> window i (process.mappings p) x -> heap i (process.heap_break p) x ->
  process.DEFAULT_HEAP_BREAK <= req <= MMAP_BASE -> sys_brk st req k x = (r, k', x') -> effect k x k' x'.
Proof using Hst.
  intros Hx Hc W H Hreq E. pose proof (h_range _ _ _ H) as Hb. pose proof (h_aligned _ _ _ H) as Ha.
  pose proof (sys_brk_ok req k x i p Hx Hc H Hreq) as Hd. rewrite E in Hd.
  destruct (round_up_range req Hreq) as [Hnr Hna]. set (b := process.heap_break p) in *.
  assert (0 <= b) as Hb0 by (unfold process.DEFAULT_HEAP_BREAK in Hb; lia).
  assert (0 <= round_up req) as Hn0 by (unfold process.DEFAULT_HEAP_BREAK in Hnr; lia).
  assert (MMAP_BASE <= MMAP_LIMIT) as Hlim by (unfold MMAP_BASE, MMAP_LIMIT; lia).
  assert (forall lo x', process.DEFAULT_HEAP_BREAK <= lo -> touches i lo MMAP_BASE x x' ->
    touches i process.DEFAULT_HEAP_BREAK MMAP_LIMIT x x' /\ window i (process.mappings p) x' /\
    (forall c, c <= lo -> heap i c x -> heap i c x')) as Hkeep.
  { intros lo y Hlo T. split_and!; [by eapply touches_widen|by eapply window_touches; [done|right; left|]|].
    intros c Hc' Hh. by eapply heap_touches; [exact T|right; right|]. }
  destruct Hd as [(_ & _ & -> & ->)|[(_ & -> & n & Hn & _ & G)|[(_ & -> & n & Hn & _ & S)|[(_ & -> & n & y & Hn & G & _ & S)|(_ & -> & n & Hn & G)]]]].
  - eapply effect_none; try done. by apply touches_restored, restored_refl.
  - destruct (Hkeep b x') as (T & W' & _); [lia|apply (touches_grown i b PROT_RW x x' n); done || lia|].
    exists i, p, (process.with_break p (round_up req)). split_and!; try done.
    cbn [process.heap_break process.with_break]. rewrite Hn. apply (heap_grown i b x); [done|done|lia|done].
  - destruct (Hkeep (round_up req) x') as (T & W' & Hh); [lia|apply (touches_shrunk i (round_up req) x x' n); done || lia|].
    exists i, p, (process.with_break p (round_up req)). split_and!; try done.
    apply Hh; [done|]. apply (heap_lower i b); [done|fold b in Hn; cbn [process.heap_break process.with_break]; lia|done].
  - destruct (Hkeep b x') as (T & W' & Hh); [lia| |by eapply effect_none; try done; apply Hh].
    apply (touches_trans _ _ _ x y); [apply (touches_grown i b PROT_RW x y n)|apply (touches_shrunk i b y x' n)]; first [done|lia].
  - destruct (Hkeep b x') as (T & W' & Hh); [lia|apply (touches_grown i b PROT_RW x x' n); done || lia|].
    by eapply effect_none; try done; apply Hh.
Qed.

(** A call that changes the mapping records and the pages of the window. *)
Lemma effect_window k x i p x' ms :
  caller k x i p -> heap i (process.heap_break p) x -> touches i MMAP_BASE MMAP_LIMIT x x' -> window i ms x' ->
  effect k x (process.put k (process.CURRENT k) (Some (process.with_mappings p ms))) x'.
Proof using Type.
  intros Hc H T W. exists i, p, (process.with_mappings p ms). split_and!; try done.
  - eapply touches_widen; [exact T|unfold process.DEFAULT_HEAP_BREAK, MMAP_BASE; lia|done].
  - cbn [process.heap_break process.with_mappings]. eapply heap_touches; [exact T|right; right; apply H|done].
Qed.

Lemma mem_call_effect k x k' x' : memory_ok k x -> mem_call (k, x) (k', x') -> effect k x k' x'.
Proof using Hst.
  intros M Hcall. pose proof (mo_inv _ _ M) as Hx.
  assert (forall i p, caller k x i p -> window i (process.mappings p) x /\ heap i (process.heap_break p) x) as Hw.
  { intros i p (Hp & Hpt & _ & [Hi _]). destruct (mo_space _ _ M _ p i Hp Hi Hpt) as (_ & W & H). done. }
  inversion Hcall; subst; destruct (Hw _ _ ltac:(eassumption)) as [W H].
  - pose proof (sys_mmap_ok arg0 length prot arg3 k x i p Hx ltac:(done) W ltac:(done)) as Hd.
    match goal with E : sys_mmap _ _ _ _ _ _ _ = _ |- _ => rewrite E in Hd end.
    destruct Hd as [(_ & -> & R)|(_ & slot & _ & -> & Hb & Ha & [Hf _] & _ & G & W')].
    + eapply effect_none; try done; [by apply touches_restored|by eapply window_restored|].
      by apply (heap_touches i 0 process.DEFAULT_HEAP_BREAK i _ x x'); [apply touches_restored, R|right; left; reflexivity|].
    + apply (effect_window k x i p); [done|done| |done]. unfold PAGE_SIZE, page.PAGE_SIZE, MMAP_BASE in *.
      apply (touches_grown i r prot x x' _ _ _ Hx G); [lia|done|lia|]. unfold page_count, PAGE_SIZE, page.PAGE_SIZE in *. lia.
  - pose proof (sys_munmap_ok a len k x i p Hx ltac:(done) W) as Hd.
    match goal with E : sys_munmap _ _ _ _ _ = _ |- _ => rewrite E in Hd end.
    destruct Hd as [(_ & -> & -> & _)|(_ & slot & m & Hm & <- & -> & S & W')].
    { eapply effect_none; try done. by apply touches_restored, restored_refl. }
    pose proof (w_placed _ _ _ W m ltac:(by eapply list_elem_of_lookup_2)) as (P1 & P2 & P3 & P4).
    apply (effect_window k x i p); [done|done| |done]. unfold MMAP_BASE, npages in *.
    apply (touches_shrunk i (process.start m) x x' _ _ _ S); [lia|done|lia|lia].
  - pose proof (sys_mprotect_ok a len prot k x i p Hx ltac:(done) W) as Hd.
    match goal with E : sys_mprotect _ _ _ _ _ = _ |- _ => rewrite E in Hd end.
    destruct Hd as [(_ & -> & -> & _)|(_ & _ & slot & m & Hm & <- & -> & S & W')].
    { eapply effect_none; try done. by apply touches_restored, restored_refl. }
    pose proof (w_placed _ _ _ W m ltac:(by eapply list_elem_of_lookup_2)) as (P1 & P2 & P3 & P4).
    apply (effect_window k x i p); [done|done| |done]. unfold MMAP_BASE, npages in *.
    apply (touches_reprotected i (process.start m) prot x x' _ _ _ S); [lia|done|lia|lia].
  - match goal with E : req = 0 \/ _ |- _ => destruct E as [->|Hr] end; [|by eapply brk_effect].
    match goal with E : sys_brk _ _ _ _ = _ |- _ => unfold sys_brk in E; cbn [Z.eqb] in E; injection E as _ <- <- end.
    eapply effect_none; try done. by apply touches_restored, restored_refl.
Qed.

Lemma mem_call_ok k x k' x' : memory_ok k x -> mem_call (k, x) (k', x') -> memory_ok k' x'.
Proof using Hst. intros M Hc. eapply memory_ok_effect; [exact M|by apply mem_call_effect]. Qed.
End theory.

(** ** Theorems *)

(** Whatever memory calls the user processes make, each process's mapping
    records and break keep agreeing with its page tables, every page it has is
    backed by an allocated frame, free frames stay zero, and no frame is ever
    mapped twice, in one address space or in two. *)
Theorem memory_calls_keep_isolation {D} st (k : process.kernel D) x k' x' :
  mmu.statics_ok st -> memory_ok st k x -> rtc (mem_call st) (k, x) (k', x') ->
  memory_ok st k' x' /\
  forall i va e i' va' e', vm.mapped st x' i va e -> vm.mapped st x' i' va' e' -> frame_of e = frame_of e' ->
    i = i' /\ mmu.vpage va = mmu.vpage va'.
Proof.
  intros Hst Hk Hr. assert (memory_ok st k' x') as Hok; [|split; [done|apply (vm.mi_inj st x'), Hok]].
  change (let '(k', x') := (k', x') in memory_ok st k' x'). change (let '(k, x) := (k, x) in memory_ok st k x) in Hk.
  induction Hr as [|[k1 x1] [k2 x2] kx Hs Hr IH]; [done|]. by apply IH, (mem_call_ok st Hst k1 x1).
Qed.

(** C5: A call to [mmap] of a user process for at most 0xDFFFF000 bytes (the
    end of a longer region wraps around) either fails and changes neither the
    process table, nor the free frames, nor any page of any process, nor any byte
    outside the page tables; or it maps the whole region, at the lowest hole that
    holds it, on fresh zero-filled frames with the requested protection, and
    records it. *)
Theorem mmap_all_or_nothing {D} st arg0 length prot arg3 (k : process.kernel D) x i p :
  mmu.statics_ok st -> vm.minv st x -> caller st k x i p -> window st i (process.mappings p) x -> 0 <= length <= 0xDFFFF000 ->
  let '(r, k', x') := sys_mmap st arg0 length prot arg3 k x in
  (r = MAP_FAILED /\ k' = k /\ vm.restored st x x') \/
  (valid_request length prot arg3 = true /\ mmap_done st i length prot p k x r k' x' /\
   forall va, is_u32 va -> in_run r (Z.to_nat (page_count length)) va ->
     exists f, managed x' f /\ vm.mapped st x' i va (page_desc (frame x' f) prot) /\
       forall a, frame x' f <= a < frame x' f + 4096 -> load8 (ram x') a = 0).
Proof.
  intros Hst Hx Hc W Hl. pose proof (sys_mmap_ok st Hst arg0 length prot arg3 k x i p Hx Hc W Hl) as H.
  destruct (sys_mmap st arg0 length prot arg3 k x) as [[r k'] x']. destruct H as [H|[Hv H]]; [by left|right].
  split_and!; [done|done|]. destruct H as (slot & _ & _ & _ & _ & _ & _ & G & _). intros va Hva Hr.
  by apply (frame_page_desc st i prot x x' _ r G va).
Qed.

(** The first-fit search of [mmap] ends within one round more than there are
    mapping slots, and returns the lowest address of the window at which the
    region fits, or fails when there is none. *)
Theorem mmap_search_first_fit st i ms x n :
  window st i ms x -> 0 < n -> MMAP_BASE + n * PAGE_SIZE < 2 ^ 32 ->
  match search (S process.MAX_MAPPINGS) ms n MMAP_BASE with
  | None => False
  | Some None => forall c, MMAP_BASE <= c -> ~ fits ms n c
  | Some (Some c) => MMAP_BASE <= c /\ c mod 4096 = 0 /\ fits ms n c /\ forall c', MMAP_BASE <= c' < c -> ~ fits ms n c'
  end.
Proof. apply search_hole. Qed.

(** Unmapping a region that [mmap] returned gives back exactly what it took:
    the process table is the one before, and so are the free frames, every page
    of every process and every byte outside the page tables. *)
Theorem mmap_munmap_roundtrip {D} st arg0 length prot arg3 len (k : process.kernel D) x i p r k1 x1 :
  mmu.statics_ok st -> vm.minv st x -> caller st k x i p -> window st i (process.mappings p) x -> 0 <= length <= 0xDFFFF000 ->
  sys_mmap st arg0 length prot arg3 k x = (r, k1, x1) -> r <> MAP_FAILED ->
  exists x2, sys_munmap st r len k1 x1 = (0, k, x2) /\ vm.restored st x x2.
Proof. intros Hst. apply (mmap_munmap st Hst). Qed.

(** [mprotect] succeeds exactly when a recorded mapping starts at the address
    and the protection is not execute-only; it never runs into an unmapped page,
    keeps every page's frame and changes the protection of exactly the pages of
    that mapping, in the tables and in the record. *)
Theorem mprotect_exact {D} st a len new_prot (k : process.kernel D) x i p :
  mmu.statics_ok st -> vm.minv st x -> caller st k x i p -> window st i (process.mappings p) x ->
  let '(r, k', x') := sys_mprotect a len new_prot k x in
  (r = EINVAL /\ k' = k /\ x' = x /\
    (exec_only new_prot = true \/ forall m, Some m ∈ process.mappings p -> process.start m <> a)) \/
  (r = 0 /\ exec_only new_prot = false /\ exists slot m, process.mappings p !! slot = Some (Some m) /\ process.start m = a /\
     k' = recorded k p slot (Some (process.mk_mapping a (process.pages m) new_prot)) /\
     reprotected st i a new_prot x x' (npages m) /\
     window st i (<[slot := Some (process.mk_mapping a (process.pages m) new_prot)]> (process.mappings p)) x').
Proof. intros Hst. apply (sys_mprotect_ok st Hst). Qed.

(** [brk] with a request in the heap window moves the break to the request
    rounded up to a page, mapping exactly the new pages on fresh frames or
    freeing exactly the old ones; when the frames run out it gives the new pages
    back; when the page tables run out it returns the old break and keeps them. *)
Theorem brk_outcomes {D} st req (k : process.kernel D) x i p :
  mmu.statics_ok st -> vm.minv st x -> caller st k x i p -> heap st i (process.heap_break p) x ->
  process.DEFAULT_HEAP_BREAK <= req <= MMAP_BASE ->
  let '(r, k', x') := sys_brk st req k x in brk_done st i p k x (round_up req) r k' x'.
Proof. intros Hst. apply (sys_brk_ok st Hst). Qed.

(** ** A machine with two processes *)

(** Address spaces 0 and 1, the first with the identity section of the first
    megabyte of the window; a kernel table at 0x400000 with one section; and
    five free frames from 0x40003000. *)
#[local] Ltac Zify.zify_post_hook ::= Z.to_euclidean_division_equations.

Definition demo_ram : memory :=
  store32 (store32 ∅ (0x400000 + 4 * 0x300) 0x30010402) (mmu.user_table_addr mmu.layout 0 + 4 * 0x200) 0x20010402.
Definition demo_x : machine := mk_machine (page.with_mem page.demo demo_ram) 0 3.
Definition demo_proc (c : nat) (b : Z) : process.Process :=
  process.mk_process c process.Running (signal.mk_context (replicate 13 0) 0 0 0 0x10) None 0
    (mmu.user_table_addr mmu.layout (Z.of_nat c)) 0 0 b (replicate process.MAX_MAPPINGS None)
    signal.SignalState_new 0 0 0.
Definition demo_k (b : Z) : process.kernel unit :=
  process.mk_kernel [Some (demo_proc 0 b); Some (demo_proc 1 process.DEFAULT_HEAP_BREAK)] 0 None false
    (mmu.user_table_addr mmu.layout 0) [] tt [].

Lemma demo_l1_entry i j : 0 <= i < 16 -> 0 <= j < 4096 -> mmu.is_table (mmu.entry mmu.layout demo_ram i j) = false.
Proof.
  intros Hi Hj. unfold mmu.entry, demo_ram. assert ((mmu.user_table_addr mmu.layout i + 4 * j) mod 4 = 0) as Ha
    by (unfold mmu.user_table_addr; cbn; lia).
  rewrite !mmu.load_store_word by done. destruct (decide _); [done|]. by destruct (decide _).
Qed.

Lemma demo_unmapped i va e : ~ vm.mapped mmu.layout demo_x i va e.
Proof.
  intros ([Hi _] & Hva & Hw & _). revert Hw. change (ram demo_x) with demo_ram.
  rewrite mmu.walk_eq. unfold mmu.walk_entry. rewrite demo_l1_entry by (done || by apply mmu.vmb_range).
  by destruct (mmu.is_fault _).
Qed.

Lemma demo_geometry :
  page.FIRST_PAGE page.demo = 0x40000000 /\ page.USABLE_START_PAGE page.demo = 3 /\ page.USABLE_END_PAGE page.demo = 8 /\
  page.free_set (page.PAGE_BITMAP page.demo) = page.run 3 5.
Proof.
  destruct (page.init_ok 0x40000000 0x40008000 0x40002800 (page.boot ∅)) as (s & Hs & _ & H1 & H2 & H3 & _ & _ & _ & H4).
  - constructor; unfold is_u32, page.MAX_PAGES, page.PAGE_SIZE; lia || reflexivity.
  - reflexivity.
  - unfold page.demo. rewrite Hs. rewrite H1, H2, H3, H4. split_and!; reflexivity.
Qed.

#[local] Opaque page.free_set page.MAX_PAGES page.demo.

Lemma demo_frames p : p ∈ frames demo_x -> 3 <= p < 8.
Proof.
  destruct demo_geometry as (_ & _ & _ & H). unfold frames, demo_x. cbn [pg page.with_mem page.PAGE_BITMAP].
  rewrite H, page.elem_of_run. lia.
Qed.

Lemma demo_frame p : frame demo_x p = 0x40000000 + p * 4096.
Proof. destruct demo_geometry as (H & _). unfold frame, page.frame_addr. cbn [demo_x pg page.with_mem page.FIRST_PAGE]. by rewrite H. Qed.

Lemma demo_managed p : managed demo_x p <-> 3 <= p < 8.
Proof.
  destruct demo_geometry as (_ & H1 & H2 & _). unfold managed. cbn [demo_x pg page.with_mem page.USABLE_START_PAGE page.USABLE_END_PAGE].
  rewrite H1, H2. lia.
Qed.

Lemma demo_minv : vm.minv mmu.layout demo_x.
Proof.
  constructor.
  - destruct page.demo_inv as [H1 H2 H3]. constructor; [exact H1|exact H2|exact H3].
  - destruct demo_geometry as (H & _). cbn [demo_x pg page.with_mem page.FIRST_PAGE]. by rewrite H.
  - intros p Hp. by apply demo_managed, demo_frames.
  - intros p Hp. apply (proj1 (demo_managed p)) in Hp. rewrite page.MAX_PAGES_eq. lia.
  - intros p a Hp. apply (proj1 (demo_managed p)) in Hp. rewrite demo_frame. unfold vm.any_table, vm.in_tables. cbn [mmu.layout mmu.L2_TABLES mmu.USER_TABLES mmu.KERNEL_L2]. lia.
  - constructor; cbn [mm mmu.mem]; change (ram demo_x) with demo_ram.
    + intros i j [Hi _] Hj. by rewrite demo_l1_entry.
    + intros i j i' j' s [Hi _] _ Hj _ _. by rewrite demo_l1_entry.
  - change (ram demo_x) with demo_ram. apply bytes_store32, bytes_store32. by intros a.
  - intros i va e p Hm. by apply demo_unmapped in Hm.
  - intros i va e i' va' e' Hm. by apply demo_unmapped in Hm.
  - intros p a Hp%demo_frames. rewrite demo_frame. intros Ha. change (ram demo_x) with demo_ram. unfold demo_ram.
    change (mmu.user_table_addr mmu.layout 0 + 4 * 0x200) with 0x300800. rewrite !load8_store32_ne; [done|lia..].
Qed.

Lemma demo_window i : window mmu.layout i (replicate process.MAX_MAPPINGS None) demo_x.
Proof.
  assert (forall m : process.VmMapping, Some m ∉ replicate process.MAX_MAPPINGS None) as Hno.
  { intros m. rewrite elem_of_replicate. by intros [? _]. }
  constructor; [done|intros m Hm; by apply Hno in Hm| |intros m va Hm; by apply Hno in Hm|intros va e Hm; by apply demo_unmapped in Hm].
  intros a b m m' Hm. apply list_elem_of_lookup_2, Hno in Hm. done.
Qed.

Lemma demo_heap i : heap mmu.layout i process.DEFAULT_HEAP_BREAK demo_x.
Proof. constructor; [done|done|]. intros va Hva. lia. Qed.

Lemma demo_caller b : caller mmu.layout (demo_k b) demo_x 0 (demo_proc 0 b).
Proof. split_and!; [done|done|done|by split]. Qed.

Lemma demo_ok : memory_ok mmu.layout (demo_k process.DEFAULT_HEAP_BREAK) demo_x.
Proof.
  assert (forall c p, process.proc (demo_k process.DEFAULT_HEAP_BREAK) c = Some p ->
    (c < 2)%nat /\ p = demo_proc c process.DEFAULT_HEAP_BREAK) as Hget.
  { intros [|[|c]] p; [intros [= <-]; split; [lia|done]|intros [= <-]; split; [lia|done]|done]. }
  constructor; [exact demo_minv| |].
  - intros c p i [Hc ->]%Hget Hi Ht. cbn [demo_proc process.page_table_phys] in Ht. apply user_table_inj in Ht as <-.
    split_and!; [|apply demo_window|apply demo_heap]. split; [done|]. destruct c as [|[|c]]; [done|done|lia].
  - intros c c' p p' i [Hc ->]%Hget [Hc' ->]%Hget _ Ht Ht'. cbn [demo_proc process.page_table_phys] in Ht, Ht'.
    rewrite <- Ht' in Ht. apply user_table_inj in Ht. lia.
Qed.
(** Two pages, readable and writable, private and anonymous. *)
#[local] Abbreviation base_k := (demo_k process.DEFAULT_HEAP_BREAK).
#[local] Abbreviation ANON := 0xFFFF0020.
Definition demo_call : Z * process.kernel unit * machine := sys_mmap mmu.layout 0 8192 3 ANON base_k demo_x.

Lemma demo_call_addr : demo_call.1.1 = 0x20000000.
Proof. vm_compute. reflexivity. Qed.

Lemma demo_window0 b : window mmu.layout 0 (process.mappings (demo_proc 0 b)) demo_x.
Proof. apply demo_window. Qed.

Lemma memory_calls_keep_isolation_witness :
  exists k' x', rtc (mem_call mmu.layout) (base_k, demo_x) (k', x') /\ memory_ok mmu.layout k' x' /\
    process.current_mappings k' !! 0%nat = Some (Some (process.mk_mapping 0x20000000 2 3)).
Proof.
  exists demo_call.1.2, demo_call.2. assert (rtc (mem_call mmu.layout) (base_k, demo_x) (demo_call.1.2, demo_call.2)) as Hr.
  { apply rtc_once. apply (call_mmap mmu.layout 0 (demo_proc 0 process.DEFAULT_HEAP_BREAK) 0 8192 3 ANON base_k demo_x demo_call.1.1);
      [apply demo_caller|lia|]. unfold demo_call. by destruct (sys_mmap _ _ _ _ _ _ _) as [[? ?] ?]. }
  split; [exact Hr|]. split; [|vm_compute; reflexivity].
  exact (proj1 (memory_calls_keep_isolation mmu.layout base_k demo_x _ _ mmu.layout_ok demo_ok Hr)).
Defined.

Lemma mmap_all_or_nothing_witness :
  valid_request 8192 3 ANON = true /\
  exists f, managed demo_call.2 f /\ vm.mapped mmu.layout demo_call.2 0 0x20001000 (page_desc (frame demo_call.2 f) 3) /\
    forall a, frame demo_call.2 f <= a < frame demo_call.2 f + 4096 -> load8 (ram demo_call.2) a = 0.
Proof.
  pose proof (mmap_all_or_nothing mmu.layout 0 8192 3 ANON base_k demo_x 0 (demo_proc 0 process.DEFAULT_HEAP_BREAK)
    mmu.layout_ok demo_minv (demo_caller _) (demo_window0 _) ltac:(lia)) as H.
  pose proof demo_call_addr as Hr. unfold demo_call in *. destruct (sys_mmap _ _ _ _ _ _ _) as [[r k'] x']. cbn [fst snd] in *. subst r.
  destruct H as [[H _]|(Hv & _ & H)]; [discriminate H|]. split; [exact Hv|]. apply H; [done|by vm_compute].
Defined.

Lemma mmap_search_first_fit_witness :
  search (S process.MAX_MAPPINGS) (replicate process.MAX_MAPPINGS None) 2 MMAP_BASE = Some (Some 0x20000000) /\
  fits (replicate process.MAX_MAPPINGS None) 2 0x20000000.
Proof.
  pose proof (mmap_search_first_fit mmu.layout 0 _ demo_x 2 (demo_window 0) ltac:(lia) ltac:(by vm_compute)) as H.
  assert (search (S process.MAX_MAPPINGS) (replicate process.MAX_MAPPINGS None) 2 MMAP_BASE = Some (Some 0x20000000)) as E
    by (vm_compute; reflexivity).
  rewrite E in H. split; [exact E|apply H].
Defined.

Lemma mmap_munmap_roundtrip_witness :
  exists x2, sys_munmap mmu.layout 0x20000000 8192 demo_call.1.2 demo_call.2 = (0, base_k, x2) /\
    vm.restored mmu.layout demo_x x2.
Proof.
  apply (mmap_munmap_roundtrip mmu.layout 0 8192 3 ANON 8192 base_k demo_x 0 (demo_proc 0 process.DEFAULT_HEAP_BREAK)).
  - exact mmu.layout_ok.
  - exact demo_minv.
  - apply demo_caller.
  - apply demo_window0.
  - lia.
  - rewrite <- demo_call_addr. unfold demo_call. by destruct (sys_mmap _ _ _ _ _ _ _) as [[? ?] ?].
  - discriminate.
Defined.

(** The machine after that call satisfies the invariant of the next one. *)
Lemma demo_mapped :
  vm.minv mmu.layout demo_call.2 /\ exists p, caller mmu.layout demo_call.1.2 demo_call.2 0 p /\
    window mmu.layout 0 (process.mappings p) demo_call.2 /\ process.mappings p !! 0%nat = Some (Some (process.mk_mapping 0x20000000 2 3)).
Proof.
  pose proof (sys_mmap_ok mmu.layout mmu.layout_ok 0 8192 3 ANON base_k demo_x 0 (demo_proc 0 process.DEFAULT_HEAP_BREAK)
    demo_minv (demo_caller _) (demo_window0 _) ltac:(lia)) as H.
  pose proof demo_call_addr as Hr. unfold demo_call in *. destruct (sys_mmap _ _ _ _ _ _ _) as [[r k'] x'] eqn:E. cbn [fst snd] in *. subst r.
  destruct H as [[H _]|(_ & slot & Hs & -> & _ & _ & _ & _ & G & W)]; [discriminate H|].
  split; [apply G|]. eexists. split; [|split].
  - apply (caller_recorded mmu.layout base_k demo_x); [apply demo_caller|apply G].
  - exact W.
  - assert (slot = 0%nat) as ->; [|reflexivity].
    assert ((sys_mmap mmu.layout 0 8192 3 ANON base_k demo_x).1.2 = recorded base_k (demo_proc 0 process.DEFAULT_HEAP_BREAK) slot
      (Some (process.mk_mapping 0x20000000 (page_count 8192) 3))) as E1 by (by rewrite E).
    apply (f_equal (fun k => process.current_mappings k !! 0%nat)) in E1.
    assert (process.current_mappings (sys_mmap mmu.layout 0 8192 3 ANON base_k demo_x).1.2 !! 0%nat =
      Some (Some (process.mk_mapping 0x20000000 2 3))) as E2 by (vm_compute; reflexivity).
    rewrite E2 in E1. destruct slot; [done|]. discriminate E1.
Qed.

Lemma mprotect_exact_witness :
  exists r, (sys_mprotect 0x20000000 0 1 demo_call.1.2 demo_call.2).1.1 = r /\ r = 0.
Proof.
  destruct demo_mapped as (Hx & p & Hc & W & Hm).
  pose proof (mprotect_exact mmu.layout 0x20000000 0 1 demo_call.1.2 demo_call.2 0 p mmu.layout_ok Hx Hc W) as H.
  destruct (sys_mprotect _ _ _ _ _) as [[r k'] x']. exists r. split; [reflexivity|].
  destruct H as [(_ & _ & _ & [H|H])|[H _]]; [discriminate H| |exact H].
  exfalso. apply (H (process.mk_mapping 0x20000000 2 3)); [|reflexivity]. apply list_elem_of_lookup. by exists 0%nat.
Defined.

Lemma brk_outcomes_witness :
  (sys_brk mmu.layout 0x10001800 base_k demo_x).1.1 = 0x10002000 /\
  let '(r, k', x') := sys_brk mmu.layout 0x10001800 base_k demo_x in
  brk_done mmu.layout 0 (demo_proc 0 process.DEFAULT_HEAP_BREAK) base_k demo_x (round_up 0x10001800) r k' x'.
Proof.
  split; [vm_compute; reflexivity|].
  apply (brk_outcomes mmu.layout 0x10001800 base_k demo_x 0 (demo_proc 0 process.DEFAULT_HEAP_BREAK)
    mmu.layout_ok demo_minv (demo_caller _) (demo_heap 0)).
  unfold process.DEFAULT_HEAP_BREAK, MMAP_BASE. lia.
Defined.
(** ** Where the calls go wrong *)

(** One L2 table left in the pool, and a break one page below a megabyte. *)
Definition tight_x : machine := mk_machine (page.with_mem page.demo ∅) (2 ^ 64 - 2) 1.
Definition tight_k : process.kernel unit := demo_k 0x100FF000.
Definition tight_brk : Z * process.kernel unit * machine := sys_brk mmu.layout 0x10101000 tight_k tight_x.

(** When a page of the growing heap finds no page table, [brk] reports
    failure but keeps the pages it mapped before: the break does not move, a
    frame is gone and stays mapped above the break, and the next [brk] maps a
    second frame over it, so that the first is allocated and mapped nowhere. *)
Theorem brk_leaks_frames :
  let '(r, k', x') := tight_brk in
  r = 0x100FF000 /\ process.current_heap_break k' = 0x100FF000 /\
  page.free_count (pg x') = page.free_count (pg tight_x) - 1 /\
  mmu.walk (ram x') (mmu.user_table_addr mmu.layout 0) 0x100FF000 = mmu.PageMap (page_desc 0x40003000 PROT_RW) /\
  let '(r2, _, x2) := sys_brk mmu.layout 0x10100000 k' x' in
  r2 = 0x10100000 /\ page.free_count (pg x2) = page.free_count (pg tight_x) - 2 /\
  mmu.walk (ram x2) (mmu.user_table_addr mmu.layout 0) 0x100FF000 = mmu.PageMap (page_desc 0x40004000 PROT_RW).
Proof. vm_compute. split_and!; reflexivity. Qed.

(** The end of the candidate region is computed in 32 bits, so a length of
    3.5 GB or more wraps below the limit and every such request is accepted at
    the base of the window, whatever is mapped there. *)
Theorem mmap_length_wraps st i ms x length fuel :
  window st i ms x -> 0xE0000000 <= length < 2 ^ 32 ->
  search (S fuel) ms (page_count length) MMAP_BASE = Some (Some MMAP_BASE).
Proof.
  intros W Hl. cbn [search]. set (e := wrap32 _).
  assert (0 <= e <= MMAP_BASE) as He.
  { unfold e, wrap32, page_count, PAGE_SIZE, page.PAGE_SIZE, MMAP_BASE. lia. }
  assert ((MMAP_LIMIT <? e) = false) as -> by (apply Z.ltb_ge; unfold MMAP_BASE, MMAP_LIMIT in *; lia).
  destruct (overlap ms MMAP_BASE e) as [past|] eqn:E; [|done].
  apply overlap_Some in E as (m & Hm & _ & _ & Hlt). destruct (w_placed _ _ _ _ W m Hm) as (Hb & _). lia.
Qed.

Lemma mmap_length_wraps_witness :
  search (S process.MAX_MAPPINGS) (replicate process.MAX_MAPPINGS None) (page_count 0xE0000000) MMAP_BASE = Some (Some 0x20000000).
Proof. apply (mmap_length_wraps mmu.layout 0 _ demo_x 0xE0000000 process.MAX_MAPPINGS (demo_window 0)). lia. Defined.
End mmap.
