(* ===== verification/Lifetime.v ===== *)
(** * The life of an address space: fork's deep copy and exit's teardown
    ([crates/thumos/src/process.rs])

    Both walk the user pages of a page table: [fork_copy_phase] gives the child
    a fresh frame with the same bytes and the same attributes for every page of
    the parent, [free_user_pages] returns the frames of a dying table. They run
    under the kernel address space, where physical and virtual addresses agree.
    The instruction-cache maintenance of executable copies is not modelled. *)

From S2P Require Import Prelude Machine Page Mmu Memguard Pipe Fd Signal Process Vm.
From Stdlib Require Import ZArith.
Open Scope Z_scope.

Module lifetime.
Import vm.

Definition RAM_START : Z := 0x40000000.
Definition RAM_END : Z := 0x80000000.

(** [copy_nonoverlapping] of [n] bytes. *)
Fixpoint copy_bytes (m : memory) (src dst : Z) (n : nat) : memory :=
  match n with
  | O => m
  | S n => copy_bytes (store8 m dst (load8 m src)) (src + 1) (dst + 1) n
  end.

Definition set_ram (x : machine) (m : memory) : machine := set_pg x (page.with_mem (pg x) m).

Section ops.
Context (st : mmu.statics).

Definition free_user_pages (pt : Z) (x : machine) : machine :=
  (mmu.for_each_user_page (ram x) pt (fun _ phys _ x => (true, free_page phys x)) x).2.

(** The closure of [fork_copy_phase], for one page of the parent. *)
Definition fork_page (child_pt va parent_phys attrs : Z) (x : machine) : bool * machine :=
  if negb ((RAM_START <=? parent_phys) && (parent_phys <? RAM_END)) then (false, x) else
  match alloc_page x with
  | (None, x) => (false, x)
  | (Some child_page, x) =>
      let x := set_ram x (copy_bytes (ram x) parent_phys child_page (Z.to_nat PAGE_SIZE)) in
      match mmu.shatter_section st child_pt va (mm x) with
      | (false, s) => (false, free_page child_page (set_mm x s))
      | (true, s) =>
          match mmu.map_page st child_pt va child_page attrs s with
          | (false, s) => (false, free_page child_page (set_mm x s))
          | (true, s) => (true, set_mm x s)
          end
      end
  end.

Definition fork_copy_phase (parent_pt child_pt : Z) (x : machine) : bool * machine :=
  let '(ok, x) := mmu.for_each_user_page (ram x) parent_pt (fork_page child_pt) x in
  (ok, if ok then x else free_user_pages child_pt x).

(** The address space of a forked child: [table_base] is the kernel L1. *)
Definition fork_space (table_base parent_pt : Z) (x : machine) : option Z * machine :=
  match mmu.alloc_addr_space st (mm x) with
  | (None, s) => (None, set_mm x s)
  | (Some child_pt, s) =>
      let x := set_mm x (mmu.clone_addr_space table_base child_pt s) in
      match fork_copy_phase parent_pt child_pt x with
      | (false, x) => (None, set_mm x (mmu.free_addr_space st child_pt (mm x)).2)
      | (true, x) => (Some child_pt, x)
      end
  end.

(** What exit does to a process's own table. *)
Definition free_space (pt : Z) (x : machine) : machine :=
  let x := free_user_pages pt x in
  set_mm x (mmu.free_addr_space st pt (mm x)).2.
End ops.

(** ** The pages of a table *)

Section theory.
#[local] Ltac Zify.zify_post_hook ::= Z.to_euclidean_division_equations.
Context (st : mmu.statics) (Hst : mmu.statics_ok st).
Implicit Types (x : machine).

#[local] Opaque page.free_set page.MAX_PAGES zero_words.
#[local] Abbreviation minv := (vm.minv st).
#[local] Abbreviation mapped := (vm.mapped st).
#[local] Abbreviation same_maps := (vm.same_maps st).
#[local] Abbreviation in_tables := (vm.in_tables st).
#[local] Abbreviation any_table := (vm.any_table st).

Definition va_of (l1 l2 : Z) : Z := l1 * 2 ^ 20 + l2 * 2 ^ 12.

Lemma va_of_lor l1 l2 : 0 <= l1 -> 0 <= l2 < 256 -> Z.lor (Z.shiftl l1 20) (Z.shiftl l2 12) = va_of l1 l2.
Proof using Type.
  intros H1 H2. unfold va_of. rewrite <- !Z.shiftl_mul_pow2 by lia. symmetry. apply Z.add_nocarry_lor.
  apply Z.bits_inj'. intros b Hb. rewrite Z.land_spec, Z.testbit_0_l. destruct (decide (b < 20)) as [Hlt|Hge].
  - rewrite Z.shiftl_spec_low by lia. done.
  - rewrite (Z.shiftl_spec _ 12) by lia. apply andb_false_iff. right.
    apply Z.bits_above_log2; [lia|]. destruct (decide (l2 = 0)) as [->|]; [cbn; lia|].
    apply Z.log2_lt_pow2; [lia|]. apply Z.lt_le_trans with (2 ^ 8); [lia|]. apply Z.pow_le_mono_r; lia.
Qed.

Lemma va_of_parts l1 l2 :
  0 <= l1 < 4096 -> 0 <= l2 < 256 ->
  is_u32 (va_of l1 l2) /\ mmu.vmb (va_of l1 l2) = l1 /\ mmu.vslot (va_of l1 l2) = l2 /\ mmu.vpage (va_of l1 l2) = l1 * 256 + l2.
Proof using Type. unfold va_of, is_u32, mmu.vmb, mmu.vslot, mmu.vpage. lia. Qed.

Lemma user_not_fault e : mmu.l2_entry_is_user e = true -> mmu.is_fault e = false.
Proof using Type.
  unfold mmu.l2_entry_is_user, mmu.is_fault. rewrite andb_true_iff. intros [H _]. apply Z.eqb_neq. intros H0.
  apply negb_true_iff, Z.eqb_neq in H. apply H. change mmu.page_flags.SMALL_PAGE with (Z.land 3 2).
  by rewrite Z.land_assoc, H0.
Qed.

(** The descriptor of a page, as the walk of a live space sees it. *)
Definition page_entry x (i va e : Z) : Prop :=
  mmu.is_table (mmu.entry st (ram x) i (mmu.vmb va)) = true /\
  load32 (ram x) (mmu.l2_base (mmu.entry st (ram x) i (mmu.vmb va)) + 4 * mmu.vslot va) = e.

Lemma mapped_entry x i va e :
  space_live x i -> is_u32 va -> mapped x i va e <-> page_entry x i va e /\ mmu.l2_entry_is_user e = true.
Proof using Type.
  intros Hl Hva. unfold vm.mapped, page_entry. rewrite mmu.walk_eq. unfold mmu.walk_entry.
  destruct (mmu.is_table _); [|destruct (mmu.is_fault _); naive_solver].
  destruct (mmu.is_fault (load32 _ _)) eqn:Hf; [|naive_solver]. split; [naive_solver|].
  intros [[_ <-] Hu]. by rewrite (user_not_fault _ Hu) in Hf.
Qed.

Lemma elem_of_user_pages_of x i l1 va phys attrs :
  space_live x i -> 0 <= l1 < 4096 ->
  (va, phys, attrs) ∈ mmu.user_pages_of (ram x) (mmu.user_table_addr st i) l1 <->
  exists l2 e, 0 <= l2 < 256 /\ va = va_of l1 l2 /\ mapped x i va e /\ phys = frame_of e /\ attrs = Z.land e 0xFFF.
Proof using Type.
  intros Hl H1. unfold mmu.user_pages_of.
  assert (forall ks, (forall q, q ∈ ks <-> 0 <= q < 256) ->
    (va, phys, attrs) ∈ (if negb (mmu.is_table (load32 (ram x) (mmu.user_table_addr st i + 4 * l1))) then [] else
      omap (fun l2_idx =>
        let entry := load32 (ram x) (mmu.l2_base (load32 (ram x) (mmu.user_table_addr st i + 4 * l1)) + 4 * l2_idx) in
        if mmu.l2_entry_is_user entry then
          Some (Z.lor (Z.shiftl l1 20) (Z.shiftl l2_idx 12), Z.land entry 0xFFFFF000, Z.land entry 0xFFF)
        else None) ks) <->
    exists l2 e, 0 <= l2 < 256 /\ va = va_of l1 l2 /\ mapped x i va e /\ phys = frame_of e /\ attrs = Z.land e 0xFFF) as H;
    [|apply H; intros q; rewrite elem_of_seqZ; lia].
  intros ks Hks. split.
  - destruct (mmu.is_table _) eqn:Ht; cbn [negb]; [|by intros ?%not_elem_of_nil].
    intros (l2 & H2%Hks & Hin)%list_elem_of_omap.
    destruct (mmu.l2_entry_is_user _) eqn:Hu; [|done]. injection Hin as <- <- <-.
    destruct (va_of_parts l1 l2 H1 H2) as (Hv & Hmb & Hsl & _).
    exists l2, (load32 (ram x) (mmu.l2_base (load32 (ram x) (mmu.user_table_addr st i + 4 * l1)) + 4 * l2)).
    rewrite va_of_lor by lia. split_and!; try done; try lia. apply mapped_entry; [done|done|].
    unfold page_entry, mmu.entry. by rewrite Hmb, Hsl.
  - intros (l2 & e & H2 & -> & Hm & -> & ->).
    destruct (va_of_parts l1 l2 H1 H2) as (Hv & Hmb & Hsl & _). apply mapped_entry in Hm as [[Ht He] Hu]; [|done|done].
    unfold mmu.entry in *. rewrite Hmb in Ht, He. rewrite Hsl in He. rewrite Ht. cbn [negb].
    apply list_elem_of_omap. exists l2. split; [by apply Hks|]. by rewrite He, Hu, va_of_lor by lia.
Qed.

Lemma elem_of_user_pages x i va phys attrs :
  space_live x i ->
  (va, phys, attrs) ∈ mmu.user_pages (ram x) (mmu.user_table_addr st i) <->
  exists e, mapped x i va e /\ va mod 4096 = 0 /\ phys = frame_of e /\ attrs = Z.land e 0xFFF.
Proof using Type.
  intros Hl. unfold mmu.user_pages.
  assert (forall K, (forall q, q ∈ K <-> 0 <= q < 4096) ->
    (va, phys, attrs) ∈ (l1_idx ← K; mmu.user_pages_of (ram x) (mmu.user_table_addr st i) l1_idx) <->
    exists e, mapped x i va e /\ va mod 4096 = 0 /\ phys = frame_of e /\ attrs = Z.land e 0xFFF) as H;
    [|apply H; intros q; rewrite elem_of_seqZ; lia].
  intros K HK. rewrite list_elem_of_bind. split.
  - intros (l1 & Hin & H1%HK). apply elem_of_user_pages_of in Hin as (l2 & e & H2 & Hva & Hm & Hp & Ha); [|done|done].
    exists e. split_and!; try done. rewrite Hva. unfold va_of. lia.
  - intros (e & Hm & Hal & -> & ->). pose proof Hm as (_ & Hva & _). exists (mmu.vmb va).
    pose proof (mmu.vmb_range va Hva) as Hr. pose proof (mmu.vslot_range va). split; [|by apply HK].
    apply elem_of_user_pages_of; [done|done|]. exists (mmu.vslot va), e. split_and!; [lia|lia| |done|done|done].
    unfold va_of, mmu.vmb, mmu.vslot. lia.
Qed.

Lemma user_pages_NoDup x i : space_live x i -> NoDup (mmu.user_pages (ram x) (mmu.user_table_addr st i)).
Proof using Type.
  intros Hl. unfold mmu.user_pages.
  assert (forall K, NoDup K -> (forall q, q ∈ K -> 0 <= q < 4096) ->
    NoDup (l1_idx ← K; mmu.user_pages_of (ram x) (mmu.user_table_addr st i) l1_idx)) as H;
    [|apply H; [apply NoDup_seqZ|intros q; rewrite elem_of_seqZ; lia]].
  intros K HK Hr. apply NoDup_bind; [| |done].
  - intros l1 l1' [[va phys] attrs] H1%Hr H1'%Hr (l2 & e & H2 & -> & _)%elem_of_user_pages_of
      (l2' & e' & H2' & Hva & _)%elem_of_user_pages_of; [|done..]. unfold va_of in Hva. lia.
  - intros l1 H1%Hr. unfold mmu.user_pages_of. destruct (negb _); [constructor|].
    apply NoDup_omap; [|apply NoDup_seqZ]. intros q q' t Hq%elem_of_seqZ Hq'%elem_of_seqZ E E'.
    destruct (mmu.l2_entry_is_user _); [|done]. destruct (mmu.l2_entry_is_user _); [|done].
    injection E as <-. injection E' as E' _ _. rewrite !va_of_lor in E' by lia. unfold va_of in E'. lia.
Qed.

(** ** Giving frames back *)

Lemma free_page_other x ph :
  minv x -> (forall p, 0 <= p < page.MAX_PAGES -> ph <> frame x p) -> free_page ph x = x.
Proof using Type.
  intros Hx Hne. unfold free_page, page.free_page.
  destruct (page.try_free_page_spec (pg x) ph (mi_page _ x Hx)) as [(p & s' & (Hp & _ & H0 & H1 & _) & _)|[_ ->]].
  - by destruct (Hne p ltac:(lia)).
  - apply set_pg_id.
Qed.

(** Frames go back to the allocator; no page of a live space changes. *)
Record released x x' (L : list Z) : Prop := {
  re_inv : minv x';
  re_settled : settled st x x';
  re_tables : forall a, any_table a -> load8 (ram x') a = load8 (ram x) a;
  re_maps : same_maps x x';
  re_masks : l2_alloc x' = l2_alloc x;
  re_frames : forall p, p ∈ frames x' <-> p ∈ frames x \/ (0 <= p < page.MAX_PAGES /\ frame x p ∈ L);
}.

Lemma released_nil x : minv x -> released x x [].
Proof using Type.
  intros Hx. constructor; try done; [apply settled_refl|]. intros p. split; [by left|].
  intros [?|[_ Hp]]; [done|by apply not_elem_of_nil in Hp].
Qed.

Lemma released_one x ph :
  minv x -> (forall p, 0 <= p < page.MAX_PAGES -> ph = frame x p -> loose st x p) -> released x (free_page ph x) [ph].
Proof using Hst.
  intros Hx Hl. destruct (page.frame_addr_dec (pg x) ph) as [(p & Hp & ->)|Hno].
  - destruct (Hl p Hp eq_refl) as (Hm & Hnf & Hun).
    destruct (free_ok st Hst x p Hx Hm Hnf Hun) as (Hx' & F & G & A & S & Hload).
    fold (frame x p). constructor; [done| | |done|done|].
    + split_and!; [rewrite F; apply union_subseteq_l|done|done|]. intros a _. rewrite Hload. case_decide; [right|by left].
      exists p. split; [|done]. rewrite F. apply elem_of_union_r. by apply elem_of_singleton.
    + intros a Ha. rewrite Hload, decide_False; [done|]. intros Hin. by apply (mi_far _ x Hx p a Hm Hin).
    + intros q. rewrite F, elem_of_union, elem_of_singleton, list_elem_of_singleton. split.
      * intros [?| ->]; [by left|by right].
      * intros [?|[_ Hq]]; [by left|right]. by apply (frame_inj x).
  - rewrite (free_page_other x ph Hx Hno). constructor; try done; [apply settled_refl|]. intros q.
    rewrite list_elem_of_singleton. split; [by left|]. intros [?|[Hq Hf]]; [done|]. by destruct (Hno q Hq).
Qed.

Lemma loose_released x y L p ph :
  released x y L -> ph ∉ L -> ph = frame x p -> loose st x p -> loose st y p.
Proof using Type.
  intros R Hn -> (Hm & Hnf & Hun). destruct (re_settled _ _ _ R) as (_ & G & _). split_and!.
  - by apply (geo_managed x).
  - rewrite (re_frames _ _ _ R). tauto.
  - intros i va e Hma%(re_maps _ _ _ R). rewrite (geo_frame x) by done. by apply Hun in Hma.
Qed.

Lemma released_trans x y z L L' : released x y L -> released y z L' -> released x z (L ++ L').
Proof using Type.
  intros R1 R2. destruct (re_settled _ _ _ R1) as (_ & G & _). constructor.
  - apply R2.
  - eapply settled_trans; [apply R1|apply R2].
  - intros a Ha. rewrite (re_tables _ _ _ R2) by done. by apply (re_tables _ _ _ R1).
  - intros i va e. rewrite (re_maps _ _ _ R2 i va e). apply R1.
  - rewrite (re_masks _ _ _ R2). apply R1.
  - intros p. rewrite (re_frames _ _ _ R2), (re_frames _ _ _ R1), (geo_frame x y), elem_of_app by done. tauto.
Qed.

Lemma free_list_ok L x :
  minv x -> NoDup L -> (forall ph p, ph ∈ L -> 0 <= p < page.MAX_PAGES -> ph = frame x p -> loose st x p) ->
  released x (foldl (fun x ph => free_page ph x) x L) L.
Proof using Hst.
  intros Hx. induction L as [|ph L IH] using rev_ind; intros Hnd Hl; [by apply released_nil|].
  apply NoDup_app in Hnd as (Hnd & Hno & _).
  specialize (IH Hnd (fun ph' p Hin => Hl ph' p (proj2 (elem_of_app L [ph] ph') (or_introl Hin)))).
  rewrite foldl_app. cbn [foldl]. eapply released_trans; [exact IH|].
  destruct (re_settled _ _ _ IH) as (_ & G & _). apply released_one; [apply IH|].
  intros p Hp Hph. rewrite (geo_frame x) in Hph by done.
  apply (loose_released x _ L p ph IH); [|done|apply (Hl ph); [apply elem_of_app; right; by apply list_elem_of_singleton|done|done]].
  intros Hin. apply (Hno ph Hin). by apply list_elem_of_singleton.
Qed.
(** ** Destroying an address space *)

Definition retire (i : Z) x : machine := mk_machine (pg x) (l2_alloc x) (Z.ldiff (space_alloc x) (Z.shiftl 1 i)).

Lemma live_retire i x j : 0 <= i < 16 -> space_live (retire i x) j <-> j <> i /\ space_live x j.
Proof using Type.
  intros Hi. unfold space_live, mmu.live. cbn [mm retire space_alloc mmu.ADDR_SPACE_ALLOC]. split.
  - intros [Hj Hb]. rewrite mmu.mask_clear in Hb by lia. case_bool_decide; [done|]. done.
  - intros (Hne & Hj & Hb). split; [done|]. rewrite mmu.mask_clear by lia. rewrite bool_decide_false by done. done.
Qed.

Lemma mapped_retire i x j va e : 0 <= i < 16 -> mapped (retire i x) j va e <-> j <> i /\ mapped x j va e.
Proof using Type. intros Hi. unfold vm.mapped. rewrite live_retire by done. change (ram (retire i x)) with (ram x). tauto. Qed.

Lemma minv_masks x y :
  minv x -> pg y = pg x -> mmu.wf st (mm y) -> (forall i va e, mapped y i va e -> mapped x i va e) -> minv y.
Proof using Type.
  intros Hx Hp Hwf Hm. assert (ram y = ram x) as Hr by (unfold ram; by rewrite Hp).
  assert (frames y = frames x) as Hf by (unfold frames; by rewrite Hp).
  constructor; try (rewrite ?Hp; apply Hx); try done.
  - intros p. unfold frames, managed. rewrite Hp. apply (mi_free _ x Hx).
  - intros p. unfold managed. rewrite Hp. apply (mi_managed _ x Hx).
  - intros p a. unfold managed, frame. rewrite Hp. apply (mi_far _ x Hx).
  - rewrite Hr. apply Hx.
  - intros i va e p H%Hm. unfold managed, frame, frames. rewrite Hp. exact (mi_own _ x Hx i va e p H).
  - intros i va e i' va' e' H%Hm H'%Hm. exact (mi_inj _ x Hx i va e i' va' e' H H').
  - intros p a. unfold frame, frames. rewrite Hp, Hr. apply (mi_clean _ x Hx).
Qed.

Lemma minv_retire i x : minv x -> 0 <= i < 16 -> minv (retire i x).
Proof using Type.
  intros Hx Hi. apply (minv_masks x); [done|done| |by intros j va e [_ ?]%mapped_retire].
  apply (mmu.wf_same_entries st (mm x)); [apply Hx| |done|done].
  intros j Hj. exact (proj2 (proj1 (live_retire i x j Hi) Hj)).
Qed.

Lemma with_mem_id x : page.with_mem (pg x) (mmu.mem (mm x)) = pg x.
Proof using Type. by destruct x as [[] ? ?]. Qed.

Lemma visit_frees ps x :
  mmu.visit (fun _ phys _ x => (true, free_page phys x)) ps x =
  (true, foldl (fun x ph => free_page ph x) x ((fun t => t.1.2) <$> ps)).
Proof using Type. revert x. induction ps as [|[[va ph] at_] ps IH]; intros x; cbn [mmu.visit]; [done|apply IH]. Qed.

Lemma frees_masks L x i :
  foldl (fun x ph => free_page ph x) (retire i x) L = retire i (foldl (fun x ph => free_page ph x) x L) /\
  l2_alloc (foldl (fun x ph => free_page ph x) x L) = l2_alloc x /\
  space_alloc (foldl (fun x ph => free_page ph x) x L) = space_alloc x.
Proof using Type. revert x. induction L as [|ph L IH]; intros x; [done|]. cbn [foldl]. exact (IH (free_page ph x)). Qed.

(** Space [i] is gone, its frames are free, and the rest is as it was. *)
Record retired x x' (i : Z) : Prop := {
  rt_inv : minv x';
  rt_geo : geo x x';
  rt_mask : space_alloc x' = Z.ldiff (space_alloc x) (Z.shiftl 1 i);
  rt_live : forall j, space_live x' j <-> j <> i /\ space_live x j;
  rt_maps : forall j va e, mapped x' j va e <-> j <> i /\ mapped x j va e;
  rt_frames : forall p, p ∈ frames x' <-> p ∈ frames x \/
    (0 <= p < page.MAX_PAGES /\ exists va e, mapped x i va e /\ frame_of e = frame x p);
  rt_load : forall a, ~ in_tables a -> load8 (ram x') a = load8 (ram x) a \/
    exists p, p ∈ frames x' /\ frame x p <= a < frame x p + 4096;
}.

(** The frames of the pages of space [i], once it is retired. *)
Lemma space_frames x i :
  minv x -> space_live x i -> let L := (fun t => t.1.2) <$> mmu.user_pages (ram x) (mmu.user_table_addr st i) in
  NoDup L /\ (forall ph, ph ∈ L <-> exists va e, mapped x i va e /\ ph = frame_of e) /\
  forall ph p, ph ∈ L -> 0 <= p < page.MAX_PAGES -> ph = frame (retire i x) p -> loose st (retire i x) p.
Proof using Type.
  intros Hx Hl L. pose proof (proj1 Hl) as Hi.
  assert (forall ph, ph ∈ L <-> exists va e, mapped x i va e /\ ph = frame_of e) as HL.
  { intros ph. unfold L. rewrite list_elem_of_fmap. split.
    - intros ([[va ph'] at_] & -> & (e & Hm & _ & -> & _)%elem_of_user_pages); [|done]. by exists va, e.
    - intros (va & e & Hm & ->). pose proof Hm as (_ & Hva & _). unfold is_u32 in Hva.
      exists (va / 4096 * 4096, frame_of e, Z.land e 0xFFF). split; [done|]. apply elem_of_user_pages; [done|].
      exists e. split_and!; [|lia|done|done]. apply (mapped_page st x i va); [done|unfold is_u32; lia|unfold mmu.vpage; lia]. }
  split_and!; [|done|].
  - apply NoDup_fmap_2_strong; [|by apply user_pages_NoDup].
    intros [[va ph] at_] [[va' ph'] at'] (e & Hm & Ha & Hp & Hat)%elem_of_user_pages (e' & Hm' & Ha' & Hp' & Hat')%elem_of_user_pages Heq;
      [|done..]. cbn in Heq. destruct (mi_inj _ x Hx i va e i va' e' Hm Hm') as [_ Hv]; [congruence|].
    assert (va = va') as <- by (unfold mmu.vpage in Hv; lia). assert (e = e') as <- by (by eapply mapped_fun). congruence.
  - intros ph p (va & e & Hm & ->)%HL Hp Hf. change (frame (retire i x) p) with (frame x p) in Hf.
    destruct (mi_own _ x Hx i va e p Hm Hp Hf) as [Hmp Hnf]. split_and!; [done|done|].
    intros j va' e' [Hne Hm']%mapped_retire Hf'; [|done]. apply Hne.
    by destruct (mi_inj _ x Hx j va' e' i va e Hm' Hm) as [-> _]; [change (frame (retire i x) p) with (frame x p) in Hf'; congruence|].
Qed.

Lemma free_space_mask s i :
  0 <= i < 16 -> mmu.ADDR_SPACE_ALLOC (mmu.free_addr_space st (mmu.user_table_addr st i) s).2 = Z.ldiff (mmu.ADDR_SPACE_ALLOC s) (Z.shiftl 1 i).
Proof using Type.
  intros Hi. rewrite mmu.free_addr_space_eq by done. generalize (seqZ 0 4096). intros ks. cbn [snd mmu.set_as_alloc mmu.ADDR_SPACE_ALLOC].
  by destruct (mmu.free_l2_tables_used st (mmu.user_table_addr st i) ks s) as (_ & -> & _).
Qed.

(** Frames were freed while space [i] still mapped them, and then the space went. *)
Lemma close_ok x x1 i L :
  minv x -> space_live x i -> released (retire i x) (retire i x1) L -> l2_alloc x1 = l2_alloc x -> space_alloc x1 = space_alloc x ->
  let x' := set_mm x1 (mmu.free_addr_space st (mmu.user_table_addr st i) (mm x1)).2 in
  minv x' /\ geo x x' /\ space_alloc x' = Z.ldiff (space_alloc x) (Z.shiftl 1 i) /\
  (forall j, space_live x' j <-> j <> i /\ space_live x j) /\
  (forall j va e, mapped x' j va e <-> j <> i /\ mapped x j va e) /\
  (forall p, p ∈ frames x' <-> p ∈ frames x \/ (0 <= p < page.MAX_PAGES /\ frame x p ∈ L)) /\
  (forall a, ~ in_tables a -> load8 (ram x') a = load8 (ram x) a \/ exists p, p ∈ frames x' /\ frame x p <= a < frame x p + 4096).
Proof using Hst.
  intros Hx Hl R El Ea. pose proof (proj1 Hl) as Hi.
  destruct (re_settled _ _ _ R) as (_ & Hg & _ & Hload).
  assert (forall a, any_table a -> load8 (ram x1) a = load8 (ram x) a) as Htab by exact (re_tables _ _ _ R).
  assert (mmu.wf st (mm x1)) as Hwf1.
  { pose proof (wf_scrub st Hst x (ram x1) Hx Htab) as Hw. unfold mm. by rewrite El, Ea. }
  assert (space_live x1 i) as Hl1 by (by apply (live_alloc x)).
  destruct (mmu.free_addr_space_ok st Hst (mm x1) i Hwf1 Hl1) as (s' & Es & Hwf & Hmem & Hlive & _).
  pose proof (free_space_mask (mm x1) i Hi) as Hmask. rewrite Es in *. cbn [snd mm mmu.ADDR_SPACE_ALLOC] in *. set (x' := set_mm x1 s').
  assert (pg x' = pg x1) as Hpg by (unfold x', set_mm; cbn [pg]; rewrite Hmem; apply with_mem_id).
  assert (ram x' = ram x1) as Hram by (unfold ram; by rewrite Hpg).
  assert (frames x' = frames (retire i x1)) as Hfr by (unfold frames; by rewrite Hpg).
  assert (forall j, space_live x' j <-> j <> i /\ space_live x j) as Hlj.
  { intros j. unfold space_live at 1, x'. rewrite mm_set_mm. rewrite Hlive. pose proof (live_alloc x x1 j Ea) as Hla. tauto. }
  assert (forall j va e, mapped x' j va e <-> mapped (retire i x1) j va e) as Hmap.
  { intros j va e. unfold vm.mapped. rewrite Hlj, live_retire, Hram by done.
    change (ram (retire i x1)) with (ram x1). pose proof (live_alloc x x1 j Ea) as Hla. tauto. }
  split_and!.
  - apply (minv_masks (retire i x1)); [apply R|exact Hpg| |by intros j va e ?%Hmap]. unfold x'. by rewrite mm_set_mm.
  - unfold geo in *. rewrite Hpg. exact Hg.
  - rewrite <- Ea. exact Hmask.
  - done.
  - intros j va e. rewrite Hmap, (re_maps _ _ _ R j va e). by apply mapped_retire.
  - intros p. rewrite Hfr. exact (re_frames _ _ _ R p).
  - intros a Ha. rewrite Hram, Hfr. exact (Hload a Ha).
Qed.

Lemma free_space_ok x i :
  minv x -> space_live x i -> retired x (free_space st (mmu.user_table_addr st i) x) i.
Proof using Hst.
  intros Hx Hl. pose proof (proj1 Hl) as Hi. unfold free_space, free_user_pages, mmu.for_each_user_page.
  rewrite visit_frees. cbn [snd]. destruct (space_frames x i Hx Hl) as (Hnd & HL & Hloose).
  set (L := (fun t : Z * Z * Z => t.1.2) <$> _) in *.
  pose proof (free_list_ok L (retire i x) (minv_retire i x Hx Hi) Hnd Hloose) as R.
  destruct (frees_masks L x i) as (E & El & Ea). rewrite E in R.
  destruct (close_ok x _ i L Hx Hl R El Ea) as (H1 & H2 & H3 & H4 & H5 & H6 & H7). constructor; try done.
  intros p. rewrite H6, HL. split; (intros [?|[Hp (va & e & Hm & He)]]; [by left|right; split; [done|by exists va, e]]).
Qed.
(** ** A new address space *)

(** The kernel L1: outside the user tables, with page tables only for the
    kernel image, whose pages are the kernel's. *)
Record kernel_l1 (tb : Z) (m : memory) : Prop := {
  kl_align : tb mod 4 = 0;
  kl_apart : forall a, tb <= a < tb + 16384 -> ~ in_tables a;
  kl_tables : forall k, 0 <= k < 4096 -> mmu.is_table (load32 m (tb + 4 * k)) = true ->
    mmu.kernel_mb k /\ mmu.l2_base (load32 m (tb + 4 * k)) = mmu.KERNEL_L2 st + 1024 * (k - 1024);
  kl_pages : forall q, 0 <= q < 512 -> mmu.l2_entry_is_user (load32 m (mmu.KERNEL_L2 st + 4 * q)) = false;
}.

Lemma clone_load src dst ks m a :
  bytes m -> src mod 4 = 0 -> dst mod 4 = 0 -> a mod 4 = 0 -> NoDup ks ->
  (forall k, k ∈ ks -> 0 <= k < 4096) -> (src + 16384 <= dst \/ dst + 16384 <= src) ->
  load32 (mmu.clone_addr_space_from src dst ks m) a =
    if decide ((a - dst) / 4 ∈ ks /\ dst <= a) then load32 m (src + (a - dst)) else load32 m a.
Proof using Type.
  intros Hb Hs Hd Ha. revert m Hb. induction ks as [|k ks IH]; intros m Hb Hnd Hks Hdis; cbn [mmu.clone_addr_space_from].
  { rewrite decide_False; [done|]. by intros [?%not_elem_of_nil _]. }
  apply NoDup_cons in Hnd as [Hni Hnd]. pose proof (Hks k ltac:(left)) as Hk.
  assert (is_u32 (load32 m (src + 4 * k))) as Hu by (by apply load32_range).
  rewrite IH; [|by apply bytes_store32|done|intros; apply Hks; by right|done].
  destruct (decide ((a - dst) / 4 ∈ ks /\ dst <= a)) as [[Hin Hge]|Hn].
  - rewrite decide_True by (split; [by right|done]). pose proof (Hks _ ltac:(right; exact Hin)).
    rewrite mmu.load_store_word, decide_False by (done || lia). done.
  - rewrite mmu.load_store_word by (done || lia). destruct (decide (dst + 4 * k = a)) as [<-|Hne].
    + rewrite decide_True; [f_equal; lia|]. replace ((dst + 4 * k - dst) / 4) with k by lia. split; [left|lia].
    + rewrite decide_False; [done|]. intros [[Hk'|Hin]%elem_of_cons Hge]; [lia|tauto].
Qed.

Lemma clone_quiet src j ks m :
  0 <= j < 16 -> (forall k, k ∈ ks -> 0 <= k < 4096) ->
  quiet st m (mmu.clone_addr_space_from src (mmu.user_table_addr st j) ks m).
Proof using Hst.
  intros Hj. revert m. induction ks as [|k ks IH]; intros m Hks; cbn [mmu.clone_addr_space_from]; [apply quiet_refl|].
  eapply quiet_trans; [apply (quiet_store_l1 st Hst m j k); [done|apply Hks; left]|]. apply IH. intros; apply Hks; by right.
Qed.

Section clone.
Context (s : mmu.state) (j tb : Z) (ks : list Z).
Context (Hwf : mmu.wf st s) (Hj : mmu.live s j) (Hb : bytes (mmu.mem s)) (Hkl : kernel_l1 tb (mmu.mem s)).
Context (Hks : forall k, k ∈ ks <-> 0 <= k < 4096) (Hnd : NoDup ks).

Let m' := mmu.clone_addr_space_from tb (mmu.user_table_addr st j) ks (mmu.mem s).

Lemma clone_apart : tb + 16384 <= mmu.user_table_addr st j \/ mmu.user_table_addr st j + 16384 <= tb.
Proof using Hst Hj Hkl.
  pose proof (mmu.user_addr_bounds st Hst j 0 (proj1 Hj) ltac:(lia)) as (_ & H1 & _).
  pose proof (mmu.user_addr_bounds st Hst j 4095 (proj1 Hj) ltac:(lia)) as (_ & _ & H2).
  destruct (decide (tb + 16384 <= mmu.user_table_addr st j)); [by left|right].
  destruct (decide (mmu.user_table_addr st j + 16384 <= tb)); [done|exfalso].
  apply (kl_apart _ _ Hkl (Z.max tb (mmu.user_table_addr st j))); [lia|]. right. lia.
Qed.

Lemma clone_word a : a mod 4 = 0 ->
  load32 m' a = if decide (mmu.user_table_addr st j <= a < mmu.user_table_addr st j + 16384)
    then load32 (mmu.mem s) (tb + (a - mmu.user_table_addr st j)) else load32 (mmu.mem s) a.
Proof using Hst Hj Hb Hkl Hks Hnd.
  intros Ha. pose proof (mmu.user_addr_bounds st Hst j 0 (proj1 Hj) ltac:(lia)) as (Hal & _).
  unfold m'. rewrite clone_load; [|done|apply Hkl|lia|done|done|intros; by apply Hks|apply clone_apart].
  destruct (decide (mmu.user_table_addr st j <= a < _)) as [Hin|Hn].
  - rewrite decide_True; [done|]. split; [apply Hks; lia|lia].
  - rewrite decide_False; [done|]. rewrite Hks. lia.
Qed.

Lemma clone_entry i k : 0 <= i < 16 -> 0 <= k < 4096 ->
  mmu.entry st m' i k = if decide (i = j) then load32 (mmu.mem s) (tb + 4 * k) else mmu.entry st (mmu.mem s) i k.
Proof using Hst Hj Hb Hkl Hks Hnd.
  intros Hi Hk. unfold mmu.entry. pose proof (mmu.user_addr_bounds st Hst i k Hi Hk) as (Hal & _).
  rewrite clone_word by done. unfold mmu.user_table_addr in *. destruct (decide (i = j)) as [->|Hne].
  - rewrite decide_True by lia. f_equal. lia.
  - rewrite decide_False by lia. done.
Qed.

Lemma clone_wf : mmu.wf st (mmu.set_mem s m').
Proof using Hst Hwf Hj Hb Hkl Hks Hnd.
  constructor.
  - intros i k [Hi Hl] Hk. cbn [mmu.mem mmu.set_mem]. rewrite clone_entry by done. destruct (decide (i = j)) as [->|Hne].
    + intros Ht. right. by apply (kl_tables _ _ Hkl).
    + by apply (mmu.wf_table st s Hwf).
  - intros i k i' k' q [Hi Hl] [Hi' Hl'] Hk Hk' Hq. cbn [mmu.mem mmu.set_mem]. rewrite !clone_entry by done.
    assert (forall k, 0 <= k < 4096 -> mmu.is_table (load32 (mmu.mem s) (tb + 4 * k)) = true ->
      mmu.l2_base (load32 (mmu.mem s) (tb + 4 * k)) = mmu.l2_table_addr st q -> False) as Hno.
    { intros k0 Hk0 Ht E. destruct (kl_tables _ _ Hkl k0 Hk0 Ht) as [Hkm Hbase]. rewrite Hbase in E.
      pose proof (mmu.l2_addr_bounds st Hst q Hq). destruct Hst as [_ _ _ _ Hd _]. unfold mmu.kernel_mb in Hkm. lia. }
    destruct (decide (i = j)); [intros Ht E; by destruct (Hno k Hk Ht E)|].
    destruct (decide (i' = j)); [intros _ _ Ht E; by destruct (Hno k' Hk' Ht E)|]. by apply (mmu.wf_inj st s Hwf).
Qed.

(** The other spaces see what they saw; the new one has no page of its own. *)
Lemma clone_walk i va :
  mmu.live s i -> is_u32 va ->
  if decide (i = j) then forall e, mmu.walk m' (mmu.user_table_addr st i) va = mmu.PageMap e -> mmu.l2_entry_is_user e = false
  else mmu.walk m' (mmu.user_table_addr st i) va = mmu.walk (mmu.mem s) (mmu.user_table_addr st i) va.
Proof using Hst Hwf Hj Hb Hkl Hks Hnd.
  intros Hi Hva. pose proof (mmu.vmb_range va Hva) as Hk. pose proof (mmu.vslot_range va) as Hq.
  rewrite !mmu.walk_eq, clone_entry by (done || apply Hi).
  pose proof (mmu.user_addr_bounds st Hst j 0 (proj1 Hj) ltac:(lia)) as (_ & Hlo & _).
  pose proof (mmu.user_addr_bounds st Hst j 4095 (proj1 Hj) ltac:(lia)) as (_ & _ & Hhi).
  destruct (decide (i = j)) as [->|Hne].
  - intros e. unfold mmu.walk_entry. destruct (mmu.is_table _) eqn:Ht; [|by destruct (mmu.is_fault _)].
    destruct (kl_tables _ _ Hkl (mmu.vmb va) Hk Ht) as [Hkm ->]. unfold mmu.kernel_mb in Hkm.
    destruct Hst as [Hka _ _ _ _ Hd3]. rewrite clone_word by lia. rewrite decide_False by lia.
    replace (mmu.KERNEL_L2 st + 1024 * (mmu.vmb va - 1024) + 4 * mmu.vslot va)
      with (mmu.KERNEL_L2 st + 4 * (256 * (mmu.vmb va - 1024) + mmu.vslot va)) by ring.
    destruct (mmu.is_fault _); [done|]. intros [= <-]. apply (kl_pages _ _ Hkl). lia.
  - apply mmu.walk_entry_ext. intros Ht. destruct Hst as [Hka _ _ Hd1 _ Hd3].
    destruct (mmu.wf_table st s Hwf i (mmu.vmb va) Hi Hk Ht) as [(q & [Hqr _] & ->)|[Hkm ->]].
    + pose proof (mmu.l2_addr_bounds st Hst q Hqr) as (Hal & H1 & H2). rewrite clone_word, decide_False by lia. done.
    + unfold mmu.kernel_mb in Hkm. rewrite clone_word, decide_False by lia. done.
Qed.
End clone.

(** [x'] is [x] with the empty space [j] added. *)
Record opened x x' (j : Z) : Prop := {
  op_inv : minv x';
  op_fresh : ~ space_live x j;
  op_live : forall i, space_live x' i <-> i = j \/ space_live x i;
  op_mask : space_alloc x' = Z.lor (space_alloc x) (Z.shiftl 1 j);
  op_maps : same_maps x x';
  op_quiet : quiet st (ram x) (ram x');
  op_frames : frames x' = frames x;
  op_geo : geo x x';
}.

Lemma quiet_zero_space m j : 0 <= j < 16 -> quiet st m (zero_words m (mmu.user_table_addr st j) 4096).
Proof using Hst.
  intros Hj. apply quiet_zero. intros b Hb. right.
  pose proof (mmu.user_addr_bounds st Hst j 0 Hj ltac:(lia)) as (_ & H1 & _).
  pose proof (mmu.user_addr_bounds st Hst j 4095 Hj ltac:(lia)) as (_ & _ & H2).
  replace (Z.of_nat 4096) with 4096 in Hb by reflexivity. lia.
Qed.
Lemma kernel_l1_zeroed tb m j :
  kernel_l1 tb m -> 0 <= j < 16 -> kernel_l1 tb (zero_words m (mmu.user_table_addr st j) 4096).
Proof using Hst.
  intros H Hj. pose proof (mmu.user_addr_bounds st Hst j 0 Hj ltac:(lia)) as (Hal & Hlo & _).
  pose proof (mmu.user_addr_bounds st Hst j 4095 Hj ltac:(lia)) as (_ & _ & Hhi). destruct Hst as [Hk _ _ _ _ Hd].
  assert (forall a, a mod 4 = 0 -> a + 4 <= mmu.USER_TABLES st \/ mmu.USER_TABLES st + 262144 <= a ->
    load32 (zero_words m (mmu.user_table_addr st j) 4096) a = load32 m a) as Hout.
  { intros a Ha Hout. rewrite mmu.load_zero_words, decide_False; [done|replace (Z.of_nat 4096) with 4096 by reflexivity; lia|lia|done]. }
  assert (forall k, 0 <= k < 4096 -> load32 (zero_words m (mmu.user_table_addr st j) 4096) (tb + 4 * k) = load32 m (tb + 4 * k)) as Htb.
  { intros k Hkr. pose proof (kl_align _ _ H). apply Hout; [lia|].
    destruct (decide (tb + 4 * k + 4 <= mmu.USER_TABLES st)); [by left|right].
    destruct (decide (mmu.USER_TABLES st + 262144 <= tb + 4 * k)); [done|exfalso].
    apply (kl_apart _ _ H (Z.max (tb + 4 * k) (mmu.USER_TABLES st))); [lia|]. right. lia. }
  constructor; try apply H.
  - intros k Hkr. rewrite Htb by done. by apply (kl_tables _ _ H).
  - intros q Hq. rewrite Hout by lia. by apply (kl_pages _ _ H).
Qed.

Lemma alloc_space_table s a s' :
  mmu.alloc_addr_space st s = (Some a, s') -> exists j, a = mmu.user_table_addr st j /\
    (bytes (mmu.mem s) -> bytes (mmu.mem s')) /\ (forall tb, kernel_l1 tb (mmu.mem s) -> kernel_l1 tb (mmu.mem s')) /\
    quiet st (mmu.mem s) (mmu.mem s') /\ mmu.ADDR_SPACE_ALLOC s' = Z.lor (mmu.ADDR_SPACE_ALLOC s) (Z.shiftl 1 j).
Proof using Hst.
  unfold mmu.alloc_addr_space. pose proof (mmu.find_clear_spec (mmu.ADDR_SPACE_ALLOC s) 16 ltac:(lia)) as Hf.
  destruct (mmu.find_clear _ _) as [j|]; [|discriminate]. intros E. exists j.
  pose proof (f_equal fst E) as E1. pose proof (f_equal (fun r => mmu.mem r.2) E) as E2.
  pose proof (f_equal (fun r => mmu.ADDR_SPACE_ALLOC r.2) E) as E3. clear E.
  cbn [fst snd mmu.set_mem mmu.set_as_alloc mmu.mem mmu.ADDR_SPACE_ALLOC] in E1, E2, E3. injection E1 as <-. rewrite <- E2, <- E3.
  split; [reflexivity|]. split; [apply bytes_zero_words|]. split; [|split; [apply quiet_zero_space; lia|reflexivity]].
  intros tb H. apply kernel_l1_zeroed; [exact H|lia].
Qed.

Lemma open_ok x tb :
  minv x -> kernel_l1 tb (ram x) ->
  match mmu.alloc_addr_space st (mm x) with
  | (None, s) => s = mm x
  | (Some a, s) => exists j, a = mmu.user_table_addr st j /\ opened x (set_mm x (mmu.clone_addr_space tb a s)) j
  end.
Proof using Hst.
  intros Hx Hkl. pose proof (mmu.alloc_addr_space_ok st Hst (mm x) (mi_wf _ x Hx)) as Hal.
  pose proof (alloc_space_table (mm x)) as Hmem.
  destruct (mmu.alloc_addr_space st (mm x)) as [[a|] s]; [|by destruct Hal].
  destruct Hal as (j & Ha & Hj & Hnl & Hlive & Hwf & Hwalk). exists j. split; [done|].
  destruct (Hmem a s eq_refl) as (j' & Ha' & Hb' & Hkl' & Hqs & Hmask). assert (j' = j) as -> by (unfold mmu.user_table_addr in *; lia).
  clear Hmem Ha'. subst a. assert (mmu.live s j) as Hjl by (apply Hlive; by left).
  specialize (Hb' (mi_bytes _ x Hx)). specialize (Hkl' tb Hkl). rename Hb' into Hb.
  assert (forall k, k ∈ seqZ 0 4096 <-> 0 <= k < 4096) as Hks by (intros k; rewrite elem_of_seqZ; lia).
  pose proof (NoDup_seqZ 0 4096) as Hnd. unfold mmu.clone_addr_space.
  generalize dependent (seqZ 0 4096). intros ks Hks Hnd.
  set (s' := mmu.set_mem s _). pose proof (clone_wf s j tb ks Hwf Hjl Hb Hkl' Hks Hnd) as Hwf'. fold s' in Hwf'.
  assert (quiet st (ram x) (mmu.mem s')) as Hq.
  { eapply quiet_trans; [exact Hqs|]. apply clone_quiet; [done|]. intros k. apply Hks. }
  assert (forall i, space_live (set_mm x s') i <-> i = j \/ space_live x i) as Hli.
  { intros i. unfold space_live. rewrite mm_set_mm. apply Hlive. }
  assert (same_maps x (set_mm x s')) as Hs.
  { intros i va e. unfold vm.mapped. rewrite Hli. change (ram (set_mm x s')) with (mmu.mem s').
    destruct (decide (i = j)) as [->|Hne].
    - split; [|intros (H & _); by destruct Hnl]. intros (_ & Hva & Hw & Hu). exfalso.
      pose proof (clone_walk s j tb ks Hwf Hjl Hb Hkl' Hks Hnd j va Hjl Hva) as Hc. rewrite decide_True in Hc by done.
      specialize (Hc e Hw). congruence.
    - assert (forall va, space_live x i -> is_u32 va ->
        mmu.walk (mmu.mem s') (mmu.user_table_addr st i) va = mmu.walk (ram x) (mmu.user_table_addr st i) va) as Hw.
      { intros va' Hl Hva'. assert (mmu.live s i) as Hil by (apply Hlive; by right).
        pose proof (clone_walk s j tb ks Hwf Hjl Hb Hkl' Hks Hnd i va' Hil Hva') as Hc. rewrite decide_False in Hc by done.
        exact (eq_trans Hc (eq_trans (Hwalk i va' Hil Hva') (decide_False _ _ Hne))). }
      split.
      + intros ([?|Hl] & Hva & Hw' & Hu); [done|]. rewrite Hw in Hw' by done. done.
      + intros (Hl & Hva & Hw' & Hu). rewrite Hw by done. split_and!; [by right|done|done|done]. }
  constructor; [|exact Hnl|done|exact Hmask|done|done|done|by split_and!].
  apply minv_submaps; [done|done|done|]. intros i va e. apply Hs.
Qed.
(** ** Copying one page *)

Lemma load8_copy n m src dst a :
  (src + Z.of_nat n <= dst \/ dst + Z.of_nat n <= src) ->
  load8 (copy_bytes m src dst n) a =
    if decide (dst <= a < dst + Z.of_nat n) then load8 m (src + (a - dst)) else load8 m a.
Proof using Type.
  revert m src dst. induction n as [|n IH]; intros m src dst Hd; cbn [copy_bytes].
  { rewrite decide_False by lia. done. }
  rewrite IH by lia. rewrite !load8_store8.
  destruct (decide (dst + 1 <= a < dst + 1 + Z.of_nat n)) as [Hin|Hn].
  - rewrite (decide_True _ _ (P := dst <= a < _)) by lia. rewrite decide_False by lia. f_equal. lia.
  - destruct (decide (dst = a)) as [<-|Hne].
    + rewrite decide_True by lia. f_equal. lia.
    + rewrite decide_False by lia. done.
Qed.

Lemma bytes_copy n m src dst : bytes m -> bytes (copy_bytes m src dst n).
Proof using Type.
  revert m src dst. induction n as [|n IH]; intros m src dst Hb; [done|]. cbn [copy_bytes]. apply IH, bytes_store8; [done|apply Hb].
Qed.

(** Writing inside an allocated frame. *)
(** Bytes of allocated frames were written. *)
Lemma write_frames_ok x m' :
  minv x -> bytes m' ->
  (forall a, load8 m' a = load8 (ram x) a \/ exists p, managed x p /\ (p ∉ frames x) /\ frame x p <= a < frame x p + 4096) ->
  minv (set_ram x m') /\ same_maps x (set_ram x m').
Proof using Hst.
  intros Hx Hb Hm. set (x' := set_ram x m').
  assert (forall a, any_table a -> load8 m' a = load8 (ram x) a) as Htab.
  { intros a Ha. destruct (Hm a) as [?|(p & Hp & _ & Hin)]; [done|]. by destruct (mi_far _ x Hx p a Hp Hin). }
  assert (same_maps x x') as Hs.
  { apply same_maps_walk; [done|]. intros i va Hl Hva. by apply (walk_scrub st Hst x m' i va). }
  split; [|done]. constructor.
  - destruct (mi_page _ x Hx) as [H1 H2 H3]. constructor; [exact H1|exact H2|exact H3].
  - exact (mi_align _ x Hx).
  - exact (mi_free _ x Hx).
  - exact (mi_managed _ x Hx).
  - exact (mi_far _ x Hx).
  - exact (wf_scrub st Hst x m' Hx Htab).
  - exact Hb.
  - intros i va e q H%Hs. exact (mi_own _ x Hx i va e q H).
  - intros i va e i' va' e' H%Hs H'%Hs. exact (mi_inj _ x Hx i va e i' va' e' H H').
  - intros q a Hq Ha. change (ram x') with m'. change (frame x' q) with (frame x q) in Ha. change (frames x') with (frames x) in Hq.
    destruct (Hm a) as [->|(p & _ & Hnf & Hin)]; [by apply (mi_clean _ x Hx q)|]. assert (p = q) as ->; [|done].
    apply (frame_inj x). unfold frame, page.frame_addr, page.PAGE_SIZE in *. lia.
Qed.

Lemma write_bytes_ok x p m' :
  minv x -> managed x p -> (p ∉ frames x) -> bytes m' ->
  (forall a, ~ (frame x p <= a < frame x p + 4096) -> load8 m' a = load8 (ram x) a) ->
  minv (set_ram x m') /\ same_maps x (set_ram x m').
Proof using Hst.
  intros Hx Hp Hnf Hb Hm. apply write_frames_ok; [done|done|]. intros a.
  destruct (decide (frame x p <= a < frame x p + 4096)) as [Hin|Hn]; [right; by exists p|left; by apply Hm].
Qed.

Lemma user_entry_attrs e : mmu.l2_entry_is_user e = true -> is_u32 e -> user_attrs (Z.land e 0xFFF).
Proof using Type.
  intros Hu He. assert (forall mask, Z.land 0xFFF mask = mask -> Z.land (Z.land e 0xFFF) mask = Z.land e mask) as Hl.
  { intros mask Hm. by rewrite <- Z.land_assoc, Hm. }
  split_and!.
  - change 0xFFF with (Z.ones 12). rewrite Z.land_ones by lia. unfold is_u32. lia.
  - unfold mmu.is_fault. rewrite Hl by done. exact (user_not_fault e Hu).
  - rewrite <- Z.land_assoc. apply Z.land_0_r.
  - unfold mmu.l2_entry_is_user in *. by rewrite !Hl by done.
Qed.

Lemma mapped_u32 x i va e : minv x -> mapped x i va e -> is_u32 e.
Proof using Type.
  intros Hx (Hl & Hva & Hw & _). rewrite mmu.walk_eq in Hw. unfold mmu.walk_entry in Hw.
  destruct (mmu.is_table _); [|by destruct (mmu.is_fault _)]. destruct (mmu.is_fault _); [done|]. injection Hw as <-.
  apply load32_range, Hx.
Qed.

Lemma frame_of_mod e : is_u32 e -> frame_of e mod 4096 = 0 /\ 0 <= frame_of e.
Proof using Type.
  intros He. unfold frame_of. change 0xFFFFF000 with (not32 (2 ^ 12 - 1)). rewrite land_not_mask by (done || lia).
  unfold is_u32 in He. lia.
Qed.

(** A page that a process maps and a frame that is free do not meet. *)
Lemma mapped_apart_free x i va e p :
  minv x -> mapped x i va e -> p ∈ frames x -> frame_of e + 4096 <= frame x p \/ frame x p + 4096 <= frame_of e.
Proof using Type.
  intros Hx Hm Hp. pose proof (mi_managed _ x Hx p (mi_free _ x Hx p Hp)) as Hr.
  destruct (frame_of_mod e (mapped_u32 x i va e Hx Hm)) as [Ha _]. destruct (frame_of_frame st x p Hx Hr) as [Hf Hu].
  destruct (frame_of_mod (frame x p) Hu) as [Ha' _]. rewrite Hf in Ha'.
  destruct (decide (frame_of e = frame x p)) as [E|Hne]; [|lia].
  destruct (mi_own _ x Hx i va e p Hm Hr E) as [_ Hn]. done.
Qed.

(** One page copied into space [j]: frame [p], with the bytes of [ph]. *)
Record copied_one x x' (j va ph at_ p : Z) : Prop := {
  co_inv : minv x';
  co_free : p ∈ frames x;
  co_frames : frames x' = frames x ∖ {[p]};
  co_geo : geo x x';
  co_alloc : space_alloc x' = space_alloc x;
  co_maps : maps_one st x x' j va (desc (frame x p) at_);
  co_load : forall a, ~ in_tables a -> load8 (ram x') a =
    if decide (frame x p <= a < frame x p + 4096) then load8 (ram x) (ph + (a - frame x p)) else load8 (ram x) a;
}.

Lemma quiet_load m m' a : quiet st m m' -> ~ in_tables a -> load8 m' a = load8 m a.
Proof using Type. intros [H _]. apply H. Qed.

Lemma fork_page_ok x i j va e :
  minv x -> mapped x i va e -> space_live x j -> ~ mmu.kernel_mb (mmu.vmb va) ->
  match fork_page st (mmu.user_table_addr st j) va (frame_of e) (Z.land e 0xFFF) x with
  | (true, x') => exists p, copied_one x x' j va (frame_of e) (Z.land e 0xFFF) p
  | (false, x') => vm.restored st x x'
  end.
Proof using Hst.
  intros Hx Hm Hj Hnk. unfold fork_page. destruct (negb _); [by apply restored_refl|].
  pose proof Hm as (_ & Hva & _ & Hu). pose proof (user_entry_attrs e Hu (mapped_u32 x i va e Hx Hm)) as Hat.
  pose proof (alloc_ok st Hst x Hx) as Hal. destruct (alloc_page x) as [[ph|] x1]; [|by destruct Hal as [-> _]; apply restored_refl].
  destruct Hal as (p & Hp & -> & F1 & G1 & M1 & Hx1).
  destruct (fresh_loose st x x1 p Hx Hp F1 G1 M1) as (Hmp & Hnf & Hun).
  assert (ram x1 = ram x) as R1 by exact (f_equal mmu.mem M1). rewrite R1.
  assert (space_alloc x1 = space_alloc x) as A1 by exact (f_equal mmu.ADDR_SPACE_ALLOC M1).
  assert (forall i va e, mapped x1 i va e <-> mapped x i va e) as S1 by (intros; unfold vm.mapped, space_live; by rewrite M1, R1).
  assert (forall a, load8 (copy_bytes (ram x) (frame_of e) (frame x p) (Z.to_nat PAGE_SIZE)) a =
    if decide (frame x p <= a < frame x p + 4096) then load8 (ram x) (frame_of e + (a - frame x p)) else load8 (ram x) a) as Hcopy.
  { intros a. apply load8_copy. replace (Z.of_nat (Z.to_nat PAGE_SIZE)) with 4096 by reflexivity. by apply (mapped_apart_free x i va e p). }
  pose proof (bytes_copy (Z.to_nat PAGE_SIZE) (ram x) (frame_of e) (frame x p) (mi_bytes _ x Hx)) as Hb.
  generalize dependent (copy_bytes (ram x) (frame_of e) (frame x p) (Z.to_nat PAGE_SIZE)). intros m' Hcopy Hb.
  destruct (write_bytes_ok x1 p m' Hx1 Hmp Hnf Hb) as [Hx2 S2].
  { intros a Ha. rewrite (geo_frame x) in Ha by done. by rewrite Hcopy, R1, decide_False. }
  set (x2 := set_ram x1 m') in *. assert (loose st x2 p) as Hl2.
  { split_and!; [exact Hmp|exact Hnf|]. intros i' va' e' H%S2. exact (Hun i' va' e' H). }
  assert (space_live x2 j) as Hj2 by (apply (live_alloc x); done).
  destruct (shatter_ok st Hst x2 j va Hx2 Hj2 Hva) as (Hx3 & Q3 & A3 & S3).
  assert (forall x4, minv x4 -> only_tables st x2 x4 -> same_maps x2 x4 -> vm.restored st x (free_page (frame x p) x4)) as Hundo.
  { intros x4 Hx4 O4 S4. pose proof (loose_same st x2 x4 p O4 S4 Hl2) as (Hm4 & Hn4 & Hu4). destruct O4 as (Q4 & F4 & G4 & A4).
    assert (geo x x4) as G by (eapply geo_trans; [exact G1|exact G4]). rewrite <- (geo_frame x x4) by done.
    destruct (free_ok st Hst x4 p Hx4 Hm4 Hn4 Hu4) as (Hx5 & F5 & G5 & A5 & S5 & L5).
    apply restored_intro; [done|done| |by eapply geo_trans| | |].
    - rewrite F5, F4. change (frames x2) with (frames x1). rewrite F1, (union_comm_L (_ ∖ _)). symmetry.
      apply union_difference_L. by apply singleton_subseteq_l.
    - rewrite A5, A4. exact A1.
    - intros i' va' e'. rewrite (S5 i' va' e'), (S4 i' va' e'), (S2 i' va' e'). apply S1.
    - intros a Ha Hout. rewrite L5, decide_False by (rewrite (geo_frame x x4) by done; by apply Hout).
      rewrite (quiet_load _ _ a Q4 Ha). change (ram x2) with m'. rewrite Hcopy, decide_False; [done|by apply Hout]. }
  destruct (mmu.shatter_section st _ va (mm x2)) as [[] s3]; cbn [snd] in *; [|apply Hundo; [done|by apply only_tables_mm|done]].
  set (x3 := set_mm x2 s3) in *. assert (only_tables st x2 x3) as O3 by (by apply only_tables_mm).
  assert (mm x3 = s3) as Hmm by apply mm_set_mm. rewrite <- Hmm.
  pose proof (map_ok st Hst x3 j va p (Z.land e 0xFFF) Hx3 ltac:(by apply (live_alloc x2)) Hva Hnk (loose_spare st x3 p j va (loose_same st x2 x3 p O3 S3 Hl2)) Hat) as H4.
  assert (frame x3 p = frame x p) as E3 by (apply geo_frame; eapply geo_trans; [exact G1|apply O3]). rewrite E3 in H4.
  destruct (mmu.map_page st _ va (frame x p) _ (mm x3)) as [ok s4]. destruct H4 as (Hx4 & O4 & H4). cbn [fst snd] in *.
  assert (set_mm x2 s4 = set_mm x3 s4) as -> by done. destruct ok.
  - exists p. pose proof (only_tables_trans st _ _ _ O3 O4) as (Q & F & G & A). constructor; [done|done| | | | |].
    + rewrite F. exact F1.
    + eapply geo_trans; [exact G1|exact G].
    + rewrite A. exact A1.
    + intros i' va' e'. rewrite (H4 i' va' e'). destruct (decide _); [done|]. rewrite (S3 i' va' e'), (S2 i' va' e'). apply S1.
    + intros a Ha. rewrite (quiet_load _ _ a Q Ha). apply Hcopy.
  - rewrite H4. apply Hundo; [done|done|done].
Qed.
(** ** The deep copy *)

Section fork.
Context (x0 : machine) (i j : Z) (Hx0 : minv x0) (Hij : i <> j) (Hj : space_live x0 j).
Context (Hlow : forall va e, mapped x0 i va e -> ~ mmu.kernel_mb (mmu.vmb va)).
Context (Happart : forall va e a, mapped x0 i va e -> frame_of e <= a < frame_of e + 4096 -> ~ in_tables a).
Context (Hnew : forall va e, ~ mapped x0 j va e).

(** The page of [va] in space [j] is a copy: frame [p], attributes and bytes of the parent's. *)
Definition copy_of x (va e : Z) : Prop :=
  exists e0 p, mapped x0 i va e0 /\ p ∈ frames x0 /\ (p ∉ frames x) /\ e = desc (frame x0 p) (Z.land e0 0xFFF) /\
    forall o, 0 <= o < 4096 -> load8 (ram x) (frame x0 p + o) = load8 (ram x0) (frame_of e0 + o).

(** The pages of the parent in [ts] have been copied. *)
Record copied x (ts : list (Z * Z * Z)) : Prop := {
  c_inv : minv x;
  c_geo : geo x0 x;
  c_alloc : space_alloc x = space_alloc x0;
  c_sub : frames x ⊆ frames x0;
  c_other : forall i' va e, i' <> j -> mapped x i' va e <-> mapped x0 i' va e;
  c_child : forall va e, mapped x j va e -> copy_of x va e /\ exists va0 ph at_, (va0, ph, at_) ∈ ts /\ mmu.vpage va0 = mmu.vpage va;
  c_all : forall va ph at_, (va, ph, at_) ∈ ts -> exists e, mapped x j va e;
  c_taken : forall p, p ∈ frames x0 -> (p ∉ frames x) -> exists va e, mapped x j va e /\ frame_of e = frame x0 p;
  c_load : forall a, ~ in_tables a -> (forall p, p ∈ frames x0 -> (p ∉ frames x) -> ~ (frame x0 p <= a < frame x0 p + 4096)) ->
    load8 (ram x) a = load8 (ram x0) a;
}.

Lemma copied_nil : copied x0 [].
Proof using Hx0 Hnew.
  constructor; try done.
  - intros va e H. by destruct (Hnew va e).
  - intros va ph at_ H. by apply not_elem_of_nil in H.
Qed.

Lemma copied_restored x y ts : copied x ts -> vm.restored st x y -> copied y ts.
Proof using Hx0.
  intros C [Hy (Q & F & G & A) M]. constructor.
  - done.
  - eapply geo_trans; [apply C|done].
  - rewrite A. apply C.
  - rewrite F. apply C.
  - intros i' va e Hne. rewrite (M i' va e). by apply (c_other _ _ C).
  - intros va e H%M. destruct (c_child _ _ C va e H) as [(e0 & p & He0 & Hp & Hn & -> & Hl) Hts]. split; [|done].
    exists e0, p. rewrite F. split_and!; try done. intros o Ho. rewrite (quiet_load _ _ _ Q); [by apply Hl|].
    apply (mi_apart st x0 p); [done|by apply (mi_free _ x0 Hx0)|lia].
  - intros va ph at_ H. destruct (c_all _ _ C va ph at_ H) as [e He]. exists e. by apply M.
  - intros p Hp Hn. rewrite F in Hn. destruct (c_taken _ _ C p Hp Hn) as (va & e & H & ?). exists va, e. split; [by apply M|done].
  - intros a Ha Hout. rewrite (quiet_load _ _ a Q Ha). apply (c_load _ _ C a Ha). intros p Hp Hn. apply Hout; [done|by rewrite F].
Qed.

(** The bytes of a page of the parent are those of the start. *)
Lemma parent_bytes x ts va e a :
  copied x ts -> mapped x0 i va e -> frame_of e <= a < frame_of e + 4096 -> load8 (ram x) a = load8 (ram x0) a.
Proof using Hx0 Happart.
  intros C Hm Ha. apply (c_load _ _ C a); [by apply (Happart va e)|]. intros p Hp _ Hin.
  destruct (mapped_apart_free x0 i va e p Hx0 Hm Hp); lia.
Qed.

Lemma copied_snoc x y ts va e p :
  copied x ts -> mapped x0 i va e -> (forall va' ph at_, (va', ph, at_) ∈ ts -> mmu.vpage va' <> mmu.vpage va) ->
  copied_one x y j va (frame_of e) (Z.land e 0xFFF) p -> copied y (ts ++ [(va, frame_of e, Z.land e 0xFFF)]).
Proof using Hx0 Happart Hij.
  intros C Hm Hfresh O. pose proof (c_geo _ _ C) as G0. pose proof (co_maps _ _ _ _ _ _ _ O) as Hone.
  rewrite (geo_frame x0 x) in Hone by done. pose proof (co_free _ _ _ _ _ _ _ O) as Hpx. pose proof (c_sub _ _ C p Hpx) as Hp0.
  assert (forall a, ~ in_tables a -> load8 (ram y) a = if decide (frame x0 p <= a < frame x0 p + 4096)
    then load8 (ram x) (frame_of e + (a - frame x0 p)) else load8 (ram x) a) as Hload.
  { intros a Ha. rewrite <- (geo_frame x0 x) by done. by apply (co_load _ _ _ _ _ _ _ O). }
  assert (forall q, q ∉ frames y <-> q ∉ frames x \/ q = p) as Hfr.
  { intros q. rewrite (co_frames _ _ _ _ _ _ _ O), not_elem_of_difference, elem_of_singleton. done. }
  assert (forall q a, p <> q -> frame x0 q <= a < frame x0 q + 4096 -> ~ (frame x0 p <= a < frame x0 p + 4096)) as Hpq.
  { intros q a Hne Ha Hin. apply Hne. unfold frame, page.frame_addr, page.PAGE_SIZE in *. lia. }
  constructor.
  - apply O.
  - eapply geo_trans; [done|apply O].
  - rewrite (co_alloc _ _ _ _ _ _ _ O). apply C.
  - rewrite (co_frames _ _ _ _ _ _ _ O). pose proof (c_sub _ _ C) as Hs. clear -Hs. set_solver.
  - intros i' va' e' Hne. rewrite (Hone i' va' e'), decide_False by tauto. by apply (c_other _ _ C).
  - intros va' e' H%Hone. destruct (decide _) as [[_ Hv]|Hn].
    + destruct H as [Hva' ->]. split.
      * exists e, p. split_and!; [by apply (mapped_page st x0 i va)|done|apply Hfr; by right|done|].
        intros o Ho. rewrite Hload by (apply (mi_apart st x0 p); [done|by apply (mi_free _ x0 Hx0)|lia]).
        rewrite decide_True by lia. replace (frame x0 p + o - frame x0 p) with o by lia.
        apply (parent_bytes x ts va e); [done|done|lia].
      * exists va, (frame_of e), (Z.land e 0xFFF). split; [apply elem_of_app; right; by apply list_elem_of_singleton|done].
    + destruct (c_child _ _ C va' e' H) as [(e0 & q & He0 & Hq & Hnq & -> & Hl) (va0 & ph & at_ & Hin & Hv)]. split.
      * exists e0, q. split_and!; [done|done|apply Hfr; by left|done|].
        intros o Ho. assert (p <> q) as Hne by (intros ->; done).
        rewrite Hload by (apply (mi_apart st x0 q); [done|by apply (mi_free _ x0 Hx0)|lia]).
        rewrite decide_False by (apply (Hpq q); [done|lia]). by apply Hl.
      * exists va0, ph, at_. split; [apply elem_of_app; by left|done].
  - intros va' ph at_ [Hin|Hin]%elem_of_app.
    + destruct (c_all _ _ C va' ph at_ Hin) as [e' He']. exists e'. apply Hone. rewrite decide_False; [done|].
      intros [_ Hv]. by apply (Hfresh va' ph at_ Hin).
    + apply list_elem_of_singleton in Hin as [= -> -> ->]. exists (desc (frame x0 p) (Z.land e 0xFFF)). apply Hone.
      rewrite decide_True by done. split; [apply Hm|done].
  - intros q Hq [Hnq| ->]%Hfr.
    + destruct (c_taken _ _ C q Hq Hnq) as (va' & e' & H & He'). exists va', e'. split; [|done]. apply Hone. rewrite decide_False; [done|].
      intros [_ Hv]. destruct (c_child _ _ C va' e' H) as [_ (va0 & ph & at_ & Hin & Hv0)]. apply (Hfresh va0 ph at_ Hin). congruence.
    + exists va, (desc (frame x0 p) (Z.land e 0xFFF)). split.
      * apply Hone. rewrite decide_True by done. split; [apply Hm|done].
      * rewrite frame_of_desc_attrs by (apply user_entry_attrs; [apply Hm|by eapply mapped_u32]).
        apply (frame_of_frame st x0 p Hx0), (mi_managed _ x0 Hx0), (mi_free _ x0 Hx0), Hp0.
  - intros a Ha Hout. rewrite Hload by done. rewrite decide_False by (apply Hout; [done|apply Hfr; by right]).
    apply (c_load _ _ C a Ha). intros q Hq Hnq. apply Hout; [done|apply Hfr; by left].
Qed.

Lemma fork_loop_ok rest x ts :
  copied x ts -> NoDup (ts ++ rest) ->
  (forall va ph at_, (va, ph, at_) ∈ ts ++ rest -> exists e, mapped x0 i va e /\ va mod 4096 = 0 /\ ph = frame_of e /\ at_ = Z.land e 0xFFF) ->
  let '(ok, x') := mmu.visit (fork_page st (mmu.user_table_addr st j)) rest x in
  if ok then copied x' (ts ++ rest) else exists ts', copied x' ts'.
Proof using Hst Hx0 Hij Hj Hlow Happart.
  revert x ts. induction rest as [|[[va ph] at_] rest IH]; intros x ts C Hnd Hts; cbn [mmu.visit]; [by rewrite app_nil_r|].
  destruct (Hts va ph at_) as (e & Hm & Hal & -> & ->); [apply elem_of_app; right; left|].
  assert (space_live x j) as Hjx by (apply (live_alloc x0); [apply C|done]).
  assert (mapped x i va e) as Hmx by (by apply (c_other _ _ C)).
  pose proof (fork_page_ok x i j va e (c_inv _ _ C) Hmx Hjx (Hlow va e Hm)) as Hp.
  destruct (fork_page st _ va _ _ x) as [[] y]; [|exists ts; by apply (copied_restored x)].
  destruct Hp as [p O]. assert (ts ++ (va, frame_of e, Z.land e 0xFFF) :: rest = (ts ++ [(va, frame_of e, Z.land e 0xFFF)]) ++ rest) as E
    by (by rewrite <- app_assoc). rewrite E in *. apply IH; [|done|done].
  apply (copied_snoc x y ts va e p); [done|done| |done]. intros va' ph at_ Hin Hv.
  destruct (Hts va' ph at_) as (e' & Hm' & Hal' & -> & ->); [apply elem_of_app; left; apply elem_of_app; by left|].
  assert (va' = va) as -> by (unfold mmu.vpage in Hv; lia). assert (e' = e) as -> by (by eapply mapped_fun).
  apply NoDup_app in Hnd as (Hnd & _ & _). apply NoDup_app in Hnd as (_ & Hno & _). apply (Hno _ Hin). by apply list_elem_of_singleton.
Qed.
End fork.
(** ** The two calls *)

Lemma mask_back mask j : 0 <= j -> Z.testbit mask j = false -> Z.ldiff (Z.lor mask (Z.shiftl 1 j)) (Z.shiftl 1 j) = mask.
Proof using Type.
  intros Hj Hb. apply Z.bits_inj'. intros n Hn. rewrite mmu.mask_clear, mmu.mask_set by done.
  case_bool_decide; [subst; by rewrite Hb|done].
Qed.

(** What the parent's pages must be for a fork: outside the kernel image and
    the page tables. *)
Definition forkable x (i : Z) : Prop :=
  forall va e, mapped x i va e -> ~ mmu.kernel_mb (mmu.vmb va) /\ forall a, frame_of e <= a < frame_of e + 4096 -> ~ in_tables a.

(** Space [j] is a copy of space [i] on frames of its own. *)
Record forked x x' (i j : Z) : Prop := {
  f_inv : minv x';
  f_geo : geo x x';
  f_fresh : ~ space_live x j;
  f_live : forall i', space_live x' i' <-> i' = j \/ space_live x i';
  f_other : forall i' va e, i' <> j -> mapped x' i' va e <-> mapped x i' va e;
  f_child : forall va e, mapped x' j va e -> copy_of x i x' va e;
  f_all : forall va e, mapped x i va e -> exists e', mapped x' j va e';
  f_sub : frames x' ⊆ frames x;
  f_taken : forall p, p ∈ frames x -> (p ∉ frames x') -> exists va e, mapped x' j va e /\ frame_of e = frame x p;
  f_load : forall a, ~ in_tables a -> (forall p, p ∈ frames x -> (p ∉ frames x') -> ~ (frame x p <= a < frame x p + 4096)) ->
    load8 (ram x') a = load8 (ram x) a;
}.

Lemma forked_intro x x1 x2 i j ts :
  minv x -> opened x x1 j -> forkable x i -> space_live x i -> copied x1 i j x2 ts ->
  (forall va e, mapped x1 i va e -> exists va' ph at_, (va', ph, at_) ∈ ts /\ mmu.vpage va' = mmu.vpage va) -> forked x x2 i j.
Proof using Hst.
  intros Hx O Hf Hi C Hall. pose proof (op_maps _ _ _ O) as S. pose proof (op_geo _ _ _ O) as G. pose proof (op_frames _ _ _ O) as F.
  constructor.
  - apply C.
  - eapply geo_trans; [exact G|apply C].
  - apply O.
  - intros i'. rewrite <- (op_live _ _ _ O i'). apply (live_alloc x1), C.
  - intros i' va e Hne. rewrite (c_other _ _ _ _ _ C i' va e Hne). apply S.
  - intros va e H. destruct (c_child _ _ _ _ _ C va e H) as [(e0 & p & He0 & Hp & Hn & -> & Hl) _]. exists e0, p.
    apply S in He0. rewrite F in Hp. rewrite (geo_frame x x1) in Hl |- * by done. split_and!; try done.
    intros o Ho. rewrite Hl by done. apply (quiet_load _ _ _ (op_quiet _ _ _ O)). apply (Hf va e0 He0). lia.
  - intros va e H. pose proof H as (_ & Hva & _). apply S in H. destruct (Hall va e H) as (va' & ph & at_ & Hin & Hv).
    destruct (c_all _ _ _ _ _ C va' ph at_ Hin) as [e' He']. exists e'. by apply (mapped_page st x2 j va').
  - rewrite <- F. apply C.
  - intros p Hp Hn. rewrite <- F in Hp. rewrite <- (geo_frame x x1) by done. by apply (c_taken _ _ _ _ _ C).
  - intros a Ha Hout. rewrite <- (quiet_load _ _ a (op_quiet _ _ _ O) Ha). apply (c_load _ _ _ _ _ C a Ha).
    intros p Hp Hn. rewrite (geo_frame x x1) by done. rewrite F in Hp. by apply Hout.
Qed.

(** A failed copy, undone. *)
Lemma fork_undone x x1 x2 i j ts :
  minv x -> opened x x1 j -> 0 <= j < 16 -> copied x1 i j x2 ts ->
  vm.restored st x (free_space st (mmu.user_table_addr st j) x2).
Proof using Hst.
  intros Hx O Hj C. pose proof (op_maps _ _ _ O) as S. pose proof (op_geo _ _ _ O) as G. pose proof (op_frames _ _ _ O) as F.
  pose proof (c_geo _ _ _ _ _ C) as G2. assert (geo x x2) as Gx by (by eapply geo_trans).
  assert (space_live x2 j) as Hl by (apply (live_alloc x1); [apply C|apply (op_live _ _ _ O); by left]).
  pose proof (free_space_ok x2 j (c_inv _ _ _ _ _ C) Hl) as R. set (x3 := free_space _ _ _) in *.
  assert (frames x3 = frames x) as HF.
  { apply set_eq. intros p. rewrite (rt_frames _ _ _ R). rewrite <- F. split.
    - intros [Hp|[Hr (va & e & H & He)]]; [by apply (c_sub _ _ _ _ _ C)|].
      destruct (c_child _ _ _ _ _ C va e H) as [(e0 & q & He0 & Hq & _ & -> & _) _].
      rewrite frame_of_desc_attrs in He by (apply user_entry_attrs; [apply He0|by eapply mapped_u32, He0; apply O]).
      rewrite (proj1 (frame_of_frame st x1 q (op_inv _ _ _ O) (mi_managed _ x1 (op_inv _ _ _ O) q (mi_free _ x1 (op_inv _ _ _ O) q Hq)))), (geo_frame x1 x2) in He by done.
      by apply frame_inj in He as <-.
    - intros Hp. destruct (decide (p ∈ frames x2)) as [|Hn]; [by left|right]. destruct (c_taken _ _ _ _ _ C p Hp Hn) as (va & e & H & He).
      split; [apply (mi_managed _ x1 (op_inv _ _ _ O)), (mi_free _ x1 (op_inv _ _ _ O)), Hp|]. exists va, e. by rewrite (geo_frame x1 x2). }
  apply restored_intro; [done|apply R|done|eapply geo_trans; [exact Gx|apply R]| | |].
  - rewrite (rt_mask _ _ _ R), (c_alloc _ _ _ _ _ C), (op_mask _ _ _ O). apply mask_back; [lia|].
    destruct (Z.testbit (space_alloc x) j) eqn:E; [|done]. destruct (op_fresh _ _ _ O). by split.
  - intros i' va e. rewrite (rt_maps _ _ _ R). destruct (decide (i' = j)) as [->|Hne].
    + split; [tauto|]. intros (H & _). by destruct (op_fresh _ _ _ O).
    + rewrite (c_other _ _ _ _ _ C i' va e Hne). pose proof (S i' va e). tauto.
  - intros a Ha Hout. destruct (rt_load _ _ _ R a Ha) as [->|(p & Hp & Hin)].
    + rewrite <- (quiet_load _ _ a (op_quiet _ _ _ O) Ha). apply (c_load _ _ _ _ _ C a Ha). intros p Hp _.
      rewrite (geo_frame x x1) by done. rewrite F in Hp. by apply Hout.
    + rewrite (geo_frame x x2) in Hin by done. rewrite HF in Hp. by destruct (Hout p Hp).
Qed.

Lemma fork_space_ok x tb i :
  minv x -> kernel_l1 tb (ram x) -> space_live x i -> forkable x i ->
  match fork_space st tb (mmu.user_table_addr st i) x with
  | (None, x') => vm.restored st x x'
  | (Some pt, x') => exists j, 0 <= j < 16 /\ pt = mmu.user_table_addr st j /\ forked x x' i j
  end.
Proof using Hst.
  intros Hx Hkl Hi Hf. unfold fork_space. pose proof (open_ok x tb Hx Hkl) as Ho.
  destruct (mmu.alloc_addr_space st (mm x)) as [[a|] s]; [|subst; rewrite set_mm_id; by apply restored_refl].
  destruct Ho as (j & -> & O). set (x1 := set_mm x _) in *. unfold fork_copy_phase, mmu.for_each_user_page.
  pose proof (op_maps _ _ _ O) as S. assert (i <> j) as Hij by (intros ->; by apply (op_fresh _ _ _ O)).
  assert (space_live x1 i) as Hi1 by (apply (op_live _ _ _ O); by right).
  assert (space_live x1 j) as Hj1 by (apply (op_live _ _ _ O); by left).
  assert (forall va e, ~ mapped x1 j va e) as Hnew by (intros va e (H & _)%S; by apply (op_fresh _ _ _ O)).
  assert (forall va ph at_, (va, ph, at_) ∈ [] ++ mmu.user_pages (ram x1) (mmu.user_table_addr st i) -> exists e, mapped x1 i va e /\ va mod 4096 = 0 /\
    ph = frame_of e /\ at_ = Z.land e 0xFFF) as Hts by (intros va ph at_; by apply elem_of_user_pages).
  assert (forall va e, mapped x1 i va e -> exists va' ph at_, (va', ph, at_) ∈ mmu.user_pages (ram x1) (mmu.user_table_addr st i) /\ mmu.vpage va' = mmu.vpage va) as Hall.
  { intros va e H. pose proof H as (_ & Hva & _). unfold is_u32 in Hva. exists (va / 4096 * 4096), (frame_of e), (Z.land e 0xFFF).
    assert (mmu.vpage (va / 4096 * 4096) = mmu.vpage va) as Hv by (unfold mmu.vpage; lia). split; [|done].
    apply elem_of_user_pages; [done|]. exists e. split_and!; [|lia|done|done]. apply (mapped_page st x1 i va); [done|unfold is_u32; lia|done]. }
  pose proof (user_pages_NoDup x1 i Hi1) as Hnd. generalize dependent (mmu.user_pages (ram x1) (mmu.user_table_addr st i)). intros ts Hts Hall Hnd.
  pose proof (fork_loop_ok x1 i j (op_inv _ _ _ O) Hij Hj1
    (fun va e H => proj1 (Hf va e (proj1 (S i va e) H))) (fun va e a H => proj2 (Hf va e (proj1 (S i va e) H)) a) ts x1 [] (copied_nil x1 i j (op_inv _ _ _ O) Hnew) Hnd Hts) as Hl.
  destruct (mmu.visit _ ts x1) as [[] x2].
  - exists j. split_and!; [apply Hj1|apply Hj1|done|]. by apply (forked_intro x x1 x2 i j ts).
  - destruct Hl as [ts' C]. exact (fork_undone x x1 x2 i j ts' Hx O (proj1 Hj1) C).
Qed.
End theory.
End lifetime.
