(* ===== verification/Lifecycle.v ===== *)
(** * Processes come and go: spawn, fork and exit ([crates/thumos/src/process.rs])

    The calls that create and destroy processes, over the process table of
    [Process], the machine of [Vm] and the inboxes of [Ipc], with the memory
    work of [Lifetime]. [table_base] is the address of the kernel L1 table. The
    descriptor tables are reached through [DescriptorLayer] and [ForkLayer]. *)

From S2P Require Import Prelude Machine Page Ring Ipc Mmu Memguard Pipe Fd Signal Process Vm Mmap Lifetime.
From Stdlib Require Import ZArith.
Open Scope Z_scope.

(** What process creation needs of the descriptor tables: an empty table for a
    spawned process, a copy of the parent's for a forked one, with every count
    still exact. *)
Class ForkLayer (D : Type) `{!DescriptorLayer D} := {
  fl_spawn : nat -> D -> D;
  fl_fork : nat -> nat -> D -> D;
  fl_spawn_ok : forall c d, dl_ok d -> dl_ok (fl_spawn c d);
  fl_fork_ok : forall p c d, dl_ok d -> dl_ok (fl_fork p c d);
}.

#[export] Program Instance fd_fork_layer (U : Type) `{!UserMemory U} : ForkLayer (fd.kernel U) := {|
  fl_spawn c d := fd.spawn_step c d;
  fl_fork p c d := fd.switch_step (fd.CURRENT d) (fd.fork_step c (fd.switch_step p d));
|}.
Next Obligation. intros U ? c d Hd. apply fd.spawn_step_ok, Hd. Qed.
Next Obligation.
  intros U ? p c d Hd. apply fd.switch_step_ok, fd.fork_step_ok, fd.switch_step_ok, Hd.
Qed.

Module lifecycle.
Import vm lifetime.

Definition STACK_PAGES : nat := 4.

Section calls.
Context (st : mmu.statics) (table_base : Z) {D : Type} `{!DescriptorLayer D, !ForkLayer D}.
#[local] Abbreviation kernel := (process.kernel D).

(** [procs.iter().position(Option::is_none)]. *)
Definition free_slot (k : kernel) : option nat := fd.first_free (process.PROCS k).

(** The loop that allocates the stack of a kernel thread, page by page, with
    its rollback. *)
Fixpoint alloc_stack (n : nat) (got : list Z) (x : machine) : option (list Z) * machine :=
  match n with
  | O => (Some got, x)
  | S n =>
      match alloc_page x with
      | (Some page, x) => alloc_stack n (got ++ [page]) x
      | (None, x) => (None, foldl (fun x p => free_page p x) x got)
      end
  end.

Definition spawn (entry_point : Z) (k : kernel) (x : machine) : option nat * kernel * machine :=
  match free_slot k with
  | None => (None, k, x)
  | Some slot =>
      match mmu.alloc_addr_space st (mm x) with
      | (None, s) => (None, k, set_mm x s)
      | (Some new_pt, s) =>
          let x := set_mm x (mmu.clone_addr_space table_base new_pt s) in
          match alloc_stack STACK_PAGES [] x with
          | (None, x) => (None, k, set_mm x (mmu.free_addr_space st new_pt (mm x)).2)
          | (Some pages, x) =>
              let stack_base := nth 0 pages 0 in
              let stack_top := stack_base + PAGE_SIZE * Z.of_nat STACK_PAGES in
              let p := process.mk_process slot process.Ready (signal.context_initial entry_point (wrap32 stack_top) 0x1F)
                (Some (process.CURRENT k)) 0 new_pt stack_base (Z.of_nat STACK_PAGES) process.DEFAULT_HEAP_BREAK
                (replicate process.MAX_MAPPINGS None) signal.SignalState_new 1 0 capability.FORK_DEFAULT in
              (Some slot, process.put (process.set_fds k (fl_spawn slot (process.fds k))) slot (Some p), x)
          end
      end
  end.

(** ** fork *)

(** The child of [parent]: the parent's record as [fork] copies it. *)
Definition child_of (child_pid parent_pid : nat) (parent : option process.Process) (ctx : signal.Context)
    (pt stack_base stack_pages : Z) : process.Process :=
  process.mk_process child_pid process.Ready ctx (Some parent_pid) 0 pt stack_base stack_pages
    (from_option process.heap_break process.DEFAULT_HEAP_BREAK parent)
    (from_option process.mappings (replicate process.MAX_MAPPINGS None) parent)
    (from_option (fun p => signal.mk_state (signal.handlers (process.signal_state p)) 0) signal.SignalState_new parent)
    (from_option process.uid 1 parent) 0
    (Z.land (from_option process.capabilities capability.FORK_DEFAULT parent) capability.FORK_DEFAULT).

Definition add_child (slot parent_pid : nat) (child : process.Process) (k : kernel) : kernel :=
  process.put (process.set_fds k (fl_fork parent_pid slot (process.fds k))) slot (Some child).

Definition fork_pl0 (slot parent_pid : nat) (parent_pt : Z) (child_ctx : signal.Context) (k : kernel) (x : machine)
    : option nat * kernel * machine :=
  if (parent_pt =? 0) || (parent_pt =? table_base) then (None, k, x) else
  match fork_space st table_base parent_pt x with
  | (None, x) => (None, k, x)
  | (Some child_pt, x) =>
      let parent := process.proc k parent_pid in
      let child := child_of slot parent_pid parent child_ctx child_pt
        (from_option process.stack_base 0 parent) (from_option process.stack_pages 0 parent) in
      (Some slot, add_child slot parent_pid child k, x)
  end.

Definition translate_stack_pointer (parent_sp parent_stack_base parent_stack_pages child_stack_base : Z) : Z :=
  let child_stack_size := Z.of_nat STACK_PAGES * PAGE_SIZE in
  let parent_span := wrap32 (parent_stack_pages * PAGE_SIZE) in
  let offset := parent_sp - parent_stack_base in
  if (0 <? parent_stack_pages) && (parent_stack_base <=? parent_sp) && (offset <? parent_span) && (offset <? child_stack_size)
  then wrap32 (child_stack_base + offset) else child_stack_base.

Definition with_sp (c : signal.Context) (sp : Z) : signal.Context :=
  signal.mk_context (signal.r c) sp (signal.lr c) (signal.pc c) (signal.cpsr c).

(** The path of kernel threads. *)
Definition fork_pl1 (slot parent_pid : nat) (parent_pt : Z) (child_ctx : signal.Context) (k : kernel) (x : machine)
    : option nat * kernel * machine :=
  match mmu.alloc_addr_space st (mm x) with
  | (None, s) => (None, k, set_mm x s)
  | (Some child_pt, s) =>
      let src_pt := if parent_pt =? 0 then table_base else parent_pt in
      let x := set_mm x (mmu.clone_addr_space src_pt child_pt s) in
      match alloc_stack STACK_PAGES [] x with
      | (None, x) => (None, k, set_mm x (mmu.free_addr_space st child_pt (mm x)).2)
      | (Some pages, x) =>
          let stack_base := nth 0 pages 0 in
          let parent := process.proc k parent_pid in
          let parent_stack_base := from_option process.stack_base 0 parent in
          let parent_stack_pages := from_option process.stack_pages 0 parent in
          let ctx := with_sp child_ctx
            (translate_stack_pointer (signal.sp child_ctx) parent_stack_base parent_stack_pages stack_base) in
          let x := if 0 <? parent_stack_pages then
              set_ram x (copy_bytes (ram x) parent_stack_base stack_base
                (Z.to_nat (Z.min parent_stack_pages (Z.of_nat STACK_PAGES) * PAGE_SIZE)))
            else x in
          let child := child_of slot parent_pid parent ctx child_pt stack_base (Z.of_nat STACK_PAGES) in
          (Some slot, add_child slot parent_pid child k, x)
      end
  end.

Definition fork (k : kernel) (x : machine) : option nat * kernel * machine :=
  match free_slot k with
  | None => (None, k, x)
  | Some slot =>
      let parent_pid := process.CURRENT k in
      let parent := process.proc k parent_pid in
      let parent_pt := from_option process.page_table_phys 0 parent in
      let frame := default (from_option process.ctx signal.context_zero parent) (process.ACTIVE_FRAME k) in
      let child_ctx := signal.mk_context (<[0%nat := 0]> (signal.r frame)) (signal.sp frame) (signal.lr frame)
        (signal.pc frame) (signal.cpsr frame) in
      if Z.land (signal.cpsr child_ctx) signal.CPSR_MODE_MASK =? signal.CPSR_MODE_USER
      then fork_pl0 slot parent_pid parent_pt child_ctx k x
      else fork_pl1 slot parent_pid parent_pt child_ctx k x
  end.

(** ** exit *)

Definition set_ttbr0 (k : kernel) (pt : Z) : kernel :=
  process.mk_kernel (process.PROCS k) (process.CURRENT k) (process.ACTIVE_FRAME k) (process.FRAME_SWITCHED k) pt
    (process.FUTEX_WAITERS k) (process.fds k) (process.cleared k).

Definition dead (p : process.Process) (status : Z) : process.Process :=
  process.mk_process (process.pid p) process.Dead (process.ctx p) (process.parent p) status 0 (process.stack_base p) 0
    (process.heap_break p) (process.mappings p) (process.signal_state p) (process.uid p) (process.wake_tick p)
    (process.capabilities p).

(** The loop over the pages of an identity-mapped stack. *)
Definition free_stack (base pages : Z) (x : machine) : machine :=
  foldl (fun x i => free_page (page_va base i) x) x (seq 0 (Z.to_nat pages)).

Definition exit_cleanup (status : Z) (k : kernel) (x : machine) (ibs : list ipc.Inbox)
    : outcome (kernel * machine * list ipc.Inbox) :=
  let cur := process.CURRENT k in
  let k := set_ttbr0 (process.add_cleared k cur) table_base in
  kx ← match process.proc k cur with
       | None => Ret (k, x)
       | Some p =>
           d ← dl_close_all cur (process.fds k);
           let pt := process.page_table_phys p in
           let own_table := negb (pt =? 0) && negb (pt =? table_base) in
           let stack_l2_backed := own_table &&
             from_option mmu.l2_entry_is_user false (mmu.read_l2_entry (ram x) pt (process.stack_base p)) in
           let x := if own_table then free_space st pt x else x in
           let x := if stack_l2_backed then x else free_stack (process.stack_base p) (process.stack_pages p) x in
           Ret (process.put (process.set_fds k d) cur (Some (dead p status)), x)
       end;
  let k := process.free_waiters_for_pid cur kx.1 in
  ibs ← ipc.clear_inbox (Z.of_nat cur) ibs;
  Ret (k, kx.2, ibs).

(** The successor found, as always for a process other than 0. *)
Definition exit_current (now status : Z) (k : kernel) (x : machine) (ibs : list ipc.Inbox)
    : outcome (kernel * machine * list ipc.Inbox) :=
  r ← exit_cleanup status k x ibs;
  let '(k, x, ibs) := r in
  let '(next, k) := process.schedule now k in
  Ret (if decide (next = process.CURRENT k) then k else process.switch_to next k, x, ibs).
End calls.
(** ** The invariant of the system *)

Section theory.
#[local] Ltac Zify.zify_post_hook ::= Z.to_euclidean_division_equations.
Context (st : mmu.statics) (Hst : mmu.statics_ok st) (tb : Z) {D : Type} `{!DescriptorLayer D, !ForkLayer D}.
Implicit Types (x : machine) (k : process.kernel D).

#[local] Opaque page.free_set page.MAX_PAGES zero_words.
#[local] Abbreviation minv := (vm.minv st).
#[local] Abbreviation mapped := (vm.mapped st).
#[local] Abbreviation in_tables := (vm.in_tables st).
#[local] Abbreviation window := (mmap.window st).
#[local] Abbreviation heap := (mmap.heap st).

(** The kernel's own L1 table: what [kernel_l1] says of it, away from the frames. *)
Record kernel_tables x : Prop := {
  kt_users : 0 < mmu.USER_TABLES st;
  kt_l1 : kernel_l1 st tb (ram x);
  kt_far : forall p a, managed x p -> frame x p <= a < frame x p + 4096 -> ~ (tb <= a < tb + 16384);
}.

(** The base of a process's stack is mapped, above the heap and the window. *)
Definition stacked (i : Z) (p : process.Process) x : Prop :=
  mmap.MMAP_LIMIT <= process.stack_base p /\ exists e, mapped x i (process.stack_base p) e.

Record system_ok k x : Prop := {
  so_mem : mmap.memory_ok st k x;
  so_kernel : kernel_tables x;
  so_fork : forall i, forkable st x i;
  so_stack : forall c p i, process.proc k c = Some p -> 0 <= i < 16 -> process.page_table_phys p = mmu.user_table_addr st i ->
    stacked i p x;
}.

Lemma kernel_l1_ext m m' :
  (forall a, tb <= a < tb + 16384 \/ mmu.KERNEL_L2 st <= a < mmu.KERNEL_L2 st + 2048 -> load8 m' a = load8 m a) ->
  kernel_l1 st tb m -> kernel_l1 st tb m'.
Proof using Type.
  intros Hm K. assert (forall n, 0 <= n < 4096 -> load32 m' (tb + 4 * n) = load32 m (tb + 4 * n)) as H1.
  { intros n Hn. apply load32_ext. intros b Hb. apply Hm. left. lia. }
  constructor; try apply K.
  - intros n Hn. rewrite H1 by done. by apply (kl_tables _ _ _ K).
  - intros q Hq. rewrite (load32_ext m m'); [by apply (kl_pages _ _ _ K)|]. intros b Hb. apply Hm. right. lia.
Qed.

(** A change that leaves everything but tables and frames alone keeps them. *)
Lemma kernel_tables_ext x x' :
  minv x -> geo x x' ->
  (forall a, ~ in_tables a -> (forall q, managed x q -> ~ (frame x q <= a < frame x q + 4096)) -> load8 (ram x') a = load8 (ram x) a) ->
  kernel_tables x -> kernel_tables x'.
Proof using Hst.
  intros Hx G Hl [U K F]. constructor; [done| |].
  - eapply kernel_l1_ext; [|exact K]. intros a [Ha|Ha]; apply Hl.
    + by apply (kl_apart _ _ _ K).
    + intros q Hq Hin. by apply (F q a).
    + intros [?|?]; destruct Hst as [_ _ _ _ Hd2 Hd3]; lia.
    + intros q Hq Hin. apply (mi_far _ x Hx q a Hq Hin). by right.
  - intros p a. rewrite (geo_managed x x'), (geo_frame x x') by done. apply F.
Qed.

(** ** Memory calls *)

Lemma effect_ok k x k' x' : system_ok k x -> mmap.effect st k x k' x' -> system_ok k' x'.
Proof using Hst.
  intros [M K F S] E. pose proof (mmap.memory_ok_effect st k x k' x' M E) as M'. pose proof (mmap.mo_inv _ _ _ M) as Hx.
  destruct E as (i & p & p' & (Hp & Hpt & _ & Hl) & -> & Hpt' & Hsb & T & _ & _). constructor.
  - done.
  - eapply kernel_tables_ext; [exact Hx|apply T|apply T|done].
  - intros i' va e H. destruct (mmap.t_pages _ _ _ _ _ _ T i' va e H) as [(e0 & H0 & ->)|(Hr & q & Hq & ->)]; [by apply (F i')|].
    split; [|intros a; by apply (mi_apart st x q)].
    unfold mmu.kernel_mb, mmu.vmb, process.DEFAULT_HEAP_BREAK, mmap.MMAP_LIMIT in *. lia.
  - intros c q j Hq Hj Hqt. rewrite process.proc_put in Hq by (by eapply process.proc_lt).
    assert (exists q0, process.proc k c = Some q0 /\ process.page_table_phys q0 = mmu.user_table_addr st j /\
      process.stack_base q0 = process.stack_base q) as (q0 & H0 & Ht & Hs).
    { destruct (decide (c = process.CURRENT k)) as [->|]; [|by exists q]. injection Hq as <-. exists p. split_and!; [done|congruence|congruence]. }
    destruct (S c q0 j H0 Hj Ht) as (Hlo & e & He). rewrite Hs in Hlo, He. split; [done|]. exists e.
    apply (mmap.t_maps _ _ _ _ _ _ T); [right; lia|done].
Qed.

(** ** fork *)

Lemma land_page_desc phys prot : Z.land (page_desc phys prot) 0xFFF = mmu.prot_to_l2_flags prot.
Proof using Type.
  unfold page_desc, desc. rewrite memguard.land_page_attrs by done.
  unfold mmu.prot_to_l2_flags. destruct (negb (Z.land prot mmu.PROT_WRITE =? 0)); cbn [orb]; [done|].
  destruct (negb (Z.land prot mmu.PROT_READ =? 0)); destruct (Z.land prot mmu.PROT_EXEC =? 0); done.
Qed.

(** The child's copy of a page with a recorded protection has it too. *)
Lemma forked_page x x' i j va prot q :
  minv x -> forked st x x' i j -> mapped x i va (page_desc (frame x q) prot) ->
  exists p, managed x' p /\ mapped x' j va (page_desc (frame x' p) prot).
Proof using Type.
  intros Hx Fk Hm. pose proof (f_geo _ _ _ _ _ Fk) as G. destruct (f_all _ _ _ _ _ Fk va _ Hm) as [e' He'].
  destruct (f_child _ _ _ _ _ Fk va e' He') as (e0 & p & He0 & Hp & _ & -> & _). exists p.
  rewrite (mapped_fun st x i va va e0 _ He0 Hm eq_refl), land_page_desc in He'. rewrite (geo_frame x x') by done.
  split; [|exact He']. apply (geo_managed x); [done|]. by apply (mi_free _ x Hx).
Qed.

Lemma window_forked x x' i j ms : minv x -> forked st x x' i j -> window i ms x -> window j ms x'.
Proof using Type.
  intros Hx Fk W. constructor; try apply W.
  - intros m va Hm Hva Hr. destruct (mmap.w_backed _ _ _ _ W m va Hm Hva Hr) as (q & _ & Hma). by eapply forked_page.
  - intros va e Hma Hva. destruct (f_child _ _ _ _ _ Fk va e Hma) as (e0 & _ & He0 & _). by apply (mmap.w_cover _ _ _ _ W va e0).
Qed.

Lemma heap_forked x x' i j b : minv x -> forked st x x' i j -> heap i b x -> heap j b x'.
Proof using Type.
  intros Hx Fk H. constructor; try apply H. intros va Hva. destruct (mmap.h_backed _ _ _ _ H va Hva) as (q & _ & Hma).
  by eapply forked_page.
Qed.

(** Adding a process in a free slot. *)
Lemma proc_add_child k slot c p :
  fd.first_free (process.PROCS k) = Some slot ->
  process.proc (add_child slot (process.CURRENT k) p k) c = if decide (c = slot) then Some p else process.proc k c.
Proof using Type.
  intros Hf. apply fd.first_free_Some in Hf. unfold add_child. rewrite process.proc_put; [done|]. by eapply lookup_lt_Some.
Qed.

Lemma forked_system k x x' i j p slot child :
  system_ok k x -> mmap.caller st k x i p -> 0 <= j < 16 -> forked st x x' i j -> fd.first_free (process.PROCS k) = Some slot ->
  process.page_table_phys child = mmu.user_table_addr st j -> process.mappings child = process.mappings p ->
  process.heap_break child = process.heap_break p -> process.stack_base child = process.stack_base p ->
  system_ok (add_child slot (process.CURRENT k) child k) x'.
Proof using Hst.
  intros [M K F S] (Hp & Hpt & _ & Hl) Hj Fk Hslot Hct Hcm Hch Hcs. pose proof (mmap.mo_inv _ _ _ M) as Hx.
  pose proof (f_geo _ _ _ _ _ Fk) as G. pose proof (proj1 Hl) as Hi.
  destruct (mmap.mo_space _ _ _ M _ p i Hp Hi Hpt) as (_ & W & H).
  destruct (S _ p i Hp Hi Hpt) as (Hlo & e & He).
  assert (forall c q n, process.proc k c = Some q -> 0 <= n < 16 -> process.page_table_phys q = mmu.user_table_addr st n -> n <> j) as Hne.
  { intros c q n Hq Hn Hqt ->. apply (f_fresh _ _ _ _ _ Fk). by destruct (mmap.mo_space _ _ _ M c q j Hq Hn Hqt). }
  constructor; [constructor| | |].
  - apply Fk.
  - intros c q n Hq Hn Hqt. rewrite proc_add_child in Hq by done. destruct (decide (c = slot)) as [->|Hc].
    + injection Hq as <-. assert (n = j) as -> by (apply (mmap.user_table_inj st); congruence).
      rewrite Hcm, Hch. split_and!; [apply (f_live _ _ _ _ _ Fk); by left|by eapply window_forked|by eapply heap_forked].
    + destruct (mmap.mo_space _ _ _ M c q n Hq Hn Hqt) as (Hln & Wn & Hhn). pose proof (Hne c q n Hq Hn Hqt) as Hnj.
      split_and!; [apply (f_live _ _ _ _ _ Fk); by right| |].
      * eapply mmap.window_ext; [exact G| |exact Wn]. intros. by apply (f_other _ _ _ _ _ Fk).
      * eapply mmap.heap_ext; [exact G| |exact Hhn]. intros. by apply (f_other _ _ _ _ _ Fk).
  - intros c c' q q' n Hq Hq' Hn Hqt Hqt'. rewrite proc_add_child in Hq, Hq' by done.
    destruct (decide (c = slot)) as [->|Hc], (decide (c' = slot)) as [->|Hc']; [done| | |].
    + injection Hq as <-. exfalso. apply (Hne c' q' n Hq' Hn Hqt'). apply (mmap.user_table_inj st). congruence.
    + injection Hq' as <-. exfalso. apply (Hne c q n Hq Hn Hqt). apply (mmap.user_table_inj st). congruence.
    + by apply (mmap.mo_own _ _ _ M c c' q q' n).
  - eapply kernel_tables_ext; [exact Hx|exact G| |exact K]. intros a Ha Hout. apply (f_load _ _ _ _ _ Fk a Ha).
    intros q Hq _. apply Hout. by apply (mi_free _ x Hx).
  - intros n va e' Hm. destruct (decide (n = j)) as [->|Hn].
    + destruct (f_child _ _ _ _ _ Fk va e' Hm) as (e0 & q & He0 & Hq & _ & -> & _). split; [apply (F i va e0 He0)|].
      rewrite frame_of_desc_attrs by (apply user_entry_attrs; [apply He0|by eapply mapped_u32]).
      pose proof (mi_free _ x Hx q Hq) as Hmq. rewrite (proj1 (frame_of_frame st x q Hx (mi_managed _ x Hx q Hmq))).
      intros a. by apply (mi_apart st x q).
    + apply (F n va e'). by apply (f_other _ _ _ _ _ Fk).
  - intros c q n Hq Hn Hqt. rewrite proc_add_child in Hq by done. destruct (decide (c = slot)) as [->|Hc].
    + injection Hq as <-. assert (n = j) as -> by (apply (mmap.user_table_inj st); congruence).
      unfold stacked. rewrite Hcs. split; [done|]. by apply (f_all _ _ _ _ _ Fk _ e).
    + destruct (S c q n Hq Hn Hqt) as (Hlo' & e' & He'). split; [done|]. exists e'.
      apply (f_other _ _ _ _ _ Fk); [by eapply Hne|done].
Qed.
Lemma restored_system k x x' i p : system_ok k x -> mmap.caller st k x i p -> vm.restored st x x' -> system_ok k x'.
Proof using Hst.
  intros Hk Hc R. pose proof (so_mem _ _ Hk) as M. destruct (mmap.mo_space _ _ _ M _ p i (proj1 Hc) (proj1 (proj2 (proj2 (proj2 Hc)))) (proj1 (proj2 Hc))) as (_ & W & H).
  pose proof (mmap.touches_restored st i process.DEFAULT_HEAP_BREAK mmap.MMAP_LIMIT x x' R) as T.
  apply (effect_ok k x); [done|]. eapply mmap.effect_none; try done; [by eapply mmap.window_restored|].
  eapply mmap.heap_ext; [apply T| |exact H]. intros va e _ Hm. by apply R.
Qed.

(** The frame the child is seeded from. *)
Definition live_frame k : signal.Context :=
  default (from_option process.ctx signal.context_zero (process.proc k (process.CURRENT k))) (process.ACTIVE_FRAME k).
Definition user_frame k : Prop := Z.land (signal.cpsr (live_frame k)) signal.CPSR_MODE_MASK = signal.CPSR_MODE_USER.

Lemma tb_not_user i m : 0 <= i < 16 -> kernel_l1 st tb m -> mmu.user_table_addr st i <> tb.
Proof using Hst.
  intros Hi K E. apply (kl_apart _ _ _ K (mmu.user_table_addr st i)); [lia|]. right.
  pose proof (mmu.user_addr_bounds st Hst i 0 Hi ltac:(lia)) as (_ & H1 & H2). lia.
Qed.

(** The child of [p] in [slot] with the address space [j]: it returns 0 where its
    parent returns the number, with no signal pending and no capability beyond
    those a fork may pass on. *)
Definition expected_child k (slot : nat) (p : process.Process) (j : Z) : process.Process := {|
  process.pid := slot; process.state := process.Ready;
  process.ctx := signal.mk_context (<[0%nat := 0]> (signal.r (live_frame k))) (signal.sp (live_frame k))
    (signal.lr (live_frame k)) (signal.pc (live_frame k)) (signal.cpsr (live_frame k));
  process.parent := Some (process.CURRENT k); process.exit_status := 0;
  process.page_table_phys := mmu.user_table_addr st j;
  process.stack_base := process.stack_base p; process.stack_pages := process.stack_pages p;
  process.heap_break := process.heap_break p; process.mappings := process.mappings p;
  process.signal_state := signal.mk_state (signal.handlers (process.signal_state p)) 0;
  process.uid := process.uid p; process.wake_tick := 0;
  process.capabilities := Z.land (process.capabilities p) capability.FORK_DEFAULT |}.

Lemma fork_ok k x i p :
  system_ok k x -> mmap.caller st k x i p -> user_frame k ->
  let '(r, k', x') := fork st tb k x in
  match r with
  | None => k' = k /\ vm.restored st x x'
  | Some slot => exists j, 0 <= j < 16 /\ forked st x x' i j /\ free_slot k = Some slot /\
      k' = add_child slot (process.CURRENT k) (expected_child k slot p j) k
  end.
Proof using Hst.
  intros Hk Hc Hu. pose proof Hc as (Hp & Hpt & Hnz & Hl). pose proof (mmap.mo_inv _ _ _ (so_mem _ _ Hk)) as Hx.
  unfold fork. destruct (free_slot k) as [slot|] eqn:Hs; [|split; [done|by apply restored_refl]].
  fold (live_frame k). cbn [signal.cpsr]. rewrite Hu. change (signal.CPSR_MODE_USER =? signal.CPSR_MODE_USER) with true.
  rewrite Hp. cbn [from_option]. unfold fork_pl0. rewrite Hpt.
  rewrite (proj2 (Z.eqb_neq _ _) Hnz), (proj2 (Z.eqb_neq _ _) (tb_not_user i _ (proj1 Hl) (kt_l1 _ (so_kernel _ _ Hk)))). cbn [orb].
  pose proof (fork_space_ok st Hst x tb i Hx (kt_l1 _ (so_kernel _ _ Hk)) Hl (so_fork _ _ Hk i)) as Hf.
  destruct (fork_space st tb (mmu.user_table_addr st i) x) as [[pt|] x']; [|by split].
  destruct Hf as (j & Hj & -> & Fk). rewrite Hp. exists j. split_and!; [lia|lia|done|done|reflexivity].
Qed.

Lemma fork_system k x i p :
  system_ok k x -> mmap.caller st k x i p -> user_frame k ->
  let '(_, k', x') := fork st tb k x in system_ok k' x'.
Proof using Hst.
  intros Hk Hc Hu. pose proof (fork_ok k x i p Hk Hc Hu) as Hf. destruct (fork st tb k x) as [[[slot|] k'] x'].
  - destruct Hf as (j & Hj & Fk & Hs & ->). by apply (forked_system k x x' i j p).
  - destruct Hf as [-> R]. by eapply restored_system.
Qed.

(** ** exit *)

Lemma exit_total k x ibs status :
  dl_ok (process.fds k) -> (process.CURRENT k < length ibs)%nat -> (length ibs = ipc.MAX_INBOX_PROCS)%nat ->
  exists r, exit_cleanup st tb status k x ibs = Ret r.
Proof using Type.
  intros Hd Hc Hl. unfold exit_cleanup.
  assert (exists ibs', ipc.clear_inbox (Z.of_nat (process.CURRENT k)) ibs = Ret ibs') as [ibs' E].
  { unfold ipc.clear_inbox, ipc.validate_pid. rewrite Nat2Z.id. destruct (decide _) as [|Hn]; [lia|].
    destruct (lookup_lt_is_Some_2 ibs _ Hc) as [ib Hib]. rewrite (index_lt _ _ _ Hib). cbn [mbind outcome_bind].
    rewrite store_lt by done. by eexists. }
  destruct (process.proc _ _) as [p|].
  - destruct (dl_total (process.CURRENT k) (process.fds k) Hd) as (d & Ed & _).
    cbn [process.fds set_ttbr0 process.add_cleared]. rewrite Ed. cbn [mbind outcome_bind]. rewrite E. by eexists.
  - cbn [mbind outcome_bind]. rewrite E. by eexists.
Qed.

Lemma read_entry_mapped x i va e : mapped x i va e -> mmu.read_l2_entry (ram x) (mmu.user_table_addr st i) va = Some e.
Proof using Type.
  intros (_ & _ & Hw & _). unfold mmu.walk in Hw. unfold mmu.read_l2_entry. destruct (mmu.is_table _); cbn [negb].
  - destruct (mmu.is_fault _); [done|]. by injection Hw as <-.
  - by destruct (mmu.is_fault _).
Qed.

Lemma exit_ok k x i p ibs status k' x' ibs' :
  system_ok k x -> mmap.caller st k x i p -> exit_cleanup st tb status k x ibs = Ret (k', x', ibs') ->
  retired st x x' i /\ forall c, process.proc k' c = if decide (c = process.CURRENT k) then Some (dead p status) else process.proc k c.
Proof using Hst.
  intros Hk (Hp & Hpt & Hnz & Hl). pose proof (mmap.mo_inv _ _ _ (so_mem _ _ Hk)) as Hx. pose proof (proj1 Hl) as Hi.
  destruct (so_stack _ _ Hk _ p i Hp Hi Hpt) as (_ & e & He). unfold exit_cleanup.
  change (process.proc (set_ttbr0 (process.add_cleared k (process.CURRENT k)) tb) (process.CURRENT k)) with (process.proc k (process.CURRENT k)).
  rewrite Hp. cbn [process.fds set_ttbr0 process.add_cleared]. destruct (dl_close_all _ _) as [d|]; cbn [mbind outcome_bind]; [|done].
  rewrite Hpt, (proj2 (Z.eqb_neq _ _) Hnz), (proj2 (Z.eqb_neq _ _) (tb_not_user i _ Hi (kt_l1 _ (so_kernel _ _ Hk)))). cbn [negb andb].
  rewrite (read_entry_mapped x i (process.stack_base p) e He). cbn [from_option]. pose proof He as (_ & _ & _ & ->).
  destruct (ipc.clear_inbox _ _) as [ib|]; cbn [mbind outcome_bind]; [|done]. intros [= <- <- _].
  split; [by apply free_space_ok|]. intros c. cbn [fst].
  change (process.proc (process.free_waiters_for_pid (process.CURRENT k) ?kk) c) with (process.proc kk c).
  rewrite process.proc_put; [done|]. by eapply process.proc_lt.
Qed.

Lemma retired_system k x i p k' x' status :
  system_ok k x -> mmap.caller st k x i p -> retired st x x' i ->
  (forall c, process.proc k' c = if decide (c = process.CURRENT k) then Some (dead p status) else process.proc k c) -> system_ok k' x'.
Proof using Hst.
  intros [M K F S] (Hp & Hpt & Hnz & Hl) R Hk'. pose proof (mmap.mo_inv _ _ _ M) as Hx. pose proof (rt_geo _ _ _ _ R) as G.
  pose proof (proj1 Hl) as Hi.
  assert (forall j, 0 <= j < 16 -> mmu.user_table_addr st j <> 0) as Hz.
  { intros j Hj. pose proof (kt_users _ K). unfold mmu.user_table_addr. lia. }
  assert (forall c q j, process.proc k' c = Some q -> 0 <= j < 16 -> process.page_table_phys q = mmu.user_table_addr st j ->
    process.proc k c = Some q /\ j <> i) as Hget.
  { intros c q j Hq Hj Hqt. rewrite Hk' in Hq. destruct (decide (c = process.CURRENT k)) as [->|Hc].
    - injection Hq as <-. by destruct (Hz j Hj).
    - split; [done|]. intros ->. apply Hc. by apply (mmap.mo_own _ _ _ M c (process.CURRENT k) q p i). }
  constructor; [constructor| | |].
  - apply R.
  - intros c q j Hq Hj Hqt. destruct (Hget c q j Hq Hj Hqt) as [Hq0 Hne].
    destruct (mmap.mo_space _ _ _ M c q j Hq0 Hj Hqt) as (Hlj & Wj & Hhj).
    split_and!; [by apply (rt_live _ _ _ _ R)| |].
    + eapply mmap.window_ext; [exact G| |exact Wj]. intros va e _. rewrite (rt_maps _ _ _ _ R). tauto.
    + eapply mmap.heap_ext; [exact G| |exact Hhj]. intros va e _ Hm. by apply (rt_maps _ _ _ _ R).
  - intros c c' q q' j Hq Hq' Hj Hqt Hqt'. destruct (Hget c q j Hq Hj Hqt) as [Hq0 _], (Hget c' q' j Hq' Hj Hqt') as [Hq0' _].
    by apply (mmap.mo_own _ _ _ M c c' q q' j).
  - eapply kernel_tables_ext; [exact Hx|exact G| |exact K]. intros a Ha Hout. destruct (rt_load _ _ _ _ R a Ha) as [?|(q & Hq & Hin)]; [done|].
    destruct (Hout q); [|done]. rewrite <- (geo_managed x x') by done. by apply (mi_free _ x' (rt_inv _ _ _ _ R)).
  - intros j va e [_ Hm]%(rt_maps _ _ _ _ R). by apply (F j va e).
  - intros c q j Hq Hj Hqt. destruct (Hget c q j Hq Hj Hqt) as [Hq0 Hne]. destruct (S c q j Hq0 Hj Hqt) as (Hlo & e & He).
    split; [done|]. exists e. by apply (rt_maps _ _ _ _ R).
Qed.
(** ** Sequences of calls *)

(** What a process's memory depends on. *)
Definition mem_view (p : process.Process) : Z * list (option process.VmMapping) * Z * Z :=
  (process.page_table_phys p, process.mappings p, process.heap_break p, process.stack_base p).

(** Any other change of the process table: scheduling, signals, futexes, sleeping, reaping. *)
Definition other_step k k' : Prop :=
  forall c, process.proc k' c = None \/ mem_view <$> process.proc k' c = mem_view <$> process.proc k c.

Inductive sys_step : process.kernel D * machine -> process.kernel D * machine -> Prop :=
  | sys_mem k x k' x' : mmap.mem_call st (k, x) (k', x') -> sys_step (k, x) (k', x')
  | sys_fork k x i p r k' x' :
      mmap.caller st k x i p -> user_frame k -> fork st tb k x = (r, k', x') -> sys_step (k, x) (k', x')
  | sys_exit k x i p status ibs k' x' ibs' :
      mmap.caller st k x i p -> exit_cleanup st tb status k x ibs = Ret (k', x', ibs') -> sys_step (k, x) (k', x')
  | sys_other k x k' : other_step k k' -> sys_step (k, x) (k', x).

Lemma other_ok k x k' : system_ok k x -> other_step k k' -> system_ok k' x.
Proof using Type.
  intros [M K F S] Ho. assert (forall c q, process.proc k' c = Some q -> exists q0, process.proc k c = Some q0 /\ mem_view q0 = mem_view q) as Hget.
  { intros c q Hq. destruct (Ho c) as [H|H]; rewrite Hq in H; [done|]. destruct (process.proc k c) as [q0|]; [|done].
    exists q0. split; [done|]. cbn in H. congruence. }
  constructor; [constructor| | |]; try done.
  - apply M.
  - intros c q i Hq Hi Hqt. destruct (Hget c q Hq) as (q0 & H0 & [= H1 H2 H3 H4]). rewrite <- H2, <- H3.
    apply (mmap.mo_space _ _ _ M c q0 i); [done|done|congruence].
  - intros c c' q q' i Hq Hq' Hi Hqt Hqt'. destruct (Hget c q Hq) as (q0 & H0 & [= H1 _ _ _]), (Hget c' q' Hq') as (q0' & H0' & [= H1' _ _ _]).
    apply (mmap.mo_own _ _ _ M c c' q0 q0' i); [done|done|done|congruence|congruence].
  - intros c q i Hq Hi Hqt. destruct (Hget c q Hq) as (q0 & H0 & [= H1 _ _ H4]). unfold stacked. rewrite <- H4.
    apply (S c q0 i); [done|done|congruence].
Qed.

Lemma sys_step_ok k x k' x' : system_ok k x -> sys_step (k, x) (k', x') -> system_ok k' x'.
Proof using Hst.
  intros Hk Hs. inversion Hs; subst.
  - apply (effect_ok k x); [done|]. by apply mmap.mem_call_effect; [|apply Hk|].
  - match goal with H : fork _ _ _ _ = _, Hc : mmap.caller _ _ _ _ _, Hu : user_frame _ |- _ =>
      pose proof (fork_system k x _ _ Hk Hc Hu) as Hf; by rewrite H in Hf end.
  - match goal with H : exit_cleanup _ _ _ _ _ _ = _, Hc : mmap.caller _ _ _ _ _ |- _ =>
      destruct (exit_ok k x _ _ _ _ _ _ _ Hk Hc H) as [R Hp]; by eapply retired_system end.
  - by eapply other_ok.
Qed.

Lemma sys_steps_ok k x k' x' : system_ok k x -> rtc sys_step (k, x) (k', x') -> system_ok k' x'.
Proof using Hst.
  intros Hk Hr. change (let '(k', x') := (k', x') in system_ok k' x'). change (let '(k, x) := (k, x) in system_ok k x) in Hk.
  induction Hr as [|[k1 x1] [k2 x2] kx Hs Hr IH]; [done|]. by apply IH, (sys_step_ok k1 x1).
Qed.

(** The context switch and the reaping of a child are such changes. *)
Lemma other_modify k c f : (forall p, mem_view (f p) = mem_view p) -> other_step k (process.modify k c f).
Proof using Type.
  intros Hf c'. right. rewrite process.proc_modify. destruct (decide (c' = c)) as [->|]; [|done].
  destruct (process.proc k c); [|done]. cbn. by rewrite Hf.
Qed.

Lemma other_trans k1 k2 k3 : other_step k1 k2 -> other_step k2 k3 -> other_step k1 k3.
Proof using Type. intros H1 H2 c. destruct (H2 c) as [?|E]; [by left|]. rewrite E. destruct (H1 c) as [H|H]; [|by right].
  left. rewrite H in E. by destruct (process.proc k3 c). Qed.

Lemma other_switch_to n k : other_step k (process.switch_to n k).
Proof using Type.
  assert (forall k, other_step k k) as Hrefl by (intros ? ?; by right).
  unfold process.switch_to. destruct (decide _); [done|].
  assert (other_step k (process.save_current k)) as H1.
  { apply other_modify. intros p. cbv zeta. destruct (process.ACTIVE_FRAME k); by destruct (decide _). }
  destruct (process.proc (process.save_current k) n) as [q|] eqn:Hq; [|done].
  eapply other_trans; [exact H1|]. set (k1 := process.save_current k) in *.
  assert (other_step k1 (process.put k1 n (Some (process.with_state q process.Running)))) as H2.
  { intros c. right. rewrite process.proc_put by (by eapply process.proc_lt). destruct (decide (c = n)) as [->|]; [|done]. by rewrite Hq. }
  destruct (process.ACTIVE_FRAME _); exact H2.
Qed.
End theory.

(** ** Theorems *)

(** C1: Over any sequence of [mmap] calls of at most 0xDFFFF000 bytes, [munmap] and
    [mprotect] calls, [brk] calls that ask for the current break or for one between
    the start of the heap and the base of the mapping window, forks from User mode
    and exits, all by user processes, interleaved with changes of the process
    table that leave page tables, records, breaks and stacks of its processes alone
    (scheduling, signals, reaping), the machine stays consistent: the page tables,
    the mapping records, the breaks and the bitmap agree, every stack stays mapped,
    free frames are zero, and no frame is mapped at two places, in one address
    space or in two. The page calls of kernel threads, which work on raw frames,
    and requests outside these ranges, which wrap around, are not among the steps. *)
Theorem lifecycle_keeps_isolation st tb {D} `{!DescriptorLayer D, !ForkLayer D} (k : process.kernel D) x k' x' :
  mmu.statics_ok st -> system_ok st tb k x -> rtc (sys_step st tb) (k, x) (k', x') ->
  system_ok st tb k' x' /\
  forall i va e i' va' e', mapped st x' i va e -> mapped st x' i' va' e' -> frame_of e = frame_of e' ->
    i = i' /\ mmu.vpage va = mmu.vpage va'.
Proof.
  intros Hst Hk Hr. pose proof (sys_steps_ok st Hst tb k x k' x' Hk Hr) as Hk'. split; [done|].
  apply (mi_inj st x'), (so_mem _ _ _ _ Hk').
Qed.

(** C2: A fork by a user process fails without changing the process table, the
    free frames, any page of any process or any byte outside the page tables; or
    it adds a child in the first free slot, a copy of the parent's record that
    returns 0 from the same instruction with no pending signal and no more than
    the capabilities a fork passes on, gives it the parent's descriptors and
    changes nothing else in the kernel. The child's fresh address space maps
    exactly the parent's pages with the parent's attributes and contents, each on
    a frame taken from the free ones; no other frame is taken, every other address
    space maps what it mapped, and every byte outside the page tables and the
    frames taken is as before. *)
Theorem fork_copies_memory st tb {D} `{!DescriptorLayer D, !ForkLayer D} (k : process.kernel D) x i p :
  mmu.statics_ok st -> system_ok st tb k x -> mmap.caller st k x i p -> user_frame k ->
  let '(r, k', x') := fork st tb k x in
  match r with
  | None => k' = k /\ restored st x x'
  | Some slot => exists j, free_slot k = Some slot /\ ~ space_live x j /\
      k' = process.put (process.set_fds k (fl_fork (process.CURRENT k) slot (process.fds k))) slot (Some (expected_child st k slot p j)) /\
      (forall va, is_u32 va -> (exists e, mapped st x' j va e) <-> exists e, mapped st x i va e) /\
      (forall va e, mapped st x' j va e -> exists e0 f, mapped st x i va e0 /\ f ∈ frames x /\ (f ∉ frames x') /\
         e = desc (frame x f) (Z.land e0 0xFFF) /\
         forall o, 0 <= o < 4096 -> load8 (ram x') (frame x f + o) = load8 (ram x) (frame_of e0 + o)) /\
      frames x' ⊆ frames x /\
      (forall f, f ∈ frames x -> (f ∉ frames x') -> exists va e, mapped st x' j va e /\ frame_of e = frame x f) /\
      (forall i', space_live x' i' <-> i' = j \/ space_live x i') /\
      (forall i' va e, i' <> j -> mapped st x' i' va e <-> mapped st x i' va e) /\
      (forall a, ~ in_tables st a -> (forall f, f ∈ frames x -> (f ∉ frames x') -> ~ (frame x f <= a < frame x f + 4096)) ->
         load8 (ram x') a = load8 (ram x) a)
  end.
Proof.
  intros Hst Hk Hc Hu. pose proof (fork_ok st Hst tb k x i p Hk Hc Hu) as H. destruct (fork st tb k x) as [[[slot|] k'] x']; [|done].
  destruct H as (j & Hj & F & Hs & ->). exists j. split_and!; try done; try apply F.
  intros va Hva. split; intros [e He]; [|by apply (f_all _ _ _ _ _ F va e)].
  destruct (f_child _ _ _ _ _ F va e He) as (e0 & _ & He0 & _). by exists e0.
Qed.

(** C3: The exit of a user process never panics; its address space is gone, the
    frames that become free are exactly those its pages were on, every other
    process and every page of every other address space is as before, and its
    slot keeps the status for the parent. *)
Theorem exit_returns_frames st tb {D} `{!DescriptorLayer D, !ForkLayer D} (k : process.kernel D) x i p ibs status :
  mmu.statics_ok st -> system_ok st tb k x -> mmap.caller st k x i p -> dl_ok (process.fds k) ->
  (process.CURRENT k < length ibs)%nat -> length ibs = ipc.MAX_INBOX_PROCS ->
  exists k' x' ibs', exit_cleanup st tb status k x ibs = Ret (k', x', ibs') /\
    (forall j, space_live x' j <-> j <> i /\ space_live x j) /\
    (forall j va e, mapped st x' j va e <-> j <> i /\ mapped st x j va e) /\
    (forall f, f ∈ frames x' <-> f ∈ frames x \/
       (0 <= f < page.MAX_PAGES /\ exists va e, mapped st x i va e /\ frame_of e = frame x f)) /\
    (exists q, process.proc k' (process.CURRENT k) = Some q /\ process.state q = process.Dead /\ process.exit_status q = status) /\
    (forall c, c <> process.CURRENT k -> process.proc k' c = process.proc k c).
Proof.
  intros Hst Hk Hc Hd Hlt Hlen. destruct (exit_total st tb k x ibs status Hd Hlt Hlen) as [[[k' x'] ibs'] E].
  destruct (exit_ok st Hst tb k x i p ibs status k' x' ibs' Hk Hc E) as [R Hp]. exists k', x', ibs'. split; [done|]. split_and!.
  - apply R.
  - apply R.
  - apply R.
  - exists (dead p status). by rewrite Hp, decide_True.
  - intros c Hne. by rewrite Hp, decide_False.
Qed.

(** ** A running system *)

(** One user process, its stack page at 0x30000000; four free frames. *)
#[local] Abbreviation lay := mmu.layout.
#[local] Ltac Zify.zify_post_hook ::= Z.to_euclidean_division_equations.
Definition demo_tb : Z := 0x400000.
Definition demo_x : machine :=
  match map_pages lay (mmu.user_table_addr lay 0) 0x30000000 (mmu.prot_to_l2_flags 3) 0 1 mmap.demo_x with
  | Filled x => x
  | NoFrame _ x => x
  | NoTable _ _ x => x
  end.
Definition demo_p : process.Process :=
  process.mk_process 0 process.Running signal.context_zero None 0 (mmu.user_table_addr lay 0) 0x30000000 1
    process.DEFAULT_HEAP_BREAK (replicate process.MAX_MAPPINGS None) signal.SignalState_new 1 0 capability.FORK_DEFAULT.
Definition demo_k : process.kernel (fd.kernel memguard.cpu) :=
  process.mk_kernel (Some demo_p :: replicate 15 None) 0
    (Some (signal.mk_context (replicate 13 7) 0x30000F00 0 0x8000 0x10)) false (mmu.user_table_addr lay 0) []
    (fd.boot memguard.caller) [].

Lemma demo_grown : vm.grown lay 0 0x30000000 3 mmap.demo_x demo_x 1.
Proof.
  assert (space_live mmap.demo_x 0) as Hl by (by split).
  assert (region 0x30000000 (0 + 1)) as Hr by (by vm_compute).
  pose proof (map_pages_ok lay mmu.layout_ok 0 0x30000000 3 mmap.demo_x mmap.demo_minv Hl 1 0 mmap.demo_x Hr
    (grown_0 lay 0 0x30000000 3 _ mmap.demo_minv)) as H.
  assert (match map_pages lay (mmu.user_table_addr lay 0) 0x30000000 (mmu.prot_to_l2_flags 3) 0 1 mmap.demo_x with
    Filled _ => true | _ => false end = true) as Hf by (vm_compute; reflexivity).
  unfold demo_x. by destruct (map_pages _ _ _ _ _ _ _).
Qed.

#[local] Opaque demo_x page.demo page.free_set page.MAX_PAGES zero_words.

Lemma running_mapped i va e :
  mapped lay demo_x i va e -> i = 0 /\ is_u32 va /\ mmu.vpage va = 0x30000 /\ exists p, managed mmap.demo_x p /\ e = page_desc (frame mmap.demo_x p) 3.
Proof.
  pose proof demo_grown as G. intros Hm. destruct (decide (i = 0 /\ in_run 0x30000000 1 va)) as [[-> Hr]|Hn].
  - pose proof Hm as (_ & Hva & _). split_and!; [done|done|unfold in_run in Hr; change (0x30000000 / 4096) with 0x30000 in Hr; lia|].
    destruct (g_new _ _ _ _ _ _ _ G va Hva Hr) as (p & Hp & _ & Hm'). exists p.
    split; [by apply (mi_free lay _ mmap.demo_minv)|by eapply mapped_fun].
  - apply (g_maps _ _ _ _ _ _ _ G) in Hm; [|done]. by apply mmap.demo_unmapped in Hm.
Qed.

Lemma demo_stack : exists e, mapped lay demo_x 0 0x30000000 e.
Proof. destruct (g_new _ _ _ _ _ _ _ demo_grown 0x30000000) as (p & _ & _ & Hm); [done|done|]. by eexists. Qed.

Lemma demo_stack_frame : exists f e, 0 <= f < page.MAX_PAGES /\ (f ∉ frames demo_x) /\
  mapped lay demo_x 0 0x30000000 e /\ frame_of e = frame demo_x f.
Proof.
  destruct (g_new _ _ _ _ _ _ _ demo_grown 0x30000000) as (f & Hf0 & Hf1 & Hm); [done|done|].
  pose proof (mi_managed lay _ mmap.demo_minv f (mi_free lay _ mmap.demo_minv f Hf0)) as Hr.
  exists f. eexists. split_and!; [apply Hr|apply Hr|exact Hf1|exact Hm|].
  rewrite frame_of_desc, (proj1 (frame_of_frame lay mmap.demo_x f mmap.demo_minv Hr)).
  symmetry. apply geo_frame, (g_geo _ _ _ _ _ _ _ demo_grown).
Qed.

Lemma demo_get c p : process.proc demo_k c = Some p -> c = 0%nat /\ p = demo_p.
Proof.
  do 16 (destruct c as [|c]; [intros [= <-]; done|]). done.
Qed.

Lemma demo_table i : process.page_table_phys demo_p = mmu.user_table_addr lay i -> i = 0.
Proof. intros H. symmetry. by apply (mmap.user_table_inj lay). Qed.

Lemma running_caller : mmap.caller lay demo_k demo_x 0 demo_p.
Proof.
  split_and!; [reflexivity|reflexivity|by vm_compute|]. apply (live_alloc mmap.demo_x demo_x 0); [|by split].
  apply (g_alloc _ _ _ _ _ _ _ demo_grown).
Qed.

Lemma demo_kernel : kernel_tables lay demo_tb demo_x.
Proof.
  pose proof demo_grown as G. constructor; [done| |].
  - eapply (kernel_l1_ext lay demo_tb mmap.demo_ram).
    + intros a Ha. apply (g_quiet _ _ _ _ _ _ _ G). unfold in_tables, demo_tb in *. cbn in *. lia.
    + constructor; [done|unfold in_tables, demo_tb; cbn; lia| |].
      * intros j Hj. unfold mmap.demo_ram. rewrite !mmu.load_store_word by (done || unfold demo_tb; lia).
        by repeat case_decide.
      * intros q Hq. unfold mmap.demo_ram. rewrite !mmu.load_store_word by (done || cbn; lia). by repeat case_decide.
  - intros p a Hp. rewrite (geo_frame mmap.demo_x demo_x) by apply G.
    apply (geo_managed mmap.demo_x demo_x p (g_geo _ _ _ _ _ _ _ G)) in Hp. apply (proj1 (mmap.demo_managed p)) in Hp. rewrite mmap.demo_frame. unfold demo_tb. lia.
Qed.

Lemma demo_system : system_ok lay demo_tb demo_k demo_x.
Proof.
  pose proof demo_grown as G. constructor; [constructor| | |].
  - apply G.
  - intros c p i [-> ->]%demo_get Hi ->%demo_table. split_and!; [apply running_caller| |constructor; [done|done|intros va Hva; cbn in Hva; lia]].
    eapply mmap.window_ext; [apply G| |apply mmap.demo_window]. intros va e Hva. apply (g_maps _ _ _ _ _ _ _ G).
    intros [_ Hr]. unfold in_run, mmu.vpage, mmap.MMAP_LIMIT in *. change (0x30000000 / 4096) with 0x30000 in Hr. lia.
  - by intros c c' p p' i [-> _]%demo_get [-> _]%demo_get.
  - apply demo_kernel.
  - intros i va e (-> & Hva & Hv & p & Hp & ->)%running_mapped. split.
    + unfold mmu.kernel_mb, mmu.vmb, mmu.vpage in *. lia.
    + intros a Ha. apply (mi_apart lay mmap.demo_x p a mmap.demo_minv Hp).
      rewrite frame_of_desc, (proj1 (frame_of_frame lay mmap.demo_x p mmap.demo_minv (mi_managed lay _ mmap.demo_minv p Hp))) in Ha. done.
  - intros c p i [-> ->]%demo_get Hi ->%demo_table. split; [done|apply demo_stack].
Qed.

Definition demo_fork : option nat * process.kernel (fd.kernel memguard.cpu) * machine := fork lay demo_tb demo_k demo_x.

Lemma demo_fork_slot : demo_fork.1.1 = Some 1%nat.
Proof. vm_compute. reflexivity. Qed.

Lemma lifecycle_keeps_isolation_witness :
  exists k' x', rtc (sys_step lay demo_tb) (demo_k, demo_x) (k', x') /\ system_ok lay demo_tb k' x' /\
    process.page_table_phys <$> process.proc k' 1 = Some (mmu.user_table_addr lay 2).
Proof.
  exists demo_fork.1.2, demo_fork.2. assert (rtc (sys_step lay demo_tb) (demo_k, demo_x) (demo_fork.1.2, demo_fork.2)) as Hr.
  { apply rtc_once. apply (sys_fork lay demo_tb demo_k demo_x 0 demo_p demo_fork.1.1); [apply running_caller|reflexivity|].
    unfold demo_fork. by destruct (fork _ _ _ _) as [[? ?] ?]. }
  split; [exact Hr|]. split; [|vm_compute; reflexivity].
  exact (proj1 (lifecycle_keeps_isolation lay demo_tb demo_k demo_x _ _ mmu.layout_ok demo_system Hr)).
Defined.

Lemma fork_copies_memory_witness :
  exists j e, ~ space_live demo_x j /\ mapped lay demo_fork.2 j 0x30000000 e.
Proof.
  pose proof (fork_copies_memory lay demo_tb demo_k demo_x 0 demo_p mmu.layout_ok demo_system running_caller eq_refl) as H.
  pose proof demo_fork_slot as Hs. unfold demo_fork in *. destruct (fork _ _ _ _) as [[r k'] x']. cbn [fst snd] in *. subst r.
  destruct H as (j & _ & Hj & _ & H & _). exists j.
  destruct (proj2 (H 0x30000000 ltac:(done)) demo_stack) as [e He]. by exists e.
Defined.

Lemma exit_returns_frames_witness :
  exists k' x' ibs', exit_cleanup lay demo_tb 3 demo_k demo_x ipc.INBOXES_init = Ret (k', x', ibs') /\
    ~ space_live x' 0 /\ exists f, f ∈ frames x' /\ (f ∉ frames demo_x).
Proof.
  destruct (exit_returns_frames lay demo_tb demo_k demo_x 0 demo_p ipc.INBOXES_init 3 mmu.layout_ok demo_system running_caller
    ltac:(exact (fd.boot_balanced memguard.caller)) ltac:(vm_compute; lia) eq_refl) as (k' & x' & ibs' & E & Hl & _ & Hf & _).
  exists k', x', ibs'. split; [exact E|]. split; [intros H; exact (proj1 (proj1 (Hl 0) H) eq_refl)|].
  destruct demo_stack_frame as (f & e & Hr & Hn & Hm & He). exists f. split; [|exact Hn].
  apply (proj2 (Hf f)). right. split; [exact Hr|]. exists 0x30000000, e. split; [exact Hm|exact He].
Defined.

(** The same process with its stack page on the second frame, the first one
    freed since. *)
Definition fragmented_x : machine :=
  match map_pages lay (mmu.user_table_addr lay 0) 0x30000000 (mmu.prot_to_l2_flags 3) 0 1 (alloc_page mmap.demo_x).2 with
  | Filled x => free_page 0x40003000 x
  | NoFrame _ x => x
  | NoTable _ _ x => x
  end.

(** The stack of a spawned kernel thread is four frames of the bitmap's choice,
    yet the thread runs on the four frames that follow the first: with a hole in
    the bitmap the second of them is another process's page, and the thread's
    exit returns that page to the allocator while the process still maps it. *)
Theorem spawn_stack_takes_foreign_page :
  let '(r, k, x) := spawn lay demo_tb 0x8000 demo_k fragmented_x in
  r = Some 1%nat /\
  (fun p => (process.stack_base p, process.stack_pages p)) <$> process.proc k 1 = Some (0x40003000, 4) /\
  mmu.read_l2_phys (ram x) (mmu.user_table_addr lay 0) 0x30000000 = Some 0x40004000 /\
  match exit_cleanup lay demo_tb 0 (process.switch_to 1 k) x ipc.INBOXES_init with
  | Ret (_, x', _) => (alloc_page (alloc_page x').2).1 = Some 0x40004000 /\
      mmu.read_l2_phys (ram x') (mmu.user_table_addr lay 0) 0x30000000 = Some 0x40004000
  | Panic => False
  end.
Proof. vm_compute. done. Qed.
End lifecycle.
