(* ===== verification/Spawn.v ===== *)
(** * The first user process ([crates/thumos/src/process.rs], [spawn_user])

    Mapping a loaded image, a stack and the sigreturn trampoline into a fresh
    address space, and entering the process in the table. *)

From S2P Require Import Prelude Machine Page Ring Ipc Mmu Memguard Pipe Fd Signal Process Vm Mmap Lifetime Lifecycle Elf.
From Stdlib Require Import ZArith.
Open Scope Z_scope.

Module spawn.
Import vm lifetime lifecycle.

Definition TRAMPOLINE_MOV_R7_SIGRETURN : Z := 0xE3A07051.
Definition TRAMPOLINE_SVC_0 : Z := 0xEF000000.
Definition USER_TEXT_BASE : Z := 0x7FF00000.

Section calls.
Context (st : mmu.statics) (table_base : Z) {D : Type} `{!DescriptorLayer D, !ForkLayer D}.
#[local] Abbreviation kernel := (process.kernel D).

(** [shatter_section(pt, va) && map_page(pt, va, phys, attrs)]. *)
Definition grant_page (pt attrs va phys : Z) (x : machine) : bool * machine :=
  match mmu.shatter_section st pt va (mm x) with
  | (false, s) => (false, set_mm x s)
  | (true, s) => let '(ok, s) := mmu.map_page st pt va phys attrs s in (ok, set_mm x s)
  end.

(** A loop of grants that stops at the first failure. *)
Fixpoint grant_pages (pt attrs : Z) (ps : list (Z * Z)) (x : machine) : bool * machine :=
  match ps with
  | [] => (true, x)
  | (va, phys) :: ps =>
      match grant_page pt attrs va phys x with
      | (true, x) => grant_pages pt attrs ps x
      | (false, x) => (false, x)
      end
  end.

(** The pages of a segment: virtual address and frame. *)
Definition image_run (l : elf.LoadedElf) (vaddr memsz : Z) : list (Z * Z) :=
  (fun p => let va := wrap32 (vaddr + p * PAGE_SIZE) in (va, wrap32 (elf.image_phys l + (va - elf.image_lo l)))) <$>
    seqZ 0 (elf.div_ceil memsz).

Fixpoint map_segments (pt : Z) (l : elf.LoadedElf) (segs : list (Z * Z * Z)) (x : machine) : bool * machine :=
  match segs with
  | [] => (true, x)
  | (vaddr, memsz, flags) :: segs =>
      if negb (vaddr mod PAGE_SIZE =? 0) then (false, x) else
      match grant_pages pt (mmu.prot_to_l2_flags (elf.flags_to_prot flags)) (image_run l vaddr memsz) x with
      | (true, x) => map_segments pt l segs x
      | (false, x) => (false, x)
      end
  end.

Definition map_user_image (pt : Z) (l : elf.LoadedElf) (x : machine) : bool * machine := map_segments pt l (elf.l_segments l) x.

Definition map_user_stack (pt stack_base : Z) (pages : nat) (x : machine) : bool * machine :=
  grant_pages pt (mmu.prot_to_l2_flags (Z.lor mmu.PROT_READ mmu.PROT_WRITE))
    ((fun i => (page_va stack_base i, page_va stack_base i)) <$> seq 0 pages) x.

Definition write_trampoline_page (phys : Z) (m : memory) : memory :=
  store32 (store32 m phys TRAMPOLINE_MOV_R7_SIGRETURN) (phys + 4) TRAMPOLINE_SVC_0.

Definition map_signal_trampoline (pt : Z) (x : machine) : option Z * machine :=
  match alloc_page x with
  | (None, x) => (None, x)
  | (Some phys, x) =>
      match grant_page pt (mmu.prot_to_l2_flags (Z.lor mmu.PROT_READ mmu.PROT_EXEC)) signal.SIGNAL_TRAMPOLINE_VA phys x with
      | (false, x) => (None, free_page phys x)
      | (true, x) => (Some phys, set_ram x (write_trampoline_page phys (ram x)))
      end
  end.

Definition alloc_run (n : Z) (x : machine) : outcome (option Z * machine) :=
  r ← page.alloc_contiguous n (pg x);
  Ret (r.1, set_pg x r.2).
Definition free_run (addr n : Z) (x : machine) : outcome machine :=
  r ← page.free_contiguous addr n (pg x);
  Ret (set_pg x r.2).

Definition free_unspawned_image (l : elf.LoadedElf) (x : machine) : outcome machine :=
  if 0 <? elf.image_pages l then free_run (elf.image_phys l) (elf.image_pages l) x else Ret x.

(** [tramp.is_none() || !map_user_image(..) || !map_user_stack(..)], negated. *)
Definition map_all (pt stack_base : Z) (l : elf.LoadedElf) (x : machine) : bool * option Z * machine :=
  match map_signal_trampoline pt x with
  | (None, x) => (false, None, x)
  | (Some t, x) =>
      match map_user_image pt l x with
      | (false, x) => (false, Some t, x)
      | (true, x) => let '(ok, x) := map_user_stack pt stack_base STACK_PAGES x in (ok, Some t, x)
      end
  end.

Definition spawn_user (l : elf.LoadedElf) (k : kernel) (x : machine) : outcome (option nat * kernel * machine) :=
  match free_slot k with
  | None => x ← free_unspawned_image l x; Ret (None, k, x)
  | Some slot =>
      match mmu.alloc_addr_space st (mm x) with
      | (None, s) => x ← free_unspawned_image l (set_mm x s); Ret (None, k, x)
      | (Some new_pt, s) =>
          let x := set_mm x (mmu.clone_addr_space table_base new_pt s) in
          r ← alloc_run (Z.of_nat STACK_PAGES) x;
          match r with
          | (None, x) =>
              x ← free_unspawned_image l x;
              Ret (None, k, set_mm x (mmu.free_addr_space st new_pt (mm x)).2)
          | (Some stack_base, x) =>
              let stack_top := stack_base + PAGE_SIZE * Z.of_nat STACK_PAGES in
              match map_all new_pt stack_base l x with
              | (false, tramp, x) =>
                  let x := match tramp with Some phys => free_page phys x | None => x end in
                  x ← free_unspawned_image l x;
                  x ← free_run stack_base (Z.of_nat STACK_PAGES) x;
                  Ret (None, k, set_mm x (mmu.free_addr_space st new_pt (mm x)).2)
              | (true, _, x) =>
                  let p := process.mk_process slot process.Ready (signal.context_initial (elf.l_entry l) (wrap32 stack_top) 0x10)
                    (Some (process.CURRENT k)) 0 new_pt stack_base (Z.of_nat STACK_PAGES) process.DEFAULT_HEAP_BREAK
                    (replicate process.MAX_MAPPINGS None) signal.SignalState_new 1 0 capability.FORK_DEFAULT in
                  Ret (Some slot, process.put (process.set_fds k (fl_spawn slot (process.fds k))) slot (Some p), x)
              end
          end
      end
  end.

(** [restart_supervised] once the file is read: the kernel's own table becomes
    current, the image is loaded into the user window and spawned. *)
Definition start_image (elf_data : list Z) (k : kernel) (x : machine) : outcome (option nat * kernel * machine) :=
  let k := set_ttbr0 k table_base in
  r ← elf.load_confined elf_data USER_TEXT_BASE RAM_END (pg x);
  match r with
  | (Err _, p) => Ret (None, k, set_pg x p)
  | (Ok loaded, p) => spawn_user loaded k (set_pg x p)
  end.
End calls.

(** ** Granting pages *)

Section theory.
#[local] Ltac Zify.zify_post_hook ::= Z.to_euclidean_division_equations.
Context (st : mmu.statics) (Hst : mmu.statics_ok st) (tb : Z) {D : Type} `{!DescriptorLayer D, !ForkLayer D}.
Implicit Types (x : machine) (k : process.kernel D).

#[local] Opaque page.free_set page.MAX_PAGES zero_words.
#[local] Abbreviation minv := (vm.minv st).
#[local] Abbreviation mapped := (vm.mapped st).
#[local] Abbreviation only_tables := (vm.only_tables st).
#[local] Abbreviation same_maps := (vm.same_maps st).

Lemma spare_same x y p i va : only_tables x y -> same_maps x y -> spare st x p i va -> spare st y p i va.
Proof using Type.
  intros (_ & F & G & _) S (Hm & Hf & Hun). split_and!; [by apply (geo_managed x)|by rewrite F|].
  intros i' va' e Hma%S. rewrite (geo_frame x) by done. by apply Hun.
Qed.

Lemma grant_ok x i va p a :
  minv x -> space_live x i -> is_u32 va -> ~ mmu.kernel_mb (mmu.vmb va) -> spare st x p i va -> user_attrs a ->
  let '(ok, x') := grant_page st (mmu.user_table_addr st i) a va (frame x p) x in
  minv x' /\ only_tables x x' /\ (if ok then maps_one st x x' i va (desc (frame x p) a) else same_maps x x').
Proof using Hst.
  intros Hx Hi Hva Hnk Hl Hat. destruct (shatter_ok st Hst x i va Hx Hi Hva) as (Hx1 & Hq1 & Ha1 & Hs1). unfold grant_page.
  destruct (mmu.shatter_section st (mmu.user_table_addr st i) va (mm x)) as [[] s1]; cbn [snd] in *;
    [|split_and!; [done|by apply only_tables_mm|done]].
  set (x1 := set_mm x s1) in *. assert (mm x1 = s1) as Hmm by apply mm_set_mm. rewrite <- Hmm.
  assert (only_tables x x1) as O1 by (by apply only_tables_mm).
  assert (space_live x1 i) as Hi1 by (by apply (live_alloc x)).
  pose proof (map_ok st Hst x1 i va p a Hx1 Hi1 Hva Hnk (spare_same x x1 p i va O1 Hs1 Hl) Hat) as H.
  rewrite (geo_frame x x1) in H by apply O1.
  destruct (mmu.map_page st _ va (frame x p) _ (mm x1)) as [ok s2]. destruct H as (Hx2 & O2 & H). cbn [fst snd] in *.
  assert (set_mm x s2 = set_mm x1 s2) as -> by done. split_and!; [done|by eapply only_tables_trans|].
  destruct ok; [|by rewrite H]. intros i' va' e'. rewrite (H i' va' e'). destruct (decide _); [done|apply Hs1].
Qed.
(** The frame part of the address is all that is mapped. *)
Lemma grant_masked pt a va phys x : grant_page st pt a va phys x = grant_page st pt a va (frame_of phys) x.
Proof using Type.
  unfold grant_page, mmu.map_page, frame_of. by rewrite <- Z.land_assoc.
Qed.

(** ** Building an address space *)

#[local] Abbreviation in_tables := (vm.in_tables st).
#[local] Abbreviation loose := (vm.loose st).

(** Machine [x] is [x0] with a new space [j] that maps the pages of [L], the last
    grant of a page winning; frames were only taken, and only the bytes of [W] changed. *)
Record building (W : Z -> Prop) x0 x (j : Z) (L : list (Z * Z * Z)) : Prop := {
  b_inv : minv x;
  b_geo : geo x0 x;
  b_space : 0 <= j < 16;
  b_fresh : ~ space_live x0 j;
  b_live : forall i, space_live x i <-> i = j \/ space_live x0 i;
  b_mask : space_alloc x = Z.lor (space_alloc x0) (Z.shiftl 1 j);
  b_other : forall i va e, i <> j -> mapped x i va e <-> mapped x0 i va e;
  b_sub : forall va e, mapped x j va e -> exists va0 q a, (va0, q, a) ∈ L /\ mmu.vpage va0 = mmu.vpage va /\
    user_attrs a /\ managed x0 q /\ e = desc (frame x0 q) a;
  b_all : forall va q a, (va, q, a) ∈ L -> exists e, mapped x j va e;
  b_frames : frames x ⊆ frames x0;
  b_load : forall a, ~ in_tables a -> ~ W a -> load8 (ram x) a = load8 (ram x0) a;
}.

Lemma building_opened W x x1 j : minv x -> opened st x x1 j -> 0 <= j < 16 -> building W x x1 j [].
Proof using Type.
  intros Hx O Hj. constructor; [apply O|apply O|done|apply O|apply O|apply O| | | | |].
  - intros i va e _. apply (op_maps _ _ _ _ O).
  - intros va e Hm%(op_maps _ _ _ _ O). destruct (op_fresh _ _ _ _ O). apply Hm.
  - intros va q a H. by apply not_elem_of_nil in H.
  - by rewrite (op_frames _ _ _ _ O).
  - intros a Ha _. by apply (op_quiet _ _ _ _ O).
Qed.

(** Other ways to get there with the same mappings: frames taken, bytes of
    taken frames written, spare tables used. *)
Lemma building_step (W W' : Z -> Prop) x0 x y j L :
  building W x0 x j L -> minv y -> geo x y -> space_alloc y = space_alloc x -> same_maps x y -> frames y ⊆ frames x0 ->
  (forall a, W a -> W' a) -> (forall a, ~ in_tables a -> ~ W' a -> load8 (ram y) a = load8 (ram x) a) -> building W' x0 y j L.
Proof using Type.
  intros B Hy G A S F HW H. constructor; try apply B; try done.
  - eapply geo_trans; [apply B|done].
  - intros i. rewrite (live_alloc x y) by done. apply B.
  - rewrite A. apply B.
  - intros i va e Hi. rewrite (S i va e). by apply B.
  - intros va e Hm%S. by apply (b_sub _ _ _ _ _ B).
  - intros va q a Hin. destruct (b_all _ _ _ _ _ B va q a Hin) as [e He]. exists e. by apply S.
  - intros a Ha Hout. rewrite H by done. apply B; [done|]. by intros ?%HW.
Qed.

(** A frame that may be granted: in the allocator's range, taken, and mapped
    nowhere but at page [va] of the new space. *)
Definition grantable x0 x (L : list (Z * Z * Z)) (va q : Z) : Prop :=
  managed x0 q /\ (q ∉ frames x) /\ (forall i va' e, mapped x0 i va' e -> frame_of e <> frame x0 q) /\
  forall va' a', (va', q, a') ∈ L -> mmu.vpage va' = mmu.vpage va.

Lemma grantable_spare W x0 x j L va q : minv x0 -> building W x0 x j L -> grantable x0 x L va q -> spare st x q j va.
Proof using Type.
  intros Hx0 B (Hm & Hnf & Hun & HL). pose proof (b_geo _ _ _ _ _ B) as G. split_and!; [by apply (geo_managed x0)|done|].
  intros i va' e Hma He. rewrite (geo_frame x0) in He by done. destruct (decide (i = j)) as [->|Hne].
  - destruct (b_sub _ _ _ _ _ B va' e Hma) as (va0 & q0 & a0 & Hin & Hv & Hat & Hm0 & ->). split; [done|]. rewrite <- Hv.
    rewrite frame_of_desc_attrs in He by done.
    pose proof (mi_managed _ x0 Hx0 q0 Hm0) as Hr0. pose proof (mi_managed _ x0 Hx0 q Hm) as Hr.
    rewrite (proj1 (frame_of_frame st x0 q0 Hx0 Hr0)) in He. apply frame_inj in He as ->. by apply (HL va0 a0).
  - apply (b_other _ _ _ _ _ B) in Hma; [|done]. by destruct (Hun i va' e Hma).
Qed.

Lemma building_grant W x0 x j L va phys q a :
  minv x0 -> building W x0 x j L -> grantable x0 x L va q -> frame_of phys = frame x0 q -> is_u32 va -> ~ mmu.kernel_mb (mmu.vmb va) -> user_attrs a ->
  let '(ok, y) := grant_page st (mmu.user_table_addr st j) a va phys x in
  building W x0 y j (if ok then L ++ [(va, q, a)] else L) /\ frames y = frames x /\ forall b, ~ in_tables b -> load8 (ram y) b = load8 (ram x) b.
Proof using Hst.
  intros Hx0 B Hg Hph Hva Hnk Hat. rewrite grant_masked, Hph. pose proof (b_geo _ _ _ _ _ B) as G. pose proof (b_inv _ _ _ _ _ B) as Hx.
  assert (space_live x j) as Hj by (apply (b_live _ _ _ _ _ B); by left). rewrite <- (geo_frame x0 x) by done.
  pose proof (grant_ok x j va q a Hx Hj Hva Hnk (grantable_spare W x0 x j L va q Hx0 B Hg) Hat) as H.
  destruct (grant_page _ _ _ _ _ _) as [ok y]. destruct H as (Hy & (Q & F & G' & A) & H).
  assert (forall b, ~ in_tables b -> load8 (ram y) b = load8 (ram x) b) as Hload by (intros b Hb; by apply Q). split_and!; [|done|done].
  destruct ok; [|apply (building_step W W x0 x y); try done; [by rewrite F; apply B|intros b Hb _; by apply Hload]].
  constructor; try apply B; try done.
  - by eapply geo_trans.
  - intros i. rewrite (live_alloc x y) by done. apply B.
  - rewrite A. apply B.
  - intros i va' e Hi. rewrite (H i va' e), decide_False by naive_solver. by apply B.
  - intros va' e Hm%H. destruct (decide _) as [[_ Hv]|Hn].
    + destruct Hm as [_ ->]. exists va, q, a. split_and!; [apply elem_of_app; right; by apply list_elem_of_singleton|done|done|apply Hg|].
      by rewrite (geo_frame x0).
    + destruct (b_sub _ _ _ _ _ B va' e Hm) as (va0 & q0 & a0 & Hin & ?). exists va0, q0, a0. split; [apply elem_of_app; by left|done].
  - intros va' q' a' [Hin|[= -> -> ->]%list_elem_of_singleton]%elem_of_app.
    + destruct (b_all _ _ _ _ _ B va' q' a' Hin) as [e He]. destruct (decide (mmu.vpage va' = mmu.vpage va)) as [Hv|Hv].
      * eexists. apply H. rewrite decide_True by done. split; [apply He|reflexivity].
      * exists e. apply H. by rewrite decide_False by naive_solver.
    + eexists. apply H. by rewrite decide_True.
  - by rewrite F; apply B.
  - intros b Hb Hout. rewrite Hload by done. by apply B.
Qed.
Section image.
Context (W : Z -> Prop) (x0 : machine) (Hx0 : minv x0) (j : Z) (home : Z -> Z).
#[local] Abbreviation homed L := (Forall (fun t : Z * Z * Z => mmu.vpage t.1.1 = home t.1.2) L).

(** A page the loops may grant: address [va] on the frame [q] of [phys]. *)
Definition planned x (va phys q : Z) : Prop :=
  is_u32 va /\ ~ mmu.kernel_mb (mmu.vmb va) /\ frame_of phys = frame x0 q /\ managed x0 q /\ (q ∉ frames x) /\
  (forall i va' e, mapped x0 i va' e -> frame_of e <> frame x0 q) /\ mmu.vpage va = home q.

Lemma planned_grantable x L va phys q : homed L -> planned x va phys q -> grantable x0 x L va q.
Proof using Type.
  intros HL (_ & _ & _ & Hm & Hn & Hun & Hv). split_and!; [done|done|done|]. intros va' a' Hin.
  rewrite Forall_forall in HL. pose proof (HL _ Hin) as E. cbn in E. congruence.
Qed.

(** What a loop of grants did: [ps] are the pages asked for, with their attributes. *)
Record granted x (L ps : list (Z * Z * Z)) (ok : bool) y (L' : list (Z * Z * Z)) : Prop := {
  gd_build : building W x0 y j L';
  gd_homed : homed L';
  gd_frames : frames y = frames x;
  gd_quiet : forall b, ~ in_tables b -> load8 (ram y) b = load8 (ram x) b;
  gd_old : forall t : Z * Z * Z, t ∈ L -> t ∈ L';
  gd_new : forall t : Z * Z * Z, t ∈ L' -> t ∈ L \/ exists phys, (t.1.1, phys, t.2) ∈ ps /\ frame_of phys = frame x0 t.1.2;
  gd_all : ok = true -> forall va phys a, (va, phys, a) ∈ ps -> exists q, (va, q, a) ∈ L';
}.

Lemma granted_none x L ps : building W x0 x j L -> homed L -> granted x L ps false x L.
Proof using Type. intros B H. constructor; try done. by left. Qed.
Lemma granted_nil x L : building W x0 x j L -> homed L -> granted x L [] true x L.
Proof using Type. intros B H. constructor; try done; [by left|]. intros _ va phys a Hin. by apply not_elem_of_nil in Hin. Qed.

Lemma granted_trans x L ps y L1 ps' ok z L2 :
  granted x L ps true y L1 -> granted y L1 ps' ok z L2 -> granted x L (ps ++ ps') ok z L2.
Proof using Type.
  intros G1 G2. constructor; try apply G2.
  - rewrite (gd_frames _ _ _ _ _ _ G2). apply G1.
  - intros b Hb. rewrite (gd_quiet _ _ _ _ _ _ G2) by done. by apply (gd_quiet _ _ _ _ _ _ G1).
  - intros t Ht. by apply (gd_old _ _ _ _ _ _ G2), (gd_old _ _ _ _ _ _ G1).
  - intros t Ht. destruct (gd_new _ _ _ _ _ _ G2 t Ht) as [Ht'|(ph & Hin & ?)]; [|right; exists ph; split; [apply elem_of_app; by right|done]].
    destruct (gd_new _ _ _ _ _ _ G1 t Ht') as [?|(ph & Hin & ?)]; [by left|right; exists ph; split; [apply elem_of_app; by left|done]].
  - intros E va ph a [Hin|Hin]%elem_of_app; [|by apply (gd_all _ _ _ _ _ _ G2 E va ph a)]. destruct (gd_all _ _ _ _ _ _ G1 eq_refl va ph a Hin) as [q Hq].
    exists q. by apply (gd_old _ _ _ _ _ _ G2).
Qed.
Lemma granted_app x L ps y L1 ps' : granted x L ps false y L1 -> granted x L (ps ++ ps') false y L1.
Proof using Type.
  intros G. constructor; try apply G; [|done]. intros t Ht. destruct (gd_new _ _ _ _ _ _ G t Ht) as [?|(ph & Hin & ?)]; [by left|right].
  exists ph. split; [apply elem_of_app; by left|done].
Qed.

Lemma grant_one x L va phys a :
  user_attrs a -> building W x0 x j L -> homed L -> (exists q, planned x va phys q) ->
  let '(ok, y) := grant_page st (mmu.user_table_addr st j) a va phys x in exists L', granted x L [(va, phys, a)] ok y L'.
Proof using Hst Hx0.
  intros Hat B HL (q & Hq). pose proof Hq as (Hva & Hnk & Hph & _).
  pose proof (building_grant W x0 x j L va phys q a Hx0 B (planned_grantable x L va phys q HL Hq) Hph Hva Hnk Hat) as H.
  destruct (grant_page _ _ _ _ _ x) as [[] y]; destruct H as (B' & F & Q).
  - exists (L ++ [(va, q, a)]). constructor; try done.
    + apply Forall_app. split; [done|]. apply Forall_singleton. apply Hq.
    + intros t Ht. apply elem_of_app. by left.
    + intros t [?| ->%list_elem_of_singleton]%elem_of_app; [by left|right]. exists phys. split; [by apply list_elem_of_singleton|done].
    + intros _ va' ph' a' [= -> -> ->]%list_elem_of_singleton. exists q. apply elem_of_app. right. by apply list_elem_of_singleton.
  - exists L. constructor; try done. by left.
Qed.

#[local] Abbreviation tagged a ps := ((fun vp : Z * Z => (vp.1, vp.2, a)) <$> ps).

Lemma planned_frames x y va phys q : frames y = frames x -> planned x va phys q -> planned y va phys q.
Proof using Type. intros F. unfold planned. by rewrite F. Qed.

Lemma grants_ok a ps : forall x L,
  user_attrs a -> building W x0 x j L -> homed L -> (forall va phys, (va, phys) ∈ ps -> exists q, planned x va phys q) ->
  let '(ok, y) := grant_pages st (mmu.user_table_addr st j) a ps x in exists L', granted x L (tagged a ps) ok y L'.
Proof using Hst Hx0.
  induction ps as [|[va phys] ps IH]; intros x L Hat B HL Hp; cbn [grant_pages].
  { exists L. by apply granted_nil. }
  pose proof (grant_one x L va phys a Hat B HL (Hp va phys ltac:(left))) as H.
  destruct (grant_page _ _ _ _ _ x) as [[] y]; destruct H as [L1 G1].
  - specialize (IH y L1 Hat (gd_build _ _ _ _ _ _ G1) (gd_homed _ _ _ _ _ _ G1)).
    destruct (grant_pages _ _ _ _ y) as [ok z]. destruct IH as [L' G2].
    { intros va' phys' Hin. destruct (Hp va' phys' ltac:(by right)) as (q' & Hq'). exists q'. eapply planned_frames; [apply G1|done]. }
    exists L'. exact (granted_trans _ _ _ _ _ _ _ _ _ G1 G2).
  - exists L1. exact (granted_app _ _ _ _ _ _ G1).
Qed.

(** The pages a list of segments asks for. *)
Definition seg_plan (l : elf.LoadedElf) (segs : list (Z * Z * Z)) : list (Z * Z * Z) :=
  s ← segs; tagged (mmu.prot_to_l2_flags (elf.flags_to_prot s.2)) (image_run l s.1.1 s.1.2).

Lemma segments_ok l segs : forall x L,
  building W x0 x j L -> homed L ->
  (forall s va phys, s ∈ segs -> s.1.1 mod 4096 = 0 -> (va, phys) ∈ image_run l s.1.1 s.1.2 -> exists q, planned x va phys q) ->
  let '(ok, y) := map_segments st (mmu.user_table_addr st j) l segs x in exists L', granted x L (seg_plan l segs) ok y L'.
Proof using Hst Hx0.
  induction segs as [|[[v m] fl] segs IH]; intros x L B HL Hp; cbn [map_segments]; [exists L; by apply granted_nil|].
  destruct (Z.eqb_spec (v mod PAGE_SIZE) 0) as [Hal|]; cbn [negb]; [|exists L; by apply granted_none].
  pose proof (grants_ok (mmu.prot_to_l2_flags (elf.flags_to_prot fl)) (image_run l v m) x L (prot_flags_shape _) B HL) as H.
  destruct (grant_pages _ _ _ _ x) as [[] y].
  - destruct H as [L1 G1]. { intros va phys Hin. apply (Hp (v, m, fl)); [left|done|done]. }
    specialize (IH y L1 (gd_build _ _ _ _ _ _ G1) (gd_homed _ _ _ _ _ _ G1)). destruct (map_segments _ _ _ _ y) as [ok z].
    destruct IH as [L' G2].
    { intros s va phys Hs Hals Hin. destruct (Hp s va phys ltac:(by right) Hals Hin) as (q & Hq). exists q. eapply planned_frames; [apply G1|done]. }
    exists L'. exact (granted_trans _ _ _ _ _ _ _ _ _ G1 G2).
  - destruct H as [L1 G1]. { intros va phys Hin. apply (Hp (v, m, fl)); [left|done|done]. }
    exists L1. exact (granted_app _ _ _ _ _ _ G1).
Qed.
End image.
(** ** Runs of frames *)

Lemma alloc_run_ok x n :
  minv x -> 0 <= n ->
  exists r x', alloc_run n x = Ret (r, x') /\ minv x' /\ geo x x' /\ mm x' = mm x /\
    match r with
    | None => frames x' = frames x
    | Some a => exists q, a = frame x q /\ 0 <= q /\ page.run q n ⊆ frames x /\ frames x' = frames x ∖ page.run q n /\
        forall q', 0 <= q' < q -> ~ page.run q' n ⊆ frames x
    end.
Proof using Hst.
  intros Hx Hn. unfold alloc_run. destruct (page.alloc_contiguous_ok (pg x) n (mi_page _ x Hx) Hn) as (op & p' & E & Hi & Hs & Hm & G).
  rewrite E. cbn [mbind outcome_bind fst snd]. exists (page.frame_addr (pg x) <$> op), (set_pg x p'). split; [done|].
  assert (page.free_set (page.PAGE_BITMAP p') ⊆ frames x) as Hsub.
  { inversion Hs; [apply subseteq_difference_l; reflexivity|]. unfold frames. congruence. }
  destruct (minv_taken st Hst x p' Hx Hi G Hm Hsub) as [Hx' Hmm]. split_and!; [done|exact G|done|].
  inversion Hs as [n' q H1 H2 H3 H4 H5 H6 H7|n' H1 H2 H3 H4]; cbn [fmap option_fmap option_map].
  - exists q. split_and!; [done|done|exact H3|symmetry; exact H7|exact H4].
  - symmetry. exact H4.
Qed.

Lemma free_run_ok x q n :
  minv x -> 0 < n -> (forall p, q <= p < q + n -> loose x p) ->
  exists x', free_run (frame x q) n x = Ret x' /\ released st x x' (frame x <$> seqZ q n) /\ x' = set_pg x (pg x').
Proof using Hst.
  intros Hx Hn Hl. unfold free_run.
  assert (forall p, q <= p < q + n -> 0 <= p < page.MAX_PAGES) as Hr by (intros p Hp; apply (mi_managed _ x Hx), (Hl p Hp)).
  pose proof (Hr q ltac:(lia)) as Hq. pose proof (Hr (q + n - 1) ltac:(lia)) as Hq'.
  destruct (frame_of_frame st x q Hx Hq) as [_ Hu].
  assert (page.releasable (pg x) (frame x q) n q) as Hrel.
  { split_and!; [done|done|lia|lia|]. intros p Hp%page.elem_of_run Hf. by destruct (Hl p ltac:(lia)) as (_ & Hn' & _). }
  assert (page.MAX_PAGES = 262144) as HM by reflexivity.
  destruct (page.free_contiguous_ok (pg x) (frame x q) n (mi_page _ x Hx) Hu ltac:(lia)) as [(p & p' & Hrp & E & Hi & R)|[Hno _]].
  { unfold page.PAGE_SIZE. unfold is_u32 in Hu. lia. }
  2: { by destruct (Hno q). }
  rewrite E. cbn [mbind outcome_bind snd]. exists (set_pg x p'). split_and!; [done| |done].
  assert (p = q) as -> by (symmetry; apply (frame_inj x); apply Hrp).
  destruct (minv_freed st Hst x p' q n Hx Hi R) as (Hx' & F & G & S & Hload).
  { intros p Hp. destruct (Hl p Hp) as (? & _ & ?). by split. }
  assert (forall a, frame x q <= a < frame x q + n * 4096 -> exists p, q <= p < q + n /\ frame x p <= a < frame x p + 4096) as Hpage.
  { intros a Ha. exists (q + (a - frame x q) / 4096). unfold frame, page.frame_addr, page.PAGE_SIZE in *. lia. }
  constructor; [done| | |done|done|].
  - split_and!; [rewrite F; apply union_subseteq_l|done|done|]. intros a _. rewrite Hload. destruct (decide _) as [Hin|]; [right|by left].
    destruct (Hpage a Hin) as (p & Hp & Hpa). exists p. split; [|done]. rewrite F, elem_of_union, page.elem_of_run. right. lia.
  - intros a Ha. rewrite Hload, decide_False; [done|]. intros (p & Hp & Hpa)%Hpage. by apply (mi_far _ x Hx p a (proj1 (Hl p Hp)) Hpa).
  - intros p. rewrite F, elem_of_union, page.elem_of_run. setoid_rewrite list_elem_of_fmap. setoid_rewrite elem_of_seqZ. split.
    + intros [?|?]; [by left|right]. split; [apply Hr; lia|]. exists p. split; [done|lia].
    + intros [?|[_ (p1 & E1 & Hp1)]]; [by left|right]. apply frame_inj in E1. lia.
Qed.
(** ** The pages of a new process *)

(** The allocator's frames lie above the kernel's megabytes. *)
Definition ram_layout x : Prop := forall q, managed x q -> 0x40200000 <= frame x q.

(** The stack of a process is mapped where its frames are, so they have to lie
    below the page of the trampoline, which is the last one the board's allocator
    manages. *)
Definition stack_low x (qs : Z) : Prop :=
  forall q, qs <= q < qs + Z.of_nat STACK_PAGES -> 0x40200000 <= frame x q /\ frame x q + 4096 <= signal.SIGNAL_TRAMPOLINE_VA.

(** Either the trampoline's page is not among the free frames, or below it there
    are as many free frames in a row as the largest image and two stacks take. *)
Definition stack_room x : Prop :=
  (forall q, q ∈ frames x -> frame x q + 4096 <= signal.SIGNAL_TRAMPOLINE_VA) \/
  exists q, 0 <= q /\ page.run q 264 ⊆ frames x /\ frame x (q + 264) <= signal.SIGNAL_TRAMPOLINE_VA.

(** The lowest run for a stack is a good one. *)
Definition low_stack x : Prop :=
  forall qs, 0 <= qs -> page.run qs (Z.of_nat STACK_PAGES) ⊆ frames x ->
    (forall q, 0 <= q < qs -> ~ page.run q (Z.of_nat STACK_PAGES) ⊆ frames x) -> stack_low x qs.

(** An image as the loader leaves it: its frames are taken and nobody's, its
    segments lie in the user window and in the image. *)
Record image_ok x0 (l : elf.LoadedElf) (q0 : Z) : Prop := {
  io_phys : elf.image_phys l = frame x0 q0;
  io_pages : 0 < elf.image_pages l;
  io_loose : forall q, q0 <= q < q0 + elf.image_pages l -> loose x0 q;
  io_segs : forall s, s ∈ elf.l_segments l -> 0 <= s.1.2 /\ signal.SIGNAL_TRAMPOLINE_VA + 4096 <= s.1.1 /\ s.1.1 + s.1.2 <= RAM_END /\
    0 <= elf.image_lo l <= s.1.1 /\ s.1.1 - elf.image_lo l + s.1.2 <= elf.image_pages l * 4096;
}.

Lemma free_unmapped x q i va e : minv x -> q ∈ frames x -> mapped x i va e -> frame_of e <> frame x q.
Proof using Type.
  intros Hx Hq Hm He. by destruct (mi_own _ x Hx i va e q Hm (mi_managed _ x Hx q (mi_free _ x Hx q Hq)) He).
Qed.

Lemma frame_of_off x q d : minv x -> 0 <= q < page.MAX_PAGES -> 0 <= d < 4096 -> frame_of (frame x q + d) = frame x q.
Proof using Type.
  intros Hx Hq Hd. destruct (frame_of_frame st x q Hx Hq) as [E Hu]. destruct (mi_page _ x Hx) as [_ _ [H0 H1]]. pose proof (mi_align _ x Hx).
  assert (frame x q mod 4096 = 0) as Hal by (unfold frame, page.frame_addr, page.PAGE_SIZE; lia).
  unfold frame_of. change 0xFFFFF000 with (not32 (2 ^ 12 - 1)). rewrite land_not_mask by (unfold is_u32 in *; lia). lia.
Qed.

Lemma frame_next x q n : frame x (q + n) = frame x q + n * 4096.
Proof using Type. unfold frame, page.frame_addr, page.PAGE_SIZE. lia. Qed.

Section plan.
Context (x0 : machine) (Hx0 : minv x0) (l : elf.LoadedElf) (q0 qs qt : Z) (Hl : image_ok x0 l q0).
Context (Hs : page.run qs (Z.of_nat STACK_PAGES) ⊆ frames x0) (Ht : qt ∈ frames x0) (Hts : ~ qs <= qt < qs + 4) (Hlow : stack_low x0 qs).

(** The virtual page a frame may be mapped at. *)
Definition home (q : Z) : Z :=
  if decide (qs <= q < qs + 4) then frame x0 q / 4096 else
  if decide (q = qt) then mmu.vpage signal.SIGNAL_TRAMPOLINE_VA else (elf.image_lo l + 4095) / 4096 + (q - q0).

Lemma stack_free q : qs <= q < qs + 4 -> q ∈ frames x0.
Proof using Hs. intros Hq. apply Hs, page.elem_of_run. change (Z.of_nat STACK_PAGES) with 4. lia. Qed.

(** The frame behind a page of the image. *)
Lemma image_frame s va phys :
  s ∈ elf.l_segments l -> (va, phys) ∈ image_run l s.1.1 s.1.2 ->
  (exists p, 0 <= p /\ p * 4096 < s.1.2 /\ va = s.1.1 + p * 4096) /\
  q0 <= q0 + (va - elf.image_lo l) / 4096 < q0 + elf.image_pages l /\ frame_of phys = frame x0 (q0 + (va - elf.image_lo l) / 4096).
Proof using Hx0 Hl.
  intros Hin (p & [= -> ->] & Hp%elem_of_seqZ)%list_elem_of_fmap.
  destruct (io_segs _ _ _ Hl s Hin) as (Hm & Hlo & Hhi & Hlo' & Hsp). unfold elf.div_ceil, page.PAGE_SIZE, RAM_END, signal.SIGNAL_TRAMPOLINE_VA in *.
  rewrite (wrap32_small (s.1.1 + p * PAGE_SIZE)) by (unfold PAGE_SIZE, page.PAGE_SIZE, is_u32; lia). unfold PAGE_SIZE, page.PAGE_SIZE.
  set (d := s.1.1 + p * 4096 - elf.image_lo l). assert (q0 <= q0 + d / 4096 < q0 + elf.image_pages l) as Hq by lia.
  split_and!; [exists p; split_and!; [lia|lia|done]|lia|lia|].
  pose proof (mi_managed _ x0 Hx0 _ (proj1 (io_loose _ _ _ Hl _ Hq))) as Hr. destruct (mi_page _ x0 Hx0) as [_ _ [Hb0 Hb1]].
  assert (elf.image_phys l + d = frame x0 (q0 + d / 4096) + d mod 4096) as -> by (rewrite (io_phys _ _ _ Hl), frame_next; lia).
  rewrite wrap32_small by (unfold is_u32, frame, page.frame_addr, page.PAGE_SIZE in *; lia). apply frame_of_off; [done|done|lia].
Qed.

Lemma planned_image x s va phys :
  frames x ⊆ frames x0 -> s ∈ elf.l_segments l -> s.1.1 mod 4096 = 0 -> (va, phys) ∈ image_run l s.1.1 s.1.2 ->
  exists q, planned x0 home x va phys q.
Proof using Hx0 Hl Hs Ht.
  intros Hf Hin Hal Hrun. destruct (image_frame s va phys Hin Hrun) as ((p & Hp & Hpm & ->) & Hq & Hph).
  destruct (io_segs _ _ _ Hl s Hin) as (Hm & Hlo & Hhi & Hlo' & Hsp). unfold RAM_END, signal.SIGNAL_TRAMPOLINE_VA in *.
  set (q := q0 + _) in *. exists q. destruct (io_loose _ _ _ Hl q Hq) as (Hmg & Hnf & Hun).
  split_and!; [unfold is_u32; lia|unfold mmu.kernel_mb, mmu.vmb; lia|done|done|by intros ?%Hf|done|].
  unfold home. rewrite decide_False by (intros ?%stack_free; by apply Hnf). rewrite decide_False by (intros E; apply Hnf; by rewrite E).
  unfold mmu.vpage, q. lia.
Qed.

Lemma planned_stack x i :
  (forall q, qs <= q < qs + 4 -> q ∉ frames x) -> (i < STACK_PAGES)%nat ->
  page_va (frame x0 qs) i = frame x0 (qs + Z.of_nat i) /\
  planned x0 home x (page_va (frame x0 qs) i) (page_va (frame x0 qs) i) (qs + Z.of_nat i).
Proof using Hx0 Hlow Hs.
  intros Hf Hi. unfold STACK_PAGES in Hi. set (q := qs + Z.of_nat i). assert (qs <= q < qs + 4) as Hq by lia.
  pose proof (stack_free q Hq) as Hfr. pose proof (mi_free _ x0 Hx0 q Hfr) as Hm. pose proof (Hlow q Hq) as Hb. unfold signal.SIGNAL_TRAMPOLINE_VA in Hb.
  destruct (frame_of_frame st x0 q Hx0 (mi_managed _ x0 Hx0 q Hm)) as [E Hu].
  assert (page_va (frame x0 qs) i = frame x0 q) as Hva.
  { unfold page_va, PAGE_SIZE, page.PAGE_SIZE. rewrite <- frame_next. by apply wrap32_small. }
  split; [done|]. rewrite Hva. split_and!; [done|unfold mmu.kernel_mb, mmu.vmb; lia|done|done|by apply Hf|by intros i' va' e; apply free_unmapped|].
  unfold home. by rewrite decide_True by done.
Qed.

Lemma planned_tramp x : qt ∉ frames x -> planned x0 home x signal.SIGNAL_TRAMPOLINE_VA (frame x0 qt) qt.
Proof using Hx0 Ht Hts.
  intros Hf. pose proof (mi_free _ x0 Hx0 qt Ht) as Hm. destruct (frame_of_frame st x0 qt Hx0 (mi_managed _ x0 Hx0 qt Hm)) as [E Hu].
  split_and!; [done|unfold mmu.kernel_mb, mmu.vmb, signal.SIGNAL_TRAMPOLINE_VA; lia|done|done|done|by intros i' va' e; apply free_unmapped|].
  unfold home. by rewrite decide_False, decide_True by done.
Qed.
End plan.
(** ** The three mappings *)

#[local] Abbreviation none := (fun _ : Z => False).
#[local] Abbreviation in_frame x q := (fun a : Z => frame x q <= a < frame x q + 4096).
#[local] Abbreviation RX := (mmu.prot_to_l2_flags (Z.lor mmu.PROT_READ mmu.PROT_EXEC)).
#[local] Abbreviation RW := (mmu.prot_to_l2_flags (Z.lor mmu.PROT_READ mmu.PROT_WRITE)).

Lemma building_taken W x0 x y j L :
  building W x0 x j L -> minv y -> geo x y -> mm y = mm x -> frames y ⊆ frames x -> building W x0 y j L.
Proof using Type.
  intros B Hy G Hmm F. assert (ram y = ram x) as Hr by (exact (f_equal mmu.mem Hmm)).
  assert (space_alloc y = space_alloc x) as Ha by (exact (f_equal mmu.ADDR_SPACE_ALLOC Hmm)).
  apply (building_step W W x0 x y); try done; [|by etrans; [exact F|apply B]|intros a _ _; by rewrite Hr].
  intros i va e. unfold vm.mapped, space_live. by rewrite Hr, Hmm.
Qed.

(** The trampoline's two instructions. *)
Definition tramp_written (m : memory) (phys : Z) : Prop :=
  load32 m phys = TRAMPOLINE_MOV_R7_SIGRETURN /\ load32 m (phys + 4) = TRAMPOLINE_SVC_0.

Lemma tramp_load phys m : tramp_written (write_trampoline_page phys m) phys.
Proof using Type.
  unfold tramp_written, write_trampoline_page. rewrite load32_store32 by (unfold is_u32, TRAMPOLINE_SVC_0; lia). split; [|done].
  rewrite (load32_ext (store32 m phys TRAMPOLINE_MOV_R7_SIGRETURN)); [apply load32_store32; unfold is_u32, TRAMPOLINE_MOV_R7_SIGRETURN; lia|].
  intros b Hb. apply load8_store32_ne. lia.
Qed.

Lemma tramp_other phys m a : ~ (phys <= a < phys + 8) -> load8 (write_trampoline_page phys m) a = load8 m a.
Proof using Type. intros Ha. unfold write_trampoline_page. by rewrite !load8_store32_ne by lia. Qed.

Lemma tramp_bytes phys m : bytes m -> bytes (write_trampoline_page phys m).
Proof using Type. intros Hm. unfold write_trampoline_page. by apply bytes_store32, bytes_store32. Qed.

(** What [map_signal_trampoline] does to a space under construction. *)
Lemma tramp_ok x0 x j :
  minv x0 -> building none x0 x j [] ->
  let '(r, y) := map_signal_trampoline st (mmu.user_table_addr st j) x in
  match r with
  | None => building none x0 y j [] /\ frames y = frames x
  | Some phys => exists q, phys = frame x0 q /\ q ∈ frames x /\ frames y = frames x ∖ {[q]} /\
      building (in_frame x0 q) x0 y j [(signal.SIGNAL_TRAMPOLINE_VA, q, RX)] /\ tramp_written (ram y) phys
  end.
Proof using Hst.
  intros Hx0 B. pose proof (b_inv _ _ _ _ _ B) as Hx. pose proof (b_geo _ _ _ _ _ B) as G. unfold map_signal_trampoline.
  pose proof (vm.alloc_ok st Hst x Hx) as Ha. destruct (alloc_page x) as [[phys|] x1]; [|destruct Ha as [-> _]; by split].
  destruct Ha as (q & Hq & -> & F1 & G1 & M1 & Hx1). rewrite (geo_frame x0 x) by done.
  assert (building none x0 x1 j []) as B1. { eapply building_taken; try done. rewrite F1. apply subseteq_difference_l. reflexivity. }
  assert (q ∈ frames x0) as Hq0 by (by apply (b_frames _ _ _ _ _ B)). pose proof (mi_free _ x0 Hx0 q Hq0) as Hm0.
  destruct (frame_of_frame st x0 q Hx0 (mi_managed _ x0 Hx0 q Hm0)) as [Ef Hu].
  assert (q ∉ frames x1) as Hq1. { rewrite F1. intros [_ Hn]%elem_of_difference. by apply Hn, elem_of_singleton. }
  pose proof (building_grant none x0 x1 j [] signal.SIGNAL_TRAMPOLINE_VA (frame x0 q) q RX Hx0 B1) as H.
  destruct (grant_page _ _ _ _ _ _) as [[] y].
  - destruct H as (B2 & F2 & Q2); [|done|done|by intros [? ?]|apply prot_flags_shape|].
    { split_and!; [done|done|by intros i va e; apply free_unmapped|]. intros va a Hin. by apply not_elem_of_nil in Hin. }
    cbn [app] in B2. set (m' := write_trampoline_page (frame x0 q) (ram y)).
    pose proof (b_inv _ _ _ _ _ B2) as Hy. pose proof (b_geo _ _ _ _ _ B2) as G2.
    destruct (write_frames_ok st Hst y m' Hy) as [Hz Sz]; [apply tramp_bytes, Hy| |].
    { intros a. destruct (decide (frame x0 q <= a < frame x0 q + 8)) as [Hin|Hn]; [right|left; by apply tramp_other].
      exists q. rewrite (geo_frame x0 y) by done. split_and!; [by apply (geo_managed x0)|by rewrite F2|lia|lia]. }
    exists q. split_and!; [done|done|by rewrite <- F1, <- F2| |apply tramp_load].
    apply (building_step none (in_frame x0 q) x0 y); try done; [apply B2|]. intros a _ Hn. apply tramp_other. lia.
  - destruct H as (B2 & F2 & Q2); [|done|done|by intros [? ?]|apply prot_flags_shape|].
    { split_and!; [done|done|by intros i va e; apply free_unmapped|]. intros va a Hin. by apply not_elem_of_nil in Hin. }
    pose proof (b_inv _ _ _ _ _ B2) as Hy. pose proof (b_geo _ _ _ _ _ B2) as G2.
    destruct (free_ok st Hst y q Hy) as (Hz & Fz & Gz & Az & Sz & Lz); [by apply (geo_managed x0)|by rewrite F2| |].
    { intros i va e Hma. rewrite (geo_frame x0 y) by done. destruct (decide (i = j)) as [->|Hne].
      - destruct (b_sub _ _ _ _ _ B2 va e Hma) as (? & ? & ? & Hin & _). by apply not_elem_of_nil in Hin.
      - apply (b_other _ _ _ _ _ B2) in Hma; [|done]. by apply (free_unmapped x0 q i va). }
    rewrite (geo_frame x0 y) in Hz, Fz, Gz, Az, Sz, Lz by done. split.
    + apply (building_step none none x0 y); try done.
      * rewrite Fz, F2, F1. intros p [[? _]%elem_of_difference| ->%elem_of_singleton]%elem_of_union; [by apply (b_frames _ _ _ _ _ B)|done].
      * intros a Ha _. rewrite Lz. destruct (decide _) as [Hin|]; [|done]. rewrite (b_load _ _ _ _ _ B2) by auto. symmetry. by apply (mi_clean _ x0 Hx0 q).
    + rewrite Fz, F2, F1. apply set_eq. intros p. rewrite elem_of_union, elem_of_difference, elem_of_singleton. destruct (decide (p = q)) as [->|]; tauto.
Qed.
Lemma segments_aligned pt l segs : forall x,
  (map_segments st pt l segs x).1 = true -> Forall (fun s => s.1.1 mod 4096 = 0) segs.
Proof using Type.
  induction segs as [|[[v m] fl] segs IH]; intros x; cbn [map_segments]; [intros _; by apply Forall_nil|].
  destruct (Z.eqb_spec (v mod PAGE_SIZE) 0) as [Hal|]; cbn [negb]; [|done].
  destruct (grant_pages _ _ _ _ x) as [[] y]; [|done]. intros H. apply Forall_cons. split; [exact Hal|by eapply IH].
Qed.

Definition stack_plan (base : Z) : list (Z * Z * Z) :=
  (fun vp => (vp.1, vp.2, RW)) <$> ((fun i => (page_va base i, page_va base i)) <$> seq 0 STACK_PAGES).

(** The pages of the image and the stack. *)
Definition user_plan (l : elf.LoadedElf) (base : Z) : list (Z * Z * Z) := seg_plan l (elf.l_segments l) ++ stack_plan base.

Lemma map_all_ok x0 x j l q0 qs :
  minv x0 -> stack_low x0 qs -> image_ok x0 l q0 -> page.run qs (Z.of_nat STACK_PAGES) ⊆ frames x0 ->
  building none x0 x j [] -> frames x = frames x0 ∖ page.run qs (Z.of_nat STACK_PAGES) ->
  let '(ok, t, y) := map_all st (mmu.user_table_addr st j) (frame x0 qs) l x in
  match t with
  | None => ok = false /\ building none x0 y j [] /\ frames y = frames x
  | Some phys => exists qt z L, phys = frame x0 qt /\ qt ∈ frames x /\ frames y = frames x ∖ {[qt]} /\ tramp_written (ram y) phys /\
      granted (in_frame x0 qt) x0 j (home x0 l q0 qs qt) z [(signal.SIGNAL_TRAMPOLINE_VA, qt, RX)] (user_plan l (frame x0 qs)) ok y L /\
      (ok = true -> Forall (fun s => s.1.1 mod 4096 = 0) (elf.l_segments l))
  end.
Proof using Hst.
  intros Hx0 Hlow Hl Hs B F. unfold map_all. pose proof (tramp_ok x0 x j Hx0 B) as Ht.
  destruct (map_signal_trampoline _ _ x) as [[phys|] z]; [|done]. destruct Ht as (qt & -> & Hqt & Fz & Bz & Hw).
  assert (qt ∈ frames x0 /\ ~ qs <= qt < qs + 4) as [Hq0 Hqs].
  { rewrite F in Hqt. apply elem_of_difference in Hqt as [? Hn]. split; [done|]. intros ?. apply Hn, page.elem_of_run. done. }
  assert (frames z ⊆ frames x0) as Hz0 by apply Bz.
  assert (forall q, qs <= q < qs + 4 -> q ∉ frames z) as Hsz.
  { intros q Hq. rewrite Fz, F. intros [[_ Hn]%elem_of_difference _]%elem_of_difference. apply Hn, page.elem_of_run. done. }
  assert (Forall (fun t : Z * Z * Z => mmu.vpage t.1.1 = home x0 l q0 qs qt t.1.2) [(signal.SIGNAL_TRAMPOLINE_VA, qt, RX)]) as HL.
  { apply Forall_singleton. cbn. unfold home. by rewrite decide_False, decide_True by done. }
  assert (forall a, (forall q, managed x0 q -> frame x0 q <= a < frame x0 q + 4096 -> ~ in_tables a)) as Hfar by (intros a q; by apply mi_apart).
  assert (forall m, (forall b, ~ in_tables b -> load8 m b = load8 (ram z) b) -> tramp_written m (frame x0 qt)) as Hkeep.
  { intros m Hm. pose proof (mi_free _ x0 Hx0 qt Hq0) as Hmq. destruct Hw as [H1 H2]. unfold tramp_written. rewrite <- H1, <- H2.
    split; apply load32_ext; intros b Hb; apply Hm, (Hfar b qt Hmq); lia. }
  unfold map_user_image.
  pose proof (segments_ok (in_frame x0 qt) x0 Hx0 j (home x0 l q0 qs qt) l (elf.l_segments l) z _ Bz HL) as H.
  pose proof (segments_aligned (mmu.user_table_addr st j) l (elf.l_segments l) z) as Hsa.
  destruct (map_segments _ _ _ _ z) as [[] y]; (destruct H as [L1 G1];
    [intros s va phys Hin Hal Hrun; destruct (planned_image x0 Hx0 l q0 qs qt Hl Hs Hq0 z s va phys Hz0 Hin Hal Hrun) as (q & Hp); by exists q|]).
  - unfold map_user_stack.
    pose proof (grants_ok (in_frame x0 qt) x0 Hx0 j (home x0 l q0 qs qt) RW ((fun i => (page_va (frame x0 qs) i, page_va (frame x0 qs) i)) <$> seq 0 STACK_PAGES) y L1
      (prot_flags_shape _) (gd_build _ _ _ _ _ _ _ _ _ _ G1) (gd_homed _ _ _ _ _ _ _ _ _ _ G1)) as H.
    destruct (grant_pages _ _ _ _ y) as [ok w]. destruct H as [L2 G2].
    { intros va phys (i & [= -> ->] & Hi%elem_of_seq)%list_elem_of_fmap. exists (qs + Z.of_nat i).
      apply (planned_frames x0 (home x0 l q0 qs qt) z); [apply G1|]. by apply planned_stack; [..|lia]. }
    pose proof (granted_trans _ _ _ _ _ _ _ _ _ _ _ _ _ G1 G2) as G. exists qt, z, L2.
    split_and!; [done|done|rewrite <- Fz; apply G|apply Hkeep, G|exact G|by intros _; apply Hsa].
  - exists qt, z, L1. split_and!; [done|done|rewrite <- Fz; apply G1|apply Hkeep, G1|exact (granted_app _ _ _ _ _ _ _ _ _ _ G1)|done].
Qed.
(** ** Giving up *)

(** The frames of [Lf] went back, and nothing else changed for any process. *)
Record given_back x x' (Lf : list Z) : Prop := {
  gb_inv : minv x';
  gb_settled : settled st x x';
  gb_maps : same_maps x x';
  gb_frames : forall p, p ∈ frames x' <-> p ∈ frames x \/ (0 <= p < page.MAX_PAGES /\ frame x p ∈ Lf);
}.

Lemma released_back x x' Lf : released st x x' Lf -> given_back x x' Lf.
Proof using Type. intros R. constructor; apply R. Qed.

Lemma loose_retired W x0 x j L q :
  minv x0 -> building W x0 x j L -> managed x0 q -> q ∉ frames x -> (forall i va e, mapped x0 i va e -> frame_of e <> frame x0 q) ->
  loose (retire j x) q.
Proof using Type.
  intros Hx0 B Hm Hn Hun. pose proof (b_geo _ _ _ _ _ B) as G. split_and!; [by apply (geo_managed x0 x)|done|].
  intros i va e [Hi Hma]%mapped_retire; [|apply B]. change (frame (retire j x) q) with (frame x q). rewrite (geo_frame x0 x) by done.
  apply (b_other _ _ _ _ _ B) in Hma; [|done]. by eapply Hun.
Qed.

Lemma elem_frames x y p q n : geo x y -> frame x p ∈ (frame y <$> seqZ q n) <-> q <= p < q + n.
Proof using Type.
  intros G. rewrite list_elem_of_fmap. split.
  - intros (p' & E & Hp'%elem_of_seqZ). rewrite (geo_frame x y) in E by done. apply frame_inj in E. lia.
  - intros Hp. exists p. rewrite (geo_frame x y) by done. split; [done|]. by apply elem_of_seqZ.
Qed.

(** One more run is freed while space [j] still maps it. *)
Lemma free_run_more xb j y Lf q n :
  released st (retire j xb) (retire j y) Lf -> 0 < n -> (forall p, q <= p < q + n -> loose (retire j xb) p /\ frame xb p ∉ Lf) ->
  exists y', free_run (frame xb q) n y = Ret y' /\ released st (retire j xb) (retire j y') (Lf ++ (frame xb <$> seqZ q n)) /\
    l2_alloc y' = l2_alloc y /\ space_alloc y' = space_alloc y.
Proof using Hst.
  intros R Hn Hl. destruct (re_settled _ _ _ _ R) as (_ & G & _).
  destruct (free_run_ok (retire j y) q n (re_inv _ _ _ _ R) Hn) as (x' & E & R' & Hx').
  { intros p Hp. destruct (Hl p Hp) as [H1 H2]. by apply (loose_released st (retire j xb) (retire j y) Lf p (frame xb p)). }
  rewrite (geo_frame (retire j xb)) in E by done. change (frame (retire j xb) q) with (frame xb q) in E.
  unfold free_run in *. change (pg (retire j y)) with (pg y) in E. destruct (page.free_contiguous _ _ _) as [[b p']|]; [|done].
  cbn [mbind outcome_bind snd] in *. injection E as <-. exists (set_pg y p'). split_and!; [done| |done|done].
  eapply released_trans; [exact R|]. change (retire j (set_pg y p')) with (set_pg (retire j y) p').
  replace (frame xb <$> seqZ q n) with (frame (retire j y) <$> seqZ q n); [exact R'|].
  apply list_fmap_ext. intros _ p _. by rewrite (geo_frame (retire j xb)).
Qed.

Lemma undo_ok W x0 xb j L x1 Lf Lg :
  minv x0 -> building W x0 xb j L -> released st (retire j xb) (retire j x1) Lf ->
  l2_alloc x1 = l2_alloc xb -> space_alloc x1 = space_alloc xb ->
  (forall p, 0 <= p < page.MAX_PAGES -> p ∈ frames xb \/ frame x0 p ∈ Lf <-> p ∈ frames x0 \/ frame x0 p ∈ Lg) ->
  (forall a, W a -> exists p, p ∈ frames x0 /\ frame x0 p <= a < frame x0 p + 4096) ->
  given_back x0 (set_mm x1 (mmu.free_addr_space st (mmu.user_table_addr st j) (mm x1)).2) Lg.
Proof using Hst.
  intros Hx0 B R El Ea HF HW. pose proof (b_geo _ _ _ _ _ B) as G. pose proof (b_space _ _ _ _ _ B) as Hj.
  assert (space_live xb j) as Hl by (apply (b_live _ _ _ _ _ B); by left).
  destruct (close_ok st Hst xb x1 j Lf (b_inv _ _ _ _ _ B) Hl R El Ea) as (Hx' & G' & A' & Hlive & Hmap & Hfr & Hload).
  cbv zeta in *. set (x' := set_mm x1 _) in *.
  assert (forall p, p ∈ frames x' <-> p ∈ frames x0 \/ (0 <= p < page.MAX_PAGES /\ frame x0 p ∈ Lg)) as Hfrx.
  { intros p. rewrite Hfr, (geo_frame x0 xb) by done. split.
    - intros [Hp|[Hr Hp]]; [left; by apply (b_frames _ _ _ _ _ B)|]. destruct (proj1 (HF p Hr)) as [?|?]; [by right|by left|by right].
    - intros [Hp|[Hr Hp]].
      + pose proof (mi_managed _ x0 Hx0 p (mi_free _ x0 Hx0 p Hp)) as Hr. destruct (proj2 (HF p Hr)) as [?|?]; [by left|by left|by right].
      + destruct (proj2 (HF p Hr)) as [?|?]; [by right|by left|by right]. }
  constructor; [done| | |done].
  - split_and!.
    + intros p Hp. apply Hfrx. by left.
    + by eapply geo_trans.
    + rewrite A', (b_mask _ _ _ _ _ B). apply mask_back; [lia|]. pose proof (b_fresh _ _ _ _ _ B) as Hf.
      destruct (Z.testbit _ j) eqn:Et; [|done]. by destruct Hf.
    + intros a Ha. destruct (Hload a Ha) as [Eq|(p & Hp & Hin)].
      * destruct (decide (exists p, p ∈ frames x' /\ frame x0 p <= a < frame x0 p + 4096)) as [?|Hno]; [by right|left].
        rewrite Eq. apply (b_load _ _ _ _ _ B); [done|]. intros (p & Hp & Hin)%HW. apply Hno. exists p. split; [apply Hfrx; by left|done].
      * right. exists p. by rewrite <- (geo_frame x0 xb).
  - intros i va e. rewrite Hmap. destruct (decide (i = j)) as [->|Hne].
    + split; [by intros [? _]|]. intros (Hlv & _). by destruct (b_fresh _ _ _ _ _ B).
    + rewrite (b_other _ _ _ _ _ B) by done. naive_solver.
Qed.
(** ** [spawn_user] *)

(** The new space [j] with its image, its stack on frames [qs ..] and its
    trampoline on frame [qt]. *)
Record spawned x0 (l : elf.LoadedElf) (q0 j qs qt : Z) x' : Prop := {
  sw_low : stack_low x0 qs;
  sw_stack : page.run qs (Z.of_nat STACK_PAGES) ⊆ frames x0;
  sw_tramp : qt ∈ frames x0 /\ ~ qs <= qt < qs + 4;
  sw_frames : frames x' = frames x0 ∖ page.run qs (Z.of_nat STACK_PAGES) ∖ {[qt]};
  sw_code : tramp_written (ram x') (frame x0 qt);
  sw_aligned : Forall (fun s => s.1.1 mod 4096 = 0) (elf.l_segments l);
  sw_granted : exists z L, granted (in_frame x0 qt) x0 j (home x0 l q0 qs qt) z [(signal.SIGNAL_TRAMPOLINE_VA, qt, RX)]
    (user_plan l (frame x0 qs)) true x' L;
}.

Section failures.
Context (x0 : machine) (Hx0 : minv x0) (l : elf.LoadedElf) (q0 : Z) (Hl : image_ok x0 l q0).
#[local] Abbreviation image_frames := (frame x0 <$> seqZ q0 (elf.image_pages l)).

Lemma free_image_ok : exists x', free_unspawned_image l x0 = Ret x' /\ given_back x0 x' image_frames.
Proof using Hst Hx0 Hl.
  unfold free_unspawned_image. rewrite (proj2 (Z.ltb_lt _ _) (io_pages _ _ _ Hl)), (io_phys _ _ _ Hl).
  destruct (free_run_ok x0 q0 (elf.image_pages l) Hx0 (io_pages _ _ _ Hl) (io_loose _ _ _ Hl)) as (x' & E & R & _).
  exists x'. split; [done|]. by apply released_back.
Qed.

(** Freeing the image of a space under construction, then perhaps its stack. *)
Lemma free_image_retired W xb j L y Lf :
  building W x0 xb j L -> released st (retire j xb) (retire j y) Lf ->
  (forall p, q0 <= p < q0 + elf.image_pages l -> frame xb p ∉ Lf) ->
  exists y', free_unspawned_image l y = Ret y' /\ released st (retire j xb) (retire j y') (Lf ++ (frame xb <$> seqZ q0 (elf.image_pages l))) /\
    l2_alloc y' = l2_alloc y /\ space_alloc y' = space_alloc y.
Proof using Hst Hx0 Hl.
  intros B R Hn. unfold free_unspawned_image. rewrite (proj2 (Z.ltb_lt _ _) (io_pages _ _ _ Hl)), (io_phys _ _ _ Hl).
  rewrite <- (geo_frame x0 xb) by apply B. apply free_run_more; [done|apply Hl|]. intros p Hp. split; [|by apply Hn].
  destruct (io_loose _ _ _ Hl p Hp) as (H1 & H2 & H3). eapply loose_retired; try done. intros ?%(b_frames _ _ _ _ _ B). done.
Qed.

Lemma free_stack_retired W xb j L y Lf qs :
  building W x0 xb j L -> released st (retire j xb) (retire j y) Lf -> page.run qs (Z.of_nat STACK_PAGES) ⊆ frames x0 ->
  (forall p, qs <= p < qs + 4 -> (p ∉ frames xb) /\ frame xb p ∉ Lf) ->
  exists y', free_run (frame x0 qs) (Z.of_nat STACK_PAGES) y = Ret y' /\
    released st (retire j xb) (retire j y') (Lf ++ (frame xb <$> seqZ qs (Z.of_nat STACK_PAGES))) /\
    l2_alloc y' = l2_alloc y /\ space_alloc y' = space_alloc y.
Proof using Hst Hx0.
  intros B R Hs Hn. rewrite <- (geo_frame x0 xb) by apply B. apply free_run_more; [done|done|]. intros p Hp.
  change (Z.of_nat STACK_PAGES) with 4 in *. destruct (Hn p Hp) as [H1 H2]. split; [|done].
  assert (p ∈ frames x0) as Hf by (apply Hs, page.elem_of_run; lia).
  eapply loose_retired; try done; [by apply (mi_free _ x0 Hx0)|by intros i va e; apply free_unmapped].
Qed.

Lemma release_tramp W xb j L q :
  building W x0 xb j L -> q ∈ frames x0 -> q ∉ frames xb ->
  released st (retire j xb) (retire j (free_page (frame x0 q) xb)) [frame xb q].
Proof using Hst Hx0.
  intros B Hq Hn. change (retire j (free_page (frame x0 q) xb)) with (free_page (frame x0 q) (retire j xb)).
  rewrite <- (geo_frame x0 xb) by apply B. apply released_one; [done|apply minv_retire; apply B|]. intros p Hp E.
  change (frame (retire j xb) p) with (frame xb p) in E. apply frame_inj in E as <-.
  eapply loose_retired; try done; [by apply (mi_free _ x0 Hx0)|by intros i va e; apply free_unmapped].
Qed.
(** The rollback after a failed mapping. *)
Lemma unwind_ok (W : Z -> Prop) xb j L t qs :
  building W x0 xb j L -> page.run qs (Z.of_nat STACK_PAGES) ⊆ frames x0 ->
  match t with
  | None => frames xb = frames x0 ∖ page.run qs (Z.of_nat STACK_PAGES) /\ forall a, ~ W a
  | Some phys => exists qt, phys = frame x0 qt /\ qt ∈ frames x0 /\ ~ qs <= qt < qs + 4 /\
      frames xb = frames x0 ∖ page.run qs (Z.of_nat STACK_PAGES) ∖ {[qt]} /\ forall a, W a -> frame x0 qt <= a < frame x0 qt + 4096
  end ->
  exists y1 y2, free_unspawned_image l (match t with Some phys => free_page phys xb | None => xb end) = Ret y1 /\
    free_run (frame x0 qs) (Z.of_nat STACK_PAGES) y1 = Ret y2 /\
    given_back x0 (set_mm y2 (mmu.free_addr_space st (mmu.user_table_addr st j) (mm y2)).2) image_frames.
Proof using Hst Hx0 Hl.
  intros B Hs Ht. pose proof (b_geo _ _ _ _ _ B) as G. set (xt := match t with Some phys => free_page phys xb | None => xb end).
  assert (forall p, qs <= p < qs + 4 -> p ∈ frames x0) as Hsf by (intros p Hp; apply Hs, page.elem_of_run; done).
  assert (forall p, q0 <= p < q0 + elf.image_pages l -> p ∉ frames x0) as Himg by (intros p Hp; apply (io_loose _ _ _ Hl p Hp)).
  assert (exists Lt, released st (retire j xb) (retire j xt) Lt /\ l2_alloc xt = l2_alloc xb /\ space_alloc xt = space_alloc xb /\
    (forall p, frame xb p ∈ Lt -> p ∈ frames x0 /\ ~ qs <= p < qs + 4) /\
    (forall p, p ∈ frames xb \/ frame xb p ∈ Lt <-> p ∈ frames x0 /\ ~ qs <= p < qs + 4) /\
    (forall a, W a -> exists p, p ∈ frames x0 /\ frame x0 p <= a < frame x0 p + 4096)) as (Lt & R & El & Ea & HLt & HF & HW).
  { destruct t as [phys|].
    - destruct Ht as (qt & -> & Hqt & Hne & F & HW). exists [frame xb qt].
      assert (qt ∉ frames xb) as Hn by (rewrite F; intros [_ H]%elem_of_difference; by apply H, elem_of_singleton).
      split_and!; [by eapply release_tramp|done|done| | |].
      + intros p ->%list_elem_of_singleton%frame_inj. done.
      + intros p. rewrite F, !elem_of_difference, page.elem_of_run, elem_of_singleton, list_elem_of_singleton. change (Z.of_nat STACK_PAGES) with 4.
        split; [intros [[[? ?] ?]| ->%frame_inj]; [split; [done|lia]|done]|]. intros [? ?]. destruct (decide (p = qt)) as [->|]; [by right|left; split_and!; [done|lia|done]].
      + intros a Ha. exists qt. split; [done|by apply HW].
    - destruct Ht as [F HW]. exists []. split_and!; [apply released_nil, minv_retire; apply B|done|done|by intros p ?%not_elem_of_nil| |by intros a ?%HW].
      intros p. rewrite F, elem_of_difference, page.elem_of_run, elem_of_nil. change (Z.of_nat STACK_PAGES) with 4. split; [intros [[? ?]|[]]; split; [done|lia]|].
      intros [? ?]. left. split; [done|lia]. }
  destruct (free_image_retired W xb j L xt Lt B R) as (y1 & E1 & R1 & El1 & Ea1).
  { intros p Hp [Hin _]%HLt. by apply (Himg p). }
  destruct (free_stack_retired W xb j L y1 _ qs B R1 Hs) as (y2 & E2 & R2 & El2 & Ea2).
  { intros p Hp. split; [intros Hin; by destruct (proj1 (HF p) (or_introl Hin)) as [_ []]|].
    rewrite elem_of_app, elem_frames by by split_and!. intros [[_ Hn]%HLt|Hi]; [done|]. by apply (Himg p Hi), Hsf. }
  exists y1, y2. split_and!; [done|done|]. eapply undo_ok; [done|exact B|exact R2|congruence|congruence| |done].
  intros p Hp. rewrite !elem_of_app, <- (geo_frame x0 xb) by done. rewrite !elem_frames by by split_and!. rewrite (geo_frame x0 xb) by done.
  rewrite (elem_frames x0 x0) by by split_and!. change (Z.of_nat STACK_PAGES) with 4. specialize (HF p). rewrite (geo_frame x0 xb) in HF by done.
  pose proof (Hsf p) as Hsp. destruct (decide (qs <= p < qs + 4)); tauto.
Qed.
End failures.
(** The record of the new process. *)
Definition user_process (slot parent : nat) (l : elf.LoadedElf) (pt stack_base : Z) : process.Process :=
  process.mk_process slot process.Ready
    (signal.context_initial (elf.l_entry l) (wrap32 (stack_base + PAGE_SIZE * Z.of_nat STACK_PAGES)) 0x10)
    (Some parent) 0 pt stack_base (Z.of_nat STACK_PAGES) process.DEFAULT_HEAP_BREAK
    (replicate process.MAX_MAPPINGS None) signal.SignalState_new 1 0 capability.FORK_DEFAULT.

Definition add_user k (slot : nat) (p : process.Process) : process.kernel D :=
  process.put (process.set_fds k (fl_spawn slot (process.fds k))) slot (Some p).

Lemma spawn_user_ok k x0 l q0 :
  minv x0 -> kernel_l1 st tb (ram x0) -> low_stack x0 -> image_ok x0 l q0 ->
  exists r k' x', spawn_user st tb l k x0 = Ret (r, k', x') /\
    match r with
    | None => k' = k /\ given_back x0 x' (frame x0 <$> seqZ q0 (elf.image_pages l))
    | Some slot => free_slot k = Some slot /\ exists j qs qt, spawned x0 l q0 j qs qt x' /\
        k' = add_user k slot (user_process slot (process.CURRENT k) l (mmu.user_table_addr st j) (frame x0 qs))
    end.
Proof using Hst.
  intros Hx0 Hkl Hram Hl. unfold spawn_user. destruct (free_image_ok x0 Hx0 l q0 Hl) as (xf & Ef & Gf).
  destruct (free_slot k) as [slot|]; [|rewrite Ef; by exists None, k, xf].
  pose proof (open_ok st Hst x0 tb Hx0 Hkl) as Ho. destruct (mmu.alloc_addr_space st (mm x0)) as [[a|] s].
  2: { subst s. rewrite set_mm_id, Ef. by exists None, k, xf. }
  destruct Ho as (j & -> & O). set (x1 := set_mm x0 _) in *. clearbody x1. pose proof (proj2 (op_live _ _ _ _ O j) (or_introl eq_refl)) as Hlj.
  pose proof (building_opened none x0 x1 j Hx0 O (proj1 Hlj)) as B1.
  destruct (alloc_run_ok x1 (Z.of_nat STACK_PAGES) (op_inv _ _ _ _ O) ltac:(done)) as (r & x2 & E & Hx2 & G2 & M2 & H2).
  rewrite E. cbn [mbind outcome_bind]. pose proof (op_frames _ _ _ _ O) as F1. destruct r as [stack_base|].
  2: { assert (building none x0 x2 j []) as B2 by (apply (building_taken none x0 x1 x2 j [] B1 Hx2 G2 M2); by rewrite H2).
    destruct (free_image_retired x0 Hx0 l q0 Hl none x2 j [] x2 [] B2) as (y & Ey & R & El & Ea); [apply released_nil, minv_retire; apply B2|by intros p _ ?%not_elem_of_nil|].
    rewrite Ey. cbn [mbind outcome_bind]. do 3 eexists. split; [reflexivity|]. split; [done|].
    eapply undo_ok; [exact Hx0|exact B2|exact R|exact El|exact Ea| |by intros b []]. intros p Hp. cbn [app]. rewrite H2, F1, (elem_frames x0 x2), (elem_frames x0 x0) by (apply B2 || by split_and!). done. }
  destruct H2 as (qs & -> & Hqs & Hrun & F2 & Hmin). rewrite F1 in Hrun, F2. setoid_rewrite F1 in Hmin.
  pose proof (Hram qs Hqs Hrun Hmin) as Hlow. rewrite (geo_frame x0 x1) by apply O.
  assert (building none x0 x2 j []) as B2. { apply (building_taken none x0 x1 x2 j [] B1 Hx2 G2 M2). rewrite F2, F1. apply subseteq_difference_l. reflexivity. }
  pose proof (map_all_ok x0 x2 j l q0 qs Hx0 Hlow Hl Hrun B2 F2) as Hma.
  destruct (map_all _ _ _ _ x2) as [[ok t] y]. destruct ok.
  - destruct t as [phys|]; [|by destruct Hma]. destruct Hma as (qt & z & L & -> & Hqt & Fy & Hw & Gr & Hal).
    do 3 eexists. split; [reflexivity|]. split; [done|]. exists j, qs, qt. split; [|done].
    assert (qt ∈ frames x0 /\ ~ qs <= qt < qs + 4) as Hq.
    { rewrite F2 in Hqt. apply elem_of_difference in Hqt as [? Hn]. split; [done|]. intros ?. by apply Hn, page.elem_of_run. }
    constructor; [done|done|done|by rewrite Fy, F2|done|by apply Hal|by exists z, L].
  - assert (exists W L y1 y2, building W x0 y j L /\ free_unspawned_image l (match t with Some phys => free_page phys y | None => y end) = Ret y1 /\
      free_run (frame x0 qs) (Z.of_nat STACK_PAGES) y1 = Ret y2 /\
      given_back x0 (set_mm y2 (mmu.free_addr_space st (mmu.user_table_addr st j) (mm y2)).2) (frame x0 <$> seqZ q0 (elf.image_pages l)))
      as (W & L & y1 & y2 & _ & E1 & E2 & Gb).
    { destruct t as [phys|].
      - destruct Hma as (qt & z & L & -> & Hqt & Fy & _ & Gr & _). exists (in_frame x0 qt), L.
        destruct (unwind_ok x0 Hx0 l q0 Hl (in_frame x0 qt) y j L (Some (frame x0 qt)) qs (gd_build _ _ _ _ _ _ _ _ _ _ Gr) Hrun) as (y1 & y2 & H); [|exists y1, y2; split; [apply Gr|exact H]].
        rewrite F2 in Hqt. apply elem_of_difference in Hqt as [? Hn]. exists qt. split_and!; [done|done| |by rewrite Fy, F2|done].
        intros ?. by apply Hn, page.elem_of_run.
      - destruct Hma as (_ & By & Fy). exists none, [].
        destruct (unwind_ok x0 Hx0 l q0 Hl none y j [] None qs By Hrun) as (y1 & y2 & H); [split; [by rewrite Fy|by intros a []]|exists y1, y2; by split]. }
    rewrite E1. cbn [mbind outcome_bind]. rewrite E2. cbn [mbind outcome_bind]. do 3 eexists. split; [reflexivity|]. by split.
Qed.
(** ** What the new process sees *)

Section spawned.
Context (x0 : machine) (Hx0 : minv x0) (l : elf.LoadedElf) (q0 : Z) (Hl : image_ok x0 l q0).
Context (j qs qt : Z) (x' : machine) (Sw : spawned x0 l q0 j qs qt x').

(** The pages of the process: the trampoline, the stack, and the pages of the
    segments on the frames of the image. *)
Definition user_page (va e : Z) : Prop :=
  (mmu.vpage va = mmu.vpage signal.SIGNAL_TRAMPOLINE_VA /\ e = desc (frame x0 qt) RX) \/
  (exists i, 0 <= i < 4 /\ mmu.vpage va = frame x0 (qs + i) / 4096 /\ e = desc (frame x0 (qs + i)) RW) \/
  (exists s p, s ∈ elf.l_segments l /\ 0 <= p /\ p * 4096 < s.1.2 /\ mmu.vpage va = s.1.1 / 4096 + p /\
     e = desc (frame x0 (q0 + (s.1.1 - elf.image_lo l) / 4096 + p)) (mmu.prot_to_l2_flags (elf.flags_to_prot s.2))).

Lemma spawned_building : exists L, building (in_frame x0 qt) x0 x' j L.
Proof using Sw. destruct (sw_granted _ _ _ _ _ _ _ Sw) as (z & L & G). exists L. apply G. Qed.

Lemma stack_page i : 0 <= i < 4 ->
  page_va (frame x0 qs) (Z.to_nat i) = frame x0 (qs + i) /\ managed x0 (qs + i) /\
  0x40200000 <= frame x0 (qs + i) /\ frame x0 (qs + i) + 4096 <= signal.SIGNAL_TRAMPOLINE_VA.
Proof using Hx0 Sw.
  intros Hi. pose proof (sw_stack _ _ _ _ _ _ _ Sw) as Hs.
  destruct (planned_stack x0 Hx0 l q0 qs qt Hs (sw_low _ _ _ _ _ _ _ Sw) x' (Z.to_nat i)) as [E (_ & _ & _ & H & _)]; [|unfold STACK_PAGES; lia|].
  - intros q Hq. rewrite (sw_frames _ _ _ _ _ _ _ Sw). intros [[_ Hn]%elem_of_difference _]%elem_of_difference. by apply Hn, page.elem_of_run.
  - rewrite Z2Nat.id in * by lia. split_and!; [done|done|apply (sw_low _ _ _ _ _ _ _ Sw); change (Z.of_nat STACK_PAGES) with 4; lia..].
Qed.

Lemma spawned_sub va e : mapped x' j va e -> user_page va e.
Proof using Hx0 Hl Sw.
  destruct (sw_granted _ _ _ _ _ _ _ Sw) as (z & L & G). intros Hm.
  destruct (b_sub _ _ _ _ _ (gd_build _ _ _ _ _ _ _ _ _ _ G) va e Hm) as (va0 & q & a & Hin & Hv & _ & Hq & ->).
  destruct (gd_new _ _ _ _ _ _ _ _ _ _ G _ Hin) as [[= -> -> ->]%list_elem_of_singleton|(phys & Hpl & Hf)]; [by left|right].
  cbn [fst snd] in *. apply elem_of_app in Hpl as [Hseg|Hst'].
  - right. apply list_elem_of_bind in Hseg as (s & ([va1 ph1] & [= -> -> ->] & Hrun)%list_elem_of_fmap & Hs).
    destruct (image_frame x0 Hx0 l q0 Hl s va1 ph1 Hs Hrun) as ((p & Hp & Hpm & ->) & _ & Hf').
    cbn [fst snd] in *. rewrite Hf in Hf'. apply frame_inj in Hf'. exists s, p. split_and!; [done|lia|done| |].
    + rewrite <- Hv. unfold mmu.vpage. lia.
    + rewrite Hf'. do 2 f_equal. lia.
  - left. apply list_elem_of_fmap in Hst' as ([va1 ph1] & [= -> -> ->] & (i & [= -> ->] & Hi%elem_of_seq)%list_elem_of_fmap).
    unfold STACK_PAGES in Hi. destruct (stack_page (Z.of_nat i)) as (E & Hmg & _); [lia|]. rewrite Nat2Z.id in E. cbn [fst snd] in *. rewrite E in *.
    rewrite (proj1 (frame_of_frame st x0 _ Hx0 (mi_managed _ x0 Hx0 _ Hmg))) in Hf. apply frame_inj in Hf as <-.
    exists (Z.of_nat i). split_and!; [lia|lia| |done]. by rewrite <- Hv.
Qed.

Lemma spawned_image s p :
  s ∈ elf.l_segments l -> 0 <= p -> p * 4096 < s.1.2 -> exists e, mapped x' j (s.1.1 + p * 4096) e.
Proof using Hl Sw.
  intros Hs Hp Hpm. destruct (sw_granted _ _ _ _ _ _ _ Sw) as (z & L & G).
  destruct (io_segs _ _ _ Hl s Hs) as (_ & Hlo & Hhi & _). unfold RAM_END, signal.SIGNAL_TRAMPOLINE_VA in *.
  destruct (gd_all _ _ _ _ _ _ _ _ _ _ G eq_refl (s.1.1 + p * 4096) (wrap32 (elf.image_phys l + (s.1.1 + p * 4096 - elf.image_lo l)))
    (mmu.prot_to_l2_flags (elf.flags_to_prot s.2))) as [q Hq]; [|by eapply (b_all _ _ _ _ _ (gd_build _ _ _ _ _ _ _ _ _ _ G))].
  apply elem_of_app. left. apply list_elem_of_bind. exists s. split; [|done]. apply list_elem_of_fmap.
  exists (s.1.1 + p * 4096, wrap32 (elf.image_phys l + (s.1.1 + p * 4096 - elf.image_lo l))). split; [done|]. apply list_elem_of_fmap. exists p. split.
  - unfold PAGE_SIZE, page.PAGE_SIZE. by rewrite (wrap32_small (s.1.1 + p * 4096)) by (unfold is_u32; lia).
  - apply elem_of_seqZ. unfold elf.div_ceil, page.PAGE_SIZE. lia.
Qed.

Lemma spawned_tramp : exists e, mapped x' j signal.SIGNAL_TRAMPOLINE_VA e.
Proof using Sw.
  destruct (sw_granted _ _ _ _ _ _ _ Sw) as (z & L & G). eapply (b_all _ _ _ _ _ (gd_build _ _ _ _ _ _ _ _ _ _ G)).
  apply (gd_old _ _ _ _ _ _ _ _ _ _ G). by apply list_elem_of_singleton.
Qed.

Lemma spawned_stack i : 0 <= i < 4 -> exists e, mapped x' j (frame x0 (qs + i)) e.
Proof using Hx0 Sw.
  intros Hi. destruct (sw_granted _ _ _ _ _ _ _ Sw) as (z & L & G). destruct (stack_page i Hi) as [E _].
  destruct (gd_all _ _ _ _ _ _ _ _ _ _ G eq_refl (frame x0 (qs + i)) (frame x0 (qs + i)) RW) as [q Hq];
    [|by eapply (b_all _ _ _ _ _ (gd_build _ _ _ _ _ _ _ _ _ _ G))].
  apply elem_of_app. right. apply list_elem_of_fmap. exists (frame x0 (qs + i), frame x0 (qs + i)). split; [done|].
  apply list_elem_of_fmap. exists (Z.to_nat i). split; [by rewrite E|]. apply elem_of_seq. unfold STACK_PAGES. lia.
Qed.
Lemma user_page_place va e :
  user_page va e -> mmap.MMAP_LIMIT <= va /\ ~ mmu.kernel_mb (mmu.vmb va) /\ exists q, managed x0 q /\ frame_of e = frame x0 q.
Proof using Hx0 Hl Sw.
  assert (forall q a, managed x0 q -> user_attrs a -> frame_of (desc (frame x0 q) a) = frame x0 q) as Hf.
  { intros q a Hq Ha. rewrite frame_of_desc_attrs by done. apply (frame_of_frame st x0 q Hx0), (mi_managed _ x0 Hx0 q Hq). }
  unfold mmap.MMAP_LIMIT, mmu.kernel_mb, mmu.vmb, mmu.vpage, signal.SIGNAL_TRAMPOLINE_VA.
  intros [[Hv ->]|[(i & Hi & Hv & ->)|(s & p & Hs & Hp & Hpm & Hv & ->)]].
  - unfold mmu.vpage, signal.SIGNAL_TRAMPOLINE_VA in Hv. split_and!; [lia|lia|]. exists qt.
    pose proof (mi_free _ x0 Hx0 qt (proj1 (sw_tramp _ _ _ _ _ _ _ Sw))) as Hm. split; [done|]. apply Hf; [done|apply prot_flags_shape].
  - destruct (stack_page i Hi) as (_ & Hm & Hb). unfold mmu.vpage, signal.SIGNAL_TRAMPOLINE_VA in *. split_and!; [lia|lia|].
    exists (qs + i). split; [done|]. apply Hf; [done|apply prot_flags_shape].
  - destruct (io_segs _ _ _ Hl s Hs) as (_ & Hlo & Hhi & Hlo' & Hsp). unfold mmu.vpage, signal.SIGNAL_TRAMPOLINE_VA, RAM_END in *. split_and!; [lia|lia|].
    eexists. split; [|apply Hf; [|apply prot_flags_shape]]; apply (io_loose _ _ _ Hl); lia.
Qed.
End spawned.

(** ** The invariant *)

(** Nothing changed for any process, and nothing outside tables and frames. *)
Lemma same_system k k' x x' :
  system_ok st tb k x -> (forall c, process.proc k' c = process.proc k c) -> minv x' -> geo x x' -> space_alloc x' = space_alloc x -> same_maps x x' ->
  (forall a, ~ in_tables a -> (forall q, managed x q -> ~ (frame x q <= a < frame x q + 4096)) -> load8 (ram x') a = load8 (ram x) a) ->
  system_ok st tb k' x'.
Proof using Hst.
  intros [M K F S] Hk Hx' G A Hm Hload. pose proof (mmap.mo_inv _ _ _ M) as Hx. constructor; [constructor| | |].
  - done.
  - intros c p i Hp Hi Hpt. rewrite Hk in Hp. destruct (mmap.mo_space _ _ _ M c p i Hp Hi Hpt) as (H1 & H2 & H3). split_and!.
    + by apply (live_alloc x).
    + eapply mmap.window_ext; [exact G| |exact H2]. intros va e _. apply Hm.
    + eapply mmap.heap_ext; [exact G| |exact H3]. intros va e _ H. by apply Hm.
  - intros c c' p p' i Hp Hp'. rewrite Hk in Hp, Hp'. by apply (mmap.mo_own _ _ _ M).
  - eapply kernel_tables_ext; [exact Hst|exact Hx|exact G|exact Hload|exact K].
  - intros i va e H%Hm. by apply (F i).
  - intros c p i Hp Hi Hpt. rewrite Hk in Hp. destruct (S c p i Hp Hi Hpt) as (H1 & e & He). split; [done|]. exists e. by apply Hm.
Qed.

Lemma given_back_system k x x' Lf : system_ok st tb k x -> given_back x x' Lf -> system_ok st tb k x'.
Proof using Hst.
  intros Hk B. destruct (gb_settled _ _ _ B) as (Hsub & G & A & Hload). apply (same_system k k x); try done; try apply B.
  intros a Ha Hout. destruct (Hload a Ha) as [?|(p & Hp & Hin)]; [done|]. destruct (Hout p); [|done].
  apply (geo_managed x x'); [done|]. apply (mi_free _ x' (gb_inv _ _ _ B) p Hp).
Qed.

Lemma proc_add_user k slot c p :
  free_slot k = Some slot -> process.proc (add_user k slot p) c = if decide (c = slot) then Some p else process.proc k c.
Proof using Type.
  intros Hf. apply fd.first_free_Some in Hf. unfold add_user. rewrite process.proc_put; [done|]. by eapply lookup_lt_Some.
Qed.

Lemma spawned_system k x l q0 j qs qt x' slot :
  system_ok st tb k x -> image_ok x l q0 -> spawned x l q0 j qs qt x' -> free_slot k = Some slot ->
  system_ok st tb (add_user k slot (user_process slot (process.CURRENT k) l (mmu.user_table_addr st j) (frame x qs))) x'.
Proof using Hst.
  intros [M K F S] Hl Sw Hslot. pose proof (mmap.mo_inv _ _ _ M) as Hx. destruct (spawned_building x l q0 j qs qt x' Sw) as [L B].
  pose proof (b_geo _ _ _ _ _ B) as G. pose proof (b_space _ _ _ _ _ B) as Hj. set (np := user_process _ _ _ _ _).
  pose proof (fun va e H => user_page_place x Hx l q0 Hl j qs qt x' Sw va e (spawned_sub x Hx l q0 Hl j qs qt x' Sw va e H)) as Hpl.
  assert (forall c q n, process.proc k c = Some q -> 0 <= n < 16 -> process.page_table_phys q = mmu.user_table_addr st n -> n <> j) as Hne.
  { intros c q n Hq Hn Hqt ->. apply (b_fresh _ _ _ _ _ B). by destruct (mmap.mo_space _ _ _ M c q j Hq Hn Hqt). }
  assert (forall n, process.page_table_phys np = mmu.user_table_addr st n -> n = j) as Hnj by (intros n E; by apply (mmap.user_table_inj st) in E).
  constructor; [constructor| | |].
  - apply B.
  - intros c q n Hq Hn Hqt. rewrite proc_add_user in Hq by done. destruct (decide (c = slot)) as [->|Hc].
    + injection Hq as <-. rewrite (Hnj n Hqt) in *. split_and!; [apply (b_live _ _ _ _ _ B); by left| |].
      * assert (forall m, Some m ∈ replicate process.MAX_MAPPINGS (@None process.VmMapping) -> False) as Hno by (intros m [? _]%elem_of_replicate; done).
        constructor; [done|by intros m []%Hno| |by intros m va []%Hno|].
        -- intros a b m m' [? _]%lookup_replicate. done.
        -- intros va e Hm Hr. destruct (Hpl va e Hm) as [? _]. lia.
      * constructor; [unfold np, process.DEFAULT_HEAP_BREAK, mmap.MMAP_BASE; cbn; unfold process.DEFAULT_HEAP_BREAK; lia|done|]. cbn. intros va Hva. lia.
    + destruct (mmap.mo_space _ _ _ M c q n Hq Hn Hqt) as (Hln & Wn & Hhn). pose proof (Hne c q n Hq Hn Hqt) as Hnn.
      split_and!; [apply (b_live _ _ _ _ _ B); by right| |].
      * eapply mmap.window_ext; [exact G| |exact Wn]. intros. by apply (b_other _ _ _ _ _ B).
      * eapply mmap.heap_ext; [exact G| |exact Hhn]. intros. by apply (b_other _ _ _ _ _ B).
  - intros c c' q q' n Hq Hq' Hn Hqt Hqt'. rewrite proc_add_user in Hq, Hq' by done.
    destruct (decide (c = slot)) as [->|Hc], (decide (c' = slot)) as [->|Hc']; [done| | |].
    + injection Hq as <-. by destruct (Hne c' q' n Hq' Hn Hqt' (Hnj n Hqt)).
    + injection Hq' as <-. by destruct (Hne c q n Hq Hn Hqt (Hnj n Hqt')).
    + by apply (mmap.mo_own _ _ _ M c c' q q' n).
  - eapply kernel_tables_ext; [exact Hst|exact Hx|exact G| |exact K]. intros a Ha Hout. apply (b_load _ _ _ _ _ B a Ha).
    apply (Hout qt). apply (mi_free _ x Hx). apply (sw_tramp _ _ _ _ _ _ _ Sw).
  - intros n va e Hm. destruct (decide (n = j)) as [->|Hn].
    + destruct (Hpl va e Hm) as (_ & Hk & q & Hq & ->). split; [done|]. intros a. by apply (mi_apart st x q).
    + apply (F n va e). by apply (b_other _ _ _ _ _ B).
  - intros c q n Hq Hn Hqt. rewrite proc_add_user in Hq by done. destruct (decide (c = slot)) as [->|Hc].
    + injection Hq as <-. rewrite (Hnj n Hqt) in *. destruct (spawned_stack x Hx l q0 j qs qt x' Sw 0 ltac:(lia)) as [e He]. rewrite Z.add_0_r in He.
      split; [|by exists e]. by destruct (Hpl _ _ He).
    + destruct (S c q n Hq Hn Hqt) as (Hlo' & e' & He'). split; [done|]. exists e'. apply (b_other _ _ _ _ _ B); [by eapply Hne|done].
Qed.
(** ** From a file to a process *)

(** What the loader did to the machine: it took frames and wrote into them. *)
Record took_image x x0 (l : elf.LoadedElf) (q : Z) : Prop := {
  ti_inv : minv x0;
  ti_geo : geo x x0;
  ti_maps : same_maps x x0;
  ti_space : space_alloc x0 = space_alloc x;
  ti_fresh : page.run q (elf.image_pages l) ⊆ frames x;
  ti_frames : frames x0 = frames x ∖ page.run q (elf.image_pages l);
  ti_load : forall a, ~ (frame x q <= a < frame x q + elf.image_pages l * 4096) -> load8 (ram x0) a = load8 (ram x) a;
  ti_image : image_ok x0 l q;
}.

Lemma taken_image data x l v q p' :
  minv x -> Forall is_u8 data -> elf.vinv data v -> elf.loaded data USER_TEXT_BASE RAM_END (pg x) l v q p' ->
  took_image x (set_pg x p') l q.
Proof using Hst.
  intros Hx Hd V L. destruct (elf.ld_phys _ _ _ _ _ _ _ _ L) as (Hph & Hn & Hq). destruct (elf.ld_fresh _ _ _ _ _ _ _ _ L) as [Hsub HF].
  pose proof (elf.ld_same _ _ _ _ _ _ _ _ L) as G. pose proof (elf.ld_inv _ _ _ _ _ _ _ _ L) as Hi.
  set (p1 := page.with_mem p' (ram x)).
  destruct (minv_taken st Hst x p1 Hx) as [Hx1 Hmm]; [by destruct Hi|exact G|done|change (page.free_set (page.PAGE_BITMAP p') ⊆ frames x); rewrite HF; apply subseteq_difference_l; reflexivity|].
  assert (forall p, q <= p < q + elf.image_pages l -> p ∈ frames x) as Hin by (intros p Hp; apply Hsub, page.elem_of_run; lia).
  assert (forall a, ~ (frame x q <= a < frame x q + elf.image_pages l * 4096) -> load8 (page.MEM p') a = load8 (ram x) a) as Hload.
  { intros a Ha. apply (elf.loaded_outside data USER_TEXT_BASE RAM_END (pg x) l v q p' L). rewrite Hph. exact Ha. }
  assert (set_ram (set_pg x p1) (page.MEM p') = set_pg x p') as Eset by (unfold set_ram, set_pg, p1; by destruct p').
  destruct (write_frames_ok st Hst (set_pg x p1) (page.MEM p') Hx1) as [Hx0 Hm0].
  { apply (elf.loaded_bytes data Hd USER_TEXT_BASE RAM_END (pg x) l v q p' L). apply Hx. }
  { intros a. destruct (decide (frame x q <= a < frame x q + elf.image_pages l * 4096)) as [Ha|Ha]; [right|left; by apply Hload].
    exists (q + (a - frame x q) / 4096). assert (q <= q + (a - frame x q) / 4096 < q + elf.image_pages l) as Hp by lia.
    rewrite (geo_frame x (set_pg x p1)) by exact G. split_and!; [apply (geo_managed x); [exact G|]; by apply (mi_free _ x Hx), Hin| |rewrite frame_next; lia|rewrite frame_next; lia].
    change (frames (set_pg x p1)) with (page.free_set (page.PAGE_BITMAP p')). rewrite HF. intros [_ Hno]%elem_of_difference. apply Hno, page.elem_of_run. lia. }
  rewrite Eset in Hx0, Hm0.
  assert (same_maps x (set_pg x p')) as Hm.
  { intros i va e. rewrite (Hm0 i va e). unfold vm.mapped, space_live. rewrite Hmm. by change (ram (set_pg x p1)) with (ram x). }
  destruct (elf.validate_ok data Hd _ _ (elf.ld_valid _ _ _ _ _ _ _ _ L)) as (_ & _ & _ & He).
  constructor; try done. constructor.
  - rewrite (geo_frame x (set_pg x p')) by exact G. exact Hph.
  - rewrite Hn. by eapply elf.entry_pages.
  - intros p Hp. split_and!; [apply (geo_managed x); [exact G|]; by apply (mi_free _ x Hx), Hin| |].
    + change (frames (set_pg x p')) with (page.free_set (page.PAGE_BITMAP p')). rewrite HF. intros [_ Hno]%elem_of_difference. apply Hno, page.elem_of_run. lia.
    + intros i va e Hma%Hm. rewrite (geo_frame x (set_pg x p')) by exact G. apply (free_unmapped x p i va); [done|by apply Hin|done].
  - intros s Hs. rewrite (elf.ld_segs _ _ _ _ _ _ _ _ L) in Hs. apply list_elem_of_fmap in Hs as (sg & -> & Hsg). cbn [fst snd].
    pose proof (elf.ld_place _ _ _ _ _ _ _ _ L) as Hpl. rewrite Forall_forall in Hpl. specialize (Hpl sg Hsg).
    pose proof (elf.v_segs _ _ V) as Hv. rewrite Forall_forall in Hv. destruct (Hv sg Hsg) as [(_ & Hmz & _) _ _ _].
    destruct (elf.loaded_lo data Hd USER_TEXT_BASE RAM_END (pg x) l v q p' L ltac:(done)) as (sl & Hsl & Elo).
    destruct (Hv sl Hsl) as [(Hvl & _) _ _ _]. unfold is_u32, signal.SIGNAL_TRAMPOLINE_VA, USER_TEXT_BASE in *. lia.
Qed.
Lemma took_image_system k k' x x0 l q :
  system_ok st tb k x -> (forall c, process.proc k' c = process.proc k c) -> took_image x x0 l q -> system_ok st tb k' x0.
Proof using Hst.
  intros Hk Hp T. pose proof (mmap.mo_inv _ _ _ (so_mem _ _ _ _ Hk)) as Hx. apply (same_system k k' x); try done; try apply T.
  intros a _ Hout. apply (ti_load _ _ _ _ T). intros Ha. apply (Hout (q + (a - frame x q) / 4096)).
  - apply (mi_free _ x Hx), (ti_fresh _ _ _ _ T), page.elem_of_run. lia.
  - rewrite frame_next. lia.
Qed.

(** A frame that was not free keeps its bytes. *)
Lemma spawned_kept x0 l q0 j qs qt x' q a :
  minv x0 -> spawned x0 l q0 j qs qt x' -> managed x0 q -> q <> qt -> frame x0 q <= a < frame x0 q + 4096 -> load8 (ram x') a = load8 (ram x0) a.
Proof using Type.
  intros Hx0 Sw Hm Hne Ha. destruct (spawned_building x0 l q0 j qs qt x' Sw) as [L B]. apply (b_load _ _ _ _ _ B); [by apply (mi_apart st x0 q)|].
  intros Ht. apply Hne. unfold frame, page.frame_addr, page.PAGE_SIZE in *. lia.
Qed.

(** The byte of the image a process finds at a virtual address. *)
Lemma spawned_byte x0 l q0 j qs qt x' s off :
  minv x0 -> image_ok x0 l q0 -> spawned x0 l q0 j qs qt x' -> elf.image_lo l mod 4096 = 0 ->
  s ∈ elf.l_segments l -> 0 <= off < s.1.2 ->
  exists e, mapped x' j (s.1.1 + off) e /\
    load8 (ram x') (frame_of e + (s.1.1 + off) mod 4096) = load8 (ram x0) (elf.image_phys l + (s.1.1 + off - elf.image_lo l)).
Proof using Hst.
  intros Hx0 Hl Sw Hlo Hs Hoff. pose proof (sw_aligned _ _ _ _ _ _ _ Sw) as Hal. rewrite Forall_forall in Hal.
  destruct (spawned_image x0 l q0 Hl j qs qt x' Sw s (off / 4096) Hs ltac:(lia) ltac:(lia)) as [e He].
  destruct (io_segs _ _ _ Hl s Hs) as (_ & Hs1 & Hs2 & Hs3 & Hs4). pose proof (Hal s Hs) as Ha. unfold signal.SIGNAL_TRAMPOLINE_VA, RAM_END in *.
  assert (mapped x' j (s.1.1 + off) e) as Hm.
  { apply (mapped_page st x' j (s.1.1 + off / 4096 * 4096)); [done|unfold is_u32; lia|unfold mmu.vpage; lia]. }
  exists e. split; [done|].
  assert (exists q, q0 <= q < q0 + elf.image_pages l /\ q = q0 + (s.1.1 + off - elf.image_lo l) / 4096 /\ frame_of e = frame x0 q) as (q & Hq & Eq & Ef).
  { destruct (spawned_sub x0 Hx0 l q0 Hl j qs qt x' Sw _ _ Hm) as [[Hv _]|[(i & Hi & Hv & _)|(s2 & p & Hs2' & Hp & Hpm & Hv & ->)]].
    - unfold mmu.vpage, signal.SIGNAL_TRAMPOLINE_VA in Hv. lia.
    - destruct (stack_page x0 Hx0 l q0 j qs qt x' Sw i Hi) as (_ & _ & Hb). unfold mmu.vpage, signal.SIGNAL_TRAMPOLINE_VA in *. lia.
    - destruct (io_segs _ _ _ Hl s2 Hs2') as (_ & ? & ? & ? & ?). pose proof (Hal s2 Hs2'). unfold mmu.vpage, signal.SIGNAL_TRAMPOLINE_VA, RAM_END in *.
      exists (q0 + (s2.1.1 - elf.image_lo l) / 4096 + p). assert (q0 <= q0 + (s2.1.1 - elf.image_lo l) / 4096 + p < q0 + elf.image_pages l) as Hr by lia.
      split_and!; [lia|lia|lia|]. rewrite frame_of_desc_attrs by apply prot_flags_shape.
      apply (frame_of_frame st x0 _ Hx0), (mi_managed _ x0 Hx0), (io_loose _ _ _ Hl _ Hr). }
  destruct (io_loose _ _ _ Hl q Hq) as (Hmg & Hnf & _). rewrite Ef, (io_phys _ _ _ Hl).
  replace (frame x0 q0 + (s.1.1 + off - elf.image_lo l)) with (frame x0 q + (s.1.1 + off) mod 4096) by (rewrite Eq, frame_next; lia).
  apply (spawned_kept x0 l q0 j qs qt x' q); [done|done|done| |lia]. intros ->. by apply Hnf, (sw_tramp _ _ _ _ _ _ _ Sw).
Qed.
(** A process started from a file: where it runs and what it finds in memory. *)
Record started (data : list Z) k x (slot : nat) k' x' : Prop := {
  sd_slot : free_slot k = Some slot;
  sd_others : forall c, c <> slot -> process.proc k' c = process.proc k c;
  sd_run : exists p j entry v, process.proc k' slot = Some p /\ elf.validate data = Ok (entry, v) /\
    process.state p = process.Ready /\ signal.pc (process.ctx p) = Z.land entry (not32 1) /\
    Z.land (signal.cpsr (process.ctx p)) signal.CPSR_MODE_MASK = signal.CPSR_MODE_USER /\
    process.page_table_phys p = mmu.user_table_addr st j /\ ~ space_live x j /\
    (forall i va e, i <> j -> mapped x' i va e <-> mapped x i va e) /\
    (forall l1 s l2 off, elf.segments v = l1 ++ s :: l2 -> 0 <= off < elf.memsz s ->
       (forall s', s' ∈ l2 -> ~ (elf.vaddr s' <= elf.vaddr s + off < elf.vaddr s' + elf.memsz s')) ->
       exists e, mapped x' j (elf.vaddr s + off) e /\
         Some (load8 (ram x') (frame_of e + (elf.vaddr s + off) mod 4096)) =
           if off <? elf.filesz s then data !! Z.to_nat (elf.file_offset s + off) else Some 0) /\
    (forall a, signal.sp (process.ctx p) - 4 * 4096 <= a < signal.sp (process.ctx p) ->
       exists e, mapped x' j a e /\ load8 (ram x') (frame_of e + a mod 4096) = 0) /\
    (exists e, mapped x' j signal.SIGNAL_TRAMPOLINE_VA e /\ tramp_written (ram x') (frame_of e));
}.

Lemma user_mode entry : Z.land (signal.cpsr (signal.context_initial entry 0 0x10)) signal.CPSR_MODE_MASK = signal.CPSR_MODE_USER.
Proof using Type.
  cbn [signal.context_initial signal.cpsr]. change 1 with (Z.ones 1). rewrite Z.land_ones by lia.
  assert (entry mod 2 ^ 1 = 0 \/ entry mod 2 ^ 1 = 1) as [-> | ->] by lia; reflexivity.
Qed.

Lemma spawned_stack_byte x0 l q0 j qs qt x' a :
  minv x0 -> image_ok x0 l q0 -> spawned x0 l q0 j qs qt x' -> frame x0 qs <= a < frame x0 qs + 4 * 4096 ->
  exists e, mapped x' j a e /\ load8 (ram x') (frame_of e + a mod 4096) = 0.
Proof using Hst.
  intros Hx0 Hl Sw Ha. set (i := (a - frame x0 qs) / 4096). assert (0 <= i < 4) as Hi by lia.
  destruct (stack_page x0 Hx0 l q0 j qs qt x' Sw i Hi) as (_ & Hmg & Hb). pose proof (mi_align _ x0 Hx0) as Hal.
  unfold signal.SIGNAL_TRAMPOLINE_VA in Hb. assert (frame x0 (qs + i) <= a < frame x0 (qs + i) + 4096) as Hf by (rewrite frame_next; lia).
  assert (frame x0 (qs + i) mod 4096 = 0) as Hfa by (unfold frame, page.frame_addr, page.PAGE_SIZE; lia).
  destruct (spawned_stack x0 Hx0 l q0 j qs qt x' Sw i Hi) as [e He].
  assert (mapped x' j a e) as Hm by (apply (mapped_page st x' j (frame x0 (qs + i))); [done|unfold is_u32; lia|unfold mmu.vpage; lia]).
  exists e. split; [done|]. destruct (spawned_sub x0 Hx0 l q0 Hl j qs qt x' Sw _ _ He) as [[Hv _]|[(i' & Hi' & Hv & ->)|(s2 & p & Hs2 & Hp & Hpm & Hv & _)]].
  - unfold mmu.vpage, signal.SIGNAL_TRAMPOLINE_VA in Hv. lia.
  - assert (i' = i) as -> by (rewrite !frame_next in *; unfold mmu.vpage in Hv; lia). rewrite frame_of_desc_attrs by apply prot_flags_shape.
    rewrite (proj1 (frame_of_frame st x0 _ Hx0 (mi_managed _ x0 Hx0 _ Hmg))).
    assert (qs + i ∈ frames x0) as Hfr by (apply (sw_stack _ _ _ _ _ _ _ Sw), page.elem_of_run; change (Z.of_nat STACK_PAGES) with 4; lia).
    rewrite (spawned_kept x0 l q0 j qs qt x' (qs + i)); [apply (mi_clean _ x0 Hx0 (qs + i)); [done|lia]|done|done|done| |lia].
    pose proof (proj2 (sw_tramp _ _ _ _ _ _ _ Sw)). lia.
  - destruct (io_segs _ _ _ Hl s2 Hs2) as (_ & ? & ? & ? & ?). unfold mmu.vpage, signal.SIGNAL_TRAMPOLINE_VA, RAM_END in *. lia.
Qed.

Lemma spawned_tramp_code x0 l q0 j qs qt x' :
  minv x0 -> image_ok x0 l q0 -> spawned x0 l q0 j qs qt x' ->
  exists e, mapped x' j signal.SIGNAL_TRAMPOLINE_VA e /\ tramp_written (ram x') (frame_of e).
Proof using Hst.
  intros Hx0 Hl Sw. destruct (spawned_tramp x0 l q0 j qs qt x' Sw) as [e He]. exists e. split; [done|].
  destruct (spawned_sub x0 Hx0 l q0 Hl j qs qt x' Sw _ _ He) as [[_ ->]|[(i & Hi & Hv & _)|(s & p & Hs & Hp & Hpm & Hv & _)]].
  - pose proof (sw_code _ _ _ _ _ _ _ Sw) as Hc. pose proof (mi_free _ x0 Hx0 qt (proj1 (sw_tramp _ _ _ _ _ _ _ Sw))) as Hmg.
    rewrite frame_of_desc_attrs by apply prot_flags_shape. by rewrite (proj1 (frame_of_frame st x0 _ Hx0 (mi_managed _ x0 Hx0 _ Hmg))).
  - destruct (stack_page x0 Hx0 l q0 j qs qt x' Sw i Hi) as (_ & _ & Hb). unfold mmu.vpage, signal.SIGNAL_TRAMPOLINE_VA in *. lia.
  - destruct (io_segs _ _ _ Hl s Hs) as (_ & ? & ? & ? & ?). unfold mmu.vpage, signal.SIGNAL_TRAMPOLINE_VA, RAM_END in *. lia.
Qed.
Lemma started_intro data k x l v q0 p' slot j qs qt x' :
  minv x -> Forall is_u8 data -> elf.vinv data v -> elf.loaded data USER_TEXT_BASE RAM_END (pg x) l v q0 p' ->
  free_slot k = Some slot -> spawned (set_pg x p') l q0 j qs qt x' ->
  started data k x slot (add_user (set_ttbr0 k tb) slot (user_process slot (process.CURRENT k) l (mmu.user_table_addr st j) (frame (set_pg x p') qs))) x'.
Proof using Hst.
  intros Hx Hd V L Hslot Sw. pose proof (taken_image data x l v q0 p' Hx Hd V L) as T. set (x0 := set_pg x p') in *.
  pose proof (ti_inv _ _ _ _ T) as Hx0. pose proof (ti_image _ _ _ _ T) as Hl. pose proof (ti_geo _ _ _ _ T) as G.
  destruct (spawned_building x0 l q0 j qs qt x' Sw) as [Lg B].
  assert (forall c p, process.proc (add_user (set_ttbr0 k tb) slot p) c = if decide (c = slot) then Some p else process.proc k c) as Hproc.
  { intros c p. by apply (proc_add_user (set_ttbr0 k tb) slot c p). }
  constructor; [done|intros c Hc; by rewrite Hproc, decide_False|].
  eexists _, j, (elf.l_entry l), v. rewrite Hproc, decide_True by done. split_and!.
  - reflexivity.
  - apply (elf.ld_valid _ _ _ _ _ _ _ _ L).
  - reflexivity.
  - reflexivity.
  - apply (user_mode (elf.l_entry l)).
  - reflexivity.
  - intros H. apply (b_fresh _ _ _ _ _ B). by apply (live_alloc x x0), H; apply T.
  - intros i va e Hi. rewrite (b_other _ _ _ _ _ B) by done. apply (ti_maps _ _ _ _ T).
  - intros l1 s l2 off Hs Hoff Hlast. rewrite <- (elf.loaded_byte data USER_TEXT_BASE RAM_END (pg x) l v q0 p' L l1 s l2 off V Hs Hoff Hlast).
    assert (forall sg, sg ∈ elf.segments v -> (elf.vaddr sg, elf.memsz sg, elf.seg_flags sg) ∈ elf.l_segments l) as Hin.
    { intros sg Hsg. rewrite (elf.ld_segs _ _ _ _ _ _ _ _ L). apply list_elem_of_fmap. by exists sg. }
    assert (elf.image_lo l mod 4096 = 0) as Hlo.
    { destruct (elf.loaded_lo data Hd USER_TEXT_BASE RAM_END (pg x) l v q0 p' L ltac:(done)) as (sl & Hsl & ->).
      pose proof (sw_aligned _ _ _ _ _ _ _ Sw) as Hal. rewrite Forall_forall in Hal. apply (Hal _ (Hin sl Hsl)). }
    destruct (spawned_byte x0 l q0 j qs qt x' (elf.vaddr s, elf.memsz s, elf.seg_flags s) off Hx0 Hl Sw Hlo) as (e & He & Hb); [apply Hin; rewrite Hs; apply elem_of_app; right; left|done|].
    exists e. split; [exact He|]. f_equal. exact Hb.
  - destruct (stack_page x0 Hx0 l q0 j qs qt x' Sw 3 ltac:(lia)) as (_ & _ & Hb). unfold signal.SIGNAL_TRAMPOLINE_VA in Hb.
    rewrite frame_next in Hb. cbn [user_process process.ctx signal.context_initial signal.sp]. unfold PAGE_SIZE, page.PAGE_SIZE. change (Z.of_nat STACK_PAGES) with 4.
    destruct (mi_page _ x0 Hx0) as [_ _ [H0 _]]. rewrite wrap32_small by (unfold is_u32; lia).
    intros a Ha. apply (spawned_stack_byte x0 l q0 j qs qt x' a); [done|done|done|lia].
  - by apply (spawned_tramp_code x0 l q0 j qs qt).
Qed.

(** The image takes at most the user window, so the room is left for the stack. *)
Lemma extent_end lo hi segs : forall lo0 hi0 a b, elf.extent lo hi segs lo0 hi0 = Some (a, b) -> b <= Z.max hi0 hi.
Proof using Type.
  induction segs as [|s segs IH]; intros lo0 hi0 a b; cbn [elf.extent]; [intros [= _ <-]; lia|].
  destruct (Z.ltb_spec (elf.vaddr s) lo); [done|]. destruct (Z.ltb_spec hi (elf.vaddr s + elf.memsz s)); [done|]. cbn [orb]. intros ?%IH. lia.
Qed.

Lemma loaded_small data x l v q p' :
  Forall is_u8 data -> elf.loaded data USER_TEXT_BASE RAM_END (pg x) l v q p' -> elf.image_pages l <= 256.
Proof using Type.
  intros Hd L. destruct (elf.ld_span _ _ _ _ _ _ _ _ L) as (b & He & <-). apply extent_end in He.
  destruct (elf.loaded_lo data Hd USER_TEXT_BASE RAM_END (pg x) l v q p' L ltac:(done)) as (s & Hs & ->).
  pose proof (elf.ld_place _ _ _ _ _ _ _ _ L) as Hpl. rewrite Forall_forall in Hpl. destruct (Hpl s Hs) as (Hlo & _).
  unfold elf.div_ceil, page.PAGE_SIZE, USER_TEXT_BASE, RAM_END in *. lia.
Qed.

Lemma image_leaves_room x x0 l q0 :
  minv x -> ram_layout x -> stack_room x -> took_image x x0 l q0 -> elf.image_pages l <= 256 -> low_stack x0.
Proof using Hst.
  intros Hx Hram Hroom T Hn qs Hqs Hrun Hmin. pose proof (ti_geo _ _ _ _ T) as G. unfold stack_low. change (Z.of_nat STACK_PAGES) with 4 in *.
  assert (forall q, qs <= q < qs + 4 -> q ∈ frames x) as Hin.
  { intros q Hq. pose proof (ti_frames _ _ _ _ T) as HF. assert (q ∈ frames x0) as Hq0 by (apply Hrun, page.elem_of_run; lia). rewrite HF in Hq0. set_solver. }
  intros q Hq. rewrite (geo_frame x x0) by done. split; [apply Hram, (mi_free _ x Hx), Hin, Hq|].
  destruct Hroom as [Hall|(r & Hr0 & Hr & Htop)]; [apply Hall, Hin, Hq|].
  assert (exists r', 0 <= r' /\ r <= r' /\ r' + 4 <= r + 264 /\ page.run r' 4 ⊆ frames x0) as (r' & Hr'0 & H1 & H2 & H3).
  { rewrite (ti_frames _ _ _ _ T). destruct (decide (r + 4 <= q0)); [exists r|destruct (decide (q0 + elf.image_pages l <= r + 260)); [exists (Z.max r (q0 + elf.image_pages l))|exfalso; lia]];
      (split_and!; [lia..|]; intros z Hz%page.elem_of_run; apply elem_of_difference; rewrite page.elem_of_run; split; [apply Hr, page.elem_of_run; lia|lia]). }
  destruct (decide (qs <= r')) as [Hle|Hgt]; [|destruct (Hmin r'); [lia|done]].
  rewrite frame_next in Htop. assert (frame x q = frame x r + (q - r) * 4096) as -> by (rewrite <- frame_next; f_equal; lia). lia.
Qed.

Lemma start_image_ok data k x :
  system_ok st tb k x -> ram_layout x -> stack_room x -> Forall is_u8 data ->
  exists r k' x', start_image st tb data k x = Ret (r, k', x') /\ system_ok st tb k' x' /\
    match r with
    | None => (forall c, process.proc k' c = process.proc k c) /\ frames x' = frames x /\ same_maps x x'
    | Some slot => started data k x slot k' x'
    end.
Proof using Hst.
  intros Hk Hram Hroom Hd. pose proof (mmap.mo_inv _ _ _ (so_mem _ _ _ _ Hk)) as Hx. unfold start_image.
  destruct (elf.load_confined_ok data Hd USER_TEXT_BASE RAM_END (pg x) (mi_page _ x Hx)) as (r & p' & E & Hr). rewrite E. cbn [mbind outcome_bind].
  destruct r as [l|er].
  2: { destruct Hr as (Hi & Hm & HF & G). do 3 eexists. split; [reflexivity|].
    destruct (minv_taken st Hst x p' Hx Hi G Hm) as [Hx' Hmm]; [by rewrite HF|].
    assert (same_maps x (set_pg x p')) as Hsm. { intros i va e. unfold vm.mapped, space_live. rewrite Hmm. change (ram (set_pg x p')) with (page.MEM p'). by rewrite Hm. }
    split_and!; [|done|exact HF|done]. apply (same_system k _ x); try done. intros a _ _. change (ram (set_pg x p')) with (page.MEM p'). by rewrite Hm. }
  destruct Hr as (v & q0 & V & L). pose proof (taken_image data x l v q0 p' Hx Hd V L) as T. pose proof (ti_geo _ _ _ _ T) as G.
  assert (system_ok st tb (set_ttbr0 k tb) (set_pg x p')) as Hk0 by (by apply (took_image_system k _ x _ l q0)).
  pose proof (image_leaves_room x _ l q0 Hx Hram Hroom T (loaded_small data x l v q0 p' Hd L)) as Hlow.
  destruct (spawn_user_ok (set_ttbr0 k tb) (set_pg x p') l q0 (ti_inv _ _ _ _ T) (kt_l1 _ _ _ (so_kernel _ _ _ _ Hk0)) Hlow (ti_image _ _ _ _ T)) as (r & k' & x' & Es & Hs).
  exists r, k', x'. split; [exact Es|]. destruct r as [slot|].
  - destruct Hs as (Hslot & j & qs & qt & Sw & ->). split; [apply (spawned_system (set_ttbr0 k tb) (set_pg x p') l q0 j qs qt x' slot); try done; apply T|].
    by apply (started_intro data k x l v q0 p' slot j qs qt).
  - destruct Hs as [-> B]. split; [by eapply given_back_system|]. split_and!; [done| |].
    + apply set_eq. intros p. rewrite (gb_frames _ _ _ B), (ti_frames _ _ _ _ T), (elem_frames _ _ p) by by split_and!. rewrite elem_of_difference, page.elem_of_run.
      split; [intros [[? _]|[_ ?]]; [done|apply (ti_fresh _ _ _ _ T), page.elem_of_run; lia]|]. intros Hp.
      pose proof (mi_managed _ x Hx p (mi_free _ x Hx p Hp)). destruct (decide (q0 <= p < q0 + elf.image_pages l)); [by right|left; split; [done|lia]].
    + intros i va e. rewrite (gb_maps _ _ _ B i va e). apply (ti_maps _ _ _ _ T).
Qed.
End theory.
(** ** Theorems *)

(** C4: starting a program from a file never panics and keeps the invariant of
    the system. Either nothing changes for any process and every frame comes
    back; or a new process is ready at the entry point, in User mode, in an
    address space of its own, where every byte of a segment that no later
    segment covers is the file's byte, or zero past the file's part, the stack
    below its stack pointer is zero and the signal trampoline holds the
    sigreturn call; and every other process keeps its record and its pages.
    The frames of the allocator lie above the kernel, as on the board; the
    trampoline's page, the board's last frame, is in use or there are 264 free
    frames in a row below it, so that the stack, which is mapped where its frames
    are, does not take it. *)
Theorem program_started_from_file st tb {D : Type} `{!DescriptorLayer D, !ForkLayer D} data (k : process.kernel D) x :
  mmu.statics_ok st -> system_ok st tb k x -> ram_layout x -> stack_room x -> Forall is_u8 data ->
  exists r k' x', start_image st tb data k x = Ret (r, k', x') /\ system_ok st tb k' x' /\
    match r with
    | None => (forall c, process.proc k' c = process.proc k c) /\ frames x' = frames x /\ same_maps st x x'
    | Some slot => started st data k x slot k' x'
    end.
Proof. intros Hst. by apply start_image_ok. Qed.

(** ** A booted machine *)

(** The layout and the room are those of the board as [kinit] starts the allocator:
    frames from the end of the kernel up to the user window. *)
Lemma board_boot_room s (m : memory) :
  Z.of_nat (length (page.PAGE_BITMAP s)) = page.MAX_PAGES / 32 ->
  exists s', page.init 0x40000000 USER_TEXT_BASE 0x40200000 s = Ret s' /\
    ram_layout (mk_machine (page.with_mem s' m) 0 0) /\ stack_room (mk_machine (page.with_mem s' m) 0 0) /\
    exists q, q ∈ frames (mk_machine (page.with_mem s' m) 0 0) /\ frame (mk_machine (page.with_mem s' m) 0 0) q = signal.SIGNAL_TRAMPOLINE_VA.
Proof.
  intros Hl. destruct (page.init_ok 0x40000000 USER_TEXT_BASE 0x40200000 s) as (s' & Hs & Hi & H1 & H2 & H3 & _ & _ & _ & H4);
    [constructor; rewrite ?page.MAX_PAGES_eq; unfold is_u32, USER_TEXT_BASE, page.PAGE_SIZE; lia || reflexivity|done|].
  exists s'. split; [done|]. set (x := mk_machine _ _ _).
  change (page.first_usable 0x40000000 0x40200000) with 512 in *. change (page.ram_frames 0x40000000 USER_TEXT_BASE) with 261888 in *.
  assert (forall q, frame x q = 0x40000000 + q * 4096) as Hf by (intros q; unfold frame, page.frame_addr; cbn [x pg page.with_mem page.FIRST_PAGE]; by rewrite H1).
  assert (forall q, q ∈ frames x <-> 512 <= q < 261888) as HF.
  { intros q. unfold frames. cbn [x pg page.with_mem page.PAGE_BITMAP]. rewrite H4, page.elem_of_run. lia. }
  split_and!.
  - intros q. unfold managed. cbn [x pg page.with_mem page.USABLE_START_PAGE page.USABLE_END_PAGE]. rewrite H2, H3, Hf. lia.
  - right. exists 512. split_and!; [lia| |rewrite Hf; unfold signal.SIGNAL_TRAMPOLINE_VA; lia].
    intros q Hq%page.elem_of_run. apply HF. lia.
  - exists 261887. rewrite HF, Hf. unfold signal.SIGNAL_TRAMPOLINE_VA. lia.
Qed.

(** A machine with 272 free frames up to the user window, no user process, and a
    kernel table at 0x400000 with the sections of the frames and of the window. *)
#[local] Abbreviation lay := mmu.layout.
#[local] Ltac Zify.zify_post_hook ::= Z.to_euclidean_division_equations.

Definition boot_pages : page.state :=
  match page.init 0x7FD00000 USER_TEXT_BASE 0x7FDF0000 (page.boot ∅) with Ret s => s | Panic => page.boot ∅ end.
Definition boot_ram : memory :=
  store32 (store32 (store32 ∅ (0x400000 + 4 * 0x7FD) 0x7FD10402) (0x400000 + 4 * 0x7FE) 0x7FE10402) (0x400000 + 4 * 0x7FF) 0x7FF10402.
Definition boot_x : machine := mk_machine (page.with_mem boot_pages boot_ram) 0 0.
Definition boot_p : process.Process :=
  process.mk_process 0 process.Running signal.context_zero None 0 0 0 0
    process.DEFAULT_HEAP_BREAK (replicate process.MAX_MAPPINGS None) signal.SignalState_new 0 0 capability.ALL.
Definition boot_k : process.kernel (fd.kernel memguard.cpu) :=
  process.mk_kernel (Some boot_p :: replicate 15 None) 0 None false 0 [] (fd.boot memguard.caller) [].

Definition boot_start : outcome (option nat * process.kernel (fd.kernel memguard.cpu) * machine) := start_image lay 0x400000 elf.good_elf boot_k boot_x.

Lemma boot_start_slot : match boot_start with Ret (Some 1%nat, _, _) => True | _ => False end.
Proof. vm_compute. exact I. Qed.
Lemma boot_geometry :
  page.inv boot_pages /\ page.FIRST_PAGE boot_pages = 0x7FD00000 /\ page.USABLE_START_PAGE boot_pages = 240 /\ page.USABLE_END_PAGE boot_pages = 512 /\
  page.free_set (page.PAGE_BITMAP boot_pages) = page.run 240 272.
Proof.
  destruct (page.init_ok 0x7FD00000 USER_TEXT_BASE 0x7FDF0000 (page.boot ∅)) as (s & Hs & Hi & H1 & H2 & H3 & _ & _ & _ & H4).
  - constructor; unfold is_u32, USER_TEXT_BASE, page.MAX_PAGES, page.PAGE_SIZE; lia || reflexivity.
  - reflexivity.
  - unfold boot_pages. rewrite Hs. rewrite H1, H2, H3, H4. split_and!; [exact Hi|reflexivity..].
Qed.

#[local] Opaque boot_pages page.free_set page.MAX_PAGES.

Lemma boot_frame p : frame boot_x p = 0x7FD00000 + p * 4096.
Proof. destruct boot_geometry as (_ & H & _). unfold frame, page.frame_addr. cbn [boot_x pg page.with_mem page.FIRST_PAGE]. by rewrite H. Qed.

Lemma boot_managed p : managed boot_x p <-> 240 <= p < 512.
Proof.
  destruct boot_geometry as (_ & _ & H1 & H2 & _). unfold managed. cbn [boot_x pg page.with_mem page.USABLE_START_PAGE page.USABLE_END_PAGE].
  rewrite H1, H2. lia.
Qed.

Lemma boot_unmapped i va e : ~ vm.mapped lay boot_x i va e.
Proof. intros ([Hi Hb] & _). cbn in Hb. by rewrite Z.testbit_0_l in Hb. Qed.

Lemma boot_dead i : ~ space_live boot_x i.
Proof. intros [Hi Hb]. cbn in Hb. by rewrite Z.testbit_0_l in Hb. Qed.

Lemma boot_minv : vm.minv lay boot_x.
Proof.
  destruct boot_geometry as (Hi & Hf & _ & _ & HF).
  assert (forall p, p ∈ frames boot_x -> 240 <= p < 512) as Hfr.
  { intros p. unfold frames. cbn [boot_x pg page.with_mem page.PAGE_BITMAP]. rewrite HF, page.elem_of_run. lia. }
  constructor.
  - destruct Hi as [H1 H2 H3]. constructor; [exact H1|exact H2|exact H3].
  - cbn [boot_x pg page.with_mem page.FIRST_PAGE]. by rewrite Hf.
  - intros p Hp. by apply boot_managed, Hfr.
  - intros p Hp. apply (proj1 (boot_managed p)) in Hp. rewrite page.MAX_PAGES_eq. lia.
  - intros p a Hp. apply (proj1 (boot_managed p)) in Hp. rewrite boot_frame. unfold vm.any_table, vm.in_tables.
    cbn [mmu.layout mmu.L2_TABLES mmu.USER_TABLES mmu.KERNEL_L2]. lia.
  - constructor; [intros i j Hl; destruct (boot_dead i Hl)|intros i j i' j' s Hl; destruct (boot_dead i Hl)].
  - change (ram boot_x) with boot_ram. apply bytes_store32, bytes_store32, bytes_store32. clear. by intros a.
  - intros i va e p Hm. destruct (boot_unmapped i va e Hm).
  - intros i va e i' va' e' Hm. destruct (boot_unmapped i va e Hm).
  - intros p a Hp%Hfr. rewrite boot_frame. intros Ha. change (ram boot_x) with boot_ram. unfold boot_ram. rewrite !load8_store32_ne by lia. reflexivity.
Qed.

Lemma boot_get c p : process.proc boot_k c = Some p -> p = boot_p.
Proof. do 16 (destruct c as [|c]; [by intros [= <-]|]). done. Qed.

Lemma boot_no_table i : 0 <= i < 16 -> process.page_table_phys boot_p <> mmu.user_table_addr lay i.
Proof. cbn. unfold mmu.user_table_addr. cbn. lia. Qed.

Lemma boot_system : system_ok lay 0x400000 boot_k boot_x.
Proof.
  constructor; [constructor| | |].
  - exact boot_minv.
  - intros c p i ->%boot_get Hi Ht. destruct (boot_no_table i Hi Ht).
  - intros c c' p p' i ->%boot_get _ Hi Ht. destruct (boot_no_table i Hi Ht).
  - constructor; [done| |].
    + change (ram boot_x) with boot_ram. constructor; [done|unfold in_tables; cbn; lia| |].
      * intros j Hj. unfold boot_ram. rewrite !mmu.load_store_word by (done || lia). by repeat case_decide.
      * intros q Hq. unfold boot_ram. rewrite !mmu.load_store_word by (done || cbn; lia). by repeat case_decide.
    + intros p a Hp. apply (proj1 (boot_managed p)) in Hp. rewrite boot_frame. lia.
  - intros i va e Hm. destruct (boot_unmapped i va e Hm).
  - intros c p i ->%boot_get Hi Ht. destruct (boot_no_table i Hi Ht).
Qed.

Lemma boot_layout : ram_layout boot_x.
Proof. intros p Hp. apply (proj1 (boot_managed p)) in Hp. rewrite boot_frame. lia. Qed.

Lemma boot_room : stack_room boot_x.
Proof.
  right. exists 240. destruct boot_geometry as (_ & _ & _ & _ & HF). split_and!; [lia| |rewrite boot_frame; unfold signal.SIGNAL_TRAMPOLINE_VA; lia].
  unfold frames. cbn [boot_x pg page.with_mem page.PAGE_BITMAP]. rewrite HF. intros q. rewrite !page.elem_of_run. lia.
Qed.

Lemma program_started_from_file_witness :
  exists k' x', start_image lay 0x400000 elf.good_elf boot_k boot_x = Ret (Some 1%nat, k', x') /\ system_ok lay 0x400000 k' x' /\
    started lay elf.good_elf boot_k boot_x 1 k' x'.
Proof.
  destruct (program_started_from_file lay 0x400000 elf.good_elf boot_k boot_x mmu.layout_ok boot_system boot_layout boot_room elf.good_bytes) as (r & k' & x' & E & Hk & H).
  pose proof boot_start_slot as Hs. unfold boot_start in Hs. rewrite E in Hs. destruct r as [[|[|n]]|]; [destruct Hs| |destruct Hs|destruct Hs].
  exists k', x'. split; [exact E|]. split; [exact Hk|exact H].
Defined.
End spawn.
