(* ===== verification/Supervisor.v ===== *)
(** * Supervision ([crates/thumos/src/supervisor.rs], [liveness.rs])

    The fault ring between the abort handler and the service loop, the restart
    policy for supervised services with its crash-loop limit, and the gate that
    feeds the watchdog only on proved progress. Each operation runs under one
    lock, so each is one atomic step; the messages on the serial line are not
    modelled. Times are scheduler ticks. *)

From S2P Require Import Prelude Machine Ring.
From Stdlib Require Import ZArith.
Open Scope Z_scope.

Module supervisor.

Definition RING_SIZE : nat := 16.
Definition MAX_SUPERVISED : nat := 4.
Definition MAX_RESTARTS : Z := 3.
Definition WINDOW_TICKS : Z := 500.

(** A static string, as its bytes. *)
Abbreviation path := (list Z) (only parsing).

Record FaultReport := mk_report { r_pid : Z; r_kind : Z; r_addr : Z; r_status : Z; r_service : option path }.
Record SupervisedService := mk_service {
  s_path : path; current_pid : option Z; restarts_in_window : Z; window_start_tick : Z; gave_up : bool;
}.
Inductive Decision := No_action | Restart (p : path) | GiveUp (p : path).

Record state := mk_state {
  RING : list (option FaultReport); RING_HEAD : nat; RING_COUNT : nat; SERVICES : list (option SupervisedService);
}.
Definition boot : state := mk_state (replicate RING_SIZE None) 0 0 (replicate MAX_SUPERVISED None).
Definition set_services (s : state) v : state := mk_state (RING s) (RING_HEAD s) (RING_COUNT s) v.

Definition with_pid (svc : SupervisedService) (p : option Z) : SupervisedService :=
  mk_service (s_path svc) p (restarts_in_window svc) (window_start_tick svc) (gave_up svc).

(** The loops [for svc in services.iter_mut().flatten()] that act on the first
    service they select and leave. *)
Fixpoint on_first {R : Type} (sel : SupervisedService -> bool) (f : SupervisedService -> R * SupervisedService)
    (svcs : list (option SupervisedService)) : option R * list (option SupervisedService) :=
  match svcs with
  | [] => (None, [])
  | Some svc :: svcs =>
      if sel svc then let '(r, svc) := f svc in (Some r, Some svc :: svcs)
      else let '(r, svcs) := on_first sel f svcs in (r, Some svc :: svcs)
  | None :: svcs => let '(r, svcs) := on_first sel f svcs in (r, None :: svcs)
  end.

Definition report_fault (pid kind fault_addr fault_status : Z) (s : state) : outcome state :=
  let '(service, svcs) := on_first (fun svc => bool_decide (current_pid svc = Some pid)) (fun svc => (s_path svc, with_pid svc None)) (SERVICES s) in
  let s := set_services s svcs in
  if (RING_SIZE <=? RING_COUNT s)%nat then Ret s else
  let slot := ((RING_HEAD s + RING_COUNT s) mod RING_SIZE)%nat in
  ring ← store (RING s) slot (Some (mk_report pid kind fault_addr fault_status service));
  Ret (mk_state ring (RING_HEAD s) (RING_COUNT s + 1) (SERVICES s)).

Definition pop_report (s : state) : outcome (option FaultReport * state) :=
  if (RING_COUNT s =? 0)%nat then Ret (None, s) else
  report ← index (RING s) (RING_HEAD s);
  ring ← store (RING s) (RING_HEAD s) None;
  Ret (report, mk_state ring ((RING_HEAD s + 1) mod RING_SIZE)%nat (RING_COUNT s - 1)%nat (SERVICES s)).

Fixpoint fill_first (svcs : list (option SupervisedService)) (svc : SupervisedService) : list (option SupervisedService) :=
  match svcs with
  | [] => []
  | None :: svcs => Some svc :: svcs
  | Some x :: svcs => Some x :: fill_first svcs svc
  end.

Definition register (p : path) (pid : Z) (s : state) : state :=
  match on_first (fun svc => bool_decide (s_path svc = p)) (fun svc => ((), with_pid svc (Some pid))) (SERVICES s) with
  | (Some _, svcs) => set_services s svcs
  | (None, _) => set_services s (fill_first (SERVICES s) (mk_service p (Some pid) 0 0 false))
  end.

Definition set_current_pid (p : path) (pid : option Z) (s : state) : state :=
  set_services s (on_first (fun svc => bool_decide (s_path svc = p)) (fun svc => ((), with_pid svc pid)) (SERVICES s)).2.

(** A fault outside the window opens a fresh one. *)
Definition rolled (now : Z) (svc : SupervisedService) : SupervisedService :=
  if WINDOW_TICKS <? Z.max 0 (now - window_start_tick svc) then mk_service (s_path svc) (current_pid svc) 0 now (gave_up svc) else svc.

(** The body of the loop of [decide] for the service found. *)
Definition decide_service (now : Z) (svc : SupervisedService) : Decision * SupervisedService :=
  if gave_up svc then (No_action, svc) else
  let svc := rolled now svc in
  if restarts_in_window svc <? MAX_RESTARTS then
    (Restart (s_path svc), mk_service (s_path svc) (current_pid svc) (restarts_in_window svc + 1) (window_start_tick svc) (gave_up svc))
  else (GiveUp (s_path svc), mk_service (s_path svc) (current_pid svc) (restarts_in_window svc) (window_start_tick svc) true).

(** [supervisor::decide]. *)
Definition decide_report (report : FaultReport) (now : Z) (s : state) : Decision * state :=
  match r_service report with
  | None => (No_action, s)
  | Some p =>
      let '(d, svcs) := on_first (fun svc => bool_decide (s_path svc = p)) (decide_service now) (SERVICES s) in
      (default No_action d, set_services s svcs)
  end.

Definition clear_pid (pid : Z) (s : state) : state :=
  set_services s (option_map (fun svc => if bool_decide (current_pid svc = Some pid) then with_pid svc None else svc) <$> SERVICES s).

(** ** The rest of the kernel, as events

    Faults from the abort handler, one round of the service loop's drain at a
    tick, registrations, relaunched services and exits, in any order. *)
Inductive event :=
| Fault (pid kind fault_addr fault_status : Z)
| Drain (now : Z)
| Register (p : path) (pid : Z)
| SetPid (p : path) (pid : option Z)
| Exit (pid : Z).

Definition step (e : event) (s : state) : outcome (list (Z * Decision) * state) :=
  match e with
  | Fault pid kind a st => s ← report_fault pid kind a st s; Ret ([], s)
  | Drain now =>
      '(r, s) ← pop_report s;
      match r with
      | None => Ret ([], s)
      | Some report => let '(d, s) := decide_report report now s in Ret ([(now, d)], s)
      end
  | Register p pid => Ret ([], register p pid s)
  | SetPid p pid => Ret ([], set_current_pid p pid s)
  | Exit pid => Ret ([], clear_pid pid s)
  end.

Fixpoint run (es : list event) (s : state) : outcome (list (Z * Decision) * state) :=
  match es with
  | [] => Ret ([], s)
  | e :: es => '(d, s) ← step e s; '(ds, s) ← run es s; Ret (d ++ ds, s)
  end.
(** ** The ring is a queue *)

#[export] Instance report_inhabited : Inhabited FaultReport := populate (mk_report 0 0 0 0 None).

Record queued (s : state) (q : list FaultReport) : Prop := {
  q_len : length (RING s) = RING_SIZE;
  q_head : (RING_HEAD s < RING_SIZE)%nat;
  q_count : (RING_COUNT s <= RING_SIZE)%nat;
  q_view : ring_view (RING s) (RING_HEAD s) (RING_COUNT s) = Some <$> q;
}.

Lemma queued_length s q : queued s q -> length q = RING_COUNT s.
Proof. intros Q. rewrite <- (length_ring_view (RING s) (RING_HEAD s)), (q_view _ _ Q). by rewrite length_fmap. Qed.

Lemma queued_boot : queued boot [].
Proof. constructor; [done|unfold RING_SIZE; cbn; lia|unfold RING_SIZE; cbn; lia|done]. Qed.

Lemma queued_services s q v : queued s q -> queued (set_services s v) q.
Proof. intros [? ? ? ?]. by constructor. Qed.

(** The claim on a faulting pid, taken away from the service that had it. *)
Definition claim (pid : Z) (s : state) : option path * list (option SupervisedService) :=
  on_first (fun svc => bool_decide (current_pid svc = Some pid)) (fun svc => (s_path svc, with_pid svc None)) (SERVICES s).

Lemma report_queued s q pid kind a st : queued s q ->
  exists s', report_fault pid kind a st s = Ret s' /\ SERVICES s' = (claim pid s).2 /\
    queued s' (if (length q <? RING_SIZE)%nat then q ++ [mk_report pid kind a st (claim pid s).1] else q).
Proof.
  intros Q. pose proof (queued_length s q Q) as Hl. unfold report_fault, claim. destruct (on_first _ _ (SERVICES s)) as [service svcs]. cbn [fst snd]. cbn [set_services RING_COUNT RING_HEAD RING SERVICES].
  rewrite Hl. destruct (Nat.leb_spec RING_SIZE (RING_COUNT s)) as [H|H].
  - rewrite (proj2 (Nat.ltb_ge _ _)) by done. eexists. split; [done|]. split; [done|by apply queued_services].
  - rewrite (proj2 (Nat.ltb_lt _ _)) by done. rewrite store_lt by (rewrite (q_len _ _ Q); apply Nat.mod_upper_bound; unfold RING_SIZE; lia). cbn [mbind outcome_bind].
    eexists. split; [done|]. split; [done|]. constructor; cbn [RING RING_HEAD RING_COUNT].
    + rewrite length_insert. apply Q.
    + apply Q.
    + lia.
    + rewrite Nat.add_1_r, fmap_app. rewrite <- (q_len _ _ Q), ring_view_push by (rewrite (q_len _ _ Q); lia). by rewrite (q_view _ _ Q).
Qed.

Lemma pop_queued s q : queued s q ->
  exists s', pop_report s = Ret (head q, s') /\ queued s' (tail q) /\ SERVICES s' = SERVICES s.
Proof.
  intros Q. pose proof (queued_length s q Q) as Hl. unfold pop_report. destruct q as [|r q]; cbn [length] in Hl.
  - rewrite <- Hl. cbn [Nat.eqb]. by exists s.
  - rewrite (proj2 (Nat.eqb_neq _ _)) by lia. pose proof (q_view _ _ Q) as Hv. destruct (RING_COUNT s) as [|c] eqn:Ec; [lia|].
    rewrite ring_view_succ in Hv. cbn [fmap list_fmap] in Hv. injection Hv as Hr Hv. rewrite (q_len _ _ Q) in Hr, Hv.
    assert (RING_HEAD s < length (RING s))%nat as Hh by (rewrite (q_len _ _ Q); apply Q). rewrite Nat.mod_small in Hr by apply Q.
    rewrite index_total by done. rewrite store_lt by done. cbn [mbind outcome_bind]. rewrite Hr. eexists. split; [done|]. split; [|done].
    constructor; cbn [RING RING_HEAD RING_COUNT tail].
    + rewrite length_insert. apply Q.
    + apply Nat.mod_upper_bound. unfold RING_SIZE. lia.
    + pose proof (q_count _ _ Q). lia.
    + replace (S c - 1)%nat with c by lia. rewrite Nat.add_1_r. rewrite ring_view_insert_outside; [done|].
      intros i Hi. rewrite (q_len _ _ Q), Nat.Div0.add_mod_idemp_l. intros E.
      pose proof (q_count _ _ Q). pose proof (q_head _ _ Q). rewrite <- (Nat.mod_small (RING_HEAD s) RING_SIZE) in E at 2 by done.
      replace (S (RING_HEAD s) + i)%nat with (RING_HEAD s + S i)%nat in E by lia. rewrite <- (Nat.add_0_r (RING_HEAD s)) in E at 2.
      apply ring_index_inj in E; lia.
Qed.
(** ** Services by path *)

Fixpoint find (p : path) (svcs : list (option SupervisedService)) : option SupervisedService :=
  match svcs with
  | [] => None
  | Some svc :: svcs => if bool_decide (s_path svc = p) then Some svc else find p svcs
  | None :: svcs => find p svcs
  end.

Lemma on_first_path {R : Type} p (f : SupervisedService -> R * SupervisedService) svcs :
  (forall svc, s_path (f svc).2 = s_path svc) ->
  (on_first (fun svc => bool_decide (s_path svc = p)) f svcs).1 = (fun svc => (f svc).1) <$> find p svcs /\
  forall q, find q (on_first (fun svc => bool_decide (s_path svc = p)) f svcs).2 = if decide (q = p) then (fun svc => (f svc).2) <$> find p svcs else find q svcs.
Proof.
  intros Hf. induction svcs as [|[svc|] svcs [IH1 IH2]]; cbn [on_first find].
  - split; [done|]. intros q. by destruct (decide _).
  - destruct (bool_decide_reflect (s_path svc = p)) as [E|E].
    + specialize (Hf svc). destruct (f svc) as [r svc'] eqn:Ef. cbn [fst snd] in *. split; [cbn; by rewrite Ef|]. intros q. cbn [find]. rewrite Hf.
      destruct (decide (q = p)) as [->|Hne]; [rewrite bool_decide_true by done; cbn; by rewrite Ef|].
      rewrite bool_decide_false by congruence. done.
    + destruct (on_first _ f svcs) as [r svcs']. cbn [fst snd] in *. split; [done|]. intros q. cbn [find]. case_bool_decide as Eq; [by rewrite decide_False by congruence|apply IH2].
  - destruct (on_first _ f svcs) as [r svcs']. by split.
Qed.

(** What the policy remembers of a service: everything but the pid. *)
Definition core (svc : SupervisedService) : path * Z * Z * bool := (s_path svc, restarts_in_window svc, window_start_tick svc, gave_up svc).

Lemma on_first_core {R : Type} sel (f : SupervisedService -> R * SupervisedService) svcs q :
  (forall svc, core (f svc).2 = core svc) -> core <$> find q (on_first sel f svcs).2 = core <$> find q svcs.
Proof.
  intros Hf. induction svcs as [|[svc|] svcs IH]; cbn [on_first find]; [done| |].
  - destruct (sel svc).
    + specialize (Hf svc). destruct (f svc) as [r svc']. cbn [snd] in *. cbn [find]. assert (s_path svc' = s_path svc) as -> by (by injection Hf).
      case_bool_decide; [by cbn; rewrite Hf|done].
    + destruct (on_first sel f svcs) as [r svcs']. cbn [snd find] in *. by case_bool_decide.
  - destruct (on_first sel f svcs) as [r svcs']. cbn [snd find] in *. done.
Qed.

Lemma find_fill svcs svc q : find (s_path svc) svcs = None ->
  find q (fill_first svcs svc) = find q svcs \/ (q = s_path svc /\ find q (fill_first svcs svc) = Some svc).
Proof.
  induction svcs as [|[x|] svcs IH]; cbn [fill_first find]; [by left| |].
  - case_bool_decide as E; [done|]. intros H. case_bool_decide as E'; [by left|]. by apply IH.
  - intros H. case_bool_decide as E; [right; by subst|by left].
Qed.

Lemma find_path p svcs svc : find p svcs = Some svc -> s_path svc = p.
Proof.
  induction svcs as [|[x|] svcs IH]; cbn [find]; [done| |done]. case_bool_decide; [by intros [= <-]|done].
Qed.

Lemma clear_core pid s q : core <$> find q (SERVICES (clear_pid pid s)) = core <$> find q (SERVICES s).
Proof.
  unfold clear_pid. cbn [set_services SERVICES]. induction (SERVICES s) as [|[svc|] svcs IH]; cbn [fmap list_fmap option_map find]; [done| |done].
  assert (s_path (if bool_decide (current_pid svc = Some pid) then with_pid svc None else svc) = s_path svc) as -> by (by case_bool_decide).
  case_bool_decide; [|done]. cbn. by case_bool_decide.
Qed.

(** ** Windows *)

(** The times of restarts before the window that starts at [ws], latest first:
    windows of at most three restarts, each more than a window after the next. *)
Inductive chain : Z -> list Z -> Prop :=
| chain_nil ws : chain ws []
| chain_window ws ws' cur old :
    ws' + WINDOW_TICKS < ws -> Z.of_nat (length cur) <= MAX_RESTARTS -> Forall (fun x => ws' <= x <= ws' + WINDOW_TICKS) cur -> chain ws' old -> chain ws (cur ++ old).

Definition in_span (t x : Z) : bool := (t <=? x) && (x <=? t + WINDOW_TICKS).

Lemma count_if_none {A} (f : A -> bool) l : Forall (fun x => f x = false) l -> count_if f l = 0%nat.
Proof. induction 1 as [|x l Hx _ IH]; [done|]. rewrite count_if_cons, Hx, IH. done. Qed.

Lemma chain_below ws old : chain ws old -> Forall (fun x => x < ws) old.
Proof.
  induction 1 as [|ws ws' cur old Hw Hl Hc _ IH]; [by apply Forall_nil|]. apply Forall_app. split.
  - eapply Forall_impl; [exact Hc|]. cbn. lia.
  - eapply Forall_impl; [exact IH|]. cbn. unfold WINDOW_TICKS in *. lia.
Qed.

Lemma span_after t l ws : ws > t + WINDOW_TICKS -> Forall (fun x => ws <= x) l -> count_if (in_span t) l = 0%nat.
Proof. intros Hw Hl. apply count_if_none. eapply Forall_impl; [exact Hl|]. cbn. intros x Hx. unfold in_span. lia. Qed.

Lemma span_before t l ws : ws <= t -> Forall (fun x => x < ws) l -> count_if (in_span t) l = 0%nat.
Proof. intros Hw Hl. apply count_if_none. eapply Forall_impl; [exact Hl|]. cbn. intros x Hx. unfold in_span. lia. Qed.

Lemma chain_one t ws old : chain ws old -> ws <= t + WINDOW_TICKS -> Z.of_nat (count_if (in_span t) old) <= MAX_RESTARTS.
Proof.
  intros Hc Hw. destruct Hc as [|ws ws' cur old H1 H2 H3 H4]; [done|]. rewrite count_if_app.
  rewrite (span_before t old ws') by (lia || by apply chain_below). pose proof (count_if_le (in_span t) cur). lia.
Qed.

Lemma window_count t ws cur old : chain ws old -> Z.of_nat (length cur) <= MAX_RESTARTS -> Forall (fun x => ws <= x <= ws + WINDOW_TICKS) cur ->
  Z.of_nat (count_if (in_span t) (cur ++ old)) <= 2 * MAX_RESTARTS.
Proof.
  intros Hc. revert cur. induction Hc as [ws|ws ws' cur' old H1 H2 H3 H4 IH]; intros cur Hl Hcur; rewrite count_if_app.
  - pose proof (count_if_le (in_span t) cur). rewrite count_if_nil. unfold MAX_RESTARTS in *. lia.
  - destruct (Z.le_gt_cases ws (t + WINDOW_TICKS)) as [H|H].
    + pose proof (count_if_le (in_span t) cur). pose proof (chain_one t ws (cur' ++ old) ltac:(by econstructor) H). unfold MAX_RESTARTS in *. lia.
    + rewrite (span_after t cur ws) by (lia || (eapply Forall_impl; [exact Hcur|]; cbn; lia)). by apply IH.
Qed.
(** ** The policy *)

(** The ticks of a service's restarts. *)
Definition granted (p : path) (ds : list (Z * Decision)) : list Z :=
  omap (fun x : Z * Decision => match x.2 with Restart q => if decide (q = p) then Some x.1 else None | _ => None end) ds.

(** The drains happen at ticks in order, from [T] on. *)
Fixpoint in_order (T : Z) (es : list event) : Prop :=
  match es with
  | [] => True
  | Drain now :: es => T <= now /\ in_order now es
  | _ :: es => in_order T es
  end.

(** What the state knows of the restarts [h] of a service, latest first, and of a give-up. *)
Definition remembers (c : option (path * Z * Z * bool)) (h : list Z) (T : Z) (stopped : bool) : Prop :=
  match c with
  | None => h = [] /\ stopped = false
  | Some (_, r, ws, g) => 0 <= ws <= T /\ (stopped = true -> g = true) /\
      exists cur old, h = cur ++ old /\ Z.of_nat (length cur) = r /\ r <= MAX_RESTARTS /\ Forall (fun x => ws <= x <= ws + WINDOW_TICKS) cur /\ chain ws old
  end.

Lemma remembers_later c h T T' st : remembers c h T st -> T <= T' -> remembers c h T' st.
Proof. intros H HT. destruct c as [[[[p r] ws] g]|]; [|done]. destruct H as (? & ? & ?). split_and!; [lia|lia|done|done]. Qed.

Lemma rolled_remembers now svc h T st : T <= now -> remembers (Some (core svc)) h T st ->
  remembers (Some (core (rolled now svc))) h now st /\ window_start_tick (rolled now svc) <= now <= window_start_tick (rolled now svc) + WINDOW_TICKS.
Proof.
  intros HT (Hws & Hst & cur & old & -> & Hr & Hmax & Hcur & Hold). unfold rolled.
  destruct (Z.ltb_spec WINDOW_TICKS (Z.max 0 (now - window_start_tick svc))) as [H|H].
  - cbn [core restarts_in_window window_start_tick gave_up s_path remembers]. split; [|unfold WINDOW_TICKS in *; lia]. split_and!; [lia|lia|done|].
    exists [], (cur ++ old). split_and!; [done|done|done|by apply Forall_nil|]. apply (chain_window now (window_start_tick svc)); [lia|lia|done|done].
  - split; [|unfold WINDOW_TICKS in *; lia]. split_and!; [lia|lia|done|]. by exists cur, old.
Qed.

Definition stops (p : path) (d : Decision) : bool := match d with GiveUp q => bool_decide (q = p) | _ => false end.

Lemma decide_remembers p now svc h T st : s_path svc = p -> T <= now -> remembers (Some (core svc)) h T st ->
  let '(d, svc') := decide_service now svc in
  s_path svc' = p /\ (d = Restart p -> st = false) /\ remembers (Some (core svc')) (reverse (granted p [(now, d)]) ++ h) now (st || stops p d).
Proof.
  intros Hp HT Hrem. unfold decide_service. destruct (gave_up svc) eqn:Hg.
  { split_and!; [done|done|]. cbn [granted omap list_omap snd reverse app stops]. rewrite orb_false_r. by apply (remembers_later _ _ T). }
  assert (st = false) as -> by (destruct Hrem as (_ & Hst & _); destruct st; [by rewrite Hg in Hst; specialize (Hst eq_refl)|done]).
  destruct (rolled_remembers now svc h T false HT Hrem) as [(Hws & _ & cur & old & -> & Hr & Hmax & Hcur & Hold) Hnow].
  assert (s_path (rolled now svc) = p) as Hp' by (unfold rolled; by destruct (_ <? _)). cbv zeta.
  destruct (Z.ltb_spec (restarts_in_window (rolled now svc)) MAX_RESTARTS) as [Hlt|Hge].
  - split_and!; [done|done|]. rewrite Hp'. cbn [granted omap list_omap snd fst]. rewrite decide_True by done. cbn [stops orb core s_path restarts_in_window window_start_tick gave_up remembers]. split_and!; [lia|lia|done|].
    exists (now :: cur), old. split_and!; [done|cbn [length]; lia|lia|by apply Forall_cons|done].
  - split_and!; [done|done|]. cbn [granted omap list_omap snd stops core s_path restarts_in_window window_start_tick gave_up remembers]. split_and!; [lia|lia|done|]. by exists cur, old.
Qed.
(** A fault of the process a service is claimed to run as. *)
Definition crash (p : path) (e : event) (s : state) : nat :=
  match e with Fault pid _ _ _ => if decide ((claim pid s).1 = Some p) then 1 else 0 | _ => 0 end.
Definition pending (p : path) (q : list FaultReport) : nat := count_if (fun r => bool_decide (r_service r = Some p)) q.

Definition tick_of (e : event) (T : Z) : Z := match e with Drain now => now | _ => T end.

Record step_ok p (e : event) (s : state) q h T st (ds : list (Z * Decision)) (s' : state) q' : Prop := {
  k_queue : queued s' q';
  k_core : remembers (core <$> find p (SERVICES s')) (reverse (granted p ds) ++ h) (tick_of e T) (st || existsb (stops p) ds.*2);
  k_stop : granted p ds <> [] -> st = false;
  k_crash : (length (granted p ds) + pending p q' <= pending p q + crash p e s)%nat;
}.

Lemma quiet_step p e s q h T st s' q' :
  queued s' q' -> 0 <= T -> T <= tick_of e T -> remembers (core <$> find p (SERVICES s')) h T st -> (pending p q' <= pending p q + crash p e s)%nat ->
  step_ok p e s q h T st [] s' q'.
Proof. intros Q HT Hle Hc Hp. constructor; [done| |done|done]. cbn. rewrite orb_false_r. by apply (remembers_later _ _ T). Qed.

Lemma register_core p p0 pid s h T st : 0 <= T -> remembers (core <$> find p (SERVICES s)) h T st ->
  remembers (core <$> find p (SERVICES (register p0 pid s))) h T st.
Proof.
  intros HT Hc. unfold register.
  destruct (on_first_path p0 (fun svc => ((), with_pid svc (Some pid))) (SERVICES s) ltac:(done)) as [H1 _].
  pose proof (on_first_core (fun svc => bool_decide (s_path svc = p0)) (fun svc => ((), with_pid svc (Some pid))) (SERVICES s) p ltac:(done)) as H2.
  destruct (on_first _ _ (SERVICES s)) as [[[]|] svcs]; cbn [fst snd set_services SERVICES] in *; [by rewrite H2|].
  destruct (find p0 (SERVICES s)) eqn:E; [done|].
  destruct (find_fill (SERVICES s) (mk_service p0 (Some pid) 0 0 false) p E) as [->|[-> ->]]; [done|]. cbn [s_path] in *. rewrite E in Hc. destruct Hc as [-> ->].
  cbn. split_and!; [done|done|done|]. exists [], []. split_and!; [done|done|done|by apply Forall_nil|constructor].
Qed.

Lemma pending_tail p r q : pending p (r :: q) = ((if bool_decide (r_service r = Some p) then 1 else 0) + pending p q)%nat.
Proof. unfold pending. by rewrite count_if_cons. Qed.

Lemma drain_step p now s q h T st : queued s q -> 0 <= T -> T <= now -> remembers (core <$> find p (SERVICES s)) h T st ->
  exists ds s' q', step (Drain now) s = Ret (ds, s') /\ step_ok p (Drain now) s q h T st ds s' q'.
Proof.
  intros Q HT Hnow Hc. cbn [step]. destruct (pop_queued s q Q) as (s1 & -> & Q1 & Hs1). cbn [mbind outcome_bind]. destruct q as [|r q]; cbn [head tail] in *.
  { eexists _, s1, []. split; [done|]. apply quiet_step; [done|done|done|by rewrite Hs1|lia]. }
  unfold decide_report. destruct (r_service r) as [p0|] eqn:Hr.
  - destruct (on_first_path p0 (decide_service now) (SERVICES s1)) as [H1 H2].
    { intros svc. unfold decide_service, rolled. destruct (gave_up svc); [done|]. destruct (_ <? _); by destruct (_ <? _). }
    destruct (on_first _ _ (SERVICES s1)) as [od svcs]. cbn [fst snd] in H1, H2. eexists _, _, q. split; [done|].
    assert (find p (SERVICES (set_services s1 svcs)) = if decide (p = p0) then (fun svc => (decide_service now svc).2) <$> find p0 (SERVICES s) else find p (SERVICES s)) as Hfind by (cbn [set_services SERVICES]; by rewrite H2, Hs1).
    rewrite Hs1 in H1. destruct (decide (p = p0)) as [<-|Hne].
    + destruct (find p (SERVICES s)) as [svc|] eqn:Ef; cbn [fmap option_fmap option_map] in *.
      * pose proof (decide_remembers p now svc h T st (find_path _ _ _ Ef) Hnow Hc) as Hd. destruct (decide_service now svc) as [d svc']. cbn [fst snd] in *.
        destruct Hd as (Hp' & Hst & Hrem). rewrite H1. cbn [default from_option id]. constructor; cbn [tick_of].
        -- by apply queued_services.
        -- rewrite Hfind. cbn [fmap list_fmap existsb snd option_fmap option_map]. by rewrite orb_false_r.
        -- intros Hne. apply Hst. destruct d as [|p'|p']; [done| |done]. cbn in Hne. destruct (decide (p' = p)); [by subst|done].
        -- rewrite pending_tail, Hr, bool_decide_true by done. assert (length (granted p [(now, d)]) <= 1)%nat; [|change (crash p (Drain now) s) with 0%nat; lia].
           unfold granted. cbn. repeat case_match; cbn; lia.
      * rewrite H1. cbn [default from_option id]. constructor; cbn [tick_of]; [by apply queued_services| |done|rewrite pending_tail; change (crash p (Drain now) s) with 0%nat; cbn [granted omap list_omap snd length]; lia].
        rewrite Hfind. by destruct Hc as [-> ->].
    + assert (granted p [(now, default No_action od)] = [] /\ stops p (default No_action od) = false) as [Hg Hs].
      { destruct (find p0 (SERVICES s)) as [svc|] eqn:Ef; rewrite H1; cbn [fmap option_fmap option_map default from_option id]; [|done].
        pose proof (find_path _ _ _ Ef) as Hpath. unfold decide_service. destruct (gave_up svc); [done|].
        assert (s_path (rolled now svc) = p0) as E by (unfold rolled; by destruct (_ <? _)). cbv zeta. destruct (_ <? _); cbn [fst snd stops granted omap list_omap].
        - by rewrite decide_False by congruence.
        - by rewrite bool_decide_false by congruence. }
      constructor; cbn [tick_of].
      * by apply queued_services.
      * rewrite Hfind, Hg. cbn [fmap list_fmap existsb snd reverse app]. rewrite Hs. cbn [orb]. rewrite orb_false_r. by apply (remembers_later _ _ T).
      * by rewrite Hg.
      * rewrite Hg, pending_tail. change (crash p (Drain now) s) with 0%nat. cbn [length]. lia.
  - eexists _, _, q. split; [done|]. constructor; cbn [tick_of]; [done| |done|rewrite pending_tail; change (crash p (Drain now) s) with 0%nat; cbn [granted omap list_omap snd length]; lia].
    cbn [granted omap list_omap snd fmap list_fmap existsb stops]. rewrite orb_false_r, Hs1. by apply (remembers_later _ _ T).
Qed.
Lemma fault_step p pid kind a st' s q h T st : queued s q -> 0 <= T -> remembers (core <$> find p (SERVICES s)) h T st ->
  exists s' q', step (Fault pid kind a st') s = Ret ([], s') /\ step_ok p (Fault pid kind a st') s q h T st [] s' q'.
Proof.
  intros Q HT Hc. cbn [step]. destruct (report_queued s q pid kind a st' Q) as (s' & -> & Hs & Q'). eexists s', _. split; [done|].
  apply quiet_step; [exact Q'|done|done| |].
  - rewrite Hs. unfold claim. by rewrite on_first_core.
  - destruct (_ <? _)%nat; [|lia]. unfold pending. rewrite count_if_app, count_if_cons, count_if_nil. cbn [r_service crash].
    case_bool_decide as E; destruct (decide _); try done; lia.
Qed.

Lemma any_step p e s q h T st : queued s q -> 0 <= T -> T <= tick_of e T -> remembers (core <$> find p (SERVICES s)) h T st ->
  exists ds s' q', step e s = Ret (ds, s') /\ step_ok p e s q h T st ds s' q'.
Proof.
  intros Q HT Hle Hc. destruct e as [pid kind a st'|now|p0 pid|p0 pid|pid].
  - destruct (fault_step p pid kind a st' s q h T st Q HT Hc) as (s' & q' & H1 & H2). by exists [], s', q'.
  - by apply drain_step.
  - eexists [], _, q. split; [done|]. apply quiet_step; [unfold register; destruct (on_first _ _ _) as [[]]; by apply queued_services|done|done|by apply register_core|lia].
  - eexists [], _, q. split; [done|]. apply quiet_step; [by apply queued_services|done|done| |lia]. cbn [set_current_pid set_services SERVICES]. by rewrite on_first_core.
  - eexists [], _, q. split; [done|]. apply quiet_step; [by apply queued_services|done|done|by rewrite clear_core|lia].
Qed.

(** Faults of the processes the service was claimed to run as, over a run. *)
Fixpoint crashes (p : path) (es : list event) (s : state) : nat :=
  match es with
  | [] => 0
  | e :: es => crash p e s + match step e s with Ret (_, s) => crashes p es s | Panic => 0 end
  end.

Lemma restarts_app p ds ds' : granted p (ds ++ ds') = granted p ds ++ granted p ds'.
Proof. unfold granted. apply omap_app. Qed.

Lemma in_order_step T e es : in_order T (e :: es) <-> T <= tick_of e T /\ in_order (tick_of e T) es.
Proof. destruct e; cbn; naive_solver lia. Qed.

Lemma run_ok p es : forall s q h T st, queued s q -> 0 <= T -> in_order T es -> remembers (core <$> find p (SERVICES s)) h T st ->
  exists ds s' T', run es s = Ret (ds, s') /\ remembers (core <$> find p (SERVICES s')) (reverse (granted p ds) ++ h) T' (st || existsb (stops p) ds.*2) /\
    (st = true -> granted p ds = []) /\ (length (granted p ds) <= pending p q + crashes p es s)%nat /\
    forall a b now, ds = a ++ (now, GiveUp p) :: b -> granted p b = [].
Proof.
  induction es as [|e es IH]; intros s q h T st Q HT Hord Hc; cbn [run crashes].
  { exists [], s, T. split; [done|]. split; [by rewrite orb_false_r|]. split_and!; [done|cbn; lia|]. intros [|[] a] b now; done. }
  apply in_order_step in Hord as [Hle Hord]. destruct (any_step p e s q h T st Q HT Hle Hc) as (ds & s1 & q1 & E & [Q1 Hc1 Hst1 Hcr1]). rewrite E. cbn [mbind outcome_bind].
  destruct (IH s1 q1 _ (tick_of e T) _ Q1 ltac:(lia) Hord Hc1) as (ds' & s' & T' & -> & Hc' & Hst' & Hcr' & Hgu'). cbn [mbind outcome_bind]. exists (ds ++ ds'), s', T'.
  split; [done|]. split_and!.
  - rewrite restarts_app, reverse_app, <- app_assoc, fmap_app, existsb_app, orb_assoc. exact Hc'.
  - intros ->. rewrite restarts_app, Hst' by done. rewrite app_nil_r. destruct (granted p ds) eqn:Eg; [done|]. assert (true = false) by (apply Hst1; congruence). done.
  - rewrite restarts_app, length_app. lia.
  - intros a b now Heq. assert (length ds <= 1)%nat as Hlen.
    { destruct e; cbn [step] in E; try (injection E as <- _; cbn; lia).
      - destruct (report_fault _ _ _ _ _); [|done]. injection E as <- _. cbn. lia.
      - destruct (pop_report s) as [[[r|] s2]|]; cbn [mbind outcome_bind] in E; [|injection E as <- _; cbn; lia|done].
        destruct (decide_report r now0 s2). injection E as <- _. cbn. lia. }
    destruct ds as [|x [|]]; [|destruct a as [|y a]|cbn in Hlen; lia]; cbn [app] in Heq; [by eapply Hgu'| |].
    + injection Heq as -> <-. apply Hst'. cbn. rewrite bool_decide_true by done. by rewrite orb_true_r.
    + injection Heq as _ Heq. by eapply Hgu'.
Qed.

Lemma count_if_reverse {A} (f : A -> bool) l : count_if f (reverse l) = count_if f l.
Proof. induction l as [|x l IH]; [done|]. rewrite reverse_cons, count_if_app, !count_if_cons, count_if_nil, IH. lia. Qed.

(** ** Theorems *)

(** C39: supervision never panics and limits crash loops: whatever faults,
    registrations, relaunches and exits happen in between, a service is granted
    at most six restarts in any 501 consecutive ticks (two windows of three),
    none after the supervisor gave up on it, and no more than the faults of
    processes it was claimed to run as. *)
Theorem restarts_rate_limited (es : list event) (p : path) :
  in_order 0 es ->
  exists ds s, run es boot = Ret (ds, s) /\
    (forall t, Z.of_nat (count_if (in_span t) (granted p ds)) <= 6) /\
    (forall a b now, ds = a ++ (now, GiveUp p) :: b -> granted p b = []) /\
    (length (granted p ds) <= crashes p es boot)%nat.
Proof.
  intros Hord. destruct (run_ok p es boot [] [] 0 false queued_boot ltac:(done) Hord ltac:(done)) as (ds & s & T' & E & Hc & _ & Hcr & Hgu).
  exists ds, s. split_and!; [done| |done|done]. intros t.
  rewrite <- count_if_reverse. rewrite app_nil_r in Hc.
  destruct (find p (SERVICES s)) as [svc|]; cbn [fmap option_fmap option_map remembers core] in Hc; [|by destruct Hc as [-> _]].
  destruct Hc as (_ & _ & cur & old & E' & Hr & Hmax & Hcur & Hold). rewrite E'. rewrite <- Hr in Hmax. by apply (window_count t (window_start_tick svc)).
Qed.
(** A service that crashes as soon as it runs, around the end of the first window. *)
Definition shell : path := [47; 115].
Definition crash_loop : list event :=
  Register shell 5 :: concat ((fun now => [Fault 5 1 0 0; Drain now; SetPid shell (Some 5)]) <$> [400; 450; 500; 501; 502; 503; 504; 505]).

Lemma restarts_rate_limited_witness :
  exists ds s, run crash_loop boot = Ret (ds, s) /\ granted shell ds = [400; 450; 500; 501; 502; 503] /\ crashes shell crash_loop boot = 8%nat /\
    forall t, Z.of_nat (count_if (in_span t) (granted shell ds)) <= 6.
Proof.
  destruct (restarts_rate_limited crash_loop shell) as (ds & s & E & H & _); [vm_compute; repeat split; discriminate|].
  exists ds, s. split; [exact E|]. vm_compute in E. injection E as <- <-. split; [vm_compute; reflexivity|]. split; [vm_compute; reflexivity|exact H].
Defined.

(** A full ring ends supervision: when sixteen other faults wait, the report
    of a crashed service is dropped after its claim is released, so no drain ever
    restarts it. *)
Theorem dropped_report_ends_supervision :
  let es := Register shell 5 :: ((fun pid => Fault pid 1 0 0) <$> seqZ 100 16) ++ [Fault 5 1 0 0] ++ ((fun now => Drain now) <$> seqZ 1 20) in
  exists ds s, run es boot = Ret (ds, s) /\ crashes shell es boot = 1%nat /\ granted shell ds = [] /\ RING_COUNT s = 0%nat /\
    (current_pid <$> find shell (SERVICES s)) = Some None.
Proof. eexists _, _. split; [vm_compute; reflexivity|]. split; [vm_compute; reflexivity|]. split_and!; vm_compute; reflexivity. Qed.
End supervisor.

Module liveness.

Inductive ProgressOwner := Scheduler | ServiceLoop.

#[export] Instance ProgressOwner_eq_dec : EqDecision ProgressOwner.
Proof. solve_decision. Defined.

Definition OWNER_COUNT : nat := 2.
Definition ALL : list ProgressOwner := [Scheduler; ServiceLoop].
Definition owner_index (o : ProgressOwner) : nat := match o with Scheduler => 0 | ServiceLoop => 1 end.

Definition STALL_DEADLINE_TICKS : Z := 200.
Definition WATCHDOG_TIMEOUT_SECONDS : Z := 5.
Definition TIMER_TICKS_PER_SECOND : Z := 100.
Definition WATCHDOG_TIMEOUT_TICKS : Z := WATCHDOG_TIMEOUT_SECONDS * TIMER_TICKS_PER_SECOND.
Definition SHUTDOWN_GRACE_TICKS : Z := WATCHDOG_TIMEOUT_TICKS.

Inductive PetDecision := Pet | Withhold (owner : option ProgressOwner) (stalled_ticks : Z).
Inductive ShutdownTransition := Started | AlreadyStarted.

(** [u64::saturating_sub]. *)
Definition sat_sub (a b : Z) : Z := Z.max 0 (a - b).

(** [record_progress]: [fetch_add] wraps at 32 bits. *)
Definition record_progress (o : ProgressOwner) (epochs : list Z) : list Z := alter (fun e => wrap32 (e + 1)) (owner_index o) epochs.

Record LivenessGate := mk_gate { seen : list Z; last_progress : list Z; armed : bool; shutdown_since : option Z }.

Definition new : LivenessGate := mk_gate (replicate OWNER_COUNT 0) (replicate OWNER_COUNT 0) false None.

Definition arm (epochs : list Z) (now : Z) (g : LivenessGate) : LivenessGate := mk_gate epochs (replicate OWNER_COUNT now) true (shutdown_since g).

Definition begin_shutdown (now : Z) (g : LivenessGate) : ShutdownTransition * LivenessGate :=
  match shutdown_since g with
  | Some _ => (AlreadyStarted, g)
  | None => (Started, mk_gate (seen g) (last_progress g) (armed g) (Some now))
  end.

(** The first loop of [decide]: the epochs that moved. *)
Fixpoint note_progress (i : nat) (epochs : list Z) (now : Z) (seen last : list Z) : outcome (list Z * list Z) :=
  match epochs with
  | [] => Ret (seen, last)
  | e :: epochs =>
      s ← index seen i;
      if e =? s then note_progress (S i) epochs now seen last else
      seen ← store seen i e;
      last ← store last i now;
      note_progress (S i) epochs now seen last
  end.

(** The second loop: the owner stalled longest, past its deadline. *)
Fixpoint worst_of (owners : list ProgressOwner) (last : list Z) (now : Z) (worst : option (ProgressOwner * Z)) : outcome (option (ProgressOwner * Z)) :=
  match owners with
  | [] => Ret worst
  | o :: owners =>
      t ← index last (owner_index o);
      let stalled := sat_sub now t in
      worst_of owners last now
        (if (STALL_DEADLINE_TICKS <? stalled) && match worst with None => true | Some (_, w) => w <? stalled end then Some (o, stalled) else worst)
  end.

(** [LivenessGate::decide]. *)
Definition gate_decide (epochs : list Z) (now : Z) (g : LivenessGate) : outcome (PetDecision * LivenessGate) :=
  match shutdown_since g with
  | Some began =>
      let elapsed := sat_sub now began in
      Ret (if elapsed <=? SHUTDOWN_GRACE_TICKS then Pet else Withhold None elapsed, g)
  | None =>
      if negb (armed g) then Ret (Pet, g) else
      '(s, l) ← note_progress 0 epochs now (seen g) (last_progress g);
      let g := mk_gate s l (armed g) (shutdown_since g) in
      w ← worst_of ALL l now None;
      Ret (match w with Some (o, stalled) => Withhold (Some o) stalled | None => Pet end, g)
  end.

Definition stalled_ticks (o : ProgressOwner) (now : Z) (g : LivenessGate) : outcome Z := t ← index (last_progress g) (owner_index o); Ret (sat_sub now t).
(** ** The gate and the history of samples *)

(** A history of epoch samples with their ticks, latest first; the oldest is
    the one the gate was armed with. *)
Abbreviation history := (list (list Z * Z)).

Fixpoint observe (h : history) : outcome (PetDecision * LivenessGate) :=
  match h with
  | [] => Ret (Pet, new)
  | (e, t) :: h =>
      match h with
      | [] => Ret (Pet, arm e t new)
      | _ => '(_, g) ← observe h; gate_decide e t g
      end
  end.

Definition epoch (o : ProgressOwner) (x : list Z * Z) : option Z := x.1 !! owner_index o.

(** Owner [o] shows the same epoch at the last sample and at every sample back
    to one more than [d] ticks ago. *)
Definition frozen (o : ProgressOwner) (h : history) (d : Z) : Prop :=
  exists now h1 x h2, h = h1 ++ x :: h2 /\ (head h = Some now) /\ Forall (fun y => epoch o y = epoch o x) h1 /\ d < now.2 - x.2.

(** Ticks in order, one epoch per owner. *)
Fixpoint history_ok (h : history) : Prop :=
  match h with
  | [] => True
  | (e, t) :: h => length e = OWNER_COUNT /\ 0 <= t /\ match h with [] => True | (_, t') :: _ => t' <= t end /\ history_ok h
  end.

(** The tick since which the epoch of [o] is what it is now. *)
Fixpoint since (o : ProgressOwner) (h : history) : Z :=
  match h with
  | [] => 0
  | x :: h => match h with [] => x.2 | y :: _ => if decide (epoch o x = epoch o y) then since o h else x.2 end
  end.

Lemma since_cons o x y h : since o (x :: y :: h) = if decide (epoch o x = epoch o y) then since o (y :: h) else x.2.
Proof. done. Qed.

Lemma since_spec o h x : history_ok h -> head h = Some x -> 
  (exists h1 y h2, h = h1 ++ y :: h2 /\ Forall (fun z => epoch o z = epoch o y) h1 /\ y.2 = since o h) /\
  (forall h1 y h2, h = h1 ++ y :: h2 -> Forall (fun z => epoch o z = epoch o y) h1 -> since o h <= y.2).
Proof.
  revert x. induction h as [|x h IH]; intros z Hok Hz; [done|]. injection Hz as ->. destruct z as [e t]. destruct h as [|[e' t'] h].
  - split; [exists [], (e, t), []; by split_and!; [|apply Forall_nil|]|]. intros [|y h1] z h2 E Hf; [injection E as <- <-; cbn; lia|by destruct h1].
  - destruct Hok as (Hl & Ht & Hle & Hok). destruct (IH (e', t') Hok eq_refl) as [(h1 & y & h2 & E & Hf & Hs) Hmin]. rewrite since_cons.
    destruct (decide (epoch o (e, t) = epoch o (e', t'))) as [Heq|Hne].
    + split.
      * exists ((e, t) :: h1), y, h2. split_and!; [by rewrite E| |done]. apply Forall_cons. split; [|done]. rewrite Heq.
        destruct h1 as [|z h1]; [by injection E as <- _|]. injection E as <- _. by apply Forall_cons in Hf as [? _].
      * intros [|z g1] w g2 E' Hf'; [injection E' as <- <-|injection E' as <- E'; apply Forall_cons in Hf' as [_ Hf']; by apply (Hmin g1 w g2)].
        cbn [snd]. pose proof (Hmin [] (e', t') h eq_refl ltac:(by apply Forall_nil)). cbn [snd] in *. lia.
    + split; [exists [], (e, t), ((e', t') :: h); by split_and!; [|apply Forall_nil|]|].
      intros [|z g1] w g2 E' Hf'; [injection E' as <- <-; cbn; lia|]. injection E' as <- E'. apply Forall_cons in Hf' as [H1 Hf']. exfalso. apply Hne. rewrite H1.
      destruct g1 as [|z g1]; [by injection E' as <- <-|]. injection E' as <- _. by apply Forall_cons in Hf' as [-> _].
Qed.

Lemma frozen_since o h x d : history_ok h -> head h = Some x -> frozen o h d <-> d < x.2 - since o h.
Proof.
  intros Hok Hx. destruct (since_spec o h x Hok Hx) as [(h1 & y & h2 & E & Hf & Hs) Hmin]. split.
  - intros (now & g1 & z & g2 & E' & Hn & Hf' & Hd). rewrite Hx in Hn. injection Hn as <-. pose proof (Hmin g1 z g2 E' Hf'). lia.
  - intros Hd. exists x, h1, y, h2. split_and!; [done|done|done|lia].
Qed.

(** The gate's memory of a history. *)
Definition recalls (g : LivenessGate) (h : history) (x : list Z * Z) : Prop :=
  seen g = x.1 /\ last_progress g = [since Scheduler h; since ServiceLoop h] /\ armed g = true /\ shutdown_since g = None.

Definition judgement (a b now : Z) : PetDecision :=
  if (STALL_DEADLINE_TICKS <? sat_sub now a) && (sat_sub now b <=? sat_sub now a) then Withhold (Some Scheduler) (sat_sub now a)
  else if STALL_DEADLINE_TICKS <? sat_sub now b then Withhold (Some ServiceLoop) (sat_sub now b) else Pet.

Lemma worst_judgement a b now : (w ← worst_of ALL [a; b] now None; Ret (match w with Some (o, st) => Withhold (Some o) st | None => Pet end)) = Ret (judgement a b now).
Proof.
  unfold judgement. cbn [worst_of ALL owner_index index lookup list_lookup mbind outcome_bind]. set (x := sat_sub now a). set (y := sat_sub now b).
  destruct (Z.ltb_spec STALL_DEADLINE_TICKS x), (Z.ltb_spec STALL_DEADLINE_TICKS y), (Z.leb_spec y x); cbn [andb mbind outcome_bind]; try done; try lia;
    destruct (Z.ltb_spec x y); cbn [andb mbind outcome_bind]; try done; lia.
Qed.
Lemma note_both e1 e2 e1' e2' a b t : note_progress 0 [e1; e2] t [e1'; e2'] [a; b] =
  Ret ([e1; e2], [if decide (Some e1 = Some e1') then a else t; if decide (Some e2 = Some e2') then b else t]).
Proof.
  unfold note_progress. destruct (Z.eqb_spec e1 e1') as [->|H1], (Z.eqb_spec e2 e2') as [->|H2].
  - rewrite !decide_True by done. cbn. by rewrite !Z.eqb_refl.
  - rewrite decide_True, decide_False by congruence. cbn. rewrite Z.eqb_refl. cbn. by rewrite (proj2 (Z.eqb_neq e2 e2') H2).
  - rewrite decide_False, decide_True by congruence. cbn. rewrite (proj2 (Z.eqb_neq e1 e1') H1). rewrite !store_lt by (cbn; lia). cbn. by rewrite Z.eqb_refl.
  - rewrite !decide_False by congruence. cbn. rewrite (proj2 (Z.eqb_neq e1 e1') H1). rewrite !store_lt by (cbn; lia). cbn. by rewrite (proj2 (Z.eqb_neq e2 e2') H2).
Qed.

Lemma decide_recalls g h x y : history_ok (x :: y :: h) -> recalls g (y :: h) y ->
  exists g', gate_decide x.1 x.2 g = Ret (judgement (since Scheduler (x :: y :: h)) (since ServiceLoop (x :: y :: h)) x.2, g') /\ recalls g' (x :: y :: h) x.
Proof.
  destruct x as [e t], y as [e' t']. intros (Hl & _ & _ & (Hl' & _)) (Hs & Hlp & Ha & Hsh). unfold gate_decide, recalls. rewrite Hsh, Ha, Hs, Hlp. cbn [negb fst snd].
  rewrite !since_cons. generalize (since Scheduler ((e', t') :: h)), (since ServiceLoop ((e', t') :: h)). clear -Hl Hl'. intros a b. unfold epoch. cbn [fst snd owner_index].
  destruct e as [|e1 [|e2 []]]; try done. destruct e' as [|e1' [|e2' []]]; try done. cbn [lookup list_lookup].
  rewrite note_both. cbn [mbind outcome_bind].
  match goal with |- context [worst_of ALL [?a; ?b] t None] => pose proof (worst_judgement a b t) as W end.
  destruct (worst_of ALL _ t None) as [w|]; cbn [mbind outcome_bind] in *; [|done]. injection W as <-. eexists. by split; [reflexivity|].
Qed.

Lemma observe_recalls h x : history_ok h -> head h = Some x ->
  exists d g, observe h = Ret (d, g) /\ recalls g h x /\
    (d = judgement (since Scheduler h) (since ServiceLoop h) x.2).
Proof.
  revert x. induction h as [|x h IH]; intros z Hok Hz; [done|]. injection Hz as ->. destruct z as [e t]. destruct h as [|y h].
  - eexists _, _. split; [done|]. split; [done|]. cbn. unfold judgement, sat_sub. rewrite Z.sub_diag. done.
  - assert (history_ok (y :: h)) as Hok' by apply Hok. destruct (IH y Hok' eq_refl) as (d & g & E & Hr & _).
    destruct (decide_recalls g h (e, t) y Hok Hr) as (g' & E' & Hr'). eexists _, g'. split; [|done].
    change (observe ((e, t) :: y :: h)) with ('(_, g) ← observe (y :: h); gate_decide e t g). rewrite E. exact E'.
Qed.

Lemma since_le o h x : history_ok h -> head h = Some x -> since o h <= x.2.
Proof.
  intros Hok Hx. destruct (since_spec o h x Hok Hx) as [_ H]. destruct h as [|y h]; [done|]. injection Hx as ->. apply (H [] x h); [done|by apply Forall_nil].
Qed.

(** ** Theorems *)

(** The gate is equivalent to its reference reading of the history: an armed
    gate feeds the watchdog at a tick exactly when no owner has shown one and
    the same epoch at every sample over more than 200 ticks; it names an owner
    that is stalled, with its stall, and no owner is stalled longer. *)
Theorem gate_pets_iff_progress (h : history) :
  history_ok h -> h <> [] ->
  exists d g, observe h = Ret (d, g) /\
    (d = Pet <-> forall o, ~ frozen o h STALL_DEADLINE_TICKS) /\
    (forall ow n, d = Withhold ow n -> exists o, ow = Some o /\ frozen o h STALL_DEADLINE_TICKS /\ (forall d', frozen o h d' <-> d' < n) /\
      forall o' d', frozen o' h d' -> frozen o h d').
Proof.
  intros Hok Hne. destruct h as [|x h]; [done|]. destruct (observe_recalls (x :: h) x Hok eq_refl) as (d & g & E & _ & ->). eexists _, g. split; [done|]. clear E.
  pose proof (fun o d => frozen_since o (x :: h) x d Hok eq_refl) as HF. pose proof (fun o => since_le o (x :: h) x Hok eq_refl) as HL.
  set (a := since Scheduler (x :: h)) in *. set (b := since ServiceLoop (x :: h)) in *.
  pose proof (HL Scheduler) as Ha. pose proof (HL ServiceLoop) as Hb. fold a in Ha. fold b in Hb.
  assert (forall d, frozen Scheduler (x :: h) d <-> d < x.2 - a) as FA by (intros; apply HF). assert (forall d, frozen ServiceLoop (x :: h) d <-> d < x.2 - b) as FB by (intros; apply HF).
  unfold judgement, sat_sub. rewrite !Z.max_r by lia. split.
  - assert ((forall o, ~ frozen o (x :: h) STALL_DEADLINE_TICKS) <-> ~ STALL_DEADLINE_TICKS < x.2 - a /\ ~ STALL_DEADLINE_TICKS < x.2 - b) as ->.
    { split; [intros H; split; [rewrite <- FA|rewrite <- FB]; apply H|]. intros [H1 H2] []; [by rewrite FA|by rewrite FB]. }
    destruct (Z.ltb_spec STALL_DEADLINE_TICKS (x.2 - a)), (Z.ltb_spec STALL_DEADLINE_TICKS (x.2 - b)), (Z.leb_spec (x.2 - b) (x.2 - a)); cbn [andb]; split; try done; lia.
  - intros ow n. destruct (Z.ltb_spec STALL_DEADLINE_TICKS (x.2 - a)), (Z.ltb_spec STALL_DEADLINE_TICKS (x.2 - b)), (Z.leb_spec (x.2 - b) (x.2 - a)); cbn [andb]; try done; try lia;
      intros [= <- <-]; (eexists; split; [done|]); (split; [first [by rewrite FA|by rewrite FB]|]); (split; [first [exact FA|exact FB]|]); intros [] d'; rewrite ?FA, ?FB; lia.
Qed.

Lemma gate_pets_iff_progress_witness :
  let h : history := [([7; 1], 201); ([6; 1], 100); ([5; 1], 0)] in
  (exists g, observe h = Ret (Withhold (Some ServiceLoop) 201, g)) /\ frozen ServiceLoop h STALL_DEADLINE_TICKS.
Proof.
  intros h. destruct (gate_pets_iff_progress h) as (d & g & E & _ & H); [vm_compute; repeat split; discriminate|done|].
  vm_compute in E. injection E as <- <-. split; [eexists; vm_compute; reflexivity|]. destruct (H _ _ eq_refl) as (o & [= <-] & Hf & _). exact Hf.
Defined.

(** The shutdown exemption is bounded: once a shutdown began, whatever
    requests, samples and arming follow, the gate feeds the watchdog exactly
    during the 500 ticks after the first request. *)
Theorem shutdown_grace_bounded (began : Z) (ops : list (LivenessGate -> LivenessGate)) (g : LivenessGate) epochs now :
  shutdown_since g = None ->
  Forall (fun f => (exists e t, f = arm e t) \/ (exists t, f = fun g => (begin_shutdown t g).2)) ops ->
  let g' := foldl (fun g f => f g) (begin_shutdown began g).2 ops in
  gate_decide epochs now g' = Ret (if sat_sub now began <=? SHUTDOWN_GRACE_TICKS then Pet else Withhold None (sat_sub now began), g').
Proof.
  intros Hg Hops g'. assert (shutdown_since g' = Some began) as E; [|unfold gate_decide; by rewrite E].
  unfold g', begin_shutdown at 1. rewrite Hg. cbn [snd]. clear g'.
  assert (forall g0, shutdown_since g0 = Some began -> shutdown_since (foldl (fun g f => f g) g0 ops) = Some began) as H; [|by apply H].
  clear Hg g. induction Hops as [|f ops Hf _ IH]; intros g0 H0; cbn [foldl]; [done|]. apply IH.
  destruct Hf as [(e & t & ->)|(t & ->)]; [done|]. unfold begin_shutdown. by rewrite H0.
Qed.
End liveness.
