(* ===== verification/Population.v ===== *)
(** * The population of the process table ([crates/thumos/src/process.rs],
    [execve] of [syscall.rs], [restart_supervised] of [kardia.rs])

    The calls that replace, end and restart processes, composed with those of
    [Process], [Mmap], [Lifecycle], [Spawn], [Ipc] and [Supervisor] into one
    transition system of the running kernel: the process table, the machine,
    the inboxes and the supervisor's state change together. [ramfs_find], the
    lookup of a program in the mounted file systems that [File] models, is a
    function from paths to bytes here, different from call to call. The caller's memory is
    reached through [UserMemory], the descriptor tables through
    [DescriptorLayer], [ForkLayer] and [ExecLayer]. The assertions of debug
    builds and the flushes of caches and TLB have no counterpart here. *)

From S2P Require Import Prelude Machine Page Ring Ipc Mmu Memguard Pipe Fd Signal Process Vm Mmap Lifetime Lifecycle Elf Spawn Supervisor.
From Stdlib Require Import ZArith.
Open Scope Z_scope.

(** What [execve] needs of the descriptor tables: the descriptors marked
    close-on-exec are closed, and every count is still exact. *)
Class ExecLayer (D : Type) `{!DescriptorLayer D} := {
  el_exec : nat -> D -> outcome D;
  el_exec_ok : forall c d, dl_ok d -> exists d', el_exec c d = Ret d' /\ dl_ok d';
}.

#[export] Program Instance fd_exec_layer (U : Type) `{!UserMemory U} : ExecLayer (fd.kernel U) := {|
  el_exec := fd.on_process fd.close_cloexec;
|}.
Next Obligation.
  intros U ? c d Hd. unfold fd.on_process. destruct (fd.tables d !! c) as [[t|]|] eqn:Ht; [|by eauto..].
  destruct (fd.close_slots_ok fd.cloexec c (seq 0 fd.MAX_FDS) d t Hd Ht) as (k & _ & E & Hk & _). by exists k.
Qed.

Module population.
Import vm lifetime lifecycle spawn.

Definition MAX_ARGS : nat := 16.
Definition MAX_ARG_LEN : nat := 128.
Definition MAX_PATH : nat := 256.
Definition EXEC_STACK_PAGES : nat := 4.
Definition ENOENT : Z := errno 2.
Definition ENOEXEC : Z := errno 8.

(** ** The arguments of [execve] *)

Definition argv_entry_address (argv_base : Z) (i : nat) : option Z :=
  let a := argv_base + Z.of_nat i * 4 in if a <? 2 ^ 32 then Some a else None.

(** [iter().position(|byte| *byte == 0)]. *)
Definition position_zero (bs : list Z) : option nat := fst <$> list_find (fun b => b = 0) bs.

(** The loop over [argv], from entry [i] on with [n] entries left: the strings
    read, or nothing when a copy from user memory fails. *)
Fixpoint collect_args {U} `{!UserMemory U} (u : U) (argv_base : Z) (i n : nat) : option (list (list Z)) :=
  match n with
  | O => Some []
  | S n =>
      entry_addr ← argv_entry_address argv_base i;
      encoded_ptr ← um_copy_from u entry_addr 4;
      let str_ptr := hd 0 (words_of_bytes encoded_ptr) in
      if str_ptr =? 0 then Some [] else
      arg_slot ← um_copy_from u str_ptr MAX_ARG_LEN;
      let slen := Nat.min (default (MAX_ARG_LEN - 1)%nat (position_zero arg_slot)) (MAX_ARG_LEN - 1) in
      args ← collect_args u argv_base (S i) n;
      Some (take slen arg_slot :: args)
  end.

(** The size of the argument block, rounded up to the stack alignment. *)
Definition frame_aligned (args : list (list Z)) : Z :=
  let strings_size := Z.of_nat (sum_list ((fun a => length a + 1)%nat <$> args)) in
  let pointers_size := (Z.of_nat (length args) + 1) * 4 in
  Z.land (4 + pointers_size + strings_size + 7) (not32 7).

Fixpoint store_bytes (m : memory) (a : Z) (bs : list Z) : memory :=
  match bs with [] => m | b :: bs => store_bytes (store8 m a b) (a + 1) bs end.

Fixpoint write_args (slot string_cursor : Z) (args : list (list Z)) (m : memory) : memory :=
  match args with
  | [] => store32 m slot 0
  | arg :: args =>
      let m := store32 m slot string_cursor in
      let m := store_bytes m string_cursor arg in
      let m := store8 m (string_cursor + Z.of_nat (length arg)) 0 in
      write_args (slot + 4) (string_cursor + Z.of_nat (length arg) + 1) args m
  end.

Definition write_argv (sp : Z) (args : list (list Z)) (m : memory) : memory :=
  let argc := Z.of_nat (length args) in
  write_args (sp + 4) (sp + 4 + (argc + 1) * 4) args (store32 m sp argc).

(** ** The system *)

Record system (D : Type) := mk_system {
  kern : process.kernel D;
  mach : machine;
  inboxes : list ipc.Inbox;
  sup : supervisor.state;
}.
Arguments mk_system {D} kern mach inboxes sup.
Arguments kern {D} s.
Arguments mach {D} s.
Arguments inboxes {D} s.
Arguments sup {D} s.

Section calls.
Context (st : mmu.statics) (table_base : Z) {D : Type} `{!DescriptorLayer D, !ForkLayer D, !ExecLayer D}.
Context (ramfs_find : list Z -> option (list Z)).
#[local] Abbreviation kernel := (process.kernel D).

(** The claims the supervisor drops: the calls to [clear_pid] recorded since
    [k]. *)
Definition clear_claims (k k' : kernel) (s : supervisor.state) : supervisor.state :=
  foldl (fun s c => supervisor.clear_pid (Z.of_nat c) s) s (drop (length (process.cleared k)) (process.cleared k')).

Definition with_kern (s : system D) (k : kernel) : system D :=
  mk_system k (mach s) (inboxes s) (clear_claims (kern s) k (sup s)).
Definition with_mem (s : system D) (k : kernel) (x : machine) : system D :=
  mk_system k x (inboxes s) (sup s).

(** [exit_current], with the claim that [exit_cleanup] drops first. *)
Definition exit_now (now status : Z) (s : system D) : outcome (system D) :=
  '(k, x, ibs) ← exit_current st table_base now status (kern s) (mach s) (inboxes s);
  Ret (mk_system k x ibs (clear_claims (kern s) k (sup s))).

(** [Syscall::Exit]: the status has to fit an [i32]. *)
Definition sys_exit (now arg0 : Z) (s : system D) : outcome (Z * system D) :=
  if 2 ^ 31 <=? arg0 then Ret (process.EINVAL, s) else s ← exit_now now arg0 s; Ret (0, s).

Definition notify_fault (faulting_pid : nat) (kind : signal.FaultKind) (s : system D) : outcome (system D) :=
  let '(tag, fault_addr, fault_status) :=
    match kind with
    | signal.DataAbort a f => (1, a, f)
    | signal.PrefetchAbort a f => (2, a, f)
    | signal.UndefinedInstruction => (3, 0, 0)
    end in
  k ← match process.proc (kern s) faulting_pid with
      | None => Ret (kern s)
      | Some p =>
          d ← dl_close_all faulting_pid (process.fds (kern s));
          Ret (process.put (process.set_fds (kern s) d) faulting_pid (Some (process.with_state p process.Dead)))
      end;
  v ← supervisor.report_fault (Z.of_nat faulting_pid) tag fault_addr fault_status (sup s);
  Ret (mk_system k (mach s) (inboxes s) v).

Definition fault_exit_current (now : Z) (kind : signal.FaultKind) (s : system D) : outcome (system D) :=
  s ← notify_fault (process.CURRENT (kern s)) kind s;
  exit_now now (signal.fault_exit_status kind) s.

(** ** execve *)

(** The frames of the old image, found in its table. *)
Definition free_old_image (pt : Z) (x : machine) : machine :=
  foldl (fun x i =>
    let va := page_va USER_TEXT_BASE i in
    match mmu.read_l2_entry (ram x) pt va with
    | Some entry =>
        if mmu.l2_entry_is_user entry then
          match mmu.read_l2_phys (ram x) pt va with Some phys => free_page phys x | None => x end
        else x
    | None => x
    end) x (seq 0 256).

Definition revoke_user_pages (pt base : Z) (pages : nat) (x : machine) : machine :=
  foldl (fun x i => set_mm x (mmu.update_page_prot pt (page_va base i) mmu.KERNEL_DEFAULT_PAGE (mm x)).2) x (seq 0 pages).

(** [if let Some(phys) = read_l2_phys(pt, va) { unmap_page(pt, va); free_page(phys) }] over a region. *)
Definition release_pages (pt base : Z) (pages : nat) (x : machine) : machine :=
  foldl (fun x i =>
    let va := page_va base i in
    match mmu.read_l2_phys (ram x) pt va with
    | Some phys => free_page phys (set_mm x (mmu.unmap_page st pt va (mm x)))
    | None => x
    end) x (seq 0 pages).

Definition release_mappings (pt : Z) (ms : list (option process.VmMapping)) (x : machine) : machine :=
  foldl (fun x o => match o with
    | Some m => release_pages pt (process.start m) (Z.to_nat (process.pages m)) x
    | None => x
    end) x ms.

(** The new process record: the heap and the mappings start afresh. *)
Definition exec_process (p : process.Process) (ctx : signal.Context) (stack_base stack_pages : Z) : process.Process :=
  process.mk_process (process.pid p) (process.state p) ctx (process.parent p) (process.exit_status p)
    (process.page_table_phys p) stack_base stack_pages process.DEFAULT_HEAP_BREAK (replicate process.MAX_MAPPINGS None)
    (process.signal_state p) (process.uid p) (process.wake_tick p) (process.capabilities p).

Definition exec_replace_context (loaded : elf.LoadedElf) (stack_top new_stack_base : Z) (new_stack_pages : nat)
    (k : kernel) (x : machine) : bool * kernel * machine :=
  let cur := process.CURRENT k in
  match process.proc k cur with
  | None => (false, k, x)
  | Some p =>
      let pt := process.page_table_phys p in
      let k := set_ttbr0 k table_base in
      let x := free_old_image pt x in
      let x := set_mm x (mmu.reset_shattered_section pt USER_TEXT_BASE (mm x)).2 in
      let x := revoke_user_pages pt (process.stack_base p) (Z.to_nat (process.stack_pages p)) x in
      let x := release_pages pt (process.stack_base p) (Z.to_nat (process.stack_pages p)) x in
      let x := release_mappings pt (process.mappings p) x in
      let heap_pages := Z.to_nat ((process.heap_break p - process.DEFAULT_HEAP_BREAK + PAGE_SIZE - 1) / PAGE_SIZE) in
      let x := release_pages pt process.DEFAULT_HEAP_BREAK heap_pages x in
      let '(image_ok, x) := map_user_image st pt loaded x in
      let '(stack_ok, x) := map_user_stack st pt new_stack_base new_stack_pages x in
      let k := set_ttbr0 k pt in
      if image_ok && stack_ok then
        let ctx := signal.context_initial (elf.l_entry loaded) stack_top 0x10 in
        let k := process.put k cur (Some (exec_process p ctx new_stack_base (Z.of_nat new_stack_pages))) in
        (true, process.set_frame k ((fun _ => ctx) <$> process.ACTIVE_FRAME k) (process.FRAME_SWITCHED k), x)
      else
        let x := foldl (fun x i =>
            let va := page_va new_stack_base i in free_page va (set_mm x (mmu.unmap_page st pt va (mm x))))
          x (seq 0 new_stack_pages) in
        (false, process.put k cur (Some (exec_process p (process.ctx p) 0 0)), x)
  end.

(** From the load on, with the arguments collected and the new stack reserved. *)
Definition exec_image (now : Z) (elf_data : list Z) (args : list (list Z)) (new_stack_base : Z) (s : system D)
    : outcome (Z * system D) :=
  let new_stack_top := new_stack_base + Z.of_nat EXEC_STACK_PAGES * PAGE_SIZE in
  let fits := frame_aligned args <=? Z.of_nat EXEC_STACK_PAGES * PAGE_SIZE in
  let args := if fits then args else [] in
  let sp := if fits then new_stack_top - frame_aligned args else new_stack_top - 8 in
  '(r, p) ← elf.load_confined elf_data USER_TEXT_BASE RAM_END (pg (mach s));
  let x := set_pg (mach s) p in
  match r with
  | Err e =>
      x ← free_run new_stack_base (Z.of_nat EXEC_STACK_PAGES) x;
      Ret (match e with elf.OutOfMemory => process.ENOMEM | _ => ENOEXEC end, with_mem s (kern s) x)
  | Ok loaded =>
      d ← el_exec (process.CURRENT (kern s)) (process.fds (kern s));
      let k := process.reset_signal_state (process.set_fds (kern s) d) in
      let k := set_ttbr0 k table_base in
      let x := set_ram x (write_argv sp args (ram x)) in
      let '(remapped, k, x) := exec_replace_context loaded sp new_stack_base EXEC_STACK_PAGES k x in
      let s := with_mem s k x in
      if remapped then Ret (0, s) else s ← exit_now now 137 s; Ret (0, s)
  end.

Definition sys_execve {U} `{!UserMemory U} (u : U) (now path_ptr argv_ptr : Z) (s : system D) : outcome (Z * system D) :=
  match um_copy_from u path_ptr MAX_PATH with
  | None => Ret (process.EFAULT, s)
  | Some path_storage =>
  match position_zero path_storage with
  | None | Some O => Ret (ENOENT, s)
  | Some path_len =>
  let path := take path_len path_storage in
  if negb (utf8.from_utf8 path) then Ret (ENOENT, s) else
  match ramfs_find path with
  | None => Ret (ENOENT, s)
  | Some elf_data =>
  '(o, x) ← alloc_run (Z.of_nat EXEC_STACK_PAGES) (mach s);
  let s := with_mem s (kern s) x in
  match o with
  | None => Ret (process.ENOMEM, s)
  | Some new_stack_base =>
  match (if argv_ptr =? 0 then Some [] else collect_args u argv_ptr 0 MAX_ARGS) with
  | None =>
      x ← free_run new_stack_base (Z.of_nat EXEC_STACK_PAGES) (mach s);
      Ret (process.EFAULT, with_mem s (kern s) x)
  | Some args => exec_image now elf_data args new_stack_base s
  end end end end end.

(** [restart_supervised], [ramfs_find] standing for the read of the program. *)
Definition restart_supervised (path : list Z) (s : system D) : outcome (option nat * system D) :=
  match ramfs_find path with
  | None => Ret (None, with_mem s (set_ttbr0 (kern s) table_base) (mach s))
  | Some elf_data =>
      '(o, k, x) ← start_image st table_base elf_data (kern s) (mach s);
      match o with
      | None => Ret (None, with_mem s k x)
      | Some pid => Ret (Some pid, mk_system k x (inboxes s) (supervisor.set_current_pid path (Some (Z.of_nat pid)) (sup s)))
      end
  end.
End calls.

(** ** The running kernel

    What happens to the system between two instructions of user code. [Process]
    has the traps, the ticks and the calls on the table itself; here are the
    calls that change memory, create, replace and end processes, the faults,
    and the work of the service loop. User processes exit, fault, block and
    call [execve]; PID 0, the service loop, does not. A call on descriptors
    leaves the counts exact ([Fd]); memory and the live trap frame may be
    written in any way, by the program or by a signal handler's frame. *)
Inductive pstep (st : mmu.statics) (tb : Z) {D} `{!DescriptorLayer D, !ForkLayer D, !ExecLayer D} {U} `{!UserMemory U}
    : system D -> system D -> Prop :=
  | pop_process s k : process.step (U:=U) (kern s) k -> pstep st tb s (with_kern s k)
  | pop_brk b r k x s : mmap.sys_brk st b (kern s) (mach s) = (r, k, x) -> pstep st tb s (with_mem s k x)
  | pop_mmap a0 a1 a2 a3 r k x s : mmap.sys_mmap st a0 a1 a2 a3 (kern s) (mach s) = (r, k, x) -> pstep st tb s (with_mem s k x)
  | pop_munmap a0 a1 r k x s : mmap.sys_munmap st a0 a1 (kern s) (mach s) = (r, k, x) -> pstep st tb s (with_mem s k x)
  | pop_mprotect a0 a1 a2 r k x s : mmap.sys_mprotect a0 a1 a2 (kern s) (mach s) = (r, k, x) -> pstep st tb s (with_mem s k x)
  | pop_memory x s : pstep st tb s (with_mem s (kern s) x)
  | pop_frame f sw s : pstep st tb s (with_mem s (process.set_frame (kern s) f sw) (mach s))
  | pop_fork o k x s : fork st tb (kern s) (mach s) = (o, k, x) -> pstep st tb s (with_mem s k x)
  | pop_spawn entry o k x s : lifecycle.spawn st tb entry (kern s) (mach s) = (o, k, x) -> pstep st tb s (with_mem s k x)
  | pop_spawn_user l o k x s : spawn_user st tb l (kern s) (mach s) = Ret (o, k, x) -> pstep st tb s (with_mem s k x)
  | pop_restart find path o s s' : restart_supervised st tb find path s = Ret (o, s') -> pstep st tb s s'
  | pop_execve find (u : U) now path_ptr argv_ptr r s s' :
      process.CURRENT (kern s) <> 0%nat -> sys_execve st tb find u now path_ptr argv_ptr s = Ret (r, s') -> pstep st tb s s'
  | pop_exit now arg0 r s s' :
      process.CURRENT (kern s) <> 0%nat -> sys_exit st tb now arg0 s = Ret (r, s') -> pstep st tb s s'
  | pop_fault now kind s s' :
      process.CURRENT (kern s) <> 0%nat -> fault_exit_current st tb now kind s = Ret s' -> pstep st tb s s'
  | pop_descriptors d s : dl_ok d -> pstep st tb s (with_mem s (process.set_fds (kern s) d) (mach s))
  | pop_send to msg r ibs s :
      ipc.send (Z.of_nat (process.CURRENT (kern s))) to msg (inboxes s) = Ret (r, ibs) ->
      pstep st tb s (mk_system (kern s) (mach s) ibs (sup s))
  | pop_recv r ibs s :
      ipc.recv (Z.of_nat (process.CURRENT (kern s))) (inboxes s) = Ret (r, ibs) ->
      pstep st tb s (mk_system (kern s) (mach s) ibs (sup s))
  | pop_drain now ds v s :
      supervisor.step (supervisor.Drain now) (sup s) = Ret (ds, v) -> pstep st tb s (mk_system (kern s) (mach s) (inboxes s) v)
  | pop_register path pid s :
      pstep st tb s (mk_system (kern s) (mach s) (inboxes s) (supervisor.register path pid (sup s))).

Section theory.
Context (st : mmu.statics) (tb : Z) {D : Type} `{!DescriptorLayer D, !ForkLayer D, !ExecLayer D}.
Implicit Types (k : process.kernel D) (s : system D) (p : process.Process).
Import signal process.

(** ** The invariant *)

Record good s : Prop := {
  g_live : live (kern s);
  g_boxes : (length (inboxes s) = ipc.MAX_INBOX_PROCS)%nat;
  g_ring : exists q, supervisor.queued (sup s) q;
}.

Lemma clear_queued v q l : supervisor.queued v q ->
  supervisor.queued (foldl (fun v c => supervisor.clear_pid (Z.of_nat c) v) v l) q.
Proof using Type. revert v. induction l as [|c l IH]; intros v Q; [done|]. by apply IH, supervisor.queued_services. Qed.

Lemma good_mem s k x : good s -> live k -> good (with_mem s k x).
Proof using Type. intros [_ ? ?] ?. by constructor. Qed.

Lemma good_kern s k : good s -> live k -> good (with_kern s k).
Proof using Type.
  intros [_ ? (q & Q)] ?. constructor; [done|done|]. exists q. by apply clear_queued.
Qed.

Lemma live_rest k f sw t c : live k ->
  live (mk_kernel (PROCS k) (CURRENT k) f sw t (FUTEX_WAITERS k) (fds k) c).
Proof using Type. intros [Hb Hc]. split; [by apply base_frame|done]. Qed.

Lemma live_ttbr0 k t : live k -> live (set_ttbr0 k t).
Proof using Type. apply live_rest. Qed.

Lemma live_fds k d : live k -> dl_ok d -> live (set_fds k d).
Proof using Type. intros [[[] ? ?] ?] ?. split; [|done]. constructor; [constructor|..]; done. Qed.

(** ** A new process *)

Lemma live_add k i p d :
  live k -> lifecycle.free_slot k = Some i -> dl_ok d ->
  pid p = i -> state p = Ready -> parent p = Some (CURRENT k) -> length (handlers (signal_state p)) = 18%nat ->
  live (put (set_fds k d) i (Some p)).
Proof using Type.
  intros Hl Hf Hd Hpid Hs Hpar Hh. pose proof (fd.first_free_Some _ _ Hf) as Hn. pose proof (live_inv _ Hl) as Hk.
  pose proof (lookup_lt_Some _ _ _ Hn) as Hlt.
  assert (proc k i = None) as Hi by (unfold proc; by rewrite Hn).
  assert (forall j, proc (put (set_fds k d) i (Some p)) j = if decide (j = i) then Some p else proc k j) as Hproc
    by (intros j; by apply (proc_put (set_fds k d))).
  destruct Hl as [[_ (p0 & Hp0 & Hs0) Hpa] (c & Hc & Hcs)].
  assert (CURRENT k <> i) as Hci by congruence. assert (0%nat <> i) as H0i by congruence.
  set (k' := put _ _ _) in *. split; [constructor|].
  - apply (inv_update k); try apply Hk.
    + cbn. rewrite length_insert. apply Hk.
    + done.
    + intros j q. rewrite Hproc. destruct (decide (j = i)) as [->|]; [|apply (inv_proc _ Hk)]. intros [= <-].
      split_and!; [done|done|by rewrite Hs].
    + intros w e Hw. split; [done|]. destruct (inv_wait _ Hk w e Hw) as (q & Hq & Hb). exists q.
      rewrite Hproc, decide_False; [done|congruence].
  - rewrite Hproc, decide_False by done. by exists p0.
  - intros j q. rewrite Hproc. destruct (decide (j = i)) as [->|]; [|apply Hpa]. intros [= <-]. rewrite Hpar. congruence.
  - exists c. change (CURRENT k') with (CURRENT k). by rewrite Hproc, decide_False.
Qed.

Lemma live_fork k x o k' x' : live k -> fork st tb k x = (o, k', x') -> live k'.
Proof using Type.
  intros Hl. unfold fork. destruct (lifecycle.free_slot k) as [i|] eqn:Hf; [|by intros [= _ <- _]].
  destruct (proj2 Hl) as (c & Hc & _). destruct (inv_proc _ (live_inv _ Hl) _ c Hc) as (_ & Hh & _). cbv zeta.
  assert (forall ctx pt b n, live (add_child i (CURRENT k) (child_of i (CURRENT k) (proc k (CURRENT k)) ctx pt b n) k)) as Hadd.
  { intros. apply live_add; try done; [apply fl_fork_ok, (inv_fds _ (live_inv _ Hl))|]. by rewrite Hc. }
  destruct (_ =? _).
  - unfold fork_pl0. destruct (_ || _); [by intros [= _ <- _]|]. destruct (fork_space _ _ _ _) as [[pt|] y]; intros [= _ <- _]; [apply Hadd|done].
  - unfold fork_pl1. destruct (mmu.alloc_addr_space _ _) as [[pt|] y]; [|by intros [= _ <- _]].
    destruct (alloc_stack _ _ _) as [[ps|] z]; intros [= _ <- _]; [apply Hadd|done].
Qed.

Lemma live_spawn entry k x o k' x' : live k -> lifecycle.spawn st tb entry k x = (o, k', x') -> live k'.
Proof using Type.
  intros Hl. unfold lifecycle.spawn. destruct (lifecycle.free_slot k) as [i|] eqn:Hf; [|by intros [= _ <- _]].
  destruct (mmu.alloc_addr_space _ _) as [[pt|] y]; [|by intros [= _ <- _]].
  destruct (alloc_stack _ _ _) as [[ps|] z]; intros [= _ <- _]; [|done].
  apply live_add; try done. apply fl_spawn_ok, (inv_fds _ (live_inv _ Hl)).
Qed.

Lemma live_spawn_user l k x o k' x' : live k -> spawn_user st tb l k x = Ret (o, k', x') -> live k'.
Proof using Type.
  intros Hl. unfold spawn_user. destruct (lifecycle.free_slot k) as [i|] eqn:Hf.
  2: { destruct (free_unspawned_image _ _); [|done]. by intros [= _ <- _]. }
  destruct (mmu.alloc_addr_space _ _) as [[pt|] y].
  2: { destruct (free_unspawned_image _ _); [|done]. by intros [= _ <- _]. }
  destruct (alloc_run _ _) as [[[b|] z]|]; cbn [mbind outcome_bind]; [| |done].
  2: { destruct (free_unspawned_image _ _); [|done]. by intros [= _ <- _]. }
  destruct (map_all _ _ _ _ _) as [[[] t] w].
  - intros [= _ <- _]. apply live_add; try done. apply fl_spawn_ok, (inv_fds _ (live_inv _ Hl)).
  - destruct (free_unspawned_image _ _); [|done]. cbn [mbind outcome_bind]. destruct (free_run _ _ _); [|done].
    by intros [= _ <- _].
Qed.

Lemma good_restart find path o s s' : good s -> restart_supervised st tb find path s = Ret (o, s') -> good s'.
Proof using Type.
  intros Hg. pose proof (live_ttbr0 _ tb (g_live _ Hg)) as Hl. unfold restart_supervised, start_image.
  destruct (find path) as [data|]; [|by intros [= _ <-]; apply good_mem].
  destruct (elf.load_confined _ _ _ _) as [[[l|] y]|]; cbn [mbind outcome_bind]; [|by intros [= _ <-]; apply good_mem|done].
  destruct (spawn_user _ _ _ _ _) as [[[o' k] x]|] eqn:E; cbn [mbind outcome_bind]; [|done].
  apply live_spawn_user in E; [|done]. destruct o' as [i|]; intros [= _ <-]; [|by apply good_mem].
  destruct Hg as [_ ? (q & Q)]. constructor; [done|done|]. exists q. by apply supervisor.queued_services.
Qed.

(** ** The memory calls *)

Lemma live_set_break b k : live k -> live (set_heap_break b k).
Proof using Type. intros Hl. apply live_modify; [done|]. intros p _. split_and!; try done; by left. Qed.

Lemma live_brk b k x r k' x' : live k -> mmap.sys_brk st b k x = (r, k', x') -> live k'.
Proof using Type.
  intros Hl. unfold mmap.sys_brk. repeat case_match; intros [= _ <- _]; try done; by apply live_set_break.
Qed.

(** The records of the caller's mappings. *)
Lemma live_records k : live k ->
  (forall m, live (add_mapping m k).2) /\ (forall a, live (remove_mapping a k).2) /\ (forall a r, live (update_mapping_prot a r k).2).
Proof using Type.
  intros Hl. split_and!; intros; apply (live_step (U:=memguard.cpu) k); first [done|constructor].
Qed.

Lemma live_mmap a0 a1 a2 a3 k x r k' x' : live k -> mmap.sys_mmap st a0 a1 a2 a3 k x = (r, k', x') -> live k'.
Proof using Type.
  intros Hl. destruct (live_records k Hl) as (Ha & _). unfold mmap.sys_mmap. cbv zeta.
  do 4 (case_match; [by intros [= _ <- _]|]). case_match; [by intros [= _ <- _]|].
  destruct (mmap.search _ _ _ _) as [[c|]|]; [|by intros [= _ <- _]..].
  destruct (map_pages _ _ _ _ _ _ _) as [y|i y|i f y]; [|by intros [= _ <- _]..].
  specialize (Ha (mk_mapping c (mmap.page_count a1) a2)). destruct (add_mapping _ k) as [[o|] k1]; by intros [= _ <- _].
Qed.

Lemma live_munmap a0 a1 k x r k' x' : live k -> mmap.sys_munmap st a0 a1 k x = (r, k', x') -> live k'.
Proof using Type.
  intros Hl. destruct (live_records k Hl) as (_ & Ha & _). specialize (Ha a0). unfold mmap.sys_munmap. cbv zeta.
  case_match; [by intros [= _ <- _]|]. destruct (remove_mapping _ _) as [[m|] k1]; by intros [= _ <- _].
Qed.

Lemma live_mprotect a0 a1 a2 k x r k' x' : live k -> mmap.sys_mprotect a0 a1 a2 k x = (r, k', x') -> live k'.
Proof using Type.
  intros Hl. destruct (live_records k Hl) as (_ & _ & Ha). unfold mmap.sys_mprotect. cbv zeta.
  do 2 (case_match; [by intros [= _ <- _]|]). destruct (find_mapping _ _) as [m|]; [|by intros [= _ <- _]].
  destruct (mmap.protect_pages _ _ _ _ _) as [[] y]; intros [= _ <- _]; [apply Ha|done].
Qed.

(** ** The end of a process *)

(** What [exit_cleanup] leaves of the process table. *)
Lemma cleanup_spec k x ibs status c :
  live k -> CURRENT k <> 0%nat -> length ibs = ipc.MAX_INBOX_PROCS -> proc k (CURRENT k) = Some c ->
  exists k' x' ibs', exit_cleanup st tb status k x ibs = Ret (k', x', ibs') /\ live k' /\ length ibs' = ipc.MAX_INBOX_PROCS /\
    CURRENT k' = CURRENT k /\ (forall j, proc k' j = if decide (j = CURRENT k) then Some (dead c status) else proc k j).
Proof using Type.
  intros Hl H0 Hb Hp. pose proof (live_inv _ Hl) as Hk. pose proof (inv_cur _ Hk) as Hlt. destruct Hl as [[_ (p0 & Hp0 & Hs0) Hpar] _].
  unfold exit_cleanup. change (proc (set_ttbr0 _ _) (CURRENT k)) with (proc k (CURRENT k)). rewrite Hp.
  destruct (dl_total (CURRENT k) (fds k) (inv_fds _ Hk)) as (d & Hd & Hdok).
  change (fds (set_ttbr0 (add_cleared k (CURRENT k)) tb)) with (fds k). rewrite Hd. cbn [mbind outcome_bind fst snd].
  unfold ipc.clear_inbox, ipc.validate_pid. rewrite Nat2Z.id, decide_False by (unfold ipc.MAX_INBOX_PROCS, MAX_PROCS in *; lia).
  destruct (lookup_lt_is_Some_2 ibs (CURRENT k)) as [ib Hib]; [rewrite Hb; exact Hlt|].
  rewrite (index_lt _ _ _ Hib). cbn [mbind outcome_bind]. rewrite store_lt by (rewrite Hb; exact Hlt). cbn [mbind outcome_bind].
  eexists _, _, _. split; [done|].
  match goal with |- live ?K /\ _ => set (k' := K) end.
  assert (forall j, proc k' j = if decide (j = CURRENT k) then Some (dead c status) else proc k j) as Hproc
    by (intros j; apply (proc_put k); by eapply proc_lt).
  split_and!; [|by rewrite length_insert|done|done].
  split; [constructor|].
  - apply (inv_update k); try done.
    + cbn. rewrite length_insert. apply Hk.
    + cbn. rewrite length_fmap. apply Hk.
    + intros j q. rewrite Hproc. destruct (decide (j = CURRENT k)) as [->|]; [|apply (inv_proc _ Hk)].
      intros [= <-]. by destruct (inv_proc _ Hk _ c Hp) as (? & ? & _).
    + intros w e Hw. assert (waiter k' w = Some e) as Hw' by by apply waiter_Some.
      change (waiter (free_waiters_for_pid (CURRENT k) k) w = Some e) in Hw'. rewrite free_waiters_waiter in Hw'.
      destruct (waiter k w) as [e'|] eqn:Ew; [|done]. destruct (decide (wpid e' = CURRENT k)); [done|]. injection Hw' as ->.
      apply waiter_Some in Ew. split; [done|]. rewrite Hproc, decide_False by done. by eapply (inv_wait _ Hk).
  - change (CURRENT k') with (CURRENT k). rewrite Hproc, decide_False by congruence. by exists p0.
  - intros j q. rewrite Hproc. destruct (decide (j = CURRENT k)) as [->|]; [|apply Hpar]. intros [= <-]. by apply (Hpar _ c).
  - eexists. change (CURRENT k') with (CURRENT k). rewrite Hproc, decide_True by done. split; [done|by right].
Qed.

(** A user process that exits hands the processor on and is left dead, with
    its status for the parent. *)
Lemma exit_live now status k x ibs c :
  live k -> CURRENT k <> 0%nat -> length ibs = ipc.MAX_INBOX_PROCS -> proc k (CURRENT k) = Some c ->
  exists k' x' ibs', exit_current st tb now status k x ibs = Ret (k', x', ibs') /\ live k' /\ length ibs' = ipc.MAX_INBOX_PROCS /\
    CURRENT k' <> CURRENT k /\ exists p, proc k' (CURRENT k) = Some p /\ state p = Dead /\ exit_status p = status /\ parent p = parent c.
Proof using Type.
  intros Hl H0 Hb Hp. destruct (cleanup_spec k x ibs status c Hl H0 Hb Hp) as (k1 & x1 & ibs1 & E & Hl1 & Hb1 & Hc1 & Hproc).
  unfold exit_current. rewrite E. cbn [mbind outcome_bind].
  assert (CURRENT k1 <> 0%nat) as H01 by congruence.
  destruct (schedule_finds now k1 (proj1 Hl1) H01) as (Hne & Hr).
  pose proof (base_schedule now k1 (proj1 Hl1)) as Hb2.
  assert (proc (schedule now k1).2 (CURRENT k) = Some (dead c status)) as Hd.
  { rewrite schedule_proc, Hproc, decide_True by done. done. }
  assert (CURRENT (schedule now k1).2 = CURRENT k) as Hc2 by exact Hc1.
  destruct (schedule now k1) as [n k2]. cbn [fst snd] in *.
  assert (n <> CURRENT k2) as Hn by congruence. destruct (decide (n = CURRENT k2)); [done|].
  destruct (base_switch n k2 Hb2 Hr Hn) as (Hl3 & Hc3 & _).
  eexists _, _, _. split; [done|]. split_and!; [done|done|congruence|].
  destruct Hr as (pn & Hpn & _). destruct (switch_proc n k2 pn Hpn Hn) as (_ & _ & Hsw).
  rewrite Hsw, decide_False by congruence. rewrite save_current_proc, decide_True by done. rewrite Hd. cbv zeta. cbn [fmap option_fmap option_map].
  eexists. split; [done|]. destruct (ACTIVE_FRAME k2); cbn; done.
Qed.

Lemma good_exit now status s c :
  good s -> CURRENT (kern s) <> 0%nat -> proc (kern s) (CURRENT (kern s)) = Some c ->
  exists s', exit_now st tb now status s = Ret s' /\ good s' /\ CURRENT (kern s') <> CURRENT (kern s) /\
    exists p, proc (kern s') (CURRENT (kern s)) = Some p /\ state p = Dead /\ exit_status p = status /\ parent p = parent c.
Proof using Type.
  intros [Hl Hb (q & Q)] H0 Hc. destruct (exit_live now status (kern s) (mach s) (inboxes s) c Hl H0 Hb Hc) as (k & x & ibs & E & Hl' & Hb' & Hd).
  unfold exit_now. rewrite E. cbn [mbind outcome_bind]. eexists. split; [done|]. split; [|done].
  constructor; [done|done|]. exists q. by apply clear_queued.
Qed.

Lemma good_fault now kind s c :
  good s -> CURRENT (kern s) <> 0%nat -> proc (kern s) (CURRENT (kern s)) = Some c ->
  exists s', fault_exit_current st tb now kind s = Ret s' /\ good s' /\ CURRENT (kern s') <> CURRENT (kern s) /\
    exists p, proc (kern s') (CURRENT (kern s)) = Some p /\ state p = Dead /\ exit_status p = fault_exit_status kind /\
      parent p = parent c.
Proof using Type.
  intros [Hl Hb (q & Q)] H0 Hc. unfold fault_exit_current, notify_fault. rewrite Hc.
  destruct (dl_total (CURRENT (kern s)) _ (inv_fds _ (live_inv _ Hl))) as (d & Hd & Hdok). rewrite Hd. cbn [mbind outcome_bind].
  assert (live (put (set_fds (kern s) d) (CURRENT (kern s)) (Some (with_state c Dead)))) as Hl1.
  { replace (put _ _ _) with (modify (set_fds (kern s) d) (CURRENT (kern s)) (fun p => with_state p Dead)).
    - apply live_modify; [by apply live_fds|]. intros p Hp. change (proc (kern s) (CURRENT (kern s)) = Some p) in Hp.
      destruct (cur_not_blocked _ _ Hl Hp) as (? & _). split_and!; try done; [by right|by right; right].
    - unfold modify. change (proc (set_fds (kern s) d) (CURRENT (kern s))) with (proc (kern s) (CURRENT (kern s))). by rewrite Hc. }
  assert (exists t a f, (match kind with DataAbort a f => (1, a, f) | PrefetchAbort a f => (2, a, f) | UndefinedInstruction => (3, 0, 0) end) = (t, a, f))
    as (t & a & f & ->) by (destruct kind; eauto).
  destruct (supervisor.report_queued (sup s) q (Z.of_nat (CURRENT (kern s))) t a f Q) as (v & Ev & _ & Qv). rewrite Ev. cbn [mbind outcome_bind].
  match goal with |- context [exit_now _ _ _ _ ?S] => apply (good_exit now (fault_exit_status kind) S (with_state c Dead)) end.
  - constructor; [done|done|by eexists].
  - done.
  - cbn [kern]. change (CURRENT (put _ _ _)) with (CURRENT (kern s)). rewrite (proc_put (set_fds (kern s) d)), decide_True by (done || by eapply proc_lt). done.
Qed.

(** ** execve *)

Lemma live_exec k p f c b n sw :
  live k -> proc k (CURRENT k) = Some p -> live (set_frame (put k (CURRENT k) (Some (exec_process p c b n))) f sw).
Proof using Type.
  intros Hl Hp. apply live_frame. replace (put _ _ _) with (modify k (CURRENT k) (fun p => exec_process p c b n)) by (unfold modify; by rewrite Hp).
  apply live_modify; [done|]. intros q _. split_and!; try done; by left.
Qed.

Lemma replace_live l sp b n k x o k' x' :
  live k -> exec_replace_context st tb l sp b n k x = (o, k', x') -> live k' /\ CURRENT k' = CURRENT k.
Proof using Type.
  intros Hl. unfold exec_replace_context. cbv zeta. destruct (proj2 Hl) as (p & Hp & _). rewrite Hp.
  destruct (map_user_image _ _ _ _) as [io y]. destruct (map_user_stack _ _ _ _ _) as [so z].
  pose proof (live_ttbr0 _ (page_table_phys p) (live_ttbr0 _ tb Hl)) as Hl'.
  destruct (io && so); intros [= _ <- _]; (split; [|done]).
  - by apply (live_exec (set_ttbr0 (set_ttbr0 k tb) (page_table_phys p))).
  - pose proof (live_exec (set_ttbr0 (set_ttbr0 k tb) (page_table_phys p)) p (ACTIVE_FRAME k) (ctx p) 0 0 (FRAME_SWITCHED k) Hl' Hp) as H. exact H.
Qed.

Lemma good_exec_image now data args b s r s' :
  good s -> CURRENT (kern s) <> 0%nat -> exec_image st tb now data args b s = Ret (r, s') -> good s'.
Proof using Type.
  intros Hg H0. unfold exec_image. cbv zeta. destruct (elf.load_confined _ _ _ _) as [[[l|e] y]|]; cbn [mbind outcome_bind]; [| |done].
  2: { destruct (free_run _ _ _); cbn [mbind outcome_bind]; [|done]. intros [= _ <-]. by apply good_mem, g_live. }
  pose proof (g_live _ Hg) as Hl.
  destruct (el_exec_ok (CURRENT (kern s)) _ (inv_fds _ (live_inv _ Hl))) as (d & Hd & Hdok). rewrite Hd. cbn [mbind outcome_bind].
  assert (live (reset_signal_state (set_fds (kern s) d))) as Hl1.
  { apply (live_step (U:=memguard.cpu) (set_fds (kern s) d)); [by apply live_fds|constructor]. }
  match goal with |- context [exec_replace_context ?a1 ?a2 ?a3 ?a4 ?a5 ?a6 ?K ?a8] =>
    assert (CURRENT K = CURRENT (kern s)) as HcK;
    [|destruct (exec_replace_context a1 a2 a3 a4 a5 a6 K a8) as [[ok k] x] eqn:E; apply replace_live in E as (Hlk & Hck); [|by apply live_ttbr0]] end.
  { unfold reset_signal_state. apply (modify_rest (set_fds (kern s) d)). }
  destruct ok; [intros [= _ <-]; by apply good_mem|].
  destruct (proj2 Hlk) as (c & Hc & _).
  destruct (good_exit now 137 (with_mem s k x) c) as (s2 & E2 & Hg2 & _); [by apply good_mem|cbn [kern with_mem]; congruence|done|].
  rewrite E2. cbn [mbind outcome_bind]. by intros [= _ <-].
Qed.

Lemma good_execve {U} `{!UserMemory U} find (u : U) now path argv s r s' :
  good s -> CURRENT (kern s) <> 0%nat -> sys_execve st tb find u now path argv s = Ret (r, s') -> good s'.
Proof using Type.
  intros Hg H0. unfold sys_execve. destruct (um_copy_from u path MAX_PATH) as [bs|]; [|by intros [= _ <-]].
  destruct (position_zero bs) as [[|n]|]; [by intros [= _ <-]| |by intros [= _ <-]]. cbv zeta.
  destruct (negb _); [by intros [= _ <-]|]. destruct (find _) as [data|]; [|by intros [= _ <-]].
  destruct (alloc_run _ _) as [[o x]|]; cbn [mbind outcome_bind]; [|done].
  assert (good (with_mem s (kern s) x)) as Hg1 by by apply good_mem, g_live.
  destruct o as [b|]; [|by intros [= _ <-]]. match goal with |- match ?X with _ => _ end = _ -> _ => destruct X as [args|] end.
  - by apply good_exec_image.
  - destruct (free_run _ _ _); cbn [mbind outcome_bind]; [|done]. intros [= _ <-]. by apply good_mem, g_live.
Qed.

(** ** Messages and the supervisor *)

Lemma store_length {A} (v v' : list A) i a : store v i a = Ret v' -> length v' = length v.
Proof using Type. unfold store. destruct (decide _); [|done]. intros [= <-]. by rewrite length_insert. Qed.

Lemma send_length me to msg ibs r ibs' : ipc.send me to msg ibs = Ret (r, ibs') -> length ibs' = length ibs.
Proof using Type.
  unfold ipc.send. destruct (ipc.validate_pid to) as [i|]; [|by intros [= _ <-]]. cbv zeta.
  destruct (index _ _) as [ib|]; cbn [mbind outcome_bind]; [|done]. destruct (ipc.push _ _) as [[b ib']|]; cbn [mbind outcome_bind]; [|done].
  destruct (store _ _ _) as [l|] eqn:E; cbn [mbind outcome_bind]; [|done]. intros [= _ <-]. by eapply store_length.
Qed.

Lemma recv_length me ibs r ibs' : ipc.recv me ibs = Ret (r, ibs') -> length ibs' = length ibs.
Proof using Type.
  unfold ipc.recv. destruct (ipc.validate_pid me) as [i|]; [|by intros [= _ <-]].
  destruct (index _ _) as [ib|]; cbn [mbind outcome_bind]; [|done]. destruct (ipc.pop _) as [[b ib']|]; cbn [mbind outcome_bind]; [|done].
  destruct (store _ _ _) as [l|] eqn:E; cbn [mbind outcome_bind]; [|done]. intros [= _ <-]. by eapply store_length.
Qed.

Lemma drain_queued now v q ds v' :
  supervisor.queued v q -> supervisor.step (supervisor.Drain now) v = Ret (ds, v') -> exists q', supervisor.queued v' q'.
Proof using Type.
  intros Q. destruct (supervisor.pop_queued v q Q) as (v1 & E & Q1 & _). cbn [supervisor.step]. rewrite E. cbn [mbind outcome_bind].
  destruct (head q) as [r|]; [|intros [= _ <-]; by eexists]. unfold supervisor.decide_report.
  destruct (supervisor.r_service r) as [p|]; [|intros [= _ <-]; by eexists].
  destruct (supervisor.on_first _ _ _) as [d svcs]. intros [= _ <-]. eexists. by apply supervisor.queued_services.
Qed.

Lemma register_queued path c v q : supervisor.queued v q -> supervisor.queued (supervisor.register path c v) q.
Proof using Type.
  intros Q. unfold supervisor.register. destruct (supervisor.on_first _ _ _) as [[] svcs]; by apply supervisor.queued_services.
Qed.

Lemma good_step {U} `{!UserMemory U} s s' : good s -> pstep st tb (U:=U) s s' -> good s'.
Proof using Type.
  intros Hg Hs. pose proof (g_live _ Hg) as Hl.
  destruct Hs as [s k E|b r k x s E|a0 a1 a2 a3 r k x s E|a0 a1 r k x s E|a0 a1 a2 r k x s E|x s|f sw s|o k x s E|e o k x s E|l o k x s E
    |find path o s s' E|find u now p v r s s' H0 E|now status r s s' H0 E|now kind s s' H0 E|d s Hd|to msg r ibs s E|r ibs s E|now ds v s E|path c s].
  - apply good_kern; [done|]. by eapply live_step.
  - apply good_mem; [done|]. by eapply live_brk.
  - apply good_mem; [done|]. by eapply live_mmap.
  - apply good_mem; [done|]. by eapply live_munmap.
  - apply good_mem; [done|]. by eapply live_mprotect.
  - by apply good_mem.
  - apply good_mem; [done|]. by apply live_frame.
  - apply good_mem; [done|]. by eapply live_fork.
  - apply good_mem; [done|]. by eapply live_spawn.
  - apply good_mem; [done|]. by eapply live_spawn_user.
  - by eapply good_restart.
  - by eapply good_execve.
  - destruct (proj2 Hl) as (c & Hc & _). destruct (good_exit now status s c Hg H0 Hc) as (s2 & E2 & Hg2 & _).
    unfold sys_exit in E. destruct (_ <=? _); [congruence|]. rewrite E2 in E. cbn [mbind outcome_bind] in E. congruence.
  - destruct (proj2 Hl) as (c & Hc & _). destruct (good_fault now kind s c Hg H0 Hc) as (s2 & E2 & Hg2 & _). congruence.
  - apply good_mem; [done|]. by apply live_fds.
  - constructor; [done| |apply Hg]. cbn [inboxes]. rewrite (send_length _ _ _ _ _ _ E). apply Hg.
  - constructor; [done| |apply Hg]. cbn [inboxes]. rewrite (recv_length _ _ _ _ E). apply Hg.
  - destruct (g_ring _ Hg) as (q & Q). constructor; [done|apply Hg|]. by eapply drain_queued.
  - destruct (g_ring _ Hg) as (q & Q). constructor; [done|apply Hg|]. exists q. by apply register_queued.
Qed.

Lemma good_steps {U} `{!UserMemory U} s s' : good s -> rtc (pstep st tb (U:=U)) s s' -> good s'.
Proof using Type. intros Hg Hr. induction Hr as [|s1 s2 s3 Hs _ IH]; [done|]. apply IH. by eapply good_step. Qed.

(** ** What [execve] does to its caller *)

(** A call that reports an error has changed neither the process table, nor
    the descriptors, nor any other process. *)
Theorem execve_fails_cleanly {U} `{!UserMemory U} find (u : U) now path argv s r s' :
  sys_execve st tb find u now path argv s = Ret (r, s') -> r <> 0 ->
  kern s' = kern s /\ inboxes s' = inboxes s /\ sup s' = sup s.
Proof using Type.
  unfold sys_execve. destruct (um_copy_from u path MAX_PATH) as [bs|]; [|by intros [= _ <-]].
  destruct (position_zero bs) as [[|n]|]; [by intros [= _ <-]| |by intros [= _ <-]]. cbv zeta.
  destruct (negb _); [by intros [= _ <-]|]. destruct (find _) as [data|]; [|by intros [= _ <-]].
  destruct (alloc_run _ _) as [[[b|] x]|]; cbn [mbind outcome_bind]; [|by intros [= _ <-]|done].
  match goal with |- match ?X with _ => _ end = _ -> _ => destruct X as [args|] end.
  2: { destruct (free_run _ _ _); cbn [mbind outcome_bind]; [|done]. by intros [= _ <-]. }
  unfold exec_image. cbv zeta. destruct (elf.load_confined _ _ _ _) as [[[l|e] y]|]; cbn [mbind outcome_bind]; [| |done].
  2: { destruct (free_run _ _ _); cbn [mbind outcome_bind]; [|done]. by intros [= _ <-]. }
  destruct (el_exec _ _) as [d|]; cbn [mbind outcome_bind]; [|done]. destruct (exec_replace_context _ _ _ _ _ _ _ _) as [[[] k] z].
  - by intros [= <- _].
  - destruct (exit_now _ _ _ _ _); cbn [mbind outcome_bind]; [|done]. by intros [= <- _].
Qed.
End theory.

(** ** The claim *)

(** C38: starting from a live system, whatever the kernel does next - traps,
    ticks, system calls that block, wake, signal, map memory, fork, execve or
    exit, faults that kill, services restarted - each process is stored at its
    own number, only the current one is running, PID 0 stays runnable, and the
    futex table holds distinct processes, each blocked. A user process that
    then faults is always ended: the fault path returns with the processor
    given to another process and the dead one left with its status. *)
Theorem population_stays_live st tb {D} `{!DescriptorLayer D, !ForkLayer D, !ExecLayer D} {U} `{!UserMemory U} (s s' : system D) :
  good s -> rtc (pstep st tb (U:=U)) s s' ->
  let k := kern s' in
  process.live k /\
  (forall i p, process.proc k i = Some p -> process.pid p = i /\ (process.state p = process.Running -> i = process.CURRENT k)) /\
  (exists p, process.proc k 0 = Some p /\ (process.state p = process.Running \/ process.state p = process.Ready)) /\
  (forall n w, process.waiter k n = Some w -> exists p, process.proc k (process.wpid w) = Some p /\ process.state p = process.Blocked) /\
  (forall n n' w w', process.waiter k n = Some w -> process.waiter k n' = Some w' -> process.wpid w = process.wpid w' -> n = n') /\
  (process.CURRENT k <> 0%nat -> forall now kind, exists s'' p,
    fault_exit_current st tb now kind s' = Ret s'' /\ process.live (kern s'') /\
    process.CURRENT (kern s'') <> process.CURRENT k /\ process.proc (kern s'') (process.CURRENT k) = Some p /\
    process.state p = process.Dead /\ process.exit_status p = signal.fault_exit_status kind).
Proof using Type.
  intros Hg Hr. pose proof (good_steps st tb s s' Hg Hr) as Hg'. pose proof (g_live _ Hg') as Hl. pose proof (process.live_inv _ Hl) as Hk.
  cbv zeta. split_and!; [done| | | | |].
  - intros i p Hp. by destruct (process.inv_proc _ Hk i p Hp) as (? & _ & ?).
  - destruct (process.base_idle _ (proj1 Hl)) as (p & Hp & Hs). exists p. split; [done|]. rewrite Hs.
    destruct (decide _); [by left|by right].
  - intros n w Hw. apply process.waiter_Some in Hw. by apply (process.inv_wait _ Hk n).
  - intros n n' w w' H1 H2. apply process.waiter_Some in H1, H2. by apply (process.inv_winj _ Hk).
  - intros H0 now kind. destruct (proj2 Hl) as (c & Hc & _).
    destruct (good_fault st tb now kind s' c Hg' H0 Hc) as (s2 & E & Hg2 & Hne & p & Hp & Hd & Hx & _).
    exists s2, p. split_and!; try done. apply Hg2.
Qed.

(** ** Witness: the timer hands the processor from process 1 to process 2,
    which then executes an undefined instruction. *)

Definition demo_system : system (fd.kernel memguard.cpu) :=
  mk_system process.demo (mk_machine page.demo 0 0) ipc.INBOXES_init supervisor.boot.
Lemma demo_good : good demo_system.
Proof. constructor; [exact process.demo_is_live|reflexivity|]. exists []. exact supervisor.queued_boot. Qed.

Lemma population_stays_live_witness :
  good demo_system /\ exists s1 s2 p,
    rtc (pstep mmu.layout 0x400000 (U:=memguard.cpu)) demo_system s1 /\ process.live (kern s1) /\
    fault_exit_current mmu.layout 0x400000 9 signal.UndefinedInstruction s1 = Ret s2 /\
    process.proc (kern s2) 2 = Some p /\ process.state p = process.Dead /\ process.exit_status p = 132.
Proof.
  split; [exact demo_good|].
  assert (rtc (pstep mmu.layout 0x400000 (U:=memguard.cpu)) demo_system (with_kern demo_system (process.timer_tick 0 process.demo))) as Hr
    by (apply rtc_once, pop_process; constructor).
  assert (process.CURRENT (process.timer_tick 0 process.demo) = 2%nat) as Hc by (vm_compute; reflexivity).
  destruct (population_stays_live mmu.layout 0x400000 demo_system _ demo_good Hr) as (Hl & _ & _ & _ & _ & Hf).
  cbn [kern with_kern] in Hl, Hf. rewrite Hc in Hf.
  destruct (Hf ltac:(discriminate) 9 signal.UndefinedInstruction) as (s2 & p & E2 & _ & _ & Hp & Hd & Hx).
  eexists _, s2, p. split_and!; eassumption.
Defined.

End population.
