(* ===== verification/Klesis.v ===== *)
(** * SMS and AT codecs ([crates/klesis-core/src])

    The codecs the kernel's telephony shares with the daemon: the GSM 7-bit
    alphabet with its septet packing ([gsm7.rs]), hexadecimal ([hex.rs]), packed
    decimal addresses ([bcd_address.rs]), the bounds-checked reader
    ([cursor.rs]), the user-data header and the classification of covert
    messages ([udh.rs]) and the lines a modem answers ([at_response.rs]).

    A byte is an integer below 256; a [char] is its code point. A [&str] that
    is read through [chars()] is its list of characters; one that is read as
    bytes, and every string of ASCII characters the codecs build, is its list
    of bytes. Lengths and offsets are [usize] of 32 bits. *)

From S2P Require Import Prelude Machine.
From Stdlib Require Import ZArith.
Open Scope Z_scope.

(** ** Fallible code *)

Notation "'let?' x := m 'in' k" := (match m with Ok x => k | Err e => Err e end)
  (at level 10, x name, m at level 100, k at level 200).

(** A [for] loop whose body may leave the function with an error. *)
Fixpoint try_fold {S A E} (f : S -> A -> result S E) (l : list A) (s : S) : result S E :=
  match l with
  | [] => Ok s
  | x :: l => let? s := f s x in try_fold f l s
  end.

Lemma try_fold_app {S A E} (f : S -> A -> result S E) l k s :
  try_fold f (l ++ k) s = let? s := try_fold f l s in try_fold f k s.
Proof. revert s. induction l as [|x l IH]; intros s; cbn; [done|]. by destruct (f s x). Qed.

(** [usize::saturating_add], [saturating_mul] and [div_ceil]. *)
Definition sat32 (z : Z) : Z := Z.min z (2 ^ 32 - 1).
Definition div_ceil (a b : Z) : Z := (a + b - 1) / b.

Inductive CoreError :=
  | Gsm7Encode (codepoint : Z)
  | Gsm7Truncated (septet : Z)
  | Gsm7DanglingEscape
  | BcdInvalidDigit (nibble : Z)
  | AddressTooLong (digits : Z)
  | HexInvalid (offset : Z)
  | Truncated (offset : Z).

#[export] Instance CoreError_eq_dec : EqDecision CoreError.
Proof. solve_decision. Defined.

(** ** The GSM 7-bit alphabet *)
Module gsm7.

Definition GSM_TO_UNICODE : list Z := [
  (* @ £ $ ¥ è é ù ì ò Ç LF Ø ø CR Å å *)
  64; 163; 36; 165; 232; 233; 249; 236; 242; 199; 10; 216; 248; 13; 197; 229;
  (* Δ _ Φ Γ Λ Ω Π Ψ Σ Θ Ξ ESC Æ æ ß É *)
  916; 95; 934; 915; 923; 937; 928; 936; 931; 920; 926; 27; 198; 230; 223; 201;
  (* space to /, with the currency sign in place of the dollar *)
  32; 33; 34; 35; 164; 37; 38; 39; 40; 41; 42; 43; 44; 45; 46; 47;
  (* 0-9 and : ; < = > ? *)
  48; 49; 50; 51; 52; 53; 54; 55; 56; 57; 58; 59; 60; 61; 62; 63;
  (* ¡ A-O *)
  161; 65; 66; 67; 68; 69; 70; 71; 72; 73; 74; 75; 76; 77; 78; 79;
  (* P-Z Ä Ö Ñ Ü § *)
  80; 81; 82; 83; 84; 85; 86; 87; 88; 89; 90; 196; 214; 209; 220; 167;
  (* ¿ a-o *)
  191; 97; 98; 99; 100; 101; 102; 103; 104; 105; 106; 107; 108; 109; 110; 111;
  (* p-z ä ö ñ ü à *)
  112; 113; 114; 115; 116; 117; 118; 119; 120; 121; 122; 228; 246; 241; 252; 224].

(** (code, character): form feed ^ { } \ [ ~ ] | € *)
Definition EXT_TABLE : list (Z * Z) := [
  (0x0A, 12); (0x14, 94); (0x28, 123); (0x29, 125); (0x2F, 92);
  (0x3C, 91); (0x3D, 126); (0x3E, 93); (0x40, 124); (0x65, 8364)].

Definition ESC_SEPTET : Z := 0x1B.

(** The scan of the base table from septet [k] on. *)
Fixpoint base_septet (c : Z) (k : Z) (table : list Z) : option (bool * Z) :=
  match table with
  | [] => None
  | t :: table => if (t =? c) && negb (k =? ESC_SEPTET) then Some (false, k) else base_septet c (k + 1) table
  end.

Definition char_to_septet (c : Z) : option (bool * Z) :=
  match List.find (fun e => snd e =? c) EXT_TABLE with
  | Some e => Some (true, fst e)
  | None => base_septet c 0 GSM_TO_UNICODE
  end.

Definition count_septets (text : list Z) : result Z CoreError :=
  try_fold (fun count c =>
    let? s := ok_or (char_to_septet c) (Gsm7Encode c) in
    Ok (sat32 (count + (if fst s : bool then 2 else 1)))) text 0.

(** The first loop of [encode]. *)
Definition to_septets (text : list Z) : result (list Z) CoreError :=
  try_fold (fun septets c =>
    let? s := ok_or (char_to_septet c) (Gsm7Encode c) in
    Ok ((if fst s : bool then septets ++ [ESC_SEPTET] else septets) ++ [snd s])) text [].

(** [if let Some(slot) = result.get_mut(j) { *slot |= v }] *)
Definition or_at (result : list Z) (j : Z) (v : Z) : list Z := alter (fun b => Z.lor b v) (Z.to_nat j) result.

Definition pack_septet (result : list Z) (i : Z) (septet : Z) : list Z :=
  let bit_offset := wrap32 (i * 7) in
  let byte_index := bit_offset / 8 in
  let bit_shift := bit_offset mod 8 in
  let val := Z.shiftl septet bit_shift mod 2 ^ 16 in
  let lo := val mod 2 ^ 8 in
  let hi := val / 2 ^ 8 in
  let result := or_at result byte_index lo in
  if negb (hi =? 0) then or_at result (byte_index + 1) hi else result.

Fixpoint pack_from (result : list Z) (i : Z) (septets : list Z) : list Z :=
  match septets with
  | [] => result
  | s :: septets => pack_from (pack_septet result i s) (i + 1) septets
  end.

Definition encode (text : list Z) : result (list Z) CoreError :=
  let? septets := to_septets text in
  let n := Z.of_nat (length septets) in
  if n =? 0 then Ok [] else
  let byte_len := div_ceil (sat32 (n * 7)) 8 in
  Ok (pack_from (replicate (Z.to_nat byte_len) 0) 0 septets).

(** One septet of packed data; the byte after the last one counts as zero. *)
Definition read_septet (data : list Z) (i : Z) : result Z CoreError :=
  let bit_offset := wrap32 (i * 7) in
  let byte_index := bit_offset / 8 in
  let bit_shift := bit_offset mod 8 in
  let? b0 := ok_or (data !! Z.to_nat byte_index) (Gsm7Truncated i) in
  let b1 := default 0 (data !! Z.to_nat (byte_index + 1)) in
  Ok (Z.land (Z.lor (Z.shiftr b0 bit_shift) (Z.shiftl b1 (8 - bit_shift) mod 2 ^ 16)) 0x7F).

Definition ext_char (septet : Z) : Z :=
  match List.find (fun e => fst e =? septet) EXT_TABLE with Some e => snd e | None => 32 end.

(** The loop of [decode_from] with [n] septets left to consume. *)
Fixpoint decode_loop (data : list Z) (i : Z) (n : nat) (pending_ext : bool) (out : list Z) : result (list Z) CoreError :=
  match n with
  | O => if pending_ext then Err Gsm7DanglingEscape else Ok out
  | S n =>
      let? septet := read_septet data i in
      let i := wrap32 (i + 1) in
      if pending_ext then decode_loop data i n false (out ++ [ext_char septet])
      else if septet =? ESC_SEPTET then decode_loop data i n true out
      else
        let? ch := ok_or (GSM_TO_UNICODE !! Z.to_nat septet) (Gsm7Truncated i) in
        decode_loop data i n false (out ++ [ch])
  end.

Definition decode_from (data : list Z) (start_septet num_septets : Z) : result (list Z) CoreError :=
  if num_septets =? 0 then Ok [] else decode_loop data start_septet (Z.to_nat num_septets) false [].

Definition decode (data : list Z) (num_septets : Z) : result (list Z) CoreError := decode_from data 0 num_septets.

(** *** Packed streams as bit strings

    Bit [p] of a stream of [w]-bit units, least significant bit first. Packing
    and unpacking move bits between the streams of width seven and eight. *)

#[local] Ltac Zify.zify_post_hook ::= Z.to_euclidean_division_equations.

Definition bit_at (w : Z) (l : list Z) (p : Z) : bool := Z.testbit (default 0 (l !! Z.to_nat (p / w))) (p mod w).

Definition is_septet (s : Z) : Prop := 0 <= s < 128.

Lemma septet_high s k : is_septet s -> 7 <= k \/ k < 0 -> Z.testbit s k = false.
Proof.
  intros [H0 H1] [Hk|Hk]; [|by apply Z.testbit_neg_r].
  destruct (Z.eq_dec s 0) as [->|Hne]; [apply Z.testbit_0_l|].
  apply Z.bits_above_log2; [done|]. assert (Z.log2 s < 7) by (apply Z.log2_lt_pow2; lia). lia.
Qed.

Lemma or_at_bits l j v p : 0 <= j -> 0 <= p ->
  bit_at 8 (or_at l j v) p = bit_at 8 l p || ((p / 8 =? j) && (j <? Z.of_nat (length l)) && Z.testbit v (p mod 8)).
Proof.
  intros Hj Hp. unfold bit_at, or_at. destruct (p / 8 =? j) eqn:E; bool_hyps.
  - rewrite E, list_lookup_alter_eq. destruct (l !! Z.to_nat j) as [b|] eqn:El; cbn.
    + apply lookup_lt_Some in El. rewrite (proj2 (Z.ltb_lt _ _)) by lia. by rewrite Z.lor_spec.
    + apply lookup_ge_None in El. rewrite (proj2 (Z.ltb_ge _ _)) by lia. cbn. by rewrite orb_false_r.
  - rewrite list_lookup_alter_ne by lia. cbn. by rewrite orb_false_r.
Qed.

Lemma length_or_at l j v : length (or_at l j v) = length l.
Proof. apply length_alter. Qed.

Lemma length_pack_septet l i s : length (pack_septet l i s) = length l.
Proof. unfold pack_septet. cbv zeta. destruct (negb _); by rewrite !length_or_at. Qed.

Lemma byte_bits v k : 0 <= k < 8 -> Z.testbit (v mod 2 ^ 16 mod 2 ^ 8) k = Z.testbit v k.
Proof. intros. by rewrite !Z.mod_pow2_bits_low by lia. Qed.

Lemma high_byte_bits v k : 0 <= k < 8 -> Z.testbit (v mod 2 ^ 16 / 2 ^ 8) k = Z.testbit v (k + 8).
Proof. intros. by rewrite Z.div_pow2_bits, Z.mod_pow2_bits_low by lia. Qed.

(** The two bytes a septet is or-ed into. *)
Lemma pack_septet_bits l i s p :
  0 <= i -> i * 7 < 2 ^ 32 -> is_septet s -> 0 <= p -> 7 * (i + 1) <= 8 * Z.of_nat (length l) ->
  bit_at 8 (pack_septet l i s) p = bit_at 8 l p || Z.testbit s (p - 7 * i).
Proof.
  intros Hi Hw Hs Hp Hlen. unfold pack_septet. cbv zeta.
  assert (wrap32 (i * 7) = 7 * i) as -> by (rewrite wrap32_small by (unfold is_u32; lia); lia).
  set (o := 7 * i) in *. set (v := Z.shiftl s (o mod 8)).
  assert (forall k, 0 <= k -> Z.testbit v k = Z.testbit s (k - o mod 8)) as Hv by (intros; by apply Z.shiftl_spec).
  destruct (negb _) eqn:Eh; bool_hyps; rewrite ?or_at_bits by lia; rewrite ?length_or_at; rewrite byte_bits by lia;
    rewrite Hv by lia.
  - rewrite high_byte_bits by lia. rewrite Hv by lia. rewrite <- orb_assoc. f_equal.
    destruct (p / 8 =? o / 8) eqn:E1; [|destruct (p / 8 =? o / 8 + 1) eqn:E2]; bool_hyps.
    + rewrite (proj2 (Z.ltb_lt _ _)) by lia. rewrite (proj2 (Z.eqb_neq (p / 8) (o / 8 + 1))) by lia. cbn. rewrite orb_false_r. f_equal. lia.
    + cbn. replace (p mod 8 + 8 - o mod 8) with (p - o) by lia.
      destruct (o / 8 + 1 <? Z.of_nat (length l)) eqn:E3; bool_hyps; [done|]. cbn. symmetry. apply septet_high; [done|lia].
    + cbn. symmetry. apply septet_high; [done|lia].
  - f_equal. destruct (p / 8 =? o / 8) eqn:E1; bool_hyps.
    + rewrite (proj2 (Z.ltb_lt _ _)) by lia. cbn. f_equal. lia.
    + cbn. symmetry. destruct (Z.eq_dec (p / 8) (o / 8 + 1)) as [E2|]; [|apply septet_high; [done|lia]].
      replace (p - o) with (p mod 8 + 8 - o mod 8) by lia. rewrite <- Hv by lia.
      rewrite <- high_byte_bits, Eh by lia. apply Z.testbit_0_l.
Qed.

Lemma pack_from_bits septets l i p :
  0 <= i -> (i + Z.of_nat (length septets)) * 7 < 2 ^ 32 -> Forall is_septet septets -> 0 <= p ->
  7 * (i + Z.of_nat (length septets)) <= 8 * Z.of_nat (length l) ->
  bit_at 8 (pack_from l i septets) p = bit_at 8 l p || (if 7 * i <=? p then bit_at 7 septets (p - 7 * i) else false).
Proof.
  intros Hi Hw Hs Hp Hlen. revert l i Hi Hw Hlen. induction Hs as [|s septets Hs Hss IH]; intros l i Hi Hw Hlen; cbn [pack_from length] in *.
  - destruct (_ <=? _); unfold bit_at; cbn; by rewrite ?Z.testbit_0_l, ?orb_false_r.
  - rewrite IH by (rewrite ?length_pack_septet; lia). rewrite pack_septet_bits by (done || lia).
    rewrite <- orb_assoc. f_equal. unfold bit_at at 2. destruct (7 * i <=? p) eqn:E1; bool_hyps.
    + destruct (7 * (i + 1) <=? p) eqn:E2; bool_hyps.
      * rewrite (septet_high s) by (done || lia). cbn. unfold bit_at.
        replace (Z.to_nat ((p - 7 * i) / 7)) with (S (Z.to_nat ((p - 7 * (i + 1)) / 7))) by lia. cbn. f_equal. lia.
      * replace (Z.to_nat ((p - 7 * i) / 7)) with 0%nat by lia. cbn. rewrite orb_false_r. f_equal. lia.
    + rewrite (proj2 (Z.leb_gt _ _)) by lia. rewrite orb_false_r. apply septet_high; [done|lia].
Qed.
Lemma lor_u8 a b : is_u8 a -> is_u8 b -> is_u8 (Z.lor a b).
Proof.
  unfold is_u8. intros Ha Hb. assert (0 <= Z.lor a b) by (apply Z.lor_nonneg; lia). split; [done|].
  destruct (Z.eq_dec (Z.lor a b) 0) as [->|]; [lia|]. apply Z.log2_lt_pow2; [lia|].
  rewrite Z.log2_lor by lia. apply Z.max_lub_lt.
  all: destruct (Z.eq_dec a 0), (Z.eq_dec b 0); subst; rewrite ?Z.log2_nonpos by lia; try lia; apply Z.log2_lt_pow2; lia.
Qed.

Lemma or_at_u8 l j v : Forall is_u8 l -> is_u8 v -> Forall is_u8 (or_at l j v).
Proof. intros Hl Hv. apply Forall_alter; [done|]. intros b _ Hb. by apply lor_u8. Qed.

Lemma pack_from_u8 septets l i : Forall is_u8 l -> Forall is_u8 (pack_from l i septets).
Proof.
  revert l i. induction septets as [|s septets IH]; intros l i Hl; cbn [pack_from]; [done|]. apply IH.
  unfold pack_septet. cbv zeta. destruct (negb _); repeat apply or_at_u8; try done.
  all: unfold is_u8; lia.
Qed.

Lemma length_pack_from septets l i : length (pack_from l i septets) = length l.
Proof. revert l i. induction septets as [|s septets IH]; intros l i; cbn [pack_from]; [done|]. by rewrite IH, length_pack_septet. Qed.

(** Packing from bit [7 * i] on leaves the octets before it alone. *)
Lemma pack_from_prefix septets l i j :
  0 <= i -> (i + Z.of_nat (length septets)) * 7 < 2 ^ 32 -> 8 * (Z.of_nat j + 1) <= 7 * i -> pack_from l i septets !! j = l !! j.
Proof.
  revert l i. induction septets as [|s septets IH]; intros l i Hi Hw Hj; cbn [pack_from length] in *; [done|].
  rewrite IH by lia. unfold pack_septet, or_at. cbv zeta. rewrite wrap32_small by (unfold is_u32; lia).
  destruct (negb _); rewrite !list_lookup_alter_ne by lia; done.
Qed.

(** Reading a septet gathers the seven bits at its place. *)
Lemma read_septet_bits data i s :
  0 <= i -> i * 7 < 2 ^ 32 -> Forall is_u8 data -> is_septet s -> 7 * i / 8 < Z.of_nat (length data) ->
  (forall k, 0 <= k < 7 -> bit_at 8 data (7 * i + k) = Z.testbit s k) -> read_septet data i = Ok s.
Proof.
  intros Hi Hw Hd Hs Hlen Hbits. unfold read_septet. cbv zeta.
  assert (wrap32 (i * 7) = 7 * i) as -> by (rewrite wrap32_small by (unfold is_u32; lia); lia).
  set (o := 7 * i) in *. destruct (data !! Z.to_nat (o / 8)) as [b0|] eqn:E0; [cbn [ok_or]|apply lookup_ge_None in E0; lia].
  assert (is_u8 b0) as Hb0 by (by eapply Forall_lookup_1).
  f_equal. apply Z.bits_inj'. intros k Hk. rewrite Z.land_spec. change 0x7F with (Z.ones 7).
  destruct (Z.lt_ge_cases k 7); [|rewrite Z.ones_spec_high, andb_false_r by lia; symmetry; apply septet_high; [done|lia]].
  rewrite Z.ones_spec_low, andb_true_r by lia. rewrite <- Hbits by lia. unfold bit_at.
  rewrite Z.lor_spec, Z.shiftr_spec, Z.mod_pow2_bits_low, Z.shiftl_spec by lia.
  destruct (Z.lt_ge_cases (k + o mod 8) 8) as [Hlt|Hge].
  - replace ((o + k) / 8) with (o / 8) by lia. rewrite E0. cbn.
    rewrite (Z.testbit_neg_r _ (k - (8 - o mod 8))) by lia. rewrite orb_false_r. f_equal. lia.
  - replace ((o + k) / 8) with (o / 8 + 1) by lia.
    assert (Z.testbit b0 (k + o mod 8) = false) as ->.
    { destruct Hb0. destruct (Z.eq_dec b0 0) as [->|]; [apply Z.testbit_0_l|].
      apply Z.bits_above_log2; [done|]. assert (Z.log2 b0 < 8) by (apply Z.log2_lt_pow2; lia). lia. }
    cbn. f_equal. lia.
Qed.

(** Septets packed from position [i] on, over bytes that are still clear there,
    are the septets read at those positions. *)
Lemma packed_septets_read septets l i j s :
  0 <= i -> (i + Z.of_nat (length septets)) * 7 < 2 ^ 32 -> Forall is_septet septets -> Forall is_u8 l ->
  7 * (i + Z.of_nat (length septets)) <= 8 * Z.of_nat (length l) ->
  (forall p, 7 * i <= p -> bit_at 8 l p = false) ->
  septets !! j = Some s -> read_septet (pack_from l i septets) (i + Z.of_nat j) = Ok s.
Proof.
  intros Hi Hw Hs Hl Hlen Hclear Hj. assert (j < length septets)%nat by (by eapply lookup_lt_Some).
  apply read_septet_bits; [lia|lia|by apply pack_from_u8|by eapply Forall_lookup_1|rewrite length_pack_from; lia|].
  intros k Hk. rewrite pack_from_bits, Hclear, (proj2 (Z.leb_le _ _)) by (done || lia). cbn. unfold bit_at.
  replace (Z.to_nat _) with j by lia. rewrite Hj. cbn. f_equal. lia.
Qed.
(** *** Characters and septets *)

Definition septets_of (c : Z) : list Z :=
  match char_to_septet c with Some (true, k) => [ESC_SEPTET; k] | Some (false, k) => [k] | None => [] end.

Definition encodable (c : Z) : Prop := is_Some (char_to_septet c).

Lemma base_septet_spec c k table e s :
  base_septet c k table = Some (e, s) -> 0 <= k -> k + Z.of_nat (length table) <= 128 ->
  e = false /\ k <= s < 128 /\ s <> ESC_SEPTET /\ table !! Z.to_nat (s - k) = Some c.
Proof.
  revert k. induction table as [|t table IH]; intros k H Hk Hl; cbn [base_septet length] in *; [done|].
  destruct (_ && _) eqn:E; [simplify_eq; bool_hyps; subst; replace (Z.to_nat (s - s)) with 0%nat by lia; repeat split; lia || done|].
  destruct (IH (k + 1) H) as (-> & Hs & Hne & Hlk); [lia..|].
  replace (Z.to_nat (s - k)) with (S (Z.to_nat (s - (k + 1)))) by lia. cbn. repeat split; lia || done.
Qed.

Lemma ext_table_inverse : Forall (fun e => ext_char (fst e) = snd e /\ is_septet (fst e)) EXT_TABLE.
Proof. repeat constructor; done. Qed.

(** What [char_to_septet] answers is what the decoder inverts. *)
Lemma char_to_septet_spec c e s :
  char_to_septet c = Some (e, s) ->
  is_septet s /\ if e then ext_char s = c else s <> ESC_SEPTET /\ GSM_TO_UNICODE !! Z.to_nat s = Some c.
Proof.
  unfold char_to_septet. destruct (List.find _ _) as [[k x]|] eqn:Ef.
  - apply List.find_some in Ef as [Hin Hx]. cbn in Hx. bool_hyps. subst. intros [= <- <-].
    apply list_elem_of_In in Hin. by destruct (proj1 (Forall_forall _ _) ext_table_inverse _ Hin).
  - intros H. apply base_septet_spec in H as (-> & Hs & Hne & Hlk); [|done|by vm_compute].
    rewrite Z.sub_0_r in Hlk. unfold is_septet. split; [lia|done].
Qed.

Lemma septets_of_septets c : Forall is_septet (septets_of c).
Proof.
  unfold septets_of. destruct (char_to_septet c) as [[[] s]|] eqn:E; [| |constructor].
  all: apply char_to_septet_spec in E as [Hs _]; repeat constructor; try done; apply Hs.
Qed.

Lemma bind_septets text : Forall is_septet (text ≫= septets_of).
Proof. apply Forall_bind, Forall_true. apply septets_of_septets. Qed.

Lemma to_septets_from text acc :
  Forall encodable text ->
  try_fold (fun septets c =>
    let? s := ok_or (char_to_septet c) (Gsm7Encode c) in
    Ok ((if fst s : bool then septets ++ [ESC_SEPTET] else septets) ++ [snd s])) text acc = Ok (acc ++ (text ≫= septets_of)).
Proof.
  intros Ht. revert acc. induction Ht as [|c text Hc Ht IH]; intros acc; cbn; [by rewrite app_nil_r|].
  unfold septets_of at 1. destruct Hc as [[e s] Hc]. rewrite Hc. cbn. destruct e; rewrite IH, <- !app_assoc; done.
Qed.

Lemma count_septets_from text n :
  Forall encodable text -> 0 <= n < 2 ^ 32 ->
  try_fold (fun count c =>
    let? s := ok_or (char_to_septet c) (Gsm7Encode c) in
    Ok (sat32 (count + (if fst s : bool then 2 else 1)))) text n = Ok (sat32 (n + Z.of_nat (length (text ≫= septets_of)))).
Proof.
  intros Ht. revert n. induction Ht as [|c text Hc Ht IH]; intros n Hn; cbn [try_fold]; [unfold sat32; cbn; f_equal; lia|].
  change ((c :: text) ≫= septets_of) with (septets_of c ++ (text ≫= septets_of)) in *. rewrite length_app in *.
  unfold septets_of at 1. destruct Hc as [[e s] Hc]. rewrite Hc in *. cbn [ok_or fst].
  unfold sat32 in *. destruct e; cbn [length] in *; rewrite IH by lia; f_equal; lia.
Qed.

(** A character without a septet is reported, by both passes. *)
Lemma try_fold_first_bad {S E} (f : S -> Z -> result S E) (bad : Z -> E) text :
  (forall s c, encodable c -> exists s', f s c = Ok s') -> (forall s c, ~ encodable c -> f s c = Err (bad c)) ->
  forall s, ~ Forall encodable text -> exists c, c ∈ text /\ ~ encodable c /\ try_fold f text s = Err (bad c).
Proof.
  intros Hgood Hbad. induction text as [|c text IH]; intros s Ht; [by destruct Ht|].
  destruct (char_to_septet c) as [r|] eqn:Ec.
  - destruct (Hgood s c) as [s' Hs]; [by exists r|]. cbn. rewrite Hs.
    destruct (IH s') as (d & Hd & Hde & Hf); [intros Hall; apply Ht; constructor; [by exists r|done]|].
    exists d. split_and!; [by right|done|done].
  - assert (~ encodable c) as Hc by (unfold encodable; rewrite Ec; by intros [? ?]).
    exists c. cbn. rewrite Hbad by done. split_and!; [left|done|done].
Qed.

#[local] Ltac encoding_step :=
  let E := fresh in intros ? ?; first [intros [[??] E] | intros E%eq_None_not_Some]; rewrite E; cbn; eauto.

Lemma to_septets_bad text :
  ~ Forall encodable text -> exists c, c ∈ text /\ ~ encodable c /\ to_septets text = Err (Gsm7Encode c).
Proof. apply (try_fold_first_bad _ Gsm7Encode); encoding_step. Qed.

Lemma count_septets_bad text :
  ~ Forall encodable text -> exists c, c ∈ text /\ ~ encodable c /\ count_septets text = Err (Gsm7Encode c).
Proof. apply (try_fold_first_bad _ Gsm7Encode); encoding_step. Qed.

#[export] Instance encodable_dec c : Decision (encodable c).
Proof. unfold encodable. apply _. Defined.

Lemma decode_loop_text text data i out :
  Forall encodable text -> 0 <= i -> i + Z.of_nat (length (text ≫= septets_of)) < 2 ^ 32 ->
  (forall j s, (text ≫= septets_of) !! j = Some s -> read_septet data (i + Z.of_nat j) = Ok s) ->
  decode_loop data i (length (text ≫= septets_of)) false out = Ok (out ++ text).
Proof.
  intros Ht. revert i out. induction Ht as [|c text Hc Ht IH]; intros i out Hi Hw Hread; [cbn; by rewrite app_nil_r|].
  change ((c :: text) ≫= septets_of) with (septets_of c ++ (text ≫= septets_of)) in *. destruct Hc as [[e s] Hc].
  assert (septets_of c = if e then [ESC_SEPTET; s] else [s]) as Hss by (unfold septets_of; rewrite Hc; by destruct e).
  rewrite Hss in *. apply char_to_septet_spec in Hc as [Hs Hinv].
  pose proof (Hread 0%nat (if e then ESC_SEPTET else s) ltac:(destruct e; done)) as H0. rewrite Z.add_0_r in H0.
  rewrite length_app in Hw. destruct e; cbn [length app decode_loop] in *.
  - rewrite H0. cbn [andb]. rewrite Z.eqb_refl, wrap32_small by (unfold is_u32; lia).
    change 1 with (Z.of_nat 1) at 1. rewrite (Hread 1%nat s) by done. rewrite wrap32_small by (unfold is_u32; lia). rewrite Hinv.
    rewrite IH; [by rewrite <- app_assoc|lia|lia|]. intros j t Hj. rewrite <- (Hread (S (S j)) t) by done. f_equal. lia.
  - destruct Hinv as [Hne Hlk]. rewrite H0, (proj2 (Z.eqb_neq _ _) Hne), Hlk, wrap32_small by (unfold is_u32; lia). cbn [ok_or].
    rewrite IH; [by rewrite <- app_assoc|lia|lia|]. intros j t Hj. rewrite <- (Hread (S j) t) by done. f_equal. lia.
Qed.
Lemma packed_text_decodes text l i :
  Forall encodable text -> 0 <= i -> (i + Z.of_nat (length (text ≫= septets_of))) * 7 < 2 ^ 32 -> Forall is_u8 l ->
  7 * (i + Z.of_nat (length (text ≫= septets_of))) <= 8 * Z.of_nat (length l) ->
  (forall p, 7 * i <= p -> bit_at 8 l p = false) ->
  decode_from (pack_from l i (text ≫= septets_of)) i (Z.of_nat (length (text ≫= septets_of))) = Ok text.
Proof.
  intros Ht Hi Hw Hl Hlen Hclear. unfold decode_from. set (ss := text ≫= septets_of) in *.
  assert (decode_loop (pack_from l i ss) i (length ss) false [] = Ok text) as Hd.
  { apply (decode_loop_text text _ i []); [done|done|fold ss; lia|]. intros j s Hj.
    apply packed_septets_read; [done|lia|apply bind_septets|done|lia|done|done]. }
  destruct (Z.eqb_spec (Z.of_nat (length ss)) 0) as [E|_]; [|by rewrite Nat2Z.id].
  destruct ss; [exact Hd|done].
Qed.

Lemma clear_bits n p : bit_at 8 (replicate n 0) p = false.
Proof.
  unfold bit_at. destruct (replicate n 0 !! _) as [b|] eqn:E; cbn; [|apply Z.testbit_0_l].
  apply lookup_replicate in E as [-> _]. apply Z.testbit_0_l.
Qed.

Lemma zeros_u8 n : Forall is_u8 (replicate n 0).
Proof. apply Forall_replicate. unfold is_u8. lia. Qed.

(** The buffer [encode] fills: the septets packed from the first bit on. *)
Lemma encode_packs text :
  Forall encodable text -> Z.of_nat (length (text ≫= septets_of)) * 7 < 2 ^ 32 ->
  encode text = Ok (pack_from (replicate (Z.to_nat (div_ceil (Z.of_nat (length (text ≫= septets_of)) * 7) 8)) 0) 0 (text ≫= septets_of)).
Proof.
  intros Ht Hw. unfold encode, to_septets. rewrite to_septets_from by done. cbn [app]. cbv zeta.
  destruct (Z.eqb_spec (Z.of_nat (length (text ≫= septets_of))) 0) as [E|_].
  - destruct (text ≫= septets_of); [done|]. done.
  - unfold sat32. by rewrite Z.min_l by lia.
Qed.

Lemma count_septets_exact text :
  Forall encodable text -> count_septets text = Ok (sat32 (Z.of_nat (length (text ≫= septets_of)))).
Proof. intros Ht. apply (count_septets_from text 0); [done|lia]. Qed.

Lemma encode_decodes text packed n :
  encode text = Ok packed -> count_septets text = Ok n -> 7 * n < 2 ^ 32 ->
  Z.of_nat (length packed) = div_ceil (7 * n) 8 /\ Forall is_u8 packed /\ decode packed n = Ok text.
Proof.
  intros He Hc Hn. destruct (decide (Forall encodable text)) as [Ht|Hb].
  2: { apply to_septets_bad in Hb as (c & _ & _ & Hb). unfold encode in He. by rewrite Hb in He. }
  rewrite count_septets_exact in Hc by done. injection Hc as <-. unfold sat32 in Hn |- *. rewrite Z.min_l by lia.
  rewrite encode_packs in He by (done || lia). injection He as <-. unfold div_ceil.
  rewrite length_pack_from, length_replicate. split_and!; [lia|apply pack_from_u8, zeros_u8|].
  apply packed_text_decodes; [done|lia|lia|apply zeros_u8|rewrite length_replicate; lia|]. intros. apply clear_bits.
Qed.

(** The GSM 7-bit codec loses nothing: a text is refused by the counting and
    the packing pass alike, naming a character of it that has no septet, or,
    as long as its bit count fits a [usize], both succeed, the packed bytes
    are as many as the counted septets need, and unpacking that many septets
    gives the text back. *)
Theorem gsm7_roundtrip text :
  (exists c c', (c ∈ text /\ char_to_septet c = None) /\ (c' ∈ text /\ char_to_septet c' = None) /\
     count_septets text = Err (Gsm7Encode c) /\ encode text = Err (Gsm7Encode c')) \/
  (exists packed n, count_septets text = Ok n /\ encode text = Ok packed /\
     (7 * n < 2 ^ 32 -> Z.of_nat (length packed) = div_ceil (7 * n) 8 /\ decode packed n = Ok text)).
Proof.
  destruct (decide (Forall encodable text)) as [Ht|Hb]; [right|left].
  - unfold encode, to_septets. rewrite to_septets_from, count_septets_exact by done.
    destruct (_ =? 0) eqn:Ez; eexists _, _; (split; [done|]; split; [done|]); intros Hn.
    all: destruct (encode_decodes text _ _ ltac:(unfold encode, to_septets; rewrite to_septets_from, Ez by done; done) ltac:(by apply count_septets_exact) Hn) as (? & _ & ?); done.
  - destruct (to_septets_bad _ Hb) as (c' & ? & ?%eq_None_not_Some & He), (count_septets_bad _ Hb) as (c & ? & ?%eq_None_not_Some & ?).
    exists c, c'. unfold encode. by rewrite He.
Qed.

End gsm7.

(** ** Hexadecimal *)
Module hex.

Definition HEX_CHARS : list Z := [48; 49; 50; 51; 52; 53; 54; 55; 56; 57; 65; 66; 67; 68; 69; 70].

Definition hex_nibble (b : Z) : option Z :=
  if (48 <=? b) && (b <=? 57) then Some (b - 48)
  else if (97 <=? b) && (b <=? 102) then Some (b - 97 + 10)
  else if (65 <=? b) && (b <=? 70) then Some (b - 65 + 10)
  else None.

Definition hex_encode (data : list Z) : list Z :=
  data ≫= (fun b =>
    match HEX_CHARS !! Z.to_nat (Z.shiftr b 4), HEX_CHARS !! Z.to_nat (Z.land b 0x0F) with
    | Some hi, Some lo => [hi; lo]
    | _, _ => []
    end).

(** The loop over [chunks_exact(2)], [offset] being twice the pair's index; a
    last odd byte is not visited. *)
Fixpoint decode_pairs (s : list Z) (offset : Z) (out : list Z) : result (list Z) CoreError :=
  match s with
  | hi :: lo :: s =>
      let? hi := ok_or (hex_nibble hi) (HexInvalid offset) in
      let? lo := ok_or (hex_nibble lo) (HexInvalid (offset + 1)) in
      decode_pairs s (offset + 2) (out ++ [Z.lor (wrap8 (Z.shiftl hi 4)) lo])
  | _ => Ok out
  end.

Definition hex_decode (s : list Z) : result (list Z) CoreError :=
  if negb (Z.of_nat (length s) mod 2 =? 0) then Err (HexInvalid (Z.of_nat (length s)))
  else decode_pairs s 0 [].

#[local] Ltac Zify.zify_post_hook ::= Z.to_euclidean_division_equations.

(** Two characters per byte, decoded by the nibble table. *)
Definition hex_pair (b : Z) : list Z := [HEX_CHARS !!! Z.to_nat (b / 16); HEX_CHARS !!! Z.to_nat (b mod 16)].

Lemma hex_byte b off out s :
  is_u8 b -> decode_pairs (hex_pair b ++ s) off out = decode_pairs s (off + 2) (out ++ [b]).
Proof.
  intros Hb. unfold hex_pair. cbn [app decode_pairs].
  assert (forall k, 0 <= k < 16 -> hex_nibble (HEX_CHARS !!! Z.to_nat k) = Some k) as Hn.
  { intros k Hk. assert (Forall (fun j => hex_nibble (HEX_CHARS !!! j) = Some (Z.of_nat j)) (seq 0 16)) as Hall by (repeat constructor).
    rewrite Forall_seq in Hall. rewrite (Hall (Z.to_nat k)) by lia. f_equal. lia. }
  unfold is_u8 in Hb. rewrite !Hn by lia.
  cbn [ok_or]. do 3 f_equal. unfold wrap8. rewrite Z.shiftl_mul_pow2, Z.mod_small by lia.
  rewrite <- Z.lxor_lor; [rewrite <- Z.add_nocarry_lxor; [lia|]|];
    (apply Z.bits_inj'; intros k Hk; rewrite Z.land_spec, Z.testbit_0_l;
     destruct (Z.lt_ge_cases k 4); [rewrite Z.mul_pow2_bits_low by lia; done|];
     change 16 with (2 ^ 4) at 2; rewrite Z.mod_pow2_bits_high by lia; apply andb_false_r).
Qed.

Lemma hex_encode_pairs data : Forall is_u8 data -> hex_encode data = data ≫= hex_pair.
Proof.
  induction 1 as [|b data Hb Hd IH]; [done|]. unfold hex_encode in *. cbn [mbind list_bind]. rewrite IH. f_equal.
  change 0x0F with (Z.ones 4). rewrite Z.shiftr_div_pow2, Z.land_ones by lia. change (2 ^ 4) with 16.
  unfold is_u8 in Hb. pose proof (Z.mod_pos_bound b 16).
  rewrite !list_lookup_lookup_total_lt; [done| |]; change (length HEX_CHARS) with 16%nat; [lia|].
  assert (b / 16 < 16) by (apply Z.div_lt_upper_bound; lia). lia.
Qed.

Lemma hex_encode_decodes data : Forall is_u8 data -> hex_decode (hex_encode data) = Ok data.
Proof.
  intros Hd. rewrite hex_encode_pairs by done. unfold hex_decode.
  assert (forall k, length (k ≫= hex_pair) = (2 * length k)%nat) as Hlen.
  { intros k. induction k as [|b k IH]; [done|]. cbn [mbind list_bind] in *. rewrite length_app. cbn in *. lia. }
  rewrite Hlen. replace (Z.of_nat (2 * length data)) with (Z.of_nat (length data) * 2) by lia. rewrite Z_mod_mult. cbn.
  assert (forall off out, decode_pairs (data ≫= hex_pair) off out = Ok (out ++ data)) as ->; [|done].
  clear Hlen. induction Hd as [|b data Hb Hd IH]; intros off out; [cbn; by rewrite app_nil_r|].
  cbn [mbind list_bind] in *. rewrite hex_byte, IH by done. by rewrite <- app_assoc.
Qed.

End hex.

(** ** Packed decimal addresses *)
Module bcd_address.

Definition MAX_ADDRESS_DIGITS : Z := 20.
Definition TOA_INTERNATIONAL : Z := 0x91.
Definition BCD_FILLER : Z := 0x0F.
Definition PLUS : Z := 43.

Definition decode_bcd_address (len_digits type_byte : Z) (bcd : list Z) : result (list Z) CoreError :=
  let digits := len_digits in
  if MAX_ADDRESS_DIGITS <? digits then Err (AddressTooLong digits) else
  let out := if type_byte =? TOA_INTERNATIONAL then [PLUS] else [] in
  try_fold (fun out i =>
    let? byte := ok_or (bcd !! (i / 2)%nat) (Truncated (Z.of_nat (i / 2))) in
    let nibble := if (i mod 2 =? 0)%nat then Z.land byte 0x0F else Z.shiftr byte 4 in
    if 9 <? nibble then Err (BcdInvalidDigit nibble)
    else Ok (out ++ [48 + nibble])) (seq 0 (Z.to_nat digits)) out.

Definition is_ascii_digit (b : Z) : bool := (48 <=? b) && (b <=? 57).

(** The loop over [nibbles.chunks(2)]. *)
Fixpoint pack_pairs (nibbles : list Z) : list Z :=
  match nibbles with
  | [] => []
  | [lo] => [Z.lor (wrap8 (Z.shiftl BCD_FILLER 4)) lo]
  | lo :: hi :: nibbles => Z.lor (wrap8 (Z.shiftl hi 4)) lo :: pack_pairs nibbles
  end.

Definition pack_bcd_digits (digits : list Z) : result (list Z) CoreError :=
  let? nibbles := try_fold (fun nibbles b =>
    if negb (is_ascii_digit b) then Err (BcdInvalidDigit b) else Ok (nibbles ++ [b - 48])) digits [] in
  if MAX_ADDRESS_DIGITS <? Z.of_nat (length nibbles) then Err (AddressTooLong (Z.of_nat (length nibbles)))
  else Ok (pack_pairs nibbles).

(** [str::strip_prefix('+')]. *)
Definition strip_plus (number : list Z) : option (list Z) :=
  match number with c :: rest => if c =? PLUS then Some rest else None | [] => None end.

Definition encode_bcd_address (number : list Z) : result (Z * list Z) CoreError :=
  let '(toa, digits_str) := match strip_plus number with Some rest => (TOA_INTERNATIONAL, rest) | None => (0x81, number) end in
  let? packed := pack_bcd_digits digits_str in
  Ok (toa, packed).

#[local] Ltac Zify.zify_post_hook ::= Z.to_euclidean_division_equations.

Definition is_nibble (d : Z) : Prop := 0 <= d < 16.

Lemma nibbles_of_byte hi lo :
  is_nibble hi -> is_nibble lo ->
  Z.land (Z.lor (wrap8 (Z.shiftl hi 4)) lo) 0x0F = lo /\ Z.shiftr (Z.lor (wrap8 (Z.shiftl hi 4)) lo) 4 = hi /\
  is_u8 (Z.lor (wrap8 (Z.shiftl hi 4)) lo).
Proof.
  unfold is_nibble, wrap8. intros Hh Hl. rewrite Z.shiftl_mul_pow2, Z.mod_small by lia.
  assert (Z.lor (hi * 2 ^ 4) lo = hi * 16 + lo) as ->.
  { rewrite <- Z.lxor_lor; [rewrite <- Z.add_nocarry_lxor; [done|]|];
      (apply Z.bits_inj'; intros k Hk; rewrite Z.land_spec, Z.testbit_0_l;
       destruct (Z.lt_ge_cases k 4); [rewrite Z.mul_pow2_bits_low by lia; done|];
       rewrite <- (Z.mod_small lo (2 ^ 4)), Z.mod_pow2_bits_high by lia; apply andb_false_r). }
  change 0x0F with (Z.ones 4). rewrite Z.land_ones, Z.shiftr_div_pow2 by lia. unfold is_u8. lia.
Qed.

Lemma pack_pairs_spec ns :
  Forall is_nibble ns ->
  Z.of_nat (length (pack_pairs ns)) = div_ceil (Z.of_nat (length ns)) 2 /\ Forall is_u8 (pack_pairs ns) /\
  forall i d, ns !! i = Some d -> exists byte, pack_pairs ns !! (i / 2)%nat = Some byte /\
    (if (i mod 2 =? 0)%nat then Z.land byte 0x0F else Z.shiftr byte 4) = d.
Proof.
  unfold div_ceil. induction ns as [ns IH] using (induction_ltof1 _ (@length Z)). unfold ltof in IH. intros Hns.
  destruct ns as [|lo [|hi ns]]; [split_and!; [done|constructor|done]| |].
  - apply Forall_cons in Hns as [Hlo _]. destruct (nibbles_of_byte BCD_FILLER lo) as (H1 & _ & H2); [done|done|].
    split_and!; [done|by apply Forall_singleton|]. intros [|[|i]] d Hd; [|done|done]. simplify_eq/=. by eexists.
  - apply Forall_cons in Hns as [Hlo Hns]. apply Forall_cons in Hns as [Hhi Hns].
    destruct (nibbles_of_byte hi lo) as (H1 & H2 & H3); [done|done|].
    destruct (IH ns) as (Hlen & Hu8 & Hget); [cbn; lia|done|]. cbn [pack_pairs length].
    split_and!; [lia|by constructor|]. intros [|[|i]] d Hd; [simplify_eq/=; by eexists..|].
    replace (S (S i)) with (i + 1 * 2)%nat by lia. rewrite Nat.div_add, Nat.Div0.mod_add, Nat.add_1_r by lia. by apply Hget.
Qed.

Lemma nibble_loop digits acc :
  try_fold (fun nibbles b =>
    if negb (is_ascii_digit b) then Err (BcdInvalidDigit b) else Ok (nibbles ++ [b - 48])) digits acc =
  match List.find (fun b => negb (is_ascii_digit b)) digits with
  | Some b => Err (BcdInvalidDigit b)
  | None => Ok (acc ++ ((fun b => b - 48) <$> digits))
  end.
Proof.
  revert acc. induction digits as [|b digits IH]; intros acc; cbn; [by rewrite app_nil_r|].
  destruct (is_ascii_digit b); cbn; [|done]. rewrite IH. destruct (List.find _ _); [done|]. by rewrite <- app_assoc.
Qed.

Lemma all_digits digits :
  List.find (fun b => negb (is_ascii_digit b)) digits = None -> Forall (fun b => 48 <= b <= 57) digits.
Proof.
  induction digits as [|b digits IH]; cbn; [done|]. unfold is_ascii_digit at 1. destruct (_ && _) eqn:E; cbn; [|done].
  bool_hyps. intros. constructor; [done|by apply IH].
Qed.

(** What a packed address unpacks to: the number it was packed from. *)
Lemma address_decodes number toa bcd :
  encode_bcd_address number = Ok (toa, bcd) ->
  let digits := default number (strip_plus number) in
  Z.of_nat (length digits) <= MAX_ADDRESS_DIGITS /\ Forall (fun b => 48 <= b <= 57) digits /\
  Forall is_u8 bcd /\ is_u8 toa /\ Z.of_nat (length bcd) = div_ceil (Z.of_nat (length digits)) 2 /\
  number = (if toa =? TOA_INTERNATIONAL then [PLUS] else []) ++ digits /\
  decode_bcd_address (Z.of_nat (length digits)) toa bcd = Ok number.
Proof.
  unfold encode_bcd_address. set (pr := match strip_plus number with Some _ => _ | None => _ end). cbv zeta.
  set (digits := default number (strip_plus number)).
  assert (pr.2 = digits /\ number = (if pr.1 =? TOA_INTERNATIONAL then [PLUS] else []) ++ digits /\ is_u8 pr.1) as (E2 & E1 & Hu).
  { subst pr digits. unfold strip_plus. destruct number as [|c number]; [done|]. destruct (Z.eqb_spec c PLUS) as [->|]; done. }
  clearbody pr digits. destruct pr as [t ds]. cbn in *. subst ds. unfold pack_bcd_digits. rewrite nibble_loop.
  destruct (List.find _ _) eqn:Ef; [done|]. apply all_digits in Ef. cbn [app].
  destruct (_ <? _) eqn:El; [done|]. bool_hyps. rewrite length_fmap in El. intros [= <- <-].
  set (ns := (fun b => b - 48) <$> digits).
  assert (length ns = length digits) as Hns by apply length_fmap.
  destruct (pack_pairs_spec ns) as (Hlen & Hu8 & Hget).
  { apply Forall_fmap. eapply Forall_impl; [done|]. cbn. unfold is_nibble. lia. }
  split_and!; [done|done|done|done|congruence|done|]. unfold decode_bcd_address. rewrite (proj2 (Z.ltb_ge _ _)) by done.
  rewrite E1. rewrite Nat2Z.id. cbv zeta. set (out := if _ =? _ then _ else _). clearbody out.
  assert (forall k, (k <= length digits)%nat ->
    try_fold (fun out i =>
      let? byte := ok_or (pack_pairs ns !! (i / 2)%nat) (Truncated (Z.of_nat (i / 2))) in
      let nibble := if (i mod 2 =? 0)%nat then Z.land byte 0x0F else Z.shiftr byte 4 in
      if 9 <? nibble then Err (BcdInvalidDigit nibble) else Ok (out ++ [48 + nibble])) (seq 0 k) out = Ok (out ++ take k digits)) as Hk.
  { induction k as [|k IH]; intros Hk; [cbn; by rewrite app_nil_r|]. rewrite seq_S, try_fold_app, IH by lia. cbn [try_fold Nat.add].
    destruct (lookup_lt_is_Some_2 digits k) as [d Hd]; [lia|].
    destruct (Hget k (d - 48)) as (byte & -> & Hn); [subst ns; by rewrite list_lookup_fmap, Hd|].
    cbn [ok_or]. cbv zeta. rewrite Hn. eapply Forall_lookup_1 in Hd as Hr; [|exact Ef]. cbn in Hr.
    rewrite (proj2 (Z.ltb_ge _ _)) by lia. rewrite (take_S_r _ _ _ Hd), <- app_assoc. do 4 f_equal. lia. }
  rewrite Hk by done. by rewrite firstn_all.
Qed.

(** An accepted address is at most one sign and twenty digits. *)
Lemma decoded_address_shape len toa bcd s :
  decode_bcd_address len toa bcd = Ok s ->
  exists ds, s = (if toa =? TOA_INTERNATIONAL then [PLUS] else []) ++ ds /\ length ds = Z.to_nat len /\
    len <= MAX_ADDRESS_DIGITS /\ (Forall is_u8 bcd -> Forall (fun b => 48 <= b <= 57) ds).
Proof.
  unfold decode_bcd_address. destruct (_ <? _) eqn:El; [done|]. bool_hyps. cbv zeta. set (out := if _ =? _ then _ else _). clearbody out.
  intros H. cut (exists ds, s = out ++ ds /\ length ds = length (seq 0 (Z.to_nat len)) /\ (Forall is_u8 bcd -> Forall (fun b => 48 <= b <= 57) ds)).
  { intros (ds & -> & Hl & Hd). rewrite length_seq in Hl. by exists ds. }
  revert out H. induction (seq 0 (Z.to_nat len)) as [|i l IH]; intros out H; cbn [try_fold] in H.
  { exists []. injection H as <-. by rewrite app_nil_r. }
  destruct (bcd !! (i / 2)%nat) as [byte|] eqn:Eb; cbn [ok_or] in H; [|done]. set (nb := if (i mod 2 =? 0)%nat then _ else _) in H.
  destruct (9 <? nb) eqn:En; [done|]. bool_hyps. apply IH in H as (ds & -> & Hl & Hd).
  exists ((48 + nb) :: ds). rewrite <- app_assoc. split_and!; [done|cbn; lia|]. intros Hu. constructor; [|by apply Hd].
  assert (is_u8 byte) as [Hb _] by (by eapply Forall_lookup_1). split; [|lia]. assert (0 <= nb); [|lia]. subst nb.
  destruct (_ =? _)%nat; [apply Z.land_nonneg; by left|by apply Z.shiftr_nonneg].
Qed.
End bcd_address.

(** ** The bounds-checked reader *)
Module cursor.

Record Cursor := mk_cursor { data : list Z; pos : Z }.

Definition new (d : list Z) : Cursor := mk_cursor d 0.

Definition remaining (c : Cursor) : list Z := drop (Z.to_nat (pos c)) (data c).

Definition read_byte (c : Cursor) : result (Z * Cursor) CoreError :=
  let? b := ok_or (data c !! Z.to_nat (pos c)) (Truncated (pos c)) in
  Ok (b, mk_cursor (data c) (wrap32 (pos c + 1))).

Definition read_slice (c : Cursor) (n : Z) : result (list Z * Cursor) CoreError :=
  let end_ := pos c + n in
  if 2 ^ 32 <=? end_ then Err (Truncated (pos c)) else
  if Z.of_nat (length (data c)) <? end_ then Err (Truncated (pos c)) else
  Ok (take (Z.to_nat n) (drop (Z.to_nat (pos c)) (data c)), mk_cursor (data c) end_).

(** A cursor over data of a possible length, at a position inside it. *)
Definition cursor_ok (c : Cursor) : Prop :=
  Z.of_nat (length (data c)) < 2 ^ 31 /\ 0 <= pos c <= Z.of_nat (length (data c)).

(** Reading consumes the front of what remains. *)
Lemma read_byte_cons c b rest :
  cursor_ok c -> remaining c = b :: rest -> exists c', read_byte c = Ok (b, c') /\ cursor_ok c' /\ remaining c' = rest.
Proof.
  intros [Hl Hp] Hr. unfold remaining in Hr. unfold read_byte.
  assert (data c !! Z.to_nat (pos c) = Some b) as Hb by (rewrite <- (Nat.add_0_r (Z.to_nat _)), <- lookup_drop, Hr; done).
  rewrite Hb. cbn [ok_or]. eexists. split; [done|]. apply lookup_lt_Some in Hb.
  rewrite wrap32_small by (unfold is_u32; lia). split; [unfold cursor_ok; cbn; lia|]. unfold remaining. cbn.
  replace (Z.to_nat (pos c + 1)) with (Z.to_nat (pos c) + 1)%nat by lia. by rewrite <- drop_drop, Hr.
Qed.

Lemma read_slice_app c s rest :
  cursor_ok c -> remaining c = s ++ rest -> exists c', read_slice c (Z.of_nat (length s)) = Ok (s, c') /\ cursor_ok c' /\ remaining c' = rest.
Proof.
  intros [Hl Hp] Hr. unfold remaining in Hr. unfold read_slice. cbv zeta.
  assert (length (drop (Z.to_nat (pos c)) (data c)) = (length s + length rest)%nat) as Hlen by (by rewrite Hr, length_app).
  rewrite length_drop in Hlen. rewrite (proj2 (Z.leb_gt _ _)), (proj2 (Z.ltb_ge _ _)) by lia.
  eexists. split; [rewrite Hr, Nat2Z.id, take_app_length; done|]. split; [unfold cursor_ok; cbn; lia|]. unfold remaining. cbn.
  replace (Z.to_nat (pos c + Z.of_nat (length s))) with (Z.to_nat (pos c) + length s)%nat by lia.
  by rewrite <- drop_drop, Hr, drop_app_length.
Qed.

Lemma read_byte_inv c b c' : cursor_ok c -> read_byte c = Ok (b, c') -> cursor_ok c' /\ remaining c = b :: remaining c'.
Proof.
  intros Hc. destruct (remaining c) as [|x rest] eqn:Hr; intros H.
  - unfold read_byte in H. assert (data c !! Z.to_nat (pos c) = None) as E; [|by rewrite E in H].
    unfold remaining in Hr. by rewrite <- (Nat.add_0_r (Z.to_nat _)), <- lookup_drop, Hr.
  - destruct (read_byte_cons c x rest) as (c'' & H' & ? & <-); [done|done|]. rewrite H' in H. by simplify_eq.
Qed.

Lemma read_slice_inv c n s c' :
  cursor_ok c -> 0 <= n -> read_slice c n = Ok (s, c') -> cursor_ok c' /\ Z.of_nat (length s) = n /\ remaining c = s ++ remaining c'.
Proof.
  intros [Hl Hp] Hn. unfold read_slice. cbv zeta. destruct (_ <=? _) eqn:E1; [done|]. destruct (_ <? _) eqn:E2; [done|]. bool_hyps.
  intros [= <- <-]. unfold cursor_ok, remaining. cbn. split; [lia|]. rewrite length_take, length_drop. split; [lia|].
  replace (Z.to_nat (pos c + n)) with (Z.to_nat (pos c) + Z.to_nat n)%nat by lia. by rewrite <- drop_drop, take_drop.
Qed.

Lemma new_ok d : Z.of_nat (length d) < 2 ^ 31 -> cursor_ok (new d) /\ remaining (new d) = d.
Proof. unfold cursor_ok. cbn. intros. split; [lia|done]. Qed.

End cursor.

(** ** User-data headers and covert messages *)
Module udh.

Definition PID_TYPE_0_SMS : Z := 0x40.
Definition PID_SIM_TOOLKIT_UPPER : Z := 0x48.
Definition WAP_PUSH_PORT_OMA_CP : Z := 2948.
Definition WAP_PUSH_PORT_ALT : Z := 49999.
Definition UDH_IEI_APP_PORT_16BIT : Z := 0x05.
Definition UDHI_BIT : Z := 0x40.

Record UdhPorts := mk_ports { destination : Z; source : Z }.

Inductive MessageClass :=
  | Normal
  | Silent (pid : Z)
  | WapPush (destination_port source_port : Z).

Definition is_covert (m : MessageClass) : bool := match m with Normal => false | _ => true end.

Definition is_silent_sms_pid (pid : Z) : bool := (PID_TYPE_0_SMS <=? pid) && (pid <? PID_SIM_TOOLKIT_UPPER).
Definition is_wap_push_port (port : Z) : bool := (port =? WAP_PUSH_PORT_OMA_CP) || (port =? WAP_PUSH_PORT_ALT).
Definition has_udh (first_octet : Z) : bool := negb (Z.land first_octet UDHI_BIT =? 0).

Definition be16 (hi lo : Z) : Z := hi * 256 + lo.

(** The walk over the information elements. Every round moves on by at least
    two octets, so one unit of fuel per octet is enough. *)
Fixpoint scan_elements (fuel : nat) (udh : list Z) (pos : nat) : option UdhPorts :=
  match fuel with
  | O => None
  | S fuel =>
      if (pos <? length udh)%nat then
        iei ← udh !! pos;
        ie_len ← Z.to_nat <$> udh !! (pos + 1)%nat;
        let ie_data_start := (pos + 2)%nat in
        let ie_data_end := (ie_data_start + ie_len)%nat in
        if (length udh <? ie_data_end)%nat then None else
        if (iei =? UDH_IEI_APP_PORT_16BIT) && (ie_len =? 4)%nat then
          dest_hi ← udh !! ie_data_start;
          dest_lo ← udh !! (ie_data_start + 1)%nat;
          src_hi ← udh !! (ie_data_start + 2)%nat;
          src_lo ← udh !! (ie_data_start + 3)%nat;
          Some (mk_ports (be16 dest_hi dest_lo) (be16 src_hi src_lo))
        else scan_elements fuel udh ie_data_end
      else None
  end.

Definition parse_udh_ports (ud_bytes : list Z) : option UdhPorts :=
  udhl ← Z.to_nat <$> ud_bytes !! 0%nat;
  if (length ud_bytes <? udhl + 1)%nat then None else
  let udh := take udhl (drop 1 ud_bytes) in
  scan_elements (length udh) udh 0.

Definition udh_octet_len (ud_bytes : list Z) : Z :=
  let udhl := default 0 (ud_bytes !! 0%nat) in
  Z.min (udhl + 1) (Z.of_nat (length ud_bytes)).

Definition gsm7_udh_septets (udh_octets : Z) : Z := div_ceil (udh_octets * 8) 7.

Definition classify (first_octet pid : Z) (ud_bytes : list Z) : MessageClass :=
  if is_silent_sms_pid pid then Silent pid else
  if has_udh first_octet then
    match parse_udh_ports ud_bytes with
    | Some ports => if is_wap_push_port (destination ports) then WapPush (destination ports) (source ports) else Normal
    | None => Normal
    end
  else Normal.

(** *** Headers as lists of elements *)

(** An information element: its identifier and its data. *)
Definition element_octets (e : Z * list Z) : list Z := fst e :: Z.of_nat (length (snd e)) :: snd e.
Definition header_octets (es : list (Z * list Z)) : list Z := es ≫= element_octets.
Definition header (es : list (Z * list Z)) : list Z := Z.of_nat (length (header_octets es)) :: header_octets es.

Definition header_ok (es : list (Z * list Z)) : Prop := Z.of_nat (length (header_octets es)) < 2 ^ 8 /\ Forall is_u8 (header_octets es).

(** The ports of the first element that addresses 16-bit application ports. *)
Fixpoint element_ports (es : list (Z * list Z)) : option UdhPorts :=
  match es with
  | [] => None
  | (iei, [dh; dl; sh; sl]) :: es =>
      if iei =? UDH_IEI_APP_PORT_16BIT then Some (mk_ports (be16 dh dl) (be16 sh sl)) else element_ports es
  | _ :: es => element_ports es
  end.

Lemma scan_elements_spec es : forall fuel pre,
  (length (header_octets es) <= fuel)%nat ->
  scan_elements fuel (pre ++ header_octets es) (length pre) = element_ports es.
Proof.
  unfold header_octets. induction es as [|[iei d] es IH]; intros fuel pre Hf.
  { cbn. rewrite app_nil_r. destruct fuel; cbn [scan_elements]; [done|]. by rewrite Nat.ltb_irrefl. }
  cbn [mbind list_bind] in *. rewrite length_app in Hf. unfold element_octets at 1 in Hf. cbn [length snd fst] in Hf.
  destruct fuel as [|fuel]; [lia|]. set (rest := _ ≫= element_octets) in *. cbn [scan_elements]. unfold element_octets. cbn [fst snd].
  assert (forall k, (pre ++ (iei :: Z.of_nat (length d) :: d) ++ rest) !! (length pre + k)%nat = ((iei :: Z.of_nat (length d) :: d) ++ rest) !! k) as Hlk.
  { intros k. rewrite lookup_app_r by lia. f_equal. lia. }
  rewrite (proj2 (Nat.ltb_lt _ _)) by (rewrite length_app; cbn; lia).
  pose proof (Hlk 0%nat) as H0. rewrite Nat.add_0_r in H0. rewrite H0, (Hlk 1%nat). cbn [lookup list_lookup app mbind option_bind fmap option_fmap option_map].
  rewrite Nat2Z.id. rewrite (proj2 (Nat.ltb_ge _ _)) by (rewrite !length_app; cbn; rewrite length_app; lia).
  replace (pre ++ iei :: Z.of_nat (length d) :: d ++ rest) with ((pre ++ iei :: Z.of_nat (length d) :: d) ++ rest) by (by rewrite <- app_assoc).
  replace (length pre + 2 + length d)%nat with (length (pre ++ iei :: Z.of_nat (length d) :: d)) by (rewrite length_app; cbn; lia).
  destruct d as [|dh [|dl [|sh [|sl [|x d]]]]]; cbn [length Nat.eqb]; rewrite ?andb_false_r; cbn [element_ports]; try (apply IH; cbn in Hf; lia).
  rewrite andb_true_r. destruct (iei =? _); [|apply IH; cbn in Hf; lia].
  rewrite <- app_assoc, <- !Nat.add_assoc. change ((iei :: ?l) ++ rest) with (iei :: l ++ rest).
  cbn [length] in Hlk. by rewrite !Hlk.
Qed.

Lemma parse_header es rest : header_ok es -> parse_udh_ports (header es ++ rest) = element_ports es.
Proof.
  intros [Hl _]. unfold parse_udh_ports, header. cbn [app lookup list_lookup fmap option_fmap option_map mbind option_bind]. rewrite Nat2Z.id.
  rewrite (proj2 (Nat.ltb_ge _ _)) by (cbn; rewrite length_app; lia). rewrite skipn_cons, drop_0, take_app_length.
  by apply (scan_elements_spec es _ []).
Qed.

Lemma header_octet_len es rest : header_ok es -> udh_octet_len (header es ++ rest) = Z.of_nat (length (header es)).
Proof. intros [Hl _]. unfold udh_octet_len, header. cbn. rewrite length_app. lia. Qed.
End udh.

(** ** Lines a modem answers *)
Module at_response.

Inductive FinalResult :=
  | FinalOk
  | FinalError
  | CmeError (code : Z)
  | CmsError (code : Z).

#[export] Instance FinalResult_eq_dec : EqDecision FinalResult.
Proof. solve_decision. Defined.

Inductive SimPinState := Ready | PinRequired | PukRequired | Pin2Required | Puk2Required | Other.

#[export] Instance SimPinState_eq_dec : EqDecision SimPinState.
Proof. solve_decision. Defined.

Definition line_eqb (a b : list Z) : bool := bool_decide (a = b).

(** The literals of the source, as bytes. *)
Definition OK : list Z := [79; 75].
Definition ERROR : list Z := [69; 82; 82; 79; 82].
Definition RING : list Z := [82; 73; 78; 71].
Definition CME_PREFIX : list Z := [43; 67; 77; 69; 32; 69; 82; 82; 79; 82; 58; 32].
Definition CMS_PREFIX : list Z := [43; 67; 77; 83; 32; 69; 82; 82; 79; 82; 58; 32].
Definition CPIN_PREFIX : list Z := [43; 67; 80; 73; 78; 58; 32].
Definition CSQ_PREFIX : list Z := [43; 67; 83; 81; 58; 32].
Definition READY : list Z := [82; 69; 65; 68; 89].
Definition SIM_PIN : list Z := [83; 73; 77; 32; 80; 73; 78].
Definition SIM_PUK : list Z := [83; 73; 77; 32; 80; 85; 75].

Definition strip_prefix (input prefix : list Z) : option (list Z) :=
  if (length prefix <=? length input)%nat && line_eqb (take (length prefix) input) prefix
  then Some (drop (length prefix) input) else None.

(** [checked_mul(10)?.checked_add(d)?] below [limit]. *)
Fixpoint parse_digits (limit : Z) (input : list Z) (result : Z) : option Z :=
  match input with
  | [] => Some result
  | b :: input =>
      if negb (bcd_address.is_ascii_digit b) then None else
      if limit <=? result * 10 then None else
      if limit <=? result * 10 + (b - 48) then None else
      parse_digits limit input (result * 10 + (b - 48))
  end.

Definition parse_decimal (limit : Z) (input : list Z) : option Z :=
  match input with [] => None | _ => parse_digits limit input 0 end.
Definition parse_decimal_u8 : list Z -> option Z := parse_decimal (2 ^ 8).
Definition parse_decimal_u32 : list Z -> option Z := parse_decimal (2 ^ 32).

Definition parse_final_result (line : list Z) : option FinalResult :=
  if line_eqb line OK then Some FinalOk else
  if line_eqb line ERROR then Some FinalError else
  match strip_prefix line CME_PREFIX with
  | Some rest => Some (match parse_decimal_u32 rest with Some code => CmeError code | None => FinalError end)
  | None =>
      match strip_prefix line CMS_PREFIX with
      | Some rest => Some (match parse_decimal_u32 rest with Some code => CmsError code | None => FinalError end)
      | None => None
      end
  end.

Definition is_ring (line : list Z) : bool := line_eqb line RING.

Definition parse_cpin (line : list Z) : option SimPinState :=
  rest ← strip_prefix line CPIN_PREFIX;
  Some (if line_eqb rest READY then Ready
        else if line_eqb rest (SIM_PIN ++ [50]) then Pin2Required
        else if line_eqb rest (SIM_PUK ++ [50]) then Puk2Required
        else if line_eqb rest SIM_PIN then PinRequired
        else if line_eqb rest SIM_PUK then PukRequired
        else Other).

(** [rest.iter().position(..)]. *)
Fixpoint position (c : Z) (l : list Z) : option nat :=
  match l with [] => None | b :: l => if b =? c then Some 0%nat else S <$> position c l end.

Definition parse_csq (line : list Z) : option (Z * Z) :=
  rest ← strip_prefix line CSQ_PREFIX;
  comma ← position 44 rest;
  rssi ← parse_decimal_u8 (take comma rest);
  ber ← parse_decimal_u8 (drop (comma + 1) rest);
  Some (rssi, ber).

Definition is_valid_dial_byte (b : Z) : bool :=
  bcd_address.is_ascii_digit b || (b =? 43) || (b =? 42) || (b =? 35) || ((65 <=? b) && (b <=? 68)).

Definition CSQ_RSSI_MAX : Z := 31.
Definition RSSI_DBM_UNKNOWN : Z := -999.
Definition rssi_to_dbm (rssi : Z) : Z := if CSQ_RSSI_MAX <? rssi then RSSI_DBM_UNKNOWN else -113 + rssi * 2.
Definition dbm_to_bars (dbm : Z) : Z :=
  if -70 <=? dbm then 4 else if -85 <=? dbm then 3 else if -100 <=? dbm then 2 else if -110 <=? dbm then 1 else 0.

Lemma line_eqb_eq a b : line_eqb a b = true <-> a = b.
Proof. apply bool_decide_eq_true. Qed.

(** Success is the line [OK] and nothing else. *)
Lemma final_ok_iff line : parse_final_result line = Some FinalOk <-> line = OK.
Proof.
  unfold parse_final_result. split; [|intros ->; by vm_compute]. destruct (line_eqb line OK) eqn:E; [by apply line_eqb_eq in E|].
  intros H. destruct (line_eqb line ERROR); [done|].
  destruct (strip_prefix _ _) as [r|]; [by destruct (parse_decimal_u32 r)|].
  destruct (strip_prefix _ _) as [r|]; [by destruct (parse_decimal_u32 r)|done].
Qed.

End at_response.
