(* ===== verification/Sms.v ===== *)
(** * Text messages ([crates/thumos/src/sms.rs])

    PDU framing on top of [Klesis], the dialogue with the modem that submits a
    message, the decoding of a delivered one and the inbox. The modem transport
    is the trait [ModemTransport] of [telephony.rs]: a class here, whose laws
    are what an implementation owes its callers. *)

From S2P Require Import Prelude Machine Klesis.
From Stdlib Require Import ZArith.
Open Scope Z_scope.

Module sms.

Inductive SmsError :=
  | Gsm7Encode (cp : Z)
  | PduDecode
  | UnsupportedDcs (dcs : Z)
  | ModemError
  | CmeError (code : Z)
  | CmsError (code : Z)
  | TransportError
  | NumberTooLong
  | MessageTooLong
  | InboxOverflow.

#[export] Instance SmsError_eq_dec : EqDecision SmsError.
Proof. solve_decision. Defined.

(** [impl From<CoreError> for SmsError]. *)
Definition of_core (e : CoreError) : SmsError :=
  match e with
  | Klesis.Gsm7Encode codepoint => Gsm7Encode codepoint
  | AddressTooLong _ => NumberTooLong
  | _ => PduDecode
  end.

(** The [?] operator on a result of the codecs, in a function that fails with
    an [SmsError] and in one that may also panic. *)
Notation "'lift?' x := m 'in' k" := (match m with Ok x => k | Err e => Err (of_core e) end)
  (at level 10, x pattern, m at level 100, k at level 200).
Notation "'read?' x := m 'in' k" := (match m with Ok x => k | Err e => Ret (Err (of_core e)) end)
  (at level 10, x pattern, m at level 100, k at level 200).

Definition MAX_NUMBER_DIGITS : Z := 20.
Definition MAX_GSM7_SEPTETS : Z := 160.
Definition MAX_SENDER_LEN : nat := 32.
Definition MAX_INBOX_MESSAGES : nat := 256.

(** ** Submitting *)

(** The number is its bytes. *)
Definition encode_bcd_address (number : list Z) : result (list Z) SmsError :=
  let digits := default number (bcd_address.strip_plus number) in
  if MAX_NUMBER_DIGITS <? Z.of_nat (length digits) then Err NumberTooLong else
  lift? (type_byte, bcd) := bcd_address.encode_bcd_address number in
  Ok (wrap8 (Z.of_nat (length digits)) :: type_byte :: bcd).

Definition encode_submit_pdu (number text : list Z) : result (list Z * Z) SmsError :=
  lift? septet_count := gsm7.count_septets text in
  if MAX_GSM7_SEPTETS <? septet_count then Err MessageTooLong else
  let? address := encode_bcd_address number in
  lift? packed := gsm7.encode text in
  let pdu := [0x00; 0x01; 0x00] ++ address ++ [0x00; 0x00; wrap8 septet_count] ++ packed in
  let tpdu_len := Z.of_nat (length pdu) - 1 in
  Ok (hex.hex_encode pdu, tpdu_len).

(** ** Receiving *)

Record SmsMessage := mk_message {
  sender : list Z; sender_len : Z; body : list Z; timestamp : Z; read : bool; class : udh.MessageClass;
}.

Definition MAX_SCTS_TZ_QUARTERS : Z := 14 * 4.

(** All quantities are small: a digit pair is at most 165. *)
Definition days_from_epoch (year month day : Z) : Z :=
  let y := if month <=? 2 then year - 1 else year in
  let m := if month <=? 2 then month + 9 else month - 3 in
  let c := y / 100 in
  let ya := y - c * 100 in
  let total := (146097 * c) / 4 + (1461 * ya) / 4 + (153 * m + 2) / 5 + day in
  Z.max 0 (total - 719469).

Definition lo (b : Z) : Z := Z.land b 0x0F.
Definition hi (b : Z) : Z := Z.land (Z.shiftr b 4) 0x0F.
Definition pair (b : Z) : Z := wrap8 (wrap8 (lo b * 10) + hi b).

Definition decode_scts_epoch (scts : list Z) : outcome Z :=
  if (length scts <? 7)%nat then Ret 0 else
  s0 ← index scts 0; s1 ← index scts 1; s2 ← index scts 2;
  s3 ← index scts 3; s4 ← index scts 4; s5 ← index scts 5;
  let year := 2000 + pair s0 in
  let days := days_from_epoch year (pair s1) (pair s2) in
  let local := days * 86400 + pair s3 * 3600 + pair s4 * 60 + pair s5 in
  tz ← index scts 6;
  let negative := negb (Z.land tz 0x08 =? 0) in
  let quarters := wrap8 (wrap8 (Z.land tz 0x07 * 10) + hi tz) in
  if MAX_SCTS_TZ_QUARTERS <? quarters then Ret local else
  let offset := quarters * 15 * 60 in
  Ret (if negative then Z.min (local + offset) (2 ^ 64 - 1) else Z.max 0 (local - offset)).

Definition MAX_SINGLE_SEGMENT_SEPTETS : Z := 160.

Definition handle_incoming (pdu_data : list Z) : outcome (result SmsMessage SmsError) :=
  let cur := cursor.new pdu_data in
  read? (smsc_len, cur) := cursor.read_byte cur in
  read? (_, cur) := cursor.read_slice cur smsc_len in
  read? (first_octet, cur) := cursor.read_byte cur in
  let mti := Z.land first_octet 0x03 in
  if negb (mti =? 0x00) then Ret (Err PduDecode) else
  read? (oa_len_digits, cur) := cursor.read_byte cur in
  read? (oa_type, cur) := cursor.read_byte cur in
  let oa_bcd_bytes := div_ceil oa_len_digits 2 in
  read? (oa_bcd, cur) := cursor.read_slice cur oa_bcd_bytes in
  read? sender_str := bcd_address.decode_bcd_address oa_len_digits oa_type oa_bcd in
  let sender_len := Nat.min (length sender_str) MAX_SENDER_LEN in
  sender ← copy_prefix (replicate MAX_SENDER_LEN 0) sender_str sender_len;
  read? (pid, cur) := cursor.read_byte cur in
  read? (dcs, cur) := cursor.read_byte cur in
  if negb (dcs =? 0x00) then Ret (Err (UnsupportedDcs dcs)) else
  read? (scts, cur) := cursor.read_slice cur 7 in
  timestamp ← decode_scts_epoch scts;
  read? (udl, cur) := cursor.read_byte cur in
  if MAX_SINGLE_SEGMENT_SEPTETS <? udl then Ret (Err PduDecode) else
  let ud_byte_count := div_ceil (sat32 (udl * 7)) 8 in
  read? (ud_bytes, cur) := cursor.read_slice cur ud_byte_count in
  let class := udh.classify first_octet pid ud_bytes in
  read? body :=
    (if udh.has_udh first_octet then
       let udh_septets := udh.gsm7_udh_septets (udh.udh_octet_len ud_bytes) in
       gsm7.decode_from ud_bytes udh_septets (Z.max 0 (udl - udh_septets))
     else gsm7.decode ud_bytes udl) in
  Ret (Ok (mk_message sender (wrap8 (Z.of_nat sender_len)) body timestamp false class)).

(** ** The inbox *)

Definition mark_read (index : nat) (inbox : list SmsMessage) : list SmsMessage :=
  alter (fun m => mk_message (sender m) (sender_len m) (body m) (timestamp m) true (class m)) index inbox.

Definition delete_message (index : nat) (inbox : list SmsMessage) : list SmsMessage :=
  if (index <? length inbox)%nat then delete index inbox else inbox.

Definition receive (msg : SmsMessage) (inbox : list SmsMessage) : result unit SmsError * list SmsMessage :=
  let overflowed := (MAX_INBOX_MESSAGES <=? length inbox)%nat in
  let inbox := if overflowed then delete 0%nat inbox else inbox in
  let inbox := inbox ++ [msg] in
  (if overflowed then Err InboxOverflow else Ok tt, inbox).

(** ** The dialogue with the modem *)

(** The [while n > 0] loop of [write_cmgs_command]. The array has five places, so
    a sixth digit panics and six rounds are enough. *)
Fixpoint cmgs_digits (fuel : nat) (digits : list Z) (digit_count : nat) (n : Z) : outcome (list Z * nat) :=
  if 0 <? n then
    match fuel with
    | O => Panic
    | S fuel =>
        digits ← store digits digit_count (48 + wrap8 (n mod 10));
        cmgs_digits fuel digits (digit_count + 1) (n / 10)
    end
  else Ret (digits, digit_count).

Fixpoint copy_reversed (k : nat) (digits : list Z) (digit_count i pos : nat) (buf : list Z) : outcome (list Z * nat) :=
  match k with
  | O => Ret (buf, pos)
  | S k =>
      d ← index digits (digit_count - 1 - i);
      buf ← store buf pos d;
      copy_reversed k digits digit_count (i + 1) (pos + 1) buf
  end.

(** ["AT+CMGS="] and ["AT+CMGF=0"]. *)
Definition CMGS_PREFIX : list Z := [65; 84; 43; 67; 77; 71; 83; 61].
Definition CMGF_COMMAND : list Z := [65; 84; 43; 67; 77; 71; 70; 61; 48].

Definition write_cmgs_command (buf : list Z) (tpdu_len : Z) : outcome (list Z * nat) :=
  buf ← copy_prefix buf CMGS_PREFIX (length CMGS_PREFIX);
  let pos := length CMGS_PREFIX in
  '(digits, digit_count) ←
    (if tpdu_len =? 0 then Ret (<[0%nat := 48]> (replicate 5 0), 1%nat) else cmgs_digits 6 (replicate 5 0) 0 tpdu_len);
  copy_reversed digit_count digits digit_count 0 pos buf.

Inductive AtResponse := AtOk | AtError | AtCmeError (code : Z) | AtCmsError (code : Z).

(** [telephony_parser::parse_final_result]. *)
Definition parse_final_result (line : list Z) : option AtResponse :=
  r ← at_response.parse_final_result line;
  Some (match r with
        | at_response.FinalOk => AtOk
        | at_response.FinalError => AtError
        | at_response.CmeError code => AtCmeError code
        | at_response.CmsError code => AtCmsError code
        end).

Inductive TelephonyError :=
  | Timeout | TelModemError | TelCmeError (code : Z) | ParseError | InvalidState | TelTransportError
  | SimNotReady | SimPukRequired | TelNumberTooLong | ConfirmationRequired.

Definition MAX_LINE_LEN : nat := 256.

(** The part of the trait a submission uses. [recv_line] fills the caller's
    buffer. *)
Class ModemTransport (T : Type) := {
  send_at : T -> list Z -> T * result unit TelephonyError;
  recv_line : T -> list Z -> Z -> T * list Z * result nat TelephonyError;
}.

(** The buffer is an array, and the number of bytes written fits it. *)
Class ModemTransportLaws (T : Type) `{ModemTransport T} := {
  recv_line_buf t buf timeout : length (recv_line t buf timeout).1.2 = length buf;
  recv_line_fits t buf timeout n : (recv_line t buf timeout).2 = Ok n -> (n <= length buf)%nat;
}.

Section dialogue.
Context {T : Type} `{ModemTransport T}.

(** The loops [for _ in 0..n] that read lines until one decides. *)
Fixpoint wait_for {X} (decides : list Z -> option X) (timeout_ms : Z) (n : nat) (t : T) (line_buf : list Z) :
    outcome (T * list Z * result (option X) SmsError) :=
  match n with
  | O => Ret (t, line_buf, Ok None)
  | S n =>
      let '(t, line_buf, r) := recv_line t line_buf timeout_ms in
      match r with
      | Err _ => Ret (t, line_buf, Err TransportError)
      | Ok k =>
          if (length line_buf <? k)%nat then Panic else
          match decides (take k line_buf) with
          | Some x => Ret (t, line_buf, Ok (Some x))
          | None => wait_for decides timeout_ms n t line_buf
          end
      end
  end.

(** What each of the three loops makes of a line. *)
Definition final_verdict (line : list Z) : option (result unit SmsError) :=
  (fun r => match r with
            | AtOk => Ok tt
            | AtError => Err ModemError
            | AtCmeError code => Err (CmeError code)
            | AtCmsError code => Err (CmsError code)
            end) <$> parse_final_result line.

Definition prompt_verdict (line : list Z) : option (result unit SmsError) :=
  if bool_decide (line !! 0%nat = Some 62) then Some (Ok tt) else
  (fun r => match r with
            | AtOk | AtError => Err ModemError
            | AtCmeError code => Err (CmeError code)
            | AtCmsError code => Err (CmsError code)
            end) <$> parse_final_result line.

(** [send] from the second command on: announce the length, wait for the prompt,
    hand over the PDU. The command is ASCII, so [from_utf8] accepts it. *)
Definition announce (t : T) (line_buf pdu_hex : list Z) (tpdu_len : Z) : outcome (T * result unit SmsError) :=
  '(cmd_buf, cmd_len) ← write_cmgs_command (replicate 32 0) tpdu_len;
  if (length cmd_buf <? cmd_len)%nat then Panic else
  let '(t, r) := send_at t (take cmd_len cmd_buf) in
  if negb (is_ok r) then Ret (t, Err TransportError) else
  '(t, line_buf, prompted) ← wait_for prompt_verdict 5000 16 t line_buf;
  match prompted with
  | Err e | Ok (Some (Err e)) => Ret (t, Err e)
  | Ok None => Ret (t, Err TransportError)
  | Ok (Some (Ok _)) =>
      let '(t, r) := send_at t (pdu_hex ++ [26]) in
      if negb (is_ok r) then Ret (t, Err TransportError) else
      '(t, line_buf, result) ← wait_for final_verdict 10000 32 t line_buf;
      Ret (t, match result with
              | Err e => Err e
              | Ok (Some r) => r
              | Ok None => Err TransportError
              end)
  end.

Definition send (t : T) (number text : list Z) : outcome (T * result unit SmsError) :=
  match encode_submit_pdu number text with
  | Err e => Ret (t, Err e)
  | Ok (pdu_hex, tpdu_len) =>
      let '(t, r) := send_at t CMGF_COMMAND in
      if negb (is_ok r) then Ret (t, Err TransportError) else
      let line_buf := replicate MAX_LINE_LEN 0 in
      '(t, line_buf, confirmed) ← wait_for final_verdict 2000 16 t line_buf;
      match confirmed with
      | Err e | Ok (Some (Err e)) => Ret (t, Err e)
      | Ok None => Ret (t, Err TransportError)
      | Ok (Some (Ok _)) => announce t line_buf pdu_hex tpdu_len
      end
  end.
End dialogue.
(** ** Submission *)

#[local] Ltac Zify.zify_post_hook ::= Z.to_euclidean_division_equations.

(** The digits of a number, without its sign. *)
Definition digits_of (number : list Z) : list Z := default number (bcd_address.strip_plus number).
Abbreviation is_digit := (fun b : Z => 48 <= b <= 57) (only parsing).

Lemma encode_bcd_address_cases number :
  match encode_bcd_address number with
  | Ok addr => exists toa bcd, addr = Z.of_nat (length (digits_of number)) :: toa :: bcd /\
      bcd_address.encode_bcd_address number = Ok (toa, bcd)
  | Err e => e = NumberTooLong /\ 20 < Z.of_nat (length (digits_of number)) \/
      e = PduDecode /\ ~ Forall is_digit (digits_of number)
  end.
Proof.
  unfold encode_bcd_address. fold (digits_of number). cbv zeta. destruct (_ <? _) eqn:El; bool_hyps; [by left|].
  destruct (bcd_address.encode_bcd_address number) as [[toa bcd]|e] eqn:E.
  - exists toa, bcd. unfold wrap8. rewrite Z.mod_small by (unfold MAX_NUMBER_DIGITS in El; lia). done.
  - right. unfold bcd_address.encode_bcd_address in E.
    assert (match bcd_address.strip_plus number with Some rest => (bcd_address.TOA_INTERNATIONAL, rest) | None => (0x81, number) end =
      (match bcd_address.strip_plus number with Some _ => bcd_address.TOA_INTERNATIONAL | None => 0x81 end, digits_of number)) as Hd
      by (unfold digits_of; by destruct (bcd_address.strip_plus number)).
    rewrite Hd in E. clear Hd. set (digits := digits_of number) in *. clearbody digits.
    unfold bcd_address.pack_bcd_digits in E. rewrite bcd_address.nibble_loop in E. destruct (List.find _ _) as [b|] eqn:Ef.
    + injection E as <-. split; [done|]. apply List.find_some in Ef as [Hin Hb]. apply list_elem_of_In in Hin.
      rewrite Forall_forall. intros Hall. specialize (Hall b Hin). unfold bcd_address.is_ascii_digit in Hb. cbn in Hall. lia.
    + cbn [app] in E. rewrite length_fmap in E. unfold bcd_address.MAX_ADDRESS_DIGITS, MAX_NUMBER_DIGITS in *.
      by rewrite (proj2 (Z.ltb_ge _ _)) in E.
Qed.

(** The PDU handed to the modem says what the caller asked to send: its
    hexadecimal text decodes to an SMS-SUBMIT whose length field, address and
    user data, read back with the receiving side's codecs, are the TPDU
    length, the number and the text. A refusal names its reason: a character
    without a septet, more than 160 septets, more than twenty digits, or a
    number with something else in it than digits. *)
Theorem submit_pdu_roundtrip number text :
  match encode_submit_pdu number text with
  | Ok (pdu_hex, tpdu_len) => exists nd toa bcd udl ud,
      hex.hex_decode pdu_hex = Ok ([0x00; 0x01; 0x00] ++ nd :: toa :: bcd ++ [0x00; 0x00; udl] ++ ud) /\
      tpdu_len = Z.of_nat (length ([0x01; 0x00] ++ nd :: toa :: bcd ++ [0x00; 0x00; udl] ++ ud)) /\
      Z.of_nat (length bcd) = div_ceil nd 2 /\ bcd_address.decode_bcd_address nd toa bcd = Ok number /\
      udl <= 160 /\ Z.of_nat (length ud) = div_ceil (7 * udl) 8 /\ gsm7.decode ud udl = Ok text
  | Err (Gsm7Encode c) => c ∈ text /\ gsm7.char_to_septet c = None
  | Err MessageTooLong => exists n, gsm7.count_septets text = Ok n /\ 160 < n
  | Err NumberTooLong => 20 < Z.of_nat (length (digits_of number))
  | Err PduDecode => ~ Forall is_digit (digits_of number)
  | Err _ => False
  end.
Proof.
  unfold encode_submit_pdu. destruct (decide (Forall gsm7.encodable text)) as [Ht|Hb].
  2: { apply gsm7.count_septets_bad in Hb as (c & Hc & Hn & ->). cbn. by apply eq_None_not_Some in Hn. }
  rewrite gsm7.count_septets_exact by done. set (n := sat32 _). destruct (_ <? n) eqn:El; bool_hyps.
  { by exists n. }
  pose proof (encode_bcd_address_cases number) as Ha. destruct (encode_bcd_address number) as [addr|e]; [|by destruct Ha as [[-> ?]|[-> ?]]].
  destruct Ha as (toa & bcd & -> & Hbcd). apply bcd_address.address_decodes in Hbcd as (Hnd & Hds & Hu & Ht8 & Hlb & Hnum & Hdec). fold (digits_of number) in *. cbv zeta in *.
  set (nd := Z.of_nat (length (digits_of number))) in *. unfold MAX_GSM7_SEPTETS, bcd_address.MAX_ADDRESS_DIGITS in *.
  destruct (gsm7.encode text) as [packed|e] eqn:Ee.
  2: { rewrite gsm7.encode_packs in Ee; [done|done|]. subst n. unfold sat32 in El. lia. }
  destruct (gsm7.encode_decodes text packed n Ee (gsm7.count_septets_exact _ Ht)) as (Hlen & Hpu & Hd); [lia|].
  assert (is_u8 n) as Hn by (subst n; unfold sat32, is_u8 in *; lia). assert (wrap8 n = n) as -> by (by apply Z.mod_small).
  exists nd, toa, bcd, n, packed. rewrite hex.hex_encode_decodes.
  2: { repeat (apply Forall_app; split); try done; repeat (apply Forall_cons; split); try done; unfold is_u8; subst nd; lia. }
  cbv zeta. split_and!; [done|rewrite !length_app; cbn [length]; rewrite ?length_app; cbn [length]; lia|done|done|lia|done|done].
Qed.
(** ** Time stamps

    The Gregorian calendar as a reference: the days of the years since 1970, of
    the months of the year, and of the month. *)

Definition leap (y : Z) : bool := ((y mod 4 =? 0) && negb (y mod 100 =? 0)) || (y mod 400 =? 0).
Definition month_days (y m : Z) : Z :=
  if m =? 2 then (if leap y then 29 else 28) else if (m =? 4) || (m =? 6) || (m =? 9) || (m =? 11) then 30 else 31.
Definition civil_days (y m d : Z) : Z :=
  foldr Z.add 0 ((fun k => if leap k then 366 else 365) <$> seqZ 1970 (y - 1970)) +
  foldr Z.add 0 (month_days y <$> seqZ 1 (m - 1)) + (d - 1).

Lemma months_agree :
  Forall (fun y => Forall (fun m => days_from_epoch y m 1 = civil_days y m 1 /\ 0 < days_from_epoch y m 1) (seqZ 1 12)) (seqZ 2000 100).
Proof.
  assert (forallb (fun y => forallb (fun m => (days_from_epoch y m 1 =? civil_days y m 1) && (0 <? days_from_epoch y m 1)) (seqZ 1 12)) (seqZ 2000 100) = true)
    as Hall by (vm_compute; reflexivity).
  apply Forall_forall. intros y Hy. apply Forall_forall. intros m Hm.
  rewrite forallb_forall in Hall. specialize (Hall y ltac:(by apply list_elem_of_In)). cbv beta in Hall.
  rewrite forallb_forall in Hall. specialize (Hall m ltac:(by apply list_elem_of_In)). cbv beta in Hall. by bool_hyps.
Qed.

Lemma days_from_epoch_civil y m d :
  2000 <= y < 2100 -> 1 <= m <= 12 -> 1 <= d -> days_from_epoch y m d = civil_days y m d.
Proof.
  intros Hy Hm Hd. pose proof months_agree as H. rewrite Forall_forall in H. specialize (H y ltac:(apply elem_of_seqZ; lia)).
  cbv beta in H. rewrite Forall_forall in H. specialize (H m ltac:(apply elem_of_seqZ; lia)). cbv beta in H. destruct H as [He Hp].
  assert (civil_days y m d = civil_days y m 1 + (d - 1)) as -> by (unfold civil_days; lia). rewrite <- He.
  revert Hp. unfold days_from_epoch. cbv zeta. lia.
Qed.

(** Two decimal digits in one octet, the tens in the low half. *)
Definition swapped (n : Z) : Z := n mod 10 * 16 + n / 10.

Lemma pair_swapped n : 0 <= n < 100 -> pair (swapped n) = n.
Proof.
  intros Hn. assert (Forall (fun k => pair (swapped k) = k) (seqZ 0 100)) as H by (repeat constructor).
  rewrite Forall_forall in H. apply H, elem_of_seqZ. lia.
Qed.

(** The time zone octet: quarter hours, with the sign in bit 3. *)
Definition zone_octet (negative : bool) (quarters : Z) : Z := swapped quarters + (if negative then 8 else 0).

Lemma zone_octet_reads negative q :
  0 <= q <= MAX_SCTS_TZ_QUARTERS ->
  negb (Z.land (zone_octet negative q) 0x08 =? 0) = negative /\
  wrap8 (wrap8 (Z.land (zone_octet negative q) 0x07 * 10) + hi (zone_octet negative q)) = q.
Proof.
  intros Hq. assert (Forall (fun k => forall b, negb (Z.land (zone_octet b k) 0x08 =? 0) = b /\
    wrap8 (wrap8 (Z.land (zone_octet b k) 0x07 * 10) + hi (zone_octet b k)) = k) (seqZ 0 57)) as H.
  { repeat (apply Forall_cons; split; [intros []; done|]). by apply Forall_nil. }
  rewrite Forall_forall in H. apply H, elem_of_seqZ. unfold MAX_SCTS_TZ_QUARTERS in Hq. lia.
Qed.

(** A date and time of the twenty-first century, as the network writes it. *)
Record local_time := mk_local { l_year : Z; l_month : Z; l_day : Z; l_hour : Z; l_min : Z; l_sec : Z; l_west : bool; l_quarters : Z }.

Definition local_ok (l : local_time) : Prop :=
  2000 <= l_year l < 2100 /\ 1 <= l_month l <= 12 /\ 1 <= l_day l <= month_days (l_year l) (l_month l) /\
  0 <= l_hour l < 24 /\ 0 <= l_min l < 60 /\ 0 <= l_sec l < 60 /\ 0 <= l_quarters l <= 56.

Definition scts_octets (l : local_time) : list Z :=
  [swapped (l_year l - 2000); swapped (l_month l); swapped (l_day l); swapped (l_hour l); swapped (l_min l); swapped (l_sec l);
   zone_octet (l_west l) (l_quarters l)].

(** Seconds since 1970 in UTC. *)
Definition utc (l : local_time) : Z :=
  civil_days (l_year l) (l_month l) (l_day l) * 86400 + l_hour l * 3600 + l_min l * 60 + l_sec l +
  (if l_west l then 900 else -900) * l_quarters l.

Lemma month_days_range y m : 28 <= month_days y m <= 31.
Proof. unfold month_days. repeat case_match; lia. Qed.

Lemma scts_decodes l : local_ok l -> decode_scts_epoch (scts_octets l) = Ret (utc l).
Proof.
  intros (Hy & Hm & Hd & Hh & Hmi & Hs & Hq). pose proof (month_days_range (l_year l) (l_month l)).
  unfold decode_scts_epoch, scts_octets. cbn [length Nat.ltb Nat.leb index lookup list_lookup mbind outcome_bind]. cbv zeta.
  rewrite !pair_swapped by lia. destruct (zone_octet_reads (l_west l) (l_quarters l)) as [-> ->]; [done|].
  rewrite (proj2 (Z.ltb_ge _ _)) by (unfold MAX_SCTS_TZ_QUARTERS; lia). replace (2000 + (l_year l - 2000)) with (l_year l) by lia.
  rewrite days_from_epoch_civil by lia. f_equal. unfold utc. set (ds := civil_days _ _ _).
  assert (10957 <= ds <= 47482) as Hds.
  { subst ds. rewrite <- days_from_epoch_civil by lia. unfold days_from_epoch. cbv zeta. destruct (_ <=? 2) eqn:E; bool_hyps; lia. }
  destruct (l_west l); lia.
Qed.

(** Message time stamps become UTC: for every date and time of the century the
    field can express, with any offset up to fourteen hours either way, the
    octets the network writes decode to the seconds since 1970 that the
    Gregorian calendar gives, the offset taken off. *)
Theorem scts_is_utc l : local_ok l -> decode_scts_epoch (scts_octets l) = Ret (utc l).
Proof. apply scts_decodes. Qed.

(** 29 February 2024, 23:59:59 in Denver, seven hours west. *)
Lemma scts_is_utc_witness : decode_scts_epoch [66; 32; 146; 50; 149; 149; 138] = Ret 1709276399.
Proof. apply (scts_is_utc (mk_local 2024 2 29 23 59 59 true 28)). vm_compute. repeat split; discriminate || reflexivity. Defined.
(** ** Delivery

    The octets of an SMS-DELIVER (3GPP TS 23.040) whose user data is an optional
    header followed, at the next septet boundary, by a text. *)

Definition text_septets (text : list Z) : list Z := text ≫= gsm7.septets_of.
Definition header_of (es : option (list (Z * list Z))) : list Z := match es with Some es => udh.header es | None => [] end.
Definition text_start (es : option (list (Z * list Z))) : Z := udh.gsm7_udh_septets (Z.of_nat (length (header_of es))).
Definition user_data_len es text : Z := text_start es + Z.of_nat (length (text_septets text)).
Definition user_data es text : list Z :=
  gsm7.pack_from (header_of es ++ replicate (Z.to_nat (div_ceil (user_data_len es text * 7) 8) - length (header_of es)) 0)
    (text_start es) (text_septets text).

Definition deliver_pdu (smsc : list Z) (first_octet : Z) (address : list Z) (pid dcs : Z) (scts : list Z) (udl : Z) (ud : list Z) : list Z :=
  Z.of_nat (length smsc) :: smsc ++ first_octet :: address ++ pid :: dcs :: scts ++ udl :: ud.

Definition user_data_ok (es : option (list (Z * list Z))) (text : list Z) : Prop :=
  Forall gsm7.encodable text /\ user_data_len es text <= 160 /\ match es with Some es => udh.header_ok es | None => True end.

Lemma text_start_bounds es :
  8 * Z.of_nat (length (header_of es)) <= 7 * text_start es /\ 7 * text_start es < 8 * Z.of_nat (length (header_of es)) + 7.
Proof. unfold text_start, udh.gsm7_udh_septets, div_ceil. lia. Qed.

Lemma user_data_length es text : Z.of_nat (length (user_data es text)) = div_ceil (user_data_len es text * 7) 8.
Proof.
  unfold user_data. rewrite gsm7.length_pack_from, length_app, length_replicate. pose proof (text_start_bounds es).
  unfold user_data_len, div_ceil in *. lia.
Qed.

Lemma header_u8 es : match es with Some es => udh.header_ok es | None => True end -> Forall is_u8 (header_of es).
Proof. destruct es as [es|]; [|constructor]. intros [Hl Hu]. cbn. constructor; [unfold is_u8; lia|done]. Qed.

Lemma padding_clear es n p : 7 * text_start es <= p -> gsm7.bit_at 8 (header_of es ++ replicate n 0) p = false.
Proof.
  intros Hp. pose proof (text_start_bounds es). unfold gsm7.bit_at. rewrite lookup_app_r by lia.
  destruct (replicate n 0 !! _) as [b|] eqn:E; cbn; [apply lookup_replicate in E as [-> _]|]; apply Z.testbit_0_l.
Qed.

Lemma user_data_text es text :
  user_data_ok es text -> gsm7.decode_from (user_data es text) (text_start es) (user_data_len es text - text_start es) = Ok text.
Proof.
  intros (Ht & Hl & Hh). pose proof (text_start_bounds es). unfold user_data_len in *.
  replace (text_start es + _ - text_start es) with (Z.of_nat (length (text_septets text))) by lia.
  apply gsm7.packed_text_decodes; fold (text_septets text); [done|lia|lia| |..].
  - apply Forall_app. split; [by apply header_u8|apply gsm7.zeros_u8].
  - rewrite length_app, length_replicate. unfold user_data_len, div_ceil. lia.
  - intros p. apply padding_clear.
Qed.

Lemma user_data_header es text :
  user_data_ok es text -> exists rest, user_data es text = header_of es ++ rest.
Proof.
  intros (Ht & Hl & Hh). exists (drop (length (header_of es)) (user_data es text)).
  rewrite <- (take_drop (length (header_of es)) (user_data es text)) at 1. f_equal. apply list_eq. intros j.
  pose proof (text_start_bounds es). destruct (Nat.lt_ge_cases j (length (header_of es))) as [Hj|Hj].
  - rewrite lookup_take_lt by done. unfold user_data. unfold user_data_len in Hl. rewrite gsm7.pack_from_prefix by lia. by rewrite lookup_app_l.
  - rewrite lookup_take_ge by done. symmetry. by apply lookup_ge_None.
Qed.
(** What a delivered message is, from its protocol identifier and header. *)
Definition class_of (pid : Z) (es : option (list (Z * list Z))) : udh.MessageClass :=
  if decide (0x40 <= pid <= 0x47) then udh.Silent pid else
  match es ≫= udh.element_ports with
  | Some ports =>
      if decide (udh.destination ports = 2948 \/ udh.destination ports = 49999)
      then udh.WapPush (udh.destination ports) (udh.source ports) else udh.Normal
  | None => udh.Normal
  end.

Lemma classify_delivered first_octet pid es text :
  user_data_ok es text -> udh.has_udh first_octet = bool_decide (is_Some es) ->
  udh.classify first_octet pid (user_data es text) = class_of pid es.
Proof.
  intros Hok Hf. unfold udh.classify, class_of. rewrite Hf.
  assert (udh.is_silent_sms_pid pid = bool_decide (0x40 <= pid <= 0x47)) as ->.
  { unfold udh.is_silent_sms_pid, udh.PID_TYPE_0_SMS, udh.PID_SIM_TOOLKIT_UPPER. apply eq_true_iff_eq. rewrite bool_decide_eq_true. lia. }
  rewrite <- !decide_bool_decide. destruct (decide (0x40 <= pid <= 0x47)); [done|]. destruct es as [es|].
  - rewrite decide_True by done. destruct (user_data_header _ _ Hok) as [rest ->]. destruct Hok as (_ & _ & Hh). cbn [header_of].
    rewrite udh.parse_header by done. cbn [mbind option_bind]. destruct (udh.element_ports es) as [ports|]; [|done].
    assert (udh.is_wap_push_port (udh.destination ports) = bool_decide (udh.destination ports = 2948 \/ udh.destination ports = 49999)) as ->.
    { unfold udh.is_wap_push_port, udh.WAP_PUSH_PORT_OMA_CP, udh.WAP_PUSH_PORT_ALT. apply eq_true_iff_eq. rewrite bool_decide_eq_true. lia. }
    by rewrite <- decide_bool_decide.
  - rewrite decide_False by (by intros [? ?]). done.
Qed.

(** Reading on: the next octet, or the next octets, of a known remainder. *)
#[local] Ltac next_byte :=
  match goal with
  | Hr : cursor.remaining ?c = _ |- context [cursor.read_byte ?c] =>
      let c' := fresh "cur" in let Hc := fresh "Hc" in let Hr' := fresh "Hr" in
      destruct (cursor.read_byte_cons c _ _ ltac:(eassumption) Hr) as (c' & -> & Hc & Hr'); clear Hr
  end.
#[local] Ltac next_slice :=
  match goal with
  | Hr : cursor.remaining ?c = ?s ++ _ |- context [cursor.read_slice ?c _] =>
      let c' := fresh "cur" in let Hc := fresh "Hc" in let Hr' := fresh "Hr" in
      destruct (cursor.read_slice_app c _ _ ltac:(eassumption) Hr) as (c' & -> & Hc & Hr'); clear Hr
  end.


Lemma delivered_decodes smsc first_octet addr number pid l es text :
  Z.of_nat (length smsc) < 256 -> Z.land first_octet 0x03 = 0 -> udh.has_udh first_octet = bool_decide (is_Some es) ->
  encode_bcd_address number = Ok addr -> local_ok l -> user_data_ok es text ->
  handle_incoming (deliver_pdu smsc first_octet addr pid 0 (scts_octets l) (user_data_len es text) (user_data es text)) =
  Ret (Ok (mk_message (number ++ replicate (32 - length number) 0) (Z.of_nat (length number)) text (utc l) false (class_of pid es))).
Proof.
  intros Hsm Hf Hudh Haddr Hl Hud. pose proof (encode_bcd_address_cases number) as Ha. rewrite Haddr in Ha.
  destruct Ha as (toa & bcd & -> & Hbcd). apply bcd_address.address_decodes in Hbcd as (Hnd & Hds & Hu & Ht8 & Hlb & Hnum & Hdec).
  fold (digits_of number) in *. cbv zeta in *. unfold bcd_address.MAX_ADDRESS_DIGITS in *.
  assert (length number <= 21)%nat as Hn by (rewrite Hnum, length_app; destruct (_ =? _); cbn; lia).
  pose proof (user_data_length es text) as Hul. destruct (Hud) as (_ & Hdl & Hh). pose proof (text_start_bounds es) as Hts.
  assert (0 <= user_data_len es text) as Hd0 by (unfold user_data_len; lia).
  unfold handle_incoming. cbv zeta. set (pdu := deliver_pdu _ _ _ _ _ _ _ _).
  destruct (cursor.new_ok pdu) as [Hc0 Hr0].
  { subst pdu. unfold deliver_pdu. cbn [length]. repeat (rewrite length_app; cbn [length]). unfold div_ceil in *. cbn. lia. }
  unfold pdu at 2 in Hr0. unfold deliver_pdu in Hr0. cbn [app] in Hr0. set (c0 := cursor.new pdu) in *. clearbody c0.
  next_byte. next_slice. next_byte. rewrite Hf. cbn [negb Z.eqb]. next_byte. next_byte. cbn [app] in *.
  rewrite <- Hlb. next_slice. rewrite Hdec. unfold MAX_SENDER_LEN. rewrite Nat.min_l, copy_prefix_ret by (rewrite ?length_replicate; lia). cbn [mbind outcome_bind]. next_byte. next_byte. cbn [negb Z.eqb].
  change 7 with (Z.of_nat (length (scts_octets l))) at 1. next_slice. rewrite (scts_decodes l) by done. cbn [mbind outcome_bind].
  next_byte. rewrite (proj2 (Z.ltb_ge _ _)) by done. unfold sat32. rewrite Z.min_l by lia. rewrite <- Hul.
  match goal with Hr : cursor.remaining _ = user_data _ _ |- _ => rewrite <- (app_nil_r (user_data es text)) in Hr end. next_slice. rewrite classify_delivered by done.
  assert ((if udh.has_udh first_octet then
      gsm7.decode_from (user_data es text) (udh.gsm7_udh_septets (udh.udh_octet_len (user_data es text)))
        (Z.max 0 (user_data_len es text - udh.gsm7_udh_septets (udh.udh_octet_len (user_data es text))))
      else gsm7.decode (user_data es text) (user_data_len es text)) = Ok text) as ->.
  { rewrite Hudh. pose proof (user_data_text es text Hud) as Htext. destruct es as [es|].
    - rewrite bool_decide_eq_true_2 by done. destruct (user_data_header _ _ Hud) as [rest Hrest].
      assert (udh.gsm7_udh_septets (udh.udh_octet_len (user_data (Some es) text)) = text_start (Some es)) as ->
        by (rewrite Hrest; cbn [header_of]; rewrite udh.header_octet_len by done; done).
      rewrite Z.max_r by (unfold user_data_len; lia). done.
    - rewrite bool_decide_eq_false_2 by (by intros [? ?]). unfold gsm7.decode.
      change (text_start None) with 0 in Htext. by rewrite Z.sub_0_r in Htext. }
  unfold wrap8. rewrite Z.mod_small by lia. rewrite firstn_all, drop_replicate. done.
Qed.
(** C29: A message delivered in one part in the default alphabet is stored as it was
    sent. For any service-centre address, any sender number that can be written in
    an address field, any time stamp and any text in the alphabet that fits, with
    the user-data header before it if there is one, into 160 septets, and for the
    data coding octet 0, the decoder answers that sender, that text read from the
    septet boundary after the header, the time in UTC, unread, and marked as
    silent exactly for the protocol identifiers 0x40 to 0x47 and as a WAP push
    exactly when the header's first port element names a push port. *)
Theorem delivered_message_decoded smsc first_octet addr number pid l es text :
  Z.of_nat (length smsc) < 256 -> Z.land first_octet 0x03 = 0 -> udh.has_udh first_octet = bool_decide (is_Some es) ->
  encode_bcd_address number = Ok addr -> local_ok l -> user_data_ok es text ->
  handle_incoming (deliver_pdu smsc first_octet addr pid 0 (scts_octets l) (user_data_len es text) (user_data es text)) =
  Ret (Ok (mk_message (number ++ replicate (32 - length number) 0) (Z.of_nat (length number)) text (utc l) false (class_of pid es))).
Proof. apply delivered_decodes. Qed.

(** "Hi" behind a port header, from +12345. *)
Lemma delivered_message_decoded_witness :
  handle_incoming ([1; 0x91; 0x40; 5; 0x91; 33; 67; 245; 0; 0; 66; 32; 146; 50; 149; 149; 138; 10] ++
    [6; 5; 4; 11; 132; 0; 0; 200; 52]) =
  Ret (Ok (mk_message ([43; 49; 50; 51; 52; 53] ++ replicate 26 0) 6 [72; 105] 1709276399 false (udh.WapPush 2948 0))).
Proof.
  apply (delivered_message_decoded [0x91] 0x40 [5; 0x91; 33; 67; 245] [43; 49; 50; 51; 52; 53] 0
    (mk_local 2024 2 29 23 59 59 true 28) (Some [(5, [11; 132; 0; 0])]) [72; 105]).
  - reflexivity.
  - reflexivity.
  - reflexivity.
  - reflexivity.
  - vm_compute. repeat split; discriminate || reflexivity.
  - split_and!.
    + repeat constructor; eexists; reflexivity.
    + vm_compute. discriminate.
    + split; [vm_compute; reflexivity|].
      repeat (apply Forall_cons; split; [vm_compute; split; discriminate || reflexivity|]). by apply Forall_nil.
Defined.

(** ** Any bytes at all *)

(** A stored message: the sender is an optional sign and at most twenty digits,
    padded with zeros, and the body is at most 160 characters of the alphabet. *)
Definition in_alphabet (c : Z) : Prop := c ∈ gsm7.GSM_TO_UNICODE \/ c ∈ gsm7.EXT_TABLE.*2 \/ c = 32.
Definition message_ok (m : SmsMessage) : Prop :=
  (exists sign ds, sender m = sign ++ ds ++ replicate (32 - (length sign + length ds)) 0 /\
    sender_len m = Z.of_nat (length sign + length ds) /\ (sign = [] \/ sign = [bcd_address.PLUS]) /\
    (length ds <= 20)%nat /\ Forall is_digit ds) /\
  (length (body m) <= 160)%nat /\ Forall in_alphabet (body m) /\ is_u64 (timestamp m) /\ read m = false.

Lemma decode_loop_shape data : forall n i pending out s,
  gsm7.decode_loop data i n pending out = Ok s -> exists t, s = out ++ t /\ (length t <= n)%nat /\ Forall in_alphabet t.
Proof.
  induction n as [|n IH]; intros i pending out s; cbn [gsm7.decode_loop].
  { destruct pending; [done|]. intros [= <-]. exists []. rewrite app_nil_r. split_and!; [done|cbn; lia|constructor]. }
  destruct (gsm7.read_septet data i) as [septet|]; [|done].
  assert (forall c p, in_alphabet c -> gsm7.decode_loop data (wrap32 (i + 1)) n p (out ++ [c]) = Ok s ->
    exists t, s = out ++ t /\ (length t <= S n)%nat /\ Forall in_alphabet t) as Hpush.
  { intros c p Hc H. apply IH in H as (t & -> & Hl & Hf). exists (c :: t). rewrite <- app_assoc. split_and!; [done|cbn; lia|by constructor]. }
  destruct pending; [|destruct (septet =? gsm7.ESC_SEPTET)].
  - apply Hpush. unfold gsm7.ext_char, in_alphabet. destruct (List.find _ _) as [e|] eqn:E; [|by right; right].
    apply List.find_some in E as [E _]. right. left. apply list_elem_of_fmap. exists e. by rewrite list_elem_of_In.
  - intros H. apply IH in H as (t & -> & Hl & Hf). exists t. split_and!; [done|lia|done].
  - destruct (gsm7.GSM_TO_UNICODE !! Z.to_nat septet) as [c|] eqn:E; cbn [ok_or]; [|done]. apply Hpush. left. by eapply list_elem_of_lookup_2.
Qed.

Lemma decode_from_shape data i n s :
  n <= 160 -> gsm7.decode_from data i n = Ok s -> (length s <= 160)%nat /\ Forall in_alphabet s.
Proof.
  intros Hn. unfold gsm7.decode_from. destruct (n =? 0); [intros [= <-]; split; [cbn; lia|constructor]|].
  intros H. apply decode_loop_shape in H as (t & -> & Hl & Hf). cbn [app]. split; [lia|done].
Qed.

Lemma pair_range b : is_u8 b -> 0 <= pair b <= 165.
Proof.
  unfold pair, lo, hi, is_u8, wrap8. intros Hb. change 0x0F with (Z.ones 4). rewrite !Z.land_ones, Z.shiftr_div_pow2 by lia. lia.
Qed.

Lemma decode_scts_range scts : Forall is_u8 scts -> exists ts, decode_scts_epoch scts = Ret ts /\ is_u64 ts.
Proof.
  intros Hs. unfold decode_scts_epoch. destruct (_ <? _)%nat eqn:E; [exists 0; by split|]. bool_hyps.
  destruct scts as [|s0 [|s1 [|s2 [|s3 [|s4 [|s5 [|s6 scts]]]]]]]; cbn in E; try lia.
  cbn [index lookup list_lookup mbind outcome_bind]. cbv zeta. repeat (apply Forall_cons in Hs as [? Hs]).
  pose proof (pair_range s0 ltac:(done)). pose proof (pair_range s1 ltac:(done)). pose proof (pair_range s2 ltac:(done)).
  pose proof (pair_range s3 ltac:(done)). pose proof (pair_range s4 ltac:(done)). pose proof (pair_range s5 ltac:(done)).
  set (q := wrap8 _). assert (0 <= q < 256) as Hq by (apply Z.mod_pos_bound; lia).
  assert (0 <= days_from_epoch (2000 + pair s0) (pair s1) (pair s2) < 2 ^ 20) as Hd.
  { unfold days_from_epoch. cbv zeta. destruct (_ <=? 2) eqn:E1; bool_hyps; lia. }
  unfold is_u64. destruct (_ <? q) eqn:Eq; [eexists; split; [done|lia]|]. bool_hyps. unfold MAX_SCTS_TZ_QUARTERS in *.
  destruct (negb _); eexists; (split; [done|lia]).
Qed.
(** A read that fails ends the decoding with an error; one that succeeds hands
    over bytes. *)
Definition good_cursor (c : cursor.Cursor) : Prop := cursor.cursor_ok c /\ Forall is_u8 (cursor.remaining c).

Lemma read_byte_good c b c' : good_cursor c -> cursor.read_byte c = Ok (b, c') -> is_u8 b /\ good_cursor c'.
Proof. intros [Hc Hf] H. apply cursor.read_byte_inv in H as [Hc' Hr]; [|done]. rewrite Hr in Hf. apply Forall_cons in Hf as [? ?]. by split. Qed.

Lemma read_slice_good c n s c' : good_cursor c -> 0 <= n -> cursor.read_slice c n = Ok (s, c') -> Forall is_u8 s /\ good_cursor c'.
Proof. intros [Hc Hf] Hn H. apply cursor.read_slice_inv in H as (Hc' & _ & Hr); [|done|done]. rewrite Hr in Hf. apply Forall_app in Hf as [? ?]. by split. Qed.

#[local] Ltac fails := eexists; split; [reflexivity|]; intros; discriminate.
#[local] Ltac try_byte :=
  match goal with
  | Hg : good_cursor ?c |- context [cursor.read_byte ?c] =>
      let E := fresh in let b := fresh "b" in let c' := fresh "cur" in let Hb := fresh "Hb" in let Hg' := fresh "Hg" in
      destruct (cursor.read_byte c) as [[b c']|] eqn:E; [|fails]; destruct (read_byte_good _ _ _ Hg E) as [Hb Hg']; clear E Hg
  end.
#[local] Ltac try_slice :=
  match goal with
  | Hg : good_cursor ?c |- context [cursor.read_slice ?c ?n] =>
      let E := fresh in let s := fresh "s" in let c' := fresh "cur" in let Hs := fresh "Hs" in let Hg' := fresh "Hg" in
      let Hn := fresh in assert (0 <= n) as Hn by (unfold is_u8, div_ceil, sat32 in *; lia);
      destruct (cursor.read_slice c n) as [[s c']|] eqn:E; [|fails]; destruct (read_slice_good _ _ _ _ Hg Hn E) as [Hs Hg']; clear E Hg Hn
  end.

(** C30: Whatever bytes the modem hands over as a message, decoding them ends without a
    panic, in an error or in a well-formed message: a sender of an optional
    sign and at most twenty digits in its zero-padded array, at most 160
    characters of the alphabet, a 64-bit time, unread. *)
Theorem handle_incoming_well_formed pdu :
  Forall is_u8 pdu -> Z.of_nat (length pdu) < 2 ^ 31 ->
  exists r, handle_incoming pdu = Ret r /\ forall m, r = Ok m -> message_ok m.
Proof.
  intros Hu Hl. unfold handle_incoming. cbv zeta.
  assert (good_cursor (cursor.new pdu)) as Hg by (destruct (cursor.new_ok pdu Hl); by split). set (c0 := cursor.new pdu) in *. clearbody c0.
  try_byte. try_slice. try_byte. destruct (negb _); [fails|]. try_byte. try_byte. try_slice.
  destruct (bcd_address.decode_bcd_address _ _ _) as [number|] eqn:Ea; [|fails].
  apply bcd_address.decoded_address_shape in Ea as (ds & -> & Hds & Hlen & Hdig). specialize (Hdig ltac:(done)).
  set (sign := if _ =? _ then _ else _). assert (sign = [] \/ sign = [bcd_address.PLUS]) as Hsign by (subst sign; destruct (_ =? _); auto). clearbody sign.
  assert (length sign <= 1)%nat by (by destruct Hsign as [->| ->]; cbn; lia). unfold bcd_address.MAX_ADDRESS_DIGITS in *.
  assert (length ds <= 20)%nat by lia. unfold MAX_SENDER_LEN. rewrite Nat.min_l by (rewrite length_app; lia).
  rewrite copy_prefix_ret by (rewrite ?length_replicate, ?length_app; lia). cbn [mbind outcome_bind].
  rewrite firstn_all, drop_replicate. try_byte. try_byte. destruct (negb _); [fails|]. try_slice.
  destruct (decode_scts_range _ ltac:(eassumption)) as (ts & -> & Hts). cbn [mbind outcome_bind]. try_byte.
  destruct (_ <? _) eqn:Eu; [fails|]. bool_hyps. unfold MAX_SINGLE_SEGMENT_SEPTETS in Eu. try_slice.
  match goal with |- context [match ?d with Ok _ => _ | Err _ => _ end] => destruct d as [txt|] eqn:Et; [|fails] end.
  eexists. split; [reflexivity|]. intros m [= <-].
  assert ((length txt <= 160)%nat /\ Forall in_alphabet txt) as [Htl Hta].
  { destruct (udh.has_udh _); [|by apply decode_from_shape in Et]. apply decode_from_shape in Et; [done|].
    unfold udh.gsm7_udh_septets, udh.udh_octet_len, div_ceil, is_u8 in *. 
    match goal with |- Z.max 0 (?a - ?b) <= _ => assert (0 <= b); [|lia] end.
    apply Z.div_pos; [|lia]. assert (0 <= default 0 (s2 !! 0%nat)); [|lia].
    destruct (s2 !! 0%nat) as [x|] eqn:Ex; cbn; [|lia]. eapply Forall_lookup_1 in Ex; [|eassumption]. cbn in Ex. lia. }
  unfold message_ok. cbn. split_and!; try done. exists sign, ds. rewrite length_app, app_assoc. split_and!; [done| |done|done|done].
  unfold wrap8. rewrite Z.mod_small by lia. lia.
Qed.

(** "Hi" behind a port header, from +12345: decoded, and well formed. *)
Definition hi_pdu : list Z :=
  [1; 0x91; 0x40; 5; 0x91; 33; 67; 245; 0; 0; 66; 32; 146; 50; 149; 149; 138; 10] ++ [6; 5; 4; 11; 132; 0; 0; 200; 52].

Lemma handle_incoming_well_formed_witness : exists m, handle_incoming hi_pdu = Ret (Ok m) /\ message_ok m.
Proof.
  destruct (handle_incoming_well_formed hi_pdu) as (r & H & Hm).
  - unfold hi_pdu. cbn [app]. repeat (apply Forall_cons; split; [vm_compute; split; discriminate || reflexivity|]). by apply Forall_nil.
  - reflexivity.
  - destruct r as [m|e]; [exists m; split; [exact H|exact (Hm m eq_refl)]|]. exfalso.
    assert (match handle_incoming hi_pdu with Ret (Ok _) => True | _ => False end) as Hok by (vm_compute; exact I). by rewrite H in Hok.
Defined.
(** A silent message in any coding other than the default alphabet leaves no trace:
    the decoder gives up at the coding octet, before the classification that
    would have marked it, whatever its sender, time and content. *)
Theorem silent_message_of_other_coding_lost smsc first_octet addr number pid dcs scts udl ud :
  Z.of_nat (length smsc) < 256 -> Z.of_nat (length (scts ++ ud)) < 2 ^ 30 -> Z.land first_octet 0x03 = 0 ->
  encode_bcd_address number = Ok addr -> 0x40 <= pid <= 0x47 -> dcs <> 0 ->
  udh.classify first_octet pid ud = udh.Silent pid /\
  handle_incoming (deliver_pdu smsc first_octet addr pid dcs scts udl ud) = Ret (Err (UnsupportedDcs dcs)).
Proof.
  intros Hsm Hlen Hf Haddr Hpid Hdcs. split.
  { unfold udh.classify, udh.is_silent_sms_pid, udh.PID_TYPE_0_SMS, udh.PID_SIM_TOOLKIT_UPPER.
    by rewrite (proj2 (Z.leb_le _ _)), (proj2 (Z.ltb_lt _ _)) by lia. }
  pose proof (encode_bcd_address_cases number) as Ha. rewrite Haddr in Ha. destruct Ha as (toa & bcd & -> & Hbcd).
  apply bcd_address.address_decodes in Hbcd as (Hnd & Hds & Hu & Ht8 & Hlb & Hnum & Hdec). fold (digits_of number) in *. cbv zeta in *.
  unfold bcd_address.MAX_ADDRESS_DIGITS in *.
  assert (length number <= 21)%nat as Hn by (rewrite Hnum, length_app; destruct (_ =? _); cbn; lia).
  unfold handle_incoming. cbv zeta. set (pdu := deliver_pdu _ _ _ _ _ _ _ _). destruct (cursor.new_ok pdu) as [Hc0 Hr0].
  { subst pdu. unfold deliver_pdu. cbn [length]. rewrite length_app in Hlen. repeat (rewrite length_app; cbn [length]). unfold div_ceil in *. lia. }
  unfold pdu at 2 in Hr0. unfold deliver_pdu in Hr0. cbn [app] in Hr0. set (c0 := cursor.new pdu) in *. clearbody c0.
  next_byte. next_slice. next_byte. rewrite Hf. cbn [negb Z.eqb]. next_byte. next_byte. cbn [app] in *.
  rewrite <- Hlb. next_slice. rewrite Hdec. unfold MAX_SENDER_LEN. rewrite Nat.min_l, copy_prefix_ret by (rewrite ?length_replicate; lia). cbn [mbind outcome_bind]. next_byte. next_byte.
  by rewrite (proj2 (Z.eqb_neq _ _) Hdcs).
Qed.

(** A Type 0 message in UCS-2. *)
Lemma silent_message_of_other_coding_lost_witness :
  udh.classify 0 0x40 [0; 72] = udh.Silent 0x40 /\
  handle_incoming ([0; 0; 5; 0x91; 33; 67; 245; 0x40; 8; 66; 32; 146; 50; 149; 149; 138; 2] ++ [0; 72]) = Ret (Err (UnsupportedDcs 8)).
Proof.
  apply (silent_message_of_other_coding_lost [] 0 [5; 0x91; 33; 67; 245] [43; 49; 50; 51; 52; 53] 0x40 8
    [66; 32; 146; 50; 149; 149; 138] 2 [0; 72]); try reflexivity; try discriminate. split; discriminate.
Defined.

(** ** The inbox *)

Inductive inbox_op := Receive (m : SmsMessage) | MarkRead (i : nat) | Delete (i : nat).

Definition inbox_step (inbox : list SmsMessage) (o : inbox_op) : list SmsMessage :=
  match o with
  | Receive m => snd (receive m inbox)
  | MarkRead i => mark_read i inbox
  | Delete i => delete_message i inbox
  end.

Lemma inbox_step_bounded inbox o : (length inbox <= MAX_INBOX_MESSAGES)%nat -> (length (inbox_step inbox o) <= MAX_INBOX_MESSAGES)%nat.
Proof.
  intros Hl. destruct o as [m|i|i]; cbn [inbox_step].
  - unfold receive. cbv zeta. cbn [snd]. rewrite length_app. cbn [length]. destruct (_ <=? _)%nat eqn:E; bool_hyps; [|lia].
    rewrite length_delete; [|apply lookup_lt_is_Some]; unfold MAX_INBOX_MESSAGES in *; lia.
  - unfold mark_read. by rewrite length_alter.
  - unfold delete_message. destruct (_ <? _)%nat eqn:E; bool_hyps; [|done]. rewrite length_delete by (by apply lookup_lt_is_Some). lia.
Qed.

(** Receiving keeps the latest 256 messages, in order. *)
Lemma receive_keeps_latest m inbox :
  (length inbox <= MAX_INBOX_MESSAGES)%nat ->
  receive m inbox = (if decide (length inbox = MAX_INBOX_MESSAGES) then Err InboxOverflow else Ok tt,
                     drop (length (inbox ++ [m]) - MAX_INBOX_MESSAGES) (inbox ++ [m])).
Proof.
  intros Hl. unfold receive. cbv zeta. rewrite length_app. cbn [length]. destruct (_ <=? _)%nat eqn:E; bool_hyps.
  - rewrite decide_True by lia. replace (length inbox + 1 - MAX_INBOX_MESSAGES)%nat with 1%nat by lia.
    destruct inbox; [unfold MAX_INBOX_MESSAGES in *; cbn in E; lia|done].
  - rewrite decide_False by lia. by replace (length inbox + 1 - MAX_INBOX_MESSAGES)%nat with 0%nat by lia.
Qed.

Lemma drop_drop_latest {A} (a b : list A) k :
  drop (length (drop (length a - k) a ++ b) - k) (drop (length a - k) a ++ b) = drop (length (a ++ b) - k) (a ++ b).
Proof.
  rewrite !length_app, length_drop. destruct (Nat.le_gt_cases (length a) k).
  - replace (length a - k)%nat with 0%nat by lia. rewrite drop_0. f_equal. lia.
  - rewrite <- drop_app_le, drop_drop by lia. f_equal. lia.
Qed.

(** The inbox is a bounded queue: under any receipts, reads and deletions it
    never holds more than 256 messages, and a run of receipts leaves exactly
    the latest 256 of what was there and what arrived, in order. *)
Theorem inbox_keeps_latest ops ms :
  let inbox := foldl inbox_step [] ops in
  let after := foldl inbox_step inbox (Receive <$> ms) in
  (length inbox <= 256)%nat /\ after = drop (length (inbox ++ ms) - 256) (inbox ++ ms).
Proof.
  cbv zeta. assert (length (foldl inbox_step [] ops) <= MAX_INBOX_MESSAGES)%nat as Hl.
  { assert (forall start, (length start <= MAX_INBOX_MESSAGES)%nat -> (length (foldl inbox_step start ops) <= MAX_INBOX_MESSAGES)%nat) as H.
    { induction ops as [|o ops IH]; intros start Hs; cbn; [done|]. by apply IH, inbox_step_bounded. }
    apply H. cbn. lia. }
  set (inbox := foldl inbox_step [] ops) in *. clearbody inbox. split; [done|]. revert inbox Hl.
  induction ms as [|m ms IH]; intros inbox Hl.
  { cbn. rewrite app_nil_r. unfold MAX_INBOX_MESSAGES in Hl. by replace (length inbox - 256)%nat with 0%nat by lia. }
  cbn [fmap list_fmap foldl inbox_step]. rewrite IH by (by apply (inbox_step_bounded _ (Receive m))).
  rewrite receive_keeps_latest by done. cbn [snd]. unfold MAX_INBOX_MESSAGES. rewrite drop_drop_latest, <- !app_assoc. done.
Qed.
(** ** The dialogue, as the modem sees it *)

Inductive event := Sent (command : list Z) | Line (l : list Z) | NoLine.

#[export] Instance event_eq_dec : EqDecision event.
Proof. solve_decision. Defined.

(** The [AT+CMGS] command for a TPDU length: the prefix and its decimal digits. *)
Definition cmgs_for (tpdu_len : Z) (command : list Z) : Prop :=
  exists ds, command = CMGS_PREFIX ++ ds /\ at_response.parse_decimal_u32 ds = Some tpdu_len.

Lemma cmgs_command len :
  0 <= len <= 160 -> exists buf n, write_cmgs_command (replicate 32 0) len = Ret (buf, n) /\ (n <= length buf)%nat /\
    cmgs_for len (take n buf) /\ 26 ∉ take n buf.
Proof.
  intros Hlen. assert (forallb (fun k => match write_cmgs_command (replicate 32 0) k with
    | Ret (buf, n) => (n <=? length buf)%nat && bool_decide (take 8 (take n buf) = CMGS_PREFIX) &&
        bool_decide (at_response.parse_decimal_u32 (drop 8 (take n buf)) = Some k) && negb (existsb (Z.eqb 26) (take n buf))
    | Panic => false end) (seqZ 0 161) = true) as H by (vm_compute; reflexivity).
  rewrite forallb_forall in H. specialize (H len ltac:(apply list_elem_of_In, elem_of_seqZ; lia)). cbv beta in H.
  destruct (write_cmgs_command _ _) as [[buf n]|]; [|done]. bool_hyps. exists buf, n. split_and!; [done|done| |].
  - exists (drop 8 (take n buf)). repeat match goal with H : bool_decide _ = true |- _ => apply bool_decide_eq_true in H end.
    split; [|done]. match goal with H : take 8 _ = _ |- _ => rewrite <- H end. by rewrite take_drop.
  - intros Hin%list_elem_of_In. assert (existsb (Z.eqb 26) (take n buf) = true) by (apply existsb_exists; exists 26; by split). congruence.
Qed.

Lemma submit_pdu_len number text pdu_hex len :
  encode_submit_pdu number text = Ok (pdu_hex, len) -> 0 <= len <= 160.
Proof.
  unfold encode_submit_pdu. destruct (gsm7.count_septets text) as [n|] eqn:Ec; [|done]. destruct (_ <? n) eqn:El; [done|]. bool_hyps.
  pose proof (encode_bcd_address_cases number) as Ha. destruct (encode_bcd_address number) as [addr|]; [|done].
  destruct Ha as (toa & bcd & -> & Hbcd). apply bcd_address.address_decodes in Hbcd as (Hnd & _ & _ & _ & Hlb & _).
  destruct (gsm7.encode text) as [packed|] eqn:Ee; [|done]. unfold MAX_GSM7_SEPTETS, bcd_address.MAX_ADDRESS_DIGITS in *.
  destruct (gsm7.encode_decodes text packed n Ee Ec) as (Hl & _ & _); [lia|]. cbv zeta. intros [= _ <-].
  repeat first [rewrite length_app | progress cbn [length app]]. unfold div_ceil in *. lia.
Qed.

Section log.
Context {T : Type} `{HL : ModemTransportLaws T}.

(** Any transport, with the events on it recorded. *)
#[local] Instance logged : ModemTransport (T * list event) := {|
  send_at t command := let '(t', r) := send_at t.1 command in ((t', t.2 ++ [Sent command]), r);
  recv_line t buf timeout :=
    let '(t', buf', r) := recv_line t.1 buf timeout in
    ((t', t.2 ++ [match r with Ok n => Line (take n buf') | Err _ => NoLine end]), buf', r);
|}.

Lemma wait_for_log {X} (decides : list Z -> option X) timeout n : forall t log buf, length buf = MAX_LINE_LEN ->
  exists t' buf' ls r, wait_for decides timeout n (t, log) buf = Ret ((t', log ++ (Line <$> ls) ++ r.1), buf', r.2) /\
    length buf' = MAX_LINE_LEN /\ (length ls + length r.1 <= n)%nat /\ Forall (fun l => decides l = None) ls /\
    match r.2 with
    | Ok (Some x) => exists l, r.1 = [Line l] /\ decides l = Some x
    | Ok None => r.1 = []
    | Err e => e = TransportError /\ r.1 = [NoLine]
    end.
Proof using HL.
  induction n as [|n IH]; intros t log buf Hb; cbn [wait_for].
  { exists t, buf, [], ([], Ok None). cbn. rewrite app_nil_r. split_and!; [done|done|lia|constructor|done]. }
  cbn [recv_line logged fst snd]. pose proof (recv_line_buf t buf timeout) as Hlb. pose proof (recv_line_fits t buf timeout) as Hfit.
  destruct (recv_line t buf timeout) as [[t' buf'] r]. cbn [fst snd] in *. destruct r as [k|e].
  2: { exists t', buf', [], ([NoLine], Err TransportError). cbn. split_and!; [done|lia|lia|constructor|done|done]. }
  rewrite (proj2 (Nat.ltb_ge _ _)) by (rewrite Hlb; by apply Hfit). destruct (decides (take k buf')) as [x|] eqn:Ed.
  { exists t', buf', [], ([Line (take k buf')], Ok (Some x)). cbn. split_and!; [done|lia|lia|constructor|by eexists]. }
  destruct (IH t' (log ++ [Line (take k buf')]) buf' ltac:(lia)) as (t'' & buf'' & ls & r & -> & Hlb' & Hn & Hq & Hr).
  exists t'', buf'', (take k buf' :: ls), r. rewrite <- app_assoc. split_and!; [done|done|cbn; lia|by constructor|done].
Qed.

Definition quiet (l : list Z) : Prop := parse_final_result l = None.

(** Mode set and acknowledged, length announced, prompt received. *)
Definition handshake (tpdu_len : Z) (log : list event) : Prop :=
  exists command ls1 ls2 prompt, cmgs_for tpdu_len command /\ Forall quiet ls1 /\ Forall quiet ls2 /\ head prompt = Some 62 /\
    log = Sent CMGF_COMMAND :: (Line <$> ls1) ++ [Line at_response.OK; Sent command] ++ (Line <$> ls2) ++ [Line prompt].

Lemma final_verdict_quiet l : final_verdict l = None -> quiet l.
Proof. unfold final_verdict, quiet. by destruct (parse_final_result l). Qed.

Lemma final_verdict_ok l : final_verdict l = Some (Ok tt) <-> l = at_response.OK.
Proof.
  rewrite <- at_response.final_ok_iff. unfold final_verdict, parse_final_result.
  destruct (at_response.parse_final_result l) as [[]|]; cbn; split; intros Hv; simplify_eq; done.
Qed.

Lemma prompt_verdict_quiet l : prompt_verdict l = None -> quiet l.
Proof. unfold prompt_verdict, quiet. case_bool_decide; [done|]. by destruct (parse_final_result l). Qed.

Lemma prompt_verdict_ok l : prompt_verdict l = Some (Ok tt) -> head l = Some 62.
Proof. unfold prompt_verdict. case_bool_decide; [by destruct l|]. by destruct (parse_final_result l) as [[]|]. Qed.
(** What one call of [send] leaves in the log. *)
Definition send_spec (pdu_hex : list Z) (tpdu_len : Z) (log : list event) (r : result unit SmsError) : Prop :=
  (Sent (pdu_hex ++ [26]) ∈ log -> exists before after, handshake tpdu_len before /\ log = before ++ Sent (pdu_hex ++ [26]) :: after) /\
  (r = Ok tt <-> Sent (pdu_hex ++ [26]) ∈ log /\ last log = Some (Line at_response.OK)) /\
  (forall code, r = Err (CmsError code) -> exists l, last log = Some (Line l) /\ parse_final_result l = Some (AtCmsError code)) /\
  (length log <= 67)%nat.

Lemma not_sent (pdu : list Z) (ls : list (list Z)) : Sent pdu ∉ Line <$> ls.
Proof. rewrite list_elem_of_fmap. by intros (l & ? & _). Qed.

Lemma no_substitute (pdu_hex command : list Z) : 26 ∉ command -> Sent (pdu_hex ++ [26]) <> Sent command.
Proof. intros Hc [= <-]. apply Hc. apply elem_of_app. right. by apply list_elem_of_singleton. Qed.

(** A failure before the PDU went out. *)
Lemma early_failure pdu_hex tpdu_len log e :
  Sent (pdu_hex ++ [26]) ∉ log -> (length log <= 67)%nat ->
  (forall code, e = CmsError code -> exists l, last log = Some (Line l) /\ parse_final_result l = Some (AtCmsError code)) ->
  send_spec pdu_hex tpdu_len log (Err e).
Proof. intros Hn Hl Hc. split_and!; [done|split; [done|by intros [? _]]|intros code [= ->]; by apply Hc|done]. Qed.

Lemma verdict_cms (l : list Z) code :
  final_verdict l = Some (Err (CmsError code)) \/ prompt_verdict l = Some (Err (CmsError code)) ->
  parse_final_result l = Some (AtCmsError code).
Proof.
  unfold final_verdict, prompt_verdict. intros [Hv|Hv]; [|revert Hv; case_bool_decide; [done|intros Hv]];
    destruct (parse_final_result l) as [[]|]; simplify_eq/=; done.
Qed.
Lemma last_heard (log : list event) (ls : list (list Z)) l : last (log ++ (Line <$> ls) ++ [Line l]) = Some (Line l).
Proof. by rewrite app_assoc, last_snoc. Qed.

(** The last exchange, once the PDU is out. *)
Lemma after_pdu pdu_hex tpdu_len before t buf :
  handshake tpdu_len before -> (length before <= 34)%nat -> length buf = MAX_LINE_LEN ->
  exists t' buf' log r, wait_for final_verdict 10000 32 (t, before ++ [Sent (pdu_hex ++ [26])]) buf = Ret ((t', log), buf', r) /\
    send_spec pdu_hex tpdu_len log (match r with Err e => Err e | Ok (Some v) => v | Ok None => Err TransportError end).
Proof using HL.
  intros Hh Hlen Hb. destruct (wait_for_log final_verdict 10000 32 t (before ++ [Sent (pdu_hex ++ [26])]) buf Hb)
    as (t' & buf' & ls & [tl r] & -> & _ & Hn & Hq & Hr). cbn [fst snd] in *. eexists _, _, _, _. split; [reflexivity|].
  assert (Sent (pdu_hex ++ [26]) ∈ (before ++ [Sent (pdu_hex ++ [26])]) ++ (Line <$> ls) ++ tl) as Hin
    by (apply elem_of_app; left; apply elem_of_app; right; by apply list_elem_of_singleton).
  assert (forall v : result unit SmsError,
    (v = Ok tt <-> last ((before ++ [Sent (pdu_hex ++ [26])]) ++ (Line <$> ls) ++ tl) = Some (Line at_response.OK)) ->
    (forall code, v = Err (CmsError code) -> exists l, tl = [Line l] /\ parse_final_result l = Some (AtCmsError code)) ->
    send_spec pdu_hex tpdu_len ((before ++ [Sent (pdu_hex ++ [26])]) ++ (Line <$> ls) ++ tl) v) as Hspec.
  { intros v Hok Hcms. split_and!.
    - intros _. exists before, ((Line <$> ls) ++ tl). split; [done|]. by rewrite <- app_assoc.
    - rewrite Hok. by split; [|intros [_ ?]].
    - intros code Hv. destruct (Hcms code Hv) as (l & -> & ?). exists l. split; [apply last_heard|done].
    - rewrite !length_app, length_fmap. cbn [length]. lia. }
  destruct r as [[v|]|e]; apply Hspec.
  - destruct Hr as (l & -> & Hv). rewrite last_heard. rewrite <- (inj_iff Some), <- Hv, final_verdict_ok. split; [by intros ->|by intros [= ->]].
  - intros code ->. destruct Hr as (l & -> & Hv). exists l. split; [done|]. apply verdict_cms. by left.
  - subst tl. rewrite app_nil_r. split; [done|]. intros Hl. exfalso. destruct ls as [|l ls _] using rev_ind; [by rewrite app_nil_r, last_snoc in Hl|].
    rewrite fmap_app in Hl. cbn in Hl. rewrite app_assoc, last_snoc in Hl. injection Hl as ->. apply Forall_app in Hq as [_ Hq].
    apply Forall_cons in Hq as [Hq _]. by vm_compute in Hq.
  - done.
  - destruct Hr as [-> ->]. rewrite app_assoc, last_snoc. done.
  - destruct Hr as [-> _]. done.
Qed.

Lemma mode_command_plain : 26 ∉ CMGF_COMMAND.
Proof. rewrite list_elem_of_In. cbn. lia. Qed.

#[local] Ltac unheard :=
  repeat first [rewrite elem_of_app | rewrite list_elem_of_singleton | rewrite elem_of_cons]; intros Hin;
  repeat match goal with Hin : _ \/ _ |- _ => destruct Hin as [Hin|Hin] end; subst;
  try (exact (not_sent _ _ Hin)); try (revert Hin; apply no_substitute; first [assumption | apply mode_command_plain]); try done; try (by apply not_elem_of_nil in Hin).

(** From the announcement on. *)
Lemma after_mode pdu_hex tpdu_len t1 buf ls1 :
  0 <= tpdu_len <= 160 -> Forall quiet ls1 -> (length ls1 < 16)%nat -> length buf = MAX_LINE_LEN ->
  exists t' log' r, announce (t1, Sent CMGF_COMMAND :: (Line <$> ls1) ++ [Line at_response.OK]) buf pdu_hex tpdu_len = Ret ((t', log'), r) /\
    send_spec pdu_hex tpdu_len log' r.
Proof using HL.
  intros Hlen Hq1 Hl1 Hb. set (log := Sent CMGF_COMMAND :: _). unfold announce. destruct (cmgs_command tpdu_len Hlen) as (cb & n & -> & Hn & Hcmd & H26).
  cbn [mbind outcome_bind]. rewrite (proj2 (Nat.ltb_ge _ _)) by lia. set (command := take n cb) in *.
  cbn [send_at logged fst snd]. destruct (send_at t1 command) as [t2 r2]. destruct r2; cbn [is_ok negb].
  2: { eexists _, _, _. split; [reflexivity|]. apply early_failure; [subst log; unheard|subst log; cbn; rewrite !length_app, length_fmap; cbn; lia|done]. }
  destruct (wait_for_log prompt_verdict 5000 16 t2 (log ++ [Sent command]) buf Hb) as (t3 & buf3 & ls2 & [tl r3] & -> & Hb3 & Hn2 & Hq2 & Hr3).
  cbn [fst snd mbind outcome_bind] in *. assert (Forall quiet ls2) as Hq2' by (eapply Forall_impl; [done|]; intros; by apply prompt_verdict_quiet).
  assert (length log <= 17)%nat as Hlog by (subst log; cbn; rewrite length_app, length_fmap; cbn; lia).
  assert (Sent (pdu_hex ++ [26]) ∉ tl -> Sent (pdu_hex ++ [26]) ∉ (log ++ [Sent command]) ++ (Line <$> ls2) ++ tl) as Hnot by (intros Htl; subst log; unheard).
  assert (length ((log ++ [Sent command]) ++ (Line <$> ls2) ++ tl) <= 67)%nat as Hl by (rewrite !length_app, length_fmap; cbn [length]; lia).
  destruct r3 as [[[[]|e]|]|e].
  - destruct Hr3 as (l & -> & Hl3). apply prompt_verdict_ok in Hl3.
    assert (handshake tpdu_len ((log ++ [Sent command]) ++ (Line <$> ls2) ++ [Line l])) as Hh.
    { exists command, ls1, ls2, l. split_and!; try done. subst log. cbn. by rewrite <- !app_assoc. }
    assert (length ((log ++ [Sent command]) ++ (Line <$> ls2) ++ [Line l]) <= 34)%nat as Hl34 by (rewrite !length_app, length_fmap; cbn [length] in *; lia).
    set (before := (log ++ [Sent command]) ++ (Line <$> ls2) ++ [Line l]) in *. clearbody before.
    destruct (send_at t3 (pdu_hex ++ [26])) as [t4 r4]. destruct r4; cbn [is_ok negb].
    + destruct (after_pdu pdu_hex tpdu_len before t4 buf3 Hh Hl34 Hb3) as (t' & buf' & log' & r & -> & Hs). eexists _, _, _. split; [reflexivity|]. done.
    + eexists _, _, _. split; [reflexivity|]. split_and!.
      * intros _. exists before, []. done.
      * split; [done|]. intros [_ Hx]. by rewrite last_snoc in Hx.
      * done.
      * rewrite length_app. cbn. lia.
  - destruct Hr3 as (l & -> & Hl3). eexists _, _, _. split; [reflexivity|]. apply early_failure; [apply Hnot; unheard|done|].
    intros code ->. exists l. split; [apply last_heard|]. apply verdict_cms. by right.
  - subst tl. eexists _, _, _. split; [reflexivity|]. apply early_failure; [apply Hnot; unheard|done|done].
  - destruct Hr3 as [-> ->]. eexists _, _, _. split; [reflexivity|]. apply early_failure; [apply Hnot; unheard|done|done].
Qed.
(** Submitting a message follows the modem's protocol, on any transport. A
    message that cannot be encoded never reaches the modem. Otherwise the PDU
    goes out only after the modem acknowledged PDU mode with the line [OK], the
    length announced by [AT+CMGS] is the TPDU's, and the modem prompted for
    it; the call reports success exactly when the PDU went out and the last
    thing heard was [OK]; a CMS error is reported only as the modem's last
    line gave it; and the dialogue never panics and never exceeds 67 steps. *)
Theorem send_follows_dialogue (t : T) number text :
  exists t' log r, send (T := T * list event) (t, []) number text = Ret ((t', log), r) /\
    match encode_submit_pdu number text with
    | Err e => log = [] /\ r = Err e
    | Ok (pdu_hex, tpdu_len) => send_spec pdu_hex tpdu_len log r
    end.
Proof using HL.
  unfold send. destruct (encode_submit_pdu number text) as [[pdu_hex tpdu_len]|e] eqn:Ee; [|by eexists _, _, _].
  apply submit_pdu_len in Ee. cbn [send_at logged fst snd]. destruct (send_at t CMGF_COMMAND) as [t1 r1]. destruct r1; cbn [is_ok negb].
  2: { eexists _, _, _. split; [reflexivity|]. apply early_failure; [cbn [app]; unheard|cbn; lia|done]. }
  destruct (wait_for_log final_verdict 2000 16 t1 ([] ++ [Sent CMGF_COMMAND]) (replicate MAX_LINE_LEN 0) ltac:(by rewrite length_replicate))
    as (t2 & buf & ls1 & [tl r2] & -> & Hb & Hn & Hq & Hr). cbn [fst snd mbind outcome_bind app] in *.
  assert (Forall quiet ls1) as Hq1 by (eapply Forall_impl; [done|]; intros; by apply final_verdict_quiet).
  assert (Sent (pdu_hex ++ [26]) ∉ tl -> Sent (pdu_hex ++ [26]) ∉ Sent CMGF_COMMAND :: (Line <$> ls1) ++ tl) as Hnot by (intros Htl; unheard).
  assert (length (Sent CMGF_COMMAND :: (Line <$> ls1) ++ tl) <= 67)%nat as Hl by (cbn [length]; rewrite length_app, length_fmap; lia).
  destruct r2 as [[[[]|e]|]|e].
  - destruct Hr as (l & -> & Hl1). apply final_verdict_ok in Hl1 as ->. cbn [length] in Hn. apply after_mode; [done|done|lia|done].
  - destruct Hr as (l & -> & Hl1). eexists _, _, _. split; [reflexivity|]. apply early_failure; [apply Hnot; unheard|done|].
    intros code ->. exists l. split; [apply (last_heard [Sent CMGF_COMMAND])|]. apply verdict_cms. by left.
  - subst tl. eexists _, _, _. split; [reflexivity|]. apply early_failure; [apply Hnot; unheard|done|done].
  - destruct Hr as [-> ->]. eexists _, _, _. split; [reflexivity|]. apply early_failure; [apply Hnot; unheard|done|done].
Qed.
End log.
(** A modem that answers from a script, each line cut to the caller's buffer. *)
Definition scripted_recv (script : list (list Z)) (buf : list Z) (_ : Z) : list (list Z) * list Z * result nat TelephonyError :=
  match script with
  | [] => ([], buf, Err Timeout)
  | l :: script =>
      let l := take (length buf) l in (script, l ++ drop (length l) buf, Ok (length l))
  end.

Definition scripted : ModemTransport (list (list Z)) := {| send_at t _ := (t, Ok tt); recv_line := scripted_recv |}.

Lemma scripted_laws : @ModemTransportLaws _ scripted.
Proof.
  split; cbn; unfold scripted_recv; intros [|l t] buf timeout; cbn; try done.
  - rewrite length_app, length_drop, length_take. lia.
  - intros n [= <-]. rewrite length_take. lia.
Qed.

(** "Hi" to +12 over a modem that acknowledges, prompts, reports and confirms. *)
Lemma send_follows_dialogue_witness :
  exists t' log, @send _ (@logged _ scripted) ([at_response.OK; [62; 32]; [43; 67]; at_response.OK], []) [43; 49; 50] [72; 105] = Ret ((t', log), Ok tt).
Proof.
  destruct (@send_follows_dialogue _ scripted scripted_laws [at_response.OK; [62; 32]; [43; 67]; at_response.OK] [43; 49; 50] [72; 105])
    as (t' & log & r & H & _).
  exists t', log. rewrite H. vm_compute in H. injection H as _ _ <-. reflexivity.
Defined.
End sms.
