(* ===== verification/AuditLog.v ===== *)
(** * The audit log ([crates/thumos/src/audit.rs])

    A ring of security events in which each entry carries a MAC over its
    content and the MAC before it. HMAC-SHA256 comes from the [hmac] crate, so it
    is a parameter; the number of entries depends on the compiler's layout of
    [AuditEntry], so it is one too. *)

From S2P Require Import Prelude Machine Ring.
From Stdlib Require Import ZArith.
Open Scope Z_scope.

Module audit.

Definition DETAIL_LEN : nat := 64.
Definition SHA256_DIGEST_LEN : nat := 32.
Definition GENESIS_HMAC : list Z := replicate SHA256_DIGEST_LEN 0.

Inductive AuditEventType :=
  | AuthFail | CapDeny | PacketDeny | PanicTrigger | IdentityLeak | SwitchChange | BootVerify | ModeChange
  | DuressAttempt | ModemAnomaly | ModemTraffic | PacketLog | UserFault.

#[export] Instance AuditEventType_eq_dec : EqDecision AuditEventType.
Proof. solve_decision. Defined.

Inductive AuditError := NoKey | ChainTampered | Empty.

Record AuditEntry := mk_entry {
  timestamp : Z; event_type : AuditEventType; pid : Z; detail_buf : list Z; detail_len : Z; hmac : list Z;
}.

#[export] Instance AuditEntry_eq_dec : EqDecision AuditEntry.
Proof. solve_decision. Defined.

Definition event_type_discriminant (event : AuditEventType) : Z :=
  match event with
  | AuthFail => 0 | CapDeny => 1 | PacketDeny => 2 | PanicTrigger => 3 | IdentityLeak => 4 | SwitchChange => 5
  | BootVerify => 6 | ModeChange => 7 | DuressAttempt => 8 | ModemAnomaly => 9 | ModemTraffic => 10
  | PacketLog => 11 | UserFault => 12
  end.

(** The valid bytes of the detail; slicing beyond the array panics. *)
Definition detail (e : AuditEntry) : outcome (list Z) :=
  if (Z.to_nat (detail_len e) <=? length (detail_buf e))%nat then Ret (take (Z.to_nat (detail_len e)) (detail_buf e)) else Panic.

(** [u64::to_le_bytes]. *)
Definition le_bytes64 (v : Z) : list Z := le_bytes v ++ le_bytes (v / 2 ^ 32).

(** The five copies fill all 109 bytes of the buffer. *)
Definition serialize_for_hmac (e : AuditEntry) (prev_hmac : list Z) : list Z :=
  le_bytes64 (timestamp e) ++ [event_type_discriminant (event_type e)] ++ le_bytes (pid e) ++ detail_buf e ++ prev_hmac.

Record AuditLog := mk_log {
  entries : list AuditEntry; head : nat; count : nat; last_hmac : list Z; root_hmac : list Z;
}.

Definition blank : AuditEntry := mk_entry 0 AuthFail 0 (replicate DETAIL_LEN 0) 0 (replicate SHA256_DIGEST_LEN 0).

#[export] Instance AuditEntry_inhabited : Inhabited AuditEntry := populate blank.

Section log.
Context (hmac_sha256 : list Z -> list Z -> list Z) (MAX_ENTRIES : nat).

Definition new : AuditLog := mk_log (replicate MAX_ENTRIES blank) 0 0 GENESIS_HMAC GENESIS_HMAC.

Definition no_key (hmac_key : list Z) : bool := forallb (Z.eqb 0) hmac_key.

Definition log_event (event : AuditEventType) (p : Z) (det : list Z) (ts : Z) (hmac_key : list Z) (l : AuditLog) :
    outcome (result unit AuditError * AuditLog) :=
  if no_key hmac_key then Ret (Err NoKey, l) else
  let copy_len := Nat.min (length det) DETAIL_LEN in
  buf ← copy_prefix (replicate DETAIL_LEN 0) det copy_len;
  let entry := mk_entry ts event p buf (wrap8 (Z.of_nat copy_len)) (replicate SHA256_DIGEST_LEN 0) in
  let mac := hmac_sha256 hmac_key (serialize_for_hmac entry (last_hmac l)) in
  let entry := mk_entry ts event p buf (wrap8 (Z.of_nat copy_len)) mac in
  root ← (if (count l =? MAX_ENTRIES)%nat then evicted ← index (entries l) (head l); Ret (hmac evicted) else Ret (root_hmac l));
  es ← store (entries l) (head l) entry;
  Ret (Ok tt, mk_log es ((head l + 1) mod MAX_ENTRIES) (if (count l <? MAX_ENTRIES)%nat then count l + 1 else count l)%nat mac root).

(** The loop of [verify_chain] over the indices still to visit. *)
Fixpoint verify_from (es : list AuditEntry) (start : nat) (todo : list nat) (prev_hmac hmac_key : list Z) : outcome (result unit AuditError) :=
  match todo with
  | [] => Ret (Ok tt)
  | i :: todo =>
      entry ← index es ((start + i) mod MAX_ENTRIES)%nat;
      let expected := hmac_sha256 hmac_key (serialize_for_hmac entry prev_hmac) in
      if bool_decide (hmac entry = expected) then verify_from es start todo (hmac entry) hmac_key
      else Ret (Err ChainTampered)
  end.

Definition verify_chain (hmac_key : list Z) (l : AuditLog) : outcome (result unit AuditError) :=
  if (count l =? 0)%nat then Ret (Err Empty) else
  if no_key hmac_key then Ret (Err NoKey) else
  let wrapped := (count l =? MAX_ENTRIES)%nat in
  let start := if wrapped then head l else 0%nat in
  let prev_hmac := if wrapped then root_hmac l else GENESIS_HMAC in
  verify_from (entries l) start (seq 0 (count l)) prev_hmac hmac_key.

(** [&v[a..b]]. *)
Definition slice {A} (v : list A) (a b : nat) : outcome (list A) :=
  if (a <=? b)%nat && (b <=? length v)%nat then Ret (take (b - a) (drop a v)) else Panic.

Definition recent (n : nat) (l : AuditLog) : outcome (list AuditEntry * list AuditEntry) :=
  if (count l =? 0)%nat || (n =? 0)%nat then Ret ([], []) else
  let n := Nat.min n (count l) in
  let start := if (n <=? head l)%nat then (head l - n)%nat
               else if (count l =? MAX_ENTRIES)%nat then (MAX_ENTRIES - (n - head l))%nat else 0%nat in
  let end_ := head l in
  if (start <? end_)%nat then a ← slice (entries l) start end_; Ret (a, [])
  else a ← slice (entries l) start MAX_ENTRIES; b ← slice (entries l) 0 end_; Ret (a, b).

Definition has_wrapped (l : AuditLog) : bool := (count l =? MAX_ENTRIES)%nat.

End log.

(** ** The log as a list

    The abstract log: every event ever accepted, oldest first. *)

Section spec.
Context (hmac_sha256 : list Z -> list Z -> list Z) (MAX_ENTRIES : nat).
Context (max_pos : (0 < MAX_ENTRIES)%nat) (key : list Z) (key_set : no_key key = false).

Record event := mk_event { ev_type : AuditEventType; ev_pid : Z; ev_detail : list Z; ev_time : Z }.

(** The detail an entry keeps: 64 bytes, cut or padded. *)
Definition kept (det : list Z) : list Z := take DETAIL_LEN det ++ replicate (DETAIL_LEN - length det) 0.

Definition entry_of (ev : event) (mac : list Z) : AuditEntry :=
  mk_entry (ev_time ev) (ev_type ev) (ev_pid ev) (kept (ev_detail ev)) (Z.of_nat (Nat.min (length (ev_detail ev)) DETAIL_LEN)) mac.

(** The entries of a list of events chained from [prev]. *)
Fixpoint chain (prev : list Z) (evs : list event) : list AuditEntry :=
  match evs with
  | [] => []
  | ev :: evs =>
      let mac := hmac_sha256 key (serialize_for_hmac (entry_of ev []) prev) in
      entry_of ev mac :: chain mac evs
  end.

Definition last_mac (prev : list Z) (es : list AuditEntry) : list Z := match last es with Some e => hmac e | None => prev end.

Definition history (evs : list event) : list AuditEntry := chain GENESIS_HMAC evs.

(** The live part of a ring: its latest entries. *)
Definition latest {A} (k : nat) (l : list A) : list A := drop (length l - k) l.

Definition start_of (l : AuditLog) : nat := if (count l =? MAX_ENTRIES)%nat then head l else 0%nat.

Definition holds (l : AuditLog) (evs : list event) : Prop :=
  length (entries l) = MAX_ENTRIES /\ (head l < MAX_ENTRIES)%nat /\
  count l = Nat.min (length evs) MAX_ENTRIES /\ head l = ((start_of l + count l) mod MAX_ENTRIES)%nat /\
  ring_view (entries l) (start_of l) (count l) = latest MAX_ENTRIES (history evs) /\
  last_hmac l = last_mac GENESIS_HMAC (history evs) /\
  root_hmac l = last_mac GENESIS_HMAC (take (length evs - MAX_ENTRIES) (history evs)).

Lemma length_chain prev evs : length (chain prev evs) = length evs.
Proof. revert prev. induction evs as [|ev evs IH]; intros prev; cbn; [done|]. by rewrite IH. Qed.

Lemma last_mac_app prev es fs : last_mac prev (es ++ fs) = last_mac (last_mac prev es) fs.
Proof. unfold last_mac. destruct fs as [|f fs _] using rev_ind; [by rewrite app_nil_r; destruct (last es)|]. by rewrite app_assoc, !last_snoc. Qed.

Lemma chain_snoc prev evs ev :
  chain prev (evs ++ [ev]) =
  chain prev evs ++ [entry_of ev (hmac_sha256 key (serialize_for_hmac (entry_of ev []) (last_mac prev (chain prev evs))))].
Proof.
  revert prev. induction evs as [|e evs IH]; intros prev; [done|]. cbn [app chain]. cbv zeta. rewrite IH. cbn [app]. do 5 f_equal.
  change (entry_of e ?m :: ?l) with ([entry_of e m] ++ l). by rewrite last_mac_app.
Qed.

Lemma latest_snoc {A} k (l : list A) x : (0 < k)%nat -> latest k (l ++ [x]) = latest (k - 1) l ++ [x].
Proof.
  intros Hk. unfold latest. rewrite length_app. cbn [length]. rewrite drop_app_le by lia. do 2 f_equal. lia.
Qed.

Lemma kept_len det : length (kept det) = DETAIL_LEN.
Proof. unfold kept. rewrite length_app, length_take, length_replicate. lia. Qed.
Lemma new_holds : holds (new MAX_ENTRIES) [].
Proof using max_pos.
  unfold holds, start_of, new. cbn [entries head count last_hmac root_hmac length]. rewrite (proj2 (Nat.eqb_neq 0 MAX_ENTRIES)) by lia.
  rewrite Nat.Div0.mod_0_l. split_and!; [apply length_replicate|lia|done|done|done|done|done].
Qed.

Lemma history_length evs : length (history evs) = length evs.
Proof. apply length_chain. Qed.

(** The entry that is about to be overwritten is the oldest one. *)
Lemma oldest_entry l evs :
  holds l evs -> count l = MAX_ENTRIES -> entries l !! head l = history evs !! (length evs - MAX_ENTRIES)%nat.
Proof using max_pos.
  intros (Hlen & Hh & Hc & Hhd & Hv & _) Hfull. unfold start_of in *. rewrite Hfull, Nat.eqb_refl in Hv.
  assert (ring_view (entries l) (head l) MAX_ENTRIES !! 0%nat = latest MAX_ENTRIES (history evs) !! 0%nat) as H0 by (by rewrite Hv).
  unfold latest in H0. rewrite lookup_drop, history_length, Nat.add_0_r in H0. rewrite <- H0. unfold ring_view.
  rewrite list_lookup_fmap, lookup_seq_lt by lia. cbn. rewrite Nat.add_0_r, Hlen, Nat.mod_small by done.
  apply list_lookup_lookup_total_lt. lia.
Qed.

Lemma ring_rotate (buf : list AuditEntry) pos x :
  (0 < length buf)%nat -> (pos < length buf)%nat ->
  ring_view (<[pos := x]> buf) ((pos + 1) mod length buf) (length buf) = drop 1 (ring_view buf pos (length buf)) ++ [x].
Proof.
  intros Hl Hp. rewrite <- (ring_view_drop buf pos (length buf) 1) by lia.
  pose proof (ring_view_push buf ((pos + 1) mod length buf) (length buf - 1) x ltac:(lia)) as Hpush.
  replace (S (length buf - 1)) with (length buf) in Hpush by lia. rewrite <- Hpush. do 2 f_equal.
  rewrite Nat.Div0.add_mod_idemp_l. replace (pos + 1 + (length buf - 1))%nat with (pos + 1 * length buf)%nat by lia.
  rewrite Nat.Div0.mod_add. symmetry. by apply Nat.mod_small.
Qed.

Lemma kept_copy det :
  copy_prefix (replicate DETAIL_LEN 0) det (Nat.min (length det) DETAIL_LEN) = Ret (kept det).
Proof.
  rewrite copy_prefix_ret by (rewrite ?length_replicate; lia). f_equal. unfold kept. rewrite drop_replicate. f_equal.
  - destruct (Nat.le_gt_cases (length det) DETAIL_LEN); [rewrite Nat.min_l by done; by rewrite firstn_all, take_ge|by rewrite Nat.min_r by lia].
  - f_equal. lia.
Qed.

Lemma log_event_holds l evs ev :
  holds l evs ->
  exists l', log_event hmac_sha256 MAX_ENTRIES (ev_type ev) (ev_pid ev) (ev_detail ev) (ev_time ev) key l = Ret (Ok tt, l') /\
    holds l' (evs ++ [ev]).
Proof using max_pos key_set.
  intros Hl. pose proof Hl as (Hlen & Hh & Hc & Hhd & Hv & Hlast & Hroot). unfold log_event. rewrite key_set, kept_copy.
  cbn [mbind outcome_bind]. cbv zeta.
  assert (wrap8 (Z.of_nat (Nat.min (length (ev_detail ev)) DETAIL_LEN)) = Z.of_nat (Nat.min (length (ev_detail ev)) DETAIL_LEN)) as ->.
  { unfold wrap8. apply Z.mod_small. unfold DETAIL_LEN. lia. }
  assert (history (evs ++ [ev]) = history evs ++ [entry_of ev (hmac_sha256 key (serialize_for_hmac (entry_of ev []) (last_hmac l)))]) as Hsnoc
    by (unfold history; rewrite chain_snoc; by rewrite Hlast).
  change (serialize_for_hmac (mk_entry (ev_time ev) (ev_type ev) (ev_pid ev) (kept (ev_detail ev)) _ _) (last_hmac l))
    with (serialize_for_hmac (entry_of ev []) (last_hmac l)).
  set (mac := hmac_sha256 key (serialize_for_hmac (entry_of ev []) (last_hmac l))) in *.
  change (mk_entry (ev_time ev) (ev_type ev) (ev_pid ev) (kept (ev_detail ev)) (Z.of_nat (Nat.min (length (ev_detail ev)) DETAIL_LEN)) mac)
    with (entry_of ev mac).
  destruct (Nat.eqb_spec (count l) MAX_ENTRIES) as [Hfull|Hnot].
  - pose proof (oldest_entry l evs Hl Hfull) as Hold. assert (MAX_ENTRIES <= length evs)%nat as Hge by lia.
    destruct (lookup_lt_is_Some_2 (entries l) (head l)) as [old Hx]; [lia|]. rewrite (index_lt _ _ _ Hx). cbn [mbind outcome_bind].
    rewrite store_lt by lia. cbn [mbind outcome_bind]. eexists. split; [reflexivity|].
    rewrite (proj2 (Nat.ltb_ge _ _)) by lia. unfold start_of in *. rewrite Hfull, Nat.eqb_refl in *.
    unfold holds, start_of. cbn [entries head count last_hmac root_hmac]. rewrite ?Hfull, Nat.eqb_refl, Hsnoc, !length_app, length_insert. cbn [length].
    split_and!; [done|apply Nat.mod_upper_bound; lia|lia| | | |].
    + rewrite <- (Nat.mul_1_l MAX_ENTRIES) at 3. by rewrite Nat.Div0.mod_add, Nat.Div0.mod_mod.
    + rewrite <- Hlen at 1. rewrite <- Hlen at 1. rewrite ring_rotate by lia. rewrite Hlen, Hv, latest_snoc by lia. f_equal.
      unfold latest. rewrite drop_drop, history_length. f_equal. lia.
    + by rewrite last_mac_app.
    + rewrite take_app_le by (rewrite history_length; lia). replace (length evs + 1 - MAX_ENTRIES)%nat with (S (length evs - MAX_ENTRIES)) by lia.
      rewrite Hx in Hold. rewrite (take_S_r _ _ _ (eq_sym Hold)). by rewrite last_mac_app.
  - assert (length evs < MAX_ENTRIES)%nat as Hlt by lia. assert (count l = length evs) as Hcl by lia.
    unfold start_of in *. rewrite (proj2 (Nat.eqb_neq _ _) Hnot) in *. cbn [Nat.add] in Hhd. rewrite Nat.mod_small in Hhd by lia.
    cbn [mbind outcome_bind]. rewrite store_lt by lia. cbn [mbind outcome_bind]. eexists. split; [reflexivity|].
    rewrite (proj2 (Nat.ltb_lt _ _)) by lia. unfold holds, start_of. cbn [entries head count last_hmac root_hmac].
    rewrite Hsnoc, !length_app, length_insert. cbn [length]. rewrite Hhd, Hcl.
    assert ((if (length evs + 1 =? MAX_ENTRIES)%nat then (length evs + 1) mod MAX_ENTRIES else 0)%nat = 0%nat) as ->.
    { destruct (Nat.eqb_spec (length evs + 1) MAX_ENTRIES) as [->|]; [apply Nat.Div0.mod_same|done]. }
    split_and!; [done|apply Nat.mod_upper_bound; lia|lia|done| | |].
    + pose proof (ring_view_push (entries l) 0 (length evs) (entry_of ev mac) ltac:(lia)) as Hpush.
      cbn [Nat.add] in Hpush. rewrite Hlen, (Nat.mod_small (length evs)) in Hpush by lia. rewrite Nat.add_1_r, Hpush, <- Hcl, Hv.
      rewrite latest_snoc by lia. unfold latest. rewrite history_length. do 2 f_equal. lia.
    + by rewrite last_mac_app.
    + rewrite Hroot. replace (length evs - MAX_ENTRIES)%nat with 0%nat by lia. by replace (length evs + 1 - MAX_ENTRIES)%nat with 0%nat by lia.
Qed.
(** *** Verification as a pass over the live entries *)

Fixpoint accepts (prev : list Z) (es : list AuditEntry) : bool :=
  match es with
  | [] => true
  | e :: es => bool_decide (hmac e = hmac_sha256 key (serialize_for_hmac e prev)) && accepts (hmac e) es
  end.

Lemma verify_from_accepts es start todo prev :
  length es = MAX_ENTRIES ->
  verify_from hmac_sha256 MAX_ENTRIES es start todo prev key =
  Ret (if accepts prev ((fun i => es !!! ((start + i) mod length es)%nat) <$> todo) then Ok tt else Err ChainTampered).
Proof using max_pos.
  intros Hlen. revert prev. induction todo as [|i todo IH]; intros prev; cbn [verify_from]; [done|].
  rewrite index_total by (rewrite Hlen; apply Nat.mod_upper_bound; lia). cbn [mbind outcome_bind fmap list_fmap accepts]. rewrite Hlen.
  case_bool_decide; [|done]. rewrite IH, Hlen. done.
Qed.

Definition chain_root (l : AuditLog) : list Z := if (count l =? MAX_ENTRIES)%nat then root_hmac l else GENESIS_HMAC.

Lemma verify_chain_accepts l :
  length (entries l) = MAX_ENTRIES -> (0 < count l)%nat ->
  verify_chain hmac_sha256 MAX_ENTRIES key l =
  Ret (if accepts (chain_root l) (ring_view (entries l) (start_of l) (count l)) then Ok tt else Err ChainTampered).
Proof using max_pos key_set.
  intros Hlen Hc. unfold verify_chain. rewrite (proj2 (Nat.eqb_neq _ _)), key_set by lia. cbv zeta. by rewrite verify_from_accepts.
Qed.

Lemma accepts_chain prev evs : accepts prev (chain prev evs) = true.
Proof. revert prev. induction evs as [|ev evs IH]; intros prev; cbn; [done|]. rewrite bool_decide_eq_true_2; [apply IH|done]. Qed.

Lemma drop_chain k prev evs : drop k (chain prev evs) = chain (last_mac prev (take k (chain prev evs))) (drop k evs).
Proof.
  revert prev evs. induction k as [|k IH]; intros prev evs; [by rewrite !drop_0|]. destruct evs as [|ev evs]; [done|].
  cbn [chain drop take]. cbv zeta. rewrite IH. f_equal. change (entry_of ev ?m :: ?l) with ([entry_of ev m] ++ l). by rewrite last_mac_app.
Qed.

(** The honest log: the live entries are chained from the root. *)
Lemma live_chain l evs :
  holds l evs -> ring_view (entries l) (start_of l) (count l) = chain (chain_root l) (latest MAX_ENTRIES evs).
Proof.
  intros (Hlen & Hh & Hc & Hhd & -> & Hlast & Hroot). unfold latest. rewrite history_length. unfold history at 1. rewrite drop_chain.
  f_equal. fold (history evs). unfold chain_root. destruct (Nat.eqb_spec (count l) MAX_ENTRIES); [done|].
  by replace (length evs - MAX_ENTRIES)%nat with 0%nat by lia.
Qed.

(** *** The latest entries *)

Lemma ring_view_contiguous (buf : list AuditEntry) pos n :
  (pos + n <= length buf)%nat -> ring_view buf pos n = take n (drop pos buf).
Proof.
  intros Hn. apply list_eq. intros i. unfold ring_view. rewrite list_lookup_fmap. destruct (Nat.lt_ge_cases i n).
  - rewrite lookup_seq_lt, lookup_take_lt, lookup_drop by done. cbn. rewrite Nat.mod_small by lia. symmetry.
    apply list_lookup_lookup_total_lt. lia.
  - rewrite lookup_seq_ge, lookup_take_ge by done. done.
Qed.

Lemma ring_view_wrapped (buf : list AuditEntry) pos n :
  (pos <= length buf)%nat -> (n <= length buf)%nat -> (length buf <= pos + n)%nat ->
  ring_view buf (pos mod length buf) n = drop pos buf ++ take (pos + n - length buf) buf.
Proof.
  intros Hp Hn Hpn. apply list_eq. intros i. unfold ring_view. rewrite list_lookup_fmap. destruct (Nat.lt_ge_cases i n).
  - rewrite lookup_seq_lt by done. cbn. rewrite Nat.Div0.add_mod_idemp_l. destruct (Nat.lt_ge_cases (pos + i) (length buf)).
    + rewrite lookup_app_l, lookup_drop, Nat.mod_small by (rewrite ?length_drop; lia). symmetry. apply list_lookup_lookup_total_lt. lia.
    + rewrite lookup_app_r, length_drop, lookup_take_lt by (rewrite ?length_drop; lia).
      replace (pos + i)%nat with (pos + i - length buf + 1 * length buf)%nat at 1 by lia. rewrite Nat.Div0.mod_add, Nat.mod_small by lia.
      replace (i - (length buf - pos))%nat with (pos + i - length buf)%nat by lia. symmetry. apply list_lookup_lookup_total_lt. lia.
  - rewrite lookup_seq_ge by done. symmetry. apply lookup_ge_None. rewrite length_app, length_drop, length_take. lia.
Qed.

Lemma latest_latest {A} n k (l : list A) : latest n (latest k l) = latest (Nat.min n k) l.
Proof. unfold latest. rewrite length_drop, drop_drop. f_equal. lia. Qed.

Lemma recent_holds l evs n :
  holds l evs -> exists a b, recent MAX_ENTRIES n l = Ret (a, b) /\ a ++ b = latest (Nat.min n MAX_ENTRIES) (history evs).
Proof using max_pos.
  intros (Hlen & Hh & Hc & Hhd & Hv & _). unfold recent.
  assert (n = 0%nat \/ count l = 0%nat -> latest (Nat.min n MAX_ENTRIES) (history evs) = []) as Hnil.
  { intros Hz. apply length_zero_iff_nil. unfold latest. rewrite length_drop, history_length. lia. }
  destruct (Nat.eqb_spec (count l) 0) as [Hz|Hz]; [cbn; exists [], []; rewrite Hnil by auto; done|].
  destruct (Nat.eqb_spec n 0) as [Hz'|Hz']; [cbn; exists [], []; rewrite Hnil by auto; done|]. cbn [orb]. cbv zeta.
  set (k := Nat.min n (count l)). rewrite <- latest_latest, <- Hv.
  assert (latest n (ring_view (entries l) (start_of l) (count l)) = ring_view (entries l) ((start_of l + (count l - k)) mod length (entries l)) k) as ->.
  { unfold latest. rewrite length_ring_view. rewrite <- ring_view_drop by lia. f_equal; [|lia]. do 2 f_equal. lia. }
  rewrite Hlen. unfold start_of in *. destruct (Nat.leb_spec k (head l)) as [Hk|Hk].
  - rewrite (proj2 (Nat.ltb_lt _ _)) by lia. unfold slice. rewrite (proj2 (Nat.leb_le _ _)), (proj2 (Nat.leb_le _ _)) by lia.
    cbn [andb mbind outcome_bind]. eexists _, _. split; [reflexivity|]. rewrite app_nil_r, <- ring_view_contiguous by lia.
    f_equal; [|lia]. destruct (Nat.eqb_spec (count l) MAX_ENTRIES) as [Hf|Hf].
    + replace (head l + (count l - k))%nat with (head l - k + 1 * MAX_ENTRIES)%nat by lia. rewrite Nat.Div0.mod_add, Nat.mod_small by lia. done.
    + cbn [Nat.add] in *. rewrite Nat.mod_small in Hhd by lia. rewrite Nat.mod_small by lia. lia.
  - destruct (Nat.eqb_spec (count l) MAX_ENTRIES) as [Hf|Hf]; [|cbn [Nat.add] in *; rewrite Nat.mod_small in Hhd by lia; lia].
    rewrite (proj2 (Nat.ltb_ge _ _)) by lia. unfold slice. rewrite !(proj2 (Nat.leb_le _ _)) by lia.
    cbn [andb mbind outcome_bind]. eexists _, _. split; [reflexivity|]. rewrite drop_0, Nat.sub_0_r.
    replace (head l + (count l - k))%nat with (MAX_ENTRIES - (k - head l))%nat by lia.
    rewrite <- Hlen. rewrite ring_view_wrapped by lia. f_equal.
    + rewrite take_ge; [done|]. rewrite length_drop. lia.
    + f_equal. lia.
Qed.
(** *** What an accepted log proves *)

Definition content (e : AuditEntry) : Z * AuditEventType * Z * list Z := (timestamp e, event_type e, pid e, detail_buf e).

(** The Rust types of an entry. *)
Definition typed (e : AuditEntry) : Prop := is_u64 (timestamp e) /\ is_u32 (pid e) /\ length (detail_buf e) = DETAIL_LEN.
Definition event_typed (ev : event) : Prop := is_u64 (ev_time ev) /\ is_u32 (ev_pid ev).

#[local] Ltac Zify.zify_post_hook ::= Z.to_euclidean_division_equations.

Lemma le_bytes_inj v w : is_u32 v -> is_u32 w -> le_bytes v = le_bytes w -> v = w.
Proof. unfold is_u32, le_bytes. intros Hv Hw [= H0 H1 H2 H3]. lia. Qed.

Lemma le_bytes64_inj v w : is_u64 v -> is_u64 w -> le_bytes64 v = le_bytes64 w -> v = w.
Proof.
  unfold le_bytes64. intros Hv Hw H. apply app_inj_1 in H as [Hl Hh]; [|done]. unfold is_u64 in *.
  assert (v / 2 ^ 32 = w / 2 ^ 32) by (apply le_bytes_inj; [unfold is_u32; lia..|done]).
  assert (v mod 2 ^ 32 = w mod 2 ^ 32); [|lia]. unfold le_bytes in Hl. injection Hl as H0 H1 H2 H3. lia.
Qed.

(** The MAC covers the whole content: the 109 bytes determine it. *)
Lemma serialize_inj e e' prev : typed e -> typed e' -> serialize_for_hmac e prev = serialize_for_hmac e' prev -> content e = content e'.
Proof.
  intros (Ht & Hp & Hd) (Ht' & Hp' & Hd'). unfold serialize_for_hmac. intros H.
  apply app_inj_1 in H as [H1 H]; [|done]. apply app_inj_1 in H as [H2 H]; [|done]. apply app_inj_1 in H as [H3 H]; [|done].
  apply app_inj_1 in H as [H4 _]; [|congruence]. apply le_bytes64_inj in H1; [|done|done]. apply le_bytes_inj in H3; [|done|done].
  unfold content. injection H2 as H2. rewrite H1, H3, H4. do 3 f_equal. by destruct (event_type e), (event_type e').
Qed.

Lemma serialize_content e e' prev : content e = content e' -> serialize_for_hmac e prev = serialize_for_hmac e' prev.
Proof. unfold content, serialize_for_hmac. by intros [= -> -> -> ->]. Qed.

Definition same (e e' : AuditEntry) : Prop := content e = content e' /\ hmac e = hmac e'.

(** Two accepted runs of entries from one root agree, or part at an entry whose
    content differs and whose tag is a MAC of that content. *)
Lemma accepted_runs_part prev es es' :
  length es = length es' -> accepts prev es = true -> accepts prev es' = true ->
  Forall2 same es es' \/
  exists i e e', es !! i = Some e /\ es' !! i = Some e' /\ Forall2 same (take i es) (take i es') /\ content e' <> content e /\
    hmac e' = hmac_sha256 key (serialize_for_hmac e' (last_mac prev (take i es))).
Proof.
  revert prev es'. induction es as [|e es IH]; intros prev [|e' es'] Hlen Ha Ha'; [by left|done|done|]. cbn [accepts] in *.
  apply andb_true_iff in Ha as [He Ha], Ha' as [He' Ha']. apply bool_decide_eq_true in He, He'.
  destruct (decide (content e' = content e)) as [Hc|Hc].
  2: { right. exists 0%nat, e, e'. split_and!; [done|done|constructor|done|done]. }
  assert (hmac e' = hmac e) as Hm by (rewrite He, He'; f_equal; by apply serialize_content).
  rewrite Hm in Ha'. destruct (IH (hmac e) es' ltac:(by injection Hlen) Ha Ha') as [Hs|(i & x & x' & H1 & H2 & H3 & H4 & H5)].
  - left. by constructor.
  - right. exists (S i), x, x'. cbn [lookup list_lookup take]. split_and!; [done|done|by constructor|done|].
    rewrite H5. do 2 f_equal. change (e :: ?l) with ([e] ++ l). by rewrite last_mac_app.
Qed.

Fixpoint log_all (evs : list event) (l : AuditLog) : outcome AuditLog :=
  match evs with
  | [] => Ret l
  | ev :: evs =>
      '(_, l) ← log_event hmac_sha256 MAX_ENTRIES (ev_type ev) (ev_pid ev) (ev_detail ev) (ev_time ev) key l;
      log_all evs l
  end.

Lemma log_all_holds evs : exists l, log_all evs (new MAX_ENTRIES) = Ret l /\ holds l evs.
Proof using max_pos key_set.
  cut (forall before l, holds l before -> exists l', log_all evs l = Ret l' /\ holds l' (before ++ evs)).
  { intros H. apply (H [] (new MAX_ENTRIES)), new_holds. }
  induction evs as [|ev evs IH]; intros before l Hl; cbn [log_all]; [rewrite app_nil_r; by eexists|].
  destruct (log_event_holds l before ev Hl) as (l' & -> & Hl'). cbn [mbind outcome_bind].
  destruct (IH _ _ Hl') as (l'' & H & Hl''). exists l''. by rewrite <- app_assoc in Hl''.
Qed.

Lemma holds_verifies l evs :
  holds l evs -> verify_chain hmac_sha256 MAX_ENTRIES key l = Ret (if decide (evs = []) then Err Empty else Ok tt).
Proof using max_pos key_set.
  intros Hl. pose proof Hl as (Hlen & _ & Hc & _). case_decide as He.
  - subst evs. unfold verify_chain. by rewrite Hc.
  - rewrite verify_chain_accepts, (live_chain l evs Hl), accepts_chain; [done|done|]. rewrite Hc. destruct evs; [done|]. cbn [length]. lia.
Qed.

(** The audit log is its latest events, and it verifies: however many events are
    recorded, nothing panics, an empty log is reported as empty and any other
    passes verification, wrapped or not, and asking for the latest [n] entries
    gives the last [n] events recorded, at most a ring's worth, in order,
    chained from the first event ever. *)
Theorem audit_log_keeps_latest evs :
  exists l, log_all evs (new MAX_ENTRIES) = Ret l /\
    verify_chain hmac_sha256 MAX_ENTRIES key l = Ret (if decide (evs = []) then Err Empty else Ok tt) /\
    forall n, exists a b, recent MAX_ENTRIES n l = Ret (a, b) /\ a ++ b = latest (Nat.min n MAX_ENTRIES) (history evs).
Proof using max_pos key_set.
  destruct (log_all_holds evs) as (l & -> & Hl). exists l. split_and!; [done|by apply holds_verifies|intros n; by apply recent_holds].
Qed.

Lemma chain_typed prev evs i e : Forall event_typed evs -> chain prev evs !! i = Some e -> typed e.
Proof.
  intros Hev. revert prev i. induction Hev as [|ev evs [Ht Hp] Hev IH]; intros prev [|i] He; cbn in He; [done|done| |by eapply IH].
  injection He as <-. split_and!; [done|done|apply kept_len].
Qed.

(** C28: Tampering needs a MAC. Take a log as it was recorded and any other contents of
    its ring with the same bounds and root. If verification accepts them, every
    live entry has its recorded time, type, process, detail bytes and tag; or
    there is a first entry that differs in one of these, and its tag is a valid
    MAC, under the audit key, of a message that was not the one recorded there:
    whoever wrote it computed a MAC of its own. The length of the detail is not
    among what is compared, because the tags do not cover it. *)
Theorem tampering_needs_a_mac evs l l' :
  Forall event_typed evs -> log_all evs (new MAX_ENTRIES) = Ret l -> length (entries l') = MAX_ENTRIES -> Forall typed (entries l') ->
  head l' = head l -> count l' = count l -> root_hmac l' = root_hmac l ->
  verify_chain hmac_sha256 MAX_ENTRIES key l' = Ret (Ok tt) ->
  let live := ring_view (entries l) (start_of l) (count l) in
  let live' := ring_view (entries l') (start_of l) (count l) in
  Forall2 same live live' \/
  exists i e e', live !! i = Some e /\ live' !! i = Some e' /\ Forall2 same (take i live) (take i live') /\
    let prev := last_mac (chain_root l) (take i live) in
    serialize_for_hmac e' prev <> serialize_for_hmac e prev /\ hmac e' = hmac_sha256 key (serialize_for_hmac e' prev).
Proof using max_pos key_set.
  intros Hev Hlog Hlen' Hty Hh Hc Hr Hver live live'. destruct (log_all_holds evs) as (l0 & Hl0 & Hl). rewrite Hlog in Hl0. injection Hl0 as <-.
  pose proof Hl as (Hlen & _). assert (0 < count l')%nat as Hpos by (destruct (count l') eqn:E; [|lia]; unfold verify_chain in Hver; by rewrite E in Hver).
  rewrite verify_chain_accepts in Hver by done. destruct (accepts _ _) eqn:Ha'; [|done]. unfold chain_root, start_of in Ha'. rewrite Hh, Hc, Hr in Ha'.
  fold (chain_root l) (start_of l) in Ha'. fold live' in Ha'.
  assert (accepts (chain_root l) live = true) as Ha by (subst live; rewrite (live_chain l evs Hl); apply accepts_chain).
  destruct (accepted_runs_part _ live live' ltac:(subst live live'; by rewrite !length_ring_view) Ha Ha') as [Hs|(i & e & e' & He & He' & Hs & Hne & Hm)]; [by left|].
  right. exists i, e, e'. cbv zeta. split_and!; [done|done|done| |done]. intros Hser. apply Hne. apply serialize_inj in Hser; [done| |].
  - subst live'. unfold ring_view in He'. rewrite list_lookup_fmap in He'. apply fmap_Some in He' as (j & _ & ->).
    eapply Forall_lookup_total_1; [done|]. rewrite Hlen'. apply Nat.mod_upper_bound. lia.
  - subst live. rewrite (live_chain l evs Hl) in He. eapply chain_typed; [|done]. by apply Forall_drop.
Qed.

(** Overwriting the length of one entry's detail. *)
Definition set_detail_len (n : Z) (e : AuditEntry) : AuditEntry :=
  mk_entry (timestamp e) (event_type e) (pid e) (detail_buf e) n (hmac e).
Definition relabel (i : nat) (n : Z) (l : AuditLog) : AuditLog :=
  mk_log (alter (set_detail_len n) i (entries l)) (head l) (count l) (last_hmac l) (root_hmac l).

Lemma verify_from_relabel es start todo prev i n :
  verify_from hmac_sha256 MAX_ENTRIES (alter (set_detail_len n) i es) start todo prev key =
  verify_from hmac_sha256 MAX_ENTRIES es start todo prev key.
Proof.
  revert prev. induction todo as [|j todo IH]; intros prev; cbn [verify_from]; [done|]. unfold index.
  set (k := ((start + j) mod MAX_ENTRIES)%nat). destruct (decide (i = k)) as [->|Hne].
  - rewrite list_lookup_alter_eq. destruct (es !! k) as [e|]; cbn [fmap option_fmap option_map mbind outcome_bind]; [|done].
    change (hmac (set_detail_len n e)) with (hmac e). change (serialize_for_hmac (set_detail_len n e) prev) with (serialize_for_hmac e prev).
    case_bool_decide; [apply IH|done].
  - rewrite list_lookup_alter_ne by done. destruct (es !! k) as [e|]; cbn [mbind outcome_bind]; [|done]. case_bool_decide; [apply IH|done].
Qed.

(** The length of an entry's detail is not under the MAC: changing it, in any entry
    and to any value, never changes the verdict of the verification. *)
Theorem detail_length_not_authenticated l i n :
  verify_chain hmac_sha256 MAX_ENTRIES key (relabel i n l) = verify_chain hmac_sha256 MAX_ENTRIES key l.
Proof. unfold verify_chain. cbn [count head root_hmac entries relabel]. cbv zeta. by rewrite verify_from_relabel. Qed.

End spec.

(** ** Instances

    A checksum in place of the MAC, and a ring of two. *)

Definition checksum (key m : list Z) : list Z := replicate SHA256_DIGEST_LEN (foldr Z.add 0 (key ++ m) mod 2 ^ 8).

Definition three_events : list event :=
  [mk_event AuthFail 1 [1; 2] 10; mk_event CapDeny 2 [] 20; mk_event PacketLog 0 (replicate 70 65) 30].

Lemma audit_log_keeps_latest_witness :
  exists l, log_all checksum 2 [7] three_events (new 2) = Ret l /\ verify_chain checksum 2 [7] l = Ret (Ok tt) /\ root_hmac l <> GENESIS_HMAC.
Proof.
  destruct (audit_log_keeps_latest checksum 2 ltac:(lia) [7] eq_refl three_events) as (l & Hl & Hv & _).
  exists l. split; [exact Hl|]. split; [exact Hv|]. vm_compute in Hl. injection Hl as <-. vm_compute. discriminate.
Defined.

(** The checksum is easily forged: a last entry with another process but the
    same sum passes, and is the second case. *)
Definition honest_log : AuditLog := match log_all checksum 2 [7] three_events (new 2) with Ret l => l | Panic => new 2 end.
Definition forged_log : AuditLog :=
  mk_log (alter (fun e => mk_entry (timestamp e - 1) (event_type e) (pid e + 1) (detail_buf e) (detail_len e) (hmac e)) 0%nat (entries honest_log))
    (head honest_log) (count honest_log) (last_hmac honest_log) (root_hmac honest_log).

Lemma tampering_needs_a_mac_witness :
  ~ Forall2 same (ring_view (entries honest_log) 1 2) (ring_view (entries forged_log) 1 2) /\
  exists e' prev, pid e' = 1 /\ hmac e' = checksum [7] (serialize_for_hmac e' prev).
Proof.
  assert (~ Forall2 same (ring_view (entries honest_log) 1 2) (ring_view (entries forged_log) 1 2)) as Hne.
  { intros H. vm_compute in H. inversion_clear H as [|? ? ? ? _ H']. inversion_clear H' as [|? ? ? ? [Hc _] _]. vm_compute in Hc. discriminate. }
  split; [exact Hne|].
  destruct (tampering_needs_a_mac checksum 2 ltac:(lia) [7] eq_refl three_events honest_log forged_log) as [H|(i & e & e' & He & He' & _ & Hd & Hm)].
  - repeat (apply Forall_cons; split; [vm_compute; repeat split; discriminate || reflexivity|]). by apply Forall_nil.
  - vm_compute. reflexivity.
  - vm_compute. reflexivity.
  - repeat (apply Forall_cons; split; [vm_compute; repeat split; discriminate || reflexivity|]). by apply Forall_nil.
  - reflexivity.
  - reflexivity.
  - reflexivity.
  - vm_compute. reflexivity.
  - exfalso. exact (Hne H).
  - exists e', (last_mac (chain_root 2 honest_log) (take i (ring_view (entries honest_log) (start_of 2 honest_log) (count honest_log)))).
    split; [|exact Hm]. destruct i as [|[|i]]; vm_compute in He'; [|injection He' as <-; reflexivity|discriminate].
    vm_compute in He. injection He as <-. injection He' as <-. exfalso. apply Hd. reflexivity.
Defined.
End audit.
