(* ===== verification/Firewall.v ===== *)
(** * The packet filter ([crates/asphaleia-core/src/lib.rs], [crates/thumos/src/firewall.rs])

    Header fields, query names and the surveillance list as both sides of the
    system share them (Module [asphaleia]), and the kernel's filter with its
    rules, its name blocklist and the events it hands to the audit log (Module
    [firewall]). A [&str] is its UTF-8 bytes. *)

From S2P Require Import Prelude Machine Ring AuditLog.
From Stdlib Require Import ZArith.
From Stdlib Require Ascii String.
Import String.StringSyntax.
Delimit Scope string_scope with string.
Open Scope Z_scope.

(** The bytes of an ASCII literal. *)
Definition str (s : String.string) : list Z := (fun a => Z.of_nat (Ascii.nat_of_ascii a)) <$> String.list_ascii_of_string s.

(** [u16::from_be_bytes] and [u32::from_be_bytes]. *)
Definition be16 (b0 b1 : Z) : Z := b0 * 256 + b1.
Definition be32 (b0 b1 b2 b3 : Z) : Z := ((b0 * 256 + b1) * 256 + b2) * 256 + b3.

(** [data.get(i..)]. *)
Definition get_from {A} (l : list A) (i : nat) : option (list A) := if (i <=? length l)%nat then Some (drop i l) else None.
(** [data.get(i..j)]. *)
Definition get_range {A} (l : list A) (i j : nat) : option (list A) :=
  if (i <=? j)%nat && (j <=? length l)%nat then Some (take (j - i) (drop i l)) else None.

(** [u8::to_ascii_lowercase] and [char::to_ascii_lowercase]: on UTF-8 both change
    the bytes of ASCII capitals only. *)
Definition lower_byte (b : Z) : Z := if (65 <=? b) && (b <=? 90) then b + 32 else b.
Definition lowercase (s : list Z) : list Z := lower_byte <$> s.

Import utf8.

Module asphaleia.

Definition PROTO_ICMP : Z := 1.
Definition PROTO_TCP : Z := 6.
Definition PROTO_UDP : Z := 17.

Inductive ParseError := TooShort (needed got : nat) | InvalidVersion (version : Z) | InvalidIhl (ihl : Z).

Definition IPV4_MIN_HEADER_LEN : nat := 20.
Definition IPV4_VERSION : Z := 4.
Definition MIN_IHL : Z := 5.
Definition TCP_MIN_HEADER_LEN : nat := 20.
Definition UDP_HEADER_LEN : nat := 8.

Record Ipv4Fields := mk_ipv4 { version : Z; ihl : Z; total_length : Z; protocol : Z; src_addr : list Z; dst_addr : list Z }.
Record TcpFields := mk_tcp { tcp_src_port : Z; tcp_dst_port : Z; seq_no : Z; ack_no : Z; flags : Z }.
Record UdpFields := mk_udp { udp_src_port : Z; udp_dst_port : Z; udp_length : Z }.

(** [data.get(i).copied().unwrap_or_default()]. *)
Definition at_ (data : list Z) (i : nat) : Z := default 0 (data !! i).

Definition Ipv4Fields_parse (data : list Z) : result Ipv4Fields ParseError :=
  if (length data <? IPV4_MIN_HEADER_LEN)%nat then Err (TooShort IPV4_MIN_HEADER_LEN (length data)) else
  let version_ihl := at_ data 0 in
  let version := Z.shiftr version_ihl 4 in
  let ihl := Z.land version_ihl 0x0F in
  if negb (version =? IPV4_VERSION) then Err (InvalidVersion version) else
  if ihl <? MIN_IHL then Err (InvalidIhl ihl) else
  let header_len := (Z.to_nat ihl * 4)%nat in
  if (length data <? header_len)%nat then Err (TooShort header_len (length data)) else
  Ok (mk_ipv4 version ihl (be16 (at_ data 2) (at_ data 3)) (at_ data 9)
    [at_ data 12; at_ data 13; at_ data 14; at_ data 15] [at_ data 16; at_ data 17; at_ data 18; at_ data 19]).

Definition header_len (f : Ipv4Fields) : nat := (Z.to_nat (ihl f) * 4)%nat.

Definition TcpFields_parse (data : list Z) : result TcpFields ParseError :=
  if (length data <? TCP_MIN_HEADER_LEN)%nat then Err (TooShort TCP_MIN_HEADER_LEN (length data)) else
  Ok (mk_tcp (be16 (at_ data 0) (at_ data 1)) (be16 (at_ data 2) (at_ data 3))
    (be32 (at_ data 4) (at_ data 5) (at_ data 6) (at_ data 7)) (be32 (at_ data 8) (at_ data 9) (at_ data 10) (at_ data 11))
    (at_ data 13)).

Definition UdpFields_parse (data : list Z) : result UdpFields ParseError :=
  if (length data <? UDP_HEADER_LEN)%nat then Err (TooShort UDP_HEADER_LEN (length data)) else
  Ok (mk_udp (be16 (at_ data 0) (at_ data 1)) (be16 (at_ data 2) (at_ data 3)) (be16 (at_ data 4) (at_ data 5))).

Definition DNS_PORT : Z := 53.
Definition DNS_HEADER_LEN : nat := 12.
Definition MAX_LABELS : nat := 128.
Definition DOT : Z := 46.

(** The label loop. A 129th label ends it, so 129 rounds are enough. *)
Fixpoint qname (fuel : nat) (data : list Z) (pos : nat) (domain : list Z) (label_count : nat) : option (list Z) :=
  match fuel with
  | O => None
  | S fuel =>
      len_byte ← data !! pos;
      let pos := (pos + 1)%nat in
      if len_byte =? 0 then Some domain else
      if Z.land len_byte 0xC0 =? 0xC0 then None else
      let label_count := (label_count + 1)%nat in
      if (MAX_LABELS <? label_count)%nat then None else
      let label_end := (pos + Z.to_nat len_byte)%nat in
      label ← get_range data pos label_end;
      if negb (from_utf8 label) then None else
      let domain := (if bool_decide (domain = []) then domain else domain ++ [DOT]) ++ lowercase label in
      qname fuel data label_end domain label_count
  end.

Definition extract_query_domain (data : list Z) : option (list Z) :=
  if (length data <? DNS_HEADER_LEN)%nat then None else
  q4 ← data !! 4%nat; q5 ← data !! 5%nat;
  if be16 q4 q5 =? 0 then None else
  domain ← qname (S MAX_LABELS) data DNS_HEADER_LEN [] 0;
  if bool_decide (domain = []) then None else Some domain.

Definition SURVEILLANCE_DOMAINS : list (list Z) := str <$> [
  "graph.facebook.com"; "analytics.google.com"; "firebaselogging.googleapis.com"; "app-measurement.com"; "crashlytics.com";
  "doubleclick.net"; "googlesyndication.com"; "googleadservices.com"; "analytics.yahoo.com"; "ads.linkedin.com";
  "bat.bing.com"; "pixel.facebook.com"]%string.

(** [str::strip_suffix]. *)
Definition strip_suffix (s suffix : list Z) : option (list Z) :=
  let k := (length s - length suffix)%nat in
  if (length suffix <=? length s)%nat && bool_decide (drop k s = suffix) then Some (take k s) else None.

Definition domain_matches_suffix (domain suffix : list Z) : bool :=
  if bool_decide (domain = suffix) then true else
  match strip_suffix domain suffix with Some rest => bool_decide (last rest = Some DOT) | None => false end.

(** [entry.strip_prefix("*.").unwrap_or(entry)]. *)
Definition normalize_suffix (entry : list Z) : list Z :=
  match entry with 42 :: 46 :: rest => rest | _ => entry end.

Definition is_default_surveillance_domain (domain_lowercased : list Z) : bool :=
  existsb (domain_matches_suffix domain_lowercased) SURVEILLANCE_DOMAINS.

(** ** Names as lists of labels *)

Fixpoint join (ls : list (list Z)) : list Z :=
  match ls with
  | [] => []
  | [l] => l
  | l :: ls => l ++ DOT :: join ls
  end.

Fixpoint split (s : list Z) : list (list Z) :=
  match s with
  | [] => [[]]
  | b :: s =>
      if b =? DOT then [] :: split s
      else match split s with l :: ls => (b :: l) :: ls | [] => [[b]] end
  end.

Definition dot_free (l : list Z) : Prop := DOT ∉ l.

Lemma split_not_nil s : split s <> [].
Proof. destruct s as [|b s]; cbn; [done|]. destruct (b =? DOT); [done|]. by destruct (split s). Qed.

Lemma split_app a b : split (a ++ DOT :: b) = split a ++ split b.
Proof.
  induction a as [|x a IH]; cbn [app split]; [by rewrite Z.eqb_refl|]. rewrite IH. destruct (x =? DOT); [done|].
  pose proof (split_not_nil a). by destruct (split a).
Qed.

Lemma split_dot_free l : dot_free l -> split l = [l].
Proof.
  unfold dot_free. induction l as [|b l IH]; cbn [split]; [done|]. rewrite not_elem_of_cons. intros [Hb Hl].
  rewrite (proj2 (Z.eqb_neq _ _)) by done. by rewrite IH.
Qed.

Lemma join_cons l ls : ls <> [] -> join (l :: ls) = l ++ DOT :: join ls.
Proof. by destruct ls. Qed.

Lemma split_join ls : ls <> [] -> Forall dot_free ls -> split (join ls) = ls.
Proof.
  intros Hne Hf. induction Hf as [|l ls Hl Hf IH]; [done|]. destruct (decide (ls = [])) as [->|Hls]; [by apply split_dot_free|].
  rewrite join_cons, split_app, IH, (split_dot_free l) by done. done.
Qed.

Lemma join_app ls ks : ls <> [] -> ks <> [] -> join (ls ++ ks) = join ls ++ DOT :: join ks.
Proof.
  intros Hl Hk. induction ls as [|l ls IH]; [done|]. destruct (decide (ls = [])) as [->|Hls]; [cbn [app]; by rewrite join_cons|].
  cbn [app]. rewrite !join_cons by (destruct ls; done). rewrite IH by done. by rewrite <- app_assoc.
Qed.

(** Matching bytes is matching labels: a name is covered by an entry exactly
    when the entry's labels end it. *)
Lemma matches_suffix_of_labels ls bs :
  ls <> [] -> bs <> [] -> Forall dot_free ls -> Forall dot_free bs ->
  domain_matches_suffix (join ls) (join bs) = true <-> bs `suffix_of` ls.
Proof.
  intros Hl Hb Hfl Hfb. unfold domain_matches_suffix, strip_suffix. cbv zeta. set (k := (length (join ls) - length (join bs))%nat). split.
  - case_bool_decide as He.
    + intros _. exists []. rewrite <- (split_join ls), <- (split_join bs), He by done. done.
    + destruct (_ && _) eqn:E; [|done]. apply andb_true_iff in E as [_ E]. apply bool_decide_eq_true in E. rewrite bool_decide_eq_true. intros Hd.
      apply last_Some in Hd as [r Hr]. exists (split r). rewrite <- (split_join bs Hb Hfb), <- split_app, <- E.
      rewrite <- (split_join ls Hl Hfl) at 1. f_equal. rewrite <- (take_drop k (join ls)) at 1. rewrite Hr, <- app_assoc. done.
  - intros [pre ->]. case_bool_decide as He; [done|]. destruct (decide (pre = [])) as [->|Hp]; [done|].
    assert (k = length (join pre ++ [DOT])) as Hk by (subst k; rewrite join_app, !length_app by done; cbn; lia).
    assert (join (pre ++ bs) = (join pre ++ [DOT]) ++ join bs) as Hj by (rewrite join_app, <- app_assoc by done; done).
    rewrite (proj2 (Nat.leb_le _ _)) by (rewrite Hj, !length_app; lia). rewrite Hk, Hj, drop_app_length, take_app_length.
    rewrite bool_decide_eq_true_2 by done. cbn [andb]. rewrite last_snoc. by apply bool_decide_eq_true.
Qed.

(** ** Query names on the wire *)

Definition label_octets (l : list Z) : list Z := Z.of_nat (length l) :: l.
Definition label_ok (l : list Z) : Prop := (0 < length l < 192)%nat /\ from_utf8 l = true.

Definition extend (domain label : list Z) : list Z :=
  (if bool_decide (domain = []) then domain else domain ++ [DOT]) ++ lowercase label.

Lemma short_label n : (0 < n < 192)%nat -> (Z.of_nat n =? 0) = false /\ (Z.land (Z.of_nat n) 0xC0 =? 0xC0) = false.
Proof.
  intros Hn. assert (Forall (fun k => (Z.of_nat k =? 0) = false /\ (Z.land (Z.of_nat k) 0xC0 =? 0xC0) = false) (seq 1 191)) as H.
  { assert (forallb (fun k => negb (Z.of_nat k =? 0) && negb (Z.land (Z.of_nat k) 0xC0 =? 0xC0)) (seq 1 191) = true) as H by (vm_compute; reflexivity).
    apply Forall_forall. intros k Hk. rewrite forallb_forall in H. specialize (H k ltac:(by apply list_elem_of_In)). cbv beta in H. apply andb_true_iff in H as [H1 H2]. split; by apply negb_true_iff. }
  rewrite Forall_forall in H. apply H. apply elem_of_seq. lia.
Qed.

Lemma qname_labels ls : forall fuel pre rest domain count,
  Forall label_ok ls -> (length ls < fuel)%nat -> (count + length ls <= MAX_LABELS)%nat ->
  qname fuel (pre ++ (ls ≫= label_octets) ++ 0 :: rest) (length pre) domain count = Some (foldl extend domain ls).
Proof.
  induction ls as [|l ls IH]; intros [|fuel] pre rest domain cnt Hok Hf Hc; cbn [length] in *; try lia.
  - cbn [mbind list_bind app qname]. rewrite lookup_app_r, Nat.sub_diag by lia. done.
  - apply Forall_cons in Hok as [[Hl Hu] Hok]. cbn [mbind list_bind qname]. rewrite <- app_assoc. change (label_octets l) with (Z.of_nat (length l) :: l).
    rewrite lookup_app_r, Nat.sub_diag by lia. cbn [app lookup list_lookup mbind option_bind]. cbv zeta.
    destruct (short_label (length l) Hl) as [-> ->]. rewrite (proj2 (Nat.ltb_ge _ _)) by lia. rewrite Nat2Z.id.
    replace (pre ++ Z.of_nat (length l) :: l ++ (ls ≫= label_octets) ++ 0 :: rest)
      with ((pre ++ Z.of_nat (length l) :: l) ++ (ls ≫= label_octets) ++ 0 :: rest) by (by rewrite <- app_assoc).
    unfold get_range. rewrite (proj2 (Nat.leb_le _ _)), (proj2 (Nat.leb_le _ _)) by (repeat (rewrite length_app; cbn [length]); lia). cbn [andb].
    replace (take _ (drop (length pre + 1) _)) with l.
    2: { replace (pre ++ Z.of_nat (length l) :: l) with ((pre ++ [Z.of_nat (length l)]) ++ l) by (by rewrite <- app_assoc).
         rewrite <- app_assoc. replace (length pre + 1)%nat with (length (pre ++ [Z.of_nat (length l)])) by (rewrite length_app; cbn; lia).
         rewrite drop_app_length. replace (length (pre ++ [Z.of_nat (length l)]) + length l - length (pre ++ [Z.of_nat (length l)]))%nat with (length l) by lia.
         by rewrite take_app_length. }
    cbn [mbind option_bind]. rewrite Hu. cbn [negb].
    replace (length pre + 1 + length l)%nat with (length (pre ++ Z.of_nat (length l) :: l)) by (rewrite length_app; cbn; lia).
    rewrite IH by (done || lia). done.
Qed.

Lemma lowercase_nil l : lowercase l = [] <-> l = [].
Proof. unfold lowercase. by destruct l. Qed.

Lemma extend_join ls domain :
  Forall (fun l => l <> []) ls -> domain <> [] -> foldl extend domain ls = domain ++ (ls ≫= (fun l => DOT :: lowercase l)).
Proof.
  intros Hls. revert domain. induction Hls as [|l ls Hl Hls IH]; intros domain Hd; cbn [foldl mbind list_bind]; [by rewrite app_nil_r|].
  unfold extend at 2. rewrite bool_decide_eq_false_2 by done. rewrite IH by (by destruct domain). by rewrite <- !app_assoc.
Qed.

Lemma foldl_extend_join ls : Forall (fun l => l <> []) ls -> foldl extend [] ls = join (lowercase <$> ls).
Proof.
  intros Hls. destruct Hls as [|l ls Hl Hls]; [done|]. cbn [foldl]. unfold extend at 2. cbn [bool_decide].
  change (foldl extend (lowercase l) ls = join (lowercase l :: (lowercase <$> ls))). rewrite extend_join by (done || by rewrite lowercase_nil).
  revert l Hl. induction Hls as [|k ls Hk Hls IH]; intros l Hl; [by rewrite app_nil_r|].
  cbn [mbind list_bind fmap list_fmap app]. rewrite join_cons by done. f_equal. f_equal. by apply IH.
Qed.

Lemma lowercase_dot_free l : dot_free l -> dot_free (lowercase l).
Proof.
  unfold dot_free, lowercase. intros Hl Hin. apply list_elem_of_fmap in Hin as (b & Hb & Hin). apply Hl.
  unfold lower_byte, DOT in *. destruct (_ && _) eqn:E; bool_hyps; [lia|by subst b].
Qed.

(** The question section of a message: a header that counts at least one
    question, the labels of the first name, and anything after it. *)
Definition query (hdr : list Z) (ls : list (list Z)) (rest : list Z) : list Z := hdr ++ (ls ≫= label_octets) ++ 0 :: rest.
Definition query_ok (hdr : list Z) (ls : list (list Z)) : Prop :=
  length hdr = DNS_HEADER_LEN /\ be16 (hdr !!! 4%nat) (hdr !!! 5%nat) <> 0 /\ ls <> [] /\ (length ls <= MAX_LABELS)%nat /\ Forall label_ok ls.

Lemma extract_query hdr ls rest : query_ok hdr ls -> extract_query_domain (query hdr ls rest) = Some (join (lowercase <$> ls)).
Proof.
  intros (Hh & Hq & Hne & Hl & Hok). unfold extract_query_domain, query. unfold DNS_HEADER_LEN in *.
  rewrite (proj2 (Nat.ltb_ge _ _)) by (rewrite length_app; lia).
  rewrite !lookup_app_l by lia. rewrite !list_lookup_lookup_total_lt by lia. cbn [mbind option_bind]. rewrite (proj2 (Z.eqb_neq _ _)) by done.
  replace 12%nat with (length hdr) by done. rewrite qname_labels by (done || lia). cbn [mbind option_bind].
  assert (Forall (fun l => l <> []) ls) as Hnn by (eapply Forall_impl; [done|]; intros [|] [[? _] _]; cbn in *; [lia|done]).
  rewrite foldl_extend_join by done. rewrite bool_decide_eq_false_2; [done|].
  destruct Hnn as [|l ls Hl' Hnn]; [done|]. cbn [fmap list_fmap]. destruct (decide (ls = [])) as [->|Hls]; [cbn; by rewrite lowercase_nil|].
  rewrite join_cons by (by destruct ls). by destruct (lowercase l).
Qed.
End asphaleia.

Module firewall.

Definition IPV4_MIN_HEADER_LEN : nat := 20.
Definition IPV4_VERSION : Z := 4.
Definition MIN_IHL : Z := 5.
Definition TCP_MIN_HEADER_LEN : nat := 20.
Definition UDP_HEADER_LEN : nat := 8.
Definition PROTO_ICMP : Z := 1.
Definition PROTO_TCP : Z := 6.
Definition PROTO_UDP : Z := 17.
Definition DNS_PORT : Z := 53.
Definition EVENT_QUEUE_CAP : nat := 32.

Inductive Action := Allow | Deny | Log.
Inductive Direction := Inbound | Outbound.
Inductive Protocol := Tcp | Udp | Icmp.

#[export] Instance Action_eq_dec : EqDecision Action.
Proof. solve_decision. Defined.
#[export] Instance Direction_eq_dec : EqDecision Direction.
Proof. solve_decision. Defined.
#[export] Instance Protocol_eq_dec : EqDecision Protocol.
Proof. solve_decision. Defined.

Record PacketEvent := mk_pevent { e_direction : Direction; e_action : Action }.

(** An address is its four octets. *)
Record FilterRule := mk_rule {
  r_direction : Direction; r_protocol : option Protocol; r_src_addr : option (list Z); r_dst_addr : option (list Z);
  r_dst_port : option Z; r_action : Action;
}.

Record FirewallStats := mk_stats { packets_allowed : Z; packets_denied : Z; dns_blocked : Z }.

Record Firewall := mk_firewall {
  rules : list FilterRule; dns_blocklist : list (list Z); stats : FirewallStats;
  default_inbound : Action; default_outbound : Action; events : list PacketEvent; events_dropped : Z;
}.

Record PacketInfo := mk_info { i_protocol : Protocol; i_src_addr : list Z; i_dst_addr : list Z; i_dst_port : option Z }.

Definition new : Firewall := mk_firewall [] [] (mk_stats 0 0 0) Deny Allow [] 0.

Definition set_stats (fw : Firewall) (s : FirewallStats) : Firewall :=
  mk_firewall (rules fw) (dns_blocklist fw) s (default_inbound fw) (default_outbound fw) (events fw) (events_dropped fw).
Definition set_events (fw : Firewall) (evs : list PacketEvent) (dropped : Z) : Firewall :=
  mk_firewall (rules fw) (dns_blocklist fw) (stats fw) (default_inbound fw) (default_outbound fw) evs dropped.

Definition add_rule (rule : FilterRule) (fw : Firewall) : Firewall :=
  mk_firewall (rule :: rules fw) (dns_blocklist fw) (stats fw) (default_inbound fw) (default_outbound fw) (events fw) (events_dropped fw).

Definition add_dns_block (suffix : list Z) (fw : Firewall) : Firewall :=
  mk_firewall (rules fw) (dns_blocklist fw ++ [lowercase (asphaleia.normalize_suffix suffix)]) (stats fw)
    (default_inbound fw) (default_outbound fw) (events fw) (events_dropped fw).

Definition load_default_blocklist (fw : Firewall) : Firewall :=
  foldl (fun fw d => add_dns_block d fw) fw asphaleia.SURVEILLANCE_DOMAINS.

Definition parse_packet (packet : list Z) : option PacketInfo :=
  if (length packet <? IPV4_MIN_HEADER_LEN)%nat then None else
  version_ihl ← packet !! 0%nat;
  let version := Z.shiftr version_ihl 4 in
  let ihl := Z.land version_ihl 0x0F in
  if negb (version =? IPV4_VERSION) then None else
  if ihl <? MIN_IHL then None else
  let header_len := (Z.to_nat ihl * 4)%nat in
  if (length packet <? header_len)%nat then None else
  proto_byte ← packet !! 9%nat;
  s0 ← packet !! 12%nat; s1 ← packet !! 13%nat; s2 ← packet !! 14%nat; s3 ← packet !! 15%nat;
  d0 ← packet !! 16%nat; d1 ← packet !! 17%nat; d2 ← packet !! 18%nat; d3 ← packet !! 19%nat;
  payload ← get_from packet header_len;
  if proto_byte =? PROTO_TCP then
    if (length payload <? TCP_MIN_HEADER_LEN)%nat then None else
    p2 ← payload !! 2%nat; p3 ← payload !! 3%nat;
    Some (mk_info Tcp [s0; s1; s2; s3] [d0; d1; d2; d3] (Some (be16 p2 p3)))
  else if proto_byte =? PROTO_UDP then
    if (length payload <? UDP_HEADER_LEN)%nat then None else
    p2 ← payload !! 2%nat; p3 ← payload !! 3%nat;
    Some (mk_info Udp [s0; s1; s2; s3] [d0; d1; d2; d3] (Some (be16 p2 p3)))
  else if proto_byte =? PROTO_ICMP then Some (mk_info Icmp [s0; s1; s2; s3] [d0; d1; d2; d3] None)
  else None.

Definition is_dns_blocked_lowercased (lowercased_hostname : list Z) (fw : Firewall) : bool :=
  existsb (asphaleia.domain_matches_suffix lowercased_hostname) (dns_blocklist fw).

Definition is_dns_blocked (hostname : list Z) (fw : Firewall) : bool :=
  is_dns_blocked_lowercased (lowercase hostname) fw.

(** The payload that should hold a query: [None] when there is none to be
    found, [Some None] when the segment carries no query at all. *)
Definition dns_payload (packet : list Z) (info : PacketInfo) : option (option (list Z)) :=
  first ← packet !! 0%nat;
  let ihl := (Z.to_nat (Z.land first 0x0F) * 4)%nat in
  match i_protocol info with
  | Udp => Some <$> get_from packet (ihl + UDP_HEADER_LEN)
  | Tcp =>
      data_offset_byte ← packet !! (ihl + 12)%nat;
      let tcp_header_len := (Z.to_nat (Z.shiftr data_offset_byte 4) * 4)%nat in
      if (tcp_header_len <? TCP_MIN_HEADER_LEN)%nat then None else
      tcp_payload ← get_from packet (ihl + tcp_header_len);
      if bool_decide (tcp_payload = []) then Some None else
      if (length tcp_payload <? 2)%nat then None else
      Some (Some (drop 2 tcp_payload))
  | Icmp => Some None
  end.

Definition check_dns_blocklist (packet : list Z) (info : PacketInfo) (fw : Firewall) : option bool :=
  if bool_decide (dns_blocklist fw = []) then Some false else
  payload ← dns_payload packet info;
  match payload with
  | None => Some false
  | Some payload =>
      domain ← asphaleia.extract_query_domain payload;
      Some (is_dns_blocked_lowercased domain fw)
  end.

Definition opt_matches {A} `{EqDecision A} (constraint : option A) (value : A) : bool :=
  match constraint with Some c => bool_decide (c = value) | None => true end.

Definition rule_matches (rule : FilterRule) (direction : Direction) (info : PacketInfo) : bool :=
  bool_decide (r_direction rule = direction) && opt_matches (r_protocol rule) (i_protocol info) &&
  opt_matches (r_src_addr rule) (i_src_addr info) && opt_matches (r_dst_addr rule) (i_dst_addr info) &&
  match r_dst_port rule with
  | Some rule_port => match i_dst_port info with Some pkt_port => rule_port =? pkt_port | None => false end
  | None => true
  end.

(** The rules in order, then the default of the direction. *)
Definition rule_action (direction : Direction) (info : PacketInfo) (fw : Firewall) : Action :=
  match List.find (fun rule => rule_matches rule direction info) (rules fw) with
  | Some rule => r_action rule
  | None => match direction with Inbound => default_inbound fw | Outbound => default_outbound fw end
  end.

Definition classify (packet : list Z) (direction : Direction) (fw : Firewall) : Action * Firewall :=
  match parse_packet packet with
  | None => (Deny, fw)
  | Some info =>
      if (bool_decide (i_protocol info = Udp) || bool_decide (i_protocol info = Tcp)) &&
         bool_decide (i_dst_port info = Some DNS_PORT) && default true (check_dns_blocklist packet info fw) then
        (Deny, set_stats fw (mk_stats (packets_allowed (stats fw)) (packets_denied (stats fw)) (wrap64 (dns_blocked (stats fw) + 1))))
      else (rule_action direction info fw, fw)
  end.

Definition record (action : Action) (fw : Firewall) : Firewall :=
  let s := stats fw in
  match action with
  | Allow | Log => set_stats fw (mk_stats (wrap64 (packets_allowed s + 1)) (packets_denied s) (dns_blocked s))
  | Deny => set_stats fw (mk_stats (packets_allowed s) (wrap64 (packets_denied s + 1)) (dns_blocked s))
  end.

Definition note_event (direction : Direction) (action : Action) (fw : Firewall) : Firewall :=
  match action with
  | Allow => fw
  | Log | Deny =>
      if (EVENT_QUEUE_CAP <=? length (events fw))%nat
      then set_events fw (events fw) (Z.min (events_dropped fw + 1) (2 ^ 64 - 1))
      else set_events fw (events fw ++ [mk_pevent direction action]) (events_dropped fw)
  end.

Definition evaluate (direction : Direction) (packet : list Z) (fw : Firewall) : Action * Firewall :=
  let '(action, fw) := classify packet direction fw in
  let fw := record action fw in
  let fw := note_event direction action fw in
  (action, fw).

Definition evaluate_rx : list Z -> Firewall -> Action * Firewall := evaluate Inbound.
Definition evaluate_tx : list Z -> Firewall -> Action * Firewall := evaluate Outbound.

(** ** Committing the events *)

(** Decimal digits, least significant first. The array has ten places and the
    count is a [u32], so the index stays in range. *)
Fixpoint deny_digits (fuel : nat) (digits : list Z) (ndigits : nat) (n : Z) : outcome (list Z * nat) :=
  if 0 <? n then
    match fuel with
    | O => Panic
    | S fuel =>
        digits ← store digits ndigits (48 + wrap8 (n mod 10));
        deny_digits fuel digits (ndigits + 1) (n / 10)
    end
  else Ret (digits, ndigits).

(** [for i in (0..ndigits).rev()]. *)
Fixpoint copy_down (i : nat) (digits : list Z) (pos : nat) (buf : list Z) : outcome (list Z * nat) :=
  match i with
  | O => Ret (buf, pos)
  | S i =>
      d ← index digits i;
      buf ← store buf pos d;
      copy_down i digits (pos + 1) buf
  end.

Definition deny_suffix (direction : Direction) : list Z :=
  match direction with Inbound => str " inbound packet(s) denied"%string | Outbound => str " outbound packet(s) denied"%string end.

Definition format_deny_detail (count : Z) (direction : Direction) (buf : list Z) : outcome (list Z * nat) :=
  '(digits, ndigits) ←
    (if count =? 0 then Ret (<[0%nat := 48]> (replicate 10 0), 1%nat) else deny_digits 11 (replicate 10 0) 0 count);
  '(buf, pos) ← copy_down ndigits digits 0 buf;
  let suffix := deny_suffix direction in
  let copy := Nat.min (length suffix) (audit.DETAIL_LEN - pos) in
  tail ← copy_prefix (drop pos buf) suffix copy;
  Ret (take pos buf ++ tail, (pos + copy)%nat).

Section flush.
Context (hmac_sha256 : list Z -> list Z -> list Z) (MAX_ENTRIES : nat).

Definition log_detail (direction : Direction) : list Z :=
  match direction with Inbound => str "inbound packet logged"%string | Outbound => str "outbound packet logged"%string end.

(** The loop that pops the queue. *)
Fixpoint drain (evs : list PacketEvent) (log : audit.AuditLog) (audit_key : list Z) (timestamp : Z)
    (appended : nat) (inbound_denied outbound_denied : Z) : outcome (audit.AuditLog * nat * Z * Z) :=
  match evs with
  | [] => Ret (log, appended, inbound_denied, outbound_denied)
  | ev :: evs =>
      match e_action ev with
      | Log =>
          '(r, log) ← audit.log_event hmac_sha256 MAX_ENTRIES audit.PacketLog 0 (log_detail (e_direction ev)) timestamp audit_key log;
          drain evs log audit_key timestamp (if is_ok r then appended + 1 else appended)%nat inbound_denied outbound_denied
      | Deny =>
          match e_direction ev with
          | Inbound => drain evs log audit_key timestamp appended (wrap32 (inbound_denied + 1)) outbound_denied
          | Outbound => drain evs log audit_key timestamp appended inbound_denied (wrap32 (outbound_denied + 1))
          end
      | Allow => drain evs log audit_key timestamp appended inbound_denied outbound_denied
      end
  end.

(** One round of the loop over the two directions. *)
Definition summarize (count : Z) (direction : Direction) (log : audit.AuditLog) (audit_key : list Z) (timestamp : Z) (appended : nat) :
    outcome (audit.AuditLog * nat) :=
  if count =? 0 then Ret (log, appended) else
  '(buf, len) ← format_deny_detail count direction (replicate audit.DETAIL_LEN 0);
  if (length buf <? len)%nat then Panic else
  '(r, log) ← audit.log_event hmac_sha256 MAX_ENTRIES audit.PacketDeny 0 (take len buf) timestamp audit_key log;
  Ret (log, (if is_ok r then appended + 1 else appended)%nat).

Definition flush_packet_audit (fw : Firewall) (log : audit.AuditLog) (audit_key : list Z) (timestamp : Z) :
    outcome (nat * Firewall * audit.AuditLog) :=
  '(log, appended, inbound_denied, outbound_denied) ← drain (events fw) log audit_key timestamp 0 0 0;
  let fw := set_events fw [] (events_dropped fw) in
  '(log, appended) ← summarize inbound_denied Inbound log audit_key timestamp appended;
  '(log, appended) ← summarize outbound_denied Outbound log audit_key timestamp appended;
  Ret (appended, fw, log).

End flush.

(** ** The two parsers agree *)

Lemma at_lookup l i b : l !! i = Some b -> asphaleia.at_ l i = b.
Proof. unfold asphaleia.at_. by intros ->. Qed.

(** The kernel filter reads packets exactly as the shared parser does: it accepts
    a packet when the IPv4 header parses and is followed by a TCP, UDP or ICMP
    message whose own header parses, takes addresses and destination port from
    the same fields, and rejects everything else. *)
Theorem parse_packet_agrees packet :
  parse_packet packet =
  match asphaleia.Ipv4Fields_parse packet with
  | Err _ => None
  | Ok ip =>
      let payload := drop (asphaleia.header_len ip) packet in
      let info proto port := mk_info proto (asphaleia.src_addr ip) (asphaleia.dst_addr ip) port in
      if asphaleia.protocol ip =? asphaleia.PROTO_TCP then
        match asphaleia.TcpFields_parse payload with Ok tcp => Some (info Tcp (Some (asphaleia.tcp_dst_port tcp))) | Err _ => None end
      else if asphaleia.protocol ip =? asphaleia.PROTO_UDP then
        match asphaleia.UdpFields_parse payload with Ok udp => Some (info Udp (Some (asphaleia.udp_dst_port udp))) | Err _ => None end
      else if asphaleia.protocol ip =? asphaleia.PROTO_ICMP then Some (info Icmp None)
      else None
  end.
Proof.
  unfold parse_packet, asphaleia.Ipv4Fields_parse. change asphaleia.IPV4_MIN_HEADER_LEN with IPV4_MIN_HEADER_LEN.
  destruct (_ <? _)%nat eqn:Hlen; [done|]. apply Nat.ltb_ge in Hlen. unfold IPV4_MIN_HEADER_LEN in Hlen.
  assert (forall i, (i < 20)%nat -> packet !! i = Some (asphaleia.at_ packet i)) as Hat.
  { intros i Hi. destruct (lookup_lt_is_Some_2 packet i) as [b Hb]; [lia|]. by rewrite (at_lookup _ _ _ Hb). }
  rewrite (Hat 0%nat), (Hat 9%nat), (Hat 12%nat), (Hat 13%nat), (Hat 14%nat), (Hat 15%nat), (Hat 16%nat), (Hat 17%nat), (Hat 18%nat), (Hat 19%nat) by lia.
  cbn [mbind option_bind]. cbv zeta. change asphaleia.IPV4_VERSION with IPV4_VERSION. destruct (negb _); [done|].
  change asphaleia.MIN_IHL with MIN_IHL. destruct (_ <? MIN_IHL); [done|]. destruct (length packet <? _)%nat eqn:Hh; [done|]. apply Nat.ltb_ge in Hh.
  unfold get_from. rewrite (proj2 (Nat.leb_le _ _)) by done. cbn [mbind option_bind asphaleia.protocol asphaleia.header_len asphaleia.ihl asphaleia.src_addr asphaleia.dst_addr].
  set (payload := drop _ packet). unfold asphaleia.TcpFields_parse, asphaleia.UdpFields_parse.
  change asphaleia.PROTO_TCP with PROTO_TCP. change asphaleia.PROTO_UDP with PROTO_UDP. change asphaleia.PROTO_ICMP with PROTO_ICMP.
  change asphaleia.TCP_MIN_HEADER_LEN with TCP_MIN_HEADER_LEN. change asphaleia.UDP_HEADER_LEN with UDP_HEADER_LEN.
  assert (forall n i, (length payload <? n)%nat = false -> (i < n)%nat -> payload !! i = Some (asphaleia.at_ payload i)) as Hpay.
  { intros n i Hn Hi. apply Nat.ltb_ge in Hn. destruct (lookup_lt_is_Some_2 payload i) as [b Hb]; [lia|]. by rewrite (at_lookup _ _ _ Hb). }
  destruct (_ =? PROTO_TCP); [|destruct (_ =? PROTO_UDP); [|done]]; destruct (length payload <? _)%nat eqn:Hp; try done;
    rewrite !(Hpay _ _ Hp) by (unfold TCP_MIN_HEADER_LEN, UDP_HEADER_LEN; lia); done.
Qed.

(** ** Queries on the wire *)

Definition ip_header (h : list Z) (proto : Z) : Prop :=
  exists ihl : nat, (5 <= ihl <= 15)%nat /\ length h = (ihl * 4)%nat /\ h !! 0%nat = Some (0x40 + Z.of_nat ihl) /\ h !! 9%nat = Some proto.

Definition to_dns (l4 : list Z) : Prop := l4 !! 2%nat = Some 0 /\ l4 !! 3%nat = Some 53.

(** What precedes a query message in a packet: an IPv4 header with any options,
    then a UDP header, or a TCP header with any options and the two octets
    that give the message's length. *)
Inductive dns_carrier : Protocol -> list Z -> Prop :=
  | udp_carrier h u : ip_header h PROTO_UDP -> length u = 8%nat -> to_dns u -> dns_carrier Udp (h ++ u)
  | tcp_carrier h t off x len : ip_header h PROTO_TCP -> (5 <= off <= 15)%nat -> length t = (off * 4)%nat -> to_dns t ->
      0 <= x < 16 -> t !! 12%nat = Some (Z.of_nat off * 16 + x) -> length len = 2%nat -> dns_carrier Tcp (h ++ t ++ len).

Lemma first_octet ihl : (5 <= ihl <= 15)%nat ->
  Z.shiftr (0x40 + Z.of_nat ihl) 4 = 4 /\ Z.to_nat (Z.land (0x40 + Z.of_nat ihl) 0x0F) = ihl /\ 5 <= Z.land (0x40 + Z.of_nat ihl) 0x0F.
Proof.
  intros H. assert (Forall (fun k => Z.shiftr (0x40 + Z.of_nat k) 4 = 4 /\ Z.to_nat (Z.land (0x40 + Z.of_nat k) 0x0F) = k /\ 5 <= Z.land (0x40 + Z.of_nat k) 0x0F) (seq 5 11)) as Hall.
  { repeat (apply Forall_cons; split; [vm_compute; repeat split; discriminate || reflexivity|]). by apply Forall_nil. }
  rewrite Forall_forall in Hall. apply Hall, elem_of_seq. lia.
Qed.

Lemma data_offset off x : 0 <= x < 16 -> Z.to_nat (Z.shiftr (Z.of_nat off * 16 + x) 4) = off.
Proof. intros Hx. rewrite Z.shiftr_div_pow2 by lia. rewrite Z.div_add_l by lia. rewrite Z.div_small by lia. lia. Qed.

(** The filter finds the query behind a carrier. *)
Lemma carried_query p pre msg :
  dns_carrier p pre -> exists src dst, parse_packet (pre ++ msg) = Some (mk_info p src dst (Some DNS_PORT)) /\
    (p = Udp \/ p = Tcp) /\ dns_payload (pre ++ msg) (mk_info p src dst (Some DNS_PORT)) = Some (Some msg).
Proof.
  intros Hc. assert (exists h l4 proto, pre ++ msg = h ++ l4 /\ ip_header h proto /\ to_dns l4 /\
    (p = Udp /\ proto = PROTO_UDP /\ (exists u, length u = 8%nat /\ l4 = u ++ msg) \/
     p = Tcp /\ proto = PROTO_TCP /\ exists t off x len, (5 <= off <= 15)%nat /\ length t = (off * 4)%nat /\ 0 <= x < 16 /\
       t !! 12%nat = Some (Z.of_nat off * 16 + x) /\ length len = 2%nat /\ l4 = t ++ len ++ msg)) as (h & l4 & proto & -> & Hh & Hd & Hcase).
  { destruct Hc as [h u Hh Hu [H2 H3]|h t off x len Hh Hoff Ht [H2 H3] Hx Ht12 Hlen].
    - exists h, (u ++ msg), PROTO_UDP. rewrite <- app_assoc. split_and!; [done|done|split; rewrite lookup_app_l by lia; done|]. left. split_and!; [done|done|]. by exists u.
    - exists h, (t ++ len ++ msg), PROTO_TCP. rewrite <- !app_assoc. split_and!; [done|done|split; rewrite lookup_app_l by lia; done|].
      right. split_and!; [done|done|]. exists t, off, x, len. done. }
  destruct Hh as (ihl & Hihl & Hlen & H0 & H9). destruct (first_octet ihl Hihl) as (Hver & Hlo & Hmin). destruct Hd as [H2 H3].
  assert (forall i, (i < 20)%nat -> (h ++ l4) !! i = h !! i) as Hl by (intros; apply lookup_app_l; lia).
  assert (forall i, (i < 20)%nat -> exists b, h !! i = Some b) as Hb by (intros i Hi; apply lookup_lt_is_Some_2; lia).
  assert (8 <= length l4)%nat as Hl8 by (destruct Hcase as [(_ & _ & u & ? & ->)|(_ & _ & t & off & x & len & ? & ? & _ & _ & _ & ->)]; rewrite length_app; lia).
  assert (proto = PROTO_TCP -> 20 <= length l4)%nat as Hl20 by (destruct Hcase as [(_ & -> & _)|(_ & _ & t & off & x & len & ? & ? & _ & _ & _ & ->)]; [done|rewrite length_app; lia]).
  destruct (Hb 12%nat) as [s0 E12], (Hb 13%nat) as [s1 E13], (Hb 14%nat) as [s2 E14], (Hb 15%nat) as [s3 E15]; [lia..|].
  destruct (Hb 16%nat) as [d0 E16], (Hb 17%nat) as [d1 E17], (Hb 18%nat) as [d2 E18], (Hb 19%nat) as [d3 E19]; [lia..|].
  exists [s0; s1; s2; s3], [d0; d1; d2; d3]. unfold parse_packet, dns_payload. unfold IPV4_MIN_HEADER_LEN, IPV4_VERSION, MIN_IHL.
  rewrite (proj2 (Nat.ltb_ge _ _)) by (rewrite length_app; lia).
  rewrite !Hl, H0, H9, E12, E13, E14, E15, E16, E17, E18, E19 by lia. cbn [mbind option_bind]. cbv zeta. rewrite Hver, Hlo. cbn [Z.eqb Pos.eqb negb].
  rewrite (proj2 (Z.ltb_ge _ _)) by lia. rewrite (proj2 (Nat.ltb_ge _ _)) by (rewrite length_app; lia).
  unfold get_from. rewrite (proj2 (Nat.leb_le _ _)) by (rewrite length_app; lia). rewrite <- Hlen, drop_app_length. cbn [mbind option_bind].
  rewrite H2, H3. destruct Hcase as [(-> & -> & u & Hu & ->)|(-> & -> & t & off & x & len & Hoff & Ht & Hx & Ht12 & Hln & ->)]; cbn [i_protocol].
  - change (PROTO_UDP =? PROTO_TCP) with false. change (PROTO_UDP =? PROTO_UDP) with true. cbv iota. unfold UDP_HEADER_LEN.
    rewrite (proj2 (Nat.ltb_ge _ _)) by lia. split_and!; [done|by left|].
    rewrite (proj2 (Nat.leb_le _ _)) by (rewrite !length_app; lia). replace (length h + 8)%nat with (length (h ++ u)) by (rewrite length_app; lia).
    rewrite app_assoc, drop_app_length. done.
  - change (PROTO_TCP =? PROTO_TCP) with true. cbv iota. unfold TCP_MIN_HEADER_LEN. rewrite (proj2 (Nat.ltb_ge (length (t ++ len ++ msg)) 20)) by (by apply Hl20). split_and!; [done|by right|].
    rewrite lookup_app_r by lia. replace (length h + 12 - length h)%nat with 12%nat by lia. rewrite lookup_app_l, Ht12 by lia. cbn [mbind option_bind].
    rewrite data_offset by done. rewrite (proj2 (Nat.ltb_ge _ _)) by lia. rewrite (proj2 (Nat.leb_le _ _)) by (rewrite !length_app; lia).
    cbn [mbind option_bind]. replace (length h + off * 4)%nat with (length (h ++ t)) by (rewrite length_app; lia). rewrite app_assoc, drop_app_length.
    rewrite bool_decide_eq_false_2 by (by destruct len). rewrite (proj2 (Nat.ltb_ge _ _)) by (rewrite length_app; lia).
    rewrite <- Hln, drop_app_length. done.
Qed.
(** What the filter decides, whatever it records. *)
Lemma evaluate_action dir packet fw : (evaluate dir packet fw).1 = (classify packet dir fw).1.
Proof. unfold evaluate. by destruct (classify packet dir fw). Qed.

(** The decision on a packet that carries a message to port 53, blocklist in use. *)
Lemma classify_carried dir p pre msg fw :
  dns_carrier p pre -> dns_blocklist fw <> [] ->
  exists info, parse_packet (pre ++ msg) = Some info /\
    (classify (pre ++ msg) dir fw).1 =
    match asphaleia.extract_query_domain msg with
    | Some domain => if is_dns_blocked_lowercased domain fw then Deny else rule_action dir info fw
    | None => Deny
    end.
Proof.
  intros Hc Hb. destruct (carried_query p pre msg Hc) as (src & dst & Hp & Hproto & Hpay). eexists. split; [done|].
  unfold classify, check_dns_blocklist. rewrite Hp. rewrite (bool_decide_eq_false_2 (dns_blocklist fw = [])) by done.
  rewrite Hpay. cbn [i_protocol i_dst_port mbind option_bind].
  rewrite (bool_decide_eq_true_2 (Some DNS_PORT = Some DNS_PORT)) by done.
  replace (bool_decide (p = Udp) || bool_decide (p = Tcp)) with true by (by destruct Hproto as [-> | ->]). cbn [andb].
  destruct (asphaleia.extract_query_domain msg) as [domain|]; cbn [mbind option_bind default from_option id]; [|done].
  by destruct (is_dns_blocked_lowercased domain fw).
Qed.

Definition entry_ok (d : list (list Z)) : Prop := d <> [] /\ Forall asphaleia.dot_free d.

(** The blocklist as names: an entry covers a name whose last labels it is. *)
Definition covered (ds : list (list (list Z))) (ls : list (list Z)) : Prop :=
  exists d, d ∈ ds /\ d `suffix_of` (lowercase <$> ls).

Lemma blocked_iff_covered fw ds ls :
  dns_blocklist fw = asphaleia.join <$> ds -> Forall entry_ok ds -> ls <> [] -> Forall asphaleia.dot_free ls ->
  is_dns_blocked_lowercased (asphaleia.join (lowercase <$> ls)) fw = true <-> covered ds ls.
Proof.
  intros Hb Hds Hne Hf. unfold is_dns_blocked_lowercased. rewrite Hb, existsb_exists.
  assert (Forall asphaleia.dot_free (lowercase <$> ls)) as Hfl by (apply Forall_fmap; eapply Forall_impl; [done|]; intros; by apply asphaleia.lowercase_dot_free).
  assert (lowercase <$> ls <> []) as Hnl by (by destruct ls). split.
  - intros (s & Hin & Hm). apply list_elem_of_In, list_elem_of_fmap in Hin as (d & -> & Hd). exists d. split; [done|].
    rewrite Forall_forall in Hds. destruct (Hds d Hd) as [Hdn Hdf]. by apply asphaleia.matches_suffix_of_labels in Hm.
  - intros (d & Hd & Hs). exists (asphaleia.join d). rewrite Forall_forall in Hds. destruct (Hds d Hd) as [Hdn Hdf].
    split; [apply list_elem_of_In, list_elem_of_fmap; by exists d|]. by apply asphaleia.matches_suffix_of_labels.
Qed.

(** C27: The name blocklist is exact and fails closed. The list is not empty, and the
    packet carries a query in UDP, or as the first message of a TCP segment,
    whatever IP or TCP options precede it and whatever follows the first name.
    When the last labels of the name, case aside, are an entry of the list, the
    packet is denied whatever the rules say; otherwise the blocklist plays no part
    and the rules decide. A message to port 53 in which no name can be read is
    denied. *)
Theorem dns_blocklist_exact fw ds dir p pre :
  dns_blocklist fw = asphaleia.join <$> ds -> ds <> [] -> Forall entry_ok ds -> dns_carrier p pre ->
  (forall hdr ls rest, asphaleia.query_ok hdr ls -> Forall asphaleia.dot_free ls ->
     let packet := pre ++ asphaleia.query hdr ls rest in
     (covered ds ls -> (evaluate dir packet fw).1 = Deny) /\
     (~ covered ds ls -> exists info, parse_packet packet = Some info /\ (evaluate dir packet fw).1 = rule_action dir info fw)) /\
  (forall msg, asphaleia.extract_query_domain msg = None -> (evaluate dir (pre ++ msg) fw).1 = Deny).
Proof.
  intros Hb Hne Hds Hc. assert (dns_blocklist fw <> []) as Hbl by (rewrite Hb; by destruct ds). split.
  - intros hdr ls rest Hq Hf packet. subst packet. rewrite evaluate_action.
    destruct (classify_carried dir p pre (asphaleia.query hdr ls rest) fw Hc Hbl) as (info & Hi & ->). rewrite asphaleia.extract_query by done.
    pose proof (blocked_iff_covered fw ds ls Hb Hds (proj1 (proj2 (proj2 Hq))) Hf) as Hiff.
    destruct (is_dns_blocked_lowercased _ fw); split; intros Hcov.
    + done.
    + exfalso. by apply Hcov, Hiff.
    + apply Hiff in Hcov. done.
    + by exists info.
  - intros msg Hm. rewrite evaluate_action. destruct (classify_carried dir p pre msg fw Hc Hbl) as (info & _ & ->). by rewrite Hm.
Qed.

(** The default list, as labels. *)
Definition default_entries : list (list (list Z)) := asphaleia.split <$> asphaleia.SURVEILLANCE_DOMAINS.

Lemma default_blocklist : dns_blocklist (load_default_blocklist new) = asphaleia.join <$> default_entries /\ Forall entry_ok default_entries.
Proof.
  split; [vm_compute; reflexivity|]. apply Forall_forall. intros d Hd.
  assert (forallb (fun d => negb (bool_decide (d = [])) && forallb (fun l => negb (existsb (Z.eqb asphaleia.DOT) l)) d) default_entries = true)
    as Hall by (vm_compute; reflexivity).
  rewrite forallb_forall in Hall. specialize (Hall d ltac:(by apply list_elem_of_In)). cbv beta in Hall. apply andb_true_iff in Hall as [Hn Hf].
  split; [by apply negb_true_iff, bool_decide_eq_false in Hn|]. apply Forall_forall. intros l Hl. rewrite forallb_forall in Hf.
  specialize (Hf l ltac:(by apply list_elem_of_In)). cbv beta in Hf. apply negb_true_iff in Hf. intros Hin.
  assert (existsb (Z.eqb asphaleia.DOT) l = true) by (apply existsb_exists; exists asphaleia.DOT; split; [by apply list_elem_of_In|done]). congruence.
Qed.

(** A UDP query for Ads.DoubleClick.net, past the default list. *)
Definition udp_prefix : list Z := [0x45; 0; 0; 0; 0; 0; 0; 0; 64; 17; 0; 0; 10; 0; 0; 1; 8; 8; 8; 8] ++ [200; 0; 0; 53; 0; 0; 0; 0].

Lemma dns_blocklist_exact_witness :
  (evaluate_tx (udp_prefix ++ asphaleia.query ([0; 1; 1; 0; 0; 1] ++ replicate 6 0)
     [str "Ads"%string; str "DoubleClick"%string; str "net"%string] [0; 1; 0; 1]) (load_default_blocklist new)).1 = Deny.
Proof.
  destruct default_blocklist as [Hb Hds].
  destruct (dns_blocklist_exact (load_default_blocklist new) default_entries Outbound Udp udp_prefix Hb) as [H _].
  - vm_compute. discriminate.
  - exact Hds.
  - apply udp_carrier; [|reflexivity|split; reflexivity]. exists 5%nat. split; [lia|]. split; [reflexivity|]. split; reflexivity.
  - apply H.
    + split_and!; [reflexivity|vm_compute; discriminate|discriminate|vm_compute; lia|].
      repeat (apply Forall_cons; split; [split; [vm_compute; lia|reflexivity]|]). by apply Forall_nil.
    + repeat (apply Forall_cons; split; [unfold asphaleia.dot_free; rewrite list_elem_of_In; vm_compute; lia|]). by apply Forall_nil.
    + exists [str "doubleclick"%string; str "net"%string]. split; [apply list_elem_of_In; vm_compute; tauto|].
      exists [str "ads"%string]. reflexivity.
Defined.
(** ** Any use of the filter *)

Inductive fw_op := AddRule (r : FilterRule) | AddBlock (s : list Z) | LoadDefaults | Evaluate (dir : Direction) (packet : list Z) | Drained.

Definition fw_step (fw : Firewall) (o : fw_op) : Firewall :=
  match o with
  | AddRule r => add_rule r fw
  | AddBlock s => add_dns_block s fw
  | LoadDefaults => load_default_blocklist fw
  | Evaluate dir packet => (evaluate dir packet fw).2
  | Drained => set_events fw [] (events_dropped fw)
  end.

Definition added (ops : list fw_op) : list FilterRule := omap (fun o => match o with AddRule r => Some r | _ => None end) ops.

Lemma load_default_keeps fw :
  let fw' := load_default_blocklist fw in
  rules fw' = rules fw /\ default_inbound fw' = default_inbound fw /\ default_outbound fw' = default_outbound fw /\
  stats fw' = stats fw /\ events fw' = events fw /\ events_dropped fw' = events_dropped fw.
Proof.
  unfold load_default_blocklist. generalize asphaleia.SURVEILLANCE_DOMAINS. intros ds. revert fw.
  induction ds as [|d ds IH]; intros fw; [done|]. cbn [foldl]. destruct (IH (add_dns_block d fw)) as (H1 & H2 & H3 & H4 & H5 & H6). cbv zeta.
  rewrite H1, H2, H3, H4, H5, H6. done.
Qed.

(** Classifying, recording and queueing leave the policy alone. *)
Lemma evaluate_keeps_policy dir packet fw :
  let fw' := (evaluate dir packet fw).2 in
  rules fw' = rules fw /\ default_inbound fw' = default_inbound fw /\ default_outbound fw' = default_outbound fw /\ dns_blocklist fw' = dns_blocklist fw.
Proof.
  unfold evaluate, classify, record, note_event. cbv zeta. destruct (parse_packet packet) as [info|]; [destruct (_ && _)|]; cbn [snd]; repeat case_match; done.
Qed.

Lemma policy_of_use ops :
  let fw := foldl fw_step new ops in
  rules fw = reverse (added ops) /\ default_inbound fw = Deny /\ default_outbound fw = Allow.
Proof.
  induction ops as [|o ops IH] using rev_ind; [done|]. cbv zeta in *. rewrite foldl_app. cbn [foldl].
  destruct IH as (Hr & Hi & Ho). set (fw := foldl fw_step new ops) in *. unfold added in *. rewrite omap_app, reverse_app, <- Hr.
  destruct o as [r|s| |dir packet|]; cbn [fw_step]; [done|done| | |done].
  - destruct (load_default_keeps fw) as (-> & -> & -> & _). done.
  - destruct (evaluate_keeps_policy dir packet fw) as (-> & -> & -> & _). done.
Qed.

Lemma find_split {A} (f : A -> bool) l x : List.find f l = Some x -> exists a b, l = a ++ x :: b /\ f x = true /\ Forall (fun y => f y = false) a.
Proof.
  induction l as [|y l IH]; cbn; [done|]. destruct (f y) eqn:E; [intros [= ->]; by exists [], l|]. intros H.
  destruct (IH H) as (a & b & -> & Hx & Ha). exists (y :: a), b. split_and!; [done|done|by constructor].
Qed.

Lemma find_none_all {A} (f : A -> bool) l : List.find f l = None -> Forall (fun y => f y = false) l.
Proof. intros H. apply Forall_forall. intros y Hy. apply (List.find_none _ _ H). by apply list_elem_of_In. Qed.

(** The latest matching rule decides, and nothing comes in without one. After any use
    of the filter, a packet that is let through is a well-formed IPv4 packet, and
    the rule added last among those that match it lets it through; or it is
    outbound and no rule that was ever added matches it. *)
Theorem latest_rule_decides ops dir packet :
  let '(action, _) := evaluate dir packet (foldl fw_step new ops) in
  action <> Deny ->
  exists info, parse_packet packet = Some info /\
    ((exists before r after, added ops = before ++ r :: after /\ rule_matches r dir info = true /\ r_action r = action /\
        Forall (fun r' => rule_matches r' dir info = false) after) \/
     (dir = Outbound /\ action = Allow /\ Forall (fun r => rule_matches r dir info = false) (added ops))).
Proof.
  destruct (policy_of_use ops) as (Hr & Hi & Ho). set (fw := foldl fw_step new ops) in *. unfold evaluate, classify.
  destruct (parse_packet packet) as [info|]; [|done]. destruct (_ && _); [done|]. intros Ha. exists info. split; [done|].
  unfold rule_action in *. rewrite Hr in *. destruct (List.find _ _) as [r|] eqn:Ef.
  - left. apply find_split in Ef as (a & b & Hab & Hm & Hn). exists (reverse b), r, (reverse a). split_and!; [|done|done|by apply Forall_reverse].
    rewrite <- (reverse_involutive (added ops)), Hab, reverse_app, reverse_cons, <- app_assoc. done.
  - apply find_none_all in Ef. right. rewrite Hi, Ho in *. destruct dir; [done|]. split_and!; [done|done|].
    rewrite <- (reverse_involutive (added ops)). by apply Forall_reverse.
Qed.

(** A web server on port 80 is reached only after a rule says so. *)
Definition web_packet : list Z := [0x45; 0; 0; 40; 0; 0; 0; 0; 64; 6; 0; 0; 10; 0; 0; 9; 10; 0; 0; 1] ++ [200; 0; 0; 80] ++ replicate 8 0 ++ [0x50; 2] ++ replicate 6 0.
Definition web_rule : FilterRule := mk_rule Inbound (Some Tcp) None None (Some 80) Allow.

Lemma latest_rule_decides_witness :
  (evaluate Inbound web_packet new).1 = Deny /\
  exists info, parse_packet web_packet = Some info /\ rule_matches web_rule Inbound info = true.
Proof.
  split; [reflexivity|]. pose proof (latest_rule_decides [AddRule web_rule] Inbound web_packet) as H.
  destruct H as (info & Hp & [(b & r & a & Hadd & Hm & _)|(Hd & _)]); [vm_compute; discriminate| |discriminate].
  exists info. split; [exact Hp|]. destruct b as [|x b]; [injection Hadd as <- _; exact Hm|]. injection Hadd as _ Hadd. by destruct b.
Defined.

(** ** Accounting *)

(** The decisions to be reported: those that deny or log. *)
Definition reported (dir : Direction) (action : Action) : list PacketEvent :=
  match action with Allow => [] | _ => [mk_pevent dir action] end.

(** A run with what the code does not keep: the number of packets seen, the
    decisions reported, and the events handed over so far. *)
Record ghost := mk_ghost { g_fw : Firewall; g_seen : Z; g_denied : Z; g_reported : list PacketEvent; g_drained : list PacketEvent }.

Definition ghost_step (g : ghost) (o : fw_op) : ghost :=
  match o with
  | Evaluate dir packet =>
      let a := (evaluate dir packet (g_fw g)).1 in
      mk_ghost (fw_step (g_fw g) o) (g_seen g + 1) (g_denied g + (if decide (a = Deny) then 1 else 0)) (g_reported g ++ reported dir a) (g_drained g)
  | Drained => mk_ghost (fw_step (g_fw g) o) (g_seen g) (g_denied g) (g_reported g) (g_drained g ++ events (g_fw g))
  | _ => mk_ghost (fw_step (g_fw g) o) (g_seen g) (g_denied g) (g_reported g) (g_drained g)
  end.

Definition accounted (g : ghost) : Prop :=
  let fw := g_fw g in
  packets_denied (stats fw) = g_denied g /\ packets_allowed (stats fw) + packets_denied (stats fw) = g_seen g /\
  0 <= g_denied g <= g_seen g /\
  (length (events fw) <= EVENT_QUEUE_CAP)%nat /\ g_drained g ++ events fw `sublist_of` g_reported g /\
  Z.of_nat (length (g_drained g ++ events fw)) + events_dropped fw = Z.of_nat (length (g_reported g)) /\
  Z.of_nat (length (g_reported g)) <= g_seen g /\ 0 <= events_dropped fw.

(** Counting and queueing of one decision. *)
Lemma note_accounted (fw : Firewall) seen denied rep drained dir a :
  accounted (mk_ghost fw seen denied rep drained) -> seen < 2 ^ 64 - 1 ->
  accounted (mk_ghost (note_event dir a (record a fw)) (seen + 1) (denied + (if decide (a = Deny) then 1 else 0)) (rep ++ reported dir a) drained).
Proof.
  unfold accounted. cbn [g_fw g_seen g_denied g_reported g_drained]. intros (Hd & Hs & Hle & Hq & Hsub & Hn & Hr & H0) Hb.
  assert (forall x, 0 <= x < 2 ^ 64 -> wrap64 x = x) as Hw by (intros; by apply Z.mod_small). rewrite length_app in Hn.
  unfold note_event, record. destruct a; cbn [reported]; rewrite ?app_nil_r; [rewrite decide_False by done|rewrite decide_True by done|rewrite decide_False by done].
  - cbn. rewrite !Hw by lia. rewrite length_app. split_and!; try done; lia.
  - cbn [events set_stats]. destruct (_ <=? _)%nat eqn:E; bool_hyps; cbn; rewrite !Hw by lia; rewrite !length_app; cbn [length].
    + split_and!; first [done | lia | by apply sublist_inserts_r].
    + split_and!; first [done | lia | rewrite app_assoc; by apply sublist_app | rewrite ?length_app; cbn; lia].
  - cbn [events set_stats]. destruct (_ <=? _)%nat eqn:E; bool_hyps; cbn; rewrite !Hw by lia; rewrite !length_app; cbn [length].
    + split_and!; first [done | lia | by apply sublist_inserts_r].
    + split_and!; first [done | lia | rewrite app_assoc; by apply sublist_app | rewrite ?length_app; cbn; lia].
Qed.

Lemma classify_accounted dir packet fw seen denied rep drained :
  accounted (mk_ghost fw seen denied rep drained) -> accounted (mk_ghost (classify packet dir fw).2 seen denied rep drained).
Proof. unfold accounted, classify. destruct (parse_packet packet); [destruct (_ && _)|]; done. Qed.

Lemma ghost_step_accounted g o : accounted g -> g_seen g < 2 ^ 64 - 1 -> accounted (ghost_step g o).
Proof.
  destruct g as [fw seen denied rep drained]. intros Hg Hb. destruct o as [r|s| |dir packet|]; cbn [ghost_step g_fw g_seen g_denied g_reported g_drained fw_step].
  - done.
  - done.
  - unfold accounted in *. cbn [g_fw g_seen g_denied g_reported g_drained] in *. destruct (load_default_keeps fw) as (_ & _ & _ & -> & -> & ->). done.
  - apply (classify_accounted dir packet) in Hg. rewrite evaluate_action. unfold evaluate.
    destruct (classify packet dir fw) as [a fw'] eqn:E. cbn [fst snd] in *. by apply note_accounted.
  - unfold accounted in *. cbn in *. rewrite app_nil_r. destruct Hg as (?&?&?&?&?&?&?&?). split_and!; first [done | lia].
Qed.

Lemma seen_bound ops g : g_seen (foldl ghost_step g ops) <= g_seen g + Z.of_nat (length ops).
Proof.
  revert g. induction ops as [|o ops IH]; intros g; cbn [foldl length]; [lia|]. specialize (IH (ghost_step g o)).
  assert (g_seen (ghost_step g o) <= g_seen g + 1); [|lia]. destruct o; cbn; lia.
Qed.

Lemma ghost_accounted ops :
  Z.of_nat (length ops) < 2 ^ 64 -> let g := foldl ghost_step (mk_ghost new 0 0 [] []) ops in g_fw g = foldl fw_step new ops /\ accounted g.
Proof.
  intros Hn. cbv zeta. split.
  - assert (forall g, g_fw (foldl ghost_step g ops) = foldl fw_step (g_fw g) ops) as H; [|apply H]. clear.
    induction ops as [|o ops IH]; intros g; cbn [foldl]; [done|]. rewrite IH. by destruct o.
  - induction ops as [|o ops IH] using rev_ind; [unfold accounted; cbn; split_and!; lia || done|]. rewrite length_app in Hn. cbn [length] in Hn.
    rewrite foldl_app. cbn [foldl]. apply ghost_step_accounted; [apply IH; lia|].
    pose proof (seen_bound ops (mk_ghost new 0 0 [] [])) as Hs. cbn [g_seen] in Hs. lia.
Qed.

Lemma queue_bounded ops : Z.of_nat (length ops) < 2 ^ 64 -> (length (events (foldl fw_step new ops)) <= EVENT_QUEUE_CAP)%nat.
Proof. intros Hn. destruct (ghost_accounted ops Hn) as [<- (_ & _ & _ & Hq & _)]. done. Qed.

(** The filter accounts for every packet. Over any use of fewer than 2{^64} steps, the
    counters say how many packets were let through and denied, the queue of
    events never exceeds 32, the events handed over and those still queued are
    decisions that were made, in order and none twice, and together with the
    counted losses they are all of them. *)
Theorem filter_accounts ops :
  Z.of_nat (length ops) < 2 ^ 64 -> let g := foldl ghost_step (mk_ghost new 0 0 [] []) ops in g_fw g = foldl fw_step new ops /\ accounted g.
Proof. apply ghost_accounted. Qed.

(** Forty packets that match no rule: 32 events queued, eight losses counted. *)
Lemma filter_accounts_witness :
  let fw := foldl fw_step new (replicate 40 (Evaluate Inbound web_packet)) in
  length (events fw) = 32%nat /\ events_dropped fw = 8 /\ packets_denied (stats fw) = 40.
Proof.
  destruct (filter_accounts (replicate 40 (Evaluate Inbound web_packet))) as [<- Ha]; [reflexivity|].
  destruct Ha as (Hd & _ & _ & _ & _ & Hn & _). split_and!; [vm_compute; reflexivity| |].
  - vm_compute in Hn |- *. reflexivity.
  - rewrite Hd. vm_compute. reflexivity.
Defined.

(** ** Commitment to the audit log *)

(** Decimal digits, most significant first. *)
Fixpoint decimal (fuel : nat) (n : Z) : list Z :=
  match fuel with
  | O => []
  | S fuel => if n <? 10 then [48 + n] else decimal fuel (n / 10) ++ [48 + n mod 10]
  end.

Lemma format_deny_exact n dir :
  1 <= n <= 32 -> exists buf len, format_deny_detail n dir (replicate audit.DETAIL_LEN 0) = Ret (buf, len) /\ (len <= length buf)%nat /\
    take len buf = decimal 10 n ++ deny_suffix dir.
Proof.
  intros Hn. assert (forallb (fun k => forallb (fun dir => match format_deny_detail k dir (replicate audit.DETAIL_LEN 0) with
    | Ret (buf, len) => (len <=? length buf)%nat && bool_decide (take len buf = decimal 10 k ++ deny_suffix dir)
    | Panic => false end) [Inbound; Outbound]) (seqZ 1 32) = true) as H by (vm_compute; reflexivity).
  rewrite forallb_forall in H. specialize (H n ltac:(apply list_elem_of_In, elem_of_seqZ; lia)). cbv beta in H.
  rewrite forallb_forall in H. specialize (H dir ltac:(destruct dir; cbn; auto)). cbv beta in H.
  destruct (format_deny_detail _ _ _) as [[buf len]|]; [|done]. apply andb_true_iff in H as [H1 H2]. apply bool_decide_eq_true in H2.
  exists buf, len. split_and!; [done|by apply Nat.leb_le|done].
Qed.

Definition is_deny (dir : Direction) (e : PacketEvent) : bool := bool_decide (e_action e = Deny) && bool_decide (e_direction e = dir).
Definition denied_count (dir : Direction) (evs : list PacketEvent) : nat := count_if (is_deny dir) evs.

Definition logged_events (ts : Z) (evs : list PacketEvent) : list audit.event :=
  omap (fun e => match e_action e with Log => Some (audit.mk_event audit.PacketLog 0 (log_detail (e_direction e)) ts) | _ => None end) evs.
Definition deny_summary (ts : Z) (dir : Direction) (n : nat) : list audit.event :=
  match n with O => [] | _ => [audit.mk_event audit.PacketDeny 0 (decimal 10 (Z.of_nat n) ++ deny_suffix dir) ts] end.

(** What a queue is committed as: each logged packet, then one summary per
    direction in which packets were denied. *)
Definition committed (ts : Z) (evs : list PacketEvent) : list audit.event :=
  logged_events ts evs ++ deny_summary ts Inbound (denied_count Inbound evs) ++ deny_summary ts Outbound (denied_count Outbound evs).

Section commit.
Context (hmac_sha256 : list Z -> list Z -> list Z) (MAX_ENTRIES : nat) (max_pos : (0 < MAX_ENTRIES)%nat).
Context (key : list Z) (key_set : audit.no_key key = false).

Lemma drain_commits evs ts : forall log past appended n_in n_out,
  audit.holds hmac_sha256 MAX_ENTRIES key log past -> 0 <= n_in -> 0 <= n_out -> n_in + n_out + Z.of_nat (length evs) < 2 ^ 32 ->
  exists log', drain hmac_sha256 MAX_ENTRIES evs log key ts appended n_in n_out =
    Ret (log', (appended + length (logged_events ts evs))%nat, n_in + Z.of_nat (denied_count Inbound evs), n_out + Z.of_nat (denied_count Outbound evs)) /\
    audit.holds hmac_sha256 MAX_ENTRIES key log' (past ++ logged_events ts evs).
Proof using max_pos key_set.
  unfold denied_count. induction evs as [|[dir a] evs IH]; intros log past appended n_in n_out Hl Hi Ho Hb; cbn [drain].
  { exists log. cbn. rewrite app_nil_r, !Nat.add_0_r, !Z.add_0_r. done. }
  rewrite !count_if_cons. cbn [length] in Hb. unfold is_deny at 1 3. cbn [e_action e_direction logged_events omap list_omap].
  assert (forall x, 0 <= x < 2 ^ 32 -> wrap32 x = x) as Hw by (intros; by apply wrap32_small). destruct a.
  - cbn [bool_decide decide_rel Action_eq_dec]. destruct (IH log past appended n_in n_out Hl Hi Ho ltac:(lia)) as (log' & -> & Hl'). exists log'. done.
  - destruct dir; rewrite Hw by lia.
    + destruct (IH log past appended (n_in + 1) n_out Hl ltac:(lia) Ho ltac:(lia)) as (log' & -> & Hl'). exists log'. split; [|done].
      change (bool_decide (Deny = Deny) && bool_decide (Inbound = Inbound)) with true. change (bool_decide (Deny = Deny) && bool_decide (Inbound = Outbound)) with false.
      cbn [Nat.add]. by replace (n_in + Z.of_nat (S (count_if (is_deny Inbound) evs))) with (n_in + 1 + Z.of_nat (count_if (is_deny Inbound) evs)) by lia.
    + destruct (IH log past appended n_in (n_out + 1) Hl Hi ltac:(lia) ltac:(lia)) as (log' & -> & Hl'). exists log'. split; [|done].
      change (bool_decide (Deny = Deny) && bool_decide (Outbound = Inbound)) with false. change (bool_decide (Deny = Deny) && bool_decide (Outbound = Outbound)) with true.
      cbn [Nat.add]. by replace (n_out + Z.of_nat (S (count_if (is_deny Outbound) evs))) with (n_out + 1 + Z.of_nat (count_if (is_deny Outbound) evs)) by lia.
  - destruct (audit.log_event_holds hmac_sha256 MAX_ENTRIES max_pos key key_set log past (audit.mk_event audit.PacketLog 0 (log_detail dir) ts) Hl) as (log1 & E & Hl1).
    cbn [audit.ev_type audit.ev_pid audit.ev_detail audit.ev_time] in E. rewrite E. cbn [mbind outcome_bind is_ok].
    destruct (IH log1 _ (appended + 1)%nat n_in n_out Hl1 Hi Ho ltac:(lia)) as (log' & -> & Hl'). exists log'. rewrite <- app_assoc in Hl'. split; [|done].
    change (bool_decide (Log = Deny) && ?x) with false. rewrite <- Nat.add_assoc. done.
Qed.

Lemma summarize_commits n dir ts log past appended :
  audit.holds hmac_sha256 MAX_ENTRIES key log past -> (n <= 32)%nat ->
  exists log', summarize hmac_sha256 MAX_ENTRIES (Z.of_nat n) dir log key ts appended = Ret (log', (appended + length (deny_summary ts dir n))%nat) /\
    audit.holds hmac_sha256 MAX_ENTRIES key log' (past ++ deny_summary ts dir n).
Proof using max_pos key_set.
  intros Hl Hn. unfold summarize. destruct n as [|n]; [exists log; cbn; rewrite app_nil_r, Nat.add_0_r; done|].
  rewrite (proj2 (Z.eqb_neq _ _)) by lia. destruct (format_deny_exact (Z.of_nat (S n)) dir ltac:(lia)) as (buf & len & -> & Hlen & Ht).
  cbn [mbind outcome_bind]. rewrite (proj2 (Nat.ltb_ge _ _)) by done. rewrite Ht.
  destruct (audit.log_event_holds hmac_sha256 MAX_ENTRIES max_pos key key_set log past
    (audit.mk_event audit.PacketDeny 0 (decimal 10 (Z.of_nat (S n)) ++ deny_suffix dir) ts) Hl) as (log1 & E & Hl1).
  cbn [audit.ev_type audit.ev_pid audit.ev_detail audit.ev_time] in E. rewrite E. cbn [mbind outcome_bind is_ok]. by exists log1.
Qed.

Lemma flush_commits fw ts log past :
  audit.holds hmac_sha256 MAX_ENTRIES key log past -> (length (events fw) <= EVENT_QUEUE_CAP)%nat ->
  exists log', flush_packet_audit hmac_sha256 MAX_ENTRIES fw log key ts =
      Ret (length (committed ts (events fw)), set_events fw [] (events_dropped fw), log') /\
    audit.holds hmac_sha256 MAX_ENTRIES key log' (past ++ committed ts (events fw)).
Proof using max_pos key_set.
  intros Hl Hq. unfold flush_packet_audit, EVENT_QUEUE_CAP in *.
  destruct (drain_commits (events fw) ts log past 0 0 0 Hl ltac:(lia) ltac:(lia) ltac:(lia)) as (log1 & -> & Hl1). cbn [mbind outcome_bind]. rewrite !Z.add_0_l, Nat.add_0_l.
  pose proof (count_if_le (is_deny Inbound) (events fw)). pose proof (count_if_le (is_deny Outbound) (events fw)).
  destruct (summarize_commits (denied_count Inbound (events fw)) Inbound ts log1 _ (length (logged_events ts (events fw))) Hl1) as (log2 & -> & Hl2);
    [unfold denied_count; lia|]. cbn [mbind outcome_bind].
  match goal with |- context [summarize _ _ _ _ _ _ _ ?n] =>
    destruct (summarize_commits (denied_count Outbound (events fw)) Outbound ts log2 _ n Hl2) as (log3 & -> & Hl3) end; [unfold denied_count; lia|].
  cbn [mbind outcome_bind]. exists log3. unfold committed. rewrite !length_app, !app_assoc, Nat.add_assoc in *. done.
Qed.

(** What the filter decided reaches the audit log. After any use of the filter, and
    on top of any events already recorded, a flush empties the queue and
    records every logged packet of it and one summary per direction with the
    number of packets denied; the log then verifies and lists exactly those
    events after the earlier ones, and the call answers how many it recorded. *)
Theorem flush_reaches_audit_log ops past ts :
  Z.of_nat (length ops) < 2 ^ 64 ->
  let fw := foldl fw_step new ops in
  let recorded := committed ts (events fw) in
  exists log fw' log', audit.log_all hmac_sha256 MAX_ENTRIES key past (audit.new MAX_ENTRIES) = Ret log /\
    flush_packet_audit hmac_sha256 MAX_ENTRIES fw log key ts = Ret (length recorded, fw', log') /\
    events fw' = [] /\ events_dropped fw' = events_dropped fw /\ rules fw' = rules fw /\
    audit.verify_chain hmac_sha256 MAX_ENTRIES key log' = Ret (if decide (past ++ recorded = []) then Err audit.Empty else Ok tt) /\
    forall n, exists a b, audit.recent MAX_ENTRIES n log' = Ret (a, b) /\
      a ++ b = audit.latest (Nat.min n MAX_ENTRIES) (audit.history hmac_sha256 key (past ++ recorded)).
Proof using max_pos key_set.
  intros Hn fw recorded. destruct (audit.log_all_holds hmac_sha256 MAX_ENTRIES max_pos key key_set past) as (log & Hlog & Hl).
  assert (length (events fw) <= EVENT_QUEUE_CAP)%nat as Hq by (by apply queue_bounded).
  destruct (flush_commits fw ts log past Hl Hq) as (log' & Hf & Hl'). exists log, (set_events fw [] (events_dropped fw)), log'.
  split_and!; [done|done|done|done|done|by apply audit.holds_verifies|intros n; by apply audit.recent_holds].
Qed.

End commit.
(** A logged packet and three denied ones, in a ring of two. *)
Lemma flush_reaches_audit_log_witness :
  exists log fw' log',
    flush_packet_audit audit.checksum 2
      (foldl fw_step new [Evaluate Inbound web_packet; Evaluate Inbound web_packet; Evaluate Inbound [];
         AddRule (mk_rule Inbound None None None None Log); Evaluate Inbound web_packet]) log [7] 99 = Ret (2%nat, fw', log') /\
    audit.verify_chain audit.checksum 2 [7] log' = Ret (Ok tt).
Proof.
  destruct (flush_reaches_audit_log audit.checksum 2 ltac:(lia) [7] eq_refl
    [Evaluate Inbound web_packet; Evaluate Inbound web_packet; Evaluate Inbound [];
     AddRule (mk_rule Inbound None None None None Log); Evaluate Inbound web_packet] [] 99) as (log & fw' & log' & _ & Hf & _ & _ & _ & Hv & _); [reflexivity|].
  exists log, fw', log'. split; [exact Hf|exact Hv].
Defined.

(** Only the first query of a TCP segment is looked at: behind a name that is not on
    the default list, a second query for one that is leaves the device. *)
Theorem pipelined_query_not_seen pre hdr ls rest len hdr2 ls2 rest2 :
  dns_carrier Tcp pre -> asphaleia.query_ok hdr ls -> Forall asphaleia.dot_free ls ->
  ~ covered default_entries ls -> covered default_entries ls2 ->
  (evaluate_tx (pre ++ asphaleia.query hdr ls (rest ++ len ++ asphaleia.query hdr2 ls2 rest2)) (load_default_blocklist new)).1 = Allow.
Proof.
  intros Hc Hq Hf Hn _. destruct default_blocklist as [Hb Hds]. unfold evaluate_tx. rewrite evaluate_action.
  destruct (classify_carried Outbound Tcp pre (asphaleia.query hdr ls (rest ++ len ++ asphaleia.query hdr2 ls2 rest2)) (load_default_blocklist new) Hc)
    as (info & _ & ->); [by rewrite Hb|]. rewrite asphaleia.extract_query by done.
  pose proof (blocked_iff_covered _ default_entries ls Hb Hds (proj1 (proj2 (proj2 Hq))) Hf) as Hiff.
  destruct (is_dns_blocked_lowercased _ _); [exfalso; by apply Hn, Hiff|].
  unfold rule_action. destruct (load_default_keeps new) as (-> & _ & -> & _). done.
Qed.

End firewall.
