(* ===== verification/Block.v ===== *)
(** * Block devices ([crates/thumos/src/block.rs])

    The trait [BlockDevice] is a class; [BlockDeviceLaws] says what its callers
    rely on, in terms of the sectors a device holds. A transfer can fail at any
    sector: a failed write leaves each of its sectors as it was or as it was to
    be. [PartitionBlockDevice] and [MsdcBlockDevice] are instances. A device
    behind a shared reference is hardware, so a read returns it too.

    The test double [MemBlockDevice] is not modelled. *)

From S2P Require Import Prelude Machine.
From Stdlib Require Import ZArith.
Open Scope Z_scope.

Module block.

Definition SECTOR_SIZE : Z := 512.
Definition BLOCK_SIZE : Z := 4096.
Definition SECTORS_PER_BLOCK : Z := BLOCK_SIZE / SECTOR_SIZE.

Inductive BlockError := IoError | OutOfBounds | InvalidArgument | DeviceNotReady.

#[export] Instance BlockError_eq_dec : EqDecision BlockError.
Proof. solve_decision. Defined.

(** [u64::checked_add] and [u64::checked_mul]. *)
Definition checked_add (a b : Z) : option Z := if a + b <? 2 ^ 64 then Some (a + b) else None.
Definition checked_mul (a b : Z) : option Z := if a * b <? 2 ^ 64 then Some (a * b) else None.

Class BlockDevice (D : Type) := {
  read_sectors : D -> Z -> Z -> list Z -> result () BlockError * list Z * D;
  write_sectors : D -> Z -> Z -> list Z -> result () BlockError * D;
  sector_count : D -> Z;
  sector_size : D -> Z;
}.

(** The sector-sized piece of a buffer at index [k]. *)
Definition piece (buf : list Z) (k : Z) : list Z :=
  take (Z.to_nat SECTOR_SIZE) (drop (Z.to_nat (k * SECTOR_SIZE)) buf).

(** What a device promises. [sector] is what it holds; [dev_ok] its invariant. *)
Class BlockDeviceLaws (D : Type) `{!BlockDevice D} := {
  dev_ok : D -> Prop;
  sector : D -> Z -> list Z;
  sector_length d i : dev_ok d -> length (sector d i) = Z.to_nat SECTOR_SIZE;
  count_range d : dev_ok d -> 0 <= sector_count d < 2 ^ 64;
  size_512 d : dev_ok d -> sector_size d = SECTOR_SIZE;
  read_same d lba n buf r buf' d' :
    dev_ok d -> 0 <= lba -> 0 <= n < 2 ^ 23 -> read_sectors d lba n buf = (r, buf', d') ->
    dev_ok d' /\ sector_count d' = sector_count d /\ (forall i, sector d' i = sector d i) /\ length buf' = length buf;
  read_ok d lba n buf buf' d' :
    dev_ok d -> 0 <= lba -> 0 <= n < 2 ^ 23 -> read_sectors d lba n buf = (Ok (), buf', d') ->
    (0 < n -> lba + n <= sector_count d) /\ buf' = mjoin (sector d <$> seqZ lba n);
  write_each d lba n buf r d' :
    dev_ok d -> 0 <= lba -> 0 <= n < 2 ^ 23 -> write_sectors d lba n buf = (r, d') ->
    dev_ok d' /\ sector_count d' = sector_count d /\
    forall i, sector d' i = sector d i \/ lba <= i < lba + n /\ sector d' i = piece buf (i - lba);
  write_ok d lba n buf d' :
    dev_ok d -> 0 <= lba -> 0 <= n < 2 ^ 23 -> write_sectors d lba n buf = (Ok (), d') ->
    (0 < n -> lba + n <= sector_count d) /\ length buf = Z.to_nat (n * SECTOR_SIZE) /\
    forall i, lba <= i < lba + n -> sector d' i = piece buf (i - lba);
}.

(** ** The partition view *)

Section partition.
Context {D : Type} `{!BlockDevice D}.

Record PartitionBlockDevice := mk_partition { inner : D; base_lba : Z; partition_count : Z }.

Definition translate (v : PartitionBlockDevice) (lba count : Z) : result Z BlockError :=
  match checked_add lba count with
  | None => Err OutOfBounds
  | Some end_ =>
      if partition_count v <? end_ then Err OutOfBounds else
      match checked_add (base_lba v) lba with
      | None => Err OutOfBounds
      | Some phys =>
          match checked_add phys count with
          | None => Err OutOfBounds
          | Some phys_end => if sector_count (inner v) <? phys_end then Err OutOfBounds else Ok phys
          end
      end
  end.

Definition with_inner (v : PartitionBlockDevice) (d : D) : PartitionBlockDevice :=
  mk_partition d (base_lba v) (partition_count v).

Definition partition_read_sectors (v : PartitionBlockDevice) (lba count : Z) (buf : list Z) :
    result () BlockError * list Z * PartitionBlockDevice :=
  match translate v lba count with
  | Err e => (Err e, buf, v)
  | Ok phys => let '(r, buf, d) := read_sectors (inner v) phys count buf in (r, buf, with_inner v d)
  end.

Definition partition_write_sectors (v : PartitionBlockDevice) (lba count : Z) (buf : list Z) :
    result () BlockError * PartitionBlockDevice :=
  match translate v lba count with
  | Err e => (Err e, v)
  | Ok phys => let '(r, d) := write_sectors (inner v) phys count buf in (r, with_inner v d)
  end.

(** The view keeps the trait's default sector size. *)
#[export] Instance partition_device : BlockDevice PartitionBlockDevice := {|
  read_sectors := partition_read_sectors;
  write_sectors := partition_write_sectors;
  sector_count := partition_count;
  sector_size v := SECTOR_SIZE;
|}.
End partition.
Arguments PartitionBlockDevice _ : clear implicits.

(** ** The eMMC controller *)

Inductive MsdcError := CommandTimeout | DataTimeout | CardNotPresent | DmaTimeout | InterruptError (status : Z).

(** The two transfers of the trait [MsdcOps]. *)
Class MsdcOps (C : Type) := {
  read_sector : C -> Z -> list Z -> result () MsdcError * list Z * C;
  write_sector : C -> Z -> list Z -> result () MsdcError * C;
}.

(** A sector is written or it is not; no transfer touches another. *)
Class MsdcLaws (C : Type) `{!MsdcOps C} := {
  cell : C -> Z -> list Z;
  cell_length c i : length (cell c i) = Z.to_nat SECTOR_SIZE;
  read_sector_same c lba buf r buf' c' :
    length buf = Z.to_nat SECTOR_SIZE -> read_sector c lba buf = (r, buf', c') ->
    (forall i, cell c' i = cell c i) /\ length buf' = length buf;
  read_sector_ok c lba buf buf' c' : read_sector c lba buf = (Ok (), buf', c') -> buf' = cell c lba;
  write_sector_each c lba buf r c' :
    length buf = Z.to_nat SECTOR_SIZE -> write_sector c lba buf = (r, c') ->
    forall i, cell c' i = cell c i \/ i = lba /\ cell c' i = buf;
  write_sector_ok c lba buf c' :
    length buf = Z.to_nat SECTOR_SIZE -> write_sector c lba buf = (Ok (), c') -> cell c' lba = buf;
}.

Section msdc.
Context {C : Type} `{!MsdcOps C}.

Record MsdcBlockDevice := mk_msdc { controller : C; msdc_count : Z }.

Definition with_controller (d : MsdcBlockDevice) (c : C) : MsdcBlockDevice := mk_msdc c (msdc_count d).

(** The guards both transfers share. The product is a [usize]; every caller
    passes a count far below the [2^23] sectors at which it would wrap, so the
    slices of the loops are in range. *)
Definition msdc_check (d : MsdcBlockDevice) (lba count : Z) (len : nat) : result () BlockError :=
  match checked_add lba count with
  | None => Err OutOfBounds
  | Some end_ =>
      if msdc_count d <? end_ then Err OutOfBounds else
      if Z.of_nat len =? wrap32 (count * SECTOR_SIZE) then Ok () else Err InvalidArgument
  end.

(** [dst] with the sector at index [i] replaced. *)
Definition splice (dst : list Z) (i : Z) (s : list Z) : list Z :=
  take (Z.to_nat (i * SECTOR_SIZE)) dst ++ s ++ drop (Z.to_nat (i * SECTOR_SIZE) + length s) dst.

Fixpoint read_each (c : C) (lba : Z) (idx : list Z) (buf : list Z) : result () BlockError * list Z * C :=
  match idx with
  | [] => (Ok (), buf, c)
  | i :: idx =>
      if 2 ^ 32 <=? lba + i then (Err OutOfBounds, buf, c) else
      let '(r, s, c) := read_sector c (lba + i) (piece buf i) in
      let buf := splice buf i s in
      match r with
      | Ok _ => read_each c lba idx buf
      | Err _ => (Err IoError, buf, c)
      end
  end.

Fixpoint write_loop (c : C) (lba : Z) (idx : list Z) (buf : list Z) : result () BlockError * C :=
  match idx with
  | [] => (Ok (), c)
  | i :: idx =>
      if 2 ^ 32 <=? lba + i then (Err OutOfBounds, c) else
      match write_sector c (lba + i) (piece buf i) with
      | (Ok _, c) => write_loop c lba idx buf
      | (Err _, c) => (Err IoError, c)
      end
  end.

Definition msdc_read_sectors (d : MsdcBlockDevice) (lba count : Z) (buf : list Z) :
    result () BlockError * list Z * MsdcBlockDevice :=
  match msdc_check d lba count (length buf) with
  | Err e => (Err e, buf, d)
  | Ok _ => let '(r, buf, c) := read_each (controller d) lba (seqZ 0 count) buf in (r, buf, with_controller d c)
  end.

Definition msdc_write_sectors (d : MsdcBlockDevice) (lba count : Z) (buf : list Z) : result () BlockError * MsdcBlockDevice :=
  match msdc_check d lba count (length buf) with
  | Err e => (Err e, d)
  | Ok _ => let '(r, c) := write_loop (controller d) lba (seqZ 0 count) buf in (r, with_controller d c)
  end.

#[export] Instance msdc_device : BlockDevice MsdcBlockDevice := {|
  read_sectors := msdc_read_sectors;
  write_sectors := msdc_write_sectors;
  sector_count := msdc_count;
  sector_size d := SECTOR_SIZE;
|}.
End msdc.
Arguments MsdcBlockDevice _ : clear implicits.

(** ** Whole blocks *)

Section helpers.
Context {D : Type} `{!BlockDevice D}.

Definition read_block (d : D) (block_num : Z) (buf : list Z) : result () BlockError * list Z * D :=
  match checked_mul block_num SECTORS_PER_BLOCK with
  | None => (Err OutOfBounds, buf, d)
  | Some lba => read_sectors d lba SECTORS_PER_BLOCK buf
  end.

Definition write_block (d : D) (block_num : Z) (buf : list Z) : result () BlockError * D :=
  match checked_mul block_num SECTORS_PER_BLOCK with
  | None => (Err OutOfBounds, d)
  | Some lba => write_sectors d lba SECTORS_PER_BLOCK buf
  end.
End helpers.

(** ** Lemmas on pieces and blocks *)

Lemma sectors_per_block : SECTORS_PER_BLOCK = 8.
Proof. done. Qed.

Lemma spb_range : 0 <= SECTORS_PER_BLOCK < 2 ^ 23.
Proof. done. Qed.

Ltac spb := rewrite ?sectors_per_block in *; lia.

(** A buffer is the concatenation of its pieces of [sz] bytes. *)
Lemma mjoin_pieces_of sz n (buf : list Z) :
  0 < sz -> length buf = (n * Z.to_nat sz)%nat ->
  mjoin ((fun k => take (Z.to_nat sz) (drop (Z.to_nat (k * sz)) buf)) <$> seqZ 0 (Z.of_nat n)) = buf.
Proof.
  intros Hsz. revert buf. induction n as [|n IH]; intros buf Hl.
  { destruct buf; [done|]. simpl in Hl. lia. }
  rewrite Nat2Z.inj_succ, seqZ_cons by lia. cbn [fmap list_fmap mjoin list_join].
  transitivity (take (Z.to_nat sz) buf ++ drop (Z.to_nat sz) buf); [|apply take_drop]. f_equal.
  etransitivity; [|apply (IH (drop (Z.to_nat sz) buf)); rewrite length_drop; lia].
  rewrite Z.pred_succ. change (Z.succ 0) with (1 + 0).
  rewrite <- (fmap_add_seqZ 1 0), <- list_fmap_compose. apply (f_equal mjoin).
  apply list_fmap_ext. intros _ k Hk%list_elem_of_lookup_2%elem_of_seqZ.
  cbn [compose]. rewrite drop_drop. f_equal. f_equal. lia.
Qed.

Lemma mjoin_pieces n buf :
  length buf = (n * Z.to_nat SECTOR_SIZE)%nat -> mjoin (piece buf <$> seqZ 0 (Z.of_nat n)) = buf.
Proof. by apply mjoin_pieces_of. Qed.

Section blocks.
Context {D : Type} `{!BlockDevice D, !BlockDeviceLaws D}.

Definition content (d : D) (b : Z) : list Z := mjoin (sector d <$> seqZ (b * SECTORS_PER_BLOCK) SECTORS_PER_BLOCK).

Lemma content_ext d d' b :
  (forall i, b * SECTORS_PER_BLOCK <= i < b * SECTORS_PER_BLOCK + SECTORS_PER_BLOCK -> sector d' i = sector d i) ->
  content d' b = content d b.
Proof.
  intros H. unfold content. f_equal. apply list_fmap_ext.
  intros _ i Hi%list_elem_of_lookup_2%elem_of_seqZ. apply H. lia.
Qed.

Lemma length_content d b : dev_ok d -> length (content d b) = Z.to_nat BLOCK_SIZE.
Proof.
  intros Hd. unfold content.
  assert (forall l : list Z, length (mjoin (sector d <$> l)) = (length l * Z.to_nat SECTOR_SIZE)%nat) as H.
  { induction l as [|x l IH]; [done|]. rewrite fmap_cons. change (length (sector d x ++ mjoin (sector d <$> l)) = (length (x :: l) * Z.to_nat SECTOR_SIZE)%nat). rewrite length_app, sector_length by done.
    change (length (x :: l)) with (S (length l)). lia. }
  rewrite H, length_seqZ. reflexivity.
Qed.

(** A device that answers every read in its range. *)
Definition steady (d : D) : Prop :=
  forall lba n buf, 0 <= lba -> 0 <= n < 2 ^ 23 -> lba + n <= sector_count d -> length buf = Z.to_nat (n * SECTOR_SIZE) ->
  exists buf', read_sectors d lba n buf = (Ok (), buf', d).

(** Reading a block. *)
Lemma block_read d b buf r buf' d' :
  dev_ok d -> 0 <= b -> read_sectors d (b * SECTORS_PER_BLOCK) SECTORS_PER_BLOCK buf = (r, buf', d') ->
  dev_ok d' /\ sector_count d' = sector_count d /\ (forall i, sector d' i = sector d i) /\
  length buf' = length buf /\ (r = Ok () -> buf' = content d b).
Proof.
  intros Hd Hb E. assert (0 <= b * SECTORS_PER_BLOCK) as Hb' by spb.
  destruct (read_same d _ _ _ _ _ _ Hd Hb' spb_range E) as (H1 & H2 & H3 & H4).
  split_and!; auto.
  intros ->. apply read_ok in E as [_ ?]; [|done..]; done.
Qed.

(** Writing a block: it alone may change, and on success it holds the data. *)
Lemma block_write d b buf r d' :
  dev_ok d -> 0 <= b -> write_sectors d (b * SECTORS_PER_BLOCK) SECTORS_PER_BLOCK buf = (r, d') ->
  dev_ok d' /\ sector_count d' = sector_count d /\
  (forall x i, 0 <= i < SECTORS_PER_BLOCK ->
     sector d' (x * SECTORS_PER_BLOCK + i) = sector d (x * SECTORS_PER_BLOCK + i) \/
     x = b /\ sector d' (x * SECTORS_PER_BLOCK + i) = piece buf i) /\
  (r = Ok () -> content d' b = buf /\ b * SECTORS_PER_BLOCK + SECTORS_PER_BLOCK <= sector_count d).
Proof.
  intros Hd Hb E. assert (0 <= b * SECTORS_PER_BLOCK) as Hb' by (spb).
  destruct (write_each d _ _ _ _ _ Hd Hb' spb_range E) as (H1 & H2 & H3). split_and!; auto.
  - intros x i Hi. destruct (H3 (x * SECTORS_PER_BLOCK + i)) as [|[Hr E']]; [by left|right].
    assert (x = b) as -> by spb. split; [done|]. rewrite E'. f_equal. lia.
  - intros ->. destruct (write_ok d _ _ _ _ Hd Hb' spb_range E) as (Hr & Hl & Hs). split; [|by apply Hr].
    rewrite <- (mjoin_pieces 8 buf) by (rewrite Hl; reflexivity).
    unfold content. f_equal. change (Z.of_nat 8) with SECTORS_PER_BLOCK.
    rewrite <- (Z.add_0_r (b * SECTORS_PER_BLOCK)) at 1. rewrite <- (fmap_add_seqZ (b * SECTORS_PER_BLOCK) 0), <- list_fmap_compose.
    apply list_fmap_ext. intros _ k Hk%list_elem_of_lookup_2%elem_of_seqZ. cbn [compose].
    rewrite Hs by lia. f_equal. lia.
Qed.
End blocks.

(** ** The instances keep the laws *)

Section partition_laws.
Context {D : Type} `{!BlockDevice D, !BlockDeviceLaws D}.

Definition partition_ok (v : PartitionBlockDevice D) : Prop :=
  dev_ok (inner v) /\ 0 <= base_lba v /\ 0 <= partition_count v < 2 ^ 64.

Lemma translate_ok v lba n phys :
  translate v lba n = Ok phys -> phys = base_lba v + lba /\ lba + n <= partition_count v.
Proof.
  unfold translate, checked_add. intros H. repeat (case_match; simplify_eq).
  apply Z.ltb_ge in H1. lia.
Qed.

#[export] Program Instance partition_laws : BlockDeviceLaws (PartitionBlockDevice D) := {|
  dev_ok := partition_ok;
  sector v i := sector (inner v) (base_lba v + i);
|}.
Next Obligation. intros v i (H & _). by apply sector_length. Qed.
Next Obligation. by intros v (_ & _ & ?). Qed.
Next Obligation. done. Qed.
Next Obligation.
  intros v lba n buf r buf' v' (Hd & Hb & Hc) Hl Hn E. simpl in *. unfold partition_read_sectors in E.
  destruct (translate v lba n) as [phys|] eqn:Et; simplify_eq; [|by split_and!].
  apply translate_ok in Et as [-> _]. destruct (read_sectors _ _ _ _) as [[r0 b0] d0] eqn:Er; simplify_eq.
  apply read_same in Er as (H1 & H2 & H3 & H4); [|done|lia|done]. unfold partition_ok; simpl; split_and!; auto; lia.
Qed.
Next Obligation.
  intros v lba n buf buf' v' (Hd & Hb & Hc) Hl Hn E. simpl in *. unfold partition_read_sectors in E.
  destruct (translate v lba n) as [phys|] eqn:Et; simplify_eq.
  apply translate_ok in Et as [-> Hr]. destruct (read_sectors _ _ _ _) as [[r0 b0] d0] eqn:Er; simplify_eq.
  apply read_ok in Er as [_ ->]; [|done|lia|done]. split; [done|].
  by rewrite <- (fmap_add_seqZ (base_lba v) lba), <- list_fmap_compose.
Qed.
Next Obligation.
  intros v lba n buf r v' (Hd & Hb & Hc) Hl Hn E. simpl in *. unfold partition_write_sectors in E.
  destruct (translate v lba n) as [phys|] eqn:Et; simplify_eq; [|split_and!; auto; done].
  apply translate_ok in Et as [-> _]. destruct (write_sectors _ _ _ _) as [r0 d0] eqn:Ew; simplify_eq.
  apply write_each in Ew as (H1 & H2 & H3); [|done|lia|done].
  unfold partition_ok; simpl; split_and!; auto; try lia.
  intros i. destruct (H3 (base_lba v + i)) as [|[Hr ->]]; [by left|right]. split; [lia|]. f_equal. lia.
Qed.
Next Obligation.
  intros v lba n buf v' (Hd & Hb & Hc) Hl Hn E. simpl in *. unfold partition_write_sectors in E.
  destruct (translate v lba n) as [phys|] eqn:Et; simplify_eq.
  apply translate_ok in Et as [-> Hr]. destruct (write_sectors _ _ _ _) as [r0 d0] eqn:Ew; simplify_eq.
  apply write_ok in Ew as (H1 & H2 & H3); [|done|lia|done]. split_and!; auto.
  intros i Hi. simpl in *. rewrite H3 by lia. f_equal. lia.
Qed.

(** The view is confined: whatever is asked of it, no sector of the disk
    outside the partition changes. *)
Lemma partition_confined v lba n buf r v' i :
  partition_ok v -> 0 <= lba -> 0 <= n < 2 ^ 23 -> partition_write_sectors v lba n buf = (r, v') ->
  ~ base_lba v <= i < base_lba v + partition_count v -> sector (inner v') i = sector (inner v) i.
Proof.
  intros (Hd & Hb & Hc) Hl Hn E Hi. unfold partition_write_sectors in E.
  destruct (translate v lba n) as [phys|] eqn:Et; simplify_eq; [|done].
  apply translate_ok in Et as [-> Hr]. destruct (write_sectors _ _ _ _) as [r0 d0] eqn:Ew; simplify_eq.
  apply write_each in Ew as (_ & _ & H3); [|done|lia|done].
  destruct (H3 i) as [|[Hr' _]]; [done|lia].
Qed.
End partition_laws.

Section msdc_laws.
Context {C : Type} `{!MsdcOps C, !MsdcLaws C}.

Lemma length_piece buf k n :
  length buf = Z.to_nat (n * SECTOR_SIZE) -> 0 <= k < n -> length (piece buf k) = Z.to_nat SECTOR_SIZE.
Proof. intros H Hk. unfold piece. rewrite length_take, length_drop, H. unfold SECTOR_SIZE. lia. Qed.

Lemma length_splice buf k s n :
  length buf = Z.to_nat (n * SECTOR_SIZE) -> 0 <= k < n -> length s = Z.to_nat SECTOR_SIZE ->
  length (splice buf k s) = length buf.
Proof. intros H Hk Hs. unfold splice. rewrite !length_app, length_take, length_drop, H, Hs. unfold SECTOR_SIZE. lia. Qed.

(** The read loop from index [k] on leaves the sectors alone and, when it
    succeeds, fills the rest of the buffer with them. *)
Lemma read_each_spec lba n m : forall k c buf r buf' c',
  0 <= k -> k + Z.of_nat m = n -> length buf = Z.to_nat (n * SECTOR_SIZE) ->
  read_each c lba (seqZ k (Z.of_nat m)) buf = (r, buf', c') ->
  (forall i, cell c' i = cell c i) /\ length buf' = length buf /\
  (r = Ok () -> buf' = take (Z.to_nat (k * SECTOR_SIZE)) buf ++ mjoin (cell c <$> seqZ (lba + k) (Z.of_nat m))).
Proof.
  induction m as [|m IH]; intros k c buf r buf' c' Hk Hn Hl E.
  { simpl in E. simplify_eq. split_and!; [done..|]. intros _. rewrite take_ge by lia. simpl. by rewrite app_nil_r. }
  rewrite Nat2Z.inj_succ, seqZ_cons, Z.pred_succ in E by lia. cbn [read_each] in E.
  destruct (2 ^ 32 <=? lba + k); [by simplify_eq|].
  destruct (read_sector c (lba + k) (piece buf k)) as [[r0 s0] c0] eqn:Er.
  pose proof (length_piece buf k n Hl ltac:(lia)) as Hp.
  destruct (read_sector_same _ _ _ _ _ _ Hp Er) as [Hc Hs]. rewrite Hp in Hs.
  pose proof (length_splice buf k s0 n Hl ltac:(lia) Hs) as Hsp.
  destruct r0 as [[]|]; [|simplify_eq; by split_and!].
  apply IH in E as (H1 & H2 & H3); [|lia..]. split_and!; [intros; rewrite H1; done|lia|].
  intros ->. rewrite H3 by done. apply read_sector_ok in Er as ->.
  rewrite Nat2Z.inj_succ, (seqZ_cons (lba + k)), Z.pred_succ by lia. rewrite fmap_cons.
  change (mjoin (?x :: ?l)) with (x ++ mjoin l). rewrite app_assoc. f_equal.
  - unfold splice. rewrite app_assoc, take_app_le by (rewrite length_app, length_take, Hs; unfold SECTOR_SIZE in *; lia).
    apply take_ge. rewrite length_app, length_take, Hs. unfold SECTOR_SIZE in *; lia.
  - replace (Z.succ (lba + k)) with (lba + Z.succ k) by lia. apply (f_equal mjoin). apply list_fmap_ext. intros; apply Hc.
Qed.

Lemma write_loop_spec lba n buf m : forall k c r c',
  0 <= k -> k + Z.of_nat m = n -> length buf = Z.to_nat (n * SECTOR_SIZE) ->
  write_loop c lba (seqZ k (Z.of_nat m)) buf = (r, c') ->
  (forall i, cell c' i = cell c i \/ lba + k <= i < lba + n /\ cell c' i = piece buf (i - lba)) /\
  (r = Ok () -> forall i, lba + k <= i < lba + n -> cell c' i = piece buf (i - lba)).
Proof.
  induction m as [|m IH]; intros k c r c' Hk Hn Hl E.
  { simpl in E. simplify_eq. split; [by left|lia]. }
  rewrite Nat2Z.inj_succ, seqZ_cons, Z.pred_succ in E by lia. cbn [write_loop] in E.
  destruct (2 ^ 32 <=? lba + k); [simplify_eq; split; [by left|done]|].
  pose proof (length_piece buf k n Hl ltac:(lia)) as Hp.
  destruct (write_sector c (lba + k) (piece buf k)) as [r0 c0] eqn:Ew.
  pose proof (write_sector_each _ _ _ _ _ Hp Ew) as Hw.
  assert (forall i, cell c0 i = cell c i \/ i = lba + k /\ cell c0 i = piece buf (i - lba)) as Hw'.
  { intros i. destruct (Hw i) as [?|(-> & ->)]; [by left|right]. split; [done|]. f_equal. lia. }
  destruct r0 as [[]|]; simplify_eq.
  2:{ split; [|done]. intros i. destruct (Hw' i) as [?|[-> ?]]; [by left|right]. split; [lia|done]. }
  apply IH in E as [H1 H2]; [|lia..]. split.
  - intros i. destruct (H1 i) as [->|[? ?]]; [|right; split; [lia|done]].
    destruct (Hw' i) as [?|[-> ?]]; [by left|right; split; [lia|done]].
  - intros Hr i Hi. destruct (decide (i = lba + k)) as [->|Hne]; [|apply H2; [done|lia]].
    destruct (H1 (lba + k)) as [->|[? _]]; [|lia].
    rewrite (write_sector_ok _ _ _ _ Hp Ew). f_equal. lia.
Qed.

Lemma msdc_check_ok (d : MsdcBlockDevice C) lba n len :
  0 <= n < 2 ^ 23 -> msdc_check d lba n len = Ok () ->
  lba + n <= msdc_count d /\ len = Z.to_nat (n * SECTOR_SIZE).
Proof.
  intros Hn. unfold msdc_check, checked_add. intros H. repeat (case_match; simplify_eq).
  apply Z.ltb_ge in H1. apply Z.eqb_eq in H2. rewrite wrap32_small in H2 by (unfold is_u32, SECTOR_SIZE; lia). lia.
Qed.

#[export] Program Instance msdc_laws : BlockDeviceLaws (MsdcBlockDevice C) := {|
  dev_ok d := 0 <= msdc_count d < 2 ^ 64;
  sector d i := cell (controller d) i;
|}.
Next Obligation. intros. apply cell_length. Qed.
Next Obligation. done. Qed.
Next Obligation. done. Qed.
Next Obligation.
  intros d lba n buf r buf' d' Hd Hl Hn E. simpl in *. unfold msdc_read_sectors in E.
  destruct (msdc_check d lba n (length buf)) as [[]|] eqn:Ec; simplify_eq; [|split; [done|by split_and!]].
  apply msdc_check_ok in Ec as [_ Hlen]; [|done]. destruct (read_each _ _ _ _) as [[r0 b0] c0] eqn:Er; simplify_eq.
  rewrite <- (Z2Nat.id n) in Er by lia.
  apply (read_each_spec lba n) in Er as (H1 & H2 & _); [|lia..|done]. split; [done|by split_and!].
Qed.
Next Obligation.
  intros d lba n buf buf' d' Hd Hl Hn E. simpl in *. unfold msdc_read_sectors in E.
  destruct (msdc_check d lba n (length buf)) as [[]|] eqn:Ec; simplify_eq.
  apply msdc_check_ok in Ec as [? Hlen]; [|done]. destruct (read_each _ _ _ _) as [[r0 b0] c0] eqn:Er; simplify_eq.
  rewrite <- (Z2Nat.id n) in Er by lia.
  apply (read_each_spec lba n) in Er as (_ & _ & H3); [|lia..|done]. split; [done|]. rewrite H3 by done.
  by rewrite Z2Nat.id, Z.add_0_r by lia.
Qed.
Next Obligation.
  intros d lba n buf r d' Hd Hl Hn E. simpl in *. unfold msdc_write_sectors in E.
  destruct (msdc_check d lba n (length buf)) as [[]|] eqn:Ec; simplify_eq; [|split; [done|split; [done|by left]]].
  apply msdc_check_ok in Ec as [_ Hlen]; [|done]. destruct (write_loop _ _ _ _) as [r0 c0] eqn:Ew; simplify_eq.
  rewrite <- (Z2Nat.id n) in Ew by lia.
  apply (write_loop_spec lba n) in Ew as [H1 _]; [|lia..|done]. split; [done|split; [done|]].
  intros i. specialize (H1 i). by rewrite Z.add_0_r in H1.
Qed.
Next Obligation.
  intros d lba n buf d' Hd Hl Hn E. simpl in *. unfold msdc_write_sectors in E.
  destruct (msdc_check d lba n (length buf)) as [[]|] eqn:Ec; simplify_eq.
  apply msdc_check_ok in Ec as [? Hlen]; [|done]. destruct (write_loop _ _ _ _) as [r0 c0] eqn:Ew; simplify_eq.
  rewrite <- (Z2Nat.id n) in Ew by lia.
  apply (write_loop_spec lba n) in Ew as [_ H2]; [|lia..|done]. split_and!; [lia|done|].
  intros i Hi. apply H2; [done|lia].
Qed.
End msdc_laws.
(** ** A card with bad sectors

    A concrete controller for the examples: sectors start zeroed, and a
    transfer to a sector of [bad] fails. *)

Record Card := mk_card { sectors : gmap Z (list Z); bad : list Z }.

Definition pad (s : list Z) : list Z := take (Z.to_nat SECTOR_SIZE) (s ++ replicate (Z.to_nat SECTOR_SIZE) 0).

Definition card_cell (c : Card) (lba : Z) : list Z := pad (default [] (sectors c !! lba)).

#[export] Instance card_ops : MsdcOps Card := {|
  read_sector c lba buf := if bool_decide (lba ∈ bad c) then (Err DataTimeout, buf, c) else (Ok (), card_cell c lba, c);
  write_sector c lba buf :=
    if bool_decide (lba ∈ bad c) then (Err DataTimeout, c) else (Ok (), mk_card (<[lba := buf]> (sectors c)) (bad c));
|}.

Lemma length_pad s : length (pad s) = Z.to_nat SECTOR_SIZE.
Proof. unfold pad. rewrite length_take, length_app, length_replicate. lia. Qed.

Lemma pad_id s : length s = Z.to_nat SECTOR_SIZE -> pad s = s.
Proof. intros H. unfold pad. by rewrite <- H, take_app_length. Qed.

#[export] Program Instance card_laws : MsdcLaws Card := {| cell := card_cell |}.
Next Obligation. intros. apply length_pad. Qed.
Next Obligation.
  intros c lba buf r buf' c' Hl E. simpl in E. case_match; simplify_eq; [done|]. split; [done|]. unfold card_cell. by rewrite length_pad.
Qed.
Next Obligation. intros c lba buf buf' c' E. simpl in E. by case_match; simplify_eq. Qed.
Next Obligation.
  intros c lba buf r c' Hl E i. simpl in E. case_match; simplify_eq; [by left|]. unfold card_cell; simpl.
  destruct (decide (i = lba)) as [->|]; [right|left; by rewrite lookup_insert_ne].
  by rewrite lookup_insert_eq; simpl; rewrite pad_id.
Qed.
Next Obligation.
  intros c lba buf c' Hl E. simpl in E. case_match; simplify_eq. unfold card_cell; simpl.
  by rewrite lookup_insert_eq; simpl; rewrite pad_id.
Qed.

(** A card with a block stored on it, and a card whose sectors all work. *)
Definition store_sectors (c : Card) (lba : Z) (buf : list Z) : Card :=
  mk_card (foldr (fun k m => <[lba + k := piece buf k]> m) (sectors c) (seqZ 0 SECTORS_PER_BLOCK)) (bad c).

Definition store_block (d : MsdcBlockDevice Card) (b : Z) (buf : list Z) : MsdcBlockDevice Card :=
  with_controller d (store_sectors (controller d) (b * SECTORS_PER_BLOCK) buf).

Definition repaired (d : MsdcBlockDevice Card) : MsdcBlockDevice Card := with_controller d (mk_card (sectors (controller d)) []).

Lemma store_sectors_lookup c lba buf i idx :
  NoDup idx -> foldr (fun k m => <[lba + k := piece buf k]> m) (sectors c) idx !! i =
    if decide (i - lba ∈ idx) then Some (piece buf (i - lba)) else sectors c !! i.
Proof.
  induction idx as [|k idx IH]; intros Hn; cbn [foldr].
  { rewrite decide_False; [done|]. apply not_elem_of_nil. }
  apply NoDup_cons in Hn as [Hk Hn]. destruct (decide (i = lba + k)) as [->|Hne].
  - rewrite lookup_insert_eq, decide_True; [repeat f_equal; lia|]. replace (lba + k - lba) with k by lia. left.
  - rewrite lookup_insert_ne by done. rewrite IH by done.
    destruct (decide (i - lba ∈ idx)) as [Hi|Hi]; [rewrite decide_True by (by right); done|].
    rewrite decide_False; [done|]. intros [?|?]%elem_of_cons; [lia|done].
Qed.

Lemma content_store d b buf x :
  length buf = Z.to_nat BLOCK_SIZE -> content (store_block d b buf) x = if decide (x = b) then buf else content d x.
Proof.
  intros Hl. destruct (decide (x = b)) as [->|Hne].
  - transitivity (mjoin (piece buf <$> seqZ 0 SECTORS_PER_BLOCK)); [|by apply (mjoin_pieces 8); rewrite Hl].
    unfold content. apply (f_equal mjoin). rewrite <- (Z.add_0_r (b * SECTORS_PER_BLOCK)) at 1.
    rewrite <- (fmap_add_seqZ (b * SECTORS_PER_BLOCK) 0), <- list_fmap_compose.
    apply list_fmap_ext. intros ? k Hk%list_elem_of_lookup_2. cbn [compose sector msdc_laws]. unfold card_cell.
    cbn [cell card_laws controller store_block with_controller]. unfold card_cell, store_sectors. cbn [sectors].
    rewrite store_sectors_lookup by apply NoDup_seqZ. replace (b * SECTORS_PER_BLOCK + k - b * SECTORS_PER_BLOCK) with k by lia.
    rewrite decide_True by done. apply pad_id. apply (length_piece buf k 8); [by rewrite Hl|].
    apply elem_of_seqZ in Hk. spb.
  - apply content_ext. intros i Hi. cbn [sector msdc_laws cell card_laws]. unfold card_cell, store_block, store_sectors.
    cbn [controller with_controller sectors]. rewrite store_sectors_lookup by apply NoDup_seqZ.
    rewrite decide_False; [done|]. rewrite elem_of_seqZ. spb.
Qed.

Lemma read_each_repaired c lba : forall idx buf,
  bad c = [] -> (forall i, i ∈ idx -> lba + i < 2 ^ 32) -> exists buf', read_each c lba idx buf = (Ok (), buf', c).
Proof.
  induction idx as [|i idx IH]; intros buf Hb Hi; cbn [read_each]; [eauto|].
  rewrite (proj2 (Z.leb_gt _ _)) by (apply Hi; left). cbn [read_sector card_ops]. rewrite bool_decide_eq_false_2.
  - apply IH; [done|]. intros k Hk. apply Hi. by right.
  - rewrite Hb. apply not_elem_of_nil.
Qed.

(** A card without bad sectors serves every transfer in range. *)
Definition sound_card (d : MsdcBlockDevice Card) : Prop := 0 <= msdc_count d <= 2 ^ 32 /\ bad (controller d) = [].

Lemma sound_check d lba n (buf : list Z) :
  sound_card d -> 0 <= lba -> 0 <= n < 2 ^ 23 -> lba + n <= msdc_count d -> length buf = Z.to_nat (n * SECTOR_SIZE) ->
  msdc_check d lba n (length buf) = Ok ().
Proof.
  intros [Hc _] H0 Hn Hr Hl. unfold msdc_check, checked_add.
  rewrite (proj2 (Z.ltb_lt _ _)) by lia. rewrite (proj2 (Z.ltb_ge _ _)) by lia.
  rewrite Hl, wrap32_small by (unfold is_u32, SECTOR_SIZE; lia). by rewrite Z2Nat.id, Z.eqb_refl by (unfold SECTOR_SIZE; lia).
Qed.

Lemma write_loop_sound lba buf : forall idx c,
  bad c = [] -> (forall i, i ∈ idx -> lba + i < 2 ^ 32) -> exists c', write_loop c lba idx buf = (Ok (), c') /\ bad c' = [].
Proof.
  induction idx as [|i idx IH]; intros c Hb Hi; cbn [write_loop]; [eauto|].
  rewrite (proj2 (Z.leb_gt _ _)) by (apply Hi; left). cbn [write_sector card_ops]. rewrite bool_decide_eq_false_2.
  - apply IH; [done|]. intros k Hk. apply Hi. by right.
  - rewrite Hb. apply not_elem_of_nil.
Qed.

Lemma sound_read d lba n (buf : list Z) :
  sound_card d -> 0 <= lba -> 0 <= n < 2 ^ 23 -> lba + n <= msdc_count d -> length buf = Z.to_nat (n * SECTOR_SIZE) ->
  exists buf' d', msdc_read_sectors d lba n buf = (Ok (), buf', d') /\ sound_card d'.
Proof.
  intros Hs H0 Hn Hr Hl. unfold msdc_read_sectors. rewrite sound_check by done. destruct Hs as [Hc Hb].
  destruct (read_each_repaired (controller d) lba (seqZ 0 n) buf Hb) as [buf' E]; [intros i Hi%elem_of_seqZ; lia|].
  rewrite E. eexists _, _. split; [reflexivity|done].
Qed.

Lemma sound_write d lba n (buf : list Z) :
  sound_card d -> 0 <= lba -> 0 <= n < 2 ^ 23 -> lba + n <= msdc_count d -> length buf = Z.to_nat (n * SECTOR_SIZE) ->
  exists d', msdc_write_sectors d lba n buf = (Ok (), d') /\ sound_card d'.
Proof.
  intros Hs H0 Hn Hr Hl. unfold msdc_write_sectors. rewrite sound_check by done. destruct Hs as [Hc Hb].
  destruct (write_loop_sound lba buf (seqZ 0 n) (controller d) Hb) as (c' & E & Hb'); [intros i Hi%elem_of_seqZ; lia|].
  rewrite E. eexists. split; [reflexivity|done].
Qed.

Lemma repaired_steady d : 0 <= msdc_count d <= 2 ^ 32 -> steady (repaired d).
Proof.
  intros Hc lba n buf H0 Hn Hr Hl. cbn [read_sectors msdc_device sector_count] in *.
  unfold msdc_read_sectors. rewrite sound_check by done.
  destruct (read_each_repaired (controller (repaired d)) lba (seqZ 0 n) buf) as [buf' E]; [done| |].
  { change (lba + n <= msdc_count d) in Hr. intros i Hi%elem_of_seqZ. lia. }
  rewrite E. by exists buf'.
Qed.
End block.
