(* ===== verification/Cache.v ===== *)
(** * The block cache ([crates/thumos/src/cache.rs])

    256 write-back entries over any block device, evicted by least recent use.
    The abstract content of a cached device is [view]: what the cache holds for
    a block, else what the device holds. The operations are stated against it,
    whatever transfers fail. *)

From S2P Require Import Prelude Machine Block.
From Stdlib Require Import ZArith.
Open Scope Z_scope.

Module cache.
Import block.

Definition CACHE_ENTRIES : nat := 256.

Record CacheEntry := mk_entry { block_num : Z; data : list Z; dirty : bool; valid : bool; lru_counter : Z }.

Definition new_entry : CacheEntry := mk_entry 0 (replicate (Z.to_nat BLOCK_SIZE) 0) false false 0.

#[export] Instance CacheEntry_inhabited : Inhabited CacheEntry := populate new_entry.

Record BlockCache := mk_cache { entries : list CacheEntry; counter : Z }.

Definition new : BlockCache := mk_cache (replicate CACHE_ENTRIES new_entry) 0.

Definition set_entry (c : BlockCache) (idx : nat) (e : CacheEntry) : BlockCache := mk_cache (<[idx:=e]> (entries c)) (counter c).

Definition find_entry (c : BlockCache) (b : Z) : option nat :=
  fst <$> list_find (fun e => valid e = true /\ block_num e = b) (entries c).

(** The loop of [lru_victim], from index [i] on. *)
Fixpoint victim_from (es : list CacheEntry) (i min_idx : nat) (min_counter : Z) : nat :=
  match es with
  | [] => min_idx
  | e :: es =>
      if valid e && (lru_counter e <? min_counter) then victim_from es (S i) i (lru_counter e)
      else victim_from es (S i) min_idx min_counter
  end.

Definition lru_victim (c : BlockCache) : nat := victim_from (entries c) 0 0 (2 ^ 64 - 1).

Definition touch (c : BlockCache) (idx : nat) : BlockCache :=
  let n := wrap64 (counter c + 1) in
  let e := entries c !!! idx in
  mk_cache (<[idx := mk_entry (block_num e) (data e) (dirty e) (valid e) n]> (entries c)) n.

Section device.
Context {D : Type} `{!BlockDevice D}.

Definition write_back (c : BlockCache) (d : D) (idx : nat) : result () BlockError * BlockCache * D :=
  let e := entries c !!! idx in
  match write_sectors d (wrap64 (block_num e * SECTORS_PER_BLOCK)) SECTORS_PER_BLOCK (data e) with
  | (Ok _, d) => (Ok (), set_entry c idx (mk_entry (block_num e) (data e) false (valid e) (lru_counter e)), d)
  | (Err er, d) => (Err er, c, d)
  end.

Definition allocate_entry (c : BlockCache) (d : D) : result nat BlockError * BlockCache * D :=
  match list_find (fun e => valid e = false) (entries c) with
  | Some (idx, _) => (Ok idx, c, d)
  | None =>
      let idx := lru_victim c in
      let '(r, c, d) := if dirty (entries c !!! idx) then write_back c d idx else (Ok (), c, d) in
      match r with
      | Err er => (Err er, c, d)
      | Ok _ =>
          let e := entries c !!! idx in
          (Ok idx, set_entry c idx (mk_entry (block_num e) (data e) false false (lru_counter e)), d)
      end
  end.

Definition read (c : BlockCache) (d : D) (b : Z) : result (list Z) BlockError * BlockCache * D :=
  match find_entry c b with
  | Some idx => let c := touch c idx in (Ok (data (entries c !!! idx)), c, d)
  | None =>
      match allocate_entry c d with
      | (Err er, c, d) => (Err er, c, d)
      | (Ok idx, c, d) =>
          let e := entries c !!! idx in
          match read_sectors d (wrap64 (b * SECTORS_PER_BLOCK)) SECTORS_PER_BLOCK (data e) with
          | (Err er, buf, d) => (Err er, set_entry c idx (mk_entry (block_num e) buf (dirty e) (valid e) (lru_counter e)), d)
          | (Ok _, buf, d) => (Ok buf, touch (set_entry c idx (mk_entry b buf false true (lru_counter e))) idx, d)
          end
      end
  end.

Definition write (c : BlockCache) (d : D) (b : Z) (buf : list Z) : result () BlockError * BlockCache * D :=
  let '(r, c, d) := match find_entry c b with Some idx => (Ok idx, c, d) | None => allocate_entry c d end in
  match r with
  | Err er => (Err er, c, d)
  | Ok idx => (Ok (), touch (set_entry c idx (mk_entry b buf true true (lru_counter (entries c !!! idx)))) idx, d)
  end.

(** The loop of [flush] over the remaining indices. *)
Fixpoint flush_loop (c : BlockCache) (d : D) (idx : list nat) (first_err : option BlockError) : option BlockError * BlockCache * D :=
  match idx with
  | [] => (first_err, c, d)
  | i :: idx =>
      if valid (entries c !!! i) && dirty (entries c !!! i) then
        match write_back c d i with
        | (Ok _, c, d) => flush_loop c d idx first_err
        | (Err er, c, d) => flush_loop c d idx (Some (default er first_err))
        end
      else flush_loop c d idx first_err
  end.

Definition flush (c : BlockCache) (d : D) : result () BlockError * BlockCache * D :=
  match flush_loop c d (seq 0 (length (entries c))) None with
  | (Some er, c, d) => (Err er, c, d)
  | (None, c, d) => (Ok (), c, d)
  end.

Definition sync (c : BlockCache) (d : D) : result () BlockError * BlockCache * D := flush c d.
End device.

Definition invalidate (c : BlockCache) : BlockCache :=
  mk_cache ((fun e => mk_entry (block_num e) (data e) false false 0) <$> entries c) 0.

(** ** The content of a cached device *)

Section laws.
Context {D : Type} `{!BlockDevice D, !BlockDeviceLaws D}.

(** Block numbers below this have a sector address that does not wrap. *)
Definition is_block (b : Z) : Prop := 0 <= b < 2 ^ 61.

Record cache_ok (c : BlockCache) (d : D) : Prop := {
  co_dev : dev_ok d;
  co_len : length (entries c) = CACHE_ENTRIES;
  co_data i e : entries c !! i = Some e -> length (data e) = Z.to_nat BLOCK_SIZE;
  co_num i e : entries c !! i = Some e -> valid e = true -> is_block (block_num e);
  co_inj i j e e' :
    entries c !! i = Some e -> entries c !! j = Some e' -> valid e = true -> valid e' = true ->
    block_num e = block_num e' -> i = j;
  co_clean i e : entries c !! i = Some e -> valid e = true -> dirty e = false -> data e = content d (block_num e);
}.

Definition view (c : BlockCache) (d : D) (b : Z) : list Z :=
  match list_find (fun e => valid e = true /\ block_num e = b) (entries c) with
  | Some (_, e) => data e
  | None => content d b
  end.

Definition cached (c : BlockCache) (b : Z) : Prop := exists i e, entries c !! i = Some e /\ valid e = true /\ block_num e = b.

Lemma view_hit c d i e :
  cache_ok c d -> entries c !! i = Some e -> valid e = true -> view c d (block_num e) = data e.
Proof.
  intros Hok Hi Hv. unfold view.
  destruct (list_find _ _) as [[j e']|] eqn:E.
  - apply list_find_Some in E as (Hj & [Hv' Hb] & _).
    rewrite (co_inj _ _ Hok _ _ _ _ Hj Hi Hv' Hv Hb) in Hj. by simplify_eq.
  - apply list_find_None in E. rewrite Forall_forall in E. exfalso. eapply E; [by eapply list_elem_of_lookup_2|done].
Qed.

Lemma view_miss c d b : ~ cached c b -> view c d b = content d b.
Proof.
  intros Hn. unfold view. destruct (list_find _ _) as [[j e']|] eqn:E; [|done].
  apply list_find_Some in E as (Hj & [Hv' Hb] & _). destruct Hn. by exists j, e'.
Qed.

Lemma find_entry_Some c b i :
  find_entry c b = Some i -> exists e, entries c !! i = Some e /\ valid e = true /\ block_num e = b.
Proof.
  unfold find_entry. intros ([j e] & (Hj & [? ?] & _)%list_find_Some & ->)%fmap_Some. by exists e.
Qed.

Lemma find_entry_None c b : find_entry c b = None -> ~ cached c b.
Proof.
  unfold find_entry. intros H%fmap_None%list_find_None (i & e & Hi & Hv & Hb).
  rewrite Forall_forall in H. eapply H; [by eapply list_elem_of_lookup_2|done].
Qed.

(** Replacing one entry. *)
Lemma put_entry c d i e0 e :
  cache_ok c d -> entries c !! i = Some e0 -> length (data e) = Z.to_nat BLOCK_SIZE ->
  (valid e = true -> is_block (block_num e) /\
     (forall j e', j <> i -> entries c !! j = Some e' -> valid e' = true -> block_num e' <> block_num e) /\
     (dirty e = false -> data e = content d (block_num e))) ->
  forall n, let c' := mk_cache (<[i:=e]> (entries c)) n in
  cache_ok c' d /\
  forall b, view c' d b =
    if decide (valid e = true /\ block_num e = b) then data e else
    if decide (valid e0 = true /\ block_num e0 = b) then content d b else view c d b.
Proof.
  intros Hok Hi Hl Hv n c'. pose proof (lookup_lt_Some _ _ _ Hi) as Hlt.
  assert (forall j e', entries c' !! j = Some e' -> (j = i /\ e' = e) \/ (j <> i /\ entries c !! j = Some e')) as Hc.
  { intros j e' H. simpl in H. destruct (decide (j = i)) as [->|].
    - rewrite list_lookup_insert_eq in H by done. by simplify_eq; left.
    - rewrite list_lookup_insert_ne in H by done. by right. }
  assert (entries c' !! i = Some e) as Hi' by (by apply list_lookup_insert_eq).
  assert (cache_ok c' d) as Hok'.
  { split.
    - apply Hok.
    - simpl. rewrite length_insert. apply Hok.
    - intros j e' [[-> ->]|[_ H]]%Hc; [done|by eapply Hok].
    - intros j e' [[-> ->]|[_ H]]%Hc Hve; [by apply Hv|by eapply Hok].
    - intros j k e' e'' Hj Hk Hvj Hvk Hb.
      apply Hc in Hj as [[-> ->]|[Hji Hj]]; apply Hc in Hk as [[-> ->]|[Hki Hk]]; [done| | |by eapply Hok].
      + by destruct (Hv Hvj) as (_ & Hd & _); destruct (Hd _ _ Hki Hk).
      + by destruct (Hv Hvk) as (_ & Hd & _); destruct (Hd _ _ Hji Hj).
    - intros j e' [[-> ->]|[_ H]]%Hc Hve; [by apply Hv|by eapply Hok]. }
  split; [done|]. intros b.
  destruct (decide (valid e = true /\ block_num e = b)) as [[Hve <-]|Hne]; [by eapply view_hit|].
  destruct (decide (valid e0 = true /\ block_num e0 = b)) as [[Hv0 <-]|Hne0].
  - apply view_miss. intros (j & e' & [[-> ->]|[Hj H]]%Hc & Hve & Hb); [by destruct Hne|].
    destruct Hj. by eapply Hok.
  - destruct (find_entry c b) as [j|] eqn:Ef.
    + apply find_entry_Some in Ef as (e' & Hj & Hve & <-).
      assert (j <> i) by (intros ->; simplify_eq; naive_solver).
      rewrite (view_hit c d j e') by done. eapply view_hit; [done| |done]. simpl. by rewrite list_lookup_insert_ne.
    + apply find_entry_None in Ef. rewrite (view_miss c d b Ef). apply view_miss.
      intros (j & e' & [[-> ->]|[Hj H]]%Hc & Hve & Hb); [by destruct Hne|]. apply Ef. by exists j, e'.
Qed.
(** Blocks whose cached data the device may not have yet. *)
Definition dirty_at (c : BlockCache) (b : Z) : Prop :=
  exists i e, entries c !! i = Some e /\ valid e = true /\ dirty e = true /\ block_num e = b.

Lemma clean_view c d b : cache_ok c d -> ~ dirty_at c b -> content d b = view c d b.
Proof.
  intros Hok Hn. destruct (find_entry c b) as [i|] eqn:Ef.
  - apply find_entry_Some in Ef as (e & Hi & Hv & <-). rewrite (view_hit _ _ i e) by done.
    destruct (dirty e) eqn:Hd; [by destruct Hn; exists i, e|]. symmetry. by eapply Hok.
  - apply find_entry_None in Ef. by rewrite view_miss.
Qed.

(** What every step but a store does: the content stays, nothing becomes dirty,
    and only dirty blocks of the device change. *)
Record settles (c : BlockCache) (d : D) (c' : BlockCache) (d' : D) : Prop := {
  se_ok : cache_ok c' d';
  se_count : sector_count d' = sector_count d;
  se_view b : view c' d' b = view c d b;
  se_dirty b : dirty_at c' b -> dirty_at c b;
  se_sector b i : 0 <= i < SECTORS_PER_BLOCK ->
    sector d' (b * SECTORS_PER_BLOCK + i) = sector d (b * SECTORS_PER_BLOCK + i) \/
    dirty_at c b /\ sector d' (b * SECTORS_PER_BLOCK + i) = piece (view c d b) i;
}.

Lemma content_same (d d' : D) b :
  (forall i, 0 <= i < SECTORS_PER_BLOCK -> sector d' (b * SECTORS_PER_BLOCK + i) = sector d (b * SECTORS_PER_BLOCK + i)) ->
  content d' b = content d b.
Proof.
  intros H. apply content_ext. intros i Hi. specialize (H (i - b * SECTORS_PER_BLOCK) ltac:(lia)).
  by replace (b * SECTORS_PER_BLOCK + (i - b * SECTORS_PER_BLOCK)) with i in H by lia.
Qed.

Lemma se_disk c d c' d' b : settles c d c' d' -> ~ dirty_at c b -> content d' b = content d b.
Proof. intros H Hn. apply content_same. intros i Hi. by destruct (se_sector _ _ _ _ H b i Hi) as [|[? _]]. Qed.

Lemma settles_refl c d : cache_ok c d -> settles c d c d.
Proof. split; auto. Qed.

Lemma settles_trans c d c1 d1 c2 d2 : settles c d c1 d1 -> settles c1 d1 c2 d2 -> settles c d c2 d2.
Proof.
  intros H H'. split; [apply H'|..].
  - by rewrite (se_count _ _ _ _ H'), (se_count _ _ _ _ H).
  - intros b. by rewrite (se_view _ _ _ _ H'), (se_view _ _ _ _ H).
  - intros b Hb. by apply H, H'.
  - intros b i Hi. destruct (se_sector _ _ _ _ H' b i Hi) as [->|[Hd ->]]; [by apply H|].
    right. rewrite (se_view _ _ _ _ H). split; [by apply H|done].
Qed.

Lemma dirty_put c i e0 e n b :
  entries c !! i = Some e0 -> dirty_at (mk_cache (<[i:=e]> (entries c)) n) b ->
  (valid e = true /\ dirty e = true /\ block_num e = b) \/ dirty_at c b.
Proof.
  intros Hi (j & e' & Hj & Hv & Hd & Hb). simpl in Hj. pose proof (lookup_lt_Some _ _ _ Hi).
  destruct (decide (j = i)) as [->|Hne].
  - rewrite list_lookup_insert_eq in Hj by done. simplify_eq. by left.
  - rewrite list_lookup_insert_ne in Hj by done. right. by exists j, e'.
Qed.

Lemma cached_put c i e0 e n b :
  entries c !! i = Some e0 -> cached (mk_cache (<[i:=e]> (entries c)) n) b -> (valid e = true /\ block_num e = b) \/ cached c b.
Proof.
  intros Hi (j & e' & Hj & Hv & Hb). simpl in Hj. pose proof (lookup_lt_Some _ _ _ Hi).
  destruct (decide (j = i)) as [->|Hne].
  - rewrite list_lookup_insert_eq in Hj by done. simplify_eq. by left.
  - rewrite list_lookup_insert_ne in Hj by done. right. by exists j, e'.
Qed.

(** A write reaches the device at a dirty block. *)
Lemma device_change c d d' i e :
  cache_ok c d -> entries c !! i = Some e -> valid e = true -> dirty e = true -> dev_ok d' ->
  sector_count d' = sector_count d ->
  (forall x i, 0 <= i < SECTORS_PER_BLOCK ->
     sector d' (x * SECTORS_PER_BLOCK + i) = sector d (x * SECTORS_PER_BLOCK + i) \/
     x = block_num e /\ sector d' (x * SECTORS_PER_BLOCK + i) = piece (data e) i) ->
  settles c d c d'.
Proof.
  intros Hok Hi Hv Hd Hd' Hs Hx.
  assert (forall x, x <> block_num e -> content d' x = content d x) as Hc.
  { intros x Hne. apply content_same. intros k Hk. by destruct (Hx x k Hk) as [|[? _]]. }
  split; [|done|..|done|].
  - split; [done|by apply Hok..|]. intros j e' Hj Hvj Hdj. rewrite Hc; [by eapply Hok|].
    intros Hb. rewrite (co_inj _ _ Hok _ _ _ _ Hj Hi Hvj Hv Hb) in Hj. congruence.
  - intros b. unfold view. destruct (list_find _ _) as [[j e']|] eqn:El; [done|].
    apply Hc. intros ->. apply list_find_None in El. rewrite Forall_forall in El.
    eapply El; [by eapply list_elem_of_lookup_2|done].
  - intros b k Hk. destruct (Hx b k Hk) as [?|[-> E]]; [by left|right].
    rewrite (view_hit c d i e) by done. split; [by exists i, e|done].
Qed.

(** Changing the bookkeeping of an entry, not its block or its data. *)
Lemma restamp_settles c d i e e' n :
  cache_ok c d -> entries c !! i = Some e -> block_num e' = block_num e -> data e' = data e -> valid e' = valid e ->
  (valid e = true -> dirty e' = dirty e \/ (dirty e' = false /\ data e = content d (block_num e))) ->
  settles c d (mk_cache (<[i:=e']> (entries c)) n) d.
Proof.
  intros Hok Hi Hb Hda Hv Hdi.
  destruct (put_entry c d i e e' Hok Hi) with (n := n) as [Hok' Hvw].
  { rewrite Hda. by eapply Hok. }
  { rewrite Hv, Hb, Hda. intros Hve. split_and!; [by eapply Hok|..].
    - intros j e'' Hj Hj' Hvj Heq. by destruct Hj; eapply Hok.
    - intros Hdf. destruct (Hdi Hve) as [Heq|[_ ?]]; [|done]. eapply Hok; [done..|]. congruence. }
  split; [done|done|..].
  - intros b. rewrite Hvw, Hv, Hb, Hda. destruct (decide _) as [[Hve <-]|]; [symmetry; by eapply view_hit|done].
  - intros b [(Hve & Hd & <-)|]%(dirty_put _ _ _ _ _ _ Hi); [|done].
    exists i, e. rewrite Hv in Hve. split_and!; [done|done| |done]. destruct (Hdi Hve) as [|[? _]]; congruence.
  - by left.
Qed.

Lemma touch_settles c d i : cache_ok c d -> (i < length (entries c))%nat -> settles c d (touch c i) d.
Proof.
  intros Hok Hi. unfold touch. destruct (lookup_lt_is_Some_2 _ _ Hi) as [e He].
  rewrite (list_lookup_total_correct _ _ _ He). apply (restamp_settles c d i e); auto.
Qed.

Lemma wrap_block b : is_block b -> wrap64 (b * SECTORS_PER_BLOCK) = b * SECTORS_PER_BLOCK.
Proof. intros Hb. unfold is_block, wrap64 in *. rewrite sectors_per_block. apply Z.mod_small. lia. Qed.

Lemma write_back_settles c d i e r c' d' :
  cache_ok c d -> entries c !! i = Some e -> valid e = true -> dirty e = true -> write_back c d i = (r, c', d') ->
  settles c d c' d' /\
  (r = Ok () -> entries c' = <[i := mk_entry (block_num e) (data e) false (valid e) (lru_counter e)]> (entries c)) /\
  (r <> Ok () -> c' = c).
Proof.
  intros Hok Hi Hv Hd E. unfold write_back in E. rewrite (list_lookup_total_correct _ _ _ Hi) in E.
  pose proof (co_num _ _ Hok _ _ Hi Hv) as Hb. rewrite (wrap_block _ Hb) in E.
  destruct (write_sectors _ _ _ _) as [r0 d0] eqn:Ew.
  apply block_write in Ew as (H1 & H2 & H3 & H4); [|apply Hok|unfold is_block in Hb; lia].
  pose proof (device_change c d d0 i e Hok Hi Hv Hd H1 H2 H3) as Hs.
  destruct r0 as [[]|]; simplify_eq; [|done]. split_and!; [|done..].
  eapply settles_trans; [exact Hs|]. apply (restamp_settles c d' i e); [apply Hs|done..|].
  intros _. right. split; [done|]. by destruct (H4 eq_refl).
Qed.

Lemma victim_from_lt es : forall i m mc n, (m < n)%nat -> (i + length es <= n)%nat -> (victim_from es i m mc < n)%nat.
Proof.
  induction es as [|e es IH]; intros i m mc n Hm Hn; simpl in *; [done|].
  destruct (valid e && (lru_counter e <? mc)); apply IH; lia.
Qed.

Lemma lru_victim_lt c d : cache_ok c d -> (lru_victim c < length (entries c))%nat.
Proof. intros Hok. apply victim_from_lt; [rewrite (co_len _ _ Hok); unfold CACHE_ENTRIES|]; lia. Qed.

(** Dropping a clean entry. *)
Lemma drop_settles c d i e :
  cache_ok c d -> entries c !! i = Some e -> (valid e = true -> dirty e = false) ->
  settles c d (set_entry c i (mk_entry (block_num e) (data e) false false (lru_counter e))) d.
Proof.
  intros Hok Hi Hd. unfold set_entry.
  destruct (put_entry c d i e (mk_entry (block_num e) (data e) false false (lru_counter e)) Hok Hi) with (n := counter c) as [Hok' Hvw].
  { simpl. by eapply (co_data _ _ Hok). }
  { done. }
  split; [done|done|..|by left].
  - intros b. rewrite Hvw. rewrite decide_False by naive_solver.
    destruct (decide _) as [[Hv <-]|]; [|done]. rewrite (view_hit c d i e) by done. symmetry. eapply Hok; eauto.
  - intros b [(? & _)|]%(dirty_put _ _ _ _ _ _ Hi); done.
Qed.

Lemma allocate_settles c d r c' d' :
  cache_ok c d -> allocate_entry c d = (r, c', d') ->
  settles c d c' d' /\ forall i, r = Ok i ->
    (exists e, entries c' !! i = Some e /\ valid e = false) /\ forall b, cached c' b -> cached c b.
Proof.
  intros Hok E. unfold allocate_entry in E.
  destruct (list_find _ _) as [[j e]|] eqn:Ef.
  { apply list_find_Some in Ef as (Hj & Hv & _). simplify_eq. split; [by apply settles_refl|]. intros i [= <-]. split; [by exists e|done]. }
  apply list_find_None in Ef. pose proof (lru_victim_lt _ _ Hok) as Hlt.
  destruct (lookup_lt_is_Some_2 _ _ Hlt) as [e He]. set (i := lru_victim c) in *.
  assert (valid e = true) as Hv.
  { rewrite Forall_forall in Ef. destruct (valid e) eqn:Hv; [done|]. destruct (Ef e); [by eapply list_elem_of_lookup_2|done]. }
  rewrite (list_lookup_total_correct _ _ _ He) in E.
  destruct (dirty e) eqn:Hd.
  - destruct (write_back c d i) as [[r0 c0] d0] eqn:Ew.
    apply (write_back_settles c d i e) in Ew as (Hs & Hc & _); [|done..].
    destruct r0 as [[]|]; simplify_eq; [|by split].
    specialize (Hc eq_refl). pose proof (list_lookup_insert_eq (entries c) i (mk_entry (block_num e) (data e) false (valid e) (lru_counter e)) Hlt) as He'.
    rewrite <- Hc in He'. rewrite (list_lookup_total_correct _ _ _ He'). split.
    + eapply settles_trans; [exact Hs|]. by apply (drop_settles c0 d' i _ (se_ok _ _ _ _ Hs) He').
    + intros k [= <-]. split; [eexists; split; [simpl; apply list_lookup_insert_eq; by eapply lookup_lt_Some|done]|].
      intros b [(? & _)|Hc0]%(cached_put _ _ _ _ _ _ He'); [done|]. destruct c0 as [es0 n0]; simpl in Hc; subst es0.
      apply (cached_put _ _ _ _ _ _ He) in Hc0 as [(_ & Hb)|]; [|done]. by exists i, e.
  - rewrite (list_lookup_total_correct _ _ _ He) in E. simplify_eq. split; [by apply drop_settles|].
    intros k [= <-]. split; [eexists; split; [simpl; by apply list_lookup_insert_eq|done]|].
    by intros b [(? & _)|]%(cached_put _ _ _ _ _ _ He).
Qed.
(** ** The operations *)

(** Filling a free entry with a block that is not cached. *)
Lemma fill_entry c d i e0 e n :
  cache_ok c d -> entries c !! i = Some e0 -> valid e0 = false -> valid e = true -> is_block (block_num e) ->
  length (data e) = Z.to_nat BLOCK_SIZE -> ~ cached c (block_num e) -> (dirty e = false -> data e = content d (block_num e)) ->
  let c' := mk_cache (<[i:=e]> (entries c)) n in
  cache_ok c' d /\ forall b, view c' d b = if decide (b = block_num e) then data e else view c d b.
Proof.
  intros Hok Hi Hv0 Hv Hb Hl Hc Hd. destruct (put_entry c d i e0 e Hok Hi Hl) with (n := n) as [Hok' Hvw].
  { intros _. split_and!; [done| |done]. intros j e' Hj Hj' Hvj Heq. apply Hc. by exists j, e'. }
  split; [done|]. intros b. rewrite Hvw. destruct (decide (b = block_num e)) as [->|Hne].
  - by rewrite decide_True.
  - rewrite decide_False by naive_solver. rewrite decide_False by (intros [? _]; congruence). done.
Qed.

Lemma read_settles c d b r c' d' :
  cache_ok c d -> is_block b -> read c d b = (r, c', d') ->
  settles c d c' d' /\ forall buf, r = Ok buf -> buf = view c d b.
Proof.
  intros Hok Hb E. unfold read in E. destruct (find_entry c b) as [i|] eqn:Ef.
  { apply find_entry_Some in Ef as (e & Hi & Hv & <-). simplify_eq.
    pose proof (lookup_lt_Some _ _ _ Hi) as Hlt. split; [by apply touch_settles|].
    intros buf [= <-]. unfold touch. simpl.
    rewrite list_lookup_total_insert_eq, (list_lookup_total_correct _ _ _ Hi) by done. simpl. symmetry. by apply view_hit with i. }
  apply find_entry_None in Ef. destruct (allocate_entry c d) as [[r0 c0] d0] eqn:Ea.
  apply allocate_settles in Ea as [Hs Ha]; [|done]. destruct r0 as [i|]; [|by simplify_eq; split].
  destruct (Ha i eq_refl) as [(e & Hi & Hv) Hca]. rewrite (list_lookup_total_correct _ _ _ Hi), (wrap_block b Hb) in E.
  pose proof (se_ok _ _ _ _ Hs) as Hok0.
  destruct (read_sectors _ _ _ _) as [[r1 buf1] d1] eqn:Er.
  apply block_read in Er as (H1 & H2 & H3 & H4 & H5); [|apply Hok0|unfold is_block in Hb; lia].
  assert (forall x, content d1 x = content d0 x) as H3' by (intros x; by apply content_ext).
  assert (settles c0 d0 c0 d1) as Hs1.
  { split; [|done|..|done|by left].
    - split; [done|by apply Hok0..|]. intros j e' Hj Hvj Hdj. rewrite H3'. by eapply Hok0.
    - intros x. unfold view. by rewrite H3'. }
  rewrite (co_data _ _ Hok0 _ _ Hi) in H4. pose proof (settles_trans _ _ _ _ _ _ Hs Hs1) as Hs2. clear Hs1 Hok0.
  assert (~ cached c0 b) as Hn by naive_solver.
  destruct r1 as [[]|]; simplify_eq.
  - specialize (H5 eq_refl) as ->. assert (content d0 b = view c d b) as Hvw.
    { by rewrite <- (se_view _ _ _ _ Hs), view_miss. }
    split; [|by intros ? [= <-]]. eapply settles_trans; [exact Hs2|].
    destruct (fill_entry c0 d' i e (mk_entry b (content d0 b) false true (lru_counter e)) (counter c0) (se_ok _ _ _ _ Hs2) Hi)
      as [Hok' Hvw']; [done..| |].
    { simpl. intros _. by rewrite H3'. }
    eapply settles_trans; [|apply touch_settles; [exact Hok'|simpl; rewrite length_insert; by eapply lookup_lt_Some]].
    split; [done|done|..|by left].
    + intros x. rewrite Hvw'. simpl. destruct (decide (x = b)) as [->|]; [|done]. by rewrite view_miss, H3'.
    + by intros x [(_ & ? & _)|]%(dirty_put _ _ _ _ _ _ Hi).
  - split; [|done]. eapply settles_trans; [exact Hs2|]. unfold set_entry.
    destruct (put_entry c0 d' i e (mk_entry (block_num e) buf1 (dirty e) (valid e) (lru_counter e)) (se_ok _ _ _ _ Hs2) Hi)
      with (n := counter c0) as [Hok' Hvw']; [done|simpl; congruence|].
    split; [done|done|..|by left].
    + intros x. rewrite Hvw'. simpl. rewrite !decide_False by (intros [? _]; congruence). done.
    + by intros x [(? & _)|]%(dirty_put _ _ _ _ _ _ Hi); [simpl in *; congruence|].
Qed.

(** Reading through a cache with nothing pending from a device that does not
    fail. *)
Definition pristine (c : BlockCache) (d : D) : Prop := cache_ok c d /\ forall x, ~ dirty_at c x.

Lemma allocate_pristine c d : pristine c d -> exists i c', allocate_entry c d = (Ok i, c', d).
Proof.
  intros [Hok Hn]. unfold allocate_entry. destruct (list_find _ _) as [[j e]|] eqn:Ef; [eauto|].
  apply list_find_None in Ef. pose proof (lru_victim_lt _ _ Hok) as Hlt.
  destruct (lookup_lt_is_Some_2 _ _ Hlt) as [e He]. rewrite (list_lookup_total_correct _ _ _ He).
  destruct (dirty e) eqn:Hd; [|eauto]. exfalso. apply (Hn (block_num e)). exists (lru_victim c), e.
  split_and!; [done| |done|done]. rewrite Forall_forall in Ef. destruct (valid e) eqn:Hv; [done|].
  destruct (Ef e); [by eapply list_elem_of_lookup_2|done].
Qed.

Lemma read_pristine c d b :
  pristine c d -> steady d -> is_block b -> b * SECTORS_PER_BLOCK + SECTORS_PER_BLOCK <= sector_count d ->
  exists c', read c d b = (Ok (content d b), c', d) /\ pristine c' d.
Proof.
  intros Hp Hst Hb Hr. destruct (read c d b) as [[r c'] d'] eqn:E.
  destruct (read_settles c d b r c' d' (proj1 Hp) Hb E) as [Hs Hv].
  assert (is_ok r = true /\ d' = d) as [Ho ->].
  { unfold read in E. destruct (find_entry c b) as [i|]; [by simplify_eq|].
    destruct (allocate_pristine c d Hp) as (i & c0 & Ea). rewrite Ea in E.
    destruct (allocate_settles _ _ _ _ _ (proj1 Hp) Ea) as [Hs0 Ha]. destruct (Ha i eq_refl) as [(e & He & _) _].
    rewrite (list_lookup_total_correct _ _ _ He), (wrap_block b Hb) in E.
    edestruct (Hst (b * SECTORS_PER_BLOCK) SECTORS_PER_BLOCK (data e)) as [buf' Er];
      [unfold is_block in Hb; spb|apply spb_range|done|by rewrite (co_data _ _ (se_ok _ _ _ _ Hs0) _ _ He)|].
    rewrite Er in E. by simplify_eq. }
  destruct r as [buf|]; [|done]. exists c'. rewrite (Hv buf eq_refl), <- (clean_view c d b); [|apply Hp..].
  split; [done|]. split; [apply Hs|]. intros x Hx. eapply (proj2 Hp), Hs, Hx.
Qed.

(** What a store adds to [settles]. *)
Record stores (b : Z) (buf : list Z) (c : BlockCache) (d : D) (c' : BlockCache) (d' : D) : Prop := {
  st_ok : cache_ok c' d';
  st_count : sector_count d' = sector_count d;
  st_view x : view c' d' x = if decide (x = b) then buf else view c d x;
  st_dirty x : dirty_at c' x -> x = b \/ dirty_at c x;
  st_sector x i : 0 <= i < SECTORS_PER_BLOCK ->
    sector d' (x * SECTORS_PER_BLOCK + i) = sector d (x * SECTORS_PER_BLOCK + i) \/
    dirty_at c x /\ sector d' (x * SECTORS_PER_BLOCK + i) = piece (view c d x) i;
}.

Lemma st_disk b buf c d c' d' x : stores b buf c d c' d' -> ~ dirty_at c x -> content d' x = content d x.
Proof. intros H Hn. apply content_same. intros i Hi. by destruct (st_sector _ _ _ _ _ _ H x i Hi) as [|[? _]]. Qed.

Lemma settles_stores b buf c d c1 d1 c2 d2 : settles c d c1 d1 -> stores b buf c1 d1 c2 d2 -> stores b buf c d c2 d2.
Proof.
  intros H H'. split; [apply H'|..].
  - by rewrite (st_count _ _ _ _ _ _ H'), (se_count _ _ _ _ H).
  - intros x. by rewrite (st_view _ _ _ _ _ _ H'), (se_view _ _ _ _ H).
  - intros x [|Hd]%(st_dirty _ _ _ _ _ _ H'); [by left|right; by apply H].
  - intros x i Hi. destruct (st_sector _ _ _ _ _ _ H' x i Hi) as [->|[Hd ->]]; [by apply H|].
    right. rewrite (se_view _ _ _ _ H). split; [by apply H|done].
Qed.

Lemma stores_settles b buf c d c1 d1 c2 d2 : stores b buf c d c1 d1 -> settles c1 d1 c2 d2 -> d2 = d1 -> stores b buf c d c2 d2.
Proof.
  intros H H' ->. split; [apply H'|apply H|..|apply H].
  - intros x. by rewrite (se_view _ _ _ _ H'), (st_view _ _ _ _ _ _ H).
  - intros x Hx. by apply H, H'.
Qed.

Lemma write_stores c d b buf r c' d' :
  cache_ok c d -> is_block b -> length buf = Z.to_nat BLOCK_SIZE -> write c d b buf = (r, c', d') ->
  match r with Ok _ => stores b buf c d c' d' | Err _ => settles c d c' d' end.
Proof.
  intros Hok Hb Hl E. unfold write in E. destruct (find_entry c b) as [i|] eqn:Ef.
  - apply find_entry_Some in Ef as (e & Hi & Hv & <-). simplify_eq.
    rewrite (list_lookup_total_correct _ _ _ Hi). unfold set_entry.
    destruct (put_entry c d' i e (mk_entry (block_num e) buf true true (lru_counter e)) Hok Hi Hl) with (n := counter c) as [Hok' Hvw].
    { intros _. split_and!; [exact (co_num _ _ Hok _ _ Hi Hv)| |done]. intros j e' Hj Hj' Hvj Heq. by destruct Hj; eapply Hok. }
    eapply stores_settles; [|apply touch_settles; [exact Hok'|simpl; rewrite length_insert; by eapply lookup_lt_Some]|done].
    split; [done|done|..|by left].
    + intros x. rewrite Hvw. simpl. destruct (decide (x = block_num e)) as [->|Hne]; [by rewrite decide_True|].
      by rewrite !decide_False by naive_solver.
    + intros x [(_ & _ & <-)|]%(dirty_put _ _ _ _ _ _ Hi); auto.
  - apply find_entry_None in Ef. destruct (allocate_entry c d) as [[r0 c0] d0] eqn:Ea.
    apply allocate_settles in Ea as [Hs Ha]; [|done]. destruct r0 as [i|]; [|by simplify_eq].
    destruct (Ha i eq_refl) as [(e & Hi & Hv) Hca]. simplify_eq. rewrite (list_lookup_total_correct _ _ _ Hi).
    destruct (fill_entry c0 d' i e (mk_entry b buf true true (lru_counter e)) (counter c0) (se_ok _ _ _ _ Hs) Hi)
      as [Hok' Hvw]; [done..|naive_solver|done|].
    eapply settles_stores; [exact Hs|].
    eapply stores_settles; [|apply touch_settles; [exact Hok'|simpl; rewrite length_insert; by eapply lookup_lt_Some]|done].
    split; [done|done|..|by left].
    + intros x. by rewrite Hvw.
    + intros x [(_ & _ & <-)|]%(dirty_put _ _ _ _ _ _ Hi); auto.
Qed.
Definition clean_entry (c : BlockCache) (i : nat) : Prop := forall e, entries c !! i = Some e -> valid e && dirty e = false.

Lemma flush_loop_settles idx : forall c d fe o c' d',
  cache_ok c d -> flush_loop c d idx fe = (o, c', d') ->
  settles c d c' d' /\ (forall i, clean_entry c i -> clean_entry c' i) /\
  (o = None -> fe = None /\ forall i, i ∈ idx -> clean_entry c' i).
Proof.
  induction idx as [|i idx IH]; intros c d fe o c' d' Hok E; cbn [flush_loop] in E.
  { simplify_eq. split_and!; [by apply settles_refl|done|]. split; [done|]. intros i Hi. by apply not_elem_of_nil in Hi. }
  destruct (valid (entries c !!! i) && dirty (entries c !!! i)) eqn:Hvd.
  - destruct (entries c !! i) as [e|] eqn:Hi.
    2:{ rewrite list_lookup_total_alt, Hi in Hvd. done. }
    rewrite (list_lookup_total_correct _ _ _ Hi) in Hvd. apply andb_prop in Hvd as [Hv Hd].
    pose proof (lookup_lt_Some _ _ _ Hi) as Hlt.
    destruct (write_back c d i) as [[r0 c0] d0] eqn:Ew. apply (write_back_settles c d i e) in Ew as (Hs & Hc & Hn); [|done..].
    destruct r0 as [[]|er].
    + apply IH in E as (Hs' & Hk & Hf); [|apply Hs]. specialize (Hc eq_refl).
      assert (clean_entry c0 i) as Hci.
      { intros e' He'. rewrite Hc, list_lookup_insert_eq in He' by done. simplify_eq. simpl. apply andb_false_r. }
      split_and!; [by eapply settles_trans|..].
      * intros j Hj. apply Hk. destruct (decide (j = i)) as [->|Hne]; [done|].
        intros e'. rewrite Hc, list_lookup_insert_ne by done. apply Hj.
      * intros Ho. destruct (Hf Ho) as [-> Hf']. split; [done|]. intros j [->|Hj]%elem_of_cons; auto.
    + rewrite Hn in E by done. apply IH in E as (Hs' & Hk & Hf).
      2:{ rewrite Hn in Hs by done. apply Hs. }
      rewrite Hn in Hs by done. split_and!; [by eapply settles_trans|done|]. intros Ho. by destruct (Hf Ho).
  - apply IH in E as (Hs & Hk & Hf); [|done]. split_and!; [done|done|].
    intros Ho. destruct (Hf Ho) as [-> Hf']. split; [done|]. intros j [->|Hj]%elem_of_cons; [|auto].
    apply Hk. intros e He. by rewrite (list_lookup_total_correct _ _ _ He) in Hvd.
Qed.

Lemma flush_settles c d r c' d' :
  cache_ok c d -> flush c d = (r, c', d') -> settles c d c' d' /\ (r = Ok () -> forall b, ~ dirty_at c' b).
Proof.
  intros Hok E. unfold flush in E. destruct (flush_loop _ _ _ _) as [[o c0] d0] eqn:El.
  apply flush_loop_settles in El as (Hs & _ & Hf); [|done]. destruct o; simplify_eq; split; try done.
  intros _ b (i & e & Hi & Hv & Hd & _). destruct (Hf eq_refl) as [_ Hf'].
  assert (valid e && dirty e = false) as Hc; [|by rewrite Hv, Hd in Hc].
  apply (Hf' i); [|done]. apply elem_of_seq. apply lookup_lt_Some in Hi.
  rewrite (co_len _ _ (se_ok _ _ _ _ Hs)) in Hi. rewrite (co_len _ _ Hok). lia.
Qed.

Lemma cache_new_ok d : dev_ok d -> cache_ok new d /\ (forall b, view new d b = content d b) /\ forall b, ~ dirty_at new b.
Proof.
  intros Hd. assert (forall i e, entries new !! i = Some e -> e = new_entry) as He.
  { intros i e. change (entries new) with (replicate CACHE_ENTRIES new_entry). by intros [-> _]%lookup_replicate. }
  split_and!.
  - split; [done|apply length_replicate|..]; intros i.
    + intros e ->%He. apply length_replicate.
    + by intros e ->%He.
    + by intros j e e' ->%He _.
    + by intros e ->%He.
  - intros b. apply view_miss. by intros (i & e & ->%He & ? & _).
  - by intros b (i & e & ->%He & ? & _).
Qed.
(** ** Eviction takes the least recently used entry *)

Lemma victim_from_min es : forall i m mc, exists cv,
  cv <= mc /\ (forall k e, es !! k = Some e -> valid e = true -> cv <= lru_counter e) /\
  ((victim_from es i m mc = m /\ cv = mc) \/
   exists k e, victim_from es i m mc = (i + k)%nat /\ es !! k = Some e /\ lru_counter e = cv).
Proof.
  induction es as [|e es IH]; intros i m mc; cbn [victim_from].
  { exists mc. split_and!; [lia|done|by left]. }
  destruct (valid e && (lru_counter e <? mc)) eqn:Hv.
  - apply andb_prop in Hv as [Hv Hlt%Z.ltb_lt]. destruct (IH (S i) i (lru_counter e)) as (cv & H1 & H2 & H3).
    exists cv. split_and!; [lia|intros [|k] e' [=]; subst; eauto|right].
    destruct H3 as [[-> ->]|(k & e' & -> & ? & ?)]; [exists 0%nat, e|exists (S k), e']; split_and!; try done; lia.
  - destruct (IH (S i) m mc) as (cv & H1 & H2 & H3). exists cv. split_and!; [done| |].
    + intros [|k] e' [=] Hv'; subst; [|by eapply H2]. rewrite Hv' in Hv. apply Z.ltb_ge in Hv. lia.
    + destruct H3 as [?|(k & e' & -> & ? & ?)]; [by left|right]. exists (S k), e'. split_and!; try done; lia.
Qed.

(** The victim of a full cache carries the lowest stamp. *)
Lemma lru_victim_oldest c d e :
  cache_ok c d -> (forall i e, entries c !! i = Some e -> valid e = true /\ lru_counter e < 2 ^ 64 - 1) ->
  entries c !! lru_victim c = Some e -> forall i e', entries c !! i = Some e' -> lru_counter e <= lru_counter e'.
Proof.
  intros Hok Hall He i e' Hi. unfold lru_victim in He.
  destruct (victim_from_min (entries c) 0 0 (2 ^ 64 - 1)) as (cv & H1 & H2 & H3).
  destruct (Hall _ _ Hi) as [Hv Hlt]. pose proof (H2 _ _ Hi Hv).
  destruct H3 as [[_ ->]|(k & e0 & Hk & Hk' & <-)]; [lia|]. rewrite Hk in He. simpl in He. congruence.
Qed.

(** The sector address of a block number is a wrapping product: on a fresh
    cache, blocks [2^61] apart are the same sectors. *)
Lemma block_number_wraps b (d : D) : (read new d (2 ^ 61 + b)).1.1 = (read new d b).1.1.
Proof.
  assert (forall x, find_entry new x = None) as Hf.
  { intros x. unfold find_entry. rewrite (proj2 (list_find_None _ _)); [done|]. apply Forall_replicate. by intros [? _]. }
  unfold read. rewrite !Hf. replace (wrap64 ((2 ^ 61 + b) * SECTORS_PER_BLOCK)) with (wrap64 (b * SECTORS_PER_BLOCK)).
  - destruct (allocate_entry new d) as [[[i|] c0] d0]; [|done]. by destruct (read_sectors _ _ _ _) as [[[[]|] ?] ?].
  - unfold wrap64. rewrite sectors_per_block. replace ((2 ^ 61 + b) * 8) with (b * 8 + 1 * 2 ^ 64) by lia.
    by rewrite Z.mod_add.
Qed.

(** ** The cache is transparent *)

Inductive op := ORead (b : Z) | OWrite (b : Z) (buf : list Z) | OFlush.

Definition op_ok (o : op) : Prop :=
  match o with
  | ORead b => is_block b
  | OWrite b buf => is_block b /\ length buf = Z.to_nat BLOCK_SIZE
  | OFlush => True
  end.

Definition exec (c : BlockCache) (d : D) (o : op) : result (list Z) BlockError * BlockCache * D :=
  match o with
  | ORead b => read c d b
  | OWrite b buf =>
      match write c d b buf with (Ok _, c, d) => (Ok [], c, d) | (Err er, c, d) => (Err er, c, d) end
  | OFlush => match flush c d with (Ok _, c, d) => (Ok [], c, d) | (Err er, c, d) => (Err er, c, d) end
  end.

Fixpoint run (ops : list op) (c : BlockCache) (d : D) : list (result (list Z) BlockError) * BlockCache * D :=
  match ops with
  | [] => ([], c, d)
  | o :: ops =>
      let '(r, c, d) := exec c d o in
      let '(rs, c, d) := run ops c d in (r :: rs, c, d)
  end.

(** The specification: a store [m] of blocks and the set [p] of those written
    since the last successful flush. [fin] is what is known at the end. *)
Fixpoint block_store (ops : list op) (rs : list (result (list Z) BlockError)) (m : Z -> list Z) (p : list Z)
    (fin : (Z -> list Z) -> list Z -> Prop) : Prop :=
  match ops, rs with
  | [], [] => fin m p
  | ORead b :: ops, r :: rs => (forall buf, r = Ok buf -> buf = m b) /\ block_store ops rs m p fin
  | OWrite b buf :: ops, Ok _ :: rs => block_store ops rs (fun x => if decide (x = b) then buf else m x) (b :: p) fin
  | OFlush :: ops, Ok _ :: rs => block_store ops rs m [] fin
  | _ :: ops, Err _ :: rs => block_store ops rs m p fin
  | _, _ => False
  end.

Lemma run_block_store ops : forall c d m p rs c' d',
  cache_ok c d -> (forall x, view c d x = m x) -> (forall x, dirty_at c x -> x ∈ p) -> Forall op_ok ops ->
  run ops c d = (rs, c', d') ->
  block_store ops rs m p (fun m' p' => (forall x, view c' d' x = m' x) /\ forall x, x ∉ p' -> content d' x = m' x).
Proof.
  induction ops as [|o ops IH]; intros c d m p rs c' d' Hok Hm Hp Hops E; cbn [run] in E.
  { simplify_eq. simpl. split; [done|]. intros x Hx. rewrite <- Hm. apply clean_view; auto. }
  apply Forall_cons in Hops as [Ho Hops].
  destruct (exec c d o) as [[r c1] d1] eqn:Ex. destruct (run ops c1 d1) as [[rs1 c2] d2] eqn:Er. simplify_eq.
  assert (settles c d c1 d1 ->
    block_store ops rs1 m p (fun m' p' => (forall x, view c' d' x = m' x) /\ forall x, x ∉ p' -> content d' x = m' x)) as Hset.
  { intros Hs. eapply (IH c1 d1); [apply Hs|..|done|done].
    - intros x. by rewrite (se_view _ _ _ _ Hs).
    - intros x Hx. by apply Hp, Hs. }
  destruct o as [b|b buf|]; cbn [exec] in Ex.
  - apply read_settles in Ex as [Hs Hr]; [|done..]. simpl. split; [|auto]. intros buf ->. by rewrite <- Hm, (Hr buf).
  - destruct Ho as [Hb Hl]. destruct (write c d b buf) as [[rw cw] dw] eqn:Ew.
    apply write_stores in Ew; [|done..]. destruct rw as [[]|]; simplify_eq; [|by apply Hset].
    eapply (IH c1 d1); [apply Ew|..|done|done].
    + intros x. rewrite (st_view _ _ _ _ _ _ Ew). by destruct (decide (x = b)).
    + intros x [->|Hx]%(st_dirty _ _ _ _ _ _ Ew); [left|right; auto].
  - destruct (flush c d) as [[rf cf] df] eqn:Ef. apply flush_settles in Ef as [Hs Hc]; [|done].
    destruct rf as [[]|]; simplify_eq; [|by apply Hset].
    eapply (IH c1 d1); [apply Hs|..|done|done].
    + intros x. by rewrite (se_view _ _ _ _ Hs).
    + intros x Hx. by destruct (Hc eq_refl x).
Qed.

End laws.

(** A card of 64 sectors whose sector 19 is bad: block 2 cannot be written back. *)
Definition demo_device : MsdcBlockDevice Card := mk_msdc (mk_card ∅ [19]) 64.

Definition demo_ops : list op :=
  [OWrite 1 (replicate (Z.to_nat BLOCK_SIZE) 7); OWrite 2 (replicate (Z.to_nat BLOCK_SIZE) 9); ORead 1; OFlush; ORead 2; ORead 3].

End cache.
