(* ===== verification/LfsMeta.v ===== *)
(** * Metadata of the log-structured file system
    ([crates/thumos/src/lfs_imap.rs], [lfs_segment.rs])

    The inode map and the segment bitmap, with their encodings as bytes. Both
    are read back from a disk that may hold anything. A [BTreeMap] is its list
    of entries in increasing order of keys. *)

From S2P Require Import Prelude Machine Block Cache.
From Stdlib Require Import ZArith.
Open Scope Z_scope.

(** ** Bytes in fixed buffers *)

Module codec.

(** [u64::to_le_bytes] and [u16::to_le_bytes]. *)
Definition le64 (v : Z) : list Z := le_bytes v ++ le_bytes (v / 2 ^ 32).
Definition le16 (v : Z) : list Z := [v mod 2 ^ 8; v / 2 ^ 8 mod 2 ^ 8].

(** [buf[off..off + n]], which panics when it is out of range. *)
Definition slice (buf : list Z) (off n : nat) : outcome (list Z) :=
  if (off + n <=? length buf)%nat then Ret (take n (drop off buf)) else Panic.

Definition from_le (bs : list Z) : Z := foldr (fun b acc => b + 2 ^ 8 * acc) 0 bs.

(** [buf[off..off + len].copy_from_slice(bs)] in a buffer that is long enough. *)
Definition put (buf : list Z) (off : nat) (bs : list Z) : list Z :=
  take off buf ++ bs ++ drop (off + length bs) buf.

(** Overwriting the zeros that follow a prefix. *)
Lemma put_zeros pre bs k :
  (length bs <= k)%nat -> put (pre ++ replicate k 0) (length pre) bs = (pre ++ bs) ++ replicate (k - length bs) 0.
Proof.
  intros H. unfold put. rewrite take_app_length, drop_app_ge by lia. rewrite drop_replicate.
  replace (k - (length pre + length bs - length pre))%nat with (k - length bs)%nat by lia. by rewrite app_assoc.
Qed.

Lemma length_le_bytes v : length (le_bytes v) = 4%nat.
Proof. done. Qed.

Lemma length_le64 v : length (le64 v) = 8%nat.
Proof. done. Qed.

Lemma from_le_bytes v : is_u32 v -> from_le (le_bytes v) = v.
Proof.
  unfold is_u32, le_bytes. intros H. simpl.
  pose proof (of_le_bytes_le_bytes v H) as E. unfold of_le_bytes in E. simpl in E. lia.
Qed.

Lemma from_le_app bs bs' : from_le (bs ++ bs') = from_le bs + 2 ^ (8 * Z.of_nat (length bs)) * from_le bs'.
Proof.
  induction bs as [|b bs IH]; [simpl; lia|]. cbn [app from_le foldr length]. fold (from_le (bs ++ bs')). fold (from_le bs).
  rewrite IH. replace (8 * Z.of_nat (S (length bs))) with (8 + 8 * Z.of_nat (length bs)) by lia. rewrite Z.pow_add_r by lia. lia.
Qed.

Lemma from_le_nonneg bs : Forall is_u8 bs -> 0 <= from_le bs.
Proof. induction 1 as [|b bs Hb _ IH]; [done|]. unfold is_u8 in Hb. change (0 <= b + 2 ^ 8 * from_le bs). lia. Qed.

Lemma le_bytes_wrap v : le_bytes v = le_bytes (wrap32 v).
Proof.
  unfold le_bytes, wrap32. change (2 ^ 8) with 256. change (2 ^ 16) with 65536. change (2 ^ 24) with 16777216.
  change (2 ^ 32) with 4294967296. repeat (apply (f_equal2 cons); [Z.to_euclidean_division_equations; lia|]); done.
Qed.

Lemma from_le64 v : is_u64 v -> from_le (le64 v) = v.
Proof.
  unfold is_u64. intros H. unfold le64. rewrite from_le_app. rewrite (le_bytes_wrap v).
  rewrite !from_le_bytes; [|unfold is_u32; Z.to_euclidean_division_equations; lia|apply wrap32_range].
  change (length (le_bytes (wrap32 v))) with 4%nat. unfold wrap32. pose proof (Z_div_mod_eq_full v (2 ^ 32)). lia.
Qed.

(** Reading a field after a prefix. *)
Lemma slice_app pre bs rest off n :
  length pre = off -> length bs = n -> slice (pre ++ bs ++ rest) off n = Ret bs.
Proof.
  intros <- <-. unfold slice. rewrite (proj2 (Nat.leb_le _ _)) by (rewrite !length_app; lia).
  by rewrite drop_app_length, take_app_length.
Qed.

Lemma slice_first bs rest n : length bs = n -> slice (bs ++ rest) 0 n = Ret bs.
Proof. intros. by apply (slice_app []). Qed.

Lemma slice_ret buf off n : (off + n <= length buf)%nat -> slice buf off n = Ret (take n (drop off buf)).
Proof. intros H. unfold slice. by rewrite (proj2 (Nat.leb_le _ _)). Qed.

Lemma length_put (buf : list Z) off bs : (off + length bs <= length buf)%nat -> length (put buf off bs) = length buf.
Proof. intros Hl. unfold put. rewrite !length_app, length_take, length_drop. lia. Qed.
End codec.

(** ** The inode map *)

Module lfs_imap.
Import block codec.

Inductive LfsError :=
  | BlockIo (e : BlockError) | Corrupt | InvalidSuperblock | NoFreeSegments | InodeNotFound | CheckpointOverflow
  | NoCompactionCandidate.

#[export] Instance LfsError_eq_dec : EqDecision LfsError.
Proof. solve_decision. Defined.

Definition IMAP_ENTRY_SIZE : nat := 12.
Definition IMAP_HEADER_SIZE : nat := 4.

Definition LfsImap := list (Z * Z).

Definition new : LfsImap := [].

Fixpoint get (m : LfsImap) (inode_id : Z) : option Z :=
  match m with
  | [] => None
  | (k, b) :: m => if k =? inode_id then Some b else get m inode_id
  end.

Fixpoint insert (m : LfsImap) (inode_id b : Z) : LfsImap :=
  match m with
  | [] => [(inode_id, b)]
  | (k, v) :: m' =>
      if inode_id <? k then (inode_id, b) :: m
      else if inode_id =? k then (k, b) :: m'
      else (k, v) :: insert m' inode_id b
  end.

Fixpoint remove (m : LfsImap) (inode_id : Z) : LfsImap :=
  match m with
  | [] => []
  | (k, v) :: m => if k =? inode_id then m else (k, v) :: remove m inode_id
  end.

Definition len (m : LfsImap) : nat := length m.
Definition is_empty (m : LfsImap) : bool := (len m =? 0)%nat.
Definition iter (m : LfsImap) : list (Z * Z) := m.

Definition entry_bytes (e : Z * Z) : list Z := le_bytes e.1 ++ le64 e.2.

Definition serialize (m : LfsImap) : list Z := le_bytes (wrap32 (Z.of_nat (length m))) ++ (m ≫= entry_bytes).

(** The parse loop: [n] entries from [offset] on. *)
Fixpoint parse_entries (n : nat) (buf : list Z) (offset : nat) (reserved device_blocks : Z) (map : LfsImap) :
    outcome (result LfsImap LfsError) :=
  match n with
  | O => Ret (Ok map)
  | S n =>
      id ← slice buf offset 4;
      b ← slice buf (offset + 4) 8;
      let b := from_le b in
      if (b <? reserved) || (device_blocks <=? b) then Ret (Err Corrupt)
      else parse_entries n buf (offset + 12) reserved device_blocks (insert map (from_le id) b)
  end.

(** [usize::checked_mul] and [usize::checked_add] on the 32-bit target. *)
Definition checked32 (v : Z) : option Z := if v <? 2 ^ 32 then Some v else None.

Definition deserialize (buf : list Z) (segment_size device_blocks : Z) : outcome (result LfsImap LfsError) :=
  if (length buf <? IMAP_HEADER_SIZE)%nat then Ret (Err Corrupt) else
  count ← slice buf 0 4;
  let count := from_le count in
  match (entries_len ← checked32 (count * Z.of_nat IMAP_ENTRY_SIZE); checked32 (entries_len + Z.of_nat IMAP_HEADER_SIZE)) with
  | None => Ret (Err Corrupt)
  | Some expected_len =>
      if Z.of_nat (length buf) <? expected_len then Ret (Err Corrupt) else
      parse_entries (Z.to_nat count) buf IMAP_HEADER_SIZE segment_size device_blocks []
  end.

(** ** Its laws *)

(** Keys in strictly increasing order, all above [lo]. *)
Fixpoint sorted_from (lo : Z) (m : LfsImap) : Prop :=
  match m with
  | [] => True
  | (k, _) :: m => lo < k /\ sorted_from k m
  end.

Definition sorted (m : LfsImap) : Prop := sorted_from (-1) m.

Lemma sorted_weaken m lo lo' : lo' <= lo -> sorted_from lo m -> sorted_from lo' m.
Proof. destruct m as [|[k v] m]; simpl; [done|]. intros ? [? ?]. split; [lia|done]. Qed.

Lemma sorted_insert m : forall lo i b, lo < i -> sorted_from lo m -> sorted_from lo (insert m i b).
Proof.
  induction m as [|[k v] m IH]; intros lo i b Hi Hm; simpl in *; [done|]. destruct Hm as [Hk Hm].
  destruct (Z.ltb_spec i k); [done|]. destruct (Z.eqb_spec i k); [done|]. simpl. split; [done|]. apply IH; [lia|done].
Qed.

Lemma sorted_remove m : forall lo i, sorted_from lo m -> sorted_from lo (remove m i).
Proof.
  induction m as [|[k v] m IH]; intros lo i Hm; simpl in *; [done|]. destruct Hm as [Hk Hm].
  destruct (Z.eqb_spec k i); [|split; [done|by apply IH]]. eapply sorted_weaken; [|exact Hm]. lia.
Qed.

Lemma get_below m : forall lo i, sorted_from lo m -> i <= lo -> get m i = None.
Proof.
  induction m as [|[k v] m IH]; intros lo i Hm Hi; simpl in *; [done|]. destruct Hm as [Hk Hm].
  destruct (Z.eqb_spec k i); [lia|]. apply (IH k); [done|lia].
Qed.

Lemma get_insert m i b j : get (insert m i b) j = if decide (j = i) then Some b else get m j.
Proof.
  induction m as [|[k v] m IH]; simpl.
  - destruct (Z.eqb_spec i j); destruct (decide (j = i)); congruence.
  - destruct (Z.ltb_spec i k); simpl; [destruct (Z.eqb_spec i j); destruct (decide (j = i)); try congruence; done|].
    destruct (Z.eqb_spec i k); simpl.
    + subst. destruct (Z.eqb_spec k j); destruct (decide (j = k)); congruence.
    + rewrite IH. destruct (Z.eqb_spec k j), (decide (j = i)); congruence.
Qed.

Lemma get_remove m i j : sorted m -> get (remove m i) j = if decide (j = i) then None else get m j.
Proof.
  unfold sorted. generalize (-1). induction m as [|[k v] m IH]; intros lo Hm; simpl in *.
  - by destruct (decide (j = i)).
  - destruct Hm as [Hk Hm]. destruct (Z.eqb_spec k i) as [->|Hne]; simpl.
    + destruct (decide (j = i)) as [->|Hji]; [by apply (get_below m i)|]. destruct (Z.eqb_spec i j); [congruence|done].
    + rewrite (IH k Hm). destruct (Z.eqb_spec k j), (decide (j = i)); congruence.
Qed.

(** Inserting above every key appends. *)
Lemma insert_last m : forall k b, (forall e, e ∈ m -> e.1 < k) -> insert m k b = m ++ [(k, b)].
Proof.
  induction m as [|[k' v] m IH]; intros k b H; simpl; [done|].
  pose proof (H (k', v) ltac:(left)) as Hk. simpl in Hk.
  destruct (Z.ltb_spec k k'); [lia|]. destruct (Z.eqb_spec k k'); [lia|]. f_equal. apply IH. intros e He. apply H. by right.
Qed.

Definition entry_ok (segment_size device_blocks : Z) (e : Z * Z) : Prop :=
  is_u32 e.1 /\ is_u64 e.2 /\ segment_size <= e.2 < device_blocks.

Lemma parse_entries_total n : forall buf offset res dev map,
  (offset + 12 * n <= length buf)%nat -> exists r, parse_entries n buf offset res dev map = Ret r.
Proof.
  induction n as [|n IH]; intros buf offset res dev map H; simpl; [eauto|].
  rewrite !slice_ret by lia. simpl. case_match; [eauto|]. apply IH. lia.
Qed.

(** Whatever is on disk, reading a map never panics. *)
Lemma deserialize_total buf ss dev : Forall is_u8 buf -> exists r, deserialize buf ss dev = Ret r.
Proof.
  intros Hu. unfold deserialize. destruct (Nat.ltb_spec (length buf) IMAP_HEADER_SIZE); [eauto|].
  rewrite slice_ret by (unfold IMAP_HEADER_SIZE in *; lia). cbn [mbind outcome_bind].
  assert (0 <= from_le (take 4 (drop 0 buf))) as Hc by (apply from_le_nonneg; by apply Forall_take, Forall_drop).
  set (n := from_le _) in *. clearbody n. unfold checked32, IMAP_ENTRY_SIZE, IMAP_HEADER_SIZE.
  destruct (n * Z.of_nat 12 <? 2 ^ 32); cbn [mbind option_bind]; [|eauto].
  destruct (n * Z.of_nat 12 + Z.of_nat 4 <? 2 ^ 32); [|eauto]. cbv beta iota.
  destruct (Z.ltb_spec (Z.of_nat (length buf)) (n * Z.of_nat 12 + Z.of_nat 4)); [eauto|].
  apply parse_entries_total. lia.
Qed.

Lemma length_entry_bytes e : length (entry_bytes e) = 12%nat.
Proof. done. Qed.

Lemma parse_entries_serialized ss dev m : forall pre rest acc offset,
  length pre = offset -> Forall (entry_ok ss dev) m -> sorted_from (-1) (acc ++ m) ->
  parse_entries (length m) (pre ++ (m ≫= entry_bytes) ++ rest) offset ss dev acc = Ret (Ok (acc ++ m)).
Proof.
  induction m as [|[k b] m IH]; intros pre rest acc offset Hl Hm Hs; cbn [length parse_entries].
  { by rewrite app_nil_r. }
  apply Forall_cons in Hm as [(Hk & Hb & Hr) Hm]. cbn [fst snd] in *.
  rewrite bind_cons. change (entry_bytes (k, b)) with (le_bytes k ++ le64 b). rewrite <- !app_assoc.
  rewrite (slice_app pre (le_bytes k) _ offset 4) by done. cbn [mbind outcome_bind].
  rewrite (app_assoc pre), (slice_app (pre ++ le_bytes k) (le64 b) _ (offset + 4) 8) by (rewrite ?length_app, ?length_le_bytes, ?length_le64; lia).
  cbn [mbind outcome_bind]. rewrite (from_le64 b Hb), (from_le_bytes k Hk).
  destruct (Z.ltb_spec b ss); [lia|]. destruct (Z.leb_spec dev b); [lia|]. cbn [orb].
  rewrite (app_assoc (pre ++ _)). rewrite insert_last.
  - rewrite IH; [by rewrite <- app_assoc| |done|by rewrite <- app_assoc].
    rewrite !length_app, length_le_bytes, length_le64. lia.
  - revert Hs. generalize (-1). clear. induction acc as [|[k' v'] acc IH]; intros lo Hs e He; [by apply not_elem_of_nil in He|].
    destruct Hs as [Hk Hs]. apply elem_of_cons in He as [->|He]; [|by eapply IH].
    simpl. clear -Hs. revert k' Hs. induction acc as [|[k'' v''] acc IH]; intros k' [? Hs]; [done|]. specialize (IH _ Hs). lia.
Qed.

Lemma length_entries m : length (m ≫= entry_bytes) = (12 * length m)%nat.
Proof. induction m as [|e m IH]; [done|]. rewrite bind_cons, length_app, length_entry_bytes, IH. simpl. lia. Qed.

Lemma length_imap_bytes m : length (serialize m) = (4 + 12 * length m)%nat.
Proof. unfold serialize. by rewrite length_app, length_entries. Qed.

(** A map is read back from its bytes, whatever padding follows them. *)
Lemma imap_roundtrip m ss dev rest :
  sorted m -> Forall (entry_ok ss dev) m -> 4 + 12 * Z.of_nat (length m) < 2 ^ 32 ->
  deserialize (serialize m ++ rest) ss dev = Ret (Ok m).
Proof.
  intros Hs Hm Hl. unfold deserialize. rewrite length_app, length_imap_bytes.
  destruct (Nat.ltb_spec (4 + 12 * length m + length rest) IMAP_HEADER_SIZE) as [H|_]; [unfold IMAP_HEADER_SIZE in H; lia|].
  unfold serialize. rewrite <- app_assoc. rewrite wrap32_small by (unfold is_u32; lia).
  rewrite (slice_first (le_bytes _)) by done. cbn [mbind outcome_bind].
  rewrite from_le_bytes by (unfold is_u32; lia). unfold checked32, IMAP_ENTRY_SIZE, IMAP_HEADER_SIZE.
  rewrite (proj2 (Z.ltb_lt _ _)) by lia. cbn [mbind option_bind]. rewrite (proj2 (Z.ltb_lt _ _)) by lia. cbv beta iota.
  rewrite (proj2 (Z.ltb_ge _ _)) by lia. rewrite Nat2Z.id.
  by apply (parse_entries_serialized ss dev m (le_bytes _) rest []).
Qed.

Lemma insert_elem m i b e : e ∈ insert m i b -> e = (i, b) \/ e ∈ m.
Proof.
  induction m as [|[k v] m IH]; cbn [insert]; [by rewrite list_elem_of_singleton; left|].
  destruct (i <? k); [by rewrite elem_of_cons|]. destruct (Z.eqb_spec i k) as [->|]; rewrite !elem_of_cons; naive_solver.
Qed.

Lemma parse_entries_sound n : forall buf offset ss dev acc m,
  Forall is_u8 buf -> sorted acc -> Forall (fun e => ss <= e.2 < dev) acc ->
  parse_entries n buf offset ss dev acc = Ret (Ok m) -> sorted m /\ Forall (fun e => ss <= e.2 < dev) m.
Proof.
  induction n as [|n IH]; intros buf offset ss dev acc m Hu Hs Ha E; cbn [parse_entries] in E; [by simplify_eq|].
  unfold slice in E. destruct (offset + 4 <=? length buf)%nat; [|done]. cbn [mbind outcome_bind] in E.
  destruct (offset + 4 + 8 <=? length buf)%nat; [|done]. cbn [mbind outcome_bind] in E.
  destruct (Z.ltb_spec (from_le (take 8 (drop (offset + 4) buf))) ss); cbn [orb] in E; [discriminate E|].
  destruct (Z.leb_spec dev (from_le (take 8 (drop (offset + 4) buf)))); cbv iota in E; [discriminate E|].
  eapply IH; [done| | |exact E].
  - apply sorted_insert; [|done]. pose proof (from_le_nonneg (take 4 (drop offset buf))) as H'.
    specialize (H' ltac:(by apply Forall_take, Forall_drop)). lia.
  - apply Forall_forall. intros e [->|He]%insert_elem; [simpl; lia|]. by rewrite Forall_forall in Ha; apply Ha.
Qed.

(** A map that is accepted points into the data segments only. *)
Lemma deserialize_sound buf ss dev m :
  Forall is_u8 buf -> deserialize buf ss dev = Ret (Ok m) -> sorted m /\ Forall (fun e => ss <= e.2 < dev) m.
Proof.
  intros Hu E. unfold deserialize in E. case_match; [done|]. unfold slice in E at 1.
  destruct (0 + 4 <=? length buf)%nat; [|done]. cbn [mbind outcome_bind] in E. case_match; [|done]. case_match; [done|].
  eapply parse_entries_sound; [done| | |exact E]; [done|by apply Forall_nil].
Qed.
End lfs_imap.

(** ** Segments *)

Module lfs_segment.
Import codec lfs_imap.

Record LfsSegmentManager := mk_segments { bitmap : list bool; segment_count : Z; segment_size : Z; free_count : Z }.

Definition new (count size : Z) : LfsSegmentManager :=
  mk_segments (<[0%nat := true]> (replicate (Z.to_nat count) false)) count size (if 0 <? count then count - 1 else 0).

Definition allocate_any (s : LfsSegmentManager) : option (Z * LfsSegmentManager) :=
  match list_find (fun b => b = false) (bitmap s) with
  | Some (i, _) =>
      Some (Z.of_nat i, mk_segments (<[i := true]> (bitmap s)) (segment_count s) (segment_size s) (wrap32 (free_count s - 1)))
  | None => None
  end.

Definition allocate (s : LfsSegmentManager) : option (Z * LfsSegmentManager) :=
  if free_count s <=? 1 then None else allocate_any s.

Definition allocate_for_compaction (s : LfsSegmentManager) : option (Z * LfsSegmentManager) := allocate_any s.

Definition free (s : LfsSegmentManager) (idx : Z) : LfsSegmentManager :=
  match bitmap s !! Z.to_nat idx with
  | Some true => mk_segments (<[Z.to_nat idx := false]> (bitmap s)) (segment_count s) (segment_size s) (wrap32 (free_count s + 1))
  | _ => s
  end.

Definition is_free (s : LfsSegmentManager) (idx : Z) : bool :=
  match bitmap s !! Z.to_nat idx with Some b => negb b | None => false end.

Definition segment_start_block (s : LfsSegmentManager) (idx : Z) : Z := idx * segment_size s.

Definition mark_used (s : LfsSegmentManager) (idx : Z) : LfsSegmentManager :=
  match bitmap s !! Z.to_nat idx with
  | Some false => mk_segments (<[Z.to_nat idx := true]> (bitmap s)) (segment_count s) (segment_size s) (wrap32 (free_count s - 1))
  | _ => s
  end.

Definition div_ceil8 (n : Z) : Z := (n + 7) / 8.

(** One byte of the packed bitfield: bit [k] of byte [i] is segment [8 i + k]. *)
Definition bitmap_byte (bm : list bool) (i : nat) : Z :=
  foldl (fun v k => if default false (bm !! (8 * i + k)%nat) then Z.lor v (Z.shiftl 1 (Z.of_nat k)) else v) 0 (seq 0 8).

Definition serialize (s : LfsSegmentManager) : list Z :=
  le_bytes (segment_count s) ++ le_bytes (segment_size s) ++
  (bitmap_byte (bitmap s) <$> seq 0 (Z.to_nat (div_ceil8 (segment_count s)))).

(** The bit of segment [i], as the loop of [deserialize] reads it. *)
Definition unpack (data : list Z) (i : nat) : bool := Z.land (Z.shiftr (data !!! (i / 8)%nat) (Z.of_nat (i mod 8))) 1 =? 1.

Definition deserialize (data : list Z) (count size device_blocks : Z) : result LfsSegmentManager LfsError :=
  if size =? 0 then Err Corrupt else
  match block.checked_mul count size with
  | None => Err Corrupt
  | Some extent =>
      if device_blocks <? extent then Err Corrupt else
      if (length data <? 8)%nat then Err Corrupt else
      if negb (from_le (take 4 data) =? count) || negb (from_le (take 4 (drop 4 data)) =? size) then Err Corrupt else
      let bits := drop 8 data in
      if Z.of_nat (length bits) <? div_ceil8 count then Err Corrupt else
      let bm := unpack bits <$> seq 0 (Z.to_nat count) in
      Ok (mk_segments bm count size (Z.of_nat (count_if negb bm)))
  end.

(** ** Its laws *)

(** The bitmap has a bit per segment and the count of free ones is exact. *)
Record seg_ok (s : LfsSegmentManager) : Prop := {
  so_len : length (bitmap s) = Z.to_nat (segment_count s);
  so_count : is_u32 (segment_count s);
  so_size : is_u32 (segment_size s);
  so_free : free_count s = Z.of_nat (count_if negb (bitmap s));
}.
Lemma segments_new_ok count size : is_u32 count -> is_u32 size -> seg_ok (new count size).
Proof.
  intros Hc Hs. unfold is_u32 in *. split; [|done|done|]; cbn [new bitmap segment_count free_count].
  { by rewrite length_insert, length_replicate. }
  destruct (Z.ltb_spec 0 count) as [H|H]; [|by replace count with 0 by lia].
  replace (Z.to_nat count) with (S (Z.to_nat (count - 1))) by lia.
  change (<[0%nat:=true]> (replicate (S (Z.to_nat (count - 1))) false)) with (true :: replicate (Z.to_nat (count - 1)) false).
  rewrite count_if_cons. cbn [negb].
  assert (forall n : nat, count_if negb (replicate n false) = n) as ->; [|lia].
  induction n as [|n IH]; [done|]. cbn [replicate]. rewrite count_if_cons, IH. done.
Qed.

Lemma count_set s (i : nat) (b b' : bool) :
  bitmap s !! i = Some b ->
  (count_if negb (<[i:=b']> (bitmap s)) + (if b then 0 else 1) = count_if negb (bitmap s) + (if b' then 0 else 1))%nat.
Proof. intros H. pose proof (count_if_insert negb (bitmap s) i b b' H) as E. by destruct b, b'; simpl in *; lia. Qed.

Lemma count_range s : seg_ok s -> Z.of_nat (count_if negb (bitmap s)) <= segment_count s < 2 ^ 32.
Proof.
  intros Hok. pose proof (count_if_le negb (bitmap s)). rewrite (so_len _ Hok) in H.
  pose proof (so_count _ Hok). unfold is_u32 in *. lia.
Qed.

(** An allocation takes the first free segment and no other. *)
Lemma allocate_any_spec s i s' :
  seg_ok s -> allocate_any s = Some (i, s') ->
  seg_ok s' /\ 0 <= i < segment_count s /\ is_free s i = true /\ free_count s' = free_count s - 1 /\
  segment_count s' = segment_count s /\ segment_size s' = segment_size s /\
  forall j, 0 <= j -> is_free s' j = if decide (j = i) then false else is_free s j.
Proof.
  intros Hok E. unfold allocate_any in E. destruct (list_find _ _) as [[k b]|] eqn:Ef; [|done]. simplify_eq.
  apply list_find_Some in Ef as (Hk & -> & _). pose proof (lookup_lt_Some _ _ _ Hk) as Hlt.
  pose proof (count_set s k false true Hk) as Hc. cbv iota in Hc. pose proof (count_range s Hok) as Hr.
  assert (wrap32 (free_count s - 1) = free_count s - 1) as Hw.
  { apply wrap32_small. rewrite (so_free _ Hok). unfold is_u32. lia. }
  split_and!.
  - split; cbn [bitmap segment_count segment_size free_count]; [by rewrite length_insert; apply Hok|apply Hok..|].
    rewrite Hw, (so_free _ Hok). lia.
  - lia.
  - rewrite (so_len _ Hok) in Hlt. lia.
  - unfold is_free. by rewrite Nat2Z.id, Hk.
  - exact Hw.
  - done.
  - done.
  - intros j Hj. unfold is_free. cbn [bitmap]. destruct (decide (j = Z.of_nat k)) as [->|Hne].
    + by rewrite Nat2Z.id, list_lookup_insert_eq.
    + by rewrite list_lookup_insert_ne by lia.
Qed.

(** Ordinary allocation leaves the compactor its reserve. *)
Lemma allocate_reserve s i s' : allocate s = Some (i, s') -> allocate_any s = Some (i, s') /\ 1 < free_count s.
Proof. unfold allocate. destruct (Z.leb_spec (free_count s) 1); [done|]. done. Qed.

Lemma allocate_any_total s : seg_ok s -> 0 < free_count s -> exists i s', allocate_any s = Some (i, s').
Proof.
  intros Hok Hf. unfold allocate_any.
  destruct (list_find _ _) as [[k b]|] eqn:Ef; [eauto|]. apply list_find_None in Ef.
  rewrite (so_free _ Hok) in Hf. assert (0 < count_if negb (bitmap s))%nat as Hp by lia.
  apply count_if_pos in Hp as (x & Hx & Hn). rewrite Forall_forall in Ef. destruct x; [done|]. by destruct (Ef _ Hx).
Qed.

Lemma allocate_total s : seg_ok s -> 1 < free_count s -> exists i s', allocate s = Some (i, s').
Proof. intros Hok Hf. unfold allocate. rewrite (proj2 (Z.leb_gt _ _) Hf). apply allocate_any_total; [done|lia]. Qed.

(** Freeing a used segment gives back it and no other. *)
Lemma free_spec s i :
  seg_ok s -> 0 <= i < segment_count s -> is_free s i = false ->
  seg_ok (free s i) /\ free_count (free s i) = free_count s + 1 /\ segment_count (free s i) = segment_count s /\
  segment_size (free s i) = segment_size s /\ forall j, 0 <= j -> is_free (free s i) j = if decide (j = i) then true else is_free s j.
Proof.
  intros Hok Hi Hf. unfold is_free in Hf. destruct (bitmap s !! Z.to_nat i) as [[]|] eqn:Ei; [|done|].
  2: { apply lookup_ge_None in Ei. rewrite (so_len _ Hok) in Ei. lia. }
  pose proof (count_set s (Z.to_nat i) true false Ei) as Hc. cbv iota in Hc. pose proof (count_range s Hok) as Hr.
  pose proof (count_if_le negb (<[Z.to_nat i := false]> (bitmap s))) as Hle. rewrite length_insert, (so_len _ Hok) in Hle.
  assert (wrap32 (free_count s + 1) = free_count s + 1) as Hw.
  { apply wrap32_small. rewrite (so_free _ Hok). unfold is_u32. lia. }
  unfold free. rewrite Ei. cbn [segment_count segment_size free_count]. split_and!; try done.
  - split; cbn [bitmap segment_count segment_size free_count]; [by rewrite length_insert; apply Hok|apply Hok..|].
    rewrite Hw, (so_free _ Hok). lia.
  - intros j Hj. unfold is_free. cbn [bitmap]. pose proof (lookup_lt_Some _ _ _ Ei). destruct (decide (j = i)) as [->|Hne].
    + by rewrite list_lookup_insert_eq.
    + by rewrite list_lookup_insert_ne by lia.
Qed.

(** ** The packed bitmap *)

Lemma foldl_bits (f : nat -> bool) l : forall v j, 0 <= j ->
  Z.testbit (foldl (fun v k => if f k then Z.lor v (Z.shiftl 1 (Z.of_nat k)) else v) v l) j =
  Z.testbit v j || existsb (fun k => f k && bool_decide (j = Z.of_nat k)) l.
Proof.
  induction l as [|k l IH]; intros v j Hj; cbn [foldl existsb]; [by rewrite orb_false_r|].
  rewrite IH by done. destruct (f k); cbn [andb]; [|done].
  rewrite Z.lor_spec. change (Z.shiftl 1 (Z.of_nat k)) with (bit k). rewrite bit_testbit by done. by rewrite orb_assoc.
Qed.

Lemma bitmap_byte_testbit bm i k : (k < 8)%nat -> Z.testbit (bitmap_byte bm i) (Z.of_nat k) = default false (bm !! (8 * i + k)%nat).
Proof.
  intros Hk. unfold bitmap_byte. rewrite (foldl_bits (fun k => default false (bm !! (8 * i + k)%nat))) by lia.
  rewrite Z.bits_0. cbn [orb]. apply eq_iff_eq_true. rewrite existsb_exists. split.
  - intros (j & _ & [Hf Hj%bool_decide_eq_true]%andb_prop). by replace k with j by lia.
  - intros Hf. exists k. split; [apply in_seq; lia|]. rewrite Hf. cbn [andb]. by apply bool_decide_eq_true.
Qed.

Lemma bit_test x k : (Z.land (Z.shiftr x (Z.of_nat k)) 1 =? 1) = Z.testbit x (Z.of_nat k).
Proof.
  rewrite <- (Z.add_0_l (Z.of_nat k)) at 2. rewrite <- Z.shiftr_spec by done.
  assert (forall y, Z.land y 1 = y mod 2) as -> by (intros y; exact (Z.land_ones y 1 ltac:(done))).
  rewrite Z.bit0_odd, Zmod_odd. by destruct (Z.odd _).
Qed.

Lemma unpack_packed bm n rest i :
  (i < 8 * n)%nat -> unpack ((bitmap_byte bm <$> seq 0 n) ++ rest) i = default false (bm !! i).
Proof.
  intros Hi. unfold unpack. pose proof (Nat.div_mod_eq i 8) as Hdm. pose proof (Nat.mod_upper_bound i 8 ltac:(lia)) as Hm.
  assert (i / 8 < n)%nat as Hlt by (apply Nat.Div0.div_lt_upper_bound; lia).
  rewrite (list_lookup_total_correct _ _ (bitmap_byte bm (i / 8))).
  2:{ rewrite lookup_app_l by (rewrite length_fmap, length_seq; lia). rewrite list_lookup_fmap, lookup_seq_lt by lia. done. }
  rewrite bit_test, bitmap_byte_testbit by done. by rewrite <- Hdm.
Qed.

(** The manager is read back from its bytes, whatever padding follows them. *)
Lemma segments_roundtrip s dev rest :
  seg_ok s -> segment_size s <> 0 -> segment_count s * segment_size s <= dev < 2 ^ 64 ->
  deserialize (serialize s ++ rest) (segment_count s) (segment_size s) dev = Ok s.
Proof.
  intros Hok Hz Hd. unfold deserialize. rewrite (proj2 (Z.eqb_neq _ _) Hz). unfold block.checked_mul.
  rewrite (proj2 (Z.ltb_lt _ _)) by lia. rewrite (proj2 (Z.ltb_ge _ _)) by lia.
  unfold serialize. rewrite <- !app_assoc.
  destruct (Nat.ltb_spec (length (le_bytes (segment_count s) ++ le_bytes (segment_size s) ++
    (bitmap_byte (bitmap s) <$> seq 0 (Z.to_nat (div_ceil8 (segment_count s)))) ++ rest)) 8) as [H|_].
  { rewrite !length_app, !length_le_bytes in H. lia. }
  rewrite (take_app_length' _ _ 4) by done. rewrite (drop_app_length' _ _ 4) by done. rewrite (take_app_length' _ _ 4) by done.
  rewrite !from_le_bytes by apply Hok. rewrite !Z.eqb_refl. cbn [negb orb].
  rewrite (app_assoc (le_bytes _)). rewrite (drop_app_length' _ _ 8) by done.
  set (n := Z.to_nat (div_ceil8 (segment_count s))).
  pose proof (so_count _ Hok) as Hc. unfold is_u32 in Hc.
  assert (segment_count s <= 8 * div_ceil8 (segment_count s) /\ 0 <= div_ceil8 (segment_count s)) as [Hn Hn0].
  { unfold div_ceil8. pose proof (Z.div_mod (segment_count s + 7) 8 ltac:(lia)).
    pose proof (Z.mod_pos_bound (segment_count s + 7) 8 ltac:(lia)). lia. }
  rewrite (proj2 (Z.ltb_ge _ _)) by (rewrite length_app, length_fmap, length_seq; lia).
  assert ((unpack ((bitmap_byte (bitmap s) <$> seq 0 n) ++ rest) <$> seq 0 (Z.to_nat (segment_count s))) = bitmap s) as ->.
  { apply list_eq. intros i. rewrite list_lookup_fmap. destruct (decide (i < Z.to_nat (segment_count s))%nat) as [Hi|Hi].
    - rewrite lookup_seq_lt by done. cbn [fmap option_fmap option_map]. change (0 + i)%nat with i. rewrite unpack_packed by (unfold n; lia).
      destruct (lookup_lt_is_Some_2 (bitmap s) i) as [b Hb]; [rewrite (so_len _ Hok); lia|]. by rewrite Hb.
    - rewrite lookup_seq_ge by lia. symmetry. apply lookup_ge_None. rewrite (so_len _ Hok). lia. }
  rewrite <- (so_free _ Hok). by destruct s.
Qed.

Lemma length_segment_bytes s : seg_ok s -> Z.of_nat (length (serialize s)) = 8 + div_ceil8 (segment_count s).
Proof.
  intros Hok. unfold serialize. rewrite !length_app, length_fmap, length_seq, !length_le_bytes.
  pose proof (so_count _ Hok) as Hc. unfold is_u32 in Hc. unfold div_ceil8.
  pose proof (Z.div_pos (segment_count s + 7) 8 ltac:(lia) ltac:(lia)). lia.
Qed.
End lfs_segment.
