(* ===== verification/LfsCheckpoint.v ===== *)
(** * Checkpoints of the log-structured file system
    ([crates/thumos/src/lfs_checkpoint.rs], the disk side of [lfs_imap.rs])

    The file system reaches its disk through the block cache only. [io] is a
    computation on a cache and a device that may fail or panic. A checkpoint is
    written payload first, then its header, with a flush after each. *)

From S2P Require Import Prelude Machine Block Cache LfsMeta.
From Stdlib Require Import ZArith.
Open Scope Z_scope.

(** ** Computations on a cached device *)

Module lfs_io.
Import block lfs_imap.

Definition disk (D : Type) : Type := cache.BlockCache * D.
Definition io (D A : Type) : Type := disk D -> outcome (result A LfsError * disk D).

#[export] Instance io_ret {D} : MRet (io D) := fun A a s => Ret (Ok a, s).
#[export] Instance io_bind {D} : MBind (io D) := fun A B f m s =>
  match m s with
  | Ret (Ok a, s) => f a s
  | Ret (Err e, s) => Ret (Err e, s)
  | Panic => Panic
  end.

Definition throw {D A} (e : LfsError) : io D A := fun s => Ret (Err e, s).

Lemma io_bind_run {D A B} (m : io D A) (f : A -> io D B) s :
  (m ≫= f) s = match m s with Ret (Ok a, s) => f a s | Ret (Err e, s) => Ret (Err e, s) | Panic => Panic end.
Proof. done. Qed.

(** Three steps before a continuation, as one. *)
Lemma io_bind_three {D A B C E} (m1 : io D A) (m2 : io D B) (m3 : io D C) (k : C -> io D E) s :
  (_ ← m1; _ ← m2; c ← m3; k c) s = ((_ ← m1; _ ← m2; m3) ≫= k) s.
Proof.
  rewrite !io_bind_run. destruct (m1 s) as [[[a|e] s1]|]; [|done..]. rewrite !io_bind_run.
  by destruct (m2 s1) as [[[b|e] s2]|].
Qed.

(** A fallible pure function. *)
Definition lift {D A} (r : outcome (result A LfsError)) : io D A := fun s => match r with Ret r => Ret (r, s) | Panic => Panic end.

(** A call whose error is inspected, not propagated. *)
Definition attempt {D A} (m : io D A) : io D (result A LfsError) := fun s =>
  match m s with Ret (r, s) => Ret (Ok r, s) | Panic => Panic end.

Section io.
Context {D : Type} `{!BlockDevice D}.

Definition from_block_error {A} (r : result A BlockError * cache.BlockCache * D) : outcome (result A LfsError * disk D) :=
  match r with
  | (Ok a, c, d) => Ret (Ok a, (c, d))
  | (Err e, c, d) => Ret (Err (BlockIo e), (c, d))
  end.

Definition cache_read (b : Z) : io D (list Z) := fun '(c, d) => from_block_error (cache.read c d b).
Definition cache_write (b : Z) (buf : list Z) : io D () := fun '(c, d) => from_block_error (cache.write c d b buf).
Definition cache_flush : io D () := fun '(c, d) => from_block_error (cache.flush c d).
Definition dev_sectors : io D Z := fun '(c, d) => Ret (Ok (sector_count d), (c, d)).
Definition dev_sector_size : io D Z := fun '(c, d) => Ret (Ok (sector_size d), (c, d)).

(** Reading [n] consecutive blocks into one buffer. *)
Fixpoint read_run (start : Z) (idx : list Z) : io D (list Z) :=
  match idx with
  | [] => mret []
  | i :: idx => buf ← cache_read (wrap64 (start + i)); rest ← read_run start idx; mret (buf ++ rest)
  end.

Definition chunk (data : list Z) (i : Z) : list Z := take (Z.to_nat BLOCK_SIZE) (drop (Z.to_nat (i * BLOCK_SIZE)) data).

(** Writing the chunks of a padded buffer to consecutive blocks. *)
Fixpoint write_run (start : Z) (data : list Z) (idx : list Z) : io D () :=
  match idx with
  | [] => mret ()
  | i :: idx => _ ← cache_write (wrap64 (start + i)) (chunk data i); write_run start data idx
  end.

Definition blocks_needed (byte_count : Z) : Z := byte_count / BLOCK_SIZE + (if byte_count mod BLOCK_SIZE =? 0 then 0 else 1).

(** [Vec::resize] to whole blocks. *)
Definition padded (data : list Z) : list Z :=
  data ++ replicate (Z.to_nat (blocks_needed (Z.of_nat (length data)) * BLOCK_SIZE) - length data) 0.

(** ** The inode map on disk *)

Definition save_to_disk (m : LfsImap) (start_block : Z) : io D Z :=
  let data := serialize m in
  let block_count := blocks_needed (Z.of_nat (length data)) in
  _ ← write_run start_block (padded data) (seqZ 0 block_count);
  _ ← cache_flush;
  mret block_count.

Definition load_from_disk (start_block block_count segment_size device_blocks : Z) : io D LfsImap :=
  match checked32 (block_count * BLOCK_SIZE) with
  | None => throw Corrupt
  | Some byte_len =>
      count ← dev_sectors;
      size ← dev_sector_size;
      if Z.min (count * size) (2 ^ 64 - 1) <? byte_len then throw Corrupt else
      data ← read_run start_block (seqZ 0 block_count);
      lift (deserialize data segment_size device_blocks)
  end.
End io.
End lfs_io.

(** ** Checkpoints *)

Module lfs_checkpoint.
Import block codec lfs_imap lfs_io.

Definition CHECKPOINT_MAGIC : Z := 0x434B5054.
Definition CHECKPOINT_SLOT_BLOCKS : Z := 64.
Definition HEADER_SERIALIZED_SIZE : nat := 48.

Record CheckpointHeader := mk_header {
  magic : Z; sequence : Z; imap_block : Z; imap_block_count : Z; segment_bitmap_block : Z; segment_bitmap_count : Z;
  next_inode : Z; last_segment_sequence : Z;
}.

#[export] Instance CheckpointHeader_eq_dec : EqDecision CheckpointHeader.
Proof. solve_decision. Defined.

Definition write_u32_le (w : list Z * nat) (v : Z) : list Z * nat := (put w.1 w.2 (le_bytes v), (w.2 + 4)%nat).
Definition write_u64_le (w : list Z * nat) (v : Z) : list Z * nat := (put w.1 w.2 (le64 v), (w.2 + 8)%nat).
Definition read_u32_le (buf : list Z) (off : nat) : Z * nat := (from_le (take 4 (drop off buf)), (off + 4)%nat).
Definition read_u64_le (buf : list Z) (off : nat) : Z * nat := (from_le (take 8 (drop off buf)), (off + 8)%nat).

Definition zero_block : list Z := replicate (Z.to_nat BLOCK_SIZE) 0.

Definition to_block (h : CheckpointHeader) : list Z :=
  let w := (zero_block, 0%nat) in
  let w := write_u32_le w (magic h) in
  let w := write_u64_le w (sequence h) in
  let w := write_u64_le w (imap_block h) in
  let w := write_u32_le w (imap_block_count h) in
  let w := write_u64_le w (segment_bitmap_block h) in
  let w := write_u32_le w (segment_bitmap_count h) in
  let w := write_u32_le w (next_inode h) in
  let w := write_u64_le w (last_segment_sequence h) in
  w.1.

Definition from_block (buf : list Z) : result CheckpointHeader LfsError :=
  if (length buf <? HEADER_SERIALIZED_SIZE)%nat then Err Corrupt else
  let '(magic, off) := read_u32_le buf 0 in
  if negb (magic =? CHECKPOINT_MAGIC) then Err Corrupt else
  let '(sequence, off) := read_u64_le buf off in
  let '(imap_block, off) := read_u64_le buf off in
  let '(imap_block_count, off) := read_u32_le buf off in
  let '(segment_bitmap_block, off) := read_u64_le buf off in
  let '(segment_bitmap_count, off) := read_u32_le buf off in
  let '(next_inode, off) := read_u32_le buf off in
  let '(last_segment_sequence, off) := read_u64_le buf off in
  Ok (mk_header magic sequence imap_block imap_block_count segment_bitmap_block segment_bitmap_count next_inode
    last_segment_sequence).

Section checkpoint.
Context {D : Type} `{!BlockDevice D}.

Definition write_checkpoint (slot_block : Z) (h : CheckpointHeader) (imap_data segment_data : list Z) : io D () :=
  let slot_end := wrap64 (slot_block + CHECKPOINT_SLOT_BLOCKS) in
  let payload_end := wrap64 (segment_bitmap_block h + segment_bitmap_count h) in
  if (imap_block h <=? slot_block) || (slot_end <? payload_end) then throw CheckpointOverflow else
  _ ← write_run (imap_block h) (padded imap_data) (seqZ 0 (blocks_needed (Z.of_nat (length imap_data))));
  _ ← write_run (segment_bitmap_block h) (padded segment_data) (seqZ 0 (blocks_needed (Z.of_nat (length segment_data))));
  _ ← cache_flush;
  _ ← cache_write slot_block (to_block h);
  _ ← cache_flush;
  mret ().

Definition validate_header_geometry (h : CheckpointHeader) (device_blocks : Z) : result () LfsError :=
  match checked_add (imap_block h) (imap_block_count h), checked_add (segment_bitmap_block h) (segment_bitmap_count h) with
  | Some imap_end, Some segment_end =>
      if (device_blocks <=? imap_block h) || (device_blocks <? imap_end)
         || (device_blocks <=? segment_bitmap_block h) || (device_blocks <? segment_end)
      then Err Corrupt else Ok ()
  | _, _ => Err Corrupt
  end.

Definition read_checkpoint (slot_block : Z) : io D CheckpointHeader :=
  buf ← cache_read slot_block;
  h ← lift (Ret (from_block buf));
  count ← dev_sectors;
  _ ← lift (Ret (validate_header_geometry h (count / SECTORS_PER_BLOCK)));
  mret h.

Definition pick_latest (slot_a_block slot_b_block : Z) : io D (CheckpointHeader * Z) :=
  a ← attempt (read_checkpoint slot_a_block);
  b ← attempt (read_checkpoint slot_b_block);
  match a, b with
  | Ok ha, Ok hb => if sequence hb <=? sequence ha then mret (ha, slot_a_block) else mret (hb, slot_b_block)
  | Ok ha, Err _ => mret (ha, slot_a_block)
  | Err _, Ok hb => mret (hb, slot_b_block)
  | Err (BlockIo ea), Err (BlockIo _) => throw (BlockIo ea)
  | Err _, Err _ => throw Corrupt
  end.
End checkpoint.

(** ** The header on disk *)

Lemma write_u32_zeros pre k v :
  (4 <= k)%nat -> write_u32_le (pre ++ replicate k 0, length pre) v =
    ((pre ++ le_bytes v) ++ replicate (k - 4) 0, length (pre ++ le_bytes v)).
Proof. intros H. unfold write_u32_le; cbn [fst snd]. rewrite put_zeros by done. by rewrite length_app, length_le_bytes. Qed.

Lemma write_u64_zeros pre k v :
  (8 <= k)%nat -> write_u64_le (pre ++ replicate k 0, length pre) v =
    ((pre ++ le64 v) ++ replicate (k - 8) 0, length (pre ++ le64 v)).
Proof. intros H. unfold write_u64_le; cbn [fst snd]. rewrite put_zeros by done. by rewrite length_app, length_le64. Qed.

Definition header_bytes (h : CheckpointHeader) : list Z :=
  le_bytes (magic h) ++ le64 (sequence h) ++ le64 (imap_block h) ++ le_bytes (imap_block_count h) ++
  le64 (segment_bitmap_block h) ++ le_bytes (segment_bitmap_count h) ++ le_bytes (next_inode h) ++ le64 (last_segment_sequence h).

Lemma to_block_bytes h : to_block h = header_bytes h ++ replicate (Z.to_nat BLOCK_SIZE - 48) 0.
Proof.
  unfold to_block, zero_block. change (replicate (Z.to_nat BLOCK_SIZE) 0, 0%nat) with ([] ++ replicate (Z.to_nat BLOCK_SIZE) 0, length (@nil Z)).
  assert (Z.to_nat BLOCK_SIZE = 4096%nat) as Hb by done.
  repeat (rewrite write_u32_zeros by lia || rewrite write_u64_zeros by lia). cbn [fst].
  unfold header_bytes. rewrite <- !app_assoc. cbn [app]. by repeat f_equal.
Qed.

(** Reading a field that follows a prefix. *)
Lemma read_u32_at buf off pre v rest :
  buf = pre ++ le_bytes v ++ rest -> off = length pre -> is_u32 v -> read_u32_le buf off = (v, (off + 4)%nat).
Proof. intros -> -> Hv. unfold read_u32_le. rewrite drop_app_length, (take_app_length' _ _ 4) by done. by rewrite from_le_bytes. Qed.

Lemma read_u64_at buf off pre v rest :
  buf = pre ++ le64 v ++ rest -> off = length pre -> is_u64 v -> read_u64_le buf off = (v, (off + 8)%nat).
Proof. intros -> -> Hv. unfold read_u64_le. rewrite drop_app_length, (take_app_length' _ _ 8) by done. by rewrite from_le64. Qed.

Record header_ok (h : CheckpointHeader) : Prop := {
  ho_magic : magic h = CHECKPOINT_MAGIC;
  ho_sequence : is_u64 (sequence h);
  ho_imap : is_u64 (imap_block h);
  ho_imap_count : is_u32 (imap_block_count h);
  ho_bitmap : is_u64 (segment_bitmap_block h);
  ho_bitmap_count : is_u32 (segment_bitmap_count h);
  ho_inode : is_u32 (next_inode h);
  ho_last : is_u64 (last_segment_sequence h);
}.

Lemma from_to_block h : header_ok h -> from_block (to_block h) = Ok h.
Proof.
  intros Hh. rewrite to_block_bytes. unfold from_block.
  destruct (Nat.ltb_spec (length (header_bytes h ++ replicate (Z.to_nat BLOCK_SIZE - 48) 0)) HEADER_SERIALIZED_SIZE) as [H|_].
  { rewrite length_app in H. change (length (header_bytes h)) with 48%nat in H. unfold HEADER_SERIALIZED_SIZE in H. lia. }
  set (z := replicate _ 0). clearbody z. unfold header_bytes. rewrite <- !app_assoc.
  destruct h as [m sq ib ic sb sc ni ls]; destruct Hh as [Hm ? ? ? ? ? ? ?];
    cbn [magic sequence imap_block imap_block_count segment_bitmap_block segment_bitmap_count next_inode last_segment_sequence] in *.
  erewrite (read_u32_at _ 0 [] m); [|reflexivity|reflexivity|by rewrite Hm].
  rewrite Hm, Z.eqb_refl. cbn [negb]. rewrite <- Hm.
  erewrite (read_u64_at _ _ (le_bytes m) sq); [|reflexivity|reflexivity|done].
  erewrite (read_u64_at _ _ (le_bytes m ++ le64 sq) ib); [|reflexivity|reflexivity|done].
  erewrite (read_u32_at _ _ (le_bytes m ++ le64 sq ++ le64 ib) ic); [|reflexivity|reflexivity|done].
  erewrite (read_u64_at _ _ (le_bytes m ++ le64 sq ++ le64 ib ++ le_bytes ic) sb); [|reflexivity|reflexivity|done].
  erewrite (read_u32_at _ _ (le_bytes m ++ le64 sq ++ le64 ib ++ le_bytes ic ++ le64 sb) sc); [|reflexivity|reflexivity|done].
  erewrite (read_u32_at _ _ (le_bytes m ++ le64 sq ++ le64 ib ++ le_bytes ic ++ le64 sb ++ le_bytes sc) ni); [|reflexivity|reflexivity|done].
  erewrite (read_u64_at _ _ (le_bytes m ++ le64 sq ++ le64 ib ++ le_bytes ic ++ le64 sb ++ le_bytes sc ++ le_bytes ni) ls); [|reflexivity|reflexivity|done].
  done.
Qed.

(** A header is decoded from the first sector of its block. *)
Lemma from_block_prefix buf buf' :
  (48 <= length buf)%nat -> (48 <= length buf')%nat -> take 48 buf = take 48 buf' -> from_block buf = from_block buf'.
Proof.
  intros Hl Hl' E. assert (forall off n, (off + n <= 48)%nat -> take n (drop off buf) = take n (drop off buf')) as H.
  { intros off n Hn. rewrite !take_drop_commute. f_equal.
    rewrite <- (Nat.min_l (off + n) 48) by done. by rewrite <- !take_take, E. }
  unfold from_block, read_u32_le, read_u64_le. rewrite !H by lia.
  destruct (Nat.ltb_spec (length buf) HEADER_SERIALIZED_SIZE), (Nat.ltb_spec (length buf') HEADER_SERIALIZED_SIZE);
    unfold HEADER_SERIALIZED_SIZE in *; lia || done.
Qed.
(** ** Writing a checkpoint, whatever fails *)

Section safety.
Context {D : Type} `{!BlockDevice D, !BlockDeviceLaws D}.
Import cache.

(** Progress from one cached disk to another in which only the blocks of [W]
    were stored to. *)
Record evolves (W : Z -> Prop) (c : BlockCache) (d : D) (c' : BlockCache) (d' : D) : Prop := {
  ev_ok : cache_ok c' d';
  ev_count : sector_count d' = sector_count d;
  ev_view x : ~ W x -> view c' d' x = view c d x;
  ev_dirty x : dirty_at c' x -> dirty_at c x \/ W x;
  ev_sector x i : 0 <= i < SECTORS_PER_BLOCK -> ~ dirty_at c x -> ~ W x ->
    sector d' (x * SECTORS_PER_BLOCK + i) = sector d (x * SECTORS_PER_BLOCK + i);
}.

Lemma evolves_refl W c d : cache_ok c d -> evolves W c d c d.
Proof. split; auto. Qed.

Lemma evolves_trans W c d c1 d1 c2 d2 : evolves W c d c1 d1 -> evolves W c1 d1 c2 d2 -> evolves W c d c2 d2.
Proof.
  intros H H'. split; [apply H'|..].
  - by rewrite (ev_count _ _ _ _ _ H'), (ev_count _ _ _ _ _ H).
  - intros x Hx. by rewrite (ev_view _ _ _ _ _ H'), (ev_view _ _ _ _ _ H).
  - intros x [Hd|]%(ev_dirty _ _ _ _ _ H'); [by apply H|by right].
  - intros x i Hi Hd Hw. rewrite (ev_sector _ _ _ _ _ H'), (ev_sector _ _ _ _ _ H); try done.
    intros [|]%(ev_dirty _ _ _ _ _ H); done.
Qed.

Lemma evolves_weaken (W W' : Z -> Prop) c d c' d' : (forall x, W x -> W' x) -> evolves W c d c' d' -> evolves W' c d c' d'.
Proof.
  intros HW H. split; try apply H.
  - intros x Hx. apply H. auto.
  - intros x [|]%(ev_dirty _ _ _ _ _ H); auto.
  - intros x i Hi Hd Hx. apply H; auto.
Qed.

Lemma settles_evolves W c d c' d' : settles c d c' d' -> evolves W c d c' d'.
Proof.
  intros H. split; try apply H.
  - intros x _. apply H.
  - intros x Hd. left. by apply H.
  - intros x i Hi Hd _. by destruct (se_sector _ _ _ _ H x i Hi) as [|[? _]].
Qed.

Lemma stores_evolves (W : Z -> Prop) b buf c d c' d' : W b -> stores b buf c d c' d' -> evolves W c d c' d'.
Proof.
  intros Hb H. split; try apply H.
  - intros x Hx. rewrite (st_view _ _ _ _ _ _ H). by destruct (decide (x = b)) as [->|].
  - intros x [->|]%(st_dirty _ _ _ _ _ _ H); [by right|by left].
  - intros x i Hi Hd _. by destruct (st_sector _ _ _ _ _ _ H x i Hi) as [|[? _]].
Qed.

Lemma ev_content W c d c' d' x : evolves W c d c' d' -> ~ dirty_at c x -> ~ W x -> content d' x = content d x.
Proof. intros H Hd Hw. apply content_same. intros i Hi. by apply (ev_sector _ _ _ _ _ H). Qed.

Lemma length_padded data : length (padded data) = Z.to_nat (blocks_needed (Z.of_nat (length data)) * BLOCK_SIZE).
Proof.
  unfold padded. rewrite length_app, length_replicate. unfold blocks_needed.
  pose proof (Z.div_mod (Z.of_nat (length data)) BLOCK_SIZE ltac:(done)).
  pose proof (Z.mod_pos_bound (Z.of_nat (length data)) BLOCK_SIZE ltac:(done)).
  destruct (Z.eqb_spec (Z.of_nat (length data) mod BLOCK_SIZE) 0); unfold BLOCK_SIZE in *; lia.
Qed.

Lemma length_chunk data i n :
  length data = Z.to_nat (n * BLOCK_SIZE) -> 0 <= i < n -> length (chunk data i) = Z.to_nat BLOCK_SIZE.
Proof. intros H Hi. unfold chunk. rewrite length_take, length_drop, H. unfold BLOCK_SIZE. lia. Qed.

(** The blocks of a run. *)
Definition in_run (start n x : Z) : Prop := start <= x < start + n.

Lemma write_run_spec start data n m : forall k c d r c' d',
  cache_ok c d -> 0 <= k -> k + Z.of_nat m = n -> length data = Z.to_nat (n * BLOCK_SIZE) ->
  0 <= start -> start + n <= 2 ^ 61 ->
  write_run start data (seqZ k (Z.of_nat m)) (c, d) = Ret (r, (c', d')) ->
  evolves (in_run start n) c d c' d' /\
  (r = Ok () -> forall x, view c' d' x = if decide (start + k <= x < start + n) then chunk data (x - start) else view c d x).
Proof.
  induction m as [|m IH]; intros k c d r c' d' Hok Hk Hn Hl Hs Hr E.
  { rewrite seqZ_nil in E by lia. cbn [write_run] in E. unfold mret, io_ret in E. simplify_eq. split; [by apply evolves_refl|]. intros _ x. rewrite decide_False by lia. done. }
  rewrite Nat2Z.inj_succ, seqZ_cons, Z.pred_succ in E by lia. cbn [write_run] in E.
  rewrite io_bind_run in E. unfold cache_write in E.
  unfold wrap64 in E. rewrite Z.mod_small in E by lia.
  destruct (cache.write c d (start + k) (chunk data k)) as [[r0 c0] d0] eqn:Ew.
  apply write_stores in Ew; [|done|unfold is_block; lia|by apply (length_chunk _ _ n); [|lia]].
  destruct r0 as [[]|er]; cbn [from_block_error] in E.
  2:{ injection E as <- <- <-. split; [by apply settles_evolves|done]. }
  apply IH in E as [Hev Hv]; [|by apply Ew|lia..]. split.
  - eapply evolves_trans; [|exact Hev]. eapply (stores_evolves _ (start + k)); [unfold in_run; lia|exact Ew].
  - intros Hok' x. rewrite (Hv Hok'), (st_view _ _ _ _ _ _ Ew).
    destruct (decide (x = start + k)) as [->|Hne].
    + rewrite decide_False by lia. rewrite decide_True by lia. f_equal. lia.
    + destruct (decide (start + Z.succ k <= x < start + n)); [by rewrite decide_True by lia|].
      by rewrite decide_False by lia.
Qed.

Lemma write_run_total start data idx s : exists r s', write_run (D := D) start data idx s = Ret (r, s').
Proof.
  revert s. induction idx as [|i idx IH]; intros [c d]; [by do 2 eexists|]. cbn [write_run].
  rewrite io_bind_run. unfold cache_write. destruct (cache.write c d _ _) as [[[[]|e] c0] d0]; cbn [from_block_error]; [apply IH|].
  by do 2 eexists.
Qed.

(** The payload of a checkpoint as it should lie on disk. *)
Definition payload_on (d : D) (h : CheckpointHeader) (imap_data segment_data : list Z) : Prop :=
  (forall i, 0 <= i < blocks_needed (Z.of_nat (length imap_data)) -> content d (imap_block h + i) = chunk (padded imap_data) i) /\
  (forall i, 0 <= i < blocks_needed (Z.of_nat (length segment_data)) ->
     content d (segment_bitmap_block h + i) = chunk (padded segment_data) i).

(** The layout [LfsWriter::write_checkpoint] chooses for a slot. *)
Record laid_out (slot : Z) (h : CheckpointHeader) (imap_data segment_data : list Z) : Prop := {
  lo_slot : 0 <= slot /\ slot + CHECKPOINT_SLOT_BLOCKS <= 2 ^ 61;
  lo_imap : imap_block h = slot + 1;
  lo_imap_count : imap_block_count h = blocks_needed (Z.of_nat (length imap_data));
  lo_bitmap : segment_bitmap_block h = imap_block h + imap_block_count h;
  lo_bitmap_count : segment_bitmap_count h = blocks_needed (Z.of_nat (length segment_data));
  lo_fits : segment_bitmap_block h + segment_bitmap_count h <= slot + CHECKPOINT_SLOT_BLOCKS;
}.
Lemma blocks_needed_nonneg n : 0 <= n -> 0 <= blocks_needed n.
Proof.
  intros H. unfold blocks_needed. pose proof (Z.div_pos n BLOCK_SIZE H ltac:(done)). destruct (_ =? 0); lia.
Qed.

(** One run of blocks of the payload. *)
Lemma write_payload start data c d r c' d' :
  cache_ok c d -> 0 <= start -> start + blocks_needed (Z.of_nat (length data)) <= 2 ^ 61 ->
  write_run start (padded data) (seqZ 0 (blocks_needed (Z.of_nat (length data)))) (c, d) = Ret (r, (c', d')) ->
  evolves (in_run start (blocks_needed (Z.of_nat (length data)))) c d c' d' /\
  (r = Ok () -> forall x, view c' d' x =
     if decide (in_run start (blocks_needed (Z.of_nat (length data))) x) then chunk (padded data) (x - start) else view c d x).
Proof.
  intros Hok Hs Hr E. pose proof (blocks_needed_nonneg (Z.of_nat (length data)) ltac:(lia)) as Hn.
  pose proof (length_padded data) as Hl. set (n := blocks_needed _) in *.
  rewrite <- (Z2Nat.id n) in E by done.
  apply (write_run_spec start (padded data) n) in E as [Hev Hv]; [|done|lia..]. split; [done|].
  intros Ho x. rewrite (Hv Ho). unfold in_run. rewrite Z.add_0_r. done.
Qed.

(** The second half of a checkpoint: the header, on a disk with nothing
    pending. It is on disk or it is not. *)
Lemma write_header_effect slot h c d r c' d' :
  cache_ok c d -> (forall x, ~ dirty_at c x) -> is_block slot ->
  (_ ← cache_write slot (to_block h); _ ← cache_flush; mret ()) (c, d) = Ret (r, (c', d')) ->
  evolves (fun x => x = slot) c d c' d' /\
  (sector d' (slot * SECTORS_PER_BLOCK) = sector d (slot * SECTORS_PER_BLOCK) \/
   sector d' (slot * SECTORS_PER_BLOCK) = piece (to_block h) 0) /\
  (r = Ok () -> content d' slot = to_block h /\ forall x, ~ dirty_at c' x).
Proof.
  intros Hok Hc Hb E. rewrite io_bind_run in E. unfold cache_write in E.
  destruct (cache.write c d slot (to_block h)) as [[r0 c0] d0] eqn:Ew.
  apply write_stores in Ew; [|done|done|by rewrite to_block_bytes, length_app, length_replicate].
  destruct r0 as [[]|er]; cbn [from_block_error] in E.
  2:{ injection E as <- <- <-. split_and!; [by apply settles_evolves| |done]. left.
      destruct (se_sector _ _ _ _ Ew slot 0 ltac:(spb)) as [H|[Hd _]]; [|by destruct (Hc slot)]. by rewrite Z.add_0_r in H. }
  rewrite io_bind_run in E. unfold cache_flush in E.
  destruct (cache.flush c0 d0) as [[r1 c1] d1] eqn:Ef. apply flush_settles in Ef as [Hs Hcl]; [|apply Ew].
  assert (evolves (fun x => x = slot) c d c1 d1) as Hev.
  { eapply evolves_trans; [by eapply stores_evolves; [|exact Ew]|by apply settles_evolves]. }
  assert (sector d0 (slot * SECTORS_PER_BLOCK) = sector d (slot * SECTORS_PER_BLOCK)) as Hsec.
  { destruct (st_sector _ _ _ _ _ _ Ew slot 0 ltac:(spb)) as [H|[Hd _]]; [|by destruct (Hc slot)]. by rewrite Z.add_0_r in H. }
  assert (sector d1 (slot * SECTORS_PER_BLOCK) = sector d (slot * SECTORS_PER_BLOCK) \/
          sector d1 (slot * SECTORS_PER_BLOCK) = piece (to_block h) 0) as Hh.
  { destruct (se_sector _ _ _ _ Hs slot 0 ltac:(spb)) as [H|[_ H]]; rewrite Z.add_0_r in H.
    - left. by rewrite H, Hsec.
    - right. by rewrite H, (st_view _ _ _ _ _ _ Ew), decide_True. }
  destruct r1 as [[]|er]; cbn [from_block_error] in E; unfold mret, io_ret in E; injection E as <- <- <-; [|by split_and!].
  split_and!; [done|done|]. intros _. split; [|by apply Hcl].
  rewrite (clean_view c1 d1) by (apply Hs || by apply Hcl). by rewrite (se_view _ _ _ _ Hs), (st_view _ _ _ _ _ _ Ew), decide_True.
Qed.

(** The first half: the payload reaches the disk, or the call fails. *)
Lemma write_payload_effect slot h im sg c d :
  cache_ok c d -> laid_out slot h im sg ->
  exists r c' d',
  (_ ← write_run (imap_block h) (padded im) (seqZ 0 (blocks_needed (Z.of_nat (length im))));
   _ ← write_run (segment_bitmap_block h) (padded sg) (seqZ 0 (blocks_needed (Z.of_nat (length sg)))); cache_flush) (c, d)
    = Ret (r, (c', d')) /\
  evolves (fun x => slot < x < slot + CHECKPOINT_SLOT_BLOCKS) c d c' d' /\
  (r = Ok () -> payload_on d' h im sg /\ forall x, ~ dirty_at c' x).
Proof.
  intros Hok [[Hs0 Hs1] Hi Hic Hb Hbc Hf]. unfold CHECKPOINT_SLOT_BLOCKS in *.
  pose proof (blocks_needed_nonneg (Z.of_nat (length im)) ltac:(lia)) as Hn1.
  pose proof (blocks_needed_nonneg (Z.of_nat (length sg)) ltac:(lia)) as Hn2.
  rewrite io_bind_run.
  destruct (write_run_total (imap_block h) (padded im) (seqZ 0 (blocks_needed (Z.of_nat (length im)))) (c, d)) as (r1 & [c1 d1] & E1).
  rewrite E1. apply write_payload in E1 as [Hev1 Hv1]; [|done|lia..].
  apply (evolves_weaken _ (fun x => slot < x < slot + 64)) in Hev1; [|unfold in_run; intros; lia].
  destruct r1 as [[]|er]; [|by do 3 eexists]. rewrite io_bind_run.
  destruct (write_run_total (segment_bitmap_block h) (padded sg) (seqZ 0 (blocks_needed (Z.of_nat (length sg)))) (c1, d1)) as (r2 & [c2 d2] & E2).
  rewrite E2. apply write_payload in E2 as [Hev2 Hv2]; [|apply Hev1|lia..].
  apply (evolves_weaken _ (fun x => slot < x < slot + 64)) in Hev2; [|unfold in_run; intros; lia].
  pose proof (evolves_trans _ _ _ _ _ _ _ Hev1 Hev2) as Hev.
  destruct r2 as [[]|er]; [|by do 3 eexists]. unfold cache_flush.
  destruct (cache.flush c2 d2) as [[r3 c3] d3] eqn:Ef. apply flush_settles in Ef as [Hs Hc3]; [|apply Hev2].
  pose proof (evolves_trans _ _ _ _ _ _ _ Hev (settles_evolves _ _ _ _ _ Hs)) as Hev3.
  destruct r3 as [[]|er]; cbn [from_block_error]; do 3 eexists; split; try done; split; try done.
  intros _. specialize (Hc3 eq_refl). split; [|done].
  split; intros i Hi'; rewrite (clean_view c3 d3) by (apply Hs || done); rewrite (se_view _ _ _ _ Hs), (Hv2 eq_refl); unfold in_run.
  - rewrite decide_False by lia. rewrite (Hv1 eq_refl). unfold in_run. rewrite decide_True by lia. f_equal. lia.
  - rewrite decide_True by lia. f_equal. lia.
Qed.

Lemma write_header_total slot h s :
  exists r s', (_ ← cache_write slot (to_block h); _ ← cache_flush; mret ()) s = Ret (r, s') :> outcome (result () LfsError * disk D).
Proof.
  destruct s as [c d]. rewrite io_bind_run. unfold cache_write, cache_flush.
  destruct (cache.write c d slot (to_block h)) as [[[[]|?] cw] dw]; cbn [from_block_error]; [|by do 2 eexists].
  rewrite io_bind_run. destruct (cache.flush cw dw) as [[[[]|?] ?] ?]; by do 2 eexists.
Qed.

(** A checkpoint, whatever fails: nothing outside the slot changes, and the new
    header is on disk only with the whole payload. *)
Lemma write_checkpoint_effect slot h im sg c d :
  cache_ok c d -> laid_out slot h im sg -> ~ dirty_at c slot ->
  exists r c' d', write_checkpoint slot h im sg (c, d) = Ret (r, (c', d')) /\
  evolves (in_run slot CHECKPOINT_SLOT_BLOCKS) c d c' d' /\
  (sector d' (slot * SECTORS_PER_BLOCK) = sector d (slot * SECTORS_PER_BLOCK) \/
   sector d' (slot * SECTORS_PER_BLOCK) = piece (to_block h) 0 /\ payload_on d' h im sg) /\
  (r = Ok () -> content d' slot = to_block h /\ payload_on d' h im sg /\ forall x, ~ dirty_at c' x).
Proof.
  intros Hok Hlo Hcl. destruct (write_payload_effect slot h im sg c d Hok Hlo) as (r & c3 & d3 & E3 & Hev3 & Hpay).
  destruct Hlo as [[Hs0 Hs1] Hi Hic Hb Hbc Hf].
  pose proof (blocks_needed_nonneg (Z.of_nat (length im)) ltac:(lia)) as Hn1.
  pose proof (blocks_needed_nonneg (Z.of_nat (length sg)) ltac:(lia)) as Hn2. unfold CHECKPOINT_SLOT_BLOCKS in *.
  unfold write_checkpoint, CHECKPOINT_SLOT_BLOCKS, wrap64. rewrite !Z.mod_small by lia.
  rewrite (proj2 (Z.leb_gt _ _)) by lia. rewrite (proj2 (Z.ltb_ge _ _)) by lia. cbn [orb].
  assert (sector d3 (slot * SECTORS_PER_BLOCK) = sector d (slot * SECTORS_PER_BLOCK)) as Hold.
  { pose proof (ev_sector _ _ _ _ _ Hev3 slot 0 ltac:(spb) Hcl ltac:(cbv beta; lia)) as E. by rewrite Z.add_0_r in E. }
  apply (evolves_weaken _ (in_run slot 64)) in Hev3; [|unfold in_run; intros; lia].
  rewrite io_bind_three, io_bind_run, E3.
  destruct r as [[]|er]; [|by do 3 eexists; split_and!; [|exact Hev3|left|]]. destruct (Hpay eq_refl) as [Hp Hc3].
  destruct (write_header_total slot h (c3, d3)) as (r4 & [c4 d4] & E4). rewrite E4.
  apply write_header_effect in E4 as (Hev4 & Hh & Ho); [|apply Hev3|done|unfold is_block; lia].
  assert (payload_on d4 h im sg) as Hpay4.
  { destruct Hp as [P1 P2]. split; intros i Hi'; rewrite (ev_content _ _ _ _ _ _ Hev4) by (apply Hc3 || cbv beta; lia); [by apply P1|by apply P2]. }
  exists r4, c4, d4. split; [done|]. split_and!.
  - eapply evolves_trans; [exact Hev3|]. eapply evolves_weaken; [|exact Hev4]. intros x ->. unfold in_run. lia.
  - destruct Hh as [->|Hh]; [by left|by right].
  - intros Hr. destruct (Ho Hr). by split_and!.
Qed.
End safety.
End lfs_checkpoint.
