(* ===== verification/LfsLog.v ===== *)
(** * The log ([crates/thumos/src/lfs_writer.rs], the on-disk structures of [lfs.rs])

    Superblock, inodes and segment headers as bytes, and the write head that
    appends blocks to the current segment, seals it when it is full, and writes
    checkpoints. Its methods change the disk, the inode map, the segment manager
    and the head together: [log] holds all four. *)

From S2P Require Import Prelude Machine Block Cache LfsMeta LfsCheckpoint.
From Stdlib Require Import ZArith.
Open Scope Z_scope.

(** ** On-disk structures *)

Module lfs_disk.
Import block codec lfs_imap lfs_io lfs_checkpoint.

Definition LFS_MAGIC : Z := 0x4C465321.
Definition LFS_VERSION : Z := 1.
Definition INODE_TYPE_FILE : Z := 1.
Definition INODE_TYPE_DIR : Z := 2.
Definition DIRECT_BLOCK_COUNT : nat := 12.
Definition LFS_MAX_FILE_SIZE : Z := Z.of_nat DIRECT_BLOCK_COUNT * BLOCK_SIZE.
Definition DISK_INODE_SIZE : nat := 128.
Definition SEGMENT_MAGIC : Z := 0x53454721.

Record LfsSuperblock := mk_superblock {
  sb_magic : Z; sb_version : Z; block_count : Z; sb_segment_size : Z; sb_segment_count : Z; checkpoint_block_a : Z;
  checkpoint_block_b : Z; sb_imap_block : Z; sb_imap_block_count : Z; root_inode : Z; sb_next_inode : Z;
}.

Definition superblock_to_block (sb : LfsSuperblock) : list Z :=
  let w := (zero_block, 0%nat) in
  let w := write_u32_le w (sb_magic sb) in
  let w := write_u32_le w (sb_version sb) in
  let w := write_u64_le w (block_count sb) in
  let w := write_u32_le w (sb_segment_size sb) in
  let w := write_u32_le w (sb_segment_count sb) in
  let w := write_u64_le w (checkpoint_block_a sb) in
  let w := write_u64_le w (checkpoint_block_b sb) in
  let w := write_u64_le w (sb_imap_block sb) in
  let w := write_u32_le w (sb_imap_block_count sb) in
  let w := write_u32_le w (root_inode sb) in
  let w := write_u32_le w (sb_next_inode sb) in
  w.1.

Definition superblock_from_block (buf : list Z) : result LfsSuperblock LfsError :=
  let '(magic, off) := read_u32_le buf 0 in
  if negb (magic =? LFS_MAGIC) then Err InvalidSuperblock else
  let '(version, off) := read_u32_le buf off in
  if negb (version =? LFS_VERSION) then Err InvalidSuperblock else
  let '(block_count, off) := read_u64_le buf off in
  let '(segment_size, off) := read_u32_le buf off in
  let '(segment_count, off) := read_u32_le buf off in
  let '(checkpoint_block_a, off) := read_u64_le buf off in
  let '(checkpoint_block_b, off) := read_u64_le buf off in
  let '(imap_block, off) := read_u64_le buf off in
  let '(imap_block_count, off) := read_u32_le buf off in
  let '(root_inode, off) := read_u32_le buf off in
  let '(next_inode, off) := read_u32_le buf off in
  Ok (mk_superblock magic version block_count segment_size segment_count checkpoint_block_a checkpoint_block_b imap_block
    imap_block_count root_inode next_inode).

Record DiskInode := mk_inode { inode_type : Z; link_count : Z; size : Z; direct : list Z; indirect : Z }.

#[export] Instance DiskInode_eq_dec : EqDecision DiskInode.
Proof. solve_decision. Defined.

Definition write_to (i : DiskInode) (buf : list Z) (start : nat) : list Z :=
  let buf := put buf start [inode_type i] in
  let buf := put buf (start + 1) (le16 (link_count i)) in
  let buf := put buf (start + 3) (le64 (size i)) in
  let '(buf, off) := foldl write_u64_le (buf, (start + 11)%nat) (direct i) in
  put buf off (le64 (indirect i)).

(** The loop over the direct pointers. *)
Fixpoint read_direct (n : nat) (buf : list Z) (off : nat) : list Z :=
  match n with
  | O => []
  | S n => from_le (take 8 (drop off buf)) :: read_direct n buf (off + 8)
  end.

Definition read_from (buf : list Z) (start : nat) : result DiskInode LfsError :=
  if (length buf <? start + DISK_INODE_SIZE)%nat then Err Corrupt else
  Ok (mk_inode (buf !!! start) (from_le (take 2 (drop (start + 1) buf))) (from_le (take 8 (drop (start + 3) buf)))
    (read_direct DIRECT_BLOCK_COUNT buf (start + 11)) (from_le (take 8 (drop (start + 11 + 8 * DIRECT_BLOCK_COUNT) buf)))).

Record SegmentHeader := mk_segment_header { sh_magic : Z; sh_sequence : Z; timestamp : Z; sh_block_count : Z }.

Definition segment_header_to_block (h : SegmentHeader) : list Z :=
  let w := (zero_block, 0%nat) in
  let w := write_u32_le w (sh_magic h) in
  let w := write_u64_le w (sh_sequence h) in
  let w := write_u64_le w (timestamp h) in
  let w := write_u32_le w (sh_block_count h) in
  w.1.

(** ** Round trips *)

Record superblock_ok (sb : LfsSuperblock) : Prop := {
  sbo_magic : sb_magic sb = LFS_MAGIC; sbo_version : sb_version sb = LFS_VERSION;
  sbo_u64 : Forall is_u64 [block_count sb; checkpoint_block_a sb; checkpoint_block_b sb; sb_imap_block sb];
  sbo_u32 : Forall is_u32 [sb_segment_size sb; sb_segment_count sb; sb_imap_block_count sb; root_inode sb; sb_next_inode sb];
}.

Definition superblock_bytes (sb : LfsSuperblock) : list Z :=
  le_bytes (sb_magic sb) ++ le_bytes (sb_version sb) ++ le64 (block_count sb) ++ le_bytes (sb_segment_size sb) ++
  le_bytes (sb_segment_count sb) ++ le64 (checkpoint_block_a sb) ++ le64 (checkpoint_block_b sb) ++ le64 (sb_imap_block sb) ++
  le_bytes (sb_imap_block_count sb) ++ le_bytes (root_inode sb) ++ le_bytes (sb_next_inode sb).

Lemma superblock_block_bytes sb : superblock_to_block sb = superblock_bytes sb ++ replicate (Z.to_nat BLOCK_SIZE - 60) 0.
Proof.
  unfold superblock_to_block, zero_block.
  change (replicate (Z.to_nat BLOCK_SIZE) 0, 0%nat) with ([] ++ replicate (Z.to_nat BLOCK_SIZE) 0, length (@nil Z)).
  assert (Z.to_nat BLOCK_SIZE = 4096%nat) as Hb by done.
  repeat (rewrite write_u32_zeros by lia || rewrite write_u64_zeros by lia). cbn [fst].
  unfold superblock_bytes. rewrite <- !app_assoc. cbn [app]. by repeat f_equal.
Qed.

Lemma superblock_roundtrip sb : superblock_ok sb -> superblock_from_block (superblock_to_block sb) = Ok sb.
Proof.
  intros [Hm Hv H64 H32]. rewrite superblock_block_bytes. unfold superblock_from_block.
  set (z := replicate _ 0). clearbody z. unfold superblock_bytes. rewrite <- !app_assoc.
  repeat (apply Forall_cons in H64 as [? H64]). repeat (apply Forall_cons in H32 as [? H32]).
  destruct sb as [m v bc ss sc ca cb ib ic ri ni];
    cbn [sb_magic sb_version block_count sb_segment_size sb_segment_count checkpoint_block_a checkpoint_block_b sb_imap_block
      sb_imap_block_count root_inode sb_next_inode] in *. subst m v.
  set (p0 := le_bytes LFS_MAGIC). set (p1 := p0 ++ le_bytes LFS_VERSION). set (p2 := p1 ++ le64 bc).
  set (p3 := p2 ++ le_bytes ss). set (p4 := p3 ++ le_bytes sc). set (p5 := p4 ++ le64 ca). set (p6 := p5 ++ le64 cb).
  set (p7 := p6 ++ le64 ib). set (p8 := p7 ++ le_bytes ic). set (p9 := p8 ++ le_bytes ri).
  erewrite (read_u32_at _ 0 [] LFS_MAGIC); [|reflexivity|reflexivity|done]. cbn [negb Z.eqb].
  change (negb (LFS_MAGIC =? LFS_MAGIC)) with false. cbv iota.
  erewrite (read_u32_at _ _ p0 LFS_VERSION); [|reflexivity|reflexivity|done].
  change (negb (LFS_VERSION =? LFS_VERSION)) with false. cbv iota.
  erewrite (read_u64_at _ _ p1 bc); [|reflexivity|reflexivity|done].
  erewrite (read_u32_at _ _ p2 ss); [|reflexivity|reflexivity|done].
  erewrite (read_u32_at _ _ p3 sc); [|reflexivity|reflexivity|done].
  erewrite (read_u64_at _ _ p4 ca); [|reflexivity|reflexivity|done].
  erewrite (read_u64_at _ _ p5 cb); [|reflexivity|reflexivity|done].
  erewrite (read_u64_at _ _ p6 ib); [|reflexivity|reflexivity|done].
  erewrite (read_u32_at _ _ p7 ic); [|reflexivity|reflexivity|done].
  erewrite (read_u32_at _ _ p8 ri); [|reflexivity|reflexivity|done].
  erewrite (read_u32_at _ _ p9 ni); [|reflexivity|reflexivity|done].
  done.
Qed.

Lemma length_segment_header h : length (segment_header_to_block h) = Z.to_nat BLOCK_SIZE.
Proof.
  assert (segment_header_to_block h = (le_bytes (sh_magic h) ++ le64 (sh_sequence h) ++ le64 (timestamp h) ++ le_bytes (sh_block_count h))
    ++ replicate (Z.to_nat BLOCK_SIZE - 24) 0) as ->.
  { unfold segment_header_to_block, zero_block.
    change (replicate (Z.to_nat BLOCK_SIZE) 0, 0%nat) with ([] ++ replicate (Z.to_nat BLOCK_SIZE) 0, length (@nil Z)).
    assert (Z.to_nat BLOCK_SIZE = 4096%nat) as Hb by done.
    repeat (rewrite write_u32_zeros by lia || rewrite write_u64_zeros by lia). cbn [fst].
    rewrite <- !app_assoc. cbn [app]. by repeat f_equal. }
  rewrite length_app, length_replicate. done.
Qed.

Record inode_ok (i : DiskInode) : Prop := {
  io_type : is_u8 (inode_type i); io_link : 0 <= link_count i < 2 ^ 16; io_size : is_u64 (size i);
  io_direct : length (direct i) = DIRECT_BLOCK_COUNT /\ Forall is_u64 (direct i); io_indirect : is_u64 (indirect i);
}.

Definition inode_bytes (i : DiskInode) : list Z :=
  [inode_type i] ++ le16 (link_count i) ++ le64 (size i) ++ (direct i ≫= le64) ++ le64 (indirect i).

Lemma put_at buf off pre bs k :
  buf = pre ++ replicate k 0 -> off = length pre -> (length bs <= k)%nat ->
  put buf off bs = (pre ++ bs) ++ replicate (k - length bs) 0.
Proof. intros -> ->. apply put_zeros. Qed.

Lemma write_direct ptrs : forall pre k,
  (8 * length ptrs <= k)%nat -> foldl write_u64_le (pre ++ replicate k 0, length pre) ptrs =
    ((pre ++ (ptrs ≫= le64)) ++ replicate (k - 8 * length ptrs) 0, length (pre ++ (ptrs ≫= le64))).
Proof.
  induction ptrs as [|p ptrs IH]; intros pre k Hk; cbn [foldl length] in *.
  { cbn. by rewrite app_nil_r, Nat.sub_0_r. }
  rewrite write_u64_zeros by lia. rewrite IH by lia. rewrite bind_cons, <- !app_assoc.
  by replace (k - 8 - 8 * length ptrs)%nat with (k - 8 * S (length ptrs))%nat by lia.
Qed.

Lemma length_direct ptrs : length (ptrs ≫= le64) = (8 * length ptrs)%nat.
Proof. induction ptrs as [|p ptrs IH]; [done|]. rewrite bind_cons, length_app, IH. simpl. lia. Qed.

Lemma write_to_bytes i k :
  length (direct i) = DIRECT_BLOCK_COUNT -> (115 <= k)%nat -> write_to i (replicate k 0) 0 = inode_bytes i ++ replicate (k - 115) 0.
Proof.
  intros Hd Hk. unfold write_to.
  rewrite (put_at (replicate k 0) 0 [] [inode_type i] k eq_refl eq_refl) by (simpl; lia).
  erewrite (put_at _ (0 + 1) ([] ++ [inode_type i]) (le16 (link_count i))); [|reflexivity|reflexivity|simpl; lia].
  erewrite (put_at _ (0 + 3) (([] ++ [inode_type i]) ++ le16 (link_count i)) (le64 (size i))); [|reflexivity|reflexivity|simpl; lia].
  set (pre := (([] ++ [inode_type i]) ++ le16 (link_count i)) ++ le64 (size i)).
  change (0 + 11)%nat with (length pre). unfold DIRECT_BLOCK_COUNT in Hd.
  rewrite write_direct by (cbn [length le16 le64 le_bytes app]; lia). cbv iota beta.
  rewrite put_zeros by (cbn [length le16 le64 le_bytes app]; lia).
  unfold pre, inode_bytes. rewrite <- !app_assoc. rewrite !length_le64, Hd.
  replace (k - length [inode_type i] - length (le16 (link_count i)) - 8 - 8 * 12 - 8)%nat with (k - 115)%nat
    by (cbn [length le16]; lia). done.
Qed.

Lemma read_direct_bytes ptrs : forall pre rest off,
  length pre = off -> Forall is_u64 ptrs -> read_direct (length ptrs) (pre ++ (ptrs ≫= le64) ++ rest) off = ptrs.
Proof.
  induction ptrs as [|p ptrs IH]; intros pre rest off Hl Hp; cbn [length read_direct]; [done|].
  apply Forall_cons in Hp as [Hp Hps]. rewrite bind_cons, <- app_assoc. subst off.
  rewrite drop_app_length, (take_app_length' _ _ 8), from_le64 by done. f_equal.
  rewrite (app_assoc pre). apply IH; [|done]. by rewrite length_app.
Qed.

(** An inode is read back from its bytes, whatever follows them in the block. *)
Lemma inode_roundtrip i rest :
  inode_ok i -> (13 <= length rest)%nat -> read_from (inode_bytes i ++ rest) 0 = Ok i.
Proof.
  intros [Ht Hl Hs [Hn Hd] Hi] Hr. unfold read_from.
  assert (length (inode_bytes i) = 115%nat) as Hb.
  { unfold inode_bytes. rewrite !length_app, length_direct, Hn. done. }
  destruct (Nat.ltb_spec (length (inode_bytes i ++ rest)) (0 + DISK_INODE_SIZE)) as [H|_].
  { rewrite length_app, Hb in H. unfold DISK_INODE_SIZE in H. lia. }
  set (z := le64 (indirect i) ++ rest). set (p11 := [inode_type i] ++ le16 (link_count i) ++ le64 (size i)).
  assert (inode_bytes i ++ rest = p11 ++ (direct i ≫= le64) ++ z) as ->.
  { unfold inode_bytes, p11, z. by rewrite <- !app_assoc. }
  assert (read_direct DIRECT_BLOCK_COUNT (p11 ++ (direct i ≫= le64) ++ z) (0 + 11) = direct i) as ->.
  { rewrite <- Hn. by apply (read_direct_bytes (direct i) p11 z (0 + 11)). }
  assert (drop (0 + 11 + 8 * DIRECT_BLOCK_COUNT) (p11 ++ (direct i ≫= le64) ++ z) = z) as ->.
  { rewrite app_assoc. apply drop_app_length'. by rewrite length_app, length_direct, Hn. }
  unfold z. rewrite (take_app_length' _ _ 8), (from_le64 _ Hi) by done.
  change (take 8 (drop (0 + 3) (p11 ++ ?x))) with (le64 (size i)). rewrite (from_le64 _ Hs).
  change (take 2 (drop (0 + 1) (p11 ++ ?x))) with (le16 (link_count i)).
  assert (from_le (le16 (link_count i)) = link_count i) as -> by (cbn; Z.to_euclidean_division_equations; lia).
  by destruct i.
Qed.

Lemma inode_block_roundtrip i : inode_ok i -> read_from (write_to i zero_block 0) 0 = Ok i.
Proof.
  intros Hi. unfold zero_block. rewrite write_to_bytes; [|apply Hi|unfold BLOCK_SIZE; lia].
  apply inode_roundtrip; [done|]. rewrite length_replicate. unfold BLOCK_SIZE. lia.
Qed.
End lfs_disk.

(** ** The write head *)

Module lfs_writer.
Import block codec lfs_imap lfs_segment lfs_io lfs_disk.

Record LfsWriter := mk_writer { current_segment : Z; write_position : Z; sequence : Z }.

(** What the methods of the head are given. *)
Record log (D : Type) := mk_log { l_disk : disk D; l_imap : LfsImap; l_segs : LfsSegmentManager; l_writer : LfsWriter }.
Arguments mk_log {_} _ _ _ _.
Arguments l_disk {_} _.
Arguments l_imap {_} _.
Arguments l_segs {_} _.
Arguments l_writer {_} _.

Definition lg (D A : Type) : Type := log D -> outcome (result A LfsError * log D).

#[export] Instance lg_ret {D} : MRet (lg D) := fun A a s => Ret (Ok a, s).
#[export] Instance lg_bind {D} : MBind (lg D) := fun A B f m s =>
  match m s with
  | Ret (Ok a, s) => f a s
  | Ret (Err e, s) => Ret (Err e, s)
  | Panic => Panic
  end.

Lemma lg_bind_run {D A B} (m : lg D A) (f : A -> lg D B) s :
  (m ≫= f) s = match m s with Ret (Ok a, s) => f a s | Ret (Err e, s) => Ret (Err e, s) | Panic => Panic end.
Proof. done. Qed.

Section writer.
Context {D : Type} `{!BlockDevice D}.

Definition lthrow {A} (e : LfsError) : lg D A := fun s => Ret (Err e, s).
Definition get_log : lg D (log D) := fun s => Ret (Ok s, s).

(** A step on the disk alone. *)
Definition on_disk {A} (m : io D A) : lg D A := fun s =>
  match m (l_disk s) with
  | Ret (r, dk) => Ret (r, mk_log dk (l_imap s) (l_segs s) (l_writer s))
  | Panic => Panic
  end.

Definition set_imap (m : LfsImap) : lg D () := fun s => Ret (Ok (), mk_log (l_disk s) m (l_segs s) (l_writer s)).
Definition set_segs (g : LfsSegmentManager) : lg D () := fun s => Ret (Ok (), mk_log (l_disk s) (l_imap s) g (l_writer s)).
Definition set_writer (w : LfsWriter) : lg D () := fun s => Ret (Ok (), mk_log (l_disk s) (l_imap s) (l_segs s) w).

(** [LfsWriter::new] and [with_sequence]. *)
Definition with_sequence (segs : LfsSegmentManager) (seq : Z) : result (LfsWriter * LfsSegmentManager) LfsError :=
  match allocate segs with
  | None => Err NoFreeSegments
  | Some (seg, segs) => Ok (mk_writer seg 1 seq, segs)
  end.

Definition new (segs : LfsSegmentManager) : result (LfsWriter * LfsSegmentManager) LfsError := with_sequence segs 1.

Definition seal_segment_inner (reserve_ok : bool) : lg D () :=
  s ← get_log;
  match (if reserve_ok then allocate_for_compaction (l_segs s) else allocate (l_segs s)) with
  | None => lthrow NoFreeSegments
  | Some (new_seg, segs) =>
      _ ← set_segs segs;
      let w := l_writer s in
      let data_block_count := Z.max 0 (write_position w - 1) in
      let header := mk_segment_header SEGMENT_MAGIC (sequence w) 0 data_block_count in
      let header_block := segment_start_block segs (current_segment w) in
      r ← on_disk (attempt (cache_write header_block (segment_header_to_block header)));
      match r with
      | Err e => _ ← set_segs (free segs new_seg); lthrow e
      | Ok _ => set_writer (mk_writer new_seg 1 (wrap64 (sequence w + 1)))
      end
  end.

Definition seal_segment : lg D () := seal_segment_inner false.
Definition seal_segment_for_compaction : lg D () := seal_segment_inner true.

(** The head at a block that is free in its segment. *)
Definition make_room (reserve_ok : bool) : lg D () :=
  s ← get_log;
  if segment_size (l_segs s) <=? write_position (l_writer s) then seal_segment_inner reserve_ok else mret ().

(** Storing a block at the head. *)
Definition append_block (buf : list Z) : lg D Z :=
  s ← get_log;
  let w := l_writer s in
  let block_num := segment_start_block (l_segs s) (current_segment w) + write_position w in
  _ ← on_disk (cache_write block_num buf);
  _ ← set_writer (mk_writer (current_segment w) (wrap32 (write_position w + 1)) (sequence w));
  mret block_num.

Definition write_data_block_inner (data : list Z) (reserve_ok : bool) : lg D Z :=
  _ ← make_room reserve_ok;
  append_block data.

Definition write_data_block (data : list Z) : lg D Z := write_data_block_inner data false.
Definition write_data_block_for_compaction (data : list Z) : lg D Z := write_data_block_inner data true.

Definition write_inode_inner (inode_id : Z) (inode : DiskInode) (reserve_ok : bool) : lg D Z :=
  _ ← make_room reserve_ok;
  block_num ← append_block (write_to inode lfs_checkpoint.zero_block 0);
  s ← get_log;
  _ ← set_imap (insert (l_imap s) inode_id block_num);
  mret block_num.

Definition write_inode (inode_id : Z) (inode : DiskInode) : lg D Z := write_inode_inner inode_id inode false.
Definition write_inode_for_compaction (inode_id : Z) (inode : DiskInode) : lg D Z := write_inode_inner inode_id inode true.

(** The header [LfsWriter::write_checkpoint] builds, and its slot. *)
Definition checkpoint_slot (slots : Z * Z) (seq : Z) : Z := if seq mod 2 =? 0 then slots.1 else slots.2.

Definition checkpoint_header (slot_block seq next_inode last : Z) (imap_data segment_data : list Z) : lfs_checkpoint.CheckpointHeader :=
  let imap_blocks := blocks_needed (Z.of_nat (length imap_data)) in
  let seg_bitmap_blocks := blocks_needed (Z.of_nat (length segment_data)) in
  let imap_block := wrap64 (slot_block + 1) in
  lfs_checkpoint.mk_header lfs_checkpoint.CHECKPOINT_MAGIC seq imap_block (wrap32 imap_blocks) (wrap64 (imap_block + imap_blocks))
    (wrap32 seg_bitmap_blocks) next_inode last.

Definition write_checkpoint (w : LfsWriter) (m : LfsImap) (segs : LfsSegmentManager) (slots : Z * Z) (seq next_inode : Z) : io D () :=
  let imap_data := lfs_imap.serialize m in
  let segment_data := lfs_segment.serialize segs in
  let slot_block := checkpoint_slot slots seq in
  lfs_checkpoint.write_checkpoint slot_block (checkpoint_header slot_block seq next_inode (sequence w) imap_data segment_data)
    imap_data segment_data.
End writer.
End lfs_writer.
