(* ===== verification/LfsCompact.v ===== *)
(** * The segment cleaner ([crates/thumos/src/lfs_compact.rs])

    Compaction copies the live blocks of the segment with the fewest of them to
    the write head and frees the segment. *)

From S2P Require Import Prelude Machine Block Cache LfsMeta LfsCheckpoint LfsLog.
From Stdlib Require Import ZArith.
Open Scope Z_scope.

Module lfs_compact.
Import block lfs_imap lfs_segment lfs_io lfs_disk lfs_writer.

Definition COMPACT_THRESHOLD_PERCENT : Z := 10.

Definition needs_compaction (segs : LfsSegmentManager) : bool :=
  let total := segment_count segs in
  if total =? 0 then false else
  let threshold := wrap32 (total * COMPACT_THRESHOLD_PERCENT / 100) in
  let threshold := Z.max threshold 1 in
  let usable_free := Z.max 0 (free_count segs - 1) in
  usable_free <? threshold.

Record CompactCandidate := mk_candidate { segment_idx : Z; live_inodes : list (Z * Z); live_data_blocks : list Z; live_count : Z }.

Definition validate_block_num (block_num device_blocks : Z) : result () LfsError :=
  if (block_num =? 0) || (device_blocks <=? block_num) then Err Corrupt else Ok ().

(** The blocks an inode refers to. *)
Definition pointers (i : DiskInode) : list Z := filter (fun p => p <> 0) (direct i ++ [indirect i]).

Definition within (lo hi b : Z) : bool := (lo <=? b) && (b <? hi).

Section compact.
Context {D : Type} `{!BlockDevice D}.

(** Loading the inode an entry of the map points at. *)
Definition load_entry (device_blocks b : Z) : io D DiskInode :=
  _ ← lift (Ret (validate_block_num b device_blocks));
  buf ← cache_read b;
  lift (Ret (read_from buf 0)).

Fixpoint live_pointers (device_blocks : Z) (es : list (Z * Z)) : io D (list Z) :=
  match es with
  | [] => mret []
  | (_, b) :: es =>
      i ← load_entry device_blocks b;
      rest ← live_pointers device_blocks es;
      mret (pointers i ++ rest)
  end.

(** The live blocks of one segment. *)
Definition candidate (segs : LfsSegmentManager) (es : list (Z * Z)) (ptrs : list Z) (seg_idx : Z) : CompactCandidate :=
  let lo := segment_start_block segs seg_idx in
  let hi := lo + segment_size segs in
  let inodes := filter (fun e : Z * Z => within lo hi e.2 = true) es in
  let data := filter (fun p => within lo hi p = true) ptrs in
  mk_candidate seg_idx inodes data (wrap32 (Z.of_nat (length inodes + length data))).

(** The scan over the segments for the one with the fewest live blocks. *)
Fixpoint best_candidate (segs : LfsSegmentManager) (w : LfsWriter) (es : list (Z * Z)) (ptrs : list Z) (idx : list Z)
    (best : option CompactCandidate) : option CompactCandidate :=
  match idx with
  | [] => best
  | i :: idx =>
      if is_free segs i || (i =? current_segment w) then best_candidate segs w es ptrs idx best else
      let c := candidate segs es ptrs i in
      let better := match best with None => true | Some b => live_count c <? live_count b end in
      best_candidate segs w es ptrs idx (if better then Some c else best)
  end.

Definition pick_candidate (device_blocks : Z) : lg D CompactCandidate :=
  s ← get_log;
  let es := iter (l_imap s) in
  ptrs ← on_disk (live_pointers device_blocks es);
  match best_candidate (l_segs s) (l_writer s) es ptrs (seqZ 1 (segment_count (l_segs s) - 1)) None with
  | Some c => mret c
  | None => lthrow NoCompactionCandidate
  end.

Definition redirect (old_block new_block p : Z) : Z := if p =? old_block then new_block else p.

Fixpoint update_references (old_block new_block device_blocks : Z) (es : list (Z * Z)) : lg D () :=
  match es with
  | [] => mret ()
  | (id, b) :: es =>
      i ← on_disk (load_entry device_blocks b);
      let modified := existsb (fun p => p =? old_block) (direct i ++ [indirect i]) in
      let i' := mk_inode (inode_type i) (link_count i) (size i) (redirect old_block new_block <$> direct i)
                  (redirect old_block new_block (indirect i)) in
      _ ← (if modified then _ ← write_inode_for_compaction id i'; mret () else mret ());
      update_references old_block new_block device_blocks es
  end.

Definition update_data_block_references (old_block new_block device_blocks : Z) : lg D () :=
  s ← get_log;
  update_references old_block new_block device_blocks (iter (l_imap s)).

Fixpoint has_live (device_blocks lo hi : Z) (es : list (Z * Z)) : io D bool :=
  match es with
  | [] => mret false
  | (_, b) :: es =>
      if within lo hi b then mret true else
      i ← load_entry device_blocks b;
      if existsb (within lo hi) (pointers i) then mret true else has_live device_blocks lo hi es
  end.

Definition segment_has_live_blocks (lo hi device_blocks : Z) : lg D bool :=
  s ← get_log; on_disk (has_live device_blocks lo hi (iter (l_imap s))).

Fixpoint copy_inodes (es : list (Z * Z)) : lg D () :=
  match es with
  | [] => mret ()
  | (id, old_block) :: es =>
      buf ← on_disk (cache_read old_block);
      i ← on_disk (lift (Ret (read_from buf 0)));
      _ ← write_inode_for_compaction id i;
      copy_inodes es
  end.

Fixpoint copy_data (device_blocks : Z) (ptrs : list Z) : lg D () :=
  match ptrs with
  | [] => mret ()
  | old_block :: ptrs =>
      buf ← on_disk (cache_read old_block);
      new_block ← write_data_block_for_compaction buf;
      _ ← update_data_block_references old_block new_block device_blocks;
      copy_data device_blocks ptrs
  end.

Definition compact_one_segment (device_blocks : Z) : lg D Z :=
  c ← pick_candidate device_blocks;
  s ← get_log;
  let seg_start := segment_start_block (l_segs s) (segment_idx c) in
  let seg_end := seg_start + segment_size (l_segs s) in
  _ ← copy_inodes (live_inodes c);
  _ ← copy_data device_blocks (live_data_blocks c);
  live ← segment_has_live_blocks seg_start seg_end device_blocks;
  if (live : bool) then lthrow Corrupt else
  s ← get_log;
  _ ← set_segs (free (l_segs s) (segment_idx c));
  mret (Z.of_nat (length (live_inodes c) + length (live_data_blocks c))).
End compact.
End lfs_compact.
