(* ===== verification/Lfs.v ===== *)
(** * The log-structured file system ([crates/thumos/src/lfs.rs])

    Formatting, mounting, and the operations of the trait [Filesystem]. A read
    changes the cache, so every operation is a computation on the whole file
    system: [fsm]. A string is its bytes. *)

From S2P Require Import Prelude Machine Fd Vfs Block Cache LfsMeta LfsCheckpoint LfsLog LfsCompact.
From Stdlib Require Import ZArith.
Open Scope Z_scope.

Module lfs.
Import vfs codec lfs_io lfs_disk.
Abbreviation LfsError := lfs_imap.LfsError.
Abbreviation LfsImap := lfs_imap.LfsImap.
Abbreviation LfsSegmentManager := lfs_segment.LfsSegmentManager.
Abbreviation LfsWriter := lfs_writer.LfsWriter.
Abbreviation VfsError := fd.VfsError.
Import block.

Definition DEFAULT_SEGMENT_SIZE : Z := 256.
Definition SUPERBLOCK_BLOCK : Z := 0.
Definition CHECKPOINT_SLOT_A : Z := 1.
Definition CHECKPOINT_SLOT_B : Z := CHECKPOINT_SLOT_A + lfs_checkpoint.CHECKPOINT_SLOT_BLOCKS.
Definition IMAP_REGION_START : Z := 3.
Definition DEFAULT_IMAP_BLOCKS : Z := 4.
Definition DIR_ENTRY_HEADER_SIZE : Z := 8.

Record DiskDirEntry := mk_dirent { inode_id : Z; name_len : Z; record_len : Z; name : list Z }.

Record Lfs (D : Type) := mk_lfs {
  fdisk : disk D; imap : LfsImap; segments : LfsSegmentManager; superblock : LfsSuperblock; next_sequence : Z;
  writer : option LfsWriter; next_inode : Z; checkpoint_sequence : Z;
}.
Arguments mk_lfs {_} _ _ _ _ _ _ _ _.
Arguments fdisk {_} _.
Arguments imap {_} _.
Arguments segments {_} _.
Arguments superblock {_} _.
Arguments next_sequence {_} _.
Arguments writer {_} _.
Arguments next_inode {_} _.
Arguments checkpoint_sequence {_} _.

Definition fsm (D A : Type) : Type := Lfs D -> outcome (result A VfsError * Lfs D).

#[export] Instance fsm_ret {D} : MRet (fsm D) := fun A a s => Ret (Ok a, s).
#[export] Instance fsm_bind {D} : MBind (fsm D) := fun A B f m s =>
  match m s with
  | Ret (Ok a, s) => f a s
  | Ret (Err e, s) => Ret (Err e, s)
  | Panic => Panic
  end.

Lemma fsm_bind_run {D A B} (m : fsm D A) (f : A -> fsm D B) s :
  (m ≫= f) s = match m s with Ret (Ok a, s) => f a s | Ret (Err e, s) => Ret (Err e, s) | Panic => Panic end.
Proof. done. Qed.

Section lfs.
Context {D : Type} `{!BlockDevice D}.

Definition fail {A} (e : VfsError) : fsm D A := fun s => Ret (Err e, s).
Definition get_fs : fsm D (Lfs D) := fun s => Ret (Ok s, s).
Definition pure {A} (r : result A VfsError) : fsm D A := fun s => Ret (r, s).

Definition with_imap (m : LfsImap) : fsm D () := fun s =>
  Ret (Ok (), mk_lfs (fdisk s) m (segments s) (superblock s) (next_sequence s) (writer s) (next_inode s) (checkpoint_sequence s)).

(** A step on the disk alone; its errors become [e]. *)
Definition disk_op {A} (m : io D A) (e : LfsError -> VfsError) : fsm D A := fun s =>
  match m (fdisk s) with
  | Ret (r, dk) =>
      Ret (match r with Ok a => Ok a | Err x => Err (e x) end,
           mk_lfs dk (imap s) (segments s) (superblock s) (next_sequence s) (writer s) (next_inode s) (checkpoint_sequence s))
  | Panic => Panic
  end.

(** A step of the write head, which [self.writer.as_mut()] must yield. *)
Definition log_op {A} (m : lfs_writer.lg D A) (e : LfsError -> VfsError) : fsm D A := fun s =>
  match writer s with
  | None => Ret (Err fd.IoError, s)
  | Some w =>
      match m (lfs_writer.mk_log (fdisk s) (imap s) (segments s) w) with
      | Ret (r, l) =>
          Ret (match r with Ok a => Ok a | Err x => Err (e x) end,
               mk_lfs (lfs_writer.l_disk l) (lfs_writer.l_imap l) (lfs_writer.l_segs l) (superblock s) (next_sequence s)
                 (Some (lfs_writer.l_writer l)) (next_inode s) (checkpoint_sequence s))
      | Panic => Panic
      end
  end.

Definition io_error (e : LfsError) : VfsError := fd.IoError.

(** ** Formatting and mounting *)

Definition format_io : io D () :=
  total_sectors ← dev_sectors;
  let total_blocks := total_sectors / SECTORS_PER_BLOCK in
  if total_blocks <? DEFAULT_SEGMENT_SIZE * 2 then throw lfs_imap.InvalidSuperblock else
  let segment_count := wrap32 (total_blocks / DEFAULT_SEGMENT_SIZE) in
  let sb := mk_superblock LFS_MAGIC LFS_VERSION total_blocks DEFAULT_SEGMENT_SIZE segment_count CHECKPOINT_SLOT_A CHECKPOINT_SLOT_B
    IMAP_REGION_START DEFAULT_IMAP_BLOCKS 0 1 in
  _ ← cache_write SUPERBLOCK_BLOCK (superblock_to_block sb);
  let seg1_start := DEFAULT_SEGMENT_SIZE in
  let root_inode_block := seg1_start + 1 in
  _ ← cache_write seg1_start (segment_header_to_block (mk_segment_header SEGMENT_MAGIC 1 0 1));
  let root := mk_inode INODE_TYPE_DIR 1 0 (replicate DIRECT_BLOCK_COUNT 0) 0 in
  _ ← cache_write root_inode_block (write_to root lfs_checkpoint.zero_block 0);
  let m := lfs_imap.insert lfs_imap.new 0 root_inode_block in
  let segs := lfs_segment.mark_used (lfs_segment.new segment_count DEFAULT_SEGMENT_SIZE) 1 in
  let checkpoint := lfs_checkpoint.mk_header lfs_checkpoint.CHECKPOINT_MAGIC 1 IMAP_REGION_START DEFAULT_IMAP_BLOCKS
    (IMAP_REGION_START + DEFAULT_IMAP_BLOCKS) 1 1 1 in
  _ ← lfs_checkpoint.write_checkpoint CHECKPOINT_SLOT_A checkpoint (lfs_imap.serialize m) (lfs_segment.serialize segs);
  cache_flush.

Definition format (d : D) : outcome (result () LfsError * D) :=
  match format_io (cache.new, d) with Ret (r, (_, d)) => Ret (r, d) | Panic => Panic end.

Definition mount_io : io D (LfsImap * LfsSegmentManager * LfsSuperblock * Z * Z * Z) :=
  sb_buf ← cache_read SUPERBLOCK_BLOCK;
  sb ← lift (Ret (superblock_from_block sb_buf));
  count ← dev_sectors;
  if count / SECTORS_PER_BLOCK <? block_count sb then throw lfs_imap.Corrupt else
  '(checkpoint, _) ← lfs_checkpoint.pick_latest (checkpoint_block_a sb) (checkpoint_block_b sb);
  m ← load_from_disk (lfs_checkpoint.imap_block checkpoint) (lfs_checkpoint.imap_block_count checkpoint) (sb_segment_size sb)
        (block_count sb);
  let bits_per_block := BLOCK_SIZE * 8 in
  let full_bitmap_blocks := sb_segment_count sb / bits_per_block in
  let partial_bitmap_block := if sb_segment_count sb mod bits_per_block =? 0 then 0 else 1 in
  let max_bitmap_blocks := full_bitmap_blocks + partial_bitmap_block + 1 in
  if max_bitmap_blocks <? lfs_checkpoint.segment_bitmap_count checkpoint then throw lfs_imap.Corrupt else
  seg_data ← read_run (lfs_checkpoint.segment_bitmap_block checkpoint) (seqZ 0 (lfs_checkpoint.segment_bitmap_count checkpoint));
  segs ← lift (Ret (lfs_segment.deserialize seg_data (sb_segment_count sb) (sb_segment_size sb) (block_count sb)));
  match checked_add (lfs_checkpoint.last_segment_sequence checkpoint) 1, checked_add (lfs_checkpoint.sequence checkpoint) 1 with
  | Some next_sequence, Some checkpoint_sequence =>
      mret (m, segs, sb, next_sequence, lfs_checkpoint.next_inode checkpoint, checkpoint_sequence)
  | _, _ => throw lfs_imap.Corrupt
  end.

Definition mount (d : D) : outcome (result (Lfs D) LfsError) :=
  match mount_io (cache.new, d) with
  | Ret (Ok (m, segs, sb, next_seq, next_ino, ckpt_seq), dk) => Ret (Ok (mk_lfs dk m segs sb next_seq None next_ino ckpt_seq))
  | Ret (Err e, _) => Ret (Err e)
  | Panic => Panic
  end.

(** ** Reading *)

Definition validate_block_num (sb : LfsSuperblock) (block_num : Z) : result () VfsError :=
  if (block_num <? sb_segment_size sb) || (block_count sb <=? block_num) then Err fd.IoError else Ok ().

(** A block that passes the extent check. *)
Definition read_valid (block_num : Z) : fsm D (list Z) :=
  s ← get_fs;
  _ ← pure (validate_block_num (superblock s) block_num);
  disk_op (cache_read block_num) io_error.

Definition as_vfs {A} (r : result A LfsError) : result A VfsError := match r with Ok a => Ok a | Err _ => Err fd.IoError end.

Definition load_inode (id : Z) : fsm D DiskInode :=
  s ← get_fs;
  block_num ← pure (ok_or (lfs_imap.get (imap s) id) fd.NotFound);
  buf ← read_valid block_num;
  pure (as_vfs (read_from buf 0)).

Definition inode_to_stat (id : Z) (i : DiskInode) : result InodeStat VfsError :=
  let mk t := Ok (mk_stat id t (size i) (link_count i) (Z.of_nat (count_if (fun p => negb (p =? 0)) (direct i)))) in
  if inode_type i =? INODE_TYPE_FILE then mk RegularFile
  else if inode_type i =? INODE_TYPE_DIR then mk Directory
  else Err fd.IoError.

(** The loop over the records of a directory block. Each round that goes on
    advances by a record of at least one byte. *)
Fixpoint parse_from (fuel : nat) (buf : list Z) (offset : Z) : result (list DiskDirEntry) VfsError :=
  match fuel with
  | O => Ok []
  | S fuel =>
      if BLOCK_SIZE <? offset + DIR_ENTRY_HEADER_SIZE then Ok [] else
      let field n k := from_le (take k (drop (Z.to_nat (offset + n)) buf)) in
      let id := field 0 4%nat in
      let nlen := field 4 2%nat in
      let rlen := field 6 2%nat in
      if rlen =? 0 then Ok [] else
      let next e := match parse_from fuel buf (offset + rlen) with Ok es => Ok (e ++ es) | Err x => Err x end in
      if negb (id =? 0) && (0 <? nlen) then
        if rlen <? DIR_ENTRY_HEADER_SIZE then Err fd.IoError else
        if rlen - DIR_ENTRY_HEADER_SIZE <? nlen then Err fd.IoError else
        let name_start := offset + DIR_ENTRY_HEADER_SIZE in
        if BLOCK_SIZE <? name_start + nlen then Err fd.IoError else
        next [mk_dirent id nlen rlen (utf8.from_utf8_lossy (take (Z.to_nat nlen) (drop (Z.to_nat name_start) buf)))]
      else next []
  end.

Definition parse_dir_entries (buf : list Z) : result (list DiskDirEntry) VfsError := parse_from (Z.to_nat BLOCK_SIZE) buf 0.

Definition div_ceil (a b : Z) : Z := (a + b - 1) / b.

(** [usize::try_from] of an on-disk size, in blocks. *)
Definition blocks_of_size (sz : Z) : result Z VfsError :=
  if sz =? 0 then Ok 0 else
  if 2 ^ 32 <=? sz then Err fd.IoError else
  Ok (Z.min (div_ceil sz BLOCK_SIZE) (Z.of_nat DIRECT_BLOCK_COUNT)).

Fixpoint dir_blocks (ptrs : list Z) : fsm D (list DiskDirEntry) :=
  match ptrs with
  | [] => mret []
  | p :: ptrs =>
      if p =? 0 then dir_blocks ptrs else
      buf ← read_valid p;
      es ← pure (parse_dir_entries buf);
      rest ← dir_blocks ptrs;
      mret (es ++ rest)
  end.

Definition read_dir_entries (i : DiskInode) : fsm D (list DiskDirEntry) :=
  if negb (inode_type i =? INODE_TYPE_DIR) then fail fd.NotADirectory else
  n ← pure (blocks_of_size (size i));
  dir_blocks (take (Z.to_nat n) (direct i)).

Definition root_inode (s : Lfs D) : Z := lfs_disk.root_inode (superblock s).

Definition stat (id : Z) : fsm D InodeStat := i ← load_inode id; pure (inode_to_stat id i).

Definition find_name (n : list Z) (es : list DiskDirEntry) : option DiskDirEntry :=
  snd <$> list_find (fun e => name e = n) es.

Definition lookup (dir : Z) (n : list Z) : fsm D Z :=
  i ← load_inode dir;
  es ← read_dir_entries i;
  pure (ok_or (inode_id <$> find_name n es) fd.NotFound).

(** The copy loop of [read]: what is appended to the bytes read so far. Each
    round ends at a block boundary or at the end, so 13 rounds reach the last
    direct block. *)
Fixpoint read_loop (fuel : nat) (i : DiskInode) (offset to_read bytes_read : Z) : fsm D (list Z) :=
  match fuel with
  | O => mret []
  | S fuel =>
      if to_read <=? bytes_read then mret [] else
      let file_offset := offset + bytes_read in
      let block_index := file_offset / BLOCK_SIZE in
      let block_offset := file_offset mod BLOCK_SIZE in
      if Z.of_nat DIRECT_BLOCK_COUNT <=? block_index then mret [] else
      let block_num := direct i !!! Z.to_nat block_index in
      let chunk := Z.min (BLOCK_SIZE - block_offset) (to_read - bytes_read) in
      bytes ← (if block_num =? 0 then mret (replicate (Z.to_nat chunk) 0) else
               buf ← read_valid block_num; mret (take (Z.to_nat chunk) (drop (Z.to_nat block_offset) buf)));
      rest ← read_loop fuel i offset to_read (bytes_read + chunk);
      mret (bytes ++ rest)
  end.

Definition read (id offset len : Z) : fsm D (list Z) :=
  i ← load_inode id;
  if inode_type i =? INODE_TYPE_DIR then fail fd.IsADirectory else
  if size i <=? offset then mret [] else
  if LFS_MAX_FILE_SIZE <=? offset then fail fd.IoError else
  let available := size i - offset in
  if 2 ^ 32 <=? available then fail fd.IoError else
  read_loop (S DIRECT_BLOCK_COUNT) i offset (Z.min len available) 0.

Fixpoint dir_entries (es : list DiskDirEntry) : fsm D (list DirEntry) :=
  match es with
  | [] => mret []
  | e :: es =>
      child ← load_inode (inode_id e);
      t ← (if inode_type child =? INODE_TYPE_DIR then mret Directory
           else if inode_type child =? INODE_TYPE_FILE then mret RegularFile else fail fd.IoError);
      rest ← dir_entries es;
      mret (vfs.mk_dirent (name e) (inode_id e) t :: rest)
  end.

Definition readdir (dir : Z) : fsm D (list DirEntry) :=
  i ← load_inode dir;
  es ← read_dir_entries i;
  dir_entries es.
(** ** Writing *)

Definition map_write_data_block_err (e : LfsError) : VfsError :=
  match e with lfs_imap.NoFreeSegments => fd.NoSpace | _ => fd.IoError end.

Definition ensure_writer : fsm D () := fun s =>
  match writer s with
  | Some _ => Ret (Ok (), s)
  | None =>
      match lfs_writer.with_sequence (segments s) (next_sequence s) with
      | Err _ => Ret (Err fd.NoSpace, s)
      | Ok (w, segs) =>
          Ret (Ok (), mk_lfs (fdisk s) (imap s) segs (superblock s) (next_sequence s) (Some w) (next_inode s) (checkpoint_sequence s))
      end
  end.

Definition maybe_compact : fsm D () := fun s =>
  if negb (lfs_compact.needs_compaction (segments s)) then Ret (Ok (), s) else
  match writer s with
  | None => Ret (Ok (), s)
  | Some _ => (_ ← log_op (lfs_compact.compact_one_segment (block_count (superblock s))) io_error; mret ()) s
  end.

Definition aligned_len (n : nat) : Z := Z.land (DIR_ENTRY_HEADER_SIZE + Z.of_nat n + 3) (not32 3).

(** The loop that lays the records out. *)
Fixpoint dir_records (es : list DiskDirEntry) (buf : list Z) (offset : Z) : result (list Z) VfsError :=
  match es with
  | [] => Ok buf
  | e :: es =>
      let n := Z.of_nat (length (name e)) in
      if 2 ^ 16 <=? n then Err fd.InvalidPath else
      let rlen := aligned_len (length (name e)) in
      if (2 ^ 16 <=? rlen) || (BLOCK_SIZE <? rlen) then Err fd.InvalidPath else
      if BLOCK_SIZE <? offset + rlen then Err fd.NoSpace else
      let buf := put buf (Z.to_nat offset) (le_bytes (inode_id e)) in
      let buf := put buf (Z.to_nat (offset + 4)) (le16 n) in
      let buf := put buf (Z.to_nat (offset + 6)) (le16 rlen) in
      let buf := put buf (Z.to_nat (offset + DIR_ENTRY_HEADER_SIZE)) (name e) in
      dir_records es buf (offset + rlen)
  end.

Definition write_dir_block (es : list DiskDirEntry) : fsm D Z :=
  buf ← pure (dir_records es lfs_checkpoint.zero_block 0);
  log_op (lfs_writer.write_data_block buf) map_write_data_block_err.

Definition alloc_inode_id : fsm D Z := fun s =>
  Ret (Ok (next_inode s), mk_lfs (fdisk s) (imap s) (segments s) (superblock s) (next_sequence s) (writer s)
    (wrap32 (next_inode s + 1)) (checkpoint_sequence s)).

(** [m], and [undo] when it fails. *)
Definition on_error {A} (m : fsm D A) (undo : Lfs D -> Lfs D) : fsm D A := fun s =>
  match m s with Ret (Err e, s) => Ret (Err e, undo s) | r => r end.

Definition set_direct (i : DiskInode) (k : nat) (b : Z) : DiskInode :=
  mk_inode (inode_type i) (link_count i) (size i) (<[k := b]> (direct i)) (indirect i).
Definition set_size (i : DiskInode) (sz : Z) : DiskInode := mk_inode (inode_type i) (link_count i) sz (direct i) (indirect i).

(** The block loop of [write]; the inode comes back with its new pointers. *)
Fixpoint write_loop (fuel : nat) (i : DiskInode) (offset : Z) (buf : list Z) (bytes_written : Z) : fsm D DiskInode :=
  match fuel with
  | O => mret i
  | S fuel =>
      let len := Z.of_nat (length buf) in
      if len <=? bytes_written then mret i else
      let file_offset := offset + bytes_written in
      let block_index := file_offset / BLOCK_SIZE in
      let block_offset := file_offset mod BLOCK_SIZE in
      if Z.of_nat DIRECT_BLOCK_COUNT <=? block_index then fail fd.IoError else
      let existing := direct i !!! Z.to_nat block_index in
      old ← (if (negb (block_offset =? 0) || (len <? bytes_written + BLOCK_SIZE)) && negb (existing =? 0)
             then read_valid existing else mret lfs_checkpoint.zero_block);
      let chunk := Z.min (BLOCK_SIZE - block_offset) (len - bytes_written) in
      let data := put old (Z.to_nat block_offset) (take (Z.to_nat chunk) (drop (Z.to_nat bytes_written) buf)) in
      new_block ← log_op (lfs_writer.write_data_block data) map_write_data_block_err;
      write_loop fuel (set_direct i (Z.to_nat block_index) new_block) offset buf (bytes_written + chunk)
  end.

Definition write (id offset : Z) (buf : list Z) : fsm D Z :=
  i ← load_inode id;
  if inode_type i =? INODE_TYPE_DIR then fail fd.IsADirectory else
  if (length buf =? 0)%nat then mret 0 else
  match checked_add offset (Z.of_nat (length buf)) with
  | None => fail fd.NoSpace
  | Some end_ =>
      if LFS_MAX_FILE_SIZE <? end_ then fail fd.NoSpace else
      _ ← ensure_writer;
      i ← write_loop (S DIRECT_BLOCK_COUNT) i offset buf 0;
      let bytes_written := Z.of_nat (length buf) in
      let new_end := offset + bytes_written in
      let i := if size i <? new_end then set_size i new_end else i in
      _ ← log_op (lfs_writer.write_inode id i) map_write_data_block_err;
      _ ← maybe_compact;
      mret bytes_written
  end.

Definition forget_inode (id : Z) (s : Lfs D) : Lfs D :=
  mk_lfs (fdisk s) (lfs_imap.remove (imap s) id) (segments s) (superblock s) (next_sequence s) (writer s) (next_inode s)
    (checkpoint_sequence s).

Definition total_len (es : list DiskDirEntry) : Z := foldr (fun e acc => record_len e + acc) 0 es.

Definition create (dir : Z) (n : list Z) (t : InodeType) : fsm D Z :=
  if (255 <? length n)%nat then fail fd.InvalidPath else
  parent ← load_inode dir;
  if negb (inode_type parent =? INODE_TYPE_DIR) then fail fd.NotADirectory else
  existing ← read_dir_entries parent;
  if existsb (fun e => bool_decide (name e = n)) existing then fail fd.AlreadyExists else
  _ ← ensure_writer;
  new_id ← alloc_inode_id;
  let disk_type := match t with Directory => INODE_TYPE_DIR | _ => INODE_TYPE_FILE end in
  _ ← log_op (lfs_writer.write_inode new_id (mk_inode disk_type 1 0 (replicate DIRECT_BLOCK_COUNT 0) 0)) map_write_data_block_err;
  let entries := existing ++ [mk_dirent new_id (Z.of_nat (length n)) (aligned_len (length n)) n] in
  dir_block ← on_error (write_dir_block entries) (forget_inode new_id);
  let parent := set_size (set_direct parent 0 dir_block) (total_len entries) in
  _ ← on_error (log_op (lfs_writer.write_inode dir parent) map_write_data_block_err) (forget_inode new_id);
  _ ← maybe_compact;
  mret new_id.

Definition unlink (dir : Z) (n : list Z) : fsm D () :=
  parent ← load_inode dir;
  if negb (inode_type parent =? INODE_TYPE_DIR) then fail fd.NotADirectory else
  entries ← read_dir_entries parent;
  target_id ← pure (ok_or (inode_id <$> find_name n entries) fd.NotFound);
  let remaining := filter (fun e => name e <> n) entries in
  _ ← ensure_writer;
  target ← load_inode target_id;
  if (inode_type target =? INODE_TYPE_DIR) && negb (size target =? 0) then fail fd.NotEmpty else
  let links := Z.max 0 (link_count target - 1) in
  parent ← (if bool_decide (remaining = []) then mret (set_size (set_direct parent 0 0) 0) else
            dir_block ← write_dir_block remaining;
            mret (set_size (set_direct parent 0 dir_block) (total_len remaining)));
  _ ← log_op (lfs_writer.write_inode dir parent) map_write_data_block_err;
  _ ← (if links =? 0 then s ← get_fs; with_imap (lfs_imap.remove (imap s) target_id) else
       let target := mk_inode (inode_type target) links (size target) (direct target) (indirect target) in
       _ ← log_op (lfs_writer.write_inode target_id target) map_write_data_block_err; mret ());
  maybe_compact.

(** The loop of [truncate] that backs a grown range with zeroed blocks. *)
Fixpoint grow_loop (i : DiskInode) (idx : list nat) : fsm D DiskInode :=
  match idx with
  | [] => mret i
  | k :: idx =>
      if direct i !!! k =? 0 then
        b ← log_op (lfs_writer.write_data_block lfs_checkpoint.zero_block) map_write_data_block_err;
        grow_loop (set_direct i k b) idx
      else grow_loop i idx
  end.

Definition truncate (id sz : Z) : fsm D () :=
  i ← load_inode id;
  if inode_type i =? INODE_TYPE_DIR then fail fd.IsADirectory else
  if LFS_MAX_FILE_SIZE <? sz then fail fd.NoSpace else
  let old_size := size i in
  let i := set_size i sz in
  i ← (if sz <? old_size then
         n ← pure (blocks_of_size sz);
         mret (mk_inode (inode_type i) (link_count i) (size i)
           (take (Z.to_nat n) (direct i) ++ replicate (DIRECT_BLOCK_COUNT - Z.to_nat n) 0) (indirect i))
       else if old_size <? sz then
         _ ← ensure_writer;
         old_blocks ← pure (blocks_of_size old_size);
         new_blocks ← pure (blocks_of_size sz);
         grow_loop i (seq (Z.to_nat old_blocks) (Z.to_nat new_blocks - Z.to_nat old_blocks))
       else mret i);
  _ ← ensure_writer;
  _ ← log_op (lfs_writer.write_inode id i) map_write_data_block_err;
  mret ().

Definition sync : fsm D () := fun s =>
  (_ ← disk_op cache_flush io_error;
   match writer s with
   | None => mret ()
   | Some w =>
       _ ← disk_op (lfs_writer.write_checkpoint w (imap s) (segments s)
                      (checkpoint_block_a (superblock s), checkpoint_block_b (superblock s)) (checkpoint_sequence s) (next_inode s)) io_error;
       _ ← (fun s => Ret (Ok (), mk_lfs (fdisk s) (imap s) (segments s) (superblock s) (next_sequence s) (writer s) (next_inode s)
              (wrap64 (checkpoint_sequence s + 1))) : outcome (result () VfsError * Lfs D));
       disk_op cache_flush io_error
   end) s.
End lfs.
End lfs.
