(* ===== verification/LfsRecovery.v ===== *)
(** * Crash recovery of the log-structured file system

    Mounting a disk finds the state of its latest committed checkpoint, and a
    checkpoint is written so that power can fail, or transfers can fail, at any
    sector of it: the disk then mounts with the state before it or the state it
    wrote. A power failure is a device whose transfers fail from some point on;
    the disk is then read again by a device that holds the same sectors. *)

From S2P Require Import Prelude Machine Fd Vfs Block Cache LfsMeta LfsCheckpoint LfsLog LfsCompact Lfs.
From Stdlib Require Import ZArith.
Open Scope Z_scope.

Module lfs_recovery.
Import block cache lfs_io lfs_disk lfs_checkpoint lfs.
Abbreviation get_imap := lfs_imap.get.

Section recovery.
Context {D : Type} `{!BlockDevice D, !BlockDeviceLaws D}.

(** ** Reads that succeed *)

Lemma cache_read_steady c d b :
  pristine c d -> steady d -> 0 <= b -> (b + 1) * SECTORS_PER_BLOCK <= sector_count d ->
  exists c', cache_read b (c, d) = Ret (Ok (content d b), (c', d)) /\ pristine c' d.
Proof.
  intros Hp Hs Hb Hr. pose proof (count_range d (co_dev _ _ (proj1 Hp))) as Hc.
  destruct (read_pristine c d b Hp Hs) as (c' & E & Hp'); [unfold is_block; spb|lia|].
  exists c'. split; [|done]. unfold cache_read. by rewrite E.
Qed.

Lemma read_run_steady start idx : forall c d,
  pristine c d -> steady d -> (forall i, i ∈ idx -> 0 <= start + i /\ (start + i + 1) * SECTORS_PER_BLOCK <= sector_count d) ->
  exists c', read_run start idx (c, d) = Ret (Ok (mjoin ((fun i => content d (start + i)) <$> idx)), (c', d)) /\ pristine c' d.
Proof.
  induction idx as [|i idx IH]; intros c d Hp Hs Hr; [by exists c|]. cbn [read_run]. rewrite io_bind_run.
  destruct (Hr i ltac:(left)) as [H0 H1]. pose proof (count_range d (co_dev _ _ (proj1 Hp))) as Hc.
  unfold wrap64. rewrite Z.mod_small by spb.
  destruct (cache_read_steady c d (start + i) Hp Hs H0 H1) as (c1 & E1 & Hp1). rewrite E1, io_bind_run.
  destruct (IH c1 d Hp1 Hs) as (c2 & E2 & Hp2); [intros k Hk; apply Hr; by right|]. rewrite E2. by exists c2.
Qed.

(** What a slot holds, as far as mounting is concerned. *)
Definition header_at (d : D) (slot : Z) : result CheckpointHeader lfs_imap.LfsError :=
  match from_block (content d slot) with
  | Ok h => match validate_header_geometry h (sector_count d / SECTORS_PER_BLOCK) with Ok _ => Ok h | Err e => Err e end
  | Err e => Err e
  end.

Lemma header_at_corrupt d slot e : header_at d slot = Err e -> e = lfs_imap.Corrupt.
Proof. unfold header_at, from_block, validate_header_geometry. intros H. repeat (case_match; simplify_eq; try done). Qed.

Lemma read_checkpoint_steady c d slot :
  pristine c d -> steady d -> 0 <= slot -> (slot + 1) * SECTORS_PER_BLOCK <= sector_count d ->
  exists c', read_checkpoint slot (c, d) = Ret (header_at d slot, (c', d)) /\ pristine c' d.
Proof.
  intros Hp Hs H0 H1. destruct (cache_read_steady c d slot Hp Hs H0 H1) as (c' & E & Hp'). exists c'. split; [|done].
  unfold read_checkpoint, header_at. rewrite io_bind_run, E, io_bind_run. unfold lift.
  destruct (from_block (content d slot)) as [h|]; [|done]. rewrite io_bind_run. unfold dev_sectors. cbv beta iota.
  rewrite io_bind_run. by destruct (validate_header_geometry _ _) as [[]|].
Qed.

Definition latest (d : D) (a b : Z) : result (CheckpointHeader * Z) lfs_imap.LfsError :=
  match header_at d a, header_at d b with
  | Ok ha, Ok hb => if sequence hb <=? sequence ha then Ok (ha, a) else Ok (hb, b)
  | Ok ha, Err _ => Ok (ha, a)
  | Err _, Ok hb => Ok (hb, b)
  | Err _, Err _ => Err lfs_imap.Corrupt
  end.

Lemma pick_latest_steady c d a b :
  pristine c d -> steady d -> 0 <= a -> 0 <= b -> (a + 1) * SECTORS_PER_BLOCK <= sector_count d ->
  (b + 1) * SECTORS_PER_BLOCK <= sector_count d ->
  exists c', pick_latest a b (c, d) = Ret (latest d a b, (c', d)) /\ pristine c' d.
Proof.
  intros Hp Hs Ha Hb Ha1 Hb1. destruct (read_checkpoint_steady c d a Hp Hs Ha Ha1) as (c1 & E1 & Hp1).
  destruct (read_checkpoint_steady c1 d b Hp1 Hs Hb Hb1) as (c2 & E2 & Hp2). exists c2. split; [|done].
  unfold pick_latest, latest. rewrite io_bind_run. unfold attempt at 1. rewrite E1, io_bind_run. unfold attempt. rewrite E2.
  destruct (header_at d a) as [ha|ea] eqn:Eha; [|apply header_at_corrupt in Eha as ->];
    (destruct (header_at d b) as [hb|eb] eqn:Ehb; [|apply header_at_corrupt in Ehb as ->]); try done. by case_match.
Qed.
(** ** Mounting a committed state *)

Record geometry (sb : LfsSuperblock) (d : D) : Prop := {
  g_sb : superblock_ok sb;
  g_fit : block_count sb <= sector_count d / SECTORS_PER_BLOCK;
  g_segs : 0 < sb_segment_size sb /\ sb_segment_count sb * sb_segment_size sb <= block_count sb;
  g_a : 1 <= checkpoint_block_a sb /\ checkpoint_block_a sb + CHECKPOINT_SLOT_BLOCKS <= sb_segment_size sb;
  g_b : 1 <= checkpoint_block_b sb /\ checkpoint_block_b sb + CHECKPOINT_SLOT_BLOCKS <= sb_segment_size sb;
  g_apart : checkpoint_block_a sb + CHECKPOINT_SLOT_BLOCKS <= checkpoint_block_b sb \/
            checkpoint_block_b sb + CHECKPOINT_SLOT_BLOCKS <= checkpoint_block_a sb;
  g_size : sb_segment_size sb <= block_count sb;
}.

Definition is_slot (sb : LfsSuperblock) (slot : Z) : Prop := slot = checkpoint_block_a sb \/ slot = checkpoint_block_b sb.

(** A map and a manager that belong to a file system of this geometry. *)
Record state_ok (sb : LfsSuperblock) (m : LfsImap) (segs : LfsSegmentManager) : Prop := {
  so_sorted : lfs_imap.sorted m;
  so_entries : Forall (lfs_imap.entry_ok (sb_segment_size sb) (block_count sb)) m;
  so_segs : lfs_segment.seg_ok segs;
  so_geometry : lfs_segment.segment_count segs = sb_segment_count sb /\ lfs_segment.segment_size segs = sb_segment_size sb;
}.

(** A slot that holds a whole checkpoint of a state. *)
Record committed (d : D) (slot : Z) (h : CheckpointHeader) (m : LfsImap) (segs : LfsSegmentManager) : Prop := {
  cm_header : from_block (content d slot) = Ok h;
  cm_laid : laid_out slot h (lfs_imap.serialize m) (lfs_segment.serialize segs);
  cm_payload : payload_on d h (lfs_imap.serialize m) (lfs_segment.serialize segs);
  cm_seq : 0 <= sequence h < 2 ^ 64 - 1 /\ 0 <= last_segment_sequence h < 2 ^ 64 - 1;
}.

Lemma blocks_needed_pos n : 0 < n -> 0 < blocks_needed n.
Proof.
  intros H. unfold blocks_needed. pose proof (Z.div_mod n BLOCK_SIZE ltac:(done)). pose proof (Z.div_pos n BLOCK_SIZE ltac:(lia) ltac:(done)).
  destruct (Z.eqb_spec (n mod BLOCK_SIZE) 0); unfold BLOCK_SIZE in *; lia.
Qed.

Lemma blocks_needed_le n k : blocks_needed n <= k -> n <= k * BLOCK_SIZE.
Proof.
  unfold blocks_needed. pose proof (Z.div_mod n BLOCK_SIZE ltac:(done)). pose proof (Z.mod_pos_bound n BLOCK_SIZE ltac:(done)).
  destruct (Z.eqb_spec (n mod BLOCK_SIZE) 0); unfold BLOCK_SIZE in *; lia.
Qed.

(** The slots lie on the device. *)
Lemma slot_range sb d slot :
  geometry sb d -> is_slot sb slot -> 1 <= slot /\ slot + CHECKPOINT_SLOT_BLOCKS <= sb_segment_size sb /\
  (slot + CHECKPOINT_SLOT_BLOCKS) * SECTORS_PER_BLOCK <= sector_count d.
Proof.
  intros [_ Hf _ Ha Hb _ Hs] Hsl. pose proof (Z.div_mod (sector_count d) SECTORS_PER_BLOCK ltac:(done)).
  pose proof (Z.mod_pos_bound (sector_count d) SECTORS_PER_BLOCK ltac:(done)).
  assert (1 <= slot /\ slot + CHECKPOINT_SLOT_BLOCKS <= sb_segment_size sb) as [? ?] by (destruct Hsl; subst; lia).
  split_and!; try lia. spb.
Qed.

Lemma payload_lengths (m : LfsImap) (segs : LfsSegmentManager) :
  lfs_segment.seg_ok segs ->
  0 < blocks_needed (Z.of_nat (length (lfs_imap.serialize m))) /\ 0 < blocks_needed (Z.of_nat (length (lfs_segment.serialize segs))).
Proof.
  intros Hs. split; apply blocks_needed_pos.
  - rewrite lfs_imap.length_imap_bytes. lia.
  - rewrite (lfs_segment.length_segment_bytes segs Hs). pose proof (lfs_segment.so_count _ Hs) as Hc. unfold is_u32 in Hc.
    unfold lfs_segment.div_ceil8. pose proof (Z.div_pos (lfs_segment.segment_count segs + 7) 8 ltac:(lia) ltac:(lia)). lia.
Qed.

Lemma committed_header sb d slot h m segs :
  geometry sb d -> is_slot sb slot -> state_ok sb m segs -> committed d slot h m segs -> header_at d slot = Ok h.
Proof.
  intros Hg Hsl Hst [Hh [Hl1 Hi Hic Hb Hbc Hf] _ _]. unfold header_at. rewrite Hh.
  destruct (slot_range sb d slot Hg Hsl) as (H1 & H2 & H3). destruct (payload_lengths m segs (so_segs _ _ _ Hst)) as [P1 P2].
  pose proof (g_fit _ _ Hg) as Hfit. pose proof (g_size _ _ Hg). unfold validate_header_geometry, checked_add, CHECKPOINT_SLOT_BLOCKS in *.
  rewrite !(proj2 (Z.ltb_lt _ _)) by lia.
  rewrite !(proj2 (Z.leb_gt _ _)) by lia. rewrite !(proj2 (Z.ltb_ge _ _)) by lia. done.
Qed.

Lemma read_payload d start data :
  (forall i, 0 <= i < blocks_needed (Z.of_nat (length data)) -> content d (start + i) = chunk (padded data) i) ->
  mjoin ((fun i => content d (start + i)) <$> seqZ 0 (blocks_needed (Z.of_nat (length data)))) = padded data.
Proof.
  intros H. pose proof (blocks_needed_nonneg (Z.of_nat (length data)) ltac:(lia)) as Hn.
  rewrite <- (mjoin_pieces_of BLOCK_SIZE (Z.to_nat (blocks_needed (Z.of_nat (length data)))) (padded data)) at 1; [|done|].
  - rewrite Z2Nat.id by done. apply (f_equal mjoin). apply list_fmap_ext.
    intros _ i Hi%list_elem_of_lookup_2%elem_of_seqZ. by rewrite H by lia.
  - rewrite length_padded. unfold BLOCK_SIZE. lia.
Qed.

(** The blocks of a payload are read as the padded bytes. *)
Lemma read_run_payload c d start data :
  pristine c d -> steady d -> 0 <= start -> (start + blocks_needed (Z.of_nat (length data))) * SECTORS_PER_BLOCK <= sector_count d ->
  (forall i, 0 <= i < blocks_needed (Z.of_nat (length data)) -> content d (start + i) = chunk (padded data) i) ->
  exists c', read_run start (seqZ 0 (blocks_needed (Z.of_nat (length data)))) (c, d) = Ret (Ok (padded data), (c', d)) /\ pristine c' d.
Proof.
  intros Hp Hs H0 H1 Hc. destruct (read_run_steady start (seqZ 0 (blocks_needed (Z.of_nat (length data)))) c d Hp Hs) as (c' & E & Hp').
  { intros i Hi%elem_of_seqZ. spb. }
  exists c'. rewrite E, read_payload by done. done.
Qed.

Lemma load_from_disk_committed c d sb slot h m segs :
  pristine c d -> steady d -> geometry sb d -> is_slot sb slot -> state_ok sb m segs -> committed d slot h m segs ->
  exists c', load_from_disk (imap_block h) (imap_block_count h) (sb_segment_size sb) (block_count sb) (c, d) = Ret (Ok m, (c', d))
    /\ pristine c' d.
Proof.
  intros Hp Hs Hg Hsl Hst [_ [Hl1 Hi Hic Hb Hbc Hf] [Hpay _] _].
  destruct (slot_range sb d slot Hg Hsl) as (H1 & H2 & H3). destruct (payload_lengths m segs (so_segs _ _ _ Hst)) as [P1 P2].
  unfold CHECKPOINT_SLOT_BLOCKS in *. set (n := blocks_needed (Z.of_nat (length (lfs_imap.serialize m)))) in *.
  unfold load_from_disk, lfs_imap.checked32. rewrite Hic. rewrite (proj2 (Z.ltb_lt _ _)) by (unfold BLOCK_SIZE; lia).
  rewrite io_bind_run. unfold dev_sectors. rewrite io_bind_run. unfold dev_sector_size. rewrite (size_512 d (co_dev _ _ (proj1 Hp))).
  rewrite (proj2 (Z.ltb_ge _ _)) by (unfold BLOCK_SIZE, SECTOR_SIZE; spb). rewrite io_bind_run.
  destruct (read_run_payload c d (imap_block h) (lfs_imap.serialize m) Hp Hs) as (c' & E & Hp'); [lia| |done|].
  { fold n. spb. }
  fold n in E. rewrite E. exists c'. split; [|done]. unfold lift, padded.
  rewrite lfs_imap.imap_roundtrip; [done|apply Hst|apply Hst|].
  assert (n <= 63) as Hn by lia. apply blocks_needed_le in Hn. rewrite lfs_imap.length_imap_bytes in Hn. unfold BLOCK_SIZE in Hn. lia.
Qed.
Lemma bitmap_blocks_bound segs :
  lfs_segment.seg_ok segs ->
  blocks_needed (Z.of_nat (length (lfs_segment.serialize segs))) <=
  lfs_segment.segment_count segs / (BLOCK_SIZE * 8) + (if lfs_segment.segment_count segs mod (BLOCK_SIZE * 8) =? 0 then 0 else 1) + 1.
Proof.
  intros Hs. rewrite (lfs_segment.length_segment_bytes segs Hs). pose proof (lfs_segment.so_count _ Hs) as Hc. unfold is_u32 in Hc.
  set (n := lfs_segment.segment_count segs) in *. unfold blocks_needed, lfs_segment.div_ceil8, BLOCK_SIZE.
  change (4096 * 8) with 32768.
  pose proof (Z.div_mod n 32768 ltac:(lia)). pose proof (Z.mod_pos_bound n 32768 ltac:(lia)).
  pose proof (Z.div_mod (n + 7) 8 ltac:(lia)). pose proof (Z.mod_pos_bound (n + 7) 8 ltac:(lia)).
  set (b := 8 + (n + 7) / 8) in *. pose proof (Z.div_mod b 4096 ltac:(lia)). pose proof (Z.mod_pos_bound b 4096 ltac:(lia)).
  destruct (Z.eqb_spec (n mod 32768) 0), (Z.eqb_spec (b mod 4096) 0); lia.
Qed.

(** Mounting yields the state of the latest committed checkpoint. *)
Lemma mount_committed d sb slot h m segs :
  dev_ok d -> steady d -> geometry sb d -> is_slot sb slot -> state_ok sb m segs ->
  superblock_from_block (content d SUPERBLOCK_BLOCK) = Ok sb -> committed d slot h m segs ->
  latest d (checkpoint_block_a sb) (checkpoint_block_b sb) = Ok (h, slot) ->
  exists c, mount d = Ret (Ok (mk_lfs (c, d) m segs sb (last_segment_sequence h + 1) None (lfs_checkpoint.next_inode h) (sequence h + 1))) /\ pristine c d.
Proof.
  intros Hd Hs Hg Hsl Hst Hsb Hcm Hl. destruct (cache_new_ok d Hd) as (Hok & _ & Hn). assert (pristine cache.new d) as Hp by done.
  destruct (slot_range sb d slot Hg Hsl) as (H1 & H2 & H3).
  destruct (slot_range sb d _ Hg (or_introl eq_refl)) as (A1 & A2 & A3). destruct (slot_range sb d _ Hg (or_intror eq_refl)) as (B1 & B2 & B3).
  unfold CHECKPOINT_SLOT_BLOCKS in *. unfold mount, mount_io. rewrite io_bind_run.
  destruct (cache_read_steady cache.new d SUPERBLOCK_BLOCK Hp Hs ltac:(done) ltac:(unfold SUPERBLOCK_BLOCK; spb)) as (c1 & E1 & Hp1).
  rewrite E1, io_bind_run. unfold lift at 1. rewrite Hsb, io_bind_run. unfold dev_sectors at 1. cbv beta iota.
  rewrite (proj2 (Z.ltb_ge _ _)) by apply Hg. rewrite io_bind_run.
  destruct (pick_latest_steady c1 d (checkpoint_block_a sb) (checkpoint_block_b sb) Hp1 Hs) as (c2 & E2 & Hp2); [lia|lia|spb|spb|].
  rewrite E2, Hl, io_bind_run.
  destruct (load_from_disk_committed c2 d sb slot h m segs Hp2 Hs Hg Hsl Hst Hcm) as (c3 & E3 & Hp3). rewrite E3.
  destruct Hst as [_ _ Hso [Hcnt Hsz]]. destruct Hcm as [_ [Hl1 Hi Hic Hb Hbc Hf] [_ Hpay] [Hq1 Hq2]].
  pose proof (bitmap_blocks_bound segs Hso) as Hbb. rewrite Hcnt, <- Hbc in Hbb. cbv zeta. rewrite (proj2 (Z.ltb_ge _ _)) by exact Hbb.
  rewrite io_bind_run. destruct (payload_lengths m segs Hso) as [P1 P2]. unfold CHECKPOINT_SLOT_BLOCKS in *.
  destruct (read_run_payload c3 d (segment_bitmap_block h) (lfs_segment.serialize segs) Hp3 Hs) as (c4 & E4 & Hp4); [lia|spb|done|].
  rewrite Hbc, E4, io_bind_run. unfold lift, padded. pose proof (g_segs _ _ Hg) as [Hz Hx].
  rewrite <- Hcnt, <- Hsz. pose proof (count_range d Hd) as Hcr. pose proof (g_fit _ _ Hg) as Hfit.
  pose proof (Z.div_mod (sector_count d) SECTORS_PER_BLOCK ltac:(done)). pose proof (Z.mod_pos_bound (sector_count d) SECTORS_PER_BLOCK ltac:(done)).
  rewrite (lfs_segment.segments_roundtrip segs (block_count sb)) by (done || (rewrite ?Hcnt, ?Hsz; spb)).
  unfold checked_add. rewrite !(proj2 (Z.ltb_lt _ _)) by lia. exists c4. done.
Qed.
(** ** A checkpoint that power interrupts *)

(** The header of a block is in its first sector. *)
Lemma content_head d b n : dev_ok d -> (n <= 512)%nat -> take n (content d b) = take n (sector d (b * SECTORS_PER_BLOCK)).
Proof.
  intros Hd Hn. unfold content. rewrite seqZ_cons by done. rewrite fmap_cons.
  change (mjoin (?x :: ?l)) with (x ++ mjoin l). rewrite take_app_le; [done|]. rewrite (sector_length d _ Hd). unfold SECTOR_SIZE. lia.
Qed.

Lemma from_block_sector (d d' : D) b :
  dev_ok d -> dev_ok d' -> sector d' (b * SECTORS_PER_BLOCK) = sector d (b * SECTORS_PER_BLOCK) ->
  from_block (content d' b) = from_block (content d b).
Proof.
  intros Hd Hd' E. apply from_block_prefix; [rewrite length_content by done; unfold BLOCK_SIZE; lia..|].
  rewrite !content_head by (done || lia). by rewrite E.
Qed.

Lemma from_block_new (d' : D) b h :
  dev_ok d' -> header_ok h -> sector d' (b * SECTORS_PER_BLOCK) = piece (to_block h) 0 -> from_block (content d' b) = Ok h.
Proof.
  intros Hd' Hh E. rewrite <- (from_to_block h Hh).
  assert (length (to_block h) = Z.to_nat BLOCK_SIZE) as Hl by (by rewrite to_block_bytes, length_app, length_replicate).
  apply from_block_prefix; [rewrite length_content by done; unfold BLOCK_SIZE; lia|rewrite Hl; unfold BLOCK_SIZE; lia|].
  rewrite content_head by (done || lia). rewrite E. unfold piece. rewrite drop_0, take_take. f_equal.
Qed.

(** The slots of two consecutive sequence numbers. *)
Lemma slots_alternate sb d seq :
  geometry sb d -> let slots := (checkpoint_block_a sb, checkpoint_block_b sb) in
  let old := lfs_writer.checkpoint_slot slots seq in let new := lfs_writer.checkpoint_slot slots (seq + 1) in
  is_slot sb old /\ is_slot sb new /\ (old + CHECKPOINT_SLOT_BLOCKS <= new \/ new + CHECKPOINT_SLOT_BLOCKS <= old) /\
  ((old = checkpoint_block_a sb /\ new = checkpoint_block_b sb) \/ (old = checkpoint_block_b sb /\ new = checkpoint_block_a sb)).
Proof.
  intros Hg. cbv zeta. unfold lfs_writer.checkpoint_slot, is_slot. cbn [fst snd]. pose proof (g_apart _ _ Hg) as Hs.
  assert ((seq + 1) mod 2 = 1 - seq mod 2) as ->.
  { rewrite !Zmod_odd, Z.odd_add. by destruct (Z.odd seq). }
  pose proof (Z.mod_pos_bound seq 2 ltac:(lia)) as Hm.
  destruct (Z.eqb_spec (seq mod 2) 0); [rewrite (proj2 (Z.eqb_neq _ _)) by lia|rewrite (proj2 (Z.eqb_eq _ _)) by lia]; split_and!; auto; lia.
Qed.

(** What mounting selects of an older and a newer slot. *)
Lemma latest_newer sb d old new ho hn :
  (old = checkpoint_block_a sb /\ new = checkpoint_block_b sb) \/ (old = checkpoint_block_b sb /\ new = checkpoint_block_a sb) ->
  header_at d old = Ok ho -> header_at d new = Ok hn -> sequence ho < sequence hn ->
  latest d (checkpoint_block_a sb) (checkpoint_block_b sb) = Ok (hn, new).
Proof.
  intros [[<- <-]|[<- <-]] Ho Hn Hlt; unfold latest; rewrite Ho, Hn.
  - by rewrite (proj2 (Z.leb_gt _ _)).
  - by rewrite (proj2 (Z.leb_le _ _)) by lia.
Qed.

Lemma latest_only sb d old new ho :
  (old = checkpoint_block_a sb /\ new = checkpoint_block_b sb) \/ (old = checkpoint_block_b sb /\ new = checkpoint_block_a sb) ->
  header_at d old = Ok ho -> (forall hn, header_at d new = Ok hn -> sequence hn < sequence ho) ->
  latest d (checkpoint_block_a sb) (checkpoint_block_b sb) = Ok (ho, old).
Proof.
  intros Hs Ho Hn. destruct (header_at d new) as [hn|e] eqn:En.
  - eapply (latest_newer sb d new old hn ho); [tauto|done|done|by apply Hn].
  - destruct Hs as [[<- <-]|[<- <-]]; unfold latest; by rewrite Ho, En.
Qed.

(** Devices that hold the same sectors. *)
Record same_disk (d dr : D) : Prop := {
  sd_ok : dev_ok dr; sd_count : sector_count dr = sector_count d; sd_sector i : sector dr i = sector d i;
}.

Lemma same_content d dr b : same_disk d dr -> content dr b = content d b.
Proof. intros H. apply content_ext. intros. apply H. Qed.

Lemma same_header d dr slot : same_disk d dr -> header_at dr slot = header_at d slot.
Proof. intros H. unfold header_at. by rewrite (same_content d dr), (sd_count _ _ H). Qed.

Lemma geometry_count sb d dr : sector_count dr = sector_count d -> geometry sb d -> geometry sb dr.
Proof. intros E [? Hf ? ? ? ? ?]. split; try done. by rewrite E. Qed.

(** A committed slot survives when its blocks do. *)
Lemma committed_same d dr slot h m segs :
  committed d slot h m segs -> (forall x, slot <= x < slot + CHECKPOINT_SLOT_BLOCKS -> content dr x = content d x) ->
  lfs_segment.seg_ok segs -> committed dr slot h m segs.
Proof.
  intros [Hh Hl [P1 P2] Hs] Hc Hso. destruct (payload_lengths m segs Hso) as [L1 L2].
  destruct Hl as [Hl1 Hi Hic Hb Hbc Hf] eqn:El. unfold CHECKPOINT_SLOT_BLOCKS in *. split; try done.
  - by rewrite Hc by lia.
  - split; intros i Hi'; rewrite Hc by lia; [by apply P1|by apply P2].
Qed.
Lemma blocks_needed_lt n k : n < k * BLOCK_SIZE -> 0 <= n -> blocks_needed n <= k.
Proof.
  intros H H0. unfold blocks_needed. pose proof (Z.div_mod n BLOCK_SIZE ltac:(done)). pose proof (Z.mod_pos_bound n BLOCK_SIZE ltac:(done)).
  destruct (Z.eqb_spec (n mod BLOCK_SIZE) 0); unfold BLOCK_SIZE in *; lia.
Qed.

(** The header of a new checkpoint: well formed, and laid out in its slot or
    refused. *)
Lemma new_header slot seq ni last (m : LfsImap) (segs : LfsSegmentManager) :
  1 <= slot <= 2 ^ 61 - CHECKPOINT_SLOT_BLOCKS -> is_u64 seq -> is_u32 ni -> is_u64 last -> Z.of_nat (length m) < 2 ^ 28 -> lfs_segment.seg_ok segs ->
  let im := lfs_imap.serialize m in let sg := lfs_segment.serialize segs in
  let h := lfs_writer.checkpoint_header slot seq ni last im sg in
  header_ok h /\ imap_block h = slot + 1 /\
  (segment_bitmap_block h + segment_bitmap_count h <= slot + CHECKPOINT_SLOT_BLOCKS -> laid_out slot h im sg) /\
  segment_bitmap_block h + segment_bitmap_count h < 2 ^ 62.
Proof.
  intros Hs Hq Hn Hla Hm Hso im sg h. unfold CHECKPOINT_SLOT_BLOCKS in *.
  pose proof (blocks_needed_nonneg (Z.of_nat (length im)) ltac:(lia)) as N1. pose proof (blocks_needed_nonneg (Z.of_nat (length sg)) ltac:(lia)) as N2.
  assert (blocks_needed (Z.of_nat (length im)) <= 2 ^ 20) as L1.
  { apply blocks_needed_lt; [|lia]. unfold im. rewrite lfs_imap.length_imap_bytes. unfold BLOCK_SIZE. lia. }
  assert (blocks_needed (Z.of_nat (length sg)) <= 2 ^ 18) as L2.
  { apply blocks_needed_lt; [|lia]. unfold sg. rewrite (lfs_segment.length_segment_bytes segs Hso).
    pose proof (lfs_segment.so_count _ Hso) as Hc. unfold is_u32 in Hc. unfold lfs_segment.div_ceil8, BLOCK_SIZE.
    pose proof (Z.div_lt_upper_bound (lfs_segment.segment_count segs + 7) 8 (2 ^ 29 + 1) ltac:(lia) ltac:(lia)). lia. }
  unfold is_u64, is_u32 in *.
  assert (h = mk_header CHECKPOINT_MAGIC seq (slot + 1) (blocks_needed (Z.of_nat (length im)))
                (slot + 1 + blocks_needed (Z.of_nat (length im))) (blocks_needed (Z.of_nat (length sg))) ni last) as ->.
  { unfold h, lfs_writer.checkpoint_header, wrap64, wrap32. by rewrite !Z.mod_small by lia. }
  cbn [imap_block segment_bitmap_block segment_bitmap_count]. split_and!; [|done| |lia].
  - split; cbn [magic sequence imap_block imap_block_count segment_bitmap_block segment_bitmap_count lfs_checkpoint.next_inode
      last_segment_sequence]; unfold is_u64, is_u32; [done|lia..].
  - intros Hf. split; cbn [imap_block imap_block_count segment_bitmap_block segment_bitmap_count]; [unfold CHECKPOINT_SLOT_BLOCKS in *; lia|done..|exact Hf].
Qed.

(** The numbers a checkpoint carries: its own, the next inode and the last log block. *)
Definition numbers (h : CheckpointHeader) : Z * Z * Z := (sequence h, lfs_checkpoint.next_inode h, last_segment_sequence h).

(** The checkpoint of a state, whatever fails. *)
Lemma checkpoint_effect sb c d w m segs seq ni :
  geometry sb d -> pristine c d -> state_ok sb m segs -> Z.of_nat (length m) < 2 ^ 28 -> 0 <= seq < 2 ^ 64 - 1 -> is_u32 ni ->
  0 <= lfs_writer.sequence w < 2 ^ 64 - 1 ->
  let slots := (checkpoint_block_a sb, checkpoint_block_b sb) in let slot := lfs_writer.checkpoint_slot slots seq in
  exists r c' d', lfs_writer.write_checkpoint w m segs slots seq ni (c, d) = Ret (r, (c', d')) /\
  evolves (in_run slot CHECKPOINT_SLOT_BLOCKS) c d c' d' /\
  (sector d' (slot * SECTORS_PER_BLOCK) = sector d (slot * SECTORS_PER_BLOCK) \/
   exists h, committed d' slot h m segs /\ numbers h = (seq, ni, lfs_writer.sequence w)) /\
  (r = Ok () -> (exists h, committed d' slot h m segs /\ numbers h = (seq, ni, lfs_writer.sequence w)) /\ pristine c' d').
Proof.
  intros Hg [Hok Hcl] Hst Hm Hq Hn Hw slots slot.
  assert (is_slot sb slot) as Hsl by (unfold slot, slots, lfs_writer.checkpoint_slot, is_slot; case_match; auto).
  destruct (slot_range sb d slot Hg Hsl) as (S1 & S2 & S3). pose proof (count_range d (co_dev _ _ Hok)) as Hc.
  set (im := lfs_imap.serialize m). set (sg := lfs_segment.serialize segs).
  set (h := lfs_writer.checkpoint_header slot seq ni (lfs_writer.sequence w) im sg).
  destruct (new_header slot seq ni (lfs_writer.sequence w) m segs) as (Hh & Hi & Hlay & Hlt);
    [unfold CHECKPOINT_SLOT_BLOCKS in *; spb|unfold is_u64; lia|done|unfold is_u64; lia|done|apply Hst|].
  fold im sg h in Hh, Hi, Hlay, Hlt. unfold lfs_writer.write_checkpoint. fold slot im sg h.
  destruct (decide (segment_bitmap_block h + segment_bitmap_count h <= slot + CHECKPOINT_SLOT_BLOCKS)) as [Hf|Hf].
  - destruct (write_checkpoint_effect slot h im sg c d Hok (Hlay Hf) (Hcl slot)) as (r & c' & d' & E & Hev & Hd & Ho).
    pose proof (co_dev _ _ (ev_ok _ _ _ _ _ Hev)) as Hd'.
    exists r, c', d'. split; [done|]. split; [done|]. split.
    + destruct Hd as [?|[Hs Hp]]; [by left|right]. exists h. split; [|done].
      split; [by apply from_block_new|by apply Hlay|done|]. cbn. lia.
    + intros Hr. destruct (Ho Hr) as (Hc' & Hp & Hcl'). split; [|by split; [apply Hev|]].
      exists h. split; [|done]. split; [by rewrite Hc', from_to_block|by apply Hlay|done|]. cbn. lia.
  - exists (Err lfs_imap.CheckpointOverflow), c, d. split; [|by split_and!; [apply evolves_refl|left|]].
    unfold write_checkpoint, wrap64. unfold CHECKPOINT_SLOT_BLOCKS in *. rewrite !Z.mod_small by (destruct Hh; unfold is_u64, is_u32 in *; spb).
    rewrite (proj2 (Z.ltb_lt _ _)) by lia. by rewrite orb_true_r.
Qed.
(** A mounted file system whose last checkpoint, [h], holds the map [m] and the
    segments [segs], and whose pending blocks belong to the log. *)
Record ready (fs : Lfs D) (h : CheckpointHeader) (m : LfsImap) (segs : LfsSegmentManager) : Prop := {
  rd_geometry : geometry (superblock fs) (fdisk fs).2;
  rd_cache : cache_ok (fdisk fs).1 (fdisk fs).2;
  rd_pending x : dirty_at (fdisk fs).1 x -> sb_segment_size (superblock fs) <= x;
  rd_superblock : superblock_from_block (content (fdisk fs).2 SUPERBLOCK_BLOCK) = Ok (superblock fs);
  rd_old : committed (fdisk fs).2
    (lfs_writer.checkpoint_slot (checkpoint_block_a (superblock fs), checkpoint_block_b (superblock fs)) (sequence h)) h m segs;
  rd_old_ok : state_ok (superblock fs) m segs;
  rd_seq : checkpoint_sequence fs = sequence h + 1 /\ checkpoint_sequence fs < 2 ^ 64 - 1;
  rd_other h' : header_at (fdisk fs).2
    (lfs_writer.checkpoint_slot (checkpoint_block_a (superblock fs), checkpoint_block_b (superblock fs)) (checkpoint_sequence fs)) = Ok h' ->
    sequence h' < sequence h;
  rd_new_ok : state_ok (superblock fs) (imap fs) (segments fs);
  rd_small : Z.of_nat (length (imap fs)) < 2 ^ 28;
  rd_inode : is_u32 (next_inode fs);
  rd_writer w : writer fs = Some w -> 0 <= lfs_writer.sequence w < 2 ^ 64 - 1;
}.

(** The state of a mounted file system: the inode map, the segments, the next inode,
    the next number of a log block and the number of the next checkpoint. *)
Definition state_of (g : Lfs D) : LfsImap * LfsSegmentManager * Z * Z * Z :=
  (imap g, segments g, next_inode g, next_sequence g, checkpoint_sequence g).

(** The disk after a change confined to the log and to the slot in use: the old
    state mounts, or the new one if its checkpoint is committed. *)
Lemma recover fs h m segs (d' dr : D) slot :
  ready fs h m segs ->
  slot = lfs_writer.checkpoint_slot (checkpoint_block_a (superblock fs), checkpoint_block_b (superblock fs)) (checkpoint_sequence fs) ->
  dev_ok d' -> sector_count d' = sector_count (fdisk fs).2 ->
  (forall x, 0 <= x < sb_segment_size (superblock fs) -> ~ in_run slot CHECKPOINT_SLOT_BLOCKS x -> content d' x = content (fdisk fs).2 x) ->
  same_disk d' dr -> steady dr ->
  (sector d' (slot * SECTORS_PER_BLOCK) = sector (fdisk fs).2 (slot * SECTORS_PER_BLOCK) ->
   exists g, mount dr = Ret (Ok g) /\ superblock g = superblock fs /\ state_of g = (m, segs, lfs_checkpoint.next_inode h, last_segment_sequence h + 1, checkpoint_sequence fs)) /\
  (forall hn, committed d' slot hn (imap fs) (segments fs) -> sequence hn = checkpoint_sequence fs ->
   exists g, mount dr = Ret (Ok g) /\ superblock g = superblock fs /\
     state_of g = (imap fs, segments fs, lfs_checkpoint.next_inode hn, last_segment_sequence hn + 1, checkpoint_sequence fs + 1)).
Proof.
  intros Hr -> Hd' Hcnt Hkeep Hsame Hst. set (sb := superblock fs) in *. set (d := (fdisk fs).2) in *.
  pose proof (rd_geometry _ _ _ _ Hr) as Hg. fold sb d in Hg. destruct (rd_seq _ _ _ _ Hr) as [Hq Hq'].
  destruct (slots_alternate sb d (sequence h) Hg) as (Hso & Hsn & Hap & Hab). rewrite <- Hq in Hsn, Hap, Hab.
  set (old := lfs_writer.checkpoint_slot _ (sequence h)) in *. set (new := lfs_writer.checkpoint_slot _ (checkpoint_sequence fs)) in *.
  destruct (slot_range sb d old Hg Hso) as (O1 & O2 & O3). destruct (slot_range sb d new Hg Hsn) as (N1 & N2 & N3).
  unfold CHECKPOINT_SLOT_BLOCKS in *.
  assert (geometry sb dr) as Hgr by (eapply geometry_count; [|exact Hg]; rewrite (sd_count _ _ Hsame); exact Hcnt).
  assert (superblock_from_block (content dr SUPERBLOCK_BLOCK) = Ok sb) as Hsb.
  { rewrite (same_content d' dr), Hkeep by (done || (unfold SUPERBLOCK_BLOCK, in_run; lia)). apply Hr. }
  assert (committed dr old h m segs) as Hold.
  { eapply committed_same; [apply (rd_old _ _ _ _ Hr)| |apply (rd_old_ok _ _ _ _ Hr)].
    intros x Hx. unfold CHECKPOINT_SLOT_BLOCKS in Hx. fold old in Hx. rewrite (same_content d' dr), Hkeep by (done || (unfold in_run; lia)). done. }
  pose proof (committed_header sb dr old h m segs Hgr Hso (rd_old_ok _ _ _ _ Hr) Hold) as Hho. split.
  - intros Hsec. destruct (mount_committed dr sb old h m segs) as (c & E & _); try done; [apply Hsame|apply Hr| |].
    + eapply latest_only; [exact Hab|done|]. intros hn Hhn. apply (rd_other _ _ _ _ Hr). fold sb d new.
      rewrite (same_header d' dr) in Hhn by done. unfold header_at in *. rewrite Hcnt in Hhn.
      by rewrite (from_block_sector d d') in Hhn by (done || apply (rd_cache _ _ _ _ Hr)).
    + eexists. split; [exact E|]. split; [done|]. unfold state_of. cbn. by rewrite Hq.
  - intros hn Hcm Hqn.
    assert (committed dr new hn (imap fs) (segments fs)) as Hnew.
    { eapply committed_same; [exact Hcm| |apply (rd_new_ok _ _ _ _ Hr)]. intros. by apply same_content. }
    pose proof (committed_header sb dr new hn _ _ Hgr Hsn (rd_new_ok _ _ _ _ Hr) Hnew) as Hhn.
    destruct (mount_committed dr sb new hn (imap fs) (segments fs)) as (c & E & _); try done; [apply Hsame|apply Hr| |].
    + eapply latest_newer; [exact Hab|done|done|lia].
    + eexists. split; [exact E|]. split; [done|]. unfold state_of. cbn. by rewrite Hqn.
Qed.
(** [sync] on the disk: a flush, a checkpoint and a flush. *)
Lemma sync_effect fs h m segs w :
  ready fs h m segs -> writer fs = Some w ->
  let slot := lfs_writer.checkpoint_slot (checkpoint_block_a (superblock fs), checkpoint_block_b (superblock fs)) (checkpoint_sequence fs) in
  exists r fs', sync fs = Ret (r, fs') /\
  evolves (in_run slot CHECKPOINT_SLOT_BLOCKS) (fdisk fs).1 (fdisk fs).2 (fdisk fs').1 (fdisk fs').2 /\
  (sector (fdisk fs').2 (slot * SECTORS_PER_BLOCK) = sector (fdisk fs).2 (slot * SECTORS_PER_BLOCK) \/
   exists hn, committed (fdisk fs').2 slot hn (imap fs) (segments fs) /\ numbers hn = (checkpoint_sequence fs, next_inode fs, lfs_writer.sequence w)) /\
  (r = Ok () -> exists hn, committed (fdisk fs').2 slot hn (imap fs) (segments fs) /\ numbers hn = (checkpoint_sequence fs, next_inode fs, lfs_writer.sequence w)).
Proof.
  intros Hr Hw slot. destruct (fdisk fs) as [c d] eqn:Efd. cbn [fst snd] in *.
  pose proof (rd_geometry _ _ _ _ Hr) as Hg. pose proof (rd_cache _ _ _ _ Hr) as Hok. pose proof (rd_pending _ _ _ _ Hr) as Hpe.
  rewrite Efd in Hg, Hok, Hpe. cbn [fst snd] in *. destruct (rd_seq _ _ _ _ Hr) as [Hq Hq'].
  assert (is_slot (superblock fs) slot) as Hsl by (unfold slot, lfs_writer.checkpoint_slot, is_slot; case_match; auto).
  destruct (slot_range _ d slot Hg Hsl) as (S1 & S2 & S3).
  unfold sync. rewrite fsm_bind_run. unfold disk_op at 1. rewrite Efd. unfold cache_flush at 1.
  destruct (flush c d) as [[r1 c1] d1] eqn:Ef. apply flush_settles in Ef as [Hs1 Hc1]; [|done].
  assert (sector d1 (slot * SECTORS_PER_BLOCK) = sector d (slot * SECTORS_PER_BLOCK)) as Hsec.
  { destruct (se_sector _ _ _ _ Hs1 slot 0 ltac:(spb)) as [E|[Hd _]]; [by rewrite Z.add_0_r in E|].
    apply Hpe in Hd. unfold CHECKPOINT_SLOT_BLOCKS in *. lia. }
  pose proof (settles_evolves (in_run slot CHECKPOINT_SLOT_BLOCKS) _ _ _ _ Hs1) as Hev1.
  destruct r1 as [[]|er]; cbn [from_block_error]; [|eexists _, _; split; [done|]; cbn [fdisk fst snd]; split_and!; [done|by left|done]].
  rewrite Hw, fsm_bind_run. unfold disk_op at 1. cbn [fdisk].
  assert (pristine c1 d1) as Hp1 by (split; [apply Hs1|by apply Hc1]).
  destruct (checkpoint_effect (superblock fs) c1 d1 w (imap fs) (segments fs) (checkpoint_sequence fs) (next_inode fs))
    as (r2 & c2 & d2 & E2 & Hev2 & Hd2 & Ho2).
  { eapply geometry_count; [apply Hs1|exact Hg]. } { done. } { apply Hr. } { apply Hr. }
  { destruct (rd_old _ _ _ _ Hr) as [_ _ _ [? _]]. lia. } { apply Hr. } { by apply (rd_writer _ _ _ _ Hr). }
  fold slot in E2, Hev2, Hd2, Ho2. rewrite E2. pose proof (evolves_trans _ _ _ _ _ _ _ Hev1 Hev2) as Hev. rewrite Hsec in Hd2.
  destruct r2 as [[]|er]; [|eexists _, _; split; [done|]; by cbn [fdisk fst snd]].
  destruct (Ho2 eq_refl) as [Hc2 Hp2]. rewrite fsm_bind_run. cbv beta iota. unfold disk_op. cbn [fdisk]. unfold cache_flush.
  destruct (flush c2 d2) as [[r3 c3] d3] eqn:Ef. apply flush_settles in Ef as [Hs3 _]; [|apply Hp2].
  assert (exists hn, committed d3 slot hn (imap fs) (segments fs) /\ numbers hn = (checkpoint_sequence fs, next_inode fs, lfs_writer.sequence w)) as Hc3.
  { destruct Hc2 as (hn & Hcm & ?). exists hn. split; [|done]. eapply committed_same; [exact Hcm| |apply (rd_new_ok _ _ _ _ Hr)].
    intros x _. apply (se_disk c2 _ c3 _ x Hs3). apply Hp2. }
  destruct r3 as [[]|er]; cbn [from_block_error]; eexists _, _; (split; [done|]); cbn [fdisk fst snd];
    (split_and!; [|by right|done]); eapply evolves_trans; [exact Hev|by apply settles_evolves|exact Hev|by apply settles_evolves].
Qed.

(** C11: Syncing is atomic, in a file system that was synced before: its last
    checkpoint is in one slot and the next goes to the other. Let transfers fail at
    any sector while [sync] runs (a power failure makes all of them fail from some
    point on). If the disk is then read again by a device that answers, it mounts,
    with the whole state of the checkpoint before (inode map, segment bitmap, next
    inode, number of the next log block, checkpoint number), or with the one that
    was being written; and with the new one if [sync] returned successfully. No
    block of the log that was already on disk has changed. *)
Theorem sync_is_atomic (fs : Lfs D) h m segs w :
  ready fs h m segs -> writer fs = Some w ->
  exists r fs', sync fs = Ret (r, fs') /\
  forall dr, same_disk (fdisk fs').2 dr -> steady dr ->
  (exists g, mount dr = Ret (Ok g) /\ superblock g = superblock fs /\
    ((r <> Ok () /\ state_of g = (m, segs, lfs_checkpoint.next_inode h, last_segment_sequence h + 1, checkpoint_sequence fs)) \/
     state_of g = (imap fs, segments fs, next_inode fs, lfs_writer.sequence w + 1, checkpoint_sequence fs + 1))) /\
  forall x, sb_segment_size (superblock fs) <= x -> ~ dirty_at (fdisk fs).1 x -> content dr x = content (fdisk fs).2 x.
Proof.
  intros Hr Hw. destruct (sync_effect fs h m segs w Hr Hw) as (r & fs' & E & Hev & Hd & Ho). exists r, fs'. split; [exact E|].
  intros dr Hsame Hst. set (slot := lfs_writer.checkpoint_slot _ _) in *.
  assert (is_slot (superblock fs) slot) as Hsl by (unfold slot, lfs_writer.checkpoint_slot, is_slot; case_match; auto).
  destruct (slot_range _ _ slot (rd_geometry _ _ _ _ Hr) Hsl) as (S1 & S2 & S3). split.
  - destruct (recover fs h m segs (fdisk fs').2 dr slot Hr eq_refl) as [Hold Hnew]; try done.
    + apply (ev_ok _ _ _ _ _ Hev).
    + apply Hev.
    + intros x Hx Hn. apply (ev_content _ _ _ _ _ _ Hev); [|done]. intros Hdx%(rd_pending _ _ _ _ Hr). lia.
    + assert (forall hn, committed (fdisk fs').2 slot hn (imap fs) (segments fs) /\ numbers hn = (checkpoint_sequence fs, next_inode fs, lfs_writer.sequence w) ->
        exists g, mount dr = Ret (Ok g) /\ superblock g = superblock fs /\
          state_of g = (imap fs, segments fs, next_inode fs, lfs_writer.sequence w + 1, checkpoint_sequence fs + 1)) as Hn.
      { intros hn [Hc [= H1 H2 H3]]. destruct (Hnew hn Hc H1) as (g & ? & ? & Hs). exists g. by rewrite Hs, H2, H3. }
      destruct r as [[]|e]; [destruct (Ho eq_refl) as (hn & Hc); destruct (Hn hn Hc) as (g & ? & ? & ?); eauto|].
      destruct Hd as [Hsec|(hn & Hc)]; [|destruct (Hn hn Hc) as (g & ? & ? & ?); eauto].
      destruct (Hold Hsec) as (g & ? & ? & ?). exists g. split; [done|]. split; [done|]. by left.
  - intros x Hx Hn. rewrite (same_content (fdisk fs').2 dr) by done. apply (ev_content _ _ _ _ _ _ Hev); [done|].
    unfold in_run. lia.
Qed.
End recovery.

(** ** An example: a disk of four segments whose next header sector is bad *)

Definition demo_sb : LfsSuperblock := mk_superblock LFS_MAGIC LFS_VERSION 1024 256 4 1 65 3 4 0 1.
Definition demo_imap : LfsImap := [(0, 257)].
Definition demo_segs : LfsSegmentManager := lfs_segment.mk_segments [true; true; false; false] 4 256 2.
Definition demo_header : CheckpointHeader := mk_header CHECKPOINT_MAGIC 2 2 1 3 1 1 1.

Definition demo_disk : MsdcBlockDevice Card :=
  store_block (store_block (store_block (store_block (mk_msdc (mk_card ∅ [520]) 8192)
    SUPERBLOCK_BLOCK (superblock_to_block demo_sb))
    1 (to_block demo_header))
    2 (padded (lfs_imap.serialize demo_imap)))
    3 (padded (lfs_segment.serialize demo_segs)).

Definition demo_fs : Lfs (MsdcBlockDevice Card) :=
  mk_lfs (cache.new, demo_disk) [(0, 513); (1, 514)] (lfs_segment.mk_segments [true; true; true; false] 4 256 1) demo_sb 2
    (Some (lfs_writer.mk_writer 2 3 2)) 2 3.

Lemma demo_seg_ok l n : length l = 4%nat -> n = Z.of_nat (count_if negb l) -> lfs_segment.seg_ok (lfs_segment.mk_segments l 4 256 n).
Proof. intros Hl Hn. by split. Qed.

Lemma demo_state l m n :
  length l = 4%nat -> n = Z.of_nat (count_if negb l) -> lfs_imap.sorted m -> Forall (lfs_imap.entry_ok 256 1024) m ->
  state_ok demo_sb m (lfs_segment.mk_segments l 4 256 n).
Proof. intros. split; [done|done|by apply demo_seg_ok|done]. Qed.

Lemma length_block_of (h : CheckpointHeader) : length (to_block h) = Z.to_nat BLOCK_SIZE.
Proof. by rewrite to_block_bytes, length_app, length_replicate. Qed.

Lemma demo_contents x :
  content demo_disk x =
    if decide (x = 3) then padded (lfs_segment.serialize demo_segs) else
    if decide (x = 2) then padded (lfs_imap.serialize demo_imap) else
    if decide (x = 1) then to_block demo_header else
    if decide (x = 0) then superblock_to_block demo_sb else content (mk_msdc (mk_card ∅ [520]) 8192 : MsdcBlockDevice Card) x.
Proof.
  unfold demo_disk. rewrite !content_store; [done|..].
  - by rewrite superblock_block_bytes, length_app, length_replicate.
  - apply length_block_of.
  - by rewrite length_padded.
  - by rewrite length_padded.
Qed.

Lemma chunk_whole data : length data = Z.to_nat BLOCK_SIZE -> chunk data 0 = data.
Proof. intros H. unfold chunk. cbn [Z.mul Z.to_nat]. rewrite drop_0. apply take_ge. lia. Qed.

Lemma demo_committed : committed demo_disk 1 demo_header demo_imap demo_segs.
Proof.
  split.
  - rewrite demo_contents, !decide_False, decide_True by done. by apply from_to_block.
  - by split.
  - split; intros i Hi; (assert (i = 0) as -> by (change (0 <= i < 1) in Hi; lia)); rewrite demo_contents.
    + rewrite decide_False, decide_True by done. symmetry. apply chunk_whole. by rewrite length_padded.
    + rewrite decide_True by done. symmetry. apply chunk_whole. by rewrite length_padded.
  - done.
Qed.

Lemma demo_other h : header_at demo_disk 65 = Ok h -> False.
Proof.
  unfold header_at. rewrite demo_contents, !decide_False by done. unfold from_block. rewrite length_content by done.
  change (Z.to_nat BLOCK_SIZE <? HEADER_SERIALIZED_SIZE)%nat with false. cbv iota. unfold read_u32_le.
  rewrite drop_0, content_head by (done || lia). done.
Qed.

Lemma demo_ready : ready demo_fs demo_header demo_imap demo_segs.
Proof.
  assert (dev_ok demo_disk) as Hd by done. destruct (cache_new_ok demo_disk Hd) as (Hok & _ & Hn).
  split; cbn [demo_fs fdisk fst snd superblock imap segments checkpoint_sequence next_inode writer].
  - split; try done; [split; try done; repeat constructor; done|by left].
  - exact Hok.
  - intros x Hx. by destruct (Hn x).
  - unfold SUPERBLOCK_BLOCK. rewrite demo_contents, !decide_False, decide_True by done. apply superblock_roundtrip.
    split; try done; repeat constructor; done.
  - apply demo_committed.
  - apply demo_state; try done. repeat constructor; done.
  - done.
  - intros h' Hh. by apply demo_other in Hh.
  - apply demo_state; try done. repeat constructor; done.
  - done.
  - done.
  - by intros w [= <-].
Qed.

Lemma sync_is_atomic_witness :
  exists r fs', sync demo_fs = Ret (r, fs') /\
  exists g, mount (repaired (fdisk fs').2) = Ret (Ok g) /\ superblock g = demo_sb /\
    ((r <> Ok () /\ state_of g = (demo_imap, demo_segs, lfs_checkpoint.next_inode demo_header, last_segment_sequence demo_header + 1, 3)) \/
     state_of g = (imap demo_fs, segments demo_fs, next_inode demo_fs, 3, 4)).
Proof.
  destruct (sync_is_atomic demo_fs demo_header demo_imap demo_segs (lfs_writer.mk_writer 2 3 2) demo_ready eq_refl)
    as (r & fs' & E & H). exists r, fs'. split; [exact E|].
  destruct (sync_effect demo_fs demo_header demo_imap demo_segs (lfs_writer.mk_writer 2 3 2) demo_ready eq_refl)
    as (r' & fs'' & E' & Hev & _). rewrite E in E'. injection E' as <- <-.
  pose proof (ev_count _ _ _ _ _ Hev) as Hc. change (msdc_count (fdisk fs').2 = 8192) in Hc.
  apply H.
  - split; [change (0 <= msdc_count (fdisk fs').2 < 2 ^ 64); lia|done|done].
  - apply repaired_steady. lia.
Defined.
(** ** The first sync of a new file system

    [format] writes checkpoint 1 to slot A, and the first [sync] writes
    checkpoint 2, whose number is even, to slot A as well: no other checkpoint
    is there to fall back to. *)

Definition blank : MsdcBlockDevice Card := mk_msdc (mk_card ∅ []) 8192.

(** The card of a mounted file system, from now on failing at the sectors [l]. *)
Definition failing_at (l : list Z) (fs : Lfs (MsdcBlockDevice Card)) : Lfs (MsdcBlockDevice Card) :=
  let d := (fdisk fs).2 in
  mk_lfs ((fdisk fs).1, with_controller d (mk_card (sectors (controller d)) l)) (imap fs) (segments fs) (superblock fs) (next_sequence fs)
    (writer fs) (next_inode fs) (checkpoint_sequence fs).

Definition first_sync_fails (blank : MsdcBlockDevice Card) : bool :=
  match format blank with
  | Ret (Ok _, d) =>
      match mount d with
      | Ret (Ok fs) =>
          match create 0 [97] vfs.RegularFile fs with
          | Ret (Ok _, fs) =>
              match sync (failing_at [8] fs) with
              | Ret (Err _, fs) => match mount (repaired (fdisk fs).2) with Ret (Err lfs_imap.Corrupt) => true | _ => false end
              | _ => false
              end
          | _ => false
          end
      | _ => false
      end
  | _ => false
  end.

Lemma first_sync_run (blank : MsdcBlockDevice Card) :
  first_sync_fails blank = true ->
  exists d fs fs1 e fs2 id, format blank = Ret (Ok (), d) /\ mount d = Ret (Ok fs) /\ create 0 [97] vfs.RegularFile fs = Ret (Ok id, fs1) /\
  sync (failing_at [8] fs1) = Ret (Err e, fs2) /\ mount (repaired (fdisk fs2).2) = Ret (Err lfs_imap.Corrupt).
Proof.
  unfold first_sync_fails. intros H.
  destruct (format blank) as [[[[]|] d]|] eqn:E1; [|done..]. destruct (mount d) as [[fs|]|] eqn:E2; [|done..].
  destruct (create 0 [97] vfs.RegularFile fs) as [[[id|] fs1]|] eqn:E3; [|done..].
  destruct (sync (failing_at [8] fs1)) as [[[|e] fs2]|] eqn:E4; [done| |done].
  destruct (mount (repaired (fdisk fs2).2)) as [[|[]]|] eqn:E5; try done. by exists d, fs, fs1, e, fs2, id.
Qed.

Lemma first_sync_fails_blank : first_sync_fails blank = true.
Proof. vm_compute. reflexivity. Qed.

(** The first sync after formatting is not atomic. On a card of 8192
    sectors: format, mount, create a file, and sync while the sector of the
    header of slot A cannot be written. The sync fails, as it should, but the
    disk does not mount any more once the sector works again: its only
    checkpoint has lost its inode map. *)
Theorem first_sync_not_atomic :
  exists d fs fs1 e fs2 id, format blank = Ret (Ok (), d) /\ mount d = Ret (Ok fs) /\ create 0 [97] vfs.RegularFile fs = Ret (Ok id, fs1) /\
  sync (failing_at [8] fs1) = Ret (Err e, fs2) /\ mount (repaired (fdisk fs2).2) = Ret (Err lfs_imap.Corrupt).
Proof. exact (first_sync_run blank first_sync_fails_blank). Qed.
(** ** Segments of the last checkpoint

    The cleaner frees a segment when the map in memory refers to none of its
    blocks; the checkpoint on disk may still. *)

Definition cleaner_frees (blank : MsdcBlockDevice Card) : bool :=
  match format blank with
  | Ret (Ok _, d) =>
      match mount d with
      | Ret (Ok fs) =>
          match create 0 [97] vfs.RegularFile fs with
          | Ret (Ok _, fs1) =>
              match mount (fdisk fs1).2 with
              | Ret (Ok g) => bool_decide (lfs_imap.get (imap g) 0 = Some 257 /\ fst <$> lfs_segment.allocate (segments fs1) = Some 1)
              | _ => false
              end
          | _ => false
          end
      | _ => false
      end
  | _ => false
  end.

Lemma cleaner_frees_run (blank : MsdcBlockDevice Card) :
  cleaner_frees blank = true ->
  exists d fs fs1 g id, format blank = Ret (Ok (), d) /\ mount d = Ret (Ok fs) /\ create 0 [97] vfs.RegularFile fs = Ret (Ok id, fs1) /\
  mount (fdisk fs1).2 = Ret (Ok g) /\ lfs_imap.get (imap g) 0 = Some 257 /\ fst <$> lfs_segment.allocate (segments fs1) = Some 1.
Proof.
  unfold cleaner_frees. intros H.
  destruct (format blank) as [[[[]|] d]|] eqn:E1; [|done..]. destruct (mount d) as [[fs|]|] eqn:E2; [|done..].
  destruct (create 0 [97] vfs.RegularFile fs) as [[[id|] fs1]|] eqn:E3; [|done..].
  destruct (mount (fdisk fs1).2) as [[g|]|] eqn:E4; [|done..]. apply bool_decide_eq_true in H as [? ?]. by exists d, fs, fs1, g, id.
Qed.

Lemma cleaner_frees_blank : cleaner_frees blank = true.
Proof. vm_compute. reflexivity. Qed.

(** On a new file system of four segments, creating a file runs the cleaner,
    which gives segment 1 back: the segment of block 257, where the only
    checkpoint on disk has the root directory, is the next one to be written. *)
Theorem checkpointed_root_is_next_to_be_overwritten :
  exists d fs fs1 g id, format blank = Ret (Ok (), d) /\ mount d = Ret (Ok fs) /\ create 0 [97] vfs.RegularFile fs = Ret (Ok id, fs1) /\
  mount (fdisk fs1).2 = Ret (Ok g) /\ lfs_imap.get (imap g) 0 = Some 257 /\ fst <$> lfs_segment.allocate (segments fs1) = Some 1.
Proof. exact (cleaner_frees_run blank cleaner_frees_blank). Qed.
End lfs_recovery.
