(* ===== verification/LfsFile.v ===== *)
(** * Files of the log-structured file system

    What reading and writing a file do when the device answers: a write changes
    the bytes it names and no other byte of any file, and a read returns the
    bytes. The invariant is that of a log: the blocks that are referred to lie
    in used segments behind the write head, so an appended block is fresh. *)

From S2P Require Import Prelude Machine Fd Vfs Block Cache LfsMeta LfsCheckpoint LfsLog LfsCompact Lfs.
From Stdlib Require Import ZArith.
Open Scope Z_scope.

Module lfs_file.
Import block cache codec lfs_io lfs_disk lfs.

Section files.
Context {D : Type} `{!BlockDevice D, !BlockDeviceLaws D}.

(** A set of devices that serve every transfer in their range. *)
Definition dependable (H : D -> Prop) : Prop :=
  forall d, H d -> dev_ok d /\
  (forall lba n buf, 0 <= lba -> 0 <= n < 2 ^ 23 -> lba + n <= sector_count d -> length buf = Z.to_nat (n * SECTOR_SIZE) ->
     exists buf' d', read_sectors d lba n buf = (Ok (), buf', d') /\ H d') /\
  (forall lba n buf, 0 <= lba -> 0 <= n < 2 ^ 23 -> lba + n <= sector_count d -> length buf = Z.to_nat (n * SECTOR_SIZE) ->
     exists d', write_sectors d lba n buf = (Ok (), d') /\ H d').

Context (H : D -> Prop) (Hdep : dependable H).

Definition in_dev (d : D) (b : Z) : Prop := 0 <= b /\ (b + 1) * SECTORS_PER_BLOCK <= sector_count d.

Record good (c : BlockCache) (d : D) : Prop := {
  gd_ok : cache_ok c d;
  gd_dev : H d;
  gd_pending x : dirty_at c x -> in_dev d x;
}.

Lemma in_dev_block d b : dev_ok d -> in_dev d b -> is_block b.
Proof. intros Hd [? ?]. pose proof (count_range d Hd). unfold is_block. spb. Qed.

Lemma good_settles c d c' d' : good c d -> settles c d c' d' -> H d' -> good c' d'.
Proof.
  intros Hg Hs Hd. split; [apply Hs|done|]. intros x Hx. apply (se_dirty _ _ _ _ Hs), (gd_pending _ _ Hg) in Hx.
  unfold in_dev. by rewrite (se_count _ _ _ _ Hs).
Qed.

Lemma allocate_good c d : good c d -> exists i c' d', allocate_entry c d = (Ok i, c', d') /\ H d'.
Proof using Hdep.
  intros [Hok Hd Hp]. unfold allocate_entry. destruct (list_find _ _) as [[j e]|] eqn:Ef; [eauto|].
  apply list_find_None in Ef. pose proof (lru_victim_lt _ _ Hok) as Hlt.
  destruct (lookup_lt_is_Some_2 _ _ Hlt) as [e He]. rewrite (list_lookup_total_correct _ _ _ He).
  destruct (dirty e) eqn:Hdi; [|eauto]. unfold write_back. rewrite (list_lookup_total_correct _ _ _ He).
  assert (valid e = true) as Hv.
  { rewrite Forall_forall in Ef. destruct (valid e) eqn:Hv; [done|]. destruct (Ef e); [by eapply list_elem_of_lookup_2|done]. }
  rewrite (wrap_block _ (co_num _ _ Hok _ _ He Hv)).
  destruct (Hp (block_num e)) as [? ?]; [by exists (lru_victim c), e|].
  destruct (Hdep d Hd) as (_ & _ & Hw).
  destruct (Hw (block_num e * SECTORS_PER_BLOCK) SECTORS_PER_BLOCK (data e)) as (d' & E & Hd');
    [spb|apply spb_range|lia|by rewrite (co_data _ _ Hok _ _ He)|]. rewrite E. eauto.
Qed.

Lemma cache_read_good c d b :
  good c d -> in_dev d b -> exists c' d', cache.read c d b = (Ok (view c d b), c', d') /\ good c' d' /\ settles c d c' d'.
Proof using Hdep.
  intros Hg Hb. pose proof (in_dev_block d b (co_dev _ _ (gd_ok _ _ Hg)) Hb) as Hbl.
  destruct (cache.read c d b) as [[r c'] d'] eqn:E. destruct (read_settles _ _ _ _ _ _ (gd_ok _ _ Hg) Hbl E) as [Hs Hv].
  assert (is_ok r = true /\ H d') as [Ho Hd'].
  { unfold cache.read in E. destruct (find_entry c b) as [i|]; [simplify_eq; split; [done|apply Hg]|].
    destruct (allocate_good c d Hg) as (i & c0 & d0 & Ea & H0). rewrite Ea in E.
    destruct (allocate_settles _ _ _ _ _ (gd_ok _ _ Hg) Ea) as [Hs0 Ha]. destruct (Ha i eq_refl) as [(e & He & _) _].
    rewrite (list_lookup_total_correct _ _ _ He), (wrap_block b Hbl) in E. destruct (Hdep d0 H0) as (_ & Hr & _). destruct Hb as [Hb0 Hb1].
    destruct (Hr (b * SECTORS_PER_BLOCK) SECTORS_PER_BLOCK (data e)) as (buf' & d1 & Er & H1);
      [spb|apply spb_range|rewrite (se_count _ _ _ _ Hs0); lia|by rewrite (co_data _ _ (se_ok _ _ _ _ Hs0) _ _ He)|].
    rewrite Er in E. by simplify_eq. }
  destruct r as [buf|]; [|done]. exists c', d'. rewrite (Hv buf eq_refl). split_and!; [done|by eapply good_settles|done].
Qed.

Lemma cache_write_good c d b buf :
  good c d -> in_dev d b -> length buf = Z.to_nat BLOCK_SIZE ->
  exists c' d', cache.write c d b buf = (Ok (), c', d') /\ good c' d' /\ stores b buf c d c' d'.
Proof using Hdep.
  intros Hg Hb Hl. pose proof (in_dev_block d b (co_dev _ _ (gd_ok _ _ Hg)) Hb) as Hbl.
  destruct (cache.write c d b buf) as [[r c'] d'] eqn:E. pose proof (write_stores _ _ _ _ _ _ _ (gd_ok _ _ Hg) Hbl Hl E) as Hs.
  assert (r = Ok () /\ H d') as [-> Hd'].
  { unfold cache.write in E. destruct (find_entry c b) as [i|]; [simplify_eq; split; [done|apply Hg]|].
    destruct (allocate_good c d Hg) as (i & c0 & d0 & Ea & H0). rewrite Ea in E. by simplify_eq. }
  exists c', d'. split_and!; [done| |done]. split; [apply Hs|done|].
  intros x [->|Hx]%(st_dirty _ _ _ _ _ _ Hs); unfold in_dev; rewrite (st_count _ _ _ _ _ _ Hs); [done|by apply (gd_pending _ _ Hg)].
Qed.
(** ** Appending to the log *)

Import lfs_segment lfs_writer.
Implicit Types l : log D.

Definition lview l (b : Z) : list Z := view (l_disk l).1 (l_disk l).2 b.

(** A block that has been written: in a used segment, past its header, behind
    the head. *)
Record settled (segs : LfsSegmentManager) (w : lfs_writer.LfsWriter) (x : Z) : Prop := {
  st_seg : 1 <= x / segment_size segs < segment_count segs;
  st_used : is_free segs (x / segment_size segs) = false;
  st_data : x mod segment_size segs <> 0;
  st_head : x / segment_size segs = current_segment w -> x mod segment_size segs < write_position w;
}.

(** The invariant of the log; the blocks of [P] are in use. *)
Record log_ok (P : Z -> Prop) (nblocks : Z) l : Prop := {
  lk_good : good (l_disk l).1 (l_disk l).2;
  lk_segs : seg_ok (l_segs l);
  lk_size : 2 <= segment_size (l_segs l) /\ segment_count (l_segs l) * segment_size (l_segs l) <= nblocks;
  lk_fit : nblocks * SECTORS_PER_BLOCK <= sector_count (l_disk l).2;
  lk_reserved : is_free (l_segs l) 0 = false;
  lk_segment : 1 <= current_segment (l_writer l) < segment_count (l_segs l);
  lk_used : is_free (l_segs l) (current_segment (l_writer l)) = false;
  lk_position : 1 <= write_position (l_writer l) <= segment_size (l_segs l);
  lk_live x : P x -> settled (l_segs l) (l_writer l) x;
}.

(** The blocks an ordinary writer can still append. *)
Definition room (segs : LfsSegmentManager) (w : lfs_writer.LfsWriter) : Z :=
  (segment_size segs - write_position w) + (free_count segs - 1) * (segment_size segs - 1).

Lemma block_of_segment segs s k :
  2 <= segment_size segs -> 0 <= k < segment_size segs ->
  (segment_start_block segs s + k) / segment_size segs = s /\ (segment_start_block segs s + k) mod segment_size segs = k.
Proof.
  intros Hs Hk. unfold segment_start_block. rewrite Z.add_comm. rewrite Z.div_add by lia. rewrite Z.mod_add by lia.
  by rewrite Z.div_small, Z.mod_small by lia.
Qed.

(** What a step of the log keeps: the blocks in use, the geometry, the used
    segments; the head stays or moves to a free one. *)
Record log_step (P : Z -> Prop) (k : Z) l l' : Prop := {
  ls_view x : P x -> lview l' x = lview l x;
  ls_size : segment_size (l_segs l') = segment_size (l_segs l) /\ segment_count (l_segs l') = segment_count (l_segs l);
  ls_sectors : sector_count (l_disk l').2 = sector_count (l_disk l).2;
  ls_room : room (l_segs l') (l_writer l') = room (l_segs l) (l_writer l) - k;
  ls_used i : 0 <= i -> is_free (l_segs l) i = false ->
    is_free (l_segs l') i = false /\ (current_segment (l_writer l') = i -> current_segment (l_writer l) = i);
}.

(** The cleaner may use the last free segment; an ordinary writer leaves it. *)
Definition kept (reserve_ok : bool) : Z := if reserve_ok then 0 else 1.
Definition allocate_for (reserve_ok : bool) (segs : LfsSegmentManager) : option (Z * LfsSegmentManager) :=
  if reserve_ok then allocate_for_compaction segs else allocate segs.
Definition room_for (reserve_ok : bool) (segs : LfsSegmentManager) (w : lfs_writer.LfsWriter) : Z :=
  room segs w + (1 - kept reserve_ok) * (segment_size segs - 1).

Lemma allocate_for_any r segs : seg_ok segs -> kept r < free_count segs -> exists i segs', allocate_for r segs = Some (i, segs') /\ allocate_any segs = Some (i, segs').
Proof.
  intros Hs Hf. destruct r; cbn [kept allocate_for] in *.
  - destruct (allocate_any_total segs Hs Hf) as (i & segs' & E). by exists i, segs'.
  - destruct (allocate_total segs Hs Hf) as (i & segs' & E). exists i, segs'. split; [done|]. by apply allocate_reserve.
Qed.

(** A segment that has just been allocated, under the head. *)
Lemma fresh_segment P n r l :
  log_ok P n l -> kept r < free_count (l_segs l) -> exists i segs', allocate_for r (l_segs l) = Some (i, segs') /\
  segment_size segs' = segment_size (l_segs l) /\ segment_count segs' = segment_count (l_segs l) /\
  (forall j, 0 <= j -> is_free (l_segs l) j = false -> is_free segs' j = false /\ j <> i) /\
  forall seq, log_ok P n (mk_log (l_disk l) (l_imap l) segs' (mk_writer i 1 seq)) /\
  room segs' (mk_writer i 1 seq) = (free_count (l_segs l) - 1) * (segment_size (l_segs l) - 1).
Proof.
  intros Hl Hf. destruct l as [[c d] m segs w]; cbn [l_disk l_imap l_segs l_writer fst snd] in *.
  destruct Hl as [Hg Hs [Hz Hn] Hfit Hr0 Hseg Hused Hp Hlive]; cbn [l_disk l_imap l_segs l_writer fst snd] in *.
  destruct (allocate_for_any r segs Hs Hf) as (i & segs' & Ea & Ea').
  destruct (allocate_any_spec segs i segs' Hs Ea') as (Hs' & Hi & Hfree & Hfc & Hcnt & Hsz & Hother).
  assert (1 <= i) as Hi1 by (destruct (decide (i = 0)) as [->|]; [congruence|lia]).
  exists i, segs'. split_and!; [done..| |].
  { intros j Hj Hu. rewrite Hother by done. destruct (decide (j = i)) as [->|]; [congruence|done]. }
  intros seq. split; [|unfold room; cbn [write_position]; rewrite Hsz, Hfc; lia].
  split; cbn [l_disk l_imap l_segs l_writer fst snd write_position current_segment]; rewrite ?Hsz, ?Hcnt; try done; try lia.
  - rewrite Hother by lia. by rewrite decide_False by lia.
  - rewrite Hother by lia. by rewrite decide_True.
  - intros x Hx. destruct (Hlive x Hx) as [X1 X2 X3 X4]. split; rewrite ?Hsz, ?Hcnt; try done.
    + rewrite Hother by lia. by destruct (decide (x / segment_size segs = i)).
    + cbn. intros Hc. congruence.
Qed.

Lemma log_disk_ok P n l c' d' :
  log_ok P n l -> good c' d' -> sector_count d' = sector_count (l_disk l).2 -> log_ok P n (mk_log (c', d') (l_imap l) (l_segs l) (l_writer l)).
Proof. intros [] Hg Hc. split; cbn [l_disk l_imap l_segs l_writer fst snd] in *; try done. by rewrite Hc. Qed.

Lemma seal_ok P n r l :
  log_ok P n l -> kept r < free_count (l_segs l) -> write_position (l_writer l) = segment_size (l_segs l) ->
  exists l', seal_segment_inner r l = Ret (Ok (), l') /\ log_ok P n l' /\ log_step P 0 l l' /\ l_imap l' = l_imap l /\
  write_position (l_writer l') = 1.
Proof using Hdep.
  intros Hl Hf Hpos. destruct (fresh_segment P n r l Hl Hf) as (i & segs' & Ea & Hsz & Hcnt & Hkeep & Hfresh).
  destruct l as [[c d] m segs w]; cbn [l_disk l_imap l_segs l_writer fst snd] in *.
  destruct Hl as [Hg Hs [Hz Hn] Hfit Hr0 Hseg Hused Hp Hlive]; cbn [l_disk l_imap l_segs l_writer fst snd] in *.
  unfold seal_segment_inner. rewrite lg_bind_run. cbn [get_log l_segs l_writer]. unfold allocate_for in Ea. rewrite Ea, lg_bind_run.
  cbn [set_segs l_disk l_imap l_writer].
  rewrite lg_bind_run. unfold on_disk, attempt, cache_write. cbn [l_disk l_imap l_segs l_writer].
  set (hb := segment_start_block segs' (current_segment w)).
  assert (hb mod segment_size segs = 0) as Hm.
  { unfold hb. rewrite <- Hsz. rewrite <- (Z.add_0_r (segment_start_block _ _)). apply block_of_segment; lia. }
  set (buf := segment_header_to_block _).
  destruct (cache_write_good c d hb buf Hg) as (c' & d' & Ew & Hg' & Hst).
  { unfold in_dev, hb, segment_start_block. rewrite Hsz. split; [nia|]. rewrite sectors_per_block in *. nia. }
  { apply length_segment_header. }
  rewrite Ew. cbn [from_block_error set_writer l_disk l_imap l_segs].
  destruct (Hfresh (wrap64 (sequence w + 1))) as [Hl' Hr]. eexists. split; [reflexivity|]. split; [|split; [|done]].
  - apply (log_disk_ok P n _ c' d' Hl' Hg'). apply Hst.
  - split; cbn [l_disk l_imap l_segs l_writer fst snd current_segment]; try done.
    + intros x Hx. unfold lview. cbn [l_disk fst snd]. rewrite (st_view _ _ _ _ _ _ Hst).
      destruct (decide (x = hb)) as [->|]; [|done]. destruct (Hlive hb Hx) as [_ _ X3 _]. congruence.
    + apply Hst.
    + rewrite Hr. unfold room. lia.
    + intros j Hj Hu. destruct (Hkeep j Hj Hu) as [? ?]. split; [done|]. intros ->. done.
Qed.

Lemma log_step_trans (P Q : Z -> Prop) k1 k2 l l1 l2 :
  (forall x, P x -> Q x) -> log_step P k1 l l1 -> log_step Q k2 l1 l2 -> log_step P (k1 + k2) l l2.
Proof.
  intros HPQ [V1 [S1 S1'] C1 R1 U1] [V2 [S2 S2'] C2 R2 U2]. split.
  - intros x Hx. by rewrite V2, V1 by auto.
  - by rewrite S2, S1, S2', S1'.
  - by rewrite C2, C1.
  - lia.
  - intros i Hi Hu. destruct (U1 i Hi Hu) as [Hu1 Hc1]. destruct (U2 i Hi Hu1) as [Hu2 Hc2]. auto.
Qed.

Lemma log_step_refl P l : log_step P 0 l l.
Proof. split; try done. lia. Qed.

(** The head moves on when its segment is full, if it may. *)
Lemma make_room_cases P n r l :
  log_ok P n l ->
  (exists l', make_room r l = Ret (Ok (), l') /\ log_ok P n l' /\ log_step P 0 l l' /\ l_imap l' = l_imap l /\
     write_position (l_writer l') < segment_size (l_segs l')) \/
  (make_room r l = Ret (Err lfs_imap.NoFreeSegments, l) /\ room_for r (l_segs l) (l_writer l) <= 0).
Proof using Hdep.
  intros Hl. unfold make_room. rewrite lg_bind_run. cbn [get_log].
  pose proof (lk_position _ _ _ Hl) as Hp. pose proof (lk_size _ _ _ Hl) as [Hz _].
  destruct (Z.leb_spec (segment_size (l_segs l)) (write_position (l_writer l))) as [Hfull|Hfree].
  - destruct (decide (kept r < free_count (l_segs l))) as [Hf|Hf].
    + left. destruct (seal_ok P n r l Hl Hf ltac:(lia)) as (l' & E & Hl' & Hs & Hi & Hw). exists l'. split_and!; try done.
      rewrite Hw. pose proof (lk_size _ _ _ Hl'). lia.
    + right. split; [|unfold room_for, room; destruct r; cbn [kept] in *; nia].
      unfold seal_segment_inner. rewrite lg_bind_run. cbn [get_log].
      assert (allocate_for r (l_segs l) = None) as Ea; [|unfold allocate_for in Ea; by rewrite Ea].
      pose proof (lk_segs _ _ _ Hl) as Hs. destruct r; cbn [kept allocate_for] in *.
      * unfold allocate_for_compaction, allocate_any. destruct (list_find _ _) as [[j b]|] eqn:Ef; [|done].
        apply list_find_Some in Ef as (Hj & -> & _). rewrite (so_free _ Hs) in Hf.
        assert (0 < count_if negb (bitmap (l_segs l)))%nat; [|lia]. apply count_if_pos. exists false.
        split; [by eapply list_elem_of_lookup_2|done].
      * unfold allocate. by rewrite (proj2 (Z.leb_le _ _)) by lia.
  - left. exists l. split_and!; try done. apply log_step_refl.
Qed.

Lemma append_ok P n l buf :
  log_ok P n l -> write_position (l_writer l) < segment_size (l_segs l) -> length buf = Z.to_nat BLOCK_SIZE ->
  exists b l', append_block buf l = Ret (Ok b, l') /\ log_ok (fun x => P x \/ x = b) n l' /\ log_step P 1 l l' /\ l_imap l' = l_imap l /\
  ~ P b /\ lview l' b = buf /\ segment_size (l_segs l) <= b < n.
Proof using Hdep.
  intros Hl Hlt Hb. destruct l as [[c d] m segs w]; cbn [l_disk l_imap l_segs l_writer fst snd] in *.
  destruct Hl as [Hg Hs [Hz Hn] Hfit Hr0 Hseg Hused Hp Hlive]; cbn [l_disk l_imap l_segs l_writer fst snd] in *.
  unfold append_block. rewrite lg_bind_run. cbn [get_log l_segs l_writer]. rewrite lg_bind_run. unfold on_disk, cache_write.
  cbn [l_disk l_imap l_segs l_writer]. set (b := segment_start_block segs (current_segment w) + write_position w).
  destruct (block_of_segment segs (current_segment w) (write_position w) Hz ltac:(lia)) as [Hq Hm]. fold b in Hq, Hm.
  assert (segment_size segs <= b < n) as Hrange by (unfold b, segment_start_block in *; nia).
  destruct (cache_write_good c d b buf Hg) as (c' & d' & Ew & Hg' & Hst); [|done|].
  { unfold in_dev. split; [lia|]. rewrite sectors_per_block in *. nia. }
  rewrite Ew. cbn [from_block_error]. rewrite lg_bind_run. cbn [set_writer l_disk l_imap l_segs]. unfold mret, lg_ret.
  assert (~ P b) as HPb.
  { intros Hx. destruct (Hlive b Hx) as [_ _ _ X4]. rewrite Hq, Hm in X4. specialize (X4 eq_refl). lia. }
  assert (wrap32 (write_position w + 1) = write_position w + 1) as Hwr.
  { apply wrap32_small. pose proof (so_size _ Hs) as Hu. unfold is_u32 in *. lia. }
  eexists b, _. split; [reflexivity|]. cbn [l_disk l_imap l_segs l_writer fst snd write_position current_segment]. rewrite Hwr.
  split; [|split; [|split_and!; try done]].
  - split; cbn [l_disk l_imap l_segs l_writer fst snd write_position current_segment]; try done; try lia.
    + by rewrite (st_count _ _ _ _ _ _ Hst).
    + intros x [Hx| ->].
      * destruct (Hlive x Hx) as [X1 X2 X3 X4]. split; try done. cbn. intros Hc. specialize (X4 Hc). lia.
      * split; rewrite ?Hq, ?Hm; cbn; try done; lia.
  - split; cbn [l_disk l_imap l_segs l_writer fst snd write_position]; try done.
    + intros x Hx. unfold lview. cbn [l_disk fst snd]. rewrite (st_view _ _ _ _ _ _ Hst). by destruct (decide (x = b)) as [->|].
    + apply Hst.
    + unfold room. cbn [write_position]. lia.
  - unfold lview. cbn [l_disk fst snd]. by rewrite (st_view _ _ _ _ _ _ Hst), decide_True.
  - apply Hrange.
  - apply Hrange.
Qed.

(** A block was appended at [b], a fresh place. *)
Record appended (P : Z -> Prop) (n : Z) l (b : Z) l' : Prop := {
  ap_ok : log_ok (fun x => P x \/ x = b) n l';
  ap_step : log_step P 1 l l';
  ap_fresh : ~ P b;
  ap_range : segment_size (l_segs l) <= b < n;
}.

(** Data blocks are appended as long as there is room. *)
Lemma write_data_cases P n r l buf :
  log_ok P n l -> length buf = Z.to_nat BLOCK_SIZE ->
  (exists b l', write_data_block_inner buf r l = Ret (Ok b, l') /\ appended P n l b l' /\ l_imap l' = l_imap l /\ lview l' b = buf) \/
  (write_data_block_inner buf r l = Ret (Err lfs_imap.NoFreeSegments, l) /\ room_for r (l_segs l) (l_writer l) <= 0).
Proof using Hdep.
  intros Hl Hb. unfold write_data_block_inner. rewrite lg_bind_run.
  destruct (make_room_cases P n r l Hl) as [(l1 & E1 & Hl1 & Hs1 & Hi1 & Hlt)|[E1 Hr]]; rewrite E1; [left|by right].
  destruct (append_ok P n l1 buf Hl1 Hlt Hb) as (b & l2 & E2 & Hl2 & Hs2 & Hi2 & HP & Hv & Hrg).
  exists b, l2. destruct (ls_size _ _ _ _ Hs1) as [Hz _]. split_and!; try done; [split; try done|congruence].
  - eapply (log_step_trans P P 0 1); [auto|exact Hs1|exact Hs2].
  - lia.
Qed.

Lemma length_write_to i : length (direct i) = DIRECT_BLOCK_COUNT -> length (write_to i lfs_checkpoint.zero_block 0) = Z.to_nat BLOCK_SIZE.
Proof.
  intros Hd. unfold lfs_checkpoint.zero_block. rewrite write_to_bytes; [|done|unfold BLOCK_SIZE; lia].
  rewrite length_app, length_replicate. unfold inode_bytes. rewrite !length_app, length_direct, Hd. done.
Qed.

(** So are inodes, and the map follows. *)
Lemma write_inode_cases P n r l id i :
  log_ok P n l -> inode_ok i ->
  (exists b l', write_inode_inner id i r l = Ret (Ok b, l') /\ appended P n l b l' /\ l_imap l' = lfs_imap.insert (l_imap l) id b /\
     read_from (lview l' b) 0 = Ok i) \/
  (write_inode_inner id i r l = Ret (Err lfs_imap.NoFreeSegments, l) /\ room_for r (l_segs l) (l_writer l) <= 0).
Proof using Hdep.
  intros Hl Hi. pose proof (write_data_cases P n r l (write_to i lfs_checkpoint.zero_block 0) Hl (length_write_to i (proj1 (io_direct _ Hi)))) as Hc.
  unfold write_data_block_inner in Hc. unfold write_inode_inner. rewrite lg_bind_run in Hc |- *.
  destruct Hc as [(b & l1 & E & [Hl1 Hs HP Hrg] & Hm & Hv)|[E Hr]]; [left|right].
  - destruct (make_room r l) as [[[[]|] l0]|]; [|done..]. rewrite lg_bind_run, E, lg_bind_run.
    cbn [get_log]. rewrite lg_bind_run. cbn [set_imap]. unfold mret, lg_ret. eexists b, _. split; [reflexivity|]. rewrite Hm.
    cbn [l_imap]. split_and!; [split; try done|done|].
    + by destruct Hl1; split.
    + by destruct Hs; split.
    + unfold lview in Hv |- *. cbn [l_disk]. rewrite Hv. by apply inode_block_roundtrip.
  - split; [|done]. destruct (make_room_cases P n r l Hl) as [(l1 & E1 & Hl1 & Hs1 & Hi1 & Hlt)|[E1 _]]; [|by rewrite E1].
    rewrite E1 in E. destruct (append_ok P n l1 (write_to i lfs_checkpoint.zero_block 0) Hl1 Hlt) as (b & l2 & E2 & _); [|congruence].
    apply length_write_to, Hi.
Qed.

(** An ordinary writer with room. *)
Lemma write_data_block_ok P n l buf :
  log_ok P n l -> 1 <= room (l_segs l) (l_writer l) -> length buf = Z.to_nat BLOCK_SIZE ->
  exists b l', write_data_block buf l = Ret (Ok b, l') /\ appended P n l b l' /\ l_imap l' = l_imap l /\ lview l' b = buf.
Proof using Hdep.
  intros Hl Hr Hb. destruct (write_data_cases P n false l buf Hl Hb) as [Hc|[_ Hz]]; [exact Hc|]. unfold room_for in Hz. cbn [kept] in Hz. lia.
Qed.

Lemma write_inode_ok P n l id i :
  log_ok P n l -> 1 <= room (l_segs l) (l_writer l) -> inode_ok i ->
  exists b l', write_inode id i l = Ret (Ok b, l') /\ appended P n l b l' /\ l_imap l' = lfs_imap.insert (l_imap l) id b /\
  read_from (lview l' b) 0 = Ok i.
Proof using Hdep.
  intros Hl Hr Hi. destruct (write_inode_cases P n false l id i Hl Hi) as [Hc|[_ Hz]]; [exact Hc|]. unfold room_for in Hz. cbn [kept] in Hz. lia.
Qed.
End files.
End lfs_file.
