(* ===== verification/LfsSpec.v ===== *)
(** * Files as byte arrays

    The refinement of the log-structured file system to files that are arrays of
    bytes: on a device that answers, with room in the log, reading, writing and
    truncating by inode number return and change exactly what the arrays say. *)

From S2P Require Import Prelude Machine Fd Vfs Block Cache LfsMeta LfsCheckpoint LfsLog LfsCompact Lfs LfsFile.
From Stdlib Require Import ZArith.
Open Scope Z_scope.

Module lfs_spec.
Import vfs block cache codec lfs_io lfs_disk lfs lfs_file.
Abbreviation segment_size := lfs_segment.segment_size.
Abbreviation segment_count := lfs_segment.segment_count.
Abbreviation write_position := lfs_writer.write_position.

Section spec.
Context {D : Type} `{!BlockDevice D, !BlockDeviceLaws D} (H : D -> Prop) (Hdep : dependable H).
Implicit Types s : Lfs D.

Definition log_at s (w : LfsWriter) : lfs_writer.log D := lfs_writer.mk_log (fdisk s) (imap s) (segments s) w.
Definition fview s (b : Z) : list Z := view (fdisk s).1 (fdisk s).2 b.

Definition inode_at s (id : Z) : option DiskInode :=
  match lfs_imap.get (imap s) id with
  | Some b => match read_from (fview s b) 0 with Ok i => Some i | Err _ => None end
  | None => None
  end.

(** A byte of a file; a hole holds zeros. *)
Definition fbyte s (i : DiskInode) (k : Z) : Z :=
  let p := direct i !!! Z.to_nat (k / BLOCK_SIZE) in
  if p =? 0 then 0 else fview s p !!! Z.to_nat (k mod BLOCK_SIZE).

(** The blocks in use. *)
Definition live s (x : Z) : Prop :=
  (exists id, lfs_imap.get (imap s) id = Some x) \/ exists id i, inode_at s id = Some i /\ x ∈ direct i /\ x <> 0.

(** Blocks that can be appended before a segment must be reclaimed. *)
Definition froom s : Z :=
  match writer s with
  | Some w => room (segments s) w
  | None => (lfs_segment.free_count (segments s) - 1) * (segment_size (segments s) - 1)
  end.

(** The room at which the cleaner starts. *)
Definition reserve s : Z :=
  (Z.max (wrap32 (segment_count (segments s) * lfs_compact.COMPACT_THRESHOLD_PERCENT / 100)) 1 + 1) * (segment_size (segments s) - 1).

(** A file system that has no head yet is as one whose head is on a full
    segment. *)
Definition headed P s : Prop :=
  exists w, log_ok H P (block_count (superblock s)) (log_at s w) /\
  (writer s = Some w \/ writer s = None /\ write_position w = segment_size (segments s)).

Definition inode_fits (i : DiskInode) : Prop := inode_ok i /\ size i <= LFS_MAX_FILE_SIZE.

Record fs_ok (k : Z) s : Prop := {
  fk_head : headed (live s) s;
  fk_super : sb_segment_size (superblock s) = segment_size (segments s);
  fk_room : reserve s + k <= froom s;
  fk_inode id b : lfs_imap.get (imap s) id = Some b -> exists i, inode_at s id = Some i /\ inode_fits i;
}.

Lemma headed_room s w :
  (writer s = Some w \/ writer s = None /\ write_position w = segment_size (segments s)) -> froom s = room (segments s) w.
Proof. unfold froom, room. intros [->|[-> ->]]; lia. Qed.

(** ** Steps that only move the cache *)

Record quiet s s' : Prop := {
  qt_imap : imap s' = imap s;
  qt_segs : segments s' = segments s;
  qt_super : superblock s' = superblock s;
  qt_writer : writer s' = writer s;
  qt_counters : (next_sequence s', next_inode s', checkpoint_sequence s') = (next_sequence s, next_inode s, checkpoint_sequence s);
  qt_good : good H (fdisk s').1 (fdisk s').2;
  qt_view b : fview s' b = fview s b;
  qt_count : sector_count (fdisk s').2 = sector_count (fdisk s).2;
}.

Lemma quiet_after s s1 s2 : quiet s s1 -> quiet s1 s2 -> quiet s s2.
Proof. intros [] []. split; intros; congruence. Qed.

Lemma quiet_inode s s' id : quiet s s' -> inode_at s' id = inode_at s id.
Proof. intros Q. unfold inode_at. rewrite (qt_imap _ _ Q). destruct (lfs_imap.get _ _); [|done]. by rewrite (qt_view _ _ Q). Qed.

Lemma quiet_byte s s' i k : quiet s s' -> fbyte s' i k = fbyte s i k.
Proof. intros Q. unfold fbyte. by rewrite (qt_view _ _ Q). Qed.

Lemma quiet_live s s' x : quiet s s' -> live s' x -> live s x.
Proof.
  intros Q. unfold live. rewrite (qt_imap _ _ Q). intros [?|(id & i & Hi & ?)]; [by left|right; exists id, i].
  by rewrite <- (quiet_inode _ _ _ Q).
Qed.

Lemma log_ok_weaken (P Q : Z -> Prop) n (l : lfs_writer.log D) : (forall x, Q x -> P x) -> log_ok H P n l -> log_ok H Q n l.
Proof. intros HPQ []. split; auto. Qed.

Lemma quiet_headed P s s' : quiet s s' -> headed P s -> headed P s'.
Proof.
  intros Q (w & [] & Hw). exists w. rewrite (qt_segs _ _ Q), (qt_super _ _ Q), (qt_writer _ _ Q). split; [|done].
  split; cbn [log_at lfs_writer.l_disk lfs_writer.l_segs lfs_writer.l_writer] in *; rewrite ?(qt_segs _ _ Q), ?(qt_count _ _ Q); try done.
  apply Q.
Qed.

Lemma quiet_ok k s s' : quiet s s' -> fs_ok k s -> fs_ok k s'.
Proof.
  intros Q [Hh Hs Hr Hi]. split.
  - apply (quiet_headed _ s s' Q). destruct Hh as (w & Hl & Hw). exists w. split; [|done].
    eapply log_ok_weaken, Hl. intros x. apply (quiet_live _ _ _ Q).
  - by rewrite (qt_super _ _ Q), (qt_segs _ _ Q).
  - revert Hr. unfold reserve, froom. by rewrite (qt_writer _ _ Q), (qt_segs _ _ Q).
  - intros id b. rewrite (quiet_inode _ _ _ Q), (qt_imap _ _ Q). apply Hi.
Qed.

(** ** Reading *)

(** What the extent check lets through. *)
Definition in_log s (x : Z) : Prop := sb_segment_size (superblock s) <= x < block_count (superblock s).

Lemma settled_range P n (l : lfs_writer.log D) x : log_ok H P n l -> P x -> segment_size (lfs_writer.l_segs l) <= x < n.
Proof.
  intros Hl Hx. destruct (lk_live _ _ _ _ Hl x Hx) as [Hs _ _ _]. destruct (lk_size _ _ _ _ Hl) as [Hz Hn].
  pose proof (Z_div_mod_eq_full x (segment_size (lfs_writer.l_segs l))). pose proof (Z.mod_pos_bound x (segment_size (lfs_writer.l_segs l)) ltac:(lia)).
  nia.
Qed.

Lemma headed_range P s x : headed P s -> sb_segment_size (superblock s) = segment_size (segments s) -> P x -> in_log s x.
Proof. intros (w & Hl & _) Hs Hx. unfold in_log. rewrite Hs. apply (settled_range _ _ _ _ Hl Hx). Qed.

Lemma headed_dev P s x : headed P s -> P x -> in_dev (fdisk s).2 x.
Proof.
  intros (w & Hl & _) Hx. pose proof (settled_range _ _ _ _ Hl Hx). pose proof (lk_fit _ _ _ _ Hl). pose proof (lk_size _ _ _ _ Hl).
  unfold in_dev. rewrite sectors_per_block in *. cbn [log_at lfs_writer.l_disk lfs_writer.l_segs] in *. lia.
Qed.

Lemma headed_good P s : headed P s -> good H (fdisk s).1 (fdisk s).2.
Proof. intros (w & Hl & _). apply (lk_good _ _ _ _ Hl). Qed.

Lemma read_valid_ok P s x :
  headed P s -> sb_segment_size (superblock s) = segment_size (segments s) -> P x ->
  exists s', read_valid x s = Ret (Ok (fview s x), s') /\ quiet s s'.
Proof using Hdep.
  intros Hh Hs Hx. destruct (headed_range P s x Hh Hs Hx) as [Hlo Hhi]. unfold read_valid. rewrite fsm_bind_run. cbn [get_fs].
  rewrite fsm_bind_run. unfold pure, validate_block_num.
  rewrite (proj2 (Z.ltb_ge _ _)), (proj2 (Z.leb_gt _ _)) by lia. cbn [orb]. unfold disk_op, cache_read.
  destruct s as [[c d] m g sb ns w ni cs]; cbn [fdisk superblock segments] in *.
  destruct (cache_read_good H Hdep c d x (headed_good _ _ Hh) (headed_dev _ _ _ Hh Hx)) as (c' & d' & E & G & S). rewrite E.
  cbn [from_block_error]. eexists. split; [reflexivity|]. split; cbn [fdisk fst snd]; try done; [|apply S].
  intros b. unfold fview. cbn [fdisk fst snd]. apply (se_view _ _ _ _ S).
Qed.

Lemma fk_get k s id i : fs_ok k s -> inode_at s id = Some i -> inode_fits i.
Proof.
  intros Hk Hi. destruct (lfs_imap.get (imap s) id) as [b|] eqn:Eg; [|by unfold inode_at in Hi; rewrite Eg in Hi].
  destruct (fk_inode _ _ Hk id b Eg) as (j & Hj & Hf). congruence.
Qed.

Lemma load_inode_ok k s id i :
  fs_ok k s -> inode_at s id = Some i -> exists s', load_inode id s = Ret (Ok i, s') /\ quiet s s'.
Proof using Hdep.
  intros Hk Hi. unfold load_inode. rewrite fsm_bind_run. cbn [get_fs]. rewrite fsm_bind_run. unfold inode_at in Hi.
  destruct (lfs_imap.get (imap s) id) as [b|] eqn:Eg; [|done]. cbn [pure ok_or]. rewrite fsm_bind_run.
  destruct (read_valid_ok (live s) s b (fk_head _ _ Hk) (fk_super _ _ Hk)) as (s' & E & Q); [left; eauto|].
  rewrite E. destruct (read_from (fview s b) 0) as [j|]; simplify_eq. exists s'. done.
Qed.

Lemma load_inode_missing k s id : fs_ok k s -> inode_at s id = None -> load_inode id s = Ret (Err fd.NotFound, s).
Proof.
  intros Hk Hi. unfold load_inode. rewrite fsm_bind_run. cbn [get_fs]. rewrite fsm_bind_run.
  destruct (lfs_imap.get (imap s) id) as [b|] eqn:Eg; [|done]. destruct (fk_inode _ _ Hk id b Eg) as (j & Hj & _). congruence.
Qed.

Lemma direct_lt k : 0 <= k < LFS_MAX_FILE_SIZE -> (Z.to_nat (k / BLOCK_SIZE) < DIRECT_BLOCK_COUNT)%nat.
Proof. unfold LFS_MAX_FILE_SIZE, DIRECT_BLOCK_COUNT, BLOCK_SIZE. intros. Z.to_euclidean_division_equations; lia. Qed.

(** The pointer a byte is found through. *)
Lemma direct_elem (ps : list Z) k :
  length ps = DIRECT_BLOCK_COUNT -> 0 <= k < LFS_MAX_FILE_SIZE -> ps !!! Z.to_nat (k / BLOCK_SIZE) ∈ ps.
Proof. intros Hl Hk. apply list_elem_of_lookup_total_2. rewrite Hl. by apply direct_lt. Qed.

(** A piece of a block as bytes of the file. *)
Lemma block_bytes s i x k n :
  length (direct i) = DIRECT_BLOCK_COUNT -> 0 <= k -> 0 <= n -> k mod BLOCK_SIZE + n <= BLOCK_SIZE ->
  direct i !!! Z.to_nat (k / BLOCK_SIZE) = x ->
  fbyte s i <$> seqZ k n =
    if x =? 0 then replicate (Z.to_nat n) 0
    else (fun j => fview s x !!! Z.to_nat j) <$> seqZ (k mod BLOCK_SIZE) n.
Proof.
  intros Hd Hk Hn Hle Hx. apply list_eq. intros j.
  assert (BLOCK_SIZE = 4096) as Hb by done.
  rewrite list_lookup_fmap. destruct (decide (Z.of_nat j < n)) as [Hj|Hj].
  - rewrite lookup_seqZ_lt by lia. cbn [fmap option_fmap option_map].
    assert ((k + Z.of_nat j) / BLOCK_SIZE = k / BLOCK_SIZE /\ (k + Z.of_nat j) mod BLOCK_SIZE = k mod BLOCK_SIZE + Z.of_nat j) as [E1 E2].
    { rewrite Hb in *. Z.to_euclidean_division_equations; lia. }
    unfold fbyte. rewrite E1, E2, Hx. destruct (x =? 0).
    + by rewrite lookup_replicate_2 by lia.
    + rewrite list_lookup_fmap, lookup_seqZ_lt by lia. done.
  - rewrite lookup_seqZ_ge by lia. destruct (x =? 0).
    + symmetry. apply lookup_ge_None. rewrite length_replicate. lia.
    + by rewrite list_lookup_fmap, lookup_seqZ_ge by lia.
Qed.

Lemma take_drop_seqZ (l : list Z) a n :
  0 <= a -> 0 <= n -> a + n <= Z.of_nat (length l) -> take (Z.to_nat n) (drop (Z.to_nat a) l) = (fun j => l !!! Z.to_nat j) <$> seqZ a n.
Proof.
  intros Ha Hn Hl. apply list_eq. intros j. rewrite list_lookup_fmap. destruct (decide (Z.of_nat j < n)) as [Hj|Hj].
  - rewrite lookup_seqZ_lt, lookup_take_lt, lookup_drop by lia. cbn. replace (Z.to_nat (a + Z.of_nat j)) with (Z.to_nat a + j)%nat by lia.
    apply list_lookup_lookup_total_lt. lia.
  - rewrite lookup_seqZ_ge by lia. by rewrite lookup_take_ge by lia.
Qed.
Lemma length_view c (d : D) b : cache_ok c d -> length (view c d b) = Z.to_nat BLOCK_SIZE.
Proof.
  intros Hok. unfold view. destruct (list_find _ _) as [[j e]|] eqn:E; [|apply length_content, Hok].
  apply list_find_Some in E as (Hj & _ & _). apply (co_data _ _ Hok _ _ Hj).
Qed.

Lemma headed_length P s b : headed P s -> length (fview s b) = Z.to_nat BLOCK_SIZE.
Proof. intros Hh. apply length_view, (gd_ok _ _ _ (headed_good _ _ Hh)). Qed.

(** Reading one piece. *)
Lemma read_piece_ok P s i k n :
  headed P s -> sb_segment_size (superblock s) = segment_size (segments s) ->
  length (direct i) = DIRECT_BLOCK_COUNT -> (forall p, p ∈ direct i -> p <> 0 -> P p) ->
  0 <= k < LFS_MAX_FILE_SIZE -> 0 <= n -> k mod BLOCK_SIZE + n <= BLOCK_SIZE ->
  let p := direct i !!! Z.to_nat (k / BLOCK_SIZE) in
  exists s', (if p =? 0 then mret (replicate (Z.to_nat n) 0) else
              buf ← read_valid p; mret (take (Z.to_nat n) (drop (Z.to_nat (k mod BLOCK_SIZE)) buf))) s
             = Ret (Ok (fbyte s i <$> seqZ k n), s') /\ quiet s s'.
Proof using Hdep.
  intros Hh Hs Hd Hp Hk Hn Hle p. rewrite (block_bytes s i p k n) by (done || lia).
  assert (quiet s s) as Qr by (split; try done; by eapply headed_good).
  destruct (Z.eqb_spec p 0) as [Hz|Hz]; [eexists; split; [reflexivity|done]|]. rewrite fsm_bind_run.
  destruct (read_valid_ok P s p Hh Hs) as (s' & E & Q).
  { apply Hp; [|done]. by apply direct_elem. }
  rewrite E. exists s'. split; [|done]. pose proof (Z.mod_pos_bound k BLOCK_SIZE eq_refl).
  rewrite take_drop_seqZ; [done|lia|lia|]. rewrite (headed_length P) by done. lia.
Qed.

Lemma file_read_loop P i offset to_read fuel : forall s bytes_read,
  headed P s -> sb_segment_size (superblock s) = segment_size (segments s) ->
  length (direct i) = DIRECT_BLOCK_COUNT -> (forall p, p ∈ direct i -> p <> 0 -> P p) ->
  0 <= offset -> 0 <= bytes_read <= to_read -> offset + to_read <= LFS_MAX_FILE_SIZE ->
  (bytes_read = to_read \/ 13 <= Z.of_nat fuel + (offset + bytes_read) / BLOCK_SIZE) ->
  exists s', read_loop fuel i offset to_read bytes_read s = Ret (Ok (fbyte s i <$> seqZ (offset + bytes_read) (to_read - bytes_read)), s') /\ quiet s s'.
Proof using Hdep.
  induction fuel as [|fuel IH]; intros s br Hh Hs Hd Hp Ho Hb Hm Hf; cbn [read_loop].
  - assert (br = to_read) as ->.
    { unfold LFS_MAX_FILE_SIZE, DIRECT_BLOCK_COUNT, BLOCK_SIZE in *. Z.to_euclidean_division_equations; lia. }
    rewrite Z.sub_diag. eexists. split; [reflexivity|]. split; try done. by eapply headed_good.
  - destruct (Z.leb_spec to_read br) as [Hge|Hlt].
    { replace (to_read - br) with 0 by lia. eexists. split; [reflexivity|]. split; try done. by eapply headed_good. }
    set (chunk := Z.min (BLOCK_SIZE - (offset + br) mod BLOCK_SIZE) (to_read - br)).
    pose proof (Z.mod_pos_bound (offset + br) BLOCK_SIZE eq_refl) as Hmod.
    assert ((offset + br) / BLOCK_SIZE < Z.of_nat DIRECT_BLOCK_COUNT) as Hidx.
    { unfold LFS_MAX_FILE_SIZE, DIRECT_BLOCK_COUNT, BLOCK_SIZE in *. Z.to_euclidean_division_equations; lia. }
    rewrite (proj2 (Z.leb_gt _ _)) by lia. rewrite fsm_bind_run.
    destruct (read_piece_ok P s i (offset + br) chunk) as (s1 & E1 & Q1); try done; try lia. cbv zeta in E1. rewrite E1, fsm_bind_run.
    destruct (IH s1 (br + chunk)) as (s2 & E2 & Q2); try done; try lia.
    + by eapply quiet_headed.
    + by rewrite (qt_super _ _ Q1), (qt_segs _ _ Q1).
    + destruct (decide (br + chunk = to_read)); [by left|right]. destruct Hf as [?|Hf]; [lia|].
      assert (offset + (br + chunk) = ((offset + br) / BLOCK_SIZE + 1) * BLOCK_SIZE) as ->.
      { pose proof (Z_div_mod_eq_full (offset + br) BLOCK_SIZE). lia. }
      rewrite Z.div_mul by done. lia.
    + rewrite E2. exists s2. split; [|by eapply quiet_after]. unfold mret, fsm_ret. do 3 f_equal.
      replace (to_read - br) with (chunk + (to_read - (br + chunk))) by lia. rewrite seqZ_app by lia. rewrite fmap_app. f_equal.
      replace (offset + br + chunk) with (offset + (br + chunk)) by lia. apply list_fmap_ext. intros j x _. by apply quiet_byte.
Qed.
(** A read returns the bytes of the file between the offset and its end. *)
Lemma file_read_ok k s id i offset len :
  fs_ok k s -> inode_at s id = Some i -> inode_type i <> INODE_TYPE_DIR -> 0 <= offset -> 0 <= len ->
  exists s', read id offset len s = Ret (Ok (fbyte s i <$> seqZ offset (Z.min len (size i - offset))), s') /\ quiet s s'.
Proof using Hdep.
  intros Hk Hi Ht Ho Hl. unfold read. rewrite fsm_bind_run. destruct (load_inode_ok _ _ _ _ Hk Hi) as (s1 & E & Q). rewrite E.
  destruct (fk_get _ _ _ _ Hk Hi) as [Hio Hsz]. rewrite (proj2 (Z.eqb_neq _ _)) by done.
  destruct (Z.leb_spec (size i) offset) as [Hge|Hlt].
  { exists s1. split; [|done]. by rewrite seqZ_nil by lia. }
  assert (LFS_MAX_FILE_SIZE < 2 ^ 32) as Hmax by done.
  rewrite (proj2 (Z.leb_gt _ _)) by lia. rewrite (proj2 (Z.leb_gt _ _)) by lia.
  destruct (file_read_loop (live s1) i offset (Z.min len (size i - offset)) (S DIRECT_BLOCK_COUNT) s1 0) as (s2 & E2 & Q2); try lia.
  - apply (fk_head _ _ (quiet_ok _ _ _ Q Hk)).
  - apply (fk_super _ _ (quiet_ok _ _ _ Q Hk)).
  - apply Hio.
  - intros p Hp Hz. right. exists id, i. by rewrite (quiet_inode _ _ _ Q).
  - right. pose proof (Z.div_pos (offset + 0) BLOCK_SIZE). unfold DIRECT_BLOCK_COUNT, BLOCK_SIZE in *. lia.
  - rewrite E2. exists s2. split; [|by eapply quiet_after]. rewrite Z.add_0_r, Z.sub_0_r.
    do 3 f_equal. apply list_fmap_ext. intros j x _. by apply quiet_byte.
Qed.
(** ** Writing *)

(** The head is open, and the blocks of [P] are behind it. *)
Record busy (P : Z -> Prop) s : Prop := {
  bz_writer : exists w, writer s = Some w /\ log_ok H P (block_count (superblock s)) (log_at s w);
  bz_super : sb_segment_size (superblock s) = segment_size (segments s);
}.

(** [k] blocks have been appended and those of [P] are as they were. *)
Record moved (P : Z -> Prop) (k : Z) s s' : Prop := {
  mv_view x : P x -> fview s' x = fview s x;
  mv_room : froom s' = froom s - k;
  mv_super : superblock s' = superblock s;
  mv_segs : segment_size (segments s') = segment_size (segments s) /\ segment_count (segments s') = segment_count (segments s);
}.

Lemma moved_trans (P Q : Z -> Prop) k1 k2 s s1 s2 :
  (forall x, P x -> Q x) -> moved P k1 s s1 -> moved Q k2 s1 s2 -> moved P (k1 + k2) s s2.
Proof.
  intros HPQ [V1 R1 S1 [G1 C1]] [V2 R2 S2 [G2 C2]]. split; try congruence; [|lia|split; congruence].
  intros x Hx. rewrite V2, V1 by auto. done.
Qed.

Lemma busy_headed P s : busy P s -> headed P s.
Proof. intros [(w & Hw & Hl) _]. exists w. auto. Qed.

Lemma busy_weaken (P Q : Z -> Prop) s : (forall x, Q x -> P x) -> busy P s -> busy Q s.
Proof. intros HPQ [(w & Hw & Hl) Hs]. split; [|done]. exists w. split; [done|]. by eapply log_ok_weaken. Qed.

Lemma quiet_busy P s s' : quiet s s' -> busy P s -> busy P s'.
Proof.
  intros Q Hb. destruct (quiet_headed P s s' Q (busy_headed _ _ Hb)) as (w & Hl & Hw).
  destruct Hb as [(w0 & Hw0 & _) Hs]. rewrite (qt_writer _ _ Q), Hw0 in Hw. split.
  - exists w0. rewrite (qt_writer _ _ Q). destruct Hw as [[= ->]|[? _]]; done.
  - by rewrite (qt_super _ _ Q), (qt_segs _ _ Q).
Qed.

Lemma quiet_moved P s s' : quiet s s' -> moved P 0 s s'.
Proof.
  intros Q. split; [intros x _; apply Q| |apply Q|by rewrite (qt_segs _ _ Q)].
  unfold froom. rewrite (qt_writer _ _ Q), (qt_segs _ _ Q). lia.
Qed.

Lemma ensure_writer_ok P s :
  headed P s -> sb_segment_size (superblock s) = segment_size (segments s) -> 1 <= froom s ->
  exists s', ensure_writer s = Ret (Ok (), s') /\ busy P s' /\ moved P 0 s s' /\ imap s' = imap s /\ next_inode s' = next_inode s.
Proof.
  intros (w & Hl & Hw) Hs Hr. unfold ensure_writer. destruct Hw as [Ew|[Ew Hfull]].
  { rewrite Ew. exists s. split_and!; [done| |split; try done; lia|done..]. split; [by exists w|done]. }
  unfold froom in Hr. rewrite Ew in Hr |- *. destruct (lk_size _ _ _ _ Hl) as [Hz _]. cbn [log_at lfs_writer.l_segs] in Hz.
  destruct (fresh_segment H P _ false _ Hl) as (i & segs' & Ea & Hsz & Hcnt & _ & Hfresh); cbn [log_at lfs_writer.l_segs lfs_writer.l_disk lfs_writer.l_imap kept allocate_for] in *; [nia|].
  unfold lfs_writer.with_sequence. rewrite Ea. destruct (Hfresh (next_sequence s)) as [Hl' Hr']. eexists. split; [reflexivity|].
  split_and!; [split; cbn [writer superblock segments]|split; cbn [writer superblock segments]|done..].
  - by eexists.
  - congruence.
  - done.
  - unfold froom. cbn [writer segments]. rewrite Hr', Ew. lia.
  - done.
  - done.
Qed.

Lemma block_u64 P s b : busy P s -> b < block_count (superblock s) -> 0 < b -> is_u64 b.
Proof.
  intros [(w & _ & Hl) _] Hb H0. pose proof (lk_fit _ _ _ _ Hl) as Hf. cbn [log_at lfs_writer.l_disk] in Hf.
  pose proof (count_range _ (co_dev _ _ (gd_ok _ _ _ (lk_good _ _ _ _ Hl)))) as Hc. cbn [log_at lfs_writer.l_disk] in Hc.
  rewrite sectors_per_block in Hf. unfold is_u64. lia.
Qed.

(** A step of the log inside the file system. *)
Lemma log_op_moved {A} P (m : lfs_writer.lg D A) e s w a l k :
  writer s = Some w -> m (log_at s w) = Ret (Ok a, l) -> log_step P k (log_at s w) l ->
  exists s', log_op m e s = Ret (Ok a, s') /\ moved P k s s' /\ writer s' = Some (lfs_writer.l_writer l) /\
  log_at s' (lfs_writer.l_writer l) = l /\ superblock s' = superblock s /\ next_inode s' = next_inode s.
Proof.
  intros Hw E [V [S1 S2] C R _]. unfold log_op. rewrite Hw. unfold log_at in E. rewrite E. eexists. split; [reflexivity|].
  split_and!; try done; [|by destruct l].
  split; cbn [superblock segments]; try done. unfold froom. cbn [writer segments]. rewrite Hw. exact R.
Qed.

Lemma log_op_block P s data e :
  busy P s -> 1 <= froom s -> length data = Z.to_nat BLOCK_SIZE ->
  exists b s', log_op (lfs_writer.write_data_block data) e s = Ret (Ok b, s') /\ busy (fun x => P x \/ x = b) s' /\ moved P 1 s s' /\
  imap s' = imap s /\ next_inode s' = next_inode s /\ ~ P b /\ fview s' b = data /\ is_u64 b /\ b <> 0.
Proof using Hdep.
  intros Hb Hr Hd. pose proof Hb as [(w & Hw & Hl) Hs]. unfold froom in Hr. rewrite Hw in Hr.
  destruct (write_data_block_ok H Hdep P _ _ data Hl Hr Hd) as (b & l & E & [Hl' St HP Hrg] & Hi & Hv).
  destruct (log_op_moved P _ e s w b l 1 Hw E St) as (s' & E' & Hm & Hw' & Hat & Hsb & Hni). exists b, s'.
  cbn [log_at lfs_writer.l_segs] in Hrg. pose proof (lk_size _ _ _ _ Hl) as [Hz _]. cbn [log_at lfs_writer.l_segs] in Hz.
  split_and!; [done| |done| |done|done| |apply (block_u64 P s); [done|lia..]|lia].
  - split; [|rewrite Hsb, Hs; symmetry; apply Hm]. exists (lfs_writer.l_writer l). by rewrite Hat, Hsb.
  - rewrite <- Hat in Hi. exact Hi.
  - rewrite <- Hat in Hv. exact Hv.
Qed.

Lemma log_op_inode P s id i e :
  busy P s -> 1 <= froom s -> inode_ok i ->
  exists b s', log_op (lfs_writer.write_inode id i) e s = Ret (Ok b, s') /\ busy (fun x => P x \/ x = b) s' /\ moved P 1 s s' /\
  imap s' = lfs_imap.insert (imap s) id b /\ next_inode s' = next_inode s /\ ~ P b /\ read_from (fview s' b) 0 = Ok i.
Proof using Hdep.
  intros Hb Hr Hd. pose proof Hb as [(w & Hw & Hl) Hs]. unfold froom in Hr. rewrite Hw in Hr.
  destruct (write_inode_ok H Hdep P _ _ id i Hl Hr Hd) as (b & l & E & [Hl' St HP Hrg] & Hi & Hv).
  destruct (log_op_moved P _ e s w b l 1 Hw E St) as (s' & E' & Hm & Hw' & Hat & Hsb & Hni). exists b, s'.
  split_and!; [done| |done| |done|done|].
  - split; [|rewrite Hsb, Hs; symmetry; apply Hm]. exists (lfs_writer.l_writer l). by rewrite Hat, Hsb.
  - rewrite <- Hat in Hi. exact Hi.
  - rewrite <- Hat in Hv. exact Hv.
Qed.

Lemma put_lookup (buf bs : list Z) off j :
  (off + length bs <= length buf)%nat -> (j < length buf)%nat ->
  put buf off bs !!! j = if decide (off <= j < off + length bs)%nat then bs !!! (j - off)%nat else buf !!! j.
Proof.
  intros Hl Hj. unfold put. rewrite !list_lookup_total_alt. f_equal. destruct (decide _) as [Hin|Hout].
  - rewrite lookup_app_r; rewrite length_take_le by lia; [|lia]. rewrite lookup_app_l by lia. done.
  - destruct (decide (j < off)%nat).
    + rewrite lookup_app_l by (rewrite length_take_le; lia). by rewrite lookup_take_lt.
    + rewrite lookup_app_r; rewrite length_take_le by lia; [|lia]. rewrite lookup_app_r by lia. rewrite lookup_drop.
      by replace (off + length bs + (j - off - length bs))%nat with j by lia.
Qed.

(** Pointers to blocks of [P], or holes. *)
Record pointers_in (P : Z -> Prop) (ps : list Z) : Prop := {
  pi_length : length ps = DIRECT_BLOCK_COUNT;
  pi_u64 : Forall is_u64 ps;
  pi_live p : p ∈ ps -> p <> 0 -> P p;
}.

Lemma pointers_insert (P : Z -> Prop) ps k b : pointers_in P ps -> is_u64 b -> pointers_in (fun x => P x \/ x = b) (<[k := b]> ps).
Proof.
  intros [Hl Hu Hp] Hb. split; [by rewrite length_insert|by apply Forall_insert|].
  intros p Hin Hz. apply list_elem_of_lookup_1 in Hin as [j Hj]. destruct (decide (j = k)) as [->|Hne].
  - apply list_lookup_insert_Some in Hj as [(_ & -> & _)|[? _]]; [by right|done].
  - rewrite list_lookup_insert_ne in Hj by done. left. apply Hp; [by eapply list_elem_of_lookup_2|done].
Qed.

(** The bytes behind the pointers stay. *)
Lemma moved_byte P k s s' i j :
  moved P k s s' -> pointers_in P (direct i) -> 0 <= j < LFS_MAX_FILE_SIZE -> fbyte s' i j = fbyte s i j.
Proof.
  intros M Hp Hj. unfold fbyte. destruct (Z.eqb_spec (direct i !!! Z.to_nat (j / BLOCK_SIZE)) 0); [done|].
  rewrite (mv_view _ _ _ _ M); [done|]. apply (pi_live _ _ Hp); [|done]. apply direct_elem, Hj. apply Hp.
Qed.

(** The block a piece goes into, before it is stored. *)
Lemma old_block_ok P s i k n (partial : bool) :
  busy P s -> pointers_in P (direct i) -> 0 <= k < LFS_MAX_FILE_SIZE ->
  (partial = false -> k mod BLOCK_SIZE = 0 /\ n = BLOCK_SIZE) ->
  let p := direct i !!! Z.to_nat (k / BLOCK_SIZE) in
  exists old s', (if partial && negb (p =? 0) then read_valid p else mret lfs_checkpoint.zero_block) s = Ret (Ok old, s') /\ quiet s s' /\
  length old = Z.to_nat BLOCK_SIZE /\
  forall x, 0 <= x < BLOCK_SIZE -> ~ k mod BLOCK_SIZE <= x < k mod BLOCK_SIZE + n ->
    old !!! Z.to_nat x = fbyte s i (k / BLOCK_SIZE * BLOCK_SIZE + x).
Proof using Hdep.
  intros Hb Hp Hk Hpart p.
  assert (forall x, 0 <= x < BLOCK_SIZE -> fbyte s i (k / BLOCK_SIZE * BLOCK_SIZE + x) = if p =? 0 then 0 else fview s p !!! Z.to_nat x) as Hf.
  { intros x Hx. unfold fbyte. set (q := k / BLOCK_SIZE) in *.
    assert ((q * BLOCK_SIZE + x) / BLOCK_SIZE = q /\ (q * BLOCK_SIZE + x) mod BLOCK_SIZE = x) as [-> ->]; [|done].
    unfold BLOCK_SIZE in *. Z.to_euclidean_division_equations; lia. }
  assert (quiet s s) as Qr by (split; try done; apply (headed_good P), busy_headed, Hb).
  destruct (Z.eqb_spec p 0) as [Hz|Hz].
  - rewrite andb_false_r. eexists _, s. split; [reflexivity|]. split_and!; [done|apply length_replicate|].
    intros x Hx _. rewrite Hf by done. unfold lfs_checkpoint.zero_block. rewrite lookup_total_replicate_2 by lia. done.
  - rewrite andb_true_r. destruct partial.
    + destruct (read_valid_ok P s p (busy_headed _ _ Hb) (bz_super _ _ Hb)) as (s' & E & Q).
      { apply (pi_live _ _ Hp); [|done]. apply direct_elem, Hk. apply Hp. }
      exists (fview s p), s'. split_and!; [done|done|apply (headed_length P), busy_headed, Hb|]. intros x Hx _. by rewrite Hf.
    + destruct (Hpart eq_refl) as [Hm ->]. eexists _, s. split; [reflexivity|]. split_and!; [done|apply length_replicate|]. intros x Hx Hn. lia.
Qed.

(** Bytes after one pointer of an inode has been replaced. *)
Lemma fbyte_set P s s' i k b j :
  pointers_in P (direct i) -> moved P 1 s s' -> b <> 0 -> 0 <= k < LFS_MAX_FILE_SIZE -> 0 <= j < LFS_MAX_FILE_SIZE ->
  fbyte s' (set_direct i (Z.to_nat (k / BLOCK_SIZE)) b) j =
    if decide (j / BLOCK_SIZE = k / BLOCK_SIZE) then fview s' b !!! Z.to_nat (j mod BLOCK_SIZE) else fbyte s i j.
Proof.
  intros Hp Hm Hb Hk Hj. unfold fbyte. cbn [direct set_direct].
  assert (forall x, 0 <= x < LFS_MAX_FILE_SIZE -> (Z.to_nat (x / BLOCK_SIZE) < length (direct i))%nat) as Hlt.
  { intros x Hx. rewrite (pi_length _ _ Hp). by apply direct_lt. }
  pose proof (Z.div_pos j BLOCK_SIZE). pose proof (Z.div_pos k BLOCK_SIZE). destruct (decide _) as [->|Hne].
  - rewrite list_lookup_total_insert_eq by (by apply Hlt). by rewrite (proj2 (Z.eqb_neq _ _)).
  - rewrite list_lookup_total_insert_ne by (unfold BLOCK_SIZE in *; lia). exact (moved_byte _ _ _ _ _ _ Hm Hp Hj).
Qed.
(** The inode [i'] of [s'] is [i] of [s] with the bytes from [lo] on replaced. *)
Record overlaid s (i : DiskInode) s' (i' : DiskInode) (lo : Z) (bs : list Z) : Prop := {
  ov_meta : (inode_type i', link_count i', size i', indirect i') = (inode_type i, link_count i, size i, indirect i);
  ov_byte j : 0 <= j < LFS_MAX_FILE_SIZE ->
    fbyte s' i' j = if decide (lo <= j < lo + Z.of_nat (length bs)) then bs !!! Z.to_nat (j - lo) else fbyte s i j;
}.

(** One round of the loop of [write]. *)
Lemma write_round P s i k bs partial e :
  busy P s -> pointers_in P (direct i) -> 0 <= k < LFS_MAX_FILE_SIZE -> 1 <= froom s ->
  k mod BLOCK_SIZE + Z.of_nat (length bs) <= BLOCK_SIZE -> (partial = false -> k mod BLOCK_SIZE = 0 /\ Z.of_nat (length bs) = BLOCK_SIZE) ->
  let p := direct i !!! Z.to_nat (k / BLOCK_SIZE) in
  exists b s', (old ← (if partial && negb (p =? 0) then read_valid p else mret lfs_checkpoint.zero_block);
      log_op (lfs_writer.write_data_block (put old (Z.to_nat (k mod BLOCK_SIZE)) bs)) e) s = Ret (Ok b, s') /\
  busy (fun x => P x \/ x = b) s' /\ moved P 1 s s' /\ imap s' = imap s /\ next_inode s' = next_inode s /\ is_u64 b /\
  overlaid s i s' (set_direct i (Z.to_nat (k / BLOCK_SIZE)) b) k bs.
Proof using Hdep.
  intros Hb Hp Hk Hr Hle Hpart p. pose proof (Z.mod_pos_bound k BLOCK_SIZE eq_refl) as Hmod. rewrite fsm_bind_run.
  destruct (old_block_ok P s i k (Z.of_nat (length bs)) partial Hb Hp Hk Hpart) as (old & s1 & E1 & Q1 & Hl & Hold). cbv zeta in E1. fold p in E1.
  rewrite E1. pose proof (quiet_moved P _ _ Q1) as M1.
  destruct (log_op_block P s1 (put old (Z.to_nat (k mod BLOCK_SIZE)) bs) e) as (b & s2 & E2 & Hb2 & M2 & Hi & Hn & HP & Hv & Hu & Hz).
  { by eapply quiet_busy. } { rewrite (mv_room _ _ _ _ M1). lia. } { rewrite length_put; lia. }
  pose proof (moved_trans P P 0 1 _ _ _ (fun x Hx => Hx) M1 M2) as M. exists b, s2. split; [done|]. split_and!; try done.
  - rewrite Hi. apply Q1.
  - rewrite Hn. pose proof (qt_counters _ _ Q1). congruence.
  - split; [done|]. intros j Hj. rewrite (fbyte_set P s s2 i k b j) by done. rewrite Hv.
    pose proof (Z.mod_pos_bound j BLOCK_SIZE eq_refl). pose proof (Z_div_mod_eq_full j BLOCK_SIZE). pose proof (Z_div_mod_eq_full k BLOCK_SIZE).
    destruct (decide (j / BLOCK_SIZE = k / BLOCK_SIZE)) as [Hq|Hq].
    + rewrite put_lookup by lia. assert (j - k = j mod BLOCK_SIZE - k mod BLOCK_SIZE) as Hjk by nia.
      destruct (decide (_ <= _ < _)%nat) as [Hin|Hout]; destruct (decide (k <= j < _)) as [Hin'|Hout']; try lia.
      * f_equal. lia.
      * rewrite Hold by lia. f_equal. rewrite <- Hq. lia.
    + rewrite decide_False; [done|]. intros Hin. apply Hq. unfold BLOCK_SIZE in *. Z.to_euclidean_division_equations; lia.
Qed.

Lemma overlaid_trans s i s1 i1 s2 i2 lo bs bs' :
  0 <= lo -> overlaid s i s1 i1 lo bs -> overlaid s1 i1 s2 i2 (lo + Z.of_nat (length bs)) bs' -> overlaid s i s2 i2 lo (bs ++ bs').
Proof.
  intros Hlo [M1 B1] [M2 B2]. split; [congruence|]. intros j Hj. rewrite B2, B1 by done. rewrite length_app.
  destruct (decide (lo + Z.of_nat (length bs) <= j < _)) as [Hin2|Hout2], (decide (lo <= j < _)) as [Hin1|Hout1];
    destruct (decide (lo <= j < lo + Z.of_nat (length bs + length bs'))) as [Hin|Hout]; try lia; try done.
  - rewrite !list_lookup_total_alt, lookup_app_r by lia. do 2 f_equal. lia.
  - rewrite !list_lookup_total_alt, lookup_app_l by lia. done.
Qed.

(** The blocks the loop has still to store. *)
Definition rounds (offset bw len : Z) : Z := if len <=? bw then 0 else 12 - (offset + bw) / BLOCK_SIZE.

Lemma file_write_loop offset buf fuel : forall P s i bw,
  busy P s -> pointers_in P (direct i) -> 0 <= offset -> 0 <= bw <= Z.of_nat (length buf) ->
  offset + Z.of_nat (length buf) <= LFS_MAX_FILE_SIZE ->
  (bw = Z.of_nat (length buf) \/ 13 <= Z.of_nat fuel + (offset + bw) / BLOCK_SIZE) -> rounds offset bw (Z.of_nat (length buf)) <= froom s ->
  exists i' s' P' k, write_loop fuel i offset buf bw s = Ret (Ok i', s') /\ busy P' s' /\ pointers_in P' (direct i') /\
  (forall x, P x -> P' x) /\ moved P k s s' /\ 0 <= k <= rounds offset bw (Z.of_nat (length buf)) /\ imap s' = imap s /\ next_inode s' = next_inode s /\
  overlaid s i s' i' (offset + bw) (drop (Z.to_nat bw) buf).
Proof using Hdep.
  induction fuel as [|fuel IH]; intros P s i bw Hb Hp Ho Hbw Hm Hf Hr;
    assert (0 <= 12 - (offset + bw) / BLOCK_SIZE /\ 0 <= rounds offset bw (Z.of_nat (length buf))) as [Hidx Hrounds] by
      (unfold rounds; destruct (Z.leb_spec (Z.of_nat (length buf)) bw); unfold LFS_MAX_FILE_SIZE, DIRECT_BLOCK_COUNT, BLOCK_SIZE in *; Z.to_euclidean_division_equations; lia);
    assert (bw = Z.of_nat (length buf) -> overlaid s i s i (offset + bw) (drop (Z.to_nat bw) buf)) as Hend by
      (intros ->; split; [done|]; intros j _; rewrite drop_ge, decide_False by (cbn [length]; lia); done);
    assert (moved P 0 s s) as Hm0 by (split; try done; lia); cbn [write_loop].
  { assert (bw = Z.of_nat (length buf)) as Hbe by lia. exists i, s, P, 0. split_and!; auto; lia. }
  destruct (Z.leb_spec (Z.of_nat (length buf)) bw) as [Hge|Hlt].
  { assert (bw = Z.of_nat (length buf)) as Hbe by lia. exists i, s, P, 0. split_and!; auto; lia. }
  pose proof (Z.mod_pos_bound (offset + bw) BLOCK_SIZE eq_refl) as Hmod. pose proof (Z_div_mod_eq_full (offset + bw) BLOCK_SIZE) as Hdm.
  assert ((offset + bw) / BLOCK_SIZE < Z.of_nat DIRECT_BLOCK_COUNT) as Hlt12.
  { unfold LFS_MAX_FILE_SIZE, DIRECT_BLOCK_COUNT, BLOCK_SIZE in *. Z.to_euclidean_division_equations; lia. }
  rewrite (proj2 (Z.leb_gt _ _)) by lia. change (Z.of_nat DIRECT_BLOCK_COUNT) with 12 in Hlt12.
  set (chunk := Z.min (BLOCK_SIZE - (offset + bw) mod BLOCK_SIZE) (Z.of_nat (length buf) - bw)).
  set (bs := take (Z.to_nat chunk) (drop (Z.to_nat bw) buf)).
  assert (Z.of_nat (length bs) = chunk) as Hbs by (unfold bs; rewrite length_take, length_drop; lia).
  assert (1 + rounds offset (bw + chunk) (Z.of_nat (length buf)) <= rounds offset bw (Z.of_nat (length buf)) /\ 1 <= rounds offset bw (Z.of_nat (length buf))) as [Hdec Hone].
  { unfold rounds. rewrite (proj2 (Z.leb_gt (Z.of_nat (length buf)) bw)) by lia. destruct (Z.leb_spec (Z.of_nat (length buf)) (bw + chunk)); [lia|]. split; [|lia].
    replace (offset + (bw + chunk)) with (((offset + bw) / BLOCK_SIZE + 1) * BLOCK_SIZE) by lia. rewrite Z.div_mul by done. lia. }
  destruct (write_round P s i (offset + bw) bs (negb ((offset + bw) mod BLOCK_SIZE =? 0) || (Z.of_nat (length buf) <? bw + BLOCK_SIZE))
    map_write_data_block_err Hb Hp) as (b & s1 & E1 & Hb1 & M1 & Hi1 & Hn1 & Hu & Ov1); try lia.
  cbv zeta in E1. rewrite fsm_bind_run in E1. rewrite fsm_bind_run.
  match type of E1 with match ?t with _ => _ end = _ => destruct t as [[[old|] s0]|]; [|done..] end. rewrite fsm_bind_run, E1.
  destruct (IH (fun x => P x \/ x = b) s1 (set_direct i (Z.to_nat ((offset + bw) / BLOCK_SIZE)) b) (bw + chunk))
    as (i2 & s2 & P2 & k2 & E2 & Hb2 & Hp2 & HP2 & M2 & Hk2 & Hi2 & Hn2 & Ov2); try done; try lia.
  { apply pointers_insert; done. }
  { destruct (decide (bw + chunk = Z.of_nat (length buf))); [by left|right].
    replace (offset + (bw + chunk)) with (((offset + bw) / BLOCK_SIZE + 1) * BLOCK_SIZE) by lia. rewrite Z.div_mul by done. lia. }
  { rewrite (mv_room _ _ _ _ M1). lia. }
  rewrite E2. exists i2, s2, P2, (1 + k2). split_and!; try done; try lia; try congruence.
  - auto.
  - apply (moved_trans P (fun x => P x \/ x = b) 1 k2 s s1 s2); [by left|exact M1|exact M2].
  - assert (drop (Z.to_nat bw) buf = bs ++ drop (Z.to_nat (bw + chunk)) buf) as ->.
    { unfold bs. rewrite Z2Nat.inj_add by lia. rewrite <- drop_drop. by rewrite take_drop. }
    eapply overlaid_trans; [lia|exact Ov1|]. rewrite Hbs. by rewrite <- Z.add_assoc.
Qed.
(** ** The abstract files *)

(** The bytes reach to the largest size a file can have. *)
Record afile := mk_afile { a_type : Z; a_links : Z; a_size : Z; a_bytes : list Z }.

Definition extent s (i : DiskInode) : list Z := fbyte s i <$> seqZ 0 LFS_MAX_FILE_SIZE.
Definition as_file s (i : DiskInode) : afile := mk_afile (inode_type i) (link_count i) (size i) (extent s i).
Definition abs s (id : Z) : option afile := as_file s <$> inode_at s id.

Lemma length_extent s i : length (extent s i) = Z.to_nat LFS_MAX_FILE_SIZE.
Proof. unfold extent. by rewrite length_fmap, length_seqZ. Qed.

Lemma extent_lookup s i j : 0 <= j < LFS_MAX_FILE_SIZE -> extent s i !! Z.to_nat j = Some (fbyte s i j).
Proof. intros Hj. unfold extent. rewrite list_lookup_fmap, lookup_seqZ_lt by lia. cbn. do 2 f_equal. lia. Qed.

Lemma extent_ext s i s' i' :
  (forall j, 0 <= j < LFS_MAX_FILE_SIZE -> fbyte s' i' j = fbyte s i j) -> extent s' i' = extent s i.
Proof. intros Hj. apply list_fmap_ext. intros n x Hx%lookup_seqZ. apply Hj. lia. Qed.

(** A list of the length of an extent is one when its bytes are. *)
Lemma extent_eq s i (l : list Z) :
  length l = Z.to_nat LFS_MAX_FILE_SIZE -> (forall j, 0 <= j < LFS_MAX_FILE_SIZE -> fbyte s i j = l !!! Z.to_nat j) -> extent s i = l.
Proof.
  intros Hl Hj. apply list_eq. intros n. destruct (decide (n < length l)%nat) as [Hn|Hn].
  - replace n with (Z.to_nat (Z.of_nat n)) by lia. rewrite extent_lookup, Hj by lia. symmetry. apply list_lookup_lookup_total_lt. lia.
  - rewrite !lookup_ge_None_2; [done|lia|rewrite length_extent; lia].
Qed.

Lemma extent_total s i j : 0 <= j < LFS_MAX_FILE_SIZE -> extent s i !!! Z.to_nat j = fbyte s i j.
Proof. intros Hj. rewrite list_lookup_total_alt, extent_lookup by done. done. Qed.

Lemma extent_piece s i off n :
  0 <= off -> off + n <= LFS_MAX_FILE_SIZE -> take (Z.to_nat n) (drop (Z.to_nat off) (extent s i)) = fbyte s i <$> seqZ off n.
Proof.
  intros Ho Hm. destruct (decide (0 <= n)) as [Hn|Hn].
  - rewrite take_drop_seqZ by (rewrite ?length_extent; lia). apply list_fmap_ext. intros j x Hx%lookup_seqZ. apply extent_total. lia.
  - rewrite seqZ_nil by lia. by replace (Z.to_nat n) with 0%nat by lia.
Qed.

Lemma extent_overlaid s i s' i' lo bs :
  0 <= lo -> lo + Z.of_nat (length bs) <= LFS_MAX_FILE_SIZE -> overlaid s i s' i' lo bs -> extent s' i' = put (extent s i) (Z.to_nat lo) bs.
Proof.
  intros Hlo Hm Ov. pose proof (length_extent s i) as Hl. apply extent_eq; [by rewrite length_put by lia|].
  intros j Hj. rewrite (ov_byte _ _ _ _ _ _ Ov j Hj), put_lookup by lia.
  destruct (decide (lo <= j < _)), (decide (_ <= _ < _)%nat); try lia.
  - f_equal. lia.
  - by rewrite extent_total.
Qed.

Lemma as_file_ext s s' i :
  (forall j, 0 <= j < LFS_MAX_FILE_SIZE -> fbyte s' i j = fbyte s i j) -> as_file s' i = as_file s i.
Proof. intros Hj. unfold as_file. by rewrite (extent_ext s i s' i Hj). Qed.

#[local] Opaque extent.

Lemma abs_ext s s' id :
  inode_at s' id = inode_at s id ->
  (forall i j, inode_at s id = Some i -> 0 <= j < LFS_MAX_FILE_SIZE -> fbyte s' i j = fbyte s i j) -> abs s' id = abs s id.
Proof.
  intros Ei Hj. unfold abs. rewrite Ei. destruct (inode_at s id) as [i|]; cbn [fmap option_fmap option_map]; [|done].
  apply (f_equal Some), as_file_ext. intros j. by apply Hj.
Qed.

Lemma abs_None s id : inode_at s id = None -> abs s id = None.
Proof. unfold abs. by intros ->. Qed.

Lemma abs_Some s id i : inode_at s id = Some i -> abs s id = Some (as_file s i).
Proof. unfold abs. intros ->. reflexivity. Qed.

Lemma quiet_abs s s' id : quiet s s' -> abs s' id = abs s id.
Proof. intros Q. apply abs_ext; [by apply quiet_inode|]. intros i j _ _. by apply quiet_byte. Qed.

Lemma fits_pointers K s id i : fs_ok K s -> inode_at s id = Some i -> pointers_in (live s) (direct i).
Proof.
  intros Hk Hi. destruct (fk_get _ _ _ _ Hk Hi) as [Hio _]. destruct (io_direct _ Hio) as [Hl Hu]. split; [done|done|].
  intros p Hp Hz. right. by exists id, i.
Qed.

(** Above the reserve the cleaner does not run. *)
Lemma no_compaction P s : busy P s -> reserve s <= froom s -> maybe_compact s = Ret (Ok (), s).
Proof.
  intros [(w & Hw & Hl) _] Hr. unfold maybe_compact. replace (lfs_compact.needs_compaction (segments s)) with false; [done|].
  symmetry. unfold lfs_compact.needs_compaction. destruct (Z.eqb_spec (segment_count (segments s)) 0); [done|]. apply Z.ltb_ge.
  unfold froom, reserve, room in Hr. rewrite Hw in Hr. destruct (lk_size _ _ _ _ Hl) as [Hz _]. pose proof (lk_position _ _ _ _ Hl) as Hp.
  cbn [log_at lfs_writer.l_segs lfs_writer.l_writer] in *. set (T := Z.max (wrap32 _) 1) in *. nia.
Qed.

Lemma reserve_pos P s : headed P s -> 0 < reserve s.
Proof. intros (w & Hl & _). destruct (lk_size _ _ _ _ Hl) as [Hz _]. cbn [log_at lfs_writer.l_segs] in Hz. unfold reserve. nia. Qed.

(** Storing the inode makes the new pointers those of the file. *)
Lemma commit_ok K s s2 P2 k id i e :
  fs_ok K s -> busy P2 s2 -> (forall x, live s x -> P2 x) -> moved (live s) k s s2 -> imap s2 = imap s -> 0 <= k -> k + 1 <= K ->
  pointers_in P2 (direct i) -> inode_fits i ->
  exists b s3, log_op (lfs_writer.write_inode id i) e s2 = Ret (Ok b, s3) /\ fs_ok (K - k - 1) s3 /\ maybe_compact s3 = Ret (Ok (), s3) /\
  (busy (live s3) s3 /\ imap s3 = lfs_imap.insert (imap s2) id b) /\
  inode_at s3 id = Some i /\ abs s3 id = Some (as_file s2 i) /\ forall id', id' <> id -> inode_at s3 id' = inode_at s id' /\ abs s3 id' = abs s id'.
Proof using Hdep.
  intros Hk Hb HP M Him H0 Hle Hp Hfit. pose proof (reserve_pos _ _ (fk_head _ _ Hk)) as Hpos. pose proof (fk_room _ _ Hk) as Hroom.
  assert (1 <= froom s2) as Hr by (rewrite (mv_room _ _ _ _ M); lia).
  destruct (log_op_inode P2 s2 id i e Hb Hr (proj1 Hfit)) as (b & s3 & E & Hb3 & M3 & Him3 & Hn3 & HPb & Hrd).
  pose proof (moved_trans (live s) P2 k 1 _ _ _ HP M M3) as MM.
  assert (forall id', lfs_imap.get (imap s3) id' = if decide (id' = id) then Some b else lfs_imap.get (imap s) id') as Hget.
  { intros id'. by rewrite Him3, lfs_imap.get_insert, Him. }
  assert (inode_at s3 id = Some i) as Hat by (unfold inode_at; by rewrite Hget, decide_True, Hrd by done).
  assert (forall id', id' <> id -> inode_at s3 id' = inode_at s id') as Hoth.
  { intros id' Hne. unfold inode_at. rewrite Hget, decide_False by done. destruct (lfs_imap.get (imap s) id') as [b'|] eqn:Eg; [|done].
    rewrite (mv_view _ _ _ _ MM); [done|]. left. eauto. }
  assert (forall x, live s3 x -> P2 x \/ x = b) as Hlive.
  { intros x [[id' Hg]|(id' & j & Hj & Hx & Hz)]; (destruct (decide (id' = id)) as [->|Hne]).
    - rewrite Hget, decide_True in Hg by done. right. congruence.
    - rewrite Hget, decide_False in Hg by done. left. apply HP. left. eauto.
    - left. rewrite Hat in Hj. simplify_eq. by apply (pi_live _ _ Hp).
    - left. apply HP. right. exists id', j. by rewrite <- Hoth. }
  assert (reserve s3 = reserve s) as Hres by (unfold reserve; destruct (mv_segs _ _ _ _ MM) as [-> ->]; done).
  pose proof (mv_room _ _ _ _ MM) as Hroom3. exists b, s3. split_and!; try done.
  - split; [|apply Hb3|lia|].
    + destruct (busy_headed _ _ Hb3) as (w & Hl & Hw). exists w. split; [|done]. eapply log_ok_weaken, Hl. exact Hlive.
    + intros id' b' Hg. destruct (decide (id' = id)) as [->|Hne]; [by exists i|].
      rewrite Hoth by done. rewrite Hget, decide_False in Hg by done. by eapply fk_inode.
  - apply (no_compaction _ _ Hb3). lia.
  - eapply busy_weaken, Hb3. exact Hlive.
  - rewrite (abs_Some _ _ _ Hat). apply (f_equal Some), as_file_ext. intros j Hj. by eapply moved_byte.
  - intros id' Hne. split; [by apply Hoth|]. apply abs_ext; [by apply Hoth|]. intros j x Ej Hx.
    eapply moved_byte; [exact MM| |done]. by eapply fits_pointers.
Qed.
(** ** What the operations promise *)

Definition a_read (f : option afile) (offset len : Z) : result (list Z) VfsError :=
  match f with
  | None => Err fd.NotFound
  | Some g =>
      if a_type g =? INODE_TYPE_DIR then Err fd.IsADirectory
      else Ok (take (Z.to_nat (Z.min len (a_size g - offset))) (drop (Z.to_nat offset) (a_bytes g)))
  end.

Definition a_write (f : option afile) (offset : Z) (buf : list Z) : result Z VfsError * option afile :=
  match f with
  | None => (Err fd.NotFound, f)
  | Some g =>
      let len := Z.of_nat (length buf) in
      if a_type g =? INODE_TYPE_DIR then (Err fd.IsADirectory, f)
      else if (length buf =? 0)%nat then (Ok 0, f)
      else if LFS_MAX_FILE_SIZE <? offset + len then (Err fd.NoSpace, f)
      else (Ok len, Some (mk_afile (a_type g) (a_links g) (Z.max (a_size g) (offset + len)) (put (a_bytes g) (Z.to_nat offset) buf)))
  end.

(** A file that shrinks loses the blocks past its new end, and keeps the rest
    of the block the end is in. *)
Definition whole_blocks (sz : Z) : Z := div_ceil sz BLOCK_SIZE * BLOCK_SIZE.

Definition cut_or_same (sz old : Z) (bytes : list Z) : list Z :=
  if sz <? old then put bytes (Z.to_nat (whole_blocks sz)) (replicate (Z.to_nat (LFS_MAX_FILE_SIZE - whole_blocks sz)) 0) else bytes.

Definition a_truncate (f : option afile) (sz : Z) : result () VfsError * option afile :=
  match f with
  | None => (Err fd.NotFound, f)
  | Some g =>
      if a_type g =? INODE_TYPE_DIR then (Err fd.IsADirectory, f)
      else if LFS_MAX_FILE_SIZE <? sz then (Err fd.NoSpace, f)
      else (Ok (), Some (mk_afile (a_type g) (a_links g) sz
             (cut_or_same sz (a_size g) (a_bytes g))))
  end.

Lemma fs_ok_le k k' s : k' <= k -> fs_ok k s -> fs_ok k' s.
Proof. intros Hle [? ? ? ?]. split; [done|done|lia|done]. Qed.

(** Every file is as it was, but the one named. *)
Definition updates s s' (id : Z) (f : option afile) : Prop :=
  abs s' id = f /\ forall id', id' <> id -> abs s' id' = abs s id'.

Lemma quiet_updates s s' id : quiet s s' -> updates s s' id (abs s id).
Proof. intros Q. split; intros; by apply quiet_abs. Qed.

Lemma quiet_same k s : fs_ok k s -> quiet s s.
Proof. intros Hk. split; try done. apply (headed_good _ _ (fk_head _ _ Hk)). Qed.

Lemma file_read_refines k s id offset len :
  fs_ok k s -> 0 <= offset -> 0 <= len ->
  exists s', read id offset len s = Ret (a_read (abs s id) offset len, s') /\ fs_ok k s' /\ updates s s' id (abs s id).
Proof using Hdep.
  intros Hk Ho Hl. destruct (inode_at s id) as [i|] eqn:Ei; [pose proof (abs_Some _ _ _ Ei) as Ea|pose proof (abs_None _ _ Ei) as Ea]; rewrite Ea; cbn [a_read].
  - destruct (decide (inode_type i = INODE_TYPE_DIR)) as [Ht|Ht]; cbn [a_type as_file a_size a_bytes].
    + unfold read. rewrite fsm_bind_run. destruct (load_inode_ok _ _ _ _ Hk Ei) as (s1 & E & Q). rewrite E, (proj2 (Z.eqb_eq _ _)) by done.
      exists s1. split; [done|]. split; [by eapply quiet_ok|]. rewrite <- Ea. by apply quiet_updates.
    + destruct (file_read_ok _ _ _ _ offset len Hk Ei Ht Ho Hl) as (s' & E & Q). rewrite E, (proj2 (Z.eqb_neq _ _)) by done.
      exists s'. rewrite <- Ea. split; [|split; [by eapply quiet_ok|by apply quiet_updates]].
      do 3 f_equal. destruct (fk_get _ _ _ _ Hk Ei) as [_ Hsz]. destruct (decide (size i <= offset)) as [Hge|Hlt].
      * rewrite seqZ_nil by lia. by replace (Z.to_nat (Z.min len (size i - offset))) with 0%nat by lia.
      * symmetry. apply extent_piece; lia.
  - exists s. unfold read. rewrite fsm_bind_run, (load_inode_missing _ _ _ Hk Ei). split; [done|]. split; [done|].
    rewrite <- Ea. by apply quiet_updates, (quiet_same k).
Qed.
Lemma quiet_updates_from s s1 s2 id f : quiet s s1 -> updates s1 s2 id f -> updates s s2 id f.
Proof. intros Q [Hf Ho]. split; [done|]. intros id' Hne. rewrite Ho by done. by apply quiet_abs. Qed.

(** The part of [write] after its checks. *)
Lemma write_body_ok k s id i offset buf :
  fs_ok (13 + k) s -> 0 <= k -> inode_at s id = Some i -> 0 <= offset -> (0 < length buf)%nat ->
  offset + Z.of_nat (length buf) <= LFS_MAX_FILE_SIZE ->
  exists s', (_ ← ensure_writer;
      i ← write_loop (S DIRECT_BLOCK_COUNT) i offset buf 0;
      let bytes_written := Z.of_nat (length buf) in
      let new_end := offset + bytes_written in
      let i := if size i <? new_end then set_size i new_end else i in
      _ ← log_op (lfs_writer.write_inode id i) map_write_data_block_err;
      _ ← maybe_compact;
      mret bytes_written) s = Ret (Ok (Z.of_nat (length buf)), s') /\ fs_ok k s' /\
  updates s s' id (Some (mk_afile (inode_type i) (link_count i) (Z.max (size i) (offset + Z.of_nat (length buf)))
    (put (extent s i) (Z.to_nat offset) buf))).
Proof using Hdep.
  intros Hk H0 Hi Ho Hb Hm. pose proof (reserve_pos _ _ (fk_head _ _ Hk)) as Hpos. pose proof (fk_room _ _ Hk) as Hroom.
  destruct (fk_get _ _ _ _ Hk Hi) as [Hio Hsz].
  rewrite fsm_bind_run. destruct (ensure_writer_ok (live s) s (fk_head _ _ Hk) (fk_super _ _ Hk)) as (s1 & E1 & B1 & M1 & I1 & N1); [lia|].
  rewrite E1, fsm_bind_run. pose proof (mv_room _ _ _ _ M1) as R1.
  destruct (file_write_loop offset buf (S DIRECT_BLOCK_COUNT) (live s) s1 i 0) as (i2 & s2 & P2 & k2 & E2 & B2 & Hp2 & HP2 & M2 & Hk2 & I2 & N2 & Ov);
    try done; try lia.
  { by eapply fits_pointers. }
  { right. pose proof (Z.div_pos (offset + 0) BLOCK_SIZE). change (Z.of_nat (S DIRECT_BLOCK_COUNT)) with 13. unfold BLOCK_SIZE in *. lia. }
  { unfold rounds. rewrite (proj2 (Z.leb_gt _ _)) by lia. pose proof (Z.div_pos (offset + 0) BLOCK_SIZE). unfold BLOCK_SIZE in *. lia. }
  rewrite E2. cbv zeta.
  assert (k2 <= 12) as Hk12.
  { unfold rounds in Hk2. rewrite (proj2 (Z.leb_gt _ _)) in Hk2 by lia. pose proof (Z.div_pos (offset + 0) BLOCK_SIZE). unfold BLOCK_SIZE in *. lia. }
  rewrite Z.add_0_r in Ov. change (drop (Z.to_nat 0) buf) with buf in Ov. pose proof (ov_meta _ _ _ _ _ _ Ov) as Hmeta.
  destruct i2 as [t2 l2 z2 d2 n2]; cbn [inode_type link_count size direct indirect] in *. simplify_eq.
  set (z := Z.max (size i) (offset + Z.of_nat (length buf))). rewrite fsm_bind_run.
  assert ((if size i <? offset + Z.of_nat (length buf) then set_size (mk_inode (inode_type i) (link_count i) (size i) d2 (indirect i))
      (offset + Z.of_nat (length buf)) else mk_inode (inode_type i) (link_count i) (size i) d2 (indirect i))
    = mk_inode (inode_type i) (link_count i) z d2 (indirect i)) as ->.
  { unfold z, set_size. cbn [inode_type link_count direct indirect]. destruct (Z.ltb_spec (size i) (offset + Z.of_nat (length buf))); f_equal; lia. }
  pose proof (moved_trans (live s) (live s) 0 k2 _ _ _ (fun x Hx => Hx) M1 M2) as M.
  destruct (commit_ok (13 + k) s s2 P2 (0 + k2) id (mk_inode (inode_type i) (link_count i) z d2 (indirect i)) map_write_data_block_err)
    as (b & s3 & E3 & K3 & C3 & _ & _ & A3 & O3); try done; try lia; try congruence.
  { split; [|cbn [size]; unfold z; lia]. destruct Hio as [T L S _ X]. split; cbn [inode_type link_count size direct indirect]; try done.
    - unfold z, is_u64 in *. assert (LFS_MAX_FILE_SIZE < 2 ^ 64) by done. lia.
    - split; apply Hp2. }
  rewrite E3, fsm_bind_run, C3. exists s3. split; [done|]. split; [eapply fs_ok_le, K3; lia|]. split; [|intros id' Hne; by apply O3].
  rewrite A3. unfold as_file. cbn [inode_type link_count size].
  rewrite (extent_ext s2 (mk_inode (inode_type i) (link_count i) (size i) d2 (indirect i)) s2) by (intros; reflexivity).
  rewrite (extent_overlaid s1 i s2 _ offset buf Ho Hm Ov), (extent_ext s i s1 i); [reflexivity|].
  intros j Hj. eapply moved_byte; [exact M1| |done]. by eapply fits_pointers.
Qed.
Lemma file_write_refines k s id offset buf :
  fs_ok (13 + k) s -> 0 <= k -> is_u64 offset ->
  exists s', write id offset buf s = Ret ((a_write (abs s id) offset buf).1, s') /\ fs_ok k s' /\
  updates s s' id (a_write (abs s id) offset buf).2.
Proof using Hdep.
  intros Hk H0 Ho. destruct (inode_at s id) as [i|] eqn:Ei; [pose proof (abs_Some _ _ _ Ei) as Ea|pose proof (abs_None _ _ Ei) as Ea].
  2: { exists s. unfold write. rewrite fsm_bind_run, (load_inode_missing _ _ _ Hk Ei), Ea. cbn [a_write fst snd]. split; [done|].
       split; [eapply fs_ok_le, Hk; lia|]. rewrite <- Ea. by eapply quiet_updates, quiet_same. }
  unfold write. rewrite fsm_bind_run. destruct (load_inode_ok _ _ _ _ Hk Ei) as (s1 & E1 & Q1). rewrite E1, Ea.
  unfold a_write. cbn [a_type as_file a_links a_size a_bytes].
  assert (forall r : result Z VfsError, exists s', Ret (r, s1) = Ret (r, s') /\ fs_ok k s' /\ updates s s' id (Some (as_file s i))) as Hq.
  { intros r. exists s1. split; [done|]. split; [eapply fs_ok_le, quiet_ok, Hk; [lia|done]|]. rewrite <- Ea. by apply quiet_updates. }
  destruct (inode_type i =? INODE_TYPE_DIR); [apply Hq|]. destruct (Nat.eqb_spec (length buf) 0) as [Hb|Hb]; [apply Hq|].
  unfold checked_add. destruct (Z.ltb_spec LFS_MAX_FILE_SIZE (offset + Z.of_nat (length buf))) as [Hm|Hm].
  { destruct (_ <? _); [|apply Hq]. rewrite (proj2 (Z.ltb_lt _ _)) by done. apply Hq. }
  assert (LFS_MAX_FILE_SIZE < 2 ^ 64) as Hmax by done.
  rewrite (proj2 (Z.ltb_lt _ _)) by lia. rewrite (proj2 (Z.ltb_ge _ _)) by lia.
  destruct (write_body_ok k s1 id i offset buf) as (s2 & E2 & K2 & U2); [by eapply quiet_ok|done|by rewrite (quiet_inode _ _ _ Q1)|apply Ho|lia|done|].
  exists s2. split; [exact E2|]. split; [done|]. apply (quiet_updates_from s s1 s2 id _ Q1).
  rewrite (extent_ext s i s1 i) in U2; [exact U2|]. intros j _. by apply quiet_byte.
Qed.
Lemma grow_loop_ok idx : forall P s i,
  busy P s -> pointers_in P (direct i) -> Forall (fun k => (k < DIRECT_BLOCK_COUNT)%nat) idx -> Z.of_nat (length idx) <= froom s ->
  exists i' s' P' k, grow_loop i idx s = Ret (Ok i', s') /\ busy P' s' /\ pointers_in P' (direct i') /\
  (forall x, P x -> P' x) /\ moved P k s s' /\ 0 <= k <= Z.of_nat (length idx) /\ imap s' = imap s /\ overlaid s i s' i' 0 [].
Proof using Hdep.
  induction idx as [|n idx IH]; intros P s i Hb Hp Hf Hr; cbn [grow_loop].
  { exists i, s, P, 0. split_and!; try done; [split; try done; lia|]. split; [done|]. intros j Hj. rewrite decide_False by (cbn [length]; lia). done. }
  apply Forall_cons in Hf as [Hn Hf]. cbn [length] in Hr. destruct (Z.eqb_spec (direct i !!! n) 0) as [Hz|Hz].
  2: { destruct (IH P s i Hb Hp Hf) as (i' & s' & P' & k & E & B & Hp' & HP & M & Hk & Hi & Ov); [lia|].
       exists i', s', P', k. split_and!; try done; cbn [length]; lia. }
  rewrite fsm_bind_run. destruct (log_op_block P s lfs_checkpoint.zero_block map_write_data_block_err Hb) as
    (b & s1 & E1 & B1 & M1 & I1 & _ & _ & Hv & Hu & Hb0); [lia|apply length_replicate|].
  rewrite E1. destruct (IH (fun x => P x \/ x = b) s1 (set_direct i n b) B1) as (i2 & s2 & P2 & k & E2 & B2 & Hp2 & HP2 & M2 & Hk & I2 & Ov); try done.
  { by apply pointers_insert. } { rewrite (mv_room _ _ _ _ M1). lia. }
  rewrite E2. exists i2, s2, P2, (1 + k). split_and!; try done; try congruence; cbn [length]; try lia.
  - auto.
  - apply (moved_trans P (fun x => P x \/ x = b) 1 k s s1 s2); [by left|done|done].
  - assert (n = Z.to_nat (Z.of_nat n * BLOCK_SIZE / BLOCK_SIZE)) as Hnn by (rewrite Z.div_mul by done; lia).
    rewrite <- (app_nil_l []). eapply overlaid_trans; [done| |exact Ov]. split; [done|]. intros j Hj. rewrite decide_False by (cbn [length]; lia).
    rewrite Hnn. rewrite (fbyte_set P s s1 i (Z.of_nat n * BLOCK_SIZE) b j) by
      (done || unfold LFS_MAX_FILE_SIZE, DIRECT_BLOCK_COUNT, BLOCK_SIZE in *; lia).
    destruct (decide _) as [Hq|Hq]; [|done]. rewrite Hv. unfold lfs_checkpoint.zero_block, fbyte. rewrite Hq, <- Hnn, Hz. cbn [Z.eqb].
    apply lookup_total_replicate_2. pose proof (Z.mod_pos_bound j BLOCK_SIZE eq_refl). lia.
Qed.

Lemma blocks_of_small sz : 0 <= sz <= LFS_MAX_FILE_SIZE -> blocks_of_size sz = Ok (div_ceil sz BLOCK_SIZE) /\ 0 <= div_ceil sz BLOCK_SIZE <= 12.
Proof.
  intros Hs. assert (0 <= div_ceil sz BLOCK_SIZE <= 12) as Hd.
  { unfold div_ceil, LFS_MAX_FILE_SIZE, DIRECT_BLOCK_COUNT, BLOCK_SIZE in *. Z.to_euclidean_division_equations; lia. }
  split; [|done]. unfold blocks_of_size. destruct (Z.eqb_spec sz 0) as [->|]; [done|].
  assert (LFS_MAX_FILE_SIZE < 2 ^ 32) by done. rewrite (proj2 (Z.leb_gt _ _)) by lia. f_equal. change (Z.of_nat DIRECT_BLOCK_COUNT) with 12. lia.
Qed.

(** The pointers of a file that has shrunk. *)
Definition cut_inode (i : DiskInode) (sz : Z) (n : nat) : DiskInode :=
  mk_inode (inode_type i) (link_count i) sz (take n (direct i) ++ replicate (DIRECT_BLOCK_COUNT - n) 0) (indirect i).

Lemma cut_pointers P i sz n : (n <= 12)%nat -> pointers_in P (direct i) -> pointers_in P (direct (cut_inode i sz n)).
Proof.
  intros Hn [Hl Hu Hp]. cbn [direct cut_inode]. split.
  - rewrite length_app, length_take, length_replicate, Hl. unfold DIRECT_BLOCK_COUNT. lia.
  - apply Forall_app. split; [by apply Forall_take|]. apply Forall_replicate. unfold is_u64. lia.
  - intros p [Hin|Hin]%elem_of_app Hz; [apply Hp; [|done]; by eapply elem_of_take in Hin as (k & ? & _); eapply list_elem_of_lookup_2|].
    by apply elem_of_replicate in Hin as [-> _].
Qed.

Lemma cut_extent P s i sz :
  0 <= sz <= LFS_MAX_FILE_SIZE -> pointers_in P (direct i) ->
  extent s (cut_inode i sz (Z.to_nat (div_ceil sz BLOCK_SIZE))) =
    put (extent s i) (Z.to_nat (whole_blocks sz)) (replicate (Z.to_nat (LFS_MAX_FILE_SIZE - whole_blocks sz)) 0).
Proof.
  intros Hs Hp. destruct (blocks_of_small sz Hs) as [_ Hd]. unfold whole_blocks. set (n := div_ceil sz BLOCK_SIZE) in *.
  assert (0 <= n * BLOCK_SIZE <= LFS_MAX_FILE_SIZE) as Hw by (unfold LFS_MAX_FILE_SIZE, DIRECT_BLOCK_COUNT, BLOCK_SIZE in *; lia).
  pose proof (length_extent s i) as Hl. apply extent_eq; [rewrite length_put; rewrite ?length_replicate; lia|].
  intros j Hj. rewrite put_lookup by (rewrite ?length_replicate; lia). rewrite length_replicate. unfold fbyte. cbn [direct cut_inode].
  assert (Z.to_nat n <= length (direct i))%nat as Hnl by (rewrite (pi_length _ _ Hp); unfold DIRECT_BLOCK_COUNT; lia).
  pose proof (direct_lt j Hj) as Hlt. pose proof (Z.div_pos j BLOCK_SIZE).
  destruct (decide (_ <= _ < _)%nat) as [Hin|Hout].
  - rewrite lookup_total_replicate_2 by lia. rewrite list_lookup_total_alt, lookup_app_r; rewrite length_take_le by lia.
    + rewrite lookup_replicate_2; [done|]. unfold BLOCK_SIZE, DIRECT_BLOCK_COUNT in *. Z.to_euclidean_division_equations; lia.
    + unfold BLOCK_SIZE in *. Z.to_euclidean_division_equations; lia.
  - rewrite extent_total by done. unfold fbyte.
    assert ((take (Z.to_nat n) (direct i) ++ replicate (DIRECT_BLOCK_COUNT - Z.to_nat n) 0) !!! Z.to_nat (j / BLOCK_SIZE) =
      direct i !!! Z.to_nat (j / BLOCK_SIZE)) as ->; [|done].
    assert (Z.to_nat (j / BLOCK_SIZE) < Z.to_nat n)%nat by (unfold BLOCK_SIZE in *; Z.to_euclidean_division_equations; lia).
    rewrite !list_lookup_total_alt, lookup_app_l by (rewrite length_take_le; lia). by rewrite lookup_take_lt.
Qed.
(** The pointers of [truncate], before the inode is stored. *)
Lemma resize_ok k s id i sz :
  fs_ok (13 + k) s -> 0 <= k -> inode_at s id = Some i -> 0 <= sz <= LFS_MAX_FILE_SIZE ->
  exists i2 s2 P2 k2, (if sz <? size i then
         n ← pure (blocks_of_size sz);
         mret (mk_inode (inode_type (set_size i sz)) (link_count (set_size i sz)) (size (set_size i sz))
           (take (Z.to_nat n) (direct (set_size i sz)) ++ replicate (DIRECT_BLOCK_COUNT - Z.to_nat n) 0) (indirect (set_size i sz)))
       else if size i <? sz then
         _ ← ensure_writer;
         old_blocks ← pure (blocks_of_size (size i));
         new_blocks ← pure (blocks_of_size sz);
         grow_loop (set_size i sz) (seq (Z.to_nat old_blocks) (Z.to_nat new_blocks - Z.to_nat old_blocks))
       else mret (set_size i sz)) s = Ret (Ok i2, s2) /\ headed P2 s2 /\ sb_segment_size (superblock s2) = segment_size (segments s2) /\
  pointers_in P2 (direct i2) /\ (forall x, live s x -> P2 x) /\ moved (live s) k2 s s2 /\ 0 <= k2 <= 12 /\ imap s2 = imap s /\
  (inode_type i2, link_count i2, size i2, indirect i2) = (inode_type i, link_count i, sz, indirect i) /\
  extent s2 i2 = cut_or_same sz (size i) (extent s i).
Proof using Hdep.
  intros Hk H0 Hi Hs. destruct (fk_get _ _ _ _ Hk Hi) as [Hio Hsz]. pose proof (fits_pointers _ _ _ _ Hk Hi) as Hp.
  pose proof (reserve_pos _ _ (fk_head _ _ Hk)) as Hpos. pose proof (fk_room _ _ Hk) as Hroom.
  destruct (blocks_of_small sz Hs) as [Eb Hd]. unfold cut_or_same. destruct (Z.ltb_spec sz (size i)) as [Hlt|Hge].
  { rewrite fsm_bind_run. unfold pure. rewrite Eb. exists (cut_inode i sz (Z.to_nat (div_ceil sz BLOCK_SIZE))), s, (live s), 0.
    split; [reflexivity|]. split; [apply (fk_head _ _ Hk)|]. split; [apply (fk_super _ _ Hk)|]. split; [apply cut_pointers; [lia|done]|].
    split; [done|]. split; [split; try done; lia|]. split; [done|]. split; [done|]. split; [done|]. by eapply cut_extent. }
  destruct (Z.ltb_spec (size i) sz) as [Hgt|Hle].
  2: { exists (set_size i sz), s, (live s), 0. split; [reflexivity|]. split; [apply (fk_head _ _ Hk)|]. split; [apply (fk_super _ _ Hk)|].
       split; [done|]. split; [done|]. split; [split; try done; lia|]. split; [done|]. split; [done|]. split; [done|]. by apply extent_ext. }
  destruct (blocks_of_small (size i)) as [Eo Hdo]; [destruct (io_size _ Hio); lia|].
  rewrite fsm_bind_run. destruct (ensure_writer_ok (live s) s (fk_head _ _ Hk) (fk_super _ _ Hk)) as (s1 & E1 & B1 & M1 & I1 & _); [lia|].
  rewrite E1, fsm_bind_run. unfold pure. rewrite Eo, fsm_bind_run, Eb. pose proof (mv_room _ _ _ _ M1) as R1.
  set (idx := seq _ _).
  assert (length idx <= 12)%nat as Hlen by (unfold idx; rewrite length_seq; lia).
  destruct (grow_loop_ok idx (live s) s1 (set_size i sz) B1) as (i2 & s2 & P2 & k2 & E2 & B2 & Hp2 & HP2 & M2 & Hk2 & I2 & Ov); try done; try lia.
  { apply Forall_forall. intros x Hx%elem_of_seq. unfold DIRECT_BLOCK_COUNT. lia. }
  rewrite E2. pose proof (moved_trans (live s) (live s) 0 k2 _ _ _ (fun x Hx => Hx) M1 M2) as M. exists i2, s2, P2, (0 + k2).
  split; [done|]. split; [by apply busy_headed|]. split; [apply B2|]. split; [done|]. split; [done|]. split; [done|]. split; [lia|].
  split; [congruence|]. split; [apply (ov_meta _ _ _ _ _ _ Ov)|]. apply extent_ext. intros j Hj.
  rewrite (ov_byte _ _ _ _ _ _ Ov j Hj), decide_False by (cbn [length]; lia). exact (moved_byte _ _ _ _ i j M1 Hp Hj).
Qed.

Lemma truncate_refines k s id sz :
  fs_ok (13 + k) s -> 0 <= k -> is_u64 sz ->
  exists s', truncate id sz s = Ret ((a_truncate (abs s id) sz).1, s') /\ fs_ok k s' /\ updates s s' id (a_truncate (abs s id) sz).2.
Proof using Hdep.
  intros Hk H0 Hs. destruct (inode_at s id) as [i|] eqn:Ei; [pose proof (abs_Some _ _ _ Ei) as Ea|pose proof (abs_None _ _ Ei) as Ea].
  2: { exists s. unfold truncate. rewrite fsm_bind_run, (load_inode_missing _ _ _ Hk Ei), Ea. cbn [a_truncate fst snd]. split; [done|].
       split; [eapply fs_ok_le, Hk; lia|]. rewrite <- Ea. by eapply quiet_updates, quiet_same. }
  unfold truncate. rewrite fsm_bind_run. destruct (load_inode_ok _ _ _ _ Hk Ei) as (s1 & E1 & Q1). rewrite E1, Ea.
  unfold a_truncate. cbn [a_type as_file a_links a_size a_bytes].
  assert (forall r : result () VfsError, exists s', Ret (r, s1) = Ret (r, s') /\ fs_ok k s' /\ updates s s' id (Some (as_file s i))) as Hq.
  { intros r. exists s1. split; [done|]. split; [eapply fs_ok_le, quiet_ok, Hk; [lia|done]|]. rewrite <- Ea. by apply quiet_updates. }
  destruct (inode_type i =? INODE_TYPE_DIR); [apply Hq|]. destruct (Z.ltb_spec LFS_MAX_FILE_SIZE sz) as [Hm|Hm]; [apply Hq|].
  pose proof (quiet_ok _ _ _ Q1 Hk) as K1. pose proof Ei as Ei1. rewrite <- (quiet_inode _ _ _ Q1) in Ei1.
  pose proof (reserve_pos _ _ (fk_head _ _ K1)) as Hpos. pose proof (fk_room _ _ K1) as Hroom. destruct (fk_get _ _ _ _ K1 Ei1) as [Hio _].
  destruct (resize_ok k s1 id i sz K1 H0 Ei1) as (i2 & s2 & P2 & k2 & E2 & B2 & Sb2 & Hp2 & HP2 & M2 & Hk2 & I2 & Mt & Hx); [destruct Hs; lia|].
  cbv zeta. rewrite fsm_bind_run, E2. pose proof (mv_room _ _ _ _ M2) as R2.
  rewrite fsm_bind_run. destruct (ensure_writer_ok P2 s2 B2 Sb2) as (s3 & E3 & B3 & M3 & I3 & _); [lia|]. rewrite E3, fsm_bind_run.
  pose proof (moved_trans (live s1) P2 k2 0 _ _ _ HP2 M2 M3) as M.
  destruct i2 as [t2 l2 z2 d2 n2]; cbn [inode_type link_count size indirect] in Mt; simplify_eq.
  destruct (commit_ok (13 + k) s1 s3 P2 (k2 + 0) id (mk_inode (inode_type i) (link_count i) sz d2 (indirect i)) map_write_data_block_err)
    as (b & s4 & E4 & K4 & _ & _ & _ & A4 & O4); try done; try lia; try congruence.
  { split; [|done]. destruct Hio as [T L S _ X]. split; cbn [inode_type link_count size direct indirect]; try done. split; apply Hp2. }
  rewrite E4. exists s4. split; [reflexivity|]. split; [eapply fs_ok_le, K4; lia|]. apply (quiet_updates_from s s1 s4 id _ Q1).
  split; [|intros id' Hne; by apply O4]. rewrite A4. unfold as_file. cbn [inode_type link_count size].
  rewrite (extent_ext s2 (mk_inode (inode_type i) (link_count i) sz d2 (indirect i)) s3), Hx.
  - rewrite (extent_ext s i s1 i); [reflexivity|]. intros j _. by apply quiet_byte.
  - intros j Hj. exact (moved_byte _ _ _ _ _ j M3 Hp2 Hj).
Qed.
(** ** Sequences of operations *)

Inductive file_op := Read (id offset len : Z) | Write (id offset : Z) (buf : list Z) | Truncate (id sz : Z).
Inductive answer := Bytes (r : result (list Z) VfsError) | Count (r : result Z VfsError) | Unit (r : result () VfsError).

Definition op_ok (o : file_op) : Prop :=
  match o with Read _ offset len => 0 <= offset /\ 0 <= len | Write _ offset _ => is_u64 offset | Truncate _ sz => is_u64 sz end.

Definition answering {A} (f : result A VfsError -> answer) (r : outcome (result A VfsError * Lfs D)) : outcome (answer * Lfs D) :=
  match r with Ret (a, s) => Ret (f a, s) | Panic => Panic end.

Definition exec (o : file_op) s : outcome (answer * Lfs D) :=
  match o with
  | Read id offset len => answering Bytes (read id offset len s)
  | Write id offset buf => answering Count (write id offset buf s)
  | Truncate id sz => answering Unit (truncate id sz s)
  end.

Fixpoint exec_all (ops : list file_op) s : outcome (list answer * Lfs D) :=
  match ops with
  | [] => Ret ([], s)
  | o :: ops =>
      match exec o s with
      | Panic => Panic
      | Ret (a, s) => match exec_all ops s with Ret (rest, s) => Ret (a :: rest, s) | Panic => Panic end
      end
  end.

Definition files := Z -> option afile.
Definition update (F : files) (id : Z) (f : option afile) : files := fun id' => if decide (id' = id) then f else F id'.

Definition spec (o : file_op) (F : files) : answer * files :=
  match o with
  | Read id offset len => (Bytes (a_read (F id) offset len), F)
  | Write id offset buf => (Count (a_write (F id) offset buf).1, update F id (a_write (F id) offset buf).2)
  | Truncate id sz => (Unit (a_truncate (F id) sz).1, update F id (a_truncate (F id) sz).2)
  end.

Fixpoint spec_all (ops : list file_op) (F : files) : list answer * files :=
  match ops with
  | [] => ([], F)
  | o :: ops => let (a, F) := spec o F in let (rest, F) := spec_all ops F in (a :: rest, F)
  end.

Lemma updates_update s s' id f F id' : (forall id, F id = abs s id) -> updates s s' id f -> update F id f id' = abs s' id'.
Proof. intros HF [Hf Ho]. unfold update. destruct (decide (id' = id)) as [->|Hne]; [done|]. rewrite HF. symmetry. by apply Ho. Qed.

Lemma exec_refines k o s F :
  fs_ok (13 + k) s -> 0 <= k -> op_ok o -> (forall id, F id = abs s id) ->
  exists s', exec o s = Ret ((spec o F).1, s') /\ fs_ok k s' /\ forall id, (spec o F).2 id = abs s' id.
Proof using Hdep.
  intros Hk H0 Ho HF. destruct o as [id off len|id off buf|id sz]; cbn [exec spec fst snd op_ok] in *; rewrite HF.
  - destruct (file_read_refines _ s id off len Hk) as (s' & E & K & U); [apply Ho..|]. exists s'. rewrite E. cbn [answering]. split; [done|].
    split; [eapply fs_ok_le, K; lia|]. intros id'. rewrite <- (updates_update s s' id _ F id' HF U). unfold update.
    destruct (decide (id' = id)) as [->|]; [apply HF|done].
  - destruct (file_write_refines k s id off buf Hk H0 Ho) as (s' & E & K & U). exists s'. rewrite E. split; [done|]. split; [done|].
    intros id'. by apply (updates_update s).
  - destruct (truncate_refines k s id sz Hk H0 Ho) as (s' & E & K & U). exists s'. rewrite E. split; [done|]. split; [done|].
    intros id'. by apply (updates_update s).
Qed.

Lemma exec_all_refines ops : forall s F,
  fs_ok (13 * Z.of_nat (length ops)) s -> Forall op_ok ops -> (forall id, F id = abs s id) ->
  exists s', exec_all ops s = Ret ((spec_all ops F).1, s') /\ fs_ok 0 s' /\ forall id, (spec_all ops F).2 id = abs s' id.
Proof using Hdep.
  induction ops as [|o ops IH]; intros s F Hk Ho HF; cbn [exec_all spec_all].
  { exists s. split; [done|]. split; [eapply fs_ok_le, Hk; cbn [length]; lia|done]. }
  apply Forall_cons in Ho as [Ho Hos]. cbn [length] in Hk.
  destruct (exec_refines (13 * Z.of_nat (length ops)) o s F) as (s1 & E1 & K1 & F1); [eapply fs_ok_le, Hk; lia|lia|done|done|].
  rewrite E1. destruct (spec o F) as [a F']. cbn [fst snd] in *. destruct (IH s1 F' K1 Hos F1) as (s2 & E2 & K2 & F2). rewrite E2.
  exists s2. by destruct (spec_all ops F').
Qed.

(** ** Files as arrays of bytes

    The blocks of a file hold zeros past its end unless a truncation cut inside a
    block; while none does, the file is its bytes and nothing else. *)

Record bfile := mk_bfile { b_type : Z; b_links : Z; b_data : list Z }.
Definition bfiles := Z -> option bfile.

Definition b_read (f : option bfile) (offset len : Z) : result (list Z) VfsError :=
  match f with
  | None => Err fd.NotFound
  | Some g => if b_type g =? INODE_TYPE_DIR then Err fd.IsADirectory else Ok (take (Z.to_nat len) (drop (Z.to_nat offset) (b_data g)))
  end.

(** The bytes before the offset, zeros where there are none, the new bytes, and
    what the file has after them. *)
Definition b_write (f : option bfile) (offset : Z) (buf : list Z) : result Z VfsError * option bfile :=
  match f with
  | None => (Err fd.NotFound, f)
  | Some g =>
      let off := Z.to_nat offset in
      if b_type g =? INODE_TYPE_DIR then (Err fd.IsADirectory, f)
      else if decide (buf = []) then (Ok 0, f)
      else if LFS_MAX_FILE_SIZE <? offset + Z.of_nat (length buf) then (Err fd.NoSpace, f)
      else (Ok (Z.of_nat (length buf)),
            Some (mk_bfile (b_type g) (b_links g) (resize off 0 (b_data g) ++ buf ++ drop (off + length buf) (b_data g))))
  end.

Definition b_truncate (f : option bfile) (sz : Z) : result () VfsError * option bfile :=
  match f with
  | None => (Err fd.NotFound, f)
  | Some g =>
      if b_type g =? INODE_TYPE_DIR then (Err fd.IsADirectory, f)
      else if LFS_MAX_FILE_SIZE <? sz then (Err fd.NoSpace, f)
      else (Ok (), Some (mk_bfile (b_type g) (b_links g) (resize (Z.to_nat sz) 0 (b_data g))))
  end.

Definition b_update (F : bfiles) (id : Z) (f : option bfile) : bfiles := fun id' => if decide (id' = id) then f else F id'.

Definition b_spec (o : file_op) (F : bfiles) : answer * bfiles :=
  match o with
  | Read id offset len => (Bytes (b_read (F id) offset len), F)
  | Write id offset buf => (Count (b_write (F id) offset buf).1, b_update F id (b_write (F id) offset buf).2)
  | Truncate id sz => (Unit (b_truncate (F id) sz).1, b_update F id (b_truncate (F id) sz).2)
  end.

Fixpoint b_all (ops : list file_op) (F : bfiles) : list answer * bfiles :=
  match ops with
  | [] => ([], F)
  | o :: ops => let (a, F) := b_spec o F in let (rest, F) := b_all ops F in (a :: rest, F)
  end.

(** A truncation cuts a file at the end of a block, or does not cut it. *)
Definition even_cut (o : file_op) (F : bfiles) : Prop :=
  match o with
  | Truncate id sz => forall g, F id = Some g -> sz < Z.of_nat (length (b_data g)) -> sz mod BLOCK_SIZE = 0
  | _ => True
  end.
Fixpoint even_cuts (ops : list file_op) (F : bfiles) : Prop :=
  match ops with [] => True | o :: ops => even_cut o F /\ even_cuts ops (b_spec o F).2 end.

Record plain_bytes (g : afile) (b : bfile) : Prop := {
  pb_type : a_type g = b_type b;
  pb_links : a_links g = b_links b;
  pb_size : a_size g = Z.of_nat (length (b_data b));
  pb_max : Z.of_nat (length (b_data b)) <= LFS_MAX_FILE_SIZE;
  pb_bytes : a_bytes g = resize (Z.to_nat LFS_MAX_FILE_SIZE) 0 (b_data b);
}.

(** The file system stores the arrays [F]. *)
Definition stores s (F : bfiles) : Prop := forall id, option_Forall2 plain_bytes (abs s id) (F id).

Lemma resize_grow n m (l : list Z) : (length l <= n <= m)%nat -> resize m 0 (resize n 0 l) = resize m 0 l.
Proof using Type.
  intros Hn. rewrite (resize_spec l n), take_ge by lia. rewrite resize_app_ge by lia. rewrite resize_replicate.
  by rewrite (resize_spec l m), take_ge by lia.
Qed.

Lemma plain_read g b off len : plain_bytes g b -> 0 <= off -> 0 <= len -> a_read (Some g) off len = b_read (Some b) off len.
Proof using Type.
  intros [Ht _ Hs Hm Hb] Ho Hl. cbn [a_read b_read]. rewrite Ht, Hs, Hb. destruct (_ =? _); [done|]. f_equal. set (d := b_data b) in *.
  apply list_eq. intros j. rewrite !lookup_take, !lookup_drop. destruct (decide (Z.of_nat j < len)) as [Hj|Hj].
  - rewrite (decide_True (P := (j < Z.to_nat len)%nat)) by lia. destruct (decide (Z.to_nat off + j < length d)%nat) as [Hin|Hout].
    + rewrite decide_True by lia. by rewrite lookup_resize by lia.
    + rewrite decide_False by lia. symmetry. apply lookup_ge_None_2. lia.
  - by rewrite !decide_False by lia.
Qed.

Lemma plain_write g b off buf :
  plain_bytes g b -> 0 <= off ->
  (a_write (Some g) off buf).1 = (b_write (Some b) off buf).1 /\
  option_Forall2 plain_bytes (a_write (Some g) off buf).2 (b_write (Some b) off buf).2.
Proof using Type.
  intros Hp Ho. pose proof Hp as [Ht Hk Hs Hm Hb]. cbn [a_write b_write]. rewrite Ht. destruct (_ =? INODE_TYPE_DIR); [by split; [|constructor]|].
  destruct (decide (buf = [])) as [->|Hne]; [by split; [|constructor]|].
  destruct (Nat.eqb_spec (length buf) 0) as [?%nil_length_inv|_]; [done|].
  destruct (Z.ltb_spec LFS_MAX_FILE_SIZE (off + Z.of_nat (length buf))); [by split; [|constructor]|]. split; [done|]. constructor.
  set (d := b_data b) in *. constructor; cbn [a_type a_links a_size a_bytes b_type b_links b_data]; [done|done| | |].
  - rewrite !length_app, length_resize, length_drop. lia.
  - rewrite !length_app, length_resize, length_drop. lia.
  - rewrite Hb. unfold put. rewrite take_resize_le by lia. rewrite (resize_app_ge (resize _ 0 d)) by (rewrite length_resize; lia).
    rewrite resize_app_ge by (rewrite length_resize; lia). rewrite length_resize. do 2 f_equal. rewrite drop_resize_le by lia. f_equal. lia.
Qed.

Lemma plain_truncate g b sz :
  plain_bytes g b -> 0 <= sz -> (sz < Z.of_nat (length (b_data b)) -> sz mod BLOCK_SIZE = 0) ->
  (a_truncate (Some g) sz).1 = (b_truncate (Some b) sz).1 /\
  option_Forall2 plain_bytes (a_truncate (Some g) sz).2 (b_truncate (Some b) sz).2.
Proof using Type.
  intros Hp Ho He. pose proof Hp as [Ht Hk Hs Hm Hb]. cbn [a_truncate b_truncate]. rewrite Ht. destruct (_ =? INODE_TYPE_DIR); [by split; [|constructor]|].
  destruct (Z.ltb_spec LFS_MAX_FILE_SIZE sz); [by split; [|constructor]|]. split; [done|]. constructor.
  set (d := b_data b) in *. constructor; cbn [a_type a_links a_size a_bytes b_type b_links b_data]; [done|done|rewrite length_resize; lia|rewrite length_resize; lia|].
  unfold cut_or_same. rewrite Hs, Hb. destruct (Z.ltb_spec sz (Z.of_nat (length d))) as [Hlt|Hge].
  - assert (whole_blocks sz = sz) as -> by (specialize (He Hlt); unfold whole_blocks, div_ceil, BLOCK_SIZE in *; Z.to_euclidean_division_equations; lia).
    unfold put. rewrite length_replicate, take_resize_le by lia. rewrite (drop_ge (resize _ 0 d)) by (rewrite length_resize; lia).
    rewrite app_nil_r, (resize_spec (resize _ 0 d)), take_ge, length_resize by (rewrite length_resize; lia). do 2 f_equal. lia.
  - symmetry. apply resize_grow. lia.
Qed.

Lemma update_plain F B id f b : (forall id, option_Forall2 plain_bytes (F id) (B id)) -> option_Forall2 plain_bytes f b ->
  forall id', option_Forall2 plain_bytes (update F id f id') (b_update B id b id').
Proof using Type. intros HF Hf id'. unfold update, b_update. by destruct (decide (id' = id)). Qed.

Lemma spec_plain o F B :
  op_ok o -> even_cut o B -> (forall id, option_Forall2 plain_bytes (F id) (B id)) ->
  (spec o F).1 = (b_spec o B).1 /\ forall id, option_Forall2 plain_bytes ((spec o F).2 id) ((b_spec o B).2 id).
Proof using Type.
  intros Ho He HF. destruct o as [id off len|id off buf|id sz]; cbn [spec b_spec fst snd op_ok even_cut] in *.
  - split; [|done]. f_equal. destruct Ho. destruct (HF id) as [g b Hp|]; [|done]. by apply plain_read.
  - assert ((a_write (F id) off buf).1 = (b_write (B id) off buf).1 /\
      option_Forall2 plain_bytes (a_write (F id) off buf).2 (b_write (B id) off buf).2) as [-> Hu].
    { destruct (HF id) as [g b Hp|]; [|by split; [|constructor]]. apply plain_write; [done|]. apply Ho. }
    split; [done|]. by apply update_plain.
  - assert ((a_truncate (F id) sz).1 = (b_truncate (B id) sz).1 /\
      option_Forall2 plain_bytes (a_truncate (F id) sz).2 (b_truncate (B id) sz).2) as [-> Hu].
    { pose proof (HF id) as Hid. destruct (F id) as [g|], (B id) as [b|] eqn:Eb; inversion Hid; subst; [|by split; [|constructor]].
      apply plain_truncate; [done|apply Ho|]. by apply He. }
    split; [done|]. by apply update_plain.
Qed.

Lemma spec_all_plain ops : forall F B,
  Forall op_ok ops -> even_cuts ops B -> (forall id, option_Forall2 plain_bytes (F id) (B id)) ->
  (spec_all ops F).1 = (b_all ops B).1 /\ forall id, option_Forall2 plain_bytes ((spec_all ops F).2 id) ((b_all ops B).2 id).
Proof using Type.
  induction ops as [|o ops IH]; intros F B Ho He HF; cbn [spec_all b_all even_cuts] in *; [by split|].
  apply Forall_cons in Ho as [Ho Hos]. destruct He as [He Hes]. destruct (spec_plain o F B Ho He HF) as [Ha HF'].
  destruct (spec o F) as [a F'], (b_spec o B) as [a' B']. cbn [fst snd] in *. subst a'.
  destruct (IH F' B' Hos Hes HF') as [Hr HF'']. destruct (spec_all ops F'), (b_all ops B'). cbn [fst snd] in *. by subst.
Qed.

(** C10: Files are arrays of bytes. On a device that answers every transfer, with
    room in the log for thirteen blocks per operation above what the cleaner
    keeps free, and from files whose blocks hold zeros past the end, any sequence
    of reads, writes and truncations by inode number returns what arrays return,
    errors included, and leaves every file the array it should be: a write past
    the end fills the gap with zeros, a truncation cuts or extends with zeros, and
    no other file changes. The sequence may cut a file only at the end of a
    block: the code keeps the bytes of a block that is cut in two. *)
Theorem files_are_arrays ops s F :
  fs_ok (13 * Z.of_nat (length ops)) s -> Forall op_ok ops -> stores s F -> even_cuts ops F ->
  exists s', exec_all ops s = Ret ((b_all ops F).1, s') /\ stores s' (b_all ops F).2.
Proof using Hdep.
  intros Hk Ho HF He. destruct (exec_all_refines ops s (abs s) Hk Ho ltac:(done)) as (s' & E & _ & Hs).
  destruct (spec_all_plain ops (abs s) F Ho He HF) as [Ha Hf]. exists s'. rewrite E, Ha. split; [done|].
  intros id. rewrite <- Hs. apply Hf.
Qed.
End spec.

(** ** An example: a card of eight segments with one file of three bytes *)

Lemma sound_card_dependable : dependable sound_card.
Proof. intros d Hd. split; [destruct Hd; change (0 <= msdc_count d < 2 ^ 64); lia|]. split; intros; [by apply sound_read|by apply sound_write]. Qed.

Definition demo_sb : LfsSuperblock := mk_superblock LFS_MAGIC LFS_VERSION 2048 256 8 1 65 3 4 0 1.
Definition demo_root : DiskInode := mk_inode INODE_TYPE_DIR 1 0 (replicate DIRECT_BLOCK_COUNT 0) 0.
Definition demo_file : DiskInode := mk_inode INODE_TYPE_FILE 1 3 (259 :: replicate 11 0) 0.

Definition demo_disk : MsdcBlockDevice Card :=
  store_block (store_block (store_block (mk_msdc (mk_card ∅ []) 16384)
    257 (write_to demo_root lfs_checkpoint.zero_block 0))
    258 (write_to demo_file lfs_checkpoint.zero_block 0))
    259 (put lfs_checkpoint.zero_block 0 [104; 105; 33]).

Definition demo_fs : Lfs (MsdcBlockDevice Card) :=
  mk_lfs (cache.new, demo_disk) [(0, 257); (1, 258)]
    (lfs_segment.mk_segments [true; true; false; false; false; false; false; false] 8 256 6) demo_sb 2 None 2 3.

Definition demo_ops : list file_op := [Write 1 3 [7; 8]; Read 1 0 10; Truncate 1 4; Truncate 1 6; Read 1 0 10; Read 0 0 1; Read 2 0 1].

(** What the code answers: the byte past the cut is back. *)
Lemma demo_answers :
  match exec_all demo_ops demo_fs with
  | Ret (rs, _) => rs = [Count (Ok 2); Bytes (Ok [104; 105; 33; 7; 8]); Unit (Ok ()); Unit (Ok ()); Bytes (Ok [104; 105; 33; 7; 8; 0]);
                         Bytes (Err fd.IsADirectory); Bytes (Err fd.NotFound)]
  | Panic => False
  end.
Proof. vm_compute. reflexivity. Qed.
Lemma array_demo_contents x :
  content demo_disk x =
    if decide (x = 259) then put lfs_checkpoint.zero_block 0 [104; 105; 33] else
    if decide (x = 258) then write_to demo_file lfs_checkpoint.zero_block 0 else
    if decide (x = 257) then write_to demo_root lfs_checkpoint.zero_block 0 else content (mk_msdc (mk_card ∅ []) 16384 : MsdcBlockDevice Card) x.
Proof.
  unfold demo_disk. rewrite !content_store; [done|..]; [by apply length_write_to..|].
  rewrite length_put; unfold lfs_checkpoint.zero_block; rewrite length_replicate; [done|cbn [length]; unfold BLOCK_SIZE; lia].
Qed.

Lemma demo_inode_ok i : i = demo_root \/ i = demo_file -> inode_fits i.
Proof. intros [-> | ->]; (split; [split|]; try done; split; [done|]; repeat constructor; done). Qed.

Lemma demo_inode id b :
  lfs_imap.get (imap demo_fs) id = Some b ->
  (b = 257 /\ inode_at demo_fs id = Some demo_root) \/ (b = 258 /\ inode_at demo_fs id = Some demo_file).
Proof.
  destruct (cache_new_ok demo_disk) as (_ & Hv & _); [done|]. intros Hg. unfold inode_at. rewrite Hg. unfold fview. cbn [fdisk demo_fs fst snd]. rewrite Hv.
  cbn [imap demo_fs lfs_imap.get] in Hg. destruct (0 =? id); [|destruct (1 =? id); [|done]]; simplify_eq; [left|right]; (split; [done|]).
  - rewrite array_demo_contents, decide_False, decide_False, decide_True by done. rewrite inode_block_roundtrip; [done|].
    apply (demo_inode_ok demo_root). by left.
  - rewrite array_demo_contents, decide_False, decide_True by done. rewrite inode_block_roundtrip; [done|].
    apply (demo_inode_ok demo_file). by right.
Qed.

Lemma array_demo_live x : live demo_fs x -> x = 257 \/ x = 258 \/ x = 259.
Proof.
  intros [[id Hg]|(id & i & Hi & Hx & Hz)].
  - destruct (demo_inode _ _ Hg) as [[-> _]|[-> _]]; auto.
  - destruct (lfs_imap.get (imap demo_fs) id) as [b|] eqn:Hg; [|unfold inode_at in Hi; by rewrite Hg in Hi].
    destruct (demo_inode _ _ Hg) as [[-> Hj]|[-> Hj]]; rewrite Hi in Hj; simplify_eq.
    + apply elem_of_replicate in Hx as [-> _]. done.
    + apply elem_of_cons in Hx as [->|Hx]; [by right; right|]. apply elem_of_replicate in Hx as [-> _]. done.
Qed.

Lemma array_demo_ok : fs_ok sound_card 91 demo_fs.
Proof.
  destruct (cache_new_ok demo_disk) as (Hok & _ & Hn); [done|]. split; [|done|done|].
  - exists (lfs_writer.mk_writer 1 256 1). split; [|by right]. split; try done.
    + split; [exact Hok|done|]. intros x Hx. by destruct (Hn x).
    + intros x Hx%array_demo_live. split; try (destruct Hx as [->|[->| ->]]; done).
  - intros id b Hg. destruct (demo_inode _ _ Hg) as [[_ Hi]|[_ Hi]]; eexists; (split; [exact Hi|]); apply demo_inode_ok; auto.
Qed.

Definition array_ops : list file_op := [Write 1 3 [7; 8]; Read 1 0 10; Truncate 1 0; Truncate 1 2; Write 1 4 [9]; Read 1 0 10; Read 0 0 1].

Definition demo_files : bfiles := fun id =>
  if decide (id = 0) then Some (mk_bfile INODE_TYPE_DIR 1 []) else
  if decide (id = 1) then Some (mk_bfile INODE_TYPE_FILE 1 [104; 105; 33]) else None.

Lemma demo_extent i : i = demo_root \/ i = demo_file ->
  extent demo_fs i = resize (Z.to_nat LFS_MAX_FILE_SIZE) 0 (if decide (i = demo_root) then [] else [104; 105; 33]).
Proof.
  destruct (cache_new_ok demo_disk) as (_ & Hv & _); [done|]. intros Hi. apply extent_eq; [by rewrite length_resize|]. intros j Hj.
  assert (forall l : list Z, resize (Z.to_nat LFS_MAX_FILE_SIZE) 0 l !!! Z.to_nat j = default 0 (l !! Z.to_nat j)) as Hr.
  { intros l. destruct (decide (Z.to_nat j < length l)%nat) as [Hlt|Hge].
    - rewrite lookup_total_resize by lia. by rewrite (list_lookup_lookup_total_lt l) by lia.
    - rewrite lookup_total_resize_new by lia. by rewrite lookup_ge_None_2 by lia. }
  rewrite Hr. unfold fbyte. destruct Hi as [-> | ->].
  - rewrite decide_True by done. cbn [direct demo_root]. rewrite lookup_total_replicate_2 by (by apply direct_lt). done.
  - rewrite decide_False by done. cbn [direct demo_file]. destruct (decide (j < BLOCK_SIZE)) as [Hb|Hb].
    + rewrite Z.div_small, Z.mod_small by lia. cbn [Z.to_nat lookup_total list_lookup_total]. change (259 =? 0) with false. cbn iota.
      unfold fview. cbn [fdisk demo_fs fst snd]. rewrite Hv, array_demo_contents, decide_True by done.
      rewrite put_lookup by (unfold lfs_checkpoint.zero_block, BLOCK_SIZE in *; rewrite ?length_replicate; cbn [length]; lia). cbn [length].
      destruct (decide _) as [Hin|Hout]; [rewrite Nat.sub_0_r; by rewrite list_lookup_lookup_total_lt by (cbn [length]; lia)|].
      rewrite lookup_ge_None_2 by (cbn [length]; lia). unfold lfs_checkpoint.zero_block. by rewrite lookup_total_replicate_2 by (unfold BLOCK_SIZE in *; lia).
    + pose proof (direct_lt j Hj) as Hlt. assert (1 <= j / BLOCK_SIZE) as H1 by (unfold BLOCK_SIZE in *; Z.to_euclidean_division_equations; lia).
      destruct (Z.to_nat (j / BLOCK_SIZE)) as [|n] eqn:En; [lia|]. change ((259 :: replicate 11 0) !!! S n) with (replicate 11 0 !!! n).
      unfold DIRECT_BLOCK_COUNT in Hlt. rewrite lookup_total_replicate_2 by lia. rewrite lookup_ge_None_2; [done|cbn [length]; unfold BLOCK_SIZE in *; lia].
Qed.

Lemma demo_stores : stores demo_fs demo_files.
Proof.
  assert (inode_at demo_fs 0 = Some demo_root /\ inode_at demo_fs 1 = Some demo_file) as [H0 H1].
  { destruct (demo_inode 0 257 eq_refl) as [[_ ?]|[? _]]; [|done]. destruct (demo_inode 1 258 eq_refl) as [[? _]|[_ ?]]; done. }
  intros id. unfold demo_files. destruct (decide (id = 0)) as [->|Hn0]; [|destruct (decide (id = 1)) as [->|Hn1]].
  - rewrite (abs_Some _ _ _ H0). constructor. constructor; [reflexivity..|discriminate|]. cbn [a_bytes as_file b_data]. rewrite demo_extent by (by left). by rewrite decide_True.
  - rewrite (abs_Some _ _ _ H1). constructor. constructor; [reflexivity..|discriminate|]. cbn [a_bytes as_file b_data]. rewrite demo_extent by (by right). by rewrite decide_False.
  - rewrite abs_None; [constructor|]. unfold inode_at. cbn [imap demo_fs lfs_imap.get].
    by rewrite (proj2 (Z.eqb_neq 0 id)), (proj2 (Z.eqb_neq 1 id)) by done.
Qed.

Lemma files_are_arrays_witness :
  exists s', exec_all array_ops demo_fs =
    Ret ([Count (Ok 2); Bytes (Ok [104; 105; 33; 7; 8]); Unit (Ok ()); Unit (Ok ()); Count (Ok 1); Bytes (Ok [0; 0; 0; 0; 9]); Bytes (Err fd.IsADirectory)], s').
Proof.
  destruct (files_are_arrays sound_card sound_card_dependable array_ops demo_fs demo_files array_demo_ok) as (s' & E & _).
  - repeat constructor; unfold op_ok, is_u64; lia.
  - exact demo_stores.
  - cbn [even_cuts array_ops even_cut]. split_and!; try exact I; intros g Hg; vm_compute in Hg; injection Hg as <-; vm_compute; congruence.
  - exists s'. rewrite E. reflexivity.
Defined.
End lfs_spec.
