(* ===== verification/Encryption.v ===== *)
(** * The encrypted block device ([crates/thumos/src/encryption.rs])

    [EncryptedBlockDevice] wraps a device: blocks of eight sectors are decrypted
    as they are read and encrypted as they are written, and a transfer that does
    not cover a block reads it first. AES-XTS belongs to packages outside the
    repository: it is the class [XtsCipher]. Of it is assumed that decryption
    undoes encryption, that lengths are kept, and that each unit of 16 bytes is
    decrypted on its own, as XTS does on whole units: this is what keeps a torn
    write of a block from damaging the sectors it did not reach.

    The wrapper keeps the laws of [Block], so the theorems on the cache and the
    file system hold on an encrypted volume. *)

From S2P Require Import Prelude Machine Block Cache LfsMeta LfsCheckpoint LfsLog LfsCompact Lfs LfsRecovery LfsFile LfsSpec.
From Stdlib Require Import ZArith Lia.
Open Scope Z_scope.

Module encryption.
Import block codec.

Definition XTS_KEY_SIZE : nat := 64.

(** The two halves of the key an [Xts128<Aes256>] was made from. *)
Record Xts128 := mk_xts { cipher_key : list Z; tweak_key : list Z }.

(** The packages [aes] and [xts_mode]. *)
Class XtsCipher := {
  encrypt_sector : Xts128 -> list Z -> list Z -> list Z;
  decrypt_sector : Xts128 -> list Z -> list Z -> list Z;
}.

Definition UNIT : nat := 16.
Definition unit_at (j : nat) (data : list Z) : list Z := take UNIT (drop (j * UNIT) data).
Definition whole_units (data : list Z) : Prop := exists n, length data = (n * UNIT)%nat.

Class XtsCipherLaws `{!XtsCipher} := {
  encrypt_length x t data : whole_units data -> length (encrypt_sector x t data) = length data;
  decrypt_length x t data : whole_units data -> length (decrypt_sector x t data) = length data;
  decrypt_encrypt x t data : whole_units data -> decrypt_sector x t (encrypt_sector x t data) = data;
  decrypt_unitwise x t a b j :
    whole_units a -> length b = length a -> unit_at j a = unit_at j b ->
    unit_at j (decrypt_sector x t a) = unit_at j (decrypt_sector x t b);
}.

Section device.
Context `{!XtsCipher} {D : Type} `{!BlockDevice D}.

Record EncryptedBlockDevice := mk_encrypted { inner : D; key : list Z }.

Definition with_inner (e : EncryptedBlockDevice) (d : D) : EncryptedBlockDevice := mk_encrypted d (key e).

(** [Aes256::new_from_slice] refuses a key that is not of 32 bytes. *)
Definition new_from_slice (k : list Z) : result (list Z) BlockError :=
  if (length k =? 32)%nat then Ok k else Err InvalidArgument.

Definition make_xts (e : EncryptedBlockDevice) : result Xts128 BlockError :=
  match new_from_slice (take 32 (key e)) with
  | Err err => Err err
  | Ok c1 => match new_from_slice (drop 32 (key e)) with Err err => Err err | Ok c2 => Ok (mk_xts c1 c2) end
  end.

Definition block_to_tweak (block_num : Z) : list Z := le64 block_num ++ replicate 8 0.

Definition encrypt_block_inplace (e : EncryptedBlockDevice) (block_num : Z) (data : list Z) : result (list Z) BlockError :=
  match make_xts e with Err err => Err err | Ok xts => Ok (encrypt_sector xts (block_to_tweak block_num) data) end.

Definition decrypt_block_inplace (e : EncryptedBlockDevice) (block_num : Z) (data : list Z) : result (list Z) BlockError :=
  match make_xts e with Err err => Err err | Ok xts => Ok (decrypt_sector xts (block_to_tweak block_num) data) end.

Definition enc_sector_count (e : EncryptedBlockDevice) : Z :=
  sector_count (inner e) / SECTORS_PER_BLOCK * SECTORS_PER_BLOCK.

(** The checks both transfers begin with; [true]: there is something to transfer.
    The length of the transfer in bytes has to fit a [usize] of 32 bits. *)
Definition transfer_check (e : EncryptedBlockDevice) (lba count : Z) (len : nat) : result bool BlockError :=
  let expected_len := count * SECTOR_SIZE in
  if 2 ^ 32 <=? expected_len then Err InvalidArgument else
  if negb (Z.of_nat len =? expected_len) then Err InvalidArgument else
  if count =? 0 then Ok false else
  match checked_add lba count with
  | None => Err OutOfBounds
  | Some end_lba => if enc_sector_count e <? end_lba then Err OutOfBounds else Ok true
  end.

Definition zero_buf : list Z := replicate (Z.to_nat BLOCK_SIZE) 0.

(** Each round transfers at least one sector, so [remaining] rounds are enough. *)
Fixpoint read_loop (fuel : nat) (e : EncryptedBlockDevice) (current_lba remaining : Z) (buf_offset : nat) (buf : list Z) :
    result () BlockError * list Z * EncryptedBlockDevice :=
  match fuel with
  | O => (Ok (), buf, e)
  | S fuel =>
      if remaining <=? 0 then (Ok (), buf, e) else
      let block_num := current_lba / SECTORS_PER_BLOCK in
      let block_start_lba := block_num * SECTORS_PER_BLOCK in
      let offset_in_block := current_lba - block_start_lba in
      let '(r, block_buf, d) := read_sectors (inner e) block_start_lba SECTORS_PER_BLOCK zero_buf in
      let e := with_inner e d in
      match r with
      | Err err => (Err err, buf, e)
      | Ok _ =>
          match decrypt_block_inplace e block_num block_buf with
          | Err err => (Err err, buf, e)
          | Ok block_buf =>
              let sectors_to_copy := Z.min remaining (SECTORS_PER_BLOCK - offset_in_block) in
              let byte_offset := Z.to_nat (offset_in_block * SECTOR_SIZE) in
              let byte_count := Z.to_nat (sectors_to_copy * SECTOR_SIZE) in
              let buf := put buf buf_offset (take byte_count (drop byte_offset block_buf)) in
              read_loop fuel e (current_lba + sectors_to_copy) (remaining - sectors_to_copy) (buf_offset + byte_count) buf
          end
      end
  end.

Definition enc_read_sectors (e : EncryptedBlockDevice) (lba count : Z) (buf : list Z) :
    result () BlockError * list Z * EncryptedBlockDevice :=
  match transfer_check e lba count (length buf) with
  | Err err => (Err err, buf, e)
  | Ok false => (Ok (), buf, e)
  | Ok true => read_loop (Z.to_nat count) e lba count 0 buf
  end.

(** What the block holds before the new sectors are merged: the old block when
    it is not written whole. *)
Definition read_modify (e : EncryptedBlockDevice) (block_num : Z) (partial : bool) :
    result (list Z) BlockError * EncryptedBlockDevice :=
  if partial then
    let '(r, block_buf, d) := read_sectors (inner e) (block_num * SECTORS_PER_BLOCK) SECTORS_PER_BLOCK zero_buf in
    let e := with_inner e d in
    match r with Err err => (Err err, e) | Ok _ => (decrypt_block_inplace e block_num block_buf, e) end
  else (Ok zero_buf, e).

Fixpoint write_loop (fuel : nat) (e : EncryptedBlockDevice) (current_lba remaining : Z) (buf_offset : nat) (buf : list Z) :
    result () BlockError * EncryptedBlockDevice :=
  match fuel with
  | O => (Ok (), e)
  | S fuel =>
      if remaining <=? 0 then (Ok (), e) else
      let block_num := current_lba / SECTORS_PER_BLOCK in
      let block_start_lba := block_num * SECTORS_PER_BLOCK in
      let offset_in_block := current_lba - block_start_lba in
      let sectors_to_write := Z.min remaining (SECTORS_PER_BLOCK - offset_in_block) in
      let byte_offset := Z.to_nat (offset_in_block * SECTOR_SIZE) in
      let byte_count := Z.to_nat (sectors_to_write * SECTOR_SIZE) in
      match read_modify e block_num (negb (offset_in_block =? 0) || negb (sectors_to_write =? SECTORS_PER_BLOCK)) with
      | (Err err, e) => (Err err, e)
      | (Ok block_buf, e) =>
          let block_buf := put block_buf byte_offset (take byte_count (drop buf_offset buf)) in
          match encrypt_block_inplace e block_num block_buf with
          | Err err => (Err err, e)
          | Ok block_buf =>
              match write_sectors (inner e) block_start_lba SECTORS_PER_BLOCK block_buf with
              | (Err err, d) => (Err err, with_inner e d)
              | (Ok _, d) =>
                  write_loop fuel (with_inner e d) (current_lba + sectors_to_write) (remaining - sectors_to_write)
                    (buf_offset + byte_count) buf
              end
          end
      end
  end.

Definition enc_write_sectors (e : EncryptedBlockDevice) (lba count : Z) (buf : list Z) :
    result () BlockError * EncryptedBlockDevice :=
  match transfer_check e lba count (length buf) with
  | Err err => (Err err, e)
  | Ok false => (Ok (), e)
  | Ok true => write_loop (Z.to_nat count) e lba count 0 buf
  end.

#[export] Instance encrypted_device : BlockDevice EncryptedBlockDevice := {|
  read_sectors := enc_read_sectors;
  write_sectors := enc_write_sectors;
  sector_count := enc_sector_count;
  sector_size e := SECTOR_SIZE;
|}.
End device.
Arguments EncryptedBlockDevice _ : clear implicits.

(** ** Pieces of a block *)

Lemma lookup_window (l : list Z) m n i : take n (drop m l) !! i = if decide (i < n)%nat then l !! (m + i)%nat else None.
Proof. rewrite lookup_take. case_decide; [apply lookup_drop|done]. Qed.

(** A piece is made of whole units. *)
Lemma piece_of_units a b k :
  0 <= k -> (forall j, (32 * Z.to_nat k <= j < 32 * Z.to_nat k + 32)%nat -> unit_at j a = unit_at j b) -> piece a k = piece b k.
Proof.
  intros Hk H. apply list_eq. intros i. unfold piece. rewrite !lookup_window. change (Z.to_nat SECTOR_SIZE) with 512%nat.
  case_decide as Hi; [|done]. replace (Z.to_nat (k * SECTOR_SIZE)) with (512 * Z.to_nat k)%nat by (unfold SECTOR_SIZE; lia).
  set (p := (512 * Z.to_nat k + i)%nat).
  pose proof (Nat.div_mod_eq p 16). pose proof (Nat.mod_upper_bound p 16 ltac:(lia)).
  assert (32 * Z.to_nat k <= p / 16 < 32 * Z.to_nat k + 32)%nat as Hj by (subst p; lia).
  specialize (H (p / 16)%nat Hj). apply (f_equal (fun l => l !! (p mod 16)%nat)) in H. unfold unit_at in H.
  rewrite !lookup_window in H. unfold UNIT in H. rewrite !decide_True in H by lia.
  replace (p / 16 * 16 + p mod 16)%nat with p in H by lia. exact H.
Qed.

Lemma units_of_piece a b k j :
  0 <= k -> piece a k = piece b k -> (32 * Z.to_nat k <= j < 32 * Z.to_nat k + 32)%nat -> unit_at j a = unit_at j b.
Proof.
  intros Hk H Hj. apply list_eq. intros i. unfold unit_at. rewrite !lookup_window. case_decide as Hi; [|done]. unfold UNIT in *.
  apply (f_equal (fun l => l !! (j * 16 + i - 512 * Z.to_nat k)%nat)) in H. unfold piece in H. rewrite !lookup_window in H.
  change (Z.to_nat SECTOR_SIZE) with 512%nat in H. rewrite !decide_True in H by lia.
  replace (Z.to_nat (k * SECTOR_SIZE)) with (512 * Z.to_nat k)%nat in H by (unfold SECTOR_SIZE; lia).
  replace (512 * Z.to_nat k + (j * 16 + i - 512 * Z.to_nat k))%nat with (j * 16 + i)%nat in H by lia. exact H.
Qed.

(** The pieces of a run of sectors are those of the sectors. *)
Lemma piece_mjoin (f : Z -> list Z) n k : forall a,
  (forall i, length (f i) = Z.to_nat SECTOR_SIZE) -> 0 <= k < n -> piece (mjoin (f <$> seqZ a n)) k = f (a + k).
Proof.
  intros a Hf Hk. rewrite <- (Z2Nat.id k) by lia. assert (Z.to_nat k < Z.to_nat n)%nat as Hk' by lia.
  rewrite <- (Z2Nat.id n) by lia. clear Hk. revert a Hk'. generalize (Z.to_nat k) as m. generalize (Z.to_nat n) as l.
  induction l as [|l IH]; intros m a Hm; [lia|]. rewrite Nat2Z.inj_succ, seqZ_cons, Z.pred_succ by lia. rewrite fmap_cons.
  change (mjoin (?x :: ?y)) with (x ++ mjoin y). destruct m as [|m].
  - unfold piece. simpl. rewrite drop_0, take_app_le by (rewrite Hf; lia). rewrite take_ge by (rewrite Hf; lia). f_equal. lia.
  - specialize (IH m (Z.succ a) ltac:(lia)). unfold piece in *. rewrite drop_app_ge by (rewrite Hf; unfold SECTOR_SIZE; lia).
    rewrite Hf. replace (Z.to_nat (Z.of_nat (S m) * SECTOR_SIZE) - Z.to_nat SECTOR_SIZE)%nat
      with (Z.to_nat (Z.of_nat m * SECTOR_SIZE)) by (unfold SECTOR_SIZE; lia).
    rewrite IH. f_equal. lia.
Qed.

(** A piece of a window of whole sectors. *)
Lemma piece_window (l : list Z) o m k :
  0 <= o -> 0 <= k < m ->
  piece (take (Z.to_nat (m * SECTOR_SIZE)) (drop (Z.to_nat (o * SECTOR_SIZE)) l)) k = piece l (o + k).
Proof.
  intros Ho Hk. apply list_eq. intros i. unfold piece. rewrite !lookup_window. case_decide; [|done].
  rewrite decide_True by (unfold SECTOR_SIZE in *; lia). f_equal. unfold SECTOR_SIZE in *. lia.
Qed.

(** A window of whole sectors is the run of their pieces. *)
Lemma window_pieces (l : list Z) o m :
  0 <= o -> 0 <= m -> (Z.to_nat ((o + m) * SECTOR_SIZE) <= length l)%nat ->
  take (Z.to_nat (m * SECTOR_SIZE)) (drop (Z.to_nat (o * SECTOR_SIZE)) l) = mjoin (piece l <$> seqZ o m).
Proof.
  intros Ho Hm Hl. set (w := take _ _). assert (length w = (Z.to_nat m * Z.to_nat SECTOR_SIZE)%nat) as Hw.
  { subst w. rewrite length_take, length_drop. unfold SECTOR_SIZE in *. lia. }
  rewrite <- (mjoin_pieces _ _ Hw), Z2Nat.id by lia. f_equal. rewrite <- (Z.add_0_r o) at 1.
  rewrite <- (fmap_add_seqZ o 0), <- list_fmap_compose. apply list_fmap_ext. intros _ k Hk%list_elem_of_lookup_2%elem_of_seqZ.
  cbn [compose]. by apply piece_window.
Qed.

(** Merging a run of sectors into a block. *)
Lemma piece_put (l : list Z) o (w : list Z) m k :
  0 <= o -> 0 <= m -> 0 <= k -> length w = Z.to_nat (m * SECTOR_SIZE) -> (Z.to_nat ((o + m) * SECTOR_SIZE) <= length l)%nat ->
  piece (put l (Z.to_nat (o * SECTOR_SIZE)) w) k = if decide (o <= k < o + m) then piece w (k - o) else piece l k.
Proof.
  intros Ho Hm Hk Hw Hl. apply list_eq. intros i. unfold piece, put. rewrite lookup_window.
  destruct (decide (i < Z.to_nat SECTOR_SIZE)%nat) as [Hi|Hi].
  2:{ case_decide; rewrite lookup_window, decide_False by done; done. }
  assert (length (take (Z.to_nat (o * SECTOR_SIZE)) l) = Z.to_nat (o * SECTOR_SIZE)) as Ht
    by (rewrite length_take; unfold SECTOR_SIZE in *; lia).
  case_decide as Hr; rewrite lookup_window, decide_True by done.
  - rewrite lookup_app_r, Ht by (rewrite Ht; unfold SECTOR_SIZE in *; lia).
    rewrite lookup_app_l by (rewrite Hw; unfold SECTOR_SIZE in *; lia). f_equal. unfold SECTOR_SIZE in *. lia.
  - destruct (decide (k < o)).
    + rewrite lookup_app_l by (rewrite Ht; unfold SECTOR_SIZE in *; lia). rewrite lookup_take, decide_True by (unfold SECTOR_SIZE in *; lia). done.
    + rewrite lookup_app_r, Ht by (rewrite Ht; unfold SECTOR_SIZE in *; lia).
      rewrite lookup_app_r, Hw by (rewrite Hw; unfold SECTOR_SIZE in *; lia). rewrite lookup_drop. f_equal. unfold SECTOR_SIZE in *. lia.
Qed.
(** ** The laws *)

Section laws.
Context {XC : XtsCipher} {XL : @XtsCipherLaws XC} {D : Type} {BD : BlockDevice D} {BL : BlockDeviceLaws D}.

Definition enc_ok (e : EncryptedBlockDevice D) : Prop := dev_ok (inner e) /\ length (key e) = XTS_KEY_SIZE.

Definition xts (e : EncryptedBlockDevice D) : Xts128 := mk_xts (take 32 (key e)) (drop 32 (key e)).

(** The plaintext of a block, and of a sector. *)
Definition plain (e : EncryptedBlockDevice D) (b : Z) : list Z := decrypt_sector (xts e) (block_to_tweak b) (content (inner e) b).
Definition plain_sector (e : EncryptedBlockDevice D) (i : Z) : list Z := piece (plain e (i / SECTORS_PER_BLOCK)) (i mod SECTORS_PER_BLOCK).

Lemma make_xts_ok e : enc_ok e -> make_xts e = Ok (xts e).
Proof.
  intros [_ Hk]. unfold make_xts, new_from_slice, XTS_KEY_SIZE in *. rewrite length_take, length_drop, Hk. reflexivity.
Qed.

Lemma whole_block (l : list Z) : length l = Z.to_nat BLOCK_SIZE -> whole_units l.
Proof. intros H. exists 256%nat. by rewrite H. Qed.

Lemma length_plain e b : enc_ok e -> length (plain e b) = Z.to_nat BLOCK_SIZE.
Proof. intros [Hd _]. unfold plain. pose proof (length_content (inner e) b Hd). by rewrite decrypt_length by by apply whole_block. Qed.

(** Decryption sector by sector. *)
Lemma decrypt_piece x t (a b : list Z) k :
  0 <= k -> length a = Z.to_nat BLOCK_SIZE -> length b = Z.to_nat BLOCK_SIZE -> piece a k = piece b k ->
  piece (decrypt_sector x t a) k = piece (decrypt_sector x t b) k.
Proof.
  intros Hk Ha Hb H. apply piece_of_units; [done|]. intros j Hj.
  apply decrypt_unitwise; [by apply whole_block|congruence|by apply (units_of_piece a b k)].
Qed.

Lemma piece_content (d : D) b k : dev_ok d -> 0 <= k < SECTORS_PER_BLOCK -> piece (content d b) k = sector d (b * SECTORS_PER_BLOCK + k).
Proof. intros Hd Hk. apply piece_mjoin; [|done]. intros. by apply sector_length. Qed.

(** A sector reads as before when the device holds it as before. *)
Lemma plain_sector_same e d i :
  enc_ok e -> dev_ok d -> sector d i = sector (inner e) i -> plain_sector (with_inner e d) i = plain_sector e i.
Proof.
  intros [He Hk] Hd H. unfold plain_sector, plain. pose proof (Z.mod_pos_bound i SECTORS_PER_BLOCK ltac:(done)) as Hm.
  apply decrypt_piece; [apply Hm|by apply length_content..|]. rewrite !piece_content by done. simpl.
  replace (i / SECTORS_PER_BLOCK * SECTORS_PER_BLOCK + i mod SECTORS_PER_BLOCK) with i; [done|].
  rewrite (Z_div_mod_eq_full i SECTORS_PER_BLOCK) at 1. lia.
Qed.

Lemma plain_ext e d b :
  enc_ok e -> (forall i, sector d i = sector (inner e) i) -> plain (with_inner e d) b = plain e b.
Proof. intros He H. unfold plain. simpl. by rewrite (content_ext (inner e) d) by auto. Qed.

(** A sector that holds its part of an encrypted block reads as the plaintext. *)
Lemma plain_sector_written e d b k P :
  enc_ok e -> dev_ok d -> 0 <= k < SECTORS_PER_BLOCK -> length P = Z.to_nat BLOCK_SIZE ->
  sector d (b * SECTORS_PER_BLOCK + k) = piece (encrypt_sector (xts e) (block_to_tweak b) P) k ->
  plain_sector (with_inner e d) (b * SECTORS_PER_BLOCK + k) = piece P k.
Proof.
  intros [He Hkey] Hd Hk HP H. unfold plain_sector, plain.
  replace ((b * SECTORS_PER_BLOCK + k) / SECTORS_PER_BLOCK) with b by (rewrite sectors_per_block in *; Z.to_euclidean_division_equations; lia).
  replace ((b * SECTORS_PER_BLOCK + k) mod SECTORS_PER_BLOCK) with k by (rewrite sectors_per_block in *; Z.to_euclidean_division_equations; lia).
  pose proof (whole_block P HP) as HW. rewrite <- (decrypt_encrypt (xts e) (block_to_tweak b) P HW) at 1.
  apply decrypt_piece; [lia|by apply length_content|by rewrite encrypt_length|]. by rewrite piece_content.
Qed.

Lemma length_plain_sector e i : enc_ok e -> length (plain_sector e i) = Z.to_nat SECTOR_SIZE.
Proof.
  intros He. unfold plain_sector. apply (length_piece _ _ SECTORS_PER_BLOCK); [by rewrite length_plain|by apply Z.mod_pos_bound].
Qed.

Lemma plain_sector_at e b k : 0 <= k < SECTORS_PER_BLOCK -> plain_sector e (b * SECTORS_PER_BLOCK + k) = piece (plain e b) k.
Proof. intros Hk. unfold plain_sector. f_equal; [f_equal|]; rewrite sectors_per_block in *; Z.to_euclidean_division_equations; lia. Qed.
(** *** Reading *)

(** Another state of the hardware with the same sectors. *)
Record same (e e' : EncryptedBlockDevice D) : Prop := {
  same_ok : enc_ok e';
  same_key : key e' = key e;
  same_count : sector_count (inner e') = sector_count (inner e);
  same_sectors i : sector (inner e') i = sector (inner e) i;
}.

Lemma same_refl e : enc_ok e -> same e e.
Proof. by split. Qed.

Lemma same_trans e1 e2 e3 : same e1 e2 -> same e2 e3 -> same e1 e3.
Proof. intros [? ? ? ?] [? ? ? ?]. split; [done|congruence..]. Qed.

Lemma same_plain e e' b : enc_ok e -> same e e' -> plain e' b = plain e b.
Proof.
  intros He [Ho Hk Hc Hs]. destruct e' as [d k]. simpl in *. subst k. by apply (plain_ext e d).
Qed.

Lemma same_plain_sector e e' i : enc_ok e -> same e e' -> plain_sector e' i = plain_sector e i.
Proof. intros He Hs. unfold plain_sector. by rewrite (same_plain e e'). Qed.

Lemma length_zero_buf : length zero_buf = Z.to_nat BLOCK_SIZE.
Proof. apply length_replicate. Qed.

(** One block read and decrypted. *)
Lemma read_block_spec e b r buf d :
  enc_ok e -> 0 <= b -> read_sectors (inner e) (b * SECTORS_PER_BLOCK) SECTORS_PER_BLOCK zero_buf = (r, buf, d) ->
  same e (with_inner e d) /\ (r = Ok () -> decrypt_block_inplace (with_inner e d) b buf = Ok (plain e b)).
Proof.
  intros He Hb E. destruct (block_read _ _ _ _ _ _ (proj1 He) Hb E) as (Hd & Hc & Hs & _ & Hr).
  assert (same e (with_inner e d)) as Hsame by (split; [split; [done|apply He]|done..]).
  split; [done|]. intros Hr'. unfold decrypt_block_inplace. rewrite make_xts_ok by apply Hsame. by rewrite (Hr Hr').
Qed.

(** The sectors of a transfer that fall in one block. *)
Lemma split_lba lba remaining :
  0 <= lba -> 0 < remaining ->
  exists b o m, lba / SECTORS_PER_BLOCK = b /\ 0 <= b /\ lba - b * SECTORS_PER_BLOCK = o /\ lba = b * SECTORS_PER_BLOCK + o /\
    Z.min remaining (SECTORS_PER_BLOCK - o) = m /\ 0 <= o /\ 0 < m <= remaining /\ o + m <= SECTORS_PER_BLOCK.
Proof.
  intros. exists (lba / 8), (lba mod 8), (Z.min remaining (8 - lba mod 8)). rewrite sectors_per_block.
  pose proof (Z_div_mod_eq_full lba 8). pose proof (Z.mod_pos_bound lba 8 ltac:(lia)). pose proof (Z.div_pos lba 8 ltac:(lia) ltac:(lia)). lia.
Qed.

Lemma plain_window e b o m :
  enc_ok e -> 0 <= o -> 0 < m -> o + m <= SECTORS_PER_BLOCK ->
  take (Z.to_nat (m * SECTOR_SIZE)) (drop (Z.to_nat (o * SECTOR_SIZE)) (plain e b)) =
  mjoin (plain_sector e <$> seqZ (b * SECTORS_PER_BLOCK + o) m).
Proof.
  intros He Ho Hm Hom. rewrite window_pieces by (try rewrite (length_plain e b He); rewrite sectors_per_block in Hom; unfold SECTOR_SIZE, BLOCK_SIZE; lia).
  rewrite <- (fmap_add_seqZ (b * SECTORS_PER_BLOCK) o), <- list_fmap_compose. apply (f_equal mjoin).
  apply list_fmap_ext. intros _ k Hk%list_elem_of_lookup_2%elem_of_seqZ. cbn [compose]. rewrite plain_sector_at by lia. done.
Qed.

Lemma read_loop_spec lba n fuel : forall e k buf r buf' e',
  enc_ok e -> 0 <= lba -> 0 <= k <= n -> (Z.to_nat (n - k) <= fuel)%nat -> length buf = Z.to_nat (n * SECTOR_SIZE) ->
  read_loop fuel e (lba + k) (n - k) (Z.to_nat (k * SECTOR_SIZE)) buf = (r, buf', e') ->
  same e e' /\ length buf' = length buf /\
  (r = Ok () -> buf' = take (Z.to_nat (k * SECTOR_SIZE)) buf ++ mjoin (plain_sector e <$> seqZ (lba + k) (n - k))).
Proof.
  induction fuel as [|fuel IH]; intros e k buf r buf' e' He Hl Hk Hf Hb E; cbn [read_loop] in E.
  { simplify_eq. replace (n - k) with 0 by lia. split_and!; [by apply same_refl|done|]. intros _.
    rewrite take_ge by (rewrite Hb; unfold SECTOR_SIZE; lia). by rewrite app_nil_r. }
  destruct (Z.leb_spec (n - k) 0) as [Hz|Hz].
  { simplify_eq. replace (n - k) with 0 by lia. split_and!; [by apply same_refl|done|]. intros _.
    rewrite take_ge by (rewrite Hb; unfold SECTOR_SIZE; lia). by rewrite app_nil_r. }
  destruct (split_lba (lba + k) (n - k) ltac:(lia) Hz) as (b & o & m & Eb & Hb0 & Eo & El & Em & Ho & Hm & Hom).
  rewrite Eb, Eo, Em in E. destruct (read_sectors _ _ _ _) as [[r0 blk] d] eqn:Er.
  destruct (read_block_spec e b _ _ _ He Hb0 Er) as [Hs Hok].
  destruct r0 as [[]|]; [|simplify_eq; by split_and!]. rewrite Hok in E by done. rewrite plain_window in E by (done || lia).
  set (w := mjoin _) in E. assert (length w = Z.to_nat (m * SECTOR_SIZE)) as Hw.
  { subst w. rewrite <- plain_window by (done || lia). rewrite length_take, length_drop, length_plain by done.
    rewrite sectors_per_block in Hom. unfold SECTOR_SIZE, BLOCK_SIZE. lia. }
  replace (lba + k + m) with (lba + (k + m)) in E by lia. replace (n - k - m) with (n - (k + m)) in E by lia.
  replace (Z.to_nat (k * SECTOR_SIZE) + Z.to_nat (m * SECTOR_SIZE))%nat with (Z.to_nat ((k + m) * SECTOR_SIZE)) in E
    by (unfold SECTOR_SIZE; lia).
  assert (length (put buf (Z.to_nat (k * SECTOR_SIZE)) w) = length buf) as Hp by (apply length_put; unfold SECTOR_SIZE in *; lia).
  apply IH in E as (Hs' & Hlen & Hfin); [|apply Hs|lia..|by rewrite Hp].
  split_and!; [by eapply same_trans|congruence|]. intros Hr. rewrite (Hfin Hr).
  assert (Z.to_nat ((k + m) * SECTOR_SIZE) = Z.to_nat (k * SECTOR_SIZE) + length w)%nat as Ek by (unfold SECTOR_SIZE in *; lia).
  replace (n - k) with (m + (n - (k + m))) by lia. rewrite seqZ_app by lia. rewrite fmap_app, join_app.
  replace (lba + k + m) with (lba + (k + m)) by lia. rewrite (app_assoc (take _ buf)). f_equal.
  - rewrite Ek. unfold put. rewrite app_assoc, take_app_le by (rewrite length_app, length_take; unfold SECTOR_SIZE in *; lia).
    rewrite take_ge by (rewrite length_app, length_take; lia). subst w. by rewrite El.
  - apply (f_equal mjoin). apply list_fmap_ext. intros _ i _. by rewrite (same_plain_sector e).
Qed.
(** *** Writing *)

(** What the disk holds at [j] after a write: what it held, or its part of the
    encryption of a block, under the number of that block, whose sectors are the
    old plaintext and the new. *)
Definition ciphered (e e' : EncryptedBlockDevice D) (lo hi : Z) (src : Z -> list Z) (j : Z) : Prop :=
  sector (inner e') j = sector (inner e) j \/
  exists P, length P = Z.to_nat BLOCK_SIZE /\
    (forall k, 0 <= k < SECTORS_PER_BLOCK -> let i := j / SECTORS_PER_BLOCK * SECTORS_PER_BLOCK + k in
       piece P k = plain_sector e i \/ lo <= i < hi /\ piece P k = src i) /\
    sector (inner e') j = piece (encrypt_sector (xts e) (block_to_tweak (j / SECTORS_PER_BLOCK)) P) (j mod SECTORS_PER_BLOCK).

Record wrote (e e' : EncryptedBlockDevice D) (lo hi : Z) (src : Z -> list Z) : Prop := {
  wrote_ok : enc_ok e';
  wrote_key : key e' = key e;
  wrote_count : sector_count (inner e') = sector_count (inner e);
  wrote_each i : plain_sector e' i = plain_sector e i \/ lo <= i < hi /\ plain_sector e' i = src i;
  wrote_cipher j : ciphered e e' lo hi src j;
}.

Lemma wrote_same e e' lo hi src : enc_ok e -> same e e' -> wrote e e' lo hi src.
Proof.
  intros He Hs. split; [apply Hs..| |]; [intros i; left; by apply same_plain_sector|intros j; left; apply Hs].
Qed.

Lemma wrote_trans e1 e2 e3 lo mid hi src :
  lo <= mid <= hi -> wrote e1 e2 lo mid src -> wrote e2 e3 mid hi src -> wrote e1 e3 lo hi src.
Proof.
  intros Hm [A1 A2 A3 A4 A5] [B1 B2 B3 B4 B5].
  assert (forall i l, l = plain_sector e2 i \/ mid <= i < hi /\ l = src i -> l = plain_sector e1 i \/ lo <= i < hi /\ l = src i) as Hmid.
  { intros i l [->|[Hi ->]]; [|right; split; [lia|done]]. destruct (A4 i) as [|[Hi ->]]; [by left|right; split; [lia|done]]. }
  split; [done|congruence..| |].
  - intros i. apply Hmid, B4.
  - intros j. destruct (B5 j) as [E|(P & HP & Hk & E)].
    + destruct (A5 j) as [E'|(P & HP & Hk & E')]; [left; congruence|]. right. exists P. split_and!; [done| |congruence].
      intros k Hr. destruct (Hk k Hr) as [|[? ?]]; [by left|right; split; [lia|done]].
    + right. exists P. split_and!; [done| |]; [intros k Hr; by apply Hmid, Hk|]. rewrite E. unfold xts. by rewrite A2.
Qed.

Lemma wrote_same_l e1 e2 e3 lo hi src : enc_ok e1 -> lo <= hi -> same e1 e2 -> wrote e2 e3 lo hi src -> wrote e1 e3 lo hi src.
Proof. intros He Hle Hs Hw. apply (wrote_trans _ e2 _ _ lo); [lia| |done]. by apply wrote_same. Qed.

(** One block merged, encrypted and written. *)
Lemma write_merged e b o m old w src r d :
  enc_ok e -> 0 <= b -> 0 <= o -> 0 < m -> o + m <= SECTORS_PER_BLOCK -> length old = Z.to_nat BLOCK_SIZE ->
  length w = Z.to_nat (m * SECTOR_SIZE) ->
  (forall k, 0 <= k < SECTORS_PER_BLOCK -> ~ o <= k < o + m -> piece old k = piece (plain e b) k) ->
  (forall k, o <= k < o + m -> piece w (k - o) = src (b * SECTORS_PER_BLOCK + k)) ->
  write_sectors (inner e) (b * SECTORS_PER_BLOCK) SECTORS_PER_BLOCK
    (encrypt_sector (xts e) (block_to_tweak b) (put old (Z.to_nat (o * SECTOR_SIZE)) w)) = (r, d) ->
  let lo := b * SECTORS_PER_BLOCK + o in
  wrote e (with_inner e d) lo (lo + m) src /\
  (r = Ok () -> forall i, lo <= i < lo + m -> plain_sector (with_inner e d) i = src i).
Proof.
  intros He Hb Ho Hm Hom Hold Hw Hkeep Hsrc E lo. set (P := put old _ w) in E.
  assert (length P = Z.to_nat BLOCK_SIZE) as HP.
  { subst P. rewrite length_put; [done|]. rewrite Hw, Hold. rewrite sectors_per_block in Hom. unfold SECTOR_SIZE, BLOCK_SIZE. lia. }
  assert (forall k, 0 <= k < SECTORS_PER_BLOCK -> piece P k = if decide (o <= k < o + m) then src (b * SECTORS_PER_BLOCK + k)
            else plain_sector e (b * SECTORS_PER_BLOCK + k)) as HPk.
  { intros k Hk. subst P. rewrite (piece_put old o w m) by (try rewrite Hold; rewrite ?sectors_per_block in Hom; unfold SECTOR_SIZE, BLOCK_SIZE in *; lia).
    case_decide as Hd; [by apply Hsrc|]. rewrite plain_sector_at by done. by apply Hkeep. }
  destruct (block_write _ _ _ _ _ (proj1 He) Hb E) as (Hd & Hc & Heach & Hok).
  assert (forall k, 0 <= k < SECTORS_PER_BLOCK -> sector d (b * SECTORS_PER_BLOCK + k) = piece (encrypt_sector (xts e) (block_to_tweak b) P) k ->
            plain_sector (with_inner e d) (b * SECTORS_PER_BLOCK + k) = piece P k) as Hnew.
  { intros k Hk Hs. by apply (plain_sector_written e d b k P). }
  split; [split|].
  - split; [done|apply He].
  - done.
  - done.
  - intros i. rewrite (Z_div_mod_eq_full i SECTORS_PER_BLOCK), (Z.mul_comm SECTORS_PER_BLOCK).
    pose proof (Z.mod_pos_bound i SECTORS_PER_BLOCK ltac:(done)) as Hr.
    destruct (Heach (i / SECTORS_PER_BLOCK) (i mod SECTORS_PER_BLOCK) Hr) as [Hs|[-> Hs]]; [left; by apply plain_sector_same|].
    rewrite (Hnew _ Hr Hs), (HPk _ Hr). case_decide; [right; split; [lia|done]|by left].
  - intros j. pose proof (Z.mod_pos_bound j SECTORS_PER_BLOCK ltac:(done)) as Hr.
    assert (j = j / SECTORS_PER_BLOCK * SECTORS_PER_BLOCK + j mod SECTORS_PER_BLOCK) as Hj
      by (rewrite (Z_div_mod_eq_full j SECTORS_PER_BLOCK) at 1; lia).
    destruct (Heach (j / SECTORS_PER_BLOCK) (j mod SECTORS_PER_BLOCK) Hr) as [Hs|[Eb Hs]]; rewrite <- Hj in Hs; [by left|].
    right. exists P. rewrite Eb. split_and!; [done| |done]. intros k Hk. cbv zeta. rewrite (HPk _ Hk).
    case_decide; [right; split; [lia|done]|by left].
  - intros -> i Hi. destruct (Hok eq_refl) as [Hcont _]. replace i with (b * SECTORS_PER_BLOCK + (i - b * SECTORS_PER_BLOCK)) by lia.
    assert (0 <= i - b * SECTORS_PER_BLOCK < SECTORS_PER_BLOCK) as Hk by lia.
    rewrite Hnew, (HPk _ Hk), decide_True by (lia || (try by rewrite <- (piece_content d), Hcont)). done.
Qed.
(** The old block of a partial write. *)
Lemma read_modify_spec e b partial r e' :
  enc_ok e -> 0 <= b -> read_modify e b partial = (r, e') ->
  same e e' /\ forall old, r = Ok old -> length old = Z.to_nat BLOCK_SIZE /\ (partial = true -> old = plain e b).
Proof.
  intros He Hb E. unfold read_modify in E. destruct partial.
  - destruct (read_sectors _ _ _ _) as [[r0 blk] d] eqn:Er. destruct (read_block_spec e b _ _ _ He Hb Er) as [Hs Hok].
    destruct r0 as [[]|]; simplify_eq; [|by split]. rewrite Hok by done. split; [done|]. intros old [= <-].
    split; [by apply length_plain|done].
  - simplify_eq. split; [by apply same_refl|]. intros old [= <-]. split; [apply length_zero_buf|done].
Qed.

Lemma enc_write_loop_spec lba n buf fuel : forall e k r e',
  enc_ok e -> 0 <= lba -> 0 <= k <= n -> (Z.to_nat (n - k) <= fuel)%nat -> length buf = Z.to_nat (n * SECTOR_SIZE) ->
  write_loop fuel e (lba + k) (n - k) (Z.to_nat (k * SECTOR_SIZE)) buf = (r, e') ->
  wrote e e' (lba + k) (lba + n) (fun i => piece buf (i - lba)) /\
  (r = Ok () -> forall i, lba + k <= i < lba + n -> plain_sector e' i = piece buf (i - lba)).
Proof.
  induction fuel as [|fuel IH]; intros e k r e' He Hl Hk Hf Hb E; cbn [write_loop] in E.
  { simplify_eq. split; [by apply wrote_same, same_refl|lia]. }
  destruct (Z.leb_spec (n - k) 0) as [Hz|Hz]; [simplify_eq; split; [by apply wrote_same, same_refl|lia]|].
  destruct (split_lba (lba + k) (n - k) ltac:(lia) Hz) as (b & o & m & Eb & Hb0 & Eo & El & Em & Ho & Hm & Hom).
  rewrite Eb, Eo, Em in E. destruct (read_modify _ _ _) as [r1 e1] eqn:Er. destruct (read_modify_spec _ _ _ _ _ He Hb0 Er) as [Hs Hold].
  destruct r1 as [old|]; [|simplify_eq; split; [by apply wrote_same|done]]. destruct (Hold old eq_refl) as [Hlen Hpart].
  unfold encrypt_block_inplace in E. rewrite make_xts_ok in E by apply Hs.
  destruct (write_sectors _ _ _ _) as [r2 d] eqn:Ew.
  set (w := take _ (drop _ buf)) in Ew. assert (length w = Z.to_nat (m * SECTOR_SIZE)) as Hw.
  { subst w. rewrite length_take, length_drop, Hb. unfold SECTOR_SIZE. lia. }
  apply (write_merged e1 b o m old w (fun i => piece buf (i - lba))) in Ew as [Hwr Hdone]; [|apply Hs|lia..|done|done| |].
  2:{ intros k' Hk' Hn. rewrite Hpart, (same_plain e e1) by first [done | apply orb_true_iff; rewrite !negb_true_iff, !Z.eqb_neq; lia]. done. }
  2:{ intros k' Hk'. subst w. rewrite piece_window by lia. f_equal. lia. }
  rewrite <- El in Hwr, Hdone. apply (wrote_same_l e) in Hwr; [|done|lia|done].
  destruct r2 as [[]|].
  2:{ injection E as <- <-. split; [|done]. apply (wrote_trans _ (with_inner e1 d) _ _ (lba + k + m)); [lia|done|]. apply wrote_same, same_refl; apply Hwr. }
  replace (lba + k + m) with (lba + (k + m)) in * by lia. replace (n - k - m) with (n - (k + m)) in E by lia.
  replace (Z.to_nat (k * SECTOR_SIZE) + Z.to_nat (m * SECTOR_SIZE))%nat with (Z.to_nat ((k + m) * SECTOR_SIZE)) in E
    by (unfold SECTOR_SIZE; lia).
  apply IH in E as [Hwr' Hdone']; [|apply Hwr|lia..|done].
  split; [by apply (wrote_trans _ (with_inner e1 d) _ _ (lba + (k + m))); [lia|..]|].
  intros Hr i Hi. destruct (decide (lba + (k + m) <= i)); [apply Hdone'; [done|lia]|].
  destruct (wrote_each _ _ _ _ _ Hwr' i) as [->|[? _]]; [|lia]. apply Hdone; [done|lia].
Qed.
(** *** The instance *)

Lemma transfer_check_ok (e : EncryptedBlockDevice D) lba n len go :
  0 <= n < 2 ^ 23 -> transfer_check e lba n len = Ok go ->
  len = Z.to_nat (n * SECTOR_SIZE) /\ (if go : bool then 0 < n /\ lba + n <= enc_sector_count e else n = 0).
Proof.
  intros Hn. unfold transfer_check, checked_add. intros E.
  destruct (Z.leb_spec (2 ^ 32) (n * SECTOR_SIZE)); [done|]. destruct (Z.eqb_spec (Z.of_nat len) (n * SECTOR_SIZE)); [|done]. simpl in E.
  split; [lia|]. destruct (Z.eqb_spec n 0); [by simplify_eq|]. destruct (Z.ltb_spec (lba + n) (2 ^ 64)); [|done].
  destruct (Z.ltb_spec (enc_sector_count e) (lba + n)); [done|]. simplify_eq. lia.
Qed.

(** Both transfers as their loops. *)
Lemma enc_read_spec e lba n buf r buf' e' :
  enc_ok e -> 0 <= lba -> 0 <= n < 2 ^ 23 -> enc_read_sectors e lba n buf = (r, buf', e') ->
  same e e' /\ length buf' = length buf /\
  (r = Ok () -> (0 < n -> lba + n <= enc_sector_count e) /\ buf' = mjoin (plain_sector e <$> seqZ lba n)).
Proof.
  intros He Hl Hn E. unfold enc_read_sectors in E.
  destruct (transfer_check e lba n (length buf)) as [go|] eqn:Ec; [|simplify_eq; split_and!; [by apply same_refl|done..]].
  apply transfer_check_ok in Ec as [Hlen Hgo]; [|done]. destruct go.
  - pose proof (read_loop_spec lba n (Z.to_nat n) e 0 buf r buf' e' He Hl) as H.
    rewrite Z.add_0_r, Z.sub_0_r in H. destruct H as (H1 & H2 & H3); [lia|lia|done|done|]. split_and!; [done..|].
    intros Hr. split; [lia|]. apply H3, Hr.
  - simplify_eq. split_and!; [by apply same_refl|done|]. intros _. split; [lia|]. apply nil_length_inv. rewrite Hlen. done.
Qed.

Lemma enc_write_spec e lba n buf r e' :
  enc_ok e -> 0 <= lba -> 0 <= n < 2 ^ 23 -> enc_write_sectors e lba n buf = (r, e') ->
  wrote e e' lba (lba + n) (fun i => piece buf (i - lba)) /\
  (r = Ok () -> (0 < n -> lba + n <= enc_sector_count e) /\ length buf = Z.to_nat (n * SECTOR_SIZE) /\
     forall i, lba <= i < lba + n -> plain_sector e' i = piece buf (i - lba)).
Proof.
  intros He Hl Hn E. unfold enc_write_sectors in E.
  destruct (transfer_check e lba n (length buf)) as [go|] eqn:Ec; [|simplify_eq; split; [by apply wrote_same, same_refl|done]].
  apply transfer_check_ok in Ec as [Hlen Hgo]; [|done]. destruct go.
  - pose proof (enc_write_loop_spec lba n buf (Z.to_nat n) e 0 r e' He Hl) as H.
    rewrite Z.add_0_r, Z.sub_0_r in H. destruct H as (H1 & H2); [lia|lia|done|done|]. split; [done|].
    intros Hr. split_and!; [lia|done|by apply H2].
  - simplify_eq. split; [by apply wrote_same, same_refl|]. intros _. split_and!; [lia|done|lia].
Qed.

Lemma enc_count_range (e : EncryptedBlockDevice D) : enc_ok e -> 0 <= enc_sector_count e <= sector_count (inner e).
Proof.
  intros [Hd _]. pose proof (count_range _ Hd). unfold enc_sector_count. rewrite sectors_per_block. Z.to_euclidean_division_equations; lia.
Qed.

#[export] Program Instance encrypted_laws : BlockDeviceLaws (EncryptedBlockDevice D) := {|
  dev_ok := enc_ok;
  sector := plain_sector;
|}.
Next Obligation. intros. by apply length_plain_sector. Qed.
Next Obligation. intros e He. pose proof (enc_count_range e He). pose proof (count_range _ (proj1 He)). simpl. lia. Qed.
Next Obligation. done. Qed.
Next Obligation.
  intros e lba n buf r buf' e' He Hl Hn E. apply enc_read_spec in E as (Hs & Hlen & _); [|done..].
  split_and!; [apply Hs| |intros; by apply same_plain_sector|done]. simpl. unfold enc_sector_count. by rewrite (same_count _ _ Hs).
Qed.
Next Obligation. intros e lba n buf buf' e' He Hl Hn E. apply enc_read_spec in E as (_ & _ & Hr); [|done..]. by apply Hr. Qed.
Next Obligation.
  intros e lba n buf r e' He Hl Hn E. apply enc_write_spec in E as (Hw & _); [|done..].
  split_and!; [apply Hw| |apply Hw]. simpl. unfold enc_sector_count. by rewrite (wrote_count _ _ _ _ _ Hw).
Qed.
Next Obligation. intros e lba n buf e' He Hl Hn E. apply enc_write_spec in E as (_ & Hr); [|done..]. by apply Hr. Qed.
(** *** On a device that serves every transfer in its range *)

Section serving.
Import lfs_file.
Context (G : D -> Prop) (Hdep : dependable G).

Definition serving (e : EncryptedBlockDevice D) : Prop := G (inner e) /\ length (key e) = XTS_KEY_SIZE.

Lemma serving_ok e : serving e -> enc_ok e.
Proof using Hdep. intros [Hg Hk]. split; [by apply (Hdep (inner e))|done]. Qed.

Lemma block_in_range (e : EncryptedBlockDevice D) b o :
  0 <= b -> 0 <= o -> b * SECTORS_PER_BLOCK + o < enc_sector_count e -> b * SECTORS_PER_BLOCK + SECTORS_PER_BLOCK <= sector_count (inner e).
Proof. unfold enc_sector_count. rewrite sectors_per_block. Z.to_euclidean_division_equations; lia. Qed.

Lemma served_read e b :
  serving e -> 0 <= b -> b * SECTORS_PER_BLOCK + SECTORS_PER_BLOCK <= sector_count (inner e) ->
  exists blk d, read_sectors (inner e) (b * SECTORS_PER_BLOCK) SECTORS_PER_BLOCK zero_buf = (Ok (), blk, d) /\
    serving (with_inner e d) /\ same e (with_inner e d) /\ decrypt_block_inplace (with_inner e d) b blk = Ok (plain e b).
Proof using Hdep XL.
  intros Hs Hb Hr. destruct (Hdep _ (proj1 Hs)) as (_ & Hread & _).
  destruct (Hread (b * SECTORS_PER_BLOCK) SECTORS_PER_BLOCK zero_buf) as (blk & d & E & Hd); [rewrite ?sectors_per_block in *; lia..|by rewrite length_zero_buf|].
  destruct (read_block_spec e b _ _ _ (serving_ok e Hs) Hb E) as [H1 H2]. exists blk, d. split_and!; [done|split; [done|apply Hs]|done|by apply H2].
Qed.

Lemma read_loop_serves fuel : forall e lba n o buf,
  serving e -> 0 <= lba -> lba + n <= enc_sector_count e ->
  exists buf' e', read_loop fuel e lba n o buf = (Ok (), buf', e') /\ serving e'.
Proof using Hdep XL.
  induction fuel as [|fuel IH]; intros e lba n o buf Hs Hl Hr; cbn [read_loop]; [by eexists _, _|].
  destruct (Z.leb_spec n 0); [by eexists _, _|].
  destruct (split_lba lba n Hl ltac:(lia)) as (b & o' & m & -> & Hb0 & -> & El & -> & Ho & Hm & Hom).
  destruct (served_read e b Hs Hb0) as (blk & d & -> & Hs' & Hsame & ->); [apply (block_in_range e b o'); lia|].
  apply IH; [done|lia|]. unfold enc_sector_count in *. rewrite (same_count _ _ Hsame). lia.
Qed.

Lemma read_modify_serves e b partial :
  serving e -> 0 <= b -> b * SECTORS_PER_BLOCK + SECTORS_PER_BLOCK <= sector_count (inner e) ->
  exists old e', read_modify e b partial = (Ok old, e') /\ serving e' /\ same e e' /\ length old = Z.to_nat BLOCK_SIZE.
Proof using Hdep XL.
  intros Hs Hb Hr. unfold read_modify. destruct partial.
  - destruct (served_read e b Hs Hb Hr) as (blk & d & -> & Hs' & Hsame & ->). eexists _, _. split_and!; [done..|].
    apply length_plain. by apply serving_ok.
  - eexists _, _. split_and!; [done|done|by apply same_refl, serving_ok|apply length_zero_buf].
Qed.

Lemma write_loop_serves buf fuel : forall e lba n o,
  serving e -> 0 <= lba -> lba + n <= enc_sector_count e -> length buf = (o + Z.to_nat (n * SECTOR_SIZE))%nat ->
  exists e', write_loop fuel e lba n o buf = (Ok (), e') /\ serving e'.
Proof using Hdep XL.
  induction fuel as [|fuel IH]; intros e lba n o Hs Hl Hr Hb; cbn [write_loop]; [by eexists|].
  destruct (Z.leb_spec n 0); [by eexists|].
  destruct (split_lba lba n Hl ltac:(lia)) as (b & o' & m & -> & Hb0 & -> & El & -> & Ho & Hm & Hom).
  pose proof (block_in_range e b o' Hb0 Ho ltac:(lia)) as Hin.
  destruct (read_modify_serves e b (negb (o' =? 0) || negb (m =? SECTORS_PER_BLOCK)) Hs Hb0 Hin) as (old & e1 & -> & Hs1 & Hsame & Hold).
  unfold encrypt_block_inplace. rewrite make_xts_ok by by apply serving_ok.
  set (w := put old _ _). assert (length w = Z.to_nat BLOCK_SIZE) as Hw.
  { subst w. rewrite length_put; [done|]. rewrite length_take, length_drop, Hold, Hb. rewrite sectors_per_block in Hom. unfold SECTOR_SIZE, BLOCK_SIZE. lia. }
  destruct (Hdep _ (proj1 Hs1)) as (_ & _ & Hwrite).
  destruct (Hwrite (b * SECTORS_PER_BLOCK) SECTORS_PER_BLOCK (encrypt_sector (xts e1) (block_to_tweak b) w)) as (d & Ew & Hd);
    [rewrite ?sectors_per_block in *; lia..|rewrite (same_count _ _ Hsame); done|rewrite encrypt_length by (by apply whole_block); by rewrite Hw|].
  rewrite Ew. apply write_each in Ew as (_ & Hc & _); [|by apply serving_ok|rewrite ?sectors_per_block; lia..].
  apply IH; [by split; [|apply Hs1]|lia| |unfold SECTOR_SIZE in *; lia].
  unfold enc_sector_count in *. cbn [with_inner inner]. rewrite Hc, (same_count _ _ Hsame). lia.
Qed.

Lemma transfer_check_total (e : EncryptedBlockDevice D) lba n len :
  enc_ok e -> 0 <= n < 2 ^ 23 -> lba + n <= enc_sector_count e -> len = Z.to_nat (n * SECTOR_SIZE) ->
  transfer_check e lba n len = Ok (negb (n =? 0)).
Proof.
  intros He Hn Hr ->. pose proof (enc_count_range e He). pose proof (count_range _ (proj1 He)). unfold transfer_check, checked_add.
  rewrite (proj2 (Z.leb_gt _ _)) by (unfold SECTOR_SIZE; lia). rewrite (proj2 (Z.eqb_eq _ _)) by (unfold SECTOR_SIZE; lia). cbn [negb].
  destruct (n =? 0); [done|]. rewrite (proj2 (Z.ltb_lt _ _)) by lia. by rewrite (proj2 (Z.ltb_ge _ _)) by lia.
Qed.

(** Encryption keeps the contract: the wrapped device serves whatever the wrapper
    promises to serve, so a file system on an encrypted volume has a dependable
    device when the disk is one. *)
Lemma encrypted_dependable : dependable serving.
Proof using Hdep XL.
  intros e Hs. split; [by apply serving_ok|]. split; intros lba n buf Hl Hn Hr Hb.
  - change (read_sectors e lba n buf) with (enc_read_sectors e lba n buf). change (sector_count e) with (enc_sector_count e) in Hr.
    unfold enc_read_sectors. rewrite transfer_check_total by (done || by apply serving_ok). destruct (n =? 0); [by eexists _, _|].
    by apply read_loop_serves.
  - change (write_sectors e lba n buf) with (enc_write_sectors e lba n buf). change (sector_count e) with (enc_sector_count e) in Hr.
    unfold enc_write_sectors. rewrite transfer_check_total by (done || by apply serving_ok). destruct (n =? 0); [by eexists|].
    by apply write_loop_serves.
Qed.
End serving.
End laws.
(** ** Theorem *)

(** C16: an encrypted volume stores what is written, and only as ciphertext:
    whatever the disk answers to a write of sectors, every sector of the volume
    then reads as before or, inside the written range, as the new data; every
    sector of the disk is unchanged or holds its part of the encryption, under the
    number of its block, of a block made of old and new plaintext; and on a disk
    that serves its range the write succeeds and the same sectors are read back
    as they were written. *)
Theorem encrypted_volume {XC : XtsCipher} {XL : @XtsCipherLaws XC} {D : Type} {BD : BlockDevice D} {BL : BlockDeviceLaws D}
    (e : EncryptedBlockDevice D) lba n buf r e' :
  enc_ok e -> 0 <= lba -> 0 <= n < 2 ^ 23 -> enc_write_sectors e lba n buf = (r, e') ->
  (forall i, plain_sector e' i = plain_sector e i \/ lba <= i < lba + n /\ plain_sector e' i = piece buf (i - lba)) /\
  (forall j, ciphered e e' lba (lba + n) (fun i => piece buf (i - lba)) j) /\
  (forall G, lfs_file.dependable G -> G (inner e) -> lba + n <= enc_sector_count e -> length buf = Z.to_nat (n * SECTOR_SIZE) ->
     r = Ok () /\ forall out, length out = length buf -> exists e'', enc_read_sectors e' lba n out = (Ok (), buf, e'')).
Proof.
  intros He Hl Hn E. pose proof (enc_write_spec _ _ _ _ _ _ He Hl Hn E) as [Hw Hok]. split_and!; [apply Hw..|].
  intros G Hdep Hg Hr Hb.
  destruct (encrypted_dependable G Hdep e) as (_ & _ & Hwrite); [by split; [|apply He]|].
  destruct (Hwrite lba n buf Hl Hn Hr Hb) as (e1 & E1 & Hs1). change (enc_write_sectors e lba n buf = (Ok (), e1)) in E1.
  rewrite E in E1. injection E1 as -> ->. split; [done|]. intros out Hout.
  destruct (encrypted_dependable G Hdep e1 Hs1) as (_ & Hread & _).
  destruct (Hread lba n out) as (buf' & e2 & E2 & _); [done|done| |by rewrite Hout|].
  { change (lba + n <= enc_sector_count e1). unfold enc_sector_count in *. by rewrite (wrote_count _ _ _ _ _ Hw). }
  change (enc_read_sectors e1 lba n out = (Ok (), buf', e2)) in E2. exists e2. rewrite E2.
  apply enc_read_spec in E2 as (_ & _ & Hd); [|apply Hw|done..]. destruct (Hd eq_refl) as [_ ->].
  destruct (Hok eq_refl) as (_ & _ & Hnew). do 2 f_equal.
  assert (length buf = (Z.to_nat n * Z.to_nat SECTOR_SIZE)%nat) as Hb' by (unfold SECTOR_SIZE in *; lia).
  rewrite <- (mjoin_pieces _ _ Hb'), Z2Nat.id by lia.
  apply (f_equal mjoin). rewrite <- (Z.add_0_r lba) at 1. rewrite <- (fmap_add_seqZ lba 0). rewrite <- list_fmap_compose.
  apply list_fmap_ext. intros _ k Hk%list_elem_of_lookup_2%elem_of_seqZ. cbn [compose]. rewrite Hnew by lia. f_equal. lia.
Qed.

(** A cipher that satisfies the laws: every byte is masked by a byte that depends
    on the keys, the number of the block and its place in the unit. *)
Definition mask (x : Xts128) (t : list Z) (i : nat) : Z :=
  (foldr Z.add 0 (cipher_key x) + 3 * foldr Z.add 0 (tweak_key x) + 7 * t !!! 0%nat + 11 * (Z.of_nat i mod 16)) mod 256.

Definition masked (x : Xts128) (t : list Z) (data : list Z) : list Z := imap (fun i b => Z.lxor b (mask x t i)) data.

Definition mask_cipher : XtsCipher := {| encrypt_sector := masked; decrypt_sector := masked |}.

#[export] Program Instance mask_cipher_laws : @XtsCipherLaws mask_cipher.
Next Obligation. intros x t data _. apply length_imap. Qed.
Next Obligation. intros x t data _. apply length_imap. Qed.
Next Obligation.
  intros x t data _. cbn. unfold masked. apply list_eq. intros i. rewrite !list_lookup_imap. destruct (data !! i) as [b|]; [|done]. cbn.
  by rewrite Z.lxor_assoc, Z.lxor_nilpotent, Z.lxor_0_r.
Qed.
Next Obligation.
  intros x t a b j _ Hl Hu. cbn. unfold unit_at, masked in *. apply list_eq. intros i.
  apply (f_equal (fun l : list Z => l !! i)) in Hu. rewrite !lookup_window in Hu |- *. destruct (decide _); [|done].
  rewrite !list_lookup_imap. by rewrite Hu.
Qed.

Definition demo_key : list Z := seqZ 1 64.
Definition demo_volume : EncryptedBlockDevice (MsdcBlockDevice Card) := mk_encrypted (mk_msdc (mk_card ∅ []) 64) demo_key.
Definition demo_data : list Z := replicate 1024 65.

Lemma encrypted_volume_witness :
  match @enc_write_sectors mask_cipher _ _ demo_volume 7 2 demo_data with
  | (r, e') => r = Ok () /\ exists e'', @enc_read_sectors mask_cipher _ _ e' 7 2 (replicate 1024 0) = (Ok (), demo_data, e'')
  end.
Proof.
  destruct (@enc_write_sectors mask_cipher _ _ demo_volume 7 2 demo_data) as [r e'] eqn:E.
  destruct (@encrypted_volume mask_cipher mask_cipher_laws _ _ _ demo_volume 7 2 demo_data r e') as (_ & _ & H).
  - split; [|done]. change (0 <= 64 < 2 ^ 64). lia.
  - lia.
  - lia.
  - exact E.
  - destruct (H sound_card lfs_spec.sound_card_dependable) as [Hr Hread]; [split; [change (0 <= 64 <= 2 ^ 32); lia|done]|vm_compute; done|done|].
    split; [exact Hr|]. apply Hread. done.
Defined.
End encryption.
