(* ===== verification/LfsClean.v ===== *)
(** * The cleaner keeps every file

    Compaction moves blocks and frees a segment. On a device that answers it
    returns whatever the state of the log, and every file has the bytes it had:
    the proof is in a small logic of steps of the log that keep the files. *)

From S2P Require Import Prelude Machine Fd Vfs Block Cache LfsMeta LfsCheckpoint LfsLog LfsCompact Lfs LfsFile LfsSpec.
From Stdlib Require Import ZArith.
Open Scope Z_scope.

Module lfs_clean.
Import block cache codec lfs_io lfs_disk lfs_writer lfs_compact lfs_file lfs_spec.
Abbreviation is_free := lfs_segment.is_free.
#[local] Opaque extent.

Section clean.
Context {D : Type} `{!BlockDevice D, !BlockDeviceLaws D} (H : D -> Prop) (Hdep : dependable H) (sb : LfsSuperblock).
Implicit Types l : log D.

(** A log as a file system. *)
Definition fs_of l : lfs.Lfs D := lfs.mk_lfs (l_disk l) (l_imap l) (l_segs l) sb 0 (Some (l_writer l)) 0 0.

(** Only the direct pointers are used. *)
Definition plain (i : DiskInode) : Prop := inode_fits i /\ indirect i = 0.

Record clean (F : Z -> option afile) (P : Z -> Prop) l : Prop := {
  cl_log : log_ok H P (block_count sb) l;
  cl_live x : live (fs_of l) x -> P x;
  cl_inode id b : lfs_imap.get (l_imap l) id = Some b -> exists i, inode_at (fs_of l) id = Some i /\ plain i;
  cl_sorted : lfs_imap.sorted (l_imap l);
  cl_files id : abs (fs_of l) id = F id;
}.

(** What a step of the cleaner keeps of the blocks in use and of the segments. *)
Record keeps (P : Z -> Prop) l (P' : Z -> Prop) l' : Prop := {
  kp_live x : P x -> P' x;
  kp_view x : P x -> lview l' x = lview l x;
  kp_segs : segment_size (l_segs l') = segment_size (l_segs l) /\ segment_count (l_segs l') = segment_count (l_segs l);
  kp_used i : 0 <= i -> is_free (l_segs l) i = false ->
    is_free (l_segs l') i = false /\ (current_segment (l_writer l') = i -> current_segment (l_writer l) = i);
}.

Lemma keeps_refl P l : keeps P l P l.
Proof. by split. Qed.

Lemma keeps_trans P l P1 l1 P2 l2 : keeps P l P1 l1 -> keeps P1 l1 P2 l2 -> keeps P l P2 l2.
Proof.
  intros [L1 V1 [S1 C1] U1] [L2 V2 [S2 C2] U2]. split; [auto| |by split; congruence|].
  - intros x Hx. rewrite V2, V1 by auto. done.
  - intros i Hi Hu. destruct (U1 i Hi Hu) as [Hu1 Hc1]. destruct (U2 i Hi Hu1) as [Hu2 Hc2]. auto.
Qed.

(** [m] returns from [l], whose files and blocks it keeps, and its result
    satisfies [Q] when it is not an error. *)
Definition runs {A} (F : Z -> option afile) (m : lg D A) P l (Q : A -> (Z -> Prop) -> log D -> Prop) : Prop :=
  exists r l' P', m l = Ret (r, l') /\ clean F P' l' /\ keeps P l P' l' /\ match r with Ok a => Q a P' l' | Err _ => True end.

Lemma runs_ret {A} F (a : A) P l (Q : A -> (Z -> Prop) -> log D -> Prop) : clean F P l -> Q a P l -> runs F (mret a) P l Q.
Proof. intros Hc HQ. exists (Ok a), l, P. split; [done|]. split; [done|]. split; [apply keeps_refl|done]. Qed.

Lemma runs_bind {A B} F (m : lg D A) (f : A -> lg D B) P l Q R :
  runs F m P l Q -> (forall a P' l', clean F P' l' -> keeps P l P' l' -> Q a P' l' -> runs F (f a) P' l' R) -> runs F (m ≫= f) P l R.
Proof.
  intros (r & l1 & P1 & E & C & K & HQ) Hf. unfold runs. rewrite lg_bind_run, E. destruct r as [a|e].
  - destruct (Hf a P1 l1 C K HQ) as (r & l2 & P2 & E2 & C2 & K2 & HR). exists r, l2, P2. split; [done|]. split; [done|].
    split; [by eapply keeps_trans|done].
  - exists (Err e), l1, P1. done.
Qed.

Lemma runs_weaken {A} F (m : lg D A) P l (Q R : A -> (Z -> Prop) -> log D -> Prop) :
  (forall a P' l', Q a P' l' -> R a P' l') -> runs F m P l Q -> runs F m P l R.
Proof. intros HQ (r & l1 & P1 & E & C & K & Hr). exists r, l1, P1. split_and!; try done. destruct r; auto. Qed.

(** ** Steps *)

(** Reading moves the cache only. *)
Lemma runs_read F P l b :
  clean F P l -> P b ->
  runs F (on_disk (cache_read b)) P l (fun buf P' l' => buf = lview l b /\ P' = P /\ l_imap l' = l_imap l).
Proof using Hdep.
  intros C Hb. destruct l as [[c d] m g w]. pose proof (cl_log _ _ _ C) as Hl.
  pose proof (settled_range H P _ _ b Hl Hb) as Hrg. pose proof (lk_fit _ _ _ _ Hl) as Hfit. cbn [l_disk l_segs snd] in Hrg, Hfit.
  destruct (lk_size _ _ _ _ Hl) as [Hz _]. cbn [l_segs] in Hz.
  destruct (cache_read_good H Hdep c d b (lk_good _ _ _ _ Hl)) as (c' & d' & E & G & S).
  { unfold in_dev. rewrite sectors_per_block in *. lia. }
  exists (Ok (view c d b)), (mk_log (c', d') m g w), P. unfold on_disk, cache_read. cbn [l_disk]. rewrite E. cbn [from_block_error l_imap l_segs l_writer].
  split; [done|]. split; [|split; [split; try done; intros x _; apply (se_view _ _ _ _ S)|done]].
  assert (quiet H (fs_of (mk_log (c, d) m g w)) (fs_of (mk_log (c', d') m g w))) as Q.
  { split; try done; [intros x; apply (se_view _ _ _ _ S)|apply (se_count _ _ _ _ S)]. }
  split; cbn [l_imap].
  - apply (log_disk_ok H P _ _ c' d' Hl G). apply S.
  - intros x Hx. apply (cl_live _ _ _ C). by apply (quiet_live H _ _ _ Q).
  - intros id x Hg. rewrite (quiet_inode H _ _ id Q). by apply (cl_inode _ _ _ C) in Hg.
  - apply C.
  - intros id. rewrite (quiet_abs H _ _ id Q). apply C.
Qed.

Lemma runs_lift {A} F (r : result A lfs_imap.LfsError) P l :
  clean F P l -> runs F (on_disk (lift (Ret r))) P l (fun a P' l' => r = Ok a /\ P' = P /\ l' = l).
Proof.
  intros C. exists r, l, P. unfold on_disk, lift. split; [by destruct l|]. split; [done|]. split; [apply keeps_refl|]. by destruct r.
Qed.

Lemma on_disk_bind {A B} F (m : io D A) (f : A -> io D B) P l (Q : B -> (Z -> Prop) -> log D -> Prop) :
  runs F (on_disk (m ≫= f)) P l Q <-> runs F (a ← on_disk m; on_disk (f a)) P l Q.
Proof.
  unfold runs. assert (on_disk (m ≫= f) l = (a ← on_disk m; on_disk (f a)) l) as ->; [|done].
  rewrite lg_bind_run. unfold on_disk at 1 2. rewrite io_bind_run. destruct (m (l_disk l)) as [[[a|] dk]|]; try done.
Qed.

Lemma runs_load F P l dev b :
  clean F P l -> P b ->
  runs F (on_disk (load_entry dev b)) P l (fun i P' l' => read_from (lview l b) 0 = Ok i /\ P' = P /\ l_imap l' = l_imap l).
Proof using Hdep.
  intros C Hb. unfold load_entry. rewrite on_disk_bind. eapply runs_bind; [by apply runs_lift|]. intros [] P1 l1 C1 K1 (_ & -> & ->).
  rewrite on_disk_bind. eapply runs_bind; [by apply runs_read|]. intros buf P1 l1 C2 K2 (-> & -> & Hi).
  eapply runs_weaken; [|by apply runs_lift]. intros i P1 l2 (E & -> & ->). done.
Qed.
Lemma clean_inode F P l id i : clean F P l -> inode_at (fs_of l) id = Some i -> plain i /\ length (direct i) = DIRECT_BLOCK_COUNT.
Proof.
  intros C Ei. destruct (lfs_imap.get (l_imap l) id) as [x|] eqn:Eg; [|unfold inode_at in Ei; cbn [lfs.imap fs_of] in Ei; by rewrite Eg in Ei].
  destruct (cl_inode _ _ _ C id x Eg) as (i' & Ei' & Hp). rewrite Ei in Ei'. simplify_eq. split; [done|]. apply Hp.
Qed.

(** A block that is appended is in use, and nothing else changes. *)
Lemma clean_appended F P l b l' :
  clean F P l -> appended H P (block_count sb) l b l' -> l_imap l' = l_imap l -> clean F (fun x => P x \/ x = b) l'.
Proof.
  intros C [Hl' St HP Hrg] Hm.
  assert (forall id, inode_at (fs_of l') id = inode_at (fs_of l) id) as Hin.
  { intros id. unfold inode_at. cbn [lfs.imap fs_of]. rewrite Hm. destruct (lfs_imap.get (l_imap l) id) as [x|] eqn:Eg; [|done].
    change (fview (fs_of l') x) with (lview l' x). rewrite (ls_view _ _ _ _ St); [done|]. apply (cl_live _ _ _ C). left. by exists id. }
  assert (forall x, live (fs_of l') x -> live (fs_of l) x) as Hlv.
  { intros x [[id Hg]|(id & i & Hi & ?)]; [left; exists id; cbn [lfs.imap fs_of] in *; congruence|right; exists id, i]. by rewrite <- Hin. }
  split; [done| | |by rewrite Hm; apply C|].
  - intros x Hx. left. by apply (cl_live _ _ _ C), Hlv.
  - intros id x Hg. rewrite Hin. rewrite Hm in Hg. by apply (cl_inode _ _ _ C) in Hg.
  - intros id. rewrite <- (cl_files _ _ _ C id). apply abs_ext; [apply Hin|]. intros i j Ei Hj. unfold fbyte.
    destruct (Z.eqb_spec (direct i !!! Z.to_nat (j / BLOCK_SIZE)) 0) as [|Hz]; [done|].
    change (fview (fs_of l') ?x) with (lview l' x). rewrite (ls_view _ _ _ _ St); [done|]. apply (cl_live _ _ _ C). right. exists id, i.
    split_and!; try done. apply direct_elem, Hj. by apply (clean_inode F P l id i C).
Qed.

Lemma keeps_appended P l b l' : appended H P (block_count sb) l b l' -> keeps P l (fun x => P x \/ x = b) l'.
Proof. intros [_ St _ _]. split; [by left|apply St..]. Qed.

Lemma fresh_u64 P l b l' : appended H P (block_count sb) l b l' -> is_u64 b /\ b <> 0.
Proof.
  intros [Hl' St HP Hrg]. pose proof (lk_fit _ _ _ _ Hl') as Hf. destruct (lk_size _ _ _ _ Hl') as [Hz _].
  destruct (ls_size _ _ _ _ St) as [Hs _]. pose proof (count_range _ (co_dev _ _ (gd_ok _ _ _ (lk_good _ _ _ _ Hl')))) as Hc.
  rewrite sectors_per_block in Hf. unfold is_u64. lia.
Qed.

Lemma runs_data F P l buf :
  clean F P l -> length buf = Z.to_nat BLOCK_SIZE ->
  runs F (write_data_block_for_compaction buf) P l (fun b P' l' => l_imap l' = l_imap l /\ P' b /\ lview l' b = buf /\ is_u64 b /\ b <> 0).
Proof using Hdep.
  intros C Hb. destruct (write_data_cases H Hdep P _ true l buf (cl_log _ _ _ C) Hb) as [(b & l' & E & Ap & Hm & Hv)|[E _]].
  - exists (Ok b), l', (fun x => P x \/ x = b). split; [done|]. split; [by eapply clean_appended|]. split; [by apply keeps_appended|].
    destruct (fresh_u64 _ _ _ _ Ap). auto.
  - eexists _, l, P. split; [exact E|]. split; [done|]. split; [apply keeps_refl|done].
Qed.

(** Storing an inode with pointers to the same bytes. *)
Lemma runs_inode F P l id i i' :
  clean F P l -> inode_at (fs_of l) id = Some i -> plain i' -> pointers_in P (direct i') ->
  (inode_type i', link_count i', size i') = (inode_type i, link_count i, size i) ->
  (forall j, 0 <= j < LFS_MAX_FILE_SIZE -> fbyte (fs_of l) i' j = fbyte (fs_of l) i j) ->
  runs F (write_inode_for_compaction id i') P l
    (fun b P' l' => (forall id', id' <> id -> lfs_imap.get (l_imap l') id' = lfs_imap.get (l_imap l) id') /\ l_imap l' = lfs_imap.insert (l_imap l) id b).
Proof using Hdep.
  intros C Ei Hpl Hp Hmeta Hsame.
  destruct (write_inode_cases H Hdep P _ true l id i' (cl_log _ _ _ C) (proj1 (proj1 Hpl))) as [(b & l' & E & Ap & Hm & Hrd)|[E _]].
  2: { eexists _, l, P. split; [exact E|]. split; [done|]. split; [apply keeps_refl|done]. }
  exists (Ok b), l', (fun x => P x \/ x = b). split; [done|].
  assert (forall id', lfs_imap.get (l_imap l') id' = if decide (id' = id) then Some b else lfs_imap.get (l_imap l) id') as Hget.
  { intros id'. by rewrite Hm, lfs_imap.get_insert. }
  split; [|split; [by apply keeps_appended|split; [|done]; intros id' Hne; by rewrite Hget, decide_False]].
  (* the log with the block appended but the old map *)
  pose (l1 := mk_log (l_disk l') (l_imap l) (l_segs l') (l_writer l')).
  assert (clean F (fun x => P x \/ x = b) l1) as C1.
  { eapply (clean_appended F P l b l1 C); [|done]. destruct Ap as [A1 A2 A3 A4]. split; [by destruct A1; split|by destruct A2; split|done|done]. }
  assert (inode_at (fs_of l') id = Some i') as Hat.
  { unfold inode_at. cbn [lfs.imap fs_of]. rewrite Hget, decide_True by done. change (fview (fs_of l') b) with (lview l' b). by rewrite Hrd. }
  assert (forall id', id' <> id -> inode_at (fs_of l') id' = inode_at (fs_of l1) id') as Hoth.
  { intros id' Hne. unfold inode_at. cbn [lfs.imap fs_of l1 l_imap]. by rewrite Hget, decide_False. }
  split; [apply Ap| | | |].
  - intros x [[id' Hg]|(id' & j & Hj & Hx & Hz)]; (destruct (decide (id' = id)) as [->|Hne]).
    + cbn [lfs.imap fs_of] in Hg. rewrite Hget, decide_True in Hg by done. right. congruence.
    + cbn [lfs.imap fs_of] in Hg. rewrite Hget, decide_False in Hg by done. apply (cl_live _ _ _ C1). left. by exists id'.
    + left. rewrite Hat in Hj. injection Hj as <-. by apply (pi_live _ _ Hp).
    + apply (cl_live _ _ _ C1). right. exists id', j. by rewrite <- Hoth.
  - intros id' x Hg. destruct (decide (id' = id)) as [->|Hne]; [by exists i'|]. rewrite Hoth by done.
    rewrite Hget, decide_False in Hg by done. by apply (cl_inode _ _ _ C1 id' x).
  - rewrite Hm. apply lfs_imap.sorted_insert; [|apply C]. destruct (lfs_imap.get (l_imap l) id) as [x|] eqn:Eg.
    + destruct (decide (-1 < id)); [done|]. by rewrite (lfs_imap.get_below _ _ _ (cl_sorted _ _ _ C)) in Eg by lia.
    + unfold inode_at in Ei. cbn [lfs.imap fs_of] in Ei. by rewrite Eg in Ei.
  - intros id'. destruct (decide (id' = id)) as [->|Hne].
    + rewrite <- (cl_files _ _ _ C id), (abs_Some _ _ _ Hat), (abs_Some _ _ _ Ei). unfold as_file. injection Hmeta as -> -> ->.
      rewrite (extent_ext (fs_of l) i (fs_of l') i'); [reflexivity|]. intros j Hj. rewrite <- Hsame by done. unfold fbyte.
      destruct (Z.eqb_spec (direct i' !!! Z.to_nat (j / BLOCK_SIZE)) 0); [done|].
      change (fview (fs_of l') ?x) with (lview l' x). rewrite (ls_view _ _ _ _ (ap_step _ _ _ _ _ _ Ap)); [done|].
      apply (pi_live _ _ Hp); [|done]. apply direct_elem, Hj. apply Hp.
    + rewrite <- (cl_files _ _ _ C1 id'). apply abs_ext; [by apply Hoth|done].
Qed.
(** ** The loops *)

(** Entries of the map, each with its own key. *)
Definition entries_of (m : lfs_imap.LfsImap) (es : list (Z * Z)) : Prop :=
  NoDup (fst <$> es) /\ Forall (fun e : Z * Z => lfs_imap.get m e.1 = Some e.2) es.

Lemma sorted_entries m : lfs_imap.sorted m -> entries_of m m.
Proof.
  unfold lfs_imap.sorted. generalize (-1). induction m as [|[k v] m IH]; intros lo Hs; [by split; [apply NoDup_nil_2|]|].
  cbn in Hs. destruct Hs as [Hlo Hs]. destruct (IH k Hs) as [Hn Hf]. split.
  - cbn. apply NoDup_cons. split; [|done]. intros (e & He & Hin)%list_elem_of_fmap. rewrite Forall_forall in Hf. apply Hf in Hin.
    by rewrite <- He, (lfs_imap.get_below m k) in Hin by (done || lia).
  - apply Forall_cons. split; [cbn; by rewrite Z.eqb_refl|]. eapply Forall_impl; [exact Hf|]. intros [k' v'] Hg. cbn in *.
    destruct (Z.eqb_spec k k') as [->|]; [|done]. by rewrite (lfs_imap.get_below m k') in Hg by (done || lia).
Qed.

Lemma entries_filter m es (f : Z * Z -> Prop) `{!forall e, Decision (f e)} : entries_of m es -> entries_of m (filter f es).
Proof.
  intros [Hn Hf]. split.
  - eapply sublist_NoDup; [exact Hn|]. apply fmap_sublist, sublist_filter.
  - rewrite Forall_forall in Hf |- *. intros e [_ He]%list_elem_of_filter. by apply Hf.
Qed.

Lemma entries_cons m id b es : entries_of m ((id, b) :: es) -> lfs_imap.get m id = Some b /\ entries_of m es.
Proof. intros [[Hi Hn]%NoDup_cons [Hg Hf]%Forall_cons]. by split. Qed.

(** The remaining entries survive a change of the first one. *)
Lemma entries_after m m' id b es :
  entries_of m ((id, b) :: es) -> (forall id', id' <> id -> lfs_imap.get m' id' = lfs_imap.get m id') -> entries_of m' es.
Proof.
  intros [[Hi Hn]%NoDup_cons [_ Hf]%Forall_cons] Hm. split; [done|]. rewrite Forall_forall in Hf |- *. intros e He. rewrite Hm; [by apply Hf|].
  intros <-. apply Hi. apply list_elem_of_fmap. by exists e.
Qed.

Lemma entry_inode F P l id b i :
  clean F P l -> lfs_imap.get (l_imap l) id = Some b -> read_from (lview l b) 0 = Ok i -> inode_at (fs_of l) id = Some i.
Proof. intros C Hg Hr. unfold inode_at. cbn [lfs.imap fs_of]. rewrite Hg. change (fview (fs_of l) b) with (lview l b). by rewrite Hr. Qed.

Lemma imap_live F P l id b : clean F P l -> lfs_imap.get (l_imap l) id = Some b -> P b.
Proof. intros C Hg. apply (cl_live _ _ _ C). left. by exists id. Qed.

Lemma inode_pointers F P l id i : clean F P l -> inode_at (fs_of l) id = Some i -> pointers_in P (direct i).
Proof.
  intros C Hi. destruct (clean_inode F P l id i C Hi) as [[[Hio _] _] Hl]. split; [done|apply Hio|]. intros p Hp Hz.
  apply (cl_live _ _ _ C). right. by exists id, i.
Qed.

Lemma runs_get F P l : clean F P l -> runs F get_log P l (fun a P' l' => a = l /\ P' = P /\ l' = l).
Proof. intros C. exists (Ok l), l, P. split; [done|]. split; [done|]. split; [apply keeps_refl|done]. Qed.

Lemma runs_copy_inodes F es : forall P l, clean F P l -> entries_of (l_imap l) es -> runs F (copy_inodes es) P l (fun _ _ _ => True).
Proof using Hdep.
  induction es as [|[id b] es IH]; intros P l C He; cbn [copy_inodes]; [by apply runs_ret|].
  destruct (entries_cons _ _ _ _ He) as [Hg _].
  eapply runs_bind; [apply runs_read; [done|by eapply imap_live]|]. intros buf P1 l1 C1 K1 (-> & -> & Hm1).
  eapply runs_bind; [by apply runs_lift|]. intros i P1 l2 C2 K2 (Hr & -> & ->).
  rewrite <- Hm1 in Hg. assert (inode_at (fs_of l1) id = Some i) as Hi.
  { eapply entry_inode; [done|exact Hg|]. rewrite (kp_view _ _ _ _ K1); [done|]. eapply imap_live; [exact C1|done]. }
  eapply runs_bind; [eapply (runs_inode F P l1 id i i); try done; [by eapply clean_inode|by eapply inode_pointers]|].
  intros b' P3 l3 C3 K3 [Ho _]. apply IH; [done|]. eapply entries_after; [exact He|]. intros id' Hne. rewrite <- Hm1. by apply Ho.
Qed.

Definition redirected (old_block new_block : Z) (i : DiskInode) : DiskInode :=
  mk_inode (inode_type i) (link_count i) (size i) (redirect old_block new_block <$> direct i) (redirect old_block new_block (indirect i)).

Lemma redirected_ok P old new i :
  plain i -> pointers_in P (direct i) -> P new -> is_u64 new -> new <> 0 -> old <> 0 ->
  plain (redirected old new i) /\ pointers_in P (direct (redirected old new i)).
Proof.
  intros [[[T L S [Dl Du] X] Hs] Hx] [Hl Hu Hp] Hn Hnu Hnz Hoz.
  assert (redirect old new (indirect i) = 0) as Hi by (rewrite Hx; unfold redirect; by rewrite (proj2 (Z.eqb_neq _ _))).
  assert (Forall is_u64 (redirect old new <$> direct i)) as Hfu.
  { apply Forall_fmap. eapply Forall_impl; [exact Du|]. intros p Hpu. cbn. unfold redirect. by destruct (p =? old). }
  split; [split; [split; [split|]|]|split]; cbn [redirected inode_type link_count size direct indirect]; rewrite ?length_fmap, ?Hi; try done.
  intros p (q & -> & Hq)%list_elem_of_fmap Hz. unfold redirect in *. destruct (q =? old); [done|]. by apply Hp.
Qed.

Lemma redirected_byte l old new i j :
  lview l new = lview l old -> new <> 0 -> old <> 0 -> length (direct i) = DIRECT_BLOCK_COUNT -> 0 <= j < LFS_MAX_FILE_SIZE ->
  fbyte (fs_of l) (redirected old new i) j = fbyte (fs_of l) i j.
Proof.
  intros Hv Hn Ho Hl Hj. unfold fbyte. cbn [direct redirected].
  assert (direct i !! Z.to_nat (j / BLOCK_SIZE) = Some (direct i !!! Z.to_nat (j / BLOCK_SIZE))) as E.
  { apply list_lookup_lookup_total_lt. rewrite Hl. by apply direct_lt. }
  rewrite (list_lookup_total_alt (_ <$> _)), list_lookup_fmap, E. cbn [fmap option_fmap option_map default from_option id]. unfold redirect.
  destruct (Z.eqb_spec (direct i !!! Z.to_nat (j / BLOCK_SIZE)) old) as [->|]; [|done].
  rewrite !(proj2 (Z.eqb_neq _ 0)) by done. change (fview (fs_of l) ?x) with (lview l x). by rewrite Hv.
Qed.

Lemma runs_update_references F old new dev es : forall P l,
  clean F P l -> entries_of (l_imap l) es -> P old -> P new -> lview l new = lview l old -> is_u64 new -> new <> 0 -> old <> 0 ->
  runs F (update_references old new dev es) P l (fun _ _ _ => True).
Proof using Hdep.
  induction es as [|[id b] es IH]; intros P l C He Hpo Hpn Hv Hnu Hnz Hoz; cbn [update_references]; [by apply runs_ret|].
  destruct (entries_cons _ _ _ _ He) as [Hg He']. pose proof (imap_live _ _ _ _ _ C Hg) as Hb.
  eapply runs_bind; [by apply runs_load|]. intros i P1 l1 C1 K1 (Hr & -> & Hm1).
  rewrite <- Hm1 in Hg. assert (inode_at (fs_of l1) id = Some i) as Hi by (eapply entry_inode; [done|exact Hg|]; by rewrite (kp_view _ _ _ _ K1)).
  assert (lview l1 new = lview l1 old) as Hv1 by (by rewrite !(kp_view _ _ _ _ K1)).
  cbv zeta. destruct (existsb _ _).
  - destruct (clean_inode _ _ _ _ _ C1 Hi) as [Hpl Hl].
    destruct (redirected_ok P old new i Hpl (inode_pointers _ _ _ _ _ C1 Hi) Hpn Hnu Hnz Hoz) as [Hpl' Hpp].
    eapply runs_bind.
    + eapply runs_bind; [apply (runs_inode F P l1 id i (redirected old new i)); try done; intros j Hj; by apply redirected_byte|].
      intros b' P2 l2 C2 K2 Q2. apply (runs_ret F () P2 l2 (fun _ _ l' => entries_of (l_imap l') es)); [done|].
      eapply entries_after; [exact He|]. intros id' Hne. rewrite <- Hm1. by apply Q2.
    + intros [] P2 l2 C2 K2 He2. apply IH; try done; [by apply (kp_live _ _ _ _ K2)..|]. by rewrite !(kp_view _ _ _ _ K2).
  - eapply runs_bind; [by apply (runs_ret F () P l1 (fun _ P' l' => P' = P /\ l' = l1))|]. intros [] P2 l2 C2 _ [-> ->].
    apply IH; try done. by rewrite Hm1.
Qed.

Lemma runs_copy_data F dev ptrs : forall P l,
  clean F P l -> Forall (fun p => P p /\ p <> 0) ptrs -> runs F (copy_data dev ptrs) P l (fun _ _ _ => True).
Proof using Hdep.
  induction ptrs as [|p ptrs IH]; intros P l C Hp; cbn [copy_data]; [by apply runs_ret|]. apply Forall_cons in Hp as [[Hp Hz] Hps].
  eapply runs_bind; [by apply runs_read|]. intros buf P1 l1 C1 K1 (-> & -> & Hm1).
  eapply runs_bind; [apply runs_data; [done|apply length_view, (gd_ok _ _ _ (lk_good _ _ _ _ (cl_log _ _ _ C)))]|].
  intros b P2 l2 C2 K2 (Hm2 & Hb & Hv & Hu & Hnz). eapply runs_bind.
  - unfold update_data_block_references. eapply runs_bind; [by apply (runs_get F)|]. intros s P3 l3 C3 K3 (-> & -> & ->).
    apply runs_update_references; try done; [apply sorted_entries, C2|by apply (kp_live _ _ _ _ K2)|].
    rewrite Hv, (kp_view _ _ _ _ K2) by done. by rewrite (kp_view _ _ _ _ K1).
  - intros [] P3 l3 C3 K3 _. apply IH; [done|]. eapply Forall_impl; [exact Hps|]. intros q [Hq ?]. split; [|done].
    by apply (kp_live _ _ _ _ K3), (kp_live _ _ _ _ K2).
Qed.
(** ** Choosing a segment *)

Lemma runs_disk_ret {A} F (a : A) P l (Q : A -> (Z -> Prop) -> log D -> Prop) : clean F P l -> Q a P l -> runs F (on_disk (mret a)) P l Q.
Proof. intros C HQ. exists (Ok a), l, P. split; [by destruct l|]. split; [done|]. split; [apply keeps_refl|done]. Qed.

Lemma plain_pointers F P l id i : clean F P l -> inode_at (fs_of l) id = Some i -> Forall (fun p => P p /\ p <> 0) (pointers i).
Proof.
  intros C Hi. destruct (clean_inode _ _ _ _ _ C Hi) as [[_ Hx] _]. apply Forall_forall. intros p [Hz Hp]%list_elem_of_filter. split; [|done].
  apply elem_of_app in Hp as [Hp|Hp]; [|apply list_elem_of_singleton in Hp; congruence]. by apply (inode_pointers _ _ _ _ _ C Hi).
Qed.

Lemma runs_live_pointers F dev es : forall P l,
  clean F P l -> entries_of (l_imap l) es ->
  runs F (on_disk (live_pointers dev es)) P l (fun ptrs P' l' => P' = P /\ l_imap l' = l_imap l /\ Forall (fun p => P p /\ p <> 0) ptrs).
Proof using Hdep.
  induction es as [|[id b] es IH]; intros P l C He; cbn [live_pointers]; [by apply runs_disk_ret|].
  destruct (entries_cons _ _ _ _ He) as [Hg He']. pose proof (imap_live _ _ _ _ _ C Hg) as Hb.
  rewrite on_disk_bind. eapply runs_bind; [by apply runs_load|]. intros i P1 l1 C1 K1 (Hr & -> & Hm1).
  rewrite on_disk_bind. eapply runs_bind; [apply IH; [done|by rewrite Hm1]|]. intros rest P1 l2 C2 K2 (-> & Hm2 & Hf).
  apply runs_disk_ret; [done|]. split_and!; [done|congruence|]. apply Forall_app. split; [|done].
  eapply plain_pointers; [exact C1|]. eapply entry_inode; [done|by rewrite Hm1|]. by rewrite (kp_view _ _ _ _ K1).
Qed.

Lemma best_candidate_some segs w es ptrs c : forall idx best,
  best_candidate segs w es ptrs idx best = Some c ->
  best = Some c \/ exists i, i ∈ idx /\ is_free segs i = false /\ i <> current_segment w /\ c = candidate segs es ptrs i.
Proof.
  induction idx as [|i idx IH]; intros best Hb; cbn [best_candidate] in Hb; [by left|].
  destruct (is_free segs i || (i =? current_segment w)) eqn:Es.
  - destruct (IH _ Hb) as [?|(j & ? & ? & ?)]; [by left|right; exists j]. split; [by right|done].
  - apply orb_false_iff in Es as [Ef Ec]. apply Z.eqb_neq in Ec. cbv zeta in Hb.
    destruct (IH _ Hb) as [Hs|(j & ? & ? & ?)]; [|right; exists j; split; [by right|done]].
    destruct (match best with Some b => _ | None => true end); [|by left]. simplify_eq. right. exists i. split; [by left|done].
Qed.

(** The candidate is a used segment other than the head's, with entries of the
    map and pointers of inodes. *)
Record eligible P l (c : CompactCandidate) : Prop := {
  el_index : 1 <= segment_idx c < segment_count (l_segs l);
  el_used : is_free (l_segs l) (segment_idx c) = false;
  el_head : current_segment (l_writer l) <> segment_idx c;
  el_inodes : entries_of (l_imap l) (live_inodes c);
  el_data : Forall (fun p => P p /\ p <> 0) (live_data_blocks c);
}.

Lemma runs_pick F dev P l : clean F P l -> runs F (pick_candidate dev) P l (fun c P' l' => P' = P /\ eligible P l' c).
Proof using Hdep.
  intros C. unfold pick_candidate. eapply runs_bind; [by apply runs_get|]. intros s P1 l1 _ _ (-> & -> & ->). cbv zeta.
  eapply runs_bind; [apply runs_live_pointers; [done|apply sorted_entries, C]|]. intros ptrs P1 l1 C1 K1 (-> & Hm & Hf).
  destruct (best_candidate _ _ _ _ _ _) as [c|] eqn:Eb.
  - apply runs_ret; [done|]. split; [done|]. apply best_candidate_some in Eb as [?|(i & Hi%elem_of_seqZ & Hu & Hc & ->)]; [done|].
    destruct (kp_segs _ _ _ _ K1) as [Hs1 Hs2]. destruct (kp_used _ _ _ _ K1 i ltac:(lia) Hu) as [Hu1 Hc1].
    split; cbn [segment_idx live_inodes live_data_blocks candidate]; [lia|done|naive_solver|..].
    + rewrite Hm. apply entries_filter, sorted_entries, C.
    + rewrite Forall_forall in Hf |- *. intros p [_ Hp]%list_elem_of_filter. by apply Hf.
  - exists (Err lfs_imap.NoCompactionCandidate), l1, P. split; [done|]. split; [done|]. split; [apply keeps_refl|done].
Qed.

(** ** The check before a segment is freed *)

Lemma runs_has_live F dev lo hi es : forall P l,
  clean F P l -> entries_of (l_imap l) es ->
  runs F (on_disk (has_live dev lo hi es)) P l (fun (b : bool) P' l' => P' = P /\ l_imap l' = l_imap l /\
    (b = false -> forall id x i, (id, x) ∈ es -> inode_at (fs_of l) id = Some i -> within lo hi x = false /\ existsb (within lo hi) (pointers i) = false)).
Proof using Hdep.
  induction es as [|[id b] es IH]; intros P l C He; cbn [has_live].
  { apply runs_disk_ret; [done|]. split_and!; try done. intros _ id x i Hx. by apply not_elem_of_nil in Hx. }
  destruct (entries_cons _ _ _ _ He) as [Hg He']. pose proof (imap_live _ _ _ _ _ C Hg) as Hb.
  destruct (within lo hi b) eqn:Ew; [apply runs_disk_ret; [done|]; by split_and!|].
  rewrite on_disk_bind. eapply runs_bind; [by apply runs_load|]. intros i P1 l1 C1 K1 (Hr & -> & Hm1).
  destruct (existsb (within lo hi) (pointers i)) eqn:Ep; [apply runs_disk_ret; [done|]; by split_and!|].
  eapply runs_weaken; [|apply IH; [done|by rewrite Hm1]]. intros r P1 l2 (-> & Hm2 & Hr2). split_and!; [done|congruence|].
  intros Hf id' x i' [[= -> ->]|Hx]%elem_of_cons Hi'.
  - pose proof (entry_inode _ _ _ _ _ _ C Hg Hr) as Hi. split; [done|]. by rewrite Hi in Hi'; injection Hi' as <-.
  - apply (Hr2 Hf id' x i' Hx). rewrite <- Hi'. unfold inode_at. cbn [lfs.imap fs_of]. rewrite Hm1.
    destruct (lfs_imap.get (l_imap l) id') as [x'|] eqn:Eg; [|done]. change (fview (fs_of ?a) x') with (lview a x').
    rewrite (kp_view _ _ _ _ K1); [done|]. exact (imap_live _ _ _ _ _ C Eg).
Qed.
Lemma get_elem m id x : lfs_imap.get m id = Some x -> (id, x) ∈ m.
Proof.
  induction m as [|[k v] m IH]; cbn; [done|]. destruct (Z.eqb_spec k id) as [->|]; [intros [= ->]; by left|]. intros Hg. right. auto.
Qed.

Lemma within_false lo hi x : within lo hi x = false -> ~ lo <= x < hi.
Proof. unfold within. intros Hw [H1 H2]. rewrite (proj2 (Z.leb_le _ _)), (proj2 (Z.ltb_lt _ _)) in Hw by done. done. Qed.

(** A segment without blocks in use can be freed. *)
Lemma clean_free F P l i :
  clean F P l -> 1 <= i < segment_count (l_segs l) -> is_free (l_segs l) i = false -> current_segment (l_writer l) <> i ->
  (forall x, live (fs_of l) x -> ~ i * segment_size (l_segs l) <= x < i * segment_size (l_segs l) + segment_size (l_segs l)) ->
  clean F (live (fs_of l)) (mk_log (l_disk l) (l_imap l) (lfs_segment.free (l_segs l) i) (l_writer l)).
Proof.
  intros C Hi Hu Hc Hout. destruct (lfs_segment.free_spec (l_segs l) i) as (Hs & Hf & Hn & Hz & Ho); [apply (cl_log _ _ _ C)|lia|done|].
  set (l' := mk_log _ _ _ _).
  assert (forall id, inode_at (fs_of l') id = inode_at (fs_of l) id) as Hin by (intros id; unfold inode_at; reflexivity).
  split; [| | |exact (cl_sorted _ _ _ C)|].
  2: { intros x [[id Hg]|(id & j & Hj & Hx)]; [left; by exists id|right; exists id, j; by rewrite <- Hin]. }
  2: { intros id b Hg. rewrite Hin. exact (cl_inode _ _ _ C id b Hg). }
  2: { intros id. rewrite <- (cl_files _ _ _ C id). apply abs_ext; [apply Hin|]. intros j k _ _. unfold fbyte. reflexivity. }
  subst l'. pose proof (cl_log _ _ _ C) as Hlog. destruct Hlog as [Lg Ls [Lz Ln] Lf L0 Lc Lu Lp Ll].
  split; cbn [l_disk l_imap l_segs l_writer]; rewrite ?Hz, ?Hn; try done; [rewrite Ho, decide_False by lia; done|rewrite Ho, decide_False by lia; done|].
  intros x Hx. destruct (Ll x (cl_live _ _ _ C x Hx)) as [X1 X2 X3 X4]. split; rewrite ?Hz, ?Hn; try done.
  rewrite Ho by lia. rewrite decide_False; [done|]. intros <-. apply (Hout x Hx).
  pose proof (Z_div_mod_eq_full x (segment_size (l_segs l))). pose proof (Z.mod_pos_bound x (segment_size (l_segs l)) ltac:(lia)). lia.
Qed.

(** Moving the live blocks of a candidate, and the check that follows. *)
Lemma runs_relocate F dev P l c lo hi :
  clean F P l -> eligible P l c ->
  runs F (_ ← copy_inodes (live_inodes c); _ ← copy_data dev (live_data_blocks c); segment_has_live_blocks lo hi dev) P l
    (fun b _ l' => b = false -> forall x, live (fs_of l') x -> ~ lo <= x < hi).
Proof using Hdep.
  intros C1 [_ _ _ Een Eda]. eapply runs_bind; [by apply runs_copy_inodes|]. intros [] P2 l2 C2 K2 _. eapply runs_bind; [apply runs_copy_data; [done|]|].
  { eapply Forall_impl; [exact Eda|]. intros p [Hp ?]. split; [by apply (kp_live _ _ _ _ K2)|done]. }
  intros [] P3 l3 C3 K3 _. unfold segment_has_live_blocks. eapply runs_bind; [by apply runs_get|]. intros s P4 l4 _ _ (-> & -> & ->).
  destruct (runs_has_live F dev lo hi (lfs_imap.iter (l_imap l3)) P3 l3 C3 (sorted_entries _ (cl_sorted _ _ _ C3)))
    as (r & l4 & P4 & E4 & C4 & K4 & Q4). exists r, l4, P4. split; [done|]. split; [done|]. split; [done|].
  destruct r as [b|]; [|done]. destruct Q4 as (-> & Hm & Hlv). intros -> x Hx.
  assert (forall id, inode_at (fs_of l4) id = inode_at (fs_of l3) id) as Hin.
  { intros id. unfold inode_at. cbn [lfs.imap fs_of]. rewrite Hm. destruct (lfs_imap.get (l_imap l3) id) as [y|] eqn:Eg; [|done].
    change (fview (fs_of ?a) y) with (lview a y). rewrite (kp_view _ _ _ _ K4); [done|]. exact (imap_live _ _ _ _ _ C3 Eg). }
  apply within_false. destruct Hx as [[id Hg]|(id & i & Hi & Hx & Hz)].
  - cbn [lfs.imap fs_of] in Hg. rewrite Hm in Hg. destruct (cl_inode _ _ _ C3 id x Hg) as (i & Hi & _).
    by destruct (Hlv eq_refl id x i (get_elem _ _ _ Hg) Hi).
  - rewrite Hin in Hi. destruct (lfs_imap.get (l_imap l3) id) as [y|] eqn:Eg; [|unfold inode_at in Hi; cbn [lfs.imap fs_of] in Hi; by rewrite Eg in Hi].
    destruct (Hlv eq_refl id y i (get_elem _ _ _ Eg) Hi) as [_ Hp]. apply not_true_is_false. intros Hw. apply not_true_iff_false in Hp. apply Hp.
    apply existsb_exists. exists x. split; [|done]. apply list_elem_of_In, list_elem_of_filter. split; [done|]. apply elem_of_app. by left.
Qed.

(** A pass of the cleaner. *)
Lemma compact_clean F dev P l :
  clean F P l -> exists r l' P', compact_one_segment dev l = Ret (r, l') /\ clean F P' l' /\
  segment_size (l_segs l') = segment_size (l_segs l) /\ segment_count (l_segs l') = segment_count (l_segs l).
Proof using Hdep.
  intros C. unfold compact_one_segment. rewrite lg_bind_run.
  destruct (runs_pick F dev P l C) as (r & l1 & P1 & E1 & C1 & K1 & Q1). rewrite E1. destruct (kp_segs _ _ _ _ K1) as [Z1 N1].
  destruct r as [c|e]; [|by exists (Err e), l1, P1]. destruct Q1 as [-> Hel]. pose proof Hel as [Ei Eu Eh _ _]. rewrite lg_bind_run. cbn [get_log]. cbv zeta.
  set (lo := lfs_segment.segment_start_block (l_segs l1) (segment_idx c)). set (hi := lo + segment_size (l_segs l1)).
  destruct (runs_relocate F dev P l1 c lo hi C1 Hel) as (r & l2 & P2 & E2 & C2 & K2 & Q2). rewrite lg_bind_run in E2. rewrite lg_bind_run. destruct (kp_segs _ _ _ _ K2) as [Z2 N2].
  destruct (copy_inodes (live_inodes c) l1) as [[[[]|e] la]|]; [|simplify_eq; exists (Err e), l2, P2; split_and!; try done; lia|done].
  rewrite lg_bind_run in E2. rewrite lg_bind_run.
  destruct (copy_data dev (live_data_blocks c) la) as [[[[]|e] lb]|]; [|simplify_eq; exists (Err e), l2, P2; split_and!; try done; lia|done].
  rewrite lg_bind_run, E2. destruct r as [b|e]; [|exists (Err e), l2, P2; split_and!; try done; lia].
  destruct b; [eexists _, l2, P2; split_and!; [reflexivity|done|lia..]|]. rewrite lg_bind_run. cbn [get_log]. rewrite lg_bind_run. cbn [set_segs].
  destruct (kp_used _ _ _ _ K2 (segment_idx c) ltac:(lia) Eu) as [Hu Hc]. eexists _, _, _. split; [reflexivity|].
  destruct (lfs_segment.free_spec (l_segs l2) (segment_idx c)) as (_ & _ & Hn & Hz & _); [apply (cl_log _ _ _ C2)|lia|done|].
  split; [|split; cbn [l_segs]; lia].
  apply (clean_free F P2 l2 (segment_idx c) C2); [lia|done|naive_solver|]. intros x Hx. rewrite Z2. by apply (Q2 eq_refl).
Qed.
End clean.

(** ** The cleaner in the file system *)

Section files.
Context {D : Type} `{!BlockDevice D, !BlockDeviceLaws D} (H : D -> Prop) (Hdep : dependable H).

Lemma inode_of_log (s : lfs.Lfs D) w id : inode_at (fs_of (lfs.superblock s) (log_at s w)) id = inode_at s id.
Proof. unfold inode_at. reflexivity. Qed.

Lemma abs_of_log (s : lfs.Lfs D) w id : abs (fs_of (lfs.superblock s) (log_at s w)) id = abs s id.
Proof. apply abs_ext; [apply inode_of_log|]. intros i j _ _. unfold fbyte. reflexivity. Qed.

Lemma live_of_log (s : lfs.Lfs D) w x : live (fs_of (lfs.superblock s) (log_at s w)) x -> live s x.
Proof. intros [[id Hg]|(id & i & Hi & Hx)]; [left; by exists id|right; exists id, i]. by rewrite <- (inode_of_log s w). Qed.

(** C12: The cleaner loses nothing. On a device that answers, in any state of the
    file system with an inode map in order and files that use direct pointers
    only, the pass that runs after a write returns, keeps the invariant of the
    log, and every file has the type, the size and the bytes it had, also when
    it gives up for want of a segment or a candidate. *)
Theorem cleaner_keeps_files k (s : lfs.Lfs D) :
  fs_ok H k s -> lfs_imap.sorted (lfs.imap s) -> (forall id i, inode_at s id = Some i -> indirect i = 0) ->
  exists r k' s', lfs.maybe_compact s = Ret (r, s') /\ fs_ok H k' s' /\ forall id, abs s' id = abs s id.
Proof using Hdep.
  intros Hk Hs Hx. unfold lfs.maybe_compact. destruct (lfs_compact.needs_compaction (lfs.segments s)); cbn [negb]; [|by exists (Ok ()), k, s].
  destruct (lfs.writer s) as [w|] eqn:Ew; [|by exists (Ok ()), k, s].
  destruct (fk_head _ _ _ Hk) as (w' & Hl & [Hw|[Hw _]]); [|congruence]. rewrite Ew in Hw. injection Hw as <-.
  assert (clean H (lfs.superblock s) (abs s) (live s) (log_at s w)) as C.
  { split; [done| | |done|].
    - intros x. apply live_of_log.
    - intros id b Hg. destruct (fk_inode _ _ _ Hk id b Hg) as (i & Hi & Hf). exists i. rewrite inode_of_log. split; [done|]. split; [done|]. by eapply Hx.
    - intros id. apply abs_of_log. }
  destruct (compact_clean H Hdep (lfs.superblock s) (abs s) (block_count (lfs.superblock s)) _ _ C) as (r & l' & P' & E & C' & Hz & _).
  rewrite lfs.fsm_bind_run. unfold lfs.log_op. rewrite Ew. unfold log_at in E. rewrite E.
  set (s' := lfs.mk_lfs _ _ _ _ _ _ _ _).
  assert (log_at s' (l_writer l') = l') as Hat by (by destruct l').
  exists (match r with Ok _ => Ok () | Err x => Err (lfs.io_error x) end), (froom s' - reserve s'), s'. split; [by destruct r|]. split.
  - split; [|exact (eq_trans (fk_super _ _ _ Hk) (eq_sym Hz))|lia|].
    + exists (l_writer l'). rewrite Hat. split; [|by left]. eapply log_ok_weaken, (cl_log _ _ _ _ _ C'). intros x Hlx.
      apply (cl_live _ _ _ _ _ C'). rewrite <- Hat. destruct Hlx as [[id Hg]|(id & i & Hi & Hxx)]; [left; by exists id|right; exists id, i].
      split; [|done]. rewrite <- Hi. exact (inode_of_log s' (l_writer l') id).
    + intros id b Hg. rewrite <- Hat in C'. destruct (cl_inode _ _ _ _ _ C' id b Hg) as (i & Hi & [Hf _]). exists i. split; [|done].
      rewrite <- Hi. symmetry. exact (inode_of_log s' (l_writer l') id).
  - intros id. rewrite <- Hat in C'. rewrite <- (cl_files _ _ _ _ _ C' id). symmetry. exact (abs_of_log s' (l_writer l') id).
Qed.
End files.
(** ** An example: three of four segments used, the file in the second *)

Definition cramped_fs : lfs.Lfs (MsdcBlockDevice Card) :=
  lfs.mk_lfs (cache.new, demo_disk) [(0, 257); (1, 258)] (lfs_segment.mk_segments [true; true; true; false] 4 256 1)
    (mk_superblock LFS_MAGIC LFS_VERSION 1024 256 4 1 65 3 4 0 1) 2 (Some (mk_writer 2 1 2)) 2 3.

(** The pass runs, moves the three blocks and frees segment 1. *)
Lemma cramped_pass :
  match lfs.maybe_compact cramped_fs with
  | Ret (Ok _, s) => lfs_segment.bitmap (lfs.segments s) = [true; false; true; false] /\ lfs.imap s = [(0, 513); (1, 516)]
  | _ => False
  end.
Proof. vm_compute. done. Qed.

Lemma cramped_inode id : inode_at cramped_fs id = inode_at demo_fs id.
Proof. unfold inode_at. reflexivity. Qed.

Lemma cramped_live x : live cramped_fs x -> live demo_fs x.
Proof. intros [[id Hg]|(id & i & Hi & Hx)]; [left; by exists id|right; exists id, i]. by rewrite <- cramped_inode. Qed.

Lemma cramped_ok : fs_ok sound_card (-255) cramped_fs.
Proof.
  destruct (cache_new_ok demo_disk) as (Hok & _ & Hn); [done|]. split; [|done|done|].
  - exists (mk_writer 2 1 2). split; [|by left]. split; try done.
    + split; [exact Hok|done|]. intros x Hx. by destruct (Hn x).
    + intros x Hx%cramped_live%array_demo_live. split; try (destruct Hx as [->|[->| ->]]; done).
  - intros id b Hg. destruct (demo_inode id b Hg) as [[_ Hi]|[_ Hi]]; rewrite cramped_inode; eexists; (split; [exact Hi|]); apply demo_inode_ok; auto.
Qed.

Lemma cleaner_keeps_files_witness :
  exists r k' s', lfs.maybe_compact cramped_fs = Ret (r, s') /\ fs_ok sound_card k' s' /\ forall id, abs s' id = abs cramped_fs id.
Proof.
  refine (cleaner_keeps_files sound_card sound_card_dependable (-255) cramped_fs cramped_ok _ _).
  - cbn. lia.
  - intros id i. rewrite cramped_inode. intros Hi. destruct (lfs_imap.get (lfs.imap demo_fs) id) as [b|] eqn:Hg.
    + destruct (demo_inode id b Hg) as [[_ Hj]|[_ Hj]]; rewrite Hi in Hj; injection Hj as ->; reflexivity.
    + unfold inode_at in Hi. rewrite Hg in Hi. discriminate Hi.
Defined.
End lfs_clean.
