(* ===== verification/LfsDir.v ===== *)
(** * Directories of the log-structured file system

    The records of a directory block are read back as they were laid out, and
    creating a file adds its name to the directory and an empty file to the file
    system, and nothing else. *)

From S2P Require Import Prelude Machine Fd Vfs Block Cache LfsMeta LfsCheckpoint LfsLog LfsCompact Lfs LfsFile LfsSpec.
From Stdlib Require Import ZArith.
Open Scope Z_scope.

Module lfs_dir.
Import vfs block cache codec lfs_io lfs_disk lfs lfs_file lfs_spec.
#[local] Opaque extent.

(** ** The records *)

(** An entry that [create] writes. *)
Record entry_ok (e : DiskDirEntry) : Prop := {
  eo_id : 0 < inode_id e < 2 ^ 32;
  eo_name : (0 < length (name e) <= 255)%nat;
  eo_text : utf8.from_utf8_lossy (name e) = name e;
  eo_len : name_len e = Z.of_nat (length (name e));
  eo_record : record_len e = aligned_len (length (name e));
}.

Lemma aligned_len_spec n :
  (n <= 255)%nat -> 8 + Z.of_nat n <= aligned_len n < 2 ^ 16 /\ aligned_len n <= 8 + Z.of_nat n + 3.
Proof.
  intros Hn. assert (forallb (fun n => (8 + Z.of_nat n <=? aligned_len n) && (aligned_len n <? 2 ^ 16) && (aligned_len n <=? 8 + Z.of_nat n + 3))
    (seq 0 256) = true) as Hall by (vm_compute; reflexivity).
  rewrite forallb_forall in Hall. specialize (Hall n). rewrite !andb_true_iff, !Z.leb_le, Z.ltb_lt in Hall.
  destruct Hall as [[? ?] ?]; [apply in_seq; lia|]. lia.
Qed.

(** A record as bytes. *)
Definition record (e : DiskDirEntry) : list Z :=
  le_bytes (inode_id e) ++ le16 (Z.of_nat (length (name e))) ++ le16 (aligned_len (length (name e))) ++ name e ++
  replicate (Z.to_nat (aligned_len (length (name e))) - 8 - length (name e)) 0.

Definition records (es : list DiskDirEntry) : list Z := es ≫= record.

Lemma length_record e : entry_ok e -> Z.of_nat (length (record e)) = aligned_len (length (name e)).
Proof.
  intros He. destruct (aligned_len_spec (length (name e))) as [? ?]; [apply He|]. unfold record. rewrite !length_app, length_replicate.
  change (length (le_bytes _)) with 4%nat. change (length (le16 _)) with 2%nat. lia.
Qed.

Lemma length_records e es : entry_ok e -> Z.of_nat (length (records (e :: es))) = aligned_len (length (name e)) + Z.of_nat (length (records es)).
Proof. intros He. unfold records. rewrite bind_cons, length_app, Nat2Z.inj_add, length_record by done. done. Qed.

(** The laying out. *)
Lemma dir_records_ok es : forall pre k,
  Forall entry_ok es -> (length pre + k = Z.to_nat BLOCK_SIZE)%nat -> (length (records es) <= k)%nat ->
  dir_records es (pre ++ replicate k 0) (Z.of_nat (length pre)) = Ok ((pre ++ records es) ++ replicate (k - length (records es)) 0).
Proof.
  induction es as [|e es IH]; intros pre k He Hk Hf; cbn [dir_records].
  { by rewrite app_nil_r, Nat.sub_0_r. }
  apply Forall_cons in He as [He Hes]. pose proof (length_records e es He) as Hl. pose proof (length_record e He) as Hr.
  destruct (aligned_len_spec (length (name e))) as [Ha1 Ha2]; [apply He|]. pose proof (eo_name _ He) as Hn.
  assert (Z.to_nat BLOCK_SIZE = 4096%nat) as Hb by done. assert (BLOCK_SIZE = 4096) as Hbz by done.
  rewrite (proj2 (Z.leb_gt (2 ^ 16) (Z.of_nat _))) by lia. rewrite (proj2 (Z.leb_gt (2 ^ 16) (aligned_len _))) by lia.
  rewrite (proj2 (Z.ltb_ge BLOCK_SIZE (aligned_len _))) by lia. cbn [orb]. rewrite (proj2 (Z.ltb_ge _ _)) by lia.
  set (rl := aligned_len (length (name e))) in *. set (n := length (name e)) in *.
  rewrite (put_at _ _ pre (le_bytes (inode_id e)) k eq_refl) by (rewrite ?length_le_bytes; lia).
  rewrite (put_at _ _ (pre ++ le_bytes (inode_id e)) (le16 (Z.of_nat n)) (k - length (le_bytes (inode_id e))) eq_refl)
    by (rewrite ?length_app, ?length_le_bytes; cbn [length le16]; lia).
  rewrite (put_at _ _ ((pre ++ le_bytes (inode_id e)) ++ le16 (Z.of_nat n)) (le16 rl) _ eq_refl)
    by (rewrite ?length_app, ?length_le_bytes; cbn [length le16]; lia).
  rewrite (put_at _ _ (((pre ++ le_bytes (inode_id e)) ++ le16 (Z.of_nat n)) ++ le16 rl) (name e) _ eq_refl)
    by (rewrite ?length_app, ?length_le_bytes; unfold DIR_ENTRY_HEADER_SIZE; cbn [length le16]; fold n; lia).
  fold n. change (length (le_bytes ?v)) with 4%nat. change (length (le16 ?v)) with 2%nat.
  assert (k - 4 - 2 - 2 - n = (Z.to_nat rl - 8 - n) + (k - Z.to_nat rl))%nat as -> by lia.
  rewrite replicate_add.
  match goal with |- dir_records _ ?b _ = _ => replace b with ((pre ++ record e) ++ replicate (k - Z.to_nat rl) 0) end.
  2: { unfold record. fold n rl. by rewrite <- !app_assoc. }
  replace (Z.of_nat (length pre) + rl) with (Z.of_nat (length (pre ++ record e))) by (rewrite length_app; lia).
  rewrite IH; [|done|rewrite length_app; lia|lia]. unfold records. rewrite bind_cons, <- !app_assoc. rewrite length_app.
  do 4 f_equal. f_equal. fold (records es). lia.
Qed.
Lemma from_le16 v : 0 <= v < 2 ^ 16 -> from_le (le16 v) = v.
Proof. intros Hv. cbn. Z.to_euclidean_division_equations; lia. Qed.

(** The reading. *)
Lemma parse_records fuel : forall es pre k,
  Forall entry_ok es -> (length es < fuel)%nat -> (length pre + length (records es) + k = Z.to_nat BLOCK_SIZE)%nat ->
  parse_from fuel (pre ++ records es ++ replicate k 0) (Z.of_nat (length pre)) = Ok es.
Proof.
  induction fuel as [|fuel IH]; intros es pre k He Hf Hk; [lia|]. cbn [parse_from].
  assert (Z.of_nat (Z.to_nat BLOCK_SIZE) = BLOCK_SIZE) as Hb by done. destruct es as [|e es].
  { cbn [length] in Hk. change (records []) with (@nil Z) in *. cbn [app length] in *. unfold DIR_ENTRY_HEADER_SIZE.
    destruct (Z.ltb_spec BLOCK_SIZE (Z.of_nat (length pre) + 8)) as [|Hle]; [done|].
    rewrite drop_app_ge by lia. rewrite drop_replicate, take_replicate. by replace (2 `min` _)%nat with 2%nat by lia. }
  apply Forall_cons in He as [He Hes]. pose proof (length_records e es He) as Hl. pose proof (length_record e He) as Hr. cbn [length] in Hf.
  destruct (aligned_len_spec (length (name e))) as [Ha1 Ha2]; [apply He|]. pose proof (eo_name _ He) as Hn. pose proof (eo_id _ He) as Hid.
  set (rest := records es ++ replicate k 0).
  assert (pre ++ records (e :: es) ++ replicate k 0 = pre ++ record e ++ rest) as -> by (unfold records; rewrite bind_cons, <- app_assoc; done).
  assert (forall (m : nat) x, drop (Z.to_nat (Z.of_nat (length pre) + Z.of_nat m)) (pre ++ x) = drop m x) as Hd.
  { intros m x. rewrite drop_app_ge by lia. f_equal. lia. }
  set (rl := aligned_len (length (name e))) in *. set (n := length (name e)) in *.
  rewrite (proj2 (Z.ltb_ge _ _)) by (unfold DIR_ENTRY_HEADER_SIZE; lia).
  assert (take 4 (drop 0 (record e ++ rest)) = le_bytes (inode_id e)) as F0 by (unfold record; reflexivity).
  assert (take 2 (drop 4 (record e ++ rest)) = le16 (Z.of_nat n)) as F4 by (unfold record; reflexivity).
  assert (take 2 (drop 6 (record e ++ rest)) = le16 rl) as F6 by (unfold record; reflexivity).
  rewrite !(Hd 0%nat), !(Hd 4%nat), !(Hd 6%nat), F0, F4, F6.
  rewrite from_le_bytes, !from_le16 by (unfold is_u32; lia). rewrite (proj2 (Z.eqb_neq rl 0)) by lia.
  rewrite (proj2 (Z.eqb_neq (inode_id e) 0)), (proj2 (Z.ltb_lt 0 (Z.of_nat n))) by lia. cbn [negb andb].
  rewrite (proj2 (Z.ltb_ge rl _)) by (unfold DIR_ENTRY_HEADER_SIZE; lia).
  rewrite (proj2 (Z.ltb_ge (rl - _) _)) by (unfold DIR_ENTRY_HEADER_SIZE; lia).
  rewrite (proj2 (Z.ltb_ge BLOCK_SIZE _)) by (unfold DIR_ENTRY_HEADER_SIZE; lia).
  assert (drop (Z.to_nat (Z.of_nat (length pre) + DIR_ENTRY_HEADER_SIZE)) (pre ++ record e ++ rest) =
    name e ++ replicate (Z.to_nat rl - 8 - n) 0 ++ rest) as ->.
  { change DIR_ENTRY_HEADER_SIZE with (Z.of_nat 8). rewrite Hd. unfold record. fold n rl. rewrite <- !app_assoc. reflexivity. }
  rewrite Nat2Z.id, (take_app_length' _ _ n), (eo_text _ He) by done.
  replace (Z.of_nat (length pre) + rl) with (Z.of_nat (length (pre ++ record e))) by (rewrite length_app; lia).
  rewrite (app_assoc pre). unfold rest. rewrite IH; [|done|lia|rewrite length_app; lia]. cbn [app].
  destruct He as [_ _ _ E1 E2]. destruct e as [id nl rlen nm]; cbn [name inode_id name_len record_len] in *. by rewrite E1, E2.
Qed.

Lemma records_few es : Forall entry_ok es -> (12 * length es <= length (records es))%nat.
Proof.
  induction 1 as [|e es He _ IH]; [done|]. pose proof (length_records e es He) as Hl. destruct (aligned_len_spec (length (name e))) as [Ha _]; [apply He|].
  pose proof (eo_name _ He). assert (length (name e) = 1 \/ length (name e) = 2 \/ length (name e) = 3 \/ 4 <= length (name e))%nat as [Hc|[Hc|[Hc|Hc]]] by lia;
    cbn [length]; rewrite ?Hc in *; try lia; change (aligned_len 1) with 12 in *; change (aligned_len 2) with 12 in *; change (aligned_len 3) with 12 in *; lia.
Qed.

(** A directory block that was laid out is read back. *)
Lemma dir_block_roundtrip es :
  Forall entry_ok es -> (length (records es) <= Z.to_nat BLOCK_SIZE)%nat ->
  exists buf, dir_records es lfs_checkpoint.zero_block 0 = Ok buf /\ length buf = Z.to_nat BLOCK_SIZE /\ parse_dir_entries buf = Ok es.
Proof.
  intros He Hl. assert (length (@nil Z) + Z.to_nat BLOCK_SIZE = Z.to_nat BLOCK_SIZE)%nat as H0 by (cbn [length]; lia).
  pose proof (dir_records_ok es [] (Z.to_nat BLOCK_SIZE) He H0 Hl) as E. rewrite !app_nil_l in E.
  exists (records es ++ replicate (Z.to_nat BLOCK_SIZE - length (records es)) 0). split; [exact E|].
  split; [rewrite length_app, length_replicate; lia|]. pose proof (records_few es He).
  assert (length es < Z.to_nat BLOCK_SIZE)%nat as Hf by (unfold BLOCK_SIZE in *; lia).
  assert (length (@nil Z) + length (records es) + (Z.to_nat BLOCK_SIZE - length (records es)) = Z.to_nat BLOCK_SIZE)%nat as H1 by (cbn [length]; lia).
  pose proof (parse_records (Z.to_nat BLOCK_SIZE) es [] _ He Hf H1) as E2. rewrite app_nil_l in E2. exact E2.
Qed.

Lemma total_len_records es : Forall entry_ok es -> total_len es = Z.of_nat (length (records es)).
Proof.
  induction 1 as [|e es He _ IH]; [done|]. rewrite length_records by done. cbn [total_len foldr]. fold (total_len es). rewrite IH.
  by rewrite (eo_record _ He).
Qed.
(** ** Directories *)

Section dirs.
Context {D : Type} `{!BlockDevice D, !BlockDeviceLaws D} (H : D -> Prop) (Hdep : dependable H).
Implicit Types s : Lfs D.

(** The entries of a directory, which has at most one block. *)
Definition listing (g : afile) (es : list DiskDirEntry) : Prop :=
  a_type g = INODE_TYPE_DIR /\
  (a_size g = 0 /\ es = [] \/ 0 < a_size g <= BLOCK_SIZE /\ parse_dir_entries (take (Z.to_nat BLOCK_SIZE) (a_bytes g)) = Ok es).

Lemma parse_zeros : parse_dir_entries (replicate (Z.to_nat BLOCK_SIZE) 0) = Ok [].
Proof. vm_compute. reflexivity. Qed.

Lemma first_block s i :
  length (direct i) = DIRECT_BLOCK_COUNT -> length (fview s (direct i !!! 0%nat)) = Z.to_nat BLOCK_SIZE ->
  take (Z.to_nat BLOCK_SIZE) (extent s i) = if direct i !!! 0%nat =? 0 then replicate (Z.to_nat BLOCK_SIZE) 0 else fview s (direct i !!! 0%nat).
Proof.
  intros Hd Hl. assert (BLOCK_SIZE <= LFS_MAX_FILE_SIZE /\ 0 < BLOCK_SIZE) as [Hle Hpos] by done.
  pose proof (extent_piece s i 0 BLOCK_SIZE ltac:(lia) ltac:(lia)) as E. rewrite drop_0 in E. rewrite E.
  rewrite (block_bytes s i (direct i !!! 0%nat) 0 BLOCK_SIZE) by (done || lia). destruct (_ =? 0); [done|].
  rewrite Zmod_0_l, <- (take_drop_seqZ _ 0 BLOCK_SIZE) by lia. rewrite drop_0. apply take_ge. lia.
Qed.

Lemma read_dir_ok k s id i es :
  fs_ok H k s -> inode_at s id = Some i -> listing (as_file s i) es -> exists s', read_dir_entries i s = Ret (Ok es, s') /\ quiet H s s'.
Proof using Hdep.
  intros Hk Hi [Ht Hs]. cbn [a_type a_size a_bytes as_file] in Ht, Hs. unfold read_dir_entries.
  rewrite (proj2 (Z.eqb_eq _ _)) by done. cbn [negb]. rewrite fsm_bind_run. unfold pure.
  pose proof (quiet_same H k s Hk) as Qs. destruct Hs as [[Hz ->]|[Hz Hp]].
  { unfold blocks_of_size. rewrite Hz. cbn [Z.eqb Z.to_nat take dir_blocks]. exists s. split; [reflexivity|done]. }
  destruct (fk_get _ _ _ _ _ Hk Hi) as [Hio _]. pose proof (fits_pointers _ _ _ _ _ Hk Hi) as Hpt.
  rewrite (proj1 (blocks_of_small (size i) ltac:(unfold LFS_MAX_FILE_SIZE, DIRECT_BLOCK_COUNT, BLOCK_SIZE in *; lia))).
  assert (div_ceil (size i) BLOCK_SIZE = 1) as ->.
  { unfold div_ceil, BLOCK_SIZE in *. Z.to_euclidean_division_equations; lia. }
  rewrite (first_block s i (pi_length _ _ Hpt) (headed_length _ _ _ _ (fk_head _ _ _ Hk))) in Hp.
  destruct (direct i) as [|p ps] eqn:Ed; [pose proof (pi_length _ _ Hpt); done|].
  change (Z.to_nat 1) with 1%nat. cbn [take dir_blocks]. change ((p :: ps) !!! 0%nat) with p in Hp.
  destruct (Z.eqb_spec p 0) as [Hp0|Hp0].
  - rewrite parse_zeros in Hp. injection Hp as <-. exists s. split; [reflexivity|done].
  - rewrite fsm_bind_run. destruct (read_valid_ok H Hdep (live s) s p (fk_head _ _ _ Hk) (fk_super _ _ _ Hk)) as (s' & E & Q).
    { right. exists id, i. rewrite Ed. split_and!; [done|by left|done]. }
    rewrite E, fsm_bind_run. unfold pure. rewrite Hp, fsm_bind_run. change (take 0 ps) with (@nil Z). cbn [dir_blocks].
    exists s'. unfold mret, fsm_ret. by rewrite app_nil_r.
Qed.

(** Looking a name up. *)
Lemma lookup_ok k s dir g es n :
  fs_ok H k s -> abs s dir = Some g -> listing g es ->
  exists s', lookup dir n s = Ret (ok_or (inode_id <$> find_name n es) fd.NotFound, s') /\ quiet H s s'.
Proof using Hdep.
  intros Hk Ha Hls. destruct (inode_at s dir) as [i|] eqn:Ei; [|by rewrite (abs_None _ _ Ei) in Ha].
  rewrite (abs_Some _ _ _ Ei) in Ha. injection Ha as <-. unfold lookup. rewrite fsm_bind_run.
  destruct (load_inode_ok H Hdep _ _ _ _ Hk Ei) as (s1 & E1 & Q1). rewrite E1, fsm_bind_run. pose proof (quiet_ok H _ _ _ Q1 Hk) as K1.
  pose proof Ei as Ei1. rewrite <- (quiet_inode H _ _ _ Q1) in Ei1.
  destruct (read_dir_ok k s1 dir i es K1 Ei1) as (s2 & E2 & Q2).
  { rewrite (as_file_ext s s1 i); [done|]. intros j _. by apply (quiet_byte H). }
  rewrite E2. exists s2. split; [done|]. by eapply quiet_after.
Qed.
(** A new file: no bytes, holes everywhere. *)
Definition disk_type (t : InodeType) : Z := match t with Directory => INODE_TYPE_DIR | _ => INODE_TYPE_FILE end.
Definition empty_inode (t : InodeType) : DiskInode := mk_inode (disk_type t) 1 0 (replicate DIRECT_BLOCK_COUNT 0) 0.
Definition empty_file (t : InodeType) : afile := mk_afile (disk_type t) 1 0 (replicate (Z.to_nat LFS_MAX_FILE_SIZE) 0).

Lemma empty_as_file s t : as_file s (empty_inode t) = empty_file t.
Proof.
  unfold as_file. cbn [inode_type link_count size empty_inode]. rewrite (extent_eq s (empty_inode t) (replicate (Z.to_nat LFS_MAX_FILE_SIZE) 0)); [reflexivity|apply length_replicate|].
  intros j Hj. rewrite lookup_total_replicate_2 by lia. unfold fbyte. cbn [direct empty_inode].
  by rewrite lookup_total_replicate_2 by (by apply direct_lt).
Qed.

Lemma empty_fits P t : inode_fits (empty_inode t) /\ pointers_in P (direct (empty_inode t)).
Proof.
  assert (Forall is_u64 (replicate DIRECT_BLOCK_COUNT 0)) as Hu by (apply Forall_replicate; unfold is_u64; lia).
  split; [split; [split; cbn [empty_inode inode_type link_count size direct indirect]|]|split]; try done.
  - by destruct t.
  - intros p [-> _]%elem_of_replicate Hz. done.
Qed.

(** Giving a number out changes nothing else. *)
Lemma alloc_inode_ok P s : busy H P s -> exists s', alloc_inode_id s = Ret (Ok (next_inode s), s') /\ busy H P s' /\ moved P 0 s s' /\ imap s' = imap s.
Proof.
  intros Hb. eexists. split; [reflexivity|]. split; [destruct Hb as [(w & Hw & Hl) Hs]; split; [by exists w|done]|]. split; [|done].
  split; try done. unfold froom. cbn [writer segments]. lia.
Qed.

Definition new_entry (id : Z) (n : list Z) : DiskDirEntry := mk_dirent id (Z.of_nat (length n)) (aligned_len (length n)) n.

(** The directory with its new block. *)
Lemma dir_with_block P s s' i b es buf :
  inode_type i = INODE_TYPE_DIR -> pointers_in P (direct i) -> fview s' b = buf -> length buf = Z.to_nat BLOCK_SIZE -> b <> 0 ->
  parse_dir_entries buf = Ok es -> 0 < total_len es <= BLOCK_SIZE ->
  listing (as_file s' (set_size (set_direct i 0 b) (total_len es))) es.
Proof.
  intros Ht Hp Hv Hl Hb He Hs. split; [done|right]. split; [done|]. cbn [a_bytes as_file].
  rewrite first_block; cbn [direct set_size set_direct].
  - rewrite list_lookup_total_insert_eq by (rewrite (pi_length _ _ Hp); unfold DIRECT_BLOCK_COUNT; lia). rewrite (proj2 (Z.eqb_neq _ _)) by done.
    by rewrite Hv.
  - rewrite length_insert. apply Hp.
  - rewrite list_lookup_total_insert_eq by (rewrite (pi_length _ _ Hp); unfold DIRECT_BLOCK_COUNT; lia). by rewrite Hv.
Qed.

Record fresh_name s (es : list DiskDirEntry) (n : list Z) : Prop := {
  fn_length : (0 < length n <= 255)%nat;
  fn_text : utf8.from_utf8_lossy n = n;
  fn_new : Forall (fun e => name e <> n) es;
  fn_fits : (length (records (es ++ [new_entry (next_inode s) n])) <= Z.to_nat BLOCK_SIZE)%nat;
  fn_id : 0 < next_inode s < 2 ^ 32;
  fn_free : lfs_imap.get (imap s) (next_inode s) = None;
}.

Lemma new_entry_ok s es n : fresh_name s es n -> Forall entry_ok es -> Forall entry_ok (es ++ [new_entry (next_inode s) n]).
Proof. intros [] He. apply Forall_app. split; [done|]. apply Forall_singleton. by split. Qed.

(** The part of [create] after its checks. *)
Lemma create_body_ok k s dir i es n t :
  fs_ok H (3 + k) s -> 0 <= k -> inode_at s dir = Some i -> inode_type i = INODE_TYPE_DIR -> Forall entry_ok es -> fresh_name s es n ->
  exists s', (_ ← ensure_writer;
      new_id ← alloc_inode_id;
      _ ← log_op (lfs_writer.write_inode new_id (empty_inode t)) map_write_data_block_err;
      let entries := es ++ [new_entry new_id n] in
      dir_block ← on_error (write_dir_block entries) (forget_inode new_id);
      let parent := set_size (set_direct i 0 dir_block) (total_len entries) in
      _ ← on_error (log_op (lfs_writer.write_inode dir parent) map_write_data_block_err) (forget_inode new_id);
      _ ← maybe_compact;
      mret new_id) s = Ret (Ok (next_inode s), s') /\ fs_ok H k s' /\
  (exists g, abs s' dir = Some g /\ listing g (es ++ [new_entry (next_inode s) n])) /\ abs s' (next_inode s) = Some (empty_file t) /\
  forall id, id <> dir -> id <> next_inode s -> abs s' id = abs s id.
Proof using Hdep.
  intros Hk H0 Hi Ht Hes Hn. pose proof (reserve_pos _ _ _ (fk_head _ _ _ Hk)) as Hpos. pose proof (fk_room _ _ _ Hk) as Hroom.
  set (id := next_inode s) in *. set (es' := es ++ [new_entry id n]) in *. pose proof (new_entry_ok s es n Hn Hes) as Hes'. fold id es' in Hes'.
  assert (id <> dir) as Hne.
  { intros Heq. rewrite <- Heq in Hi. unfold inode_at, id in Hi. by rewrite (fn_free _ _ _ Hn) in Hi. }
  rewrite fsm_bind_run. destruct (ensure_writer_ok H (live s) s (fk_head _ _ _ Hk) (fk_super _ _ _ Hk)) as (s1 & E1 & B1 & M1 & I1 & N1); [lia|].
  rewrite E1, fsm_bind_run. destruct (alloc_inode_ok (live s) s1 B1) as (s2 & E2 & B2 & M2 & I2). rewrite E2, N1. fold id. rewrite fsm_bind_run.
  pose proof (moved_trans (live s) (live s) 0 0 _ _ _ (fun x Hx => Hx) M1 M2) as M12. destruct (empty_fits (live s) t) as [Hef Hep].
  destruct (commit_ok H Hdep (3 + k) s s2 (live s) (0 + 0) id (empty_inode t) map_write_data_block_err)
    as (b3 & s3 & E3 & K3 & _ & (B3 & _) & A3 & F3 & O3); try done; try lia; try congruence.
  rewrite E3. cbv zeta. rewrite fsm_bind_run. unfold on_error at 1, write_dir_block. rewrite fsm_bind_run. fold es'.
  destruct (dir_block_roundtrip es' Hes' (fn_fits _ _ _ Hn)) as (buf & Eb & Lb & Pb). unfold pure. rewrite Eb.
  pose proof (reserve_pos _ _ _ (fk_head _ _ _ K3)) as Hpos3. pose proof (fk_room _ _ _ K3) as Hroom3.
  destruct (log_op_block H Hdep (live s3) s3 buf map_write_data_block_err B3) as (b & s4 & E4 & B4 & M4 & I4 & _ & _ & V4 & U4 & Z4); [lia|done|].
  rewrite E4, fsm_bind_run. unfold on_error.
  destruct (O3 dir ltac:(congruence)) as [Oi Oa]. rewrite Hi in Oi. pose proof (fits_pointers _ _ _ _ _ K3 Oi) as Hp3.
  assert (0 < total_len es' <= BLOCK_SIZE) as Htl.
  { rewrite total_len_records by done. pose proof (fn_fits _ _ _ Hn) as Hff. fold id es' in Hff. pose proof (records_few es' Hes') as Hrf.
    unfold es' in Hrf at 1. rewrite length_app in Hrf. cbn [length] in Hrf. unfold BLOCK_SIZE in *. lia. }
  destruct (fk_get _ _ _ _ _ K3 Oi) as [Hio _].
  destruct (commit_ok H Hdep (3 + k - (0 + 0) - 1) s3 s4 (fun x => live s3 x \/ x = b) 1 dir (set_size (set_direct i 0 b) (total_len es')) map_write_data_block_err)
    as (b5 & s5 & E5 & K5 & C5 & _ & _ & F5 & O5); try done; try lia.
  { by left. } { by apply pointers_insert. }
  { assert (BLOCK_SIZE <= LFS_MAX_FILE_SIZE /\ BLOCK_SIZE < 2 ^ 64) as [? ?] by done. split; [|cbn [size set_size]; lia].
    destruct Hio as [T L S X Y]. destruct (pointers_insert _ _ 0%nat b Hp3 U4) as [Q1 Q2 _].
    split; cbn [inode_type link_count size direct indirect set_size set_direct]; try done. unfold is_u64. lia. }
  rewrite E5, fsm_bind_run, C5. exists s5. split; [done|]. split; [eapply fs_ok_le, K5; lia|]. split; [|split].
  - eexists. split; [exact F5|]. by apply (dir_with_block (live s3) s4 s4 i b es' buf).
  - rewrite (proj2 (O5 id Hne)), F3, empty_as_file. reflexivity.
  - intros id' Hd Hid. rewrite (proj2 (O5 id' Hd)), (proj2 (O3 id' Hid)). reflexivity.
Qed.
Lemma name_absent es n : Forall (fun e => name e <> n) es -> existsb (fun e => bool_decide (name e = n)) es = false.
Proof.
  intros Hn. apply not_true_is_false. intros (e & He & Hb)%existsb_exists. apply bool_decide_eq_true in Hb.
  rewrite Forall_forall in Hn. by apply (Hn e); [apply list_elem_of_In|].
Qed.

Lemma create_ok k s dir g es n t :
  fs_ok H (3 + k) s -> 0 <= k -> abs s dir = Some g -> listing g es -> Forall entry_ok es -> fresh_name s es n ->
  exists s', create dir n t s = Ret (Ok (next_inode s), s') /\ fs_ok H k s' /\
  (exists g', abs s' dir = Some g' /\ listing g' (es ++ [new_entry (next_inode s) n])) /\ abs s' (next_inode s) = Some (empty_file t) /\
  forall id, id <> dir -> id <> next_inode s -> abs s' id = abs s id.
Proof using Hdep.
  intros Hk H0 Ha Hls Hes Hn. destruct (inode_at s dir) as [i|] eqn:Ei; [|by rewrite (abs_None _ _ Ei) in Ha].
  rewrite (abs_Some _ _ _ Ei) in Ha. injection Ha as <-. pose proof (proj1 Hls) as Ht. cbn [a_type as_file] in Ht. unfold create.
  rewrite (proj2 (Nat.ltb_ge _ _)) by (apply Hn). rewrite fsm_bind_run.
  destruct (load_inode_ok H Hdep _ _ _ _ Hk Ei) as (s1 & E1 & Q1). rewrite E1, (proj2 (Z.eqb_eq _ _)) by done. cbn [negb].
  pose proof (quiet_ok H _ _ _ Q1 Hk) as K1. pose proof Ei as Ei1. rewrite <- (quiet_inode H _ _ _ Q1) in Ei1. rewrite fsm_bind_run.
  destruct (read_dir_ok (3 + k) s1 dir i es K1 Ei1) as (s2 & E2 & Q2).
  { rewrite (as_file_ext s s1 i); [exact Hls|]. intros j _. by apply (quiet_byte H). }
  rewrite E2, (name_absent es n (fn_new _ _ _ Hn)). pose proof (quiet_after H _ _ _ Q1 Q2) as Q. pose proof (quiet_ok H _ _ _ Q Hk) as K2.
  assert (next_inode s2 = next_inode s) as Hni by (pose proof (qt_counters _ _ _ Q); congruence).
  destruct (create_body_ok k s2 dir i es n t K2 H0) as (s3 & E3 & K3 & G3 & A3 & O3); [by rewrite (quiet_inode H _ _ _ Q)|done|done| |].
  { destruct Hn. split; rewrite ?Hni, ?(qt_imap _ _ _ Q); done. }
  rewrite Hni in E3, G3, A3, O3. exists s3. split; [exact E3|]. split; [done|]. split; [exact G3|]. split; [exact A3|].
  intros id' Hd Hid. rewrite (O3 id' Hd Hid). apply (quiet_abs H _ _ _ Q).
Qed.

Lemma find_name_last es e : Forall (fun x => name x <> name e) es -> find_name (name e) (es ++ [e]) = Some e.
Proof.
  intros Hf. unfold find_name. rewrite list_find_app_r; [|apply list_find_None; exact Hf]. cbn. by rewrite decide_True.
Qed.

Lemma find_name_other es e n : name e <> n -> find_name n (es ++ [e]) = find_name n es.
Proof.
  intros Hn. unfold find_name. destruct (list_find (fun x => name x = n) es) as [[j x]|] eqn:Ef.
  - by rewrite (list_find_app_l _ _ _ _ _ Ef).
  - rewrite list_find_app_r by done. cbn. by rewrite decide_False.
Qed.

(** C13: A created file is found. In a directory whose block has room for one more
    record, on a device that answers, with room in the log for three blocks above
    what the cleaner keeps free and with a free next inode number, creating a new
    name of 1 to 255 bytes of UTF-8 returns that number; looking the name up
    returns the number, looking any other name up returns what it returned before;
    the new file is empty, and no file but the directory has changed. *)
Theorem created_file_is_found k s dir g es n t :
  fs_ok H (3 + k) s -> 0 <= k -> abs s dir = Some g -> listing g es -> Forall entry_ok es -> fresh_name s es n ->
  exists s', create dir n t s = Ret (Ok (next_inode s), s') /\ fs_ok H k s' /\
  (exists s1, lookup dir n s' = Ret (Ok (next_inode s), s1)) /\
  (forall n', n' <> n -> exists s1 s2 r, lookup dir n' s = Ret (r, s1) /\ lookup dir n' s' = Ret (r, s2)) /\
  abs s' (next_inode s) = Some (empty_file t) /\ forall id, id <> dir -> id <> next_inode s -> abs s' id = abs s id.
Proof using Hdep.
  intros Hk H0 Ha Hls Hes Hn. destruct (create_ok k s dir g es n t Hk H0 Ha Hls Hes Hn) as (s' & E & K & (g' & A' & L') & A & O).
  exists s'. split; [exact E|]. split; [done|]. split; [|split; [|split; [exact A|exact O]]].
  - destruct (lookup_ok k s' dir g' _ n K A' L') as (s1 & E1 & _). exists s1. rewrite E1.
    pose proof (find_name_last es (new_entry (next_inode s) n) (fn_new _ _ _ Hn)) as Ef. cbn [name new_entry] in Ef. rewrite Ef. reflexivity.
  - intros n' Hne. destruct (lookup_ok _ s dir g es n' Hk Ha Hls) as (s1 & E1 & _). destruct (lookup_ok k s' dir g' _ n' K A' L') as (s2 & E2 & _).
    exists s1, s2, (ok_or (inode_id <$> find_name n' es) fd.NotFound). split; [exact E1|]. rewrite E2. rewrite find_name_other by (cbn; congruence). reflexivity.
Qed.
(** ** Removing a file *)

(** Blocks that no inode refers to may have been appended. *)
Lemma moved_fs_ok P K k s s' :
  fs_ok H K s -> busy H P s' -> (forall x, live s x -> P x) -> moved (live s) k s s' -> imap s' = imap s ->
  fs_ok H (K - k) s' /\ (forall x, live s' x -> P x) /\ forall id, inode_at s' id = inode_at s id /\ abs s' id = abs s id.
Proof.
  intros Hk Hb HP M Him.
  assert (forall id, inode_at s' id = inode_at s id) as Hin.
  { intros id. unfold inode_at. rewrite Him. destruct (lfs_imap.get (imap s) id) as [b|] eqn:Eg; [|done].
    rewrite (mv_view _ _ _ _ M); [done|]. left. by exists id. }
  assert (forall x, live s' x -> P x) as Hlv.
  { intros x [[id Hg]|(id & i & Hi & Hx)]; apply HP; [left; exists id; congruence|right; exists id, i; by rewrite <- Hin]. }
  split; [split|split; [done|]].
  - destruct (busy_headed _ _ _ Hb) as (w & Hl & Hw). exists w. split; [|done]. eapply log_ok_weaken, Hl. exact Hlv.
  - apply Hb.
  - unfold reserve. destruct (mv_segs _ _ _ _ M) as [-> ->]. rewrite (mv_room _ _ _ _ M). pose proof (fk_room _ _ _ Hk). unfold reserve in *. lia.
  - intros id b. rewrite Him, Hin. apply (fk_inode _ _ _ Hk).
  - intros id. split; [apply Hin|]. apply abs_ext; [apply Hin|]. intros i j Hi Hj. eapply moved_byte; [exact M| |done]. by eapply fits_pointers.
Qed.

(** Dropping an inode from the map. *)
Lemma remove_ok K s id :
  fs_ok H K s -> busy H (live s) s -> lfs_imap.sorted (imap s) ->
  exists s', with_imap (lfs_imap.remove (imap s) id) s = Ret (Ok (), s') /\ fs_ok H K s' /\ busy H (live s') s' /\ abs s' id = None /\
  froom s' = froom s /\ reserve s' = reserve s /\ forall id', id' <> id -> abs s' id' = abs s id'.
Proof.
  intros Hk [(w & Hw & Hl) Hs] Hso. eexists. split; [reflexivity|]. set (s' := mk_lfs _ _ _ _ _ _ _ _).
  assert (forall id', lfs_imap.get (imap s') id' = if decide (id' = id) then None else lfs_imap.get (imap s) id') as Hget.
  { intros id'. by apply lfs_imap.get_remove. }
  assert (inode_at s' id = None) as Hno by (unfold inode_at; by rewrite Hget, decide_True).
  assert (forall id', id' <> id -> inode_at s' id' = inode_at s id') as Hin.
  { intros id' Hne. unfold inode_at. rewrite Hget, decide_False by done. reflexivity. }
  assert (forall x, live s' x -> live s x) as Hlv.
  { intros x [[id' Hg]|(id' & i & Hi & Hx)]; (destruct (decide (id' = id)) as [->|Hne]).
    - by rewrite Hget, decide_True in Hg.
    - rewrite Hget, decide_False in Hg by done. left. by exists id'.
    - congruence.
    - right. exists id', i. by rewrite <- Hin. }
  assert (busy H (live s') s') as Hb.
  { split; [|done]. exists w. split; [done|]. destruct (log_ok_weaken H _ _ _ _ Hlv Hl). by split. }
  split; [|split; [done|split; [by apply abs_None|split; [done|split; [done|]]]]].
  - split; [by apply busy_headed|done|apply (fk_room _ _ _ Hk)|]. intros id' b Hg. destruct (decide (id' = id)) as [->|Hne].
    + by rewrite Hget, decide_True in Hg.
    + rewrite Hin by done. rewrite Hget, decide_False in Hg by done. by apply (fk_inode _ _ _ Hk) in Hg.
  - intros id' Hne. apply abs_ext; [by apply Hin|]. intros i j _ _. unfold fbyte. reflexivity.
Qed.

Definition remaining (es : list DiskDirEntry) (n : list Z) : list DiskDirEntry := filter (fun e => name e <> n) es.

(** The directory without the entry, before it is stored. *)
Lemma shrink_dir_ok K s dir i es n :
  fs_ok H K s -> busy H (live s) s -> 1 <= K -> inode_at s dir = Some i -> inode_type i = INODE_TYPE_DIR -> Forall entry_ok es ->
  (length (records es) <= Z.to_nat BLOCK_SIZE)%nat ->
  exists i' s' P k, (if bool_decide (remaining es n = []) then mret (set_size (set_direct i 0 0) 0) else
      dir_block ← write_dir_block (remaining es n);
      mret (set_size (set_direct i 0 dir_block) (total_len (remaining es n)))) s = Ret (Ok i', s') /\
  busy H P s' /\ (forall x, live s x -> P x) /\ moved (live s) k s s' /\ 0 <= k <= 1 /\ imap s' = imap s /\
  pointers_in P (direct i') /\ inode_fits i' /\ listing (as_file s' i') (remaining es n).
Proof using Hdep.
  intros Hk Hb HK Hi Ht Hes Hl. pose proof (reserve_pos _ _ _ (fk_head _ _ _ Hk)) as Hpos. pose proof (fk_room _ _ _ Hk) as Hroom.
  pose proof (fits_pointers _ _ _ _ _ Hk Hi) as Hp. destruct (fk_get _ _ _ _ _ Hk Hi) as [Hio _].
  assert (Forall entry_ok (remaining es n)) as Hes'.
  { rewrite Forall_forall in Hes |- *. intros e [_ He]%list_elem_of_filter. by apply Hes. }
  assert (length (records (remaining es n)) <= length (records es))%nat as Hle.
  { unfold remaining. clear -Hes. induction Hes as [|e es He Hes IH]; [done|]. rewrite filter_cons. pose proof (length_records e es He). pose proof (length_record e He).
    destruct (decide (name e <> n)); [|lia]. pose proof (length_records e (filter (fun e => name e <> n) es) He). lia. }
  assert (forall b z, is_u64 b -> 0 <= z <= BLOCK_SIZE -> inode_fits (set_size (set_direct i 0 b) z)) as Hfit.
  { intros b z Hu Hz. assert (BLOCK_SIZE <= LFS_MAX_FILE_SIZE /\ BLOCK_SIZE < 2 ^ 64) as [? ?] by done. split; [|cbn [size set_size]; lia].
    destruct Hio as [T L S X Y]. destruct (pointers_insert _ _ 0%nat b Hp Hu) as [Q1 Q2 _].
    split; cbn [inode_type link_count size direct indirect set_size set_direct]; try done. unfold is_u64. lia. }
  case_bool_decide as Hnil.
  - exists (set_size (set_direct i 0 0) 0), s, (live s), 0. split; [reflexivity|]. split_and!; try done; [split; try done; lia| | |].
    + destruct (pointers_insert (live s) (direct i) 0%nat 0 Hp) as [Q1 Q2 Q3]; [unfold is_u64; lia|]. split; [done|done|].
      intros p Hin Hz. destruct (Q3 p Hin Hz) as [| ->]; done.
    + apply Hfit; [unfold is_u64; lia|unfold BLOCK_SIZE; lia].
    + split; [done|left]. by rewrite Hnil.
  - rewrite fsm_bind_run. unfold write_dir_block. rewrite fsm_bind_run. unfold pure.
    destruct (dir_block_roundtrip (remaining es n) Hes') as (buf & Eb & Lb & Pb); [lia|]. rewrite Eb.
    destruct (log_op_block H Hdep (live s) s buf map_write_data_block_err Hb) as (b & s1 & E1 & B1 & M1 & I1 & _ & _ & V1 & U1 & Z1); [lia|done|].
    rewrite E1. exists (set_size (set_direct i 0 b) (total_len (remaining es n))), s1, (fun x => live s x \/ x = b), 1.
    assert (0 < total_len (remaining es n) <= BLOCK_SIZE) as Htl.
    { rewrite total_len_records by done. pose proof (records_few _ Hes') as Hrf. destruct (remaining es n); [done|]. cbn [length] in Hrf.
      unfold BLOCK_SIZE in *. lia. }
    split; [reflexivity|]. split_and!; try done; [by left|by apply pointers_insert|apply Hfit; [done|lia]|].
    by apply (dir_with_block (live s) s1 s1 i b _ buf).
Qed.
Lemma find_name_removed es n : find_name n (remaining es n) = None.
Proof.
  unfold find_name. destruct (list_find _ _) as [[j x]|] eqn:Ef; [|done]. apply list_find_Some in Ef as (Hj & Hx & _).
  apply list_elem_of_lookup_2 in Hj. by apply list_elem_of_filter in Hj as [? _].
Qed.

Lemma find_name_kept es n n' : n' <> n -> find_name n' (remaining es n) = find_name n' es.
Proof.
  intros Hne. unfold find_name, remaining. induction es as [|e es IH]; [done|]. rewrite filter_cons. cbn [list_find].
  destruct (decide (name e = n')) as [He|He].
  - rewrite decide_True by congruence. cbn [list_find]. by rewrite decide_True.
  - destruct (decide (name e <> n)); cbn [list_find]; rewrite ?(decide_False _ _ He), ?decide_False by done;
      rewrite ?option_fmap_compose in *; [|by rewrite IH; destruct (list_find _ es) as [[? ?]|]].
    destruct (list_find (fun e => name e = n') (filter _ es)) as [[? ?]|], (list_find (fun e => name e = n') es) as [[? ?]|]; cbn in *; congruence.
Qed.

(** The part of [unlink] after the entry has been found. *)
Lemma unlink_body_ok k s dir i es n id j :
  fs_ok H (2 + k) s -> 0 <= k -> lfs_imap.sorted (imap s) -> inode_at s dir = Some i -> inode_type i = INODE_TYPE_DIR -> Forall entry_ok es ->
  (length (records es) <= Z.to_nat BLOCK_SIZE)%nat -> id <> dir -> inode_at s id = Some j -> link_count j <= 1 ->
  (inode_type j = INODE_TYPE_DIR -> size j = 0) ->
  exists s', (_ ← ensure_writer;
    target ← load_inode id;
    if (inode_type target =? INODE_TYPE_DIR) && negb (size target =? 0) then fail fd.NotEmpty else
    let links := Z.max 0 (link_count target - 1) in
    parent ← (if bool_decide (remaining es n = []) then mret (set_size (set_direct i 0 0) 0) else
              dir_block ← write_dir_block (remaining es n);
              mret (set_size (set_direct i 0 dir_block) (total_len (remaining es n))));
    _ ← log_op (lfs_writer.write_inode dir parent) map_write_data_block_err;
    _ ← (if links =? 0 then s ← get_fs; with_imap (lfs_imap.remove (imap s) id) else
         let target := mk_inode (inode_type target) links (size target) (direct target) (indirect target) in
         _ ← log_op (lfs_writer.write_inode id target) map_write_data_block_err; mret ());
    maybe_compact) s = Ret (Ok (), s') /\ fs_ok H k s' /\
  (exists g, abs s' dir = Some g /\ listing g (remaining es n)) /\ abs s' id = None /\
  forall id', id' <> dir -> id' <> id -> abs s' id' = abs s id'.
Proof using Hdep.
  intros Hk H0 Hso Hi Ht Hes Hl Hne Hj Hlk Hdir. pose proof (reserve_pos _ _ _ (fk_head _ _ _ Hk)) as Hpos. pose proof (fk_room _ _ _ Hk) as Hroom.
  rewrite fsm_bind_run. destruct (ensure_writer_ok H (live s) s (fk_head _ _ _ Hk) (fk_super _ _ _ Hk)) as (s1 & E1 & B1 & M1 & I1 & _); [lia|].
  rewrite E1, fsm_bind_run. destruct (moved_fs_ok (live s) (2 + k) 0 s s1 Hk B1 ltac:(auto) M1 I1) as (K1 & L1 & A1).
  destruct (load_inode_ok H Hdep _ s1 id j K1) as (s2 & E2 & Q2); [by rewrite (proj1 (A1 id))|]. rewrite E2.
  assert ((inode_type j =? INODE_TYPE_DIR) && negb (size j =? 0) = false) as ->.
  { destruct (Z.eqb_spec (inode_type j) INODE_TYPE_DIR) as [E|]; [|done]. by rewrite (Hdir E). }
  cbv zeta. assert (Z.max 0 (link_count j - 1) = 0) as -> by lia. change (0 =? 0) with true. cbv iota.
  pose proof (quiet_ok H _ _ _ Q2 K1) as K2.
  assert (busy H (live s2) s2) as B2.
  { eapply busy_weaken, quiet_busy, B1; [|exact Q2]. intros x Hx. by apply L1, (quiet_live H _ _ _ Q2). }
  assert (forall id, inode_at s2 id = inode_at s id /\ abs s2 id = abs s id) as A2.
  { intros id'. rewrite (quiet_inode H _ _ _ Q2), (quiet_abs H _ _ _ Q2). apply A1. }
  rewrite fsm_bind_run. destruct (shrink_dir_ok (2 + k - 0) s2 dir i es n K2 B2) as (i' & s3 & P3 & k3 & E3 & B3 & L3 & M3 & Hk3 & I3 & Hp3 & Hf3 & Ls3);
    [lia|by rewrite (proj1 (A2 dir))|done|done|done|]. rewrite E3, fsm_bind_run.
  destruct (commit_ok H Hdep (2 + k - 0) s2 s3 P3 k3 dir i' map_write_data_block_err K2 B3 L3 M3 I3) as (b & s4 & E4 & K4 & _ & (B4 & I4) & _ & F4 & O4);
    [lia|lia|done|done|]. rewrite E4, fsm_bind_run. unfold get_fs. rewrite fsm_bind_run.
  assert (lfs_imap.sorted (imap s4)) as So4.
  { rewrite I4, I3, (qt_imap _ _ _ Q2), I1. apply lfs_imap.sorted_insert; [|done].
    destruct (Z_lt_le_dec (-1) dir) as [|Hd]; [done|]. unfold inode_at in Hi. by rewrite (lfs_imap.get_below (imap s) (-1) dir Hso Hd) in Hi. }
  destruct (remove_ok _ s4 id K4 B4 So4) as (s5 & E5 & K5 & B5 & A5 & R5 & V5 & O5). rewrite E5.
  rewrite (no_compaction H _ _ B5) by (pose proof (fk_room _ _ _ K5); lia).
  exists s5. split; [reflexivity|]. split; [eapply fs_ok_le, K5; lia|]. split; [|split; [exact A5|]].
  - exists (as_file s3 i'). split; [|exact Ls3]. rewrite (O5 dir (not_eq_sym Hne)). exact F4.
  - intros id' Hd Hid. rewrite (O5 id' Hid), (proj2 (O4 id' Hd)). apply A2.
Qed.
Lemma unlink_ok k s dir g es n e f :
  fs_ok H (2 + k) s -> 0 <= k -> lfs_imap.sorted (imap s) -> abs s dir = Some g -> listing g es -> Forall entry_ok es ->
  (length (records es) <= Z.to_nat BLOCK_SIZE)%nat -> find_name n es = Some e -> inode_id e <> dir ->
  abs s (inode_id e) = Some f -> a_links f <= 1 -> (a_type f = INODE_TYPE_DIR -> a_size f = 0) ->
  exists s', unlink dir n s = Ret (Ok (), s') /\ fs_ok H k s' /\
  (exists g', abs s' dir = Some g' /\ listing g' (remaining es n)) /\ abs s' (inode_id e) = None /\
  forall id, id <> dir -> id <> inode_id e -> abs s' id = abs s id.
Proof using Hdep.
  intros Hk H0 Hso Ha Hls Hes Hl He Hne Hf Hlk Hd. destruct (inode_at s dir) as [i|] eqn:Ei; [|by rewrite (abs_None _ _ Ei) in Ha].
  rewrite (abs_Some _ _ _ Ei) in Ha. injection Ha as <-. pose proof (proj1 Hls) as Ht. cbn [a_type as_file] in Ht.
  destruct (inode_at s (inode_id e)) as [j|] eqn:Ej; [|by rewrite (abs_None _ _ Ej) in Hf].
  rewrite (abs_Some _ _ _ Ej) in Hf. injection Hf as <-. cbn [a_links a_type a_size as_file] in Hlk, Hd. unfold unlink. rewrite fsm_bind_run.
  destruct (load_inode_ok H Hdep _ _ _ _ Hk Ei) as (s1 & E1 & Q1). rewrite E1, (proj2 (Z.eqb_eq _ _)) by done. cbn [negb].
  pose proof (quiet_ok H _ _ _ Q1 Hk) as K1. pose proof Ei as Ei1. rewrite <- (quiet_inode H _ _ _ Q1) in Ei1. rewrite fsm_bind_run.
  destruct (read_dir_ok (2 + k) s1 dir i es K1 Ei1) as (s2 & E2 & Q2).
  { rewrite (as_file_ext s s1 i); [exact Hls|]. intros x _. by apply (quiet_byte H). }
  rewrite E2, fsm_bind_run. unfold pure at 1. rewrite He. cbn [ok_or fmap option_fmap option_map].
  pose proof (quiet_after H _ _ _ Q1 Q2) as Q. pose proof (quiet_ok H _ _ _ Q Hk) as K2.
  destruct (unlink_body_ok k s2 dir i es n (inode_id e) j K2 H0) as (s3 & E3 & K3 & G3 & A3 & O3); try done.
  { by rewrite (qt_imap _ _ _ Q). } { by rewrite (quiet_inode H _ _ _ Q). } { by rewrite (quiet_inode H _ _ _ Q). }
  exists s3. split; [exact E3|]. split; [done|]. split; [exact G3|]. split; [exact A3|].
  intros id' Hd' Hid. rewrite (O3 id' Hd' Hid). apply (quiet_abs H _ _ _ Q).
Qed.

(** C14: An unlinked file is gone. On a device that answers, with room in the log for
    two blocks above what the cleaner keeps free and with the records of the
    directory in one block, removing the last link to a file (or to an empty
    directory) succeeds: looking its name up then reports that there is no such
    file, every other name leads where it led before, the file no longer exists,
    and every file but the directory is as it was. *)
Theorem unlinked_file_is_gone k s dir g es n e f :
  fs_ok H (2 + k) s -> 0 <= k -> lfs_imap.sorted (imap s) -> abs s dir = Some g -> listing g es -> Forall entry_ok es ->
  (length (records es) <= Z.to_nat BLOCK_SIZE)%nat -> find_name n es = Some e -> inode_id e <> dir ->
  abs s (inode_id e) = Some f -> a_links f <= 1 -> (a_type f = INODE_TYPE_DIR -> a_size f = 0) ->
  exists s', unlink dir n s = Ret (Ok (), s') /\ fs_ok H k s' /\
  (exists s1, lookup dir n s' = Ret (Err fd.NotFound, s1)) /\
  (forall n', n' <> n -> exists s1 s2 r, lookup dir n' s = Ret (r, s1) /\ lookup dir n' s' = Ret (r, s2)) /\
  abs s' (inode_id e) = None /\ forall id, id <> dir -> id <> inode_id e -> abs s' id = abs s id.
Proof using Hdep.
  intros Hk H0 Hso Ha Hls Hes Hl He Hne Hf Hlk Hd.
  destruct (unlink_ok k s dir g es n e f Hk H0 Hso Ha Hls Hes Hl He Hne Hf Hlk Hd) as (s' & E & K & (g' & A' & L') & A & O).
  exists s'. split; [exact E|]. split; [done|]. split; [|split; [|split; [exact A|exact O]]].
  - destruct (lookup_ok k s' dir g' _ n K A' L') as (s1 & E1 & _). exists s1. rewrite E1, find_name_removed. reflexivity.
  - intros n' Hn. destruct (lookup_ok _ s dir g es n' Hk Ha Hls) as (s1 & E1 & _). destruct (lookup_ok k s' dir g' _ n' K A' L') as (s2 & E2 & _).
    exists s1, s2, (ok_or (inode_id <$> find_name n' es) fd.NotFound). split; [exact E1|]. rewrite E2, find_name_kept by done. reflexivity.
Qed.
End dirs.
(** ** An example: the first file of the root directory *)

Lemma demo_root_at : inode_at demo_fs 0 = Some demo_root.
Proof. by destruct (demo_inode 0 257 eq_refl) as [[_ Hi]|[? _]]. Qed.

Lemma created_file_is_found_witness :
  exists s', create 0 [97] RegularFile demo_fs = Ret (Ok 2, s') /\ fs_ok sound_card 88 s' /\
  (exists s1, lookup 0 [97] s' = Ret (Ok 2, s1)) /\
  (forall n', n' <> [97] -> exists s1 s2 r, lookup 0 n' demo_fs = Ret (r, s1) /\ lookup 0 n' s' = Ret (r, s2)) /\
  abs s' 2 = Some (empty_file RegularFile) /\ forall id, id <> 0 -> id <> 2 -> abs s' id = abs demo_fs id.
Proof.
  refine (created_file_is_found sound_card sound_card_dependable 88 demo_fs 0 (as_file demo_fs demo_root) [] [97] RegularFile array_demo_ok _ _ _ _ _).
  - lia.
  - exact (abs_Some _ _ _ demo_root_at).
  - split; [reflexivity|left; split; reflexivity].
  - apply Forall_nil_2.
  - split; [cbn; lia|vm_compute; reflexivity|apply Forall_nil_2| |cbn; lia|reflexivity].
    apply Nat.leb_le. vm_compute. reflexivity.
Defined.
Lemma demo_create_sorted :
  match create 0 [97] RegularFile demo_fs with Ret (_, s) => lfs_imap.sorted (imap s) | Panic => False end.
Proof. vm_compute. tauto. Qed.

(** The file of the example above, created in [demo_fs], can be found and removed. *)
Lemma demo_created :
  exists s g, create 0 [97] RegularFile demo_fs = Ret (Ok 2, s) /\ fs_ok sound_card (2 + 86) s /\ lfs_imap.sorted (imap s) /\
  abs s 0 = Some g /\ listing g [new_entry 2 [97]] /\ abs s 2 = Some (empty_file RegularFile).
Proof.
  destruct (create_ok sound_card sound_card_dependable 88 demo_fs 0 (as_file demo_fs demo_root) [] [97] RegularFile array_demo_ok)
    as (s & E & K & (g & A & L) & A2 & _).
  - lia.
  - exact (abs_Some _ _ _ demo_root_at).
  - split; [reflexivity|left; split; reflexivity].
  - apply Forall_nil_2.
  - split; [cbn; lia|vm_compute; reflexivity|apply Forall_nil_2| |cbn; lia|reflexivity].
    apply Nat.leb_le. vm_compute. reflexivity.
  - exists s, g. split; [exact E|]. split; [exact K|]. split; [|split; [exact A|split; [exact L|exact A2]]].
    pose proof demo_create_sorted as Hs. rewrite E in Hs. exact Hs.
Qed.

Lemma unlinked_file_is_gone_witness :
  exists s s', create 0 [97] RegularFile demo_fs = Ret (Ok 2, s) /\ unlink 0 [97] s = Ret (Ok (), s') /\ fs_ok sound_card 86 s' /\
  (exists s1, lookup 0 [97] s' = Ret (Err fd.NotFound, s1)) /\ abs s' 2 = None.
Proof.
  destruct demo_created as (s & g & E & K & So & A & L & A2).
  assert (entry_ok (new_entry 2 [97])) as He by (split; cbn [new_entry inode_id name length]; [lia|lia|vm_compute; reflexivity|reflexivity|reflexivity]).
  destruct (unlinked_file_is_gone sound_card sound_card_dependable 86 s 0 g [new_entry 2 [97]] [97] (new_entry 2 [97]) (empty_file RegularFile)
    K ltac:(lia) So A L (Forall_cons_2 _ _ _ He (Forall_nil_2 _))) as (s' & Eu & Ku & Lu & _ & Au & _).
  - apply Nat.leb_le. vm_compute. reflexivity.
  - reflexivity.
  - cbn. lia.
  - exact A2.
  - cbn. lia.
  - reflexivity.
  - exists s, s'. split; [exact E|]. split; [exact Eu|]. split; [exact Ku|]. split; [exact Lu|exact Au].
Defined.
End lfs_dir.
