(* ===== verification/Kelyphos.v ===== *)
(** * The connectivity transport

    The serial protocol to the radio chip ([src/crates/kelyphos/src]): the tunable
    limits (Module [config], [config.rs]), frames and
    their check sequence (Module [stp], [stp.rs]), the receiver's byte machine and
    the window of unacknowledged frames (Module [transport], [transport.rs]).
    The theorems: the receiver refines a framing over byte strings, frames get
    through noise, and short bursts of errors are detected. *)

From S2P Require Import Prelude Machine.
From stdpp Require Import base list.
From Stdlib Require Import ZArith Lia.
Open Scope Z_scope.

Module config.

Definition DEFAULT_TX_TIMEOUT_MS : Z := 180.
Definition MIN_TX_TIMEOUT_MS : Z := 10.
Definition MAX_TX_TIMEOUT_MS : Z := 10000.
Definition DEFAULT_RETRY_LIMIT : Z := 10.
Definition MIN_RETRY_LIMIT : Z := 1.
Definition MAX_RETRY_LIMIT : Z := 64.
Definition DEFAULT_POLL_TIMEOUT_ITERS : Z := 1000.
Definition MIN_POLL_TIMEOUT_ITERS : Z := 100.
Definition MAX_POLL_TIMEOUT_ITERS : Z := 1000000.

Record Config := mk_config { tx_timeout_ms : Z; retry_limit : Z; poll_timeout_iters : Z }.

Definition default_config : Config := mk_config DEFAULT_TX_TIMEOUT_MS DEFAULT_RETRY_LIMIT DEFAULT_POLL_TIMEOUT_ITERS.

Definition bounded_u32 (v default min max : Z) : Z := if (min <=? v) && (v <=? max) then v else default.

Definition tx_timeout (c : Config) : Z := bounded_u32 (tx_timeout_ms c) DEFAULT_TX_TIMEOUT_MS MIN_TX_TIMEOUT_MS MAX_TX_TIMEOUT_MS.
Definition retry_budget (c : Config) : Z := bounded_u32 (retry_limit c) DEFAULT_RETRY_LIMIT MIN_RETRY_LIMIT MAX_RETRY_LIMIT.
Definition poll_budget (c : Config) : Z :=
  bounded_u32 (poll_timeout_iters c) DEFAULT_POLL_TIMEOUT_ITERS MIN_POLL_TIMEOUT_ITERS MAX_POLL_TIMEOUT_ITERS.

Lemma bounded_range v d lo hi : lo <= d <= hi -> lo <= bounded_u32 v d lo hi <= hi.
Proof. intros H. unfold bounded_u32. destruct (Z.leb_spec lo v), (Z.leb_spec v hi); cbn [andb]; lia. Qed.
End config.

Module stp.

Definition SOF : Z := 0x80.
Definition MAX_PAYLOAD : Z := 4095.

Inductive FrameType := Data | Mgmt | Ack | FwDownload | Unknown.

Definition frame_type_of_u8 (v : Z) : FrameType :=
  match Z.land v 0x0F with 0 => Data | 1 => Mgmt | 2 => Ack | 3 => FwDownload | _ => Unknown end.

Definition u8_of_frame_type (t : FrameType) : Z :=
  match t with Data => 0 | Mgmt => 1 | Ack => 2 | FwDownload => 3 | Unknown => 0xF end.

Record StpHeader := mk_header { frame_type : FrameType; ack : bool; seq : Z; length_ : Z; checksum : Z }.
Record StpFrame := mk_frame { header : StpHeader; payload : list Z; payload_len : Z; crc : Z }.

(** The first three bytes of the header: type, flag, number and length. *)
Definition header_bytes (h : StpHeader) : list Z :=
  [Z.lor (Z.lor (wrap8 (Z.shiftl (u8_of_frame_type (frame_type h)) 4)) (if ack h then 0x08 else 0)) (Z.shiftr (Z.land (seq h) 0x07) 1);
   Z.lor (wrap8 (Z.shiftl (Z.land (seq h) 0x01) 7)) (Z.land (wrap8 (Z.shiftr (length_ h) 5)) 0x7F);
   wrap8 (Z.shiftl (Z.land (length_ h) 0x1F) 3)].

Definition compute_header_checksum (h : StpHeader) : Z :=
  match header_bytes h with [h0; h1; h2] => Z.lxor (Z.lxor h0 h1) h2 | _ => 0 end.

(** [u16::rotate_right(8)]. *)
Definition rotate8 (c : Z) : Z := Z.lor (Z.shiftr c 8) (Z.shiftl (Z.land c 0xFF) 8).
Definition wrap16 (z : Z) : Z := z mod 2 ^ 16.

Definition crc16_ccitt_byte (c byte : Z) : Z :=
  let c := rotate8 c in
  let c := Z.lxor c byte in
  let c := Z.lxor c (Z.shiftr (Z.land c 0xFF) 4) in
  let c := Z.lxor c (wrap16 (Z.shiftl c 12)) in
  Z.lxor c (wrap16 (Z.shiftl (Z.land c 0xFF) 5)).

Definition compute_crc_over (hdr pay : list Z) : Z :=
  foldl crc16_ccitt_byte (foldl crc16_ccitt_byte 0xFFFF hdr) pay.

(** [&v[lo..hi]]. *)
Definition slice (v : list Z) (lo hi : Z) : outcome (list Z) :=
  if (0 <=? lo) && (lo <=? hi) && (hi <=? Z.of_nat (length v)) then Ret (take (Z.to_nat (hi - lo)) (drop (Z.to_nat lo) v)) else Panic.

Definition compute_crc (f : StpFrame) : outcome Z :=
  pay ← slice (payload f) 0 (payload_len f);
  Ret (compute_crc_over (header_bytes (header f)) pay).

(** The end of [data] and [ack]: both check values are computed. *)
Definition sealed (t : FrameType) (a : bool) (s len : Z) (pay : list Z) : outcome StpFrame :=
  let h := mk_header t a s len 0 in
  let h := mk_header t a s len (compute_header_checksum h) in
  c ← compute_crc (mk_frame h pay len 0);
  Ret (mk_frame h pay len c).

Definition data (s : Z) (bytes : list Z) : outcome StpFrame :=
  let len := Z.min (Z.of_nat (length bytes)) MAX_PAYLOAD in
  sealed Data false (Z.land s 0x07) len (take (Z.to_nat len) bytes ++ replicate (Z.to_nat (MAX_PAYLOAD - len)) 0).

Definition ack_frame (s : Z) : outcome StpFrame :=
  sealed Ack true (Z.land s 0x07) 0 (replicate (Z.to_nat MAX_PAYLOAD) 0).

(** Writing the frame to the front of [buf]. *)
Definition encode (f : StpFrame) (buf : list Z) : outcome (Z * list Z) :=
  let total := 1 + 4 + payload_len f + 2 in
  if Z.of_nat (length buf) <? total then Ret (0, buf) else
  pay ← slice (payload f) 0 (payload_len f);
  let out := SOF :: header_bytes (header f) ++ [checksum (header f)] ++ pay ++ [Z.shiftr (crc f) 8; Z.land (crc f) 0xFF] in
  Ret (total, out ++ drop (length out) buf).
End stp.

Module transport.
Import stp.

Definition WINDOW_SIZE : Z := 7.
Definition TX_FRAME_MAX_ENCODED : Z := 1 + 4 + MAX_PAYLOAD + 2.
Definition STP_SOF : Z := 0x80.

Inductive TransportError := WindowFull | RetryLimitExceeded (s limit : Z) | StaleAck (s : Z).

Record TxEntry := mk_entry { tx_data : list Z; len : Z; seq : Z; retries : Z }.

Definition from_frame (f : StpFrame) : outcome TxEntry :=
  '(n, d) ← encode f (replicate (Z.to_nat TX_FRAME_MAX_ENCODED) 0);
  Ret (mk_entry d n (stp.seq (header f)) 0).

Definition as_bytes (e : TxEntry) : outcome (list Z) := slice (tx_data e) 0 (len e).

(** ** The receiver *)

Inductive RxState := WaitSof | Header (collected : Z) | Payload (remaining : Z) | Crc (collected : Z).

Record RxParser := mk_parser { state : RxState; buf : list Z; pos : Z; payload_len : Z; crc_errors : Z }.

Definition new_parser : RxParser := mk_parser WaitSof (replicate (Z.to_nat TX_FRAME_MAX_ENCODED) 0) 0 0 0.

(** [buf[i]] for a computed index, which may not be negative. *)
Definition byte_at (v : list Z) (i : Z) : outcome Z := if i <? 0 then Panic else index v (Z.to_nat i).

Definition idle (p : RxParser) : RxParser := mk_parser WaitSof (buf p) 0 (payload_len p) (crc_errors p).

Definition push_byte (p : RxParser) (byte : Z) : outcome (bool * RxParser) :=
  match state p with
  | WaitSof =>
      if byte =? STP_SOF then
        b ← store (buf p) 0 byte;
        Ret (false, mk_parser (Header 0) b 1 (payload_len p) (crc_errors p))
      else Ret (false, p)
  | Header collected =>
      if TX_FRAME_MAX_ENCODED <=? pos p then Ret (false, idle p) else
      b ← store (buf p) (Z.to_nat (pos p)) byte;
      let pos := pos p + 1 in
      let collected := collected + 1 in
      if collected =? 4 then
        let h1 := default 0 (b !! 2%nat) in
        let h2 := default 0 (b !! 3%nat) in
        let n := Z.lor (Z.shiftl (Z.land h1 0x7F) 5) (Z.shiftr h2 3) in
        Ret (false, mk_parser (if n =? 0 then Crc 0 else Payload n) b pos n (crc_errors p))
      else Ret (false, mk_parser (Header collected) b pos (payload_len p) (crc_errors p))
  | Payload remaining =>
      if TX_FRAME_MAX_ENCODED <=? pos p then Ret (false, idle p) else
      b ← store (buf p) (Z.to_nat (pos p)) byte;
      Ret (false, mk_parser (if remaining =? 1 then Crc 0 else Payload (remaining - 1)) b (pos p + 1) (payload_len p) (crc_errors p))
  | Crc collected =>
      '(b, pos) ← (if pos p <? TX_FRAME_MAX_ENCODED then
                     b ← store (buf p) (Z.to_nat (pos p)) byte; Ret (b, pos p + 1)
                   else Ret (buf p, pos p));
      if collected =? 1 then
        hi ← byte_at b (pos - 2);
        lo ← byte_at b (pos - 1);
        hdr ← slice b 1 4;
        pay ← slice b 5 (pos - 2);
        if Z.lor (Z.shiftl hi 8) lo =? compute_crc_over hdr pay
        then Ret (true, mk_parser WaitSof b pos (payload_len p) (crc_errors p))
        else Ret (false, mk_parser WaitSof b pos (payload_len p) (wrap32 (crc_errors p + 1)))
      else Ret (false, mk_parser (Crc 1) b pos (payload_len p) (crc_errors p))
  end.

Definition take_raw (p : RxParser) : outcome (list Z) := slice (buf p) 0 (pos p).

(** ** The transport *)

Record StpTransport := mk_transport { tx_window : list (option TxEntry); tx_seq : Z; rx_parser : RxParser; retry_limit : Z; tx_timeout_ms : Z }.

Definition new_with_config (c : config.Config) : StpTransport :=
  mk_transport (replicate (Z.to_nat WINDOW_SIZE) None) 0 new_parser (config.retry_budget c) (config.tx_timeout c).

Definition receive_byte (t : StpTransport) (byte : Z) : outcome (option (list Z) * StpTransport) :=
  '(full, p) ← push_byte (rx_parser t) byte;
  let t := mk_transport (tx_window t) (tx_seq t) p (retry_limit t) (tx_timeout_ms t) in
  if full : bool then raw ← take_raw p; Ret (Some raw, t) else Ret (None, t).

Definition set_window (t : StpTransport) (w : list (option TxEntry)) : StpTransport :=
  mk_transport w (tx_seq t) (rx_parser t) (retry_limit t) (tx_timeout_ms t).

Definition slot_free (s : option TxEntry) : bool := match s with None => true | Some _ => false end.
Definition slot_holds (n : Z) (s : option TxEntry) : bool := match s with None => false | Some e => seq e =? n end.

(** The first slot that holds a frame with the given number. *)
Definition position (n : Z) (w : list (option TxEntry)) : option (nat * option TxEntry) := list_find (fun s => slot_holds n s = true) w.

Definition enqueue (t : StpTransport) (f : StpFrame) : outcome (result Z TransportError * StpTransport) :=
  match list_find (fun s => slot_free s = true) (tx_window t) with
  | Some (idx, _) =>
      e ← from_frame f;
      let t := set_window t (<[idx := Some e]> (tx_window t)) in
      Ret (Ok (Z.of_nat idx), mk_transport (tx_window t) (Z.land (tx_seq t + 1) 0x07) (rx_parser t) (retry_limit t) (tx_timeout_ms t))
  | None => Ret (Err WindowFull, t)
  end.

Definition acknowledge (t : StpTransport) (n : Z) : result () TransportError * StpTransport :=
  match position n (tx_window t) with
  | Some (idx, _) => (Ok (), set_window t (<[idx := None]> (tx_window t)))
  | None => (Err (StaleAck n), t)
  end.

Definition retransmit (t : StpTransport) (n : Z) : outcome (result (list Z) TransportError * StpTransport) :=
  match position n (tx_window t) with
  | Some (idx, Some e) =>
      if retry_limit t <=? retries e then Ret (Err (RetryLimitExceeded n (retry_limit t)), set_window t (<[idx := None]> (tx_window t))) else
      let e := mk_entry (tx_data e) (len e) (seq e) (wrap8 (retries e + 1)) in
      raw ← as_bytes e;
      Ret (Ok raw, set_window t (<[idx := Some e]> (tx_window t)))
  | _ => Ret (Err (StaleAck n), t)
  end.

Definition in_flight (t : StpTransport) : nat := count_if (fun s => negb (slot_free s)) (tx_window t).
End transport.

Module kelyphos_crc.
Import stp.

(** ** Exhaustive checks over short words *)

Fixpoint all_words (k : nat) (base : Z) (P : Z -> bool) : bool :=
  match k with O => P base | S k => all_words k (2 * base) P && all_words k (2 * base + 1) P end.

Lemma all_words_from k : forall base P v,
  all_words k base P = true -> base * 2 ^ Z.of_nat k <= v < (base + 1) * 2 ^ Z.of_nat k -> P v = true.
Proof.
  induction k as [|k IH]; intros base P v H Hv; cbn [all_words] in H.
  - change (2 ^ Z.of_nat 0) with 1 in Hv. by replace v with base by lia.
  - apply andb_prop in H as [H0 H1]. rewrite Nat2Z.inj_succ, Z.pow_succ_r in Hv by lia.
    destruct (Z_lt_le_dec v ((2 * base + 1) * 2 ^ Z.of_nat k)); [eapply IH; [exact H0|lia]|eapply IH; [exact H1|lia]].
Qed.

Lemma all_words_spec k (P : Z -> bool) v : all_words k 0 P = true -> 0 <= v < 2 ^ Z.of_nat k -> P v = true.
Proof. intros H Hv. eapply all_words_from; [exact H|lia]. Qed.

(** ** The check sequence separates strings that differ in two adjacent bytes *)

Definition is_u16 (z : Z) : Prop := 0 <= z < 2 ^ 16.

(** The part of the update after the byte has been folded in. *)
Definition mix (c : Z) : Z :=
  let c := Z.lxor c (Z.shiftr (Z.land c 0xFF) 4) in
  let c := Z.lxor c (wrap16 (Z.shiftl c 12)) in
  Z.lxor c (wrap16 (Z.shiftl (Z.land c 0xFF) 5)).

Lemma crc_is_mix c b : crc16_ccitt_byte c b = mix (Z.lxor (rotate8 c) b).
Proof. reflexivity. Qed.

(** The update is linear. *)
Lemma land_lxor a b m : Z.land (Z.lxor a b) m = Z.lxor (Z.land a m) (Z.land b m).
Proof. apply Z.bits_inj'. intros n _. rewrite !Z.land_spec, !Z.lxor_spec, !Z.land_spec. by destruct (Z.testbit a n), (Z.testbit b n), (Z.testbit m n). Qed.

Lemma wrap16_lxor a b : wrap16 (Z.lxor a b) = Z.lxor (wrap16 a) (wrap16 b).
Proof. unfold wrap16. rewrite <- !Z.land_ones by lia. apply land_lxor. Qed.

Lemma lxor_swap a b x y : Z.lxor (Z.lxor a b) (Z.lxor x y) = Z.lxor (Z.lxor a x) (Z.lxor b y).
Proof. apply Z.bits_inj'. intros n _. rewrite !Z.lxor_spec. by destruct (Z.testbit a n), (Z.testbit b n), (Z.testbit x n), (Z.testbit y n). Qed.

Lemma mix_lxor a b : mix (Z.lxor a b) = Z.lxor (mix a) (mix b).
Proof.
  unfold mix. cbv zeta. rewrite (land_lxor a b), Z.shiftr_lxor, (lxor_swap a b).
  set (a' := Z.lxor a _). set (b' := Z.lxor b _). rewrite (Z.shiftl_lxor a' b'), wrap16_lxor, (lxor_swap a' b').
  set (a2 := Z.lxor a' _). set (b2 := Z.lxor b' _). by rewrite (land_lxor a2 b2), Z.shiftl_lxor, wrap16_lxor, (lxor_swap a2 b2).
Qed.

Lemma mix_table :
  all_words 8 0 (fun v => (mix (Z.shiftl v 8) =? Z.shiftl v 8) && (0 <=? mix v) && (mix v <? 2 ^ 16) && ((v =? 0) || negb (Z.land (mix v) 0xFF =? 0))) = true.
Proof. vm_compute. reflexivity. Qed.

Lemma lxor_below k a b : 0 < k -> 0 <= a < 2 ^ k -> 0 <= b < 2 ^ k -> 0 <= Z.lxor a b < 2 ^ k.
Proof.
  intros Hk Ha Hb. assert (0 <= Z.lxor a b) as H0 by (apply Z.lxor_nonneg; lia). split; [done|].
  destruct (Z.eq_dec (Z.lxor a b) 0) as [->|]; [lia|]. apply Z.log2_lt_pow2; [lia|]. pose proof (Z.log2_lxor a b ltac:(lia) ltac:(lia)).
  assert (forall x, 0 <= x < 2 ^ k -> Z.log2 x < k) as Hx.
  { intros x Hx. destruct (Z.eq_dec x 0) as [->|]; [done|]. apply Z.log2_lt_pow2; lia. }
  pose proof (Hx a Ha). pose proof (Hx b Hb). lia.
Qed.

Lemma lxor_u16 a b : is_u16 a -> is_u16 b -> is_u16 (Z.lxor a b).
Proof. by apply lxor_below. Qed.

(** A word is its high byte and its low byte. *)
Lemma u16_split c : is_u16 c -> c = Z.lxor (Z.shiftl (c / 256) 8) (Z.land c 0xFF) /\ is_u8 (c / 256) /\ is_u8 (Z.land c 0xFF).
Proof.
  unfold is_u16, is_u8. intros Hc. change 0xFF with (Z.ones 8). rewrite Z.land_ones by lia. split.
  - rewrite <- Z.add_nocarry_lxor.
    + rewrite Z.shiftl_mul_pow2 by lia. change (2 ^ 8) with 256. pose proof (Z.div_mod c 256 ltac:(lia)). lia.
    + apply Z.bits_inj'. intros n Hn. rewrite Z.bits_0, Z.land_spec, Z.shiftl_spec by done. destruct (Z.ltb_spec n 8).
      * by rewrite Z.testbit_neg_r by lia.
      * rewrite (Z.mod_pow2_bits_high c 8 n) by lia. apply andb_false_r.
  - pose proof (Z.div_lt_upper_bound c 256 256 ltac:(lia) ltac:(lia)). pose proof (Z.div_pos c 256 ltac:(lia) ltac:(lia)). pose proof (Z.mod_pos_bound c (2 ^ 8) ltac:(lia)). lia.
Qed.

Lemma rotate_arith c : is_u16 c -> rotate8 c = c / 256 + 256 * (c mod 256).
Proof.
  intros Hc. unfold rotate8. change 0xFF with (Z.ones 8). rewrite Z.land_ones, Z.lor_comm by lia. rewrite <- Z.add_nocarry_lor.
  - rewrite Z.shiftl_mul_pow2, Z.shiftr_div_pow2 by lia. change (2 ^ 8) with 256. lia.
  - apply Z.bits_inj'. intros n Hn. rewrite Z.bits_0, Z.land_spec, Z.shiftl_spec, Z.shiftr_spec by done. destruct (Z.ltb_spec n 8).
    + by rewrite Z.testbit_neg_r by lia.
    + rewrite (Z.bits_above_log2 c (n + 8)); [apply andb_false_r|unfold is_u16 in Hc; lia|].
      destruct (Z.eq_dec c 0) as [->|]; [cbn; lia|]. apply Z.log2_lt_pow2; [unfold is_u16 in Hc; lia|].
      eapply Z.lt_le_trans; [apply Hc|]. apply Z.pow_le_mono_r; lia.
Qed.

Lemma rotate_u16 c : is_u16 c -> is_u16 (rotate8 c) /\ rotate8 (rotate8 c) = c.
Proof.
  intros Hc. pose proof (rotate_arith c Hc) as Hr. unfold is_u16 in *.
  pose proof (Z.div_mod c 256). pose proof (Z.mod_pos_bound c 256). pose proof (Z.div_lt_upper_bound c 256 256). pose proof (Z.div_pos c 256).
  assert (0 <= rotate8 c < 2 ^ 16) as Hrr by lia. split; [done|]. rewrite (rotate_arith (rotate8 c) Hrr), Hr.
  rewrite (Z.mul_comm 256 (c mod 256)), Z.div_add, Z.mod_add, (Z.div_small (c / 256)), (Z.mod_small (c / 256)) by lia. lia.
Qed.

Lemma mix_low v : is_u8 v -> mix (Z.shiftl v 8) = Z.shiftl v 8 /\ is_u16 (mix v) /\ (Z.land (mix v) 0xFF = 0 -> v = 0).
Proof.
  intros Hv. pose proof (all_words_spec 8 _ v mix_table Hv) as Hr. cbn beta in Hr. apply andb_prop in Hr as [Hr H4]. apply andb_prop in Hr as [Hr H3].
  apply andb_prop in Hr as [H1 H2]. apply Z.eqb_eq in H1. apply Z.leb_le in H2. apply Z.ltb_lt in H3. split; [done|]. split; [by split|].
  intros H0. rewrite H0 in H4. apply orb_prop in H4 as [H4|H4]; [by apply Z.eqb_eq|done].
Qed.

Lemma shifted_low v : Z.land (Z.shiftl v 8) 0xFF = 0.
Proof.
  change 0xFF with (Z.ones 8). rewrite Z.land_ones, Z.shiftl_mul_pow2 by lia. apply Z.mod_mul. lia.
Qed.

(** The low byte of the update depends on the low byte only, and determines it. *)
Lemma mix_low_byte c : is_u16 c -> Z.land (mix c) 0xFF = Z.land (mix (Z.land c 0xFF)) 0xFF.
Proof.
  intros Hc. destruct (u16_split c Hc) as (E & Hh & Hl). rewrite E at 1. rewrite mix_lxor, land_lxor.
  rewrite (proj1 (mix_low _ Hh)), shifted_low. by rewrite Z.lxor_0_l.
Qed.

Lemma mix_u16 c : is_u16 c -> is_u16 (mix c).
Proof.
  intros Hc. destruct (u16_split c Hc) as (E & Hh & Hl). rewrite E, mix_lxor. apply lxor_u16; [|by apply mix_low].
  rewrite (proj1 (mix_low _ Hh)), Z.shiftl_mul_pow2 by lia. unfold is_u8, is_u16 in *. lia.
Qed.

Lemma mix_zero c : is_u16 c -> mix c = 0 -> c = 0.
Proof.
  intros Hc H0. destruct (u16_split c Hc) as (E & Hh & Hl). destruct (mix_low _ Hl) as (_ & _ & Hz).
  assert (Z.land c 0xFF = 0) as El by (apply Hz; by rewrite <- mix_low_byte, H0).
  rewrite El, Z.lxor_0_r in E. rewrite E in H0 |- *. by rewrite (proj1 (mix_low _ Hh)) in H0.
Qed.

Lemma mix_inj a b : is_u16 a -> is_u16 b -> mix a = mix b -> a = b.
Proof.
  intros Ha Hb E. apply Z.lxor_eq, mix_zero; [by apply lxor_u16|]. rewrite mix_lxor, E. apply Z.lxor_nilpotent.
Qed.

Lemma mix_low_inj a b : is_u16 a -> is_u16 b -> Z.land (mix a) 0xFF = Z.land (mix b) 0xFF -> Z.land a 0xFF = Z.land b 0xFF.
Proof.
  intros Ha Hb E. apply Z.lxor_eq. rewrite <- land_lxor. pose proof (lxor_u16 a b Ha Hb) as Hx.
  apply (mix_low _ (proj2 (proj2 (u16_split _ Hx)))). rewrite <- mix_low_byte, mix_lxor, land_lxor, E by done. apply Z.lxor_nilpotent.
Qed.

Lemma byte_u16 b : is_u8 b -> is_u16 b.
Proof. unfold is_u8, is_u16. lia. Qed.

Lemma crc_byte_u16 c b : is_u16 c -> is_u8 b -> is_u16 (crc16_ccitt_byte c b).
Proof. intros Hc Hb. rewrite crc_is_mix. apply mix_u16, lxor_u16; [by apply rotate_u16|by apply byte_u16]. Qed.

Lemma crc_folded c1 b1 c2 b2 :
  is_u16 c1 -> is_u16 c2 -> is_u8 b1 -> is_u8 b2 -> crc16_ccitt_byte c1 b1 = crc16_ccitt_byte c2 b2 ->
  Z.lxor (rotate8 c1) b1 = Z.lxor (rotate8 c2) b2.
Proof.
  intros H1 H2 B1 B2 E. rewrite !crc_is_mix in E. apply mix_inj; [| |done]; (apply lxor_u16; [by apply rotate_u16|by apply byte_u16]).
Qed.

Lemma lxor_cancel_r a b c : Z.lxor a c = Z.lxor b c -> a = b.
Proof. intros H. apply (f_equal (fun z => Z.lxor z c)) in H. by rewrite !Z.lxor_assoc, Z.lxor_nilpotent, !Z.lxor_0_r in H. Qed.

Lemma crc_byte_inj c1 c2 b : is_u16 c1 -> is_u16 c2 -> is_u8 b -> crc16_ccitt_byte c1 b = crc16_ccitt_byte c2 b -> c1 = c2.
Proof.
  intros H1 H2 B E. apply crc_folded, lxor_cancel_r in E; try done.
  rewrite <- (proj2 (rotate_u16 c1 H1)), <- (proj2 (rotate_u16 c2 H2)). congruence.
Qed.

Lemma crc_run_u16 bs : forall c, is_u16 c -> Forall is_u8 bs -> is_u16 (foldl crc16_ccitt_byte c bs).
Proof. induction bs as [|b bs IH]; intros c Hc Hb; [done|]. inversion_clear Hb. apply IH; [by apply crc_byte_u16|done]. Qed.

Lemma crc_run_inj bs : forall c1 c2, is_u16 c1 -> is_u16 c2 -> Forall is_u8 bs ->
  foldl crc16_ccitt_byte c1 bs = foldl crc16_ccitt_byte c2 bs -> c1 = c2.
Proof.
  induction bs as [|b bs IH]; intros c1 c2 H1 H2 Hb E; [done|]. inversion_clear Hb.
  eapply crc_byte_inj; [done|done|done|]. eapply IH; [by apply crc_byte_u16|by apply crc_byte_u16|done|exact E].
Qed.

(** Two bytes in a row leave their mark: *)
Lemma crc_two_bytes c a1 a2 b1 b2 :
  is_u16 c -> is_u8 a1 -> is_u8 a2 -> is_u8 b1 -> is_u8 b2 ->
  crc16_ccitt_byte (crc16_ccitt_byte c a1) a2 = crc16_ccitt_byte (crc16_ccitt_byte c b1) b2 -> a1 = b1 /\ a2 = b2.
Proof.
  intros Hc A1 A2 B1 B2 E. assert (forall x, is_u8 x -> is_u16 (Z.lxor (rotate8 c) x)) as Hx.
  { intros x ?. apply lxor_u16; [by apply rotate_u16|by apply byte_u16]. }
  pose proof (crc_byte_u16 c a1 Hc A1) as H1. pose proof (crc_byte_u16 c b1 Hc B1) as H2.
  pose proof (crc_folded _ _ _ _ H1 H2 A2 B2 E) as F.
  assert (Z.land (crc16_ccitt_byte c a1) 0xFF = Z.land (crc16_ccitt_byte c b1) 0xFF) as Fl.
  { apply (f_equal (fun z => z / 256)) in F. rewrite <- !Z.shiftr_div_pow2 with (n := 8) in F by lia. rewrite !Z.shiftr_lxor in F.
    rewrite (Z.shiftr_div_pow2 a2), (Z.shiftr_div_pow2 b2), !Z.div_small, !Z.lxor_0_r in F by (unfold is_u8 in *; lia).
    rewrite !Z.shiftr_div_pow2, (rotate_arith _ H1), (rotate_arith _ H2) in F by lia. change (2 ^ 8) with 256 in F.
    change 0xFF with (Z.ones 8). rewrite !Z.land_ones by lia. change (2 ^ 8) with 256. unfold is_u16 in *.
    rewrite !(Z.mul_comm 256), !Z.div_add in F by lia.
    pose proof (Z.div_lt_upper_bound (crc16_ccitt_byte c a1) 256 256). pose proof (Z.div_lt_upper_bound (crc16_ccitt_byte c b1) 256 256).
    pose proof (Z.div_pos (crc16_ccitt_byte c a1) 256). pose proof (Z.div_pos (crc16_ccitt_byte c b1) 256).
    rewrite !(Z.div_small (_ / 256)) in F by lia. lia. }
  rewrite !crc_is_mix in Fl. apply mix_low_inj in Fl; [|by apply Hx|by apply Hx]. rewrite !land_lxor in Fl.
  assert (forall x, is_u8 x -> Z.land x 0xFF = x) as Hl.
  { intros x Hu. change 0xFF with (Z.ones 8). rewrite Z.land_ones by lia. by apply Z.mod_small. }
  rewrite (Hl a1 A1), (Hl b1 B1), (Z.lxor_comm _ a1), (Z.lxor_comm _ b1) in Fl. apply lxor_cancel_r in Fl as ->. split; [reflexivity|].
  rewrite (Z.lxor_comm _ a2), (Z.lxor_comm _ b2) in F. by apply lxor_cancel_r in F.
Qed.

(** ... whatever follows. *)
Lemma crc_burst c pre post a1 a2 b1 b2 :
  is_u16 c -> Forall is_u8 pre -> Forall is_u8 post -> is_u8 a1 -> is_u8 a2 -> is_u8 b1 -> is_u8 b2 -> (a1, a2) <> (b1, b2) ->
  foldl crc16_ccitt_byte c (pre ++ a1 :: a2 :: post) <> foldl crc16_ccitt_byte c (pre ++ b1 :: b2 :: post).
Proof.
  intros Hc Hpre Hpost A1 A2 B1 B2 Hne E. rewrite !foldl_app in E. cbn [foldl] in E. pose proof (crc_run_u16 pre c Hc Hpre) as Hm.
  apply crc_run_inj in E; [|by repeat apply crc_byte_u16|by repeat apply crc_byte_u16|done].
  apply crc_two_bytes in E as [-> ->]; done.
Qed.
End kelyphos_crc.

(** ** The receiver as a framing of byte strings *)

Module framing.
Import stp transport kelyphos_crc.

(** The length a header declares, from the bytes since the start of the frame. *)
Definition declared (fr : list Z) : Z :=
  Z.lor (Z.shiftl (Z.land (default 0 (fr !! 2%nat)) 0x7F) 5) (Z.shiftr (default 0 (fr !! 3%nat)) 3).

Definition intact (fr : list Z) : bool :=
  let n := Z.to_nat (declared fr) in
  Z.lor (Z.shiftl (default 0 (fr !! (5 + n)%nat)) 8) (default 0 (fr !! (6 + n)%nat))
    =? compute_crc_over (take 3 (drop 1 fr)) (take n (drop 5 fr)).

(** What the receiver promises: outside a frame everything but a start byte is
    skipped; inside, bytes are collected until the frame has its declared length,
    and it is delivered when its check value fits. *)
Definition collect (st : option (list Z)) (b : Z) : option (bool * list Z) * option (list Z) :=
  match st with
  | None => (None, if b =? SOF then Some [b] else None)
  | Some pre =>
      let fr := pre ++ [b] in
      if ((length fr <? 5)%nat || (Z.of_nat (length fr) <? 7 + declared fr)) then (None, Some fr)
      else (Some (intact fr, fr), None)
  end.

Fixpoint collect_all (st : option (list Z)) (bs : list Z) : list (bool * list Z) * option (list Z) :=
  match bs with
  | [] => ([], st)
  | b :: bs =>
      let '(o, st) := collect st b in
      let '(os, st) := collect_all st bs in (option_list o ++ os, st)
  end.

(** The receiver fed a string, with the frames it delivers. *)
Fixpoint receive_all (t : StpTransport) (bs : list Z) : outcome (list (list Z) * StpTransport) :=
  match bs with
  | [] => Ret ([], t)
  | b :: bs =>
      '(o, t) ← receive_byte t b;
      '(os, t) ← receive_all t bs;
      Ret (option_list o ++ os, t)
  end.

(** The state of the machine that stands for the bytes collected so far. *)
Definition phase (pre : list Z) : RxState :=
  let n := Z.of_nat (length pre) in
  if n <? 5 then Header (n - 1) else
  if n <? 5 + declared pre then Payload (5 + declared pre - n) else Crc (n - 5 - declared pre).

Record collecting (p : RxParser) (pre : list Z) : Prop := {
  co_bytes : take (length pre) (buf p) = pre;
  co_u8 : Forall is_u8 pre;
  co_pos : pos p = Z.of_nat (length pre);
  co_size : (0 < length pre)%nat /\ ((5 <= length pre)%nat -> payload_len p = declared pre /\ Z.of_nat (length pre) < 7 + declared pre);
  co_state : state p = phase pre;
}.

Record parser_ok (p : RxParser) (st : option (list Z)) : Prop := {
  po_buf : Z.of_nat (length (buf p)) = TX_FRAME_MAX_ENCODED;
  po_state : match st with None => state p = WaitSof | Some pre => collecting p pre end;
}.

Lemma declared_table : all_words 8 0 (fun v => (Z.shiftl (Z.land v 0x7F) 5 <=? 4064) && (0 <=? Z.shiftl (Z.land v 0x7F) 5) && (Z.shiftr v 3 <? 32)
  && (0 <=? Z.shiftr v 3) && (Z.land (Z.shiftl (Z.land v 0x7F) 5) 31 =? 0) && (Z.land (Z.shiftr v 3) 31 =? Z.shiftr v 3)) = true.
Proof. vm_compute. reflexivity. Qed.

Lemma declared_sum h1 h2 : is_u8 h1 -> is_u8 h2 ->
  Z.lor (Z.shiftl (Z.land h1 0x7F) 5) (Z.shiftr h2 3) = Z.shiftl (Z.land h1 0x7F) 5 + Z.shiftr h2 3 /\
  0 <= Z.shiftl (Z.land h1 0x7F) 5 <= 4064 /\ 0 <= Z.shiftr h2 3 < 32.
Proof.
  intros H1 H2. pose proof (all_words_spec 8 _ h1 declared_table H1) as T1. pose proof (all_words_spec 8 _ h2 declared_table H2) as T2.
  cbn beta in T1, T2. repeat match goal with H : _ && _ = true |- _ => apply andb_prop in H as [? ?] end.
  repeat match goal with H : (_ <=? _) = true |- _ => apply Z.leb_le in H | H : (_ <? _) = true |- _ => apply Z.ltb_lt in H | H : (_ =? _) = true |- _ => apply Z.eqb_eq in H end.
  split; [|lia]. symmetry. apply Z.add_nocarry_lor. match goal with H : Z.land (Z.shiftr h2 3) 31 = _ |- _ => rewrite <- H end.
  rewrite (Z.land_comm (Z.shiftr h2 3)), Z.land_assoc. match goal with H : Z.land (Z.shiftl (Z.land h1 127) 5) 31 = 0 |- _ => rewrite H end. reflexivity.
Qed.

Lemma default_u8 fr i : Forall is_u8 fr -> is_u8 (default 0 (fr !! i)).
Proof. intros H. destruct (fr !! i) as [b|] eqn:E; [by eapply Forall_lookup_1 in H|]. unfold is_u8. cbn. lia. Qed.

Lemma declared_range fr : Forall is_u8 fr -> 0 <= declared fr <= MAX_PAYLOAD.
Proof.
  intros H. unfold declared. destruct (declared_sum _ _ (default_u8 fr 2 H) (default_u8 fr 3 H)) as (-> & ? & ?). unfold MAX_PAYLOAD. lia.
Qed.

Lemma declared_app pre l : (4 <= length pre)%nat -> declared (pre ++ l) = declared pre.
Proof. intros H. unfold declared. by rewrite !lookup_app_l by lia. Qed.
Lemma store_next p pre b :
  Z.of_nat (length (buf p)) = TX_FRAME_MAX_ENCODED -> take (length pre) (buf p) = pre -> Z.of_nat (length pre) < TX_FRAME_MAX_ENCODED ->
  exists rest, store (buf p) (Z.to_nat (Z.of_nat (length pre))) b = Ret ((pre ++ [b]) ++ rest) /\
  Z.of_nat (length ((pre ++ [b]) ++ rest)) = TX_FRAME_MAX_ENCODED.
Proof.
  intros Hl Ht Hp. exists (drop (S (length pre)) (buf p)). rewrite Nat2Z.id. assert (length pre < length (buf p))%nat as Hlt by lia.
  rewrite store_lt by done. rewrite insert_take_drop, Ht by done. rewrite <- app_assoc. split; [done|].
  rewrite !length_app, length_drop. cbn [length]. lia.
Qed.

Lemma declared_ext fr rest : (4 <= length fr)%nat ->
  Z.lor (Z.shiftl (Z.land (default 0 ((fr ++ rest) !! 2%nat)) 0x7F) 5) (Z.shiftr (default 0 ((fr ++ rest) !! 3%nat)) 3) = declared fr.
Proof. intros H. by rewrite !lookup_app_l by lia. Qed.

Lemma slice_of_app fr rest lo hi : 0 <= lo <= hi -> hi <= Z.of_nat (length fr) ->
  slice (fr ++ rest) lo hi = Ret (take (Z.to_nat (hi - lo)) (drop (Z.to_nat lo) fr)).
Proof.
  intros H1 H2. unfold slice. rewrite length_app, Nat2Z.inj_add.
  rewrite (proj2 (Z.leb_le 0 lo)), (proj2 (Z.leb_le lo hi)), (proj2 (Z.leb_le hi _)) by lia. cbn [andb].
  rewrite drop_app_le, take_app_le by (rewrite ?length_drop; lia). reflexivity.
Qed.

Lemma byte_at_app fr rest i : 0 <= i < Z.of_nat (length fr) -> byte_at (fr ++ rest) i = Ret (default 0 (fr !! Z.to_nat i)).
Proof.
  intros H. unfold byte_at. rewrite (proj2 (Z.ltb_ge _ _)) by lia. destruct (lookup_lt_is_Some_2 fr (Z.to_nat i)) as [x Hx]; [lia|].
  rewrite (index_lt _ _ x); [by rewrite Hx|]. rewrite lookup_app_l by lia. done.
Qed.

(** The outcome of one byte. *)
Definition delivered (p p' : RxParser) (o : option (bool * list Z)) (full : bool) : Prop :=
  match o with
  | Some (true, fr) => full = true /\ take_raw p' = Ret fr /\ crc_errors p' = crc_errors p
  | Some (false, _) => full = false /\ crc_errors p' = wrap32 (crc_errors p + 1)
  | None => full = false /\ crc_errors p' = crc_errors p
  end.

Definition follows (p : RxParser) (st : option (list Z)) (b : Z) : Prop :=
  exists full p', push_byte p b = Ret (full, p') /\ delivered p p' (collect st b).1 full /\ parser_ok p' (collect st b).2.

Lemma collecting_intro rest fr s n e :
  Z.of_nat (length (fr ++ rest)) = TX_FRAME_MAX_ENCODED -> Forall is_u8 fr -> (0 < length fr)%nat -> s = phase fr ->
  ((5 <= length fr)%nat -> n = declared fr /\ Z.of_nat (length fr) < 7 + declared fr) ->
  parser_ok (mk_parser s (fr ++ rest) (Z.of_nat (length fr)) n e) (Some fr).
Proof. intros Hl Hu H0 -> Hn. split; [done|]. split; cbn [buf pos payload_len state]; [by rewrite take_app_length|done|done|by split|done]. Qed.

Lemma wait_follows p b : parser_ok p None -> is_u8 b -> follows p None b.
Proof.
  intros [Hl Hs] Hb. unfold follows, push_byte. rewrite Hs. cbn [collect fst snd]. change STP_SOF with SOF.
  destruct (Z.eqb_spec b SOF) as [->|Hne]; [|by exists false, p].
  destruct (store_next p [] SOF Hl eq_refl ltac:(done)) as (rest & E & Hr). change (Z.to_nat (Z.of_nat (length (@nil Z)))) with 0%nat in E. rewrite E.
  eexists false, _. split; [reflexivity|]. split; [done|]. apply (collecting_intro rest [SOF]); [done|by repeat constructor|cbn; lia|done|cbn; lia].
Qed.

Lemma header_follows p pre b : parser_ok p (Some pre) -> is_u8 b -> (length pre < 5)%nat -> follows p (Some pre) b.
Proof.
  intros [Hl [Ht Hu Hp [H0 _] Hs]] Hb H5. unfold follows, push_byte. rewrite Hs, Hp. unfold phase. rewrite (proj2 (Z.ltb_lt _ 5)) by lia.
  assert (5 < TX_FRAME_MAX_ENCODED) as Hmax by done. rewrite (proj2 (Z.leb_gt _ _)) by lia.
  destruct (store_next p pre b Hl Ht ltac:(lia)) as (rest & -> & Hr). cbn [mbind outcome_bind].
  assert (Forall is_u8 (pre ++ [b])) as Hu' by (apply Forall_app; split; [done|by constructor]).
  assert (Z.of_nat (length pre) + 1 = Z.of_nat (length (pre ++ [b]))) as Hn by (rewrite length_app; cbn [length]; lia).
  unfold collect. rewrite Hn. pose proof (declared_range _ Hu') as Hd.
  replace (Z.of_nat (length pre) - 1 + 1) with (Z.of_nat (length (pre ++ [b])) - 1) by lia. destruct (Z.eqb_spec (Z.of_nat (length (pre ++ [b])) - 1) 4) as [H4|H4].
  - rewrite declared_ext by lia. rewrite (proj2 (Nat.ltb_ge _ 5)), (proj2 (Z.ltb_lt _ (7 + _))) by lia. cbn [orb fst snd].
    eexists false, _. split; [reflexivity|]. split; [done|]. apply collecting_intro; try done; [lia| |lia].
    unfold phase. rewrite (proj2 (Z.ltb_ge _ 5)) by lia. destruct (Z.eqb_spec (declared (pre ++ [b])) 0) as [Hz|Hz].
    + rewrite (proj2 (Z.ltb_ge _ _)) by lia. f_equal. lia.
    + rewrite (proj2 (Z.ltb_lt _ (5 + _))) by lia. f_equal. lia.
  - rewrite (proj2 (Nat.ltb_lt _ 5)) by lia. cbn [orb fst snd]. eexists false, _. split; [reflexivity|]. split; [done|].
    apply collecting_intro; try done; [lia| |lia]. unfold phase. by rewrite (proj2 (Z.ltb_lt _ 5)) by lia.
Qed.

Lemma payload_follows p pre b : parser_ok p (Some pre) -> is_u8 b -> (5 <= length pre)%nat -> Z.of_nat (length pre) < 5 + declared pre -> follows p (Some pre) b.
Proof.
  intros [Hl [Ht Hu Hp [H0 Hd] Hs]] Hb H5 Hn. destruct (Hd H5) as [Hpl Hd7]. unfold follows, push_byte. rewrite Hs, Hp. unfold phase.
  rewrite (proj2 (Z.ltb_ge _ 5)), (proj2 (Z.ltb_lt _ (5 + _))) by lia. pose proof (declared_range _ Hu) as Hr.
  assert (5 + MAX_PAYLOAD < TX_FRAME_MAX_ENCODED) as Hmax by done. rewrite (proj2 (Z.leb_gt _ _)) by lia.
  destruct (store_next p pre b Hl Ht ltac:(lia)) as (rest & -> & Hr'). cbn [mbind outcome_bind].
  assert (Forall is_u8 (pre ++ [b])) as Hu' by (apply Forall_app; split; [done|by constructor]).
  assert (Z.of_nat (length pre) + 1 = Z.of_nat (length (pre ++ [b]))) as Hlen by (rewrite length_app; cbn [length]; lia).
  pose proof (declared_app pre [b] ltac:(lia)) as Hdd. unfold collect. rewrite Hlen, Hpl, <- Hdd. rewrite <- Hdd in Hn, Hr, Hd7.
  rewrite (proj2 (Nat.ltb_ge _ 5)), (proj2 (Z.ltb_lt _ (7 + _))) by lia. cbn [orb fst snd].
  eexists false, _. split; [reflexivity|]. split; [done|]. apply collecting_intro; try done; [lia| |lia].
  unfold phase. rewrite (proj2 (Z.ltb_ge _ 5)) by lia. destruct (Z.eqb_spec (5 + declared (pre ++ [b]) - Z.of_nat (length pre)) 1) as [H1|H1].
  - rewrite (proj2 (Z.ltb_ge _ (5 + _))) by lia. f_equal. lia.
  - rewrite (proj2 (Z.ltb_lt _ (5 + _))) by lia. f_equal. lia.
Qed.

Lemma crc_follows p pre b : parser_ok p (Some pre) -> is_u8 b -> (5 <= length pre)%nat -> 5 + declared pre <= Z.of_nat (length pre) -> follows p (Some pre) b.
Proof.
  intros [Hl [Ht Hu Hp [H0 Hd] Hs]] Hb H5 Hn. destruct (Hd H5) as [Hpl Hd7]. unfold follows, push_byte. rewrite Hs, Hp. unfold phase.
  rewrite (proj2 (Z.ltb_ge _ 5)), (proj2 (Z.ltb_ge _ (5 + _))) by lia. pose proof (declared_range _ Hu) as Hr.
  assert (6 + MAX_PAYLOAD < TX_FRAME_MAX_ENCODED) as Hmax by done. rewrite (proj2 (Z.ltb_lt _ TX_FRAME_MAX_ENCODED)) by lia.
  destruct (store_next p pre b Hl Ht ltac:(lia)) as (rest & -> & Hr'). cbn [mbind outcome_bind].
  assert (Forall is_u8 (pre ++ [b])) as Hu' by (apply Forall_app; split; [done|by constructor]).
  assert (Z.of_nat (length pre) + 1 = Z.of_nat (length (pre ++ [b]))) as Hlen by (rewrite length_app; cbn [length]; lia).
  pose proof (declared_app pre [b] ltac:(lia)) as Hdd. unfold collect. rewrite Hlen, Hpl, <- Hdd. rewrite <- Hdd in Hn, Hr, Hd7.
  rewrite (proj2 (Nat.ltb_ge _ 5)) by lia. cbn [orb]. set (fr := pre ++ [b]) in *.
  destruct (Z.eqb_spec (Z.of_nat (length pre) - 5 - declared fr) 1) as [H1|H1].
  - rewrite (proj2 (Z.ltb_ge _ (7 + _))) by lia. cbn [fst snd].
    rewrite !byte_at_app, !slice_of_app by lia. cbn [mbind outcome_bind].
    replace (Z.lor (Z.shiftl (default 0 (fr !! Z.to_nat (Z.of_nat (length fr) - 2))) 8) (default 0 (fr !! Z.to_nat (Z.of_nat (length fr) - 1)))
      =? compute_crc_over (take (Z.to_nat (4 - 1)) (drop (Z.to_nat 1) fr)) (take (Z.to_nat (Z.of_nat (length fr) - 2 - 5)) (drop (Z.to_nat 5) fr)))
      with (intact fr).
    + destruct (intact fr).
      * eexists true, _. split; [reflexivity|]. split; [|by split]. split; [done|]. split; [|done]. unfold take_raw. cbn [buf pos].
        rewrite slice_of_app by lia. rewrite Z.sub_0_r, Nat2Z.id, drop_0, take_ge by lia. done.
      * eexists false, _. split; [reflexivity|]. split; by split.
    + unfold intact. replace (Z.of_nat (length fr) - 2) with (5 + declared fr) by lia. replace (Z.of_nat (length fr) - 1) with (6 + declared fr) by lia.
      rewrite !Z2Nat.inj_add by lia. change (Z.to_nat 5) with 5%nat. change (Z.to_nat 6) with 6%nat. change (Z.to_nat (4 - 1)) with 3%nat. change (Z.to_nat 1) with 1%nat.
      by replace (5 + declared fr - 5) with (declared fr) by lia.
  - rewrite (proj2 (Z.ltb_lt _ (7 + _))) by lia. cbn [fst snd]. eexists false, _. split; [reflexivity|]. split; [done|].
    apply collecting_intro; try done; [lia| |lia]. unfold phase. rewrite (proj2 (Z.ltb_ge _ 5)), (proj2 (Z.ltb_ge _ (5 + _))) by lia. f_equal. lia.
Qed.

Lemma byte_follows p st b : parser_ok p st -> is_u8 b -> follows p st b.
Proof.
  intros Hp Hb. destruct st as [pre|]; [|by apply wait_follows]. destruct (Nat.ltb_spec (length pre) 5); [by apply header_follows|].
  destruct (Z.ltb_spec (Z.of_nat (length pre)) (5 + declared pre)); [by apply payload_follows|by apply crc_follows].
Qed.
(** ** Strings of bytes *)

Definition good (os : list (bool * list Z)) : list (list Z) := (filter (fun o => o.1 = true) os).*2.
Definition bad (os : list (bool * list Z)) : Z := Z.of_nat (length (filter (fun o => o.1 = false) os)).

Definition same_tx (t t' : StpTransport) : Prop :=
  tx_window t' = tx_window t /\ tx_seq t' = tx_seq t /\ retry_limit t' = retry_limit t /\ tx_timeout_ms t' = tx_timeout_ms t.

Lemma receive_byte_ok t st b : parser_ok (rx_parser t) st -> is_u32 (crc_errors (rx_parser t)) -> is_u8 b ->
  exists t', receive_byte t b = Ret (head (good (option_list (collect st b).1)), t') /\ parser_ok (rx_parser t') (collect st b).2 /\ same_tx t t' /\
  crc_errors (rx_parser t') = wrap32 (crc_errors (rx_parser t) + bad (option_list (collect st b).1)).
Proof.
  intros Hp Hc Hb. destruct (byte_follows _ _ _ Hp Hb) as (full & p' & E & Hd & Hp'). unfold receive_byte. rewrite E. cbn [mbind outcome_bind].
  destruct (collect st b) as [[[[] fr]|] st']; cbn [fst snd delivered] in Hd, Hp' |- *.
  - destruct Hd as (-> & Hr & Hcr). rewrite Hr. eexists. split; [reflexivity|]. split; [done|]. split; [done|]. cbn [rx_parser]. rewrite Hcr.
    symmetry. unfold bad. cbn. rewrite Z.add_0_r. by apply wrap32_small.
  - destruct Hd as (-> & Hcr). eexists. split; [reflexivity|]. split; [done|]. split; [done|]. done.
  - destruct Hd as (-> & Hcr). eexists. split; [reflexivity|]. split; [done|]. split; [done|]. cbn [rx_parser]. rewrite Hcr.
    symmetry. unfold bad. cbn. rewrite Z.add_0_r. by apply wrap32_small.
Qed.

Lemma receive_refines bs : forall t st,
  parser_ok (rx_parser t) st -> is_u32 (crc_errors (rx_parser t)) -> Forall is_u8 bs ->
  exists t', receive_all t bs = Ret (good (collect_all st bs).1, t') /\ parser_ok (rx_parser t') (collect_all st bs).2 /\ same_tx t t' /\
  crc_errors (rx_parser t') = wrap32 (crc_errors (rx_parser t) + bad (collect_all st bs).1).
Proof.
  induction bs as [|b bs IH]; intros t st Hp Hc Hb; cbn [receive_all collect_all].
  - exists t. cbn. rewrite Z.add_0_r, wrap32_small by done. done.
  - inversion_clear Hb as [|? ? Hb1 Hb2]. destruct (receive_byte_ok t st b Hp Hc Hb1) as (t1 & E1 & P1 & S1 & C1). rewrite E1. cbn [mbind outcome_bind].
    destruct (collect st b) as [o st1]. cbn [fst snd] in *.
    destruct (IH t1 st1 P1 ltac:(rewrite C1; apply wrap32_range) Hb2) as (t2 & E2 & P2 & S2 & C2). rewrite E2. cbn [mbind outcome_bind].
    destruct (collect_all st1 bs) as [os st2]. cbn [fst snd] in *. exists t2. split; [|split; [done|split]].
    + do 2 f_equal. unfold good. rewrite filter_app, fmap_app. by destruct o as [[[] fr]|].
    + destruct S1 as (? & ? & ? & ?), S2 as (? & ? & ? & ?). repeat split; congruence.
    + rewrite C2, C1. unfold wrap32. rewrite Zplus_mod_idemp_l. f_equal. unfold bad. rewrite filter_app, length_app. lia.
Qed.

Lemma collect_all_app a : forall st b,
  collect_all st (a ++ b) = ((collect_all st a).1 ++ (collect_all (collect_all st a).2 b).1, (collect_all (collect_all st a).2 b).2).
Proof.
  induction a as [|x a IH]; intros st b; cbn [app collect_all fst snd]; [by destruct (collect_all st b)|].
  destruct (collect st x) as [o st1]. rewrite IH. destruct (collect_all st1 a) as [o1 st2]. cbn [fst snd].
  destruct (collect_all st2 b) as [o2 st3]. cbn [fst snd]. by rewrite app_assoc.
Qed.

Lemma collect_noise noise : SOF ∉ noise -> collect_all None noise = ([], None).
Proof.
  induction noise as [|b noise IH]; intros Hn; [done|]. cbn [collect_all collect]. apply not_elem_of_cons in Hn as [H1 H2].
  rewrite (proj2 (Z.eqb_neq _ _)) by congruence. by rewrite IH.
Qed.

(** A string that has the length its header declares. *)
Record complete (fr : list Z) : Prop := {
  cf_u8 : Forall is_u8 fr;
  cf_start : fr !! 0%nat = Some SOF;
  cf_length : Z.of_nat (length fr) = 7 + declared fr;
}.

Lemma collect_prefix fr k : complete fr -> (0 < k < length fr)%nat -> collect_all None (take k fr) = ([], Some (take k fr)).
Proof.
  intros [Hu H0 Hl]. induction k as [|k IH]; [lia|]. intros Hk. destruct (lookup_lt_is_Some_2 fr k) as [b Hb]; [lia|].
  rewrite (take_S_r _ _ _ Hb). destruct (Nat.eq_dec k 0) as [->|Hz].
  - rewrite take_0. rewrite H0 in Hb. injection Hb as <-. reflexivity.
  - rewrite collect_all_app, IH by lia. cbn [fst snd collect_all collect]. rewrite <- (take_S_r _ _ _ Hb).
    assert (length (take (S k) fr) = S k) as Hlen by (rewrite length_take; lia).
    replace ((length (take (S k) fr) <? 5)%nat || (Z.of_nat (length (take (S k) fr)) <? 7 + declared (take (S k) fr))) with true; [done|].
    symmetry. rewrite Hlen. destruct (Nat.ltb_spec (S k) 5); [done|]. cbn [orb]. apply Z.ltb_lt.
    rewrite <- (declared_app (take (S k) fr) (drop (S k) fr)), take_drop by (rewrite Hlen; lia). lia.
Qed.

Lemma collect_frame fr : complete fr -> collect_all None fr = ([(intact fr, fr)], None).
Proof.
  intros Hc. pose proof (declared_range _ (cf_u8 _ Hc)) as Hd. pose proof (cf_length _ Hc) as Hl.
  assert (exists k b, fr !! k = Some b /\ length fr = S k) as (k & b & Hb & Hk).
  { destruct (lookup_lt_is_Some_2 fr (length fr - 1)) as [b Hb]; [lia|]. exists (length fr - 1)%nat, b. split; [done|lia]. }
  assert (take k fr ++ [b] = fr) as Hfr by (rewrite <- (take_S_r _ _ _ Hb), take_ge by lia; done).
  rewrite <- Hfr at 1. rewrite collect_all_app, (collect_prefix fr k Hc) by lia. cbn [fst snd collect_all collect]. rewrite Hfr.
  rewrite (proj2 (Nat.ltb_ge _ 5)), (proj2 (Z.ltb_ge _ (7 + _))) by lia. done.
Qed.
(** ** What is sent *)

Lemma h0_table t a : all_words 3 0 (fun s =>
  let h := Z.lor (Z.lor (wrap8 (Z.shiftl (u8_of_frame_type t) 4)) (if a : bool then 0x08 else 0)) (Z.shiftr (Z.land s 0x07) 1) in
  (0 <=? h) && (h <? 2 ^ 8)) = true.
Proof. destruct t, a; reflexivity. Qed.

Lemma h1_table : all_words 7 0 (fun q => all_words 3 0 (fun s =>
  let h := Z.lor (wrap8 (Z.shiftl (Z.land s 0x01) 7)) (Z.land (wrap8 q) 0x7F) in
  (0 <=? h) && (h <? 2 ^ 8) && (Z.land h 0x7F =? q))) = true.
Proof. vm_compute. reflexivity. Qed.

Lemma h2_table : all_words 5 0 (fun r => let h := wrap8 (Z.shiftl r 3) in (0 <=? h) && (h <? 2 ^ 8) && (Z.shiftr h 3 =? r)) = true.
Proof. vm_compute. reflexivity. Qed.

Lemma header_ok h : 0 <= length_ h <= MAX_PAYLOAD -> 0 <= stp.seq h < 8 ->
  exists h0 h1 h2, header_bytes h = [h0; h1; h2] /\ Forall is_u8 [h0; h1; h2] /\ Z.lor (Z.shiftl (Z.land h1 0x7F) 5) (Z.shiftr h2 3) = length_ h.
Proof.
  intros Hl Hs. unfold header_bytes. eexists _, _, _. split; [reflexivity|].
  pose proof (all_words_spec 3 _ _ (h0_table (frame_type h) (ack h)) Hs) as H0. cbv beta zeta in H0. apply andb_prop in H0 as [?%Z.leb_le ?%Z.ltb_lt].
  assert (Z.shiftr (length_ h) 5 = length_ h / 32) as Hq by (by rewrite Z.shiftr_div_pow2 by lia).
  assert (Z.land (length_ h) 0x1F = length_ h mod 32) as Hr by (change 0x1F with (Z.ones 5); by rewrite Z.land_ones by lia).
  unfold MAX_PAYLOAD in Hl. assert (0 <= length_ h / 32 < 2 ^ Z.of_nat 7) as Hq' by (split; [apply Z.div_pos; lia|apply Z.div_lt_upper_bound; lia]).
  pose proof (all_words_spec 7 _ _ h1_table Hq') as H1. cbv beta in H1. apply (all_words_spec 3 _ (stp.seq h)) in H1; [|done]. cbv beta zeta in H1.
  assert (0 <= length_ h mod 32 < 2 ^ Z.of_nat 5) as Hr' by (apply Z.mod_pos_bound; lia).
  pose proof (all_words_spec 5 _ _ h2_table Hr') as H2. cbv beta zeta in H2.
  apply andb_prop in H1 as [[A1%Z.leb_le B1%Z.ltb_lt]%andb_prop E1%Z.eqb_eq]. apply andb_prop in H2 as [[A2%Z.leb_le B2%Z.ltb_lt]%andb_prop E2%Z.eqb_eq].
  rewrite Hq, Hr. split; [by repeat constructor|]. rewrite (proj1 (declared_sum _ _ (conj A1 B1) (conj A2 B2))), E1, E2.
  rewrite Z.shiftl_mul_pow2 by lia. pose proof (Z.div_mod (length_ h) 32 ltac:(lia)). lia.
Qed.

Definition wire (h : StpHeader) (pay : list Z) (c : Z) : list Z :=
  SOF :: header_bytes h ++ [checksum h] ++ pay ++ [Z.shiftr c 8; Z.land c 0xFF].

Lemma crc_bytes c : is_u16 c -> Z.lor (Z.shiftl (Z.shiftr c 8) 8) (Z.land c 0xFF) = c /\ is_u8 (Z.shiftr c 8) /\ is_u8 (Z.land c 0xFF).
Proof.
  intros Hc. destruct (u16_split c Hc) as (E & Hh & Hl). rewrite Z.shiftr_div_pow2 by lia. change (2 ^ 8) with 256. split; [|done].
  rewrite E at 3. rewrite Z.lxor_lor; [done|]. rewrite (Z.land_comm c), Z.land_assoc, shifted_low. reflexivity.
Qed.

(** A frame on the wire is complete, and intact when its check value is right. *)
Lemma wire_complete h pay c : 0 <= stp.seq h < 8 -> is_u8 (checksum h) -> Forall is_u8 pay -> length_ h = Z.of_nat (length pay) ->
  length_ h <= MAX_PAYLOAD -> is_u16 c ->
  complete (wire h pay c) /\ intact (wire h pay c) = (c =? compute_crc_over (header_bytes h) pay) /\
  take (length pay) (drop 5 (wire h pay c)) = pay.
Proof.
  intros Hs Hk Hp Hl Hm Hc. destruct (header_ok h) as (h0 & h1 & h2 & Eh & Hu & Ed); [lia|done|]. destruct (crc_bytes c Hc) as (Ec & Hc1 & Hc2).
  assert (declared (wire h pay c) = Z.of_nat (length pay)) as Hd by (unfold declared, wire; rewrite Eh; cbn; lia).
  assert (drop 5 (wire h pay c) = pay ++ [Z.shiftr c 8; Z.land c 0xFF]) as H5 by (unfold wire; by rewrite Eh).
  split; [split|split].
  - unfold wire. rewrite Eh. constructor; [unfold is_u8, SOF; lia|]. rewrite !Forall_app. split; [done|]. split; [by constructor|]. split; [done|]. by repeat (constructor; try done).
  - reflexivity.
  - rewrite Hd. unfold wire. rewrite Eh. cbn [length app]. rewrite length_app. cbn [length]. lia.
  - unfold intact. rewrite Hd, Nat2Z.id, <- !(lookup_drop (wire h pay c) 5), H5.
    replace ((wire h pay c) !! (6 + length pay)%nat) with ((drop 5 (wire h pay c)) !! S (length pay)) by (rewrite lookup_drop; f_equal; lia).
    rewrite H5. rewrite (lookup_app_r _ _ (length pay)), (lookup_app_r _ _ (S (length pay))), Nat.sub_diag by lia.
    replace (S (length pay) - length pay)%nat with 1%nat by lia. cbn [lookup list_lookup from_option id]. unfold id. rewrite Ec, take_app_length.
    unfold wire. rewrite Eh. reflexivity.
  - by rewrite H5, take_app_length.
Qed.
(** The bytes of a data frame, as the window hands them to the line. *)
Definition sent (s : Z) (pay : list Z) : outcome (list Z) := f ← data s pay; e ← from_frame f; as_bytes e.

Lemma slice_prefix pay rest : slice (pay ++ rest) 0 (Z.of_nat (length pay)) = Ret pay.
Proof. rewrite slice_of_app by lia. rewrite Z.sub_0_r, Nat2Z.id, drop_0, firstn_all. reflexivity. Qed.

Lemma seq_land s : 0 <= Z.land s 7 < 8.
Proof. change 7 with (Z.ones 3). rewrite Z.land_ones by lia. apply Z.mod_pos_bound. lia. Qed.

Lemma checksum_u8 h : 0 <= length_ h <= MAX_PAYLOAD -> 0 <= stp.seq h < 8 -> is_u8 (compute_header_checksum h).
Proof.
  intros Hl Hs. unfold compute_header_checksum. destruct (header_ok h Hl Hs) as (h0 & h1 & h2 & -> & Hu & _).
  inversion_clear Hu as [|? ? U0 Hu']. inversion_clear Hu' as [|? ? U1 Hu'']. inversion_clear Hu'' as [|? ? U2 _].
  apply (lxor_below 8); [lia| |done]. by apply (lxor_below 8).
Qed.

(** Storing a frame in the window and reading it back gives its bytes. *)
Lemma entry_bytes h pay rest c : length_ h = Z.of_nat (length pay) -> length_ h <= MAX_PAYLOAD -> 0 <= stp.seq h < 8 ->
  (e ← from_frame (mk_frame h (pay ++ rest) (length_ h) c); as_bytes e) = Ret (wire h pay c).
Proof.
  intros Hl Hm Hs. unfold from_frame, encode. cbn [stp.payload_len payload header crc]. rewrite length_replicate.
  assert (1 + 4 + MAX_PAYLOAD + 2 = TX_FRAME_MAX_ENCODED /\ 0 < TX_FRAME_MAX_ENCODED) as [Hmax H0] by done.
  rewrite Z2Nat.id, (proj2 (Z.ltb_ge _ _)) by lia. rewrite Hl at 1. rewrite slice_prefix. cbn [mbind outcome_bind].
  change (SOF :: header_bytes h ++ [checksum h] ++ pay ++ [Z.shiftr c 8; Z.land c 255]) with (wire h pay c).
  unfold as_bytes. cbn [tx_data len]. replace (1 + 4 + length_ h + 2) with (Z.of_nat (length (wire h pay c))); [apply slice_prefix|].
  unfold wire. destruct (header_ok h) as (h0 & h1 & h2 & -> & _); [lia|done|]. cbn [length app]. rewrite length_app. cbn [length]. lia.
Qed.

Lemma sent_ok s pay : Forall is_u8 pay -> Z.of_nat (length pay) <= MAX_PAYLOAD ->
  exists h c, sent s pay = Ret (wire h pay c) /\ 0 <= stp.seq h < 8 /\ is_u8 (checksum h) /\ length_ h = Z.of_nat (length pay) /\
  c = compute_crc_over (header_bytes h) pay.
Proof.
  intros Hu Hl. unfold sent, data, sealed, compute_crc. rewrite (Z.min_l _ _ Hl). cbn [payload stp.payload_len header].
  rewrite take_ge by lia. rewrite slice_prefix. cbn [mbind outcome_bind]. set (h := mk_header _ _ _ _ _).
  pose proof (seq_land s) as Hs. exists h, (compute_crc_over (header_bytes h) pay). split.
  - change (Z.of_nat (length pay)) with (length_ h). by apply entry_bytes.
  - split; [done|]. split; [|done]. apply checksum_u8; [cbn [length_]; lia|done].
Qed.

Lemma header_crc_u16 h : 0 <= length_ h <= MAX_PAYLOAD -> 0 <= stp.seq h < 8 -> is_u16 (foldl crc16_ccitt_byte 0xFFFF (header_bytes h)).
Proof. intros Hl Hs. destruct (header_ok h Hl Hs) as (? & ? & ? & -> & Hu & _). apply crc_run_u16; [unfold is_u16; lia|done]. Qed.

Lemma sent_frame s pay : Forall is_u8 pay -> Z.of_nat (length pay) <= MAX_PAYLOAD ->
  exists fr, sent s pay = Ret fr /\ complete fr /\ intact fr = true /\ take (length pay) (drop 5 fr) = pay.
Proof.
  intros Hu Hl. destruct (sent_ok s pay Hu Hl) as (h & c & E & Hs & Hk & Hn & Hc). exists (wire h pay c). split; [done|].
  destruct (wire_complete h pay c) as (Hw & Hi & Ht); try done; [lia| |].
  - rewrite Hc. apply crc_run_u16; [apply header_crc_u16; [lia|done]|done].
  - split; [done|]. split; [|done]. rewrite Hi, Hc. apply Z.eqb_refl.
Qed.
(** A message and the noise in front of it. *)
Record message := mk_message { noise : list Z; number : Z; text : list Z }.

Definition message_ok (m : message) : Prop :=
  Forall is_u8 (noise m) /\ (SOF ∉ noise m) /\ Forall is_u8 (text m) /\ Z.of_nat (length (text m)) <= MAX_PAYLOAD.

Lemma collect_stream ms frs :
  Forall message_ok ms -> Forall2 (fun m fr => sent (number m) (text m) = Ret fr) ms frs ->
  Forall is_u8 (concat (zip_with (fun m fr => noise m ++ fr) ms frs)) /\
  collect_all None (concat (zip_with (fun m fr => noise m ++ fr) ms frs)) = ((fun fr => (true, fr)) <$> frs, None).
Proof.
  intros Hms HF. induction HF as [|m fr ms frs E HF IH]; [split; [constructor|done]|]. apply Forall_cons in Hms as [(Hn & Hs & Hu & Hl) Hms'].
  destruct (IH Hms') as [IHu IHc]. destruct (sent_frame (number m) (text m) Hu Hl) as (fr' & E' & Hc & Hi & _).
  rewrite E in E'. injection E' as <-. cbn [zip_with concat]. split.
  - apply Forall_app_2; [apply Forall_app_2; [exact Hn|apply Hc]|exact IHu].
  - rewrite !collect_all_app, (collect_noise _ Hs). cbn [fst snd app]. rewrite (collect_frame _ Hc), Hi. cbn [fst snd app]. by rewrite IHc.
Qed.

Lemma good_all frs : good ((fun fr => (true, fr)) <$> frs) = frs /\ bad ((fun fr => (true, fr)) <$> frs) = 0.
Proof.
  unfold good, bad. induction frs as [|fr frs [IH1 IH2]]; [done|]. cbn [fmap list_fmap]. rewrite !filter_cons, decide_True, decide_False by done.
  cbn [fmap list_fmap]. split; [by f_equal|done].
Qed.

Definition ready (t : StpTransport) : Prop := parser_ok (rx_parser t) None /\ is_u32 (crc_errors (rx_parser t)).

(** C31: Frames get through. Any messages of at most 4095 bytes, framed by the
    sender and put on the line with noise in front of each that holds no start
    byte, are delivered by an idle receiver: every frame once, in order, with the
    payload it was made from and nothing else, no error is counted and the receiver
    is idle again. *)
Theorem frames_get_through t ms :
  ready t -> Forall message_ok ms ->
  exists frs t', Forall2 (fun m fr => sent (number m) (text m) = Ret fr /\ take (length (text m)) (drop 5 fr) = text m) ms frs /\
  receive_all t (concat (zip_with (fun m fr => noise m ++ fr) ms frs)) = Ret (frs, t') /\ ready t' /\ same_tx t t' /\
  crc_errors (rx_parser t') = crc_errors (rx_parser t).
Proof.
  intros [Hp Hc] Hms.
  assert (exists frs, Forall2 (fun m fr => sent (number m) (text m) = Ret fr /\ take (length (text m)) (drop 5 fr) = text m) ms frs) as [frs HF].
  { induction Hms as [|m ms (_ & _ & Hu & Hl) _ [frs IH]]; [by exists []|]. destruct (sent_frame (number m) (text m) Hu Hl) as (fr & E & _ & _ & Ht).
    exists (fr :: frs). by constructor. }
  destruct (collect_stream ms frs Hms) as [Hu E]; [eapply Forall2_impl; [exact HF|by intros ? ? []]|].
  destruct (receive_refines _ t None Hp Hc Hu) as (t' & E' & P' & S' & C'). rewrite E in E', P', C'. cbn [fst snd] in E', P', C'.
  destruct (good_all frs) as [Hg Hb]. rewrite Hg in E'. rewrite Hb, Z.add_0_r, wrap32_small in C' by done.
  exists frs, t'. split; [done|]. split; [done|]. split; [|done]. split; [done|]. by rewrite C'.
Qed.

Lemma insert_two (l : list Z) a1 a2 b1 b2 r : <[S (length l) := b2]> (<[length l := b1]> (l ++ a1 :: a2 :: r)) = l ++ b1 :: b2 :: r.
Proof. induction l as [|x l IH]; [done|]. cbn. by f_equal. Qed.

(** C32: Short bursts are detected. When the payload of a frame arrives with two
    adjacent bytes changed in any way, an idle receiver delivers nothing, counts
    one error and is idle again. *)
Theorem short_burst_detected t s pre a1 a2 b1 b2 post fr :
  ready t -> Forall is_u8 (pre ++ post) -> is_u8 a1 -> is_u8 a2 -> is_u8 b1 -> is_u8 b2 -> (a1, a2) <> (b1, b2) ->
  Z.of_nat (length (pre ++ a1 :: a2 :: post)) <= MAX_PAYLOAD -> sent s (pre ++ a1 :: a2 :: post) = Ret fr ->
  let at_ := (5 + length pre)%nat in
  exists t', receive_all t (<[S at_ := b2]> (<[at_ := b1]> fr)) = Ret ([], t') /\ ready t' /\ same_tx t t' /\
  crc_errors (rx_parser t') = wrap32 (crc_errors (rx_parser t) + 1).
Proof.
  intros [Hp Hc] [Hpre Hpost]%Forall_app A1 A2 B1 B2 Hne Hl E at_.
  assert (Forall is_u8 (pre ++ a1 :: a2 :: post)) as Ha by (apply Forall_app_2; [done|by apply Forall_cons_2, Forall_cons_2]).
  assert (Forall is_u8 (pre ++ b1 :: b2 :: post)) as Hb by (apply Forall_app_2; [done|by apply Forall_cons_2, Forall_cons_2]).
  destruct (sent_ok s _ Ha Hl) as (h & c & E' & Hs & Hk & Hn & Hcc). rewrite E in E'. injection E' as ->.
  assert (<[S at_ := b2]> (<[at_ := b1]> (wire h (pre ++ a1 :: a2 :: post) c)) = wire h (pre ++ b1 :: b2 :: post) c) as ->.
  { unfold wire. destruct (header_ok h) as (h0 & h1 & h2 & -> & _); [lia|done|]. rewrite <- !(app_assoc pre). cbn [app].
    exact (insert_two ([SOF; h0; h1; h2; checksum h] ++ pre) a1 a2 b1 b2 (post ++ [Z.shiftr c 8; Z.land c 255])). }
  assert (length (pre ++ b1 :: b2 :: post) = length (pre ++ a1 :: a2 :: post)) as Hlen by (rewrite !length_app; done).
  pose proof (header_crc_u16 h ltac:(lia) Hs) as Hhc.
  destruct (wire_complete h (pre ++ b1 :: b2 :: post) c) as (Hw & Hi & _); try done; [congruence|lia|rewrite Hcc; by apply crc_run_u16|].
  assert (intact (wire h (pre ++ b1 :: b2 :: post) c) = false) as Hbad.
  { rewrite Hi. apply Z.eqb_neq. rewrite Hcc. apply crc_burst; done. }
  destruct (receive_refines _ t None Hp Hc (cf_u8 _ Hw)) as (t' & Er & P' & S' & C'). rewrite (collect_frame _ Hw), Hbad in Er, P', C'.
  exists t'. split; [exact Er|]. split; [|done]. split; [done|]. rewrite C'. apply wrap32_range.
Qed.
Lemma new_ready c : ready (new_with_config c).
Proof.
  split; [|vm_compute; split; [discriminate|reflexivity]]. split; [|reflexivity].
  change (buf (rx_parser (new_with_config c))) with (replicate (Z.to_nat TX_FRAME_MAX_ENCODED) 0). rewrite length_replicate. reflexivity.
Qed.

Lemma frames_get_through_witness :
  let ms := [mk_message [0; 7] 3 [104; 105]; mk_message [] 4 []; mk_message [127] 5 [0x80; 0x80]] in
  exists frs t', Forall2 (fun m fr => sent (number m) (text m) = Ret fr /\ take (length (text m)) (drop 5 fr) = text m) ms frs /\
  receive_all (new_with_config config.default_config) (concat (zip_with (fun m fr => noise m ++ fr) ms frs)) = Ret (frs, t') /\ ready t' /\
  same_tx (new_with_config config.default_config) t' /\ crc_errors (rx_parser t') = 0.
Proof.
  refine (frames_get_through (new_with_config config.default_config) _ (new_ready _) _).
  repeat apply Forall_cons_2; [| | |apply Forall_nil_2].
  all: split; [apply (bool_decide_unpack (Forall (fun b => 0 <= b < 2 ^ 8) _)); reflexivity|].
  all: split; [apply (bool_decide_unpack (SOF ∉ _)); reflexivity|].
  all: split; [apply (bool_decide_unpack (Forall (fun b => 0 <= b < 2 ^ 8) _)); reflexivity|cbn; unfold MAX_PAYLOAD; lia].
Defined.

Lemma short_burst_detected_witness :
  exists t', receive_all (new_with_config config.default_config) (<[7%nat := 2]> (<[6%nat := 1]> (match sent 3 [104; 105; 106] with Ret fr => fr | Panic => [] end)))
    = Ret ([], t') /\ ready t' /\ same_tx (new_with_config config.default_config) t' /\ crc_errors (rx_parser t') = 1.
Proof.
  refine (short_burst_detected (new_with_config config.default_config) 3 [104] 105 106 1 2 [] _ (new_ready _) _ _ _ _ _ _ _ _).
  - apply Forall_cons_2, Forall_nil_2. unfold is_u8. lia.
  - unfold is_u8. lia.
  - unfold is_u8. lia.
  - unfold is_u8. lia.
  - unfold is_u8. lia.
  - discriminate.
  - cbn. unfold MAX_PAYLOAD. lia.
  - vm_compute. reflexivity.
Defined.

(** The checksum byte of the header is sent, and never looked at: whatever arrives
    in its place, the frame is delivered. *)
Lemma header_checksum_not_checked t s pay x :
  ready t -> Forall is_u8 pay -> Z.of_nat (length pay) <= MAX_PAYLOAD -> is_u8 x ->
  exists fr t', sent s pay = Ret fr /\ receive_all t (<[4%nat := x]> fr) = Ret ([<[4%nat := x]> fr], t').
Proof.
  intros [Hp Hc] Hu Hl Hx. destruct (sent_ok s pay Hu Hl) as (h & c & E & Hs & Hk & Hn & Hcc).
  set (h' := mk_header (frame_type h) (ack h) (stp.seq h) (length_ h) x).
  assert (<[4%nat := x]> (wire h pay c) = wire h' pay c) as Hw.
  { unfold wire. destruct (header_ok h) as (h0 & h1 & h2 & Eh & _); [lia|done|]. change (header_bytes h') with (header_bytes h). by rewrite Eh. }
  destruct (wire_complete h' pay c) as (Hf & Hi & _); try done.
  { change (length_ h') with (length_ h). lia. } { rewrite Hcc. apply crc_run_u16; [apply header_crc_u16; [lia|done]|done]. }
  destruct (receive_refines _ t None Hp Hc (cf_u8 _ Hf)) as (t' & Er & _). exists (wire h pay c), t'. split; [done|]. rewrite Hw, Er, (collect_frame _ Hf), Hi.
  change (header_bytes h') with (header_bytes h). rewrite Hcc, Z.eqb_refl. reflexivity.
Qed.
End framing.

(** ** The window of unacknowledged frames *)

Module window.
Import stp transport framing.

Inductive tx_op := Enqueue (s : Z) (pay : list Z) | Acknowledge (n : Z) | Retransmit (n : Z).
Inductive answer := Queued (r : result Z TransportError) | Acked (r : result () TransportError) | Resent (r : result (list Z) TransportError).

Definition exec (t : StpTransport) (o : tx_op) : outcome (answer * StpTransport) :=
  match o with
  | Enqueue s pay => f ← data s pay; '(r, t) ← enqueue t f; Ret (Queued r, t)
  | Acknowledge n => let '(r, t) := acknowledge t n in Ret (Acked r, t)
  | Retransmit n => '(r, t) ← retransmit t n; Ret (Resent r, t)
  end.

Fixpoint run (t : StpTransport) (os : list tx_op) : outcome (list answer * StpTransport) :=
  match os with
  | [] => Ret ([], t)
  | o :: os => '(a, t) ← exec t o; '(l, t) ← run t os; Ret (a :: l, t)
  end.

Definition op_ok (o : tx_op) : Prop :=
  match o with Enqueue s pay => Forall is_u8 pay /\ Z.of_nat (length pay) <= MAX_PAYLOAD | _ => True end.

(** What was queued. *)
Definition queued (os : list tx_op) : list (Z * list Z) := omap (fun o => match o with Enqueue s pay => Some (s, pay) | _ => None end) os.

(** An entry of the window: the bytes of a frame that was queued, and no more
    retransmissions than allowed. *)
Definition holds_frame (log : list (Z * list Z)) (limit : Z) (e : TxEntry) : Prop :=
  (exists s pay raw, (s, pay) ∈ log /\ sent s pay = Ret raw /\ as_bytes e = Ret raw /\ seq e = Z.land s 0x07) /\ 0 <= retries e <= limit.

Record window_ok (log : list (Z * list Z)) (t : StpTransport) : Prop := {
  wo_size : length (tx_window t) = Z.to_nat WINDOW_SIZE;
  wo_limit : 0 <= retry_limit t < 2 ^ 8 - 1;
  wo_entry i e : tx_window t !! i = Some (Some e) -> holds_frame log (retry_limit t) e;
}.

Lemma holds_more log log' limit e : (forall x, x ∈ log -> x ∈ log') -> holds_frame log limit e -> holds_frame log' limit e.
Proof. intros H [(s & pay & raw & Hin & ?) ?]. split; [|done]. exists s, pay, raw. split; [by apply H|done]. Qed.

Lemma window_more log log' t : (forall x, x ∈ log -> x ∈ log') -> window_ok log t -> window_ok log' t.
Proof. intros H [Hs Hl He]. split; [done|done|]. intros i e Hi. eapply holds_more; [exact H|by eapply He]. Qed.

Lemma window_new c : window_ok [] (new_with_config c).
Proof.
  split; [reflexivity| |].
  - pose proof (config.bounded_range (config.retry_limit c) config.DEFAULT_RETRY_LIMIT config.MIN_RETRY_LIMIT config.MAX_RETRY_LIMIT) as H.
    cbn [retry_limit new_with_config]. unfold config.retry_budget. unfold config.DEFAULT_RETRY_LIMIT, config.MIN_RETRY_LIMIT, config.MAX_RETRY_LIMIT in *. lia.
  - intros i e H. apply lookup_replicate in H as [? _]. done.
Qed.

Lemma window_set log t i o : window_ok log t -> (forall e, o = Some e -> holds_frame log (retry_limit t) e) ->
  window_ok log (set_window t (<[i := o]> (tx_window t))).
Proof.
  intros [Hs Hl He] Ho. split; cbn [tx_window retry_limit set_window]; [by rewrite length_insert|done|].
  intros j e Hj. destruct (decide (i = j)) as [->|Hne].
  - destruct (Nat.ltb_spec j (length (tx_window t))) as [Hlt|Hge].
    + rewrite list_lookup_insert_eq in Hj by done. injection Hj as Hj. by apply Ho.
    + rewrite list_insert_ge in Hj by done. by eapply He.
  - rewrite list_lookup_insert_ne in Hj by done. by eapply He.
Qed.

Lemma window_seq log t n : window_ok log t -> window_ok log (mk_transport (tx_window t) n (rx_parser t) (retry_limit t) (tx_timeout_ms t)).
Proof. intros [? ? ?]. by split. Qed.

Lemma in_flight_le log t : window_ok log t -> (in_flight t <= 7)%nat.
Proof. intros [Hs _ _]. unfold in_flight. pose proof (count_if_le (fun s => negb (slot_free s)) (tx_window t)). change (Z.to_nat WINDOW_SIZE) with 7%nat in Hs. lia. Qed.

Lemma as_bytes_retries e n : as_bytes (mk_entry (tx_data e) (len e) (seq e) n) = as_bytes e.
Proof. reflexivity. Qed.

(** Queueing a frame. *)
Lemma enqueue_ok log t s pay : window_ok log t -> op_ok (Enqueue s pay) ->
  exists a t', exec t (Enqueue s pay) = Ret (a, t') /\ window_ok (log ++ [(s, pay)]) t'.
Proof.
  intros Hw [Hu Hl]. cbn [exec]. destruct (sent_ok s pay Hu Hl) as (h & c & E & Hs & Hk & Hn & Hc).
  unfold sent in E. destruct (data s pay) as [f|] eqn:Ed; [|done]. cbn [mbind outcome_bind] in E |- *. unfold enqueue.
  assert (window_ok (log ++ [(s, pay)]) t) as Hw' by (eapply window_more; [|exact Hw]; intros x Hx; apply elem_of_app; by left).
  destruct (list_find _ (tx_window t)) as [[idx o]|]; [|by eexists _, t].
  destruct (from_frame f) as [e|] eqn:Ee; [|done]. cbn [mbind outcome_bind] in E |- *. eexists _, _. split; [reflexivity|].
  apply window_seq, window_set; [done|]. intros e' [= <-]. pose proof (wo_limit _ _ Hw) as Hlim.
  assert (seq e = Z.land s 7 /\ retries e = 0) as [Hseq Hret].
  { unfold data, sealed in Ed. destruct (compute_crc _) as [cc|]; [|done]. cbn [mbind outcome_bind] in Ed. injection Ed as <-.
    unfold from_frame in Ee. destruct (encode _ _) as [[n d]|]; [|done]. cbn [mbind outcome_bind] in Ee. by injection Ee as <-. }
  split; [|lia]. exists s, pay, (wire h pay c). split; [apply elem_of_app; right; by apply list_elem_of_singleton|]. split; [|done].
  unfold sent. by rewrite Ed; cbn [mbind outcome_bind]; rewrite Ee.
Qed.

(** Asking for a frame again. *)
Lemma retransmit_ok log t n : window_ok log t ->
  exists r t', retransmit t n = Ret (r, t') /\ window_ok log t' /\
  forall raw, r = Ok raw -> exists s pay, (s, pay) ∈ log /\ sent s pay = Ret raw /\ Z.land s 0x07 = n.
Proof.
  intros Hw. unfold retransmit. destruct (position n (tx_window t)) as [[idx [e|]]|] eqn:Ef; [|by eexists _, t|by eexists _, t].
  apply list_find_Some in Ef as (Hi & Hh & _). cbn [slot_holds] in Hh. apply Z.eqb_eq in Hh.
  destruct (wo_entry _ _ Hw _ _ Hi) as [(s & pay & raw & Hin & Hsent & Hraw & Hseq) Hr]. pose proof (wo_limit _ _ Hw) as Hlim.
  destruct (Z.leb_spec (retry_limit t) (retries e)).
  - eexists _, _. split; [reflexivity|]. split; [by apply window_set|done].
  - rewrite as_bytes_retries, Hraw. cbn [mbind outcome_bind]. eexists _, _. split; [reflexivity|]. split.
    + apply window_set; [done|]. intros e' [= <-]. split; [by exists s, pay, raw|]. cbn [retries]. unfold wrap8. rewrite Z.mod_small by lia. lia.
    + intros raw' [= <-]. exists s, pay. split; [done|]. split; [done|]. congruence.
Qed.

Lemma acknowledge_ok log t n : window_ok log t -> window_ok log (acknowledge t n).2.
Proof. intros Hw. unfold acknowledge. destruct (position _ _) as [[idx o]|]; [by apply window_set|done]. Qed.

Lemma window_run_ok os : forall log t, window_ok log t -> Forall op_ok os ->
  exists l t', run t os = Ret (l, t') /\ window_ok (log ++ queued os) t' /\
  forall k n raw, os !! k = Some (Retransmit n) -> l !! k = Some (Resent (Ok raw)) ->
  exists s pay, (s, pay) ∈ log ++ queued (take k os) /\ sent s pay = Ret raw /\ Z.land s 0x07 = n.
Proof.
  induction os as [|o os IH]; intros log t Hw Hos; cbn [run].
  - eexists [], t. split; [done|]. split; [by rewrite app_nil_r|done].
  - apply Forall_cons in Hos as [Ho Hos].
    assert (exists a t1, exec t o = Ret (a, t1) /\ window_ok (log ++ queued [o]) t1 /\
      forall n raw, o = Retransmit n -> a = Resent (Ok raw) -> exists s pay, (s, pay) ∈ log /\ sent s pay = Ret raw /\ Z.land s 0x07 = n)
      as (a & t1 & E1 & W1 & A1).
    { destruct o as [s pay|n|n].
      - destruct (enqueue_ok log t s pay Hw Ho) as (a & t1 & E & W). exists a, t1. split; [done|]. by split.
      - pose proof (acknowledge_ok log t n Hw) as W. cbn [exec]. destruct (acknowledge t n) as [r t1]. eexists _, t1. split; [done|]. split; [|done].
        by rewrite app_nil_r.
      - destruct (retransmit_ok log t n Hw) as (r & t1 & E & W & A). cbn [exec]. rewrite E. eexists _, t1. split; [done|]. split; [by rewrite app_nil_r|].
        intros n' raw [= ->] [= ->]. by apply A. }
    rewrite E1. cbn [mbind outcome_bind]. destruct (IH _ _ W1 Hos) as (l & t2 & E2 & W2 & A2). rewrite E2. cbn [mbind outcome_bind].
    eexists _, t2. split; [reflexivity|].
    assert (forall os', queued (o :: os') = queued [o] ++ queued os') as Hq by (intros os'; unfold queued; cbn; by destruct o).
    split; [by rewrite Hq, app_assoc|]. intros [|k] n raw Hk Ha; cbn [lookup list_lookup] in Hk, Ha.
    + injection Hk as ->. injection Ha as ->. rewrite app_nil_r. by apply (A1 n raw).
    + destruct (A2 k n raw Hk Ha) as (s & pay & Hin & Hr). exists s, pay. split; [|done]. cbn [take]. by rewrite Hq, app_assoc.
Qed.

(** The window keeps what was queued. Whatever frames are queued, acknowledged
    and asked for again, in any order, the transport does not panic and never holds
    more than seven frames; and a retransmission returns, byte for byte, a frame
    that was queued before under the number asked for. *)
Theorem window_keeps_frames c os :
  Forall op_ok os ->
  exists l t, run (new_with_config c) os = Ret (l, t) /\ (in_flight t <= 7)%nat /\
  forall k n raw, os !! k = Some (Retransmit n) -> l !! k = Some (Resent (Ok raw)) ->
  exists s pay, (s, pay) ∈ queued (take k os) /\ sent s pay = Ret raw /\ Z.land s 0x07 = n.
Proof.
  intros Hos. destruct (window_run_ok os [] (new_with_config c) (window_new c) Hos) as (l & t & E & W & A).
  exists l, t. split; [done|]. split; [by eapply in_flight_le|]. exact A.
Qed.

(** The number of retransmissions is bounded by the limit: the next one gives up
    and frees the slot. *)
Fixpoint resend (k : nat) (t : StpTransport) (n : Z) : outcome (list (result (list Z) TransportError) * StpTransport) :=
  match k with
  | O => Ret ([], t)
  | S k => '(r, t) ← retransmit t n; '(l, t) ← resend k t n; Ret (r :: l, t)
  end.

Lemma resend_S k t n : resend (S k) t n = ('(r, t) ← retransmit t n; '(l, t) ← resend k t n; Ret (r :: l, t)).
Proof. reflexivity. Qed.

Lemma resend_exhausts k : forall t idx e n raw,
  tx_window t !! idx = Some (Some e) -> seq e = n -> (forall j o, (j < idx)%nat -> tx_window t !! j = Some o -> slot_holds n o = false) ->
  as_bytes e = Ret raw -> 0 <= retries e -> retry_limit t < 2 ^ 8 -> retry_limit t - retries e = Z.of_nat k ->
  exists t', resend (S k) t n = Ret (replicate k (Ok raw) ++ [Err (RetryLimitExceeded n (retry_limit t))], t') /\
  tx_window t' = <[idx := None]> (tx_window t).
Proof.
  induction k as [|k IH]; intros t idx e n raw Hi Hn Hf Hraw H0 Hlim Hk; rewrite resend_S; unfold retransmit.
  all: assert (position n (tx_window t) = Some (idx, Some e)) as ->
    by (apply list_find_Some; split; [done|]; split; [cbn; by apply Z.eqb_eq|]; intros j o Hj Hlt; rewrite (Hf j o Hlt Hj); done).
  - rewrite (proj2 (Z.leb_le _ _)) by lia. cbn [mbind outcome_bind]. eexists. split; reflexivity.
  - rewrite (proj2 (Z.leb_gt _ _)) by lia. rewrite as_bytes_retries, Hraw. cbn [mbind outcome_bind].
    set (e' := mk_entry _ _ _ _). set (t1 := set_window t _). assert (retries e' = retries e + 1) as Hr'.
    { unfold e'. cbn [retries]. unfold wrap8. apply Z.mod_small. lia. }
    destruct (IH t1 idx e' n raw) as (t' & E & W); try done.
    + cbn [t1 set_window tx_window]. apply list_lookup_insert_eq. by eapply lookup_lt_Some.
    + intros j o Hj Ho. cbn [t1 set_window tx_window] in Ho. rewrite list_lookup_insert_ne in Ho by lia. by eapply Hf.
    + lia.
    + change (retry_limit t1) with (retry_limit t). lia.
    + rewrite E. cbn [mbind outcome_bind]. exists t'. split; [reflexivity|]. rewrite W. cbn [t1 set_window tx_window].
      by rewrite list_insert_insert_eq.
Qed.

(** The sequence numbers wrap at eight while a frame may stay unacknowledged: after
    the other frames of the window have been acknowledged, a second frame with the
    number of the first is queued, and an acknowledgement cannot tell them apart. *)
Lemma sequence_number_reused :
  match run (new_with_config config.default_config)
          ((fun s => Enqueue s [s]) <$> [0; 1; 2; 3; 4; 5; 6]) with
  | Ret (_, t) =>
      match run t ((Acknowledge <$> [1; 2; 3; 4; 5; 6]) ++ [Enqueue (tx_seq t) [7]]) with
      | Ret (_, t) =>
          match run t [Enqueue (tx_seq t) [8]] with
          | Ret (_, t) => map (fun s => match s with Some e => Some (seq e) | None => None end) (tx_window t) = [Some 0; Some 7; Some 0; None; None; None; None]
          | Panic => False
          end
      | Panic => False
      end
  | Panic => False
  end.
Proof. vm_compute. reflexivity. Qed.
Definition demo_ops : list tx_op := [Enqueue 3 [104; 105]; Retransmit 3; Acknowledge 3; Retransmit 3].

Lemma window_keeps_frames_witness :
  exists l t, run (new_with_config config.default_config) demo_ops = Ret (l, t) /\ (in_flight t <= 7)%nat /\
  forall k n raw, demo_ops !! k = Some (Retransmit n) -> l !! k = Some (Resent (Ok raw)) ->
  exists s pay, (s, pay) ∈ queued (take k demo_ops) /\ sent s pay = Ret raw /\ Z.land s 0x07 = n.
Proof.
  refine (window_keeps_frames config.default_config demo_ops _).
  repeat apply Forall_cons_2; [|exact I|exact I|exact I|apply Forall_nil_2]. split; [|cbn; unfold MAX_PAYLOAD; lia].
  apply (bool_decide_unpack (Forall (fun b => 0 <= b < 2 ^ 8) _)). reflexivity.
Defined.

Lemma demo_ops_answers :
  match run (new_with_config config.default_config) demo_ops with
  | Ret (l, t) => in_flight t = 0%nat /\ match l with [Queued (Ok 0); Resent (Ok raw); Acked (Ok _); Resent (Err (StaleAck 3))] => sent 3 [104; 105] = Ret raw | _ => False end
  | Panic => False
  end.
Proof. vm_compute. split; reflexivity. Qed.
End window.
