(* ===== verification/Wmt.v ===== *)
(** * Power and subsystems of the radio chip

    The connectivity manager ([src/crates/kelyphos/src/wmt.rs]): the power-on
    sequence as a state machine, power-off, and the subsystems with their voltage
    regulators. The hardware is any instance of the class [RegisterIo], the trait
    of that file; [RegulatorLaws] is what switching a regulator means. *)

From S2P Require Import Prelude Machine Kelyphos.
From stdpp Require Import base list.
From Stdlib Require Import ZArith Lia.
Open Scope Z_scope.

Module wmt.

Definition SPM_BASE : Z := 0xF0006000.
Definition TOPCKGEN_BASE : Z := 0xF0000000.
Definition CONN_MCU_CONFIG_BASE : Z := 0xF8070000.
Definition AP_RGU_BASE : Z := 0xF0007000.
Definition CONSYS_EMI_FW_PHY_BASE : Z := 0xF0080000.
Definition CONSYS_SPM_PWRON_CFG_REG : Z := SPM_BASE.
Definition CONSYS_TOP1_PWR_CTRL_REG : Z := SPM_BASE + 0x32C.
Definition CONSYS_PWR_CONN_ACK_REG : Z := SPM_BASE + 0x180.
Definition CONSYS_PWR_CONN_ACK_S_REG : Z := SPM_BASE + 0x184.
Definition CONSYS_SPM_PWR_RST_BIT : Z := Z.shiftl 1 0.
Definition CONSYS_SPM_PWR_ISO_S_BIT : Z := Z.shiftl 1 1.
Definition CONSYS_SPM_PWR_ON_BIT : Z := Z.shiftl 1 2.
Definition CONSYS_SPM_PWR_ON_S_BIT : Z := Z.shiftl 1 3.
Definition CONSYS_CLK_CTRL_BIT : Z := Z.shiftl 1 4.
Definition CONSYS_PWRON_CONFG_EN_VALUE : Z := 0x0B160001.
Definition CONSYS_TOPAXI_PROT_EN : Z := TOPCKGEN_BASE + 0x1220.
Definition CONSYS_TOPAXI_PROT_STA1 : Z := TOPCKGEN_BASE + 0x1228.
Definition CONSYS_TOPAXI_PROT_BITS : Z := Z.lor (Z.shiftl 1 13) (Z.shiftl 1 14).
Definition CONSYS_CPU_SW_RST_REG : Z := AP_RGU_BASE + 0x018.
Definition CONSYS_CPU_SW_RST_KEY : Z := Z.shiftl 0x88 24.
Definition CONSYS_CPU_SW_RST_BIT : Z := Z.shiftl 1 12.
Definition CONSYS_CHIP_ID_REG : Z := CONN_MCU_CONFIG_BASE + 0x008.
Definition CONSYS_CHIP_ID_EXPECTED : Z := 0x0699.
Definition CONSYS_MCU_CFG_ACR_REG : Z := CONN_MCU_CONFIG_BASE + 0x110.
Definition CONSYS_MCU_CFG_ACR_MBIST_BIT : Z := Z.shiftl 1 18.
Definition DCXO_CW16_REG : Z := 0x7E.
Definition DCXO_CO_TSX_BIT : Z := Z.shiftl 1 6.
Definition DCXO_TCXO_BIT : Z := Z.shiftl 1 7.
Definition EMI_PAGED_TRACE_OFFSET : Z := 0x400.
Definition EMI_PAGED_DUMP_OFFSET : Z := 0x8400.
Definition EMI_FULL_DUMP_DLM_OFFSET : Z := 0x10400.
Definition EMI_FULL_DUMP_SYSB2_OFFSET : Z := EMI_FULL_DUMP_DLM_OFFSET + 0x1F000.
Definition EMI_FULL_DUMP_SYSB3_OFFSET : Z := EMI_FULL_DUMP_SYSB2_OFFSET + 0x6800.

Inductive Subsystem := Bt | Fm | Gps | Wifi.

Definition mask (s : Subsystem) : Z :=
  match s with Bt => Z.shiftl 1 0 | Fm => Z.shiftl 1 1 | Gps => Z.shiftl 1 2 | Wifi => Z.shiftl 1 3 end.

Inductive PmicRegulator := Vcn18 | Vcn28 | Vcn33Bt | Vcn33Wifi.

#[export] Instance regulator_eq_dec : EqDecision PmicRegulator.
Proof. solve_decision. Defined.

Definition millivolts (r : PmicRegulator) : Z := match r with Vcn18 => 1800 | Vcn28 => 2800 | Vcn33Bt | Vcn33Wifi => 3300 end.

Inductive ClockType := CoTsx | Tcxo | UnknownClock.
Inductive PowerState := Off | On.
Inductive conflict := Enabled | Disabled.

Inductive WmtError :=
  PowerAckTimeout (step : Z) | ChipIdMismatch (expected got : Z) | AxiProtectTimeout | AlreadyPoweredOn | AlreadyPoweredOff
  | SubsystemStateConflict (s : Subsystem) (state : conflict) | ConsysNotPoweredOn (s : Subsystem).

Record EmiRegion := mk_emi { fw_base : Z; paged_trace_base : Z; paged_dump_base : Z; full_dump_dlm_base : Z; full_dump_sysb2_base : Z; full_dump_sysb3_base : Z }.

Definition from_fw_base (b : Z) : EmiRegion :=
  mk_emi b (wrap32 (b + EMI_PAGED_TRACE_OFFSET)) (wrap32 (b + EMI_PAGED_DUMP_OFFSET)) (wrap32 (b + EMI_FULL_DUMP_DLM_OFFSET))
    (wrap32 (b + EMI_FULL_DUMP_SYSB2_OFFSET)) (wrap32 (b + EMI_FULL_DUMP_SYSB3_OFFSET)).

Definition CONSYS_DEFAULT : EmiRegion := from_fw_base CONSYS_EMI_FW_PHY_BASE.

Inductive PowerOnStep :=
  SpmClockEnable | Top1PowerOn | PollPowerAck | ShadowPowerOn | ClockEnable | DelayMicros | PollShadowAck | ReleaseIso | ReleaseSwReset
  | DisableAxiProtect | AssertCpuReset | DetectClockType | EnableClockBuffer | EnableAhbClock | PollChipId | ReleaseCpuReset
  | ApplyAcrSetting | Done.

#[export] Instance step_eq_dec : EqDecision PowerOnStep.
Proof. solve_decision. Defined.

Definition index (s : PowerOnStep) : Z :=
  match s with
  | SpmClockEnable => 1 | Top1PowerOn => 2 | PollPowerAck => 3 | ShadowPowerOn => 4 | ClockEnable => 5 | DelayMicros => 6 | PollShadowAck => 7
  | ReleaseIso => 8 | ReleaseSwReset => 9 | DisableAxiProtect => 10 | AssertCpuReset => 11 | DetectClockType => 12 | EnableClockBuffer => 13
  | EnableAhbClock => 14 | PollChipId => 15 | ReleaseCpuReset => 16 | ApplyAcrSetting => 17 | Done => 0
  end.

(** The trait. *)
Class RegisterIo (R : Type) := {
  read32 : R -> Z -> Z * R;
  write32 : R -> Z -> Z -> R;
  udelay : R -> Z -> R;
  pmic_read : R -> Z -> Z * R;
  clk_buf_ctrl : R -> bool -> R;
  clk_ahb_enable : R -> R;
  pmic_regulator_enable : R -> PmicRegulator -> R;
  pmic_regulator_disable : R -> PmicRegulator -> R;
}.

Section manager.
Context {R : Type} `{!RegisterIo R}.
Implicit Types io : R.

Definition set_bits32 io (addr m : Z) : R := let '(v, io) := read32 io addr in write32 io addr (Z.lor v m).
Definition clear_bits32 io (addr m : Z) : R := let '(v, io) := read32 io addr in write32 io addr (Z.land v (not32 m)).

(** The polling loops: up to [n] reads until one satisfies [ready]. *)
Fixpoint poll (n : nat) io (addr : Z) (ready : Z -> bool) : bool * R :=
  match n with
  | O => (false, io)
  | S n => let '(v, io) := read32 io addr in if ready v then (true, io) else poll n io addr ready
  end.

Definition clock_of (cw16 : Z) : ClockType :=
  if negb (Z.land cw16 DCXO_CO_TSX_BIT =? 0) then CoTsx else if negb (Z.land cw16 DCXO_TCXO_BIT =? 0) then Tcxo else UnknownClock.

Definition execute_and_advance_with_poll (s : PowerOnStep) io (clock : ClockType) (iters : Z) : result PowerOnStep WmtError * R * ClockType :=
  let n := Z.to_nat iters in
  match s with
  | SpmClockEnable => (Ok Top1PowerOn, write32 io CONSYS_SPM_PWRON_CFG_REG CONSYS_PWRON_CONFG_EN_VALUE, clock)
  | Top1PowerOn => (Ok PollPowerAck, set_bits32 io CONSYS_TOP1_PWR_CTRL_REG CONSYS_SPM_PWR_ON_BIT, clock)
  | PollPowerAck =>
      let '(ok, io) := poll n io CONSYS_PWR_CONN_ACK_REG (fun v => negb (Z.land v (Z.shiftl 1 1) =? 0)) in
      (if ok : bool then Ok ShadowPowerOn else Err (PowerAckTimeout (index s)), io, clock)
  | ShadowPowerOn => (Ok ClockEnable, set_bits32 io CONSYS_TOP1_PWR_CTRL_REG CONSYS_SPM_PWR_ON_S_BIT, clock)
  | ClockEnable => (Ok DelayMicros, clear_bits32 io CONSYS_TOP1_PWR_CTRL_REG CONSYS_CLK_CTRL_BIT, clock)
  | DelayMicros => (Ok PollShadowAck, udelay io 1, clock)
  | PollShadowAck =>
      let '(ok, io) := poll n io CONSYS_PWR_CONN_ACK_S_REG (fun v => negb (Z.land v (Z.shiftl 1 1) =? 0)) in
      (if ok : bool then Ok ReleaseIso else Err (PowerAckTimeout (index s)), io, clock)
  | ReleaseIso => (Ok ReleaseSwReset, clear_bits32 io CONSYS_TOP1_PWR_CTRL_REG CONSYS_SPM_PWR_ISO_S_BIT, clock)
  | ReleaseSwReset => (Ok DisableAxiProtect, set_bits32 io CONSYS_TOP1_PWR_CTRL_REG CONSYS_SPM_PWR_RST_BIT, clock)
  | DisableAxiProtect =>
      let io := clear_bits32 io CONSYS_TOPAXI_PROT_EN CONSYS_TOPAXI_PROT_BITS in
      let '(ok, io) := poll n io CONSYS_TOPAXI_PROT_STA1 (fun v => Z.land v CONSYS_TOPAXI_PROT_BITS =? 0) in
      (if ok : bool then Ok AssertCpuReset else Err AxiProtectTimeout, io, clock)
  | AssertCpuReset => (Ok DetectClockType, write32 io CONSYS_CPU_SW_RST_REG (Z.lor CONSYS_CPU_SW_RST_KEY CONSYS_CPU_SW_RST_BIT), clock)
  | DetectClockType => let '(cw16, io) := pmic_read io DCXO_CW16_REG in (Ok EnableClockBuffer, io, clock_of cw16)
  | EnableClockBuffer => (Ok EnableAhbClock, clk_buf_ctrl io true, clock)
  | EnableAhbClock => (Ok PollChipId, clk_ahb_enable io, clock)
  | PollChipId =>
      let '(ok, io) := poll n io CONSYS_CHIP_ID_REG (fun v => v =? CONSYS_CHIP_ID_EXPECTED) in
      if ok : bool then (Ok ReleaseCpuReset, io, clock) else
      let '(got, io) := read32 io CONSYS_CHIP_ID_REG in (Err (ChipIdMismatch CONSYS_CHIP_ID_EXPECTED got), io, clock)
  | ReleaseCpuReset => (Ok ApplyAcrSetting, write32 io CONSYS_CPU_SW_RST_REG CONSYS_CPU_SW_RST_KEY, clock)
  | ApplyAcrSetting => (Ok Done, set_bits32 io CONSYS_MCU_CFG_ACR_REG CONSYS_MCU_CFG_ACR_MBIST_BIT, clock)
  | Done => (Ok Done, io, clock)
  end.

Record WmtManager := mk_manager {
  io : R; power : PowerState; power_on_step : PowerOnStep; clock_type : ClockType; subsystems : Z; emi : EmiRegion; poll_timeout_iters : Z }.

Definition new_with_config (h : R) (c : config.Config) : WmtManager :=
  mk_manager h Off SpmClockEnable UnknownClock 0 CONSYS_DEFAULT (config.poll_budget c).

Definition set_io (m : WmtManager) (h : R) : WmtManager :=
  mk_manager h (power m) (power_on_step m) (clock_type m) (subsystems m) (emi m) (poll_timeout_iters m).

(** The loop of [power_on]. [None] stands for running out of fuel. *)
Fixpoint power_loop (fuel : nat) (m : WmtManager) (step : PowerOnStep) : option (result () WmtError * WmtManager) :=
  match fuel with
  | O => None
  | S fuel =>
      let '(r, h, c) := execute_and_advance_with_poll step (io m) (clock_type m) (poll_timeout_iters m) in
      let m := mk_manager h (power m) step c (subsystems m) (emi m) (poll_timeout_iters m) in
      match r with
      | Err e => Some (Err e, set_io m (pmic_regulator_disable (io m) Vcn18))
      | Ok next =>
          if decide (next = Done)
          then Some (Ok (), mk_manager (io m) On Done (clock_type m) (subsystems m) (emi m) (poll_timeout_iters m))
          else power_loop fuel m next
      end
  end.

Definition power_on (m : WmtManager) : option (result () WmtError * WmtManager) :=
  match power m with
  | On => Some (Err AlreadyPoweredOn, m)
  | Off => power_loop 17 (set_io m (pmic_regulator_enable (io m) Vcn18)) SpmClockEnable
  end.

Definition subsystem_regulator (s : Subsystem) : PmicRegulator := match s with Bt => Vcn33Bt | Wifi => Vcn33Wifi | Gps | Fm => Vcn28 end.
Definition subsystem_enabled (m : WmtManager) (s : Subsystem) : bool := negb (Z.land (subsystems m) (mask s) =? 0).

Definition power_off (m : WmtManager) : result () WmtError * WmtManager :=
  match power m with
  | Off => (Err AlreadyPoweredOff, m)
  | On =>
      let h := write32 (io m) CONSYS_CPU_SW_RST_REG (Z.lor CONSYS_CPU_SW_RST_KEY CONSYS_CPU_SW_RST_BIT) in
      let h := set_bits32 h CONSYS_TOPAXI_PROT_EN CONSYS_TOPAXI_PROT_BITS in
      let h := clk_buf_ctrl h false in
      let h := set_bits32 h CONSYS_TOP1_PWR_CTRL_REG CONSYS_SPM_PWR_ISO_S_BIT in
      let h := clear_bits32 h CONSYS_TOP1_PWR_CTRL_REG CONSYS_SPM_PWR_RST_BIT in
      let h := set_bits32 h CONSYS_TOP1_PWR_CTRL_REG CONSYS_CLK_CTRL_BIT in
      let h := clear_bits32 h CONSYS_TOP1_PWR_CTRL_REG CONSYS_SPM_PWR_ON_S_BIT in
      let h := clear_bits32 h CONSYS_TOP1_PWR_CTRL_REG CONSYS_SPM_PWR_ON_BIT in
      let h := foldl (fun h s => if subsystem_enabled m s then pmic_regulator_disable h (subsystem_regulator s) else h) h [Bt; Fm; Gps; Wifi] in
      let h := pmic_regulator_disable h Vcn18 in
      (Ok (), mk_manager h Off (power_on_step m) (clock_type m) 0 (emi m) (poll_timeout_iters m))
  end.

Definition with_subsystems (m : WmtManager) (h : R) (b : Z) : WmtManager :=
  mk_manager h (power m) (power_on_step m) (clock_type m) b (emi m) (poll_timeout_iters m).

Definition enable_subsystem (m : WmtManager) (s : Subsystem) : result () WmtError * WmtManager :=
  match power m with
  | Off => (Err (ConsysNotPoweredOn s), m)
  | On =>
      if subsystem_enabled m s then (Err (SubsystemStateConflict s Enabled), m) else
      (Ok (), with_subsystems m (pmic_regulator_enable (io m) (subsystem_regulator s)) (Z.lor (subsystems m) (mask s)))
  end.

(** [!mask] of a byte. *)
Definition not8 (v : Z) : Z := Z.lxor v 0xFF.

Definition disable_subsystem (m : WmtManager) (s : Subsystem) : result () WmtError * WmtManager :=
  if negb (subsystem_enabled m s) then (Err (SubsystemStateConflict s Disabled), m) else
  (Ok (), with_subsystems m (pmic_regulator_disable (io m) (subsystem_regulator s)) (Z.land (subsystems m) (not8 (mask s)))).

Definition enable_regulator (m : WmtManager) (r : PmicRegulator) : WmtManager := set_io m (pmic_regulator_enable (io m) r).
Definition disable_regulator (m : WmtManager) (r : PmicRegulator) : WmtManager := set_io m (pmic_regulator_disable (io m) r).
End manager.
Arguments WmtManager R : clear implicits.
(** ** Regulators *)

(** What a regulator is: enabling and disabling switch one, nothing else does. *)
Class RegulatorLaws (R : Type) `{!RegisterIo R} := {
  rail : R -> PmicRegulator -> bool;
  rail_read h a r : rail (read32 h a).2 r = rail h r;
  rail_write h a v r : rail (write32 h a v) r = rail h r;
  rail_udelay h n r : rail (udelay h n) r = rail h r;
  rail_pmic_read h a r : rail (pmic_read h a).2 r = rail h r;
  rail_clk_buf h b r : rail (clk_buf_ctrl h b) r = rail h r;
  rail_clk_ahb h r : rail (clk_ahb_enable h) r = rail h r;
  rail_enable h x r : rail (pmic_regulator_enable h x) r = (if decide (r = x) then true else rail h r);
  rail_disable h x r : rail (pmic_regulator_disable h x) r = (if decide (r = x) then false else rail h r);
}.

Create Rewrite HintDb rails.
#[export] Hint Rewrite @rail_read @rail_write @rail_udelay @rail_pmic_read @rail_clk_buf @rail_clk_ahb : rails.

Section rails.
Context {R : Type} `{!RegisterIo R, !RegulatorLaws R}.
Implicit Types m : WmtManager R.

Lemma rail_set h a v r : rail (set_bits32 h a v) r = rail h r.
Proof. unfold set_bits32. pose proof (rail_read h a r) as H. destruct (read32 h a) as [x h']. cbn [snd] in H. by rewrite rail_write. Qed.

Lemma rail_clear h a v r : rail (clear_bits32 h a v) r = rail h r.
Proof. unfold clear_bits32. pose proof (rail_read h a r) as H. destruct (read32 h a) as [x h']. cbn [snd] in H. by rewrite rail_write. Qed.

Lemma rail_poll n : forall h a f r, rail (poll n h a f).2 r = rail h r.
Proof.
  induction n as [|n IH]; intros h a f r; cbn [poll]; [done|]. pose proof (rail_read h a r) as H. destruct (read32 h a) as [x h']. cbn [snd] in H.
  destruct (f x); [done|]. by rewrite IH.
Qed.

#[local] Hint Rewrite rail_set rail_clear rail_poll : rails.

Lemma enabled_added m h s s' : subsystem_enabled (with_subsystems m h (Z.lor (subsystems m) (mask s))) s' =
  match s, s' with Bt, Bt | Fm, Fm | Gps, Gps | Wifi, Wifi => true | _, _ => subsystem_enabled m s' end.
Proof.
  unfold subsystem_enabled. cbn [subsystems with_subsystems]. rewrite Z.land_lor_distr_l.
  assert (forall x y, y <> 0 -> (Z.lor x y =? 0) = false) as Hy by (intros x y Hy; apply Z.eqb_neq; intros H; by apply Z.lor_eq_0_iff in H as [_ ?]).
  destruct s, s'; first [by rewrite Hy by done|cbn; by rewrite Z.lor_0_r].
Qed.

Lemma enabled_removed m h s s' : subsystem_enabled (with_subsystems m h (Z.land (subsystems m) (not8 (mask s)))) s' =
  match s, s' with Bt, Bt | Fm, Fm | Gps, Gps | Wifi, Wifi => false | _, _ => subsystem_enabled m s' end.
Proof.
  unfold subsystem_enabled. cbn [subsystems with_subsystems]. rewrite <- Z.land_assoc.
  destruct s, s'; first [change (Z.land (not8 (mask _)) _) with 0; by rewrite Z.land_0_r|reflexivity].
Qed.

(** The rails of a manager in order. Nothing is said of the rail that GPS and the
    FM radio share while one of them is on. *)
Record rails_ok m : Prop := {
  ro_core : rail (io m) Vcn18 = match power m with On => true | Off => false end;
  ro_bt : rail (io m) Vcn33Bt = subsystem_enabled m Bt;
  ro_wifi : rail (io m) Vcn33Wifi = subsystem_enabled m Wifi;
  ro_rf : rail (io m) Vcn28 = true -> subsystem_enabled m Gps || subsystem_enabled m Fm = true;
  ro_off : power m = Off -> subsystems m = 0;
}.

Definition polling (s : PowerOnStep) : Prop := s = PollPowerAck \/ s = PollShadowAck \/ s = DisableAxiProtect \/ s = PollChipId.

(** One step: the rails stay, and it leads to the next step unless a poll fails. *)
Lemma step_ok s h c n : s <> Done ->
  let '(r, h', c') := execute_and_advance_with_poll s h c n in
  (forall x, rail h' x = rail h x) /\
  match r with Ok next => next = Done \/ (next <> Done /\ index next = index s + 1) | Err _ => polling s end.
Proof.
  intros Hs. unfold polling. destruct s; try done; cbn [execute_and_advance_with_poll].
  all: try (split; [intros x; autorewrite with rails; reflexivity|first [by left|right; by split]]).
  - pose proof (rail_poll (Z.to_nat n) h CONSYS_PWR_CONN_ACK_REG (fun v => negb (Z.land v (Z.shiftl 1 1) =? 0))) as Hp. destruct (poll _ _ _ _) as [[] h']; split; auto; by right.
  - pose proof (rail_poll (Z.to_nat n) h CONSYS_PWR_CONN_ACK_S_REG (fun v => negb (Z.land v (Z.shiftl 1 1) =? 0))) as Hp. destruct (poll _ _ _ _) as [[] h']; split; auto; by right.
  - pose proof (rail_poll (Z.to_nat n) (clear_bits32 h CONSYS_TOPAXI_PROT_EN CONSYS_TOPAXI_PROT_BITS) CONSYS_TOPAXI_PROT_STA1 (fun v => Z.land v CONSYS_TOPAXI_PROT_BITS =? 0)) as Hp.
    destruct (poll _ _ _ _) as [[] h']; (split; [intros x; cbn [snd] in Hp; rewrite Hp; apply rail_clear|auto]); by right.
  - pose proof (rail_pmic_read h DCXO_CW16_REG) as Hp. destruct (pmic_read _ _) as [v h']. split; [exact Hp|by right].
  - pose proof (rail_poll (Z.to_nat n) h CONSYS_CHIP_ID_REG (fun v => v =? CONSYS_CHIP_ID_EXPECTED)) as Hp. destruct (poll _ _ _ _) as [[] h']; [split; [done|by right]|].
    pose proof (rail_read h' CONSYS_CHIP_ID_REG) as Hr. destruct (read32 _ _) as [v h2]. cbn [snd] in *. split; [intros x; by rewrite Hr|auto].
Qed.

(** What powering on promises. *)
Definition powered m m' (r : result () WmtError) : Prop :=
  match r with
  | Ok _ => power m' = On /\ power_on_step m' = Done /\ rail (io m') Vcn18 = true
  | Err _ => power m' = Off /\ polling (power_on_step m') /\ rail (io m') Vcn18 = false
  end /\ subsystems m' = subsystems m /\ forall x, x <> Vcn18 -> rail (io m') x = rail (io m) x.

Lemma power_loop_ok fuel : forall m s,
  s <> Done -> power m = Off -> rail (io m) Vcn18 = true -> 18 - index s <= Z.of_nat fuel ->
  exists r m', power_loop fuel m s = Some (r, m') /\ powered m m' r.
Proof.
  induction fuel as [|fuel IH]; intros m s Hs Hp Hv Hf; [destruct s; cbn in Hf; lia|]. cbn [power_loop].
  pose proof (step_ok s (io m) (clock_type m) (poll_timeout_iters m) Hs) as Hst.
  destruct (execute_and_advance_with_poll _ _ _ _) as [[[next|e] h] c]; destruct Hst as [Hr Hn]; cbn [io power clock_type subsystems emi poll_timeout_iters].
  - destruct (decide (next = Done)) as [->|Hd].
    + eexists _, _. split; [reflexivity|]. split; [|by split; [|intros; apply Hr]]. cbn. by rewrite Hr.
    + destruct Hn as [?|[_ Hi]]; [done|].
      destruct (IH (mk_manager h (power m) s c (subsystems m) (emi m) (poll_timeout_iters m)) next Hd Hp) as (r & m' & E & P & Hsub & Hx); [cbn; by rewrite Hr|lia|].
      exists r, m'. split; [done|]. split; [done|]. split; [done|]. intros x Hne. rewrite (Hx x Hne). apply Hr.
  - eexists _, _. split; [reflexivity|]. split; [split; [done|split; [done|]]|split; [done|]].
    + cbn. rewrite rail_disable. by destruct (decide _).
    + intros x Hne. cbn. rewrite rail_disable. by destruct (decide _).
Qed.

Lemma power_on_ok m : rails_ok m -> power m = Off -> exists r m', power_on m = Some (r, m') /\ powered m m' r /\ rails_ok m'.
Proof.
  intros Hok Hp. unfold power_on. rewrite Hp. set (m1 := set_io m _).
  destruct (power_loop_ok 17 m1 SpmClockEnable) as (r & m' & E & P & Hsub & Hx); try done; [cbn; rewrite rail_enable; by destruct (decide _)|].
  assert (forall x, x <> Vcn18 -> rail (io m') x = rail (io m) x) as Hrail.
  { intros x Hne. rewrite (Hx x Hne). cbn. rewrite rail_enable. by destruct (decide _). }
  assert (forall s, subsystem_enabled m' s = subsystem_enabled m s) as Hen by (intros s; unfold subsystem_enabled; by rewrite Hsub).
  exists r, m'. split; [done|]. split; [by split|]. destruct Hok as [Hc Hb Hw Hf Ho]. split; rewrite ?Hrail, ?Hen by done; try done.
  - destruct r; destruct P as (-> & _ & ->); done.
  - intros _. rewrite Hsub. by apply Ho.
Qed.
Lemma power_off_ok m : rails_ok m -> rails_ok (power_off m).2.
Proof.
  intros Hok. unfold power_off. destruct (power m) eqn:Hp; [done|]. cbv zeta. cbn [foldl snd subsystem_regulator].
  destruct Hok as [Hc Hb Hw Hf Ho].
  destruct (subsystem_enabled m Bt) eqn:E1, (subsystem_enabled m Fm) eqn:E2, (subsystem_enabled m Gps) eqn:E3, (subsystem_enabled m Wifi) eqn:E4.
  all: split; cbn [io power subsystems]; try done; rewrite ?rail_disable; autorewrite with rails; repeat destruct (decide _); try done.
  all: by intros H; apply Hf in H.
Qed.

Lemma enable_ok m s : rails_ok m -> rails_ok (enable_subsystem m s).2.
Proof.
  intros Hok. unfold enable_subsystem. destruct (power m) eqn:Hp; [done|]. destruct (subsystem_enabled m s) eqn:Es; [done|]. destruct Hok as [Hc Hb Hw Hf Ho].
  split; cbn [snd power]; rewrite ?enabled_added; cbn [io power subsystems with_subsystems]; rewrite ?rail_enable.
  - destruct s; cbn; by rewrite Hc, Hp.
  - by destruct s.
  - by destruct s.
  - destruct s; cbn; rewrite ?orb_true_r; auto.
  - congruence.
Qed.

Lemma disable_ok m s : rails_ok m -> rails_ok (disable_subsystem m s).2.
Proof.
  intros Hok. unfold disable_subsystem. destruct (subsystem_enabled m s) eqn:Es; cbn [negb]; [|done]. destruct Hok as [Hc Hb Hw Hf Ho].
  split; cbn [snd power]; rewrite ?enabled_removed; cbn [io power subsystems with_subsystems]; rewrite ?rail_disable.
  - destruct s; cbn; by rewrite Hc.
  - by destruct s.
  - by destruct s.
  - destruct s; cbn; auto; done.
  - intros Hp. by rewrite (Ho Hp).
Qed.

Inductive wmt_op := PowerOn | PowerOff | Enable (s : Subsystem) | Disable (s : Subsystem).

Definition exec m (o : wmt_op) : option (result () WmtError * WmtManager R) :=
  match o with PowerOn => power_on m | PowerOff => Some (power_off m) | Enable s => Some (enable_subsystem m s) | Disable s => Some (disable_subsystem m s) end.

Fixpoint run m (os : list wmt_op) : option (list (result () WmtError) * WmtManager R) :=
  match os with
  | [] => Some ([], m)
  | o :: os => '(r, m) ← exec m o; '(rs, m) ← run m os; Some (r :: rs, m)
  end.

Lemma exec_ok m o : rails_ok m -> exists r m', exec m o = Some (r, m') /\ rails_ok m'.
Proof.
  intros Hok. destruct o as [| |s|s]; cbn [exec].
  - destruct (power m) eqn:Hp; [|unfold power_on; rewrite Hp; by eexists _, m].
    destruct (power_on_ok m Hok Hp) as (r & m' & E & _ & H). by exists r, m'.
  - pose proof (power_off_ok m Hok). destruct (power_off m) as [r m']. by exists r, m'.
  - pose proof (enable_ok m s Hok). destruct (enable_subsystem m s) as [r m']. by exists r, m'.
  - pose proof (disable_ok m s Hok). destruct (disable_subsystem m s) as [r m']. by exists r, m'.
Qed.

Lemma run_rails os : forall m, rails_ok m -> exists rs m', run m os = Some (rs, m') /\ rails_ok m'.
Proof.
  induction os as [|o os IH]; intros m Hok; cbn [run]; [by exists [], m|]. destruct (exec_ok m o Hok) as (r & m1 & -> & H1). cbn [mbind option_bind].
  destruct (IH m1 H1) as (rs & m2 & -> & H2). cbn [mbind option_bind]. by exists (r :: rs), m2.
Qed.

Lemma new_rails h c : (forall x, rail h x = false) -> rails_ok (new_with_config h c).
Proof. intros Hx. split; cbn [new_with_config io power subsystems]; rewrite ?Hx; done. Qed.

(** C33: The radio is powered as recorded. Over hardware that answers the polls or
    not, any sequence of powering on and off and of enabling and disabling
    subsystems ends (the power-on sequence takes at most seventeen steps), and then
    the core regulator is on exactly when the chip is recorded as on, the Bluetooth
    and Wi-Fi regulators exactly when these subsystems are, the shared RF regulator
    only when GPS or the FM radio is, and everything is off when the chip is off. *)
Theorem rails_follow_state h c os :
  (forall x, rail h x = false) ->
  exists rs m, run (new_with_config h c) os = Some (rs, m) /\
  rail (io m) Vcn18 = match power m with On => true | Off => false end /\
  rail (io m) Vcn33Bt = subsystem_enabled m Bt /\ rail (io m) Vcn33Wifi = subsystem_enabled m Wifi /\
  (rail (io m) Vcn28 = true -> subsystem_enabled m Gps || subsystem_enabled m Fm = true) /\
  (power m = Off -> forall x, rail (io m) x = false).
Proof.
  intros Hx. destruct (run_rails os _ (new_rails h c Hx)) as (rs & m & E & Hok). destruct Hok as [Hc Hb Hw Hf Ho]. exists rs, m.
  do 5 (split; [done|]). intros Hp. assert (forall s, subsystem_enabled m s = false) as Hs by (intros s; unfold subsystem_enabled; by rewrite (Ho Hp)).
  intros []; [by rewrite Hc, Hp| |by rewrite Hb|by rewrite Hw]. apply not_true_is_false. intros H. apply Hf in H. by rewrite !Hs in H.
Qed.

(** C34: Switching the FM radio off cuts GPS. The two share a regulator, and it is
    switched off although the other subsystem is still enabled. *)
Theorem disabling_fm_cuts_gps m :
  subsystem_enabled m Fm = true -> subsystem_enabled m Gps = true ->
  exists m', disable_subsystem m Fm = (Ok (), m') /\ subsystem_enabled m' Gps = true /\ rail (io m') (subsystem_regulator Gps) = false.
Proof.
  intros Hf Hg. unfold disable_subsystem. rewrite Hf. cbn [negb]. eexists. split; [reflexivity|]. rewrite enabled_removed. split; [done|].
  cbn. rewrite rail_disable. by destruct (decide _).
Qed.
End rails.
(** ** A chip *)

Inductive event := Rd (a : Z) | Wr (a v : Z) | Delay (n : Z) | PmicRd (a : Z) | ClkBuf (b : bool) | Ahb | RegOn (r : PmicRegulator) | RegOff (r : PmicRegulator).

(** Hardware that answers reads by address and keeps a record of what was done. *)
Record chip := mk_chip { answers : Z -> Z; trace : list event; on : PmicRegulator -> bool }.

Definition note (c : chip) (e : event) : chip := mk_chip (answers c) (trace c ++ [e]) (on c).
Definition switch (c : chip) (x : PmicRegulator) (b : bool) : chip := mk_chip (answers c) (trace c) (fun r => if decide (r = x) then b else on c r).

#[export] Instance chip_io : RegisterIo chip := {
  read32 c a := (answers c a, note c (Rd a));
  write32 c a v := note c (Wr a v);
  udelay c n := note c (Delay n);
  pmic_read c a := (answers c a, note c (PmicRd a));
  clk_buf_ctrl c b := note c (ClkBuf b);
  clk_ahb_enable c := note c Ahb;
  pmic_regulator_enable c r := switch (note c (RegOn r)) r true;
  pmic_regulator_disable c r := switch (note c (RegOff r)) r false;
}.

#[export] Program Instance chip_laws : RegulatorLaws chip := { rail := on }.
Solve All Obligations with done.

Definition healthy (a : Z) : Z :=
  if (a =? CONSYS_PWR_CONN_ACK_REG) || (a =? CONSYS_PWR_CONN_ACK_S_REG) then 2 else
  if a =? CONSYS_CHIP_ID_REG then CONSYS_CHIP_ID_EXPECTED else if a =? DCXO_CW16_REG then DCXO_TCXO_BIT else 0.

Definition healthy_chip : chip := mk_chip healthy [] (fun _ => false).
(** A chip that never acknowledges. *)
Definition dead_chip : chip := mk_chip (fun _ => 0) [] (fun _ => false).

Definition demo : list wmt_op := [PowerOn; Enable Gps; Enable Fm; Enable Bt; Disable Fm; PowerOff; PowerOff].

Lemma rails_follow_state_witness :
  exists rs m, run (new_with_config healthy_chip config.default_config) demo = Some (rs, m) /\
  rail (io m) Vcn18 = match power m with On => true | Off => false end /\
  rail (io m) Vcn33Bt = subsystem_enabled m Bt /\ rail (io m) Vcn33Wifi = subsystem_enabled m Wifi /\
  (rail (io m) Vcn28 = true -> subsystem_enabled m Gps || subsystem_enabled m Fm = true) /\
  (power m = Off -> forall x, rail (io m) x = false).
Proof. refine (rails_follow_state healthy_chip config.default_config demo _). intros x. reflexivity. Defined.

(** The order of the writes on a chip that answers. *)
Lemma power_on_writes :
  match power_on (new_with_config healthy_chip config.default_config) with
  | Some (r, m) => r = Ok () /\ clock_type m = Tcxo /\
      filter (fun e => match e with Rd _ => false | _ => true end = true) (trace (io m)) =
      [RegOn Vcn18; Wr CONSYS_SPM_PWRON_CFG_REG CONSYS_PWRON_CONFG_EN_VALUE; Wr CONSYS_TOP1_PWR_CTRL_REG CONSYS_SPM_PWR_ON_BIT;
       Wr CONSYS_TOP1_PWR_CTRL_REG CONSYS_SPM_PWR_ON_S_BIT; Wr CONSYS_TOP1_PWR_CTRL_REG 0; Delay 1; Wr CONSYS_TOP1_PWR_CTRL_REG 0;
       Wr CONSYS_TOP1_PWR_CTRL_REG CONSYS_SPM_PWR_RST_BIT; Wr CONSYS_TOPAXI_PROT_EN 0; Wr CONSYS_CPU_SW_RST_REG 0x88001000; PmicRd DCXO_CW16_REG; ClkBuf true; Ahb;
       Wr CONSYS_CPU_SW_RST_REG 0x88000000; Wr CONSYS_MCU_CFG_ACR_REG CONSYS_MCU_CFG_ACR_MBIST_BIT]
  | None => False
  end.
Proof. vm_compute. repeat split. Qed.

(** A chip that does not answer stops the sequence at its first poll, with the
    regulator off again. *)
Lemma dead_chip_stops :
  match power_on (new_with_config dead_chip config.default_config) with
  | Some (r, m) => r = Err (PowerAckTimeout 3) /\ power_on_step m = PollPowerAck /\ power m = Off /\ length (trace (io m)) = 1005%nat /\ last (trace (io m)) = Some (RegOff Vcn18)
  | None => False
  end.
Proof. vm_compute. repeat split. Qed.

Lemma both_radios_on :
  match run (new_with_config healthy_chip config.default_config) [PowerOn; Enable Gps; Enable Fm] with
  | Some (_, m) => subsystem_enabled m Fm = true /\ subsystem_enabled m Gps = true
  | None => False
  end.
Proof. vm_compute. by split. Qed.

Lemma disabling_fm_cuts_gps_witness :
  match run (new_with_config healthy_chip config.default_config) [PowerOn; Enable Gps; Enable Fm] with
  | Some (_, m) => exists m', disable_subsystem m Fm = (Ok (), m') /\ subsystem_enabled m' Gps = true /\ rail (io m') (subsystem_regulator Gps) = false
  | None => False
  end.
Proof.
  pose proof both_radios_on as H. destruct (run _ _) as [[rs m]|]; [|exact H]. exact (disabling_fm_cuts_gps m (proj1 H) (proj2 H)).
Defined.
End wmt.
