(* ===== verification/Gpt.v ===== *)
(** * The partition table ([crates/thumos/src/gpt.rs])

    Locating a partition by name over any block device: the header, its checksum,
    the table, its checksum, and the first entry with the name. The theorems: no
    content of a disk makes the reader panic, what it returns is what an intact
    table says, and a table in which a byte was changed is rejected. *)

From S2P Require Import Prelude Machine Block LfsMeta.
From Stdlib Require Import ZArith Lia.
Open Scope Z_scope.

Module gpt.
Import block codec.

Inductive GptError := BadSignature | HeaderCrcMismatch | EntriesCrcMismatch | Malformed | NotFound | Io | InvalidExtent.

Record PartitionInfo := mk_partition { first_lba : Z; last_lba : Z }.

(** The wrap-around of [u64]. *)
Definition sectors (p : PartitionInfo) : Z := wrap64 (wrap64 (last_lba p - first_lba p) + 1).

Definition crc_bit (crc : Z) : Z := Z.lxor (Z.shiftr crc 1) (if Z.testbit crc 0 then 0xEDB88320 else 0).
Definition crc_byte (crc byte : Z) : Z := Nat.iter 8 crc_bit (Z.lxor crc byte).
Definition crc32 (data : list Z) : Z := not32 (foldl crc_byte 0xFFFFFFFF data).

Definition MAX_ENTRIES : Z := 128.

(** [le32] and [le64]: [n] bytes at [off]. *)
Definition le (buf : list Z) (off n : nat) : outcome Z := b ← slice buf off n; Ret (from_le b).

(** "EFI PART". *)
Definition SIGNATURE : list Z := [69; 70; 73; 32; 80; 65; 82; 84].

Record table_info := mk_info { entries_lba : Z; entry_count : Z; entry_size : Z; entries_crc : Z }.

Definition div_ceil (a b : Z) : Z := (a + b - 1) / b.
Definition entries_bytes (t : table_info) : Z := entry_count t * entry_size t.
Definition entries_sectors (t : table_info) : Z := div_ceil (entries_bytes t) SECTOR_SIZE.

(** The checks of the header, and what it says about the table. *)
Definition parse_header (header : list Z) : outcome (result table_info GptError) :=
  sig ← slice header 0 8;
  if negb (bool_decide (sig = SIGNATURE)) then Ret (Err BadSignature) else
  header_size ← le header 12 4;
  if negb ((92 <=? header_size) && (header_size <=? SECTOR_SIZE)) then Ret (Err Malformed) else
  stored_header_crc ← le header 16 4;
  covered ← slice (put header 16 (replicate 4 0)) 0 (Z.to_nat header_size);
  if negb (crc32 covered =? stored_header_crc) then Ret (Err HeaderCrcMismatch) else
  entries_lba ← le header 72 8;
  entry_count ← le header 80 4;
  entry_size ← le header 84 4;
  if (entry_count =? 0) || (MAX_ENTRIES <? entry_count) then Ret (Err Malformed) else
  if (entry_size <? 128) || (SECTOR_SIZE <? entry_size) || negb (entry_size mod 8 =? 0) then Ret (Err Malformed) else
  stored_entries_crc ← le header 88 4;
  let t := mk_info entries_lba entry_count entry_size stored_entries_crc in
  if 32 <? entries_sectors t then Ret (Err Malformed) else Ret (Ok t).

(** The name as it is compared: a zero after every byte, padded to 72 bytes. *)
Definition name_utf16 (name : list Z) : list Z := (name ≫= fun b => [b; 0]) ++ replicate (72 - 2 * length name) 0.

(** The walk over the entries. *)
Fixpoint walk (table : list Z) (size : nat) (name16 : list Z) (idx : list nat) : outcome (result PartitionInfo GptError) :=
  match idx with
  | [] => Ret (Err NotFound)
  | i :: idx =>
      entry ← slice table (i * size) size;
      guid ← slice entry 0 16;
      if forallb (fun b => b =? 0) guid then walk table size name16 idx else
      label ← slice entry 56 72;
      if bool_decide (label = name16) then
        first ← le entry 32 8;
        last ← le entry 40 8;
        if (last <? first) || (last =? 2 ^ 64 - 1) then Ret (Err InvalidExtent) else Ret (Ok (mk_partition first last))
      else walk table size name16 idx
  end.

Section find.
Context {D : Type} `{!BlockDevice D}.

Definition find_partition (d : D) (name : list Z) : outcome (result PartitionInfo GptError * D) :=
  match read_sectors d 1 1 (replicate (Z.to_nat SECTOR_SIZE) 0) with
  | (Err _, _, d) => Ret (Err Io, d)
  | (Ok _, header, d) =>
      info ← parse_header header;
      match info with
      | Err e => Ret (Err e, d)
      | Ok t =>
          let zeros := replicate (Z.to_nat (32 * SECTOR_SIZE)) 0 in
          let n := Z.to_nat (entries_sectors t * SECTOR_SIZE) in
          window ← slice zeros 0 n;
          match read_sectors d (entries_lba t) (entries_sectors t) window with
          | (Err _, _, d) => Ret (Err Io, d)
          | (Ok _, window, d) =>
              let table := window ++ drop n zeros in
              covered ← slice table 0 (Z.to_nat (entries_bytes t));
              if negb (crc32 covered =? entries_crc t) then Ret (Err EntriesCrcMismatch, d) else
              if (36 <? length name)%nat then Ret (Err NotFound, d) else
              r ← walk table (Z.to_nat (entry_size t)) (name_utf16 name) (seq 0 (Z.to_nat (entry_count t)));
              Ret (r, d)
          end
      end
  end.
End find.

Example crc32_check : crc32 [49; 50; 51; 52; 53; 54; 55; 56; 57] = 0xCBF43926 /\ crc32 [] = 0.
Proof. vm_compute. by split. Qed.

(** ** The checksum *)

Lemma crc_bit_u32 c : is_u32 c -> is_u32 (crc_bit c) /\ Z.testbit (crc_bit c) 31 = Z.testbit c 0.
Proof.
  intros Hc. unfold crc_bit. assert (is_u32 (if Z.testbit c 0 then 0xEDB88320 else 0)) as Hp by (unfold is_u32; destruct (Z.testbit c 0); lia).
  assert (is_u32 (Z.shiftr c 1)) as Hs.
  { unfold is_u32 in *. rewrite Z.shiftr_div_pow2 by lia. split; [apply Z.div_pos; lia|]. apply Z.div_lt_upper_bound; lia. }
  split.
  - apply u32_of_testbit.
    + apply Z.lxor_nonneg. unfold is_u32 in *. lia.
    + intros i Hi. rewrite Z.lxor_spec, (u32_testbit_high _ i Hs), (u32_testbit_high _ i Hp) by done. done.
  - rewrite Z.lxor_spec, Z.shiftr_spec by lia. rewrite (u32_testbit_high c) by (done || lia). by destruct (Z.testbit c 0).
Qed.

Lemma crc_bit_inj a b : is_u32 a -> is_u32 b -> crc_bit a = crc_bit b -> a = b.
Proof.
  intros Ha Hb E. assert (Z.testbit a 0 = Z.testbit b 0) as H0 by (by rewrite <- (proj2 (crc_bit_u32 a Ha)), E, (proj2 (crc_bit_u32 b Hb))).
  unfold crc_bit in E. rewrite H0 in E. assert (Z.shiftr a 1 = Z.shiftr b 1) as Hs.
  { apply (f_equal (fun z => Z.lxor z (if Z.testbit b 0 then 0xEDB88320 else 0))) in E. by rewrite !Z.lxor_assoc, Z.lxor_nilpotent, !Z.lxor_0_r in E. }
  apply Z.bits_inj'. intros n Hn. destruct (Z.eq_dec n 0) as [->|]; [done|].
  replace n with (n - 1 + 1) by lia. by rewrite <- !Z.shiftr_spec, Hs by lia.
Qed.

Lemma crc_iter n : forall a b, is_u32 a -> is_u32 b -> is_u32 (Nat.iter n crc_bit a) /\ (Nat.iter n crc_bit a = Nat.iter n crc_bit b -> a = b).
Proof.
  induction n as [|n IH]; intros a b Ha Hb; [done|]. cbn [Nat.iter nat_rect]. destruct (IH a b Ha Hb) as [Hu Hi]. destruct (IH b a Hb Ha) as [Hu' _]. split.
  - by apply crc_bit_u32.
  - intros E. apply Hi. by apply crc_bit_inj.
Qed.

Lemma byte_u32 c x : is_u32 c -> is_u8 x -> is_u32 (Z.lxor c x).
Proof.
  intros Hc Hx. assert (is_u32 x) as Hx' by (unfold is_u8, is_u32 in *; lia). apply u32_of_testbit.
  - apply Z.lxor_nonneg. unfold is_u32 in *. lia.
  - intros i Hi. by rewrite Z.lxor_spec, (u32_testbit_high _ i Hc), (u32_testbit_high _ i Hx').
Qed.

Lemma crc_byte_u32 c x : is_u32 c -> is_u8 x -> is_u32 (crc_byte c x).
Proof. intros Hc Hx. by apply (crc_iter 8 _ _ (byte_u32 c x Hc Hx) (byte_u32 c x Hc Hx)). Qed.

Lemma crc_byte_cancel c c' x y : is_u32 c -> is_u32 c' -> is_u8 x -> is_u8 y -> crc_byte c x = crc_byte c' y -> Z.lxor c x = Z.lxor c' y.
Proof. intros Hc Hc' Hx Hy. by apply (crc_iter 8 _ _ (byte_u32 c x Hc Hx) (byte_u32 c' y Hc' Hy)). Qed.

Lemma crc_fold_u32 bs : forall c, is_u32 c -> Forall is_u8 bs -> is_u32 (foldl crc_byte c bs).
Proof. induction bs as [|b bs IH]; intros c Hc Hb; [done|]. apply Forall_cons in Hb as [? ?]. apply IH; [by apply crc_byte_u32|done]. Qed.

Lemma crc_fold_inj bs : forall c c', is_u32 c -> is_u32 c' -> Forall is_u8 bs -> foldl crc_byte c bs = foldl crc_byte c' bs -> c = c'.
Proof.
  induction bs as [|b bs IH]; intros c c' Hc Hc' Hb E; [done|]. apply Forall_cons in Hb as [Hb1 Hb2]. cbn [foldl] in E.
  apply IH in E; [|by apply crc_byte_u32|by apply crc_byte_u32|done]. apply crc_byte_cancel in E; try done.
  apply (f_equal (fun z => Z.lxor z b)) in E. by rewrite !Z.lxor_assoc, Z.lxor_nilpotent, !Z.lxor_0_r in E.
Qed.

(** Strings that differ in one byte have different checksums. *)
Lemma crc32_one_byte pre post x y : Forall is_u8 pre -> Forall is_u8 post -> is_u8 x -> is_u8 y -> x <> y ->
  crc32 (pre ++ x :: post) <> crc32 (pre ++ y :: post).
Proof.
  intros Hpre Hpost Hx Hy Hne E. unfold crc32, not32 in E. apply (f_equal (fun z => Z.lxor z (2 ^ 32 - 1))) in E.
  rewrite !Z.lxor_assoc, Z.lxor_nilpotent, !Z.lxor_0_r in E. rewrite !foldl_app in E. cbn [foldl] in E.
  pose proof (crc_fold_u32 pre 0xFFFFFFFF ltac:(unfold is_u32; lia) Hpre) as Hu.
  apply crc_fold_inj in E; [|by apply crc_byte_u32|by apply crc_byte_u32|done]. apply crc_byte_cancel in E; try done.
  apply Hne. rewrite !(Z.lxor_comm (foldl _ _ _)) in E. apply (f_equal (fun z => Z.lxor z (foldl crc_byte 0xFFFFFFFF pre))) in E.
  by rewrite !Z.lxor_assoc, Z.lxor_nilpotent, !Z.lxor_0_r in E.
Qed.
(** ** What the reader promises *)

Definition entry_of (table : list Z) (size i : nat) : list Z := take size (drop (i * size) table).
Definition used (e : list Z) : bool := negb (forallb (fun b => b =? 0) (take 16 e)).
Definition label (e : list Z) : list Z := take 72 (drop 56 e).

Definition extent (e : list Z) : result PartitionInfo GptError :=
  let first := from_le (take 8 (drop 32 e)) in
  let last := from_le (take 8 (drop 40 e)) in
  if (last <? first) || (last =? 2 ^ 64 - 1) then Err InvalidExtent else Ok (mk_partition first last).

(** The extent of the first entry in use that carries the name. *)
Definition named (es : list (list Z)) (name16 : list Z) : result PartitionInfo GptError :=
  match list_find (fun e => used e && bool_decide (label e = name16) = true) es with
  | Some (_, e) => extent e
  | None => Err NotFound
  end.

(** The bytes of the table, and the answer of an intact disk. *)
Definition table_of (disk : Z -> list Z) (t : table_info) : list Z := mjoin (disk <$> seqZ (entries_lba t) (entries_sectors t)).

Definition answer (disk : Z -> list Z) (name : list Z) : result PartitionInfo GptError :=
  match parse_header (disk 1) with
  | Ret (Ok t) =>
      if negb (crc32 (take (Z.to_nat (entries_bytes t)) (table_of disk t)) =? entries_crc t) then Err EntriesCrcMismatch else
      if (36 <? length name)%nat then Err NotFound else
      named (entry_of (table_of disk t) (Z.to_nat (entry_size t)) <$> seq 0 (Z.to_nat (entry_count t))) (name_utf16 name)
  | Ret (Err e) => Err e
  | Panic => Err Malformed
  end.

Lemma le_ret buf off n : (off + n <= length buf)%nat -> le buf off n = Ret (from_le (take n (drop off buf))).
Proof. intros H. unfold le. by rewrite slice_ret. Qed.

Lemma from_le_below bs : Forall is_u8 bs -> 0 <= from_le bs < 2 ^ (8 * Z.of_nat (length bs)).
Proof.
  induction 1 as [|b bs Hb _ IH]; [done|]. change (from_le (b :: bs)) with (b + 2 ^ 8 * from_le bs). cbn [length].
  replace (8 * Z.of_nat (S (length bs))) with (8 + 8 * Z.of_nat (length bs)) by lia. rewrite Z.pow_add_r by lia. unfold is_u8 in Hb. nia.
Qed.

Lemma field_below buf off n : Forall is_u8 buf -> 0 <= from_le (take n (drop off buf)) < 2 ^ (8 * Z.of_nat n).
Proof.
  intros Hb. pose proof (from_le_below (take n (drop off buf)) ltac:(by apply Forall_take, Forall_drop)) as H. split; [lia|].
  eapply Z.lt_le_trans; [apply H|]. apply Z.pow_le_mono_r; [lia|]. rewrite length_take. lia.
Qed.

Record info_ok (t : table_info) : Prop := {
  io_lba : is_u64 (entries_lba t);
  io_count : 0 < entry_count t <= MAX_ENTRIES;
  io_size : 128 <= entry_size t <= SECTOR_SIZE;
  io_sectors : 0 <= entries_sectors t <= 32;
}.

Lemma sectors_cover t : 0 <= entries_bytes t -> entries_bytes t <= entries_sectors t * SECTOR_SIZE /\ 0 <= entries_sectors t.
Proof.
  intros H. unfold entries_sectors, div_ceil, SECTOR_SIZE. pose proof (Z.div_mod (entries_bytes t + 512 - 1) 512 ltac:(lia)).
  pose proof (Z.mod_pos_bound (entries_bytes t + 512 - 1) 512 ltac:(lia)). pose proof (Z.div_pos (entries_bytes t + 512 - 1) 512 ltac:(lia) ltac:(lia)). lia.
Qed.

Lemma parse_header_ok header : length header = Z.to_nat SECTOR_SIZE -> Forall is_u8 header ->
  exists r, parse_header header = Ret r /\ forall t, r = Ok t -> info_ok t.
Proof.
  intros Hl Hb. change (Z.to_nat SECTOR_SIZE) with 512%nat in Hl. unfold parse_header. rewrite (slice_ret header 0 8) by lia. cbn [mbind outcome_bind].
  destruct (negb _); [by eexists|]. rewrite (le_ret header 12 4) by lia. cbn [mbind outcome_bind]. set (hs := from_le (take 4 (drop 12 header))).
  destruct (Z.leb_spec 92 hs), (Z.leb_spec hs SECTOR_SIZE); cbn [andb negb]; try (by eexists). rewrite (le_ret header 16 4) by lia. cbn [mbind outcome_bind].
  assert (length (put header 16 (replicate 4 0)) = 512%nat) as Hpl by (unfold put; rewrite !length_app, length_take, length_drop, length_replicate; lia).
  rewrite (slice_ret (put header 16 (replicate 4 0))) by (rewrite Hpl; unfold SECTOR_SIZE in *; lia). cbn [mbind outcome_bind].
  destruct (negb _); [by eexists|]. rewrite (le_ret header 72 8), (le_ret header 80 4), (le_ret header 84 4), (le_ret header 88 4) by lia. cbn [mbind outcome_bind]. set (c := from_le (take 4 (drop 80 header))). set (z := from_le (take 4 (drop 84 header))).
  destruct (Z.eqb_spec c 0), (Z.ltb_spec MAX_ENTRIES c); cbn [orb]; try (by eexists).
  destruct (Z.ltb_spec z 128), (Z.ltb_spec SECTOR_SIZE z); cbn [orb]; try (by eexists). destruct (negb _); [by eexists|].
  set (t := mk_info _ _ _ _). destruct (Z.ltb_spec 32 (entries_sectors t)); [by eexists|]. eexists. split; [reflexivity|]. intros t' [= <-].
  pose proof (field_below header 72 8 Hb) as H72. pose proof (field_below header 80 4 Hb) as H80.
  assert (0 <= entries_bytes t) as Hbytes by (unfold entries_bytes; cbn [entry_count entry_size t]; lia).
  split; cbn [entries_lba entry_count entry_size t]; [exact H72|lia|lia|]. pose proof (sectors_cover t Hbytes). lia.
Qed.

Lemma walk_ok table size name16 idx : (128 <= size)%nat -> (forall i, i ∈ idx -> (i * size + size <= length table)%nat) ->
  walk table size name16 idx = Ret (named (entry_of table size <$> idx) name16).
Proof.
  intros Hs. induction idx as [|i idx IH]; intros Hi; cbn [walk]; [done|]. unfold named. cbn [fmap list_fmap list_find].
  rewrite (slice_ret table) by (apply Hi; left). cbn [mbind outcome_bind]. fold (entry_of table size i). set (e := entry_of table size i).
  assert (length e = size) as Hl. { unfold e, entry_of. rewrite length_take, length_drop. pose proof (Hi i ltac:(left)). lia. }
  rewrite (slice_ret e 0 16) by lia. cbn [mbind outcome_bind]. rewrite drop_0.
  assert (walk table size name16 idx = Ret (named (entry_of table size <$> idx) name16)) as IH' by (apply IH; intros j Hj; apply Hi; by right).
  destruct (forallb _ (take 16 e)) eqn:Eu.
  - rewrite decide_False by (unfold used; by rewrite Eu). rewrite IH'. unfold named. by destruct (list_find _ (entry_of table size <$> idx)) as [[? ?]|].
  - rewrite (slice_ret e 56 72) by lia. cbn [mbind outcome_bind]. case_bool_decide as Hn.
    + rewrite decide_True by (unfold used, label; rewrite Eu, bool_decide_eq_true_2 by done; done).
      rewrite (le_ret e 32 8), (le_ret e 40 8) by lia. cbn [mbind outcome_bind]. unfold extent. by destruct (_ || _).
    + rewrite decide_False by (unfold label; rewrite bool_decide_eq_false_2 by done; by rewrite andb_false_r).
      rewrite IH'. unfold named. by destruct (list_find _ (entry_of table size <$> idx)) as [[? ?]|].
Qed.

Lemma named_extent es name16 p : Forall (Forall is_u8) es -> named es name16 = Ok p ->
  0 <= first_lba p <= last_lba p /\ last_lba p < 2 ^ 64 - 1.
Proof.
  intros Hes. unfold named. destruct (list_find _ es) as [[i e]|] eqn:Ef; [|done]. apply list_find_Some in Ef as (He & _ & _).
  eapply Forall_lookup_1 in He; [|exact Hes]. unfold extent. pose proof (field_below e 32 8 He). pose proof (field_below e 40 8 He).
  destruct (Z.ltb_spec (from_le (take 8 (drop 40 e))) (from_le (take 8 (drop 32 e)))); cbn [orb]; [done|].
  destruct (Z.eqb_spec (from_le (take 8 (drop 40 e))) (2 ^ 64 - 1)); [done|]. intros [= <-]. cbn [first_lba last_lba]. lia.
Qed.
(** ** The specification of an answer *)

(** A little-endian field of a sector. *)
Definition field (s : list Z) (off n : nat) : Z := from_le (take n (drop off s)).

(** The bytes the checksum of the header is over: the field of the checksum itself counts as zero. *)
Definition checked_bytes (h : list Z) : list Z :=
  imap (fun i b => if decide (16 <= i < 20)%nat then 0 else b) (take (Z.to_nat (field h 12 4)) h).

(** A sector that is an intact header, and the table it describes. *)
Record describes (h : list Z) (t : table_info) : Prop := {
  ds_signature : take 8 h = SIGNATURE;
  ds_header_size : 92 <= field h 12 4 <= 512;
  ds_checksum : crc32 (checked_bytes h) = field h 16 4;
  ds_lba : entries_lba t = field h 72 8;
  ds_entries : entry_count t = field h 80 4 /\ 0 < entry_count t <= 128;
  ds_entry_size : entry_size t = field h 84 4 /\ 128 <= entry_size t <= 512 /\ entry_size t mod 8 = 0;
  ds_entries_crc : entries_crc t = field h 88 4;
  ds_fits : entry_count t * entry_size t <= 32 * 512;
}.

Definition checksum_fits (disk : Z -> list Z) (t : table_info) : Prop :=
  crc32 (take (Z.to_nat (entry_count t * entry_size t)) (table_of disk t)) = entries_crc t.
Definition intact (disk : Z -> list Z) (t : table_info) : Prop := describes (disk 1) t /\ checksum_fits disk t.

Definition entries (disk : Z -> list Z) (t : table_info) : list (list Z) :=
  entry_of (table_of disk t) (Z.to_nat (entry_size t)) <$> seq 0 (Z.to_nat (entry_count t)).

(** An entry in use whose name, in two-byte characters, is [name]. *)
Definition carries (name e : list Z) : Prop :=
  used e = true /\ (length name <= 36)%nat /\ label e = resize 72 0 (mjoin ((fun b => [b; 0]) <$> name)).
Definition first_named (es : list (list Z)) (name e : list Z) : Prop :=
  exists i, es !! i = Some e /\ carries name e /\ forall j e', (j < i)%nat -> es !! j = Some e' -> ~ carries name e'.
Definition forward (e : list Z) : Prop := field e 32 8 <= field e 40 8 < 2 ^ 64 - 1.

(** What an answer says of the disk. *)
Definition says (disk : Z -> list Z) (name : list Z) (r : result PartitionInfo GptError) : Prop :=
  match r with
  | Ok p => exists t e, intact disk t /\ first_named (entries disk t) name e /\ forward e /\ p = mk_partition (field e 32 8) (field e 40 8)
  | Err InvalidExtent => exists t e, intact disk t /\ first_named (entries disk t) name e /\ ~ forward e
  | Err NotFound => exists t, intact disk t /\ forall e, e ∈ entries disk t -> ~ carries name e
  | Err EntriesCrcMismatch => exists t, describes (disk 1) t /\ ~ checksum_fits disk t
  | Err BadSignature => take 8 (disk 1) <> SIGNATURE
  | Err HeaderCrcMismatch => take 8 (disk 1) = SIGNATURE /\ crc32 (checked_bytes (disk 1)) <> field (disk 1) 16 4
  | Err Malformed => take 8 (disk 1) = SIGNATURE /\ forall t, ~ describes (disk 1) t
  | Err Io => False
  end.

Lemma checked_bytes_put h :
  length h = 512%nat -> 92 <= field h 12 4 <= 512 -> take (Z.to_nat (field h 12 4)) (put h 16 (replicate 4 0)) = checked_bytes h.
Proof.
  intros Hl Hs. unfold checked_bytes. set (n := Z.to_nat _). assert (92 <= n <= 512)%nat as Hn by lia. clearbody n.
  apply list_eq. intros i. rewrite list_lookup_imap. destruct (decide (i < n)%nat) as [Hi|Hi].
  2:{ rewrite !lookup_take_ge by lia. done. }
  rewrite !lookup_take_lt by done. unfold put. rewrite length_replicate.
  destruct (decide (i < 16)%nat); [rewrite lookup_app_l, lookup_take_lt by (rewrite ?length_take; lia)|].
  { destruct (h !! i) as [b|]; [|done]. cbn. by rewrite decide_False by lia. }
  rewrite lookup_app_r by (rewrite length_take; lia). rewrite length_take, Hl. replace (i - 16 `min` 512)%nat with (i - 16)%nat by lia.
  destruct (lookup_lt_is_Some_2 h i) as [b Hb]; [lia|]. rewrite Hb. cbn [fmap option_fmap option_map]. destruct (decide (i < 20)%nat).
  - rewrite decide_True, lookup_app_l, lookup_replicate_2 by (rewrite ?length_replicate; lia). done.
  - rewrite decide_False by lia. rewrite lookup_app_r, length_replicate, lookup_drop by (rewrite length_replicate; lia).
    replace (16 + 4 + (i - 16 - 4))%nat with i by lia. done.
Qed.

(** The checks of the header decide whether the sector describes a table. *)
Lemma parse_header_says h : length h = 512%nat -> Forall is_u8 h ->
  exists r, parse_header h = Ret r /\
  match r with
  | Ok t => describes h t
  | Err BadSignature => take 8 h <> SIGNATURE
  | Err HeaderCrcMismatch => take 8 h = SIGNATURE /\ crc32 (checked_bytes h) <> field h 16 4
  | Err Malformed => take 8 h = SIGNATURE /\ forall t, ~ describes h t
  | Err _ => False
  end.
Proof.
  intros Hl Hb. unfold parse_header. rewrite (slice_ret h 0 8) by lia. rewrite drop_0. cbn [mbind outcome_bind].
  case_bool_decide as Hsig; cbn [negb]; [|by eexists]. rewrite !le_ret by lia. cbn [mbind outcome_bind].
  change (from_le (take 4 (drop 12 h))) with (field h 12 4). change (from_le (take 4 (drop 16 h))) with (field h 16 4).
  change (from_le (take 8 (drop 72 h))) with (field h 72 8). change (from_le (take 4 (drop 80 h))) with (field h 80 4).
  change (from_le (take 4 (drop 84 h))) with (field h 84 4). change (from_le (take 4 (drop 88 h))) with (field h 88 4).
  unfold MAX_ENTRIES, SECTOR_SIZE.
  destruct (Z.leb_spec 92 (field h 12 4)), (Z.leb_spec (field h 12 4) 512); cbn [andb negb];
    try (eexists; split; [reflexivity|]; split; [done|]; intros t' Ds; pose proof (ds_header_size _ _ Ds); lia).
  rewrite slice_ret by (unfold put; rewrite !length_app, length_take, length_drop, length_replicate; lia). rewrite drop_0, checked_bytes_put by lia.
  cbn [mbind outcome_bind]. destruct (Z.eqb_spec (crc32 (checked_bytes h)) (field h 16 4)) as [Hcrc|]; cbn [negb]; [|by eexists].
  pose proof (field_below h 80 4 Hb) as H80. fold (field h 80 4) in H80.
  destruct (Z.eqb_spec (field h 80 4) 0), (Z.ltb_spec 128 (field h 80 4)); cbn [orb];
    try (eexists; split; [reflexivity|]; split; [done|]; intros t' Ds; destruct (ds_entries _ _ Ds); lia).
  destruct (Z.ltb_spec (field h 84 4) 128), (Z.ltb_spec 512 (field h 84 4)); cbn [orb];
    try (eexists; split; [reflexivity|]; split; [done|]; intros t' Ds; destruct (ds_entry_size _ _ Ds); lia).
  destruct (Z.eqb_spec (field h 84 4 mod 8) 0) as [Hm|Hm]; cbn [negb];
    [|eexists; split; [reflexivity|]; split; [done|]; intros t' Ds; apply Hm; destruct (ds_entry_size _ _ Ds) as (<- & _ & ?); done].
  set (t := mk_info _ _ _ _).
  assert (entries_sectors t <= 32 <-> field h 80 4 * field h 84 4 <= 32 * 512) as Hfit.
  { unfold entries_sectors, div_ceil, entries_bytes, SECTOR_SIZE. cbn [entry_count entry_size t].
    generalize (field h 80 4 * field h 84 4) as x. intros x. pose proof (Z_div_mod_eq_full (x + 512 - 1) 512). pose proof (Z.mod_pos_bound (x + 512 - 1) 512). lia. }
  destruct (Z.ltb_spec 32 (entries_sectors t)).
  - eexists. split; [reflexivity|]. split; [done|]. intros t' Ds. pose proof (ds_fits _ _ Ds) as Hf.
    rewrite (proj1 (ds_entries _ _ Ds)), (proj1 (ds_entry_size _ _ Ds)) in Hf. apply Hfit in Hf. lia.
  - eexists. split; [reflexivity|]. constructor; cbn [entries_lba entry_count entry_size entries_crc t]; first [done | lia].
Qed.

Lemma name_utf16_eq name : (length name <= 36)%nat -> name_utf16 name = resize 72 0 (mjoin ((fun b => [b; 0]) <$> name)).
Proof.
  intros Hl. unfold name_utf16. rewrite resize_spec.
  assert ((name ≫= fun b => [b; 0]) = mjoin ((fun b => [b; 0]) <$> name) /\ length (mjoin ((fun b => [b; 0]) <$> name)) = (2 * length name)%nat) as [-> Hlen].
  { clear. induction name as [|b name [IH1 IH2]]; [done|]. split; [cbn; cbn in IH1; by rewrite IH1|].
    change (mjoin ((fun b => [b; 0]) <$> b :: name)) with (b :: 0 :: mjoin ((fun b => [b; 0]) <$> name)). cbn [length]. lia. }
  rewrite take_ge by lia. by rewrite Hlen.
Qed.

Lemma named_says es name : Forall (Forall is_u8) es -> (length name <= 36)%nat ->
  match named es (name_utf16 name) with
  | Ok p => exists e, first_named es name e /\ forward e /\ p = mk_partition (field e 32 8) (field e 40 8)
  | Err InvalidExtent => exists e, first_named es name e /\ ~ forward e
  | Err NotFound => forall e, e ∈ es -> ~ carries name e
  | Err _ => False
  end.
Proof.
  intros Hu Hl. unfold named.
  assert (forall e, used e && bool_decide (label e = name_utf16 name) = true <-> carries name e) as Hc.
  { intros e. unfold carries. rewrite andb_true_iff, bool_decide_eq_true, name_utf16_eq by done. naive_solver. }
  destruct (list_find _ es) as [[i e]|] eqn:Ef.
  - apply list_find_Some in Ef as (He & Hp & Hfirst).
    assert (first_named es name e) as Hfn.
    { exists i. split_and!; [done|by apply Hc|]. intros j e' Hj He' Hcar. by apply (Hfirst j e' He' Hj), Hc. }
    unfold extent. change (from_le (take 8 (drop 32 e))) with (field e 32 8). change (from_le (take 8 (drop 40 e))) with (field e 40 8).
    destruct (Z.ltb_spec (field e 40 8) (field e 32 8)); cbn [orb]; [exists e; split; [done|]; unfold forward; lia|].
    destruct (Z.eqb_spec (field e 40 8) (2 ^ 64 - 1)) as [E|]; [exists e; split; [done|]; unfold forward; lia|].
    pose proof (field_below e 40 8 ltac:(by eapply Forall_lookup_1)) as Hb. fold (field e 40 8) in Hb.
    exists e. split_and!; [done|unfold forward; lia|done].
  - apply list_find_None in Ef. rewrite Forall_forall in Ef. intros e He Hcar. by apply (Ef e He), Hc.
Qed.

Section reader.
Context {D : Type} `{!BlockDevice D, !BlockDeviceLaws D}.

(** A device that holds bytes. *)
Definition readable (d : D) : Prop := dev_ok d /\ forall i, Forall is_u8 (sector d i).

Lemma table_u8 (disk : Z -> list Z) t : (forall i, Forall is_u8 (disk i)) -> Forall is_u8 (table_of disk t).
Proof. intros H. unfold table_of. apply Forall_join, Forall_fmap, Forall_forall. intros i _. apply H. Qed.

Lemma walk_table t table rest name16 : info_ok t -> entries_bytes t <= Z.of_nat (length table) ->
  walk (table ++ rest) (Z.to_nat (entry_size t)) name16 (seq 0 (Z.to_nat (entry_count t))) =
  Ret (named (entry_of table (Z.to_nat (entry_size t)) <$> seq 0 (Z.to_nat (entry_count t))) name16).
Proof.
  intros [_ Hc Hz _] Hl. unfold entries_bytes in Hl. assert (forall i, i ∈ seq 0 (Z.to_nat (entry_count t)) ->
    (i * Z.to_nat (entry_size t) + Z.to_nat (entry_size t) <= length table)%nat) as Hi.
  { intros i Hi%elem_of_seq. nia. }
  rewrite walk_ok; [|lia|intros i Hin; rewrite length_app; pose proof (Hi i Hin); lia].
  do 2 f_equal. apply list_fmap_ext. intros k i Hk%list_elem_of_lookup_2. pose proof (Hi i Hk). unfold entry_of.
  rewrite drop_app_le, take_app_le by (rewrite ?length_drop; lia). reflexivity.
Qed.

Lemma find_ok d name : readable d ->
  exists r d', find_partition d name = Ret (r, d') /\ (r = Err Io \/ r = answer (sector d) name) /\
  (forall i, sector d' i = sector d i) /\ dev_ok d' /\ sector_count d' = sector_count d.
Proof.
  intros [Hd Hu]. unfold find_partition, answer. destruct (read_sectors d 1 1 _) as [[r1 header] d1] eqn:E1.
  destruct (read_same d 1 1 _ _ _ _ Hd ltac:(lia) ltac:(lia) E1) as (Hd1 & C1 & S1 & _). destruct r1 as [[]|e1]; [|eauto 10].
  destruct (read_ok d 1 1 _ _ _ Hd ltac:(lia) ltac:(lia) E1) as [_ Eh]. change (seqZ 1 1) with [1] in Eh. cbn in Eh. rewrite app_nil_r in Eh. subst header.
  destruct (parse_header_ok (sector d 1) (sector_length d 1 Hd) (Hu 1)) as (info & Ep & Hinfo). rewrite Ep. cbn [mbind outcome_bind].
  destruct info as [t|e]; [|eauto 10]. specialize (Hinfo t eq_refl). pose proof (io_sectors _ Hinfo) as Hs.
  assert (0 <= entries_bytes t) as Hb by (unfold entries_bytes; pose proof (io_count _ Hinfo); pose proof (io_size _ Hinfo); nia).
  pose proof (sectors_cover t Hb) as [Hcov _]. set (n := Z.to_nat (entries_sectors t * SECTOR_SIZE)). set (zeros := replicate (Z.to_nat (32 * SECTOR_SIZE)) 0).
  assert (n <= length zeros)%nat as Hn by (unfold n, zeros; rewrite length_replicate; unfold SECTOR_SIZE; lia).
  assert (Z.to_nat (entries_bytes t) <= n)%nat as Hbn by (unfold n; lia). clearbody zeros n.
  rewrite slice_ret by lia. cbn [mbind outcome_bind]. rewrite drop_0. destruct (read_sectors d1 _ _ _) as [[r2 window] d2] eqn:E2.
  destruct (read_same d1 (entries_lba t) (entries_sectors t) _ _ _ _ Hd1 (proj1 (io_lba _ Hinfo)) ltac:(lia) E2) as (Hd2 & C2 & S2 & L2). rewrite length_take in L2. rewrite C1 in C2.
  assert (forall i, sector d2 i = sector d i) as S by (intros i; by rewrite S2, S1). destruct r2 as [[]|e2]; [|eauto 10].
  destruct (read_ok d1 (entries_lba t) (entries_sectors t) _ _ _ Hd1 (proj1 (io_lba _ Hinfo)) ltac:(lia) E2) as [_ Et].
  assert (window = table_of (sector d) t) as -> by (rewrite Et; unfold table_of; f_equal; apply list_fmap_ext; intros ? i _; apply S1).
  rewrite slice_ret by (rewrite length_app; lia). cbn [mbind outcome_bind]. rewrite drop_0, take_app_le by lia.
  destruct (negb _); [eauto 10|]. destruct (36 <? length name)%nat; [eauto 10|].
  rewrite walk_table; [|done|lia]. cbn [mbind outcome_bind]. eauto 10.
Qed.

Lemma answer_extent d name p : readable d -> Ok p = answer (sector d) name ->
  0 <= first_lba p <= last_lba p /\ last_lba p < 2 ^ 64 - 1 /\ sectors p = last_lba p - first_lba p + 1.
Proof.
  intros Hr A. symmetry in A. unfold answer in A. destruct (parse_header _) as [[t|]|]; try done.
  destruct (negb _); [done|]. destruct (36 <? _)%nat; [done|]. apply named_extent in A as [Hp Hm].
  - split; [done|]. split; [done|]. unfold sectors, wrap64. rewrite (Z.mod_small (_ - _)), Z.mod_small by lia. done.
  - apply Forall_fmap, Forall_forall. intros i _. unfold compose, entry_of. apply Forall_take, Forall_drop, table_u8, Hr.
Qed.

Lemma answer_says d name : readable d -> says (sector d) name (answer (sector d) name).
Proof.
  intros [Hd Hu]. unfold answer. destruct (parse_header_says (sector d 1) (sector_length d 1 Hd) (Hu 1)) as (r & -> & Hr).
  destruct r as [t|[]]; try done. fold (entries (sector d) t). unfold entries_bytes.
  assert (Forall (Forall is_u8) (entries (sector d) t)) as Hes.
  { apply Forall_fmap, Forall_forall. intros i _. unfold compose, entry_of. by apply Forall_take, Forall_drop, table_u8. }
  destruct (Z.eqb_spec (crc32 (take (Z.to_nat (entry_count t * entry_size t)) (table_of (sector d) t))) (entries_crc t)) as [Hc|Hc]; cbn [negb];
    [|exists t; by split].
  destruct (Nat.ltb_spec 36 (length name)) as [Hlong|Hshort].
  - exists t. split; [done|]. intros e _ (_ & Hl & _). lia.
  - pose proof (named_says (entries (sector d) t) name Hes ltac:(lia)) as Hn.
    destruct (named _ _) as [p|[]]; try done; [destruct Hn as (e & ? & ? & ->); by exists t, e|by exists t|destruct Hn as (e & ? & ?); by exists t, e].
Qed.

(** C35: The partition is the one an intact table names. Whatever a disk holds, the
    reader does not panic and changes nothing: it reports a transfer that failed, or
    gives the one answer that fits the bytes on the disk. A partition means that
    sector 1 is a header with the signature, a size between 92 and 512 and the
    checksum of its bytes, that the table it describes has sane dimensions and its
    checksum, and that the first entry in use with the name holds this forward
    extent, whose length is computed without overflow; each error means that the
    corresponding condition fails. The revision of the header is not looked at. *)
Theorem find_partition_exact d name : readable d ->
  exists r d', find_partition d name = Ret (r, d') /\ (forall i, sector d' i = sector d i) /\ (r = Err Io \/ says (sector d) name r) /\
  forall p, r = Ok p -> 0 <= first_lba p <= last_lba p /\ last_lba p < 2 ^ 64 - 1 /\ sectors p = last_lba p - first_lba p + 1.
Proof.
  intros Hr. destruct (find_ok d name Hr) as (r & d' & E & A & S & _). exists r, d'. split; [done|]. split; [done|]. split.
  - destruct A as [ | -> ]; [by left|right; by apply answer_says].
  - intros p ->. destruct A as [|A]; [done|]. by apply (answer_extent d name).
Qed.

(** C36: A changed table is rejected. When a partition was found on a disk and one
    byte of the entries is then changed, the header being as it was, every search
    on the changed disk fails, with a transfer error or because the checksum of the
    entries does not fit. *)
Theorem changed_table_rejected d d' name name' p d1 k x y t :
  readable d -> readable d' -> find_partition d name = Ret (Ok p, d1) -> parse_header (sector d 1) = Ret (Ok t) ->
  sector d' 1 = sector d 1 -> Z.of_nat k < entries_bytes t -> table_of (sector d) t !! k = Some x -> x <> y ->
  table_of (sector d') t = <[k := y]> (table_of (sector d) t) ->
  exists r d2, find_partition d' name' = Ret (r, d2) /\ (r = Err Io \/ r = Err EntriesCrcMismatch).
Proof.
  intros Hr Hr' Hf Hp Hh Hk Hx Hne Ht. destruct (find_ok d name Hr) as (r & d1' & E & A & _). rewrite Hf in E. injection E as <- <-.
  destruct A as [|A]; [done|]. symmetry in A. destruct (find_ok d' name' Hr') as (r & d2 & E' & A' & _). exists r, d2. split; [done|].
  destruct A' as [|A']; [by left|right]. subst r. unfold answer in *. rewrite Hh, Hp. rewrite Hp in A.
  destruct (crc32 (take (Z.to_nat (entries_bytes t)) (table_of (sector d) t)) =? entries_crc t) eqn:Ec; [|done]. apply Z.eqb_eq in Ec.
  assert (k < Z.to_nat (entries_bytes t))%nat as Hk' by lia. pose proof (lookup_lt_Some _ _ _ Hx) as Hlt.
  assert (take (Z.to_nat (entries_bytes t)) (table_of (sector d) t) !! k = Some x) as Hx' by (by rewrite lookup_take_lt).
  assert (crc32 (take (Z.to_nat (entries_bytes t)) (table_of (sector d') t)) <> entries_crc t) as Hd.
  { rewrite Ht, take_insert_lt, <- Ec by done. set (l := take (Z.to_nat (entries_bytes t)) (table_of (sector d) t)) in *.
    assert (Forall is_u8 l) as Hl by (apply Forall_take, table_u8, Hr).
    rewrite (insert_take_drop l k y) by (by eapply lookup_lt_Some). rewrite <- (take_drop_middle l k x Hx') at 3.
    apply crc32_one_byte; [by apply Forall_take|by apply Forall_drop| |by eapply Forall_lookup_1|done].
    assert (Forall is_u8 (table_of (sector d') t)) as Hl' by (apply table_u8, Hr'). rewrite Ht in Hl'.
    eapply Forall_lookup_1; [exact Hl'|]. by apply list_lookup_insert_eq. }
  apply Z.eqb_neq in Hd. by rewrite Hd.
Qed.
End reader.
(** ** A disk with one partition *)

Definition BOOT : list Z := [98; 111; 111; 116].

Definition demo_entry (first last : Z) : list Z := [0xAF] ++ replicate 31 0 ++ codec.le64 first ++ codec.le64 last ++ replicate 8 0 ++ name_utf16 BOOT.
Definition demo_entries (first last : Z) : list Z := demo_entry first last ++ replicate 384 0.

Definition demo_fields (table : list Z) (crc : Z) : list Z :=
  SIGNATURE ++ replicate 4 0 ++ le_bytes 92 ++ le_bytes crc ++ replicate 52 0 ++ codec.le64 2 ++ le_bytes 4 ++ le_bytes 128 ++ le_bytes (crc32 table).
Definition demo_header (table : list Z) : list Z := demo_fields table (crc32 (demo_fields table 0)) ++ replicate 420 0.

(** A card with a header, a table and the sectors of [rest]. *)
Definition card_of (header table : list Z) (rest : gmap Z (list Z)) : MsdcBlockDevice Card :=
  mk_msdc (mk_card (<[1 := header]> (<[2 := table]> rest)) []) 64.

Lemma pad_u8 s : Forall is_u8 s -> Forall is_u8 (pad s).
Proof. intros H. apply Forall_take, Forall_app. split; [done|]. apply Forall_replicate. unfold is_u8. lia. Qed.

Lemma u8_check l : forallb (fun b => (0 <=? b) && (b <? 2 ^ 8)) l = true -> Forall is_u8 l.
Proof. intros H. apply Forall_forall. intros b Hb. eapply forallb_forall in H; [|by apply list_elem_of_In]. apply andb_prop in H as [?%Z.leb_le ?%Z.ltb_lt]. by split. Qed.

Lemma card_readable header table rest : Forall is_u8 header -> Forall is_u8 table -> map_Forall (fun _ s => Forall is_u8 s) rest ->
  readable (card_of header table rest).
Proof.
  intros Hh Ht Hr. split; [split; [discriminate|reflexivity]|]. intros i. apply pad_u8. cbn [card_of controller block.sectors].
  destruct (decide (i = 1)) as [->|H1]; [by rewrite lookup_insert_eq|]. rewrite lookup_insert_ne by done.
  destruct (decide (i = 2)) as [->|H2]; [by rewrite lookup_insert_eq|]. rewrite lookup_insert_ne by done.
  destruct (rest !! i) as [s|] eqn:E; [by apply Hr in E|constructor].
Qed.

Definition demo_table : list Z := demo_entries 2048 4095.
Definition demo_info : table_info := mk_info 2 4 128 (crc32 demo_table).
Definition demo_disk (table : list Z) : MsdcBlockDevice Card := card_of (demo_header demo_table) table ∅.

Lemma demo_readable table : forallb (fun b => (0 <=? b) && (b <? 2 ^ 8)) table = true -> readable (demo_disk table).
Proof. intros H. apply card_readable; [apply u8_check; vm_compute; reflexivity|by apply u8_check|apply map_Forall_empty]. Qed.

Lemma demo_found : find_partition (demo_disk demo_table) BOOT = Ret (Ok (mk_partition 2048 4095), demo_disk demo_table).
Proof. vm_compute. reflexivity. Qed.

Lemma demo_changed : find_partition (demo_disk (<[60%nat := 7]> demo_table)) BOOT = Ret (Err EntriesCrcMismatch, demo_disk (<[60%nat := 7]> demo_table)).
Proof. vm_compute. reflexivity. Qed.

Lemma find_partition_exact_witness :
  exists r d', find_partition (demo_disk demo_table) BOOT = Ret (r, d') /\ (forall i, sector d' i = sector (demo_disk demo_table) i) /\
  (r = Err Io \/ says (sector (demo_disk demo_table)) BOOT r) /\
  forall p, r = Ok p -> 0 <= first_lba p <= last_lba p /\ last_lba p < 2 ^ 64 - 1 /\ sectors p = last_lba p - first_lba p + 1.
Proof. refine (find_partition_exact (demo_disk demo_table) BOOT (demo_readable demo_table _)). vm_compute. reflexivity. Defined.

Lemma changed_table_rejected_witness :
  exists r d2, find_partition (demo_disk (<[60%nat := 7]> demo_table)) BOOT = Ret (r, d2) /\ (r = Err Io \/ r = Err EntriesCrcMismatch).
Proof.
  refine (changed_table_rejected (demo_disk demo_table) (demo_disk (<[60%nat := 7]> demo_table)) BOOT BOOT _ _ 60%nat 111 7 demo_info
    (demo_readable _ _) (demo_readable _ _) demo_found _ _ _ _ _ _).
  - vm_compute. reflexivity.
  - vm_compute. reflexivity.
  - vm_compute. reflexivity.
  - reflexivity.
  - vm_compute. reflexivity.
  - vm_compute. reflexivity.
  - lia.
  - vm_compute. reflexivity.
Defined.
End gpt.
