(* ===== verification/SecureBoot.v ===== *)
(** * The boot gate ([crates/thumos/src/secure_boot.rs])

    The check of the boot partition before storage is opened: the partition is
    located by name ([Gpt]), read through a partition view ([Block]) in pieces of
    eight sectors, hashed as it is read, and its trailing signature verified.
    Ed25519 and SHA-512 belong to packages outside the repository: they are the
    class [SignatureScheme], of which only is assumed that hashing a string in two
    pieces is hashing it whole. *)

From S2P Require Import Prelude Machine Block LfsMeta Gpt.
From Stdlib Require Import ZArith Lia.
Open Scope Z_scope.

Module secure_boot.
Import block codec.

Definition PUBLIC_KEY_LEN : Z := 32.
Definition SIGNATURE_LEN : Z := 64.
Definition MIN_IMAGE_SIZE : Z := SIGNATURE_LEN + 1.

Inductive SecureBootError := ImageTooShort | InvalidSignature | WrongPublicKey.

(** The packages [ed25519_dalek] and [sha2]. *)
Class SignatureScheme := {
  Key : Type;
  Sha512 : Type;
  key_from_bytes : list Z -> option Key;
  verify_strict : Key -> list Z -> list Z -> bool;
  sha_new : Sha512;
  sha_update : Sha512 -> list Z -> Sha512;
  verify_prehashed_strict : Key -> Sha512 -> list Z -> bool;
}.

Class SignatureSchemeLaws `{!SignatureScheme} := {
  update_app h a b : sha_update (sha_update h a) b = sha_update h (a ++ b);
}.

Section verify.
Context `{!SignatureScheme} (BOOT_PUBLIC_KEY : list Z).

Definition ed25519_verify (public_key message signature : list Z) : bool :=
  match key_from_bytes public_key with None => false | Some k => verify_strict k message signature end.

Definition verify_kernel_signature (image signature : list Z) : result () SecureBootError :=
  if bool_decide (image = []) then Err ImageTooShort else
  if ed25519_verify BOOT_PUBLIC_KEY image signature then Ok () else Err InvalidSignature.

Definition verify_userspace_image (image signature : list Z) : bool := is_ok (verify_kernel_signature image signature).

Definition verify_kernel_signature_with_key (image signature public_key : list Z) (require_boot_key : bool) : result () SecureBootError :=
  if require_boot_key && negb (bool_decide (public_key = BOOT_PUBLIC_KEY)) then Err WrongPublicKey else
  if ed25519_verify public_key image signature then Ok () else Err InvalidSignature.

Definition verify_message_signature (message signature public_key : list Z) : result () SecureBootError :=
  if ed25519_verify public_key message signature then Ok () else Err InvalidSignature.

Definition split_image (image : list Z) : result (list Z * list Z) SecureBootError :=
  if Z.of_nat (length image) <? MIN_IMAGE_SIZE then Err ImageTooShort else
  let split_at := (length image - Z.to_nat SIGNATURE_LEN)%nat in
  Ok (take split_at image, drop split_at image).

(** The body of [verify_combined_image_ph], for any key. *)
Definition verify_image_ph (public_key image : list Z) : result () SecureBootError :=
  match split_image image with
  | Err e => Err e
  | Ok (payload, signature) =>
      match key_from_bytes public_key with
      | None => Err InvalidSignature
      | Some k => if verify_prehashed_strict k (sha_update sha_new payload) signature then Ok () else Err InvalidSignature
      end
  end.

Definition verify_combined_image_ph (image : list Z) : result () SecureBootError := verify_image_ph BOOT_PUBLIC_KEY image.

Definition CHUNK_SECTORS : Z := 4 * 1024 / SECTOR_SIZE.

Section streamed.
Context {D : Type} `{!BlockDevice D}.

(** The state of the loop. *)
Record stream := mk_stream { s_dev : D; s_lba : Z; s_hash : Sha512; s_signature : list Z; s_chunk : list Z }.

(** One turn: a piece is read, and its bytes go to the hash and to the signature. *)
Definition stream_step (total_sectors payload_bytes : Z) (s : stream) : outcome (result stream SecureBootError * D) :=
  let remaining_sectors := total_sectors - s_lba s in
  let count := if remaining_sectors <? CHUNK_SECTORS then remaining_sectors else CHUNK_SECTORS in
  let take_bytes := Z.to_nat (count * SECTOR_SIZE) in
  window ← slice (s_chunk s) 0 take_bytes;
  match read_sectors (s_dev s) (s_lba s) count window with
  | (Err _, _, d) => Ret (Err InvalidSignature, d)
  | (Ok _, window, d) =>
      let chunk := window ++ drop take_bytes (s_chunk s) in
      let chunk_start := wrap64 (s_lba s * SECTOR_SIZE) in
      let chunk_end := wrap64 (chunk_start + Z.of_nat take_bytes) in
      '(hash, signature) ←
        (if chunk_end <=? payload_bytes then
           bytes ← slice chunk 0 take_bytes; Ret (sha_update (s_hash s) bytes, s_signature s)
         else if payload_bytes <=? chunk_start then
           let off := Z.to_nat (chunk_start - payload_bytes) in
           _ ← slice (s_signature s) off take_bytes;
           bytes ← slice chunk 0 take_bytes; Ret (s_hash s, put (s_signature s) off bytes)
         else
           let cut := Z.to_nat (payload_bytes - chunk_start) in
           bytes ← slice chunk 0 cut;
           tail ← slice chunk cut (take_bytes - cut);
           _ ← slice (s_signature s) 0 (take_bytes - cut);
           Ret (sha_update (s_hash s) bytes, put (s_signature s) 0 tail));
      Ret (Ok (mk_stream d (s_lba s + count) hash signature chunk), d)
  end.

Fixpoint stream_loop (fuel : nat) (total_sectors payload_bytes : Z) (s : stream) : outcome (result stream SecureBootError * D) :=
  if total_sectors <=? s_lba s then Ret (Ok s, s_dev s) else
  match fuel with
  | O => Panic
  | S fuel =>
      '(r, d) ← stream_step total_sectors payload_bytes s;
      match r with Err e => Ret (Err e, d) | Ok s => stream_loop fuel total_sectors payload_bytes s end
  end.

(** [u64::saturating_mul]. *)
Definition saturating_mul (a b : Z) : Z := Z.min (a * b) (2 ^ 64 - 1).

Definition verify_image_streamed (d : D) (total_sectors : Z) (public_key : list Z) : outcome (result () SecureBootError * D) :=
  let total_bytes := saturating_mul total_sectors SECTOR_SIZE in
  if total_bytes <? MIN_IMAGE_SIZE then Ret (Err ImageTooShort, d) else
  match key_from_bytes public_key with
  | None => Ret (Err InvalidSignature, d)
  | Some k =>
      let payload_bytes := total_bytes - SIGNATURE_LEN in
      let s := mk_stream d 0 sha_new (replicate (Z.to_nat SIGNATURE_LEN) 0) (replicate (Z.to_nat (4 * 1024)) 0) in
      '(r, d) ← stream_loop (Z.to_nat total_sectors) total_sectors payload_bytes s;
      match r with
      | Err e => Ret (Err e, d)
      | Ok s => Ret (if verify_prehashed_strict k (s_hash s) (s_signature s) then Ok () else Err InvalidSignature, d)
      end
  end.
End streamed.

(** ** The gate *)

Inductive BootImageSource (D : Type) :=
  Present (image : list Z) | PresentStreamed (dev : PartitionBlockDevice D) (n : Z) | Unreadable | Absent.
#[global] Arguments Present {D} image.
#[global] Arguments PresentStreamed {D} dev n.
#[global] Arguments Unreadable {D}.
#[global] Arguments Absent {D}.

Inductive SecureBootDecision := Proceed (verified : bool) | Halt (e : SecureBootError).

Definition decision (r : result () SecureBootError) : SecureBootDecision := match r with Ok _ => Proceed true | Err e => Halt e end.

Section gate.
Context {D : Type} `{!BlockDevice D}.

Definition evaluate_boot_image (src : BootImageSource D) : outcome SecureBootDecision :=
  match src with
  | Present image => Ret (decision (verify_combined_image_ph image))
  | PresentStreamed dev n => '(r, _) ← verify_image_streamed dev n BOOT_PUBLIC_KEY; Ret (decision r)
  | Unreadable => Ret (Halt ImageTooShort)
  | Absent => Ret (Proceed false)
  end.

(** "boot". *)
Definition BOOT : list Z := [98; 111; 111; 116].

Definition boot_image_source (d : D) : outcome (BootImageSource D) :=
  '(r, d) ← gpt.find_partition d BOOT;
  Ret (match r with
       | Ok p => PresentStreamed (mk_partition d (gpt.first_lba p) (gpt.sectors p)) (gpt.sectors p)
       | Err _ => Unreadable
       end).

(** The step of the boot sequence ([kinit.rs]), given the device when there is
    one: [None] is a halted boot, [Some] what [secure_boot_ok] is afterwards. *)
Definition boot_gate (BOOT_KEY_IS_PRODUCTION : bool) (phys_dev : option D) : outcome (option bool) :=
  src ← match phys_dev with Some d => boot_image_source d | None => Ret Absent end;
  dec ← evaluate_boot_image src;
  Ret (match dec with
       | Proceed true => Some BOOT_KEY_IS_PRODUCTION
       | Proceed false => Some false
       | Halt _ => None
       end).
End gate.
End verify.
(** ** Streaming is reading the whole image *)

Section streaming.
Context {SS : SignatureScheme} {SL : @SignatureSchemeLaws SS} {D : Type} `{!BlockDevice D, !BlockDeviceLaws D}.

(** Devices of fewer than 2^55 sectors, as reads leave them. *)
Context (Small : D -> Prop).
Context (Small_ok : forall d, Small d -> dev_ok d).
Context (Small_read : forall d lba n buf r buf' d', Small d -> 0 <= lba -> 0 <= n < 2 ^ 23 -> read_sectors d lba n buf = (r, buf', d') -> Small d').
Context (Small_end : forall d lba n buf buf' d', Small d -> 0 <= lba -> 0 <= n < 2 ^ 23 -> read_sectors d lba n buf = (Ok (), buf', d') -> lba + n < 2 ^ 55).

(** The first [n] sectors. *)
Definition image (d : D) (n : Z) : list Z := mjoin (sector d <$> seqZ 0 n).

Lemma length_sectors d l : dev_ok d -> length (mjoin (sector d <$> l)) = (length l * Z.to_nat SECTOR_SIZE)%nat.
Proof using Type.
  intros Hd. induction l as [|x l IH]; [done|]. rewrite fmap_cons. change (length (sector d x ++ mjoin (sector d <$> l)) = (length (x :: l) * Z.to_nat SECTOR_SIZE)%nat).
  rewrite length_app, sector_length by done. cbn [length]. lia.
Qed.

Lemma length_image d n : dev_ok d -> 0 <= n -> Z.of_nat (length (image d n)) = n * 512.
Proof using Type. intros Hd Hn. unfold image. rewrite length_sectors, length_seqZ by done. unfold SECTOR_SIZE. lia. Qed.

Lemma image_app d n k : 0 <= n -> 0 <= k -> image d (n + k) = image d n ++ mjoin (sector d <$> seqZ n k).
Proof using Type. intros Hn Hk. unfold image. rewrite seqZ_app by done. rewrite fmap_app. by rewrite join_app. Qed.

(** The bytes that are signed, as [verify_image_streamed] computes them. *)
Definition split_ok (total payload : Z) : Prop :=
  (total < 2 ^ 55 /\ payload = total * 512 - 64) \/ (2 ^ 55 <= total /\ payload = 2 ^ 64 - 65).

(** Every read of the device succeeds. *)
Definition served (d : D) (total : Z) : Prop := steady d /\ total <= sector_count d.

Record streaming (d0 : D) (total payload : Z) (s : stream) : Prop := {
  st_dev : Small (s_dev s) /\ forall i, sector (s_dev s) i = sector d0 i;
  st_same : served d0 total -> s_dev s = d0;
  st_lba : 0 <= s_lba s <= total;
  st_chunk : length (s_chunk s) = Z.to_nat 4096;
  st_signature : length (s_signature s) = 64%nat;
  st_hash : s_lba s = 0 /\ s_hash s = sha_new \/ 0 < s_lba s < 2 ^ 55 /\ s_hash s = sha_update sha_new (take (Z.to_nat payload) (image d0 (s_lba s)));
  st_tail : s_lba s = total -> s_signature s = drop (Z.to_nat payload) (image d0 total);
}.

Lemma absorb h d0 lba payload w :
  (lba = 0 /\ h = sha_new \/ 0 < lba < 2 ^ 55 /\ h = sha_update sha_new (take (Z.to_nat payload) (image d0 lba))) ->
  Z.of_nat (length (image d0 lba)) <= payload -> sha_update h w = sha_update sha_new (image d0 lba ++ w).
Proof using SL.
  intros [[-> ->]|[_ ->]] Hl; [done|]. rewrite update_app, take_ge by lia. done.
Qed.

Lemma put_all sig tail : length sig = length tail -> put sig 0 tail = tail.
Proof using Type. intros E. unfold put. rewrite take_0, drop_ge, app_nil_r by lia. done. Qed.

Lemma chunk_count total lba : lba < total ->
  let remaining := total - lba in
  let count := if remaining <? CHUNK_SECTORS then remaining else CHUNK_SECTORS in 0 < count <= 8 /\ lba + count <= total.
Proof using Type. intros Hlt. cbv zeta. change CHUNK_SECTORS with 8. destruct (Z.ltb_spec (total - lba) 8); lia. Qed.

Lemma sector_bytes n : 0 <= n -> Z.of_nat (Z.to_nat (n * SECTOR_SIZE)) = n * 512.
Proof using Type. intros Hn. unfold SECTOR_SIZE. lia. Qed.

Lemma stream_step_ok d0 total payload s : Small d0 -> split_ok total payload -> streaming d0 total payload s -> s_lba s < total ->
  exists r d, stream_step total payload s = Ret (r, d) /\ (forall i, sector d i = sector d0 i) /\
  match r with
  | Err e => e = InvalidSignature /\ ~ served d0 total
  | Ok s' => streaming d0 total payload s' /\ s_lba s < s_lba s'
  end.
Proof using SL Small_ok Small_read Small_end.
  intros H0 Hsplit Hst Hlt. unfold stream_step. pose proof (chunk_count total (s_lba s) Hlt) as Hc. cbv zeta in Hc |- *.
  set (count := if _ <? CHUNK_SECTORS then _ else _) in *. clearbody count. destruct Hst as [[Hh Hsec] Hsame [Hl0 Hl1] Hch Hsg Hhash _].
  pose proof (sector_bytes count ltac:(lia)) as Htb. set (n := Z.to_nat (count * SECTOR_SIZE)) in *. clearbody n.
  rewrite (slice_ret (s_chunk s) 0 n) by lia. cbn [mbind outcome_bind]. rewrite drop_0. destruct (read_sectors _ _ _ _) as [[r w] d] eqn:Er.
  destruct (read_same (s_dev s) (s_lba s) count _ _ _ _ (Small_ok _ Hh) Hl0 ltac:(lia) Er) as (_ & _ & S1 & L1).
  assert (forall i, sector d i = sector d0 i) as Hsec' by (intros i; by rewrite S1). destruct r as [[]|e].
  2: { eexists _, d. split; [reflexivity|]. split; [done|]. split; [done|]. intros Hsv. rewrite (Hsame Hsv) in Er. destruct Hsv as [Hsteady Hcnt].
       destruct (Hsteady (s_lba s) count (take n (s_chunk s))) as [b Eb]; [lia|lia|lia|rewrite length_take; unfold SECTOR_SIZE; lia|]. congruence. }
  pose proof (Small_end (s_dev s) (s_lba s) count _ _ _ Hh Hl0 ltac:(lia) Er) as Hend. pose proof (Small_read (s_dev s) (s_lba s) count _ _ _ _ Hh Hl0 ltac:(lia) Er) as Hh'.
  destruct (read_ok (s_dev s) (s_lba s) count _ _ _ (Small_ok _ Hh) Hl0 ltac:(lia) Er) as [_ Ew].
  assert (image d0 (s_lba s + count) = image d0 (s_lba s) ++ w) as Himg.
  { rewrite image_app, Ew by lia. f_equal. f_equal. apply list_fmap_ext. intros ? i _. symmetry. apply Hsec. }
  pose proof (length_image d0 (s_lba s) (Small_ok _ H0) Hl0) as Hli. assert (length w = n) as Hw by (rewrite length_take in L1; lia).
  assert (served d0 total -> d = d0) as Hsame'.
  { intros Hsv. rewrite (Hsame Hsv) in Er. destruct Hsv as [Hsteady Hcnt].
    destruct (Hsteady (s_lba s) count (take n (s_chunk s))) as [b Eb]; [lia|lia|lia|rewrite length_take; unfold SECTOR_SIZE; lia|]. congruence. }
  assert (wrap64 (s_lba s * SECTOR_SIZE) = s_lba s * 512) as -> by (unfold wrap64, SECTOR_SIZE; apply Z.mod_small; lia).
  assert (wrap64 (s_lba s * 512 + Z.of_nat n) = (s_lba s + count) * 512) as -> by (unfold wrap64; rewrite Z.mod_small; lia).
  assert (length (w ++ drop n (s_chunk s)) = Z.to_nat 4096) as Hch' by (rewrite length_app, length_drop; lia).
  destruct (Z.leb_spec ((s_lba s + count) * 512) payload) as [Hwhole|Hcut].
  - rewrite slice_ret by lia. cbn [mbind outcome_bind]. rewrite drop_0, <- Hw, take_app_length.
    eexists _, d. split; [reflexivity|]. split; [done|]. split; [|cbn [s_lba]; lia].
    split; cbn [s_dev s_lba s_hash s_signature s_chunk]; try done; [lia|rewrite Hw; done| |].
    + right. split; [lia|]. rewrite (absorb _ d0 (s_lba s) payload w Hhash) by lia. rewrite Himg, take_ge by (rewrite length_app; lia). done.
    + intros E. exfalso. destruct Hsplit as [[? ->]|[? ->]]; lia.
  - assert (total < 2 ^ 55 /\ payload = total * 512 - 64 /\ s_lba s + count = total) as (Ht & Hpay & Hlast) by (destruct Hsplit as [[? ->]|[? ->]]; lia).
    rewrite (proj2 (Z.leb_gt _ _)) by lia. set (cut := Z.to_nat (payload - s_lba s * 512)). assert (Z.of_nat cut = payload - s_lba s * 512 /\ (cut + 64 = n)%nat) as [Hcz Hcn] by (unfold cut; lia).
    clearbody cut. rewrite (slice_ret _ 0 cut), (slice_ret _ cut (n - cut)), (slice_ret (s_signature s)) by lia. cbn [mbind outcome_bind].
    rewrite drop_0, take_app_le, drop_app_le by lia. rewrite (take_app_le (drop cut w)) by (rewrite length_drop; lia). rewrite (take_ge (drop cut w)) by (rewrite length_drop; lia).
    assert (length (drop cut w) = 64%nat) as Hlt64 by (rewrite length_drop; lia). rewrite put_all by lia.
    eexists _, d. split; [reflexivity|]. split; [done|]. split; [|cbn [s_lba]; lia].
    split; cbn [s_dev s_lba s_hash s_signature s_chunk]; try done; [lia| |].
    + right. split; [lia|]. rewrite (absorb _ d0 (s_lba s) payload (take cut w) Hhash) by lia. rewrite Himg, take_app_ge by lia.
      do 3 f_equal. lia.
    + intros _. rewrite <- Hlast, Himg, drop_app_ge by lia. f_equal. lia.
Qed.

Lemma stream_loop_ok d0 total payload fuel : forall s, Small d0 -> split_ok total payload -> streaming d0 total payload s -> total - s_lba s <= Z.of_nat fuel ->
  exists r d, stream_loop fuel total payload s = Ret (r, d) /\ (forall i, sector d i = sector d0 i) /\
  match r with
  | Err e => e = InvalidSignature /\ ~ served d0 total
  | Ok s' => streaming d0 total payload s' /\ s_lba s' = total
  end.
Proof using SL Small_ok Small_read Small_end.
  induction fuel as [|fuel IH]; intros s H0 Hsplit Hst Hf; cbn [stream_loop]; destruct (Z.leb_spec total (s_lba s)) as [Hd|Hlt].
  1, 3: eexists _, _; split; [reflexivity|]; split; [apply Hst|]; split; [done|]; pose proof (st_lba _ _ _ _ Hst); lia.
  - lia.
  - destruct (stream_step_ok d0 total payload s H0 Hsplit Hst Hlt) as (r & d & E & Hs & Hr). rewrite E. cbn [mbind outcome_bind].
    destruct r as [s'|e]; [|by eexists _, d]. destruct Hr as [Hst' Hadv]. apply IH; [done|done|done|lia].
Qed.

Lemma streamed_ok d total key : Small d -> 0 <= total ->
  exists r d', verify_image_streamed d total key = Ret (r, d') /\ (forall i, sector d' i = sector d i) /\
  (r = verify_image_ph key (image d total) \/ r = Err InvalidSignature /\ ~ served d total).
Proof using SL Small_ok Small_read Small_end.
  intros Hd Ht. unfold verify_image_streamed, verify_image_ph, split_image, saturating_mul. rewrite (length_image d total (Small_ok _ Hd) Ht).
  change MIN_IMAGE_SIZE with 65. change SECTOR_SIZE with 512. change SIGNATURE_LEN with 64.
  destruct (Z.ltb_spec (Z.min (total * 512) (2 ^ 64 - 1)) 65) as [Hs|Hs].
  { rewrite (proj2 (Z.ltb_lt _ _)) by lia. eexists _, d. split; [reflexivity|]. split; [done|]. by left. }
  rewrite (proj2 (Z.ltb_ge _ _)) by lia. destruct (key_from_bytes key) as [k|]; [|eexists _, d; split; [reflexivity|]; split; [done|]; by left].
  set (payload := Z.min (total * 512) (2 ^ 64 - 1) - 64). assert (split_ok total payload) as Hsplit by (unfold split_ok, payload; lia).
  set (s0 := mk_stream _ _ _ _ _). assert (streaming d total payload s0) as Hst.
  { split; cbn [s_dev s_lba s_hash s_signature s_chunk s0]; [done|done|lia|apply length_replicate|apply length_replicate|by left|lia]. }
  destruct (stream_loop_ok d total payload (Z.to_nat total) s0 Hd Hsplit Hst) as (r & d' & E & Hsec & Hr); [cbn [s_lba s0]; lia|].
  rewrite E. cbn [mbind outcome_bind]. destruct r as [s'|e]; [|destruct Hr as [-> Hr]; eexists _, d'; split; [reflexivity|]; split; [done|]; by right].
  destruct Hr as [Hs' Hlast]. eexists _, d'. split; [reflexivity|]. split; [done|]. left.
  rewrite (st_tail _ _ _ _ Hs' Hlast). destruct (st_hash _ _ _ _ Hs') as [[Hz _]|[Hlt ->]]; [lia|]. rewrite Hlast in *.
  assert (Z.to_nat payload = (length (image d total) - Z.to_nat 64)%nat) as Hp.
  { pose proof (length_image d total (Small_ok _ Hd) Ht). unfold payload. lia. }
  by rewrite Hp.
Qed.
End streaming.

(** ** A partition view over a device *)

Section gate_laws.
Context {SS : SignatureScheme} {SL : @SignatureSchemeLaws SS} {D : Type} `{!BlockDevice D, !BlockDeviceLaws D}.

Definition small_view (v : PartitionBlockDevice D) : Prop := partition_ok v /\ sector_count (inner v) < 2 ^ 55.

Lemma translate_end (v : PartitionBlockDevice D) lba n phys : translate v lba n = Ok phys -> phys = base_lba v + lba /\ base_lba v + lba + n <= sector_count (inner v).
Proof. unfold translate, checked_add. intros E. repeat (case_match; simplify_eq). bool_hyps. lia. Qed.

Lemma view_read v lba n buf r buf' v' : small_view v -> 0 <= lba -> 0 <= n < 2 ^ 23 -> read_sectors v lba n buf = (r, buf', v') -> small_view v'.
Proof.
  intros [Hv Hc] Hl Hn E. pose proof (read_same v lba n buf r buf' v' Hv Hl Hn E) as (Hv' & _). split; [exact Hv'|].
  cbn [read_sectors partition_device] in E. unfold partition_read_sectors in E. destruct (translate v lba n) as [phys|] eqn:Et; [|congruence].
  apply translate_end in Et as [-> _]. destruct (read_sectors (inner v) _ n buf) as [[r0 b0] d0] eqn:Er. injection E as <- <- <-.
  apply read_same in Er as (_ & C & _); [|apply Hv|destruct Hv as (_ & ? & _); lia|done]. cbn [inner with_inner]. lia.
Qed.

Lemma view_end v lba n buf buf' v' : small_view v -> 0 <= lba -> 0 <= n < 2 ^ 23 -> read_sectors v lba n buf = (Ok (), buf', v') -> lba + n < 2 ^ 55.
Proof.
  intros [(_ & Hb & _) Hc] Hl Hn E. cbn [read_sectors partition_device] in E. unfold partition_read_sectors in E.
  destruct (translate v lba n) as [phys|] eqn:Et; [|congruence]. apply translate_end in Et as [_ He]. lia.
Qed.

(** C9: Streaming verifies the whole image. Over any partition view, the
    verification that reads eight sectors at a time does not panic, ends, and
    returns what verifying the whole image in memory returns; when a read fails it
    reports an invalid signature, and it does so only then. *)
Theorem streamed_equals_in_memory v total key : partition_ok v -> sector_count (inner v) < 2 ^ 55 -> 0 <= total ->
  exists r v', verify_image_streamed v total key = Ret (r, v') /\ (forall i, sector v' i = sector v i) /\
  (r = verify_image_ph key (image v total) \/ r = Err InvalidSignature /\ ~ served v total).
Proof using SL.
  intros Hv Hc Ht. apply (streamed_ok small_view); [by intros ? []|exact view_read|exact view_end|by split|done].
Qed.

(** C8: Trust needs a signature. The boot step does not panic. Without a boot
    medium the kernel stays untrusted. With one, it becomes trusted only when it was
    built with a production key and the partition that an intact table names "boot"
    holds, from its first to its last sector, an image whose signature verifies
    under that key; an image that verifies under a development key leaves it
    untrusted, and in every other case the boot halts. *)
Theorem trust_needs_a_signature key production (dev : option D) :
  (forall d, dev = Some d -> gpt.readable d /\ sector_count d < 2 ^ 55) ->
  exists r, boot_gate key production dev = Ret r /\
  match dev with
  | None => r = Some false
  | Some d => r = None \/ r = Some production /\
      exists p, gpt.answer (sector d) BOOT = Ok p /\
      verify_image_ph key (mjoin (sector d <$> seqZ (gpt.first_lba p) (gpt.last_lba p - gpt.first_lba p + 1))) = Ok ()
  end.
Proof using SL.
  intros Hdev. destruct dev as [d|]; [|by exists (Some false)]. destruct (Hdev d eq_refl) as [Hr Hc]. unfold boot_gate, boot_image_source.
  destruct (gpt.find_ok d BOOT Hr) as (r & d' & E & A & S & Hd' & C'). rewrite E. cbn [mbind outcome_bind].
  destruct r as [p|e]; [|exists None; split; [reflexivity|by left]]. destruct A as [|A]; [done|].
  destruct (gpt.answer_extent d BOOT p Hr A) as (Hp & Hm & Hs).
  cbn [evaluate_boot_image]. rewrite Hs. set (v := mk_partition d' _ _). assert (small_view v) as Hv by (split; [split; [done|split; cbn; lia]|cbn; lia]).
  destruct (streamed_ok small_view ltac:(by intros ? []) view_read view_end v (gpt.last_lba p - gpt.first_lba p + 1) key Hv ltac:(lia)) as (r & v' & Ev & _ & Av).
  rewrite Ev. cbn [mbind outcome_bind]. eexists. split; [reflexivity|]. destruct r as [[]|e]; [|by left]. right. split; [done|].
  exists p. split; [done|]. destruct Av as [Av|[? _]]; [|done]. rewrite Av. f_equal. unfold image.
  rewrite <- (Z.add_0_r (gpt.first_lba p)), <- (fmap_add_seqZ (gpt.first_lba p) 0), <- list_fmap_compose. f_equal.
  apply list_fmap_ext. intros ? i _. cbn. by rewrite S.
Qed.
End gate_laws.
(** ** A signed disk, under a toy scheme: a signature repeats the sum of the bytes *)

Definition toy_check (message signature : list Z) : bool := bool_decide (signature = replicate 64 (foldr Z.add 0 message mod 256)).

#[local] Instance toy_scheme : SignatureScheme := {|
  Key := (); Sha512 := list Z;
  key_from_bytes bs := if (length bs =? 32)%nat then Some () else None;
  verify_strict _ := toy_check; sha_new := []; sha_update h b := h ++ b; verify_prehashed_strict _ := toy_check;
|}.

#[local] Instance toy_laws : SignatureSchemeLaws.
Proof. split. intros h a b. symmetry. apply app_assoc. Qed.

Definition toy_key : list Z := replicate 32 1.
Definition signed_image : list Z := let payload := replicate 960 3 in payload ++ replicate 64 (foldr Z.add 0 payload mod 256).

Definition signed_disk (img : list Z) : MsdcBlockDevice Card :=
  gpt.card_of (gpt.demo_header (gpt.demo_entries 4 5)) (gpt.demo_entries 4 5) (<[4 := take 512 img]> {[5 := drop 512 img]}).

Lemma signed_readable img : Forall is_u8 img -> gpt.readable (signed_disk img) /\ sector_count (signed_disk img) < 2 ^ 55.
Proof.
  intros Hi. split; [|reflexivity]. apply gpt.card_readable; [apply gpt.u8_check; vm_compute; reflexivity|apply gpt.u8_check; vm_compute; reflexivity|].
  apply map_Forall_insert_2; [by apply Forall_take|]. apply map_Forall_singleton. by apply Forall_drop.
Qed.

Lemma signed_boots : boot_gate toy_key true (Some (signed_disk signed_image)) = Ret (Some true).
Proof. vm_compute. reflexivity. Qed.

Lemma tampered_halts : boot_gate toy_key true (Some (signed_disk (<[100%nat := 4]> signed_image))) = Ret None.
Proof. vm_compute. reflexivity. Qed.

Lemma signed_u8 : Forall is_u8 signed_image.
Proof. apply gpt.u8_check. vm_compute. reflexivity. Qed.

Lemma trust_needs_a_signature_witness :
  exists r, boot_gate toy_key true (Some (signed_disk signed_image)) = Ret r /\
  (r = None \/ r = Some true /\ exists p, gpt.answer (sector (signed_disk signed_image)) BOOT = Ok p /\
    verify_image_ph toy_key (mjoin (sector (signed_disk signed_image) <$> seqZ (gpt.first_lba p) (gpt.last_lba p - gpt.first_lba p + 1))) = Ok ()).
Proof.
  refine (trust_needs_a_signature toy_key true (Some (signed_disk signed_image)) _).
  intros d [= <-]. exact (signed_readable signed_image signed_u8).
Defined.

Lemma streamed_equals_in_memory_witness :
  exists r v', verify_image_streamed (mk_partition (signed_disk signed_image) 4 2) 2 toy_key = Ret (r, v') /\
  (forall i, sector v' i = sector (mk_partition (signed_disk signed_image) 4 2) i) /\
  (r = verify_image_ph toy_key (image (mk_partition (signed_disk signed_image) 4 2) 2) \/ r = Err InvalidSignature /\ ~ served (mk_partition (signed_disk signed_image) 4 2) 2).
Proof.
  refine (streamed_equals_in_memory (mk_partition (signed_disk signed_image) 4 2) 2 toy_key _ _ _).
  - split; [apply (signed_readable signed_image signed_u8)|cbn; lia].
  - reflexivity.
  - lia.
Defined.
End secure_boot.
